(* ===== verification/_CoqProject ===== *)
-Q . S2P
Prelude.v
Cacheio.v
Heap.v
Token.v
ParseOpt.v
Notlist.v
Wildmat.v
ParseDev.v
ConfDb.v
Base64.v
ConfParse.v
Exports.v
ExportsRT.v
Client.v
Hosts.v
ExportTab.v
Nsm.v
Xio.v
Xtab.v
V4root.v
Auth.v
Lookup.v
Fsloc.v
Fsid.v
Upcall.v
Statd.v
Monitor.v
SmNotify.v
MntOpts.v
Probe.v
Stropts.v
Negotiate.v
MountRun.v
MntConf.v
Mntent.v
MountMain.v
Umount.v
Idmap.v
Idmapd.v
Blkmap.v
Systemd.v
Exportfs.v
ExportfsMap.v
ExportfsLock.v
Rmtab.v
Mountd.v
Cld.v
CldSafe.v
