(* ===== verification/Prelude.v ===== *)
(** * A verification of the core logic of nfs-utils

    nfs-utils is the user-space side of the Linux NFS client and server.  Its
    commands and daemons share a library (src/support) and differ in what they
    drive.  Server side: exportfs, mountd and exportd turn /etc/exports into
    entries of a table and answer the kernel's questions about clients and paths
    over a text channel.  Client side: mount.nfs parses a device name and an
    option string, negotiates with the server and calls mount(2).  Locking: statd
    keeps a record on disk of each peer it monitors, and after a reboot sm-notify
    tells those peers.  Helpers of the kernel: nfsdcld remembers clients across
    restarts of the server, rpc.idmapd turns ids into names and back, blkmapd builds
    the devices of block layouts.  All read their settings through one configuration
    library.

    This library models the parts whose behaviour is decided by the C code itself
    rather than by the kernel, the network or a library: what is written to and
    read from text, the tables and lists in memory, and the files on disk.  The
    definitions follow the sources function by function, with their names.

    ** Files, in order of dependency

    - [Prelude]: C strings, characters, numbers and the functions of the C library
      that the sources call; the tactics and hint databases of the development.
    - [Cacheio] (support/nfs/cacheio.c): the words of the kernel cache channel.  A
      buffer is what has been written and the room left; -1 is its error mark.
      Theorems: what qword_add and qword_addhex write, qword_get reads back;
      how many bytes each may store.
    - [Heap]: an explicit store with allocation that may fail, a state and error
      monad on it with bad accesses as a result of their own, and doubly linked
      lists as a predicate on the store.  [Token], [ParseOpt]
      (utils/mount/token.c, parse_opt.c) and [Notlist] (utils/statd/notlist.c)
      run on it.  Theorems: memory safety of building an option list when any
      allocation fails; po_split is splitting at unquoted commas; po_join and
      po_split are inverse; removal, lookup and copying are those of lists; the
      timer list stays sorted; nlist_kill reads freed memory.
    - [Wildmat] (support/nfs/wildmat.c): the matcher decides the language of a
      well-formed pattern.
    - [ParseDev] (utils/mount/parse_dev.c): the in-place parser of host:path
      computes a specification on strings.
    - [ConfDb], [Base64] (support/nfs/conffile.c): the hash chains of bindings,
      transactions, lookups with $name expansion, base 64.  Theorems: commit and
      lookup refine a map from section, sub-section and tag, where no tag is in two
      sub-sections (there the code loses entries); when expansion ends and when it does not; the
      decoder accepts exactly the canonical encodings.
    - [ConfParse] (support/nfs/conffile.c): lines, files, includes, conf.d and the
      dump.  Theorems: a dump loads to the configuration it came from, for names and
      values that a dump can express; the last
      setting wins across files.
    - [Exports], [ExportsRT] (support/nfs/exports.c): the options of an export and
      their printing.  Theorems: the options printed for an entry parse back to
      it, flavor by flavor; a flag reaches exactly the flavors it should; the
      flavor array is not overrun.
    - [Client] (support/export/client.c, hostname.c): client identifiers, netmasks,
      the table of clients and the checks of an address against a client, which
      use [Wildmat].  Theorems: the domain of an address lists exactly the clients
      that accept it, in an order of its own; a subnetwork accepts exactly its
      prefix; the table has one record per name.
    - [Hosts]: when a name service resolves a set of single hosts and keeps them
      apart, what a client name becomes ([canon]) and the lookups it gives; the
      theorems on etab, exportfs and the pseudo root file system rest on it.
    - [ExportTab] (support/export/export.c): the exports of [Exports] on linked
      lists with hash buckets, and their clients.  Theorems: a bucket finds what
      the list holds; what is created is found; the export for an address is the
      first that fits; reading a file counts what it adds.
    - [Nsm] (support/nsm/file.c): the files of statd as a disk whose every call can
      fail and which records each state it passes through.  Theorems, by a small
      crash logic: a file is replaced atomically; a host's file implements a list
      of records; no insertion, deletion, retirement or stop loses a record; the
      state number is odd and grows.
    - [Xio] (support/nfs/xio.c, getexportent of exports.c): the reader of
      /etc/exports and etab over characters, with its line joining, comments,
      quotes, octal escapes and the static entries kept between calls.  Theorems:
      the lines printed by [Exports] are read back as the same entries, exports
      without flavors with the flavor sys; the reader ends; what it does to long words, to escapes of escapes and with the memory
      it shares between entries.
    - [Xtab] (support/export/xtab.c, export_freeall): etab as a text written by one
      process and read by another, and the comparison before a rename.  Theorems:
      the reader ends with exactly the exports the writer marked, for clients of
      every kind; freeing a
      table releases every client once.
    - [V4root] (support/export/v4root.c): the pseudo root file system.  Theorem:
      every directory above an export is exported to its client, although the walk
      adds to the lists it goes through.
    - [Auth] (support/export/auth.c): the answer to a mount request and the reload
      of a changed etab.  Theorems: the longest exported directory above the path
      decides; after reloads that get the lock the table in memory is that of the
      text in etab (a reload that does not get it leaves none); the per-walk cache of
      client checks is transparent.
    - [Lookup] (support/export/cache.c, path matching and lookup_export): Theorems:
      the optimised walk is the plain one; the export returned is the best by a
      total preorder, also where a directory has several names.
    - [Fsloc] (support/export/fsloc.c, support/junction/path.c, the junction part of
      cache.c): referrals and path arrays.  Theorems: the two text forms round
      trip; what malformed items and second locations do.
    - [Fsid] (support/export/cache.c, support/misc/mountpoint.c, nfsd_path.c): file
      identifiers, UUIDs, the answer to a file handle, with what the search caches
      and the subvolumes it makes appear, and the queue of delayed requests.  Theorems: which export a file handle gets and when it is refused;
      a delayed request is retried within a bound.
    - [Upcall] (support/export/cache.c): the lines written to the kernel for
      clients, groups, exports, and the expiry of submounts.  Theorems: a line is
      complete or not written; it names what was asked; which directories expire.
    - [Statd] (utils/statd: hostname.c, monitor.c, callback.c, rmtcall.c, stat.c,
      simu.c): the procedures of the status monitor on the lists of [Notlist] and
      the files of [Nsm], the notices from peers and the calls back to the lock
      manager.  Theorems: a notice queues a call for exactly the entries it
      concerns; a round over the calls ends; what each reply does.
    - [Monitor]: over any sequence of requests, notices and restarts the list in
      memory and the records on disk are one map from pairs of names to cookies;
      what an alias and a second procedure do to it.
    - [SmNotify] (utils/statd/sm-notify.c): the queue of hosts to notify after a
      reboot, over turns of its loop in which the clock and the datagrams are
      arbitrary.  Theorems: a record leaves the disk only when a reply to the notice
      sent to its host has come in; the pace of retries; the handshake that ends with the record
      removed; the loss of the first address.
    - [MntOpts] (the option readers of utils/mount/network.c, the netid tables of
      support/nfs/getport.c): what version, transport, ports and programs an option
      list asks for, on lists that [po_operations] ties to the store of [ParseOpt].
      Theorem: the meaning of a version option.
    - [Probe] (utils/mount/network.c): the state of the mount command, the world it
      asks, and the probing of a server for its versions, transports and ports.
    - [Stropts] (utils/mount/stropts.c): the whole of a mount by option string: the
      checks, the negotiation of the version, the calls of mount(2), the retries.
    - [Negotiate], [MountRun]: theorems about the two, over every world: the order
      in which versions are tried; which options and addresses reach the kernel;
      that the retries end; that the rewritten options read back as what was
      negotiated.
    - [MntConf] (utils/mount/configfile.c): the options that /etc/nfsmount.conf adds to
      those of the user, on [ConfDb].  Theorem: in which order sections are read, and
      which settings give way to what is there.
    - [Mntent] (support/nfs/nfs_mntent.c, utils/mount/fstab.c): the lines of fstab and
      mtab, and the update of mtab on a circular list in the store of [Heap].
      Theorems: the update removes or changes the last entry of a directory and keeps
      the rest; a failing call leaves the file, a read error and an entry that is
      not there excepted; when entries are lost.
    - [MountMain] (utils/mount/mount.c): the command mount.nfs: flags and options, the
      record in mtab, who may mount, and the run of [Stropts].  Theorems: a user mounts
      only what fstab permits; the recorded options read back, with the user's name.
    - [Umount] (utils/mount/nfsumount.c): the command umount.nfs.  Theorems: only the
      user who mounted may unmount, and nothing else is touched.
    - [Idmap] (support/nfsidmap: libnfsidmap.c, nss.c, static.c, nfsidmap_common.c):
      names of users and groups for NFS version 4, over the answers of the name
      service.  Theorems: an id survives being sent as an owner; which names become
      nobody; the static table is that of the configuration; which principals get ids.
    - [Idmapd] (utils/idmapd/idmapd.c): the lines and messages between the kernel and
      the daemon.  Theorems: an answer carries an id only when the name was found;
      fields survive being written and read.
    - [Blkmap] (utils/blkmapd/device-process.c): the message that describes the volumes
      of a block layout.  Theorems: it is never read behind its end; one that follows
      the protocol is decoded to what it describes, within the memory allocated.
    - [Systemd] (systemd/systemd.c): unit names of paths.  Theorem: they fit the memory
      counted for them in an int, and differ.
    - [Exportfs] (utils/exportfs/exportfs.c): a run of exportfs on [ExportTab] and
      [Xtab], from the command line to the new etab, and the listing.
    - [ExportfsMap]: theorems: the exports in the new etab are those of a finite map
      from client and path to options; what each mode adds, keeps and removes.
    - [ExportfsLock]: processes as stages around the lock file.  Theorem: their
      effects are those of some serial order; without the lock one can be lost.
    - [Rmtab] (support/nfs/rmtab.c, utils/mountd/rmtab.c): the lines of the table of
      mounts and the operations on it, which implement a map of counts; the lines
      that are not read back.
    - [Mountd] (utils/mountd/mountd.c): the procedures of the mount protocol on
      [Auth], [Upcall] and [Rmtab].  Theorems: who gets a file handle, and what the
      kernel has been told by then; the table of mounts counts the handles given;
      the export list covers the clients of the exports.
    - [Cld] (utils/nfsdcld: sqlite.c, nfsdcld.c, legacy.c): the epochs and client
      records that decide who may reclaim after a restart, over the class [Sqlite]
      of what a database connection does, with its laws [SqliteLaws].
    - [CldSafe]: theorems proved from the laws alone: whatever statements fail and
      wherever the machine stops, the database is that of the acknowledged upcalls;
      no client with a claim is forgotten, over any number of grace periods.  A database in memory is an instance.

    ** How code becomes definitions

    Pure code is a function.  A pointer that walks over a string is the suffix
    still to be read.  Code that reports errors returns [option] or a sum.  Code
    that builds linked structures runs in the monad of [Heap]; code that changes
    files in that of [Nsm]; the configuration database is passed explicitly.
    Integers are [Z] with the wrap-around of their width written out ([u32],
    [i32], [u64]).  Code that is not in the repository's own sources is an
    argument: the answers of the name service (a record of functions, [resolver]),
    the re-export database, host name comparison of statd, the directory and file
    contents given to the configuration reader, the file system calls and the mount
    table that cache.c consults (a record [vfs]), the accounts that libnfsidmap looks up
    (a record [libc]), the contents of disks.  The mount command asks a [world]:
    functions from the number of the question to the answer of the kernel, the
    clock, the memory allocator, the name service and the server, so that a theorem
    over every world covers every way they behave over time.  SQLite is a class of
    connections whose laws say what a statement, a commit and a stop do.

    ** Fuel

    Loops that do not recurse on their input take fuel, and each has a theorem
    or a choice of fuel that makes it enough: loops over a string take its length
    (each turn consumes a byte); loops over a list in the store take the number
    of cells; the matcher takes the length of the pattern and the text;
    conf_get_section takes the number of references to follow, and
    [conf_get_section_terminates] and [conf_get_section_diverges] say which chains
    have one; conf_parse takes the depth of includes, and [conf_include_self]
    shows a file that exceeds every depth; the negotiation of a mount takes twice
    the first minor version, and the retries of a mount as many turns as the clock
    needs to pass the time-out; the doubling of a buffer takes 64 turns, after which no
    allocation succeeds ([grow_ends]).

    ** What is not modelled

    Sockets, RPC and name service calls (the dispatch of mountd and statd, the port
    mapper queries of the mount command), the numeric mount interface of old kernels
    and the variant of mount.nfs on libmount, the lock file of mtab, the Kerberos code
    of gssd, the LDAP, GUMS and regular expression methods of libnfsidmap, the SQLite
    database of fsidd, the pipe of nfsdcld and the older helper nfsdcltrack, XML
    junctions, the device mapper and SCSI calls of blkmapd, conf_write, which edits a
    configuration file in place, logging, daemon start-up, the select loop and the
    worker processes of the export daemons, the query tools, which print what they are
    told, and rpcgen, an imported code generator.  Their behaviour is decided by the
    libraries, the kernel or the peers they drive.  Processes that share etab are
    sequences of steps in [Auth] and [ExportfsLock]; otherwise each theorem is about
    one process that runs to its end or is stopped.

    ** This file

    A C string is the [list ascii] of the bytes before its terminating NUL
    ([cstr]); [*p] is [deref].  Plain [char] is signed, as on the x86-64 ABI
    ([schar]).  The [ctype.h] predicates are those of the C locale.  [strtol],
    [strtoul] and the printf conversions are those of the C library, at 64-bit
    [long] and 32-bit [int]. *)

From Stdlib Require String.
From Stdlib Require Export ZArith Lia Ascii.
From stdpp Require Export base option list gmap strings.

#[global] Open Scope Z_scope.
#[global] Set Default Proof Using "Type".

Declare Scope cstr_scope.
Delimit Scope cstr_scope with cstr.
Open Scope cstr_scope.

(** A NUL-terminated string, without its NUL. *)
Abbreviation cstr := (list ascii).

(** String literals of the sources: [$ "ro"]. *)
Notation "$ s" := (String.list_ascii_of_string s%string)
  (at level 1, s at level 0, format "$ s") : cstr_scope.

(** ** Characters *)

Definition NUL : ascii := "000"%char.
Definition TAB : ascii := "009"%char.
Definition NL : ascii := "010"%char.
Definition CR : ascii := "013"%char.
Definition SP : ascii := "032"%char.
Definition DQUOTE : ascii := "034"%char.
Definition SQUOTE : ascii := "039"%char.
Definition BSLASH : ascii := "092"%char.

(** The value of a byte as [unsigned char] and as (signed) [char]. *)
Definition uchar (c : ascii) : Z := Z.of_N (N_of_ascii c).
Definition schar (c : ascii) : Z :=
  if uchar c <? 128 then uchar c else uchar c - 256.
(** Conversion of an integer to a byte. *)
Definition chr (z : Z) : ascii := ascii_of_N (Z.to_N (z mod 256)).

Definition ceqb (a b : ascii) : bool := Ascii.eqb a b.

(** [*p] for a pointer into a string: the terminator reads as NUL. *)
Definition deref (p : cstr) : ascii := match p with [] => NUL | c :: _ => c end.
(** [p + n], for [n] within the string. *)
Definition advance (n : nat) (p : cstr) : cstr := drop n p.
(** [p[i]] within the string or at its terminator. *)
Definition at_index (p : cstr) (i : nat) : ascii := deref (drop i p).

(** A string the C code can hold: no byte is NUL. *)
Definition no_nul (s : cstr) : Prop := Forall (fun c => c <> NUL) s.

Definition between (lo hi : Z) (c : ascii) : bool :=
  (lo <=? uchar c) && (uchar c <=? hi).

Definition isspace (c : ascii) : bool := between 9 13 c || ceqb c SP.
Definition isblank (c : ascii) : bool := ceqb c SP || ceqb c TAB.
Definition isdigit (c : ascii) : bool := between 48 57 c.
Definition isupper (c : ascii) : bool := between 65 90 c.
Definition islower (c : ascii) : bool := between 97 122 c.
Definition isxdigit (c : ascii) : bool :=
  isdigit c || between 65 70 c || between 97 102 c.
Definition iscntrl (c : ascii) : bool := (uchar c <? 32) || (uchar c =? 127).
Definition toupper (c : ascii) : ascii :=
  if islower c then chr (uchar c - 32) else c.
Definition tolower (c : ascii) : ascii :=
  if isupper c then chr (uchar c + 32) else c.

(** ** string.h *)

Fixpoint skip_while (f : ascii -> bool) (s : cstr) : cstr :=
  match s with
  | [] => []
  | c :: s' => if f c then skip_while f s' else s
  end.

(** The longest prefix whose characters satisfy [f]. *)
Fixpoint span (f : ascii -> bool) (s : cstr) : cstr * cstr :=
  match s with
  | [] => ([], [])
  | c :: s' => if f c then let '(a, b) := span f s' in (c :: a, b) else ([], s)
  end.

(** [strchr(s, c)] for [c] other than NUL: the part before the first [c] and
    the part after it. *)
Fixpoint strchr (c : ascii) (s : cstr) : option (cstr * cstr) :=
  match s with
  | [] => None
  | d :: s' =>
      if ceqb d c then Some ([], s')
      else match strchr c s' with
           | Some (a, b) => Some (d :: a, b)
           | None => None
           end
  end.

(** [strcmp(a, b) == 0] and [strncmp(s, p, strlen(p)) == 0]. *)
Definition streq (a b : cstr) : bool := bool_decide (a = b).
Fixpoint starts_with (p s : cstr) : bool :=
  match p, s with
  | [], _ => true
  | a :: p', b :: s' => ceqb a b && starts_with p' s'
  | _ :: _, [] => false
  end.

(** The sign of [strcmp(a, b)]: bytes compare as [unsigned char]. *)
Fixpoint strcmp (a b : cstr) : Z :=
  match a, b with
  | [], [] => 0
  | [], _ :: _ => -1
  | _ :: _, [] => 1
  | x :: a', y :: b' =>
      if ceqb x y then strcmp a' b'
      else if uchar x <? uchar y then -1 else 1
  end.

(** [strcasecmp(a, b) == 0]. *)
Fixpoint strcaseeq (a b : cstr) : bool :=
  match a, b with
  | [], [] => true
  | x :: a', y :: b' => ceqb (tolower x) (tolower y) && strcaseeq a' b'
  | _, _ => false
  end.

(** [strsep(&str, c)]: the next field, and what is left ([None] is the NULL
    that the pointer becomes after the last field). *)
Definition strsep (c : ascii) (s : cstr) : cstr * option cstr :=
  match strchr c s with
  | Some (a, b) => (a, Some b)
  | None => (s, None)
  end.

(** The fields of a string in the order in which a loop on [strsep] gets them. *)
Fixpoint split_on (c : ascii) (s : cstr) : list cstr :=
  match s with
  | [] => [[]]
  | d :: s' =>
      if ceqb d c then [] :: split_on c s'
      else match split_on c s' with
           | f :: fs => (d :: f) :: fs
           | [] => [[d]]
           end
  end.

(** ** Machine integers *)

Definition u32 (z : Z) : Z := z mod 2 ^ 32.
Definition i32 (z : Z) : Z := (z + 2 ^ 31) mod 2 ^ 32 - 2 ^ 31.
Definition u64 (z : Z) : Z := z mod 2 ^ 64.
Definition i64 (z : Z) : Z := (z + 2 ^ 63) mod 2 ^ 64 - 2 ^ 63.
Definition INT_MAX : Z := 2 ^ 31 - 1.
Definition INT_MIN : Z := - 2 ^ 31.
Definition LONG_MAX : Z := 2 ^ 63 - 1.
Definition LONG_MIN : Z := - 2 ^ 63.
Definition ULONG_MAX : Z := 2 ^ 64 - 1.
(** The size of the buffers of the C library. *)
Definition BUFSIZ : nat := 8192.

(** ** stdlib.h number parsing *)

Definition digit_val (c : ascii) : Z :=
  if isdigit c then uchar c - 48
  else if islower c then uchar c - 87
  else if isupper c then uchar c - 55
  else 36.

Fixpoint scan_digits (base : Z) (s : cstr) (acc : Z) : Z * cstr :=
  match s with
  | [] => (acc, [])
  | c :: s' =>
      if digit_val c <? base then scan_digits base s' (acc * base + digit_val c)
      else (acc, s)
  end.

(** Sign, base prefix and digits of [strtol]/[strtoul]; [None] when there is no
    conversion. *)
Definition strto_scan (base : Z) (s : cstr) : option (bool * Z * cstr) :=
  let s1 := skip_while isspace s in
  let '(neg, s2) :=
    match s1 with
    | c :: r => if ceqb c "-" then (true, r)
                else if ceqb c "+" then (false, r) else (false, s1)
    | [] => (false, s1)
    end in
  let hex :=
    ((base =? 0) || (base =? 16)) && ceqb (at_index s2 0) "0"
    && ceqb (tolower (at_index s2 1)) "x" && isxdigit (at_index s2 2) in
  let '(b, s3) :=
    if hex then (16, drop 2 s2)
    else if base =? 0 then (if ceqb (at_index s2 0) "0" then 8 else 10, s2)
    else (base, s2) in
  match s3 with
  | [] => None
  | c :: _ => if digit_val c <? b
              then let '(v, r) := scan_digits b s3 0 in Some (neg, v, r)
              else None
  end.

Record strto_result := StrTo
  { st_value : Z;        (* the value returned *)
    st_end : cstr;       (* [*endptr] *)
    st_erange : bool;    (* errno is set to ERANGE *)
    st_conv : bool }.    (* endptr moved *)

Definition strtol (base : Z) (s : cstr) : strto_result :=
  match strto_scan base s with
  | None => StrTo 0 s false false
  | Some (neg, v, r) =>
      let v := if neg then - v else v in
      if v >? LONG_MAX then StrTo LONG_MAX r true true
      else if v <? LONG_MIN then StrTo LONG_MIN r true true
      else StrTo v r false true
  end.

Definition strtoul (base : Z) (s : cstr) : strto_result :=
  match strto_scan base s with
  | None => StrTo 0 s false false
  | Some (neg, v, r) =>
      if v >? ULONG_MAX then StrTo ULONG_MAX r true true
      else StrTo (if neg then u64 (- v) else v) r false true
  end.

(** [atoi]: glibc's [(int) strtol(s, NULL, 10)]. *)
Definition atoi (s : cstr) : Z := i32 (st_value (strtol 10 s)).

(** ** printf conversions *)

Definition digit_char (d : Z) : ascii := if d <? 10 then chr (48 + d) else chr (87 + d).

Fixpoint utoa_aux (fuel : nat) (base n : Z) (acc : cstr) : cstr :=
  match fuel with
  | O => acc
  | S f =>
      let acc := digit_char (n mod base) :: acc in
      if n <? base then acc else utoa_aux f base (n / base) acc
  end.

(** The digits of a non-negative number: [%u], [%x], [%o]. *)
Definition utoa (base n : Z) : cstr := utoa_aux (S (Z.to_nat (Z.log2 n))) base n [].

(** [%d]. *)
Definition itoa (n : Z) : cstr :=
  if n <? 0 then "-"%char :: utoa 10 (- n) else utoa 10 n.

(** Zero padding to a width: [%08x], [%.8x], [%03o]. *)
Definition pad0 (w : nat) (s : cstr) : cstr := replicate (w - length s) "0"%char ++ s.

(** ** Automation of the development *)

Create HintDb nfs.
Create Rewrite HintDb nfs_len.
#[export] Hint Rewrite @length_app @length_cons @length_drop @length_take
  @length_replicate @app_nil_r Nat2Z.inj_add Nat2Z.inj_succ : nfs_len.

(** Every property of one character is decided by the 256 cases. *)
Ltac all_chars c :=
  let b0 := fresh in let b1 := fresh in let b2 := fresh in let b3 := fresh in
  let b4 := fresh in let b5 := fresh in let b6 := fresh in let b7 := fresh in
  destruct c as [b0 b1 b2 b3 b4 b5 b6 b7];
  destruct b0, b1, b2, b3, b4, b5, b6, b7.

(** Split the boolean tests of the goal and of the context into propositions. *)
Ltac btauto_step :=
  match goal with
  | H : (_ && _)%bool = true |- _ => apply andb_true_iff in H; destruct H
  | H : (_ || _)%bool = false |- _ => apply orb_false_iff in H; destruct H
  | H : negb _ = true |- _ => apply negb_true_iff in H
  | H : negb _ = false |- _ => apply negb_false_iff in H
  | H : (_ <? _) = true |- _ => apply Z.ltb_lt in H
  | H : (_ <? _) = false |- _ => apply Z.ltb_ge in H
  | H : (_ <=? _) = true |- _ => apply Z.leb_le in H
  | H : (_ <=? _) = false |- _ => apply Z.leb_gt in H
  | H : (_ =? _) = true |- _ => apply Z.eqb_eq in H
  | H : (_ =? _) = false |- _ => apply Z.eqb_neq in H
  | H : (_ >? _) = true |- _ => apply Z.gtb_lt in H
  | H : ceqb _ _ = true |- _ => apply Ascii.eqb_eq in H
  | H : ceqb _ _ = false |- _ => apply Ascii.eqb_neq in H
  | H : streq _ _ = true |- _ => apply bool_decide_eq_true in H
  | H : streq _ _ = false |- _ => apply bool_decide_eq_false in H
  end.
Ltac btrue := repeat btauto_step.

(** Split one test of the goal. *)
Ltac case_if :=
  match goal with
  | |- context [if ?b then _ else _] =>
      lazymatch b with
      | context [if _ then _ else _] => fail
      | _ => let E := fresh "E" in destruct b eqn:E
      end
  end.
Ltac case_if_in H :=
  match type of H with
  | context [if ?b then _ else _] =>
      lazymatch b with
      | context [if _ then _ else _] => fail
      | _ => let E := fresh "E" in destruct b eqn:E
      end
  end.

Ltac len := autorewrite with nfs_len in *; cbn [length] in *; lia.

(** ** Lemmas on characters *)

Lemma ceqb_refl c : ceqb c c = true.
Proof. apply Ascii.eqb_refl. Qed.

Lemma ceqb_true a b : ceqb a b = true <-> a = b.
Proof. apply Ascii.eqb_eq. Qed.

Lemma ceqb_false a b : ceqb a b = false <-> a <> b.
Proof. apply Ascii.eqb_neq. Qed.

Lemma ceqb_sym a b : ceqb a b = ceqb b a.
Proof. apply Ascii.eqb_sym. Qed.

Lemma uchar_range c : 0 <= uchar c < 256.
Proof. all_chars c; vm_compute; split; congruence. Qed.

Lemma chr_uchar c : chr (uchar c) = c.
Proof. all_chars c; reflexivity. Qed.

Lemma uchar_chr z : 0 <= z < 256 -> uchar (chr z) = z.
Proof.
  intros H. unfold uchar, chr. rewrite Z.mod_small by lia.
  rewrite N_ascii_embedding by lia. lia.
Qed.

Lemma uchar_inj a b : uchar a = uchar b -> a = b.
Proof. intros H. rewrite <- (chr_uchar a), <- (chr_uchar b). now f_equal. Qed.

Lemma streq_refl s : streq s s = true.
Proof. now apply bool_decide_eq_true. Qed.

Lemma streq_true a b : streq a b = true <-> a = b.
Proof. apply bool_decide_eq_true. Qed.

Lemma streq_false a b : streq a b = false <-> a <> b.
Proof. apply bool_decide_eq_false. Qed.

Lemma strcmp_eq a b : strcmp a b = 0 <-> a = b.
Proof.
  revert b; induction a as [|x a IH]; intros [|y b]; simpl; try (split; easy).
  destruct (ceqb x y) eqn:E; btrue; subst.
  - rewrite IH. split; [now intros -> | now intros [=]].
  - split; [case_if; lia | congruence].
Qed.

Lemma strcaseeq_refl s : strcaseeq s s = true.
Proof. induction s; simpl; [done|]. now rewrite ceqb_refl. Qed.

Lemma strcaseeq_spec a b : strcaseeq a b = true <-> tolower <$> a = tolower <$> b.
Proof.
  revert b; induction a as [|x a IH]; intros [|y b]; simpl; try (split; easy).
  rewrite andb_true_iff, IH, ceqb_true. split; [intros [-> H]; by f_equal | now intros [=]].
Qed.

(** Case-insensitive comparison is an equivalence. *)
#[export] Instance strcaseeq_equiv : Equivalence (fun a b => strcaseeq a b = true).
Proof.
  split.
  - intros a. apply strcaseeq_refl.
  - intros a b. rewrite !strcaseeq_spec. congruence.
  - intros a b c. rewrite !strcaseeq_spec. congruence.
Qed.

Lemma strcaseeq_sym a b : strcaseeq a b = strcaseeq b a.
Proof.
  destruct (strcaseeq a b) eqn:E.
  - symmetry. apply strcaseeq_spec. apply strcaseeq_spec in E. congruence.
  - destruct (strcaseeq b a) eqn:F; [|done].
    apply strcaseeq_spec in F. enough (strcaseeq a b = true) by congruence.
    apply strcaseeq_spec. congruence.
Qed.

Lemma strcaseeq_trans_l a b c : strcaseeq a b = true -> strcaseeq a c = strcaseeq b c.
Proof.
  intros H. destruct (strcaseeq b c) eqn:E.
  - apply strcaseeq_spec. apply strcaseeq_spec in H, E. congruence.
  - destruct (strcaseeq a c) eqn:F; [|done].
    apply strcaseeq_spec in H, F. enough (strcaseeq b c = true) by congruence.
    apply strcaseeq_spec. congruence.
Qed.

Lemma starts_with_app p s : starts_with p (p ++ s) = true.
Proof. induction p; simpl; [done|]. now rewrite ceqb_refl. Qed.

Lemma starts_with_spec p s : starts_with p s = true <-> exists t, s = p ++ t.
Proof.
  split; [|intros [t ->]; apply starts_with_app].
  revert s; induction p as [|a p IH]; intros s H; [now exists s|].
  destruct s as [|b s]; simpl in H; [done|]. btrue.
  destruct (IH _ H0) as [t ->]. subst. now exists t.
Qed.

(** ** Lemmas on searching and splitting *)

Lemma strchr_spec c s :
  match strchr c s with
  | Some (a, b) => s = a ++ c :: b /\ c ∉ a
  | None => c ∉ s
  end.
Proof.
  induction s as [|d s IH]; simpl; [set_solver|].
  destruct (ceqb d c) eqn:E; btrue; subst; [set_solver|].
  destruct (strchr c s) as [[a b]|]; [destruct IH as [-> ?]|]; set_solver.
Qed.

Lemma strchr_Some c s a b : strchr c s = Some (a, b) -> s = a ++ c :: b /\ c ∉ a.
Proof. intros H. pose proof (strchr_spec c s) as P. now rewrite H in P. Qed.

Lemma strchr_None c s : strchr c s = None <-> c ∉ s.
Proof.
  pose proof (strchr_spec c s) as P. destruct (strchr c s) as [[a b]|]; [|done].
  destruct P as [-> ?]. split; [easy|set_solver].
Qed.

Lemma strchr_app c a b : c ∉ a -> strchr c (a ++ c :: b) = Some (a, b).
Proof.
  induction a as [|d a IH]; simpl; intros H; [now rewrite ceqb_refl|].
  apply not_elem_of_cons in H as [H1 H2].
  rewrite (proj2 (ceqb_false d c)) by congruence. now rewrite IH.
Qed.

Lemma split_on_notin c s : c ∉ s -> split_on c s = [s].
Proof.
  induction s as [|d s IH]; simpl; intros H; [done|].
  apply not_elem_of_cons in H as [H1 H2].
  rewrite (proj2 (ceqb_false d c)) by congruence. now rewrite IH.
Qed.

Lemma split_on_app c a b : c ∉ a -> split_on c (a ++ c :: b) = a :: split_on c b.
Proof.
  induction a as [|d a IH]; simpl; intros H; [now rewrite ceqb_refl|].
  apply not_elem_of_cons in H as [H1 H2].
  rewrite (proj2 (ceqb_false d c)) by congruence. now rewrite IH.
Qed.

Lemma skip_while_app f a b :
  Forall (fun c => f c = true) a -> skip_while f (a ++ b) = skip_while f b.
Proof. induction 1; simpl; [done|]. now rewrite H. Qed.

Lemma skip_while_head f c s : f c = false -> skip_while f (c :: s) = c :: s.
Proof. intros H; simpl; now rewrite H. Qed.

Lemma skip_while_suffix f s : exists a, s = a ++ skip_while f s.
Proof.
  induction s as [|c s [a IH]]; simpl; [now exists []|].
  destruct (f c); [exists (c :: a); simpl; congruence | now exists []].
Qed.

Lemma skip_while_idemp f s : skip_while f (skip_while f s) = skip_while f s.
Proof.
  induction s as [|c s IH]; simpl; [done|].
  destruct (f c) eqn:E; [done|]. simpl. now rewrite E.
Qed.

Lemma span_app f s a b : span f s = (a, b) -> s = a ++ b.
Proof.
  revert a b; induction s as [|c s IH]; simpl; intros a b H; [by simplify_eq|].
  destruct (f c); [|by simplify_eq].
  destruct (span f s) as [a' b']. simplify_eq. simpl. f_equal. now apply IH.
Qed.

(** ** Lemmas on numbers *)

Lemma digit_char_val d : 0 <= d < 16 -> digit_val (digit_char d) = d.
Proof.
  intros H. assert (d = Z.of_nat (Z.to_nat d)) as -> by lia.
  assert (Z.to_nat d < 16)%nat as H' by lia. clear H. revert H'. generalize (Z.to_nat d).
  intros n Hn. do 16 (destruct n as [|n]; [reflexivity|]). lia.
Qed.

Lemma scan_digits_app base ds rest acc :
  Forall (fun c => digit_val c < base) ds ->
  scan_digits base (ds ++ rest) acc = scan_digits base rest (fst (scan_digits base ds acc)).
Proof.
  intros H. revert acc. induction H as [|c ds Hc Hds IH]; intros acc; simpl; [done|].
  rewrite (proj2 (Z.ltb_lt _ _) Hc). apply IH.
Qed.

Lemma utoa_aux_app fuel base n acc :
  utoa_aux fuel base n acc = utoa_aux fuel base n [] ++ acc.
Proof.
  revert n acc; induction fuel as [|f IH]; intros n acc; simpl; [done|].
  case_if; [done|]. rewrite (IH _ (_ :: acc)), (IH _ [_]). now rewrite <- app_assoc.
Qed.

Lemma utoa_aux_digits fuel base n :
  1 < base <= 16 -> Forall (fun c => digit_val c < base) (utoa_aux fuel base n []).
Proof.
  intros Hb. revert n; induction fuel as [|f IH]; intros n; simpl; [constructor|].
  pose proof (Z.mod_pos_bound n base ltac:(lia)) as P.
  assert (Forall (fun c => digit_val c < base) [digit_char (n mod base)]) as D.
  { repeat constructor. rewrite digit_char_val; lia. }
  case_if; [done|]. rewrite utoa_aux_app. apply Forall_app; auto.
Qed.

Lemma utoa_aux_scan fuel base n :
  1 < base <= 16 -> 0 <= n < base ^ Z.of_nat fuel ->
  scan_digits base (utoa_aux fuel base n []) 0 = (n, []).
Proof.
  intros Hb. revert n; induction fuel as [|f IH]; intros n Hn.
  { rewrite Z.pow_0_r in Hn. assert (n = 0) as -> by lia. reflexivity. }
  rewrite Nat2Z.inj_succ, Z.pow_succ_r in Hn by lia. cbn [utoa_aux].
  pose proof (Z.mod_pos_bound n base ltac:(lia)) as P.
  pose proof (Z.div_mod n base ltac:(lia)) as D.
  case_if; btrue.
  - simpl. rewrite digit_char_val by lia. rewrite (proj2 (Z.ltb_lt _ _)) by lia.
    simpl. rewrite Z.mod_small by lia. reflexivity.
  - rewrite utoa_aux_app, scan_digits_app by (apply utoa_aux_digits; lia).
    rewrite IH by (split; [apply Z.div_pos; lia | apply Z.div_lt_upper_bound; lia]).
    simpl. rewrite digit_char_val by lia. rewrite (proj2 (Z.ltb_lt _ _)) by lia.
    f_equal. lia.
Qed.

Lemma utoa_digits base n :
  1 < base <= 16 -> Forall (fun c => digit_val c < base) (utoa base n).
Proof. apply utoa_aux_digits. Qed.

(** Printing then scanning a number gives it back. *)
Lemma scan_utoa base n rest :
  1 < base <= 16 -> 0 <= n ->
  (rest = [] \/ digit_val (deref rest) >= base) ->
  scan_digits base (utoa base n ++ rest) 0 = (n, rest).
Proof.
  intros Hb Hn Hr. unfold utoa. rewrite scan_digits_app by now apply utoa_aux_digits.
  rewrite utoa_aux_scan; [|done|].
  - simpl. destruct rest as [|c rest]; [done|]. simpl.
    destruct Hr as [?|Hr]; [done|]. simpl in Hr.
    rewrite (proj2 (Z.ltb_ge _ _)) by lia. reflexivity.
  - split; [done|]. destruct (Z.eq_dec n 0) as [->|].
    + apply Z.pow_pos_nonneg; lia.
    + pose proof (Z.log2_spec n ltac:(lia)) as [_ L].
      pose proof (Z.log2_nonneg n). rewrite Nat2Z.inj_succ, Z2Nat.id by done.
      eapply Z.lt_le_trans; [exact L|]. apply Z.pow_le_mono_l; lia.
Qed.

Lemma utoa_nonempty base n : utoa base n <> [].
Proof.
  unfold utoa. cbn [utoa_aux]. case_if; [done|]. rewrite utoa_aux_app.
  intros [? H]%app_eq_nil. done.
Qed.

Lemma utoa_aux_length fuel base n (k : nat) :
  1 < base -> 0 <= n < base ^ Z.of_nat k -> (0 < k)%nat -> (length (utoa_aux fuel base n []) <= k)%nat.
Proof.
  intros Hb. revert n k; induction fuel as [|f IH]; intros n k Hn Hk; cbn [utoa_aux]; [cbn; lia|].
  case_if; [cbn; lia|]. btrue. rewrite utoa_aux_app, length_app. cbn [length].
  destruct k as [|[|k]]; [lia|change (Z.of_nat 1) with 1 in Hn; lia|].
  rewrite Nat2Z.inj_succ, Z.pow_succ_r in Hn by lia.
  specialize (IH (n / base) (S k)). rewrite Nat.add_comm. cbn. apply le_n_S, IH; [|lia].
  split; [apply Z.div_pos; lia|]. apply Z.div_lt_upper_bound; lia.
Qed.

(** Reading a printed number. *)
Lemma digit_head c : digit_val c < 10 -> isspace c = false /\ ceqb c "-" = false /\ ceqb c "+" = false.
Proof. all_chars c; vm_compute; intros H; try discriminate H; auto. Qed.

Lemma strtol_utoa n rest :
  0 <= n <= LONG_MAX -> (rest = [] \/ digit_val (deref rest) >= 10) ->
  strtol 10 (utoa 10 n ++ rest) = StrTo n rest false true.
Proof.
  intros Hn Hr. pose proof (scan_utoa 10 n rest ltac:(lia) ltac:(lia) Hr) as Hs.
  pose proof (utoa_digits 10 n ltac:(lia)) as Hd. pose proof (utoa_nonempty 10 n) as Hne.
  destruct (utoa 10 n) as [|c s]; [done|]. apply Forall_cons in Hd as [Hc _].
  destruct (digit_head c Hc) as (H1 & H2 & H3).
  unfold strtol, strto_scan. cbn [app skip_while]. rewrite H1, H2, H3. cbn [Z.eqb orb andb Pos.eqb].
  rewrite (proj2 (Z.ltb_lt _ _) Hc). cbn [app] in Hs. rewrite Hs.
  rewrite Z.gtb_ltb. unfold LONG_MAX, LONG_MIN in *. by rewrite !(proj2 (Z.ltb_ge _ _)) by lia.
Qed.

Lemma i32_id z : INT_MIN <= z <= INT_MAX -> i32 z = z.
Proof. unfold i32, INT_MIN, INT_MAX. intros H. rewrite Z.mod_small; lia. Qed.

Lemma i32_range z : INT_MIN <= i32 z <= INT_MAX.
Proof.
  unfold i32, INT_MIN, INT_MAX.
  pose proof (Z.mod_pos_bound (z + 2 ^ 31) (2 ^ 32)). lia.
Qed.

Lemma u32_range z : 0 <= u32 z < 2 ^ 32.
Proof. apply Z.mod_pos_bound. lia. Qed.

Lemma u32_id z : 0 <= z < 2 ^ 32 -> u32 z = z.
Proof. apply Z.mod_small. Qed.

(** ** Lemmas on filters *)

Lemma filter_fmap_snd {A B} (P : B -> Prop) `{forall x, Decision (P x)}
    `{forall x : A * B, Decision (P x.2)} (l : list (A * B)) :
  (filter (fun a => P a.2) l).*2 = filter P l.*2.
Proof.
  induction l as [|[a b] l IH]; [done|]. rewrite fmap_cons, !filter_cons. cbn.
  repeat case_decide; cbn in *; congruence.
Qed.

Lemma filter_none {A} (P : A -> Prop) `{forall x, Decision (P x)} (l : list A) :
  Forall (fun x => ~ P x) l -> filter P l = [].
Proof. induction 1; [done|]. by rewrite filter_cons_False. Qed.

Lemma filter_all {A} (P : A -> Prop) `{forall x, Decision (P x)} (l : list A) :
  Forall P l -> filter P l = l.
Proof. induction 1; [done|]. rewrite filter_cons_True by done. by f_equal. Qed.
