(* ===== verification/Cacheio.v ===== *)
(** * The cache channel word format (support/nfs/cacheio.c)

    mountd and svcgssd talk to the kernel through channel files whose records
    are lines of space-separated words.  A word is either text in which space,
    tab, newline and backslash are octal escapes, or a hexadecimal string with
    a leading [\x].  The writer state is the pair of the code's [*bpp] and
    [*lp]: the bytes written so far and the room left ([-1] once a word did not
    fit).  The reader keeps every byte it stores through [dest], so that its
    buffer use can be stated. *)

From S2P Require Import Prelude.

(** ** Writer *)

Record wbuf := WBuf { w_out : cstr; w_len : Z }.

Definition must_quote (c : ascii) : bool :=
  ceqb c SP || ceqb c TAB || ceqb c NL || ceqb c BSLASH.

Definition octal_escape (c : ascii) : cstr :=
  [ BSLASH;
    chr (48 + Z.shiftr (Z.land (uchar c) 192) 6);
    chr (48 + Z.shiftr (Z.land (uchar c) 56) 3);
    chr (48 + Z.land (uchar c) 7) ].

(** The loop of [qword_add]: what is left of [str] when it stops, the bytes
    written and the remaining room. *)
Fixpoint qword_add_loop (str out : cstr) (len : Z) : cstr * cstr * Z :=
  match str with
  | [] => ([], out, len)
  | c :: str' =>
      if negb (0 <? len) then (str, out, len)
      else if must_quote c then
        qword_add_loop str' (if 4 <=? len then out ++ octal_escape c else out) (len - 4)
      else qword_add_loop str' (out ++ [c]) (len - 1)
  end.

Definition qword_add (w : wbuf) (str : cstr) : wbuf :=
  if w_len w <? 0 then w
  else
    let '(rest, out, len) := qword_add_loop str (w_out w) (w_len w) in
    match rest with
    | _ :: _ => WBuf out (-1)
    | [] => if len <? 1 then WBuf out (-1) else WBuf (out ++ [SP]) (len - 1)
    end.

(** The two hex digits: '0' plus the nibble, plus ['a' - '9' - 1] from ten on. *)
Definition hex_hi (c : ascii) : ascii :=
  chr (48 + Z.shiftr (Z.land (uchar c) 240) 4 + (if 160 <=? uchar c then 39 else 0)).
Definition hex_lo (c : ascii) : ascii :=
  chr (48 + Z.land (uchar c) 15 + (if 10 <=? Z.land (uchar c) 15 then 39 else 0)).

Fixpoint qword_addhex_loop (buf out : cstr) (len : Z) : cstr * cstr * Z :=
  match buf with
  | [] => ([], out, len)
  | c :: buf' =>
      if 2 <=? len then qword_addhex_loop buf' (out ++ [hex_hi c; hex_lo c]) (len - 2)
      else (buf, out, len)
  end.

(** [buf] is the [blen] bytes to send; unlike a C string it may hold NULs. *)
Definition qword_addhex (w : wbuf) (buf : cstr) : wbuf :=
  if w_len w <? 0 then w
  else
    let '(rest, out, len) :=
      if 2 <? w_len w
      then qword_addhex_loop buf (w_out w ++ [BSLASH; "x"%char]) (w_len w - 2)
      else (buf, w_out w, w_len w) in
    match rest with
    | _ :: _ => WBuf out (-1)
    | [] => if len <? 1 then WBuf out (-1) else WBuf (out ++ [SP]) (len - 1)
    end.

(** [snprintf(bp, size, ...)] leaves at most [size - 1] characters of its text
    and a NUL; [n] bytes of that are then counted as written. *)
Definition snprintf_bytes (text : cstr) (size : Z) (n : Z) : cstr :=
  take (Z.to_nat n) (take (Z.to_nat (size - 1)) text ++ [NUL]).

(** Shared tail of [qword_addint] and [qword_adduint]: [len > *lp] is clipped,
    then the pointer and the room move by [len].  A negative [*lp] reaches
    [snprintf] as a huge [size_t] and moves the pointer backwards. *)
Definition qword_addnum (w : wbuf) (text : cstr) : wbuf :=
  let len := Z.of_nat (length text) in
  let len := if w_len w <? len then w_len w else len in
  if w_len w <? 0
  then WBuf (take (length (w_out w) - Z.to_nat (- len)) (w_out w)) (w_len w - len)
  else WBuf (w_out w ++ snprintf_bytes text (w_len w) len) (w_len w - len).

Definition qword_addint (w : wbuf) (n : Z) : wbuf := qword_addnum w (itoa n ++ [SP]).
Definition qword_adduint (w : wbuf) (n : Z) : wbuf := qword_addnum w (utoa 10 n ++ [SP]).

Definition qword_addeol (w : wbuf) : wbuf :=
  if w_len w <=? 0 then w else WBuf (w_out w ++ [NL]) (w_len w - 1).

(** ** Reader *)

Definition isodigit (c : ascii) : bool := isdigit c && (uchar c <=? 55).

(** The value of a hex digit: its offset from '0', or that of its upper case
    from 'A' plus ten. *)
Definition xdigit (c : ascii) : Z :=
  if isdigit c then uchar c - 48 else uchar (toupper c) - 65 + 10.

(** The hex branch: the rest of the input and the bytes stored in [dest]. *)
Fixpoint get_hex (bp dest : cstr) (bufsize : Z) : cstr * cstr :=
  match bp with
  | a :: ((b :: bp') as r) =>
      if isxdigit a && isxdigit b && (Z.of_nat (length dest) <? bufsize)
      then get_hex bp' (dest ++ [chr (Z.lor (Z.shiftl (xdigit a) 4) (xdigit b))]) bufsize
      else (bp, dest)
  | _ => (bp, dest)
  end.

Definition octal3 (a b c : ascii) : Z :=
  Z.lor (Z.shiftl (Z.lor (Z.shiftl (uchar a - 48) 3) (uchar b - 48)) 3) (uchar c - 48).

(** The text branch. *)
Fixpoint get_text (bp dest : cstr) (bufsize : Z) : cstr * cstr :=
  match bp with
  | [] => ([], dest)
  | c :: r =>
      if negb (ceqb c SP) && negb (ceqb c NL) && negb (ceqb c NUL)
         && (Z.of_nat (length dest) <? bufsize - 1)
      then
        match r with
        | c1 :: c2 :: c3 :: r' =>
            if ceqb c BSLASH && isodigit c1 && (uchar c1 <=? 51)
               && isodigit c2 && isodigit c3
            then get_text r' (dest ++ [chr (octal3 c1 c2 c3)]) bufsize
            else get_text r (dest ++ [c]) bufsize
        | _ => get_text r (dest ++ [c]) bufsize
        end
      else (bp, dest)
  end.

(** Outcome of [qword_get]: the return value, the new [*bpp] (the old one on
    error) and every byte stored from [dest] on, the NUL included. *)
Record qget := QGet { q_ret : Z; q_bp : cstr; q_dest : cstr }.

Definition is_space_char (c : ascii) : bool := ceqb c SP.

Definition qword_get (bp0 : cstr) (bufsize : Z) : qget :=
  let bp := skip_while is_space_char bp0 in
  let '(bp, dest) :=
    if ceqb (at_index bp 0) BSLASH && ceqb (at_index bp 1) "x"
    then get_hex (drop 2 bp) [] bufsize
    else get_text bp [] bufsize in
  if negb (ceqb (deref bp) SP) && negb (ceqb (deref bp) NL) && negb (ceqb (deref bp) NUL)
  then QGet (-1) bp0 dest
  else QGet (Z.of_nat (length dest)) (skip_while is_space_char bp) (dest ++ [NUL]).

(** The C string in a buffer that [qword_get] filled. *)
Definition cstr_of (dest : cstr) : cstr := fst (span (fun c => negb (ceqb c NUL)) dest).

(** [qword_get_int]/[qword_get_uint]: [None] is the [-1] return. *)
Definition qword_get_int (bp : cstr) : cstr * option Z :=
  let q := qword_get bp 50 in
  if q_ret q <=? 0 then (q_bp q, None)
  else let r := strtol 0 (cstr_of (q_dest q)) in
       match st_end r with
       | [] => (q_bp q, Some (i32 (st_value r)))
       | _ :: _ => (q_bp q, None)
       end.

Definition qword_get_uint (bp : cstr) : cstr * option Z :=
  let q := qword_get bp 50 in
  if q_ret q <=? 0 then (q_bp q, None)
  else let r := strtoul 0 (cstr_of (q_dest q)) in
       match st_end r with
       | [] => (q_bp q, Some (u32 (st_value r)))
       | _ :: _ => (q_bp q, None)
       end.

(** ** The word encoding, abstractly *)

(** The text of a word, as [qword_add] writes it when there is room. *)
Definition qchar (c : ascii) : cstr := if must_quote c then octal_escape c else [c].
Definition qencode (s : cstr) : cstr := flat_map qchar s.
Definition hexencode (s : cstr) : cstr := flat_map (fun c => [hex_hi c; hex_lo c]) s.

(** ** Character facts, by the 256 cases *)

Lemma octal_escape_ok c :
  must_quote c = true ->
  match octal_escape c with
  | [b; c1; c2; c3] =>
      b = BSLASH /\ isodigit c1 = true /\ (uchar c1 <=? 51) = true /\
      isodigit c2 = true /\ isodigit c3 = true /\ chr (octal3 c1 c2 c3) = c
      /\ c1 <> "x"%char
  | _ => False
  end.
Proof. all_chars c; intros H; try discriminate H; vm_compute; repeat split; congruence. Qed.

Lemma hex_pair_ok c :
  isxdigit (hex_hi c) = true /\ isxdigit (hex_lo c) = true /\
  chr (Z.lor (Z.shiftl (xdigit (hex_hi c)) 4) (xdigit (hex_lo c))) = c.
Proof. all_chars c; vm_compute; repeat split; congruence. Qed.

Lemma hex_pair_not_bslash c : hex_hi c <> SP /\ hex_hi c <> NL.
Proof. all_chars c; vm_compute; split; congruence. Qed.

Lemma must_quote_false c :
  must_quote c = false -> c <> SP /\ c <> NL /\ c <> BSLASH.
Proof. all_chars c; intros H; try discriminate H; vm_compute; repeat split; congruence. Qed.

Lemma qchar_length c : length (qchar c) = if must_quote c then 4%nat else 1%nat.
Proof. unfold qchar. now case_if. Qed.

(** ** Writer lemmas *)

Lemma qencode_cons_length c s :
  length (qencode (c :: s)) = ((if must_quote c then 4 else 1) + length (qencode s))%nat.
Proof. cbn [qencode flat_map]. rewrite length_app, qchar_length. done. Qed.

Lemma qword_add_loop_fits str out len :
  Z.of_nat (length (qencode str)) <= len ->
  qword_add_loop str out len
  = ([], out ++ qencode str, len - Z.of_nat (length (qencode str))).
Proof.
  revert out len; induction str as [|c str IH]; intros out len H; cbn [qword_add_loop].
  { cbn. rewrite app_nil_r, Z.sub_0_r. done. }
  rewrite qencode_cons_length in H |- *.
  rewrite (proj2 (Z.ltb_lt 0 len)) by (destruct (must_quote c); lia). cbn [negb].
  change (qencode (c :: str)) with (qchar c ++ qencode str). unfold qchar.
  destruct (must_quote c); rewrite ?(proj2 (Z.leb_le 4 len)) by lia;
    rewrite IH by lia; rewrite <- app_assoc; f_equal; lia.
Qed.

Lemma qword_add_loop_overflow str out len :
  len < Z.of_nat (length (qencode str)) ->
  let '(rest, _, len') := qword_add_loop str out len in rest <> [] \/ len' < 1.
Proof.
  revert out len; induction str as [|c str IH]; intros out len H; [simpl in H |- *; lia|].
  rewrite qencode_cons_length in H. cbn [qword_add_loop].
  destruct (negb (0 <? len)) eqn:E0; [left; done|].
  destruct (must_quote c) eqn:E; apply IH; lia.
Qed.

(** The number of bytes the writer loop emits is bounded by the room it had. *)
Lemma qword_add_loop_bound str out len :
  0 <= len ->
  let '(_, out', len') := qword_add_loop str out len in
  Z.of_nat (length out') + Z.max 0 len' <= Z.of_nat (length out) + len.
Proof.
  revert out len; induction str as [|c str IH]; intros out len H; cbn [qword_add_loop]; [lia|].
  destruct (negb (0 <? len)) eqn:E0; [lia|]. btrue.
  destruct (must_quote c).
  - destruct (4 <=? len) eqn:E4; btrue.
    + specialize (IH (out ++ octal_escape c) (len - 4) ltac:(lia)).
      destruct (qword_add_loop _ _ _) as [[? ?] ?].
      rewrite length_app in IH. cbn [octal_escape length] in IH. lia.
    + destruct str as [|d str]; cbn [qword_add_loop]; [lia|].
      rewrite (proj2 (Z.ltb_ge 0 (len - 4))) by lia. simpl. lia.
  - specialize (IH (out ++ [c]) (len - 1) ltac:(lia)).
    destruct (qword_add_loop _ _ _) as [[? ?] ?]. rewrite length_app in IH. simpl in IH. lia.
Qed.

Lemma qword_add_fits w str :
  Z.of_nat (length (qencode str)) < w_len w ->
  qword_add w str
  = WBuf (w_out w ++ qencode str ++ [SP]) (w_len w - Z.of_nat (length (qencode str)) - 1).
Proof.
  intros H. unfold qword_add. rewrite (proj2 (Z.ltb_ge _ 0)) by lia.
  rewrite qword_add_loop_fits by lia. rewrite (proj2 (Z.ltb_ge _ 1)) by lia.
  now rewrite <- app_assoc.
Qed.

Lemma qword_addhex_loop_fits buf out len :
  2 * Z.of_nat (length buf) <= len ->
  qword_addhex_loop buf out len
  = ([], out ++ hexencode buf, len - 2 * Z.of_nat (length buf)).
Proof.
  revert out len; induction buf as [|c buf IH]; intros out len H; cbn [qword_addhex_loop length] in *.
  { cbn. rewrite app_nil_r. f_equal; lia. }
  rewrite (proj2 (Z.leb_le 2 len)) by lia. rewrite IH by lia.
  cbn [hexencode flat_map]. rewrite <- app_assoc. f_equal; lia.
Qed.

Lemma qword_addhex_fits w buf :
  2 * Z.of_nat (length buf) + 3 <= w_len w ->
  qword_addhex w buf
  = WBuf (w_out w ++ [BSLASH; "x"%char] ++ hexencode buf ++ [SP])
         (w_len w - 2 * Z.of_nat (length buf) - 3).
Proof.
  intros H. unfold qword_addhex. rewrite (proj2 (Z.ltb_ge _ 0)) by lia.
  rewrite (proj2 (Z.ltb_lt 2 _)) by lia. rewrite qword_addhex_loop_fits by lia.
  rewrite (proj2 (Z.ltb_ge _ 1)) by lia. rewrite <- !app_assoc. f_equal. lia.
Qed.

(** ** Reader lemmas *)

Lemma get_text_encoded s rest dest bufsize :
  no_nul s -> (rest = [] \/ deref rest = SP \/ deref rest = NL) ->
  Z.of_nat (length dest + length s) < bufsize ->
  get_text (qencode s ++ rest) dest bufsize = (rest, dest ++ s).
Proof.
  intros Hs Hr. revert dest. induction s as [|c s IH]; intros dest Hlen.
  { cbn [qencode flat_map app]. rewrite app_nil_r.
    destruct rest as [|d rest]; [done|]. cbn in Hr. cbn [get_text].
    destruct Hr as [?|[-> | ->]]; try done. }
  inversion Hs as [|? ? Hc Hs']; subst.
  cbn [qencode flat_map]. fold (qencode s). rewrite <- app_assoc. unfold qchar.
  cbn [length] in Hlen.
  destruct (must_quote c) eqn:E.
  - pose proof (octal_escape_ok c E) as P.
    destruct (octal_escape c) as [|b [|c1 [|c2 [|c3 [|]]]]]; try done.
    destruct P as (-> & H1 & H2 & H3 & H4 & H5 & _). cbn [app get_text].
    change (ceqb BSLASH SP) with false. change (ceqb BSLASH NL) with false.
    change (ceqb BSLASH NUL) with false. change (ceqb BSLASH BSLASH) with true.
    rewrite (proj2 (Z.ltb_lt _ (bufsize - 1))) by lia.
    rewrite H1, H2, H3, H4, H5. cbn [andb negb].
    rewrite IH by (auto; rewrite length_app; cbn [length]; lia).
    now rewrite <- app_assoc.
  - destruct (must_quote_false c E) as (N1 & N2 & N3).
    cbn [app get_text]. rewrite !(proj2 (ceqb_false _ _)) by assumption.
    rewrite (proj2 (Z.ltb_lt _ (bufsize - 1))) by lia. cbn [andb negb].
    assert (get_text (qencode s ++ rest) (dest ++ [c]) bufsize = (rest, dest ++ c :: s)) as G.
    { rewrite IH by (auto; rewrite length_app; cbn [length]; lia). now rewrite <- app_assoc. }
    destruct (qencode s ++ rest) as [|c1 [|c2 [|c3 r]]]; exact G.
Qed.

Lemma get_hex_encoded s rest dest bufsize :
  isxdigit (deref rest) = false ->
  Z.of_nat (length dest + length s) <= bufsize ->
  get_hex (hexencode s ++ rest) dest bufsize = (rest, dest ++ s).
Proof.
  intros Hr. revert dest. induction s as [|c s IH]; intros dest Hlen.
  { cbn [hexencode flat_map app]. rewrite app_nil_r.
    destruct rest as [|a [|b rest]]; try done. cbn in Hr. cbn [get_hex]. now rewrite Hr. }
  cbn [hexencode flat_map app length] in *. fold (hexencode s).
  destruct (hex_pair_ok c) as (H1 & H2 & H3). cbn [get_hex]. rewrite H1, H2, H3.
  rewrite (proj2 (Z.ltb_lt _ bufsize)) by lia. cbn [andb].
  rewrite IH by (rewrite length_app; cbn [length]; lia). now rewrite <- app_assoc.
Qed.

Lemma get_text_bound bp dest bufsize bp' dest' :
  get_text bp dest bufsize = (bp', dest') ->
  Z.of_nat (length dest) <= Z.max 0 (bufsize - 1) ->
  Z.of_nat (length dest') <= Z.max 0 (bufsize - 1).
Proof.
  remember (length bp) as n eqn:Hn. assert (length bp <= n)%nat as Hle by lia. clear Hn.
  revert bp dest Hle. induction n as [|n IH]; intros bp dest Hle H Hd.
  { destruct bp; [|simpl in Hle; lia]. cbn in H. by simplify_eq. }
  destruct bp as [|c r]; cbn [get_text] in H; [by simplify_eq|].
  case_if_in H; [|by simplify_eq]. btrue. cbn [length] in Hle.
  assert (forall x, Z.of_nat (length (dest ++ [x])) <= Z.max 0 (bufsize - 1)) as B.
  { intros x. rewrite length_app. simpl. lia. }
  destruct r as [|c1 [|c2 [|c3 r']]];
    try (eapply IH; [|exact H|apply B]; cbn [length] in *; lia).
  case_if_in H; (eapply IH; [|exact H|apply B]); cbn [length] in *; lia.
Qed.

Lemma get_hex_bound bp dest bufsize bp' dest' :
  get_hex bp dest bufsize = (bp', dest') ->
  Z.of_nat (length dest) <= Z.max 0 bufsize ->
  Z.of_nat (length dest') <= Z.max 0 bufsize.
Proof.
  remember (length bp) as n eqn:Hn. assert (length bp <= n)%nat as Hle by lia. clear Hn.
  revert bp dest Hle. induction n as [|n IH]; intros bp dest Hle H Hd.
  { destruct bp; [|simpl in Hle; lia]. cbn in H. by simplify_eq. }
  destruct bp as [|a [|b r]]; cbn [get_hex] in H; try by simplify_eq.
  case_if_in H; [|by simplify_eq]. btrue. cbn [length] in Hle.
  eapply IH; [|exact H|]; [lia|]. rewrite length_app. simpl. lia.
Qed.

Lemma qencode_head s rest :
  s <> [] -> no_nul s ->
  skip_while is_space_char (qencode s ++ rest) = qencode s ++ rest /\
  ceqb (at_index (qencode s ++ rest) 0) BSLASH
    && ceqb (at_index (qencode s ++ rest) 1) "x" = false.
Proof.
  intros Hne _. destruct s as [|c s]; [done|].
  cbn [qencode flat_map]. rewrite <- app_assoc. unfold qchar.
  destruct (must_quote c) eqn:E.
  - pose proof (octal_escape_ok c E) as P.
    destruct (octal_escape c) as [|b [|c1 [|c2 [|c3 [|]]]]]; try done.
    destruct P as (-> & _ & _ & _ & _ & _ & Hx). split; [done|].
    cbn. now apply ceqb_false in Hx as ->.
  - destruct (must_quote_false c E) as (N1 & _ & N3). cbn [app]. split.
    + apply skip_while_head. now apply ceqb_false.
    + cbn [at_index drop deref]. now rewrite (proj2 (ceqb_false _ _) N3).
Qed.

Lemma qword_get_hexencoded s rest bufsize :
  Z.of_nat (length s) <= bufsize ->
  qword_get ([BSLASH; "x"%char] ++ hexencode s ++ [SP] ++ rest) bufsize
  = QGet (Z.of_nat (length s)) (skip_while is_space_char rest) (s ++ [NUL]).
Proof.
  intros Hb. unfold qword_get. set (X := hexencode s ++ [SP] ++ rest).
  change (skip_while is_space_char ([BSLASH; "x"%char] ++ X)) with ([BSLASH; "x"%char] ++ X).
  change (ceqb (at_index ([BSLASH; "x"%char] ++ X) 0) BSLASH
          && ceqb (at_index ([BSLASH; "x"%char] ++ X) 1) "x") with true.
  change (drop 2 ([BSLASH; "x"%char] ++ X)) with X. subst X. cbn iota.
  rewrite get_hex_encoded by (cbn; lia || done). cbn. done.
Qed.

(** ** Properties *)

(** A word that has room is appended, encoded and space-terminated, and one
    that has not sets the room to [-1]; in no case are more bytes written than
    there was room for. *)
Lemma qword_add_spec w str :
  0 <= w_len w ->
  let w' := qword_add w str in
  (if Z.of_nat (length (qencode str)) <? w_len w
   then w_out w' = w_out w ++ qencode str ++ [SP] /\
        w_len w' = w_len w - Z.of_nat (length (qencode str)) - 1
   else w_len w' = -1) /\
  Z.of_nat (length (w_out w')) <= Z.of_nat (length (w_out w)) + w_len w.
Proof.
  intros Hlen w'. subst w'. split.
  - case_if; btrue; [rewrite qword_add_fits by lia; done|].
    unfold qword_add. rewrite (proj2 (Z.ltb_ge _ 0)) by lia.
    destruct (Z.eq_dec (w_len w) (Z.of_nat (length (qencode str)))) as [He|].
    + rewrite qword_add_loop_fits by lia. rewrite (proj2 (Z.ltb_lt _ 1)) by lia. done.
    + pose proof (qword_add_loop_overflow str (w_out w) (w_len w) ltac:(lia)) as P.
      destruct (qword_add_loop _ _ _) as [[rest out] len].
      destruct rest; [|done]. destruct P as [?|P]; [done|].
      now rewrite (proj2 (Z.ltb_lt _ 1)) by lia.
  - unfold qword_add. rewrite (proj2 (Z.ltb_ge _ 0)) by lia.
    pose proof (qword_add_loop_bound str (w_out w) (w_len w) Hlen) as P.
    destruct (qword_add_loop _ _ _) as [[rest out] len].
    destruct rest; cbn; [|lia]. case_if; cbn; btrue; [lia|]. rewrite length_app. simpl. lia.
Qed.

Lemma qword_get_encoded s rest bufsize :
  s <> [] -> no_nul s -> Z.of_nat (length s) < bufsize ->
  qword_get (qencode s ++ [SP] ++ rest) bufsize
  = QGet (Z.of_nat (length s)) (skip_while is_space_char rest) (s ++ [NUL]).
Proof.
  intros Hne Hs Hb. unfold qword_get.
  destruct (qencode_head s ([SP] ++ rest) Hne Hs) as [-> ->].
  rewrite get_text_encoded by (auto; cbn; lia). cbn. done.
Qed.

(** Round trip of the text form: whatever non-empty C string [qword_add]
    could fit behind the bytes already in the buffer, [qword_get] reads back
    exactly, leaving the pointer at the next word. *)
Theorem qword_roundtrip (w : wbuf) (str rest : cstr) (bufsize : Z) :
  str <> [] -> no_nul str -> Z.of_nat (length str) < bufsize ->
  0 <= w_len (qword_add w str) ->
  exists word, w_out (qword_add w str) = w_out w ++ word /\
    qword_get (word ++ rest) bufsize
    = QGet (Z.of_nat (length str)) (skip_while is_space_char rest) (str ++ [NUL]).
Proof.
  intros Hne Hs Hb Hfit. assert (0 <= w_len w) as Hw.
  { unfold qword_add in Hfit. destruct (w_len w <? 0) eqn:E; btrue; lia. }
  destruct (qword_add_spec w str Hw) as [Hsp _]. case_if_in Hsp; btrue; [|lia].
  destruct Hsp as [-> _]. exists (qencode str ++ [SP]). split; [done|].
  rewrite <- app_assoc. now apply qword_get_encoded.
Qed.

Lemma qword_roundtrip_witness :
  exists word,
    w_out (qword_add (WBuf ($"nfsd ") 40) ($"/a b\c")) = $"nfsd " ++ word /\
    qword_get (word ++ $"next") 64 = QGet 6 ($"next") ($"/a b\c" ++ [NUL]).
Proof.
  apply (qword_roundtrip (WBuf ($"nfsd ") 40) ($"/a b\c") ($"next") 64).
  - done.
  - repeat constructor; discriminate.
  - reflexivity.
  - vm_compute. congruence.
Defined.

(** Round trip of the hexadecimal form, for arbitrary bytes (NULs
    included), when the destination has room for one byte more than the data. *)
Theorem qword_hex_roundtrip (w : wbuf) (buf rest : cstr) (bufsize : Z) :
  2 * Z.of_nat (length buf) + 3 <= w_len w ->
  Z.of_nat (length buf) < bufsize ->
  exists word, w_out (qword_addhex w buf) = w_out w ++ word /\
    0 <= w_len (qword_addhex w buf) /\
    qword_get (word ++ rest) bufsize
    = QGet (Z.of_nat (length buf)) (skip_while is_space_char rest) (buf ++ [NUL]).
Proof.
  intros Hw Hb. rewrite qword_addhex_fits by done. eexists; split; [reflexivity|].
  split; [cbn; lia|]. rewrite <- !app_assoc. apply qword_get_hexencoded. lia.
Qed.

Lemma qword_hex_roundtrip_witness :
  exists word,
    w_out (qword_addhex (WBuf [] 11) [NUL; "255"%char; "n"%char; "010"%char]) = [] ++ word /\
    0 <= w_len (qword_addhex (WBuf [] 11) [NUL; "255"%char; "n"%char; "010"%char]) /\
    qword_get (word ++ $"x") 5 = QGet 4 ($"x") [NUL; "255"%char; "n"%char; "010"%char; NUL].
Proof.
  apply (qword_hex_roundtrip (WBuf [] 11) [NUL; "255"%char; "n"%char; "010"%char] ($"x") 5);
    vm_compute; congruence.
Defined.

(** Buffer use of [qword_add]: it never writes past the room it was given,
    succeeds exactly when the encoded word and its separator fit, and otherwise
    leaves the error mark [-1], which later calls keep. *)
Theorem qword_add_bounds (w : wbuf) (str : cstr) :
  0 <= w_len w ->
  Z.of_nat (length (w_out (qword_add w str))) <= Z.of_nat (length (w_out w)) + w_len w /\
  (0 <= w_len (qword_add w str) <-> Z.of_nat (length (qencode str)) < w_len w) /\
  (forall str', w_len (qword_add w str) < 0 ->
     qword_add (qword_add w str) str' = qword_add w str).
Proof.
  intros H. destruct (qword_add_spec w str H) as [Hs Hb]. split; [done|]. split.
  - case_if_in Hs; btrue; [destruct Hs as [_ ->]; lia|]. rewrite Hs. lia.
  - intros str' Hn. unfold qword_add at 1. now rewrite (proj2 (Z.ltb_lt _ 0)) by lia.
Qed.

Lemma qword_add_bounds_witness :
  Z.of_nat (length (w_out (qword_add (WBuf ($"ab") 5) ($"/x y")))) <= 2 + 5.
Proof. apply (qword_add_bounds (WBuf ($"ab") 5) ($"/x y")). vm_compute. congruence. Defined.

(** Buffer use of [qword_get]: for any input it stores at most [bufsize]
    bytes (the NUL included) when the word is in text form, but in the
    hexadecimal form it can store one byte more than [bufsize]: a word of
    [bufsize] bytes is accepted and its NUL lands one past the buffer. *)
Theorem qword_get_bounds (bp : cstr) (bufsize : Z) :
  0 < bufsize ->
  let p := skip_while is_space_char bp in
  let hex := ceqb (at_index p 0) BSLASH && ceqb (at_index p 1) "x" in
  Z.of_nat (length (q_dest (qword_get bp bufsize))) <= bufsize + (if hex then 1 else 0) /\
  (exists word, Z.of_nat (length (q_dest (qword_get word bufsize))) = bufsize + 1).
Proof.
  intros Hb p hex. split.
  - unfold qword_get. fold p. fold hex. destruct hex.
    + destruct (get_hex (drop 2 p) [] bufsize) as [bp' dest] eqn:G.
      apply get_hex_bound in G; [|simpl; lia]. case_if; cbn [q_dest]; [lia|].
      rewrite length_app; simpl; lia.
    + destruct (get_text p [] bufsize) as [bp' dest] eqn:G.
      apply get_text_bound in G; [|simpl; lia]. case_if; cbn [q_dest]; [lia|].
      rewrite length_app; simpl; lia.
  - set (s := replicate (Z.to_nat bufsize) "A"%char).
    assert (Z.of_nat (length s) = bufsize) as L by (subst s; rewrite length_replicate; lia).
    exists ([BSLASH; "x"%char] ++ hexencode s ++ [SP] ++ []).
    rewrite qword_get_hexencoded by lia. cbn [q_dest]. rewrite length_app. simpl. lia.
Qed.

Lemma qword_get_bounds_witness :
  Z.of_nat (length (q_dest (qword_get ($"\x4142 z") 1))) <= 1 + 1 /\
  (exists word, Z.of_nat (length (q_dest (qword_get word 1))) = 1 + 1).
Proof. apply (qword_get_bounds ($"\x4142 z") 1). reflexivity. Defined.
