(* ===== verification/Heap.v ===== *)
(** * A store of linked-list nodes

    The list components ([struct mount_option] of utils/mount/parse_opt.c and
    [struct notify_list] of utils/statd/notlist.c) are doubly linked lists
    whose operations relink nodes in place, so they are modelled on an explicit
    store.  [hM A] is a state monad over the store of nodes with payload [A]:
    [None] is undefined behaviour (a NULL, dangling or never-allocated pointer
    was dereferenced, or a block was freed twice), so a theorem that gives
    [Some] shows memory safety too.  The state also carries the number of
    allocations that will still succeed, so that every out-of-memory path of
    the code can be taken.

    The second part relates a store to the sequence of nodes a list holds
    ([dseg], [dll]), the representation invariant of both components. *)

From S2P Require Import Prelude.

Abbreviation loc := positive.
(** A C pointer: [None] is NULL. *)
Abbreviation ptr := (option positive).

Record node (A : Type) := Node { next : ptr; prev : ptr; data : A }.
Arguments Node {A}. Arguments next {A}. Arguments prev {A}. Arguments data {A}.

Record hstate (A : Type) := HState { cells : gmap loc (node A); budget : nat }.
Arguments HState {A}. Arguments cells {A}. Arguments budget {A}.

Definition hM (A B : Type) : Type := hstate A -> option (B * hstate A).

Section monad.
  Context {A : Type}.

Definition hret {B} (b : B) : hM A B := fun s => Some (b, s).
Definition hbind {B C} (m : hM A B) (k : B -> hM A C) : hM A C :=
  fun s => match m s with Some (b, s') => k b s' | None => None end.
(** Dereference outside the store: undefined behaviour. *)
Definition hfail {B} : hM A B := fun _ => None.

(** [*p], for the whole node. *)
Definition load (p : ptr) : hM A (node A) :=
  fun s => match p with
           | Some l => match cells s !! l with
                       | Some n => Some (n, s)
                       | None => None
                       end
           | None => None
           end.

Definition store (p : ptr) (n : node A) : hM A unit :=
  fun s => match p with
           | Some l => match cells s !! l with
                       | Some _ => Some (tt, HState (<[l := n]> (cells s)) (budget s))
                       | None => None
                       end
           | None => None
           end.

(** [p->next = q] and [p->prev = q]. *)
Definition set_next (p q : ptr) : hM A unit :=
  hbind (load p) (fun n => store p (Node q (prev n) (data n))).
Definition set_prev (p q : ptr) : hM A unit :=
  hbind (load p) (fun n => store p (Node (next n) q (data n))).
Definition set_data (p : ptr) (a : A) : hM A unit :=
  hbind (load p) (fun n => store p (Node (next n) (prev n) a)).

(** [malloc] of one node: NULL once the budget is used up. *)
Definition malloc (n : node A) : hM A ptr :=
  fun s => match budget s with
           | O => Some (None, s)
           | S b => let l := fresh (dom (cells s)) in
                    Some (Some l, HState (<[l := n]> (cells s)) b)
           end.

(** [strdup] and friends: the copy is a value, only the failure is visible. *)
Definition strdup (c : cstr) : hM A (option cstr) :=
  fun s => match budget s with
           | O => Some (None, s)
           | S b => Some (Some c, HState (cells s) b)
           end.

(** [free(p)]: freeing NULL does nothing. *)
Definition hfree (p : ptr) : hM A unit :=
  fun s => match p with
           | None => Some (tt, s)
           | Some l => match cells s !! l with
                       | Some _ => Some (tt, HState (delete l (cells s)) (budget s))
                       | None => None
                       end
           end.

(** [for (p = first; p; p = p->next)] with a body that either goes on with a new
    accumulator or returns; the body also sees whether [p->next] is set.
    Running out of fuel is a failure, so a result shows termination. *)
Fixpoint scan_fwd {S R} (fuel : nat) (f : S -> bool -> A -> S + R) (acc : S) (p : ptr)
  : hM A (S + R) :=
  match p with
  | None => hret (inl acc)
  | Some _ =>
      match fuel with
      | O => hfail
      | Datatypes.S fuel =>
          hbind (load p) (fun n =>
            match f acc (bool_decide (next n <> None)) (data n) with
            | inl acc => scan_fwd fuel f acc (next n)
            | inr r => hret (inr r)
            end)
      end
  end.

(** [for (p = last; p; p = p->prev)]. *)
Fixpoint scan_bwd {S R} (fuel : nat) (f : S -> A -> S + R) (acc : S) (p : ptr)
  : hM A (S + R) :=
  match p with
  | None => hret (inl acc)
  | Some _ =>
      match fuel with
      | O => hfail
      | Datatypes.S fuel =>
          hbind (load p) (fun n =>
            match f acc (data n) with
            | inl acc => scan_bwd fuel f acc (prev n)
            | inr r => hret (inr r)
            end)
      end
  end.

(** Fuel for a walk: a list without cycles has no more nodes than the store. *)
Definition with_fuel {B} (k : nat -> hM A B) : hM A B := fun s => k (size (cells s)) s.

End monad.

Notation "'let*' x ':=' m 'in' k" := (hbind m (fun x => k))
  (at level 10, x name, m at level 100, k at level 200).
Notation "m ';*' k" := (hbind m (fun _ => k))
  (at level 199, k at level 200, right associativity).

(** The same loops on the list of payloads. *)
Fixpoint scan_list {A S R} (f : S -> bool -> A -> S + R) (acc : S) (l : list A) : S + R :=
  match l with
  | [] => inl acc
  | a :: l' =>
      match f acc (match l' with [] => false | _ => true end) a with
      | inl acc => scan_list f acc l'
      | inr r => inr r
      end
  end.

(** ** Representation of a list in the store *)

Section rep.
  Context {A : Type}.
  Implicit Types (h : gmap loc (node A)) (l : list (loc * A)).

Definition hd_loc (l : list (loc * A)) (n : ptr) : ptr :=
  match l with [] => n | (x, _) :: _ => Some x end.

Fixpoint last_loc (p : ptr) (l : list (loc * A)) : ptr :=
  match l with [] => p | (x, _) :: l' => last_loc (Some x) l' end.

(** [l] is a segment of linked nodes between the neighbours [p] and [n]. *)
Fixpoint dseg (h : gmap loc (node A)) (p : ptr) (l : list (loc * A)) (n : ptr) : Prop :=
  match l with
  | [] => True
  | (x, a) :: l' => h !! x = Some (Node (hd_loc l' n) p a) /\ dseg h (Some x) l' n
  end.

Definition dll (h : gmap loc (node A)) (first last : ptr) (l : list (loc * A)) : Prop :=
  first = hd_loc l None /\ last = last_loc None l /\ NoDup l.*1 /\ dseg h None l None.

Lemma hd_loc_app l1 l2 n : hd_loc (l1 ++ l2) n = hd_loc l1 (hd_loc l2 n).
Proof. by destruct l1 as [|[]]. Qed.

Lemma last_loc_app p l1 l2 : last_loc p (l1 ++ l2) = last_loc (last_loc p l1) l2.
Proof. revert p; induction l1 as [|[x a] l1 IH]; intros p; simpl; auto. Qed.

Lemma last_loc_snoc p l x a : last_loc p (l ++ [(x, a)]) = Some x.
Proof. by rewrite last_loc_app. Qed.

Lemma dseg_app h p l1 l2 n :
  dseg h p (l1 ++ l2) n <-> dseg h p l1 (hd_loc l2 n) /\ dseg h (last_loc p l1) l2 n.
Proof.
  revert p; induction l1 as [|[x a] l1 IH]; intros p; simpl; [tauto|].
  rewrite IH, hd_loc_app. tauto.
Qed.

Lemma dseg_lookup h p l n x a : dseg h p l n -> (x, a) ∈ l -> is_Some (h !! x).
Proof.
  revert p; induction l as [|[y b] l IH]; intros p H Hin; [set_solver|].
  destruct H as [H1 H2]. apply elem_of_cons in Hin as [Hin|Hin]; [simplify_eq; eauto|eauto].
Qed.

Lemma dseg_dom h p l n x : dseg h p l n -> x ∈ l.*1 -> x ∈ dom h.
Proof.
  intros H Hin. apply list_elem_of_fmap in Hin as ([y a] & -> & Hin).
  apply elem_of_dom. eauto using dseg_lookup.
Qed.

(** Frame: a write or a deallocation elsewhere does not matter. *)
Lemma dseg_insert h p l n x v : x ∉ l.*1 -> dseg h p l n -> dseg (<[x := v]> h) p l n.
Proof.
  revert p; induction l as [|[y b] l IH]; intros p Hx H; [done|].
  destruct H as [H1 H2]. rewrite fmap_cons in Hx.
  apply not_elem_of_cons in Hx as [Hxy Hx]. cbn in Hxy.
  split; [by rewrite lookup_insert_ne|]. by apply IH.
Qed.

Lemma dseg_delete h p l n x : x ∉ l.*1 -> dseg h p l n -> dseg (delete x h) p l n.
Proof.
  revert p; induction l as [|[y b] l IH]; intros p Hx H; [done|].
  destruct H as [H1 H2]. rewrite fmap_cons in Hx.
  apply not_elem_of_cons in Hx as [Hxy Hx]. cbn in Hxy.
  split; [by rewrite lookup_delete_ne|]. by apply IH.
Qed.

(** Relinking the last node forward, or the first node backward. *)
Lemma dseg_set_last h p l x a n n' :
  NoDup (l ++ [(x, a)]).*1 -> dseg h p (l ++ [(x, a)]) n ->
  dseg (<[x := Node n' (last_loc p l) a]> h) p (l ++ [(x, a)]) n'.
Proof.
  rewrite fmap_app. intros (H1 & H2 & _)%NoDup_app [D1 D2]%dseg_app.
  apply dseg_app. split; [|split; [by rewrite lookup_insert_eq|done]].
  apply dseg_insert; [|done]. intros Hin. apply (H2 x Hin). simpl. by left.
Qed.

Lemma dseg_set_first h p p' x a l n :
  NoDup ((x, a) :: l).*1 -> dseg h p ((x, a) :: l) n ->
  dseg (<[x := Node (hd_loc l n) p' a]> h) p' ((x, a) :: l) n.
Proof.
  rewrite fmap_cons. intros [H1 H2]%NoDup_cons [D1 D2].
  split; [by rewrite lookup_insert_eq|]. by apply dseg_insert.
Qed.

Lemma dseg_nodup_size h p l n : NoDup l.*1 -> dseg h p l n -> (length l <= size h)%nat.
Proof.
  intros Hn Hd. rewrite <- (length_fmap fst). rewrite <- size_dom.
  rewrite <- (size_list_to_set (C := gset loc)) by done.
  apply subseteq_size. intros x Hx. apply elem_of_list_to_set in Hx. eauto using dseg_dom.
Qed.

Lemma NoDup_loc_cons (x : loc) (a : A) l : (NoDup ((x, a) :: l).*1) <-> (x ∉ l.*1) /\ NoDup l.*1.
Proof. rewrite fmap_cons. apply NoDup_cons. Qed.

(** The walks compute the list loops. *)
Lemma scan_fwd_list {S R} fuel (f : S -> bool -> A -> S + R) acc p l s :
  dseg (cells s) p l None -> (length l <= fuel)%nat ->
  scan_fwd fuel f acc (hd_loc l None) s = Some (scan_list f acc l.*2, s).
Proof.
  revert fuel acc p; induction l as [|[x a] l IH]; intros fuel acc p D Hf.
  { by destruct fuel. }
  destruct D as [D1 D2]. cbn [hd_loc]. destruct fuel as [|fuel]; [simpl in Hf; lia|].
  cbn [scan_fwd]. unfold hbind, load. rewrite D1. cbn [next data fmap list_fmap scan_list fst snd].
  assert (bool_decide (hd_loc l None <> None) = match l.*2 with [] => false | _ => true end) as ->.
  { by destruct l as [|[]]. }
  destruct (f acc _ a) as [acc'|r]; [|done]. eapply IH; [exact D2|]. simpl in Hf. lia.
Qed.

Lemma scan_bwd_list {S R} fuel (f : S -> A -> S + R) acc l s n :
  dseg (cells s) None l n -> (length l <= fuel)%nat ->
  scan_bwd fuel f acc (last_loc None l) s
  = Some (scan_list (fun acc _ a => f acc a) acc (reverse l.*2), s).
Proof.
  revert fuel acc n; induction l as [|[x a] l IH] using rev_ind; intros fuel acc n D Hf.
  { by destruct fuel. }
  apply dseg_app in D as [D1 [D2 _]]. rewrite last_loc_snoc.
  rewrite length_app in Hf. simpl in Hf. destruct fuel as [|fuel]; [lia|].
  cbn [scan_bwd]. unfold hbind, load. rewrite D2. cbn [prev data].
  rewrite fmap_app, reverse_app. cbn [fmap list_fmap snd reverse rev_append app scan_list].
  destruct (f acc a) as [acc'|r]; [|done]. eapply IH; [exact D1|]. lia.
Qed.

(** [scan_list] with a body that only stops is a search. *)
Lemma scan_list_find {R} (f : A -> option R) (l : list A) :
  scan_list (fun (_ : unit) (_ : bool) a => match f a with Some r => inr r | None => inl tt end) tt l
  = match list_find (fun a => f a <> None) l with
    | Some (_, a) => match f a with Some r => inr r | None => inl tt end
    | None => inl tt
    end.
Proof.
  induction l as [|a l IH]; simpl; [done|].
  destruct (f a) as [r|] eqn:E.
  - rewrite decide_True by done. by rewrite E.
  - rewrite decide_False by (intros H; by apply H). rewrite IH.
    destruct (list_find _ l) as [[i b]|]; done.
Qed.

End rep.

#[export] Hint Resolve dseg_insert dseg_delete : nfs.

(** ** Running the primitive operations *)

Section run.
  Context {A : Type}.
  Implicit Types (s : hstate A) (n : node A).

Lemma load_ok s x n : cells s !! x = Some n -> load (Some x) s = Some (n, s).
Proof. intros H. unfold load. by rewrite H. Qed.

Lemma set_next_ok s x n q :
  cells s !! x = Some n ->
  set_next (Some x) q s
  = Some (tt, HState (<[x := Node q (prev n) (data n)]> (cells s)) (budget s)).
Proof. intros H. unfold set_next, hbind, load, store. by rewrite H, H. Qed.

Lemma set_prev_ok s x n q :
  cells s !! x = Some n ->
  set_prev (Some x) q s
  = Some (tt, HState (<[x := Node (next n) q (data n)]> (cells s)) (budget s)).
Proof. intros H. unfold set_prev, hbind, load, store. by rewrite H, H. Qed.

Lemma set_data_ok s x n a :
  cells s !! x = Some n ->
  set_data (Some x) a s
  = Some (tt, HState (<[x := Node (next n) (prev n) a]> (cells s)) (budget s)).
Proof. intros H. unfold set_data, hbind, load, store. by rewrite H, H. Qed.

Lemma hfree_ok s x n :
  cells s !! x = Some n -> hfree (Some x) s = Some (tt, HState (delete x (cells s)) (budget s)).
Proof. intros H. unfold hfree. by rewrite H. Qed.

Lemma hbind_ok {B C} (m : hM A B) (k : B -> hM A C) s b s' :
  m s = Some (b, s') -> hbind m k s = k b s'.
Proof. intros H. unfold hbind. by rewrite H. Qed.

Lemma fresh_cells (h : gmap loc (node A)) : h !! fresh (dom h) = None.
Proof. apply not_elem_of_dom, is_fresh. Qed.

End run.

(** Run one primitive operation whose node is known. *)
Ltac hstep :=
  first
  [ erewrite hbind_ok; [|first [ apply load_ok | apply set_next_ok | apply set_prev_ok
                               | apply set_data_ok | apply hfree_ok | reflexivity ];
                         cbn [cells]; by simplify_map_eq ]
  | erewrite hbind_ok; [|reflexivity] ];
  cbn [cells budget next prev data].

(** Two stores agree outside a set of nodes. *)
Definition same_outside {A} (xs : list loc) (h h' : gmap loc (node A)) : Prop :=
  forall y, y ∉ xs -> h' !! y = h !! y.

Lemma same_outside_refl {A} xs (h : gmap loc (node A)) : same_outside xs h h.
Proof. done. Qed.

Lemma same_outside_weaken {A} xs ys (h h' : gmap loc (node A)) :
  same_outside xs h h' -> (forall x, x ∈ xs -> x ∈ ys) -> same_outside ys h h'.
Proof. intros H Hs y Hy. apply H. auto. Qed.

Lemma dseg_same {A} xs (h h' : gmap loc (node A)) p l n :
  same_outside xs h h' -> (forall x, x ∈ l.*1 -> x ∉ xs) -> dseg h p l n -> dseg h' p l n.
Proof.
  intros Hs. revert p; induction l as [|[x a] l IH]; intros p Hd D; [done|].
  destruct D as [D1 D2]. rewrite fmap_cons in Hd. split.
  - rewrite Hs; [done|]. apply Hd. by left.
  - apply IH; [|done]. intros y Hy. apply Hd. by right.
Qed.

(** ** The relinking steps shared by the list components *)

Section relink.
  Context {A : Type}.
  Implicit Types (h : gmap loc (node A)) (l : list (loc * A)).

(** Append: a new node behind the last one. *)
Lemma dll_append h l x y b a :
  NoDup (l ++ [(y, b)]).*1 -> x ∉ (l ++ [(y, b)]).*1 ->
  dseg h None (l ++ [(y, b)]) None ->
  dseg (<[y := Node (Some x) (last_loc None l) b]> (<[x := Node None (Some y) a]> h))
       None ((l ++ [(y, b)]) ++ [(x, a)]) None.
Proof.
  intros Hn Hx D. apply dseg_app. cbn [hd_loc]. split.
  - eapply dseg_set_last; [done|]. by apply dseg_insert.
  - rewrite last_loc_snoc. split; [|done].
    rewrite lookup_insert_ne, lookup_insert_eq; [done|].
    rewrite fmap_app in Hx. set_solver.
Qed.

(** Prepend: a new node before the first one. *)
Lemma dll_prepend h l x y b a :
  NoDup ((y, b) :: l).*1 -> x ∉ ((y, b) :: l).*1 ->
  dseg h None ((y, b) :: l) None ->
  dseg (<[y := Node (hd_loc l None) (Some x) b]> (<[x := Node (Some y) None a]> h))
       None ((x, a) :: (y, b) :: l) None.
Proof.
  intros Hn Hx D. rewrite fmap_cons in Hx. split.
  - rewrite lookup_insert_ne, lookup_insert_eq; [done|]. set_solver.
  - eapply dseg_set_first; [done|]. apply dseg_insert; [by rewrite fmap_cons|done].
Qed.

(** Unlink: the neighbours of a node skip over it. *)
Definition unlink_cells (h : gmap loc (node A)) (p n : ptr) : gmap loc (node A) :=
  let h := match p with
           | Some q => match h !! q with
                       | Some m => <[q := Node n (prev m) (data m)]> h | None => h end
           | None => h
           end in
  match n with
  | Some q => match h !! q with
              | Some m => <[q := Node (next m) p (data m)]> h | None => h end
  | None => h
  end.

Lemma dseg_unlink h p l1 x a l2 n :
  NoDup (l1 ++ (x, a) :: l2).*1 -> p = None -> n = None ->
  dseg h p (l1 ++ (x, a) :: l2) n ->
  dseg (unlink_cells h (last_loc p l1) (hd_loc l2 n)) p (l1 ++ l2) n.
Proof.
  intros Hn -> -> D. apply dseg_app in D as [D1 [D2 D3]].
  rewrite fmap_app, fmap_cons in Hn. apply NoDup_app in Hn as (N1 & N2 & [N3 N4]%NoDup_cons).
  assert (Hdis : forall y, y ∈ l1.*1 -> y ∉ l2.*1) by set_solver.
  apply dseg_app. unfold unlink_cells.
  (* the left neighbour *)
  set (h1 := match last_loc None l1 with Some _ => _ | None => h end).
  assert (E1 : dseg h1 None l1 (hd_loc l2 None) /\ dseg h1 (Some x) l2 None).
  { subst h1. destruct l1 as [|[y b] l1' _] using rev_ind; [by cbn|].
    rewrite last_loc_snoc. apply dseg_app in D1 as D1'. destruct D1' as [_ [D1' _]].
    rewrite D1'. cbn [prev data]. split.
    - eapply dseg_set_last; [|exact D1]. done.
    - apply dseg_insert; [|done]. apply Hdis. rewrite fmap_app. set_solver. }
  destruct E1 as [E1 E2]. clearbody h1.
  destruct l2 as [|[z c] l2']; [by cbn|]. cbn [hd_loc] in *.
  destruct E2 as [E2 E3]. rewrite E2. cbn [next data]. split.
  - apply dseg_insert; [|done]. intros Hin. apply (Hdis z Hin). set_solver.
  - split; [by rewrite lookup_insert_eq|]. apply NoDup_loc_cons in N4 as [N4 _].
    by apply dseg_insert.
Qed.

Lemma unlink_cells_outside h p n y :
  Some y <> p -> Some y <> n -> unlink_cells h p n !! y = h !! y.
Proof.
  intros Hp Hn. unfold unlink_cells.
  assert (forall h0, match p with
    | Some q => match h0 !! q with Some m => <[q := Node n (prev m) (data m)]> h0 | None => h0 end
    | None => h0 end !! y = h0 !! y) as E.
  { intros h0. destruct p as [q|]; [|done]. destruct (h0 !! q); [|done].
    by rewrite lookup_insert_ne by congruence. }
  destruct n as [q|]; [|apply E].
  set (h1 := match p with Some _ => _ | None => h end).
  assert (h1 !! y = h !! y) as E1 by apply E. destruct (h1 !! q); [|done].
  by rewrite lookup_insert_ne by congruence.
Qed.

(** The code's two guarded assignments compute [unlink_cells]. *)
Lemma unlink_run {C} (k : hM A C) s p n :
  (forall q, p = Some q -> is_Some (cells s !! q)) ->
  (forall q, n = Some q -> is_Some (cells s !! q)) ->
  hbind (match p with Some _ => set_next p n | None => hret tt end) (fun _ =>
  hbind (match n with Some _ => set_prev n p | None => hret tt end) (fun _ => k)) s
  = k (HState (unlink_cells (cells s) p n) (budget s)).
Proof.
  intros Hp Hn. unfold unlink_cells.
  destruct p as [q|].
  - destruct (Hp q eq_refl) as [m Hm]. erewrite hbind_ok by (by apply set_next_ok).
    rewrite Hm. cbn [cells budget]. destruct n as [r|]; [|done].
    assert (is_Some (<[q := Node (Some r) (prev m) (data m)]> (cells s) !! r)) as [m' Hm'].
    { destruct (decide (q = r)) as [->|]; [rewrite lookup_insert_eq; eauto|].
      rewrite lookup_insert_ne by done. by apply Hn. }
    erewrite hbind_ok by (by apply set_prev_ok). cbn [cells budget]. by rewrite Hm'.
  - destruct n as [r|]; [|by destruct s]. destruct (Hn r eq_refl) as [m Hm].
    erewrite hbind_ok by reflexivity. erewrite hbind_ok by (by apply set_prev_ok).
    by rewrite Hm.
Qed.

Lemma last_loc_in p l y : last_loc p l = Some y -> p = Some y \/ y ∈ l.*1.
Proof.
  revert p; induction l as [|[x a] l IH]; intros p H; [by left|].
  right. rewrite fmap_cons. destruct (IH _ H) as [[= ->]|?]; set_solver.
Qed.

Lemma hd_loc_in n l y : hd_loc l n = Some y -> n = Some y \/ y ∈ l.*1.
Proof. destruct l as [|[x a] l]; simpl; [by left|]. intros [= ->]. right. set_solver. Qed.

(** The parts of a list without repetition around one of its nodes. *)
Lemma NoDup_around (l1 l2 : list (loc * A)) x a :
  NoDup (l1 ++ (x, a) :: l2).*1 ->
  (x ∉ l1.*1) /\ (x ∉ l2.*1) /\ (forall y, y ∈ l1.*1 -> y ∉ l2.*1) /\ NoDup (l1 ++ l2).*1.
Proof.
  rewrite !fmap_app, fmap_cons. intros (N1 & N2 & [N3 N4]%NoDup_cons)%NoDup_app. cbn in *.
  split_and!; [set_solver..|]. apply NoDup_app. set_solver.
Qed.

Lemma unlink_outside h l1 l2 y :
  y ∉ l1.*1 -> y ∉ l2.*1 -> unlink_cells h (last_loc None l1) (hd_loc l2 None) !! y = h !! y.
Proof.
  intros H1 H2. apply unlink_cells_outside; intros E; symmetry in E.
  - by destruct (last_loc_in _ _ _ E).
  - by destruct (hd_loc_in _ _ _ E).
Qed.

End relink.
