(* ===== verification/Token.v ===== *)
(** * The mount option tokenizer (utils/mount/token.c)

    A tokenizer walks a string and yields the maximal runs between delimiters,
    where a delimiter inside double quotes does not count.  [tstate] is
    [struct tokenizer_state]; a NULL [pos] is [None].  The functions run in
    [hM] only for their allocations. *)

From S2P Require Import Prelude Heap.

Definition EINVAL : Z := 22.
Definition ENOMEM : Z := 12.

Record tokenizer_state := TState { pos : option cstr; delimiter : ascii; error : Z }.

Definition find_next_nondelimiter (delim : ascii) (p : cstr) : cstr :=
  skip_while (fun c => ceqb c delim) p.

(** The scan: the [len] characters passed over, the new position, and whether
    the string ended inside quotes. *)
Fixpoint scan_delimiter (delim : ascii) (quote_seen : bool) (p : cstr) : cstr * cstr * bool :=
  match p with
  | [] => ([], [], quote_seen)
  | c :: p' =>
      let quote_seen := if ceqb c DQUOTE then negb quote_seen else quote_seen in
      if negb quote_seen && ceqb c delim then ([], p, quote_seen)
      else let '(tok, rest, q) := scan_delimiter delim quote_seen p' in (c :: tok, rest, q)
  end.

(** [find_next_delimiter]: the length is 0 and [error] is set when the closing
    quote is missing. *)
Definition find_next_delimiter (t : tokenizer_state) (p : cstr) : nat * tokenizer_state :=
  let '(tok, rest, q) := scan_delimiter (delimiter t) false p in
  if q then (0%nat, TState (Some rest) (delimiter t) EINVAL)
  else (length tok, TState (Some rest) (delimiter t) (error t)).

Section with_store.
  Context {A : Type}.

Definition next_token (t : option tokenizer_state)
  : hM A (option cstr * option tokenizer_state) :=
  match t with
  | None => hret (None, None)
  | Some t =>
      match pos t with
      | None => hret (None, Some t)
      | Some p =>
          if negb (error t =? 0) then hret (None, Some t)
          else
            let token := find_next_nondelimiter (delimiter t) p in
            match token with
            | [] => hret (None, Some (TState None (delimiter t) (error t)))
            | _ :: _ =>
                let '(len, t') := find_next_delimiter t token in
                match len with
                | O => hret (None, Some (TState None (delimiter t') (error t')))
                | S _ =>
                    let* dup := strdup (take len token) in
                    match dup with
                    | Some tok => hret (Some tok, Some t')
                    | None => hret (None, Some (TState None (delimiter t') ENOMEM))
                    end
                end
            end
      end
  end.

Definition init_tokenizer (s : cstr) (delim : ascii) : hM A (option tokenizer_state) :=
  fun st => match budget st with
            | O => Some (None, st)
            | S b => Some (Some (TState (Some s) delim 0), HState (cells st) b)
            end.

Definition tokenizer_error (t : option tokenizer_state) : Z :=
  match t with Some t => error t | None => 0 end.

End with_store.

(** ** What the tokens of a string are *)

(** The fields between delimiters outside quotes. *)
Fixpoint qfields (delim : ascii) (q : bool) (s : cstr) : list cstr :=
  match s with
  | [] => [[]]
  | c :: s' =>
      let q := if ceqb c DQUOTE then negb q else q in
      if negb q && ceqb c delim then [] :: qfields delim q s'
      else match qfields delim q s' with
           | f :: fs => (c :: f) :: fs
           | [] => [[c]]
           end
  end.

(** The parity of the double quotes of a string: [true] when one is left open. *)
Fixpoint quotes_open (q : bool) (s : cstr) : bool :=
  match s with
  | [] => q
  | c :: s' => quotes_open (if ceqb c DQUOTE then negb q else q) s'
  end.

Definition tokens (delim : ascii) (s : cstr) : list cstr :=
  filter (fun f => f <> []) (qfields delim false s).

Lemma tokens_skip delim c s :
  delim <> DQUOTE -> ceqb c delim = true -> tokens delim (c :: s) = tokens delim s.
Proof.
  intros Hd E. unfold tokens. cbn [qfields]. rewrite E.
  apply ceqb_true in E as ->. rewrite (proj2 (ceqb_false _ _) Hd). by cbn.
Qed.

Lemma tokens_nondelimiter delim s :
  delim <> DQUOTE -> tokens delim (find_next_nondelimiter delim s) = tokens delim s.
Proof.
  intros Hd. induction s as [|c s IH]; [done|]. cbn [find_next_nondelimiter skip_while].
  destruct (ceqb c delim) eqn:E; [|done]. by rewrite tokens_skip.
Qed.

Lemma nondelimiter_quotes delim s :
  delim <> DQUOTE -> quotes_open false (find_next_nondelimiter delim s) = quotes_open false s.
Proof.
  intros Hd. induction s as [|c s IH]; [done|]. cbn [find_next_nondelimiter skip_while].
  destruct (ceqb c delim) eqn:E; [|done]. unfold find_next_nondelimiter in IH.
  rewrite IH. cbn [quotes_open]. apply ceqb_true in E as ->. by rewrite (proj2 (ceqb_false _ _) Hd).
Qed.

(** One scan splits off the first field, and keeps what is left. *)
Lemma scan_delimiter_spec delim q s tok rest q' :
  delim <> DQUOTE -> scan_delimiter delim q s = (tok, rest, q') ->
  s = tok ++ rest /\ q' = quotes_open q tok /\
  (rest = [] /\ qfields delim q s = [tok] \/
   exists r, rest = delim :: r /\ q' = false /\ qfields delim q s = tok :: qfields delim false r) .
Proof.
  intros Hd. revert q tok rest q'; induction s as [|c s IH]; intros q tok rest q' H;
    cbn [scan_delimiter] in H; [simplify_eq; auto|].
  cbn [qfields]. set (q1 := if ceqb c DQUOTE then negb q else q) in *.
  destruct (negb q1 && ceqb c delim) eqn:E.
  - injection H as <- <- <-. btrue. subst c. split; [done|].
    assert (q = false /\ q1 = false) as [-> Hq1].
    { subst q1. rewrite (proj2 (ceqb_false _ _) Hd) in *. done. }
    split; [done|]. right. exists s. by rewrite Hq1.
  - destruct (scan_delimiter delim q1 s) as [[tok1 rest1] q2] eqn:G. injection H as <- <- <-.
    apply IH in G as (-> & -> & G). split; [done|]. split; [done|].
    destruct G as [[-> ->]|(r & -> & Hq & ->)]; [by left|right; eauto].
Qed.

Lemma quotes_open_app q a b : quotes_open q (a ++ b) = quotes_open (quotes_open q a) b.
Proof. revert q; induction a; intros q; simpl; auto. Qed.

Lemma scan_delimiter_nonempty delim c s tok rest q' :
  delim <> DQUOTE -> c <> delim ->
  scan_delimiter delim false (c :: s) = (tok, rest, q') -> tok <> [].
Proof.
  intros Hd Hc. cbn [scan_delimiter]. rewrite (proj2 (ceqb_false _ _) Hc), andb_false_r.
  destruct (scan_delimiter _ _ s) as [[? ?] ?]. intros. by simplify_eq.
Qed.

Lemma nondelimiter_head delim s c p :
  find_next_nondelimiter delim s = c :: p -> c <> delim.
Proof.
  induction s as [|d s IH]; [done|]. cbn [find_next_nondelimiter skip_while].
  destruct (ceqb d delim) eqn:E; [done|]. intros [= -> ->]. by btrue.
Qed.

Lemma nondelimiter_length delim s : (length (find_next_nondelimiter delim s) <= length s)%nat.
Proof.
  destruct (skip_while_suffix (fun c => ceqb c delim) s) as [a E].
  unfold find_next_nondelimiter. rewrite E at 2. rewrite length_app. lia.
Qed.

(** What one call of [next_token] on a live tokenizer does to the tokens still
    to come. *)
Lemma next_token_step {A} delim s (st : hstate A) :
  delim <> DQUOTE -> (0 < budget st)%nat ->
  let t := TState (Some s) delim 0 in
  match tokens delim s, quotes_open false s with
  | [], false => next_token (Some t) st = Some ((None, Some (TState None delim 0)), st)
  | tok :: toks, false =>
      exists s', next_token (Some t) st
        = Some ((Some tok, Some (TState (Some s') delim 0)), HState (cells st) (pred (budget st)))
        /\ tokens delim s' = toks /\ quotes_open false s' = false /\ (length s' < length s)%nat
  | _, true =>
      (exists t', next_token (Some t) st = Some ((None, Some t'), st) /\ error t' = EINVAL) \/
      (exists tok s', next_token (Some t) st
        = Some ((Some tok, Some (TState (Some s') delim 0)), HState (cells st) (pred (budget st)))
        /\ quotes_open false s' = true /\ (length s' < length s)%nat)
  end.
Proof.
  intros Hd Hb t. subst t. cbn [next_token pos error Z.eqb negb delimiter].
  rewrite <- (tokens_nondelimiter delim s Hd), <- (nondelimiter_quotes delim s Hd).
  pose proof (nondelimiter_length delim s) as HL.
  destruct (find_next_nondelimiter delim s) as [|c p] eqn:E; [done|].
  apply nondelimiter_head in E. unfold find_next_delimiter. cbn [delimiter error].
  destruct (scan_delimiter delim false (c :: p)) as [[tok rest] q] eqn:G.
  pose proof (scan_delimiter_nonempty _ _ _ _ _ _ Hd E G) as Hne.
  apply scan_delimiter_spec in G as (Hcp & Hq & G); [|done].
  assert (HK : take (length tok) (c :: p) = tok) by (rewrite Hcp; apply take_app_length).
  assert (HQ : quotes_open false (c :: p) = quotes_open q rest)
    by (rewrite Hcp, quotes_open_app; congruence).
  assert (HL' : (length tok + length rest <= length s)%nat)
    by (rewrite <- length_app, <- Hcp; exact HL).
  destruct tok as [|c' tok]; [done|]. destruct (budget st) as [|b] eqn:Eb; [lia|].
  assert (HN : @strdup A (take (length (c' :: tok)) (c :: p)) st
               = Some (Some (c' :: tok), HState (cells st) b)).
  { unfold strdup. by rewrite Eb, HK. }
  rewrite HQ. destruct G as [[-> HF]|(r & -> & -> & HF)].
  - assert (tokens delim (c :: p) = [c' :: tok]) as ->
      by (unfold tokens; rewrite HF; by rewrite filter_cons_True).
    cbn [quotes_open]. destruct q; [by left; eexists|]. cbn [length] in HN |- *.
    exists []. unfold hbind. rewrite HN. repeat split. simpl in *. lia.
  - assert (tokens delim (c :: p) = (c' :: tok) :: tokens delim (delim :: r)) as ->.
    { rewrite (tokens_skip delim delim) by (done || apply ceqb_refl).
      unfold tokens. rewrite HF. by rewrite filter_cons_True. }
    cbn [length] in HN |- *. unfold hbind. rewrite HN.
    destruct (quotes_open false (delim :: r)) eqn:Q.
    + right. exists (c' :: tok), (delim :: r). repeat split; [done|]. simpl in *. lia.
    + exists (delim :: r). repeat split; [done|]. simpl in *. lia.
Qed.

(** The two outcomes of a call, read off the result. *)
Lemma next_token_None {A} delim s (st st' : hstate A) t :
  delim <> DQUOTE -> (0 < budget st)%nat ->
  next_token (Some (TState (Some s) delim 0)) st = Some ((None, t), st') ->
  (tokenizer_error t =? 0) = negb (quotes_open false s) /\
  (quotes_open false s = false -> tokens delim s = []).
Proof.
  intros Hd Hb E. pose proof (next_token_step delim s st Hd Hb) as H. cbn zeta in H.
  rewrite E in H. destruct (quotes_open false s), (tokens delim s) as [|tok toks].
  1, 2: destruct H as [(t' & [= -> _] & He)|(? & ? & [=] & _)]; cbn; by rewrite He.
  - by injection H as -> _.
  - by destruct H as (? & [=] & _).
Qed.

Lemma next_token_Some {A} delim s (st st' : hstate A) tok t :
  delim <> DQUOTE -> (0 < budget st)%nat ->
  next_token (Some (TState (Some s) delim 0)) st = Some ((Some tok, t), st') ->
  st' = HState (cells st) (pred (budget st)) /\
  exists s', t = Some (TState (Some s') delim 0) /\
    quotes_open false s' = quotes_open false s /\
    (quotes_open false s = false -> tokens delim s = tok :: tokens delim s').
Proof.
  intros Hd Hb E. pose proof (next_token_step delim s st Hd Hb) as H. cbn zeta in H.
  rewrite E in H. destruct (quotes_open false s), (tokens delim s) as [|tok' toks].
  1, 2: destruct H as [(t' & [=] & He)|(? & ? & [= -> -> ->] & Hq & _)];
    (split; [done|eexists; by repeat split]).
  - discriminate H.
  - destruct H as (s' & [= -> -> ->] & <- & Hq & _).
    split; [done|eexists; by repeat split].
Qed.
