(* ===== verification/ParseOpt.v ===== *)
(** * Mount option lists (utils/mount/parse_opt.c)

    [mount_options] is the list object of mount.nfs: the head and tail pointers
    of a doubly linked list of [struct mount_option] and a 32-bit counter.  The
    operations relink nodes of the store of [Heap]; [rep] says that an object
    represents a sequence of options, and the theorems show that each operation
    implements the corresponding operation on that sequence. *)

From S2P Require Import Prelude Heap Token.

(** [struct mount_option] without its links. *)
Record mopt := MOpt { keyword : cstr; value : option cstr }.
Record mount_options := MOptions { head : ptr; tail : ptr; count : Z }.

Inductive po_return_t := PO_FAILED | PO_SUCCEEDED.
Inductive po_found_t := PO_NOT_FOUND | PO_FOUND | PO_BAD_VALUE.

#[export] Instance mopt_eq_dec : EqDecision mopt.
Proof. solve_decision. Defined.

Abbreviation M := (hM mopt).

(** ** Operations *)

(** Split at the first equals sign. *)
Definition parse_option (str : cstr) : mopt :=
  match strchr "=" str with
  | Some (k, v) => MOpt k (Some v)
  | None => MOpt str None
  end.

Definition option_create (str : option cstr) : M ptr :=
  match str with
  | None => hret None
  | Some str =>
      let* option := malloc (Node None None (MOpt [] None)) in
      match option with
      | None => hret None
      | Some _ =>
          match strchr "=" str with
          | Some (k, v) =>
              let* keyword := strdup k in
              match keyword with
              | None => hfree option ;* hret None
              | Some keyword =>
                  let* value := strdup v in
                  match value with
                  | None => hfree option ;* hret None
                  | Some value => set_data option (MOpt keyword (Some value)) ;* hret option
                  end
              end
          | None =>
              let* keyword := strdup str in
              match keyword with
              | None => hfree option ;* hret None
              | Some keyword => set_data option (MOpt keyword None) ;* hret option
              end
          end
      end
  end.

Definition option_dup (p : ptr) : M ptr :=
  let* new := malloc (Node None None (MOpt [] None)) in
  match new with
  | None => hret None
  | Some _ =>
      let* option := load p in
      let* kw := strdup (keyword (data option)) in
      match kw with
      | None => hfree new ;* hret None
      | Some kw =>
          match value (data option) with
          | None => set_data new (MOpt kw None) ;* hret new
          | Some v =>
              let* v := strdup v in
              match v with
              | None => hfree new ;* hret None
              | Some v => set_data new (MOpt kw (Some v)) ;* hret new
              end
          end
      end
  end.

Definition options_init : mount_options := MOptions None None 0.

(** [options_create]: the object itself is a value; only failure is visible. *)
Definition options_create : M (option mount_options) :=
  fun s => match budget s with
           | O => Some (None, s)
           | S b => Some (Some options_init, HState (cells s) b)
           end.

Definition options_empty (o : mount_options) : bool := count o =? 0.

Definition options_tail_insert (o : mount_options) (option : ptr) : M mount_options :=
  let prev := tail o in
  set_next option None ;*
  set_prev option prev ;*
  let* head' := (match prev with
                 | Some _ => set_next prev option ;* hret (head o)
                 | None => hret option
                 end) in
  hret (MOptions head' option (u32 (count o + 1))).

Definition options_head_insert (o : mount_options) (option : ptr) : M mount_options :=
  let ohead := head o in
  set_prev option None ;*
  set_next option ohead ;*
  let* tail' := (match ohead with
                 | Some _ => set_prev ohead option ;* hret (tail o)
                 | None => hret option
                 end) in
  hret (MOptions option tail' (u32 (count o + 1))).

Definition options_delete (o : mount_options) (option : ptr) : M mount_options :=
  let* n := load option in
  if options_empty o then hret o
  else
    (match prev n with Some _ => set_next (prev n) (next n) | None => hret tt end) ;*
    (match next n with Some _ => set_prev (next n) (prev n) | None => hret tt end) ;*
    hfree option ;*
    hret (MOptions (if decide (head o = option) then next n else head o)
                   (if decide (tail o = option) then prev n else tail o)
                   (u32 (count o - 1))).

(** [while (!options_empty(options)) options_delete(options, options->head)]. *)
Fixpoint delete_all (fuel : nat) (o : mount_options) : M mount_options :=
  if options_empty o then hret o
  else match fuel with
       | O => hfail
       | S fuel => let* o := options_delete o (head o) in delete_all fuel o
       end.

Definition po_destroy (o : option mount_options) : M unit :=
  match o with
  | None => hret tt
  | Some o => with_fuel (fun fuel => let* _ := delete_all fuel o in hret tt)
  end.

(** The token loop of [po_split]: [None] stands for the jump to [fail]. *)
Fixpoint po_split_loop (fuel : nat) (t : option tokenizer_state) (o : mount_options)
  : M (option tokenizer_state * mount_options * bool) :=
  match fuel with
  | O => hfail
  | S fuel =>
      let* r := next_token t in
      match r with
      | (None, t) => hret (t, o, true)
      | (Some opt, t) =>
          let* option := option_create (Some opt) in
          match option with
          | None => hret (t, o, false)
          | Some _ =>
              let* o := options_tail_insert o option in
              po_split_loop fuel t o
          end
      end
  end.

Definition po_split (str : option cstr) : M (option mount_options) :=
  match str with
  | None => options_create
  | Some str =>
      let* options := options_create in
      match options with
      | None => hret None
      | Some options =>
          let* t := init_tokenizer str "," in
          let* r := po_split_loop (S (length str)) t options in
          match r with
          | (t, options, ok) =>
              if ok && (tokenizer_error t =? 0) then hret (Some options)
              else po_destroy (Some options) ;* hret None
          end
      end
  end.

(** [while (target->count < source->count)]. *)
Fixpoint po_dup_loop (fuel : nat) (source target : mount_options) (current : ptr)
  : M (option mount_options) :=
  if negb (count target <? count source) then hret (Some target)
  else match fuel with
       | O => hfail
       | S fuel =>
           let* option := option_dup current in
           match option with
           | None => po_destroy (Some target) ;* hret None
           | Some _ =>
               let* target := options_tail_insert target option in
               let* n := load current in
               po_dup_loop fuel source target (next n)
           end
       end.

Definition po_dup (source : option mount_options) : M (option mount_options) :=
  match source with
  | None => hret None
  | Some source =>
      let* target := options_create in
      match target with
      | None => hret None
      | Some target =>
          if options_empty source then hret (Some target)
          else with_fuel (fun fuel => po_dup_loop fuel source target (head source))
      end
  end.

(** The two objects after [po_replace(target, source)]. *)
Definition po_replace (target source : option mount_options)
  : M (option mount_options * option mount_options) :=
  match target with
  | None => hret (None, source)
  | Some target =>
      let* target := with_fuel (fun fuel => delete_all fuel target) in
      match source with
      | None => hret (Some target, None)
      | Some source => hret (Some source, Some options_init)
      end
  end.

(** The two loops of [po_join]: the buffer size, then the text. *)
Definition join_size (len : Z) (more : bool) (o : mopt) : Z + Empty_set :=
  inl (len + Z.of_nat (length (keyword o))
       + match value o with Some v => Z.of_nat (length v) + 1 | None => 0 end
       + (if more then 1 else 0)).
Definition join_text (str : cstr) (more : bool) (o : mopt) : cstr + Empty_set :=
  inl (str ++ keyword o
       ++ match value o with Some v => "="%char :: v | None => [] end
       ++ (if more then [","%char] else [])).

(** [po_join]: the return value, the new [*str] and the size of its buffer;
    [str] says whether the handle is non-NULL. *)
Definition po_join (options : option mount_options) (str : bool)
  : M (po_return_t * option cstr * Z) :=
  match options, str with
  | Some o, true =>
      if options_empty o then
        let* e := strdup [] in
        hret (match e with Some _ => PO_SUCCEEDED | None => PO_FAILED end, e, 1)
      else
        let* len := with_fuel (fun fuel => scan_fwd fuel join_size 0 (head o)) in
        let len := match len with inl len => len + 1 | inr e => match e with end end in
        let* ok := strdup [] in
        match ok with
        | None => hret (PO_FAILED, None, len)
        | Some _ =>
            let* r := with_fuel (fun fuel => scan_fwd fuel join_text [] (head o)) in
            match r with
            | inl s => hret (PO_SUCCEEDED, Some s, len)
            | inr e => match e with end
            end
        end
  | _, _ => hret (PO_FAILED, None, 0)
  end.

Definition po_insert (o : mount_options) (str : option cstr) : M (mount_options * po_return_t) :=
  let* option := option_create str in
  match option with
  | Some _ => let* o := options_head_insert o option in hret (o, PO_SUCCEEDED)
  | None => hret (o, PO_FAILED)
  end.

Definition po_append (o : mount_options) (str : option cstr) : M (mount_options * po_return_t) :=
  let* option := option_create str in
  match option with
  | Some _ => let* o := options_tail_insert o option in hret (o, PO_SUCCEEDED)
  | None => hret (o, PO_FAILED)
  end.

Definition po_contains (o : option mount_options) (kw : option cstr) : M po_found_t :=
  match o, kw with
  | Some o, Some kw =>
      let* r := with_fuel (fun fuel =>
        scan_fwd fuel (fun _ _ a => if streq (keyword a) kw then inr tt else inl tt) tt (head o)) in
      hret (match r with inr _ => PO_FOUND | inl _ => PO_NOT_FOUND end)
  | _, _ => hret PO_NOT_FOUND
  end.

(** The keyword found, when there is one: the [*keyword] output. *)
Definition po_contains_prefix (o : option mount_options) (prefix : option cstr) (n : Z)
  : M (option cstr) :=
  match o, prefix with
  | Some o, Some prefix =>
      let* r := with_fuel (fun fuel =>
        scan_fwd fuel (fun n _ a =>
          if starts_with prefix (keyword a)
          then if 0 <? n then inl (n - 1) else inr (keyword a)
          else inl n) n (head o)) in
      hret (match r with inr k => Some k | inl _ => None end)
  | _, _ => hret None
  end.

Definition po_get (o : option mount_options) (kw : option cstr) : M (option cstr) :=
  match o, kw with
  | Some o, Some kw =>
      let* r := with_fuel (fun fuel =>
        scan_bwd fuel (fun _ a => if streq (keyword a) kw then inr (value a) else inl tt) tt (tail o)) in
      hret (match r with inr v => v | inl _ => None end)
  | _, _ => hret None
  end.

(** The found code and, for [PO_FOUND], the [*value] output. *)
Definition po_get_numeric (o : option mount_options) (kw : option cstr) : M (po_found_t * option Z) :=
  let* option := po_get o kw in
  match option with
  | None => hret (PO_NOT_FOUND, None)
  | Some s =>
      let r := strtol 10 s in
      if negb (st_erange r) && st_conv r then hret (PO_FOUND, Some (st_value r))
      else hret (PO_BAD_VALUE, None)
  end.

(** [for (i = 0; keys[i] != NULL; i++) if (strcmp(...) == 0) return i]. *)
Fixpoint key_index (i : Z) (kw : cstr) (keys : list cstr) : option Z :=
  match keys with
  | [] => None
  | k :: keys => if streq kw k then Some i else key_index (i + 1) kw keys
  end.

Definition po_rightmost (o : option mount_options) (keys : list cstr) : M Z :=
  match o with
  | None => hret (-1)
  | Some o =>
      let* r := with_fuel (fun fuel =>
        scan_bwd fuel (fun _ a => match key_index 0 (keyword a) keys with
                                  | Some i => inr i | None => inl tt end) tt (tail o)) in
      hret (match r with inr i => i | inl _ => -1 end)
  end.

Fixpoint po_remove_loop (fuel : nat) (kw : cstr) (o : mount_options) (option : ptr) (found : bool)
  : M (mount_options * bool) :=
  match option with
  | None => hret (o, found)
  | Some _ =>
      match fuel with
      | O => hfail
      | S fuel =>
          let* n := load option in
          if streq (keyword (data n)) kw then
            let* o := options_delete o option in
            po_remove_loop fuel kw o (next n) true
          else po_remove_loop fuel kw o (next n) found
      end
  end.

Definition po_remove_all (o : option mount_options) (kw : option cstr)
  : M (option mount_options * po_found_t) :=
  match o, kw with
  | Some o, Some kw =>
      let* r := with_fuel (fun fuel => po_remove_loop fuel kw o (head o) false) in
      hret (Some (fst r), if snd r then PO_FOUND else PO_NOT_FOUND)
  | _, _ => hret (o, PO_NOT_FOUND)
  end.

(** ** Representation *)

(** The object [o] holds the options [l] at the nodes [l.*1] of the store. *)
Definition rep (h : gmap loc (node mopt)) (o : mount_options) (l : list (loc * mopt)) : Prop :=
  dll h (head o) (tail o) l /\ count o = Z.of_nat (length l) /\ Z.of_nat (length l) < 2 ^ 32.

(** ** The relinking operations *)

Lemma rep_init h : rep h options_init [].
Proof. repeat split; constructor. Qed.

Lemma rep_empty h o l : rep h o l -> options_empty o = match l with [] => true | _ => false end.
Proof.
  intros (_ & Hc & Hl). unfold options_empty. rewrite Hc.
  by destruct l.
Qed.

Lemma rep_same xs h h' o l :
  same_outside xs h h' -> (forall x, x ∈ l.*1 -> x ∉ xs) -> rep h o l -> rep h' o l.
Proof.
  intros Hs Hd ((H1 & H2 & H3 & H4) & Hc & Hl). repeat split; auto.
  by eapply dseg_same.
Qed.

Lemma rep_fuel s o l : rep (cells s) o l -> (length l <= size (cells s))%nat.
Proof. intros ((_ & _ & Hn & D) & _). by eapply dseg_nodup_size. Qed.

Lemma options_tail_insert_rep s o l x n :
  rep (cells s) o l -> cells s !! x = Some n -> x ∉ l.*1 ->
  Z.of_nat (length l) + 1 < 2 ^ 32 ->
  exists o' h', options_tail_insert o (Some x) s = Some (o', HState h' (budget s)) /\
    rep h' o' (l ++ [(x, data n)]) /\ same_outside (x :: l.*1) (cells s) h'.
Proof.
  intros ((Hh & Ht & Hn & D) & Hc & Hl) Hx Hnx Hb.
  unfold options_tail_insert. do 2 hstep. rewrite insert_insert_eq, Ht.
  assert (NoDup (l ++ [(x, data n)]).*1) as Hn'.
  { rewrite fmap_app. apply NoDup_app. repeat split; [done| |apply NoDup_singleton].
    intros y Hy. set_solver. }
  assert (u32 (count o + 1) = Z.of_nat (length (l ++ [(x, data n)]))) as Hcount.
  { rewrite u32_id; rewrite ?length_app; simpl; lia. }
  assert (Z.of_nat (length (l ++ [(x, data n)])) < 2 ^ 32) as Hlen
    by (rewrite length_app; simpl; lia).
  destruct l as [|[y b] l _] using rev_ind.
  - cbn [last_loc]. hstep. eexists _, _. split; [reflexivity|]. split.
    + repeat split; auto. by rewrite lookup_insert_eq.
    + intros z Hz. rewrite lookup_insert_ne; [done|set_solver].
  - rewrite last_loc_snoc. assert (y <> x) as Hyx.
    { rewrite fmap_app in Hnx. set_solver. }
    pose proof D as D'. apply dseg_app in D' as [_ [Hy _]].
    unfold hbind at 1. erewrite hbind_ok;
      [|apply set_next_ok; cbn [cells]; rewrite lookup_insert_ne by done; exact Hy].
    cbn [cells budget prev data hret]. eexists _, _. split; [reflexivity|]. split.
    + repeat split; cbn [head tail count]; auto.
      * rewrite Hh, hd_loc_app, hd_loc_app. by destruct l as [|[]].
      * by rewrite last_loc_snoc.
      * by apply dll_append.
    + intros z Hz. rewrite fmap_app in Hz. cbn in Hz.
      rewrite !lookup_insert_ne; [done|set_solver|set_solver].
Qed.

Lemma options_head_insert_rep s o l x n :
  rep (cells s) o l -> cells s !! x = Some n -> x ∉ l.*1 ->
  Z.of_nat (length l) + 1 < 2 ^ 32 ->
  exists o' h', options_head_insert o (Some x) s = Some (o', HState h' (budget s)) /\
    rep h' o' ((x, data n) :: l) /\ same_outside (x :: l.*1) (cells s) h'.
Proof.
  intros ((Hh & Ht & Hn & D) & Hc & Hl) Hx Hnx Hb.
  unfold options_head_insert. do 2 hstep. rewrite insert_insert_eq, Hh.
  assert (NoDup ((x, data n) :: l).*1) as Hn' by (by apply NoDup_loc_cons).
  assert (u32 (count o + 1) = Z.of_nat (length ((x, data n) :: l))) as Hcount.
  { rewrite u32_id; simpl; lia. }
  assert (Z.of_nat (length ((x, data n) :: l)) < 2 ^ 32) as Hlen by (simpl; lia).
  destruct l as [|[y b] l].
  - cbn [hd_loc]. hstep. eexists _, _. split; [reflexivity|]. split.
    + repeat split; auto. by rewrite lookup_insert_eq.
    + intros z Hz. rewrite lookup_insert_ne; [done|set_solver].
  - cbn [hd_loc]. assert (y <> x) as Hyx by set_solver.
    destruct D as [Hy D]. unfold hbind at 1. erewrite hbind_ok;
      [|apply set_prev_ok; cbn [cells]; rewrite lookup_insert_ne by done; exact Hy].
    cbn [cells budget next data hret]. eexists _, _. split; [reflexivity|]. split.
    + repeat split; cbn [head tail count]; auto; by apply dll_prepend.
    + intros z Hz. rewrite !lookup_insert_ne; [done|set_solver|set_solver].
Qed.

Lemma options_delete_rep s o l1 x a l2 :
  rep (cells s) o (l1 ++ (x, a) :: l2) ->
  exists o' h', options_delete o (Some x) s = Some (o', HState h' (budget s)) /\
    rep h' o' (l1 ++ l2) /\ h' !! x = None /\
    same_outside (l1 ++ (x, a) :: l2).*1 (cells s) h'.
Proof.
  intros Hrep. pose proof (rep_empty _ _ _ Hrep) as He.
  destruct Hrep as ((Hh & Ht & Hn & D) & Hc & Hl).
  pose proof D as D'. apply dseg_app in D' as [D1 [Hx D2]].
  unfold options_delete. erewrite hbind_ok by (by apply load_ok). rewrite He.
  replace (match l1 ++ (x, a) :: l2 with [] => true | _ => false end) with false
    by (by destruct l1 as [|[]]).
  cbn [next prev].
  destruct (NoDup_around l1 l2 x a Hn) as (X1 & X2 & _ & Hn2).
  rewrite unlink_run; cycle 1.
  { intros q Hq. destruct (last_loc_in _ _ _ Hq) as [?|Hin]; [done|].
    apply elem_of_dom. eapply dseg_dom; [exact D1|exact Hin]. }
  { intros q Hq. destruct (hd_loc_in _ _ _ Hq) as [?|Hin]; [done|].
    apply elem_of_dom. eapply dseg_dom; [exact D2|exact Hin]. }
  set (h1 := unlink_cells _ _ _).
  assert (h1 !! x = cells s !! x) as Hx1 by (by apply unlink_outside).
  erewrite hbind_ok; [|eapply hfree_ok; cbn [cells]; rewrite Hx1; exact Hx].
  cbn [cells budget hret]. eexists _, _. split; [reflexivity|].
  split; [|split].
  - repeat split; cbn [head tail count].
    + rewrite Hh, !hd_loc_app. destruct l1 as [|[y b] l1]; cbn [hd_loc].
      * by rewrite decide_True.
      * rewrite decide_False; [done|]. rewrite fmap_cons in X1. set_solver.
    + rewrite Ht, !last_loc_app. cbn [last_loc].
      destruct l2 as [|[y b] l2 _] using rev_ind; cbn [last_loc].
      * by rewrite decide_True.
      * rewrite !last_loc_snoc. rewrite decide_False; [done|].
        rewrite fmap_app in X2. set_solver.
    + done.
    + apply dseg_delete; [rewrite fmap_app; set_solver|].
      subst h1. by eapply dseg_unlink.
    + rewrite length_app in *. cbn [length] in *. rewrite Hc, u32_id; lia.
    + rewrite length_app in *. cbn [length] in *. lia.
  - by rewrite lookup_delete_eq.
  - intros z Hz. rewrite fmap_app, fmap_cons in Hz. cbn in Hz.
    rewrite lookup_delete_ne by set_solver. apply unlink_outside; set_solver.
Qed.

(** ** Allocation *)

(** [option_create] on any memory: either NULL with the store as before, or a
    fresh unlinked node that holds the parsed option. *)
Lemma option_create_spec str s :
  exists r s', option_create (Some str) s = Some (r, s') /\ (budget s' <= budget s)%nat /\
    ((3 <= budget s)%nat -> r <> None /\ (budget s <= budget s' + 3)%nat) /\
    match r with
    | None => cells s' = cells s
    | Some x => cells s !! x = None /\
                cells s' = <[x := Node None None (parse_option str)]> (cells s)
    end.
Proof.
  unfold option_create, parse_option. set (x := fresh (dom (cells s))).
  assert (cells s !! x = None) as Hf by apply fresh_cells.
  assert (forall n b, hfree (Some x) (HState (<[x := n]> (cells s)) b)
                      = Some (tt, HState (cells s) b)) as Hfree.
  { intros n b. erewrite hfree_ok by (cbn; apply lookup_insert_eq). cbn.
    by rewrite delete_insert_id. }
  assert (forall n a b, set_data (Some x) a (HState (<[x := n]> (cells s)) b)
                      = Some (tt, HState (<[x := Node (next n) (prev n) a]> (cells s)) b)) as Hset.
  { intros n a b. erewrite set_data_ok by (cbn; apply lookup_insert_eq). cbn.
    by rewrite insert_insert_eq. }
  unfold hbind, malloc, strdup. fold x.
  destruct (strchr "=" str) as [[k v]|]; destruct (budget s) as [|[|[|b]]] eqn:Eb;
    cbn [budget cells]; rewrite ?Hfree, ?Hset; cbn [budget cells next prev hret];
    eexists _, _; (split; [reflexivity|]); repeat split; cbn [budget cells]; try lia; done.
Qed.

Lemma delete_all_spec fuel s o l :
  rep (cells s) o l -> (length l <= fuel)%nat ->
  exists o' h', delete_all fuel o s = Some (o', HState h' (budget s)) /\ rep h' o' [] /\
    (forall y, y ∈ l.*1 -> h' !! y = None) /\ same_outside l.*1 (cells s) h'.
Proof.
  revert fuel s o; induction l as [|[x a] l IH]; intros fuel s o Hrep Hf.
  { exists o, (cells s). pose proof (rep_empty _ _ _ Hrep) as E.
    split; [destruct fuel; cbn [delete_all]; rewrite E; by destruct s|].
    split; [done|]. split; [set_solver|done]. }
  destruct fuel as [|fuel]; [simpl in Hf; lia|]. cbn [delete_all].
  rewrite (rep_empty _ _ _ Hrep).
  destruct Hrep as ((Hh & Hrest) & Hc). pose proof Hrest as (_ & Hnd & _).
  destruct (options_delete_rep s o [] x a l) as (o1 & h1 & E1 & R1 & X1 & S1).
  { split; [split; [exact Hh|exact Hrest]|exact Hc]. }
  rewrite Hh. cbn [hd_loc]. erewrite hbind_ok by exact E1.
  destruct (IH fuel (HState h1 (budget s)) o1) as (o2 & h2 & E2 & R2 & X2 & S2);
    [done|simpl in Hf; lia|].
  exists o2, h2. split; [exact E2|]. split; [done|]. apply NoDup_loc_cons in Hnd as [Hxl _].
  split.
  - intros y Hy. rewrite fmap_cons in Hy. apply elem_of_cons in Hy as [->|Hy]; [|auto].
    cbn. rewrite S2 by done. done.
  - intros y Hy. rewrite fmap_cons in Hy. apply not_elem_of_cons in Hy as [Hy1 Hy2].
    rewrite S2 by done. apply S1. cbn. by apply not_elem_of_cons.
Qed.

(** A list whose nodes were not in the store [h0] and that changed nothing of
    it: what has been built since [h0]. *)
Definition built (h0 h : gmap loc (node mopt)) (l : list (loc * mopt)) : Prop :=
  (forall y, y ∈ l.*1 -> h0 !! y = None) /\ same_outside l.*1 h0 h.

Lemma built_destroy h0 s o l :
  built h0 (cells s) l -> rep (cells s) o l ->
  exists s', po_destroy (Some o) s = Some (tt, s') /\ cells s' = h0.
Proof.
  intros [B1 B2] Hrep.
  destruct (delete_all_spec (size (cells s)) s o l Hrep (rep_fuel _ _ _ Hrep))
    as (o' & h' & E & _ & X & S).
  unfold po_destroy, with_fuel. erewrite hbind_ok by exact E.
  eexists; split; [reflexivity|]. cbn. apply map_eq. intros y.
  destruct (decide (y ∈ l.*1)) as [Hy|Hy]; [by rewrite X, B1|by rewrite S, B2].
Qed.

(** Creating a node for [str] and appending it. *)
Lemma create_append_spec h0 str s o l :
  built h0 (cells s) l -> rep (cells s) o l -> Z.of_nat (length l) + 1 < 2 ^ 32 ->
  exists r s1, option_create (Some str) s = Some (r, s1) /\
    ((3 <= budget s)%nat -> r <> None /\ (budget s <= budget s1 + 3)%nat) /\
    match r with
    | None => cells s1 = cells s
    | Some x => exists o' h', options_tail_insert o (Some x) s1 = Some (o', HState h' (budget s1)) /\
        rep h' o' (l ++ [(x, parse_option str)]) /\ built h0 h' (l ++ [(x, parse_option str)])
    end.
Proof.
  intros [B1 B2] Hrep Hl.
  destruct (option_create_spec str s) as (r & s1 & E & Hb & Hbud & Hr).
  exists r, s1. split; [done|]. split; [done|].
  destruct r as [x|]; [|done]. destruct Hr as [Hx Hc].
  assert (x ∉ l.*1) as Hxl.
  { intros Hin. destruct Hrep as ((_ & _ & _ & D) & _).
    apply (dseg_dom _ _ _ _ _ D) in Hin. apply elem_of_dom in Hin as [? ?]. congruence. }
  assert (same_outside [x] (cells s) (cells s1)) as S1.
  { intros y Hy. rewrite Hc, lookup_insert_ne; [done|set_solver]. }
  destruct (options_tail_insert_rep s1 o l x (Node None None (parse_option str)))
    as (o' & h' & E' & R' & S').
  { eapply rep_same; [exact S1| |done]. set_solver. }
  { rewrite Hc. apply lookup_insert_eq. }
  { done. } { done. }
  exists o', h'. split; [done|]. split; [done|]. split.
  - intros y Hy. rewrite fmap_app in Hy. apply elem_of_app in Hy as [Hy|Hy]; [auto|].
    apply list_elem_of_singleton in Hy as ->. cbn. rewrite <- B2; done.
  - intros y Hy. rewrite fmap_app in Hy. cbn in Hy.
    rewrite S' by set_solver. rewrite S1 by set_solver. apply B2. set_solver.
Qed.

Lemma next_token_any delim p e (s : hstate mopt) :
  exists r t s', next_token (Some (TState p delim e)) s = Some ((r, t), s') /\ cells s' = cells s /\
    (budget s' <= budget s)%nat /\
    match r with
    | Some _ => exists q0 q, p = Some q0 /\ t = Some (TState (Some q) delim 0) /\
                 (length q < length q0)%nat
    | None => True
    end.
Proof.
  cbn [next_token pos error delimiter]. destruct p as [p|]; [|by eexists _, _, _].
  destruct (e =? 0) eqn:Ee; cbn [negb]; [|by eexists _, _, _]. apply Z.eqb_eq in Ee as ->.
  pose proof (nondelimiter_length delim p) as HL.
  destruct (find_next_nondelimiter delim p) as [|c q] eqn:E; [by eexists _, _, _|].
  unfold find_next_delimiter. cbn [delimiter error].
  destruct (scan_delimiter delim false (c :: q)) as [[tok rest] b] eqn:G.
  assert (c :: q = tok ++ rest) as Hcq.
  { clear -G. revert G. generalize (c :: q), false. intros l b0. revert b0 tok rest b.
    induction l as [|d l IH]; intros b0 tok rest b; cbn [scan_delimiter]; [by intros [= <- <- _]|].
    case_match; [by intros [= <- <- _]|].
    destruct (scan_delimiter _ _ l) as [[t r] b2] eqn:G. intros [= <- <- _].
    cbn. f_equal. eauto. }
  destruct b; cbn; [by eexists _, _, _|].
  destruct tok as [|d tok]; cbn [length]; [by eexists _, _, _|].
  unfold hbind, strdup. destruct (budget s) as [|b] eqn:Eb; cbn; eexists _, _, _; (split; [reflexivity|]).
  - repeat split. rewrite Eb. lia.
  - repeat split; [simpl; lia|]. exists p, rest. repeat split.
    rewrite Hcq, length_app in HL. simpl in HL. lia.
Qed.

(** ** Splitting *)

(** The token loop, on any memory: it ends, keeps the list built so far well
    formed, and with enough memory appends exactly the tokens of the string. *)
Lemma po_split_loop_spec h0 fuel str s o l :
  built h0 (cells s) l -> rep (cells s) o l -> (length str < fuel)%nat ->
  Z.of_nat (length l + length str) + 1 < 2 ^ 32 ->
  exists t' o' ok s' l',
    po_split_loop fuel (Some (TState (Some str) "," 0)) o s = Some ((t', o', ok), s') /\
    built h0 (cells s') l' /\ rep (cells s') o' l' /\
    ((4 * S (length str) <= budget s)%nat ->
     ok = true /\ (tokenizer_error t' =? 0) = negb (quotes_open false str) /\
     (quotes_open false str = false ->
      l'.*2 = l.*2 ++ (parse_option <$> tokens "," str))).
Proof.
  revert fuel str s o l. induction fuel as [|fuel IH]; intros str s o l B R Hf Hl; [lia|].
  cbn [po_split_loop].
  destruct (next_token_any "," (Some str) 0 s) as (r & t & s1 & E & Hcells & Hbud & Hr).
  rewrite <- Hcells in B, R.
  erewrite hbind_ok by exact E.
  destruct r as [tok|].
  2: { exists t, o, true, s1, l. split; [reflexivity|]. split; [done|]. split; [done|].
       intros Hbudget. split; [done|].
       destruct (next_token_None "," str s s1 t ltac:(done) ltac:(lia) E) as [-> Ht].
       split; [done|]. intros Hq. by rewrite Ht, app_nil_r. }
  destruct Hr as (q0 & q & [= <-] & -> & Hlt).
  destruct (create_append_spec h0 tok s1 o l B R) as (x & s2 & E2 & Hb2 & Hx); [lia|].
  erewrite hbind_ok by exact E2.
  assert (Hstep : (0 < budget s)%nat -> budget s1 = pred (budget s) /\
    quotes_open false q = quotes_open false str /\
    (quotes_open false str = false -> tokens "," str = tok :: tokens "," q)).
  { intros Hpos. destruct (next_token_Some "," str s s1 tok _ ltac:(done) Hpos E)
      as (-> & s'' & [= <-] & Hq & Ht). done. }
  destruct x as [x|].
  2: { exists (Some (TState (Some q) "," 0)), o, false, s2, l. split; [reflexivity|].
       rewrite <- Hx in B, R. split; [done|]. split; [done|]. intros Hbudget.
       destruct (Hstep ltac:(lia)) as [Hb1 _]. by destruct Hb2 as [? _]; [lia|]. }
  destruct Hx as (o' & h' & E3 & R3 & B3). erewrite hbind_ok by exact E3.
  destruct (IH q (HState h' (budget s2)) o' (l ++ [(x, parse_option tok)]) B3 R3)
    as (t' & o2 & ok & s' & l' & E4 & B4 & R4 & H4); [lia|rewrite length_app; simpl; lia|].
  exists t', o2, ok, s', l'. split; [exact E4|]. split; [done|]. split; [done|].
  intros Hbudget. destruct (Hstep ltac:(lia)) as (Hb1 & Hq & Ht). cbn [budget] in H4.
  destruct H4 as (-> & He & Hl').
  { specialize (Hb2 ltac:(lia)). lia. }
  split; [done|]. rewrite He, Hq. split; [done|]. intros Hqo.
  rewrite Hl' by congruence. rewrite Ht by done.
  rewrite fmap_app. cbn. by rewrite <- app_assoc.
Qed.

Lemma po_split_spec str s :
  Z.of_nat (length str) + 1 < 2 ^ 32 ->
  exists r s', po_split (Some str) s = Some (r, s') /\
    match r with
    | None => cells s' = cells s
    | Some o => exists l, rep (cells s') o l /\ built (cells s) (cells s') l /\
        ((4 * S (S (length str)) <= budget s)%nat -> l.*2 = parse_option <$> tokens "," str)
    end /\
    ((4 * S (S (length str)) <= budget s)%nat -> (r = None <-> quotes_open false str = true)).
Proof.
  intros Hlen. unfold po_split, options_create, init_tokenizer, hbind at 1.
  destruct (budget s) as [|b] eqn:Eb.
  { exists None, s. repeat split; lia. }
  unfold hbind at 1. cbn [budget cells]. destruct b as [|b].
  { (* the tokenizer could not be allocated *)
    exists (Some options_init), (HState (cells s) 0). split; [reflexivity|]. split; [|lia].
    exists []. split; [apply rep_init|]. split; [|lia]. split; [set_solver|done]. }
  destruct (po_split_loop_spec (cells s) (S (length str)) str (HState (cells s) b) options_init [])
    as (t' & o' & ok & s' & l' & E & B & R & H).
  { split; [set_solver|done]. } { apply rep_init. } { lia. } { simpl. lia. }
  erewrite hbind_ok by exact E.
  destruct (ok && (tokenizer_error t' =? 0)) eqn:Eok.
  - exists (Some o'), s'. split; [by rewrite Eok|]. split.
    + exists l'. split; [done|]. split; [done|]. intros Hb.
      destruct H as (-> & He & Hl); [cbn [budget]; lia|]. cbn [andb] in Eok. rewrite Eok in He.
      apply Hl. by destruct (quotes_open false str).
    + intros Hb. destruct H as (-> & He & _); [cbn [budget]; lia|]. cbn [andb] in Eok.
      rewrite Eok in He. destruct (quotes_open false str); done.
  - destruct (built_destroy _ _ _ _ B R) as (s2 & E2 & Hc2).
    exists None, s2. split; [rewrite Eok; by erewrite hbind_ok by exact E2|]. split; [done|]. intros Hb.
    destruct H as (-> & He & _); [cbn [budget]; lia|]. cbn [andb] in Eok.
    rewrite Eok in He. by destruct (quotes_open false str).
Qed.

(** ** Joining *)

(** The text of an option, and of a list of options. *)
Definition render (o : mopt) : cstr :=
  keyword o ++ match value o with Some v => "="%char :: v | None => [] end.

Fixpoint join_opts (l : list mopt) : cstr :=
  match l with
  | [] => []
  | o :: l' => render o ++ match l' with [] => [] | _ => ","%char :: join_opts l' end
  end.

Lemma join_text_list acc l : scan_list join_text acc l = inl (acc ++ join_opts l).
Proof.
  revert acc; induction l as [|o l IH]; intros acc; cbn [scan_list join_text]; [by rewrite app_nil_r|].
  rewrite IH. cbn [join_opts]. unfold render. destruct l as [|o' l].
  - by rewrite <- !app_assoc, !app_nil_r.
  - by rewrite <- !app_assoc.
Qed.

Lemma join_size_list acc l :
  scan_list join_size acc l = inl (acc + Z.of_nat (length (join_opts l))).
Proof.
  revert acc; induction l as [|o l IH]; intros acc; cbn [scan_list join_size];
    [f_equal; simpl; lia|].
  rewrite IH. f_equal. destruct l as [|o' l].
  - cbn [join_opts]. unfold render. destruct (value o); rewrite !length_app; simpl; lia.
  - change (join_opts (o :: o' :: l)) with (render o ++ ","%char :: join_opts (o' :: l)).
    generalize (join_opts (o' :: l)); intros J. unfold render.
    destruct (value o); rewrite !length_app; simpl; lia.
Qed.

Lemma po_join_spec s o l :
  rep (cells s) o l -> (0 < budget s)%nat ->
  exists s', po_join (Some o) true s
    = Some ((PO_SUCCEEDED, Some (join_opts l.*2), Z.of_nat (length (join_opts l.*2)) + 1), s')
    /\ cells s' = cells s /\ budget s' = pred (budget s).
Proof.
  intros R Hb. unfold po_join. rewrite (rep_empty _ _ _ R).
  pose proof (rep_fuel _ _ _ R) as Hf. destruct R as ((Hh & _ & _ & D) & _).
  destruct (budget s) as [|b] eqn:Eb; [lia|].
  destruct l as [|x l].
  { unfold hbind, strdup. rewrite Eb. by eexists. }
  rewrite Hh. unfold with_fuel.
  erewrite hbind_ok by (by eapply scan_fwd_list). rewrite join_size_list. cbn [Z.add].
  unfold hbind at 1, strdup. rewrite Eb.
  erewrite hbind_ok by (by eapply scan_fwd_list).
  rewrite join_text_list. by eexists.
Qed.

Lemma qfields_noquote delim s :
  DQUOTE ∉ s -> qfields delim false s = split_on delim s.
Proof.
  induction s as [|c s IH]; intros H; [done|]. apply not_elem_of_cons in H as [H1 H2].
  cbn [qfields split_on]. rewrite (proj2 (ceqb_false c DQUOTE)) by congruence.
  cbn [negb andb]. by rewrite IH.
Qed.

Lemma quotes_noquote s : DQUOTE ∉ s -> quotes_open false s = false.
Proof.
  induction s as [|c s IH]; intros H; [done|]. apply not_elem_of_cons in H as [H1 H2].
  cbn [quotes_open]. rewrite (proj2 (ceqb_false c DQUOTE)) by congruence. auto.
Qed.

(** Options that survive a round trip through text. *)
Definition wf_opt (o : mopt) : Prop :=
  render o <> [] /\ ","%char ∉ render o /\ DQUOTE ∉ render o /\ "="%char ∉ keyword o.

Lemma parse_render o : wf_opt o -> parse_option (render o) = o.
Proof.
  intros (_ & _ & _ & H). destruct o as [k [v|]]; unfold parse_option, render; cbn in *.
  - by rewrite strchr_app.
  - rewrite app_nil_r. by rewrite (proj2 (strchr_None _ _) H).
Qed.

Lemma parse_render_list l : Forall wf_opt l -> parse_option <$> (render <$> l) = l.
Proof. induction 1; cbn; [done|]. f_equal; [by apply parse_render|done]. Qed.

Lemma join_noquote l : Forall wf_opt l -> DQUOTE ∉ join_opts l.
Proof.
  induction 1 as [|o l (_ & _ & H & _) _ IH]; cbn [join_opts]; [set_solver|].
  apply not_elem_of_app. split; [done|]. destruct l; [set_solver|].
  apply not_elem_of_cons. by split.
Qed.

Lemma tokens_join l : Forall wf_opt l -> tokens "," (join_opts l) = render <$> l.
Proof.
  intros H. unfold tokens. rewrite qfields_noquote by (by apply join_noquote).
  induction H as [|o l (Hne & Hc & _ & _) Hl IH]; cbn [join_opts fmap list_fmap]; [done|].
  destruct l as [|o' l].
  - rewrite app_nil_r, split_on_notin by done. by rewrite filter_cons_True.
  - rewrite split_on_app by done. rewrite filter_cons_True by done. f_equal. apply IH.
Qed.

(** ** Searching *)

Lemma scan_list_rightmost {R} (P : mopt -> bool) (g : mopt -> R) (l : list mopt) :
  scan_list (fun (_ : unit) (_ : bool) a => if P a then inr (g a) else inl tt) tt (reverse l)
  = match last (filter (fun a => P a = true) l) with Some a => inr (g a) | None => inl tt end.
Proof.
  induction l as [|a l IH] using rev_ind; [done|].
  rewrite reverse_snoc. cbn [scan_list]. rewrite filter_app.
  destruct (P a) eqn:E.
  - rewrite filter_cons_True by done. by rewrite filter_nil, last_snoc.
  - rewrite filter_cons_False by congruence. by rewrite filter_nil, app_nil_r.
Qed.

(** The options of a keyword. *)
Definition with_keyword (kw : cstr) (l : list mopt) : list mopt :=
  filter (fun a => streq (keyword a) kw = true) l.

Lemma po_get_spec s o l kw :
  rep (cells s) o l ->
  po_get (Some o) (Some kw) s
  = Some (match last (with_keyword kw l.*2) with Some a => value a | None => None end, s).
Proof.
  intros R. pose proof (rep_fuel _ _ _ R) as Hf. destruct R as ((_ & Ht & _ & D) & _).
  unfold po_get, with_fuel. rewrite Ht. erewrite hbind_ok by (by eapply scan_bwd_list).
  rewrite (scan_list_rightmost (fun a => streq (keyword a) kw) value).
  unfold with_keyword. by destruct (last _).
Qed.

Lemma po_contains_spec s o l kw :
  rep (cells s) o l ->
  po_contains (Some o) (Some kw) s
  = Some (match with_keyword kw l.*2 with [] => PO_NOT_FOUND | _ => PO_FOUND end, s).
Proof.
  intros R. pose proof (rep_fuel _ _ _ R) as Hf. destruct R as ((Hh & _ & _ & D) & _).
  unfold po_contains, with_fuel. rewrite Hh. erewrite hbind_ok by (by eapply scan_fwd_list).
  unfold with_keyword, hret. do 2 f_equal. generalize (l.*2). clear.
  induction l as [|a l IH]; [done|]. cbn [scan_list].
  destruct (streq (keyword a) kw) eqn:E; [by rewrite filter_cons_True|].
  by rewrite filter_cons_False by congruence.
Qed.

Lemma po_remove_loop_spec kw fuel s o l1 l2 found :
  rep (cells s) o (l1 ++ l2) -> (length l2 <= fuel)%nat ->
  exists o' h', po_remove_loop fuel kw o (hd_loc l2 None) found s
    = Some ((o', found || existsb (fun a => streq (keyword (snd a)) kw) l2),
            HState h' (budget s)) /\
    rep h' o' (l1 ++ filter (fun a => streq (keyword a.2) kw = false) l2) /\
    same_outside (l1 ++ l2).*1 (cells s) h'.
Proof.
  revert fuel s o l1 found; induction l2 as [|[x a] l2 IH]; intros fuel s o l1 found R Hf.
  { exists o, (cells s). cbn [existsb]. rewrite filter_nil, orb_false_r.
    split; [destruct fuel, s; reflexivity|]. by split. }
  destruct fuel as [|fuel]; [simpl in Hf; lia|]. simpl in Hf.
  cbn [hd_loc po_remove_loop existsb snd].
  pose proof R as ((_ & _ & _ & D) & _). apply dseg_app in D as [_ [Hx _]].
  erewrite hbind_ok by (by apply load_ok). cbn [data next].
  destruct (streq (keyword a) kw) eqn:E.
  - destruct (options_delete_rep s o l1 x a l2 R) as (o1 & h1 & E1 & R1 & _ & S1).
    erewrite hbind_ok by exact E1.
    destruct (IH fuel (HState h1 (budget s)) o1 l1 true R1) as (o' & h' & E2 & R2 & S2); [lia|].
    exists o', h'. rewrite E2. rewrite orb_true_r. split; [done|].
    rewrite filter_cons_False by (cbn; congruence). split; [done|].
    intros y Hy. rewrite fmap_app, fmap_cons in Hy.
    rewrite S2 by (rewrite fmap_app; set_solver). apply S1. by rewrite fmap_app, fmap_cons.
  - destruct (IH fuel s o (l1 ++ [(x, a)]) found) as (o' & h' & E2 & R2 & S2);
      [by rewrite <- app_assoc|lia|].
    exists o', h'. rewrite E2. split; [done|]. rewrite filter_cons_True by done.
    rewrite <- app_assoc in R2, S2. done.
Qed.

(** ** Duplication *)

Lemma option_dup_spec y n s :
  cells s !! y = Some n ->
  exists r s', option_dup (Some y) s = Some (r, s') /\
    ((3 <= budget s)%nat -> r <> None /\ (budget s <= budget s' + 3)%nat) /\
    match r with
    | None => cells s' = cells s
    | Some x => cells s !! x = None /\ cells s' = <[x := Node None None (data n)]> (cells s)
    end.
Proof.
  intros Hy. unfold option_dup. set (x := fresh (dom (cells s))).
  assert (cells s !! x = None) as Hf by apply fresh_cells.
  assert (x <> y) as Hxy by congruence.
  assert (forall m b, hfree (Some x) (HState (<[x := m]> (cells s)) b)
                      = Some (tt, HState (cells s) b)) as Hfree.
  { intros m b. erewrite hfree_ok by (cbn; apply lookup_insert_eq). cbn.
    by rewrite delete_insert_id. }
  assert (forall m a b, set_data (Some x) a (HState (<[x := m]> (cells s)) b)
                      = Some (tt, HState (<[x := Node (next m) (prev m) a]> (cells s)) b)) as Hset.
  { intros m a b. erewrite set_data_ok by (cbn; apply lookup_insert_eq). cbn.
    by rewrite insert_insert_eq. }
  assert (forall m b, load (Some y) (HState (<[x := m]> (cells s)) b)
                      = Some (n, HState (<[x := m]> (cells s)) b)) as Hload.
  { intros m b. apply load_ok. cbn. by rewrite lookup_insert_ne. }
  unfold hbind, malloc, strdup. fold x. destruct n as [nn np [k v]]. cbn [data keyword value].
  destruct v as [v|]; destruct (budget s) as [|[|[|b]]] eqn:Eb;
    cbn [budget cells]; rewrite ?Hload; cbn [data keyword value budget cells];
    rewrite ?Hfree, ?Hset; cbn [budget cells next prev hret];
    eexists _, _; (split; [reflexivity|]); repeat split; cbn [budget cells]; try lia; done.
Qed.

(** The copying loop: [l1] has been copied to [t], [l2] is still to come. *)
(** A copy appended to a list under construction. *)
Lemma built_dup h0 s s1 target t x y n b :
  rep (cells s) target t -> built h0 (cells s) t -> Z.of_nat (length t) + 1 < 2 ^ 32 ->
  h0 !! y = Some n -> cells s !! x = None -> cells s1 = <[x := Node None None b]> (cells s) ->
  exists o' h', options_tail_insert target (Some x) s1 = Some (o', HState h' (budget s1)) /\
    rep h' o' (t ++ [(x, b)]) /\ built h0 h' (t ++ [(x, b)]) /\ h' !! y = Some n.
Proof.
  intros Rt B Hlen Hy Hx Hc.
  assert (Hyt : y ∉ t.*1) by (intros Hin; destruct B as [B _]; rewrite B in Hy; done).
  assert (Hys : cells s !! y = Some n) by (destruct B as [_ B]; by rewrite B).
  assert (x ∉ t.*1) as Hxt.
  { intros Hin. destruct Rt as ((_ & _ & _ & D) & _).
    apply (dseg_dom _ _ _ _ _ D) in Hin. apply elem_of_dom in Hin as [? ?]. congruence. }
  assert (same_outside [x] (cells s) (cells s1)) as S1.
  { intros z Hz. rewrite Hc, lookup_insert_ne; [done|set_solver]. }
  destruct (options_tail_insert_rep s1 target t x (Node None None b)) as (o' & h' & E2 & R2 & S2).
  { eapply rep_same; [exact S1| |done]. set_solver. }
  { rewrite Hc. apply lookup_insert_eq. } { done. } { lia. }
  exists o', h'. split; [done|]. split; [done|]. split.
  - destruct B as [B1 B2]. split.
    + intros z Hz. rewrite fmap_app in Hz. apply elem_of_app in Hz as [Hz|Hz]; [auto|].
      apply list_elem_of_singleton in Hz as ->. cbn. rewrite <- B2; done.
    + intros z Hz. rewrite fmap_app in Hz. cbn in Hz.
      rewrite S2 by set_solver. rewrite S1 by set_solver. apply B2. set_solver.
  - assert (x <> y) by congruence. rewrite S2 by (apply not_elem_of_cons; done). rewrite S1 by set_solver. done.
Qed.

Lemma po_dup_loop_spec h0 fuel s source l1 l2 target t :
  rep h0 source (l1 ++ l2) -> rep (cells s) target t -> built h0 (cells s) t ->
  t.*2 = l1.*2 -> (length l2 <= fuel)%nat ->
  exists r s', po_dup_loop fuel source target (hd_loc l2 None) s = Some (r, s') /\
    match r with
    | None => cells s' = h0
    | Some o => exists t', rep (cells s') o t' /\ built h0 (cells s') t' /\ t'.*2 = (l1 ++ l2).*2
    end /\
    ((3 * length l2 <= budget s)%nat -> r <> None).
Proof.
  intros Rs. revert fuel s l1 target t Rs. induction l2 as [|[y b] l2 IH];
    intros fuel s l1 target t Rs Rt B Ht Hf.
  - assert (count target <? count source = false) as E.
    { destruct Rs as (_ & -> & _), Rt as (_ & -> & _). apply Z.ltb_ge.
      rewrite app_nil_r. apply (f_equal length) in Ht. rewrite !length_fmap in Ht. lia. }
    exists (Some target), s. split; [destruct fuel; cbn [po_dup_loop]; by rewrite E|].
    split; [|done]. exists t. by rewrite app_nil_r.
  - destruct fuel as [|fuel]; [simpl in Hf; lia|]. cbn [po_dup_loop hd_loc].
    assert (Hlen : length t = length l1)
      by (apply (f_equal length) in Ht; by rewrite !length_fmap in Ht).
    assert (count target <? count source = true) as ->.
    { destruct Rs as (_ & -> & _), Rt as (_ & -> & _). apply Z.ltb_lt.
      rewrite length_app. simpl. lia. }
    cbn [negb]. pose proof Rs as ((_ & _ & _ & D) & _ & HLs). apply dseg_app in D as [_ [Hy _]].
    assert (Hys : cells s !! y = Some (Node (hd_loc l2 None) (last_loc None l1) b)).
    { destruct B as [B1 B]. rewrite B; [done|]. intros Hin. by rewrite B1 in Hy. }
    destruct (option_dup_spec y _ s Hys) as (r & s1 & E1 & Hb1 & Hr).
    erewrite hbind_ok by exact E1. destruct r as [x|].
    + destruct Hr as [Hx Hc]. cbn [data] in Hc. rewrite length_app in HLs. simpl in HLs.
      destruct (built_dup h0 s s1 target t x y _ b Rt B ltac:(lia) Hy Hx Hc) as (o' & h' & E2 & R2 & B2 & Hy2).
      erewrite hbind_ok by exact E2. erewrite hbind_ok by (apply load_ok; exact Hy2). cbn [next].
      destruct (IH fuel (HState h' (budget s1)) (l1 ++ [(y, b)]) o' (t ++ [(x, b)]))
        as (r & s' & E3 & Hr3 & Hb3); [by rewrite <- app_assoc|done|done|by rewrite !fmap_app, Ht|simpl in Hf; lia|].
      exists r, s'. rewrite E3. split; [done|].
      rewrite <- app_assoc in Hr3. split; [exact Hr3|]. intros Hb. apply Hb3.
      cbn [budget length] in *. specialize (Hb1 ltac:(lia)). lia.
    + rewrite <- Hr in B, Rt. destruct (built_destroy _ _ _ _ B Rt) as (s2 & E2 & Hc2).
      erewrite hbind_ok by exact E2. exists None, s2. split; [done|]. split; [done|].
      intros Hb. simpl in Hb. destruct (Hb1 ltac:(lia)). done.
Qed.

(** ** Properties *)

(** The object holds these options, in this order. *)
Definition holds (s : hstate mopt) (o : mount_options) (opts : list mopt) : Prop :=
  exists l, rep (cells s) o l /\ l.*2 = opts.

(** C29. [po_split] on any string and with any amount of memory: it returns
    without touching an invalid pointer; when it returns NULL every node it
    allocated has been freed again and the store is as before; when it returns
    an object, that object is a well-formed list of new nodes and no other node
    was changed. *)
Theorem po_split_memory_safe (str : cstr) (s : hstate mopt) :
  Z.of_nat (length str) + 1 < 2 ^ 32 ->
  exists r s', po_split (Some str) s = Some (r, s') /\
    match r with
    | None => cells s' = cells s
    | Some o => exists l, rep (cells s') o l /\ (forall x, x ∈ l.*1 -> cells s !! x = None) /\
                          same_outside l.*1 (cells s) (cells s')
    end.
Proof.
  intros H. destruct (po_split_spec str s H) as (r & s' & E & Hr & _).
  exists r, s'. split; [done|]. destruct r as [o|]; [|done].
  destruct Hr as (l & R & [B1 B2] & _). eauto.
Qed.

Lemma po_split_memory_safe_witness :
  exists r s', po_split (Some ($"rw,vers=4")) (HState ∅ 4) = Some (r, s') /\
    match r with
    | None => cells s' = ∅
    | Some o => exists l, rep (cells s') o l /\
        (forall x, x ∈ l.*1 -> (∅ : gmap loc (node mopt)) !! x = None) /\
        same_outside l.*1 ∅ (cells s')
    end.
Proof. apply (po_split_memory_safe ($"rw,vers=4") (HState ∅ 4)). reflexivity. Defined.

(** With enough memory [po_split] yields exactly the tokens of the string:
    the fields between commas outside double quotes, empty ones dropped, each
    split at its first equals sign; it fails exactly when a quote is left open. *)
Theorem po_split_tokens (str : cstr) (s : hstate mopt) :
  Z.of_nat (length str) + 1 < 2 ^ 32 -> (4 * S (S (length str)) <= budget s)%nat ->
  exists r s', po_split (Some str) s = Some (r, s') /\
    match r with
    | None => quotes_open false str = true
    | Some o => quotes_open false str = false /\ holds s' o (parse_option <$> tokens "," str)
    end.
Proof.
  intros H Hb. destruct (po_split_spec str s H) as (r & s' & E & Hr & Hq).
  specialize (Hq Hb). exists r, s'. split; [done|]. destruct r as [o|]; [|by apply Hq].
  destruct Hr as (l & R & _ & Hl). split; [|by exists l; auto].
  destruct (quotes_open false str); [|done]. by destruct Hq as [_ Hq]; specialize (Hq eq_refl).
Qed.

Lemma po_split_tokens_witness :
  exists r s', po_split (Some ($"rw,,vers=4.2")) (HState ∅ 60) = Some (r, s') /\
    match r with
    | None => false = true
    | Some o => false = false /\
        holds s' o [MOpt ($"rw") None; MOpt ($"vers") (Some ($"4.2"))]
    end.
Proof.
  apply (po_split_tokens ($"rw,,vers=4.2") (HState ∅ 60)); [reflexivity|vm_compute; lia].
Defined.

(** C30. Round trip: joining a list of options and splitting the text again
    gives the same options, when each is non-empty, has no comma and no double
    quote, and no equals sign in its keyword.  The buffer [po_join] allocates
    has room for exactly the text and its NUL. *)
Theorem po_join_split (s : hstate mopt) (o : mount_options) (opts : list mopt) :
  holds s o opts -> Forall wf_opt opts ->
  Z.of_nat (length (join_opts opts)) + 1 < 2 ^ 32 ->
  (4 * S (S (S (length (join_opts opts)))) <= budget s)%nat ->
  exists text len s1 o' s2,
    po_join (Some o) true s = Some ((PO_SUCCEEDED, Some text, len), s1) /\
    len = Z.of_nat (length text) + 1 /\
    po_split (Some text) s1 = Some (Some o', s2) /\ holds s2 o' opts.
Proof.
  intros (l & R & <-) Hwf Hlen Hb.
  destruct (budget s) as [|b] eqn:Eb; [lia|].
  destruct (po_join_spec s o l R ltac:(lia)) as (s1 & E1 & Hc1 & Hb1).
  rewrite Eb in Hb1. cbn [pred] in Hb1.
  destruct (po_split_spec (join_opts l.*2) s1 Hlen) as (r & s2 & E2 & Hr & Hq).
  rewrite (quotes_noquote _ (join_noquote _ Hwf)) in Hq.
  destruct r as [o'|]; [|destruct (Hq ltac:(lia)) as [Hq' _]; by specialize (Hq' eq_refl)].
  destruct Hr as (l' & R' & _ & Hl').
  eexists _, _, s1, o', s2. split; [exact E1|]. split; [done|]. split; [done|].
  exists l'. split; [done|]. rewrite Hl' by lia. rewrite tokens_join by done.
  by apply parse_render_list.
Qed.

Lemma po_join_split_witness :
  exists r s', po_split (Some ($"vers=4,soft")) (HState ∅ 200) = Some (r, s') /\
    exists o, r = Some o /\ exists text len s1 o' s2,
    po_join (Some o) true s' = Some ((PO_SUCCEEDED, Some text, len), s1) /\
    len = Z.of_nat (length text) + 1 /\
    po_split (Some text) s1 = Some (Some o', s2) /\
    holds s2 o' [MOpt ($"vers") (Some ($"4")); MOpt ($"soft") None].
Proof.
  eexists _, _. split; [vm_compute; reflexivity|]. eexists. split; [reflexivity|].
  apply po_join_split.
  - eexists [(1%positive, _); (2%positive, _)]. split; [|reflexivity].
    repeat split; try (vm_compute; reflexivity). vm_compute. apply NoDup_cons. split.
    + set_solver. + apply NoDup_singleton.
  - repeat constructor; try discriminate; vm_compute; set_solver.
  - reflexivity.
  - vm_compute. lia.
Defined.

(** [po_get] returns the value of the rightmost option with the keyword
    (NULL when there is none, or when it has no value), whatever precedes it;
    [po_contains] finds a keyword exactly when some option has it.  Neither
    changes the store. *)
Theorem po_get_rightmost (s : hstate mopt) (o : mount_options) (opts : list mopt) (kw : cstr) :
  holds s o opts ->
  po_get (Some o) (Some kw) s
    = Some (match last (with_keyword kw opts) with Some a => value a | None => None end, s) /\
  po_contains (Some o) (Some kw) s
    = Some (match with_keyword kw opts with [] => PO_NOT_FOUND | _ => PO_FOUND end, s).
Proof.
  intros (l & R & <-). split; [by apply po_get_spec|by apply po_contains_spec].
Qed.

Lemma two_options_hold b :
  holds (HState {[ 1%positive := Node (Some 2%positive) None (MOpt ($"vers") (Some ($"3")));
                   2%positive := Node None (Some 1%positive) (MOpt ($"vers") (Some ($"4"))) ]} b)
        (MOptions (Some 1%positive) (Some 2%positive) 2)
        [MOpt ($"vers") (Some ($"3")); MOpt ($"vers") (Some ($"4"))].
Proof.
  exists [(1%positive, MOpt ($"vers") (Some ($"3"))); (2%positive, MOpt ($"vers") (Some ($"4")))].
  split; [|reflexivity]. repeat split. apply NoDup_cons. split; [set_solver|apply NoDup_singleton].
Qed.

Lemma po_get_rightmost_witness :
  exists s o, po_get (Some o) (Some ($"vers")) s = Some (Some ($"4"), s).
Proof. eexists _, _. apply (po_get_rightmost _ _ _ ($"vers") (two_options_hold 0)). Defined.

(** [po_remove_all] removes every instance of the keyword and nothing else,
    keeps the order of the rest, reports whether there was one, and leaves the
    object well formed; the keyword is then gone for [po_get] and
    [po_contains]. *)
Theorem po_remove_all_spec (s : hstate mopt) (o : mount_options) (opts : list mopt) (kw : cstr) :
  holds s o opts ->
  exists o' s', po_remove_all (Some o) (Some kw) s
    = Some ((Some o', match with_keyword kw opts with [] => PO_NOT_FOUND | _ => PO_FOUND end), s') /\
    holds s' o' (filter (fun a => streq (keyword a) kw = false) opts) /\
    po_get (Some o') (Some kw) s' = Some (None, s') /\
    po_contains (Some o') (Some kw) s' = Some (PO_NOT_FOUND, s').
Proof.
  intros (l & R & <-).
  destruct (po_remove_loop_spec kw (size (cells s)) s o [] l false R (rep_fuel _ _ _ R))
    as (o' & h' & E & R' & _). cbn [app] in R'.
  assert (H : holds (HState h' (budget s)) o' (filter (fun a => streq (keyword a) kw = false) l.*2)).
  { eexists; split; [exact R'|]. apply (filter_fmap_snd (fun a => streq (keyword a) kw = false)). }
  assert (Hnil : with_keyword kw (filter (fun a => streq (keyword a) kw = false) l.*2) = []).
  { unfold with_keyword. apply filter_none, Forall_forall. intros a Ha.
    apply list_elem_of_filter in Ha as [Ha _]. congruence. }
  exists o', (HState h' (budget s)). split.
  - unfold po_remove_all, with_fuel. destruct R as ((Hh & _) & _). rewrite Hh.
    erewrite hbind_ok by exact E. cbn [fst snd orb hret]. do 3 f_equal. unfold with_keyword.
    clear. induction l as [|[x a] l IH]; [done|]. cbn [existsb snd fmap list_fmap].
    destruct (streq (keyword a) kw) eqn:E; [by rewrite filter_cons_True|].
    by rewrite filter_cons_False by congruence.
  - split; [done|]. destruct H as (l2 & R2 & E2).
    rewrite (po_get_spec _ _ _ kw R2), (po_contains_spec _ _ _ kw R2), E2, Hnil. done.
Qed.

Lemma po_remove_all_spec_witness :
  exists s o o' s', po_remove_all (Some o) (Some ($"vers")) s = Some ((Some o', PO_FOUND), s') /\
    holds s' o' [] /\
    po_get (Some o') (Some ($"vers")) s' = Some (None, s') /\
    po_contains (Some o') (Some ($"vers")) s' = Some (PO_NOT_FOUND, s').
Proof. eexists _, _. apply (po_remove_all_spec _ _ _ ($"vers") (two_options_hold 0)). Defined.

(** [po_dup] makes an independent copy: with any memory it either fails
    with the store unchanged, or returns a new list of new nodes that holds the
    same options, while the source still holds them; with three allocations
    per option and one for the object it succeeds. *)
Theorem po_dup_copies (s : hstate mopt) (o : mount_options) (opts : list mopt) :
  holds s o opts ->
  exists r s', po_dup (Some o) s = Some (r, s') /\
    match r with
    | None => cells s' = cells s
    | Some o' => holds s' o' opts /\ holds s' o opts /\
        forall x n, cells s !! x = Some n -> cells s' !! x = Some n
    end /\
    ((3 * length opts + 1 <= budget s)%nat -> r <> None).
Proof.
  intros (l & R & <-). unfold po_dup, options_create.
  unfold hbind. destruct (budget s) as [|b] eqn:Eb.
  { exists None, s. repeat split; lia. }
  rewrite (rep_empty _ _ _ R). destruct l as [|[x a] l].
  - exists (Some options_init), (HState (cells s) b). split; [done|]. split; [|done].
    split; [|split]; [exists []; split; [apply rep_init|done]|exists []; by split|done].
  - destruct (po_dup_loop_spec (cells s) (size (cells s)) (HState (cells s) b) o [] ((x, a) :: l)
                options_init []) as (r & s' & E & Hr & Hb); try done.
    { apply rep_init. } { split; [set_solver|done]. } { by apply (rep_fuel _ _ _ R). }
    exists r, s'. split.
    { unfold with_fuel. cbn [cells]. destruct R as ((-> & _) & _). exact E. }
    split; [|intros Hbud; apply Hb; rewrite length_fmap in Hbud; cbn [budget length] in *; lia].
    destruct r as [o'|]; [|done]. destruct Hr as (t & Rt & [B1 B2] & Ht).
    assert (Hin : forall y n, cells s !! y = Some n -> y ∉ t.*1)
      by (intros y n Hy Hin; rewrite B1 in Hy; done).
    split; [by exists t|]. split.
    + exists ((x, a) :: l). split; [|done]. eapply rep_same; [exact B2| |done].
      intros y Hy. destruct R as ((_ & _ & _ & D) & _).
      apply (dseg_dom _ _ _ _ _ D) in Hy. apply elem_of_dom in Hy as [n Hy]. eauto.
    + intros y n Hy. rewrite B2; eauto.
Qed.

Lemma po_dup_copies_witness :
  exists s o r s', po_dup (Some o) s = Some (r, s') /\
    match r with
    | None => cells s' = cells s
    | Some o' => holds s' o' [MOpt ($"vers") (Some ($"3")); MOpt ($"vers") (Some ($"4"))] /\
        holds s' o [MOpt ($"vers") (Some ($"3")); MOpt ($"vers") (Some ($"4"))] /\
        forall x n, cells s !! x = Some n -> cells s' !! x = Some n
    end /\ ((7 <= budget s)%nat -> r <> None).
Proof. eexists _, _. apply (po_dup_copies _ _ _ (two_options_hold 7)). Defined.
