(* ===== verification/Notlist.v ===== *)
(** * statd's notify lists (utils/statd/notlist.c)

    statd keeps the hosts it monitors ([rtnl]) and the calls it has in flight
    ([notify]) on doubly linked lists reached through a head pointer only.  The
    operations work on the store of [Heap]; a [notify_list **head] argument is
    the value of the head pointer, returned anew.  [nlist] says that a head
    pointer reaches a given sequence of entries.  Entries come from [xmalloc],
    which ends the process when memory is short, so allocation succeeds here. *)

From Stdlib Require Import Sorted.
From S2P Require Import Prelude Heap.

(** [struct notify_list] without its links ([mon] flattened). *)
Record nl_entry := NL
  { nl_mon_name : cstr; nl_my_name : cstr;
    nl_my_prog : Z; nl_my_vers : Z; nl_my_proc : Z; nl_priv : list ascii;
    nl_port : Z; nl_times : Z; nl_state : Z; nl_dns_name : option cstr;
    nl_xid : Z; nl_when : Z }.

Definition SM_PRIV_SIZE : nat := 16.
Definition MAX_TRIES : Z := 5.

Abbreviation M := (hM nl_entry).

Definition xmalloc (n : node nl_entry) : M ptr :=
  fun s => let l := fresh (dom (cells s)) in
           Some (Some l, HState (<[l := n]> (cells s)) (budget s)).

(** ** Operations *)

Definition nlist_new (my_name mon_name : cstr) (state : Z) : M ptr :=
  xmalloc (Node None None
    (NL mon_name my_name 0 0 0 (replicate SM_PRIV_SIZE NUL) 0 MAX_TRIES state None 0 0)).

(** The new value of [*head]. *)
Definition nlist_insert (head entry : ptr) : M ptr :=
  match head with
  | Some _ =>
      set_next entry head ;*
      let* h := load head in
      set_prev entry (prev h) ;*
      set_prev head entry ;*
      hret entry
  | None => hret entry
  end.

(** The search of [nlist_insert_timer]: [back] and [spot]. *)
Fixpoint find_spot (fuel : nat) (when : Z) (spot back : ptr) : M (ptr * ptr) :=
  match spot with
  | None => hret (None, back)
  | Some _ =>
      match fuel with
      | O => hfail
      | S fuel =>
          let* n := load spot in
          if nl_when (data n) <=? when then find_spot fuel when (next n) spot
          else hret (spot, back)
      end
  end.

Definition nlist_insert_timer (head entry : ptr) : M ptr :=
  let* e := load entry in
  let* r := with_fuel (fun fuel => find_spot fuel (nl_when (data e)) head None) in
  let '(spot, back) := r in
  if decide (spot = head) then nlist_insert head entry
  else
    let* spot := nlist_insert spot entry in
    (if decide (spot = entry) then
       set_next back entry ;*
       set_prev entry back
     else hret tt) ;*
    hret head.

Definition nlist_remove (head entry : ptr) : M ptr :=
  let* e := load entry in
  (match next e with Some _ => set_prev (next e) (prev e) | None => hret tt end) ;*
  let* head := (match prev e with
                | Some _ => set_next (prev e) (next e) ;* hret head
                | None => hret (next e)
                end) in
  set_next entry None ;*
  set_prev entry None ;*
  hret head.

Definition nlist_clone (entry : ptr) : M ptr :=
  let* e := load entry in
  let* new := nlist_new (nl_my_name (data e)) (nl_mon_name (data e)) (nl_state (data e)) in
  let* n := load new in
  let d := data n in
  set_data new (NL (nl_mon_name d) (nl_my_name d)
    (nl_my_prog (data e)) (nl_my_vers (data e)) (nl_my_proc (data e)) (nl_priv (data e))
    (nl_port d) (nl_times d) (nl_state d) (nl_dns_name d) (nl_xid d) (nl_when d)) ;*
  hret new.

(** [nlist_free(head, entry)]: [None] is a NULL [head] argument.  Only the
    strings of the entry are freed; the entry itself stays allocated. *)
Definition nlist_free (head : option ptr) (entry : ptr) : M (option ptr) :=
  match head with
  | Some (Some h) =>
      let* head := nlist_remove (Some h) entry in
      let* _ := load entry in
      hret (Some head)
  | _ => let* _ := load entry in hret head
  end.

Fixpoint nlist_kill_loop (fuel : nat) (head : ptr) : M ptr :=
  match head with
  | None => hret None
  | Some _ =>
      match fuel with
      | O => hfail
      | S fuel =>
          let* h := load head in
          let next := next h in
          let* head' := nlist_free (Some head) head in
          hfree (match head' with Some p => p | None => None end) ;*
          nlist_kill_loop fuel next
      end
  end.

Definition nlist_kill (head : ptr) : M ptr :=
  with_fuel (fun fuel => nlist_kill_loop (S fuel) head).

(** The host name comparisons of utils/statd/hostname.c resolve names, so they
    are arguments. *)
Section gethost.
  Context (matchhostname matchhostname_pa : cstr -> cstr -> bool).

Fixpoint gethost_loop (fuel : nat) (lp : ptr) (host : cstr) (myname : bool) : M ptr :=
  match lp with
  | None => hret None
  | Some _ =>
      match fuel with
      | O => hfail
      | S fuel =>
          let* n := load lp in
          if (if negb myname then matchhostname_pa host (nl_mon_name (data n))
              else matchhostname host (nl_my_name (data n)))
          then hret lp
          else gethost_loop fuel (next n) host myname
      end
  end.

Definition nlist_gethost (list : ptr) (host : cstr) (myname : bool) : M ptr :=
  with_fuel (fun fuel => gethost_loop fuel list host myname).

End gethost.

(** ** Representation *)

Definition nlist (h : gmap loc (node nl_entry)) (head : ptr) (l : list (loc * nl_entry)) : Prop :=
  head = hd_loc l None /\ NoDup l.*1 /\ dseg h None l None.

(** An entry that is on no list. *)
Definition unlinked (h : gmap loc (node nl_entry)) (x : loc) (e : nl_entry) : Prop :=
  h !! x = Some (Node None None e).

(** Timer insertion on the sequence: behind every entry due no later. *)
Fixpoint timer_insert (x : loc * nl_entry) (l : list (loc * nl_entry)) : list (loc * nl_entry) :=
  match l with
  | [] => [x]
  | y :: l' => if nl_when y.2 <=? nl_when x.2 then y :: timer_insert x l' else x :: l
  end.

(** The entries are in the order in which they fall due. *)
Definition by_time (l : list (loc * nl_entry)) : Prop :=
  StronglySorted (fun a b => nl_when a.2 <= nl_when b.2) l.

Lemma nlist_fuel s p l : nlist (cells s) p l -> (length l <= size (cells s))%nat.
Proof. intros (_ & Hn & D). by eapply dseg_nodup_size. Qed.

Lemma timer_insert_perm x l : timer_insert x l ≡ₚ x :: l.
Proof.
  induction l as [|y l IH]; cbn [timer_insert]; [done|].
  case_if; [|done]. rewrite IH. by constructor.
Qed.

Lemma timer_insert_by_time x l : by_time l -> by_time (timer_insert x l).
Proof.
  unfold by_time. induction 1 as [|y l Hs IH Hy]; cbn [timer_insert]; [repeat constructor|].
  case_if; btrue.
  - constructor; [done|]. rewrite timer_insert_perm. by constructor.
  - constructor; [by constructor|]. constructor; [lia|].
    eapply Forall_impl; [exact Hy|]. cbn. intros. lia.
Qed.

(** Splitting the sequence where the search stops. *)
Lemma timer_split x l :
  exists l1 l2, l = l1 ++ l2 /\ timer_insert x l = l1 ++ x :: l2 /\
    Forall (fun y => nl_when y.2 <= nl_when x.2) l1 /\
    match l2 with [] => True | y :: _ => nl_when x.2 < nl_when y.2 end.
Proof.
  induction l as [|y l (l1 & l2 & -> & E & H1 & H2)]; cbn [timer_insert].
  { by exists [], []. }
  case_if; btrue.
  - exists (y :: l1), l2. rewrite E. repeat split; [by constructor|done].
  - by exists [], (y :: l1 ++ l2).
Qed.

Lemma find_spot_spec fuel s when p l1 l2 :
  dseg (cells s) p (l1 ++ l2) None -> (length (l1 ++ l2) <= fuel)%nat ->
  Forall (fun y => nl_when y.2 <= when) l1 ->
  match l2 with [] => True | y :: _ => when < nl_when y.2 end ->
  find_spot fuel when (hd_loc (l1 ++ l2) None) p s = Some ((hd_loc l2 None, last_loc p l1), s).
Proof.
  revert fuel p; induction l1 as [|[x a] l1 IH]; intros fuel p D Hf H1 H2.
  - destruct l2 as [|[y b] l2]; [by destruct fuel|].
    destruct D as [D _]. cbn [app hd_loc] in *. destruct fuel as [|fuel]; [simpl in Hf; lia|].
    cbn [find_spot]. erewrite hbind_ok by (by apply load_ok). cbn [data].
    cbn in H2. by rewrite (proj2 (Z.leb_gt _ _)) by lia.
  - destruct D as [D1 D2]. cbn [app hd_loc] in *. destruct fuel as [|fuel]; [simpl in Hf; lia|].
    inversion H1 as [|? ? Hx H1']; subst. cbn in Hx.
    cbn [find_spot]. erewrite hbind_ok by (by apply load_ok). cbn [data next].
    rewrite (proj2 (Z.leb_le _ _)) by lia. cbn [last_loc].
    apply IH; auto. simpl in Hf. lia.
Qed.

(** Prepending to a whole list. *)
Lemma nlist_insert_spec s head l x e :
  nlist (cells s) head l -> unlinked (cells s) x e -> x ∉ l.*1 ->
  exists h', nlist_insert head (Some x) s = Some (Some x, HState h' (budget s)) /\
    nlist h' (Some x) ((x, e) :: l) /\ same_outside (x :: l.*1) (cells s) h'.
Proof.
  intros (-> & Hn & D) Hx Hxl. unfold unlinked in Hx.
  assert (NoDup ((x, e) :: l).*1) as Hn' by (by apply NoDup_loc_cons).
  destruct l as [|[y b] l]; cbn [hd_loc nlist_insert].
  - exists (cells s). split; [by destruct s|]. by repeat split.
  - assert (y <> x) as Hyx by set_solver. destruct D as [Hy D].
    hstep. erewrite hbind_ok; [|apply load_ok; cbn [cells]; rewrite lookup_insert_ne by done; exact Hy].
    cbn [prev]. hstep. rewrite insert_insert_eq.
    erewrite hbind_ok; [|apply set_prev_ok; cbn [cells]; rewrite lookup_insert_ne by done; exact Hy].
    cbn [cells budget next data hret]. eexists. split; [reflexivity|]. split.
    + split; [done|]. split; [done|]. by apply dll_prepend.
    + intros z Hz. rewrite !lookup_insert_ne; [done|set_solver|set_solver].
Qed.

(** Insertion between two neighbours, as [nlist_insert(&spot, entry)] and the
    two assignments behind it do it. *)
Lemma insert_between h l1 y b x e l2 :
  NoDup (l1 ++ (y, b) :: l2).*1 -> x ∉ (l1 ++ (y, b) :: l2).*1 ->
  dseg h None (l1 ++ (y, b) :: l2) None ->
  forall h' : gmap loc (node nl_entry), (forall z, z <> x -> z <> y -> Some z <> hd_loc l2 None -> h' !! z = h !! z) ->
  h' !! x = Some (Node (hd_loc l2 None) (Some y) e) ->
  h' !! y = Some (Node (Some x) (last_loc None l1) b) ->
  match l2 with
  | [] => True
  | (z, c) :: l3 => h' !! z = Some (Node (hd_loc l3 None) (Some x) c)
  end ->
  dseg h' None (l1 ++ (y, b) :: (x, e) :: l2) None.
Proof.
  intros Hn Hx D h' Hsame Hx' Hy' Hz'. rewrite fmap_app, fmap_cons in Hn, Hx.
  apply NoDup_app in Hn as (N1 & N2 & [N3 N4]%NoDup_cons).
  apply dseg_app in D as [D1 [D2 D3]]. apply dseg_app. cbn [hd_loc]. split.
  - eapply (dseg_same (x :: y :: l2.*1)); [| |exact D1].
    + intros z Hz. apply Hsame; [set_solver|set_solver|].
      intros E. symmetry in E. destruct (hd_loc_in _ _ _ E); [done|set_solver].
    + intros z Hz Hin. cbn in *. set_solver.
  - split; [done|]. split; [done|].
    destruct l2 as [|[z c] l3]; [done|]. destruct D3 as [D3 D4]. split; [done|].
    rewrite fmap_cons in *. apply NoDup_cons in N4 as [N4 _].
    eapply (dseg_same [x; y; z]); [| |exact D4].
    + intros w Hw. apply Hsame; [set_solver|set_solver|]. cbn. set_solver.
    + intros w Hw Hin. cbn in *. set_solver.
Qed.

(** Both relinkings at the end of [nlist_insert_timer], behind the node [y]: when
    the search ran off the end, and before a node [z]. *)
Section relink_timer.
  Context (s : hstate nl_entry) (head : ptr) (l1 : list (loc * nl_entry)) (y x : loc) (b e : nl_entry).
  Hypothesis Hx : unlinked (cells s) x e.
  #[local] Set Default Proof Using "All".

Definition relink (spot : ptr) : M ptr :=
  let* spot := nlist_insert spot (Some x) in
  (if decide (spot = Some x) then set_next (Some y) (Some x) ;* set_prev (Some x) (Some y) else hret tt) ;*
  hret head.

Lemma timer_insert_end :
  NoDup (l1 ++ [(y, b)]).*1 -> x ∉ (l1 ++ [(y, b)]).*1 -> dseg (cells s) None (l1 ++ [(y, b)]) None ->
  exists h', relink None s = Some (head, HState h' (budget s)) /\
    dseg h' None (l1 ++ [(y, b); (x, e)]) None /\ same_outside (x :: (l1 ++ [(y, b)]).*1) (cells s) h'.
Proof.
  intros Hn Hxl D. pose proof D as D'. apply dseg_app in D' as [_ [Hy _]].
  assert (y <> x) by (rewrite fmap_app in Hxl; set_solver). unfold unlinked in Hx.
  unfold relink. cbn [nlist_insert]. hstep. rewrite decide_True by done. unfold hbind at 1.
  erewrite hbind_ok by (apply set_next_ok; exact Hy). cbn [cells budget prev data].
  erewrite set_prev_ok; [|cbn [cells]; rewrite lookup_insert_ne by done; exact Hx].
  cbn [cells budget next data hret]. eexists. split; [reflexivity|]. split.
  - eapply (insert_between _ l1 y b x e []); [done|done|exact D| | | |done].
    + intros w Hw1 Hw2 _. by rewrite !lookup_insert_ne by congruence.
    + by rewrite lookup_insert_eq.
    + rewrite lookup_insert_ne, lookup_insert_eq by done. done.
  - intros w Hw. rewrite fmap_app in Hw. cbn in Hw. rewrite !lookup_insert_ne; [done|set_solver|set_solver].
Qed.

Lemma timer_insert_middle z c l2 :
  NoDup (l1 ++ (y, b) :: (z, c) :: l2).*1 -> x ∉ (l1 ++ (y, b) :: (z, c) :: l2).*1 ->
  dseg (cells s) None (l1 ++ (y, b) :: (z, c) :: l2) None ->
  exists h', relink (Some z) s = Some (head, HState h' (budget s)) /\
    dseg h' None (l1 ++ (y, b) :: (x, e) :: (z, c) :: l2) None /\
    same_outside (x :: (l1 ++ (y, b) :: (z, c) :: l2).*1) (cells s) h'.
Proof.
  intros Hn Hxl D. pose proof D as D'. apply dseg_app in D' as [_ [Hy [Hz _]]]. unfold unlinked in Hx.
  assert (y <> x /\ z <> x /\ z <> y) as (Hyx & Hzx & Hzy).
  { rewrite fmap_app, !fmap_cons in Hxl, Hn. cbn in *.
    apply NoDup_app in Hn as (_ & _ & [N3 _]%NoDup_cons). set_solver. }
  unfold relink. cbn [nlist_insert]. unfold hbind at 1. hstep.
  erewrite hbind_ok; [|apply load_ok; cbn [cells]; rewrite lookup_insert_ne by done; exact Hz].
  cbn [prev]. hstep. rewrite insert_insert_eq.
  erewrite hbind_ok; [|apply set_prev_ok; cbn [cells]; rewrite lookup_insert_ne by done; exact Hz].
  cbn [cells budget next data hret]. rewrite decide_True by done. unfold hbind at 1.
  erewrite hbind_ok; [|apply set_next_ok; cbn [cells]; rewrite !lookup_insert_ne by done; exact Hy].
  cbn [cells budget prev data].
  erewrite set_prev_ok; [|cbn [cells]; rewrite !lookup_insert_ne by done; apply lookup_insert_eq].
  cbn [cells budget next data hret]. eexists. split; [reflexivity|]. split.
  - eapply (insert_between _ l1 y b x e ((z, c) :: l2)); [done|done|exact D| | | |].
    + intros w Hw1 Hw2 Hw3. cbn in Hw3. by rewrite !lookup_insert_ne by congruence.
    + by rewrite lookup_insert_eq.
    + rewrite lookup_insert_ne, lookup_insert_eq by done. done.
    + rewrite lookup_insert_ne, lookup_insert_ne, lookup_insert_eq by done. done.
  - intros w Hw. rewrite fmap_app, !fmap_cons in Hw. cbn in Hw.
    rewrite !lookup_insert_ne; [done|set_solver..].
Qed.

End relink_timer.

(** A later part of a list does not start where the list does. *)
Lemma hd_loc_later (l1 l2 : list (loc * nl_entry)) y b :
  NoDup (l1 ++ (y, b) :: l2).*1 -> hd_loc l2 None <> hd_loc (l1 ++ (y, b) :: l2) None.
Proof.
  intros (N1 & N2 & N3 & _)%NoDup_around E. rewrite hd_loc_app in E. cbn [hd_loc] in E.
  destruct l1 as [|[w c] l1]; cbn [hd_loc] in E; destruct (hd_loc_in _ _ _ E) as [?|Hin]; try done.
  apply (N3 w); [rewrite fmap_cons; set_solver|done].
Qed.

Lemma nlist_insert_timer_spec s head l x e :
  nlist (cells s) head l -> unlinked (cells s) x e -> x ∉ l.*1 ->
  exists head' h', nlist_insert_timer head (Some x) s = Some (head', HState h' (budget s)) /\
    nlist h' head' (timer_insert (x, e) l) /\ same_outside (x :: l.*1) (cells s) h'.
Proof.
  intros Hl Hx Hxl. pose proof (nlist_fuel _ _ _ Hl) as Hf.
  destruct (timer_split (x, e) l) as (l1 & l2 & -> & E & H1 & H2). rewrite E.
  unfold nlist_insert_timer. pose proof Hx as Hx'. unfold unlinked in Hx'.
  erewrite hbind_ok by (by apply load_ok). cbn [data]. unfold with_fuel.
  destruct Hl as (Hh & Hn & D). rewrite Hh.
  erewrite hbind_ok by (by apply find_spot_spec).
  destruct l1 as [|[y b] l1 _] using rev_ind.
  { cbn [app]. rewrite decide_True by done.
    destruct (nlist_insert_spec s (hd_loc l2 None) l2 x e) as (h' & E1 & R1 & S1);
      [by repeat split|done|done|]. eauto. }
  rewrite last_loc_snoc, <- !app_assoc in *. cbn [app] in *.
  rewrite decide_False by (by apply hd_loc_later).
  assert (NoDup (l1 ++ (y, b) :: (x, e) :: l2).*1) as Hn'.
  { eapply (NoDup_Permutation_proper (x :: (l1 ++ (y, b) :: l2).*1)); [|by apply NoDup_cons].
    rewrite !fmap_app, !fmap_cons. cbn. solve_Permutation. }
  assert (Hhd : hd_loc (l1 ++ (y, b) :: l2) None = hd_loc (l1 ++ (y, b) :: (x, e) :: l2) None)
    by (by rewrite !hd_loc_app).
  fold (relink (hd_loc (l1 ++ (y, b) :: l2) None) y x (hd_loc l2 None)).
  destruct l2 as [|[z c] l2]; cbn [hd_loc].
  - destruct (timer_insert_end s (hd_loc (l1 ++ [(y, b)]) None) l1 y x b e Hx Hn Hxl D) as (h' & -> & D' & S').
    eexists _, h'. by split_and!.
  - destruct (timer_insert_middle s (hd_loc (l1 ++ (y, b) :: (z, c) :: l2) None) l1 y x b e Hx z c l2 Hn Hxl D)
      as (h' & -> & D' & S').
    eexists _, h'. by split_and!.
Qed.

(** The two guarded assignments of [nlist_remove], in its order. *)
Lemma remove_run s head l1 x e l2 (k : ptr -> M ptr) :
  nlist (cells s) head (l1 ++ (x, e) :: l2) ->
  hbind (match hd_loc l2 None with Some _ => set_prev (hd_loc l2 None) (last_loc None l1) | None => hret tt end)
    (fun _ => hbind (match last_loc None l1 with
                     | Some _ => set_next (last_loc None l1) (hd_loc l2 None) ;* hret head
                     | None => hret (hd_loc l2 None) end) k) s
  = k (hd_loc (l1 ++ l2) None) (HState (unlink_cells (cells s) (last_loc None l1) (hd_loc l2 None)) (budget s)).
Proof.
  intros (Hh & (_ & _ & X3 & _)%NoDup_around & D). apply dseg_app in D as [D1 [Hx D2]].
  unfold unlink_cells. rewrite hd_loc_app.
  destruct l1 as [|[y b] l1 _] using rev_ind.
  - cbn [last_loc]. destruct l2 as [|[z c] l2]; cbn [hd_loc]; [by destruct s|].
    destruct D2 as [Hz _]. erewrite hbind_ok by (by apply set_prev_ok). rewrite Hz. done.
  - rewrite last_loc_snoc. apply dseg_app in D1 as [_ [Hy _]]. rewrite Hy.
    assert (Hhd : forall n, hd_loc (l1 ++ [(y, b)]) n = head).
    { intros n. rewrite Hh, <- app_assoc, !hd_loc_app. by destruct l1 as [|[]]. }
    rewrite Hhd. destruct l2 as [|[z c] l2]; cbn [hd_loc].
    + erewrite (hbind_ok (hret tt)) by reflexivity. unfold hbind at 1.
      erewrite hbind_ok by (by apply set_next_ok). done.
    + destruct D2 as [Hz _]. assert (y <> z).
      { intros ->. apply (X3 z); [rewrite fmap_app|]; set_solver. }
      erewrite hbind_ok by (by apply set_prev_ok). cbn [cells budget next data]. unfold hbind at 1.
      erewrite hbind_ok; [|apply set_next_ok; cbn [cells]; rewrite lookup_insert_ne by done; exact Hy].
      cbn [cells budget prev data hret]. rewrite lookup_insert_ne by done. rewrite Hz.
      cbn [next data]. by rewrite insert_insert_ne by done.
Qed.

Lemma nlist_remove_spec s head l1 x e l2 :
  nlist (cells s) head (l1 ++ (x, e) :: l2) ->
  exists head' h', nlist_remove head (Some x) s = Some (head', HState h' (budget s)) /\
    nlist h' head' (l1 ++ l2) /\ unlinked h' x e /\
    same_outside (l1 ++ (x, e) :: l2).*1 (cells s) h'.
Proof.
  intros Hl. pose proof Hl as (Hh & Hn & D). pose proof D as D'. apply dseg_app in D' as [_ [Hx _]].
  unfold nlist_remove. erewrite hbind_ok by (by apply load_ok). cbn [next prev].
  destruct (NoDup_around l1 l2 x e Hn) as (X1 & X2 & _ & Hn2).
  pose proof (dseg_unlink (cells s) None l1 x e l2 None Hn eq_refl eq_refl D) as HU.
  rewrite (remove_run s head l1 x e l2) by done.
  set (U := unlink_cells (cells s) (last_loc None l1) (hd_loc l2 None)) in *.
  assert (HxU : U !! x = cells s !! x) by (by apply unlink_outside).
  erewrite hbind_ok; [|apply set_next_ok; cbn [cells]; rewrite HxU; exact Hx].
  cbn [cells budget prev data].
  erewrite hbind_ok; [|apply set_prev_ok; cbn [cells]; apply lookup_insert_eq].
  cbn [cells budget next data hret]. rewrite insert_insert_eq.
  eexists _, _. split; [reflexivity|]. split; [|split].
  - split; [done|]. split; [done|]. apply dseg_insert; [rewrite fmap_app; set_solver|done].
  - apply lookup_insert_eq.
  - intros z Hz. rewrite fmap_app, fmap_cons in Hz. cbn in Hz.
    rewrite lookup_insert_ne by set_solver. apply unlink_outside; set_solver.
Qed.

(** ** The broken teardown *)

(** Freeing the front entry of a list of two or more, then [*head], frees the
    second entry, and the loop then reads it. *)
Lemma nlist_kill_step fuel s head x e y f l :
  nlist (cells s) head ((x, e) :: (y, f) :: l) ->
  nlist_kill_loop (S (S fuel)) head s = None.
Proof.
  intros Hl. pose proof Hl as (Hh & Hn & [Hx [Hy D]]). cbn [hd_loc] in *. subst head.
  cbn [nlist_kill_loop]. erewrite hbind_ok by (by apply load_ok). cbn [next].
  destruct (nlist_remove_spec s (Some x) [] x e ((y, f) :: l) Hl)
    as (head' & h' & E & (Hh' & Hn' & [Hy' D']) & Hu & _).
  cbn [hd_loc app] in Hh'. subst head'.
  unfold nlist_free, hbind at 1. erewrite hbind_ok by exact E.
  erewrite hbind_ok by (by apply load_ok). cbn [hret].
  erewrite hbind_ok by (eapply hfree_ok; exact Hy'). cbn [cells budget].
  unfold hbind at 1, load. cbn [cells]. by rewrite lookup_delete_eq.
Qed.

(** ** Properties *)

(** Timer insertion is correct on the shared store: inserting an unlinked
    entry into a list that is in due order yields a well-formed doubly linked
    list with the same entries and the new one, still in due order and behind
    the entries due at the same time; no invalid pointer is followed and no
    other node changes. *)
Theorem nlist_insert_timer_correct (s : hstate nl_entry) (head : ptr)
    (l : list (loc * nl_entry)) (x : loc) (e : nl_entry) :
  nlist (cells s) head l -> unlinked (cells s) x e -> x ∉ l.*1 -> by_time l ->
  exists head' h' l', nlist_insert_timer head (Some x) s = Some (head', HState h' (budget s)) /\
    nlist h' head' l' /\ l' ≡ₚ (x, e) :: l /\ by_time l' /\
    (exists l1 l2, l = l1 ++ l2 /\ l' = l1 ++ (x, e) :: l2 /\
       Forall (fun y => nl_when y.2 <= nl_when e) l1) /\
    same_outside (x :: l.*1) (cells s) h'.
Proof.
  intros Hl Hx Hxl Hs. destruct (nlist_insert_timer_spec s head l x e Hl Hx Hxl)
    as (head' & h' & E & R & S).
  exists head', h', (timer_insert (x, e) l). split; [done|]. split; [done|].
  split; [apply timer_insert_perm|]. split; [by apply timer_insert_by_time|]. split; [|done].
  destruct (timer_split (x, e) l) as (l1 & l2 & E1 & E2 & H1 & _). eauto.
Qed.

(** An entry that only has a host name and a due time. *)
Definition due (name : cstr) (t : Z) : nl_entry :=
  NL name ($"me") 0 0 0 (replicate SM_PRIV_SIZE NUL) 0 MAX_TRIES 0 None 0 t.

Definition two_due : gmap loc (node nl_entry) :=
  {[ 1%positive := Node (Some 2%positive) None (due ($"a") 10);
     2%positive := Node None (Some 1%positive) (due ($"b") 20);
     3%positive := Node None None (due ($"c") 10) ]}.

Lemma two_due_nlist :
  nlist two_due (Some 1%positive) [(1%positive, due ($"a") 10); (2%positive, due ($"b") 20)].
Proof.
  repeat split; try reflexivity. apply NoDup_cons. split; [set_solver|apply NoDup_singleton].
Qed.

Lemma nlist_insert_timer_correct_witness :
  exists head' h' l',
    nlist_insert_timer (Some 1%positive) (Some 3%positive) (HState two_due 0)
      = Some (head', HState h' 0) /\
    nlist h' head' l' /\
    l' ≡ₚ (3%positive, due ($"c") 10) :: [(1%positive, due ($"a") 10); (2%positive, due ($"b") 20)] /\
    by_time l'.
Proof.
  destruct (nlist_insert_timer_correct (HState two_due 0) (Some 1%positive)
    [(1%positive, due ($"a") 10); (2%positive, due ($"b") 20)] 3%positive (due ($"c") 10))
    as (head' & h' & l' & H1 & H2 & H3 & H4 & _).
  - exact two_due_nlist.
  - reflexivity.
  - set_solver.
  - repeat constructor; cbn; lia.
  - exists head', h', l'. auto.
Defined.

(** Removing an entry relinks its neighbours, leaves the other entries in
    order, and clears the links of the removed entry, so that re-inserting it
    with a new time (what statd does after each transmission) is the timer
    insertion into the remaining list. *)
Theorem nlist_remove_reinsert (s : hstate nl_entry) (head : ptr)
    (l1 l2 : list (loc * nl_entry)) (x : loc) (e : nl_entry) :
  nlist (cells s) head (l1 ++ (x, e) :: l2) -> by_time (l1 ++ l2) ->
  exists head1 h1, nlist_remove head (Some x) s = Some (head1, HState h1 (budget s)) /\
    nlist h1 head1 (l1 ++ l2) /\ unlinked h1 x e /\
    exists head2 h2 l', nlist_insert_timer head1 (Some x) (HState h1 (budget s))
        = Some (head2, HState h2 (budget s)) /\
      nlist h2 head2 l' /\ l' ≡ₚ (x, e) :: l1 ++ l2 /\ by_time l'.
Proof.
  intros Hl Hs. destruct (nlist_remove_spec s head l1 x e l2 Hl) as (head1 & h1 & E1 & R1 & U1 & _).
  exists head1, h1. split; [done|]. split; [done|]. split; [done|].
  assert (x ∉ (l1 ++ l2).*1) as Hx.
  { destruct Hl as (_ & Hn & _). rewrite fmap_app, fmap_cons in Hn. rewrite fmap_app.
    apply NoDup_app in Hn as (N1 & N2 & [N3 N4]%NoDup_cons). cbn in *. set_solver. }
  destruct (nlist_insert_timer_spec (HState h1 (budget s)) head1 (l1 ++ l2) x e R1 U1 Hx)
    as (head2 & h2 & E2 & R2 & _).
  exists head2, h2, (timer_insert (x, e) (l1 ++ l2)).
  split; [done|]. split; [done|]. split; [apply timer_insert_perm|by apply timer_insert_by_time].
Qed.

Lemma nlist_remove_reinsert_witness :
  exists head1 h1, nlist_remove (Some 1%positive) (Some 1%positive) (HState two_due 0)
      = Some (head1, HState h1 0) /\
    nlist h1 head1 [(2%positive, due ($"b") 20)] /\ unlinked h1 1%positive (due ($"a") 10).
Proof.
  destruct (nlist_remove_reinsert (HState two_due 0) (Some 1%positive) []
    [(2%positive, due ($"b") 20)] 1%positive (due ($"a") 10)) as (head1 & h1 & H1 & H2 & H3 & _).
  - exact two_due_nlist.
  - repeat constructor.
  - exists head1, h1. auto.
Defined.

(** [nlist_kill] does not tear down a list: on every well-formed list of
    two or more entries it follows a pointer to memory that it has just freed
    (it frees the successor of the entry it unlinked), and on a list of one
    entry it leaves that entry allocated. *)
Theorem nlist_kill_use_after_free (s : hstate nl_entry) (head : ptr)
    (x : loc) (e : nl_entry) (l : list (loc * nl_entry)) :
  nlist (cells s) head ((x, e) :: l) ->
  match l with
  | [] => exists h', nlist_kill head s = Some (None, HState h' (budget s)) /\ h' !! x <> None
  | _ :: _ => nlist_kill head s = None
  end.
Proof.
  intros Hl. unfold nlist_kill, with_fuel.
  pose proof (nlist_fuel _ _ _ Hl) as Hf. destruct l as [|[y f] l].
  - pose proof Hl as (Hh & Hn & [Hx _]). cbn [hd_loc] in Hh. subst head.
    cbn [nlist_kill_loop]. erewrite hbind_ok by (by apply load_ok). cbn [next].
    destruct (nlist_remove_spec s (Some x) [] x e [] Hl) as (head' & h' & E & (Hh' & _) & Hu & _).
    cbn in Hh'. subst head'. unfold nlist_free, hbind at 1. erewrite hbind_ok by exact E.
    erewrite hbind_ok by (by apply load_ok). cbn [hret]. hstep.
    exists h'. unfold unlinked in Hu. rewrite Hu.
    destruct (size (cells s)); by split.
  - destruct (size (cells s)) as [|n]; [simpl in Hf; lia|]. by eapply nlist_kill_step.
Qed.

Lemma nlist_kill_use_after_free_witness :
  nlist_kill (Some 1%positive) (HState two_due 0) = None.
Proof.
  apply (nlist_kill_use_after_free (HState two_due 0) (Some 1%positive) 1%positive (due ($"a") 10)
    [(2%positive, due ($"b") 20)]). exact two_due_nlist.
Defined.
