(* ===== verification/Wildmat.v ===== *)
(** * Wildcard matching (support/nfs/wildmat.c)

    [DoMatch] matches a host name against a pattern with [?], [*], backslash
    escapes and character classes, ignoring case.  It returns TRUE, FALSE or
    ABORT; ABORT cuts the search of the enclosing star loops.  A malformed
    class can carry the pattern pointer past the terminator, which is a fourth
    outcome here ([MOverrun]).  The second half gives the meaning of a pattern
    ([glob], an inductive relation on parsed patterns) and shows that the
    optimised search decides it. *)

From S2P Require Import Prelude.

Inductive match_res := MTrue | MFalse | MAbort | MOverrun.

#[export] Instance match_res_eq_dec : EqDecision match_res.
Proof. solve_decision. Defined.

(** [toupper(a) == toupper(b)]. *)
Definition same_letter (a b : ascii) : bool := ceqb (toupper a) (toupper b).

(** ** Character classes *)

(** The scan loop of a class, from the pointer [p] whose next character is
    examined, with the last character seen: whether the text character matched
    and what follows the closing bracket.  [None] for the latter: the pattern
    ended first; the pointer is then at the terminator, or one past it when the
    terminator was taken as the end of a range. *)
Inductive class_end := AtBracket (rest : cstr) | AtNul | PastNul.

Fixpoint class_scan (t last : ascii) (p : cstr) (matched : bool) : bool * class_end :=
  match p with
  | [] => (matched, AtNul)
  | c :: p' =>
      if ceqb c "]" then (matched, AtBracket p')
      else if ceqb c "-" && negb (ceqb (deref p') "]") then
        match p' with
        | [] =>
            (* the range ends at the terminator; the loop then reads past it *)
            (matched || ((schar t <=? schar NUL) && (schar last <=? schar t)), PastNul)
        | d :: p'' =>
            class_scan t d p'' (matched || ((schar t <=? schar d) && (schar last <=? schar t)))
        end
      else class_scan t c p' (matched || same_letter t c)
  end.

(** A class from the character after the opening bracket. *)
Definition do_class (t : ascii) (p : cstr) : bool * bool * class_end :=
  let reverse := ceqb (deref p) "^" in
  let '(prev, p) := match p with
                    | c :: p' => if reverse then (c, p') else ("["%char, p)
                    | [] => ("["%char, p)
                    end in
  let '(matched, last, p) :=
    match p with
    | c :: p' => if ceqb c "]" || ceqb c "-" then (same_letter c t, c, p') else (false, prev, p)
    | [] => (false, prev, p)
    end in
  let '(matched, e) := class_scan t last p matched in
  (reverse, matched, e).

(** ** The matcher *)

(** Past the stars that follow one: consecutive stars act like one. *)
Definition skip_stars (p : cstr) : cstr := skip_while (fun c => ceqb c "*") p.

(** The star loop: [DoMatch(text++, p)] on every non-empty suffix of the text
    until a call does not return FALSE. *)
Fixpoint star_loop (rec : cstr -> match_res) (text : cstr) : match_res :=
  match text with
  | [] => MAbort
  | _ :: text' => match rec text with MFalse => star_loop rec text' | r => r end
  end.

Fixpoint DoMatch_fuel (fuel : nat) (text p : cstr) : match_res :=
  match fuel with
  | O => MOverrun
  | S fuel =>
      match p with
      | [] => match text with [] => MTrue | _ :: _ => MFalse end
      | c :: p' =>
          if ceqb c "*" then
            match skip_stars p' with
            | [] => MTrue
            | q => star_loop (fun t => DoMatch_fuel fuel t q) text
            end
          else
            match text with
            | [] => MAbort
            | t :: text' =>
                if ceqb c BSLASH then
                  match p' with
                  | [] => MFalse          (* compares with the terminator *)
                  | d :: p'' => if same_letter t d then DoMatch_fuel fuel text' p'' else MFalse
                  end
                else if ceqb c "?" then DoMatch_fuel fuel text' p'
                else if ceqb c "[" then
                  let '(reverse, matched, e) := do_class t p' in
                  match e with
                  | PastNul => MOverrun
                  | AtNul => if Bool.eqb matched reverse then MFalse else MOverrun
                  | AtBracket rest =>
                      if Bool.eqb matched reverse then MFalse else DoMatch_fuel fuel text' rest
                  end
                else if same_letter t c then DoMatch_fuel fuel text' p' else MFalse
            end
      end
  end.

(** Each step consumes a character of the pattern, so this fuel is enough. *)
Definition DoMatch (text p : cstr) : match_res := DoMatch_fuel (S (length p)) text p.

(** [None] when the pattern is read past its end. *)
Definition wildmat (text p : cstr) : option bool :=
  if ceqb (deref p) "*" && match drop 1 p with [] => true | _ => false end then Some true
  else match DoMatch text p with
       | MTrue => Some true
       | MFalse | MAbort => Some false
       | MOverrun => None
       end.

(** ** The meaning of patterns *)

(** What one position of a class accepts. *)
Inductive class_elem := CChar (c : ascii) | CRange (lo hi : ascii).
Inductive item := ILit (c : ascii) | IAny | IStar | IClass (neg : bool) (es : list class_elem).

Definition elem_accepts (t : ascii) (e : class_elem) : bool :=
  match e with
  | CChar c => same_letter t c
  | CRange lo hi => (schar t <=? schar hi) && (schar lo <=? schar t)
  end.

Definition item_accepts (t : ascii) (i : item) : bool :=
  match i with
  | ILit c => same_letter t c
  | IAny => true
  | IStar => false
  | IClass neg es => negb (Bool.eqb (existsb (elem_accepts t) es) neg)
  end.

(** The strings a pattern stands for. *)
Inductive glob : list item -> cstr -> Prop :=
| glob_nil : glob [] []
| glob_char i its t ts : i <> IStar -> item_accepts t i = true -> glob its ts -> glob (i :: its) (t :: ts)
| glob_star_none its ts : glob its ts -> glob (IStar :: its) ts
| glob_star_more its t ts : glob (IStar :: its) ts -> glob (IStar :: its) (t :: ts).

(** The parts of a class up to its closing bracket. *)
Fixpoint parse_elems (last : ascii) (p : cstr) : option (list class_elem * cstr) :=
  match p with
  | [] => None
  | c :: p' =>
      if ceqb c "]" then Some ([], p')
      else if ceqb c "-" && negb (ceqb (deref p') "]") then
        match p' with
        | [] => None
        | d :: p'' => match parse_elems d p'' with
                      | Some (es, r) => Some (CRange last d :: es, r)
                      | None => None
                      end
        end
      else match parse_elems c p' with
           | Some (es, r) => Some (CChar c :: es, r)
           | None => None
           end
  end.

Definition parse_class (p : cstr) : option (bool * list class_elem * cstr) :=
  let neg := ceqb (deref p) "^" in
  let '(prev, p) := match p with
                    | c :: p' => if neg then (c, p') else ("["%char, p)
                    | [] => ("["%char, p)
                    end in
  match p with
  | c :: p' =>
      if ceqb c "]" || ceqb c "-" then
        match parse_elems c p' with
        | Some (es, r) => Some (neg, CChar c :: es, r)
        | None => None
        end
      else match parse_elems prev p with
           | Some (es, r) => Some (neg, es, r)
           | None => None
           end
  | [] => None
  end.

(** A pattern as items; [None] when a class is not closed or the pattern ends
    in a backslash. *)
Fixpoint parse_fuel (fuel : nat) (p : cstr) : option (list item) :=
  match fuel with
  | O => None
  | S fuel =>
      match p with
      | [] => Some []
      | c :: p' =>
          if ceqb c "*" then cons IStar <$> parse_fuel fuel p'
          else if ceqb c BSLASH then
            match p' with
            | [] => None
            | d :: p'' => cons (ILit d) <$> parse_fuel fuel p''
            end
          else if ceqb c "?" then cons IAny <$> parse_fuel fuel p'
          else if ceqb c "[" then
            match parse_class p' with
            | Some (neg, es, r) => cons (IClass neg es) <$> parse_fuel fuel r
            | None => None
            end
          else cons (ILit c) <$> parse_fuel fuel p'
      end
  end.

Definition parse_pattern (p : cstr) : option (list item) := parse_fuel (S (length p)) p.

(** ** Class scanning computes class parsing *)

Lemma same_letter_sym a b : same_letter a b = same_letter b a.
Proof. apply ceqb_sym. Qed.

Lemma class_scan_elems t last p matched es r :
  parse_elems last p = Some (es, r) ->
  class_scan t last p matched = (matched || existsb (elem_accepts t) es, AtBracket r).
Proof.
  remember (length p) as n eqn:Hn. assert (length p <= n)%nat as Hle by lia. clear Hn.
  revert last p matched es Hle. induction n as [|n IH]; intros last p matched es Hle H.
  { destruct p; [done|simpl in Hle; lia]. }
  destruct p as [|c p]; [done|]. cbn [parse_elems class_scan] in *. simpl in Hle.
  destruct (ceqb c "]"). { simplify_eq. by rewrite orb_false_r. }
  destruct (ceqb c "-" && negb (ceqb (deref p) "]")).
  - destruct p as [|d p]; [done|]. simpl in Hle.
    destruct (parse_elems d p) as [[es' r']|] eqn:E; [|done]. simplify_eq.
    rewrite (IH d p _ es') by (done || lia). cbn [existsb elem_accepts]. by rewrite orb_assoc.
  - destruct (parse_elems c p) as [[es' r']|] eqn:E; [|done]. simplify_eq.
    rewrite (IH c p _ es') by (done || lia). cbn [existsb elem_accepts]. by rewrite orb_assoc.
Qed.

Lemma parse_elems_length last p es r :
  parse_elems last p = Some (es, r) -> (length r < length p)%nat.
Proof.
  remember (length p) as n eqn:Hn. assert (length p <= n)%nat as Hle by lia.
  revert last p es Hn Hle. induction n as [n IH] using lt_wf_ind; intros last p es Hn Hle H.
  destruct p as [|c p]; [done|]. cbn [parse_elems] in H. simpl in Hn, Hle.
  destruct (ceqb c "]"); [simplify_eq; lia|].
  destruct (ceqb c "-" && negb (ceqb (deref p) "]")).
  - destruct p as [|d p]; [done|]. simpl in Hn, Hle.
    destruct (parse_elems d p) as [[es' r']|] eqn:E; [|done]. simplify_eq.
    specialize (IH (length p) ltac:(lia) d p es' eq_refl ltac:(lia) E). simpl. lia.
  - destruct (parse_elems c p) as [[es' r']|] eqn:E; [|done]. simplify_eq.
    specialize (IH (length p) ltac:(lia) c p es' eq_refl ltac:(lia) E). simpl. lia.
Qed.

Lemma do_class_parse t p neg es r :
  parse_class p = Some (neg, es, r) ->
  do_class t p = (neg, existsb (elem_accepts t) es, AtBracket r) /\ (length r <= length p)%nat.
Proof.
  unfold parse_class, do_class. intros H.
  destruct p as [|c p]; [done|]. cbn [deref] in *.
  destruct (ceqb c "^") eqn:Ec.
  - destruct p as [|d p]; [done|].
    destruct (ceqb d "]" || ceqb d "-").
    + destruct (parse_elems d p) as [[es' r']|] eqn:E; [|done]. simplify_eq.
      rewrite (class_scan_elems _ _ _ _ _ _ E). cbn [existsb elem_accepts].
      rewrite (same_letter_sym d t). split; [done|].
      apply parse_elems_length in E. simpl. lia.
    + destruct (parse_elems c (d :: p)) as [[es' r']|] eqn:E; [|done]. simplify_eq.
      rewrite (class_scan_elems _ _ _ _ _ _ E). split; [done|].
      apply parse_elems_length in E. simpl in *. lia.
  - destruct (ceqb c "]" || ceqb c "-").
    + destruct (parse_elems c p) as [[es' r']|] eqn:E; [|done]. simplify_eq.
      rewrite (class_scan_elems _ _ _ _ _ _ E). cbn [existsb elem_accepts].
      rewrite (same_letter_sym c t). split; [done|].
      apply parse_elems_length in E. simpl. lia.
    + destruct (parse_elems "[" (c :: p)) as [[es' r']|] eqn:E; [|done]. simplify_eq.
      rewrite (class_scan_elems _ _ _ _ _ _ E). split; [done|].
      apply parse_elems_length in E. simpl in *. lia.
Qed.

(** ** The matcher decides [glob] *)

Lemma glob_nonstar i its ts :
  i <> IStar -> glob (i :: its) ts <-> exists t ts', ts = t :: ts' /\ item_accepts t i = true /\ glob its ts'.
Proof.
  intros Hi. split.
  - intros H. inversion H; subst; try done. eauto.
  - intros (t & ts' & -> & Ha & Hg). by constructor.
Qed.

Lemma glob_star its ts : glob (IStar :: its) ts <-> exists a b, ts = a ++ b /\ glob its b.
Proof.
  split.
  - remember (IStar :: its) as p eqn:Ep. intros H. revert Ep.
    induction H; intros Ep; simplify_eq; try done.
    + by exists [], ts.
    + destruct IHglob as (a & b & -> & Hb); [done|]. by exists (t :: a), b.
  - intros (a & b & -> & H). induction a; cbn; [by constructor|by constructor].
Qed.

Lemma glob_star_star its ts : glob (IStar :: IStar :: its) ts <-> glob (IStar :: its) ts.
Proof.
  split; [|by constructor].
  rewrite glob_star. intros (a & b & -> & (c & d & -> & H)%glob_star).
  apply glob_star. exists (a ++ c), d. by rewrite app_assoc.
Qed.

(** What a result says about a pattern and a text: TRUE decides the match, and
    ABORT rules out every suffix of the text as well. *)
Definition decides (r : match_res) (its : list item) (text : cstr) : Prop :=
  match r with
  | MTrue => glob its text
  | MFalse => ~ glob its text
  | MAbort => forall a b, text = a ++ b -> ~ glob its b
  | MOverrun => False
  end.

Lemma decides_char i its t ts r :
  i <> IStar -> item_accepts t i = true -> decides r its ts -> decides r (i :: its) (t :: ts).
Proof.
  intros Hi Ha. destruct r; cbn; [..|done].
  - by constructor.
  - intros H. rewrite glob_nonstar by done. naive_solver.
  - intros H a b E. rewrite glob_nonstar by done. intros (t' & ts' & -> & _ & Hg).
    destruct a as [|x a]; cbn in E; simplify_eq; [by apply (H [] ts')|].
    apply (H (a ++ [t']) ts'); [by rewrite <- app_assoc|done].
Qed.

Lemma decides_reject i its t ts :
  i <> IStar -> item_accepts t i = false -> decides MFalse (i :: its) (t :: ts).
Proof. intros Hi Ha. cbn. rewrite glob_nonstar by done. intros (? & ? & ? & ? & ?). simplify_eq. congruence. Qed.

Lemma decides_empty i its : i <> IStar -> decides MAbort (i :: its) [].
Proof.
  intros Hi a b E. symmetry in E. apply app_eq_nil in E as [-> ->].
  rewrite glob_nonstar by done. by intros (? & ? & ? & _).
Qed.

Lemma star_loop_decides rec its text :
  (forall t, decides (rec t) its t) -> ~ glob its [] ->
  decides (star_loop rec text) (IStar :: its) text.
Proof.
  intros Hrec Hnil. induction text as [|t text IH].
  - intros a b E. symmetry in E. apply app_eq_nil in E as [-> ->].
    rewrite glob_star. intros (a & b & E & H). symmetry in E. by apply app_eq_nil in E as [-> ->].
  - cbn [star_loop]. specialize (Hrec (t :: text)). destruct (rec (t :: text)); cbn in Hrec; try done.
    + by constructor.
    + destruct (star_loop rec text) eqn:E; cbn in IH |- *; try done.
      * by constructor.
      * rewrite glob_star. intros (a & b & Eab & Hb). destruct a as [|x a]; cbn in Eab; simplify_eq; [done|].
        apply IH, glob_star. eauto.
      * intros a b Eab. destruct a as [|x a]; cbn in Eab; simplify_eq; [|by apply (IH a b)].
        rewrite glob_star. intros (a & b' & Eab & Hb). destruct a as [|x a]; cbn in Eab; simplify_eq; [done|].
        apply (IH a b' eq_refl). by apply glob_star_none.
    + intros a b Eab. rewrite glob_star. intros (a' & b' & -> & Hb).
      apply (Hrec (a ++ a') b'); [|done]. by rewrite <- app_assoc.
Qed.

Lemma parse_mono f q js : parse_fuel f q = Some js -> parse_fuel (S f) q = Some js.
Proof.
  revert q js; induction f as [|f IHf]; intros q js H; [done|]. cbn [parse_fuel] in H.
  remember (S f) as g. cbn [parse_fuel]. destruct q as [|c q]; [done|].
  repeat case_match; try done;
    match goal with
    | H : _ <$> parse_fuel _ ?r = Some _ |- _ =>
        destruct (parse_fuel f r) eqn:E; [|done]; by erewrite IHf
    end.
Qed.

Lemma parse_skip_stars fuel p its :
  parse_fuel fuel p = Some its -> (length p < fuel)%nat ->
  exists its', parse_fuel fuel (skip_stars p) = Some its' /\
    (forall ts, glob (IStar :: its) ts <-> glob (IStar :: its') ts).
Proof.
  revert p its; induction fuel as [|fuel IH]; intros p its H Hf; [done|].
  destruct p as [|c p]; [by exists its|]. cbn [skip_stars skip_while].
  destruct (ceqb c "*") eqn:Ec; [|by exists its].
  cbn [parse_fuel] in H. rewrite Ec in H.
  destruct (parse_fuel fuel p) as [its1|] eqn:E; [|done]. cbn in H. simplify_eq.
  simpl in Hf. destruct (IH p its1 E ltac:(lia)) as (its' & E' & Hg).
  exists its'. split; [|intros ts; by rewrite glob_star_star].
  by apply parse_mono.
Qed.

(** What is left after the stars starts with an item that takes a character. *)
Lemma parse_nonstar fuel c q its :
  parse_fuel fuel (c :: q) = Some its -> ceqb c "*" = false -> ~ glob its [].
Proof.
  destruct fuel as [|fuel]; [done|]. cbn [parse_fuel]. intros H Hc. rewrite Hc in H.
  assert (exists i its', its = i :: its' /\ i <> IStar) as (i & its' & -> & Hi).
  { repeat case_match; try done;
      match goal with H : _ <$> parse_fuel _ ?r = Some _ |- _ =>
        destruct (parse_fuel fuel r); [|done]; cbn in H; simplify_eq; by eexists _, _ end. }
  rewrite glob_nonstar by done. by intros (? & ? & ? & _).
Qed.

Lemma skip_stars_head p : ceqb (deref (skip_stars p)) "*" = false.
Proof. induction p as [|c p IH]; [done|]. cbn. by destruct (ceqb c "*") eqn:E. Qed.

Lemma skip_stars_length p : (length (skip_stars p) <= length p)%nat.
Proof. unfold skip_stars. induction p as [|c p IH]; [done|]. cbn. destruct (ceqb c "*"); cbn; lia. Qed.

Lemma decides_equiv r its its' ts :
  (forall ts, glob its ts <-> glob its' ts) -> decides r its ts <-> decides r its' ts.
Proof. intros H. destruct r; cbn; try (by rewrite H); [|done]. split; intros Hd a b E; rewrite H || rewrite <- H; eauto. Qed.

Lemma glob_star_nil ts : glob [IStar] ts.
Proof. apply glob_star. exists ts, []. rewrite app_nil_r. split; [done|constructor]. Qed.

Lemma DoMatch_star fuel p its text :
  (forall q js ts, parse_fuel fuel q = Some js -> (length q < fuel)%nat ->
     decides (DoMatch_fuel fuel ts q) js ts) ->
  parse_fuel fuel p = Some its -> (length p < fuel)%nat ->
  decides (match skip_stars p with
           | [] => MTrue
           | q => star_loop (fun t => DoMatch_fuel fuel t q) text
           end) (IStar :: its) text.
Proof.
  intros IH Hp Hf. destruct (parse_skip_stars _ _ _ Hp Hf) as (its' & E & Hg).
  rewrite (decides_equiv _ _ _ _ Hg). pose proof (skip_stars_head p). pose proof (skip_stars_length p).
  destruct (skip_stars p) as [|c q] eqn:Eq.
  - destruct fuel; cbn in E; simplify_eq. apply glob_star_nil.
  - apply star_loop_decides.
    + intros t. apply IH; [done|]. lia.
    + eapply parse_nonstar; [exact E|done].
Qed.

Ltac parse_rest :=
  match goal with
  | H : _ <$> parse_fuel ?f ?r = Some _ |- _ =>
      destruct (parse_fuel f r) as [?its|] eqn:?E; [|done]; cbn in H; simplify_eq
  end.

Lemma DoMatch_decides fuel p its text :
  parse_fuel fuel p = Some its -> (length p < fuel)%nat -> decides (DoMatch_fuel fuel text p) its text.
Proof.
  revert p its text; induction fuel as [|fuel IH]; intros p its text H Hf; [done|].
  cbn [parse_fuel] in H. cbn [DoMatch_fuel]. destruct p as [|c p].
  { simplify_eq. destruct text; cbn; [constructor|]. by inversion 1. }
  simpl in Hf. destruct (ceqb c "*").
  { parse_rest. apply DoMatch_star; [|done|lia]. intros. by apply IH. }
  destruct (ceqb c BSLASH); [|destruct (ceqb c "?"); [|destruct (ceqb c "[")]].
  - destruct p as [|d p]; [done|]. parse_rest. simpl in Hf.
    destruct text as [|t text]; [by apply decides_empty|].
    destruct (same_letter t d) eqn:Em; [apply decides_char|apply decides_reject]; try done.
    apply IH; [done|lia].
  - parse_rest. destruct text as [|t text]; [by apply decides_empty|].
    apply decides_char; try done. apply IH; [done|lia].
  - destruct (parse_class p) as [[[neg es] r]|] eqn:Ec; [|done]. parse_rest.
    destruct text as [|t text]; [by apply decides_empty|].
    destruct (do_class_parse t _ _ _ _ Ec) as [-> Hlen].
    destruct (Bool.eqb (existsb (elem_accepts t) es) neg) eqn:Em.
    + apply decides_reject; [done|]. cbn. by rewrite Em.
    + apply decides_char; [done| |]; [cbn; by rewrite Em|]. apply IH; [done|lia].
  - parse_rest. destruct text as [|t text]; [by apply decides_empty|].
    destruct (same_letter t c) eqn:Em; [apply decides_char|apply decides_reject]; try done.
    apply IH; [done|lia].
Qed.

(** ** The properties *)

(** C31. For a well-formed pattern the optimised search of [wildmat], with its
    ABORT result and its shortcut for a lone star, returns TRUE exactly on the
    texts the pattern stands for, and never reads past the pattern. *)
Theorem wildmat_correct text p its :
  parse_pattern p = Some its ->
  exists b, wildmat text p = Some b /\ (b = true <-> glob its text).
Proof.
  intros H. pose proof (DoMatch_decides _ _ _ text H ltac:(lia)) as Hd.
  unfold wildmat. destruct (ceqb (deref p) "*" && _) eqn:Estar.
  - exists true. split; [done|]. split; [|done]. intros _. btrue.
    destruct p as [|c [|]]; try done. cbn in H0. subst. cbn in H. simplify_eq. apply glob_star_nil.
  - unfold DoMatch. destruct (DoMatch_fuel _ text p); cbn in Hd; try done.
    + by exists true.
    + by exists false.
    + exists false. split; [done|]. split; [done|]. intros. by destruct (Hd [] text).
Qed.

Lemma wildmat_correct_witness :
  parse_pattern $"*.x[a-c]?" = Some [IStar; ILit "."; ILit "x"; IClass false [CChar "a"; CRange "a" "c"]; IAny] /\
  exists b, wildmat $"h1.Xb7" $"*.x[a-c]?" = Some b /\
    (b = true <-> glob [IStar; ILit "."; ILit "x"; IClass false [CChar "a"; CRange "a" "c"]; IAny] $"h1.Xb7").
Proof. split; [reflexivity|]. apply wildmat_correct. reflexivity. Defined.

(** An unclosed class makes the matcher run past the pattern's terminator
    when the class accepts the text character: reading the pattern is only safe
    for well-formed patterns. *)
Theorem wildmat_unclosed_class text t c :
  same_letter t c = true -> ceqb c "]" = false -> ceqb c "-" = false -> ceqb c "^" = false ->
  wildmat (t :: text) ["["%char; c] = None.
Proof.
  intros Hm H1 H2 H3. unfold wildmat, DoMatch. cbn [length DoMatch_fuel]. cbn.
  unfold do_class. cbn [deref]. rewrite H3, H1, H2. cbn. by rewrite H1, H2, Hm.
Qed.

Lemma wildmat_unclosed_class_witness : wildmat $"a" $"[A" = None.
Proof. apply (wildmat_unclosed_class [] "a" "A"); reflexivity. Defined.
