(* ===== verification/ParseDev.v ===== *)
(** * Device names of the mount command (utils/mount/parse_dev.c)

    [nfs_parse_devname] splits [host:path] or [[addr]:path] on a writable copy
    of its argument: the parsers put NULs into the copy and read strings out of
    it through pointers.  The copy is the list of its bytes with the terminator
    ([buf]), a pointer is an index into it, and [str_at] is the C string found
    there.  [mem] counts the allocations that still succeed. *)

From S2P Require Import Prelude.

Definition NFS_MAXHOSTNAME : Z := 255.
Definition NFS_MAXPATHNAME : Z := 1024.

(** The error messages; the functions print one and return 0. *)
Inductive pdn_err :=
| no_devname_err | hostname_too_long_err | pathname_too_long_err
| bad_format_err | nomem_err | missing_brace_err | nfs_url_err.

(** What an output parameter holds afterwards. *)
Inductive outp := Untouched | Null | Points (s : cstr) | Dangling.

Record pdn_result := Pdn { result : option pdn_err; hostname : outp; pathname : outp }.

(** ** Strings inside the buffer *)

Definition not_nul (c : ascii) : bool := negb (ceqb c NUL).
Definition str_at (buf : list ascii) (p : nat) : cstr := (span not_nul (drop p buf)).1.
(** [strchr(buf + p, c)]. *)
Definition strchr_at (buf : list ascii) (p : nat) (c : ascii) : option nat :=
  match strchr c (str_at buf p) with
  | Some (a, _) => Some (p + length a)%nat
  | None => None
  end.

(** [strndup(buf + p, n)], and the allocations left. *)
Definition strndup_at (mem : nat) (buf : list ascii) (p n : nat) : option cstr * nat :=
  match mem with
  | O => (None, O)
  | S mem => (Some (take n (str_at buf p)), mem)
  end.

(** The end of both parsers: the copies handed to the caller. *)
Definition pdn_copy (mem : nat) (buf : list ascii) (want_host want_path : bool)
    (host host_len path path_len : nat) : pdn_result :=
  let path_copy mem oh :=
    if want_path then
      match strndup_at mem buf path path_len with
      | (Some s, _) => Pdn None oh (Points s)
      | (None, _) => Pdn (Some nomem_err) (if want_host then Dangling else oh) Null
      end
    else Pdn None oh Untouched in
  if want_host then
    match strndup_at mem buf host host_len with
    | (Some s, mem) => path_copy mem (Points s)
    | (None, _) => Pdn (Some nomem_err) Null Untouched
    end
  else path_copy mem Untouched.

Definition pdn_fail (e : pdn_err) : pdn_result := Pdn (Some e) Untouched Untouched.

(** ** The parsers *)

Definition nfs_parse_simple_hostname (mem : nat) (buf : list ascii)
    (want_host want_path : bool) : pdn_result :=
  let dev := O in
  match strchr_at buf dev ":" with
  | None => pdn_fail bad_format_err
  | Some colon =>
      let buf := <[colon := NUL]> buf in
      let host_len := (colon - dev)%nat in
      if Z.of_nat host_len >? NFS_MAXHOSTNAME then pdn_fail hostname_too_long_err
      else
        let '(buf, host_len, colon) :=
          match strchr_at buf dev "," with
          | Some comma => (<[comma := NUL]> buf, (comma - dev)%nat, colon)
          | None => (buf, host_len, S colon)
          end in
        let path_len := length (str_at buf colon) in
        if Z.of_nat path_len >? NFS_MAXPATHNAME then pdn_fail pathname_too_long_err
        else pdn_copy mem buf want_host want_path dev host_len colon path_len
  end.

Definition nfs_parse_square_bracket (mem : nat) (buf : list ascii)
    (want_host want_path : bool) : pdn_result :=
  let dev := 1%nat in
  match strchr_at buf dev "]" with
  | None => pdn_fail missing_brace_err
  | Some cbrace =>
      let buf := <[cbrace := NUL]> buf in
      let host_len := (cbrace - dev)%nat in
      let cbrace := S cbrace in
      if negb (ceqb (deref (drop cbrace buf)) ":") then pdn_fail bad_format_err
      else if Z.of_nat host_len >? NFS_MAXHOSTNAME then pdn_fail hostname_too_long_err
      else
        let cbrace := S cbrace in
        let path_len := length (str_at buf cbrace) in
        if Z.of_nat path_len >? NFS_MAXPATHNAME then pdn_fail pathname_too_long_err
        else pdn_copy mem buf want_host want_path dev host_len cbrace path_len
  end.

Definition nfs_parse_devname (mem : nat) (devname : option cstr)
    (want_host want_path : bool) : pdn_result :=
  match devname with
  | None => pdn_fail no_devname_err
  | Some s =>
      match mem with
      | O => pdn_fail nomem_err
      | S mem =>
          let dev := s ++ [NUL] in
          if ceqb (deref dev) "[" then nfs_parse_square_bracket mem dev want_host want_path
          else if starts_with $"nfs://" dev then pdn_fail nfs_url_err
          else nfs_parse_simple_hostname mem dev want_host want_path
      end
  end.

(** ** What the parsers mean, on strings *)

(** The server and the path of a device name, or the error that is reported. *)
Definition pdn_check (host path : cstr) : (cstr * cstr) + pdn_err :=
  if Z.of_nat (length host) >? NFS_MAXHOSTNAME then inr hostname_too_long_err
  else if Z.of_nat (length path) >? NFS_MAXPATHNAME then inr pathname_too_long_err
  else inl (host, path).

Definition pdn_spec (s : cstr) : (cstr * cstr) + pdn_err :=
  match s with
  | c :: s' =>
      if ceqb c "[" then
        match strchr "]" s' with
        | None => inr missing_brace_err
        | Some (addr, rest) =>
            match rest with
            | d :: path => if ceqb d ":" then pdn_check addr path else inr bad_format_err
            | [] => inr bad_format_err
            end
        end
      else if starts_with $"nfs://" s then inr nfs_url_err
      else match strchr ":" s with
           | None => inr bad_format_err
           | Some (hosts, path) =>
               match strchr "," hosts with
               | None => pdn_check hosts path
               | Some (h1, _) =>
                   (* several hosts: the first is taken and the path is lost *)
                   if Z.of_nat (length hosts) >? NFS_MAXHOSTNAME then inr hostname_too_long_err
                   else inl (h1, [])
               end
           end
  | [] => inr bad_format_err
  end.

(** ** Lemmas on the buffer *)

Lemma not_nul_true c : not_nul c = true <-> c <> NUL.
Proof. unfold not_nul. rewrite negb_true_iff. apply ceqb_false. Qed.

Lemma span_nul s r : no_nul s -> span not_nul (s ++ NUL :: r) = (s, NUL :: r).
Proof.
  induction 1 as [|c s Hc Hs IH]; [done|]. cbn. apply not_nul_true in Hc. by rewrite Hc, IH.
Qed.

(** The string at [length a] of a buffer, whatever is before it. *)
Lemma str_at_app a s r : no_nul s -> str_at (a ++ s ++ NUL :: r) (length a) = s.
Proof. intros H. unfold str_at. by rewrite drop_app_length, span_nul. Qed.

Lemma strchr_at_app a s r c :
  no_nul s -> strchr_at (a ++ s ++ NUL :: r) (length a) c
              = match strchr c s with Some (x, _) => Some (length a + length x)%nat | None => None end.
Proof. intros H. unfold strchr_at. by rewrite str_at_app. Qed.

Lemma cut_at a c b : <[length a := NUL]> (a ++ c :: b) = a ++ NUL :: b.
Proof. rewrite insert_app_r_alt by lia. by rewrite Nat.sub_diag. Qed.

Lemma no_nul_app a b : no_nul (a ++ b) <-> no_nul a /\ no_nul b.
Proof. apply Forall_app. Qed.

(** Both copies are made, in a buffer that holds the two strings. *)
Lemma pdn_copy_ok mem buf h p host path rest :
  str_at buf h = host ++ rest -> str_at buf p = path ->
  pdn_copy (S (S mem)) buf true true h (length host) p (length path)
  = Pdn None (Points host) (Points path).
Proof.
  intros Hh Hp. unfold pdn_copy, strndup_at. rewrite Hh, Hp.
  by rewrite take_app_length, firstn_all.
Qed.

Definition pdn_outcome (r : (cstr * cstr) + pdn_err) : pdn_result :=
  match r with
  | inl (h, p) => Pdn None (Points h) (Points p)
  | inr e => pdn_fail e
  end.

Lemma nfs_parse_simple_hostname_spec mem hosts path :
  no_nul hosts -> no_nul path -> ":"%char ∉ hosts ->
  nfs_parse_simple_hostname (S (S mem)) (hosts ++ ":"%char :: path ++ [NUL]) true true
  = pdn_outcome (match strchr "," hosts with
                 | None => pdn_check hosts path
                 | Some (h1, _) => if Z.of_nat (length hosts) >? NFS_MAXHOSTNAME
                                   then inr hostname_too_long_err else inl (h1, [])
                 end).
Proof.
  intros Hh Hp Hc. unfold nfs_parse_simple_hostname.
  assert (strchr_at (hosts ++ ":"%char :: path ++ [NUL]) 0 ":" = Some (length hosts)) as ->.
  { replace (hosts ++ ":"%char :: path ++ [NUL]) with ([] ++ (hosts ++ ":"%char :: path) ++ [NUL])
      by (cbn; by rewrite <- app_assoc).
    change O with (@length ascii []). rewrite strchr_at_app.
    - by rewrite strchr_app.
    - apply no_nul_app. split; [done|]. by constructor. }
  rewrite cut_at, Nat.sub_0_r.
  pose proof (strchr_at_app [] hosts (path ++ [NUL]) "," Hh) as Hcomma. cbn [app length] in Hcomma.
  rewrite Hcomma. unfold pdn_check.
  destruct (strchr "," hosts) as [[h1 h2]|] eqn:E; cbn [Nat.add];
    (destruct (Z.of_nat (length hosts) >? NFS_MAXHOSTNAME); [done|]).
  - apply strchr_Some in E as [-> Hn]. rewrite Nat.sub_0_r, <- app_assoc. cbn [app].
    rewrite cut_at. apply no_nul_app in Hh as [Hh1 Hh2].
    assert (forall p, str_at (h1 ++ NUL :: h2 ++ NUL :: p) (length (h1 ++ ","%char :: h2)) = []) as Hs.
    { intros p. replace (h1 ++ NUL :: h2 ++ NUL :: p) with ((h1 ++ NUL :: h2) ++ [] ++ NUL :: p)
        by (cbn; by rewrite <- app_assoc).
      replace (length (h1 ++ ","%char :: h2)) with (length (h1 ++ NUL :: h2)) by (by rewrite !length_app).
      apply str_at_app. constructor. }
    rewrite Hs. cbn [length]. change (Z.of_nat 0 >? NFS_MAXPATHNAME) with false.
    apply (pdn_copy_ok _ _ _ _ h1 [] []); [|done].
    rewrite app_nil_r. apply (str_at_app []). done.
  - assert (str_at (hosts ++ NUL :: path ++ [NUL]) (S (length hosts)) = path) as Hs.
    { replace (hosts ++ NUL :: path ++ [NUL]) with ((hosts ++ [NUL]) ++ path ++ [NUL])
        by (by rewrite <- app_assoc).
      replace (S (length hosts)) with (length (hosts ++ [NUL])) by (rewrite length_app; cbn; lia).
      by apply str_at_app. }
    rewrite Hs. destruct (_ >? NFS_MAXPATHNAME); [done|].
    apply (pdn_copy_ok _ _ _ _ _ _ []); [|done]. rewrite app_nil_r. by apply (str_at_app []).
Qed.

(** Without a colon, or when it is not the format, nothing is copied. *)
Lemma nfs_parse_simple_hostname_none mem s :
  no_nul s -> ":"%char ∉ s ->
  nfs_parse_simple_hostname mem (s ++ [NUL]) true true = pdn_fail bad_format_err.
Proof.
  intros Hs Hc. unfold nfs_parse_simple_hostname.
  pose proof (strchr_at_app [] s [] ":" Hs) as E. cbn [app length] in E. rewrite E.
  by rewrite (proj2 (strchr_None _ _)).
Qed.

Lemma nfs_parse_square_bracket_spec mem s :
  no_nul s ->
  nfs_parse_square_bracket (S (S mem)) ("["%char :: s ++ [NUL]) true true
  = pdn_outcome (match strchr "]" s with
                 | None => inr missing_brace_err
                 | Some (addr, rest) =>
                     match rest with
                     | d :: path => if ceqb d ":" then pdn_check addr path else inr bad_format_err
                     | [] => inr bad_format_err
                     end
                 end).
Proof.
  intros Hs. unfold nfs_parse_square_bracket.
  pose proof (strchr_at_app ["["%char] s [] "]" Hs) as E. cbn [app length] in E. rewrite E. clear E.
  destruct (strchr "]" s) as [[addr rest]|] eqn:E; [|done].
  apply strchr_Some in E as [-> Hn]. apply no_nul_app in Hs as [Ha Hr].
  apply Forall_cons in Hr as [_ Hr]. rewrite <- app_assoc. cbn [app Nat.add].
  pose proof (cut_at ("["%char :: addr) "]" (rest ++ [NUL])) as Ecut. cbn [app length] in Ecut.
  rewrite Ecut, Nat.sub_succ, Nat.sub_0_r. clear Ecut.
  assert (forall k, drop (S (S (length addr + k))) ("["%char :: addr ++ NUL :: rest ++ [NUL])
                    = drop k (rest ++ [NUL])) as Hdrop.
  { intros k. cbn [drop]. replace (S (length addr + k)) with (length (addr ++ [NUL]) + k)%nat
      by (rewrite length_app; cbn; lia).
    rewrite <- drop_drop. replace (addr ++ NUL :: rest ++ [NUL]) with ((addr ++ [NUL]) ++ rest ++ [NUL])
      by (by rewrite <- app_assoc). by rewrite drop_app_length. }
  pose proof (Hdrop O) as H0. rewrite Nat.add_0_r in H0. rewrite H0.
  destruct rest as [|d path]; [done|]. cbn [deref drop app].
  destruct (ceqb d ":") eqn:Ed; [|done]. cbn [negb]. unfold pdn_check.
  destruct (_ >? NFS_MAXHOSTNAME); [done|].
  assert (str_at ("["%char :: addr ++ NUL :: d :: path ++ [NUL]) (S (S (S (length addr)))) = path) as Hp.
  { unfold str_at. replace (S (S (S (length addr)))) with (S (S (length addr + 1))) by lia.
    pose proof (Hdrop 1%nat) as H1. cbn [app] in H1. rewrite H1. apply Forall_cons in Hr as [_ Hr].
    change (drop 1 (d :: path ++ [NUL])) with (path ++ [NUL]). by rewrite (span_nul path [] Hr). }
  rewrite Hp. destruct (_ >? NFS_MAXPATHNAME); [done|].
  apply (pdn_copy_ok _ _ _ _ _ _ []); [|done]. rewrite app_nil_r.
  by apply (str_at_app ["["%char]).
Qed.

(** ** The properties *)

(** With memory available, the in-place parser computes the string
    specification [pdn_spec]: the bracketed address or the host before the first
    colon and the path after it, or the error of the first check that fails. *)
Theorem nfs_parse_devname_spec mem s :
  no_nul s ->
  nfs_parse_devname (S (S (S mem))) (Some s) true true = pdn_outcome (pdn_spec s).
Proof.
  intros Hs. unfold nfs_parse_devname. destruct s as [|c s]; [done|].
  cbn [app deref pdn_spec]. destruct (ceqb c "[") eqn:Ec.
  { btrue. subst. apply Forall_cons in Hs as [_ Hs]. by apply nfs_parse_square_bracket_spec. }
  assert (starts_with $"nfs://" (c :: s ++ [NUL]) = starts_with $"nfs://" (c :: s)) as ->.
  { apply eq_true_iff_eq. rewrite !starts_with_spec. split; intros [t Ht].
    - destruct (list_eq_dec t []) as [->|Hne].
      + apply (f_equal last) in Ht. rewrite app_nil_r, app_comm_cons, last_snoc in Ht. done.
      + destruct (exists_last Hne) as (t' & x & ->). exists t'.
        rewrite app_comm_cons, app_assoc in Ht. by apply app_inj_tail in Ht as [-> _].
    - exists (t ++ [NUL]). by rewrite app_comm_cons, Ht, <- app_assoc. }
  destruct (starts_with _ (c :: s)); [done|].
  destruct (strchr ":" (c :: s)) as [[hosts path]|] eqn:E.
  - apply strchr_Some in E as [E Hn]. rewrite app_comm_cons, E in *. rewrite <- app_assoc. cbn [app].
    apply no_nul_app in Hs as [Hh Hp]. apply Forall_cons in Hp as [_ Hp].
    by apply nfs_parse_simple_hostname_spec.
  - apply strchr_None in E. by apply (nfs_parse_simple_hostname_none _ (c :: s)).
Qed.

Lemma nfs_parse_devname_spec_witness :
  nfs_parse_devname 3 (Some $"[fe80::1]:/export") true true
  = Pdn None (Points $"fe80::1") (Points $"/export").
Proof.
  rewrite (nfs_parse_devname_spec 0); [reflexivity|]. repeat constructor; discriminate.
Defined.

(** A host list before the colon loses the export path: the first host is
    returned, as the comment says, but together with an empty path. *)
Theorem nfs_parse_devname_host_list mem h1 h2 path :
  no_nul (h1 ++ h2 ++ path) -> ":"%char ∉ h1 ++ h2 -> ","%char ∉ h1 ->
  deref h1 <> "["%char ->
  Z.of_nat (length h1 + length h2) < NFS_MAXHOSTNAME ->
  nfs_parse_devname (S (S (S mem))) (Some (h1 ++ $"," ++ h2 ++ $":" ++ path)) true true
  = Pdn None (Points h1) (Points []).
Proof.
  intros Hn Hc Hcomma Hb Hlen. unfold nfs_parse_devname.
  set (s := h1 ++ $"," ++ h2 ++ $":" ++ path).
  assert (s ++ [NUL] = (h1 ++ ","%char :: h2) ++ ":"%char :: path ++ [NUL]) as ->.
  { unfold s. cbn. rewrite <- !app_assoc. cbn. by rewrite <- !app_assoc. }
  assert (ceqb (deref ((h1 ++ ","%char :: h2) ++ ":"%char :: path ++ [NUL])) "[" = false) as ->.
  { apply ceqb_false. by destruct h1. }
  assert (starts_with $"nfs://" ((h1 ++ ","%char :: h2) ++ ":"%char :: path ++ [NUL]) = false) as ->.
  { apply not_true_is_false. intros [t Ht]%starts_with_spec.
    apply (f_equal (strchr ":")) in Ht. rewrite strchr_app in Ht by set_solver. cbn in Ht.
    injection Ht as Ht _. apply (f_equal (strchr ",")) in Ht. by rewrite strchr_app in Ht. }
  apply no_nul_app in Hn as [Hn1 [Hn2 Hn3]%no_nul_app].
  rewrite nfs_parse_simple_hostname_spec; [|apply no_nul_app; split; [done|by constructor]|done|set_solver].
  rewrite strchr_app by done. rewrite length_app. cbn [length].
  destruct (_ >? NFS_MAXHOSTNAME) eqn:E; [btrue; lia|done].
Qed.

Lemma nfs_parse_devname_host_list_witness :
  nfs_parse_devname 3 (Some $"a,b:/export") true true = Pdn None (Points $"a") (Points []).
Proof.
  apply (nfs_parse_devname_host_list 0 $"a" $"b" $"/export"); try reflexivity.
  - repeat constructor; discriminate.
  - by apply strchr_None.
  - by apply strchr_None.
  - discriminate.
Defined.

(** No string is left allocated for the caller when the call fails. *)
Definition no_leak (r : pdn_result) : Prop :=
  result r <> None -> (forall h, hostname r <> Points h) /\ (forall p, pathname r <> Points p).

Lemma pdn_fail_no_leak e : no_leak (pdn_fail e).
Proof. by split. Qed.

Lemma pdn_copy_no_leak mem buf wh wp h hl p pl : no_leak (pdn_copy mem buf wh wp h hl p pl).
Proof.
  unfold pdn_copy, strndup_at, no_leak. destruct wh, wp, mem as [|[|mem]]; by intros.
Qed.
#[local] Hint Resolve pdn_fail_no_leak pdn_copy_no_leak : nfs.

Lemma nfs_parse_simple_hostname_no_leak mem buf wh wp : no_leak (nfs_parse_simple_hostname mem buf wh wp).
Proof.
  unfold nfs_parse_simple_hostname. destruct (strchr_at buf 0 ":"); auto with nfs.
  case_if; auto with nfs. destruct (strchr_at _ 0 ","); case_if; auto with nfs.
Qed.

Lemma nfs_parse_square_bracket_no_leak mem buf wh wp : no_leak (nfs_parse_square_bracket mem buf wh wp).
Proof.
  unfold nfs_parse_square_bracket. destruct (strchr_at buf 1 "]"); auto with nfs.
  do 3 (case_if; auto with nfs).
Qed.
#[local] Hint Resolve nfs_parse_simple_hostname_no_leak nfs_parse_square_bracket_no_leak : nfs.

(** When the parser fails, for a malformed name or for lack of memory, it
    leaves no allocated string behind: the outputs are untouched, NULL, or point
    to the host name that was freed. *)
Theorem nfs_parse_devname_no_leak mem devname want_host want_path :
  no_leak (nfs_parse_devname mem devname want_host want_path).
Proof.
  unfold nfs_parse_devname. destruct devname, mem; auto with nfs. repeat case_if; auto with nfs.
Qed.

(** The host name that was freed stays in the caller's variable. *)
Example nfs_parse_devname_dangling :
  nfs_parse_devname 2 (Some $"a:/b") true true = Pdn (Some nomem_err) Dangling Null.
Proof. reflexivity. Qed.
