(* ===== verification/ConfDb.v ===== *)
(** * The configuration database (support/nfs/conffile.c)

    Bindings live in 256 hash chains; changes are queued in transactions and
    executed by [conf_end].  [conf] is the file's static state.  Allocation is
    taken to succeed.  [abs] is what the chains hold, a finite map from section and
    tag (in lower case) to sub-section and value, as long as every set operation
    overrides, as all of [conf_parse]'s do.  [view] is what the readers are to see, a
    map from section, sub-section and tag to the value; commits refine it where no
    tag is in two sub-sections, and elsewhere lose entries. *)

From S2P Require Import Prelude.

(** ** Data *)

Record conf_binding := Binding
  { cb_section : cstr; cb_arg : option cstr; cb_tag : cstr; cb_value : cstr;
    cb_is_default : bool }.

Inductive conf_op := CONF_SET | CONF_REMOVE | CONF_REMOVE_SECTION.

(** [tag] and [value] are NULL for the operations that do not set them. *)
Record conf_trans := Trans
  { ct_trans : Z; ct_op : conf_op; ct_section : cstr; ct_arg : option cstr;
    ct_tag : option cstr; ct_value : option cstr;
    ct_override : bool; ct_is_default : bool }.

Record conf := Conf
  { conf_bindings : list (list conf_binding);
    conf_trans_queue : list conf_trans;
    conf_seq : Z }.

#[export] Instance conf_binding_eq_dec : EqDecision conf_binding.
Proof. solve_decision. Defined.
#[export] Instance conf_op_eq_dec : EqDecision conf_op.
Proof. solve_decision. Defined.

Definition upper2lower (s : cstr) : cstr := tolower <$> s.

(** One step of the hash: rotate left by one bit in eight and mix in a
    character. *)
Definition hash_step (hash : Z) (c : ascii) : Z :=
  Z.lxor (Z.lor (Z.shiftl hash 1) (Z.shiftr hash 7)) (uchar (tolower c)) mod 256.
Definition conf_hash (s : cstr) : Z := foldl hash_step 0 s.

(** [&conf_bindings[conf_hash(section)]]. *)
Definition index (section : cstr) : nat := Z.to_nat (conf_hash section).
Definition chain (s : conf) (section : cstr) : list conf_binding :=
  default [] (conf_bindings s !! index section).
Definition set_chain (s : conf) (section : cstr) (l : list conf_binding) : conf :=
  Conf (<[index section := l]> (conf_bindings s)) (conf_trans_queue s) (conf_seq s).

(** ** Lookup *)

Definition arg_matches (arg cb_arg : option cstr) : bool :=
  match arg, cb_arg with
  | Some a, Some b => strcaseeq a b
  | None, None => true
  | _, _ => false
  end.

Definition binding_matches (section : cstr) (arg : option cstr) (tag : cstr) (cb : conf_binding) : bool :=
  strcaseeq section (cb_section cb) && arg_matches arg (cb_arg cb) && strcaseeq tag (cb_tag cb).

Definition conf_get_entry (s : conf) (section : cstr) (arg : option cstr) (tag : cstr) : option cstr :=
  cb_value <$> List.find (binding_matches section arg tag) (chain s section).

Section environment.
  (** [getenv]. *)
  Context (getenv : cstr -> option cstr).

(** The lookup with its retry loop; [None] is fuel exhausted. *)
Fixpoint conf_get_section (fuel : nat) (s : conf) (section : cstr) (arg : option cstr) (tag : cstr)
  : option (option cstr) :=
  match fuel with
  | O => None
  | S fuel =>
      match List.find (binding_matches section arg tag) (chain s section) with
      | None => Some None
      | Some cb =>
          match cb_value cb with
          | c :: name =>
              if ceqb c "$" then
                match getenv name with
                | Some (e :: es) => Some (Some (e :: es))
                | _ => conf_get_section fuel s $"environment" arg name
                end
              else Some (Some (cb_value cb))
          | [] => Some (Some (cb_value cb))
          end
      end
  end.

Definition conf_get_str (fuel : nat) (s : conf) (section tag : cstr) : option (option cstr) :=
  conf_get_section fuel s section None tag.

Definition conf_get_str_with_def (fuel : nat) (s : conf) (section tag def : cstr) : option cstr :=
  match conf_get_section fuel s section None tag with
  | None => None
  | Some None => Some def
  | Some (Some r) => Some r
  end.

Definition conf_get_num (fuel : nat) (s : conf) (section tag : cstr) (def : Z) : option Z :=
  match conf_get_str fuel s section tag with
  | None => None
  | Some (Some value) => Some (atoi value)
  | Some None => Some def
  end.

Definition bool_value (value : cstr) (def : bool) : bool :=
  if strcaseeq value $"1" || strcaseeq value $"t" || strcaseeq value $"true"
     || strcaseeq value $"y" || strcaseeq value $"yes" || strcaseeq value $"on" then true
  else if strcaseeq value $"0" || strcaseeq value $"f" || strcaseeq value $"false"
          || strcaseeq value $"n" || strcaseeq value $"no" || strcaseeq value $"off" then false
  else def.

Definition conf_get_bool (fuel : nat) (s : conf) (section tag : cstr) (def : bool) : option bool :=
  match conf_get_str fuel s section tag with
  | None => None
  | Some None => Some def
  | Some (Some value) => Some (bool_value value def)
  end.

(** ** Lists *)

(** The trailing-blank loop of [conf_get_list] on the bytes of a field: from
    index [t] down while above the field's start, cutting at white space. *)
Fixpoint trim_back (t : nat) (buf : list ascii) : list ascii :=
  match t with
  | O => buf
  | S t' => if isspace (nth t buf NUL) then trim_back t' (<[t := NUL]> buf) else buf
  end.

(** One field: leading blanks skipped, and when another field follows the
    trailing loop run from [p - 1], the byte where [strsep] put its NUL. *)
Definition list_field (field : cstr) (more : bool) : cstr :=
  let field := skip_while isspace field in
  if more then (span (fun c => negb (ceqb c NUL)) (trim_back (length field) (field ++ [NUL]))).1
  else field.

Fixpoint list_fields (fields : list cstr) : list cstr :=
  match fields with
  | [] => []
  | f :: fs =>
      let f := list_field f (match fs with [] => false | _ => true end) in
      match f with
      | [] => list_fields fs
      | _ => f :: list_fields fs
      end
  end.

Definition conf_get_list (fuel : nat) (s : conf) (section tag : cstr) : option (option (list cstr)) :=
  match conf_get_str fuel s section tag with
  | None => None
  | Some None => Some None
  | Some (Some liststr) => Some (Some (list_fields (split_on "," liststr)))
  end.

End environment.

(** The tags of a section; [None] when [strcasecmp] is handed the NULL [arg] of
    a binding outside any sub-section. *)
Fixpoint tag_list (section : cstr) (arg : option cstr) (l : list conf_binding) : option (list cstr) :=
  match l with
  | [] => Some []
  | cb :: l =>
      if strcaseeq section (cb_section cb) then
        match arg, cb_arg cb with
        | Some _, None => None
        | Some a, Some b => if strcaseeq a b then cons (cb_tag cb) <$> tag_list section arg l
                            else tag_list section arg l
        | None, _ => cons (cb_tag cb) <$> tag_list section arg l
        end
      else tag_list section arg l
  end.

Definition conf_get_tag_list (s : conf) (section : cstr) (arg : option cstr) : option (list cstr) :=
  tag_list section arg (chain s section).

(** ** Immediate changes *)

Fixpoint remove_first {A} (f : A -> bool) (l : list A) : option (list A) :=
  match l with
  | [] => None
  | x :: l => if f x then Some l else cons x <$> remove_first f l
  end.

Definition conf_remove_now (s : conf) (section tag : cstr) : conf * Z :=
  match remove_first (fun cb => strcaseeq (cb_section cb) section && strcaseeq (cb_tag cb) tag)
          (chain s section) with
  | Some l => (set_chain s section l, 0)
  | None => (s, 1)
  end.

Definition conf_remove_section_now (s : conf) (section : cstr) : conf * Z :=
  let l := chain s section in
  (set_chain s section (List.filter (fun cb => negb (strcaseeq (cb_section cb) section)) l),
   if existsb (fun cb => strcaseeq (cb_section cb) section) l then 0 else 1).

Definition conf_set_now (getenv : cstr -> option cstr) (fuel : nat) (s : conf)
    (section : cstr) (arg : option cstr) (tag value : cstr) (override is_default : bool)
  : option (conf * Z) :=
  let insert s :=
    Some (set_chain s section (Binding section arg tag value is_default :: chain s section), 0) in
  if override then insert (conf_remove_now s section tag).1
  else match conf_get_section getenv fuel s section arg tag with
       | None => None
       | Some (Some _) => Some (s, 1)
       | Some None => insert s
       end.

(** ** Transactions *)

Definition conf_begin (s : conf) : conf * Z :=
  let seq := conf_seq s + 1 in (Conf (conf_bindings s) (conf_trans_queue s) seq, seq).

Definition enqueue (s : conf) (n : conf_trans) : conf :=
  Conf (conf_bindings s) (conf_trans_queue s ++ [n]) (conf_seq s).

Definition conf_set (s : conf) (transaction : Z) (section : cstr) (arg : option cstr)
    (tag : cstr) (value : option cstr) (override is_default : bool) : conf :=
  match value with
  | None | Some [] => s
  | Some _ => enqueue s (Trans transaction CONF_SET (upper2lower section) arg (Some tag) value override is_default)
  end.

Definition conf_remove (s : conf) (transaction : Z) (section tag : cstr) : conf :=
  enqueue s (Trans transaction CONF_REMOVE section None (Some tag) None false false).

Definition conf_remove_section (s : conf) (transaction : Z) (section : cstr) : conf :=
  enqueue s (Trans transaction CONF_REMOVE_SECTION section None None None false false).

(** One queued operation; [None]: a lookup that does not return, or a NULL
    string. *)
Definition conf_exec (getenv : cstr -> option cstr) (fuel : nat) (s : conf) (n : conf_trans) : option conf :=
  match ct_op n with
  | CONF_SET =>
      match ct_tag n, ct_value n with
      | Some tag, Some value =>
          fst <$> conf_set_now getenv fuel s (ct_section n) (ct_arg n) tag value (ct_override n) (ct_is_default n)
      | _, _ => None
      end
  | CONF_REMOVE =>
      match ct_tag n with
      | Some tag => Some (conf_remove_now s (ct_section n) tag).1
      | None => None
      end
  | CONF_REMOVE_SECTION => Some (conf_remove_section_now s (ct_section n)).1
  end.

(** The walk over the queue: [kept] are the nodes of other transactions passed
    so far. *)
Fixpoint conf_end_loop (getenv : cstr -> option cstr) (fuel : nat) (transaction : Z) (commit : bool)
    (kept queue : list conf_trans) (s : conf) : option conf :=
  match queue with
  | [] => Some (Conf (conf_bindings s) kept (conf_seq s))
  | n :: queue =>
      if ct_trans n =? transaction then
        match (if commit then conf_exec getenv fuel s n else Some s) with
        | Some s => conf_end_loop getenv fuel transaction commit kept queue s
        | None => None
        end
      else conf_end_loop getenv fuel transaction commit (kept ++ [n]) queue s
  end.

Definition conf_end (getenv : cstr -> option cstr) (fuel : nat) (s : conf) (transaction : Z) (commit : bool)
  : option conf :=
  conf_end_loop getenv fuel transaction commit [] (conf_trans_queue s) s.

Definition conf_free_bindings (s : conf) : conf :=
  Conf (replicate 256 []) (conf_trans_queue s) (conf_seq s).

Definition conf_cleanup (s : conf) : conf := Conf (replicate 256 []) [] (conf_seq s).

(** ** The abstract configuration *)

Abbreviation conf_key := (cstr * cstr)%type.
Abbreviation conf_map := (gmap conf_key (option cstr * cstr)).

Definition key (section tag : cstr) : conf_key := (upper2lower section, upper2lower tag).
Definition cb_key (cb : conf_binding) : conf_key := key (cb_section cb) (cb_tag cb).
Definition cb_pair (cb : conf_binding) : conf_key * (option cstr * cstr) :=
  (cb_key cb, (cb_arg cb, cb_value cb)).

Definition all_bindings (s : conf) : list conf_binding := concat (conf_bindings s).
Definition abs (s : conf) : conf_map := list_to_map (cb_pair <$> all_bindings s).

(** Well-formed chains: 256 of them, each binding on the chain of its section,
    and at most one binding for a section and tag. *)
Record wf (s : conf) : Prop := Wf
  { wf_length : length (conf_bindings s) = 256%nat;
    wf_chain : forall i l, conf_bindings s !! i = Some l -> Forall (fun cb => index (cb_section cb) = i) l;
    wf_nodup : NoDup (cb_key <$> all_bindings s) }.

(** ** Hashing ignores case *)

Lemma conf_hash_range s : 0 <= conf_hash s < 256.
Proof.
  assert (forall h, 0 <= h < 256 -> 0 <= foldl hash_step h s < 256) as H; [|apply H; lia].
  induction s as [|c s IH]; intros h H; cbn [foldl]; [done|]. apply IH.
  apply Z.mod_pos_bound. lia.
Qed.

Lemma tolower_idemp c : tolower (tolower c) = tolower c.
Proof. all_chars c; reflexivity. Qed.

Lemma conf_hash_lower s : conf_hash (upper2lower s) = conf_hash s.
Proof.
  unfold conf_hash. generalize 0. induction s as [|c s IH]; intros h; [done|].
  cbn [upper2lower fmap list_fmap foldl]. rewrite <- IH. f_equal. unfold hash_step. by rewrite tolower_idemp.
Qed.

Lemma strcaseeq_lower a b : strcaseeq a b = true <-> upper2lower a = upper2lower b.
Proof. apply strcaseeq_spec. Qed.

Lemma index_case a b : upper2lower a = upper2lower b -> index a = index b.
Proof. intros H. unfold index. by rewrite <- (conf_hash_lower a), <- (conf_hash_lower b), H. Qed.

Lemma index_bound s : (index s < 256)%nat.
Proof. unfold index. pose proof (conf_hash_range s). lia. Qed.

Lemma key_match section tag cb :
  strcaseeq (cb_section cb) section && strcaseeq (cb_tag cb) tag = true <-> cb_key cb = key section tag.
Proof.
  rewrite andb_true_iff, !strcaseeq_lower. unfold cb_key, key. split; [intros [-> ->]|intros [=]]; auto.
Qed.

Lemma upper2lower_idemp s : upper2lower (upper2lower s) = upper2lower s.
Proof. unfold upper2lower. rewrite <- list_fmap_compose. apply list_fmap_ext. intros. apply tolower_idemp. Qed.

(** ** The chain of a section *)

(** The bindings before and after one chain; the chain can be replaced. *)
Lemma chain_split s section :
  wf s -> exists l1 l2,
    all_bindings s = l1 ++ chain s section ++ l2 /\
    (forall l, all_bindings (set_chain s section l) = l1 ++ l ++ l2) /\
    Forall (fun cb => index (cb_section cb) <> index section) (l1 ++ l2).
Proof.
  intros [Hlen Hch _]. pose proof (index_bound section) as Hi.
  destruct (lookup_lt_is_Some_2 (conf_bindings s) (index section)) as [c Hc]; [lia|].
  unfold all_bindings, chain, set_chain. rewrite Hc. cbn [default conf_bindings].
  exists (concat (take (index section) (conf_bindings s))), (concat (drop (S (index section)) (conf_bindings s))).
  split_and!.
  - rewrite <- (take_drop_middle _ _ _ Hc) at 1. by rewrite concat_app.
  - intros l. rewrite insert_take_drop by lia. by rewrite concat_app.
  - apply Forall_app. split; apply Forall_forall; intros cb (l & Hcb & Hl)%list_elem_of_In%in_concat;
      apply list_elem_of_In in Hl; apply list_elem_of_In, list_elem_of_lookup in Hcb as [i Hi'].
    + apply lookup_take_Some in Hi' as [Hi' ?]. apply Hch in Hi'.
      rewrite Forall_forall in Hi'. rewrite (Hi' cb Hl). lia.
    + rewrite lookup_drop in Hi'. apply Hch in Hi'.
      rewrite Forall_forall in Hi'. rewrite (Hi' cb Hl). lia.
Qed.

(** A binding of a section is on the section's chain. *)
Lemma chain_elem s section cb :
  wf s -> cb ∈ all_bindings s -> upper2lower (cb_section cb) = upper2lower section -> cb ∈ chain s section.
Proof.
  intros Hwf Hin Hs. destruct (chain_split s section Hwf) as (l1 & l2 & E & _ & Hout).
  rewrite E, !elem_of_app in Hin. rewrite Forall_app, !Forall_forall in Hout.
  apply index_case in Hs. naive_solver.
Qed.

Lemma chain_sub s section cb : wf s -> cb ∈ chain s section -> cb ∈ all_bindings s.
Proof.
  intros Hwf H. destruct (chain_split s section Hwf) as (l1 & l2 & -> & _). set_solver.
Qed.

Lemma chain_index s section cb : wf s -> cb ∈ chain s section -> index (cb_section cb) = index section.
Proof.
  intros [_ Hch _]. unfold chain. destruct (conf_bindings s !! index section) as [c|] eqn:E; cbn; [|set_solver].
  apply Hch in E. rewrite Forall_forall in E. auto.
Qed.

Lemma unique_binding s cb cb' :
  wf s -> cb ∈ all_bindings s -> cb' ∈ all_bindings s -> cb_key cb = cb_key cb' -> cb = cb'.
Proof.
  intros [_ _ Hnd] H H' E. apply list_elem_of_lookup in H as [i Hi], H' as [j Hj].
  assert (i = j) as ->; [|congruence].
  eapply NoDup_lookup; [exact Hnd|..]; rewrite list_lookup_fmap; [by rewrite Hi|by rewrite Hj; cbn; f_equal].
Qed.

Lemma abs_lookup s k v :
  wf s -> abs s !! k = Some v <-> exists cb, cb ∈ all_bindings s /\ cb_key cb = k /\ (cb_arg cb, cb_value cb) = v.
Proof.
  intros [_ _ Hnd]. unfold abs. rewrite <- elem_of_list_to_map.
  - rewrite list_elem_of_fmap. unfold cb_pair. split.
    + intros (cb & ? & ?). simplify_eq. eauto.
    + intros (cb & ? & <- & <-). eauto.
  - rewrite <- list_fmap_compose. exact Hnd.
Qed.

Lemma abs_lookup_none s k : wf s -> abs s !! k = None <-> forall cb, cb ∈ all_bindings s -> cb_key cb <> k.
Proof.
  intros Hwf. split.
  - intros H cb Hin E. enough (abs s !! k = Some (cb_arg cb, cb_value cb)) by congruence.
    apply abs_lookup; eauto.
  - intros H. destruct (abs s !! k) as [v|] eqn:E; [|done]. apply abs_lookup in E as (cb & ? & ? & _); [|done].
    by destruct (H cb).
Qed.

(** Replacing a chain by one whose bindings keep the invariant. *)
Lemma wf_set_chain s section l :
  wf s -> Forall (fun cb => index (cb_section cb) = index section) l ->
  NoDup (cb_key <$> all_bindings (set_chain s section l)) -> wf (set_chain s section l).
Proof.
  intros [Hlen Hch _] Hl Hnd. split; [|intros i c|done]; cbn [set_chain conf_bindings].
  - by rewrite length_insert.
  - intros [(<- & <- & _)|[_ H]]%list_lookup_insert_Some; [done|by apply Hch].
Qed.

(** ** Each change refines its abstract counterpart *)

Lemma remove_first_spec {A} (f : A -> bool) (l : list A) :
  match remove_first f l with
  | Some l' => exists a x b, l = a ++ x :: b /\ l' = a ++ b /\ f x = true /\ Forall (fun y => f y = false) a
  | None => Forall (fun y => f y = false) l
  end.
Proof.
  induction l as [|x l IH]; cbn; [constructor|]. destruct (f x) eqn:E.
  { exists [], x, l. by rewrite Forall_nil. }
  destruct (remove_first f l) as [l'|]; cbn.
  - destruct IH as (a & y & b & -> & -> & Hy & Ha). exists (x :: a), y, b. split_and!; auto.
  - by constructor.
Qed.

Lemma conf_remove_now_refines s section tag :
  wf s -> wf (conf_remove_now s section tag).1 /\
          abs (conf_remove_now s section tag).1 = delete (key section tag) (abs s) /\
          (conf_remove_now s section tag).2 = (if decide (abs s !! key section tag = None) then 1 else 0).
Proof.
  intros Hwf. unfold conf_remove_now.
  pose proof (remove_first_spec (fun cb => strcaseeq (cb_section cb) section && strcaseeq (cb_tag cb) tag)
                (chain s section)) as Hr.
  destruct (chain_split s section Hwf) as (l1 & l2 & E & Eset & _).
  destruct (remove_first _ _) as [l'|]; cbn [fst snd].
  - destruct Hr as (a & cb & b & Ec & -> & Hcb%key_match & _). rewrite Ec in E.
    pose proof (wf_nodup _ Hwf) as Hnd. rewrite E in Hnd.
    assert (all_bindings s ≡ₚ cb :: all_bindings (set_chain s section (a ++ b))) as Hp.
    { rewrite E, Eset. solve_Permutation. }
    assert (Hnd' := Hnd). rewrite <- E, Hp in Hnd'. cbn in Hnd'. apply NoDup_cons in Hnd' as [Hni Hnd'].
    split_and!.
    + apply wf_set_chain; [done| |done].
      apply Forall_forall. intros x Hx. apply (chain_index s section); [done|]. rewrite Ec. set_solver.
    + unfold abs. rewrite (list_to_map_proper (cb_pair <$> all_bindings s)
                (cb_pair <$> cb :: all_bindings (set_chain s section (a ++ b)))).
      * cbn. rewrite Hcb, delete_insert_id; [done|]. rewrite <- Hcb. apply not_elem_of_list_to_map_1.
        by rewrite <- list_fmap_compose.
      * rewrite <- list_fmap_compose. exact (wf_nodup _ Hwf).
      * by rewrite Hp.
    + case_decide as Hn; [|done]. rewrite abs_lookup_none in Hn by done. destruct (Hn cb); [|done].
      rewrite E. set_solver.
  - rewrite Forall_forall in Hr.
    assert (abs s !! key section tag = None) as Hn.
    { apply abs_lookup_none; [done|]. intros cb Hin Hk.
      assert (cb ∈ chain s section) as Hc by (apply chain_elem; [done..|]; by injection Hk).
      apply Hr in Hc. apply key_match in Hk. congruence. }
    split_and!; [done|by rewrite delete_id|by rewrite decide_True].
Qed.

Lemma conf_insert_refines s section arg tag value d :
  wf s -> abs s !! key section tag = None ->
  let s' := set_chain s section (Binding section arg tag value d :: chain s section) in
  wf s' /\ abs s' = <[key section tag := (arg, value)]> (abs s).
Proof.
  intros Hwf Hn s'. destruct (chain_split s section Hwf) as (l1 & l2 & E & Eset & _).
  set (cb := Binding section arg tag value d) in *.
  assert (all_bindings s' ≡ₚ cb :: all_bindings s) as Hp.
  { unfold s'. rewrite Eset, E. solve_Permutation. }
  assert (NoDup (cb_key <$> all_bindings s')) as Hnd.
  { rewrite Hp. cbn. apply NoDup_cons. split; [|by destruct Hwf].
    intros (cb' & Ek & Hin)%list_elem_of_fmap. rewrite abs_lookup_none in Hn by done. by apply (Hn cb'). }
  split.
  - apply wf_set_chain; [done| |done]. constructor; [done|].
    apply Forall_forall. intros x Hx. by apply (chain_index s section).
  - unfold abs. rewrite (list_to_map_proper _ (cb_pair <$> cb :: all_bindings s)); [done| |].
    + rewrite <- list_fmap_compose. exact Hnd.
    + by rewrite Hp.
Qed.

Lemma conf_set_now_refines getenv fuel s section arg tag value d :
  wf s -> exists s', conf_set_now getenv fuel s section arg tag value true d = Some (s', 0) /\
    wf s' /\ abs s' = <[key section tag := (arg, value)]> (abs s).
Proof.
  intros Hwf. unfold conf_set_now. destruct (conf_remove_now_refines s section tag Hwf) as (Hwf' & Ha & _).
  eexists. split; [done|].
  destruct (conf_insert_refines (conf_remove_now s section tag).1 section arg tag value d Hwf') as [? ->].
  - by rewrite Ha, lookup_delete_eq.
  - split; [done|]. by rewrite Ha, insert_delete_eq.
Qed.

Lemma filter_perm_keys s section :
  wf s -> all_bindings (conf_remove_section_now s section).1
          = List.filter (fun cb => negb (strcaseeq (cb_section cb) section)) (all_bindings s).
Proof.
  intros Hwf. unfold conf_remove_section_now. cbn [fst]. destruct (chain_split s section Hwf) as (l1 & l2 & E & Eset & Hout).
  rewrite Eset, E, !List.filter_app. apply Forall_app in Hout as [H1 H2].
  assert (forall l, Forall (fun cb => index (cb_section cb) <> index section) l ->
            List.filter (fun cb => negb (strcaseeq (cb_section cb) section)) l = l) as Hid.
  { induction 1 as [|cb l Hcb _ IH]; cbn; [done|]. destruct (strcaseeq (cb_section cb) section) eqn:Ec.
    - by apply strcaseeq_lower, index_case in Ec.
    - cbn. by rewrite IH. }
  by rewrite (Hid l1 H1), (Hid l2 H2).
Qed.

Lemma conf_remove_section_now_refines s section :
  wf s -> wf (conf_remove_section_now s section).1 /\
          abs (conf_remove_section_now s section).1
          = filter (fun kv => kv.1.1 <> upper2lower section) (abs s).
Proof.
  intros Hwf. pose proof (filter_perm_keys s section Hwf) as E.
  assert (forall cb, cb ∈ all_bindings (conf_remove_section_now s section).1 <->
                     cb ∈ all_bindings s /\ upper2lower (cb_section cb) <> upper2lower section) as Hin.
  { intros cb. rewrite E, !list_elem_of_In, List.filter_In, negb_true_iff, <- not_true_iff_false, strcaseeq_lower. done. }
  assert (wf (conf_remove_section_now s section).1) as Hwf'.
  { apply wf_set_chain; [done|..].
    - apply Forall_forall. intros cb Hcb. apply list_elem_of_In, List.filter_In in Hcb as [Hcb _].
      apply (chain_index s section); [done|]. by apply list_elem_of_In.
    - unfold conf_remove_section_now in E. cbn [fst] in E. rewrite E. pose proof (wf_nodup _ Hwf) as Hnd.
      assert (sublist (List.filter (fun cb => negb (strcaseeq (cb_section cb) section)) (all_bindings s))
                (all_bindings s)) as Hsub.
      { generalize (all_bindings s). induction l as [|x l IH]; cbn; [done|].
        destruct (negb _); by constructor. }
      eapply sublist_NoDup; [exact Hnd|]. by apply fmap_sublist. }
  split; [done|]. apply map_eq. intros k. apply option_eq. intros v.
  rewrite map_lookup_filter_Some, !abs_lookup by done. cbn. split.
  - intros (cb & [Hcb Hs]%Hin & <- & <-). split; [eauto|]. done.
  - intros [(cb & Hcb & <- & <-) Hs]. exists cb. rewrite Hin. done.
Qed.

(** The effect of a queued operation on the abstract configuration. *)
Definition abs_exec (m : conf_map) (n : conf_trans) : conf_map :=
  match ct_op n with
  | CONF_SET => <[key (ct_section n) (default [] (ct_tag n)) := (ct_arg n, default [] (ct_value n))]> m
  | CONF_REMOVE => delete (key (ct_section n) (default [] (ct_tag n))) m
  | CONF_REMOVE_SECTION => filter (fun kv => kv.1.1 <> upper2lower (ct_section n)) m
  end.

(** The nodes that [conf_set] (overriding), [conf_remove] and
    [conf_remove_section] queue. *)
Definition node_ok (n : conf_trans) : Prop :=
  match ct_op n with
  | CONF_SET => is_Some (ct_tag n) /\ is_Some (ct_value n) /\ ct_override n = true
  | CONF_REMOVE => is_Some (ct_tag n)
  | CONF_REMOVE_SECTION => True
  end.

Lemma conf_exec_refines getenv fuel s n :
  wf s -> node_ok n -> exists s', conf_exec getenv fuel s n = Some s' /\ wf s' /\ abs s' = abs_exec (abs s) n.
Proof.
  intros Hwf. unfold node_ok, conf_exec, abs_exec. destruct (ct_op n).
  - intros ([tag ->] & [value ->] & ->).
    destruct (conf_set_now_refines getenv fuel s (ct_section n) (ct_arg n) tag value (ct_is_default n) Hwf)
      as (s' & -> & ? & ?). by exists s'.
  - intros [tag ->]. destruct (conf_remove_now_refines s (ct_section n) tag Hwf) as (? & ? & _). eauto.
  - intros _. destruct (conf_remove_section_now_refines s (ct_section n) Hwf). eauto.
Qed.

Definition of_trans (t : Z) (q : list conf_trans) : list conf_trans := filter (fun n => ct_trans n = t) q.
Definition not_of_trans (t : Z) (q : list conf_trans) : list conf_trans := filter (fun n => ct_trans n <> t) q.

Lemma conf_end_loop_refines getenv fuel t kept q s :
  wf s -> Forall node_ok (of_trans t q) ->
  exists s', conf_end_loop getenv fuel t true kept q s = Some s' /\ wf s' /\
    abs s' = foldl abs_exec (abs s) (of_trans t q) /\
    conf_trans_queue s' = kept ++ not_of_trans t q /\ conf_seq s' = conf_seq s.
Proof.
  revert kept s; induction q as [|n q IH]; intros kept s Hwf Hok.
  { eexists. split; [done|]. cbn. rewrite app_nil_r. split_and!; try done. by destruct Hwf. }
  unfold of_trans, not_of_trans in *. rewrite !filter_cons in *. cbn [conf_end_loop].
  destruct (ct_trans n =? t) eqn:E; btrue.
  - rewrite decide_True in Hok |- * by done. rewrite decide_False by (intros X; by apply X).
    apply Forall_cons in Hok as [Hn Hok].
    destruct (conf_exec_refines getenv fuel s n Hwf Hn) as (s1 & E1 & Hwf1 & Ha1). rewrite E1.
    destruct (IH kept s1 Hwf1 Hok) as (s' & -> & ? & Ha & ? & Hseq). exists s'. split_and!; try done.
    + by rewrite Ha, Ha1.
    + rewrite Hseq. revert E1. unfold conf_exec, conf_set_now, conf_remove_now.
      repeat case_match; intros; simplify_eq; cbn in *; simplify_option_eq; done.
  - rewrite decide_False in Hok |- * by done. rewrite decide_True by done.
    destruct (IH (kept ++ [n]) s Hwf Hok) as (s' & -> & ? & ? & Hq & ?). exists s'.
    split_and!; try done. by rewrite Hq, <- app_assoc.
Qed.

Lemma conf_end_abort getenv fuel t kept q s :
  conf_end_loop getenv fuel t false kept q s
  = Some (Conf (conf_bindings s) (kept ++ not_of_trans t q) (conf_seq s)).
Proof.
  revert kept; induction q as [|n q IH]; intros kept; [by cbn; rewrite app_nil_r|]. cbn [conf_end_loop].
  unfold not_of_trans in *. rewrite filter_cons. destruct (ct_trans n =? t) eqn:E; btrue.
  - rewrite decide_False by (intros X; by apply X). apply IH.
  - rewrite decide_True by done. by rewrite IH, <- app_assoc.
Qed.

(** ** Lookup refines map lookup *)

Lemma find_binding s section arg tag :
  wf s ->
  match List.find (binding_matches section arg tag) (chain s section) with
  | Some cb => abs s !! key section tag = Some (cb_arg cb, cb_value cb) /\ arg_matches arg (cb_arg cb) = true
  | None => match abs s !! key section tag with
            | Some (a, _) => arg_matches arg a = false
            | None => True
            end
  end.
Proof.
  intros Hwf. assert (forall cb, binding_matches section arg tag cb = true <->
    cb_key cb = key section tag /\ arg_matches arg (cb_arg cb) = true) as Hm.
  { intros cb. unfold binding_matches. rewrite <- key_match, !andb_true_iff.
    rewrite (strcaseeq_sym section), (strcaseeq_sym tag). tauto. }
  destruct (List.find _ _) as [cb|] eqn:E.
  - apply List.find_some in E as [Hin [Hk Ha]%Hm]. split; [|done].
    apply abs_lookup; [done|]. exists cb. split_and!; try done. apply (chain_sub _ section); [done|].
    by apply list_elem_of_In.
  - destruct (abs s !! key section tag) as [[a v]|] eqn:El; [|done].
    apply abs_lookup in El as (cb & Hin & Hk & Hv); [|done]. injection Hv as <- <-.
    assert (cb ∈ chain s section) as Hc by (apply chain_elem; [done..|]; by injection Hk).
    eapply List.find_none in E; [|by apply list_elem_of_In].
    apply not_true_iff_false. intros Ha. enough (binding_matches section arg tag cb = true) by congruence.
    by apply Hm.
Qed.

Lemma conf_get_entry_refines s section arg tag :
  wf s ->
  conf_get_entry s section arg tag =
    match abs s !! key section tag with
    | Some (a, v) => if arg_matches arg a then Some v else None
    | None => None
    end.
Proof.
  intros Hwf. unfold conf_get_entry. pose proof (find_binding s section arg tag Hwf) as H.
  destruct (List.find _ _) as [cb|]; cbn.
  - destruct H as [-> ->]. done.
  - destruct (abs s !! _) as [[a v]|]; [|done]. by rewrite H.
Qed.

(** [$name] values are looked up again; the others are returned as they are. *)
Definition is_ref (v : cstr) : bool := ceqb (deref v) "$".

Lemma conf_get_section_step getenv fuel s section arg tag :
  conf_get_section getenv (S fuel) s section arg tag =
    match conf_get_entry s section arg tag with
    | None => Some None
    | Some v => if is_ref v then
                  match getenv (drop 1 v) with
                  | Some (e :: es) => Some (Some (e :: es))
                  | _ => conf_get_section getenv fuel s $"environment" arg (drop 1 v)
                  end
                else Some (Some v)
    end.
Proof.
  cbn [conf_get_section]. unfold conf_get_entry, is_ref.
  destruct (List.find _ _) as [cb|]; cbn; [|done]. by destruct (cb_value cb).
Qed.

(** ** The empty configuration *)

Definition conf_empty : conf := Conf (replicate 256 []) [] 0.

Lemma concat_replicate_nil {A} n : concat (replicate n (@nil A)) = [].
Proof. by induction n. Qed.

Lemma wf_no_bindings q n : wf (Conf (replicate 256 []) q n).
Proof.
  split; cbn [conf_bindings].
  - by rewrite length_replicate.
  - intros i l [-> _]%lookup_replicate. constructor.
  - unfold all_bindings. cbn [conf_bindings]. rewrite concat_replicate_nil. constructor.
Qed.

Lemma abs_no_bindings q n : abs (Conf (replicate 256 []) q n) = ∅.
Proof. unfold abs, all_bindings. cbn [conf_bindings]. by rewrite concat_replicate_nil. Qed.

Lemma wf_empty : wf conf_empty.
Proof. apply wf_no_bindings. Qed.

(** Two bindings that refer to a variable, to try lookups on. *)
Definition sample_conf : conf :=
  match conf_set_now (fun _ => None) 1 conf_empty $"environment" None $"a" $"$a" true false with
  | Some (s, _) => s
  | None => conf_empty
  end.

Lemma sample_conf_wf : wf sample_conf.
Proof.
  destruct (conf_set_now_refines (fun _ => None) 1 conf_empty $"environment" None $"a" $"$a" false wf_empty)
    as (s & E & Hwf & _). unfold sample_conf. by rewrite E.
Qed.

(** ** The properties *)

(** The configuration as its readers see it: a value for a section, a sub-section
    and a tag, in any case. *)
Abbreviation entry_key := (cstr * option cstr * cstr)%type.
Definition entry_of (section : cstr) (arg : option cstr) (tag : cstr) : entry_key :=
  (upper2lower section, upper2lower <$> arg, upper2lower tag).
Definition cb_entry (cb : conf_binding) : entry_key * cstr := (entry_of (cb_section cb) (cb_arg cb) (cb_tag cb), cb_value cb).
Definition view (s : conf) : gmap entry_key cstr := list_to_map (cb_entry <$> all_bindings s).

(** What a queued operation is for: to set a tag of one sub-section, to remove a
    tag of a section, to remove a section. *)
Definition spec_exec (m : gmap entry_key cstr) (n : conf_trans) : gmap entry_key cstr :=
  match ct_op n with
  | CONF_SET => <[entry_of (ct_section n) (ct_arg n) (default [] (ct_tag n)) := default [] (ct_value n)]> m
  | CONF_REMOVE => filter (fun kv => (kv.1.1.1, kv.1.2) <> key (ct_section n) (default [] (ct_tag n))) m
  | CONF_REMOVE_SECTION => filter (fun kv => kv.1.1.1 <> upper2lower (ct_section n)) m
  end.

(** Each tag of a section belongs to one sub-section of it, [sub]. *)
Definition set_apart (sub : conf_key -> option cstr) (n : conf_trans) : Prop :=
  ct_op n = CONF_SET -> upper2lower <$> ct_arg n = sub (key (ct_section n) (default [] (ct_tag n))).
Definition apart (sub : conf_key -> option cstr) (m : conf_map) : Prop :=
  forall k arg v, m !! k = Some (arg, v) -> upper2lower <$> arg = sub k.

Definition same_entries (m : conf_map) (M : gmap entry_key cstr) : Prop :=
  forall a b c v, M !! (a, b, c) = Some v <-> exists arg, m !! (a, c) = Some (arg, v) /\ upper2lower <$> arg = b.

Lemma view_same_entries s : wf s -> same_entries (abs s) (view s).
Proof.
  intros Hwf a b c v. unfold view. rewrite <- elem_of_list_to_map.
  - setoid_rewrite (abs_lookup s _ _ Hwf). rewrite list_elem_of_fmap. unfold cb_entry, cb_key, key, entry_of. split.
    + intros (cb & E & Hin). simplify_eq. eauto 10.
    + intros (arg & (cb & Hin & E & [= <- <-]) & <-). simplify_eq. eauto.
  - rewrite <- list_fmap_compose. apply (NoDup_fmap_1 (fun k : entry_key => (k.1.1, k.2))). rewrite <- list_fmap_compose.
    exact (wf_nodup _ Hwf).
Qed.

Lemma exec_same_entries sub m M n :
  same_entries m M -> apart sub m -> set_apart sub n -> same_entries (abs_exec m n) (spec_exec M n) /\ apart sub (abs_exec m n).
Proof.
  intros Hs Hm Hn. unfold abs_exec, spec_exec, set_apart in *. destruct (ct_op n).
  - specialize (Hn eq_refl). set (k := key (ct_section n) (default [] (ct_tag n))) in *.
    assert (entry_of (ct_section n) (ct_arg n) (default [] (ct_tag n)) = (k.1, sub k, k.2)) as -> by (unfold entry_of; by rewrite Hn).
    split; [|intros k' arg v [[<- [= <- <-]]|[_ H]]%lookup_insert_Some; [done|by eapply Hm]]. intros a b c v.
    destruct (decide ((a, c) = k)) as [<-|Hne]; cbn [fst snd].
    + rewrite lookup_insert_eq. destruct (decide (b = sub (a, c))) as [->|Hb].
      * rewrite lookup_insert_eq. split; [intros [= <-]; eauto|by intros (arg & [= <- <-] & _)].
      * rewrite lookup_insert_ne by congruence. rewrite (Hs a b c v). split; [|intros (arg & [= <- <-] & Hb'); congruence].
        intros (arg & H & Hb'). apply Hm in H. congruence.
    + rewrite !lookup_insert_ne; [apply Hs|congruence|]. intros [= Ea _ Ec]. apply Hne. rewrite <- Ea, <- Ec. symmetry. apply surjective_pairing.
  - split; [|intros k arg v [_ H]%lookup_delete_Some; by eapply Hm]. intros a b c v. rewrite map_lookup_filter_Some, (Hs a b c v).
    setoid_rewrite lookup_delete_Some. cbn [fst snd]. split; [intros [(arg & ? & ?) ?]; eauto|intros (arg & [? ?] & ?)]. eauto.
  - split; [|intros k arg v [H _]%map_lookup_filter_Some; by eapply Hm]. intros a b c v. rewrite map_lookup_filter_Some, (Hs a b c v).
    setoid_rewrite map_lookup_filter_Some. cbn [fst snd]. split; [intros [(arg & ? & ?) ?]; eauto|intros (arg & [? ?] & ?)]. eauto.
Qed.

Lemma exec_all_same_entries sub q m M :
  same_entries m M -> apart sub m -> Forall (set_apart sub) q -> same_entries (foldl abs_exec m q) (foldl spec_exec M q).
Proof.
  revert m M. induction q as [|n q IH]; intros m M Hs Hm; [done|]. intros [Hn Hq]%Forall_cons. cbn [foldl].
  destruct (exec_same_entries sub m M n Hs Hm Hn). by apply IH.
Qed.

Lemma same_entries_eq m M M' : same_entries m M -> same_entries m M' -> M = M'.
Proof. intros H H'. apply map_eq. intros [[a b] c]. apply option_eq. intros v. by rewrite (H a b c v), (H' a b c v). Qed.

Lemma view_get_entry s section arg tag : wf s -> conf_get_entry s section arg tag = view s !! entry_of section arg tag.
Proof.
  intros Hwf. rewrite conf_get_entry_refines by done. apply option_eq. intros v. unfold entry_of.
  rewrite (view_same_entries s Hwf _ _ _ v). unfold key. destruct (abs s !! _) as [[a v']|]; [|by split; [|intros (? & ? & _)]].
  assert (arg_matches arg a = true <-> upper2lower <$> a = upper2lower <$> arg) as Ha.
  { destruct arg as [arg|], a as [a|]; cbn; try done. rewrite strcaseeq_lower. split; congruence. }
  destruct (arg_matches arg a); split; try done.
  - intros [= <-]. exists a. split; [done|]. by apply Ha.
  - by intros (? & [= <- <-] & _).
  - intros (? & [= <- <-] & H). by apply Ha in H.
Qed.

(** C26. Committing a transaction executes its queued operations, in their order, on
    the map from section, sub-section and tag to a value that lookups read
    ([conf_get_entry] is lookup in that map): setting is insertion, removing is
    deletion, removing a section drops its keys.  It keeps the hash chains well
    formed and leaves the operations of other transactions queued; aborting
    changes no binding.  This is for configurations and transactions in which no
    tag is set in two sub-sections of one section, and for operations that
    override, as those of the parser do. *)
Theorem conf_end_refines getenv fuel s t (sub : conf_key -> option cstr) :
  wf s -> apart sub (abs s) -> Forall (fun n => node_ok n /\ set_apart sub n) (of_trans t (conf_trans_queue s)) ->
  (exists s', conf_end getenv fuel s t true = Some s' /\ wf s' /\
     view s' = foldl spec_exec (view s) (of_trans t (conf_trans_queue s)) /\
     (forall section arg tag, conf_get_entry s' section arg tag = view s' !! entry_of section arg tag) /\
     conf_trans_queue s' = not_of_trans t (conf_trans_queue s)) /\
  conf_end getenv fuel s t false
  = Some (Conf (conf_bindings s) (not_of_trans t (conf_trans_queue s)) (conf_seq s)).
Proof.
  intros Hwf Ha [Hok Hq]%Forall_and. unfold conf_end. split; [|apply conf_end_abort].
  destruct (conf_end_loop_refines getenv fuel t [] _ s Hwf Hok) as (s' & E & Hwf' & Habs & Hk & _).
  exists s'. split; [done|]. split; [done|]. split; [|split; [|done]].
  - apply (same_entries_eq (abs s')); [by apply view_same_entries|]. rewrite Habs.
    by eapply exec_all_same_entries; [apply view_same_entries| |].
  - intros section arg tag. by apply view_get_entry.
Qed.

Lemma conf_end_refines_witness :
  let s := conf_remove (conf_set (conf_set (conf_set conf_empty 1 $"NFSD" (Some $"A") $"Port" (Some $"2049") true false)
             1 $"nfsd" (Some $"b") $"threads" (Some $"8") true false) 1 $"nfsd" None $"host" (Some $"a") true false) 1 $"nfsd" $"host" in
  exists s', conf_end (fun _ => None) 1 s 1 true = Some s' /\ wf s' /\
    conf_get_entry s' $"nfsd" (Some $"a") $"port" = Some $"2049" /\ conf_get_entry s' $"nfsd" (Some $"b") $"port" = None /\
    conf_get_entry s' $"nfsd" (Some $"b") $"threads" = Some $"8" /\ conf_get_entry s' $"nfsd" None $"host" = None.
Proof.
  intros s.
  destruct (conf_end_refines (fun _ => None) 1 s 1
    (fun k => if decide (k = key $"nfsd" $"port") then Some $"a" else if decide (k = key $"nfsd" $"threads") then Some $"b" else None))
    as [(s' & E & Hwf & Hv & Hg & _) _].
  - apply wf_no_bindings.
  - intros k arg v. assert (abs s = ∅) as -> by apply abs_no_bindings. by rewrite lookup_empty.
  - repeat (constructor; [split; [cbn; unfold is_Some; naive_solver|intros E; vm_compute in E |- *; done]|]). constructor.
  - exists s'. split; [exact E|]. split; [exact Hwf|]. rewrite !Hg, Hv. vm_compute. auto.
Defined.

(** On well-formed chains [conf_get_entry] is lookup in the abstract
    configuration by section and tag in any case, restricted to the asked-for
    sub-section. *)
Theorem conf_get_entry_lookup s section arg tag section' tag' :
  wf s -> strcaseeq section section' = true -> strcaseeq tag tag' = true ->
  conf_get_entry s section arg tag = conf_get_entry s section' arg tag' /\
  conf_get_entry s section arg tag =
    match abs s !! key section tag with
    | Some (a, v) => if arg_matches arg a then Some v else None
    | None => None
    end.
Proof.
  intros Hwf Hs Ht. rewrite !conf_get_entry_refines by done. split; [|done].
  apply strcaseeq_lower in Hs, Ht. unfold key. by rewrite Hs, Ht.
Qed.

Lemma conf_get_entry_lookup_witness :
  conf_get_entry sample_conf $"Environment" None $"A" = conf_get_entry sample_conf $"environment" None $"a".
Proof. apply conf_get_entry_lookup; [exact sample_conf_wf|reflexivity|reflexivity]. Defined.

(** Sub-sections share their tags: setting a tag in one sub-section deletes
    the same tag of every other sub-section of that section, because
    [conf_remove_now] does not compare the sub-section. *)
Theorem conf_set_now_clobbers getenv fuel s section a b tag v value d :
  wf s -> conf_get_entry s section a tag = Some v -> arg_matches a b = false ->
  exists s', conf_set_now getenv fuel s section b tag value true d = Some (s', 0) /\
    conf_get_entry s' section b tag = Some value /\ conf_get_entry s' section a tag = None.
Proof.
  intros Hwf _ Hab.
  destruct (conf_set_now_refines getenv fuel s section b tag value d Hwf) as (s' & E & Hwf' & Ha).
  exists s'. split; [done|]. rewrite !conf_get_entry_refines by done. rewrite Ha, lookup_insert_eq, Hab.
  split; [|done]. destruct b; cbn; [by rewrite strcaseeq_refl|done].
Qed.

Lemma conf_set_now_clobbers_witness :
  conf_get_entry sample_conf $"environment" None $"a" = Some $"$a" /\
  exists s', conf_set_now (fun _ => None) 1 sample_conf $"environment" (Some $"x") $"a" $"1" true false = Some (s', 0) /\
    conf_get_entry s' $"environment" (Some $"x") $"a" = Some $"1" /\ conf_get_entry s' $"environment" None $"a" = None.
Proof.
  split; [reflexivity|]. apply (conf_set_now_clobbers _ _ _ _ None (Some $"x") _ $"$a"); [exact sample_conf_wf|reflexivity|reflexivity].
Defined.

(** The lookup returns [r] once it may retry [n - 1] times; [r] is a variable of
    the environment, no value, or a value that is not itself a reference. *)
Definition settles (getenv : cstr -> option cstr) (s : conf) (section : cstr) (arg : option cstr)
    (tag : cstr) (n : nat) (r : option cstr) : Prop :=
  (forall fuel, (n <= fuel)%nat -> conf_get_section getenv fuel s section arg tag = Some r) /\
  (r = None \/ (exists x, r = Some x /\ is_ref x = false) \/ (exists name, r = getenv name)).

Lemma settles_step getenv s section arg tag n :
  (forall v, conf_get_entry s section arg tag = Some v -> is_ref v = true ->
     exists r, settles getenv s $"environment" arg (drop 1 v) n r) ->
  exists r, settles getenv s section arg tag (S n) r.
Proof.
  intros Hrec.
  assert (forall r, (forall fuel, (n <= fuel)%nat -> conf_get_section getenv (S fuel) s section arg tag = Some r) ->
    (r = None \/ (exists x, r = Some x /\ is_ref x = false) \/ (exists name, r = getenv name)) ->
    exists r, settles getenv s section arg tag (S n) r) as Hdone.
  { intros r Hr Hs. exists r. split; [|done]. intros [|fuel] Hf; [lia|]. apply Hr. lia. }
  destruct (conf_get_entry s section arg tag) as [v|] eqn:Ev.
  2: { apply (Hdone None); [|by left]. intros. by rewrite conf_get_section_step, Ev. }
  destruct (is_ref v) eqn:Er.
  2: { apply (Hdone (Some v)); [|right; left; eauto]. intros. by rewrite conf_get_section_step, Ev, Er. }
  destruct (Hrec v eq_refl Er) as (r & Hr & Hs). destruct (getenv (drop 1 v)) as [[|e es]|] eqn:Eg.
  2: { apply (Hdone (Some (e :: es))); [|right; right; by exists (drop 1 v)].
       intros. by rewrite conf_get_section_step, Ev, Er, Eg. }
  all: apply (Hdone r); [|done]; intros; rewrite conf_get_section_step, Ev, Er, Eg; by apply Hr.
Qed.

(** Lookup with [$name] expansion returns whenever the references among the
    [environment] entries are not circular ([rank] decreases along each of
    them): it needs one retry per reference. *)
Theorem conf_get_section_terminates getenv s arg (rank : cstr -> nat) section tag v :
  (forall name w, conf_get_entry s $"environment" arg name = Some w -> is_ref w = true ->
     (rank (drop 1 w) < rank name)%nat) ->
  conf_get_entry s section arg tag = Some v ->
  exists r, settles getenv s section arg tag (S (S (rank (drop 1 v)))) r.
Proof.
  intros Hrank Hv.
  assert (forall n name, (rank name <= n)%nat ->
    exists r, settles getenv s $"environment" arg name (S n) r) as Henv.
  { induction n as [|n IH]; intros name Hn; apply settles_step; intros w Hw Hr;
      specialize (Hrank name w Hw Hr); [lia|]. apply IH. lia. }
  apply settles_step. intros w Hw _. simplify_eq. by apply Henv.
Qed.

Definition two_refs : conf :=
  match conf_set_now (fun _ => None) 1 conf_empty $"environment" None $"a" $"$b" true false with
  | Some (s, _) => match conf_set_now (fun _ => None) 1 s $"x" None $"t" $"$a" true false with
                   | Some (s, _) => s | None => s end
  | None => conf_empty
  end.

Lemma conf_get_section_terminates_witness :
  conf_get_entry two_refs $"x" None $"t" = Some $"$a" /\
  exists r, settles (fun _ => None) two_refs $"x" None $"t" 3 r.
Proof.
  split; [reflexivity|].
  apply (conf_get_section_terminates _ _ _ (fun n => if strcaseeq n $"a" then 1 else 0)%nat _ _ $"$a"); [|reflexivity].
  intros name w. unfold conf_get_entry, chain. change (conf_bindings two_refs !! index $"environment")
    with (Some [Binding $"environment" None $"a" $"$b" false]). unfold default, id. cbn [List.find].
  unfold binding_matches. cbn [cb_section cb_arg cb_tag arg_matches].
  change (strcaseeq $"environment" $"environment") with true. cbn [andb].
  destruct (strcaseeq name $"a") eqn:E; [|done]. intros [= <-] _. vm_compute. lia.
Defined.

(** A reference that the process environment does not resolve. *)
Lemma conf_get_section_ref getenv fuel s section arg tag name :
  conf_get_entry s section arg tag = Some ("$"%char :: name) -> default [] (getenv name) = [] ->
  conf_get_section getenv (S fuel) s section arg tag
  = conf_get_section getenv fuel s $"environment" arg name.
Proof.
  intros He Hg. rewrite conf_get_section_step, He. change (drop 1 ("$"%char :: name)) with name.
  change (is_ref ("$"%char :: name)) with true. cbv iota. by destruct (getenv name) as [[|]|].
Qed.

(** A value that refers to itself in the [environment] section makes the
    lookup retry for ever: no amount of fuel gives a result. *)
Theorem conf_get_section_diverges getenv s arg name :
  conf_get_entry s $"environment" arg name = Some ("$"%char :: name) ->
  default [] (getenv name) = [] ->
  forall fuel, conf_get_section getenv fuel s $"environment" arg name = None.
Proof.
  intros He Hg. induction fuel as [|fuel IH]; [done|].
  by rewrite (conf_get_section_ref _ _ _ _ _ _ name).
Qed.

Lemma conf_get_section_diverges_witness :
  conf_get_section (fun _ => None) 100 sample_conf $"environment" None $"a" = None.
Proof. apply conf_get_section_diverges; reflexivity. Defined.

(** With a sub-section the expansion does not look in the [environment]
    section: an unresolved reference in [section "arg"] yields no value unless
    there is an [environment "arg"] section. *)
Theorem conf_get_section_env_arg getenv fuel s section a tag name v :
  wf s ->
  conf_get_entry s section (Some a) tag = Some ("$"%char :: name) ->
  default [] (getenv name) = [] ->
  abs s !! key $"environment" name = Some (None, v) ->
  conf_get_section getenv (S (S fuel)) s section (Some a) tag = Some None.
Proof.
  intros Hwf He Hg Hn. rewrite (conf_get_section_ref _ _ _ _ _ _ name He Hg).
  by rewrite conf_get_section_step, conf_get_entry_refines, Hn by done.
Qed.

Definition env_arg_conf : conf :=
  match conf_set_now (fun _ => None) 1 conf_empty $"environment" None $"b" $"1" true false with
  | Some (s, _) => match conf_set_now (fun _ => None) 1 s $"x" (Some $"y") $"t" $"$b" true false with
                   | Some (s, _) => s | None => s end
  | None => conf_empty
  end.

Lemma conf_get_section_env_arg_witness :
  conf_get_section (fun _ => None) 2 env_arg_conf $"x" (Some $"y") $"t" = Some None /\
  conf_get_str (fun _ => None) 1 env_arg_conf $"environment" $"b" = Some (Some $"1").
Proof.
  split; [|reflexivity].
  apply (conf_get_section_env_arg (fun _ => None) 0 env_arg_conf $"x" $"y" $"t" $"b" $"1"); [|reflexivity..].
  destruct (conf_set_now_refines (fun _ => None) 1 conf_empty $"environment" None $"b" $"1" false wf_empty)
    as (s1 & E1 & Hwf1 & _).
  destruct (conf_set_now_refines (fun _ => None) 1 s1 $"x" (Some $"y") $"t" $"$b" false Hwf1)
    as (s2 & E2 & Hwf2 & _).
  unfold env_arg_conf. by rewrite E1, E2.
Defined.

(** ** Lists of values *)

Lemma trim_back_end field : trim_back (length field) (field ++ [NUL]) = field ++ [NUL].
Proof.
  destruct (length field) as [|n] eqn:E; [done|]. cbn [trim_back]. rewrite <- E.
  by rewrite app_nth2, Nat.sub_diag by lia.
Qed.

Lemma span_not_nul s : no_nul s -> (span (fun c => negb (ceqb c NUL)) (s ++ [NUL])).1 = s.
Proof.
  induction 1 as [|c s Hc _ IH]; [done|]. cbn. rewrite (proj2 (ceqb_false c NUL)) by done. cbn.
  destruct (span _ _). cbn in *. by rewrite IH.
Qed.

Lemma skip_while_no_nul f s : no_nul s -> no_nul (skip_while f s).
Proof.
  intros H. destruct (skip_while_suffix f s) as [a E]. unfold no_nul in *. rewrite E, Forall_app in H. tauto.
Qed.

(** [conf_get_list] splits the value at its commas, drops leading white
    space and then empty fields, in order.  Trailing white space stays: the loop
    meant to cut it starts on the NUL that [strsep] wrote. *)
Theorem conf_get_list_fields getenv fuel s section tag v :
  conf_get_str getenv fuel s section tag = Some (Some v) -> no_nul v ->
  conf_get_list getenv fuel s section tag
  = Some (Some (filter (fun f => f <> []) (skip_while isspace <$> split_on "," v))).
Proof.
  intros Hv Hn. unfold conf_get_list. rewrite Hv. do 2 f_equal.
  assert (Forall no_nul (split_on "," v)) as Hf.
  { clear Hv. induction v as [|c v IH]; cbn; [by repeat constructor|].
    apply Forall_cons in Hn as [Hc Hn]. destruct (ceqb c ","); [constructor; [constructor|auto]|].
    specialize (IH Hn). destruct (split_on "," v); [by repeat constructor|].
    apply Forall_cons in IH as [? ?]. by repeat constructor. }
  induction Hf as [|f fs Hf Hfs IH]; [done|]. cbn [list_fields]. rewrite IH.
  assert (list_field f (match fs with [] => false | _ => true end) = skip_while isspace f) as ->.
  { unfold list_field. destruct fs; [done|]. rewrite trim_back_end, span_not_nul; [done|].
    by apply skip_while_no_nul. }
  rewrite fmap_cons, filter_cons. by destruct (skip_while isspace f).
Qed.

Definition list_conf : conf :=
  match conf_set_now (fun _ => None) 1 conf_empty $"x" None $"t" $"a , b,,c" true false with
  | Some (s, _) => s | None => conf_empty
  end.

Lemma conf_get_list_fields_witness :
  conf_get_list (fun _ => None) 1 list_conf $"x" $"t" = Some (Some [$"a "; $"b"; $"c"]).
Proof.
  rewrite (conf_get_list_fields _ _ _ _ _ $"a , b,,c"); [reflexivity|reflexivity|].
  repeat constructor; discriminate.
Defined.

(** Listing the tags of a sub-section dereferences NULL as soon as the
    section also has a binding outside any sub-section; when every binding of
    the section has a sub-section it returns the tags of the one asked for. *)
Theorem conf_get_tag_list_null s section a :
  ((exists cb, cb ∈ chain s section /\ strcaseeq section (cb_section cb) = true /\ cb_arg cb = None) ->
   conf_get_tag_list s section (Some a) = None) /\
  ((forall cb, cb ∈ chain s section -> strcaseeq section (cb_section cb) = true -> cb_arg cb <> None) ->
   conf_get_tag_list s section (Some a) =
     Some (cb_tag <$> filter (fun cb => strcaseeq section (cb_section cb) && arg_matches (Some a) (cb_arg cb) = true)
                        (chain s section))).
Proof.
  unfold conf_get_tag_list. generalize (chain s section) as l. intros l. split.
  - induction l as [|cb l IH]; [set_solver|]. intros (cb' & [->|Hin]%elem_of_cons & Hs & Ha); cbn [tag_list].
    + by rewrite Hs, Ha.
    + rewrite IH by eauto. destruct (strcaseeq section (cb_section cb)), (cb_arg cb) as [b|]; try done.
      by destruct (strcaseeq a b).
  - induction l as [|cb l IH]; [done|]. intros H. cbn [tag_list].
    specialize (IH ltac:(set_solver)). specialize (H cb ltac:(set_solver)). rewrite IH, filter_cons.
    destruct (strcaseeq section (cb_section cb)); cbn [andb]; [|by rewrite decide_False].
    destruct (cb_arg cb) as [b|]; [|by destruct H]. cbn [arg_matches].
    destruct (strcaseeq a b); [by rewrite decide_True|by rewrite decide_False].
Qed.
