(* ===== verification/Base64.v ===== *)
(** * Base 64 values (support/nfs/conffile.c, [conf_decode_base64])

    The decoder of the configuration library, against the encoder of RFC 4648.
    [*out] is the list of bytes stored, [*len] the count returned; every group
    stores three bytes, also the padded last one. *)

From S2P Require Import Prelude.

(** The decoding table, indexed by 7-bit characters. *)
Definition asc2bin : list Z :=
 [255; 255; 255; 255; 255; 255; 255; 255;
  255; 255; 255; 255; 255; 255; 255; 255;
  255; 255; 255; 255; 255; 255; 255; 255;
  255; 255; 255; 255; 255; 255; 255; 255;
  255; 255; 255; 255; 255; 255; 255; 255;
  255; 255; 255;  62; 255; 255; 255;  63;
   52;  53;  54;  55;  56;  57;  58;  59;
   60;  61; 255; 255; 255; 255; 255; 255;
  255;   0;   1;   2;   3;   4;   5;   6;
    7;   8;   9;  10;  11;  12;  13;  14;
   15;  16;  17;  18;  19;  20;  21;  22;
   23;  24;  25; 255; 255; 255; 255; 255;
  255;  26;  27;  28;  29;  30;  31;  32;
   33;  34;  35;  36;  37;  38;  39;  40;
   41;  42;  43;  44;  45;  46;  47;  48;
   49;  50;  51; 255; 255; 255; 255; 255].

(** [*buf > 127 || (c = asc2bin[*buf]) == 255] fails, and the value. *)
Definition bin (b : ascii) : option Z :=
  if uchar b >? 127 then None
  else let v := nth (Z.to_nat (uchar b)) asc2bin 255 in if v =? 255 then None else Some v.

Definition u8 (z : Z) : Z := z mod 256.

(** The three bytes of a group. *)
Definition group (c1 c2 c3 c4 : Z) : list Z :=
  [u8 (Z.lor (Z.shiftl c1 2) (Z.shiftr c2 4));
   u8 (Z.lor (Z.shiftl c2 4) (Z.shiftr c3 2));
   u8 (Z.lor (Z.shiftl c3 6) c4)].

(** [None] is the return value 0; the rest of the buffer is read a group at a
    time.  The terminator reads as a character outside the alphabet. *)
Fixpoint decode_loop (buf : cstr) (out : list Z) (c : Z) : option (list Z * Z) :=
  match buf with
  | [] => Some (out, u32 c)
  | b1 :: r1 =>
      match bin b1 with
      | None => None
      | Some c1 =>
          match r1 with
          | [] => None
          | b2 :: r2 =>
              match bin b2 with
              | None => None
              | Some c2 =>
                  match r2 with
                  | [] => None
                  | b3 :: r3 =>
                      if ceqb b3 "=" then
                        if negb (Z.land c2 15 =? 0) then None
                        else if streq r2 $"==" then Some (out ++ group c1 c2 0 0, u32 (c + 1))
                        else None
                      else
                        match bin b3 with
                        | None => None
                        | Some c3 =>
                            match r3 with
                            | [] => None
                            | b4 :: r4 =>
                                if ceqb b4 "=" then
                                  if negb (Z.land c3 3 =? 0) then None
                                  else if negb (streq r3 $"=") then None
                                  else Some (out ++ group c1 c2 c3 0, u32 (c + 2))
                                else
                                  match bin b4 with
                                  | None => None
                                  | Some c4 => decode_loop r4 (out ++ group c1 c2 c3 c4) (c + 3)
                                  end
                            end
                        end
                  end
              end
          end
      end
  end.

Definition conf_decode_base64 (buf : cstr) : option (list Z * Z) := decode_loop buf [] 0.

(** ** The encoding of RFC 4648 *)

Definition alphabet : cstr := $"ABCDEFGHIJKLMNOPQRSTUVWXYZabcdefghijklmnopqrstuvwxyz0123456789+/".
Definition letter (v : Z) : ascii := nth (Z.to_nat v) alphabet NUL.

Fixpoint encode (l : list Z) : cstr :=
  match l with
  | [] => []
  | [a] => [letter (a / 4); letter (a mod 4 * 16); "="%char; "="%char]
  | [a; b] => [letter (a / 4); letter (a mod 4 * 16 + b / 16); letter (b mod 16 * 4); "="%char]
  | a :: b :: c :: l =>
      letter (a / 4) :: letter (a mod 4 * 16 + b / 16) :: letter (b mod 16 * 4 + c / 64)
      :: letter (c mod 64) :: encode l
  end.

(** The zero bytes stored behind a padded last group. *)
Definition padding (l : list Z) : list Z :=
  match (length l mod 3)%nat with 1%nat => [0; 0] | 2%nat => [0] | _ => [] end.

Definition bytes (l : list Z) : Prop := Forall (fun z => 0 <= z < 256) l.

(** ** Six-bit values, by computation *)

(** A property of the numbers below [n]. *)
Lemma below (n : nat) (P : Z -> bool) :
  forallb (fun k => P (Z.of_nat k)) (seq 0 n) = true -> forall z, 0 <= z < Z.of_nat n -> P z = true.
Proof.
  rewrite forallb_forall. intros H z Hz. rewrite <- (Z2Nat.id z) by lia. apply H, in_seq. lia.
Qed.

Lemma bin_letter v : 0 <= v < 64 -> bin (letter v) = Some v.
Proof.
  intros H.
  assert (match bin (letter v) with Some w => w =? v | None => false end = true) as E.
  { apply (below 64 (fun v => match bin (letter v) with Some w => w =? v | None => false end));
      [by vm_compute|done]. }
  destruct (bin (letter v)); [|done]. btrue. congruence.
Qed.

Lemma letter_not_pad v : 0 <= v < 64 -> ceqb (letter v) "=" = false.
Proof.
  intros H. apply negb_true_iff.
  apply (below 64 (fun v => negb (ceqb (letter v) "="))); [by vm_compute|done].
Qed.

Lemma bin_Some b v : bin b = Some v -> 0 <= v < 64 /\ b = letter v.
Proof.
  intros H.
  assert (match bin b with Some v => (0 <=? v) && (v <? 64) && ceqb b (letter v) | None => true end = true) as E.
  { clear H. all_chars b; by vm_compute. }
  rewrite H in E. btrue. split; [lia|done].
Qed.

(** Groups of four letters and of three bytes correspond. *)
Lemma lor_disjoint a b k : 0 <= b < 2 ^ k -> 0 <= k -> Z.lor (a * 2 ^ k) b = a * 2 ^ k + b.
Proof.
  intros Hb Hk. destruct (Z.eq_dec b 0) as [->|Hb0]; [by rewrite Z.lor_0_r, Z.add_0_r|].
  rewrite <- Z.shiftl_mul_pow2 by done.
  assert (Z.land (Z.shiftl a k) b = 0) as Hd.
  { apply Z.bits_inj'. intros i Hi. rewrite Z.land_spec, Z.bits_0, Z.shiftl_spec by done.
    destruct (Z.ltb_spec i k); [by rewrite Z.testbit_neg_r by lia|].
    rewrite (Z.bits_above_log2 b), andb_false_r; [done|lia|].
    apply Z.lt_le_trans with k; [|done]. apply Z.log2_lt_pow2; lia. }
  by rewrite Z.add_nocarry_lxor, Z.lxor_lor.
Qed.

Lemma group_arith c1 c2 c3 c4 :
  0 <= c1 < 64 -> 0 <= c2 < 64 -> 0 <= c3 < 64 -> 0 <= c4 < 64 ->
  group c1 c2 c3 c4 = [c1 * 4 + c2 / 16; c2 mod 16 * 16 + c3 / 4; c3 mod 4 * 64 + c4].
Proof.
  intros H1 H2 H3 H4. unfold group, u8. rewrite !Z.shiftl_mul_pow2, !Z.shiftr_div_pow2 by lia.
  pose proof (Z.div_lt_upper_bound c2 16 4 ltac:(lia) ltac:(lia)).
  pose proof (Z.div_lt_upper_bound c3 4 16 ltac:(lia) ltac:(lia)).
  pose proof (Z.div_pos c2 16 ltac:(lia) ltac:(lia)). pose proof (Z.div_pos c3 4 ltac:(lia) ltac:(lia)).
  change (c2 / 2 ^ 4) with (c2 / 16). change (c3 / 2 ^ 2) with (c3 / 4).
  rewrite (lor_disjoint c1), (lor_disjoint c2), (lor_disjoint c3) by lia.
  change (2 ^ 2) with 4. change (2 ^ 4) with 16. change (2 ^ 6) with 64.
  repeat f_equal.
  - apply Z.mod_small. lia.
  - pose proof (Z.div_mod c2 16 ltac:(lia)). pose proof (Z.mod_pos_bound c2 16 ltac:(lia)).
    symmetry. apply Z.mod_unique with (c2 / 16); lia.
  - pose proof (Z.div_mod c3 4 ltac:(lia)). pose proof (Z.mod_pos_bound c3 4 ltac:(lia)).
    symmetry. apply Z.mod_unique with (c3 / 4); lia.
Qed.

(** ** Decoding one group *)

Ltac sextets := repeat
  match goal with
  | |- context [bin (letter ?v)] => rewrite (bin_letter v) by (Z.to_euclidean_division_equations; lia)
  | |- context [ceqb (letter ?v) "="] => rewrite (letter_not_pad v) by (Z.to_euclidean_division_equations; lia)
  end.

Lemma land_mod z k : 0 <= k -> Z.land z (Z.ones k) = z mod 2 ^ k.
Proof. apply Z.land_ones. Qed.

Lemma bytes_cons a l : bytes (a :: l) <-> 0 <= a < 256 /\ bytes l.
Proof. unfold bytes. by rewrite Forall_cons. Qed.

Lemma list_ind3 {A} (P : list A -> Prop) :
  P [] -> (forall a, P [a]) -> (forall a b, P [a; b]) ->
  (forall a b c l, P l -> P (a :: b :: c :: l)) -> forall l, P l.
Proof.
  intros H0 H1 H2 H3. fix IH 1. intros [|a [|b [|c l]]]; [done|auto|auto|]. apply H3, IH.
Qed.

Lemma decode_encode l out c :
  bytes l -> decode_loop (encode l) out c = Some (out ++ l ++ padding l, u32 (c + Z.of_nat (length l))).
Proof.
  revert out c. induction l as [| a | a b | a b x l IH] using list_ind3; intros out c Hl;
    repeat rewrite bytes_cons in Hl.
  - cbn. by rewrite app_nil_r, Z.add_0_r.
  - cbn [encode decode_loop]. sextets. change (ceqb "=" "=") with true. cbv iota.
    change 15 with (Z.ones 4). rewrite land_mod, Z.mod_mul by lia. cbn [Z.eqb negb].
    rewrite streq_refl. rewrite group_arith by (Z.to_euclidean_division_equations; lia).
    f_equal. apply (f_equal2 pair); [|done]. cbn.
    repeat f_equal; Z.to_euclidean_division_equations; lia.
  - cbn [encode decode_loop]. sextets. change (ceqb "=" "=") with true. cbv iota.
    change 3 with (Z.ones 2) at 1. rewrite land_mod, Z.mod_mul by lia. cbn [Z.eqb negb].
    rewrite streq_refl. cbn [negb]. rewrite group_arith by (Z.to_euclidean_division_equations; lia).
    f_equal. apply (f_equal2 pair); [|done]. cbn.
    repeat f_equal; Z.to_euclidean_division_equations; lia.
  - cbn [encode decode_loop]. sextets.
    rewrite IH by tauto. rewrite group_arith by (Z.to_euclidean_division_equations; lia).
    assert (padding (a :: b :: x :: l) = padding l) as ->.
    { unfold padding. cbn [length]. replace (S (S (S (length l)))) with (length l + 1 * 3)%nat by lia.
      by rewrite Nat.Div0.mod_add. }
    f_equal. apply (f_equal2 pair).
    + rewrite <- app_assoc. cbn. repeat f_equal; Z.to_euclidean_division_equations; lia.
    + cbn [length]. f_equal. lia.
Qed.

(** Only encodings decode: the unused bits of a padded group are checked. *)
Lemma decode_canonical buf out c r :
  decode_loop buf out c = Some r -> exists l, bytes l /\ buf = encode l.
Proof.
  remember (length buf) as n eqn:Hn. revert buf out c Hn.
  induction n as [n IH] using lt_wf_ind. intros buf out c Hn H.
  destruct buf as [|b1 r1]; [by exists []; repeat constructor|]. cbn [decode_loop] in H.
  destruct (bin b1) as [c1|] eqn:E1; [|done]. apply bin_Some in E1 as [? ->].
  destruct r1 as [|b2 r2]; [done|]. destruct (bin b2) as [c2|] eqn:E2; [|done]. apply bin_Some in E2 as [? ->].
  destruct r2 as [|b3 r3]; [done|]. destruct (ceqb b3 "=").
  { change 15 with (Z.ones 4) in H. rewrite land_mod in H by lia. change (2 ^ 4) with 16 in H.
    destruct (c2 mod 16 =? 0) eqn:Em; [|done]. cbn [negb] in H.
    destruct (streq _ _) eqn:Es in H; [|done]. btrue. cbn in Es. simplify_eq.
    exists [c1 * 4 + c2 / 16]. split; [repeat constructor; Z.to_euclidean_division_equations; lia|].
    cbn [encode]. repeat f_equal; Z.to_euclidean_division_equations; lia. }
  destruct (bin b3) as [c3|] eqn:E3; [|done]. apply bin_Some in E3 as [? ->].
  destruct r3 as [|b4 r4]; [done|]. destruct (ceqb b4 "=").
  { change 3 with (Z.ones 2) in H. rewrite land_mod in H by lia. change (2 ^ 2) with 4 in H.
    destruct (c3 mod 4 =? 0) eqn:Em; [|done]. cbn [negb] in H.
    destruct (streq _ _) eqn:Es in H; [|done]. btrue. cbn in Es. simplify_eq.
    exists [c1 * 4 + c2 / 16; c2 mod 16 * 16 + c3 / 4].
    split; [repeat constructor; Z.to_euclidean_division_equations; lia|].
    cbn [encode]. repeat f_equal; Z.to_euclidean_division_equations; lia. }
  destruct (bin b4) as [c4|] eqn:E4; [|done]. apply bin_Some in E4 as [? ->].
  cbn in Hn. destruct (IH (length r4) ltac:(lia) r4 _ _ eq_refl H) as (l & Hl & ->).
  exists (c1 * 4 + c2 / 16 :: c2 mod 16 * 16 + c3 / 4 :: c3 mod 4 * 64 + c4 :: l).
  split; [repeat constructor; try done; Z.to_euclidean_division_equations; lia|].
  cbn [encode]. repeat f_equal; Z.to_euclidean_division_equations; lia.
Qed.

(** [conf_decode_base64] inverts base 64: it accepts exactly the canonical
    encodings, and on the encoding of [l] it stores [l] (followed by the zero
    bytes of a padded group) and returns its length. *)
Theorem conf_decode_base64_correct buf :
  match conf_decode_base64 buf with
  | Some (out, len) => exists l, bytes l /\ buf = encode l /\ out = l ++ padding l /\ len = u32 (Z.of_nat (length l))
  | None => ~ exists l, bytes l /\ buf = encode l
  end.
Proof.
  unfold conf_decode_base64. destruct (decode_loop buf [] 0) as [[out len]|] eqn:E.
  - destruct (decode_canonical _ _ _ _ E) as (l & Hl & ->). rewrite decode_encode in E by done.
    simplify_eq. by exists l.
  - intros (l & Hl & ->). by rewrite decode_encode in E.
Qed.
