(* ===== verification/ConfParse.v ===== *)
(** * Reading and dumping configuration files (support/nfs/conffile.c)

    The line parser, the loaders and the dump of the running configuration.
    Files and directories are arguments: [readfile] is [conf_readfile] (the text
    of a file up to its first NUL), [scandir] lists a directory in version
    order.  An [include] line parses another file, so [conf_parse] takes fuel
    for the include depth.  Log messages are not modelled. *)

From Stdlib Require Import Sorted.
From S2P Require Import Prelude ConfDb.

(** ** Cutting strings *)

(** Overwrite with NULs from the end while [f] holds: down to the first
    character ([ptr >= line]), or sparing it ([ptr > line]). *)
Definition rtrim (f : ascii -> bool) (s : cstr) : cstr := reverse (skip_while f (reverse s)).
Definition rtrim1 (f : ascii -> bool) (s : cstr) : cstr :=
  match s with [] => [] | c :: s' => c :: rtrim f s' end.

(** [if ((ptr = strchr(s, c)) != NULL) ] cut there. *)
Definition cut (c : ascii) (s : cstr) : cstr :=
  match strchr c s with Some (a, _) => a | None => s end.

Definition is_slash (c : ascii) : bool := ceqb c "/".

(** The part before the last slash. *)
Definition before_last_slash (s : cstr) : option cstr :=
  match skip_while (fun c => negb (is_slash c)) (reverse s) with
  | [] => None
  | _ :: r => Some (reverse r)
  end.

(** POSIX [dirname]. *)
Definition dirname (s : cstr) : cstr :=
  match rtrim is_slash s with
  | [] => match s with [] => $"." | _ => $"/" end
  | t => match before_last_slash t with
         | None => $"."
         | Some p => match rtrim is_slash p with [] => $"/" | d => d end
         end
  end.

Definition relative_path (oldfile newfile : cstr) : cstr :=
  if ceqb (deref newfile) "/" then newfile else dirname oldfile ++ $"/" ++ newfile.

(** ** Lines *)

(** A section header after its opening bracket: the section and sub-section
    that hold afterwards. *)
Definition section_header (line : cstr) : option cstr * option cstr :=
  let line := skip_while isblank line in
  match strchr "]" line with
  | None => (None, None)
  | Some (name, _) =>
      let name := rtrim isblank name in
      match strchr DQUOTE name with
      | None => (Some name, None)
      | Some (sec, val) =>
          (Some (rtrim1 isblank sec), match strchr DQUOTE val with Some (sub, _) => Some sub | None => None end)
      end
  end.

(** The value after the equals sign; [None]: unmatched quotes. *)
Definition parse_value (val : cstr) : option cstr :=
  let val := skip_while isblank val in
  if ceqb (deref val) DQUOTE then fst <$> strchr DQUOTE (drop 1 val)
  else if ceqb (deref val) SQUOTE then fst <$> strchr SQUOTE (drop 1 val)
  else Some (rtrim1 isspace (cut ";" (cut "#" val))).

(** The state of a parse: the database and the current (sub-)section. *)
Record pstate := PState { ps_conf : conf; ps_section : option cstr; ps_subsection : option cstr }.

Section parser.
  Context (readfile : cstr -> option cstr) (trans : Z).

Section line.
  (** [conf_parse] on an included file: its text, section and name. *)
  Context (parse_include : conf -> cstr -> option cstr -> option cstr -> cstr -> option conf).

Definition conf_include (filename : cstr) (st : pstate) (val : cstr) : option pstate :=
  let val := if ceqb (deref val) "-" then drop 1 val else val in
  let relpath := relative_path filename val in
  match readfile relpath with
  | None => Some st
  | Some subconf =>
      match parse_include (ps_conf st) subconf (ps_section st) (ps_subsection st) relpath with
      | Some c => Some (PState c (ps_section st) (ps_subsection st))
      | None => None
      end
  end.

Definition conf_parse_line (filename : cstr) (st : pstate) (line : cstr) : option pstate :=
  let line := skip_while isspace line in
  match line with
  | [] => Some st
  | c :: line' =>
      if ceqb c "#" || ceqb c ";" then Some st
      else if ceqb c "[" then
        let '(section, subsection) := section_header line' in
        Some (PState (ps_conf st) section subsection)
      else
        match strchr "=" line with
        | None => Some st
        | Some (tag, val) =>
            match ps_section st with
            | None => Some st
            | Some section =>
                let tag := rtrim isblank tag in
                match parse_value val with
                | None => Some st
                | Some val =>
                    match tag with
                    | [] => Some st
                    | _ =>
                        if strcaseeq tag $"include" then conf_include filename st val
                        else Some (PState (conf_set (ps_conf st) trans section (ps_subsection st) tag (Some val) true false)
                                     (ps_section st) (ps_subsection st))
                    end
                end
            end
        end
  end.

(** The scan of the buffer: [line] is the current line so far, reversed; a
    newline behind a backslash joins two lines with blanks. *)
Fixpoint conf_parse_loop (filename : cstr) (buf line : cstr) (st : pstate) : option pstate :=
  match buf with
  | [] => Some st
  | c :: buf =>
      if ceqb c NL then
        match line with
        | b :: line' =>
            if ceqb b BSLASH then conf_parse_loop filename buf (SP :: SP :: line') st
            else match conf_parse_line filename st (reverse line) with
                 | Some st => conf_parse_loop filename buf [] st
                 | None => None
                 end
        | [] => match conf_parse_line filename st (reverse line) with
                | Some st => conf_parse_loop filename buf [] st
                | None => None
                end
        end
      else conf_parse_loop filename buf (c :: line) st
  end.

End line.

(** [None]: the include depth exceeds the fuel. *)
Fixpoint conf_parse (depth : nat) (c : conf) (buf : cstr) (section subsection : option cstr)
    (filename : cstr) : option conf :=
  match depth with
  | O => None
  | S depth =>
      match conf_parse_loop (conf_parse depth) filename buf [] (PState c section subsection) with
      | Some st => Some (ps_conf st)
      | None => None
      end
  end.

End parser.

(** ** Loading *)

Section load.
  Context (readfile : cstr -> option cstr) (getenv : cstr -> option cstr) (fuel : nat).

(** The new state and the return value. *)
Definition conf_load_files (s : conf) (trans : Z) (conf_file : cstr) : option (conf * Z) :=
  match readfile conf_file with
  | None => Some (s, 1)
  | Some data =>
      match conf_parse readfile trans fuel s data None None conf_file with
      | Some s => Some (s, 0)
      | None => None
      end
  end.

Definition conf_load_file (s : conf) (conf_file : cstr) : option (conf * Z) :=
  let '(s, trans) := conf_begin s in
  match readfile conf_file with
  | None => Some (s, 1)
  | Some data =>
      match conf_parse readfile trans fuel s data None None conf_file with
      | None => None
      | Some s =>
          let s := conf_free_bindings s in
          match conf_end getenv fuel s trans true with
          | Some s => Some (s, 0)
          | None => None
          end
      end
  end.

Inductive d_type := DT_UNKNOWN | DT_REG | DT_LNK | DT_other.
Definition PATH_MAX : Z := 4096.
Definition CONF_FILE_EXT : cstr := $".conf".

(** Whether a directory entry is read: a file that is not hidden and whose name
    ends in [.conf]. *)
Definition dir_entry_ok (dname : cstr) (d : d_type * cstr) : bool :=
  let '(t, name) := d in
  let path_len := Z.of_nat (length name + length dname) in
  match t with DT_other => false | _ => true end
  && negb (ceqb (deref name) ".")
  && negb ((Z.of_nat (length name) =? 0) || (path_len >? PATH_MAX))
  && negb (length name <=? length CONF_FILE_EXT)%nat
  && streq (drop (length name - length CONF_FILE_EXT) name) CONF_FILE_EXT.

(** The loop over the directory: the state and the number of files read. *)
Fixpoint load_dir (s : conf) (trans : Z) (dname : cstr) (l : list (d_type * cstr)) (nfiles : Z)
  : option (conf * Z) :=
  match l with
  | [] => Some (s, nfiles)
  | d :: l =>
      if dir_entry_ok dname d then
        let fname := take (Z.to_nat (PATH_MAX - 1)) (dname ++ $"/" ++ d.2) in
        match conf_load_files s trans fname with
        | None => None
        | Some (s, r) => load_dir s trans dname l (if r =? 0 then nfiles + 1 else nfiles)
        end
      else load_dir s trans dname l nfiles
  end.

Context (scandir : cstr -> option (list (d_type * cstr))).

Definition conf_init_dir (s : conf) (conf_file : cstr) : option conf :=
  let dname := conf_file ++ $".d" in
  match scandir dname with
  | None | Some [] => Some s
  | Some l =>
      let '(s, trans) := conf_begin s in
      match load_dir s trans dname l 0 with
      | None => None
      | Some (s, nfiles) => if negb (nfiles =? 0) then conf_end getenv fuel s trans true else Some s
      end
  end.

Definition NFS_CONFFILE : cstr := $"/etc/nfs.conf".

Definition conf_init_file (s : conf) (conf_file : option cstr) : option (conf * Z) :=
  let s := Conf (replicate 256 []) [] (conf_seq s) in
  let conf_file := default NFS_CONFFILE conf_file in
  match conf_load_file s conf_file with
  | None => None
  | Some (s, ret) =>
      match conf_init_dir s conf_file with
      | None => None
      | Some s => Some (s, ret)
      end
  end.

End load.

(** ** Dumping the running configuration *)

(** [struct dumper]; every pointer of a binding's node is set except [arg]. *)
Record dumper := Dumper { du_section : cstr; du_arg : option cstr; du_tag : cstr; du_value : cstr }.

(** [None] is a NULL node. *)
Definition dumper_section_compare (a b : option dumper) : Z :=
  match a, b with
  | Some a, Some b =>
      let ret := strcmp (du_section a) (du_section b) in
      if negb (ret =? 0) then ret
      else match du_arg a, du_arg b with
           | None, Some _ => -1
           | Some _, None => 1
           | Some x, Some y => strcmp x y
           | None, None => 0
           end
  | _, _ => -1
  end.

Definition dumper_compare (a b : dumper) : Z :=
  let ret := dumper_section_compare (Some a) (Some b) in
  if negb (ret =? 0) then ret else strcmp (du_tag a) (du_tag b).

(** The first or the last character is a space; values are not empty. *)
Definition should_escape (text : cstr) : bool :=
  isspace (deref text) || isspace (at_index text (length text - 1)).

(** The lines printed for one node, behind the node [prev]. *)
Definition dump_header (prev : option dumper) (first : bool) (node : dumper) : cstr :=
  if negb (dumper_section_compare prev (Some node) =? 0) then
    (if first then [] else [NL]) ++
    match du_arg node with
    | Some arg => $"[" ++ du_section node ++ [SP; DQUOTE] ++ arg ++ [DQUOTE] ++ $"]" ++ [NL]
    | None => $"[" ++ du_section node ++ $"]" ++ [NL]
    end
  else [].

Definition dump_assign (node : dumper) : cstr :=
  [SP] ++ du_tag node ++
  (if should_escape (du_value node) then $" = " ++ [DQUOTE] ++ du_value node ++ [DQUOTE]
   else $" = " ++ du_value node) ++ [NL].

Fixpoint dump_text (prev : option dumper) (first : bool) (l : list dumper) : cstr :=
  match l with
  | [] => []
  | node :: l => dump_header prev first node ++ dump_assign node ++ dump_text (Some node) false l
  end.

Definition conf_report_dump_text (head : list dumper) : cstr := dump_text None true head.

(** [qsort] with [dumper_compare]. *)
Fixpoint insert_sorted (x : dumper) (l : list dumper) : list dumper :=
  match l with
  | [] => [x]
  | y :: l' => if dumper_compare x y <=? 0 then x :: l else y :: insert_sorted x l'
  end.
Definition conf_report_sort (start : list dumper) : list dumper := foldr insert_sorted [] start.

Definition dump_node (cb : conf_binding) : dumper :=
  Dumper (cb_section cb) (cb_arg cb) (cb_tag cb) (cb_value cb).

(** The nodes are pushed on the front of the list as the chains are walked. *)
Definition conf_report (s : conf) : cstr :=
  conf_report_dump_text (conf_report_sort (reverse (dump_node <$> concat (conf_bindings s)))).

(** ** Lemmas on trimming *)

Lemma rtrim_snoc f s c : f c = false -> rtrim f (s ++ [c]) = s ++ [c].
Proof.
  intros H. unfold rtrim. rewrite reverse_app. change (reverse [c]) with [c]. cbn [app skip_while].
  rewrite H. change (c :: reverse s) with ([c] ++ reverse s). by rewrite reverse_app, reverse_involutive.
Qed.

Lemma rtrim_app f s t : Forall (fun c => f c = true) t -> rtrim f (s ++ t) = rtrim f s.
Proof.
  intros H. unfold rtrim. rewrite reverse_app, skip_while_app; [done|].
  by apply Forall_reverse.
Qed.

(** A string whose last character, if any, is not trimmed. *)
Definition last_not (f : ascii -> bool) (s : cstr) : Prop := match last s with Some c => f c = false | None => True end.

Lemma rtrim_id f s : last_not f s -> rtrim f s = s.
Proof.
  unfold last_not. destruct s as [|x s' _] using rev_ind; [done|]. rewrite last_snoc. apply rtrim_snoc.
Qed.

Lemma rtrim1_id f s : last_not f s -> rtrim1 f s = s.
Proof.
  destruct s as [|c s]; [done|]. cbn [rtrim1]. intros H. f_equal. apply rtrim_id.
  unfold last_not in *. destruct s; [done|]. by rewrite last_cons_cons in H.
Qed.

Lemma rtrim1_blank c s : last_not isblank (c :: s) -> rtrim1 isblank ((c :: s) ++ [SP]) = c :: s.
Proof.
  intros H. cbn [rtrim1 app]. rewrite rtrim_app by (by repeat constructor). f_equal. apply rtrim_id.
  unfold last_not in *. destruct s; [done|]. by rewrite last_cons_cons in H.
Qed.

Lemma cut_notin c s : c ∉ s -> cut c s = s.
Proof. intros H. unfold cut. by rewrite (proj2 (strchr_None c s) H). Qed.

(** ** One line at a time *)

Definition is_bslash (c : ascii) : bool := ceqb c BSLASH.

Lemma conf_parse_loop_line readfile trans inc filename l rest st :
  NL ∉ l -> last_not is_bslash l ->
  conf_parse_loop readfile trans inc filename (l ++ NL :: rest) [] st =
    match conf_parse_line readfile trans inc filename st l with
    | Some st => conf_parse_loop readfile trans inc filename rest [] st
    | None => None
    end.
Proof.
  intros Hnl Hb.
  assert (forall acc, NL ∉ l -> conf_parse_loop readfile trans inc filename (l ++ NL :: rest) acc st
    = conf_parse_loop readfile trans inc filename (NL :: rest) (reverse l ++ acc) st) as E.
  { clear. induction l as [|c l IH]; intros acc H; [done|]. apply not_elem_of_cons in H as [H1 H2].
    cbn [app conf_parse_loop]. rewrite (proj2 (ceqb_false c NL)) by congruence.
    rewrite IH by done. by rewrite reverse_cons, <- app_assoc. }
  rewrite E, app_nil_r by done. cbn [conf_parse_loop]. change (ceqb NL NL) with true. cbv iota.
  destruct l as [|x l' _] using rev_ind; [done|].
  unfold last_not in Hb. rewrite last_snoc in Hb. rewrite reverse_snoc. unfold is_bslash in Hb. rewrite Hb.
  change (x :: reverse l') with (reverse [x] ++ reverse l'). by rewrite <- reverse_app, reverse_involutive.
Qed.

(** ** What the dump can print so that it reads back *)

Record section_ok (s : cstr) : Prop := SectionOk
  { sec_chars : "]"%char ∉ s /\ DQUOTE ∉ s /\ NL ∉ s;
    sec_first : isblank (deref s) = false;
    sec_last : last_not isblank s }.

Definition arg_ok (a : cstr) : Prop := "]"%char ∉ a /\ DQUOTE ∉ a /\ NL ∉ a.

Record tag_ok (t : cstr) : Prop := TagOk
  { tag_nonempty : t <> [];
    tag_chars : "="%char ∉ t /\ NL ∉ t;
    tag_first : isspace (deref t) = false /\ deref t <> "#"%char /\ deref t <> ";"%char /\ deref t <> "["%char;
    tag_last : last_not isblank t;
    tag_include : strcaseeq t $"include" = false }.

(** A value that is quoted must not hold a quote; one that is not must not look
    like a quoted one, hold a comment character or end in a backslash. *)
Definition value_ok (v : cstr) : Prop :=
  v <> [] /\ NL ∉ v /\
  if should_escape v then DQUOTE ∉ v
  else "#"%char ∉ v /\ ";"%char ∉ v /\ deref v <> DQUOTE /\ deref v <> SQUOTE /\ last_not is_bslash v.

Record node_printable (n : dumper) : Prop := Printable
  { np_section : section_ok (du_section n);
    np_arg : match du_arg n with Some a => arg_ok a | None => True end;
    np_tag : tag_ok (du_tag n);
    np_value : value_ok (du_value n) }.

Lemma section_header_plain s : section_ok s -> section_header (s ++ $"]") = (Some s, None).
Proof.
  intros [(H1 & H2 & H3) Hf Hl]. unfold section_header.
  assert (skip_while isblank (s ++ $"]") = s ++ $"]") as ->.
  { destruct s as [|c s]; [done|]. by apply skip_while_head. }
  cbn. rewrite strchr_app by done. rewrite rtrim_id by done. by rewrite (proj2 (strchr_None _ _)).
Qed.

Lemma last_not_snoc f s c : last_not f (s ++ [c]) <-> f c = false.
Proof. unfold last_not. by rewrite last_snoc. Qed.

Lemma section_header_arg s a :
  section_ok s -> arg_ok a ->
  section_header (s ++ [SP; DQUOTE] ++ a ++ [DQUOTE] ++ $"]") = (Some s, Some a).
Proof.
  intros [(H1 & H2 & H3) Hf Hl] (A1 & A2 & A3). unfold section_header.
  assert (skip_while isblank (s ++ [SP; DQUOTE] ++ a ++ [DQUOTE] ++ $"]")
          = skip_while isblank (s ++ [SP]) ++ (DQUOTE :: a ++ [DQUOTE]) ++ $"]") as ->.
  { destruct s as [|c s]; cbn in Hf |- *; [by rewrite <- app_assoc|]. rewrite Hf.
    cbn. by repeat (rewrite <- app_assoc; cbn [app]). }
  assert (skip_while isblank (s ++ [SP]) = match s with [] => [] | _ => s ++ [SP] end) as ->.
  { destruct s as [|c s]; cbn in *; [done|]. by rewrite Hf. }
  set (s' := match s with [] => [] | _ => s ++ [SP] end).
  assert ("]"%char ∉ s' /\ DQUOTE ∉ s') as [Hs1 Hs2] by (unfold s'; destruct s; set_solver).
  rewrite app_assoc. cbn. rewrite strchr_app by set_solver.
  rewrite app_comm_cons, app_assoc, rtrim_id by (by apply last_not_snoc).
  rewrite <- app_assoc. cbn [app]. rewrite strchr_app by done. rewrite strchr_app by done.
  do 2 f_equal. unfold s'. destruct s as [|c s]; [done|]. by apply rtrim1_blank.
Qed.

Lemma isblank_space c : isspace c = false -> isblank c = false.
Proof. all_chars c; by vm_compute. Qed.

Lemma should_escape_false v :
  v <> [] -> should_escape v = false -> isspace (deref v) = false /\ last_not isspace v.
Proof.
  intros Hne [Hf Hl]%orb_false_iff. split; [done|]. unfold last_not.
  destruct v as [|x v' _] using rev_ind; [done|]. rewrite last_snoc.
  unfold at_index in Hl. rewrite length_app in Hl. cbn in Hl.
  replace (length v' + 1 - 1)%nat with (length v') in Hl by lia. by rewrite drop_app_length in Hl.
Qed.

(** The value as [dump_assign] prints it. *)
Definition dump_value (v : cstr) : cstr := if should_escape v then [DQUOTE] ++ v ++ [DQUOTE] else v.

Lemma parse_value_dump v : value_ok v -> parse_value ([SP] ++ dump_value v) = Some v.
Proof.
  intros (Hne & Hnl & Hv). unfold dump_value, parse_value. destruct (should_escape v) eqn:E.
  - cbn. change (ceqb DQUOTE DQUOTE) with true. cbv iota. change (drop 0 ?x) with x.
    by rewrite strchr_app.
  - destruct Hv as (H1 & H2 & H3 & H4 & _). apply should_escape_false in E as [Ef El]; [|done].
    destruct v as [|c v]; [done|]. cbn [deref] in *.
    assert (skip_while isblank ([SP] ++ c :: v) = c :: v) as ->.
    { cbn. by rewrite (isblank_space c). }
    cbn [deref]. rewrite (proj2 (ceqb_false c DQUOTE)), (proj2 (ceqb_false c SQUOTE)) by done.
    by rewrite (cut_notin "#"), (cut_notin ";"), rtrim1_id by done.
Qed.

Lemma conf_parse_line_assign readfile trans inc filename c sec sub t v :
  tag_ok t -> value_ok v ->
  conf_parse_line readfile trans inc filename (PState c (Some sec) sub) ([SP] ++ t ++ $" = " ++ dump_value v)
  = Some (PState (conf_set c trans sec sub t (Some v) true false) (Some sec) sub).
Proof.
  intros [Hne [Heq Hnl] (Hf1 & Hf2 & Hf3 & Hf4) Hl Hinc] Hv. unfold conf_parse_line.
  destruct t as [|x t]; [done|]. cbn [deref] in *.
  assert (skip_while isspace ([SP] ++ (x :: t) ++ $" = " ++ dump_value v) = (x :: t) ++ $" = " ++ dump_value v) as ->.
  { cbn. by rewrite Hf1. }
  cbn [app].
  rewrite (proj2 (ceqb_false x "#")), (proj2 (ceqb_false x ";")), (proj2 (ceqb_false x "[")) by done.
  cbn [orb].
  assert (strchr "=" (x :: t ++ $" = " ++ dump_value v) = Some ((x :: t) ++ [SP], [SP] ++ dump_value v)) as ->.
  { replace (x :: t ++ $" = " ++ dump_value v) with (((x :: t) ++ [SP]) ++ "="%char :: [SP] ++ dump_value v)
      by (by rewrite <- app_assoc).
    apply strchr_app. set_solver. }
  cbn [ps_section]. rewrite rtrim_app by (by repeat constructor). rewrite rtrim_id by done.
  rewrite parse_value_dump by done. rewrite Hinc. done.
Qed.

Lemma conf_parse_line_header readfile trans inc filename st n :
  node_printable n ->
  conf_parse_line readfile trans inc filename st
    (match du_arg n with
     | Some arg => $"[" ++ du_section n ++ [SP; DQUOTE] ++ arg ++ [DQUOTE] ++ $"]"
     | None => $"[" ++ du_section n ++ $"]"
     end) = Some (PState (ps_conf st) (Some (du_section n)) (du_arg n)).
Proof.
  intros [Hs Ha _ _].
  assert (forall r, conf_parse_line readfile trans inc filename st ("["%char :: r)
            = let '(s, a) := section_header r in Some (PState (ps_conf st) s a)) as E by done.
  destruct (du_arg n) as [a|].
  - etrans; [apply (E (du_section n ++ [SP; DQUOTE] ++ a ++ [DQUOTE] ++ $"]"))|].
    by rewrite section_header_arg.
  - etrans; [apply (E (du_section n ++ $"]"))|]. by rewrite section_header_plain.
Qed.

(** The set operation that reading a dumped node queues. *)
Definition read_node (trans : Z) (c : conf) (n : dumper) : conf :=
  conf_set c trans (du_section n) (du_arg n) (du_tag n) (Some (du_value n)) true false.

Lemma section_compare_eq a b :
  dumper_section_compare (Some a) (Some b) = 0 -> du_section a = du_section b /\ du_arg a = du_arg b.
Proof.
  unfold dumper_section_compare. destruct (strcmp (du_section a) (du_section b) =? 0) eqn:E; cbn [negb].
  - apply Z.eqb_eq, strcmp_eq in E. intros H. split; [done|].
    destruct (du_arg a), (du_arg b); try done. apply strcmp_eq in H. by f_equal.
  - intros H. btrue. lia.
Qed.

Lemma last_not_value t v : value_ok v -> last_not is_bslash (t ++ dump_value v).
Proof.
  intros (Hne & _ & Hv). unfold dump_value. destruct (should_escape v).
  - rewrite !app_assoc. by apply last_not_snoc.
  - destruct Hv as (_ & _ & _ & _ & Hl). unfold last_not in *. rewrite last_app.
    destruct (last v) eqn:E; [done|]. by apply last_None in E.
Qed.

Lemma dump_value_nl v : value_ok v -> NL ∉ dump_value v.
Proof. intros (_ & H & _). unfold dump_value. destruct (should_escape v); set_solver. Qed.

Lemma conf_parse_loop_assign readfile trans inc filename c n rest :
  node_printable n ->
  conf_parse_loop readfile trans inc filename (dump_assign n ++ rest) [] (PState c (Some (du_section n)) (du_arg n))
  = conf_parse_loop readfile trans inc filename rest [] (PState (read_node trans c n) (Some (du_section n)) (du_arg n)).
Proof.
  intros [_ _ Ht Hv].
  assert (dump_assign n ++ rest = ([SP] ++ du_tag n ++ $" = " ++ dump_value (du_value n)) ++ NL :: rest) as ->.
  { unfold dump_assign, dump_value. destruct (should_escape (du_value n));
      by repeat (rewrite <- app_assoc; cbn [app]). }
  rewrite conf_parse_loop_line.
  - by rewrite conf_parse_line_assign.
  - pose proof (dump_value_nl _ Hv). destruct Ht as [_ [_ ?] _ _ _]. rewrite !not_elem_of_app.
    split_and!; try assumption; by apply strchr_None.
  - rewrite !app_assoc. by apply last_not_value.
Qed.

Lemma conf_parse_loop_header readfile trans inc filename prev first n st rest :
  node_printable n ->
  (prev = None \/ exists p, prev = Some p /\ ps_section st = Some (du_section p) /\ ps_subsection st = du_arg p) ->
  conf_parse_loop readfile trans inc filename (dump_header prev first n ++ rest) [] st
  = conf_parse_loop readfile trans inc filename rest [] (PState (ps_conf st) (Some (du_section n)) (du_arg n)).
Proof.
  intros Hn Hprev. unfold dump_header. destruct (dumper_section_compare prev (Some n) =? 0) eqn:E; cbn [negb].
  { btrue. destruct Hprev as [->|(p & -> & Hs & Ha)]; [done|].
    apply section_compare_eq in E as [<- <-]. destruct st; cbn in *. by subst. }
  assert (forall st, conf_parse_loop readfile trans inc filename
    ((match du_arg n with
      | Some arg => $"[" ++ du_section n ++ [SP; DQUOTE] ++ arg ++ [DQUOTE] ++ $"]" ++ [NL]
      | None => $"[" ++ du_section n ++ $"]" ++ [NL]
      end) ++ rest) [] st
    = conf_parse_loop readfile trans inc filename rest [] (PState (ps_conf st) (Some (du_section n)) (du_arg n))) as Hh.
  { intros st'. pose proof (conf_parse_line_header readfile trans inc filename st' n Hn) as Hline.
    destruct Hn as [[(S1 & S2 & S3) _ _] Ha _ _].
    set (line := match du_arg n with
                 | Some arg => $"[" ++ du_section n ++ [SP; DQUOTE] ++ arg ++ [DQUOTE] ++ $"]"
                 | None => $"[" ++ du_section n ++ $"]" end) in *.
    assert ((match du_arg n with
      | Some arg => $"[" ++ du_section n ++ [SP; DQUOTE] ++ arg ++ [DQUOTE] ++ $"]" ++ [NL]
      | None => $"[" ++ du_section n ++ $"]" ++ [NL]
      end) ++ rest = line ++ NL :: rest) as ->.
    { unfold line. destruct (du_arg n); by repeat (rewrite <- app_assoc; cbn [app]). }
    rewrite conf_parse_loop_line; [by rewrite Hline|..].
    - unfold line. destruct (du_arg n); [destruct Ha as (_ & _ & ?)|]; rewrite !not_elem_of_app;
        split_and!; try assumption; by apply strchr_None.
    - unfold line. destruct (du_arg n); rewrite !app_assoc; by apply last_not_snoc. }
  destruct first; [apply Hh|]. rewrite <- app_assoc.
  change ([NL] ++ ?x) with ([] ++ NL :: x).
  rewrite conf_parse_loop_line; [|by apply strchr_None|done]. cbn. apply Hh.
Qed.

Lemma conf_parse_dump_text readfile trans inc filename l prev first st :
  Forall node_printable l ->
  (prev = None \/ exists p, prev = Some p /\ ps_section st = Some (du_section p) /\ ps_subsection st = du_arg p) ->
  exists sec sub, conf_parse_loop readfile trans inc filename (dump_text prev first l) [] st
    = Some (PState (foldl (read_node trans) (ps_conf st) l) sec sub).
Proof.
  intros Hl. revert prev first st. induction Hl as [|n l Hn Hl IH]; intros prev first st Hprev.
  { destruct st. eauto. }
  cbn [dump_text]. rewrite conf_parse_loop_header by done. rewrite conf_parse_loop_assign by done.
  apply IH. right. by exists n.
Qed.

(** ** From queued nodes to the configuration *)

Definition queued (trans : Z) (n : dumper) : conf_trans :=
  Trans trans CONF_SET (upper2lower (du_section n)) (du_arg n) (Some (du_tag n)) (Some (du_value n)) true false.

Lemma read_nodes_queue trans l c :
  Forall node_printable l ->
  foldl (read_node trans) c l
  = Conf (conf_bindings c) (conf_trans_queue c ++ (queued trans <$> l)) (conf_seq c).
Proof.
  intros Hl. revert c. induction Hl as [|n l Hn Hl IH]; intros c; cbn [foldl].
  { rewrite app_nil_r. by destruct c. }
  rewrite IH. unfold read_node, conf_set. destruct Hn as [_ _ _ (Hne & _)].
  destruct (du_value n) as [|x v] eqn:Ev; [done|]. cbn. rewrite <- app_assoc. unfold queued at 2. by rewrite Ev.
Qed.

Lemma conf_parse_report readfile trans fuel c l file :
  Forall node_printable l ->
  conf_parse readfile trans (S fuel) c (conf_report_dump_text l) None None file
  = Some (Conf (conf_bindings c) (conf_trans_queue c ++ (queued trans <$> l)) (conf_seq c)).
Proof.
  intros Hl. cbn [conf_parse].
  destruct (conf_parse_dump_text readfile trans (conf_parse readfile trans fuel) file l None true
              (PState c None None) Hl (or_introl eq_refl)) as (sec & sub & E).
  unfold conf_report_dump_text. rewrite E. cbn. by rewrite read_nodes_queue.
Qed.

(** The entry a node stands for. *)
Definition du_pair (n : dumper) : conf_key * (option cstr * cstr) :=
  (key (du_section n) (du_tag n), (du_arg n, du_value n)).

Lemma abs_exec_queued trans l m :
  foldl abs_exec m (queued trans <$> l) = list_to_map (reverse (du_pair <$> l)) ∪ m.
Proof.
  revert m. induction l as [|n l IH]; intros m; [cbn; by rewrite (left_id_L ∅ (∪))|].
  rewrite !fmap_cons. cbn [foldl]. rewrite IH, reverse_cons, list_to_map_app.
  unfold abs_exec, queued, du_pair at 2. cbn.
  replace (key (upper2lower (du_section n)) (du_tag n)) with (key (du_section n) (du_tag n))
    by (unfold key; by rewrite upper2lower_idemp).
  rewrite <- (assoc_L (∪)). f_equal. cbn. by rewrite <- insert_union_l, (left_id_L ∅ (∪)).
Qed.

Lemma insert_sorted_perm x l : insert_sorted x l ≡ₚ x :: l.
Proof.
  induction l as [|y l IH]; [done|]. cbn. case_if; [done|]. rewrite IH. apply Permutation_swap.
Qed.

Lemma conf_report_sort_perm l : conf_report_sort l ≡ₚ l.
Proof. induction l as [|x l IH]; [done|]. cbn. by rewrite insert_sorted_perm, IH. Qed.

Lemma of_trans_new t q q' :
  Forall (fun n => ct_trans n <> t) q -> Forall (fun n => ct_trans n = t) q' -> of_trans t (q ++ q') = q'.
Proof. intros H H'. unfold of_trans. by rewrite filter_app, (filter_none _ q), (filter_all _ q'). Qed.

(** The nodes of a dump, in the order printed. *)
Definition report_nodes (s : conf) : list dumper :=
  conf_report_sort (reverse (dump_node <$> concat (conf_bindings s))).

Lemma report_nodes_perm s : report_nodes s ≡ₚ dump_node <$> all_bindings s.
Proof. unfold report_nodes. by rewrite conf_report_sort_perm, reverse_Permutation. Qed.

Lemma report_nodes_map s :
  wf s -> list_to_map (reverse (du_pair <$> report_nodes s)) = abs s.
Proof.
  intros Hwf. unfold abs. symmetry. apply list_to_map_proper.
  - rewrite <- list_fmap_compose. exact (wf_nodup _ Hwf).
  - rewrite reverse_Permutation, report_nodes_perm, <- list_fmap_compose. done.
Qed.

(** C25. What [conf_report] prints for a configuration, [conf_load_file] reads back
    as the same configuration: the same section, sub-section, tag and value for
    every binding, whatever was loaded before.  The configuration is one that the
    dump can express: section and sub-section names have no bracket, quote or
    newline, tags are what a line can start with (not "include", no equal sign,
    comment or bracket first, no blank last), values are not empty and have no
    newline, a value that is printed in quotes has no double quote, and one that
    is not has no comment character, no leading quote and no backslash at its end.
    Beyond that the dump does lose text ([conf_report_loses_comment]). *)
Theorem conf_report_load readfile getenv fuel s s0 file :
  wf s -> Forall node_printable (dump_node <$> all_bindings s) ->
  readfile file = Some (conf_report s) ->
  Forall (fun n => ct_trans n <= conf_seq s0) (conf_trans_queue s0) ->
  exists s', conf_load_file readfile getenv (S fuel) s0 file = Some (s', 0) /\ wf s' /\ abs s' = abs s.
Proof.
  intros Hwf Hp Hr Hq. unfold conf_load_file. cbn [conf_begin]. rewrite Hr.
  assert (Forall node_printable (report_nodes s)) as Hn by (by rewrite report_nodes_perm).
  unfold conf_report. fold (report_nodes s). rewrite conf_parse_report by done.
  set (t := conf_seq s0 + 1). set (s1 := conf_free_bindings _). cbv zeta.
  assert (of_trans t (conf_trans_queue s1) = queued t <$> report_nodes s) as Eq.
  { apply of_trans_new; [|by apply Forall_fmap, Forall_true].
    eapply Forall_impl; [exact Hq|]. cbn. intros. lia. }
  destruct (conf_end_loop_refines getenv (S fuel) t [] (conf_trans_queue s1) s1) as (s' & E & Hwf' & Ha & _).
  - apply wf_no_bindings.
  - rewrite Eq. apply Forall_fmap, Forall_true. intros n. cbn. eauto.
  - exists s'. unfold conf_end. rewrite E. split; [done|]. split; [done|].
    rewrite Ha, Eq, abs_exec_queued. unfold s1, conf_free_bindings. rewrite abs_no_bindings, (right_id_L ∅ (∪)).
    by apply report_nodes_map.
Qed.

Lemma conf_report_load_witness :
  conf_report sample_conf = $"[environment]" ++ [NL] ++ $" a = $a" ++ [NL] /\
  exists s', conf_load_file (fun _ => Some (conf_report sample_conf)) (fun _ => None) 1 conf_empty $"f" = Some (s', 0) /\
    wf s' /\ abs s' = abs sample_conf.
Proof.
  split; [reflexivity|].
  apply (conf_report_load (fun _ => Some (conf_report sample_conf))); [exact sample_conf_wf| |reflexivity|constructor].
  change (dump_node <$> all_bindings sample_conf) with [Dumper $"environment" None $"a" $"$a"].
  constructor; [|constructor]. repeat split; try discriminate; try reflexivity; by apply strchr_None.
Defined.

(** The dump does not quote a value that holds a comment character, so what
    is read back is only the part before it. *)
Theorem conf_report_loses_comment v1 v2 :
  let v := v1 ++ "#"%char :: v2 in
  should_escape v = false -> "#"%char ∉ v1 -> ";"%char ∉ v1 ->
  v1 <> [] -> deref v1 <> DQUOTE -> deref v1 <> SQUOTE ->
  parse_value ([SP] ++ dump_value v) = Some (rtrim1 isspace v1).
Proof.
  intros v E H1 H2 Hne Hd Hs. unfold parse_value, dump_value. rewrite E.
  unfold should_escape in E. apply orb_false_iff in E as [Ef _].
  destruct v1 as [|c v1]; [done|]. unfold v in *. cbn [deref app] in *.
  assert (skip_while isblank (SP :: c :: v1 ++ "#"%char :: v2) = (c :: v1) ++ "#"%char :: v2) as ->.
  { cbn. by rewrite (isblank_space c). }
  cbn [app deref]. rewrite (proj2 (ceqb_false c DQUOTE)), (proj2 (ceqb_false c SQUOTE)) by done.
  rewrite app_comm_cons. unfold cut at 2. rewrite strchr_app by done. by rewrite cut_notin.
Qed.

Lemma conf_report_loses_comment_witness :
  parse_value ([SP] ++ dump_value $"a#b") = Some $"a".
Proof.
  apply (conf_report_loses_comment $"a" $"b"); try reflexivity; try discriminate; by apply strchr_None.
Defined.

(** ** Including files *)

(** The line that includes a file. *)
Definition include_line (file : cstr) : cstr := $"include=" ++ file.

(** A file name that reads back as it is from an unquoted value. *)
Record file_ok (f : cstr) : Prop := FileOk
  { file_abs : deref f = "/"%char;
    file_chars : "#"%char ∉ f /\ ";"%char ∉ f /\ NL ∉ f;
    file_last : last_not isspace f /\ last_not is_bslash f }.

Lemma include_line_parse readfile trans inc filename st file sec :
  file_ok file -> ps_section st = Some sec ->
  conf_parse_line readfile trans inc filename st (include_line file)
  = conf_include readfile inc filename st file.
Proof.
  intros [Ha (H1 & H2 & H3) [Hl _]] Hs. unfold conf_parse_line.
  destruct file as [|c f]; [done|]. cbn in Ha. subst c.
  change (skip_while isspace (include_line ("/"%char :: f))) with ($"include" ++ "="%char :: "/"%char :: f).
  rewrite strchr_app by (by apply strchr_None). rewrite Hs.
  assert (parse_value ("/"%char :: f) = Some ("/"%char :: f)) as ->; [|reflexivity].
  unfold parse_value. change (skip_while isblank ("/"%char :: f)) with ("/"%char :: f). cbn [deref].
  change (ceqb "/" DQUOTE) with false. change (ceqb "/" SQUOTE) with false. cbv iota.
  by rewrite (cut_notin "#"), (cut_notin ";"), rtrim1_id by done.
Qed.

Lemma include_line_loop readfile trans inc filename st file sec rest :
  file_ok file -> ps_section st = Some sec ->
  conf_parse_loop readfile trans inc filename (include_line file ++ NL :: rest) [] st
  = match conf_include readfile inc filename st file with
    | Some st => conf_parse_loop readfile trans inc filename rest [] st
    | None => None
    end.
Proof.
  intros Hf Hs. rewrite conf_parse_loop_line, (include_line_parse _ _ _ _ _ _ sec); try done.
  - destruct Hf as [_ (_ & _ & ?) _]. unfold include_line. rewrite not_elem_of_app. split; [|done].
    by apply strchr_None.
  - destruct Hf as [Ha _ [_ Hl]]. unfold include_line, last_not in *. rewrite last_app.
    destruct (last file) eqn:E; [done|]. by apply last_None in E; subst.
Qed.

(** An included file inherits the including file's (sub-)section, and its
    own headers do not change it: after an include of dumped nodes, the first of
    which need no header in the current section, parsing goes on in that section
    with the nodes queued. *)
Theorem conf_include_inherits readfile trans fuel filename file prev l c rest :
  file_ok file -> node_printable prev -> Forall node_printable l ->
  readfile file = Some (dump_text (Some prev) false l) ->
  let st := PState c (Some (du_section prev)) (du_arg prev) in
  let parse := conf_parse_loop readfile trans (conf_parse readfile trans (S fuel)) filename in
  parse (include_line file ++ NL :: rest) [] st
  = parse rest [] (PState (foldl (read_node trans) c l) (Some (du_section prev)) (du_arg prev)).
Proof.
  intros Hf Hprev Hl Hr st parse. unfold parse. rewrite (include_line_loop _ _ _ _ _ _ (du_section prev)) by done.
  unfold conf_include. destruct Hf as [Ha _ _]. rewrite Ha. change (ceqb "/" "-") with false. cbv iota zeta.
  unfold relative_path. rewrite Ha. change (ceqb "/" "/") with true. cbv iota. rewrite Hr. cbn [conf_parse].
  destruct (conf_parse_dump_text readfile trans (conf_parse readfile trans fuel) file l (Some prev) false
    (PState (ps_conf st) (ps_section st) (ps_subsection st)) Hl) as (sec & sub & E).
  { right. by exists prev. }
  rewrite E. done.
Qed.

Lemma conf_include_inherits_witness :
  let n := Dumper $"nfsd" None $"port" $"1" in
  let readfile f := Some (dump_text (Some n) false [n]) in
  dump_text (Some n) false [n] = $" port = 1" ++ [NL] /\
  conf_parse_loop readfile 1 (conf_parse readfile 1 1) $"/a" (include_line $"/b" ++ [NL]) [] (PState conf_empty (Some $"nfsd") None)
  = Some (PState (foldl (read_node 1) conf_empty [n]) (Some $"nfsd") None).
Proof.
  intros n readfile. split; [reflexivity|].
  assert (node_printable n) as Hn.
  { repeat split; try discriminate; try reflexivity; by apply strchr_None. }
  apply (conf_include_inherits readfile 1 0 $"/a" $"/b" n [n] conf_empty []); [|done|by constructor|reflexivity].
  repeat split; try reflexivity; by apply strchr_None.
Defined.

(** A file that includes itself is never read to its end: the parser
    recurses for every depth of its stack. *)
Theorem conf_include_self readfile trans file rest :
  file_ok file -> readfile file = Some ($"[x]" ++ NL :: include_line file ++ NL :: rest) ->
  forall depth c section subsection,
  conf_parse readfile trans depth c ($"[x]" ++ NL :: include_line file ++ NL :: rest) section subsection file = None.
Proof.
  intros Hf Hr. induction depth as [|depth IH]; intros c section subsection; [done|]. cbn [conf_parse].
  rewrite conf_parse_loop_line; [|by apply strchr_None|done].
  change (conf_parse_line _ _ _ _ _ $"[x]") with (Some (PState c (Some $"x") None)).
  cbv iota beta. rewrite (include_line_loop _ _ _ _ _ _ $"x") by done. unfold conf_include.
  destruct Hf as [Ha _ _]. rewrite Ha. change (ceqb "/" "-") with false. cbv iota zeta.
  unfold relative_path. rewrite Ha. change (ceqb "/" "/") with true. cbv iota. by rewrite Hr, IH.
Qed.

Lemma conf_include_self_witness :
  let text := $"[x]" ++ NL :: include_line $"/f" ++ [NL] in
  conf_parse (fun _ => Some text) 1 100 conf_empty text None None $"/f" = None.
Proof.
  intros text. apply (conf_include_self (fun _ => Some text) 1 $"/f" []); [|reflexivity].
  repeat split; try reflexivity; by apply strchr_None.
Defined.

(** A last line without its newline is not parsed. *)
Theorem conf_parse_unterminated readfile trans depth c buf line section subsection filename :
  NL ∉ line ->
  conf_parse readfile trans depth c (buf ++ line) section subsection filename
  = conf_parse readfile trans depth c buf section subsection filename.
Proof.
  intros Hl. destruct depth as [|depth]; [done|]. cbn [conf_parse].
  enough (forall acc st,
    conf_parse_loop readfile trans (conf_parse readfile trans depth) filename (buf ++ line) acc st
    = conf_parse_loop readfile trans (conf_parse readfile trans depth) filename buf acc st) as -> by done.
  induction buf as [|x buf IH]; intros acc st.
  - cbn [app]. revert acc. induction line as [|y line IH]; intros acc; [done|].
    apply not_elem_of_cons in Hl as [H1 H2]. cbn [conf_parse_loop].
    rewrite (proj2 (ceqb_false y NL)) by congruence. by rewrite IH.
  - cbn [app conf_parse_loop]. repeat case_match; auto.
Qed.

Lemma conf_parse_unterminated_witness :
  conf_parse (fun _ => None) 1 1 conf_empty ($"[x]" ++ [NL] ++ $"a=1") None None $"/f" = Some conf_empty.
Proof.
  rewrite (app_assoc $"[x]" [NL] $"a=1").
  rewrite (conf_parse_unterminated _ _ _ _ ($"[x]" ++ [NL]) $"a=1"); [reflexivity|by apply strchr_None].
Defined.

(** ** The conf.d directory *)

Section conf_d.
  Context (readfile : cstr -> option cstr) (nodes : cstr -> list dumper) (dname : cstr).

Definition dir_file (d : d_type * cstr) : cstr := take (Z.to_nat (PATH_MAX - 1)) (dname ++ $"/" ++ d.2).

(** The nodes of the files that are read, in directory order. *)
Definition dir_nodes (l : list (d_type * cstr)) : list dumper :=
  mjoin ((fun d => nodes d.2) <$> filter (fun d => dir_entry_ok dname d = true) l).

Definition dir_readable (l : list (d_type * cstr)) : Prop :=
  Forall (fun d => dir_entry_ok dname d = true ->
            readfile (dir_file d) = Some (conf_report_dump_text (nodes d.2)) /\
            Forall node_printable (nodes d.2)) l.

Lemma load_dir_count fuel trans l c m r :
  0 < m -> load_dir readfile fuel c trans dname l m = Some (r, 0) -> False.
Proof.
  revert c m. induction l as [|x l IH]; intros c m Hm; cbn [load_dir]; [intros [= _ H]; lia|].
  destruct (dir_entry_ok dname x); [|by apply IH].
  destruct (conf_load_files _ _ _ _ _) as [[c1 z]|]; [|done]. destruct (z =? 0); apply IH; lia.
Qed.

Lemma load_dir_queue fuel trans l c n :
  dir_readable l -> 0 <= n ->
  exists n', load_dir readfile (S fuel) c trans dname l n
    = Some (Conf (conf_bindings c) (conf_trans_queue c ++ (queued trans <$> dir_nodes l)) (conf_seq c), n') /\
    0 <= n' /\ (n' = 0 -> dir_nodes l = []).
Proof.
  intros Hl. revert c n. induction Hl as [|d l Hd Hl IH]; intros c n Hn.
  { exists n. split; [|by split]. cbn. rewrite app_nil_r. by destruct c. }
  cbn [load_dir]. unfold dir_nodes. rewrite filter_cons. destruct (dir_entry_ok dname d) eqn:E.
  - destruct (Hd eq_refl) as [Hr Hp]. rewrite decide_True by done.
    unfold conf_load_files. fold (dir_file d). rewrite Hr, conf_parse_report by done. cbn [Z.eqb].
    destruct (IH (Conf (conf_bindings c) (conf_trans_queue c ++ (queued trans <$> nodes d.2)) (conf_seq c))
                (n + 1) ltac:(lia)) as (n' & E' & Hn' & _).
    exists n'. rewrite E'. cbn. rewrite fmap_app, <- app_assoc. split; [done|]. split; [done|].
    intros ->. exfalso. revert E'. clear -Hn.
    apply load_dir_count. lia.
  - rewrite decide_False by congruence. apply IH. done.
Qed.

End conf_d.

(** Committing a queue of dumped nodes. *)
Lemma conf_end_queued getenv fuel t l bs :
  wf (Conf bs (queued t <$> l) t) ->
  exists s', conf_end getenv fuel (Conf bs (queued t <$> l) t) t true = Some s' /\ wf s' /\
    abs s' = list_to_map (reverse (du_pair <$> l)) ∪ abs (Conf bs (queued t <$> l) t) /\
    conf_trans_queue s' = [] /\ conf_seq s' = t.
Proof.
  intros Hwf.
  assert (of_trans t (queued t <$> l) = queued t <$> l /\ not_of_trans t (queued t <$> l) = []) as [E1 E2].
  { unfold of_trans, not_of_trans. rewrite filter_all, filter_none; [done|..];
      apply Forall_fmap, Forall_true; intros; cbn; congruence. }
  destruct (conf_end_loop_refines getenv fuel t [] (queued t <$> l) _ Hwf) as (s' & E & Hwf' & Ha & Hq & Hs).
  { rewrite E1. apply Forall_fmap, Forall_true. intros n. cbn. eauto. }
  exists s'. unfold conf_end. cbn [conf_trans_queue]. rewrite E. split_and!; try done.
  - by rewrite Ha, E1, abs_exec_queued.
  - by rewrite Hq, E2.
Qed.

(** When a file's settings and those of its conf.d directory are loaded,
    the directory's files, in version order, override the file and each other:
    every key has the value it was given last. *)
Theorem conf_init_file_override readfile getenv fuel scandir s file l0 nodes l :
  Forall node_printable l0 -> readfile file = Some (conf_report_dump_text l0) ->
  scandir (file ++ $".d") = Some l -> dir_readable readfile nodes (file ++ $".d") l ->
  exists s', conf_init_file readfile getenv (S fuel) scandir s (Some file) = Some (s', 0) /\ wf s' /\
    abs s' = list_to_map (reverse (du_pair <$> l0 ++ dir_nodes nodes (file ++ $".d") l)).
Proof.
  intros Hl0 Hr Hsc Hdir. unfold conf_init_file. change (default NFS_CONFFILE (Some file)) with file. cbv zeta.
  unfold conf_load_file. cbn [conf_begin conf_seq conf_bindings conf_trans_queue].
  rewrite Hr, conf_parse_report by done.
  unfold conf_free_bindings. cbn [conf_seq conf_bindings conf_trans_queue app].
  destruct (conf_end_queued getenv (S fuel) (conf_seq s + 1) l0 (replicate 256 []))
    as (s2 & -> & Hwf2 & Ha2 & Hq2 & Hs2); [apply wf_no_bindings|].
  rewrite abs_no_bindings, (right_id_L ∅ (∪)) in Ha2.
  unfold conf_init_dir. rewrite Hsc. destruct l as [|d l'] eqn:El.
  { exists s2. split; [done|]. split; [done|]. rewrite Ha2. unfold dir_nodes. cbn. by rewrite app_nil_r. }
  rewrite <- El in *. clear El. cbn [conf_begin].
  destruct (load_dir_queue readfile nodes (file ++ $".d") fuel (conf_seq s2 + 1) l
    (Conf (conf_bindings s2) (conf_trans_queue s2) (conf_seq s2 + 1)) 0 Hdir ltac:(lia)) as (n' & -> & Hn' & Hz).
  rewrite Hq2. cbn [app conf_bindings conf_trans_queue conf_seq].
  destruct (n' =? 0) eqn:Ez; cbn [negb].
  - btrue. rewrite Hz by done. eexists. split; [done|]. split; [by destruct Hwf2|].
    rewrite app_nil_r. exact Ha2.
  - destruct (conf_end_queued getenv (S fuel) (conf_seq s2 + 1) (dir_nodes nodes (file ++ $".d") l) (conf_bindings s2))
      as (s3 & -> & Hwf3 & Ha3 & _); [by destruct Hwf2|].
    exists s3. split; [done|]. split; [done|].
    rewrite Ha3, fmap_app, reverse_app, list_to_map_app. f_equal. exact Ha2.
Qed.

Lemma conf_init_file_override_witness :
  let n v := Dumper $"nfsd" None $"port" v in
  let readfile f := Some (conf_report_dump_text [n (if streq f $"/c" then $"1" else $"2")]) in
  exists s', conf_init_file readfile (fun _ => None) 1 (fun _ => Some [(DT_REG, $"a.conf"); (DT_REG, $"b.txt")])
               conf_empty (Some $"/c") = Some (s', 0) /\ wf s' /\
    abs s' = list_to_map (reverse (du_pair <$> [n $"1"; n $"2"])).
Proof.
  intros n readfile.
  assert (forall v, v = $"1" \/ v = $"2" -> node_printable (n v)) as Hn.
  { intros v [-> | ->]; repeat split; try discriminate; try reflexivity; by apply strchr_None. }
  apply (conf_init_file_override readfile (fun _ => None) 0
           (fun _ => Some [(DT_REG, $"a.conf"); (DT_REG, $"b.txt")]) conf_empty $"/c" [n $"1"]
           (fun _ => [n $"2"]) [(DT_REG, $"a.conf"); (DT_REG, $"b.txt")]); [..|reflexivity|].
  - constructor; [|constructor]. apply Hn. by left.
  - reflexivity.
  - constructor; [|constructor; [|constructor]]; [|discriminate]. intros _. split; [reflexivity|].
    constructor; [|constructor]. apply Hn. by right.
Defined.
