(* ===== verification/Exports.v ===== *)
(** * Export entries and their options (support/nfs/exports.c)

    The options of an export, as parsed from /etc/exports or the command line
    and printed into etab.  An array ended by a NULL entry is a list, and so is
    an id array with its count; strings the entry owns are values.  The kernel's
    export features ([secinfo_flags]) and the re-export database service are
    arguments. *)

From S2P Require Import Prelude.

(** ** Flags (support/include/nfs/export.h) *)

Definition NFSEXP_READONLY : Z := 0x0001.
Definition NFSEXP_INSECURE_PORT : Z := 0x0002.
Definition NFSEXP_ROOTSQUASH : Z := 0x0004.
Definition NFSEXP_ALLSQUASH : Z := 0x0008.
Definition NFSEXP_ASYNC : Z := 0x0010.
Definition NFSEXP_GATHERED_WRITES : Z := 0x0020.
Definition NFSEXP_NOREADDIRPLUS : Z := 0x0040.
Definition NFSEXP_SECURITY_LABEL : Z := 0x0080.
Definition NFSEXP_NOHIDE : Z := 0x0200.
Definition NFSEXP_NOSUBTREECHECK : Z := 0x0400.
Definition NFSEXP_NOAUTHNLM : Z := 0x0800.
Definition NFSEXP_FSID : Z := 0x2000.
Definition NFSEXP_CROSSMOUNT : Z := 0x4000.
Definition NFSEXP_NOACL : Z := 0x8000.
Definition NFSEXP_V4ROOT : Z := 0x10000.
Definition NFSEXP_PNFS : Z := 0x20000.

Definition EXPORT_DEFAULT_FLAGS : Z :=
  Z.lor (Z.lor (Z.lor NFSEXP_READONLY NFSEXP_ROOTSQUASH) NFSEXP_GATHERED_WRITES) NFSEXP_NOSUBTREECHECK.

(** ** Data *)

Record flav_info := Flav { flavour : cstr; fnum : Z; need_krb5 : bool }.

Definition flav_map : list flav_info :=
  [Flav $"krb5" 390003 true; Flav $"krb5i" 390004 true; Flav $"krb5p" 390005 true;
   Flav $"unix" 1 false; Flav $"sys" 1 false; Flav $"null" 0 false; Flav $"none" 0 false].

Record xprtsec_info := Xprtsec { xname : cstr; xnumber : Z }.

Definition xprtsec_name2info : list xprtsec_info :=
  [Xprtsec $"none" 1; Xprtsec $"tls" 2; Xprtsec $"mtls" 4].

Definition SECFLAVOR_COUNT : nat := 8.
Definition XPRTSECMODE_COUNT : nat := 3.

(** [struct sec_entry] and [struct xprtsec_entry]: what is listed and its flags. *)
Record entry (A : Type) := Entry { what : A; flags : Z }.
Arguments Entry {A}. Arguments what {A}. Arguments flags {A}.

Inductive fsloc_method := FSLOC_NONE | FSLOC_REFER | FSLOC_REPLICA.
Inductive reexport_type := REEXP_NONE | REEXP_AUTO_FSIDNUM | REEXP_PREDEFINED_FSIDNUM.

Record exportent := Ent
  { e_hostname : option cstr; e_path : cstr; e_flags : Z;
    e_anonuid : Z; e_anongid : Z; e_squids : list Z; e_sqgids : list Z;
    e_fsid : Z; e_mountpoint : option cstr;
    e_fslocmethod : fsloc_method; e_fslocdata : option cstr; e_uuid : option cstr;
    e_secinfo : list (entry flav_info); e_xprtsec : list (entry xprtsec_info);
    e_ttl : Z; e_realpath : option cstr; e_reexport : reexport_type;
    e_fsid_value : cstr }.

Definition NFS_MAXPATHLEN : Z := 1024.
Definition default_ttl : Z := 30 * 60.

(** Field updates. *)
Definition set_flags (ep : exportent) (f : Z) : exportent :=
  Ent (e_hostname ep) (e_path ep) f (e_anonuid ep) (e_anongid ep) (e_squids ep) (e_sqgids ep)
    (e_fsid ep) (e_mountpoint ep) (e_fslocmethod ep) (e_fslocdata ep) (e_uuid ep) (e_secinfo ep)
    (e_xprtsec ep) (e_ttl ep) (e_realpath ep) (e_reexport ep) (e_fsid_value ep).
Definition set_secinfo (ep : exportent) (l : list (entry flav_info)) : exportent :=
  Ent (e_hostname ep) (e_path ep) (e_flags ep) (e_anonuid ep) (e_anongid ep) (e_squids ep) (e_sqgids ep)
    (e_fsid ep) (e_mountpoint ep) (e_fslocmethod ep) (e_fslocdata ep) (e_uuid ep) l
    (e_xprtsec ep) (e_ttl ep) (e_realpath ep) (e_reexport ep) (e_fsid_value ep).
Definition set_xprtsec (ep : exportent) (l : list (entry xprtsec_info)) : exportent :=
  Ent (e_hostname ep) (e_path ep) (e_flags ep) (e_anonuid ep) (e_anongid ep) (e_squids ep) (e_sqgids ep)
    (e_fsid ep) (e_mountpoint ep) (e_fslocmethod ep) (e_fslocdata ep) (e_uuid ep) (e_secinfo ep)
    l (e_ttl ep) (e_realpath ep) (e_reexport ep) (e_fsid_value ep).
Definition set_anon (ep : exportent) (u g : Z) : exportent :=
  Ent (e_hostname ep) (e_path ep) (e_flags ep) u g (e_squids ep) (e_sqgids ep)
    (e_fsid ep) (e_mountpoint ep) (e_fslocmethod ep) (e_fslocdata ep) (e_uuid ep) (e_secinfo ep)
    (e_xprtsec ep) (e_ttl ep) (e_realpath ep) (e_reexport ep) (e_fsid_value ep).
Definition set_squash (ep : exportent) (u g : list Z) : exportent :=
  Ent (e_hostname ep) (e_path ep) (e_flags ep) (e_anonuid ep) (e_anongid ep) u g
    (e_fsid ep) (e_mountpoint ep) (e_fslocmethod ep) (e_fslocdata ep) (e_uuid ep) (e_secinfo ep)
    (e_xprtsec ep) (e_ttl ep) (e_realpath ep) (e_reexport ep) (e_fsid_value ep).
Definition set_fsid (ep : exportent) (n : Z) (uuid : option cstr) : exportent :=
  Ent (e_hostname ep) (e_path ep) (e_flags ep) (e_anonuid ep) (e_anongid ep) (e_squids ep) (e_sqgids ep)
    n (e_mountpoint ep) (e_fslocmethod ep) (e_fslocdata ep) uuid (e_secinfo ep)
    (e_xprtsec ep) (e_ttl ep) (e_realpath ep) (e_reexport ep) (e_fsid_value ep).
Definition set_mountpoint (ep : exportent) (m : cstr) : exportent :=
  Ent (e_hostname ep) (e_path ep) (e_flags ep) (e_anonuid ep) (e_anongid ep) (e_squids ep) (e_sqgids ep)
    (e_fsid ep) (Some m) (e_fslocmethod ep) (e_fslocdata ep) (e_uuid ep) (e_secinfo ep)
    (e_xprtsec ep) (e_ttl ep) (e_realpath ep) (e_reexport ep) (e_fsid_value ep).
Definition set_fsloc (ep : exportent) (m : fsloc_method) (d : cstr) : exportent :=
  Ent (e_hostname ep) (e_path ep) (e_flags ep) (e_anonuid ep) (e_anongid ep) (e_squids ep) (e_sqgids ep)
    (e_fsid ep) (e_mountpoint ep) m (Some d) (e_uuid ep) (e_secinfo ep)
    (e_xprtsec ep) (e_ttl ep) (e_realpath ep) (e_reexport ep) (e_fsid_value ep).
Definition set_reexport (ep : exportent) (r : reexport_type) : exportent :=
  Ent (e_hostname ep) (e_path ep) (e_flags ep) (e_anonuid ep) (e_anongid ep) (e_squids ep) (e_sqgids ep)
    (e_fsid ep) (e_mountpoint ep) (e_fslocmethod ep) (e_fslocdata ep) (e_uuid ep) (e_secinfo ep)
    (e_xprtsec ep) (e_ttl ep) (e_realpath ep) r (e_fsid_value ep).

(** The fields that [init_exportent] does not assign keep what [ee] holds. *)
Definition init_exportent (ee : exportent) (fromkernel : bool) : exportent :=
  let f := EXPORT_DEFAULT_FLAGS in
  let f := if fromkernel then Z.ldiff (Z.ldiff f NFSEXP_ASYNC) NFSEXP_GATHERED_WRITES else f in
  Ent (e_hostname ee) (e_path ee) f 65534 65534 [] [] (e_fsid ee) None FSLOC_NONE None None [] []
    default_ttl (e_realpath ee) REEXP_NONE [].

(** ** Security flavors *)

Definition find_flavor (name : cstr) : option flav_info :=
  List.find (fun f => streq (flavour f) name) flav_map.
Definition find_xprtsec_info (name : cstr) : option xprtsec_info :=
  List.find (fun i => streq (xname i) name) xprtsec_name2info.

(** The index of the first entry with a number, counted from [i]. *)
Fixpoint find_entry {A} (num : A -> Z) (n : Z) (i : nat) (l : list (entry A)) : option nat :=
  match l with
  | [] => None
  | e :: l => if num (what e) =? n then Some i else find_entry num n (S i) l
  end.

(** The new entry list and the index; index [None] is -1. *)
Definition add_entry {A} (num : A -> Z) (limit : nat) (a : A) (fl : Z) (l : list (entry A))
  : list (entry A) * option nat :=
  match find_entry num (num a) 0 l with
  | Some i => (l, Some i)
  | None => if (limit <=? length l)%nat then (l, None) else (l ++ [Entry a fl], Some (length l))
  end.

Definition secinfo_addflavor (flav : flav_info) (ep : exportent) : exportent * option nat :=
  let '(l, i) := add_entry fnum SECFLAVOR_COUNT flav (e_flags ep) (e_secinfo ep) in
  (set_secinfo ep l, i).

Definition xprtsec_addmode (info : xprtsec_info) (ep : exportent) : exportent * option nat :=
  let '(l, i) := add_entry xnumber XPRTSECMODE_COUNT info (e_flags ep) (e_xprtsec ep) in
  (set_xprtsec ep l, i).

(** The loops over a colon-separated list; the result 0 is an error. *)
Fixpoint parse_flavors_loop (names : list cstr) (ep : exportent) (out : Z) : exportent * Z :=
  match names with
  | [] => (ep, out)
  | flavor :: names =>
      match find_flavor flavor with
      | None => (ep, 0)
      | Some flav =>
          match secinfo_addflavor flav ep with
          | (ep, None) => (ep, 0)
          | (ep, Some bit) => parse_flavors_loop names ep (Z.lor out (Z.shiftl 1 (Z.of_nat bit)))
          end
      end
  end.
Definition parse_flavors (str : cstr) (ep : exportent) : exportent * Z :=
  parse_flavors_loop (split_on ":" str) ep 0.

Fixpoint parse_xprtsec_loop (names : list cstr) (ep : exportent) (out : Z) : exportent * Z :=
  match names with
  | [] => (ep, out)
  | name :: names =>
      match find_xprtsec_info name with
      | None => (ep, 0)
      | Some info =>
          match xprtsec_addmode info ep with
          | (ep, None) => (ep, 0)
          | (ep, Some bit) => parse_xprtsec_loop names ep (Z.lor out (Z.shiftl 1 (Z.of_nat bit)))
          end
      end
  end.
Definition parse_xprtsec (str : cstr) (ep : exportent) : exportent * Z :=
  parse_xprtsec_loop (split_on ":" str) ep 0.

(** [while (active)]: the entry of each bit that is set; 32 rounds empty an
    [unsigned int]. *)
Fixpoint active_loop (n : nat) (bit : nat) (active : Z) (f : Z -> Z) (l : list (entry flav_info))
  : list (entry flav_info) :=
  match n with
  | O => l
  | S n =>
      if active =? 0 then l
      else active_loop n (S bit) (Z.shiftr active 1) f
             (if Z.testbit active 0 then alter (fun e => Entry (what e) (f (flags e))) bit l else l)
  end.

Definition setflags (mask active : Z) (ep : exportent) : exportent :=
  set_secinfo (set_flags ep (Z.lor (e_flags ep) mask))
    (active_loop 32 0 active (fun f => Z.lor f mask) (e_secinfo ep)).
Definition clearflags (mask active : Z) (ep : exportent) : exportent :=
  set_secinfo (set_flags ep (Z.ldiff (e_flags ep) mask))
    (active_loop 32 0 active (fun f => Z.ldiff f mask) (e_secinfo ep)).

(** [secinfo_flags] of the kernel's export features. *)
Definition fix_pseudoflavor_flags (secinfo_flags : Z) (ep : exportent) : exportent :=
  set_secinfo ep
    ((fun e => Entry (what e) (Z.lor (flags e) (Z.ldiff (e_flags ep) secinfo_flags))) <$> e_secinfo ep).

Definition valid_uuid (uuid : cstr) : bool :=
  (length (List.filter isxdigit uuid) =? 32)%nat.

(** ** Id lists *)

(** The number at the start of a string: a sign, digits, [atoi]. *)
Definition parsenum (cp : cstr) : Z * cstr :=
  let '(sign, r) := match cp with
                    | c :: r => if ceqb c "-" then ([c], r) else ([], cp)
                    | [] => ([], cp)
                    end in
  let '(digits, rest) := span isdigit r in
  (atoi (sign ++ digits), rest).

(** [None]: -1 is returned.  Every round that does not stop consumes a comma. *)
Fixpoint parsesquash (fuel : nat) (cp : cstr) (id : list Z) : option (list Z) :=
  match fuel with
  | O => None
  | S fuel =>
      let '(id0, cp) := parsenum cp in
      let '(id1, cp) := if ceqb (deref cp) "-" then parsenum (drop 1 cp) else (id0, cp) in
      if (id0 =? -1) || (id1 =? -1) then None
      else
        let id := id ++ [id0; id1] in
        match cp with
        | [] => Some id
        | c :: cp' =>
            if ceqb c ")" || (ceqb c "," && negb (isdigit (deref cp'))) then Some id
            else if negb (ceqb c ",") then None
            else parsesquash fuel cp' id
        end
  end.

(** ** Options *)

Definition has_flag (f mask : Z) : bool := negb (Z.land f mask =? 0).

Section options.
  (** [secinfo_flags] of [get_export_features()], and
      [reexpdb_fsidnum_by_path(path, &fsidnum, may_create)] of the re-export
      database. *)
  Context (secinfo_flags : Z) (fsidnum_by_path : cstr -> bool -> option Z).

(** The entry afterwards, and whether 0 is returned. *)
Definition reexpdb_apply_reexport_settings (ep : exportent) : exportent * bool :=
  let is_v4root := has_flag (e_flags ep) NFSEXP_FSID && (e_fsid ep =? 0) in
  let agree fsidnum :=
    if negb (e_fsid ep =? 0) then (ep, e_fsid ep =? fsidnum)
    else (set_fsid ep fsidnum (e_uuid ep), true) in
  match e_reexport ep with
  | REEXP_NONE => (ep, true)
  | r =>
      match e_uuid ep with
      | Some _ => (ep, true)
      | None =>
          if is_v4root then (ep, true)
          else match fsidnum_by_path (e_path ep) false with
               | Some fsidnum => agree fsidnum
               | None =>
                   match r with
                   | REEXP_AUTO_FSIDNUM =>
                       match fsidnum_by_path (e_path ep) true with
                       | Some fsidnum => agree fsidnum
                       | None => (ep, false)
                       end
                   | _ => (ep, negb (e_fsid ep =? 0))
                   end
               end
      end
  end.

(** The options that only set ([true]) or clear a flag. *)
Definition flag_option (opt : cstr) : option (bool * Z) :=
  if streq opt $"ro" then Some (true, NFSEXP_READONLY)
  else if streq opt $"rw" then Some (false, NFSEXP_READONLY)
  else if streq opt $"secure" then Some (false, NFSEXP_INSECURE_PORT)
  else if streq opt $"insecure" then Some (true, NFSEXP_INSECURE_PORT)
  else if streq opt $"sync" then Some (false, NFSEXP_ASYNC)
  else if streq opt $"async" then Some (true, NFSEXP_ASYNC)
  else if streq opt $"nordirplus" then Some (true, NFSEXP_NOREADDIRPLUS)
  else if streq opt $"security_label" then Some (true, NFSEXP_SECURITY_LABEL)
  else if streq opt $"nohide" then Some (true, NFSEXP_NOHIDE)
  else if streq opt $"hide" then Some (false, NFSEXP_NOHIDE)
  else if streq opt $"crossmnt" then Some (true, NFSEXP_CROSSMOUNT)
  else if streq opt $"nocrossmnt" then Some (false, NFSEXP_CROSSMOUNT)
  else if streq opt $"wdelay" then Some (true, NFSEXP_GATHERED_WRITES)
  else if streq opt $"no_wdelay" then Some (false, NFSEXP_GATHERED_WRITES)
  else if streq opt $"root_squash" then Some (true, NFSEXP_ROOTSQUASH)
  else if streq opt $"no_root_squash" then Some (false, NFSEXP_ROOTSQUASH)
  else if streq opt $"all_squash" then Some (true, NFSEXP_ALLSQUASH)
  else if streq opt $"no_all_squash" then Some (false, NFSEXP_ALLSQUASH)
  else if streq opt $"subtree_check" then Some (false, NFSEXP_NOSUBTREECHECK)
  else if streq opt $"no_subtree_check" then Some (true, NFSEXP_NOSUBTREECHECK)
  else if streq opt $"auth_nlm" then Some (false, NFSEXP_NOAUTHNLM)
  else if streq opt $"no_auth_nlm" then Some (true, NFSEXP_NOAUTHNLM)
  else if streq opt $"secure_locks" then Some (false, NFSEXP_NOAUTHNLM)
  else if streq opt $"insecure_locks" then Some (true, NFSEXP_NOAUTHNLM)
  else if streq opt $"acl" then Some (false, NFSEXP_NOACL)
  else if streq opt $"no_acl" then Some (true, NFSEXP_NOACL)
  else if streq opt $"pnfs" then Some (true, NFSEXP_PNFS)
  else if streq opt $"no_pnfs" then Some (false, NFSEXP_PNFS)
  else None.

(** The variables of [parseopts]; [squids] and [sqgids] are static. *)
Record pvars := PVars
  { pv_ep : exportent; pv_active : Z; pv_saw_reexport : bool; pv_had_subtree_opt : bool;
    pv_squids : list Z; pv_sqgids : list Z }.

Definition with_ep (v : pvars) (ep : exportent) : pvars :=
  PVars ep (pv_active v) (pv_saw_reexport v) (pv_had_subtree_opt v) (pv_squids v) (pv_sqgids v).

(** One keyword: go on, or fail with the entry as it is then. *)
Inductive opt_res := OptOk (v : pvars) | OptBad (ep : exportent).

(** A number that fills the rest of an option. *)
Definition full_number (r : strto_result) (s : cstr) : bool :=
  negb (match s with [] => true | _ => false end) && match st_end r with [] => true | _ => false end.

Definition fsid_option (v : pvars) (s : cstr) : opt_res :=
  let ep := pv_ep v in
  if pv_saw_reexport v then OptBad ep
  else if streq s $"root" then
    OptOk (with_ep v (setflags NFSEXP_FSID (pv_active v) (set_fsid ep 0 (e_uuid ep))))
  else
    let r := strtoul 0 s in
    let ep := set_fsid ep (u32 (st_value r)) (e_uuid ep) in
    if full_number r s then OptOk (with_ep v (setflags NFSEXP_FSID (pv_active v) ep))
    else if valid_uuid s then OptOk (with_ep v (set_fsid ep (e_fsid ep) (Some s)))
    else OptBad ep.

Definition reexport_option (v : pvars) (strategy : cstr) : opt_res :=
  let ep := pv_ep v in
  let method := if streq strategy $"auto-fsidnum" then Some REEXP_AUTO_FSIDNUM
                else if streq strategy $"predefined-fsidnum" then Some REEXP_PREDEFINED_FSIDNUM
                else if streq strategy $"none" then Some REEXP_NONE else None in
  if pv_saw_reexport v then OptBad ep
  else match method with
       | None => OptBad ep
       | Some m =>
           let '(ep, ok) := reexpdb_apply_reexport_settings (set_reexport ep m) in
           if negb ok then OptBad ep
           else
             let ep := if negb (e_fsid ep =? 0) then setflags NFSEXP_FSID (pv_active v) ep else ep in
             OptOk (PVars ep (pv_active v) true (pv_had_subtree_opt v) (pv_squids v) (pv_sqgids v))
       end.

Definition is_mountpoint (opt : cstr) : bool :=
  streq opt $"mountpoint" || streq opt $"mp" || starts_with $"mountpoint=" opt || starts_with $"mp=" opt.

Definition parse_opt (v : pvars) (opt : cstr) : opt_res :=
  let ep := pv_ep v in
  match flag_option opt with
  | Some (set, mask) =>
      let ep := if set : bool then setflags mask (pv_active v) ep else clearflags mask (pv_active v) ep in
      OptOk (PVars ep (pv_active v) (pv_saw_reexport v)
               (if mask =? NFSEXP_NOSUBTREECHECK then true else pv_had_subtree_opt v) (pv_squids v) (pv_sqgids v))
  | None =>
      if starts_with $"anonuid=" opt then
        let r := strtol 10 (drop 8 opt) in
        let ep := set_anon ep (i32 (st_value r)) (e_anongid ep) in
        if full_number r (drop 8 opt) then OptOk (with_ep v ep) else OptBad ep
      else if starts_with $"anongid=" opt then
        let r := strtol 10 (drop 8 opt) in
        let ep := set_anon ep (e_anonuid ep) (i32 (st_value r)) in
        if full_number r (drop 8 opt) then OptOk (with_ep v ep) else OptBad ep
      else if starts_with $"squash_uids=" opt then
        match parsesquash (S (length opt)) (drop 12 opt) (pv_squids v) with
        | Some ids => OptOk (PVars ep (pv_active v) (pv_saw_reexport v) (pv_had_subtree_opt v) ids (pv_sqgids v))
        | None => OptBad ep
        end
      else if starts_with $"squash_gids=" opt then
        match parsesquash (S (length opt)) (drop 12 opt) (pv_sqgids v) with
        | Some ids => OptOk (PVars ep (pv_active v) (pv_saw_reexport v) (pv_had_subtree_opt v) (pv_squids v) ids)
        | None => OptBad ep
        end
      else if starts_with $"fsid=" opt then fsid_option v (drop 5 opt)
      else if is_mountpoint opt then
        OptOk (with_ep v (set_mountpoint ep (match strchr "=" opt with Some (_, mp) => mp | None => [] end)))
      else if starts_with $"refer=" opt then OptOk (with_ep v (set_fsloc ep FSLOC_REFER (drop 6 opt)))
      else if starts_with $"replicas=" opt then OptOk (with_ep v (set_fsloc ep FSLOC_REPLICA (drop 9 opt)))
      else if starts_with $"sec=" opt then
        let '(ep, active) := parse_flavors (drop 4 opt) ep in
        if active =? 0 then OptBad ep
        else OptOk (PVars ep active (pv_saw_reexport v) (pv_had_subtree_opt v) (pv_squids v) (pv_sqgids v))
      else if starts_with $"xprtsec=" opt then
        let '(ep, modes) := parse_xprtsec (drop 8 opt) ep in
        if modes =? 0 then OptBad ep else OptOk (with_ep v ep)
      else if starts_with $"reexport=" opt then reexport_option v (drop 9 opt)
      else OptBad (setflags (Z.lor NFSEXP_ALLSQUASH NFSEXP_READONLY) (pv_active v) ep)
  end.

(** The loop over the option string; each round consumes a character. *)
Fixpoint parseopts_loop (fuel : nat) (cp : cstr) (v : pvars) : opt_res :=
  match fuel with
  | O => OptOk v
  | S fuel =>
      match cp with
      | [] => OptOk v
      | _ =>
          let '(opt, cp) := match strchr "," cp with Some (a, b) => (a, b) | None => (cp, []) end in
          match parse_opt v opt with
          | OptOk v => parseopts_loop fuel (skip_while isblank cp) v
          | bad => bad
          end
      end
  end.

(** The entry and [had_subtree_opt], or the entry left behind by a failure. *)
Definition parseopts (cp : option cstr) (ep : exportent) : (exportent * bool) + exportent :=
  match cp with
  | None => inl (ep, false)
  | Some cp =>
      let cp := skip_while isblank cp in
      match parseopts_loop (S (length cp)) cp (PVars ep 0 false false (e_squids ep) (e_sqgids ep)) with
      | OptOk v => inl (set_squash (fix_pseudoflavor_flags secinfo_flags (pv_ep v)) (pv_squids v) (pv_sqgids v),
                        pv_had_subtree_opt v)
      | OptBad ep => inr ep
      end
  end.

(** [mkexportent]: [ee] is the static entry, [None] the NULL result. *)
Definition mkexportent (ee : exportent) (hname path : cstr) (options : option cstr) : exportent * option exportent :=
  let ee := init_exportent ee false in
  let ee := Ent (Some hname) (e_path ee) (e_flags ee) (e_anonuid ee) (e_anongid ee) (e_squids ee) (e_sqgids ee)
              (e_fsid ee) (e_mountpoint ee) (e_fslocmethod ee) (e_fslocdata ee) (e_uuid ee) (e_secinfo ee)
              (e_xprtsec ee) (e_ttl ee) None (e_reexport ee) (e_fsid_value ee) in
  if Z.of_nat (length path) >=? NFS_MAXPATHLEN + 1 then (ee, None)
  else
    let ee := Ent (e_hostname ee) path (e_flags ee) (e_anonuid ee) (e_anongid ee) (e_squids ee) (e_sqgids ee)
                (e_fsid ee) (e_mountpoint ee) (e_fslocmethod ee) (e_fslocdata ee) (e_uuid ee) (e_secinfo ee)
                (e_xprtsec ee) (e_ttl ee) (e_realpath ee) (e_reexport ee) (e_fsid_value ee) in
    match parseopts options ee with
    | inl (ee, _) => (ee, Some ee)
    | inr ee => (ee, None)
    end.

Definition updateexportent (eep : exportent) (options : option cstr) : exportent * bool :=
  match parseopts options eep with
  | inl (eep, _) => (eep, true)
  | inr eep => (eep, false)
  end.

End options.

(** A copy that shares nothing with its source. *)
Definition dupexportent (src : exportent) : exportent :=
  Ent None (e_path src) (e_flags src) (e_anonuid src) (e_anongid src) (e_squids src) (e_sqgids src)
    (e_fsid src) (e_mountpoint src) (e_fslocmethod src) (e_fslocdata src) (e_uuid src) (e_secinfo src)
    (e_xprtsec src) (e_ttl src) None (e_reexport src) (e_fsid_value src).

(** ** Printing *)

Definition secinfo_flag_displaymap : list (Z * cstr * cstr) :=
  [(NFSEXP_READONLY, $"ro", $"rw"); (NFSEXP_INSECURE_PORT, $"insecure", $"secure");
   (NFSEXP_ROOTSQUASH, $"root_squash", $"no_root_squash"); (NFSEXP_ALLSQUASH, $"all_squash", $"no_all_squash")].

Definition secinfo_flags_show (fl mask : Z) : cstr :=
  mjoin ((fun '(flag, set, unset) =>
            if has_flag mask flag then $"," ++ (if has_flag fl flag then set else unset) else [])
         <$> secinfo_flag_displaymap).

(** The names listed behind the first one of a group: those with its flags. *)
Fixpoint group_names {A} (name : A -> cstr) (fl : Z) (l : list (entry A)) : cstr * list (entry A) :=
  match l with
  | e :: l' => if fl =? flags e then let '(s, r) := group_names name fl l' in ($":" ++ name (what e) ++ s, r)
               else ([], l)
  | [] => ([], [])
  end.

(** Groups of equal flags; each round consumes an entry. *)
Fixpoint show_groups {A} (fuel : nat) (name : A -> cstr) (prefix : cstr) (show : Z -> cstr) (l : list (entry A)) : cstr :=
  match fuel, l with
  | S fuel, e :: l =>
      let '(s, r) := group_names name (flags e) l in
      prefix ++ name (what e) ++ s ++ show (flags e) ++ show_groups fuel name prefix show r
  | _, _ => []
  end.

(** [secinfo_show] adds the flavor sys to an entry without flavors. *)
Definition secinfo_show (secinfo_flags : Z) (ep : exportent) : exportent * cstr :=
  let ep := match e_secinfo ep, find_flavor $"sys" with
            | [], Some sys => (secinfo_addflavor sys ep).1
            | _, _ => ep
            end in
  (ep, show_groups (length (e_secinfo ep)) flavour $",sec=" (fun fl => secinfo_flags_show fl secinfo_flags) (e_secinfo ep)).

Definition xprtsecinfo_show (ep : exportent) : cstr :=
  show_groups (length (e_xprtsec ep)) xname $",xprtsec=" (fun _ => []) (e_xprtsec ep).

Definition path_char (c : ascii) : cstr :=
  if iscntrl c || ceqb c DQUOTE || ceqb c BSLASH || ceqb c "#" || isspace c
  then BSLASH :: pad0 3 (utoa 8 (uchar c)) else [c].
Definition fprintpath (path : cstr) : cstr := mjoin (path_char <$> path).

(** The id pairs up to index [n]; [None]: the array is read beyond its end. *)
Fixpoint show_ids (n : Z) (ids : list Z) : option cstr :=
  if n <=? 0 then Some []
  else match ids with
       | a :: b :: ids =>
           match show_ids (n - 2) ids with
           | Some r => Some ((if negb (a =? b) then itoa a ++ $"-" ++ itoa b else itoa a) ++ $"," ++ r)
           | None => None
           end
       | _ => None
       end.

Definition opt_text (b : bool) (yes no : cstr) : cstr := if b then yes else no.

(** The options of [putexportent] before the id lists. *)
Definition put_flags (ep : exportent) : cstr :=
  let f := e_flags ep in
  opt_text (has_flag f NFSEXP_READONLY) $"ro" $"rw" ++ $"," ++
  opt_text (has_flag f NFSEXP_ASYNC) $"a" [] ++ $"sync," ++
  opt_text (has_flag f NFSEXP_GATHERED_WRITES) [] $"no_" ++ $"wdelay," ++
  opt_text (has_flag f NFSEXP_NOHIDE) $"no" [] ++ $"hide," ++
  opt_text (has_flag f NFSEXP_CROSSMOUNT) [] $"no" ++ $"crossmnt," ++
  opt_text (has_flag f NFSEXP_INSECURE_PORT) $"in" [] ++ $"secure," ++
  opt_text (has_flag f NFSEXP_ROOTSQUASH) [] $"no_" ++ $"root_squash," ++
  opt_text (has_flag f NFSEXP_ALLSQUASH) [] $"no_" ++ $"all_squash," ++
  opt_text (has_flag f NFSEXP_NOSUBTREECHECK) $"no_" [] ++ $"subtree_check," ++
  opt_text (has_flag f NFSEXP_NOAUTHNLM) $"in" [] ++ $"secure_locks," ++
  opt_text (has_flag f NFSEXP_NOACL) $"no_" [] ++ $"acl," ++
  opt_text (has_flag f NFSEXP_NOREADDIRPLUS) $"nordirplus," [] ++
  opt_text (has_flag f NFSEXP_SECURITY_LABEL) $"security_label," [] ++
  opt_text (has_flag f NFSEXP_PNFS) [] $"no_" ++ $"pnfs,".

Definition put_fsid (ep : exportent) : cstr :=
  opt_text (has_flag (e_flags ep) NFSEXP_FSID) ($"fsid=" ++ itoa (i32 (e_fsid ep)) ++ $",") [] ++
  match e_uuid ep with Some u => $"fsid=" ++ u ++ $"," | None => [] end ++
  match e_reexport ep with
  | REEXP_NONE => []
  | REEXP_AUTO_FSIDNUM => $"reexport=auto-fsidnum,"
  | REEXP_PREDEFINED_FSIDNUM => $"reexport=predefined-fsidnum,"
  end.

Definition put_locations (ep : exportent) : cstr :=
  match e_mountpoint ep with
  | Some m => $"mountpoint" ++ (match m with [] => [] | _ => $"=" end) ++ m ++ $","
  | None => []
  end ++
  match e_fslocmethod ep with
  | FSLOC_NONE => []
  | FSLOC_REFER => $"refer=" ++ fprintpath (default [] (e_fslocdata ep)) ++ $","
  | FSLOC_REPLICA => $"replicas=" ++ fprintpath (default [] (e_fslocdata ep)) ++ $","
  end.

(** Both lists run up to the number of uids, as the code has it. *)
Definition put_ids (ep : exportent) : option cstr :=
  let n := Z.of_nat (length (e_squids ep)) in
  match (match e_squids ep with [] => Some [] | ids => app $"squash_uids=" <$> show_ids n ids end),
        (match e_sqgids ep with [] => Some [] | ids => app $"squash_gids=" <$> show_ids n ids end) with
  | Some u, Some g => Some (u ++ g)
  | _, _ => None
  end.

Definition put_options (secinfo_flags : Z) (ep : exportent) : option cstr :=
  match put_ids ep with
  | None => None
  | Some ids =>
      Some (put_flags ep ++ put_fsid ep ++ put_locations ep ++ ids ++
            $"anonuid=" ++ itoa (e_anonuid ep) ++ $",anongid=" ++ itoa (e_anongid ep) ++
            (secinfo_show secinfo_flags ep).2 ++ xprtsecinfo_show (secinfo_show secinfo_flags ep).1)
  end.

Definition putexportent (secinfo_flags : Z) (ep : exportent) : option cstr :=
  match put_options secinfo_flags ep with
  | Some opts => Some (fprintpath (e_path ep) ++ [TAB] ++ default [] (e_hostname ep) ++ $"(" ++ opts ++ $")" ++ [NL])
  | None => None
  end.

(** ** Tries *)

Definition no_ent : exportent :=
  Ent None [] 0 0 0 [] [] 0 None FSLOC_NONE None None [] [] 0 None REEXP_NONE [].

Example parse_sec_groups :
  match mkexportent 15 (fun _ _ => None) no_ent $"h" $"/p" (Some $"sec=sys:krb5,ro,sec=krb5,rw, anonuid=-2") with
  | (_, Some ee) => (flags <$> e_secinfo ee, e_flags ee, e_anonuid ee)
  | _ => ([], 0, 0)
  end = ([0x425; 0x424], 0x424, -2).
Proof. vm_compute. reflexivity. Qed.

(** ** Flags of the active flavors *)

Definition map_flags (f : Z -> Z) (e : entry flav_info) : entry flav_info := Entry (what e) (f (flags e)).

Lemma active_loop_lookup n bit active f l j :
  0 <= active < 2 ^ Z.of_nat n ->
  active_loop n bit active f l !! j =
    (if (bit <=? j)%nat && Z.testbit active (Z.of_nat (j - bit)) then map_flags f else id) <$> l !! j.
Proof.
  revert bit active l. induction n as [|n IH]; intros bit active l H.
  { replace active with 0 by (cbn in H; lia). rewrite Z.bits_0, andb_false_r. cbv iota. by rewrite option_fmap_id. }
  cbn [active_loop]. destruct (active =? 0) eqn:E.
  { btrue. subst. rewrite Z.bits_0, andb_false_r. cbv iota. by rewrite option_fmap_id. }
  rewrite Nat2Z.inj_succ, Z.pow_succ_r in H by lia.
  assert (0 <= Z.shiftr active 1 < 2 ^ Z.of_nat n) as Hs.
  { rewrite Z.shiftr_div_pow2 by lia. change (2 ^ 1) with 2. split; [apply Z.div_pos; lia|apply Z.div_lt_upper_bound; lia]. }
  rewrite IH by done. rewrite Z.shiftr_spec by lia.
  destruct (decide (j = bit)) as [->|Hj].
  - rewrite (proj2 (Nat.leb_gt (S bit) bit)), (proj2 (Nat.leb_le bit bit)) by lia. cbn [andb].
    rewrite Nat.sub_diag. change (Z.of_nat 0) with 0. rewrite option_fmap_id.
    destruct (Z.testbit active 0); [by rewrite list_lookup_alter_eq|by rewrite option_fmap_id].
  - assert ((if Z.testbit active 0 then alter (fun e => Entry (what e) (f (flags e))) bit l else l) !! j = l !! j) as ->.
    { destruct (Z.testbit active 0); [by rewrite list_lookup_alter_ne|done]. }
    destruct (Nat.leb_spec (S bit) j).
    + rewrite (proj2 (Nat.leb_le bit j)) by lia. cbn [andb].
      replace (Z.of_nat (j - S bit) + 1) with (Z.of_nat (j - bit)) by lia. done.
    + rewrite (proj2 (Nat.leb_gt bit j)) by lia. done.
Qed.

(** Setting and clearing flags, as one function of the option's direction. *)
Definition put_flag (set : bool) (mask f : Z) : Z := if set then Z.lor f mask else Z.ldiff f mask.

Lemma put_flag_testbit set mask f i :
  Z.testbit (put_flag set mask f) i = if Z.testbit mask i then set else Z.testbit f i.
Proof.
  unfold put_flag. destruct set; [rewrite Z.lor_spec|rewrite Z.ldiff_spec];
    by destruct (Z.testbit f i), (Z.testbit mask i).
Qed.

(** The entry with its flags changed by an option. *)
Definition change_flags (set : bool) (mask active : Z) (ep : exportent) : exportent :=
  set_secinfo (set_flags ep (put_flag set mask (e_flags ep)))
    (imap (fun j e => if Z.testbit active (Z.of_nat j) then map_flags (put_flag set mask) e else e) (e_secinfo ep)).

Lemma active_loop_imap active f l :
  0 <= active < 2 ^ 32 ->
  active_loop 32 0 active f l = imap (fun j e => if Z.testbit active (Z.of_nat j) then map_flags f e else e) l.
Proof.
  intros H. apply list_eq. intros j. rewrite active_loop_lookup by done. rewrite list_lookup_imap.
  cbn [Nat.leb andb]. rewrite Nat.sub_0_r. destruct (l !! j); cbn; [|done]. by destruct (Z.testbit active _).
Qed.

Lemma change_flags_spec (set : bool) mask active ep :
  0 <= active < 2 ^ 32 ->
  (if set then setflags mask active ep else clearflags mask active ep) = change_flags set mask active ep.
Proof.
  intros H. unfold setflags, clearflags, change_flags.
  destruct set; by rewrite active_loop_imap.
Qed.

(** ** The list of flavors *)

(** Entries of the table, one for each flavor number. *)
Definition entries_ok {A} (num : A -> Z) (table : list A) (l : list (entry A)) : Prop :=
  Forall (fun e => what e ∈ table) l /\ NoDup ((num ∘ what) <$> l).

Lemma entries_length {A} (num : A -> Z) table l (nums : list Z) :
  entries_ok num table l -> (forall a, a ∈ table -> num a ∈ nums) -> (length l <= length nums)%nat.
Proof.
  intros [Ht Hnd] Hsub. rewrite <- (length_fmap (num ∘ what)).
  apply submseteq_length, NoDup_submseteq; [done|].
  intros z (e & -> & He)%list_elem_of_fmap. rewrite Forall_forall in Ht. by apply Hsub, Ht.
Qed.

Lemma find_entry_spec {A} (num : A -> Z) n i l :
  match find_entry num n i l with
  | Some j => exists k e, j = (i + k)%nat /\ l !! k = Some e /\ num (what e) = n
  | None => Forall (fun e => num (what e) <> n) l
  end.
Proof.
  revert i; induction l as [|e l IH]; intros i; cbn; [constructor|].
  destruct (num (what e) =? n) eqn:E; btrue; [by exists 0%nat, e; rewrite Nat.add_0_r|].
  specialize (IH (S i)). destruct (find_entry num n (S i) l) as [j|]; [|by constructor].
  destruct IH as (k & e' & -> & ? & ?). exists (S k), e'. split; [lia|done].
Qed.

Lemma add_entry_ok {A} (num : A -> Z) table limit nums (a : A) fl l :
  a ∈ table -> (forall a, a ∈ table -> num a ∈ nums) -> (length nums <= limit)%nat ->
  entries_ok num table l ->
  exists l' i e, add_entry num limit a fl l = (l', Some i) /\ entries_ok num table l' /\
    l `prefix_of` l' /\ l' !! i = Some e /\ num (what e) = num a.
Proof.
  intros Ha Hsub Hlim Hok. unfold add_entry. pose proof (find_entry_spec num (num a) 0 l) as Hf.
  destruct (find_entry num (num a) 0 l) as [i|].
  { destruct Hf as (k & e & -> & Hk & He). by exists l, k, e. }
  assert (entries_ok num table (l ++ [Entry a fl])) as Hok'.
  { destruct Hok as [Ht Hnd]. split; [apply Forall_app; auto|]. rewrite fmap_app. apply NoDup_app.
    split; [done|]. split; [|apply NoDup_singleton].
    intros z (e & Ez & He)%list_elem_of_fmap Hz. cbn in Hz. apply list_elem_of_singleton in Hz.
    rewrite Forall_forall in Hf. apply (Hf e He). unfold compose in Ez. cbn in Hz. congruence. }
  pose proof (entries_length _ _ _ nums Hok' Hsub) as Hlen. rewrite length_app in Hlen. cbn in Hlen.
  destruct (Nat.leb_spec limit (length l)); [lia|].
  exists (l ++ [Entry a fl]), (length l), (Entry a fl). split_and!; try done.
  - by apply prefix_app_r.
  - by rewrite lookup_app_r, Nat.sub_diag.
Qed.

Definition secinfo_ok (ep : exportent) : Prop := entries_ok fnum flav_map (e_secinfo ep).
Definition flavor_numbers : list Z := [390003; 390004; 390005; 1; 0].

Lemma flavor_numbers_ok a : a ∈ flav_map -> fnum a ∈ flavor_numbers.
Proof. rewrite !list_elem_of_In. cbn. intros H. repeat destruct H as [<-|H]; cbn; auto 6. Qed.

Lemma find_flavor_ok name f : find_flavor name = Some f -> f ∈ flav_map.
Proof. intros [H _]%List.find_some. by apply list_elem_of_In. Qed.

Lemma lor_range a b n : 0 <= a < 2 ^ n -> 0 <= b < 2 ^ n -> 0 <= Z.lor a b < 2 ^ n.
Proof.
  intros Ha Hb. assert (0 <= Z.lor a b) as H0 by (apply Z.lor_nonneg; lia). split; [done|].
  destruct (Z.eq_dec (Z.lor a b) 0) as [->|]; [lia|].
  assert (0 <= n) by (destruct (Z.neg_nonneg_cases n); [rewrite Z.pow_neg_r in *; lia|done]).
  apply Z.log2_lt_pow2; [lia|]. rewrite Z.log2_lor by lia. apply Z.max_lub_lt.
  - destruct (Z.eq_dec a 0) as [->|]; [|apply Z.log2_lt_pow2; lia]. cbn.
    destruct (Z.eq_dec n 0) as [->|]; [|lia]. assert (b = 0) as -> by (cbn in Hb; lia). done.
  - destruct (Z.eq_dec b 0) as [->|]; [|apply Z.log2_lt_pow2; lia]. cbn.
    destruct (Z.eq_dec n 0) as [->|]; [|lia]. assert (a = 0) as -> by (cbn in Ha; lia). done.
Qed.

Lemma lor_bit_range out i n :
  0 <= out < 2 ^ n -> Z.of_nat i < n -> 0 < Z.lor out (Z.shiftl 1 (Z.of_nat i)) < 2 ^ n.
Proof.
  intros Ho Hi. rewrite Z.shiftl_mul_pow2, Z.mul_1_l by lia.
  assert (0 < 2 ^ Z.of_nat i) by (apply Z.pow_pos_nonneg; lia).
  assert (2 ^ Z.of_nat i < 2 ^ n) by (apply Z.pow_lt_mono_r; lia).
  pose proof (lor_range out (2 ^ Z.of_nat i) n ltac:(lia) ltac:(lia)).
  destruct (Z.eq_dec (Z.lor out (2 ^ Z.of_nat i)) 0) as [E|]; [|lia]. apply Z.lor_eq_0_iff in E. lia.
Qed.

Abbreviation unknown := (fun n => find_flavor n = None).

Lemma parse_flavors_loop_spec names ep out :
  secinfo_ok ep -> 0 <= out < 2 ^ 5 ->
  let r := parse_flavors_loop names ep out in
  secinfo_ok r.1 /\ 0 <= r.2 < 2 ^ 5 /\
  (Exists unknown names -> r.2 = 0) /\
  (Forall (fun n => find_flavor n <> None) names -> names <> [] \/ 0 < out -> 0 < r.2).
Proof.
  revert ep out. induction names as [|n names IH]; intros ep out Hok Hout; cbn [parse_flavors_loop].
  { cbn. split_and!; try done; try lia; [by intros ?%Exists_nil|]. by intros _ [?|?]. }
  destruct (find_flavor n) as [f|] eqn:Ef.
  2: { cbn. split_and!; try done; try lia. by intros [? _]%Forall_cons. }
  unfold secinfo_addflavor.
  destruct (add_entry_ok fnum flav_map SECFLAVOR_COUNT flavor_numbers f (e_flags ep) (e_secinfo ep))
    as (l' & i & e & -> & Hok' & _ & Hi & _); [by eapply find_flavor_ok|apply flavor_numbers_ok|by vm_compute; lia|done|].
  pose proof (entries_length _ _ _ flavor_numbers Hok' flavor_numbers_ok) as Hlen.
  apply lookup_lt_Some in Hi. cbn in Hlen.
  pose proof (lor_bit_range out i 5 Hout ltac:(lia)) as Hnew.
  destruct (IH (set_secinfo ep l') (Z.lor out (Z.shiftl 1 (Z.of_nat i)))) as (H1 & H2 & H3 & H4); [done|lia|].
  split_and!; try tauto.
  - intros [?|?]%Exists_cons; [congruence|]. by apply H3.
  - intros [_ Hk]%Forall_cons _. apply H4; [done|]. right. lia.
Qed.

Lemma split_on_nonempty c s : split_on c s <> [].
Proof. destruct s as [|d s]; [done|]. cbn. destruct (ceqb d c); [done|]. by destruct (split_on c s). Qed.

(** The flavor list of an entry always holds flavors of the table, one per
    flavor number, hence at most five: parsing [sec=] never overruns the array
    of eight, it fails only on an unknown name, and otherwise returns a
    non-empty set of indices below five. *)
Theorem parse_flavors_bounded str ep :
  secinfo_ok ep ->
  secinfo_ok (parse_flavors str ep).1 /\ (length (e_secinfo (parse_flavors str ep).1) <= 5)%nat /\
  ((parse_flavors str ep).2 = 0 <-> Exists unknown (split_on ":" str)) /\
  0 <= (parse_flavors str ep).2 < 2 ^ 5.
Proof.
  intros Hok. destruct (parse_flavors_loop_spec (split_on ":" str) ep 0 Hok ltac:(lia)) as (H1 & H2 & H3 & H4).
  fold (parse_flavors str ep) in *. split_and!; try tauto; try lia.
  - apply (entries_length _ _ _ flavor_numbers H1 flavor_numbers_ok).
  - split; [|done]. intros Hz. destruct (decide (Exists unknown (split_on ":" str))) as [|Hn]; [done|].
    apply not_Exists_Forall in Hn; [|solve_decision].
    assert (0 < (parse_flavors str ep).2) by (apply H4; [done|left; apply split_on_nonempty]). lia.
Qed.

Lemma parse_flavors_bounded_witness :
  secinfo_ok no_ent /\ (length (e_secinfo (parse_flavors $"sys:krb5:unix:none" no_ent).1) <= 5)%nat.
Proof.
  assert (secinfo_ok no_ent) as H by (split; constructor). split; [exact H|].
  apply parse_flavors_bounded. exact H.
Defined.

(** A flag option changes exactly its own bit, in the flags of the export
    and in those of the flavors that the last [sec=] made active; every other
    bit and every other flavor keeps its flags. *)
Theorem parse_opt_flag_scope db v opt set mask :
  flag_option opt = Some (set, mask) -> 0 <= pv_active v < 2 ^ 32 ->
  exists v', parse_opt db v opt = OptOk v' /\
    (forall i, Z.testbit (e_flags (pv_ep v')) i
               = if Z.testbit mask i then set else Z.testbit (e_flags (pv_ep v)) i) /\
    length (e_secinfo (pv_ep v')) = length (e_secinfo (pv_ep v)) /\
    (forall j e e', e_secinfo (pv_ep v) !! j = Some e -> e_secinfo (pv_ep v') !! j = Some e' ->
       what e' = what e /\
       forall i, Z.testbit (flags e') i
                 = if Z.testbit mask i && Z.testbit (pv_active v) (Z.of_nat j) then set else Z.testbit (flags e) i).
Proof.
  intros Ho Ha. unfold parse_opt. rewrite Ho. cbv zeta. rewrite change_flags_spec by done.
  eexists. split; [done|]. cbn [pv_ep change_flags set_secinfo set_flags e_flags e_secinfo].
  split; [|split].
  - intros i. apply put_flag_testbit.
  - apply length_imap.
  - intros j e e' He. rewrite list_lookup_imap, He. cbn. intros [= <-].
    destruct (Z.testbit (pv_active v) (Z.of_nat j)); cbn; (split; [done|]); intros i.
    + rewrite put_flag_testbit. by rewrite andb_true_r.
    + by rewrite andb_false_r.
Qed.

Lemma parse_opt_flag_scope_witness :
  let v := PVars (parse_flavors $"sys:krb5" no_ent).1 2 false false [] [] in
  exists v', parse_opt (fun _ _ => None) v $"ro" = OptOk v' /\
    (forall i, Z.testbit (e_flags (pv_ep v')) i
               = if Z.testbit NFSEXP_READONLY i then true else Z.testbit (e_flags (pv_ep v)) i).
Proof.
  intros v. destruct (parse_opt_flag_scope (fun _ _ => None) v $"ro" true NFSEXP_READONLY) as (v' & E & H & _);
    [reflexivity|split; vm_compute; congruence|]. by exists v'.
Defined.

(** An unknown keyword makes the whole option string fail, and the entry it
    leaves behind is read-only with all users squashed. *)
Theorem parse_opt_unknown db v opt :
  flag_option opt = None ->
  Forall (fun p => starts_with p opt = false)
    [$"anonuid="; $"anongid="; $"squash_uids="; $"squash_gids="; $"fsid="; $"mountpoint="; $"mp=";
     $"refer="; $"replicas="; $"sec="; $"xprtsec="; $"reexport="] ->
  opt <> $"mountpoint" -> opt <> $"mp" -> 0 <= pv_active v < 2 ^ 32 ->
  exists ep, parse_opt db v opt = OptBad ep /\
    has_flag (e_flags ep) NFSEXP_READONLY = true /\ has_flag (e_flags ep) NFSEXP_ALLSQUASH = true.
Proof.
  intros Hf Hp Hm1 Hm2 Ha. repeat (apply Forall_cons in Hp as [? Hp]).
  exists (setflags (Z.lor NFSEXP_ALLSQUASH NFSEXP_READONLY) (pv_active v) (pv_ep v)). split.
  - unfold parse_opt, is_mountpoint. rewrite Hf.
    repeat match goal with H : starts_with _ _ = false |- _ => rewrite H; clear H end.
    by rewrite (proj2 (streq_false opt $"mountpoint")), (proj2 (streq_false opt $"mp")).
  - assert (forall k, 0 <= k -> Z.testbit (Z.lor NFSEXP_ALLSQUASH NFSEXP_READONLY) k = true ->
      has_flag (e_flags (setflags (Z.lor NFSEXP_ALLSQUASH NFSEXP_READONLY) (pv_active v) (pv_ep v))) (2 ^ k) = true) as Hb.
    { intros k Hk Hbit. unfold has_flag. apply negb_true_iff, Z.eqb_neq. intros Hz.
      apply (f_equal (fun z => Z.testbit z k)) in Hz. rewrite Z.land_spec, Z.pow2_bits_true, Z.bits_0 in Hz by done.
      cbn [setflags set_secinfo set_flags e_flags] in Hz. rewrite Z.lor_spec, Hbit, orb_true_r in Hz. done. }
    split; [apply (Hb 0)|apply (Hb 3)]; done.
Qed.

Lemma parse_opt_unknown_witness :
  exists ep, parse_opt (fun _ _ => None) (PVars no_ent 0 false false [] []) $"readonly" = OptBad ep /\
    has_flag (e_flags ep) NFSEXP_READONLY = true /\ has_flag (e_flags ep) NFSEXP_ALLSQUASH = true.
Proof.
  apply parse_opt_unknown; try reflexivity; try discriminate; [|split; vm_compute; congruence].
  repeat (apply Forall_cons; split; [reflexivity|]). by apply Forall_nil.
Defined.

(** ** What the options do not do *)

(** An entry made for a second export keeps the fsid of the first:
    [init_exportent] does not reset [e_fsid], and [reexport=none] then turns the
    stale number into an fsid of the second export. *)
Theorem mkexportent_stale_fsid m db h1 p1 ee h2 p2 :
  Z.of_nat (length p2) <= NFS_MAXPATHLEN ->
  e_fsid (mkexportent m db ee h1 p1 (Some $"fsid=7")).1 = 7 ->
  match mkexportent m db (mkexportent m db ee h1 p1 (Some $"fsid=7")).1 h2 p2 (Some $"reexport=none") with
  | (_, Some ep) => e_fsid ep = 7 /\ has_flag (e_flags ep) NFSEXP_FSID = true
  | (_, None) => False
  end.
Proof.
  intros Hp Hf. set (ee1 := (mkexportent m db ee h1 p1 (Some $"fsid=7")).1) in *. clearbody ee1.
  unfold mkexportent. destruct (Z.of_nat (length p2) >=? NFS_MAXPATHLEN + 1) eqn:E.
  { apply Z.geb_le in E. lia. }
  unfold init_exportent. rewrite Hf. cbn -[Z.lor]. by split.
Qed.

Lemma mkexportent_stale_fsid_witness :
  match mkexportent 15 (fun _ _ => None) (mkexportent 15 (fun _ _ => None) no_ent $"a" $"/a" (Some $"fsid=7")).1
          $"b" $"/b" (Some $"reexport=none") with
  | (_, Some ep) => e_fsid ep = 7 /\ has_flag (e_flags ep) NFSEXP_FSID = true
  | (_, None) => False
  end.
Proof. apply mkexportent_stale_fsid; [vm_compute; congruence|reflexivity]. Defined.

Lemma reexpdb_uuid db ep u : e_uuid ep = Some u -> reexpdb_apply_reexport_settings db ep = (ep, true).
Proof. intros H. unfold reexpdb_apply_reexport_settings. rewrite H. by destruct (e_reexport ep). Qed.

(** A uuid that starts with a digit other than zero and is followed by a
    re-export method gives the export a numeric fsid too, made of the uuid's
    leading digits: [strtoul] has already stored them when the uuid is
    recognised. *)
Theorem uuid_reexport_fsid db v u method :
  streq u $"root" = false -> full_number (strtoul 0 u) u = false -> valid_uuid u = true ->
  u32 (st_value (strtoul 0 u)) <> 0 -> pv_saw_reexport v = false -> 0 <= pv_active v < 2 ^ 32 ->
  method = $"auto-fsidnum" \/ method = $"predefined-fsidnum" ->
  exists v1 v2, parse_opt db v ($"fsid=" ++ u) = OptOk v1 /\ parse_opt db v1 ($"reexport=" ++ method) = OptOk v2 /\
    e_uuid (pv_ep v2) = Some u /\ e_fsid (pv_ep v2) = u32 (st_value (strtoul 0 u)) /\
    Z.testbit (e_flags (pv_ep v2)) 13 = true.
Proof.
  intros Hroot Hfull Hval Hnz Hsaw Ha Hm.
  set (n := u32 (st_value (strtoul 0 u))) in *.
  set (v1 := with_ep v (set_fsid (set_fsid (pv_ep v) n (e_uuid (pv_ep v))) n (Some u))).
  set (ep2 := set_reexport (pv_ep v1) (if streq method $"auto-fsidnum" then REEXP_AUTO_FSIDNUM else REEXP_PREDEFINED_FSIDNUM)).
  exists v1, (PVars (setflags NFSEXP_FSID (pv_active v) ep2) (pv_active v) true (pv_had_subtree_opt v) (pv_squids v) (pv_sqgids v)).
  split_and!.
  - assert (parse_opt db v ($"fsid=" ++ u) = fsid_option v u) as -> by done.
    unfold fsid_option. by rewrite Hsaw, Hroot, Hfull, Hval.
  - assert (forall m, parse_opt db v1 ($"reexport=" ++ m) = reexport_option db v1 m) as -> by done.
    unfold reexport_option. cbn [pv_saw_reexport v1 with_ep]. rewrite Hsaw.
    assert (forall x, (e_fsid (set_reexport (pv_ep v1) x) =? 0) = false) as Hz by (intros; by apply Z.eqb_neq).
    unfold ep2. destruct Hm as [-> | ->]; rewrite ?streq_refl;
      [|change (streq $"predefined-fsidnum" $"auto-fsidnum") with false; rewrite ?streq_refl]; cbv iota;
      rewrite (reexpdb_uuid db _ u) by done; cbn [negb]; by rewrite Hz.
  - done.
  - done.
  - cbn [pv_ep setflags set_secinfo set_flags e_flags]. rewrite Z.lor_spec. apply orb_true_r.
Qed.

Definition some_uuid : cstr := $"12345678-9abc-def0-1234-56789abcdef0".

Lemma uuid_reexport_fsid_witness :
  exists v1 v2, parse_opt (fun _ _ => None) (PVars no_ent 0 false false [] []) ($"fsid=" ++ some_uuid) = OptOk v1 /\
    parse_opt (fun _ _ => None) v1 $"reexport=auto-fsidnum" = OptOk v2 /\
    e_uuid (pv_ep v2) = Some some_uuid /\ e_fsid (pv_ep v2) = u32 (st_value (strtoul 0 some_uuid)) /\
    Z.testbit (e_flags (pv_ep v2)) 13 = true.
Proof.
  apply (uuid_reexport_fsid (fun _ _ => None) (PVars no_ent 0 false false [] []) some_uuid $"auto-fsidnum");
    try reflexivity; [vm_compute; congruence|split; vm_compute; congruence|by left].
Defined.

(** No keyword starts with a digit. *)
Lemma parse_opt_digit db v opt : isdigit (deref opt) = true -> exists ep, parse_opt db v opt = OptBad ep.
Proof.
  intros Hd. destruct opt as [|c opt]; [done|]. cbn [deref] in Hd.
  assert (forall k, isdigit (deref k) = false -> streq (c :: opt) k = false) as Hk.
  { intros k Hn. apply streq_false. intros <-. cbn in Hn. congruence. }
  assert (forall k, k <> [] -> isdigit (deref k) = false -> starts_with k (c :: opt) = false) as Hp.
  { intros [|x k] Hne Hn; [done|]. cbn in *. destruct (ceqb x c) eqn:E; [|done]. btrue. congruence. }
  unfold parse_opt, flag_option, is_mountpoint. rewrite !Hk by done. rewrite !Hp by done. by eexists.
Qed.

Lemma utoa_first n : 0 <= n -> isdigit (deref (utoa 10 n)) = true.
Proof.
  intros Hn. pose proof (utoa_digits 10 n ltac:(lia)) as H. pose proof (utoa_nonempty 10 n).
  destruct (utoa 10 n) as [|c s]; [done|]. apply Forall_cons in H as [H _]. cbn.
  revert H. all_chars c; vm_compute; congruence.
Qed.

Lemma utoa_no_comma n : ","%char ∉ utoa 10 n.
Proof.
  intros H. pose proof (utoa_digits 10 n ltac:(lia)) as Hd. rewrite Forall_forall in Hd.
  specialize (Hd _ H). revert Hd. by vm_compute.
Qed.

(** One round of the option loop. *)
Lemma parseopts_loop_token db fuel tok rest v :
  (length (tok ++ ","%char :: rest) < fuel)%nat -> ","%char ∉ tok -> isblank (deref rest) = false ->
  exists fuel', (length rest < fuel')%nat /\
    parseopts_loop db fuel (tok ++ ","%char :: rest) v =
      match parse_opt db v tok with
      | OptOk v => parseopts_loop db fuel' rest v
      | OptBad ep => OptBad ep
      end.
Proof.
  intros Hf Hc Hb. destruct fuel as [|fuel]; [lia|]. exists fuel. rewrite length_app in Hf. cbn in Hf.
  split; [lia|]. cbn [parseopts_loop]. rewrite strchr_app by done.
  assert (skip_while isblank rest = rest) as -> by (destruct rest; [done|by apply skip_while_head]).
  destruct (tok ++ ","%char :: rest) eqn:E; [by apply app_eq_nil in E as [_ ?]|]. by destruct (parse_opt db v tok).
Qed.

Lemma digit_not_blank c : isdigit c = true -> isblank c = false.
Proof. all_chars c; by vm_compute. Qed.

(** A list of squashed ids cannot be read back: [putexportent] separates
    the ranges with the comma that ends an option, so the second range is taken
    for an unknown keyword; and the gid list is printed up to the number of
    uids, short of its end or beyond it. *)
Theorem squash_lists_broken :
  (forall m db ep a b rest, 0 <= a -> 0 <= b ->
     exists ep', parseopts m db (Some ($"squash_uids=" ++ utoa 10 a ++ $"," ++ utoa 10 b ++ $"," ++ rest)) ep = inr ep') /\
  (forall ep s, e_squids ep = [] -> e_sqgids ep <> [] -> put_ids ep = Some s -> s = $"squash_gids=") /\
  (forall ep u1 u2 u3 u4, e_squids ep = [u1; u2; u3; u4] -> length (e_sqgids ep) = 2%nat -> put_ids ep = None).
Proof.
  split_and!.
  - intros m db ep a b rest Ha Hb. unfold parseopts. set (s := $"squash_uids=" ++ _).
    change (skip_while isblank s) with s.
    assert (s = ($"squash_uids=" ++ utoa 10 a) ++ ","%char :: utoa 10 b ++ ","%char :: rest) as ->.
    { unfold s. by rewrite <- app_assoc. }
    pose proof (utoa_first b Hb) as Hd. assert (deref (utoa 10 b ++ ","%char :: rest) = deref (utoa 10 b)) as Hdr.
    { destruct (utoa 10 b); done. }
    edestruct (parseopts_loop_token db) as (fuel' & Hf & ->); [apply Nat.lt_succ_diag_r|..].
    { rewrite not_elem_of_app. split; [by apply strchr_None|apply utoa_no_comma]. }
    { rewrite Hdr. by apply digit_not_blank. }
    destruct (parse_opt db _ _) as [v'|ep']; [|by eexists].
    destruct fuel' as [|fuel']; [lia|]. cbn [parseopts_loop]. rewrite strchr_app by apply utoa_no_comma.
    destruct (parse_opt_digit db v' (utoa 10 b) Hd) as [ep' ->].
    destruct (utoa 10 b ++ ","%char :: rest) eqn:E; [by apply app_eq_nil in E as [_ ?]|]. by eexists.
  - intros ep s Hu Hg. unfold put_ids. rewrite Hu. destruct (e_sqgids ep); [done|]. cbn. by intros [= <-].
  - intros ep u1 u2 u3 u4 Hu Hg. unfold put_ids. rewrite Hu.
    destruct (e_sqgids ep) as [|a [|b [|]]]; cbn; by repeat case_match.
Qed.
