(* ===== verification/ExportsRT.v ===== *)
(** * Printed export options read back (support/nfs/exports.c)

    etab entries are written by [putexportent] and read by [parseopts].  The
    printed option text is a comma-separated list of tokens ([all_tokens]); one
    pass of the option loop over them rebuilds the entry: first the flags, then
    the ids and locations, then the flavors with their own flags, group by
    group. *)

From S2P Require Import Prelude Exports.

(** ** Tokens *)

Fixpoint join (l : list cstr) : cstr :=
  match l with
  | [] => []
  | [t] => t
  | t :: l => t ++ ","%char :: join l
  end.

Record tok_ok (t : cstr) : Prop := TokOk
  { tok_nonempty : t <> []; tok_comma : ","%char ∉ t; tok_blank : isblank (deref t) = false }.

Definition run_tokens (db : cstr -> bool -> option Z) (v : pvars) (toks : list cstr) : opt_res :=
  foldl (fun r t => match r with OptOk v => parse_opt db v t | bad => bad end) (OptOk v) toks.

Lemma run_tokens_app db v a b v' :
  run_tokens db v a = OptOk v' -> run_tokens db v (a ++ b) = run_tokens db v' b.
Proof. intros H. unfold run_tokens in *. by rewrite foldl_app, H. Qed.

Lemma run_tokens_cons db v t l v' :
  parse_opt db v t = OptOk v' -> run_tokens db v (t :: l) = run_tokens db v' l.
Proof. intros H. unfold run_tokens. cbn. by rewrite H. Qed.

Lemma run_tokens_bad db ep l :
  foldl (fun r t => match r with OptOk v => parse_opt db v t | bad => bad end) (OptBad ep) l = OptBad ep.
Proof. by induction l. Qed.

Lemma join_first t l : t <> [] -> deref (join (t :: l)) = deref t.
Proof. intros H. destruct t; [done|]. by destruct l. Qed.

Lemma parseopts_join db fuel v toks :
  Forall tok_ok toks -> (length (join toks) < fuel)%nat ->
  parseopts_loop db fuel (join toks) v = run_tokens db v toks.
Proof.
  intros H. revert fuel v. induction H as [|t l Ht Hl IH]; intros fuel v Hf.
  { by destruct fuel. }
  destruct l as [|t' l].
  - cbn [join] in *. destruct fuel as [|fuel]; [lia|]. destruct Ht as [Hne Hc _].
    unfold run_tokens. cbn [parseopts_loop foldl]. rewrite (proj2 (strchr_None _ _) Hc).
    destruct t; [done|]. destruct (parse_opt db v _); [|done]. by destruct fuel.
  - change (join (t :: t' :: l)) with (t ++ ","%char :: join (t' :: l)) in *.
    apply Forall_cons in Hl as Hl'. destruct Hl' as [Ht' _]. destruct Ht as [_ Hc _].
    destruct (parseopts_loop_token db fuel t (join (t' :: l)) v Hf Hc) as (fuel' & Hf' & ->).
    { rewrite join_first by apply Ht'. apply Ht'. }
    unfold run_tokens. cbn [foldl]. destruct (parse_opt db v t) as [v'|ep].
    + rewrite IH by done. done.
    + by rewrite run_tokens_bad.
Qed.

(** ** Flags as bits *)

Lemma has_flag_testbit f k : 0 <= k -> has_flag f (2 ^ k) = Z.testbit f k.
Proof.
  intros Hk. unfold has_flag. destruct (Z.testbit f k) eqn:E.
  - apply negb_true_iff, Z.eqb_neq. intros H. apply (f_equal (fun z => Z.testbit z k)) in H.
    by rewrite Z.land_spec, E, Z.pow2_bits_true, Z.bits_0 in H.
  - apply negb_false_iff, Z.eqb_eq, Z.bits_inj'. intros i Hi. rewrite Z.land_spec, Z.pow2_bits_eqb, Z.bits_0 by done.
    destruct (Z.eqb_spec k i); [subst; by rewrite E|apply andb_false_r].
Qed.

(** A change of bit [k] to a value. *)
Abbreviation effect := (bool * Z)%type.
Definition apply_effects (l : list effect) (f : Z) : Z := foldl (fun f '(b, k) => put_flag b (2 ^ k) f) f l.

Fixpoint last_effect (i : Z) (l : list effect) (d : bool) : bool :=
  match l with
  | [] => d
  | (b, k) :: l => last_effect i l (if k =? i then b else d)
  end.

Lemma apply_effects_testbit l f i :
  Forall (fun e => 0 <= e.2) l -> 0 <= i ->
  Z.testbit (apply_effects l f) i = last_effect i l (Z.testbit f i).
Proof.
  intros H Hi. revert f. induction H as [|[b k] l Hk _ IH]; intros f; [done|].
  cbn [apply_effects foldl last_effect]. fold (apply_effects l (put_flag b (2 ^ k) f)). rewrite IH.
  f_equal. rewrite put_flag_testbit, Z.pow2_bits_eqb by done. by destruct (k =? i).
Qed.

(** The flags that [put_flags] and [put_fsid] show. *)
Definition PRINTED : Z := 0x2eeff.

Definition printed_bits (f : Z) : list effect :=
  let b k := (Z.testbit f k, k) in
  [b 0; b 4; b 5; b 9; b 14; b 1; b 2; b 3; b 10; b 11; b 15]
  ++ (if Z.testbit f 6 then [(true, 6)] else []) ++ (if Z.testbit f 7 then [(true, 7)] else []) ++ [b 17].

Lemma printed_bits_apply f i :
  0 <= i -> i <> 13 -> Z.land f PRINTED = f ->
  Z.testbit (apply_effects (printed_bits f) EXPORT_DEFAULT_FLAGS) i = Z.testbit f i.
Proof.
  intros Hi H13 Hf.
  assert (forall k, Z.testbit PRINTED k = false -> Z.testbit f k = false) as unprinted.
  { intros k Hk. by rewrite <- Hf, Z.land_spec, Hk, andb_false_r. }
  rewrite apply_effects_testbit; [|unfold printed_bits|done].
  2: { repeat apply Forall_app_2; repeat constructor; try (cbn; lia); case_match; repeat constructor; cbn; lia. }
  destruct (Z.ltb_spec i 18).
  - assert (In i (map Z.of_nat (seq 0 18))) as Hin.
    { apply in_map_iff. exists (Z.to_nat i). split; [lia|]. apply in_seq. lia. }
    vm_compute in Hin. repeat destruct Hin as [<-|Hin]; try done; unfold printed_bits;
      destruct (Z.testbit f 6) eqn:E6, (Z.testbit f 7) eqn:E7; cbn -[Z.testbit];
      rewrite ?E6, ?E7; try reflexivity; by rewrite unprinted.
  - rewrite unprinted by (apply Z.bits_above_log2; [done|change (Z.log2 PRINTED) with 17; lia]).
    rewrite (Z.bits_above_log2 EXPORT_DEFAULT_FLAGS) by (done || change (Z.log2 EXPORT_DEFAULT_FLAGS) with 10; lia).
    unfold printed_bits. destruct (Z.testbit _ 6), (Z.testbit _ 7); cbn [last_effect app];
      repeat match goal with |- context [?k =? i] => destruct (Z.eqb_spec k i); [lia|] end; done.
Qed.

(** The keyword that gives a bit a value. *)
Definition flag_token (e : effect) : cstr :=
  let '(b, k) := e in
  let w yes no := opt_text b yes no in
  if k =? 0 then w $"ro" $"rw" else if k =? 1 then w $"insecure" $"secure"
  else if k =? 2 then w $"root_squash" $"no_root_squash" else if k =? 3 then w $"all_squash" $"no_all_squash"
  else if k =? 4 then w $"async" $"sync" else if k =? 5 then w $"wdelay" $"no_wdelay"
  else if k =? 6 then $"nordirplus" else if k =? 7 then $"security_label"
  else if k =? 9 then w $"nohide" $"hide" else if k =? 10 then w $"no_subtree_check" $"subtree_check"
  else if k =? 11 then w $"insecure_locks" $"secure_locks" else if k =? 14 then w $"crossmnt" $"nocrossmnt"
  else if k =? 15 then w $"no_acl" $"acl" else w $"pnfs" $"no_pnfs".

(** The effects that have a keyword. *)
Definition effect_ok (e : effect) : Prop :=
  e.2 ∈ [0; 1; 2; 3; 4; 5; 9; 10; 11; 14; 15; 17] \/ (e.1 = true /\ e.2 ∈ [6; 7]).

Lemma flag_token_ok e :
  effect_ok e -> flag_option (flag_token e) = Some (e.1, 2 ^ e.2) /\ tok_ok (flag_token e) /\ 0 <= e.2.
Proof.
  destruct e as [b k]. unfold effect_ok. cbn [fst snd]. rewrite !list_elem_of_In.
  intros [H|[-> H]]; cbn in H; repeat destruct H as [<-|H]; try done; try destruct b;
    (split; [reflexivity|split; [split; [done|by apply strchr_None|reflexivity]|lia]]).
Qed.

Definition with_flags (v : pvars) (f : Z) (hs : bool) : pvars :=
  PVars (set_flags (pv_ep v) f) (pv_active v) (pv_saw_reexport v) hs (pv_squids v) (pv_sqgids v).

Lemma change_flags_inactive set mask ep :
  change_flags set mask 0 ep = set_flags ep (put_flag set mask (e_flags ep)).
Proof.
  unfold change_flags. assert (forall l : list (entry flav_info),
    imap (fun j e => if Z.testbit 0 (Z.of_nat j) then map_flags (put_flag set mask) e else e) l = l) as Hid.
  { intros l. apply list_eq. intros j. rewrite list_lookup_imap, Z.bits_0. by destruct (l !! j). }
  rewrite Hid. by destruct ep.
Qed.

(** Flag keywords before any [sec=]. *)
Lemma run_flags db v l :
  Forall effect_ok l -> pv_active v = 0 ->
  exists hs, run_tokens db v (flag_token <$> l) = OptOk (with_flags v (apply_effects l (e_flags (pv_ep v))) hs).
Proof.
  intros Hl. revert v. induction Hl as [|e l He Hl IH]; intros v Ha.
  { exists (pv_had_subtree_opt v). destruct v as [ep]. cbn. unfold with_flags. cbn. by destruct ep. }
  destruct (flag_token_ok e He) as (Ho & _ & _). rewrite fmap_cons.
  erewrite run_tokens_cons.
  2: { unfold parse_opt. rewrite Ho. cbv zeta. rewrite change_flags_spec by (rewrite Ha; lia).
       rewrite Ha, change_flags_inactive. reflexivity. }
  match goal with |- context [run_tokens db ?v1 _] => destruct (IH v1 eq_refl) as (hs & ->) end.
  exists hs. destruct e as [b k], v as [ep ac]. cbn in *. subst. by destruct ep.
Qed.

(** The printed flags are these tokens. *)
Definition commas (l : list cstr) : cstr := mjoin ((fun t => t ++ $",") <$> l).

Ltac flag_piece :=
  match goal with
  | |- opt_text ?b _ _ ++ ?s ++ ?R = (_ ++ _) ++ ?R' =>
      let H := fresh in assert (R = R') as H; [|rewrite H; by destruct b]
  end.

Lemma put_flags_tokens ep : put_flags ep = commas (flag_token <$> printed_bits (e_flags ep)).
Proof.
  unfold put_flags, commas, printed_bits. set (f := e_flags ep).
  change NFSEXP_READONLY with (2 ^ 0). change NFSEXP_ASYNC with (2 ^ 4). change NFSEXP_GATHERED_WRITES with (2 ^ 5).
  change NFSEXP_NOHIDE with (2 ^ 9). change NFSEXP_CROSSMOUNT with (2 ^ 14). change NFSEXP_INSECURE_PORT with (2 ^ 1).
  change NFSEXP_ROOTSQUASH with (2 ^ 2). change NFSEXP_ALLSQUASH with (2 ^ 3). change NFSEXP_NOSUBTREECHECK with (2 ^ 10).
  change NFSEXP_NOAUTHNLM with (2 ^ 11). change NFSEXP_NOACL with (2 ^ 15). change NFSEXP_NOREADDIRPLUS with (2 ^ 6).
  change NFSEXP_SECURITY_LABEL with (2 ^ 7). change NFSEXP_PNFS with (2 ^ 17).
  rewrite !has_flag_testbit by lia. cbn [app]. rewrite !fmap_cons. cbn [mjoin list_join].
  repeat flag_piece.
  destruct (Z.testbit f 6), (Z.testbit f 7), (Z.testbit f 17); reflexivity.
Qed.

(** ** Numbers *)

Lemma utoa_first_nonzero n : 0 < n -> deref (utoa 10 n) <> "0"%char.
Proof.
  intros Hn. unfold utoa.
  assert (forall fuel n, 0 < n < 10 ^ Z.of_nat fuel -> deref (utoa_aux fuel 10 n []) <> "0"%char) as H.
  { induction fuel as [|fuel IH]; intros m Hm; [rewrite Z.pow_0_r in Hm; lia|].
    rewrite Nat2Z.inj_succ, Z.pow_succ_r in Hm by lia. cbn [utoa_aux]. destruct (m <? 10) eqn:E; btrue.
    - cbn [deref]. rewrite Z.mod_small by lia. intros Hd. apply (f_equal digit_val) in Hd.
      rewrite digit_char_val in Hd by lia. change (digit_val "0") with 0 in Hd. lia.
    - rewrite utoa_aux_app. specialize (IH (m / 10)).
      assert (0 < m / 10 < 10 ^ Z.of_nat fuel) as Hb
        by (split; [apply Z.div_str_pos; lia|apply Z.div_lt_upper_bound; lia]).
      specialize (IH Hb). destruct fuel as [|fuel]; [rewrite Z.pow_0_r in Hb; lia|].
      destruct (utoa_aux (S fuel) 10 (m / 10) []) as [|c s] eqn:Eu; [|done].
      cbn [utoa_aux] in Eu. destruct (m / 10 <? 10); [done|]. rewrite utoa_aux_app in Eu.
      by apply app_eq_nil in Eu as [_ ?]. }
  apply H. split; [done|]. pose proof (Z.log2_spec n Hn) as [_ L]. pose proof (Z.log2_nonneg n).
  rewrite Nat2Z.inj_succ, Z2Nat.id by done.
  eapply Z.lt_le_trans; [exact L|]. apply Z.pow_le_mono_l. lia.
Qed.

Lemma digits_no_x c : digit_val c < 10 -> ceqb (tolower c) "x" = false.
Proof. all_chars c; vm_compute; congruence. Qed.

Lemma strto_scan_digits base n :
  base = 0 \/ base = 10 -> 0 <= n -> strto_scan base (utoa 10 n) = Some (false, n, []) /\
  strto_scan base ("-"%char :: utoa 10 n) = Some (true, n, []).
Proof.
  intros Hb Hn. pose proof (utoa_first n Hn) as Hf. pose proof (utoa_digits 10 n ltac:(lia)) as Hd.
  pose proof (scan_utoa 10 n [] ltac:(lia) Hn (or_introl eq_refl)) as Hs. rewrite app_nil_r in Hs.
  pose proof (utoa_first_nonzero n) as Hz.
  assert (n = 0 -> utoa 10 n = $"0") as H0 by (by intros ->).
  destruct (utoa 10 n) as [|c s] eqn:Eu; [done|]. cbn [deref] in *.
  assert (isspace c = false /\ ceqb c "-" = false /\ ceqb c "+" = false /\ digit_val c < 10) as (Hsp & Hm & Hp & Hv).
  { apply Forall_cons in Hd as [Hd _]. revert Hf Hd. all_chars c; vm_compute; try congruence; auto. }
  assert (forall c', ceqb (at_index (c :: s) 0) "0" && ceqb (tolower (at_index (c :: s) 1)) "x" && c' = false) as Hx.
  { intros c'. apply Forall_cons in Hd as [_ Hd]. unfold at_index. cbn.
    destruct s as [|d s]; cbn; [by rewrite andb_false_r|]. apply Forall_cons in Hd as [Hd _].
    rewrite (digits_no_x d Hd). by rewrite andb_false_r. }
  assert (exists b, (if base =? 0 then (if ceqb c "0" then 8 else 10) else base) = b /\
            (digit_val c <? b) = true /\ scan_digits b (c :: s) 0 = (n, [])) as (b & Eb & Hdb & Hsb).
  { assert ((digit_val c <? 10) = true) as H10 by lia.
    destruct Hb as [-> | ->]; cbn [Z.eqb]; [|by exists 10].
    destruct (ceqb c "0") eqn:E0; [|by exists 10]. btrue. subst c.
    assert (n = 0) as -> by (destruct (Z.eq_dec n 0); [done|exfalso; apply Hz; [lia|done]]).
    specialize (H0 eq_refl). cbn in H0. injection H0 as ->. by exists 8. }
  unfold strto_scan. cbn [skip_while]. rewrite Hsp. change (isspace "-") with false. cbv iota.
  rewrite Hm, Hp. change (ceqb "-" "-") with true. cbv iota.
  rewrite <- !andb_assoc, (andb_assoc (ceqb _ "0")), Hx, !andb_false_r. cbv iota.
  change (at_index (c :: s) 0) with c.
  destruct Hb as [-> | ->]; cbn [Z.eqb] in Eb |- *; rewrite ?Eb; subst b; by rewrite Hdb, Hsb.
Qed.

Lemma strtol_itoa z :
  INT_MIN <= z <= INT_MAX -> strtol 10 (itoa z) = StrTo z [] false true /\ itoa z <> [].
Proof.
  intros Hz. unfold INT_MIN, INT_MAX in Hz. unfold strtol, itoa, LONG_MAX, LONG_MIN. split.
  - destruct (z <? 0) eqn:E; btrue.
    + rewrite (proj2 (strto_scan_digits 10 (- z) ltac:(auto) ltac:(lia))). rewrite Z.opp_involutive.
      rewrite Z.gtb_ltb. by rewrite !(proj2 (Z.ltb_ge _ _)) by lia.
    + rewrite (proj1 (strto_scan_digits 10 z ltac:(auto) ltac:(lia))).
      rewrite Z.gtb_ltb. by rewrite !(proj2 (Z.ltb_ge _ _)) by lia.
  - case_if; [done|apply utoa_nonempty].
Qed.

Lemma strtoul_itoa z :
  INT_MIN <= z <= INT_MAX ->
  u32 (st_value (strtoul 0 (itoa z))) = u32 z /\ full_number (strtoul 0 (itoa z)) (itoa z) = true.
Proof.
  intros Hz. unfold INT_MIN, INT_MAX in Hz.
  assert (exists r, strtoul 0 (itoa z) = r /\ st_end r = [] /\ u32 (st_value r) = u32 z) as (r & -> & He & Hv).
  { eexists. split; [done|]. unfold strtoul, itoa, ULONG_MAX. destruct (z <? 0) eqn:E; btrue.
    - rewrite (proj2 (strto_scan_digits 0 (- z) ltac:(auto) ltac:(lia))).
      rewrite Z.gtb_ltb, (proj2 (Z.ltb_ge _ _)) by lia. cbn [st_end st_value]. split; [done|].
      unfold u32, u64. rewrite Z.opp_involutive. apply Z.mod_mod_divide. by exists (2 ^ 32).
    - rewrite (proj1 (strto_scan_digits 0 z ltac:(auto) ltac:(lia))).
      by rewrite Z.gtb_ltb, (proj2 (Z.ltb_ge _ _)) by lia. }
  split; [done|]. unfold full_number. rewrite He. unfold itoa.
  destruct (z <? 0); [done|]. pose proof (utoa_nonempty 10 z). by destruct (utoa 10 z).
Qed.

Lemma i32_u32 z : 0 <= z < 2 ^ 32 -> u32 (i32 z) = z /\ INT_MIN <= i32 z <= INT_MAX.
Proof.
  intros Hz. split; [|apply i32_range]. unfold u32, i32.
  destruct (Z.lt_ge_cases z (2 ^ 31)).
  - rewrite (Z.mod_small (z + 2 ^ 31)) by lia. rewrite Z.mod_small; lia.
  - replace ((z + 2 ^ 31) mod 2 ^ 32) with (z + 2 ^ 31 - 2 ^ 32) by (apply Z.mod_unique with 1; lia).
    symmetry. apply Z.mod_unique with (-1); lia.
Qed.

Lemma itoa_tok prefix z : deref prefix <> NUL -> isblank (deref prefix) = false -> ","%char ∉ prefix -> tok_ok (prefix ++ itoa z).
Proof.
  intros H1 H2 H3. destruct prefix as [|c p]; [done|]. split; [done| |done].
  rewrite not_elem_of_app. split; [done|]. unfold itoa.
  destruct (z <? 0); [apply not_elem_of_cons; split; [done|]|]; apply utoa_no_comma.
Qed.

(** ** Groups of flavors *)

(** The indices [n .. n + k - 1] as a bit set. *)
Definition index_bits (n k : nat) : Z := Z.shiftl (Z.ones (Z.of_nat k)) (Z.of_nat n).

Lemma index_bits_testbit n k j :
  Z.testbit (index_bits n k) (Z.of_nat j) = (n <=? j)%nat && (j <? n + k)%nat.
Proof.
  unfold index_bits. rewrite Z.shiftl_spec by lia. destruct (Nat.leb_spec n j).
  - rewrite Z.testbit_ones_nonneg by lia. cbn [andb].
    apply eq_true_iff_eq. rewrite Z.ltb_lt, Nat.ltb_lt. lia.
  - by rewrite Z.testbit_neg_r by lia.
Qed.

Lemma index_bits_succ n k out :
  Z.lor (Z.lor out (Z.shiftl 1 (Z.of_nat n))) (index_bits (S n) k) = Z.lor out (index_bits n (S k)).
Proof.
  apply Z.bits_inj'. intros i Hi. rewrite <- (Z2Nat.id i) by done. set (j := Z.to_nat i).
  change (Z.shiftl 1 (Z.of_nat n)) with (index_bits n 1).
  rewrite !Z.lor_spec, !index_bits_testbit. rewrite <- orb_assoc. f_equal.
  apply eq_true_iff_eq. rewrite orb_true_iff, !andb_true_iff, !Nat.leb_le, !Nat.ltb_lt. lia.
Qed.

Lemma index_bits_range n k : (n + k <= 32)%nat -> 0 <= index_bits n k < 2 ^ 32.
Proof.
  intros H. unfold index_bits. rewrite Z.shiftl_mul_pow2, Z.ones_equiv by lia.
  assert (0 < 2 ^ Z.of_nat k) by (apply Z.pow_pos_nonneg; lia).
  assert (0 < 2 ^ Z.of_nat n) by (apply Z.pow_pos_nonneg; lia).
  assert (2 ^ Z.of_nat k * 2 ^ Z.of_nat n <= 2 ^ 32).
  { rewrite <- Z.pow_add_r by lia. apply Z.pow_le_mono_r; lia. }
  nia.
Qed.

(** Naming new flavors appends them, with the flags of the export. *)
Definition fresh_entries (f : Z) (es : list (entry flav_info)) : list (entry flav_info) :=
  (fun e => Entry (what e) f) <$> es.

Definition canonical (e : entry flav_info) : Prop := find_flavor (flavour (what e)) = Some (what e).

Lemma find_entry_none {A} (num : A -> Z) n i l :
  Forall (fun e => num (what e) <> n) l -> find_entry num n i l = None.
Proof.
  intros H. revert i. induction H as [|e l He _ IH]; intros i; cbn; [done|].
  rewrite (proj2 (Z.eqb_neq _ _) He). apply IH.
Qed.

Lemma parse_flavors_fresh es L ep out :
  Forall canonical es -> e_secinfo ep = L -> NoDup ((fnum ∘ what) <$> L ++ es) -> (length L + length es <= 8)%nat ->
  parse_flavors_loop ((fun e => flavour (what e)) <$> es) ep out
  = (set_secinfo ep (L ++ fresh_entries (e_flags ep) es), Z.lor out (index_bits (length L) (length es))).
Proof.
  intros Hes. revert L ep out. induction Hes as [|e es He Hes IH]; intros L ep out HL Hnd Hlen.
  { cbn. rewrite app_nil_r. subst. unfold index_bits. rewrite Z.shiftl_0_l, Z.lor_0_r. by destruct ep. }
  rewrite fmap_cons. cbn [parse_flavors_loop]. unfold canonical in He. rewrite He.
  unfold secinfo_addflavor, add_entry. rewrite HL, find_entry_none.
  2: { rewrite fmap_app, NoDup_app in Hnd. destruct Hnd as (_ & Hd & _). apply Forall_forall. intros x Hx Ex.
       apply (Hd (fnum (what x))); [by apply (list_elem_of_fmap_2 (fnum ∘ what))|]. rewrite Ex. left. }
  cbn [length] in Hlen. rewrite (proj2 (Nat.leb_gt SECFLAVOR_COUNT (length L))) by (unfold SECFLAVOR_COUNT; lia).
  rewrite (IH (L ++ [Entry (what e) (e_flags ep)])).
  - cbn [set_secinfo e_flags]. rewrite <- app_assoc. f_equal. rewrite length_app, Nat.add_1_r. cbn [length].
    apply index_bits_succ.
  - done.
  - rewrite <- app_assoc. rewrite !fmap_app in *. exact Hnd.
  - rewrite length_app. cbn. lia.
Qed.

(** Flag keywords while the last entries are active. *)
Lemma change_flags_active set mask ep L es :
  e_secinfo ep = L ++ es ->
  change_flags set mask (index_bits (length L) (length es)) ep
  = set_secinfo (set_flags ep (put_flag set mask (e_flags ep))) (L ++ (map_flags (put_flag set mask) <$> es)).
Proof.
  intros H. unfold change_flags. f_equal. rewrite H. apply list_eq. intros j.
  rewrite list_lookup_imap, index_bits_testbit.
  destruct (Nat.lt_ge_cases j (length L)) as [Hj|Hj].
  - rewrite !lookup_app_l by done. rewrite (proj2 (Nat.leb_gt _ _)) by done. cbn.
    by destruct (L !! j).
  - rewrite !lookup_app_r by done. rewrite list_lookup_fmap, (proj2 (Nat.leb_le _ _)) by done. cbn [andb].
    destruct (es !! (j - length L)%nat) as [e|] eqn:E; [|done]. apply lookup_lt_Some in E.
    by rewrite (proj2 (Nat.ltb_lt _ _)) by lia.
Qed.

Lemma map_flags_none (l : list (entry flav_info)) : map_flags (apply_effects []) <$> l = l.
Proof. induction l as [|[] l IH]; [done|]. rewrite fmap_cons, IH. done. Qed.

Lemma run_flags_active db v l L es :
  Forall effect_ok l -> e_secinfo (pv_ep v) = L ++ es -> pv_active v = index_bits (length L) (length es) ->
  (length L + length es <= 8)%nat ->
  exists hs, run_tokens db v (flag_token <$> l)
    = OptOk (PVars (set_secinfo (set_flags (pv_ep v) (apply_effects l (e_flags (pv_ep v))))
                     (L ++ (map_flags (apply_effects l) <$> es)))
               (pv_active v) (pv_saw_reexport v) hs (pv_squids v) (pv_sqgids v)).
Proof.
  intros Hl. revert v es. induction Hl as [|e l He Hl IH]; intros v es Hs Ha Hlen.
  { exists (pv_had_subtree_opt v). rewrite map_flags_none, <- Hs. destruct v as [ep]. by destruct ep. }
  destruct (flag_token_ok e He) as (Ho & _ & _). rewrite fmap_cons.
  erewrite run_tokens_cons.
  2: { unfold parse_opt. rewrite Ho. cbv zeta.
       rewrite change_flags_spec by (rewrite Ha; apply index_bits_range; lia).
       rewrite Ha, (change_flags_active _ _ _ L es) by done. reflexivity. }
  match goal with |- context [run_tokens db ?v1 _] =>
    destruct (IH v1 (map_flags (put_flag e.1 (2 ^ e.2)) <$> es)) as (hs & ->) end.
  - done.
  - cbn. by rewrite length_fmap.
  - by rewrite length_fmap.
  - exists hs. destruct e as [b k], v as [ep ac]. cbn in *. subst. rewrite <- list_fmap_compose. done.
Qed.

(** The longest prefix of entries with the same flags. *)
Fixpoint take_same {A} (fl : Z) (l : list (entry A)) : list (entry A) * list (entry A) :=
  match l with
  | e :: l' => if fl =? flags e then let '(a, r) := take_same fl l' in (e :: a, r) else ([], l)
  | [] => ([], [])
  end.

Definition name_list {A} (name : A -> cstr) (e : entry A) (es : list (entry A)) : cstr :=
  name (what e) ++ mjoin ((fun x => $":" ++ name (what x)) <$> es).

Lemma group_names_spec {A} (name : A -> cstr) fl l :
  group_names name fl l
  = (mjoin ((fun x => $":" ++ name (what x)) <$> (take_same fl l).1), (take_same fl l).2).
Proof.
  induction l as [|e l IH]; [done|]. cbn [group_names take_same]. destruct (fl =? flags e); [|done].
  rewrite IH. by destruct (take_same fl l).
Qed.

Lemma take_same_spec {A} fl (l : list (entry A)) :
  l = (take_same fl l).1 ++ (take_same fl l).2 /\ Forall (fun e => flags e = fl) (take_same fl l).1.
Proof.
  induction l as [|e l [IH1 IH2]]; [by split; [|constructor]|]. cbn [take_same].
  destruct (fl =? flags e) eqn:E; [|by split; [|constructor]]. btrue.
  destruct (take_same fl l) as [a r]. cbn in *. subst. split; [done|by constructor].
Qed.

(** The flag keywords of a group: the bits of the mask. *)
Definition mask_effects (m g : Z) : list effect :=
  mjoin ((fun k => if Z.testbit m k then [(Z.testbit g k, k)] else []) <$> [0; 1; 2; 3]).

Fixpoint sec_tokens (m : Z) (fuel : nat) (l : list (entry flav_info)) : list cstr :=
  match fuel, l with
  | S fuel, e :: l =>
      let '(a, r) := take_same (flags e) l in
      ($"sec=" ++ name_list flavour e a) :: (flag_token <$> mask_effects m (flags e)) ++ sec_tokens m fuel r
  | _, _ => []
  end.

(** Tokens printed behind others, each with a comma before it. *)
Definition comma_each (l : list cstr) : cstr := mjoin ((fun t => $"," ++ t) <$> l).

Lemma comma_each_app a b : comma_each (a ++ b) = comma_each a ++ comma_each b.
Proof. unfold comma_each. by rewrite fmap_app, join_app. Qed.

Lemma secinfo_flags_show_tokens g m : secinfo_flags_show g m = comma_each (flag_token <$> mask_effects m g).
Proof.
  unfold secinfo_flags_show, secinfo_flag_displaymap, mask_effects.
  change NFSEXP_READONLY with (2 ^ 0). change NFSEXP_INSECURE_PORT with (2 ^ 1).
  change NFSEXP_ROOTSQUASH with (2 ^ 2). change NFSEXP_ALLSQUASH with (2 ^ 3).
  cbn [fmap list_fmap mjoin list_join]. rewrite !has_flag_testbit by lia.
  rewrite !fmap_app, !comma_each_app.
  repeat match goal with |- context [Z.testbit m ?k] => destruct (Z.testbit m k) end;
  repeat match goal with |- context [Z.testbit g ?k] => destruct (Z.testbit g k) end; reflexivity.
Qed.

Lemma show_groups_tokens m fuel l :
  show_groups fuel flavour $",sec=" (fun fl => secinfo_flags_show fl m) l = comma_each (sec_tokens m fuel l).
Proof.
  revert l. induction fuel as [|fuel IH]; intros [|e l]; try done. cbn [show_groups sec_tokens].
  rewrite group_names_spec, IH, secinfo_flags_show_tokens. destruct (take_same (flags e) l) as [a r]. cbn [fst snd].
  change (comma_each (?t :: ?l)) with (($"," ++ t) ++ comma_each l). rewrite comma_each_app.
  unfold name_list. cbn [app]. by rewrite <- !app_assoc.
Qed.

(** [f] and [g] agree outside the mask, which is one of the four shown flags. *)
Definition agree (m f g : Z) : Prop := forall i, 0 <= i -> Z.testbit m i = false -> Z.testbit f i = Z.testbit g i.
Definition mask_ok (m : Z) : Prop := Z.land m 15 = m.

Lemma mask_effects_apply m f g : mask_ok m -> agree m f g -> apply_effects (mask_effects m g) f = g.
Proof.
  intros Hm Ha. apply Z.bits_inj'. intros i Hi. unfold mask_effects. cbn [fmap list_fmap mjoin list_join].
  rewrite apply_effects_testbit.
  2: { repeat apply Forall_app_2; repeat case_match; repeat constructor; cbn; lia. }
  2: done.
  assert (3 < i -> Z.testbit m i = false) as Hout.
  { intros H. rewrite <- Hm, Z.land_spec. rewrite (Z.bits_above_log2 15) by (done || (change (Z.log2 15) with 3; lia)).
    apply andb_false_r. }
  assert (forall a b d, last_effect i (a ++ b) d = last_effect i b (last_effect i a d)) as Happ.
  { induction a as [|[x y] a IH]; intros; [done|]. cbn. by rewrite IH. }
  rewrite !Happ.
  assert (forall k d, last_effect i (if Z.testbit m k then [(Z.testbit g k, k)] else []) d
            = if Z.testbit m k && (k =? i) then Z.testbit g i else d) as Hone.
  { intros k d. destruct (Z.testbit m k); [|done]. cbn. destruct (Z.eqb_spec k i); [by subst|done]. }
  rewrite !Hone. cbn [last_effect].
  destruct (Z.testbit m i) eqn:E.
  - assert (In i [0; 1; 2; 3]) as Hin by (destruct (Z.le_gt_cases i 3); [cbn; lia|by specialize (Hout ltac:(lia))]).
    cbn in Hin. repeat destruct Hin as [<-|Hin]; try done; rewrite E; cbn [Z.eqb Pos.eqb andb];
      rewrite ?andb_false_r; done.
  - rewrite <- (Ha i Hi E). repeat match goal with |- context [?k =? i] => destruct (Z.eqb_spec k i); [subst; rewrite E|] end;
      cbn; rewrite ?andb_false_r; done.
Qed.

Lemma flavor_name_ok w : w ∈ flav_map -> ":"%char ∉ flavour w /\ ","%char ∉ flavour w /\ flavour w <> [].
Proof.
  rewrite list_elem_of_In. cbn. intros H. repeat destruct H as [<-|H]; try done;
    (split_and!; [by apply strchr_None..|done]).
Qed.

Lemma canonical_ok e : canonical e -> what e ∈ flav_map.
Proof. apply find_flavor_ok. Qed.

Lemma split_name_list {A} (name : A -> cstr) e es :
  Forall (fun x => ":"%char ∉ name (what x)) (e :: es) ->
  split_on ":" (name_list name e es) = (fun x => name (what x)) <$> e :: es.
Proof.
  revert e. induction es as [|x es IH]; intros e [He Hes]%Forall_cons; unfold name_list in *.
  - cbn. rewrite app_nil_r. by apply split_on_notin.
  - rewrite fmap_cons. cbn [mjoin list_join].
    change (($":" ++ name (what x)) ++ ?r) with (":"%char :: name (what x) ++ r). rewrite split_on_app by done.
    rewrite !fmap_cons. f_equal. by apply IH.
Qed.

Lemma name_list_no_comma {A} (name : A -> cstr) e es :
  Forall (fun x => ","%char ∉ name (what x)) (e :: es) -> ","%char ∉ name_list name e es.
Proof.
  intros [He Hes]%Forall_cons. unfold name_list. rewrite not_elem_of_app. split; [done|].
  induction Hes as [|x es Hx Hes IH]; [set_solver|]. rewrite fmap_cons. cbn [mjoin list_join].
  rewrite !not_elem_of_app. split_and!; [by apply strchr_None|done|done].
Qed.

Lemma Forall_colon es : Forall canonical es -> Forall (fun x => ":"%char ∉ flavour (what x)) es.
Proof. intros H. eapply Forall_impl; [exact H|]. intros e He. by apply flavor_name_ok, canonical_ok. Qed.

Lemma mask_effects_ok m g : Forall effect_ok (mask_effects m g).
Proof.
  unfold mask_effects. cbn [fmap list_fmap mjoin list_join].
  repeat apply Forall_app_2; repeat case_match; repeat constructor; left; apply list_elem_of_In; cbn; auto.
Qed.

(** One [sec=] group gives its flavors their flags, and the export too. *)
Lemma run_group db m v L e a :
  mask_ok m -> Forall canonical (e :: a) -> Forall (fun x => flags x = flags e) a ->
  agree m (e_flags (pv_ep v)) (flags e) -> e_secinfo (pv_ep v) = L ->
  NoDup ((fnum ∘ what) <$> L ++ e :: a) -> (length L + length (e :: a) <= 8)%nat ->
  exists act hs,
    run_tokens db v (($"sec=" ++ name_list flavour e a) :: (flag_token <$> mask_effects m (flags e)))
    = OptOk (PVars (set_secinfo (set_flags (pv_ep v) (flags e)) (L ++ e :: a))
               act (pv_saw_reexport v) hs (pv_squids v) (pv_sqgids v)).
Proof.
  intros Hm Hc Hsame Hag HL Hnd Hlen.
  set (act := index_bits (length L) (length (e :: a))).
  set (ep1 := set_secinfo (pv_ep v) (L ++ fresh_entries (e_flags (pv_ep v)) (e :: a))).
  assert (parse_opt db v ($"sec=" ++ name_list flavour e a)
    = OptOk (PVars ep1 act (pv_saw_reexport v) (pv_had_subtree_opt v) (pv_squids v) (pv_sqgids v))) as E.
  { assert (forall s, parse_opt db v ($"sec=" ++ s)
      = let '(ep, active) := parse_flavors s (pv_ep v) in
        if active =? 0 then OptBad ep
        else OptOk (PVars ep active (pv_saw_reexport v) (pv_had_subtree_opt v) (pv_squids v) (pv_sqgids v))) as -> by done.
    unfold parse_flavors. rewrite split_name_list by (by apply Forall_colon).
    rewrite (parse_flavors_fresh (e :: a) L) by done. rewrite Z.lor_0_l. fold act ep1.
    destruct (Z.eqb_spec act 0) as [Hz|]; [|done].
    assert (Z.testbit act (Z.of_nat (length L)) = true) as Hb.
    { unfold act. rewrite index_bits_testbit, Nat.leb_refl. apply Nat.ltb_lt. cbn. lia. }
    by rewrite Hz, Z.bits_0 in Hb. }
  rewrite (run_tokens_cons _ _ _ _ _ E).
  match goal with |- context [run_tokens db ?v1 _] =>
    destruct (run_flags_active db v1 (mask_effects m (flags e)) L (fresh_entries (e_flags (pv_ep v)) (e :: a)))
      as (hs & ->) end.
  - apply mask_effects_ok.
  - done.
  - cbn. unfold fresh_entries. by rewrite length_fmap.
  - unfold fresh_entries. rewrite length_fmap. exact Hlen.
  - exists act, hs. cbn [pv_ep ep1 set_secinfo e_flags pv_active pv_saw_reexport pv_squids pv_sqgids].
    rewrite mask_effects_apply by done.
    assert (map_flags (apply_effects (mask_effects m (flags e))) <$> fresh_entries (e_flags (pv_ep v)) (e :: a) = e :: a) as ->.
    { unfold fresh_entries. rewrite <- list_fmap_compose. transitivity (id <$> e :: a); [|apply list_fmap_id].
      apply Forall_fmap_ext_1. assert (Forall (fun x => flags x = flags e) (e :: a)) as Hall by (by constructor).
      eapply Forall_impl; [exact Hall|]. intros x Hx. unfold compose, map_flags. cbn [what flags].
      rewrite mask_effects_apply by done. rewrite <- Hx. by destruct x. }
    done.
Qed.

(** The flags of the last entry. *)
Definition last_flags {A} (l : list (entry A)) (d : Z) : Z := default d (flags <$> last l).

Lemma last_flags_group {A} (e : entry A) a r d :
  Forall (fun x => flags x = flags e) a -> last_flags ((e :: a) ++ r) d = last_flags r (flags e).
Proof.
  intros Ha. unfold last_flags. rewrite last_app. destruct (last r) as [x|]; [done|]. cbn [from_option fmap option_fmap option_map].
  revert e Ha. induction a as [|y a IH]; intros e Ha; [done|]. apply Forall_cons in Ha as [Hy Ha].
  rewrite last_cons_cons, IH; [done|]. by rewrite Hy.
Qed.

Lemma run_sec_tokens db m F fuel l L v :
  mask_ok m -> Forall canonical l -> Forall (fun e => agree m F (flags e)) l -> agree m F (e_flags (pv_ep v)) ->
  e_secinfo (pv_ep v) = L -> NoDup ((fnum ∘ what) <$> L ++ l) -> (length L + length l <= 8)%nat ->
  (length l <= fuel)%nat ->
  exists act hs, run_tokens db v (sec_tokens m fuel l)
    = OptOk (PVars (set_secinfo (set_flags (pv_ep v) (last_flags l (e_flags (pv_ep v)))) (L ++ l))
               act (pv_saw_reexport v) hs (pv_squids v) (pv_sqgids v)).
Proof.
  intros Hm. revert l L v. induction fuel as [|fuel IH]; intros l L v Hc Hag Hf HL Hnd Hlen Hfuel.
  all: destruct l as [|e l]; [|try (cbn in Hfuel; lia)].
  1, 2: exists (pv_active v), (pv_had_subtree_opt v); destruct v as [ep]; cbn in *; subst;
        rewrite app_nil_r; by destruct ep.
  cbn [sec_tokens]. destruct (take_same_spec (flags e) l) as [El Hsame].
  destruct (take_same (flags e) l) as [a r] eqn:Et. cbn [fst snd] in *. subst l.
  rewrite app_comm_cons in *.
  pose proof (proj1 (Forall_app _ _ _) Hc) as [Hca Hcr]. pose proof (proj1 (Forall_app _ _ _) Hag) as [Haga Hagr].
  assert (agree m (e_flags (pv_ep v)) (flags e)) as Hfe.
  { intros i Hi Hb. apply Forall_cons in Haga as [Hage _]. rewrite <- (Hf i Hi Hb). by apply Hage. }
  destruct (run_group db m v L e a) as (act & hs & E); try done.
  { rewrite fmap_app, NoDup_app in Hnd |- *. rewrite fmap_app, NoDup_app in Hnd. set_solver. }
  { rewrite length_app in Hlen. lia. }
  rewrite app_comm_cons, (run_tokens_app _ _ _ _ _ E).
  match goal with |- context [run_tokens db ?v1 _] => destruct (IH r (L ++ e :: a) v1) as (act' & hs' & ->) end.
  - done.
  - done.
  - by apply Forall_cons in Haga as [? _].
  - done.
  - rewrite <- app_assoc. done.
  - rewrite !length_app in *. lia.
  - rewrite length_app in Hfuel. cbn in Hfuel. lia.
  - exists act', hs'. rewrite last_flags_group by done. by rewrite <- app_assoc.
Qed.

(** ** Transport security modes *)

Definition xcanonical (e : entry xprtsec_info) : Prop := find_xprtsec_info (xname (what e)) = Some (what e).

Lemma xprtsec_name_ok e : xcanonical e -> ":"%char ∉ xname (what e) /\ ","%char ∉ xname (what e).
Proof.
  intros [H _]%List.find_some. cbn in H. repeat destruct H as [<-|H]; try done; split; by apply strchr_None.
Qed.

Lemma parse_xprtsec_fresh es L ep out :
  Forall xcanonical es -> e_xprtsec ep = L -> NoDup ((xnumber ∘ what) <$> L ++ es) -> (length L + length es <= 3)%nat ->
  parse_xprtsec_loop ((fun e => xname (what e)) <$> es) ep out
  = (set_xprtsec ep (L ++ ((fun e => Entry (what e) (e_flags ep)) <$> es)), Z.lor out (index_bits (length L) (length es))).
Proof.
  intros Hes. revert L ep out. induction Hes as [|e es He Hes IH]; intros L ep out HL Hnd Hlen.
  { cbn. rewrite app_nil_r. subst. unfold index_bits. rewrite Z.shiftl_0_l, Z.lor_0_r. by destruct ep. }
  rewrite fmap_cons. cbn [parse_xprtsec_loop]. unfold xcanonical in He. rewrite He.
  unfold xprtsec_addmode, add_entry. rewrite HL, find_entry_none.
  2: { rewrite fmap_app, NoDup_app in Hnd. destruct Hnd as (_ & Hd & _). apply Forall_forall. intros x Hx Ex.
       apply (Hd (xnumber (what x))); [by apply (list_elem_of_fmap_2 (xnumber ∘ what))|]. rewrite Ex. left. }
  cbn [length] in Hlen. rewrite (proj2 (Nat.leb_gt XPRTSECMODE_COUNT (length L))) by (unfold XPRTSECMODE_COUNT; lia).
  rewrite (IH (L ++ [Entry (what e) (e_flags ep)])).
  - cbn [set_xprtsec e_flags]. rewrite <- app_assoc. f_equal. rewrite length_app, Nat.add_1_r. cbn [length].
    apply index_bits_succ.
  - done.
  - rewrite <- app_assoc. rewrite !fmap_app in *. exact Hnd.
  - rewrite length_app. cbn. lia.
Qed.

(** All modes have the flags of the export, so they are one token. *)
Definition xprtsec_tokens (l : list (entry xprtsec_info)) : list cstr :=
  match l with [] => [] | e :: l => [$"xprtsec=" ++ name_list xname e l] end.

Lemma take_same_all {A} fl (l : list (entry A)) :
  Forall (fun e => flags e = fl) l -> take_same fl l = (l, []).
Proof. induction 1 as [|e l He _ IH]; [done|]. cbn. by rewrite He, Z.eqb_refl, IH. Qed.

Lemma xprtsecinfo_show_tokens ep f :
  Forall (fun e => flags e = f) (e_xprtsec ep) -> xprtsecinfo_show ep = comma_each (xprtsec_tokens (e_xprtsec ep)).
Proof.
  intros H. unfold xprtsecinfo_show. destruct (e_xprtsec ep) as [|e l]; [done|].
  apply Forall_cons in H as [He Hl]. cbn [length show_groups]. rewrite group_names_spec, take_same_all by (by rewrite He).
  cbn [fst snd]. unfold comma_each, xprtsec_tokens, name_list. cbn [fmap list_fmap mjoin list_join app].
  assert (forall fuel, show_groups fuel xname $",xprtsec=" (fun _ => []) [] = []) as -> by (by intros []).
  by rewrite !app_nil_r.
Qed.

Lemma run_xprtsec db v l :
  Forall xcanonical l -> NoDup ((xnumber ∘ what) <$> l) -> (length l <= 3)%nat ->
  Forall (fun e => flags e = e_flags (pv_ep v)) l -> e_xprtsec (pv_ep v) = [] ->
  run_tokens db v (xprtsec_tokens l) = OptOk (with_ep v (set_xprtsec (pv_ep v) l)).
Proof.
  intros Hc Hnd Hlen Hf H0. destruct l as [|e l].
  { destruct v as [ep]. cbn in *. rewrite <- H0. by destruct ep. }
  cbn [xprtsec_tokens]. unfold run_tokens. cbn [foldl].
  assert (forall s, parse_opt db v ($"xprtsec=" ++ s)
    = let '(ep, modes) := parse_xprtsec s (pv_ep v) in if modes =? 0 then OptBad ep else OptOk (with_ep v ep)) as -> by done.
  unfold parse_xprtsec. rewrite split_name_list.
  2: { eapply Forall_impl; [exact Hc|]. intros x Hx. by apply xprtsec_name_ok. }
  rewrite (parse_xprtsec_fresh (e :: l) []) by done. rewrite Z.lor_0_l. cbn [app].
  destruct (Z.eqb_spec (index_bits (length (@nil (entry xprtsec_info))) (length (e :: l))) 0) as [Hz|_].
  { assert (Z.testbit (index_bits 0 (length (e :: l))) (Z.of_nat 0) = true) as Hb by (by rewrite index_bits_testbit).
    cbn [length] in Hz. cbn [length] in Hb. by rewrite Hz, Z.bits_0 in Hb. }
  do 3 f_equal. transitivity (id <$> e :: l); [|apply list_fmap_id]. apply Forall_fmap_ext_1.
  eapply Forall_impl; [exact Hf|]. intros [] Hx. cbn in *. by rewrite <- Hx.
Qed.

(** ** Ids and locations *)

Definition fsid_tokens (ep : exportent) : list cstr :=
  (if Z.testbit (e_flags ep) 13 then [$"fsid=" ++ itoa (i32 (e_fsid ep))] else []) ++
  match e_uuid ep with Some u => [$"fsid=" ++ u] | None => [] end.

Definition location_tokens (ep : exportent) : list cstr :=
  match e_mountpoint ep with
  | Some m => [$"mountpoint" ++ (match m with [] => [] | _ => $"=" end) ++ m]
  | None => []
  end ++
  match e_fslocmethod ep with
  | FSLOC_NONE => []
  | FSLOC_REFER => [$"refer=" ++ default [] (e_fslocdata ep)]
  | FSLOC_REPLICA => [$"replicas=" ++ default [] (e_fslocdata ep)]
  end.

Definition anon_tokens (ep : exportent) : list cstr :=
  [$"anonuid=" ++ itoa (e_anonuid ep); $"anongid=" ++ itoa (e_anongid ep)].

(** Entries whose options can be printed and read back: flags that have
    keywords, no id lists, no re-export method and no cached file system id (none is printed), a
    uuid whose leading digits are the fsid, strings without commas or escapes,
    flavors whose flags differ from the export's only in the flags that may vary
    by flavor, the last ones not at all. *)
Record printable (m : Z) (ep : exportent) : Prop := MkPrintable
  { pr_flags : Z.land (e_flags ep) PRINTED = e_flags ep;
    pr_anon : INT_MIN <= e_anonuid ep <= INT_MAX /\ INT_MIN <= e_anongid ep <= INT_MAX;
    pr_ids : e_squids ep = [] /\ e_sqgids ep = [] /\ e_reexport ep = REEXP_NONE /\ e_ttl ep = default_ttl /\
      e_fsid_value ep = [];
    pr_fsid : 0 <= e_fsid ep < 2 ^ 32 /\
      match e_uuid ep with
      | None => Z.testbit (e_flags ep) 13 = false -> e_fsid ep = 0
      | Some u => streq u $"root" = false /\ full_number (strtoul 0 u) u = false /\ valid_uuid u = true /\
                  ","%char ∉ u /\ e_fsid ep = u32 (st_value (strtoul 0 u))
      end;
    pr_mountpoint : match e_mountpoint ep with Some mp => ","%char ∉ mp | None => True end;
    pr_fsloc : match e_fslocmethod ep, e_fslocdata ep with
               | FSLOC_NONE, None => True
               | (FSLOC_REFER | FSLOC_REPLICA), Some d => ","%char ∉ d /\ Forall (fun c => path_char c = [c]) d
               | _, _ => False
               end;
    pr_secinfo : e_secinfo ep <> [] /\ Forall canonical (e_secinfo ep) /\ NoDup ((fnum ∘ what) <$> e_secinfo ep) /\
      Forall (fun e => agree m (e_flags ep) (flags e)) (e_secinfo ep) /\
      last_flags (e_secinfo ep) 0 = e_flags ep;
    pr_xprtsec : Forall xcanonical (e_xprtsec ep) /\ NoDup ((xnumber ∘ what) <$> e_xprtsec ep) /\
      (length (e_xprtsec ep) <= 3)%nat /\ Forall (fun e => flags e = e_flags ep) (e_xprtsec ep) }.

(** What the fsid, location and id tokens do to an entry. *)
Lemma run_fsid db v ep :
  0 <= e_fsid ep < 2 ^ 32 -> pv_active v = 0 -> pv_saw_reexport v = false -> e_uuid (pv_ep v) = None ->
  match e_uuid ep with
  | None => Z.testbit (e_flags ep) 13 = false -> e_fsid ep = e_fsid (pv_ep v)
  | Some u => streq u $"root" = false /\ full_number (strtoul 0 u) u = false /\ valid_uuid u = true /\
              ","%char ∉ u /\ e_fsid ep = u32 (st_value (strtoul 0 u))
  end ->
  run_tokens db v (fsid_tokens ep)
  = OptOk (with_ep v (set_fsid (set_flags (pv_ep v)
      (if Z.testbit (e_flags ep) 13 then Z.lor (e_flags (pv_ep v)) NFSEXP_FSID else e_flags (pv_ep v)))
      (e_fsid ep) (e_uuid ep))).
Proof.
  intros Hr Ha Hs Hu Hcase. unfold fsid_tokens.
  assert (forall v s, parse_opt db v ($"fsid=" ++ s) = fsid_option v s) as Hp by done.
  assert (forall v, pv_active v = 0 -> setflags NFSEXP_FSID (pv_active v) (pv_ep v)
    = set_flags (pv_ep v) (Z.lor (e_flags (pv_ep v)) NFSEXP_FSID)) as Hset.
  { intros w Hw. rewrite Hw. destruct (pv_ep w). reflexivity. }
  set (v1 := if Z.testbit (e_flags ep) 13
             then with_ep v (set_fsid (set_flags (pv_ep v) (Z.lor (e_flags (pv_ep v)) NFSEXP_FSID)) (e_fsid ep) None)
             else v).
  assert (run_tokens db v (if Z.testbit (e_flags ep) 13 then [$"fsid=" ++ itoa (i32 (e_fsid ep))] else []) = OptOk v1) as E1.
  { unfold v1. destruct (Z.testbit (e_flags ep) 13); [|done]. unfold run_tokens. cbn [foldl]. rewrite Hp.
    destruct (i32_u32 _ Hr) as [Hi Hrange]. destruct (strtoul_itoa _ Hrange) as [Hv Hfull].
    unfold fsid_option. rewrite Hs, Hfull, Hv, Hi, Ha.
    destruct (streq (itoa (i32 (e_fsid ep))) $"root") eqn:Er.
    { btrue. exfalso. pose proof (strtol_itoa _ Hrange) as [Hl _]. by rewrite Er in Hl. }
    rewrite Hu. destruct v as [[]]. cbn in *. by subst. }
  rewrite (run_tokens_app _ _ _ _ _ E1). unfold v1 in *. clear E1.
  destruct (e_uuid ep) as [u|].
  - destruct Hcase as (H1 & H2 & H3 & H4 & H5). unfold run_tokens. cbn [foldl]. rewrite Hp. unfold fsid_option.
    destruct (Z.testbit (e_flags ep) 13); cbn [pv_saw_reexport with_ep]; rewrite Hs, H1, H2, H3, <- H5;
      destruct v as [[]]; done.
  - destruct (Z.testbit (e_flags ep) 13); [by destruct v as [[]]|]. rewrite Hcase by done.
    destruct v as [[]]. cbn in *. by subst.
Qed.

Lemma run_locations db v ep :
  e_mountpoint (pv_ep v) = None -> e_fslocmethod (pv_ep v) = FSLOC_NONE -> e_fslocdata (pv_ep v) = None ->
  match e_fslocmethod ep, e_fslocdata ep with
  | FSLOC_NONE, None => True
  | (FSLOC_REFER | FSLOC_REPLICA), Some d => True
  | _, _ => False
  end ->
  exists ep', run_tokens db v (location_tokens ep) = OptOk (with_ep v ep') /\
    ep' = Ent (e_hostname (pv_ep v)) (e_path (pv_ep v)) (e_flags (pv_ep v)) (e_anonuid (pv_ep v)) (e_anongid (pv_ep v))
            (e_squids (pv_ep v)) (e_sqgids (pv_ep v)) (e_fsid (pv_ep v)) (e_mountpoint ep) (e_fslocmethod ep)
            (e_fslocdata ep) (e_uuid (pv_ep v)) (e_secinfo (pv_ep v)) (e_xprtsec (pv_ep v)) (e_ttl (pv_ep v))
            (e_realpath (pv_ep v)) (e_reexport (pv_ep v)) (e_fsid_value (pv_ep v)).
Proof.
  intros H1 H2 H3 Hd. eexists. split; [|reflexivity]. unfold location_tokens.
  destruct v as [e0 ac sr hs sq sg]. destruct e0. cbn in H1, H2, H3. subst.
  destruct (e_mountpoint ep) as [[|c m]|], (e_fslocmethod ep), (e_fslocdata ep); try done; reflexivity.
Qed.

Lemma run_anon db v ep :
  INT_MIN <= e_anonuid ep <= INT_MAX -> INT_MIN <= e_anongid ep <= INT_MAX ->
  run_tokens db v (anon_tokens ep) = OptOk (with_ep v (set_anon (pv_ep v) (e_anonuid ep) (e_anongid ep))).
Proof.
  intros Hu Hg. unfold anon_tokens, run_tokens. cbn [foldl].
  assert (forall v s, parse_opt db v ($"anonuid=" ++ s)
    = let r := strtol 10 s in let ep := set_anon (pv_ep v) (i32 (st_value r)) (e_anongid (pv_ep v)) in
      if full_number r s then OptOk (with_ep v ep) else OptBad ep) as -> by done.
  destruct (strtol_itoa _ Hu) as [-> Hne]. cbn [st_value]. rewrite i32_id by done.
  unfold full_number at 1. cbn [st_end]. destruct (itoa (e_anonuid ep)); [done|]. cbv zeta. cbn [negb andb].
  assert (forall v s, parse_opt db v ($"anongid=" ++ s)
    = let r := strtol 10 s in let ep := set_anon (pv_ep v) (e_anonuid (pv_ep v)) (i32 (st_value r)) in
      if full_number r s then OptOk (with_ep v ep) else OptBad ep) as -> by done.
  destruct (strtol_itoa _ Hg) as [-> Hne']. cbn [st_value]. rewrite i32_id by done.
  unfold full_number. cbn [st_end]. destruct (itoa (e_anongid ep)); [done|]. by destruct v as [[]].
Qed.

(** ** The whole option string *)

Definition all_tokens (m : Z) (ep : exportent) : list cstr :=
  (flag_token <$> printed_bits (e_flags ep)) ++ fsid_tokens ep ++ location_tokens ep ++ anon_tokens ep ++
  sec_tokens m (length (e_secinfo ep)) (e_secinfo ep) ++ xprtsec_tokens (e_xprtsec ep).

Lemma join_tail t b : join (t :: b) = t ++ comma_each b.
Proof.
  revert t. induction b as [|x b IH]; intros t; [by rewrite app_nil_r|].
  change (join (t :: x :: b)) with (t ++ ","%char :: join (x :: b)). by rewrite IH.
Qed.

Lemma join_front a t b : join (a ++ t :: b) = commas a ++ join (t :: b).
Proof.
  induction a as [|x a IH]; [done|].
  assert (join ((x :: a) ++ t :: b) = x ++ ","%char :: join (a ++ t :: b)) as -> by (by destruct a).
  rewrite IH. unfold commas. rewrite fmap_cons. cbn [mjoin list_join]. by rewrite <- !app_assoc.
Qed.

Lemma commas_app a b : commas (a ++ b) = commas a ++ commas b.
Proof. unfold commas. by rewrite fmap_app, join_app. Qed.

Lemma fprintpath_plain d : Forall (fun c => path_char c = [c]) d -> fprintpath d = d.
Proof.
  induction 1 as [|c d Hc _ IH]; [done|].
  change (fprintpath (c :: d)) with (path_char c ++ fprintpath d). by rewrite Hc, IH.
Qed.

Lemma put_fsid_tokens ep : e_reexport ep = REEXP_NONE -> put_fsid ep = commas (fsid_tokens ep).
Proof.
  intros H. unfold put_fsid, fsid_tokens. rewrite H. change NFSEXP_FSID with (2 ^ 13).
  rewrite has_flag_testbit, commas_app by lia. f_equal.
  - destruct (Z.testbit (e_flags ep) 13); [|done]. cbn. by rewrite app_nil_r.
  - destruct (e_uuid ep); [|done]. cbn. by rewrite !app_nil_r.
Qed.

Lemma put_locations_tokens m ep : printable m ep -> put_locations ep = commas (location_tokens ep).
Proof.
  intros [_ _ _ _ _ Hl _ _]. unfold put_locations, location_tokens. rewrite commas_app. f_equal.
  - destruct (e_mountpoint ep) as [mp|]; [|done]. unfold commas. cbn [fmap list_fmap mjoin list_join].
    by rewrite app_nil_r, <- !app_assoc.
  - destruct (e_fslocmethod ep), (e_fslocdata ep); try done; destruct Hl as [_ Hl]; cbn [default];
      unfold default, id; rewrite fprintpath_plain by done; unfold commas; cbn [fmap list_fmap mjoin list_join];
      by rewrite app_nil_r, <- !app_assoc.
Qed.

Lemma put_options_tokens m ep : printable m ep -> put_options m ep = Some (join (all_tokens m ep)).
Proof.
  intros Hp. pose proof (put_locations_tokens m ep Hp) as Hloc. destruct Hp as [_ _ (Hu & Hg & Hre & _) _ _ _ Hsec Hx].
  unfold put_options, put_ids. rewrite Hu, Hg. f_equal. cbn [app].
  rewrite put_flags_tokens, put_fsid_tokens, Hloc by done.
  destruct Hsec as (Hne & _). destruct Hx as (_ & _ & _ & Hxf).
  assert (secinfo_show m ep = (ep, comma_each (sec_tokens m (length (e_secinfo ep)) (e_secinfo ep)))) as ->.
  { unfold secinfo_show. destruct (e_secinfo ep) eqn:E; [done|]. by rewrite E, show_groups_tokens. }
  cbn [fst snd]. rewrite (xprtsecinfo_show_tokens ep (e_flags ep) Hxf).
  set (B := sec_tokens m (length (e_secinfo ep)) (e_secinfo ep) ++ xprtsec_tokens (e_xprtsec ep)).
  assert (all_tokens m ep = ((flag_token <$> printed_bits (e_flags ep)) ++ fsid_tokens ep ++ location_tokens ep)
    ++ ($"anonuid=" ++ itoa (e_anonuid ep)) :: ($"anongid=" ++ itoa (e_anongid ep)) :: B) as ->.
  { unfold all_tokens, anon_tokens. by rewrite <- !app_assoc. }
  rewrite join_front, !commas_app, join_tail.
  change (comma_each (?t :: B)) with (($"," ++ t) ++ comma_each B). unfold B. rewrite comma_each_app.
  rewrite <- !app_assoc. reflexivity.
Qed.

Lemma printed_bits_ok f : Forall effect_ok (printed_bits f).
Proof.
  unfold printed_bits. repeat apply Forall_app_2; repeat case_match; repeat constructor;
    (left; apply list_elem_of_In; cbn; tauto) || (right; split; [done|]; apply list_elem_of_In; cbn; tauto).
Qed.

Lemma flag_tokens_ok l : Forall effect_ok l -> Forall tok_ok (flag_token <$> l).
Proof. intros H. apply Forall_fmap. eapply Forall_impl; [exact H|]. intros e He. by apply flag_token_ok. Qed.

(** A token made of a keyword and a text without commas. *)
Lemma keyword_tok k s :
  k <> [] -> ","%char ∉ k -> isblank (deref k) = false -> ","%char ∉ s -> tok_ok (k ++ s).
Proof. intros H1 H2 H3 H4. destruct k; [done|]. split; [done| |done]. rewrite not_elem_of_app. done. Qed.

Ltac keyword := apply keyword_tok; [done|by apply strchr_None|done|].

Lemma itoa_no_comma z : ","%char ∉ itoa z.
Proof. unfold itoa. destruct (z <? 0); [apply not_elem_of_cons; split; [done|]|]; apply utoa_no_comma. Qed.

Lemma sec_tokens_ok m fuel l : Forall canonical l -> Forall tok_ok (sec_tokens m fuel l).
Proof.
  revert l. induction fuel as [|fuel IH]; intros [|e l] Hl; try constructor.
  cbn [sec_tokens]. destruct (take_same_spec (flags e) l) as [El _]. destruct (take_same (flags e) l) as [a r].
  cbn [fst snd] in El. subst l. rewrite app_comm_cons in Hl. apply Forall_app in Hl as [Ha Hr]. constructor.
  - keyword. apply name_list_no_comma. eapply Forall_impl; [exact Ha|]. intros x Hx. by apply flavor_name_ok, canonical_ok.
  - apply Forall_app. split; [apply flag_tokens_ok, mask_effects_ok|by apply IH].
Qed.

Lemma all_tokens_ok m ep : printable m ep -> Forall tok_ok (all_tokens m ep).
Proof.
  intros [_ _ _ [_ Hu] Hm Hl (_ & Hc & _) (Hx & _)]. unfold all_tokens.
  rewrite !Forall_app. split_and!.
  - apply flag_tokens_ok, printed_bits_ok.
  - unfold fsid_tokens. apply Forall_app_2.
    + destruct (Z.testbit _ 13); [|done]. apply Forall_singleton. keyword. apply itoa_no_comma.
    + destruct (e_uuid ep); [|done]. apply Forall_singleton. keyword. tauto.
  - unfold location_tokens. apply Forall_app_2.
    + destruct (e_mountpoint ep) as [mp|]; [|done]. apply Forall_singleton. keyword.
      destruct mp; [set_solver|]. rewrite not_elem_of_app. split; [by apply strchr_None|done].
    + destruct (e_fslocmethod ep), (e_fslocdata ep); try done; apply Forall_singleton; keyword; cbn; tauto.
  - apply Forall_cons; split; [|apply Forall_singleton]; keyword; apply itoa_no_comma.
  - by apply sec_tokens_ok.
  - destruct (e_xprtsec ep) as [|e l]; [done|]. apply Forall_singleton. keyword. apply name_list_no_comma.
    eapply Forall_impl; [exact Hx|]. intros x Hx'. by apply xprtsec_name_ok.
Qed.

(** The entry that options are parsed into. *)
Definition start_entry (ep : exportent) : exportent := init_exportent (set_fsid ep 0 None) false.

Lemma agree_fix m f g : agree m f g -> Z.lor g (Z.ldiff f m) = g.
Proof.
  intros H. apply Z.bits_inj'. intros i Hi. rewrite Z.lor_spec, Z.ldiff_spec.
  destruct (Z.testbit m i) eqn:E; [by rewrite andb_false_r, orb_false_r|].
  rewrite (H i Hi E). by destruct (Z.testbit g i).
Qed.

Lemma printed_flags_restore f :
  Z.land f PRINTED = f ->
  (if Z.testbit f 13 then Z.lor (apply_effects (printed_bits f) EXPORT_DEFAULT_FLAGS) NFSEXP_FSID
   else apply_effects (printed_bits f) EXPORT_DEFAULT_FLAGS) = f.
Proof.
  intros Hf. apply Z.bits_inj'. intros i Hi. destruct (Z.eq_dec i 13) as [->|Hne].
  - destruct (Z.testbit f 13) eqn:E.
    + rewrite Z.lor_spec. change (Z.testbit NFSEXP_FSID 13) with true. apply orb_true_r.
    + rewrite apply_effects_testbit; [|unfold printed_bits|lia].
      2: { repeat apply Forall_app_2; repeat case_match; repeat constructor; cbn; lia. }
      unfold printed_bits. by destruct (Z.testbit f 6), (Z.testbit f 7).
  - assert (Z.testbit NFSEXP_FSID i = false) as Hs.
    { change NFSEXP_FSID with (2 ^ 13). rewrite Z.pow2_bits_eqb by lia. apply Z.eqb_neq. lia. }
    destruct (Z.testbit f 13); rewrite ?Z.lor_spec, ?Hs, ?orb_false_r; by apply printed_bits_apply.
Qed.

Lemma run_all_tokens db m ep :
  mask_ok m -> printable m ep ->
  exists act hs, run_tokens db (PVars (start_entry ep) 0 false false [] []) (all_tokens m ep)
    = OptOk (PVars (set_squash ep [] []) act false hs [] []).
Proof.
  intros Hm [Hf [Hau Hag] (Hsu & Hsg & Hre & Httl & Hval) [Hfr Hfs] _ Hl (Hne & Hc & Hnd & Hagr & Hlast) (Hxc & Hxn & Hxl & Hxf)].
  unfold all_tokens.
  destruct (run_flags db (PVars (start_entry ep) 0 false false [] []) (printed_bits (e_flags ep)))
    as (hs1 & E1); [apply printed_bits_ok|done|].
  rewrite (run_tokens_app _ _ _ _ _ E1). clear E1.
  erewrite run_tokens_app; [|apply run_fsid; try done].
  match goal with |- context [run_tokens db ?v (location_tokens ep ++ _)] =>
    destruct (run_locations db v ep) as (ep3 & E3 & Hep3) end; try done.
  { destruct (e_fslocmethod ep), (e_fslocdata ep); try done. }
  rewrite (run_tokens_app _ _ _ _ _ E3). clear E3.
  erewrite run_tokens_app; [|by apply run_anon].
  assert (e_flags ep3 = e_flags ep) as Hf3.
  { rewrite Hep3. cbn. by apply printed_flags_restore. }
  match goal with |- context [run_tokens db ?v (sec_tokens _ _ _ ++ _)] =>
    destruct (run_sec_tokens db m (e_flags ep) (length (e_secinfo ep)) (e_secinfo ep) [] v)
      as (act & hs & E5) end; try done.
  { cbn. by rewrite Hf3. }
  { cbn. by rewrite Hep3. }
  { cbn. rewrite <- (length_fmap (fnum ∘ what)).
    assert (entries_ok fnum flav_map (e_secinfo ep)) as Hok.
    { split; [|done]. eapply Forall_impl; [exact Hc|]. intros. by apply canonical_ok. }
    pose proof (entries_length _ _ _ flavor_numbers Hok flavor_numbers_ok) as Hlen.
    rewrite length_fmap. cbn in Hlen. lia. }
  rewrite (run_tokens_app _ _ _ _ _ E5). clear E5.
  assert (forall d, last_flags (e_secinfo ep) d = e_flags ep) as Hld.
  { intros d. rewrite <- Hlast. unfold last_flags. destruct (last (e_secinfo ep)) eqn:E; [done|]. by apply last_None in E. }
  rewrite run_xprtsec; try done.
  - exists act, hs. rewrite Hld. rewrite Hep3. destruct ep. cbn in *. by subst.
  - rewrite Hld. done.
  - cbn. by rewrite Hep3.
Qed.

Lemma put_parse_options m db ep opts :
  mask_ok m -> printable m ep -> put_options m ep = Some opts ->
  exists had_subtree_opt, parseopts m db (Some opts) (start_entry ep) = inl (ep, had_subtree_opt).
Proof.
  intros Hm Hp Ho. rewrite put_options_tokens in Ho by done.
  assert (opts = join (all_tokens m ep)) as -> by congruence. clear Ho.
  destruct (run_all_tokens db m ep Hm Hp) as (act & hs & E). pose proof (all_tokens_ok m ep Hp) as Hok.
  exists hs. unfold parseopts. cbv zeta iota.
  assert (skip_while isblank (join (all_tokens m ep)) = join (all_tokens m ep)) as ->.
  { destruct (all_tokens m ep) as [|t l]; [done|]. apply Forall_cons in Hok as [[Hne _ Hb] _].
    pose proof (join_first t l Hne) as Hj. destruct (join (t :: l)); [done|]. cbn in Hj. subst. by apply skip_while_head. }
  rewrite parseopts_join by (done || lia). change (e_squids (start_entry ep)) with (@nil Z).
  change (e_sqgids (start_entry ep)) with (@nil Z). rewrite E. cbn [pv_ep pv_squids pv_sqgids pv_had_subtree_opt].
  do 2 f_equal. destruct Hp as [_ _ (Hsu & Hsg & _) _ _ _ (_ & _ & _ & Hagr & _) _].
  unfold fix_pseudoflavor_flags. cbn [set_squash e_flags e_secinfo].
  assert ((fun e => Entry (what e) (Z.lor (flags e) (Z.ldiff (e_flags ep) m))) <$> e_secinfo ep = e_secinfo ep) as ->.
  { transitivity (id <$> e_secinfo ep); [|apply list_fmap_id]. apply Forall_fmap_ext_1.
    eapply Forall_impl; [exact Hagr|]. intros [w fl] He. cbn in *. by rewrite agree_fix. }
  destruct ep. cbn in *. by subst.
Qed.

(** The option text that [putexportent] writes for an entry (into etab) is
    read back by [parseopts] as the same entry: flags, anonymous ids, fsid or
    uuid, mount point, referral, the flavors with their own flags and the
    transport security modes. *)
Theorem export_options_roundtrip m db ep opts :
  mask_ok m -> printable m ep -> put_options m ep = Some opts ->
  exists had_subtree_opt, parseopts m db (Some opts) (start_entry ep) = inl (ep, had_subtree_opt).
Proof. apply put_parse_options. Qed.

(** An entry with two groups of flavors and a numeric fsid. *)
Definition sample_entry : exportent :=
  Ent (Some $"client") $"/srv" 0x2424 65534 (-2) [] [] 4294967295 (Some $"/srv") FSLOC_NONE None None
    [Entry (Flav $"sys" 1 false) 0x2425; Entry (Flav $"krb5" 390003 true) 0x2424; Entry (Flav $"krb5p" 390005 true) 0x2424]
    [Entry (Xprtsec $"tls" 2) 0x2424] default_ttl None REEXP_NONE [].

Lemma sample_printable : printable 15 sample_entry.
Proof.
  split; cbn [sample_entry e_flags e_anonuid e_anongid e_squids e_sqgids e_reexport e_ttl e_fsid e_uuid e_mountpoint
              e_fslocmethod e_fslocdata e_secinfo e_xprtsec].
  - reflexivity.
  - unfold INT_MIN, INT_MAX. lia.
  - done.
  - split; [lia|]. vm_compute. discriminate.
  - by apply strchr_None.
  - done.
  - assert (forall i, 0 <= i -> Z.testbit 15 i = false -> Z.testbit 0x2424 i = Z.testbit 0x2425 i) as H.
    { intros i Hi Hb. destruct (Z.eq_dec i 0) as [->|]; [discriminate|].
      change 0x2425 with (Z.lor 0x2424 (2 ^ 0)). rewrite Z.lor_spec, Z.pow2_bits_eqb by lia.
      rewrite (proj2 (Z.eqb_neq 0 i)) by lia. by rewrite orb_false_r. }
    split_and!; [discriminate|repeat constructor| |repeat constructor; done|reflexivity].
    cbn. repeat (apply NoDup_cons; split; [rewrite list_elem_of_In; cbn; lia|]). apply NoDup_nil_2.
  - split_and!; [repeat constructor| |cbn; lia|repeat constructor].
    cbn. apply NoDup_singleton.
Qed.

Lemma export_options_roundtrip_witness :
  match put_options 15 sample_entry with
  | Some opts => exists h, parseopts 15 (fun _ _ => None) (Some opts) (start_entry sample_entry) = inl (sample_entry, h)
  | None => False
  end.
Proof.
  destruct (put_options 15 sample_entry) as [opts|] eqn:E; [|vm_compute in E; discriminate].
  apply (export_options_roundtrip 15 (fun _ _ => None) sample_entry opts); [reflexivity|apply sample_printable|exact E].
Defined.
