(* ===== verification/Client.v ===== *)
(** * Client specifications (support/export/client.c, support/export/hostname.c)

    The records of the clients that exports are made for: classification of the
    identifiers of /etc/exports, netmasks, the table of records, and the checks
    that decide whether an address belongs to a client.

    Internet addresses are the numbers that their bytes make in network order,
    so that [htonl] is the identity.  The answers of the name service (the
    resolver functions of the C library, netgroups) are a record of functions;
    IPv6 and netgroups are compiled in.  Allocation succeeds. *)

From stdpp Require Import sorting.
From S2P Require Import Prelude Wildmat.

(** ** Socket addresses (support/include/sockaddr.h) *)

(** [sockaddr_in], and [sockaddr_in6] with its four words and its scope. *)
Inductive sockaddr :=
  | AF_INET (s_addr : Z)
  | AF_INET6 (w0 w1 w2 w3 scope : Z).

Definition linklocal (w0 : Z) : bool := Z.land w0 0xffc00000 =? 0xfe800000.

Definition nfs_compare_sockaddr (sa1 sa2 : sockaddr) : bool :=
  match sa1, sa2 with
  | AF_INET a, AF_INET b => a =? b
  | AF_INET6 a0 a1 a2 a3 s, AF_INET6 b0 b1 b2 b3 t =>
      if linklocal a0 && linklocal b0 && negb (s =? t) then false
      else (a0 =? b0) && (a1 =? b1) && (a2 =? b2) && (a3 =? b3)
  | _, _ => false
  end.

(** ** [inet_pton] *)

(** The octets of a dotted quad; [cur] is the octet being read. *)
Fixpoint pton4 (s : cstr) (octets : list Z) (cur : option Z) : option (list Z) :=
  match s with
  | [] => match cur with
          | Some v => if (length octets =? 3)%nat then Some (octets ++ [v]) else None
          | None => None
          end
  | c :: s =>
      if isdigit c then
        let new := default 0 cur * 10 + digit_val c in
        if bool_decide (cur = Some 0) || (new >? 255) then None else pton4 s octets (Some new)
      else
        match cur with
        | Some v => if ceqb c "." && (length octets <? 3)%nat then pton4 s (octets ++ [v]) None else None
        | None => None
        end
  end.

(** A number from its digits in some base, most significant first. *)
Definition digits (base : Z) (l : list Z) : Z := foldl (fun acc d => acc * base + d) 0 l.

Definition inet_pton4 (s : cstr) : option Z := digits 256 <$> pton4 s [] None.

(** The 16-bit groups of an IPv6 address: those read, the place of "::", the
    digits of the current group and their number, and where it started. *)
Fixpoint pton6 (s : cstr) (groups : list Z) (colonp : option nat) (val : Z) (seen : nat) (curtok : cstr)
  : option (list Z) :=
  let finish groups :=
    match colonp with
    | Some k => if (length groups =? 8)%nat then None
                else Some (take k groups ++ replicate (8 - length groups) 0 ++ drop k groups)
    | None => if (length groups =? 8)%nat then Some groups else None
    end in
  match s with
  | [] => match seen with
          | O => finish groups
          | _ => if (length groups <? 8)%nat then finish (groups ++ [val]) else None
          end
  | c :: s =>
      if isxdigit c then
        if (seen =? 4)%nat then None else pton6 s groups colonp (val * 16 + digit_val c) (S seen) curtok
      else if ceqb c ":" then
        match seen with
        | O => match colonp with
               | Some _ => None
               | None => pton6 s groups (Some (length groups)) val 0 s
               end
        | _ => match s with
               | [] => None
               | _ => if (length groups <? 8)%nat then pton6 s (groups ++ [val]) colonp 0 0 s else None
               end
        end
      else if ceqb c "." && (length groups <=? 6)%nat then
        match pton4 curtok [] None with
        | Some [a; b; c; d] => finish (groups ++ [a * 256 + b; c * 256 + d])
        | _ => None
        end
      else None
  end.

Definition inet_pton6 (s : cstr) : option (Z * Z * Z * Z) :=
  let start := match s with
               | c :: r => if ceqb c ":" then (if ceqb (deref r) ":" then Some r else None) else Some s
               | [] => None
               end in
  match start with
  | None => None
  | Some s =>
      match pton6 s [] None 0 0 s with
      | Some [a; b; c; d; e; f; g; h] => Some (a * 65536 + b, c * 65536 + d, e * 65536 + f, g * 65536 + h)
      | _ => None
      end
  end.

(** ** The name service *)

(** An [addrinfo] list: its addresses, and the canonical name of the first. *)
Record addrinfo := AI { ai_addr : sockaddr; ai_rest : list sockaddr; ai_canonname : option cstr }.
Definition ai_addrs (ai : addrinfo) : list sockaddr := ai_addr ai :: ai_rest ai.

Record resolver := Resolver
  { getaddrinfo : cstr -> option addrinfo;            (* hints of [host_addrinfo] *)
    getaddrinfo_numeric : cstr -> option addrinfo;    (* hints of [host_pton] *)
    getnameinfo : sockaddr -> option cstr;            (* NI_NAMEREQD *)
    getnameinfo_numeric : sockaddr -> option cstr;    (* NI_NUMERICHOST *)
    gethostbyname : cstr -> option (list cstr);       (* its [h_aliases] *)
    innetgr : cstr -> cstr -> bool;
    inet_ntop6 : Z -> Z -> Z -> Z -> cstr }.

Section client.
  Context (ns : resolver).

Definition host_pton (paddr : cstr) : option addrinfo :=
  match getaddrinfo_numeric ns paddr with
  | None => None
  | Some ai =>
      match inet_pton4 paddr, ai_addr ai with
      | None, AF_INET _ => None
      | _, _ => Some ai
      end
  end.

Definition host_addrinfo (hostname : cstr) : option addrinfo := getaddrinfo ns hostname.
Definition host_canonname (sap : sockaddr) : option cstr := getnameinfo ns sap.

Definition host_numeric_addrinfo (sap : sockaddr) : option addrinfo :=
  match getnameinfo_numeric ns sap with
  | None => None
  | Some buf => host_pton buf
  end.

Definition host_reliable_addrinfo (sap : sockaddr) : option addrinfo :=
  match host_canonname sap with
  | None => None
  | Some hostname =>
      match host_addrinfo hostname with
      | None => None
      | Some ai =>
          if existsb (fun a => nfs_compare_sockaddr a sap) (ai_addrs ai)
          then host_numeric_addrinfo sap else None
      end
  end.

(** ** Client records (support/include/exportfs.h) *)

Inductive mcl_type := MCL_FQDN | MCL_SUBNETWORK | MCL_WILDCARD | MCL_NETGROUP | MCL_ANONYMOUS | MCL_GSS.

#[export] Instance mcl_type_eq_dec : EqDecision mcl_type.
Proof. solve_decision. Defined.

Definition NFSCLNT_ADDRMAX : nat := 16.

(** A slot of [m_addrlist] that was never set is [None]. *)
Record nfs_client := Client
  { m_hostname : cstr; m_type : mcl_type; m_naddr : nat; m_addrlist : list (option sockaddr);
    m_exported : Z; m_count : Z; m_match_gen : Z; m_match : bool }.

Definition set_addrlist (clp : nfs_client) (i : nat) (sap : sockaddr) : nfs_client :=
  Client (m_hostname clp) (m_type clp) (m_naddr clp) (<[i := Some sap]> (m_addrlist clp))
         (m_exported clp) (m_count clp) (m_match_gen clp) (m_match clp).
Definition set_naddr (clp : nfs_client) (n : nat) : nfs_client :=
  Client (m_hostname clp) (m_type clp) n (m_addrlist clp) (m_exported clp) (m_count clp) (m_match_gen clp) (m_match clp).
Definition set_count (clp : nfs_client) (n : Z) : nfs_client :=
  Client (m_hostname clp) (m_type clp) (m_naddr clp) (m_addrlist clp) (m_exported clp) n (m_match_gen clp) (m_match clp).

(** ** Classification of identifiers *)

(** The scan of [client_gettype]: a backslash hides the next character. *)
Fixpoint gettype_scan (sp : cstr) (skip : bool) : mcl_type :=
  match sp with
  | [] => MCL_FQDN
  | c :: sp =>
      if skip then gettype_scan sp false
      else if ceqb c "*" || ceqb c "?" || ceqb c "[" then MCL_WILDCARD
      else if ceqb c "/" then MCL_SUBNETWORK
      else gettype_scan sp (ceqb c BSLASH && negb (ceqb (deref sp) NUL))
  end.

Definition client_gettype (ident : cstr) : mcl_type :=
  if streq ident [] || streq ident $"*" then MCL_ANONYMOUS
  else if starts_with $"gss/" ident then MCL_GSS
  else if ceqb (deref ident) "@" then MCL_NETGROUP
  else gettype_scan ident false.

(** ** Netmasks *)

(** A shift by the whole width of the word is undefined. *)
Inductive init_res (A : Type) := InitFail | InitUndef | InitOk (a : A).
#[global] Arguments InitFail {A}.
#[global] Arguments InitUndef {A}.
#[global] Arguments InitOk {A}.

Definition ones32 : Z := 0xffffffff.
(** [(uint32_t)~0 << shift]. *)
Definition shl32 (shift : Z) : option Z := if shift <? 32 then Some (u32 (Z.shiftl ones32 shift)) else None.

(** The prefix length after the slash; [erange]: errno is ERANGE before. *)
Definition prefix_number (erange : bool) (s : cstr) : option Z :=
  let r := strtoul 10 s in
  if negb (streq (st_end r) []) && negb (st_value r =? ULONG_MAX) && negb (erange || st_erange r) then None
  else Some (st_value r).

Definition init_netmask4 (erange : bool) (clp : nfs_client) (slash : option cstr) : init_res nfs_client :=
  let set m := InitOk (set_addrlist clp 1 (AF_INET m)) in
  let of_shift shift := match shl32 shift with None => InitUndef | Some m => set m end in
  match slash with
  | None => of_shift 0
  | Some s =>
      match strchr "." s with
      | Some _ => match inet_pton4 s with None => InitFail | Some m => set m end
      | None =>
          match prefix_number erange s with
          | None => InitFail
          | Some prefixlen => if prefixlen >? 32 then InitFail else of_shift (32 - prefixlen)
          end
      end
  end.

(** The words of a mask of [prefixlen] bits; [n] words are left. *)
Fixpoint mask_words (n : nat) (prefixlen : Z) : option (list Z) :=
  match n with
  | O => Some []
  | S n => if prefixlen >? 32 then cons ones32 <$> mask_words n (prefixlen - 32)
           else (fun w => w :: replicate n 0) <$> shl32 (32 - prefixlen)
  end.

Definition init_netmask6 (erange : bool) (clp : nfs_client) (slash : option cstr) : init_res nfs_client :=
  let of_prefix prefixlen :=
    match mask_words 4 prefixlen with
    | Some [a; b; c; d] => InitOk (set_addrlist clp 1 (AF_INET6 a b c d 0))
    | _ => InitUndef
    end in
  match slash with
  | None => of_prefix 128
  | Some s =>
      match strchr ":" s with
      | Some _ => match inet_pton6 s with
                  | None => InitFail
                  | Some (a, b, c, d) => InitOk (set_addrlist clp 1 (AF_INET6 a b c d 0))
                  end
      | None =>
          match prefix_number erange s with
          | None => InitFail
          | Some prefixlen => if prefixlen >? 128 then InitFail else of_prefix prefixlen
          end
      end
  end.

Definition init_subnetwork (erange : bool) (clp : nfs_client) : init_res nfs_client :=
  let '(host, slash) := match strchr "/" (m_hostname clp) with
                        | Some (a, b) => (a, Some b)
                        | None => (m_hostname clp, None)
                        end in
  match host_pton host with
  | None => InitFail
  | Some ai =>
      let clp := set_addrlist clp 0 (ai_addr ai) in
      match ai_addr ai with
      | AF_INET _ => init_netmask4 erange clp slash
      | AF_INET6 _ _ _ _ _ => init_netmask6 erange clp slash
      end
  end.

(** ** The table of clients *)

(** The records by their address, and the list of each type. *)
Record clients := Clients { cl_store : gmap positive nfs_client; cl_list : mcl_type -> list positive }.

Definition init_addrlist (clp : nfs_client) (ai : option addrinfo) : nfs_client :=
  match ai with
  | None => clp
  | Some ai =>
      let addrs := take NFSCLNT_ADDRMAX (ai_addrs ai) in
      set_naddr (foldl (fun c p => set_addrlist c p.1 p.2) clp (zip (seq 0 (length addrs)) addrs)) (length addrs)
  end.

Definition client_init (erange : bool) (clp : nfs_client) (hname : cstr) (ai : option addrinfo) : init_res nfs_client :=
  let clp := Client hname (m_type clp) 0 (m_addrlist clp) 0 0 (m_match_gen clp) (m_match clp) in
  match m_type clp with
  | MCL_SUBNETWORK => init_subnetwork erange clp
  | _ => InitOk (init_addrlist clp ai)
  end.

(** ** Does an address belong to a client? *)

Definition check_fqdn (clp : nfs_client) (ai : addrinfo) : bool :=
  existsb (fun a => existsb (fun slot => match slot with Some b => nfs_compare_sockaddr a b | None => false end)
                            (take (m_naddr clp) (m_addrlist clp))) (ai_addrs ai).

Definition mask_match (a b m : Z) : bool := Z.land (Z.lxor a b) m =? 0.

Definition check_subnet_v4 (address mask : Z) (ai : addrinfo) : bool :=
  existsb (fun a => match a with AF_INET sin => mask_match address sin mask | _ => false end) (ai_addrs ai).

Definition check_subnet_v6 (address mask : Z * Z * Z * Z) (ai : addrinfo) : bool :=
  let '(a0, a1, a2, a3) := address in
  let '(m0, m1, m2, m3) := mask in
  existsb (fun a => match a with
                    | AF_INET6 s0 s1 s2 s3 _ =>
                        mask_match a0 s0 m0 && mask_match a1 s1 m1 && mask_match a2 s2 m2 && mask_match a3 s3 m3
                    | _ => false
                    end) (ai_addrs ai).

(** The union read as [sockaddr_in] or [sockaddr_in6]; unset memory is zero. *)
Definition slot_in (slot : option (option sockaddr)) : Z := match slot with Some (Some (AF_INET a)) => a | _ => 0 end.
Definition slot_in6 (slot : option (option sockaddr)) : Z * Z * Z * Z :=
  match slot with Some (Some (AF_INET6 a b c d _)) => (a, b, c, d) | _ => (0, 0, 0, 0) end.

Definition check_subnetwork (clp : nfs_client) (ai : addrinfo) : bool :=
  let l := m_addrlist clp in
  match l !! 0%nat with
  | Some (Some (AF_INET a)) => check_subnet_v4 a (slot_in (l !! 1%nat)) ai
  | Some (Some (AF_INET6 a b c d _)) => check_subnet_v6 (a, b, c, d) (slot_in6 (l !! 1%nat)) ai
  | _ => false
  end.

(** [wildmat] of each name until one matches; [None]: the pattern is overrun. *)
Fixpoint any_wildmat (names : list cstr) (cname : cstr) : option bool :=
  match names with
  | [] => Some false
  | n :: names => match wildmat n cname with
                  | Some true => Some true
                  | Some false => any_wildmat names cname
                  | None => None
                  end
  end.

Definition check_wildcard (clp : nfs_client) (ai : addrinfo) : option bool :=
  match host_canonname (ai_addr ai) with
  | None => Some false
  | Some hname => any_wildmat (hname :: default [] (gethostbyname ns hname)) (m_hostname clp)
  end.

(** [inet_ntop] of the bytes at the place of [sin_addr]: for IPv6 those are the
    flow label, which is zero, and the first three words of the address. *)
Definition netgroup_ip (sap : sockaddr) : cstr :=
  match sap with
  | AF_INET a => utoa 10 (Z.shiftr a 24) ++ $"." ++ utoa 10 (Z.land (Z.shiftr a 16) 255) ++ $"." ++
                 utoa 10 (Z.land (Z.shiftr a 8) 255) ++ $"." ++ utoa 10 (Z.land a 255)
  | AF_INET6 w0 w1 w2 _ _ => inet_ntop6 ns 0 w0 w1 w2
  end.

Definition check_netgroup (clp : nfs_client) (ai : addrinfo) : bool :=
  let netgroup := drop 1 (m_hostname clp) in
  match host_canonname (ai_addr ai) with
  | None => false
  | Some hname =>
      innetgr ns netgroup hname
      || existsb (innetgr ns netgroup) (default [] (gethostbyname ns hname))
      || let cname := match host_pton hname with Some tmp => host_canonname (ai_addr tmp) | None => None end in
         match cname with Some c => innetgr ns netgroup c | None => false end
         || innetgr ns netgroup (netgroup_ip (ai_addr ai))
         || match strchr "." (default hname cname) with Some (a, _) => innetgr ns netgroup a | None => false end
  end.

Definition client_check (clp : nfs_client) (ai : addrinfo) : option bool :=
  match m_type clp with
  | MCL_FQDN => Some (check_fqdn clp ai)
  | MCL_SUBNETWORK => Some (check_subnetwork clp ai)
  | MCL_WILDCARD => check_wildcard clp ai
  | MCL_NETGROUP => Some (check_netgroup clp ai)
  | MCL_ANONYMOUS => Some true
  | MCL_GSS => Some false
  end.

(** ** Operations on the table *)

Definition client_add (s : clients) (id : positive) (clp : nfs_client) : clients :=
  Clients (<[id := clp]> (cl_store s))
          (fun t => if decide (t = m_type clp) then cl_list s t ++ [id] else cl_list s t).

(** The first record of a list that satisfies a test; [None]: the test reads past
    a pattern or a record is gone. *)
Fixpoint find_client (s : clients) (f : nfs_client -> option bool) (l : list positive) : option (option positive) :=
  match l with
  | [] => Some None
  | id :: l => match cl_store s !! id with
               | None => None
               | Some clp => match f clp with
                             | None => None
                             | Some true => Some (Some id)
                             | Some false => find_client s f l
                             end
               end
  end.

Definition zero_client (t : mcl_type) : nfs_client :=
  Client [] t 0 (replicate NFSCLNT_ADDRMAX None) 0 0 0 false.

(** The end of [client_lookup]: the addresses of a host that has none yet. *)
Definition lookup_finish (htype : mcl_type) (ai : option addrinfo) (s : clients) (id : positive) : option (option positive * clients) :=
  match cl_store s !! id with
  | None => None
  | Some clp =>
      let clp := if bool_decide (htype = MCL_FQDN) && (m_naddr clp =? 0)%nat then init_addrlist clp ai else clp in
      Some (Some id, Clients (<[id := clp]> (cl_store s)) (cl_list s))
  end.

(** [None]: undefined behaviour. *)
Definition client_lookup (erange : bool) (s : clients) (hname : cstr) (canonical : bool)
  : option (option positive * clients) :=
  let htype := client_gettype hname in
  let resolved := if bool_decide (htype = MCL_FQDN) && negb canonical then Some (host_addrinfo hname) else None in
  match resolved with
  | Some None => Some (None, s)
  | _ =>
      let ai := match resolved with Some (Some ai) => Some ai | _ => None end in
      let test clp := match ai with
                      | Some ai => client_check clp ai
                      | None => Some (strcaseeq hname (m_hostname clp))
                      end in
      match (match ai with Some ai => ai_canonname ai | None => Some hname end), find_client s test (cl_list s htype) with
      | None, _ | _, None => None
      | Some hname, Some found =>
          match found with
          | Some id => lookup_finish htype ai s id
          | None =>
              match client_init erange (zero_client htype) hname None with
              | InitFail => Some (None, s)
              | InitUndef => None
              | InitOk clp => let id := fresh (dom (cl_store s)) in lookup_finish htype ai (client_add s id clp) id
              end
          end
      end
  end.

Definition client_dup (erange : bool) (s : clients) (clp : nfs_client) (ai : addrinfo) : option (option positive * clients) :=
  match ai_canonname ai with
  | None => None
  | Some cname =>
      let new := Client [] MCL_FQDN (m_naddr clp) (m_addrlist clp) (m_exported clp) (m_count clp) 0 false in
      match client_init erange new cname (Some ai) with
      | InitFail => Some (None, s)
      | InitUndef => None
      | InitOk clp => let id := fresh (dom (cl_store s)) in Some (Some id, client_add s id clp)
      end
  end.

(** [None]: the count is not positive and the program exits. *)
Definition client_release (s : clients) (id : positive) : option clients :=
  match cl_store s !! id with
  | None => None
  | Some clp => if m_count clp <=? 0 then None
                else Some (Clients (<[id := set_count clp (m_count clp - 1)]> (cl_store s)) (cl_list s))
  end.

Definition mcl_types : list mcl_type := [MCL_FQDN; MCL_SUBNETWORK; MCL_WILDCARD; MCL_NETGROUP; MCL_ANONYMOUS; MCL_GSS].

Definition client_freeall (s : clients) : clients :=
  Clients (foldl (fun m id => delete id m) (cl_store s) (concat (map (cl_list s) mcl_types))) (fun _ => []).

Definition client_resolve (s : clients) (sap : sockaddr) : option addrinfo :=
  let ai := match cl_list s MCL_WILDCARD, cl_list s MCL_NETGROUP with
            | [], [] => None
            | _, _ => host_reliable_addrinfo sap
            end in
  match ai with Some ai => Some ai | None => host_numeric_addrinfo sap end.

(** ** Lists of names *)

Fixpoint name_cmp (a b : cstr) : Z :=
  match a, b with
  | [], [] => 0
  | [], _ :: _ => -1
  | x :: _, [] => if ceqb x "," then 0 else 1
  | x :: a, y :: b => if ceqb x "," then -1
                      else if ceqb x y then name_cmp a b
                      else schar x - schar y
  end.

(** The walk of [add_name]: the text passed over, and the rest. *)
Fixpoint add_name_loop (fuel : nat) (before cp add : cstr) : cstr * cstr :=
  match fuel with
  | O => (before, cp)
  | S fuel =>
      match cp with
      | [] => (before, cp)
      | _ => if name_cmp cp add <? 0 then
               match strchr "," cp with
               | Some (a, b) => add_name_loop fuel (before ++ a ++ $",") b add
               | None => (before ++ cp, [])
               end
             else (before, cp)
      end
  end.

Definition add_name (old : option cstr) (add : cstr) : cstr :=
  match old with
  | None => add
  | Some old =>
      let '(before, cp) := add_name_loop (length old) [] old add in
      before ++ (if negb (streq before []) && streq cp [] then $"," else []) ++ add ++
      (if streq cp [] then [] else $"," ++ cp)
  end.

(** The names of the matching clients of a list; [None]: undefined behaviour. *)
Fixpoint compose_list (s : clients) (ai : addrinfo) (l : list positive) (name : option cstr) : option (option cstr) :=
  match l with
  | [] => Some name
  | id :: l => match cl_store s !! id with
               | None => None
               | Some clp => match client_check clp ai with
                             | None => None
                             | Some true => compose_list s ai l (Some (add_name name (m_hostname clp)))
                             | Some false => compose_list s ai l name
                             end
               end
  end.

Definition client_compose (s : clients) (ai : addrinfo) : option (option cstr) :=
  compose_list s ai (concat (map (cl_list s) mcl_types)) None.

Fixpoint client_member_loop (fuel : nat) (client name : cstr) : bool :=
  match fuel, client with
  | S fuel, _ :: _ =>
      let after := deref (drop (length name) client) in
      if starts_with name client && (ceqb after "," || ceqb after NUL) then true
      else match strchr "," client with
           | Some (_, b) => client_member_loop fuel b name
           | None => false
           end
  | _, _ => false
  end.

Definition client_member (client name : cstr) : bool := client_member_loop (length client) client name.

End client.

(** ** Names and lists of names *)

(** The names that may be in a list. *)
Record name_ok (n : cstr) : Prop := NameOk { name_nonempty : n <> []; name_no_comma : ","%char ∉ n; name_no_nul : NUL ∉ n }.

Fixpoint join_names (l : list cstr) : cstr :=
  match l with
  | [] => []
  | [x] => x
  | x :: l => x ++ ","%char :: join_names l
  end.

(** What may follow a name in a list. *)
Definition name_end (rest : cstr) : Prop := rest = [] \/ exists r, rest = ","%char :: r.

Lemma join_names_cons x l : exists rest, join_names (x :: l) = x ++ rest /\ name_end rest /\
  (l = [] -> rest = []) /\ (l <> [] -> rest = ","%char :: join_names l).
Proof.
  destruct l as [|y l]; [exists []; rewrite app_nil_r; split_and!; [done|by left|done|done]|].
  eexists. split; [reflexivity|]. split_and!; [right; eauto|done|done].
Qed.

Lemma join_names_nonempty l : Forall name_ok l -> join_names l = [] -> l = [].
Proof.
  intros H E. destruct l as [|x l]; [done|]. apply Forall_cons in H as [[Hx _ _] _].
  destruct (join_names_cons x l) as (rest & E' & _). rewrite E in E'. symmetry in E'.
  by apply app_eq_nil in E' as [? _].
Qed.

Lemma join_names_length l : Forall name_ok l -> (length l <= length (join_names l))%nat.
Proof.
  induction 1 as [|x l [Hx _ _] Hl IH]; [done|]. destruct l as [|y l]; [destruct x; cbn; [done|lia]|].
  change (join_names (x :: y :: l)) with (x ++ ","%char :: join_names (y :: l)). rewrite length_app. cbn [length] in *. lia.
Qed.

Lemma name_cmp_rest a b rest : ","%char ∉ a -> name_end rest -> name_cmp (a ++ rest) b = name_cmp a b.
Proof.
  intros Ha Hr. revert b; induction a as [|x a IH]; intros b.
  - destruct Hr as [->|[r ->]]; [done|]. by destruct b.
  - apply not_elem_of_cons in Ha as [Hx Ha]. destruct b as [|y b]; [done|]. cbn. by rewrite IH.
Qed.

Lemma strchr_join x l : ","%char ∉ x -> strchr "," (join_names (x :: l)) =
  match l with [] => None | _ => Some (x, join_names l) end.
Proof.
  intros Hx. destruct l as [|y l]; [by apply strchr_None|]. cbn [join_names]. by rewrite strchr_app.
Qed.

(** Insertion before the first name that is not smaller. *)
Fixpoint insert_name (add : cstr) (l : list cstr) : list cstr :=
  match l with
  | [] => [add]
  | x :: l => if name_cmp x add <? 0 then x :: insert_name add l else add :: x :: l
  end.

Lemma add_name_loop_join add l fuel before :
  Forall name_ok l -> (length l <= fuel)%nat -> l <> [] ->
  let '(b, cp) := add_name_loop fuel before (join_names l) add in
  (cp = [] -> b = before ++ join_names l /\ insert_name add l = l ++ [add]) /\
  (cp <> [] -> b ++ add ++ ","%char :: cp = before ++ join_names (insert_name add l)).
Proof.
  intros H. revert fuel before; induction H as [|x l Hx Hl IH]; intros [|fuel] before Hf Hne; cbn [length] in Hf; try done; [lia|].
  pose proof (strchr_join x l (name_no_comma _ Hx)) as Hs.
  assert (name_cmp (join_names (x :: l)) add = name_cmp x add) as Hc.
  { destruct (join_names_cons x l) as (rest & -> & Hr & _). by apply name_cmp_rest; [apply Hx|]. }
  destruct (join_names (x :: l)) as [|c s] eqn:E.
  { apply join_names_nonempty in E; [done|]. by constructor. }
  cbn [add_name_loop]. rewrite Hc. cbn [insert_name]. destruct (name_cmp x add <? 0) eqn:En.
  - rewrite Hs. destruct l as [|y l].
    { cbn in E. subst x. split; [intros _; done|done]. }
    specialize (IH fuel (before ++ x ++ $",") ltac:(lia) ltac:(done)).
    destruct (add_name_loop fuel _ _ add) as [b cp]. destruct IH as [IH1 IH2]. rewrite <- E. split.
    + intros Hcp. destruct (IH1 Hcp) as [-> ->]. split; [|done]. cbn [join_names]. by rewrite <- !app_assoc.
    + intros Hcp. rewrite (IH2 Hcp).
      rewrite <- !app_assoc. destruct (insert_name add (y :: l)) as [|z l'] eqn:Ei; [by cbn in Ei; destruct (name_cmp y add <? 0)|].
      reflexivity.
  - split; [done|]. intros _. by rewrite <- E.
Qed.

Lemma add_name_join add l :
  Forall name_ok l -> l <> [] -> add_name (Some (join_names l)) add = join_names (insert_name add l).
Proof.
  intros H Hne. unfold add_name. pose proof (join_names_length l H) as Hlen.
  pose proof (add_name_loop_join add l _ [] H Hlen Hne) as Hl. destruct (add_name_loop _ [] _ add) as [b cp].
  destruct Hl as [H1 H2]. destruct (streq cp []) eqn:Ec; btrue.
  - destruct (H1 Ec) as [-> ->]. assert (streq ([] ++ join_names l) [] = false) as ->.
    { apply streq_false. intros E. by apply join_names_nonempty in E. }
    cbn [negb andb app]. rewrite app_nil_r. clear -Hne. induction l as [|x l IH]; [done|].
    destruct l as [|y l]; [done|]. cbn [app join_names] in *. rewrite <- app_assoc. cbn. f_equal. f_equal. by apply IH.
  - rewrite andb_false_r. cbn [app]. by apply H2.
Qed.

(** [client_member] searches the list. *)
Lemma member_head n x rest :
  name_ok n -> name_ok x -> name_end rest ->
  starts_with n (x ++ rest) && (ceqb (deref (drop (length n) (x ++ rest))) "," || ceqb (deref (drop (length n) (x ++ rest))) NUL)
  = streq n x.
Proof.
  intros [Hn1 Hn2 Hn3] [Hx1 Hx2 Hx3] Hr. clear Hn1 Hx1. revert x Hx2 Hx3; induction n as [|c n IH]; intros x Hx2 Hx3; cbn.
  - destruct x as [|d x]; cbn.
    + destruct Hr as [->|[r ->]]; done.
    + apply not_elem_of_cons in Hx2 as [H1 _]. apply not_elem_of_cons in Hx3 as [H2 _].
      by rewrite (proj2 (ceqb_false d ",")), (proj2 (ceqb_false d NUL)).
  - apply not_elem_of_cons in Hn2 as [Hc Hn2]. apply not_elem_of_cons in Hn3 as [_ Hn3]. destruct x as [|d x]; cbn.
    + destruct Hr as [->|[r ->]]; [done|]. by rewrite (proj2 (ceqb_false c ",")).
    + apply not_elem_of_cons in Hx2 as [_ Hx2]. apply not_elem_of_cons in Hx3 as [_ Hx3].
      specialize (IH Hn2 Hn3 x Hx2 Hx3). destruct (ceqb c d) eqn:E; btrue; subst.
      * cbn [andb]. rewrite IH. unfold streq. apply bool_decide_ext. split; [by intros ->|by intros [=]].
      * cbn. symmetry. apply streq_false. congruence.
Qed.

Lemma client_member_join n l : name_ok n -> Forall name_ok l -> client_member (join_names l) n = existsb (streq n) l.
Proof.
  intros Hn H. unfold client_member.
  assert (forall fuel, (length l <= fuel)%nat -> client_member_loop fuel (join_names l) n = existsb (streq n) l) as Hl.
  { induction H as [|x l Hx Hl IH]; intros fuel Hf; [by destruct fuel|].
    destruct fuel as [|fuel]; [cbn in Hf; lia|]. cbn [existsb].
    destruct (join_names_cons x l) as (rest & E & Hr & _).
    pose proof (member_head n x rest Hn Hx Hr) as Hm. pose proof (strchr_join x l (name_no_comma _ Hx)) as Hs.
    rewrite <- E in Hm. destruct (join_names (x :: l)) as [|c s] eqn:Ej.
    { apply join_names_nonempty in Ej; [done|]. by constructor. }
    cbn [client_member_loop]. rewrite Hm, Hs. destruct (streq n x); [done|]. cbn [orb].
    destruct l as [|y l]; [done|]. apply IH. cbn in *. lia. }
  by apply Hl, join_names_length.
Qed.

(** *** The order of names *)

Lemma schar_inj a b : schar a = schar b -> a = b.
Proof.
  intros H. apply uchar_inj. pose proof (uchar_range a). pose proof (uchar_range b). unfold schar in H.
  destruct (uchar a <? 128) eqn:Ea, (uchar b <? 128) eqn:Eb; btrue; lia.
Qed.

Definition name_le (a b : cstr) : Prop := name_cmp a b <= 0.

Lemma name_cmp_cons x y a b : x <> ","%char ->
  name_cmp (x :: a) (y :: b) = if ceqb x y then name_cmp a b else schar x - schar y.
Proof. intros H. cbn. by rewrite (proj2 (ceqb_false x ",")). Qed.

Lemma name_cmp_flip a b : ","%char ∉ a -> ","%char ∉ b -> name_cmp b a = - name_cmp a b.
Proof.
  revert b; induction a as [|x a IH]; intros [|y b] Ha Hb; [done|..].
  - apply not_elem_of_cons in Hb as [Hy _]. cbn. by rewrite (proj2 (ceqb_false y ",")).
  - apply not_elem_of_cons in Ha as [Hx _]. cbn. by rewrite (proj2 (ceqb_false x ",")).
  - apply not_elem_of_cons in Ha as [Hx Ha], Hb as [Hy Hb]. rewrite !name_cmp_cons, (ceqb_sym y x) by done.
    destruct (ceqb x y); [by apply IH|lia].
Qed.

Lemma name_cmp_eq a b : ","%char ∉ a -> name_cmp a b = 0 -> a = b.
Proof.
  revert b; induction a as [|x a IH]; intros [|y b] Ha; [done|done|..].
  - apply not_elem_of_cons in Ha as [Hx _]. cbn. by rewrite (proj2 (ceqb_false x ",")).
  - apply not_elem_of_cons in Ha as [Hx Ha]. rewrite name_cmp_cons by done. destruct (ceqb x y) eqn:E; btrue.
    + intros H. subst. f_equal. by apply IH.
    + intros H. destruct E. apply schar_inj. lia.
Qed.

Lemma name_le_trans a b c : ","%char ∉ a -> ","%char ∉ b -> name_le a b -> name_le b c -> name_le a c.
Proof.
  unfold name_le. revert b c; induction a as [|x a IH]; intros [|y b] [|z c] Ha Hb; try (cbn; lia).
  - apply not_elem_of_cons in Ha as [Hx _]. cbn. rewrite (proj2 (ceqb_false x ",")) by done. lia.
  - apply not_elem_of_cons in Hb as [Hy _]. cbn. rewrite (proj2 (ceqb_false y ",")) by done. lia.
  - apply not_elem_of_cons in Ha as [Hx Ha], Hb as [Hy Hb]. rewrite !name_cmp_cons by done.
    destruct (ceqb x y) eqn:E1, (ceqb y z) eqn:E2; btrue; subst.
    + rewrite ceqb_refl. by apply IH.
    + rewrite (proj2 (ceqb_false y z)) by done. lia.
    + rewrite (proj2 (ceqb_false x z)) by done. lia.
    + intros H1 H2. destruct (ceqb x z) eqn:E3; btrue; subst; [|lia].
      destruct E1. apply schar_inj. lia.
Qed.

Lemma insert_name_perm add l : insert_name add l ≡ₚ add :: l.
Proof. induction l as [|x l IH]; cbn; [done|]. case_if; [|done]. rewrite IH. apply Permutation_swap. Qed.

Lemma insert_name_sorted add l :
  name_ok add -> Forall name_ok l -> StronglySorted name_le l -> StronglySorted name_le (insert_name add l).
Proof.
  intros [_ Ha _]. induction 1 as [|x l [_ Hx _] Hl IH]; intros Hs; cbn [insert_name]; [by repeat constructor|].
  apply StronglySorted_inv in Hs as [Hs Hxl]. destruct (name_cmp x add <? 0) eqn:E; btrue.
  - constructor; [by apply IH|]. rewrite insert_name_perm. constructor; [unfold name_le; lia|done].
  - assert (name_le add x) as Hle by (unfold name_le; rewrite name_cmp_flip by done; lia).
    constructor; [by constructor|]. constructor; [done|].
    rewrite Forall_forall in *. intros y Hy. eapply name_le_trans; [done|exact Hx|done|by apply Hxl].
Qed.

(** The list made of the names of a sequence. *)
Definition add_names (l : list cstr) : option cstr := foldl (fun o n => Some (add_name o n)) None l.
Definition sort_names (l : list cstr) : list cstr := foldl (fun o n => insert_name n o) [] l.

Lemma sort_names_spec l acc :
  Forall name_ok l -> Forall name_ok acc -> StronglySorted name_le acc ->
  let r := foldl (fun o n => insert_name n o) acc l in
  r ≡ₚ acc ++ l /\ StronglySorted name_le r /\ Forall name_ok r /\
  foldl (fun o n => Some (add_name o n)) (match acc with [] => None | _ => Some (join_names acc) end) l
  = match r with [] => None | _ => Some (join_names r) end.
Proof.
  intros Hl. revert acc; induction Hl as [|n l Hn Hl IH]; intros acc Hacc Hs; cbn [foldl].
  { rewrite app_nil_r. by split_and!. }
  assert (Forall name_ok (insert_name n acc)) as Hi by (rewrite insert_name_perm; by constructor).
  destruct (IH (insert_name n acc) Hi) as (P & S & F & E); [by apply insert_name_sorted|].
  split_and!; [|done..|].
  - rewrite P, insert_name_perm. cbn. by rewrite Permutation_middle.
  - rewrite <- E. f_equal. assert (insert_name n acc <> []) as Hne.
    { intros H0. pose proof (insert_name_perm n acc) as Hp. rewrite H0 in Hp. by apply Permutation_nil_cons in Hp. }
    destruct (insert_name n acc) as [|y r] eqn:Ei; [done|]. rewrite <- Ei. f_equal.
    destruct acc as [|x acc]; [by cbn in Ei |- *|]. by apply add_name_join.
Qed.

Lemma add_names_sorted l :
  Forall name_ok l ->
  sort_names l ≡ₚ l /\ StronglySorted name_le (sort_names l) /\
  add_names l = match sort_names l with [] => None | _ => Some (join_names (sort_names l)) end.
Proof.
  intros H. destruct (sort_names_spec l [] H ltac:(done) ltac:(constructor)) as (P & S & _ & E). by split_and!.
Qed.

Lemma sort_names_unique l l' : Forall name_ok l -> l ≡ₚ l' -> sort_names l = sort_names l'.
Proof.
  intros H P. assert (Forall name_ok l') as H' by (by rewrite <- P).
  destruct (add_names_sorted l H) as (P1 & S1 & _). destruct (add_names_sorted l' H') as (P2 & S2 & _).
  apply (StronglySorted_unique_strong name_le); [|done|done|by rewrite P1, P2].
  intros a b Ha Hb H1 H2. rewrite P1 in Ha. rewrite P2 in Hb. rewrite Forall_forall in H, H'.
  destruct (H a Ha) as [_ Ca _]. destruct (H' b Hb) as [_ Cb _].
  unfold name_le in *. rewrite (name_cmp_flip a b) in H2 by done. apply name_cmp_eq; [done|lia].
Qed.

(** *** The domain name of an address *)

Section compose.
  Context (ns : resolver).

(** The records of the table, in the order of [client_compose]. *)
Definition all_clients (s : clients) : list positive := concat (map (cl_list s) mcl_types).

(** Every record is there, can be checked against the address, and has a name
    that can be put in a list. *)
Definition checkable (s : clients) (ai : addrinfo) : Prop :=
  Forall (fun id => exists clp b, cl_store s !! id = Some clp /\ client_check ns clp ai = Some b /\
                                  name_ok (m_hostname clp)) (all_clients s).

(** The name of a record that accepts the address. *)
Definition accepted (s : clients) (ai : addrinfo) (id : positive) : option cstr :=
  match cl_store s !! id with
  | Some clp => match client_check ns clp ai with Some true => Some (m_hostname clp) | _ => None end
  | None => None
  end.
Definition accepted_names (s : clients) (ai : addrinfo) : list cstr := omap (accepted s ai) (all_clients s).

Lemma compose_list_spec s ai l name :
  Forall (fun id => exists clp b, cl_store s !! id = Some clp /\ client_check ns clp ai = Some b /\
                                  name_ok (m_hostname clp)) l ->
  compose_list ns s ai l name = Some (foldl (fun o n => Some (add_name o n)) name (omap (accepted s ai) l)).
Proof.
  intros H. revert name; induction H as [|id l (clp & b & E1 & E2 & _) _ IH]; intros name; [done|].
  cbn [compose_list omap list_omap]. unfold accepted at 1. rewrite E1, E2. destruct b; apply IH.
Qed.

Lemma accepted_names_ok s ai : checkable s ai -> Forall name_ok (accepted_names s ai).
Proof.
  intros H. apply Forall_forall. intros n (id & Hid & Ha)%list_elem_of_omap. unfold checkable in H. rewrite Forall_forall in H.
  destruct (H id Hid) as (clp & b & E1 & E2 & Hok). unfold accepted in Ha. rewrite E1, E2 in Ha. by destruct b; simplify_eq.
Qed.

Lemma client_compose_sorted s ai :
  checkable s ai ->
  client_compose ns s ai = Some (match sort_names (accepted_names s ai) with [] => None | l => Some (join_names l) end).
Proof.
  intros H. unfold client_compose. rewrite compose_list_spec by done. f_equal.
  destruct (add_names_sorted _ (accepted_names_ok s ai H)) as (_ & _ & E). fold (all_clients s) (accepted_names s ai).
  unfold add_names in E. rewrite E. by destruct (sort_names (accepted_names s ai)).
Qed.

End compose.

(** The authentication domain of an address lists exactly the clients that
    accept it: a name is a member of the list [client_compose] makes if and only
    if some record of the table has that name and accepts the address, and there
    is no list when no record does. *)
Theorem client_compose_members ns s ai :
  checkable ns s ai ->
  exists dom, client_compose ns s ai = Some dom /\
    (dom = None <-> forall id clp, id ∈ all_clients s -> cl_store s !! id = Some clp -> client_check ns clp ai <> Some true) /\
    forall d n, dom = Some d -> name_ok n ->
      client_member d n = true <->
      exists id clp, id ∈ all_clients s /\ cl_store s !! id = Some clp /\ client_check ns clp ai = Some true /\ m_hostname clp = n.
Proof.
  intros H. pose proof (accepted_names_ok ns s ai H) as Hok. rewrite client_compose_sorted by done.
  destruct (add_names_sorted _ Hok) as (P & _ & _). eexists. split; [reflexivity|].
  assert (forall n, n ∈ accepted_names ns s ai <-> exists id clp, id ∈ all_clients s /\ cl_store s !! id = Some clp /\
            client_check ns clp ai = Some true /\ m_hostname clp = n) as Hin.
  { intros n. unfold accepted_names. rewrite list_elem_of_omap. unfold accepted. split.
    - intros (id & Hid & E). repeat case_match; simplify_eq. eauto 6.
    - intros (id & clp & Hid & E1 & E2 & <-). exists id. by rewrite E1, E2. }
  split.
  - transitivity (accepted_names ns s ai = []).
    + destruct (sort_names _) as [|x l]; [apply Permutation_nil_l in P; done|].
      split; [done|]. intros E. rewrite E in P. by apply Permutation_nil_r in P.
    + split.
      * intros E id clp Hid E1 E2. assert (m_hostname clp ∈ accepted_names ns s ai) as Hn by (apply Hin; eauto 6).
        rewrite E in Hn. by apply elem_of_nil in Hn.
      * intros Hno. destruct (accepted_names ns s ai) as [|n l]; [done|]. exfalso.
        destruct (proj1 (Hin n) ltac:(by left)) as (id & clp & Hid & E1 & E2 & _). by destruct (Hno id clp).
  - intros d n E Hn. rewrite <- Hin, <- P. destruct (sort_names _) as [|x l] eqn:Es; [done|]. simplify_eq.
    rewrite client_member_join; [|done|by rewrite P]. rewrite existsb_exists. split.
    + intros (y & Hy & ->%streq_true). by apply list_elem_of_In.
    + intros Hy. exists n. split; [by apply list_elem_of_In|apply streq_refl].
Qed.

(** The domain does not depend on the order of the table: two tables whose
    records that accept the address have the same names, in any order, give the
    same list. *)
Theorem client_compose_canonical ns s s' ai ai' :
  checkable ns s ai -> checkable ns s' ai' -> accepted_names ns s ai ≡ₚ accepted_names ns s' ai' ->
  client_compose ns s ai = client_compose ns s' ai'.
Proof.
  intros H H' P. rewrite !client_compose_sorted by done.
  by rewrite (sort_names_unique _ _ (accepted_names_ok ns s ai H) P).
Qed.

(** ** Subnetworks *)

Lemma existsb_ext_Forall {A : Type} (f g : A -> bool) (l : list A) : Forall (fun x => f x = g x) l -> existsb f l = existsb g l.
Proof. induction 1 as [|x l Hx _ IH]; [done|]. cbn. by rewrite Hx, IH. Qed.

Definition word_ok (w : Z) : Prop := 0 <= w < 2 ^ 32.
Definition addr_ok (a : sockaddr) : Prop :=
  match a with AF_INET w => word_ok w | AF_INET6 a b c d _ => Forall word_ok [a; b; c; d] end.

(** The number that some words make, and that of an address. *)
Fixpoint num32 (l : list Z) : Z :=
  match l with [] => 0 | w :: l => w * 2 ^ (32 * Z.of_nat (length l)) + num32 l end.
Definition addr_num (a : sockaddr) : Z := match a with AF_INET w => w | AF_INET6 a b c d _ => num32 [a; b; c; d] end.
Definition addr_width (a : sockaddr) : Z := match a with AF_INET _ => 32 | AF_INET6 _ _ _ _ _ => 128 end.

(** Same family and same first [p] bits. *)
Definition in_prefix (net : sockaddr) (p : Z) (a : sockaddr) : bool :=
  (addr_width net =? addr_width a)
  && (Z.shiftr (addr_num net) (addr_width net - p) =? Z.shiftr (addr_num a) (addr_width net - p)).

Lemma mask_bit k i :
  0 <= k < 32 -> 0 <= i -> Z.testbit (u32 (Z.shiftl ones32 k)) i = (k <=? i) && (i <? 32).
Proof.
  intros Hk Hi. unfold u32. destruct (i <? 32) eqn:E; btrue.
  - rewrite Z.mod_pow2_bits_low, Z.shiftl_spec by lia. change ones32 with (Z.ones 32). rewrite andb_true_r.
    destruct (k <=? i) eqn:E2; btrue; [|apply Z.testbit_neg_r; lia].
    rewrite Z.testbit_ones_nonneg by lia. apply Z.ltb_lt. lia.
  - rewrite Z.mod_pow2_bits_high by lia. by rewrite andb_false_r.
Qed.

Lemma word_high_bits w i : word_ok w -> 32 <= i -> Z.testbit w i = false.
Proof.
  intros [H0 H1] Hi. destruct (Z.eq_dec w 0) as [->|]; [apply Z.bits_0|].
  apply Z.bits_above_log2; [done|]. assert (Z.log2 w < 32) by (by apply Z.log2_lt_pow2; [lia|]). lia.
Qed.

(** A mask of ones above bit [k] compares the bits above it. *)
Lemma mask_match_prefix a b k :
  word_ok a -> word_ok b -> 0 <= k < 32 ->
  mask_match a b (u32 (Z.shiftl ones32 k)) = true <-> Z.shiftr a k = Z.shiftr b k.
Proof.
  intros Ha Hb Hk. unfold mask_match. rewrite Z.eqb_eq. split.
  - intros H. apply Z.bits_inj'. intros i Hi. rewrite !Z.shiftr_spec by lia.
    destruct (Z.lt_ge_cases (i + k) 32) as [Hlt|Hge]; [|by rewrite !word_high_bits by (done || lia)].
    apply (f_equal (fun z => Z.testbit z (i + k))) in H.
    rewrite Z.land_spec, Z.lxor_spec, mask_bit, Z.bits_0, (proj2 (Z.leb_le _ _)), (proj2 (Z.ltb_lt _ _)), andb_true_r in H by lia.
    by apply xorb_eq.
  - intros H. apply Z.bits_inj'. intros i Hi. rewrite Z.land_spec, Z.lxor_spec, mask_bit, Z.bits_0 by lia.
    destruct (k <=? i) eqn:E; btrue; [|by rewrite andb_false_r].
    apply (f_equal (fun z => Z.testbit z (i - k))) in H. rewrite !Z.shiftr_spec in H by lia.
    replace (i - k + k) with i in H by lia. rewrite H. by rewrite xorb_nilpotent.
Qed.

Lemma shl32_some k : 0 <= k < 32 -> shl32 k = Some (u32 (Z.shiftl ones32 k)).
Proof. intros H. unfold shl32. by rewrite (proj2 (Z.ltb_lt _ _)) by lia. Qed.

Lemma mask_match_ones a b : word_ok a -> word_ok b -> mask_match a b ones32 = true <-> a = b.
Proof.
  intros Ha Hb. change ones32 with (u32 (Z.shiftl ones32 0)). rewrite mask_match_prefix by (done || lia). by rewrite !Z.shiftr_0_r.
Qed.

Lemma num32_range l : Forall word_ok l -> 0 <= num32 l < 2 ^ (32 * Z.of_nat (length l)).
Proof.
  induction 1 as [|w l Hw Hl IH]; [cbn; lia|]. cbn [num32 length]. unfold word_ok in Hw.
  rewrite Nat2Z.inj_succ, Z.mul_succ_r, Z.pow_add_r by lia. nia.
Qed.

(** The word and the rest of a number, shifted by less than the rest. *)
Lemma shiftr_split w r n s : 0 <= s <= n -> 0 <= r < 2 ^ n ->
  Z.shiftr (w * 2 ^ n + r) s = w * 2 ^ (n - s) + Z.shiftr r s /\ 0 <= Z.shiftr r s < 2 ^ (n - s).
Proof.
  intros Hs Hr. rewrite !Z.shiftr_div_pow2 by lia. split.
  - replace (w * 2 ^ n) with (w * 2 ^ (n - s) * 2 ^ s) by (rewrite <- Z.mul_assoc, <- Z.pow_add_r by lia; do 2 f_equal; lia).
    rewrite Z.div_add_l; [done|]. apply Z.pow_nonzero; lia.
  - split; [apply Z.div_pos; lia|]. apply Z.div_lt_upper_bound; [lia|]. rewrite <- Z.pow_add_r by lia.
    replace (s + (n - s)) with n by lia. lia.
Qed.

Lemma shiftr_word w r n k : 0 <= n -> 0 <= k -> 0 <= r < 2 ^ n -> Z.shiftr (w * 2 ^ n + r) (n + k) = Z.shiftr w k.
Proof.
  intros Hn Hk Hr. rewrite <- Z.shiftr_shiftr by lia. destruct (shiftr_split w r n n) as [-> Hb]; [lia|done|].
  rewrite Z.sub_diag in *. f_equal. lia.
Qed.

(** All words agree under their masks. *)
Fixpoint masks_match (a b m : list Z) : bool :=
  match a, b, m with
  | x :: a, y :: b, w :: m => mask_match x y w && masks_match a b m
  | _, _, _ => true
  end.

Lemma masks_match_zero a b n : masks_match a b (replicate n 0) = true.
Proof.
  revert b n; induction a as [|x a IH]; intros [|y b] [|n]; try done. cbn. rewrite IH.
  unfold mask_match. by rewrite Z.land_0_r.
Qed.

Lemma mask_words_prefix a b p :
  length a = length b -> Forall word_ok a -> Forall word_ok b -> 1 <= p <= 32 * Z.of_nat (length a) ->
  exists m, mask_words (length a) p = Some m /\ length m = length a /\
    (masks_match a b m = true <->
     Z.shiftr (num32 a) (32 * Z.of_nat (length a) - p) = Z.shiftr (num32 b) (32 * Z.of_nat (length a) - p)).
Proof.
  revert b p; induction a as [|x a IH]; intros [|y b] p Hlen Ha Hb Hp; try done; cbn [length] in *; [lia|].
  apply Forall_cons in Ha as [Hx Ha], Hb as [Hy Hb]. simplify_eq/=.
  pose proof (num32_range a Ha) as Ra. pose proof (num32_range b Hb) as Rb. rewrite <- Hlen in Rb |- *.
  set (n := 32 * Z.of_nat (length a)) in *. assert (32 * Z.of_nat (S (length a)) = n + 32) as -> by lia.
  destruct (p >? 32) eqn:E; [apply Z.gtb_lt in E|rewrite Z.gtb_ltb in E; btrue].
  - destruct (IH b (p - 32) Hlen Ha Hb ltac:(lia)) as (m & -> & Hm & Hiff). exists (ones32 :: m).
    split; [done|]. split; [by cbn; rewrite Hm|]. cbn [masks_match]. rewrite andb_true_iff, Hiff, mask_match_ones by done.
    replace (n + 32 - p) with (n - (p - 32)) by lia.
    destruct (shiftr_split x (num32 a) n (n - (p - 32)) ltac:(lia) Ra) as [-> Ba].
    destruct (shiftr_split y (num32 b) n (n - (p - 32)) ltac:(lia) Rb) as [-> Bb].
    set (q := 2 ^ (n - (n - (p - 32)))) in *. split; [by intros [-> ->]|]. intros Heq. apply (Z.div_mod_unique q); lia.
  - exists (u32 (Z.shiftl ones32 (32 - p)) :: replicate (length a) 0). rewrite shl32_some by lia. split; [done|].
    split; [by cbn; rewrite length_replicate|]. cbn [masks_match]. rewrite masks_match_zero, andb_true_r.
    rewrite mask_match_prefix by (done || lia). replace (n + 32 - p) with (n + (32 - p)) by lia.
    by rewrite !shiftr_word by (done || lia).
Qed.

(** A prefix length as it is written. *)
Definition prefix_text_ok (p : Z) : bool :=
  match strchr "." (utoa 10 p), strchr ":" (utoa 10 p) with
  | None, None => bool_decide (prefix_number true (utoa 10 p) = Some p) && bool_decide (prefix_number false (utoa 10 p) = Some p)
  | _, _ => false
  end.

Lemma prefix_text p : 0 <= p <= 128 ->
  strchr "." (utoa 10 p) = None /\ strchr ":" (utoa 10 p) = None /\ forall erange, prefix_number erange (utoa 10 p) = Some p.
Proof.
  intros Hp. assert (forallb (fun n => prefix_text_ok (Z.of_nat n)) (seq 0 129) = true) as H by (vm_compute; reflexivity).
  rewrite forallb_forall in H. specialize (H (Z.to_nat p)). rewrite Z2Nat.id in H by lia.
  specialize (H ltac:(apply in_seq; lia)). unfold prefix_text_ok in H.
  destruct (strchr "." _); [done|]. destruct (strchr ":" _); [done|]. btrue.
  split_and!; [done..|]. intros []; by eapply bool_decide_eq_true_1.
Qed.

Section subnet.
  Context (ns : resolver) (host : cstr) (ai0 : addrinfo).
  Hypothesis Hslash : "/"%char ∉ host.
  Hypothesis Hhost : host_pton ns host = Some ai0.
  #[local] Set Default Proof Using "All".

(** What [client_init] leaves to do for "host/text". *)
Lemma client_init_subnetwork erange text :
  client_init ns erange (zero_client MCL_SUBNETWORK) (host ++ "/"%char :: text) None =
  let clp := set_addrlist (Client (host ++ "/"%char :: text) MCL_SUBNETWORK 0 (replicate NFSCLNT_ADDRMAX None) 0 0 0 false) 0 (ai_addr ai0) in
  match ai_addr ai0 with
  | AF_INET _ => init_netmask4 erange clp (Some text)
  | AF_INET6 _ _ _ _ _ => init_netmask6 erange clp (Some text)
  end.
Proof. unfold client_init, init_subnetwork. cbn [m_type zero_client m_hostname]. by rewrite strchr_app, Hhost. Qed.

Lemma subnet_v4 erange a p :
  ai_addr ai0 = AF_INET a -> word_ok a -> 1 <= p <= 32 ->
  exists clp, client_init ns erange (zero_client MCL_SUBNETWORK) (host ++ "/"%char :: utoa 10 p) None = InitOk clp /\
    m_type clp = MCL_SUBNETWORK /\
    forall ai, Forall addr_ok (ai_addrs ai) -> check_subnetwork clp ai = existsb (in_prefix (AF_INET a) p) (ai_addrs ai).
Proof.
  intros Ea Ha Hp. rewrite client_init_subnetwork. cbv zeta. rewrite Ea. unfold init_netmask4.
  destruct (prefix_text p ltac:(lia)) as (-> & _ & ->). destruct (p >? 32) eqn:Ep; [apply Z.gtb_lt in Ep; lia|].
  rewrite shl32_some by lia. eexists. split; [reflexivity|]. split; [done|]. intros ai Hai.
  unfold check_subnetwork, check_subnet_v4. cbn [m_addrlist set_addrlist]. cbn [replicate NFSCLNT_ADDRMAX].
  cbn [insert list_insert lookup list_lookup slot_in]. apply existsb_ext_Forall. eapply Forall_impl; [exact Hai|].
  intros [w|] Hw; [|done]. unfold in_prefix. cbn [addr_width addr_num Z.eqb Pos.eqb andb].
  apply eq_true_iff_eq. rewrite mask_match_prefix, Z.eqb_eq by (done || lia). done.
Qed.

Lemma subnet_v6 erange a b c d sc p :
  ai_addr ai0 = AF_INET6 a b c d sc -> Forall word_ok [a; b; c; d] -> 1 <= p <= 128 ->
  exists clp, client_init ns erange (zero_client MCL_SUBNETWORK) (host ++ "/"%char :: utoa 10 p) None = InitOk clp /\
    m_type clp = MCL_SUBNETWORK /\
    forall ai, Forall addr_ok (ai_addrs ai) -> check_subnetwork clp ai = existsb (in_prefix (AF_INET6 a b c d sc) p) (ai_addrs ai).
Proof.
  intros Ea Ha Hp. rewrite client_init_subnetwork. cbv zeta. rewrite Ea. unfold init_netmask6.
  destruct (prefix_text p ltac:(lia)) as (_ & -> & ->). destruct (p >? 128) eqn:Ep; [apply Z.gtb_lt in Ep; lia|].
  destruct (mask_words_prefix [a; b; c; d] [a; b; c; d] p eq_refl Ha Ha ltac:(cbn; lia)) as (m & Em & Hm & _). cbn [length] in Em, Hm.
  rewrite Em. destruct m as [|m0 [|m1 [|m2 [|m3 [|]]]]]; try done.
  eexists. split; [reflexivity|]. split; [done|]. intros ai Hai.
  unfold check_subnetwork, check_subnet_v6. cbn [m_addrlist set_addrlist]. cbn [replicate NFSCLNT_ADDRMAX].
  cbn [insert list_insert lookup list_lookup slot_in6]. apply existsb_ext_Forall. eapply Forall_impl; [exact Hai|].
  intros [|s0 s1 s2 s3 t] Hw; [done|]. unfold in_prefix. cbn [addr_width addr_num Z.eqb Pos.eqb andb].
  destruct (mask_words_prefix [a; b; c; d] [s0; s1; s2; s3] p eq_refl Ha Hw ltac:(cbn; lia)) as (m & Em' & _ & Hiff).
  cbn [length] in Em', Hiff. rewrite Em in Em'. simplify_eq. apply eq_true_iff_eq. rewrite Z.eqb_eq.
  change (128 - p) with (32 * Z.of_nat 4 - p). rewrite <- Hiff. cbn [masks_match]. by rewrite andb_true_r, !andb_assoc.
Qed.

End subnet.

(** A client "address/prefix" accepts exactly its subnetwork: for every prefix
    length from 1 to the width of the address, IPv4 or IPv6, the record is made,
    and an address is accepted if and only if it has the same family and the same
    first bits. *)
Theorem client_subnet_prefix ns erange host ai0 p :
  "/"%char ∉ host -> host_pton ns host = Some ai0 -> addr_ok (ai_addr ai0) -> 1 <= p <= addr_width (ai_addr ai0) ->
  exists clp,
    client_init ns erange (zero_client MCL_SUBNETWORK) (host ++ "/"%char :: utoa 10 p) None = InitOk clp /\
    forall ai, Forall addr_ok (ai_addrs ai) ->
      client_check ns clp ai = Some (existsb (in_prefix (ai_addr ai0) p) (ai_addrs ai)).
Proof.
  intros Hs Hh Ha Hp. destruct (ai_addr ai0) as [a|a b c d sc] eqn:E.
  - destruct (subnet_v4 ns host ai0 Hs Hh erange a p E Ha Hp) as (clp & E1 & E2 & H). exists clp. split; [done|].
    intros ai Hai. unfold client_check. by rewrite E2, H.
  - destruct (subnet_v6 ns host ai0 Hs Hh erange a b c d sc p E Ha Hp) as (clp & E1 & E2 & H). exists clp. split; [done|].
    intros ai Hai. unfold client_check. by rewrite E2, H.
Qed.

(** A prefix length of zero, which should accept every address, is not handled:
    the mask is computed with a shift by the whole width of the word, whose
    result is undefined. *)
Theorem client_subnet_zero_prefix ns erange host ai0 :
  "/"%char ∉ host -> host_pton ns host = Some ai0 ->
  client_init ns erange (zero_client MCL_SUBNETWORK) (host ++ $"/0") None = InitUndef.
Proof. intros Hs Hh. change ($"/0") with ("/"%char :: utoa 10 0). rewrite (client_init_subnetwork ns host ai0) by done. by destruct (ai_addr ai0). Qed.

(** ** The table of clients *)

(** Each list holds records of its type, once each, and apart from host names no
    two records of a list have the same name, in whatever case. *)
Record clients_wf (s : clients) : Prop := ClientsWf
  { cw_type : forall t id, id ∈ cl_list s t -> exists clp, cl_store s !! id = Some clp /\ m_type clp = t;
    cw_nodup : forall t, NoDup (cl_list s t);
    cw_names : forall t i j ci cj, t <> MCL_FQDN -> i ∈ cl_list s t -> j ∈ cl_list s t ->
      cl_store s !! i = Some ci -> cl_store s !! j = Some cj -> strcaseeq (m_hostname ci) (m_hostname cj) = true -> i = j }.

Lemma find_client_app s f l1 l2 :
  find_client s f (l1 ++ l2) = match find_client s f l1 with Some None => find_client s f l2 | r => r end.
Proof.
  induction l1 as [|id l1 IH]; cbn; [done|]. destruct (cl_store s !! id); [|done]. destruct (f n) as [[]|]; done.
Qed.

Lemma find_client_found s f l id :
  find_client s f l = Some (Some id) -> id ∈ l /\ exists clp, cl_store s !! id = Some clp /\ f clp = Some true.
Proof.
  induction l as [|i l IH]; cbn; [done|]. destruct (cl_store s !! i) as [clp|] eqn:E; [|done].
  destruct (f clp) as [[]|] eqn:Ef; [|..].
  - intros [= ->]. split; [by left|eauto].
  - intros H. destruct (IH H) as [? ?]. split; [by right|done].
  - done.
Qed.

Lemma find_client_none s f l i clp :
  find_client s f l = Some None -> i ∈ l -> cl_store s !! i = Some clp -> f clp = Some false.
Proof.
  induction l as [|j l IH]; cbn; intros H Hin Hi; [by apply elem_of_nil in Hin|].
  destruct (cl_store s !! j) as [c|] eqn:E; [|done]. destruct (f c) as [[]|] eqn:Ef; try done.
  apply elem_of_cons in Hin as [->|Hin]; [congruence|by apply IH].
Qed.

(** Searching does not see other records. *)
Lemma find_client_store s s' f l :
  (forall i, i ∈ l -> cl_store s' !! i = cl_store s !! i) -> find_client s' f l = find_client s f l.
Proof.
  induction l as [|i l IH]; cbn; intros H; [done|]. rewrite H by (by left).
  destruct (cl_store s !! i); [|done]. rewrite IH; [done|]. intros j Hj. apply H. by right.
Qed.

Lemma client_init_name ns erange t hname clp :
  client_init ns erange (zero_client t) hname None = InitOk clp -> m_type clp = t /\ m_hostname clp = hname.
Proof.
  unfold client_init. cbn [m_type zero_client]. destruct t; try (intros [= <-]; done).
  unfold init_subnetwork, init_netmask4, init_netmask6. repeat case_match; intros; simplify_eq; done.
Qed.

Section lookup.
  Context (ns : resolver).

(** A lookup by name, whatever the state of errno. *)
Lemma client_lookup_by_name erange s hname canonical :
  client_gettype hname <> MCL_FQDN \/ canonical = true ->
  client_lookup ns erange s hname canonical =
  let t := client_gettype hname in
  match find_client s (fun clp => Some (strcaseeq hname (m_hostname clp))) (cl_list s t) with
  | None => None
  | Some (Some id) => match cl_store s !! id with
                      | None => None
                      | Some clp => Some (Some id, Clients (<[id := clp]> (cl_store s)) (cl_list s))
                      end
  | Some None => match client_init ns erange (zero_client t) hname None with
                 | InitFail => Some (None, s)
                 | InitUndef => None
                 | InitOk clp =>
                     let id := fresh (dom (cl_store s)) in
                     Some (Some id, Clients (<[id := clp]> (<[id := clp]> (cl_store s))) (cl_list (client_add s id clp)))
                 end
  end.
Proof.
  intros Hk. unfold client_lookup.
  assert (bool_decide (client_gettype hname = MCL_FQDN) && negb canonical = false) as ->.
  { destruct Hk as [Hk| ->]; [by rewrite bool_decide_eq_false_2|by rewrite andb_false_r]. }
  unfold lookup_finish. cbv zeta. cbn [init_addrlist]. destruct (find_client _ _ _) as [[id|]|]; [| |done].
  - destruct (cl_store s !! id); [|done]. by destruct (_ && _).
  - destruct (client_init _ _ _ _ _) as [| |clp]; [done..|]. unfold client_add. cbn [cl_store cl_list].
    rewrite lookup_insert_eq. by destruct (_ && _).
Qed.

(** A new record at the end of its list. *)
Lemma client_add_wf s hname erange clp :
  clients_wf s ->
  find_client s (fun clp => Some (strcaseeq hname (m_hostname clp))) (cl_list s (client_gettype hname)) = Some None ->
  client_init ns erange (zero_client (client_gettype hname)) hname None = InitOk clp ->
  clients_wf (client_add s (fresh (dom (cl_store s))) clp).
Proof.
  intros [W1 W2 W3] Hnone [Ht Hn]%client_init_name. set (id := fresh (dom (cl_store s))).
  assert (cl_store s !! id = None) as Hf by (apply not_elem_of_dom, is_fresh).
  assert (forall t, id ∉ cl_list s t) as Hfresh.
  { intros t Hin. destruct (W1 t id Hin) as (c & E & _). congruence. }
  assert (forall t i ci, i ∈ cl_list s t -> <[id := clp]> (cl_store s) !! i = Some ci -> cl_store s !! i = Some ci) as Hold.
  { intros t i ci Hin. rewrite lookup_insert_ne; [done|]. intros <-. by destruct (Hfresh t). }
  assert (forall i ci, i ∈ cl_list s (m_type clp) -> cl_store s !! i = Some ci -> strcaseeq hname (m_hostname ci) = false) as Hno.
  { intros i ci Hin E. rewrite Ht in Hin. pose proof (find_client_none _ _ _ _ _ Hnone Hin E). congruence. }
  split; unfold client_add; cbn [cl_store cl_list].
  - intros t i Hi. destruct (decide (t = m_type clp)) as [->|]; [apply elem_of_app in Hi as [Hi|Hi%list_elem_of_singleton]|].
    + destruct (W1 _ i Hi) as (c & E & ?). exists c. rewrite lookup_insert_ne; [done|congruence].
    + subst i. rewrite lookup_insert_eq. eauto.
    + destruct (W1 _ i Hi) as (c & E & ?). exists c. rewrite lookup_insert_ne; [done|congruence].
  - intros t. destruct (decide (t = m_type clp)); [|done]. apply NoDup_app. split_and!; [done| |apply NoDup_singleton].
    intros i Hi Hs%list_elem_of_singleton. subst. by destruct (Hfresh _ Hi).
  - intros t i j ci cj Hq Hi Hj Ei Ej E. destruct (decide (t = m_type clp)) as [->|].
    2: { eapply (W3 t i j ci cj); eauto. }
    apply elem_of_app in Hi as [Hi|Hi%list_elem_of_singleton], Hj as [Hj|Hj%list_elem_of_singleton]; [|subst..].
    + eapply (W3 _ i j ci cj); eauto.
    + rewrite lookup_insert_eq in Ej. simplify_eq. pose proof (Hno i ci Hi (Hold _ _ _ Hi Ei)) as Hc.
      rewrite strcaseeq_sym in E. congruence.
    + rewrite lookup_insert_eq in Ei. simplify_eq. pose proof (Hno j cj Hj (Hold _ _ _ Hj Ej)) as Hc. congruence.
    + done.
Qed.
End lookup.

(** Nothing but the store's history distinguishes the tables. *)
Definition same_clients (s s' : clients) : Prop := cl_store s = cl_store s' /\ forall t, cl_list s t = cl_list s' t.

Lemma client_lookup_same ns erange s hname canonical id s' :
  client_gettype hname <> MCL_FQDN \/ canonical = true -> clients_wf s ->
  client_lookup ns erange s hname canonical = Some (Some id, s') ->
  clients_wf s' /\
  (exists clp, cl_store s' !! id = Some clp /\ m_type clp = client_gettype hname /\ strcaseeq hname (m_hostname clp) = true) /\
  (forall i clp, cl_store s !! i = Some clp -> cl_store s' !! i = Some clp) /\
  forall erange', exists s'', client_lookup ns erange' s' hname canonical = Some (Some id, s'') /\ same_clients s'' s'.
Proof.
  intros Hk W. setoid_rewrite (client_lookup_by_name ns _ _ _ _ Hk). cbv zeta.
  destruct (find_client s _ _) as [[i|]|] eqn:Ef; [| |done].
  - destruct (find_client_found _ _ _ _ Ef) as (Hi & clp & E & Hc). rewrite E. intros Eq. injection Eq as <- <-.
    rewrite insert_id by done. assert (Clients (cl_store s) (cl_list s) = s) as Es by (by destruct s). rewrite Es.
    split_and!; [done| |done|].
    + exists clp. split; [done|]. destruct (cw_type s W _ _ Hi) as (c & E' & Ht). simplify_eq. by split.
    + intros er. rewrite Ef, E, insert_id, Es by done. eexists. split; [reflexivity|]. by split.
  - destruct (client_init ns erange _ hname None) as [| |clp] eqn:Ei; [done..|]. intros Eq. injection Eq as <- <-. rewrite insert_insert_eq.
    pose proof (client_add_wf ns s hname erange clp W Ef Ei) as W'.
    pose proof (client_init_name _ _ _ _ _ Ei) as [Ht Hn]. set (n := fresh (dom (cl_store s))) in *.
    assert (cl_store s !! n = None) as Hf by (apply not_elem_of_dom, is_fresh).
    change (Clients (<[n := clp]> (cl_store s)) _) with (client_add s n clp).
    split_and!; [done| | |].
    + exists clp. unfold client_add. cbn [cl_store]. rewrite lookup_insert_eq, Ht, Hn. split_and!; [done..|apply strcaseeq_refl].
    + intros j c Hj. unfold client_add. cbn [cl_store]. rewrite lookup_insert_ne; [done|congruence].
    + intros er. unfold client_add at 1 2 3. cbn [cl_store cl_list]. rewrite decide_True, find_client_app by done.
      rewrite (find_client_store s), Ef.
      * cbn [find_client cl_store]. rewrite lookup_insert_eq, Hn, strcaseeq_refl, lookup_insert_eq. eexists. split; [reflexivity|].
        split; [apply insert_insert_eq|done].
      * intros j Hj. cbn [cl_store]. rewrite lookup_insert_ne; [done|]. intros <-.
        destruct (cw_type s W _ _ Hj) as (c & E & _). congruence.
Qed.

(** The table keeps one record per name: looking a client up by name returns a
    record of the right type whose name is the one asked for in some case, keeps
    every record there was and the table well formed, and asking again gives the
    same record without changing the table. *)
Theorem client_lookup_once ns erange s hname canonical id s' :
  client_gettype hname <> MCL_FQDN \/ canonical = true -> clients_wf s ->
  client_lookup ns erange s hname canonical = Some (Some id, s') ->
  clients_wf s' /\
  (exists clp, cl_store s' !! id = Some clp /\ m_type clp = client_gettype hname /\ strcaseeq hname (m_hostname clp) = true) /\
  (forall i clp, cl_store s !! i = Some clp -> cl_store s' !! i = Some clp) /\
  forall erange', exists s'', client_lookup ns erange' s' hname canonical = Some (Some id, s'') /\ same_clients s'' s'.
Proof. apply client_lookup_same. Qed.

(** ** Witnesses *)

(** A name service that knows one network address in each family and one host. *)
Definition ns_ex : resolver :=
  Resolver (fun _ => None)
    (fun s => if streq s $"10.1.2.0" then Some (AI (AF_INET 0x0a010200) [] None)
              else if streq s $"fe80::" then Some (AI (AF_INET6 0xfe800000 0 0 0 0) [] None) else None)
    (fun a => match a with AF_INET 0x0a010203 => Some $"h.ex.org" | _ => None end)
    (fun _ => None) (fun _ => None) (fun _ _ => false) (fun _ _ _ _ => []).

(** The clients "*.ex.org", "10.1.2.0/24", "gss/krb5" and "*". *)
Definition table_ex : clients :=
  let mk n t l := Client n t 0 (l ++ replicate (16 - length l) None) 0 0 0 false in
  Clients
    (list_to_map [(1%positive, mk $"*.ex.org" MCL_WILDCARD []);
                  (2%positive, mk $"10.1.2.0/24" MCL_SUBNETWORK [Some (AF_INET 0x0a010200); Some (AF_INET 0xffffff00)]);
                  (3%positive, mk $"gss/krb5" MCL_GSS []); (4%positive, mk $"*" MCL_ANONYMOUS [])])
    (fun t => match t with MCL_WILDCARD => [1%positive] | MCL_SUBNETWORK => [2%positive]
                         | MCL_GSS => [3%positive] | MCL_ANONYMOUS => [4%positive] | _ => [] end).

Definition ai_ex : addrinfo := AI (AF_INET 0x0a010203) [] None.

Lemma name_ok_dec n : n <> [] -> strchr "," n = None -> strchr NUL n = None -> name_ok n.
Proof. intros H1 H2 H3. split; [done|by apply strchr_None..]. Qed.

Lemma table_ex_checkable : checkable ns_ex table_ex ai_ex.
Proof.
  unfold checkable. apply Forall_forall. intros id Hid. unfold all_clients in Hid. cbn in Hid.
  repeat (apply elem_of_cons in Hid as [->|Hid]; [eexists _, _; split_and!; [reflexivity|vm_compute; reflexivity|by apply name_ok_dec]|]).
  by apply elem_of_nil in Hid.
Qed.

Lemma client_compose_members_witness :
  exists dom, client_compose ns_ex table_ex ai_ex = Some dom /\
    forall d, dom = Some d -> client_member d $"10.1.2.0/24" = true.
Proof.
  destruct (client_compose_members ns_ex table_ex ai_ex table_ex_checkable) as (dom & E & _ & H).
  exists dom. split; [exact E|]. intros d Hd. apply (H d $"10.1.2.0/24" Hd).
  - by apply name_ok_dec.
  - eexists 2%positive, _. split_and!; [apply list_elem_of_In; cbn; tauto|reflexivity|vm_compute; reflexivity|reflexivity].
Defined.

Lemma client_compose_canonical_witness :
  client_compose ns_ex table_ex ai_ex = client_compose ns_ex table_ex ai_ex /\
  client_compose ns_ex table_ex ai_ex = Some (Some $"*,*.ex.org,10.1.2.0/24").
Proof.
  split; [|vm_compute; reflexivity].
  apply (client_compose_canonical ns_ex table_ex table_ex ai_ex ai_ex table_ex_checkable table_ex_checkable). reflexivity.
Defined.

Lemma client_subnet_prefix_witness :
  exists clp, client_init ns_ex false (zero_client MCL_SUBNETWORK) $"10.1.2.0/23" None = InitOk clp /\
    client_check ns_ex clp (AI (AF_INET 0x0a0103ff) [] None) = Some true.
Proof.
  destruct (client_subnet_prefix ns_ex false $"10.1.2.0" (AI (AF_INET 0x0a010200) [] None) 23) as (clp & E & H).
  - by apply strchr_None.
  - reflexivity.
  - unfold addr_ok, word_ok. cbn. lia.
  - cbn. lia.
  - exists clp. split; [exact E|]. rewrite H; [reflexivity|]. apply Forall_singleton. cbn. unfold word_ok. lia.
Defined.

Lemma client_subnet_zero_prefix_witness :
  client_init ns_ex false (zero_client MCL_SUBNETWORK) $"fe80::/0" None = InitUndef.
Proof.
  refine (client_subnet_zero_prefix ns_ex false $"fe80::" (AI (AF_INET6 0xfe800000 0 0 0 0) [] None) _ _);
    [by apply strchr_None|reflexivity].
Defined.

Definition no_clients : clients := Clients ∅ (fun _ => []).

Lemma client_lookup_once_witness :
  exists id s', client_lookup ns_ex false no_clients $"*.Ex.org" false = Some (Some id, s') /\ clients_wf s' /\
    exists s'', client_lookup ns_ex true s' $"*.Ex.org" false = Some (Some id, s'') /\ same_clients s'' s'.
Proof.
  eexists _, _. split; [reflexivity|].
  destruct (client_lookup_once ns_ex false no_clients $"*.Ex.org" false _ _ ltac:(left; discriminate)
    ltac:(split; [intros t id Hid; by apply elem_of_nil in Hid|intros; constructor|intros t i j ci cj _ Hi; by apply elem_of_nil in Hi])
    eq_refl) as (W & _ & _ & H). split; [exact W|]. apply H.
Defined.
