(* ===== verification/Hosts.v ===== *)
(** * Clients by name and by address

    [client_lookup] finds networks, netgroups, patterns and everybody by their
    names, but a single host by its addresses: it asks the name service for
    them and takes the record that shares one.  Under a name service that keeps
    the hosts in use apart, both searches are searches by the canonical name,
    and the table holds each client once. *)

From S2P Require Import Prelude Cacheio Exports Client.

Lemma find_client_total s f t : clients_wf s -> find_client s (fun c => Some (f c)) (cl_list s t) <> None.
Proof.
  intros [W1 _ _]. assert (forall i, i ∈ cl_list s t -> is_Some (cl_store s !! i)) as H.
  { intros i Hi. destruct (W1 t i Hi) as (c & E & _). by eexists. }
  revert H. generalize (cl_list s t). intros l. induction l as [|i l IH]; intros H; [done|]. cbn.
  destruct (H i) as [c ->]; [by left|]. destruct (f c); [done|]. apply IH. intros j Hj. apply H. by right.
Qed.

(** Tests that agree on the records of a list find the same one. *)
Lemma find_client_test s f g l :
  (forall i c, i ∈ l -> cl_store s !! i = Some c -> f c = g c) -> find_client s f l = find_client s g l.
Proof.
  induction l as [|i l IH]; intros H; [done|]. cbn. destruct (cl_store s !! i) as [c|] eqn:E; [|done].
  rewrite (H i c) by (done || by left). rewrite IH; [done|]. intros j cj Hj. apply H. by right.
Qed.

Section hosts.
  Context (ns : resolver) (P : cstr -> Prop).

(** The name under which a client is kept: of a single host, the canonical one. *)
Definition canon (h : cstr) : cstr :=
  if bool_decide (client_gettype h = MCL_FQDN) then default h (host_addrinfo ns h ≫= ai_canonname) else h.

(** Does a host have one of the addresses that another's record keeps? *)
Definition shares (ai ai' : addrinfo) : bool :=
  existsb (fun a => existsb (nfs_compare_sockaddr a) (take NFSCLNT_ADDRMAX (ai_addrs ai'))) (ai_addrs ai).

(** What is needed of the name service for the names [P] that are in use: a
    single host resolves, its canonical name is a host name and its own
    canonical name, and two of them share an address exactly when they have the
    same canonical name, in whatever case. *)
Record hosts_apart : Prop := HostsApart
  { ha_canon : forall h, P h -> client_gettype h = MCL_FQDN ->
      (exists ai, host_addrinfo ns h = Some ai /\ ai_canonname ai = Some (canon h)) /\
      client_gettype (canon h) = MCL_FQDN /\ canon (canon h) = canon h;
    ha_apart : forall h h' ai ai', P h -> P h' -> client_gettype h = MCL_FQDN -> client_gettype h' = MCL_FQDN ->
      host_addrinfo ns h = Some ai -> host_addrinfo ns h' = Some ai' -> shares ai ai' = strcaseeq (canon h) (canon h') }.

(** The record of a host has its addresses, as many as there is room for. *)
Definition has_addresses (c : nfs_client) (ai : addrinfo) : Prop :=
  m_naddr c <> 0%nat /\ take (m_naddr c) (m_addrlist c) = Some <$> take NFSCLNT_ADDRMAX (ai_addrs ai).

(** A table of clients in use: each record's name has its record's type, each
    single host is kept once, under its canonical name and with the addresses of
    a name in use. *)
Record clients_ok (s : clients) : Prop := ClientsOk
  { co_wf : clients_wf s;
    co_type : forall t i c, i ∈ cl_list s t -> cl_store s !! i = Some c -> client_gettype (m_hostname c) = t;
    co_names : forall t i j ci cj, i ∈ cl_list s t -> j ∈ cl_list s t -> cl_store s !! i = Some ci -> cl_store s !! j = Some cj ->
      strcaseeq (m_hostname ci) (m_hostname cj) = true -> i = j;
    co_host : forall i c, i ∈ cl_list s MCL_FQDN -> cl_store s !! i = Some c -> canon (m_hostname c) = m_hostname c /\
      exists h ai, P h /\ client_gettype h = MCL_FQDN /\ canon h = m_hostname c /\ host_addrinfo ns h = Some ai /\ has_addresses c ai }.

(** A name in use of which a client can be made. *)
Definition known (erange : bool) (h : cstr) : Prop :=
  P h /\ exists c0, client_init ns erange (zero_client (client_gettype h)) h None = InitOk c0.

Lemma canon_named h : client_gettype h <> MCL_FQDN -> canon h = h.
Proof. intros H. unfold canon. by rewrite bool_decide_eq_false_2. Qed.

Lemma canon_type h : hosts_apart -> P h -> client_gettype (canon h) = client_gettype h.
Proof.
  intros H Hp. destruct (decide (client_gettype h = MCL_FQDN)) as [E|E]; [|by rewrite canon_named].
  rewrite E. by apply (ha_canon H h Hp E).
Qed.

Lemma canon_idem h : hosts_apart -> P h -> canon (canon h) = canon h.
Proof.
  intros H Hp. destruct (decide (client_gettype h = MCL_FQDN)) as [E|E]; [by apply (ha_canon H h Hp E)|]. by rewrite !canon_named by (by rewrite ?canon_named).
Qed.

(** Every record is kept under a canonical name. *)
Lemma clients_canon s t i c : clients_ok s -> i ∈ cl_list s t -> cl_store s !! i = Some c -> canon (m_hostname c) = m_hostname c.
Proof.
  intros Hs Hi Ec. destruct (decide (t = MCL_FQDN)) as [->|Ht]; [by apply (co_host s Hs i)|].
  apply canon_named. by rewrite (co_type s Hs t i c).
Qed.

(** For a record of the table, the test by address is the test by name. *)
Lemma check_by_name c h h' ai ai' :
  hosts_apart -> P h -> client_gettype h = MCL_FQDN -> host_addrinfo ns h = Some ai ->
  P h' -> client_gettype h' = MCL_FQDN -> canon h' = m_hostname c ->
  host_addrinfo ns h' = Some ai' -> has_addresses c ai' -> check_fqdn c ai = strcaseeq (canon h) (m_hostname c).
Proof.
  intros H Hp Ht Ea Hp' Ht' Hc Ea' [_ Hl]. rewrite <- Hc, <- (ha_apart H h h' ai ai') by done.
  unfold check_fqdn, shares. rewrite Hl. generalize (take NFSCLNT_ADDRMAX (ai_addrs ai')). intros l.
  assert (forall a, existsb (fun slot => match slot with Some b => nfs_compare_sockaddr a b | None => false end) (Some <$> l) =
            existsb (nfs_compare_sockaddr a) l) as E; [|induction (ai_addrs ai); cbn; by rewrite ?E, ?IHl0; f_equal].
  intros a. induction l as [|b l IH]; [done|]. cbn. by rewrite IH.
Qed.

(** ** A new record *)

Lemma fill_addrlist addrs c k :
  (k + length addrs <= length (m_addrlist c))%nat ->
  let c' := foldl (fun c p => set_addrlist c p.1 p.2) c (zip (seq k (length addrs)) addrs) in
  m_addrlist c' = take k (m_addrlist c) ++ (Some <$> addrs) ++ drop (k + length addrs) (m_addrlist c) /\
  m_hostname c' = m_hostname c /\ m_type c' = m_type c /\ m_count c' = m_count c.
Proof.
  revert c k. induction addrs as [|a addrs IH]; intros c k Hl; cbv zeta.
  { cbn. by rewrite Nat.add_0_r, take_drop. }
  cbn [length seq zip zip_with foldl fst snd]. cbn [length] in Hl.
  destruct (IH (set_addrlist c k a) (S k)) as (H1 & H2 & H3 & H4); [cbn; rewrite length_insert; lia|]. cbv zeta in H1, H2, H3, H4.
  rewrite H1, H2, H3, H4. split_and!; try done. cbn [set_addrlist m_addrlist fmap list_fmap].
  rewrite (take_S_r _ k (Some a)) by (rewrite list_lookup_insert_eq; [done|lia]).
  rewrite take_insert_ge, drop_insert_lt by lia. rewrite <- app_assoc. cbn [app]. by replace (k + S (length addrs))%nat with (S k + length addrs)%nat by lia.
Qed.

(** What a lookup makes of a new record: a host gets its addresses. *)
Definition settle (h : cstr) (c : nfs_client) : nfs_client :=
  if bool_decide (client_gettype h = MCL_FQDN) then init_addrlist c (host_addrinfo ns h) else c.

Lemma settle_same h c :
  length (m_addrlist c) = NFSCLNT_ADDRMAX -> m_hostname (settle h c) = m_hostname c /\ m_type (settle h c) = m_type c.
Proof.
  intros Hl. unfold settle. case_bool_decide; [|done]. destruct (host_addrinfo ns h) as [ai|]; [|done]. cbn [init_addrlist].
  destruct (fill_addrlist (take NFSCLNT_ADDRMAX (ai_addrs ai)) c 0) as (_ & H1 & H2 & _); [rewrite Hl, length_take; lia|].
  by split.
Qed.

Lemma settle_addresses h c ai :
  client_gettype h = MCL_FQDN -> host_addrinfo ns h = Some ai -> length (m_addrlist c) = NFSCLNT_ADDRMAX -> has_addresses (settle h c) ai.
Proof.
  intros Ht Ea Hl. unfold settle. rewrite bool_decide_eq_true_2, Ea by done. cbn [init_addrlist]. set (addrs := take NFSCLNT_ADDRMAX (ai_addrs ai)).
  assert (length addrs <= NFSCLNT_ADDRMAX)%nat as Hle by (unfold addrs; rewrite length_take; lia).
  destruct (fill_addrlist addrs c 0) as (H & _); [lia|]. cbv zeta in H. split; cbn [set_naddr m_naddr m_addrlist].
  - unfold addrs. by destruct ai.
  - rewrite H, take_0. cbn [app]. apply take_app_length'. symmetry. apply length_fmap.
Qed.

Lemma client_init_host erange h : client_gettype h = MCL_FQDN ->
  client_init ns erange (zero_client MCL_FQDN) (canon h) None =
  InitOk (Client (canon h) MCL_FQDN 0 (replicate NFSCLNT_ADDRMAX None) 0 0 0 false).
Proof. done. Qed.

Lemma client_init_canon erange h c :
  client_init ns erange (zero_client (client_gettype h)) (canon h) None = InitOk c ->
  m_type c = client_gettype h /\ m_hostname c = canon h /\ (client_gettype h = MCL_FQDN -> length (m_addrlist c) = NFSCLNT_ADDRMAX).
Proof.
  intros H. destruct (client_init_name _ _ _ _ _ H) as [H1 H2]. split_and!; [done..|]. intros E. rewrite E in H.
  rewrite client_init_host in H by done. by injection H as <-.
Qed.

(** ** Looking a client up *)

Context (Hns : hosts_apart).

(** The search is one by the canonical name. *)
Lemma client_lookup_canon erange s h :
  clients_ok s -> P h ->
  client_lookup ns erange s h false =
  match find_client s (fun c => Some (strcaseeq (canon h) (m_hostname c))) (cl_list s (client_gettype h)) with
  | None => None
  | Some (Some id) => Some (Some id, s)
  | Some None =>
      match client_init ns erange (zero_client (client_gettype h)) (canon h) None with
      | InitFail => Some (None, s)
      | InitUndef => None
      | InitOk c => let id := fresh (dom (cl_store s)) in
                    Some (Some id, Clients (<[id := settle h c]> (cl_store s)) (cl_list (client_add s id c)))
      end
  end.
Proof using Hns.
  intros Hs Hp. destruct (decide (client_gettype h = MCL_FQDN)) as [Ht|Ht].
  - unfold client_lookup. rewrite Ht. cbn [bool_decide_eq_true_2]. rewrite bool_decide_eq_true_2 by done. cbn [andb negb].
    destruct (ha_canon Hns h Hp Ht) as ((ai & Ea & En) & _). rewrite Ea, En.
    rewrite (find_client_test s _ (fun c => Some (strcaseeq (canon h) (m_hostname c)))).
    2: { intros i c Hi Ec. destruct (co_host s Hs i c Hi Ec) as (_ & h' & ai' & Hp' & Ht' & Hc & Ea' & Ha).
         unfold client_check. destruct (cw_type s (co_wf s Hs) _ _ Hi) as (c' & Ec' & Hty). assert (c' = c) as -> by congruence. rewrite Hty.
         f_equal. by apply (check_by_name c h h' ai ai'). }
    destruct (find_client _ _ _) as [[id|]|] eqn:Ef; [| |done].
    + destruct (find_client_found _ _ _ _ Ef) as (Hi & c & Ec & _). unfold lookup_finish. rewrite Ec.
      destruct (co_host s Hs id c Hi Ec) as (_ & _ & _ & _ & _ & _ & _ & Hn & _). rewrite (proj2 (Nat.eqb_neq _ _) Hn), andb_false_r.
      rewrite insert_id by done. by destruct s.
    + rewrite client_init_host by done. unfold lookup_finish. cbn [client_add cl_store]. rewrite lookup_insert_eq, insert_insert_eq.
      unfold settle. rewrite Ea, !bool_decide_eq_true_2 by done. done.
  - rewrite client_lookup_by_name by auto. cbv zeta. rewrite canon_named by done.
    destruct (find_client _ _ _) as [[id|]|] eqn:Ef; [| |done].
    + destruct (find_client_found _ _ _ _ Ef) as (_ & c & Ec & _). rewrite Ec, insert_id by done. by destruct s.
    + destruct (client_init _ _ _ _ _); [done..|]. rewrite insert_insert_eq. unfold settle. by rewrite bool_decide_eq_false_2.
Qed.

Lemma client_init_known erange h : known erange h ->
  exists c, client_init ns erange (zero_client (client_gettype h)) (canon h) None = InitOk c.
Proof.
  intros [_ [c0 Hc]]. destruct (decide (client_gettype h = MCL_FQDN)) as [E|E]; [|rewrite canon_named by done; eauto].
  rewrite E, client_init_host by done. eauto.
Qed.

(** A new record keeps the table in order. *)
Lemma add_client_ok erange s h c :
  clients_ok s -> P h ->
  find_client s (fun c => Some (strcaseeq (canon h) (m_hostname c))) (cl_list s (client_gettype h)) = Some None ->
  client_init ns erange (zero_client (client_gettype h)) (canon h) None = InitOk c ->
  let id := fresh (dom (cl_store s)) in clients_ok (Clients (<[id := settle h c]> (cl_store s)) (cl_list (client_add s id c))).
Proof using Hns.
  intros Hs Hp Hnone Hi id. destruct (client_init_canon _ _ _ Hi) as (Ht & Hn & Hlen).
  assert (m_hostname (settle h c) = canon h /\ m_type (settle h c) = client_gettype h) as [Hn' Ht'].
  { destruct (decide (client_gettype h = MCL_FQDN)) as [E|E].
    - destruct (settle_same h c (Hlen E)) as [-> ->]. by split.
    - unfold settle. by rewrite bool_decide_eq_false_2. }
  assert (cl_store s !! id = None) as Hf by (apply not_elem_of_dom, is_fresh).
  assert (forall t, id ∉ cl_list s t) as Hfresh.
  { intros t Hin. destruct (cw_type s (co_wf s Hs) t id Hin) as (c' & E & _). congruence. }
  assert (forall t i ci, i ∈ cl_list (client_add s id c) t -> <[id := settle h c]> (cl_store s) !! i = Some ci ->
            i = id /\ ci = settle h c /\ t = client_gettype h \/ i <> id /\ i ∈ cl_list s t /\ cl_store s !! i = Some ci) as Hcase.
  { intros t i ci Hin Ei. cbn [client_add cl_list] in Hin. destruct (decide (i = id)) as [->|Hne].
    - rewrite lookup_insert_eq in Ei. injection Ei as <-. left. split_and!; try done.
      destruct (decide (t = m_type c)) as [->|]; [done|]. by destruct (Hfresh t).
    - rewrite lookup_insert_ne in Ei by done. right. split_and!; try done. destruct (decide (t = m_type c)); [|done].
      apply elem_of_app in Hin as [?|Hin%list_elem_of_singleton]; [done|congruence]. }
  assert (forall j cj, j ∈ cl_list s (client_gettype h) -> cl_store s !! j = Some cj -> strcaseeq (canon h) (m_hostname cj) = false) as Hno.
  { intros j cj Hj Ej. pose proof (find_client_none _ _ _ _ _ Hnone Hj Ej). congruence. }
  assert (forall t i j ci cj, i ∈ cl_list (client_add s id c) t -> j ∈ cl_list (client_add s id c) t ->
            <[id := settle h c]> (cl_store s) !! i = Some ci -> <[id := settle h c]> (cl_store s) !! j = Some cj ->
            strcaseeq (m_hostname ci) (m_hostname cj) = true -> i = j) as Hnames.
  { intros t i j ci cj Hi1 Hj1 Ei Ej Hs'. destruct (Hcase _ _ _ Hi1 Ei) as [(-> & -> & ->)|(Hni & Hi2 & Ei')],
      (Hcase _ _ _ Hj1 Ej) as [(-> & -> & Htj)|(Hnj & Hj2 & Ej')]; [done|..|by apply (co_names s Hs t i j ci cj)].
    - rewrite Hn', (Hno j cj) in Hs' by done. done.
    - rewrite strcaseeq_sym, Hn', (Hno i ci) in Hs' by (done || by rewrite <- Htj). done. }
  split; cbn [cl_store cl_list].
  - split; cbn [cl_store cl_list].
    + intros t i Hin. destruct (decide (i = id)) as [->|Hne].
      * exists (settle h c). rewrite lookup_insert_eq. split; [done|]. cbn [client_add cl_list] in Hin.
        destruct (decide (t = m_type c)) as [->|]; [by rewrite Ht', Ht|]. by destruct (Hfresh t).
      * rewrite lookup_insert_ne by done. apply (cw_type s (co_wf s Hs)). cbn [client_add cl_list] in Hin. destruct (decide _); [|done].
        apply elem_of_app in Hin as [?|Hin%list_elem_of_singleton]; done.
    + intros t. cbn [client_add cl_list]. pose proof (cw_nodup s (co_wf s Hs) t). destruct (decide _); [|done].
      apply NoDup_app. split_and!; [done| |apply NoDup_singleton]. intros i Hi' ->%list_elem_of_singleton. by destruct (Hfresh t).
    + intros t i j ci cj _. apply Hnames.
  - intros t i ci Hin Ei. destruct (Hcase _ _ _ Hin Ei) as [(-> & -> & ->)|(_ & Hin' & Ei')]; [|by apply (co_type s Hs t i)].
    rewrite Hn'. by apply canon_type.
  - exact Hnames.
  - intros i ci Hin Ei. destruct (Hcase _ _ _ Hin Ei) as [(-> & -> & E)|(_ & Hin' & Ei')]; [|by apply (co_host s Hs i)].
    symmetry in E. destruct (ha_canon Hns h Hp E) as ((ai & Ea & En) & H2 & H3). rewrite Hn'. split; [done|].
    exists h, ai. split_and!; try done. by apply settle_addresses; [..|apply Hlen].
Qed.

(** Looking up a known client gives a record of its type and canonical name, the
    only one with that name; the table stays in order and keeps its records;
    asking again gives the same record and changes nothing. *)
Lemma client_lookup_known erange s h :
  clients_ok s -> known erange h ->
  exists clp s' c, client_lookup ns erange s h false = Some (Some clp, s') /\ clients_ok s' /\
    (forall i ci, cl_store s !! i = Some ci -> cl_store s' !! i = Some ci) /\
    (forall t i, i ∈ cl_list s t -> i ∈ cl_list s' t) /\
    cl_store s' !! clp = Some c /\ clp ∈ cl_list s' (m_type c) /\ m_type c = client_gettype h /\ strcaseeq (canon h) (m_hostname c) = true /\
    (forall i ci, i ∈ cl_list s (client_gettype h) -> cl_store s !! i = Some ci -> strcaseeq (canon h) (m_hostname ci) = true -> i = clp) /\
    forall erange', client_lookup ns erange' s' h false = Some (Some clp, s').
Proof using Hns.
  intros Hs Hk. destruct (client_init_known erange h Hk) as (c0 & Hi). pose proof (proj1 Hk) as Hp.
  pose proof (client_lookup_canon erange s h Hs Hp) as E. rewrite Hi in E.
  pose proof (find_client_total s (fun c => strcaseeq (canon h) (m_hostname c)) (client_gettype h) (co_wf s Hs)) as Hf.
  assert (exists clp s' c, client_lookup ns erange s h false = Some (Some clp, s') /\ clients_ok s' /\
    (forall i ci, cl_store s !! i = Some ci -> cl_store s' !! i = Some ci) /\ (forall t i, i ∈ cl_list s t -> i ∈ cl_list s' t) /\
    cl_store s' !! clp = Some c /\ clp ∈ cl_list s' (client_gettype h) /\ m_type c = client_gettype h /\ strcaseeq (canon h) (m_hostname c) = true)
    as (clp & s' & c & E' & Hs' & Hold & Hlist & Ec & Hin & Ht & Hn).
  { destruct (find_client _ _ _) as [[id|]|] eqn:Ef; [| |done].
    - destruct (find_client_found _ _ _ _ Ef) as (Hin & c & Ec & Hc). apply Some_inj in Hc.
      destruct (cw_type s (co_wf s Hs) _ _ Hin) as (c' & Ec' & Ht). assert (c' = c) as -> by congruence. exists id, s, c. by split_and!.
    - pose proof (add_client_ok erange s h c0 Hs Hp Ef Hi) as Hok. cbv zeta in Hok, E. set (n := fresh (dom (cl_store s))) in *.
      assert (cl_store s !! n = None) as Hfr by (apply not_elem_of_dom, is_fresh). destruct (client_init_canon _ _ _ Hi) as (Ht & Hn & Hlen).
      eexists n, _, (settle h c0). split_and!; [exact E|done|..]; cbn [cl_store cl_list client_add].
      + intros i ci Ei. rewrite lookup_insert_ne; [done|congruence].
      + intros t i Hin. destruct (decide _); [apply elem_of_app; by left|done].
      + apply lookup_insert_eq.
      + rewrite decide_True by done. apply elem_of_app. right. by apply list_elem_of_singleton.
      + destruct (decide (client_gettype h = MCL_FQDN)) as [Eq|Eq]; [by rewrite (proj2 (settle_same h c0 (Hlen Eq)))|].
        unfold settle. by rewrite bool_decide_eq_false_2.
      + destruct (decide (client_gettype h = MCL_FQDN)) as [Eq|Eq]; [rewrite (proj1 (settle_same h c0 (Hlen Eq)))|unfold settle; rewrite bool_decide_eq_false_2 by done];
          rewrite Hn; apply strcaseeq_refl. }
  assert (forall i ci, i ∈ cl_list s' (client_gettype h) -> cl_store s' !! i = Some ci -> strcaseeq (canon h) (m_hostname ci) = true -> i = clp) as Hu.
  { intros i ci Hi' Ei Hsi. apply (co_names s' Hs' (client_gettype h) i clp ci c); try done. apply strcaseeq_spec in Hsi, Hn. apply strcaseeq_spec. congruence. }
  exists clp, s', c. rewrite Ht. split_and!; try done.
  - intros i ci Hi' Ei. by apply Hu; [apply Hlist|apply Hold].
  - intros er. rewrite (client_lookup_canon er s' h Hs' Hp).
    pose proof (find_client_total s' (fun c => strcaseeq (canon h) (m_hostname c)) (client_gettype h) (co_wf s' Hs')) as Hf'.
    destruct (find_client s' _ _) as [[id|]|] eqn:Ef; [| |done].
    + destruct (find_client_found _ _ _ _ Ef) as (Hid & ci & Ei & Hci). apply Some_inj in Hci. by rewrite (Hu id ci Hid Ei Hci).
    + pose proof (find_client_none _ _ _ _ _ Ef Hin Ec) as Hx. cbv beta in Hx. congruence.
Qed.

(** Counting references leaves the names alone. *)
Lemma clients_ok_count s s' clp c n :
  clients_ok s -> cl_store s !! clp = Some c -> cl_store s' = <[clp := set_count c n]> (cl_store s) -> (forall t, cl_list s' t = cl_list s t) ->
  clients_ok s'.
Proof.
  intros [[W1 W2 W3] T N H] Ec Es El.
  assert (forall i ci, cl_store s' !! i = Some ci -> exists ci', cl_store s !! i = Some ci' /\ m_type ci = m_type ci' /\
            m_hostname ci = m_hostname ci' /\ m_naddr ci = m_naddr ci' /\ m_addrlist ci = m_addrlist ci') as Hb.
  { intros i ci Ei. rewrite Es in Ei. destruct (decide (clp = i)) as [<-|]; [|rewrite lookup_insert_ne in Ei by done; eauto 10].
    rewrite lookup_insert_eq in Ei. injection Ei as <-. eauto 10. }
  assert (forall t i j ci cj, i ∈ cl_list s' t -> j ∈ cl_list s' t -> cl_store s' !! i = Some ci -> cl_store s' !! j = Some cj ->
            strcaseeq (m_hostname ci) (m_hostname cj) = true -> i = j) as Hn.
  { intros t i j ci cj. rewrite El. intros Hi Hj Ei Ej. destruct (Hb i ci Ei) as (ci' & Ei' & _ & -> & _), (Hb j cj Ej) as (cj' & Ej' & _ & -> & _). by apply (N t). }
  split; [split|..]; try done.
  - intros t i. rewrite El. intros Hi. destruct (W1 t i Hi) as (ci & Ei & Hti). rewrite Es. destruct (decide (clp = i)) as [<-|].
    + rewrite lookup_insert_eq. eexists. split; [done|]. cbn. congruence.
    + rewrite lookup_insert_ne by done. eauto.
  - intros t. by rewrite El.
  - intros t i j ci cj _. apply Hn.
  - intros t i ci. rewrite El. intros Hi Ei. destruct (Hb i ci Ei) as (ci' & Ei' & _ & -> & _). by apply (T t i).
  - intros i ci. rewrite El. intros Hi Ei. destruct (Hb i ci Ei) as (ci' & Ei' & _ & -> & Hna & Hal).
    destruct (H i ci' Hi Ei') as (H1 & h & ai & H2 & H3 & H4 & H5 & H6 & H7). split; [done|]. exists h, ai. unfold has_addresses in *. rewrite Hna, Hal. by split_and!.
Qed.
End hosts.

Lemma no_clients_ok ns P s : (forall t, cl_list s t = []) -> clients_ok ns P s.
Proof.
  intros H. assert (forall t i, i ∉ cl_list s t) as Hn by (intros t i; rewrite H; apply not_elem_of_nil).
  split; [split|..]; try (intros; exfalso; by eapply Hn). intros t. rewrite H. constructor.
Qed.

(** ** A name service with two hosts, one of them with an alias *)

Definition ns_hosts : resolver :=
  Resolver (fun s => if streq s $"h.ex.org" || streq s $"h" then Some (AI (AF_INET 0x0a010203) [AF_INET 0x0a010204] (Some $"h.ex.org"))
                     else if streq s $"k.ex.org" then Some (AI (AF_INET 0x0a010205) [] (Some $"k.ex.org")) else None)
    (getaddrinfo_numeric ns_ex) (getnameinfo ns_ex) (getnameinfo_numeric ns_ex) (gethostbyname ns_ex) (innetgr ns_ex) (inet_ntop6 ns_ex).

Definition names_hosts (h : cstr) : Prop := client_gettype h <> MCL_FQDN \/ h ∈ [$"h.ex.org"; $"h"; $"k.ex.org"].

Lemma hosts_apart_ex : hosts_apart ns_hosts names_hosts.
Proof.
  assert (forall h, names_hosts h -> client_gettype h = MCL_FQDN -> h = $"h.ex.org" \/ h = $"h" \/ h = $"k.ex.org") as H.
  { intros h [Hh|Hh] Ht; [done|]. rewrite list_elem_of_In in Hh. cbn in Hh. intuition. }
  split.
  - intros h Hp Ht. destruct (H h Hp Ht) as [->|[->| ->]]; (split; [|split; reflexivity]); eexists; split; reflexivity.
  - intros h h' ai ai' Hp Hp' Ht Ht'. destruct (H h Hp Ht) as [->|[->| ->]], (H h' Hp' Ht') as [->|[->| ->]]; intros [= <-] [= <-]; reflexivity.
Qed.
