(* ===== verification/ExportTab.v ===== *)
(** * The table of exports (support/export/export.c)

    The exports of one client type are on one singly linked list in which those
    of a hash bucket stand together; the bucket keeps its first and last node.
    Nodes are records in a store, linked by their addresses, so that following a
    pointer that leads nowhere is a result of its own ([None]) and so is a loop
    that does not end.  The clients are those of [Client]; what [getexportent]
    reads is a list of entries. *)

From S2P Require Import Prelude Exports Client.

Record nfs_export := Export
  { m_next : option positive; m_client : positive; m_export : exportent;
    ex_exported : Z; m_xtabent : bool; m_mayexport : bool; m_changed : bool; m_warned : bool }.

Definition set_m_next (exp : nfs_export) (p : option positive) : nfs_export :=
  Export p (m_client exp) (m_export exp) (ex_exported exp) (m_xtabent exp) (m_mayexport exp) (m_changed exp) (m_warned exp).

Record exp_hash_entry := Bucket { p_first : option positive; p_last : option positive }.
Record exp_hash_table := Table { p_head : option positive; entries : Z -> exp_hash_entry }.

Record extab := Extab
  { ex_store : gmap positive nfs_export; exportlist : mcl_type -> exp_hash_table; ex_clients : clients }.

Definition HASH_TABLE_SIZE : Z := 1021.

Fixpoint strtoint_loop (str : cstr) (i n : Z) : Z :=
  match str with
  | [] => n
  | c :: str => strtoint_loop str (i + 1) (u32 (n + schar c * i))
  end.
Definition strtoint (str : cstr) : Z := strtoint_loop str 0 0.
Definition export_hash (str : cstr) : Z := strtoint str mod HASH_TABLE_SIZE.

Definition set_table (st : extab) (t : mcl_type) (tbl : exp_hash_table) : extab :=
  Extab (ex_store st) (fun t' => if decide (t' = t) then tbl else exportlist st t') (ex_clients st).
Definition set_store (st : extab) (m : gmap positive nfs_export) : extab := Extab m (exportlist st) (ex_clients st).
Definition set_clients (st : extab) (s : clients) : extab := Extab (ex_store st) (exportlist st) s.
Definition set_bucket (tbl : exp_hash_table) (pos : Z) (h : exp_hash_entry) : exp_hash_table :=
  Table (p_head tbl) (fun p => if decide (p = pos) then h else entries tbl p).

(** The type of an export's client. *)
Definition client_type (st : extab) (exp : nfs_export) : option mcl_type := m_type <$> cl_store (ex_clients st) !! m_client exp.

Definition export_add (st : extab) (id : positive) : option extab :=
  exp ← ex_store st !! id;
  type ← client_type st exp;
  let pos := export_hash (e_path (m_export exp)) in
  let tbl := exportlist st type in
  let hen := entries tbl pos in
  match p_first hen with
  | None =>
      let tbl := set_bucket tbl pos (Bucket (Some id) (Some id)) in
      let st := set_store st (<[id := set_m_next exp (p_head tbl)]> (ex_store st)) in
      Some (set_table st type (Table (Some id) (entries tbl)))
  | Some _ =>
      last ← p_last hen;
      lexp ← ex_store st !! last;
      let p_next := m_next lexp in
      let m := <[last := set_m_next lexp (Some id)]> (ex_store st) in
      exp ← m !! id;
      let m := <[id := set_m_next exp p_next]> m in
      Some (set_table (set_store st m) type (set_bucket tbl pos (Bucket (p_first hen) (Some id))))
  end.

(** The entry as the record keeps it. *)
Definition copy_ent (e : exportent) : exportent :=
  let d := dupexportent e in
  Ent (e_hostname e) (e_path d) (e_flags d) (e_anonuid d) (e_anongid d) (e_squids d) (e_sqgids d)
    (e_fsid d) (e_mountpoint d) (e_fslocmethod d) (e_fslocdata d) (e_uuid d) (e_secinfo d)
    (e_xprtsec d) (e_ttl d) (e_realpath d) (e_reexport d) (e_fsid_value d).

(** [clp->m_count++]. *)
Definition count_up (st : extab) (clp : positive) : option extab :=
  c ← cl_store (ex_clients st) !! clp;
  Some (set_clients st (Clients (<[clp := set_count c (m_count c + 1)]> (cl_store (ex_clients st))) (cl_list (ex_clients st)))).

(** [export_init] of a fresh node; the node's [m_next] is not set yet. *)
Definition export_init (st : extab) (id : positive) (clp : positive) (nep : exportent) : option extab :=
  count_up (set_store st (<[id := Export None clp (copy_ent nep) 0 false false false false]> (ex_store st))) clp.

Section with_resolver.
  Context (ns : resolver) (erange : bool).

Definition export_create (st : extab) (xep : exportent) (canonical : bool) : option (option positive * extab) :=
  hname ← e_hostname xep;
  '(clp, s) ← client_lookup ns erange (ex_clients st) hname canonical;
  let st := set_clients st s in
  match clp with
  | None => Some (None, st)
  | Some clp =>
      let id := fresh (dom (ex_store st)) in
      st ← export_init st id clp xep;
      st ← export_add st id;
      Some (Some id, st)
  end.

Definition export_dup (st : extab) (exp : nfs_export) (ai : addrinfo) : option (option positive * extab) :=
  c ← cl_store (ex_clients st) !! m_client exp;
  '(clp, s) ← client_dup ns erange (ex_clients st) c ai;
  let st := set_clients st s in
  match clp with
  | None => Some (None, st)
  | Some clp =>
      st ← count_up st clp;
      let id := fresh (dom (ex_store st)) in
      let new := Export (m_next exp) clp (copy_ent (m_export exp)) 0 false (m_mayexport exp) false false in
      st ← export_add (set_store st (<[id := new]> (ex_store st))) id;
      Some (Some id, st)
  end.

Definition export_check (st : extab) (exp : nfs_export) (ai : addrinfo) (path : cstr) : option bool :=
  if negb (streq path (e_path (m_export exp))) then Some false
  else c ← cl_store (ex_clients st) !! m_client exp; client_check ns c ai.

(** The walk over one list: the first export that matches, [Some None] at the end. *)
Fixpoint find_loop (fuel : nat) (st : extab) (exp : option positive) (ai : addrinfo) (path : cstr) : option (option positive) :=
  match exp, fuel with
  | None, _ => Some None
  | Some _, O => None
  | Some id, S fuel =>
      e ← ex_store st !! id;
      ok ← export_check st e ai path;
      if ok : bool then Some (Some id) else find_loop fuel st (m_next e) ai path
  end.

Fixpoint find_types (types : list mcl_type) (st : extab) (ai : addrinfo) (path : cstr) : option (option positive) :=
  match types with
  | [] => Some None
  | t :: types =>
      r ← find_loop (size (ex_store st)) st (p_head (exportlist st t)) ai path;
      match r with Some id => Some (Some id) | None => find_types types st ai path end
  end.

Definition export_find (st : extab) (ai : addrinfo) (path : cstr) : option (option positive * extab) :=
  r ← find_types mcl_types st ai path;
  match r with
  | None => Some (None, st)
  | Some id =>
      exp ← ex_store st !! id;
      t ← client_type st exp;
      if bool_decide (t = MCL_FQDN) then Some (Some id, st) else export_dup st exp ai
  end.

(** [for (exp = p_first; exp && exp != p_last->m_next; exp = exp->m_next)]. *)
Fixpoint lookup_loop (fuel : nat) (m : gmap positive nfs_export) (exp : option positive) (last : option positive)
    (clp : positive) (path : cstr) : option (option positive) :=
  match exp with
  | None => Some None
  | Some id =>
      l ← last;
      le ← m !! l;
      if bool_decide (exp = m_next le) then Some None
      else match fuel with
           | O => None
           | S fuel =>
               e ← m !! id;
               if bool_decide (m_client e = clp) && streq (e_path (m_export e)) path then Some (Some id)
               else lookup_loop fuel m (m_next e) last clp path
           end
  end.

Definition export_lookup (st : extab) (hname path : cstr) (canonical : bool) : option (option positive * extab) :=
  '(clp, s) ← client_lookup ns erange (ex_clients st) hname canonical;
  let st := set_clients st s in
  match clp with
  | None => Some (None, st)
  | Some clp =>
      c ← cl_store s !! clp;
      let hen := entries (exportlist st (m_type c)) (export_hash path) in
      r ← lookup_loop (size (ex_store st)) (ex_store st) (p_first hen) (p_last hen) clp path;
      Some (r, st)
  end.

(** The loop of [export_read] over the entries of the file. *)
Fixpoint read_loop (st : extab) (eeps : list exportent) (ignore_hosts : bool) (volumes : Z) (reexport_found : bool)
  : option (extab * Z * bool) :=
  match eeps with
  | [] => Some (st, volumes, reexport_found)
  | eep :: eeps =>
      hname ← e_hostname eep;
      '(exp, st) ← export_lookup st hname (e_path eep) ignore_hosts;
      let reexport_found := reexport_found || negb (match e_reexport eep with REEXP_NONE => true | _ => false end) in
      match exp with
      | Some _ => read_loop st eeps ignore_hosts volumes reexport_found
      | None =>
          '(new, st) ← export_create st eep false;
          read_loop st eeps ignore_hosts (volumes + match new with Some _ => 1 | None => 0 end) reexport_found
      end
  end.

(** The walk that looks for a numerical fsid= without reexport=. *)
Fixpoint fsid_loop (fuel : nat) (m : gmap positive nfs_export) (exp : option positive) : option bool :=
  match exp, fuel with
  | None, _ => Some false
  | Some _, O => None
  | Some id, S fuel =>
      e ← m !! id;
      match e_reexport (m_export e) with
      | REEXP_NONE => if has_flag (e_flags (m_export e)) NFSEXP_FSID then Some true else fsid_loop fuel m (m_next e)
      | _ => fsid_loop fuel m (m_next e)
      end
  end.

Fixpoint fsid_types (types : list mcl_type) (st : extab) : option bool :=
  match types with
  | [] => Some false
  | t :: types => found ← fsid_loop (size (ex_store st)) (ex_store st) (p_head (exportlist st t));
                  if found : bool then Some true else fsid_types types st
  end.

Definition export_read (st : extab) (eeps : list exportent) (ignore_hosts : bool) : option (extab * Z) :=
  '(st, volumes, reexport_found) ← read_loop st eeps ignore_hosts 0 false;
  if reexport_found : bool
  then bad ← fsid_types mcl_types st; Some (st, if bad : bool then -1 else volumes)
  else Some (st, volumes).
End with_resolver.

(** ** The list and its buckets *)

(** [l] are the nodes from [p] on, up to the pointer [q]. *)
Fixpoint chain (m : gmap positive nfs_export) (p : option positive) (l : list positive) (q : option positive) : Prop :=
  match l with
  | [] => p = q
  | x :: l => p = Some x /\ exists e, m !! x = Some e /\ chain m (m_next e) l q
  end.

Definition hash_of (m : gmap positive nfs_export) (id : positive) : option Z :=
  (fun e => export_hash (e_path (m_export e))) <$> m !! id.

(** The nodes of a bucket stand together, between its first and its last. *)
Definition bucket_ok (m : gmap positive nfs_export) (l : list positive) (pos : Z) (hen : exp_hash_entry) : Prop :=
  exists a b c, l = a ++ b ++ c /\ Forall (fun x => hash_of m x <> Some pos) (a ++ c) /\
    Forall (fun x => hash_of m x = Some pos) b /\ p_first hen = head b /\ p_last hen = last b.

Record table_ok (m : gmap positive nfs_export) (tbl : exp_hash_table) (l : list positive) : Prop := TableOk
  { tb_chain : chain m (p_head tbl) l None; tb_nodup : NoDup l;
    tb_bucket : forall pos, bucket_ok m l pos (entries tbl pos) }.

Lemma chain_app m p l1 l2 q : chain m p (l1 ++ l2) q <-> exists r, chain m p l1 r /\ chain m r l2 q.
Proof.
  revert p; induction l1 as [|x l1 IH]; intros p; cbn.
  - split; [eauto|]. by intros (r & -> & ?).
  - split.
    + intros (-> & e & E & H). apply IH in H as (r & H1 & H2). exists r. split; [|done]. split; [done|]. eauto.
    + intros (r & (-> & e & E & H1) & H2). split; [done|]. exists e. split; [done|]. apply IH. eauto.
Qed.

Lemma chain_frame m p l q x e : x ∉ l -> chain m p l q -> chain (<[x := e]> m) p l q.
Proof.
  revert p; induction l as [|y l IH]; intros p Hx H; [done|]. apply not_elem_of_cons in Hx as [Hxy Hx].
  destruct H as (-> & e' & E & H). split; [done|]. exists e'. split; [by rewrite lookup_insert_ne|by apply IH].
Qed.

Lemma chain_in m p l q x : chain m p l q -> x ∈ l -> is_Some (m !! x).
Proof.
  revert p; induction l as [|y l IH]; intros p H Hx; [by apply elem_of_nil in Hx|].
  destruct H as (-> & e & E & H). apply elem_of_cons in Hx as [->|Hx]; [by eexists|by eapply IH].
Qed.

Lemma chain_size m p l q : chain m p l q -> NoDup l -> (length l <= size m)%nat.
Proof.
  intros H Hn. rewrite <- size_dom, <- (size_list_to_set (C := gset positive)) by done.
  apply subseteq_size. intros x Hx. apply elem_of_list_to_set in Hx. apply elem_of_dom. by eapply chain_in.
Qed.

(** A node put behind another. *)
Fixpoint insert_after (x id : positive) (l : list positive) : list positive :=
  match l with
  | [] => []
  | y :: l => if decide (y = x) then y :: id :: l else y :: insert_after x id l
  end.

Lemma insert_after_l x id l1 l2 : x ∈ l1 -> insert_after x id (l1 ++ l2) = insert_after x id l1 ++ l2.
Proof.
  induction l1 as [|y l1 IH]; cbn; intros Hx; [by apply elem_of_nil in Hx|].
  destruct (decide (y = x)); [done|]. apply elem_of_cons in Hx as [->|Hx]; [done|]. by rewrite IH.
Qed.

Lemma insert_after_r x id l1 l2 : x ∉ l1 -> insert_after x id (l1 ++ l2) = l1 ++ insert_after x id l2.
Proof.
  induction l1 as [|y l1 IH]; cbn; intros Hx; [done|]. apply not_elem_of_cons in Hx as [Hxy Hx].
  rewrite decide_False by done. by rewrite IH.
Qed.

Lemma insert_after_here x id l : insert_after x id (x :: l) = x :: id :: l.
Proof. cbn. by rewrite decide_True. Qed.

Lemma insert_after_perm x id l : x ∈ l -> insert_after x id l ≡ₚ id :: l.
Proof.
  induction l as [|y l IH]; cbn; intros Hx; [by apply elem_of_nil in Hx|]. destruct (decide (y = x)) as [->|Hne].
  - apply Permutation_swap.
  - apply elem_of_cons in Hx as [->|Hx]; [done|]. rewrite IH by done. apply Permutation_swap.
Qed.

Lemma hash_of_next m x e p y : m !! x = Some e -> hash_of (<[x := set_m_next e p]> m) y = hash_of m y.
Proof.
  intros E. unfold hash_of. destruct (decide (x = y)) as [<-|]; [by rewrite lookup_insert_eq, E|by rewrite lookup_insert_ne].
Qed.

Lemma bucket_ok_ext m m' l pos hen : (forall y, hash_of m' y = hash_of m y) -> bucket_ok m l pos hen -> bucket_ok m' l pos hen.
Proof.
  intros E (a & b & c & -> & H1 & H2 & H3 & H4). exists a, b, c. split_and!; try done.
  - eapply Forall_impl; [exact H1|]. cbn. intros x Hx. by rewrite E.
  - eapply Forall_impl; [exact H2|]. cbn. intros x Hx. by rewrite E.
Qed.

(** A node of another bucket, put behind a node of that bucket. *)
Lemma bucket_ok_after m l pos pos' hen x id :
  NoDup l -> x ∈ l -> hash_of m x = Some pos' -> hash_of m id = Some pos' -> pos' <> pos ->
  bucket_ok m l pos hen -> bucket_ok m (insert_after x id l) pos hen.
Proof.
  intros Hn Hx Ex Eid Hp (a & b & c & -> & H1 & H2 & H3 & H4). rewrite Forall_app in H1. destruct H1 as [Ha Hc].
  assert (x ∉ b) as Hxb by (intros Hin; rewrite Forall_forall in H2; specialize (H2 x Hin); congruence).
  assert (forall l, x ∈ l -> Forall (fun y => hash_of m y <> Some pos) l ->
            Forall (fun y => hash_of m y <> Some pos) (insert_after x id l)) as Hins.
  { intros l Hl HF. rewrite insert_after_perm by done. constructor; [congruence|done]. }
  destruct (decide (x ∈ a)) as [Hxa|Hxa].
  - rewrite insert_after_l by done. exists (insert_after x id a), b, c. split_and!; try done. apply Forall_app. auto.
  - rewrite insert_after_r, (insert_after_r _ _ b) by done. exists a, b, (insert_after x id c). split_and!; try done.
    apply Forall_app. split; [done|]. apply Hins; [|done]. rewrite !elem_of_app in Hx. tauto.
Qed.

Lemma bucket_ok_front m l pos pos' hen id :
  hash_of m id = Some pos' -> pos' <> pos -> bucket_ok m l pos hen -> bucket_ok m (id :: l) pos hen.
Proof.
  intros Eid Hp (a & b & c & -> & H1 & H2 & H3 & H4). exists (id :: a), b, c. split_and!; try done.
  constructor; [congruence|done].
Qed.

Section table_add.
  Context (m : gmap positive nfs_export) (tbl : exp_hash_table) (l : list positive) (id : positive) (exp : nfs_export).
  Hypothesis Hok : table_ok m tbl l.
  Hypothesis Hid : id ∉ l.
  Hypothesis Hexp : m !! id = Some exp.
  #[local] Set Default Proof Using "All".

Let pos : Z := export_hash (e_path (m_export exp)).

Lemma hash_of_id : hash_of m id = Some pos.
Proof. unfold hash_of. by rewrite Hexp. Qed.

(** The first export of its bucket. *)
Lemma table_add_first :
  p_first (entries tbl pos) = None ->
  table_ok (<[id := set_m_next exp (p_head tbl)]> m)
           (Table (Some id) (entries (set_bucket tbl pos (Bucket (Some id) (Some id))))) (id :: l).
Proof.
  intros Hfirst. pose proof hash_of_id as Hpos. destruct Hok as [Hc Hn Hb]. split.
  - cbn. split; [done|]. exists (set_m_next exp (p_head tbl)). rewrite lookup_insert_eq. split; [done|]. by apply chain_frame.
  - by constructor.
  - intros p. apply (bucket_ok_ext m); [by intros y; apply hash_of_next|]. cbn. destruct (decide (p = pos)) as [->|Hp].
    + destruct (Hb pos) as (a & b & c & -> & H1 & H2 & H3 & H4). rewrite Hfirst in H3. destruct b; [|done].
      exists [], [id], (a ++ c). split_and!; try done. constructor; [exact Hpos|done].
    + eapply bucket_ok_front; [exact Hpos|done|apply Hb].
Qed.

(** A further export of its bucket. *)
Lemma table_add_last :
  p_first (entries tbl pos) <> None ->
  exists last lexp, p_last (entries tbl pos) = Some last /\ m !! last = Some lexp /\ last ∈ l /\ last <> id /\
    table_ok (<[id := set_m_next exp (m_next lexp)]> (<[last := set_m_next lexp (Some id)]> m))
             (set_bucket tbl pos (Bucket (p_first (entries tbl pos)) (Some id))) (insert_after last id l).
Proof.
  intros Hfirst. pose proof hash_of_id as Hpos. destruct Hok as [Hc Hn Hb]. destruct (Hb pos) as (a & b & c & -> & H1 & H2 & H3 & H4).
  destruct b as [|x b _] using rev_ind; [by rewrite H3 in Hfirst|]. rewrite last_snoc in H4. exists x.
  assert (x ∈ a ++ (b ++ [x]) ++ c) as Hx by set_solver.
  destruct (chain_in _ _ _ _ _ Hc Hx) as [lexp El]. assert (x <> id) as Hxid by (by intros ->).
  assert (x ∉ a ++ b /\ x ∉ c) as [Hxa Hxc].
  { rewrite (app_assoc a), (app_assoc a b) in Hn. apply NoDup_app in Hn as (N1 & N2 & N3).
    apply NoDup_app in N1 as (_ & N1 & _). split; [|apply N2; set_solver]. intros Hin. apply (N1 x Hin). set_solver. }
  assert (insert_after x id (a ++ (b ++ [x]) ++ c) = (a ++ b) ++ x :: id :: c) as Ei.
  { replace (a ++ (b ++ [x]) ++ c) with ((a ++ b) ++ x :: c) by (by rewrite <- !app_assoc).
    rewrite insert_after_r by done. by rewrite insert_after_here. }
  exists lexp. split_and!; [done..|]. assert (hash_of m x = Some pos) as Hhx.
  { rewrite Forall_forall in H2. apply H2. set_solver. }
  set (m' := <[id := _]> _). assert (forall y, hash_of m' y = hash_of m y) as Hh.
  { intros y. unfold m'. rewrite hash_of_next by (by rewrite lookup_insert_ne). by apply hash_of_next. }
  split.
  - rewrite Ei. replace (a ++ (b ++ [x]) ++ c) with ((a ++ b) ++ x :: c) in Hc by (by rewrite <- !app_assoc).
    apply chain_app in Hc as (r & C1 & (-> & e & E & C2)). rewrite El in E. injection E as <-. apply chain_app. exists (Some x). split.
    + apply chain_frame; [set_solver|]. by apply chain_frame.
    + unfold m'. cbn [chain]. split; [done|]. exists (set_m_next lexp (Some id)).
      rewrite lookup_insert_ne, lookup_insert_eq by done. split; [done|]. split; [done|].
      exists (set_m_next exp (m_next lexp)). rewrite lookup_insert_eq. split; [done|].
      apply chain_frame; [set_solver|]. by apply chain_frame.
  - rewrite insert_after_perm by done. by constructor.
  - intros p. apply (bucket_ok_ext m); [done|]. cbn [entries set_bucket]. destruct (decide (p = pos)) as [->|Hp].
    + exists a, (b ++ [x] ++ [id]), c. rewrite Ei. split_and!; [by rewrite <- !app_assoc|done| | |].
      * rewrite app_assoc. apply Forall_app. split; [done|]. constructor; [exact Hpos|done].
      * cbn [p_first]. rewrite H3. by destruct b.
      * cbn [p_last]. by rewrite app_assoc, last_snoc.
    + eapply bucket_ok_after; [done|done|done|exact Hpos|done|apply Hb].
Qed.
End table_add.

(** ** The whole table *)

(** The lists [L] hold, by client type, every export once. *)
Record st_ok (st : extab) (L : mcl_type -> list positive) : Prop := StOk
  { so_table : forall t, table_ok (ex_store st) (exportlist st t) (L t);
    so_type : forall t id, id ∈ L t -> exists e, ex_store st !! id = Some e /\ client_type st e = Some t }.

Lemma so_disjoint st L t t' id : st_ok st L -> id ∈ L t -> id ∈ L t' -> t = t'.
Proof. intros [_ H] H1 H2. destruct (H t id H1) as (e & E & Et), (H t' id H2) as (e' & E' & Et'). congruence. Qed.

(** A store that changes only nodes of one list. *)
Lemma table_ok_frame m m' tbl l :
  (forall x, x ∈ l -> m' !! x = m !! x) -> table_ok m tbl l -> table_ok m' tbl l.
Proof.
  intros H [Hc Hn Hb]. assert (forall p l' q, (forall x, x ∈ l' -> m' !! x = m !! x) -> chain m p l' q -> chain m' p l' q) as Hch.
  { intros p l'. revert p. induction l' as [|x l' IH]; intros p q Hx HC; [done|]. destruct HC as (-> & e & E & HC).
    split; [done|]. exists e. split; [rewrite Hx by (by left); done|]. apply IH; [|done]. intros y Hy. apply Hx. by right. }
  split; [by apply Hch|done|]. intros pos. destruct (Hb pos) as (a & b & c & -> & H1 & H2 & H3 & H4).
  exists a, b, c. split_and!; try done; rewrite Forall_forall in *; intros x Hx; unfold hash_of; rewrite H by set_solver.
  - by apply H1.
  - by apply H2.
Qed.

(** The place of a new export: behind the last one of its bucket, or in front. *)
Definition place (st : extab) (t : mcl_type) (pos : Z) (id : positive) (l : list positive) : list positive :=
  match p_first (entries (exportlist st t) pos), p_last (entries (exportlist st t) pos) with
  | Some _, Some last => insert_after last id l
  | _, _ => id :: l
  end.

Lemma place_sublist st t pos id l : l `sublist_of` place st t pos id l.
Proof.
  unfold place. repeat case_match; try by apply sublist_cons.
  induction l as [|y l IH]; cbn; [done|]. case_decide; apply sublist_skip; [by apply sublist_cons|done].
Qed.

(** What a node holds apart from its link. *)
Definition contents (e : nfs_export) : nfs_export := set_m_next e None.
Definition same_nodes (m m' : gmap positive nfs_export) : Prop := forall x, contents <$> m' !! x = contents <$> m !! x.

Lemma same_nodes_link m x e p : m !! x = Some e -> same_nodes m (<[x := set_m_next e p]> m).
Proof.
  intros E y. destruct (decide (x = y)) as [<-|]; [by rewrite lookup_insert_eq, E|by rewrite lookup_insert_ne].
Qed.

#[export] Instance same_nodes_trans : Transitive same_nodes.
Proof. intros m1 m2 m3 H1 H2 x. by rewrite H2, H1. Qed.

Lemma same_nodes_some m m' x e : same_nodes m m' -> m !! x = Some e ->
  exists e', m' !! x = Some e' /\ m_client e' = m_client e /\ m_export e' = m_export e.
Proof.
  intros H E. specialize (H x). rewrite E in H. destruct (m' !! x) as [e'|]; [|done]. exists e'. by destruct e, e'; simplify_eq/=.
Qed.

(** One list relinked with a new node in it. *)
Lemma st_ok_relink st L t id exp m' tbl' l' :
  st_ok st L -> ex_store st !! id = Some exp -> client_type st exp = Some t -> (forall t', id ∉ L t') ->
  same_nodes (ex_store st) m' -> (forall x, x ∉ l' -> m' !! x = ex_store st !! x) ->
  l' ≡ₚ id :: L t -> table_ok m' tbl' l' ->
  st_ok (set_table (set_store st m') t tbl') (fun t' => if decide (t' = t) then l' else L t').
Proof.
  intros Hst Hexp Ht Hnew Hsame Hother Hperm Htab. split; cbn [ex_store set_table set_store exportlist].
  - intros t'. destruct (decide (t' = t)) as [->|Hne]; [done|]. eapply table_ok_frame; [|apply (so_table st L Hst)].
    intros x Hx. apply Hother. rewrite Hperm. intros [->|Hin]%elem_of_cons; [by destruct (Hnew t')|].
    by destruct Hne; apply (so_disjoint st L t' t x Hst).
  - intros t' x Hx. assert (exists e, ex_store st !! x = Some e /\ client_type st e = Some t') as (e & E & Et).
    { destruct (decide (t' = t)) as [->|]; [|by apply (so_type st L Hst)].
      rewrite Hperm in Hx. apply elem_of_cons in Hx as [->|Hx]; [eauto|by apply (so_type st L Hst)]. }
    destruct (same_nodes_some _ _ _ _ Hsame E) as (e' & E' & Ec & _). exists e'. split; [done|].
    unfold client_type in *. cbn. by rewrite Ec.
Qed.

Lemma export_add_ok st L id exp t :
  st_ok st L -> ex_store st !! id = Some exp -> client_type st exp = Some t -> (forall t', id ∉ L t') ->
  let l' := place st t (export_hash (e_path (m_export exp))) id (L t) in
  exists st', export_add st id = Some st' /\ ex_clients st' = ex_clients st /\
    st_ok st' (fun t' => if decide (t' = t) then l' else L t') /\ l' ≡ₚ id :: L t /\
    same_nodes (ex_store st) (ex_store st').
Proof.
  intros Hst Hexp Ht Hnew. cbv zeta. unfold export_add, place. rewrite Hexp. cbn [mbind option_bind]. rewrite Ht.
  cbn [mbind option_bind]. set (pos := export_hash _). pose proof (so_table st L Hst t) as Htab.
  destruct (p_first (entries (exportlist st t) pos)) as [f|] eqn:Ef.
  - destruct (table_add_last _ _ _ id exp Htab (Hnew t) Hexp ltac:(fold pos; by rewrite Ef)) as (last & lexp & El & Elx & Hin & Hne & Hok).
    fold pos in El, Hok. rewrite El. cbn [mbind option_bind]. rewrite Elx. cbn [mbind option_bind].
    rewrite lookup_insert_ne, Hexp by done. cbn [mbind option_bind]. eexists. split; [reflexivity|]. split; [done|].
    assert (same_nodes (ex_store st) (<[id := set_m_next exp (m_next lexp)]> (<[last := set_m_next lexp (Some id)]> (ex_store st)))) as Hs.
    { etrans; [by apply same_nodes_link|]. apply same_nodes_link. by rewrite lookup_insert_ne. }
    split_and!; [|by apply insert_after_perm|done]. rewrite Ef in Hok.
    apply (st_ok_relink st L t id exp); [done..| |by apply insert_after_perm|done]. intros x Hx. rewrite insert_after_perm in Hx by done.
    rewrite !lookup_insert_ne; [done|set_solver|set_solver].
  - pose proof (table_add_first _ _ _ id exp Htab (Hnew t) Hexp Ef) as Hok. eexists. split; [reflexivity|]. split; [done|].
    split_and!; [|done|by apply same_nodes_link].
    apply (st_ok_relink st L t id exp); [done..|by apply same_nodes_link| |done|done]. intros x Hx. rewrite lookup_insert_ne; [done|set_solver].
Qed.

(** ** Searching *)

(** Does the node [id] hold an export of the client for the path? *)
Definition is_export (m : gmap positive nfs_export) (clp : positive) (path : cstr) (id : positive) : bool :=
  match m !! id with
  | Some e => bool_decide (m_client e = clp) && streq (e_path (m_export e)) path
  | None => false
  end.

Lemma lookup_loop_spec m clp path fuel p b r last le :
  chain m p b r -> m !! last = Some le -> m_next le = r -> (forall x, x ∈ b -> r <> Some x) -> (length b <= fuel)%nat ->
  lookup_loop fuel m p (Some last) clp path = Some (List.find (is_export m clp path) b).
Proof.
  intros Hc El Er. revert fuel p Hc; induction b as [|x b IH]; intros fuel p Hc Hb Hf.
  - cbn in Hc. subst p. unfold lookup_loop. destruct r as [i|]; [|by destruct fuel].
    destruct fuel; cbn; rewrite El; cbn; by rewrite bool_decide_eq_true_2 by done.
  - destruct Hc as (-> & e & E & Hc). destruct fuel as [|fuel]; [cbn in Hf; lia|]. cbn [lookup_loop mbind option_bind].
    rewrite El. cbn [mbind option_bind]. rewrite bool_decide_eq_false_2.
    2: { rewrite Er. apply not_eq_sym, Hb. by left. }
    rewrite E. cbn [mbind option_bind List.find]. unfold is_export at 1. rewrite E.
    destruct (bool_decide (m_client e = clp) && streq (e_path (m_export e)) path); [done|].
    apply IH; [done| |cbn in Hf; lia]. intros y Hy. apply Hb. by right.
Qed.

Lemma find_none {A : Type} (f : A -> bool) l : Forall (fun x => f x = false) l -> List.find f l = None.
Proof. induction 1 as [|x l Hx _ IH]; [done|]. cbn. by rewrite Hx. Qed.

Lemma find_app {A : Type} (f : A -> bool) l1 l2 :
  List.find f (l1 ++ l2) = match List.find f l1 with Some x => Some x | None => List.find f l2 end.
Proof. induction l1 as [|x l1 IH]; cbn; [done|]. by destruct (f x). Qed.

(** The bucket's walk finds what a walk over the whole list would. *)
Lemma bucket_lookup m tbl l clp path :
  table_ok m tbl l ->
  let hen := entries tbl (export_hash path) in
  lookup_loop (size m) m (p_first hen) (p_last hen) clp path = Some (List.find (is_export m clp path) l).
Proof.
  intros Htab. destruct Htab as [Hc Hn Hb]. pose proof (chain_size _ _ _ _ Hc Hn) as Hsize. cbv zeta.
  destruct (Hb (export_hash path)) as (a & b & c & -> & H1 & H2 & H3 & H4). rewrite H3, H4.
  assert (List.find (is_export m clp path) (a ++ b ++ c) = List.find (is_export m clp path) b) as ->.
  { assert (forall x, hash_of m x <> Some (export_hash path) -> is_export m clp path x = false) as Hno.
    { intros x Hx. unfold is_export, hash_of in *. destruct (m !! x) as [e|]; [|done]. cbn in Hx.
      apply andb_false_iff. right. apply streq_false. congruence. }
    apply Forall_app in H1 as [Ha Hc']. rewrite !find_app, !(find_none _ a) by (by eapply Forall_impl).
    rewrite (find_none _ c) by (by eapply Forall_impl). by destruct (List.find _ b). }
  apply chain_app in Hc as (r1 & _ & Hc). apply chain_app in Hc as (r2 & Hc1 & Hc2).
  destruct b as [|x b _] using rev_ind; [by destruct (size m)|]. rewrite last_snoc.
  assert (head (b ++ [x]) = r1) as ->. { destruct b; by destruct Hc1 as [-> _]. }
  pose proof Hc1 as Hc1'. apply chain_app in Hc1' as (r3 & _ & (-> & e & E & Er)). cbn in Er. subst r2.
  eapply lookup_loop_spec; [done|done|done| |].
  - intros y Hy Hr. destruct c as [|z c]; [by rewrite Hc2 in Hr|]. destruct Hc2 as [Hz _]. rewrite Hz in Hr. simplify_eq.
    apply NoDup_app in Hn as (_ & _ & Hn). apply NoDup_app in Hn as (_ & Hn & _). apply (Hn y Hy). by left.
  - rewrite !length_app in Hsize. rewrite length_app. lia.
Qed.

(** ** Clients under exports *)

(** Records keep their type. *)
Definition types_kept (s s' : clients) : Prop :=
  forall i c, cl_store s !! i = Some c -> exists c', cl_store s' !! i = Some c' /\ m_type c' = m_type c.

Lemma types_kept_insert s id c c' :
  cl_store s !! id = Some c -> m_type c' = m_type c -> forall L', types_kept s (Clients (<[id := c']> (cl_store s)) L').
Proof.
  intros E Et L' i ci Ei. cbn. destruct (decide (id = i)) as [<-|]; [|rewrite lookup_insert_ne by done; eauto].
  rewrite lookup_insert_eq. simplify_eq. eauto.
Qed.

Lemma types_kept_fresh s id c : cl_store s !! id = None -> types_kept s (client_add s id c).
Proof. intros E i ci Ei. exists ci. cbn. rewrite lookup_insert_ne; [done|congruence]. Qed.

#[export] Instance types_kept_trans : Transitive types_kept.
Proof. intros s1 s2 s3 H1 H2 i c E. destruct (H1 i c E) as (c2 & E2 & T2), (H2 i c2 E2) as (c3 & E3 & T3). exists c3. by rewrite T3. Qed.

#[export] Instance types_kept_refl : Reflexive types_kept.
Proof. intros s i c E. eauto. Qed.

Lemma fold_set_addrlist_type l clp : m_type (foldl (fun c p => set_addrlist c p.1 p.2) clp l) = m_type clp.
Proof. revert clp; induction l as [|p l IH]; intros clp; [done|]. cbn. by rewrite IH. Qed.

Lemma fold_set_addrlist_name l clp : m_hostname (foldl (fun c p => set_addrlist c p.1 p.2) clp l) = m_hostname clp.
Proof. revert clp; induction l as [|p l IH]; intros clp; [done|]. cbn. by rewrite IH. Qed.

Lemma init_addrlist_type clp ai : m_type (init_addrlist clp ai) = m_type clp.
Proof. destruct ai as [ai|]; [|done]. cbn -[take zip seq]. apply fold_set_addrlist_type. Qed.

Lemma lookup_finish_types htype ai s id r s' :
  lookup_finish htype ai s id = Some (r, s') -> types_kept s s' /\ forall i, r = Some i -> is_Some (cl_store s' !! i).
Proof.
  unfold lookup_finish. destruct (cl_store s !! id) as [clp|] eqn:E; [|done]. cbv zeta. intros H. simplify_eq. split.
  - eapply types_kept_insert; [done|]. case_if; [apply init_addrlist_type|done].
  - intros i [= <-]. cbn. rewrite lookup_insert_eq. by eexists.
Qed.

Lemma client_lookup_types ns erange s hname canonical r s' :
  client_lookup ns erange s hname canonical = Some (r, s') ->
  types_kept s s' /\ forall id, r = Some id -> is_Some (cl_store s' !! id).
Proof.
  unfold client_lookup. cbv zeta. set (htype := client_gettype hname).
  set (resolved := if _ && _ then _ else _). destruct resolved as [[ai|]|].
  2: { intros [= <- <-]. by split. }
  1: destruct (ai_canonname ai) as [cname|]; [|done].
  all: destruct (find_client _ _ _) as [[id|]|]; [apply lookup_finish_types| |done].
  all: destruct (client_init _ _ _ _ _) as [| |clp]; [by intros [= <- <-]|done|].
  all: intros [H1 H2]%lookup_finish_types; (split; [|done]); etrans; [|exact H1]; apply types_kept_fresh, not_elem_of_dom, is_fresh.
Qed.

Lemma st_ok_clients st L s' : st_ok st L -> types_kept (ex_clients st) s' -> st_ok (set_clients st s') L.
Proof.
  intros [H1 H2] Hk. split; [done|]. intros t id Hid. destruct (H2 t id Hid) as (e & E & Et). exists e. split; [done|].
  unfold client_type in *. cbn. destruct (cl_store (ex_clients st) !! m_client e) as [c|] eqn:Ec; [|done].
  destruct (Hk _ _ Ec) as (c' & -> & Ht). cbn in *. congruence.
Qed.

(** Looking up an export whose client is known. *)
Lemma export_lookup_run ns erange st L hname path canonical clp s' :
  st_ok st L -> client_lookup ns erange (ex_clients st) hname canonical = Some (Some clp, s') ->
  exists c, cl_store s' !! clp = Some c /\
    export_lookup ns erange st hname path canonical
    = Some (List.find (is_export (ex_store st) clp path) (L (m_type c)), set_clients st s').
Proof.
  intros Hst Hc. destruct (client_lookup_types _ _ _ _ _ _ _ Hc) as [Hk Hs]. destruct (Hs clp eq_refl) as [c Ec].
  exists c. split; [done|]. unfold export_lookup. rewrite Hc. cbn [mbind option_bind]. rewrite Ec. cbn [mbind option_bind].
  cbn [set_clients ex_store exportlist]. rewrite (bucket_lookup _ _ (L (m_type c))) by apply Hst. done.
Qed.

(** The hash buckets are only an index: looking an export up by its bucket
    gives the first export of that client and path on the whole list of its
    type, or none when there is none, follows no bad pointer, ends, and leaves
    the table well formed. *)
Theorem export_lookup_first ns erange st L hname path canonical clp s' :
  st_ok st L -> client_lookup ns erange (ex_clients st) hname canonical = Some (clp, s') ->
  exists r, export_lookup ns erange st hname path canonical = Some (r, set_clients st s') /\
    st_ok (set_clients st s') L /\
    match clp with
    | None => r = None
    | Some id => exists c, cl_store s' !! id = Some c /\ r = List.find (is_export (ex_store st) id path) (L (m_type c))
    end.
Proof.
  intros Hst Hc. pose proof (client_lookup_types _ _ _ _ _ _ _ Hc) as [Hk _].
  destruct clp as [id|].
  - destruct (export_lookup_run ns erange st L hname path canonical id s' Hst Hc) as (c & Ec & E).
    eexists. split; [exact E|]. split; [by apply st_ok_clients|]. eauto.
  - exists None. unfold export_lookup. rewrite Hc. split; [done|]. split; [by apply st_ok_clients|done].
Qed.

(** A fresh node is on no list. *)
Lemma st_ok_fresh st L id : st_ok st L -> ex_store st !! id = None -> forall t, id ∉ L t.
Proof. intros Hst E t Hin. destruct (so_type st L Hst t id Hin) as (e & E' & _). congruence. Qed.

Lemma st_ok_new st L id e : st_ok st L -> ex_store st !! id = None -> st_ok (set_store st (<[id := e]> (ex_store st))) L.
Proof.
  intros Hst Hid. pose proof (st_ok_fresh st L id Hst Hid) as Hf.
  assert (forall t x, x ∈ L t -> <[id := e]> (ex_store st) !! x = ex_store st !! x) as Hx.
  { intros t x Hin. rewrite lookup_insert_ne; [done|]. intros <-. by destruct (Hf t). }
  split; cbn [ex_store set_store].
  - intros t. eapply table_ok_frame; [|apply Hst]. apply Hx.
  - intros t x Hin. rewrite (Hx t x Hin). by apply (so_type st L Hst).
Qed.

Lemma count_up_ok st clp c : cl_store (ex_clients st) !! clp = Some c ->
  exists s', count_up st clp = Some (set_clients st s') /\ types_kept (ex_clients st) s' /\
    cl_store s' !! clp = Some (set_count c (m_count c + 1)) /\
    cl_list s' = cl_list (ex_clients st) /\ cl_store s' = <[clp := set_count c (m_count c + 1)]> (cl_store (ex_clients st)).
Proof.
  intros Ec. unfold count_up. rewrite Ec. cbn. eexists. split; [reflexivity|]. split.
  - by eapply types_kept_insert.
  - cbn. by rewrite lookup_insert_eq.
Qed.

(** A new node put in the table. *)
Lemma new_export_ok st L clp c new :
  st_ok st L -> cl_store (ex_clients st) !! clp = Some c -> m_client new = clp ->
  let id := fresh (dom (ex_store st)) in
  exists st' l', export_add (set_store st (<[id := new]> (ex_store st))) id = Some st' /\
    ex_clients st' = ex_clients st /\ ex_store st !! id = None /\
    st_ok st' (fun t => if decide (t = m_type c) then l' else L t) /\ l' ≡ₚ id :: L (m_type c) /\
    L (m_type c) `sublist_of` l' /\ contents <$> ex_store st' !! id = Some (contents new) /\
    forall x, x <> id -> contents <$> ex_store st' !! x = contents <$> ex_store st !! x.
Proof.
  intros Hst Ec Hcl id. assert (ex_store st !! id = None) as Hid by (apply not_elem_of_dom, is_fresh).
  pose proof (st_ok_new st L id new Hst Hid) as Hst1. set (st1 := set_store st _) in *.
  assert (ex_store st1 !! id = Some new) as Hnew by apply lookup_insert_eq.
  assert (client_type st1 new = Some (m_type c)) as Ht by (unfold client_type; cbn; by rewrite Hcl, Ec).
  destruct (export_add_ok st1 L id new (m_type c) Hst1 Hnew Ht (st_ok_fresh st L id Hst Hid)) as (st' & E & Hcs & Hok & Hp & Hs).
  exists st'. eexists. split; [exact E|]. split_and!; [done|done|exact Hok|done|apply place_sublist| |].
  - by rewrite Hs, Hnew.
  - intros x Hx. rewrite Hs. cbn. by rewrite lookup_insert_ne.
Qed.

(** The search after an insertion. *)
Lemma find_perm_new {A : Type} (f g : A -> bool) x l l' :
  l' ≡ₚ x :: l -> Forall (fun y => f y = false) l -> (forall y, y ∈ l -> g y = f y) -> g x = true -> List.find g l' = Some x.
Proof.
  intros P F E Hx. assert (x ∈ l') as Hin by (rewrite P; by left).
  apply list_elem_of_split in Hin as (l1 & l2 & ->). rewrite <- Permutation_middle in P. apply Permutation_cons_inv in P.
  rewrite find_app, find_none; [cbn; by rewrite Hx|]. apply Forall_forall. intros y Hy.
  assert (y ∈ l) as Hl by (rewrite <- P; apply elem_of_app; by left). rewrite E by done. rewrite Forall_forall in F. by apply F.
Qed.

Lemma find_none_inv {A : Type} (f : A -> bool) l : List.find f l = None -> Forall (fun x => f x = false) l.
Proof. induction l as [|x l IH]; cbn; [constructor|]. destruct (f x) eqn:E; [done|]. intros. constructor; auto. Qed.

Lemma is_export_contents m m' clp path x :
  contents <$> m' !! x = contents <$> m !! x -> is_export m' clp path x = is_export m clp path x.
Proof.
  unfold is_export. destruct (m' !! x) as [e'|], (m !! x) as [e|]; cbn; intros H; try done. injection H as -> ->. done.
Qed.

Lemma export_create_found ns erange st L xep hname canonical clp c s' :
  st_ok st L -> e_hostname xep = Some hname ->
  client_lookup ns erange (ex_clients st) hname canonical = Some (Some clp, s') -> cl_store s' !! clp = Some c ->
  List.find (is_export (ex_store st) clp (e_path xep)) (L (m_type c)) = None ->
  exists id st' L', export_create ns erange st xep canonical = Some (Some id, st') /\ st_ok st' L' /\
    L (m_type c) `sublist_of` L' (m_type c) /\ L' (m_type c) ≡ₚ id :: L (m_type c) /\ (forall t, t <> m_type c -> L' t = L t) /\
    contents <$> ex_store st' !! id = Some (Export None clp (copy_ent xep) 0 false false false false) /\
    (forall x, x <> id -> contents <$> ex_store st' !! x = contents <$> ex_store st !! x) /\
    (cl_list (ex_clients st') = cl_list s' /\ cl_store (ex_clients st') = <[clp := set_count c (m_count c + 1)]> (cl_store s')) /\
    forall hname2 canonical2 s2, client_lookup ns erange (ex_clients st') hname2 canonical2 = Some (Some clp, s2) ->
      fst <$> export_lookup ns erange st' hname2 (e_path xep) canonical2 = Some (Some id).
Proof.
  intros Hst Hh Hc Ec Hnone. destruct (client_lookup_types _ _ _ _ _ _ _ Hc) as [Hk _].
  pose proof (st_ok_clients st L s' Hst Hk) as Hst1. unfold export_create. rewrite Hh. cbn [mbind option_bind]. rewrite Hc.
  cbn [mbind option_bind]. set (st1 := set_clients st s') in *. unfold export_init. set (id := fresh (dom (ex_store st1))).
  assert (ex_store st1 !! id = None) as Hid by (apply not_elem_of_dom, is_fresh).
  set (new := Export None clp (copy_ent xep) 0 false false false false).
  destruct (count_up_ok (set_store st1 (<[id := new]> (ex_store st1))) clp c Ec) as (s2 & -> & Hk2 & Ec2 & Hl2 & Hs2).
  cbn [mbind option_bind]. cbn [ex_clients set_store st1 set_clients] in Hk2. set (st2 := set_clients st1 s2).
  change (set_clients (set_store st1 (<[id := new]> (ex_store st1))) s2) with (set_store st2 (<[id := new]> (ex_store st2))).
  assert (st_ok st2 L) as Hst2 by (by apply st_ok_clients).
  destruct (new_export_ok st2 L clp _ new Hst2 Ec2 eq_refl) as (st' & l' & E & Ecl & _ & Hok & Hp & Hsub & Hnew & Hold).
  change (fresh (dom (ex_store st2))) with id in *. cbn [m_type set_count] in *. rewrite E. cbn [mbind option_bind].
  eexists id, st', _. split; [reflexivity|]. split; [exact Hok|]. cbv beta. rewrite decide_True by done. split_and!; [done|done| |done|done|rewrite Ecl; exact Hl2|rewrite Ecl; exact Hs2|].
  { intros t Ht. by rewrite decide_False. }
  intros hname2 canonical2 s3 Hc3. destruct (export_lookup_run ns erange st' _ hname2 (e_path xep) canonical2 clp s3 Hok Hc3) as (c3 & Ec3 & ->).
  destruct (client_lookup_types _ _ _ _ _ _ _ Hc3) as [Hk3 _]. rewrite Ecl in Hk3. destruct (Hk3 _ _ Ec2) as (c3' & Ec3' & Ht3).
  simplify_eq. cbn [m_type set_count] in Ht3. rewrite Ht3, decide_True by done. cbn [fmap option_fmap option_map fst]. f_equal.
  eapply find_perm_new; [exact Hp|by apply find_none_inv| |].
  - intros y Hy. apply is_export_contents, Hold. intros ->. by apply (st_ok_fresh st2 L id Hst2 Hid (m_type c)).
  - unfold is_export. destruct (ex_store st' !! id) as [e|]; [|done]. cbn in Hnew. injection Hnew as -> ->.
    by rewrite bool_decide_eq_true_2, streq_refl by done.
Qed.

(** An export that is created is found: after [export_create] for a client and
    a path that had no export, the table is well formed, holds one more export
    with the entry given, and every later lookup that comes to the same client
    and path gives it. *)
Theorem export_create_lookup ns erange st L xep hname canonical clp c s' :
  st_ok st L -> e_hostname xep = Some hname ->
  client_lookup ns erange (ex_clients st) hname canonical = Some (Some clp, s') -> cl_store s' !! clp = Some c ->
  List.find (is_export (ex_store st) clp (e_path xep)) (L (m_type c)) = None ->
  exists id st' L', export_create ns erange st xep canonical = Some (Some id, st') /\ st_ok st' L' /\
    L' (m_type c) ≡ₚ id :: L (m_type c) /\ (forall t, t <> m_type c -> L' t = L t) /\
    contents <$> ex_store st' !! id = Some (Export None clp (copy_ent xep) 0 false false false false) /\
    (forall x, x <> id -> contents <$> ex_store st' !! x = contents <$> ex_store st !! x) /\
    forall hname2 canonical2 s2, client_lookup ns erange (ex_clients st') hname2 canonical2 = Some (Some clp, s2) ->
      fst <$> export_lookup ns erange st' hname2 (e_path xep) canonical2 = Some (Some id).
Proof.
  intros Hst Hh Hc Ec Hn. destruct (export_create_found ns erange st L xep hname canonical clp c s' Hst Hh Hc Ec Hn)
    as (id & st' & L' & H1 & H2 & _ & H3 & H4 & H5 & H6 & _ & H7). exists id, st', L'. by split_and!.
Qed.

(** ** Finding the export for an address *)

Section find.
  Context (ns : resolver) (erange : bool) (st : extab) (L : mcl_type -> list positive) (ai : addrinfo) (path : cstr).
  Hypothesis Hst : st_ok st L.
  #[local] Set Default Proof Using "All".

Definition accepts (id : positive) : option bool := e ← ex_store st !! id; export_check ns st e ai path.

(** Every check can be made: no wildcard pattern is overrun. *)
Definition all_checked : Prop := forall t id, id ∈ L t -> accepts id <> None.

Definition accepting (id : positive) : bool := match accepts id with Some b => b | None => false end.

Lemma find_loop_spec fuel p l :
  chain (ex_store st) p l None -> (forall x, x ∈ l -> accepts x <> None) -> (length l <= fuel)%nat ->
  find_loop ns fuel st p ai path = Some (List.find accepting l).
Proof.
  revert fuel p; induction l as [|x l IH]; intros fuel p Hc Ha Hf.
  - cbn in Hc. subst p. by destruct fuel.
  - destruct Hc as (-> & e & E & Hc). destruct fuel as [|fuel]; [cbn in Hf; lia|]. cbn [find_loop List.find].
    pose proof (Ha x ltac:(by left)) as Hx. unfold accepting at 1. unfold accepts in *. rewrite E in *. cbn [mbind option_bind] in *.
    destruct (export_check ns st e ai path) as [[]|]; [done| |done]. cbn [mbind option_bind].
    apply IH; [done| |cbn in Hf; lia]. intros y Hy. apply Ha. by right.
Qed.

Lemma find_types_spec types :
  all_checked -> find_types ns types st ai path = Some (List.find accepting (concat (map L types))).
Proof.
  intros Ha. induction types as [|t types IH]; [done|]. cbn [find_types map concat].
  destruct (so_table st L Hst t) as [Hc Hn _].
  rewrite (find_loop_spec _ _ (L t)); [|done|by apply Ha|by eapply chain_size]. cbn [mbind option_bind].
  rewrite find_app. by destruct (List.find accepting (L t)).
Qed.

Lemma client_dup_ok s clp cname : ai_canonname ai = Some cname ->
  exists id c, client_dup ns erange s clp ai = Some (Some id, client_add s id c) /\ cl_store s !! id = None /\
    m_type c = MCL_FQDN /\ m_hostname c = cname.
Proof.
  intros Hn. unfold client_dup. rewrite Hn. unfold client_init. cbn [m_type]. eexists _, _. split; [reflexivity|].
  split; [apply not_elem_of_dom, is_fresh|]. split; [apply init_addrlist_type|].
  unfold init_addrlist. cbn [m_hostname set_naddr]. rewrite fold_set_addrlist_name. done.
Qed.

End find.

Lemma export_dup_ok ns erange st L exp c ai cname :
  st_ok st L -> cl_store (ex_clients st) !! m_client exp = Some c -> ai_canonname ai = Some cname ->
  exists id st' L' clp c', export_dup ns erange st exp ai = Some (Some id, st') /\ st_ok st' L' /\
    contents <$> ex_store st' !! id = Some (Export None clp (copy_ent (m_export exp)) 0 false (m_mayexport exp) false false) /\
    cl_store (ex_clients st') !! clp = Some c' /\ m_type c' = MCL_FQDN /\ m_hostname c' = cname /\
    ex_store st !! id = None /\ forall x, x <> id -> contents <$> ex_store st' !! x = contents <$> ex_store st !! x.
Proof.
  intros Hst Ec Hn. unfold export_dup. rewrite Ec. cbn [mbind option_bind].
  destruct (client_dup_ok ns erange st L ai [] Hst (ex_clients st) c cname Hn) as (clp & c1 & -> & Hf & Ht & Hname). cbn [mbind option_bind].
  set (st1 := set_clients st (client_add (ex_clients st) clp c1)).
  assert (cl_store (ex_clients st1) !! clp = Some c1) as Ec1 by (cbn; by rewrite lookup_insert_eq).
  assert (st_ok st1 L) as Hst1 by (apply st_ok_clients; [done|by apply types_kept_fresh]).
  destruct (count_up_ok st1 clp c1 Ec1) as (s2 & -> & Hk2 & Ec2 & Hl2 & Hs2). cbn [mbind option_bind].
  assert (st_ok (set_clients st1 s2) L) as Hst2 by (by apply st_ok_clients).
  set (new := Export (m_next exp) clp (copy_ent (m_export exp)) 0 false (m_mayexport exp) false false).
  destruct (new_export_ok (set_clients st1 s2) L clp _ new Hst2 Ec2 eq_refl) as (st' & l' & E & Ecl & Hid & Hok & _ & _ & Hnew & Hold).
  rewrite E. cbn [mbind option_bind]. eexists _, st', _, clp, _. split; [reflexivity|]. split; [exact Hok|].
  split; [exact Hnew|]. rewrite Ecl. split; [exact Ec2|]. by split_and!.
Qed.

(** [export_find] gives the export for an address and a path: the first export
    in the order of client types, host names first, whose path is the one asked
    for and whose client accepts the address; none exactly when there is none.
    An export of a host name is returned as it is; from any other the function
    adds a copy for the host, under its canonical name, and keeps the table well
    formed. *)
Theorem export_find_first ns erange st L ai path cname :
  st_ok st L -> all_checked ns st L ai path -> ai_canonname ai = Some cname ->
  match List.find (accepting ns st ai path) (concat (map L mcl_types)) with
  | None => export_find ns erange st ai path = Some (None, st)
  | Some id =>
      exists e, ex_store st !! id = Some e /\ e_path (m_export e) = path /\
      (client_type st e = Some MCL_FQDN -> export_find ns erange st ai path = Some (Some id, st)) /\
      (client_type st e <> Some MCL_FQDN ->
       exists id' st' L' clp c, export_find ns erange st ai path = Some (Some id', st') /\ st_ok st' L' /\
         contents <$> ex_store st' !! id' = Some (Export None clp (copy_ent (m_export e)) 0 false (m_mayexport e) false false) /\
         cl_store (ex_clients st') !! clp = Some c /\ m_type c = MCL_FQDN /\ m_hostname c = cname)
  end.
Proof.
  intros Hst Ha Hn. unfold export_find. rewrite (find_types_spec ns erange st L ai path Hst) by done. cbn [mbind option_bind].
  destruct (List.find _ _) as [id|] eqn:Ef; [|done]. apply find_some in Ef as [Hin Hacc].
  apply in_concat in Hin as (l & Hl & Hid%list_elem_of_In). apply in_map_iff in Hl as (t & <- & _).
  destruct (so_type st L Hst t id Hid) as (e & E & Et). exists e. split; [done|]. rewrite E. cbn [mbind option_bind]. rewrite Et.
  cbn [mbind option_bind]. unfold accepting, accepts in Hacc. rewrite E in Hacc. cbn [mbind option_bind] in Hacc.
  unfold export_check in Hacc. destruct (streq path (e_path (m_export e))) eqn:Ep; [|done]. btrue.
  split; [done|]. split.
  - intros [= ->]. by rewrite bool_decide_eq_true_2.
  - intros Hne. rewrite bool_decide_eq_false_2 by congruence. unfold client_type in Et.
    destruct (cl_store (ex_clients st) !! m_client e) as [c|] eqn:Ec; [|done].
    destruct (export_dup_ok ns erange st L e c ai cname Hst Ec Hn) as (id' & st' & L' & clp & c' & Hd & Hok & H1 & H2 & H3 & H4 & _).
    exists id', st', L', clp, c'. by split_and!.
Qed.

(** ** Reading a file *)

(** The number of exports. *)
Definition total (L : mcl_type -> list positive) : nat := length (concat (map L mcl_types)).

Lemma total_add L t x l' : l' ≡ₚ x :: L t -> total (fun t' => if decide (t' = t) then l' else L t') = S (total L).
Proof.
  intros P. apply Permutation_length in P. cbn [length] in P. unfold total, mcl_types. cbn [map concat].
  rewrite !length_app. destruct t; cbn [decide mcl_type_eq_dec]; repeat (destruct (decide _); [|try done]); cbn [length]; try done; lia.
Qed.

Lemma export_create_some ns erange st L xep canonical r st' :
  st_ok st L -> export_create ns erange st xep canonical = Some (r, st') ->
  exists L', st_ok st' L' /\ total L' = (total L + match r with Some _ => 1 | None => 0 end)%nat.
Proof.
  intros Hst H. unfold export_create in H. destruct (e_hostname xep) as [hname|]; [|done]. cbn [mbind option_bind] in H.
  destruct (client_lookup ns erange (ex_clients st) hname canonical) as [[[clp|] s]|] eqn:Hc; cbn [mbind option_bind] in H; [| |done].
  - destruct (client_lookup_types _ _ _ _ _ _ _ Hc) as [Hk Hs]. destruct (Hs clp eq_refl) as [c Ec].
    assert (st_ok (set_clients st s) L) as Hst1 by (by apply st_ok_clients). unfold export_init in H.
    set (st1 := set_clients st s) in *. set (id := fresh (dom (ex_store st1))) in *. set (new := Export None clp _ _ _ _ _ _) in *.
    destruct (count_up_ok (set_store st1 (<[id := new]> (ex_store st1))) clp c Ec) as (s2 & E2 & Hk2 & Ec2 & _).
    rewrite E2 in H. cbn [mbind option_bind] in H. assert (st_ok (set_clients st1 s2) L) as Hst2 by (by apply st_ok_clients).
    destruct (new_export_ok (set_clients st1 s2) L clp _ new Hst2 Ec2 eq_refl) as (st2 & l' & E & _ & _ & Hok & Hp & _).
    change (set_store (set_clients st1 s2) _) with (set_clients (set_store st1 (<[id := new]> (ex_store st1))) s2) in E.
    change (fresh (dom (ex_store (set_clients st1 s2)))) with id in *. rewrite E in H. cbn [mbind option_bind] in H. simplify_eq.
    eexists. split; [exact Hok|]. rewrite (total_add _ _ id) by done. lia.
  - simplify_eq. exists L. split; [|lia]. apply st_ok_clients; [done|]. by apply (client_lookup_types _ _ _ _ _ _ _ Hc).
Qed.

Lemma export_lookup_keeps ns erange st L hname path canonical r st' :
  st_ok st L -> export_lookup ns erange st hname path canonical = Some (r, st') -> st_ok st' L.
Proof.
  intros Hst H. unfold export_lookup in H.
  destruct (client_lookup ns erange (ex_clients st) hname canonical) as [[clp s]|] eqn:Hc; cbn [mbind option_bind] in H; [|done].
  assert (st' = set_clients st s) as ->.
  { destruct clp; [|by simplify_eq]. destruct (cl_store s !! p); cbn [mbind option_bind] in H; [|done].
    destruct (lookup_loop _ _ _ _ _ _); cbn [mbind option_bind] in H; by simplify_eq. }
  apply st_ok_clients; [done|]. by apply (client_lookup_types _ _ _ _ _ _ _ Hc).
Qed.

Lemma read_loop_ok ns erange eeps ign st L v re st' v' re' :
  st_ok st L -> read_loop ns erange st eeps ign v re = Some (st', v', re') ->
  exists L', st_ok st' L' /\ Z.of_nat (total L') = Z.of_nat (total L) + (v' - v).
Proof.
  revert st L v re; induction eeps as [|eep eeps IH]; intros st L v re Hst H; cbn [read_loop] in H.
  { simplify_eq. exists L. split; [done|lia]. }
  destruct (e_hostname eep) as [h|]; [|done]. cbn [mbind option_bind] in H.
  destruct (export_lookup ns erange st h (e_path eep) ign) as [[exp st1]|] eqn:El; [|done]. cbn [mbind option_bind] in H.
  pose proof (export_lookup_keeps _ _ _ _ _ _ _ _ _ Hst El) as Hst1. destruct exp as [id|]; [by eapply IH|].
  destruct (export_create ns erange st1 eep false) as [[new st2]|] eqn:Ec; [|done]. cbn [mbind option_bind] in H.
  destruct (export_create_some _ _ _ _ _ _ _ _ Hst1 Ec) as (L2 & Hst2 & Ht). destruct (IH _ _ _ _ Hst2 H) as (L3 & Hst3 & Ht3).
  exists L3. split; [done|]. rewrite Ht3, Ht. destruct new; lia.
Qed.

Lemma fsid_loop_ok m p l fuel : chain m p l None -> (length l <= fuel)%nat -> fsid_loop fuel m p <> None.
Proof.
  revert fuel p; induction l as [|x l IH]; intros fuel p Hc Hf; [cbn in Hc; subst; by destruct fuel|].
  destruct Hc as (-> & e & E & Hc). destruct fuel as [|fuel]; [cbn in Hf; lia|]. cbn [fsid_loop]. rewrite E. cbn [mbind option_bind].
  cbn in Hf. destruct (e_reexport (m_export e)); [case_if; [done|]|..]; apply IH; done || lia.
Qed.

Lemma fsid_types_ok st L types : st_ok st L -> fsid_types types st <> None.
Proof.
  intros Hst. induction types as [|t types IH]; [done|]. cbn [fsid_types]. destruct (so_table st L Hst t) as [Hc Hn _].
  pose proof (fsid_loop_ok _ _ _ _ Hc (chain_size _ _ _ _ Hc Hn)) as Hl. destruct (fsid_loop _ _ _) as [[]|]; done.
Qed.

(** Reading an exports file keeps the table well formed, and the number it
    returns is that of the exports added, unless a numerical fsid= is mixed with
    reexport=, which is reported as -1; the check after the loop itself never
    fails. *)
Theorem export_read_counts ns erange st L eeps ign st1 volumes re :
  st_ok st L -> read_loop ns erange st eeps ign 0 false = Some (st1, volumes, re) ->
  exists st' v L', export_read ns erange st eeps ign = Some (st', v) /\ st_ok st' L' /\
    Z.of_nat (total L') = Z.of_nat (total L) + volumes /\ (v = volumes \/ v = -1 /\ re = true).
Proof.
  intros Hst H. destruct (read_loop_ok _ _ _ _ _ _ _ _ _ _ _ Hst H) as (L' & Hst' & Ht).
  unfold export_read. rewrite H. cbn [mbind option_bind]. exists st1. destruct re.
  - pose proof (fsid_types_ok st1 L' mcl_types Hst') as Hf. destruct (fsid_types mcl_types st1) as [bad|]; [|done].
    cbn [mbind option_bind]. eexists _, L'. split; [reflexivity|]. split; [done|]. split; [lia|]. destruct bad; auto.
  - exists volumes, L'. split; [done|]. split; [done|]. split; [lia|]. by left.
Qed.

(** ** Witnesses *)

Definition empty_tab : extab := Extab ∅ (fun _ => Table None (fun _ => Bucket None None)) no_clients.

Lemma empty_tab_ok : st_ok empty_tab (fun _ => []).
Proof.
  split.
  - intros t. split; [done|constructor|]. intros pos. exists [], [], []. by split_and!.
  - intros t id Hid. by apply elem_of_nil in Hid.
Qed.

(** "/srv" for everyone. *)
Definition ent_ex : exportent :=
  Ent (Some $"*") $"/srv" 0 0 0 [] [] 0 None FSLOC_NONE None None [] [] 0 None REEXP_NONE [].

Definition one_tab : extab :=
  match export_create ns_ex false empty_tab ent_ex false with Some (_, st) => st | None => empty_tab end.

Lemma one_tab_ok : exists L, st_ok one_tab L.
Proof.
  destruct (export_create_some ns_ex false empty_tab (fun _ => []) ent_ex false (Some 1%positive) one_tab empty_tab_ok eq_refl)
    as (L & H & _). by exists L.
Qed.

Lemma export_lookup_first_witness :
  exists r, fst <$> export_lookup ns_ex false one_tab $"*" $"/srv" false = Some r.
Proof.
  destruct one_tab_ok as [L H].
  destruct (export_lookup_first ns_ex false one_tab L $"*" $"/srv" false (Some 1%positive) (ex_clients one_tab) H eq_refl) as (r & E & _).
  exists r. rewrite E. reflexivity.
Defined.

Lemma export_create_lookup_witness :
  exists id st', export_create ns_ex false empty_tab ent_ex false = Some (Some id, st') /\
    contents <$> ex_store st' !! id = Some (Export None 1 (copy_ent ent_ex) 0 false false false false).
Proof.
  destruct (export_create_lookup ns_ex false empty_tab (fun _ => []) ent_ex $"*" false 1%positive
    (Client $"*" MCL_ANONYMOUS 0 (replicate 16 None) 0 0 0 false)
    (match client_lookup ns_ex false no_clients $"*" false with Some (_, s) => s | None => no_clients end)
    empty_tab_ok eq_refl eq_refl eq_refl eq_refl) as (id & st' & L' & E & _ & _ & _ & H & _).
  exists id, st'. split; [exact E|exact H].
Defined.

Definition ai_named : addrinfo := AI (AF_INET 0x0a010203) [] (Some $"h.ex.org").

Lemma export_find_first_witness :
  export_find ns_ex false empty_tab ai_named $"/srv" = Some (None, empty_tab).
Proof.
  apply (export_find_first ns_ex false empty_tab (fun _ => []) ai_named $"/srv" $"h.ex.org" empty_tab_ok).
  - intros t id Hid. by apply elem_of_nil in Hid.
  - reflexivity.
Defined.

Example export_find_copies :
  match export_find ns_ex false one_tab ai_named $"/srv" with
  | Some (Some id, st) => (fun e => m_hostname <$> cl_store (ex_clients st) !! m_client e) <$> ex_store st !! id
  | _ => None
  end = Some (Some $"h.ex.org").
Proof. vm_compute. reflexivity. Qed.

Lemma export_read_counts_witness :
  exists st' v, export_read ns_ex false empty_tab [ent_ex; ent_ex] false = Some (st', v).
Proof.
  destruct (export_read_counts ns_ex false empty_tab (fun _ => []) [ent_ex; ent_ex] false
    (match read_loop ns_ex false empty_tab [ent_ex; ent_ex] false 0 false with Some (st, _, _) => st | None => empty_tab end)
    1 false empty_tab_ok eq_refl) as (st' & v & _ & E & _). exists st', v. exact E.
Defined.
