(* ===== verification/Nsm.v ===== *)
(** * NSM state on disk (support/nsm/file.c)

    statd keeps one file per monitored host under "sm" (and, while it notifies
    peers, under "sm.bak") with a line per record, and its state number in the
    file "state".  The disk is a finite map from path names to contents.  Every
    system call that changes it takes its outcome from a script, so that
    theorems can range over every combination of failures, and records the map
    it leaves in a history, so that they can range over every point at which the
    machine may stop.  Files hold no NUL byte apart from the state file; malloc
    succeeds; the base directory is an argument. *)

From S2P Require Import Prelude.

(** ** The disk *)

Abbreviation path := cstr.
Abbreviation fmap_t := (gmap path cstr).

(** How the next call ends: as asked, with an error, or (for [write]) after some
    of the bytes. *)
Inductive outcome := Fine | Fails | Short (n : nat).

Record disk := Disk { files : fmap_t; script : list outcome; history : list fmap_t }.

Definition dM (A : Type) : Type := disk -> A * disk.
#[export] Instance dM_ret : MRet dM := fun A a d => (a, d).
#[export] Instance dM_bind : MBind dM := fun A B k m d => let '(a, d) := m d in k a d.

(** A call that maps the files according to its outcome. *)
Definition syscall {A} (f : outcome -> fmap_t -> A * fmap_t) : dM A := fun d =>
  let '(o, rest) := match script d with [] => (Fine, []) | o :: r => (o, r) end in
  let '(a, m) := f o (files d) in (a, Disk m rest (history d ++ [m])).

(** [open(p, O_CREAT | O_TRUNC | O_WRONLY)]: whether it succeeded. *)
Definition sys_create (p : path) : dM bool :=
  syscall (fun o m => match o with Fails => (false, m) | _ => (true, <[p := []]> m) end).
(** [open(p, O_CREAT | O_EXCL | O_WRONLY)]: success, EEXIST or another error. *)
Inductive excl_res := Created | Exists_ | CreateError.
Definition sys_create_excl (p : path) : dM excl_res :=
  syscall (fun o m => match o with
                      | Fails => (CreateError, m)
                      | _ => match m !! p with Some _ => (Exists_, m) | None => (Created, <[p := []]> m) end
                      end).
(** [write] of the whole contents of a file just created: the bytes written, -1
    for an error. *)
Definition sys_write (p : path) (buf : cstr) : dM Z :=
  syscall (fun o m => match o with
                      | Fine => (Z.of_nat (length buf), <[p := buf]> m)
                      | Fails => (-1, m)
                      | Short n => (Z.of_nat (length (take n buf)), <[p := take n buf]> m)
                      end).
(** [close]: whether it succeeded. *)
Definition sys_close : dM bool := syscall (fun o m => (match o with Fails => false | _ => true end, m)).
Definition sys_rename (a b : path) : dM bool :=
  syscall (fun o m => match o, m !! a with
                      | Fails, _ | _, None => (false, m)
                      | _, Some c => (true, <[b := c]> (delete a m))
                      end).
Definition sys_unlink (p : path) : dM bool :=
  syscall (fun o m => match o, m !! p with
                      | Fails, _ | _, None => (false, m)
                      | _, Some _ => (true, delete p m)
                      end).
(** [stat] of a regular file: its size. *)
Definition sys_stat (p : path) : dM (option nat) :=
  syscall (fun o m => (match o with Fails => None | _ => length <$> m !! p end, m)).
(** [open(p, O_RDONLY)] and reads to the end: [None] is a failure to open; after
    [Short n] a read error or a short count ends the contents early. *)
Definition sys_read (p : path) : dM (option cstr) :=
  syscall (fun o m => (match o with Fails => None | Fine => m !! p | Short n => take n <$> m !! p end, m)).

(** ** Path names *)

Definition PATH_MAX : Z := 4096.
Definition NSM_MONITOR_DIR : cstr := $"sm".
Definition NSM_NOTIFY_DIR : cstr := $"sm.bak".
Definition NSM_STATE_FILE : cstr := $"state".

Definition exact_error_check (len : Z) (buflen : nat) : bool := (len <? 0) || negb (len =? Z.of_nat buflen).

Definition bad_name_char (c : ascii) : bool := ceqb c "/" || isspace c.

Section nsm.
  (** [nsm_base_dirname]. *)
  Context (base : cstr).

Definition nsm_make_record_pathname (directory hostname : cstr) : option path :=
  if existsb bad_name_char hostname then None
  else if Z.of_nat (length base + length directory + length hostname) + 3 >? PATH_MAX then None
  else Some (base ++ $"/" ++ directory ++ $"/" ++ hostname).

(** [generic_make_pathname] of support/misc/file.c. *)
Definition nsm_make_pathname (directory : cstr) : option path :=
  if Z.of_nat (length base + length directory) + 2 >? PATH_MAX then None
  else Some (base ++ $"/" ++ directory).

Definition nsm_make_temp_pathname (pathname : path) : option path :=
  if Z.of_nat (length pathname) + 5 + 2 >? PATH_MAX then None else Some (pathname ++ $".new").

(** ** Atomic replacement of a file *)

Definition nsm_atomic_write (p : path) (buf : cstr) : dM bool :=
  match nsm_make_temp_pathname p with
  | None => mret false
  | Some temp =>
      ok ← sys_create temp;
      if negb ok then mret false
      else
        len ← sys_write temp buf;
        if exact_error_check len (length buf) then
          _ ← sys_close; _ ← sys_unlink temp; mret false
        else
          ok ← sys_close;
          if negb ok then (_ ← sys_unlink temp; mret false)
          else
            ok ← sys_rename temp p;
            if negb ok then (_ ← sys_unlink temp; mret false)
            else mret true
  end.

(** ** The state number *)

(** A 32-bit little-endian integer, as [read] into an [int] gets it. *)
Definition int_bytes (z : Z) : cstr :=
  [chr z; chr (Z.shiftr z 8); chr (Z.shiftr z 16); chr (Z.shiftr z 24)].
Definition bytes_int (s : cstr) : Z :=
  i32 (foldr (fun c acc => uchar c + 256 * acc) 0 s).

(** How the state file can be found: [open] fails with ENOENT only when there is
    no such file. *)
Inductive open_res := OpenError | NoEntry | Contents (s : cstr).
Definition sys_read_state (p : path) : dM open_res :=
  syscall (fun o m => (match o, m !! p with
                       | Fails, _ => OpenError
                       | _, None => NoEntry
                       | Fine, Some s => Contents (take 4 s)
                       | Short n, Some s => Contents (take n (take 4 s))
                       end, m)).

Definition nsm_get_state (update : bool) : dM Z :=
  match nsm_make_pathname NSM_STATE_FILE with
  | None => mret 0
  | Some p =>
      let finish (state : Z) (update : bool) : dM Z :=
        if update then
          let state := i32 (state + 2) in
          ok ← nsm_atomic_write p (int_bytes state);
          mret (if ok : bool then state else 0)
        else mret state in
      opened ← sys_read_state p;
      match opened with
      | OpenError => mret 0
      | NoEntry => finish 1 true
      | Contents s =>
          if exact_error_check (Z.of_nat (length s)) 4 then finish 1 true
          else
            let state := bytes_int s in
            finish (if Z.land state 1 =? 0 then i32 (state + 1) else state) update
      end
  end.

(** ** Records *)

Definition SM_PRIV_SIZE : nat := 16.
Definition SM_MAXSTRLEN : nat := 1024.
Definition RPCARGSLEN : nat := 36.
Definition LINELEN : nat := RPCARGSLEN + SM_PRIV_SIZE * 2 + 1.
(** [sizeof(buf)]. *)
Definition BUFLEN : nat := LINELEN + 1 + SM_MAXSTRLEN + 2.

(** The caller's address and [struct mon], numbers as 32-bit patterns. *)
Record mon := Mon
  { s_addr : Z; my_prog : Z; my_vers : Z; my_proc : Z; priv : list ascii; mon_name : cstr; my_name : cstr }.

Definition hex (w : nat) (v : Z) : cstr := pad0 w (utoa 16 v).

(** [snprintf(buf, remaining, ...)] of a text: [None] when [error_check] holds. *)
Definition fits (remaining : nat) (s : cstr) : bool := (length s <? remaining)%nat.

Fixpoint nsm_priv_to_hex (priv : list ascii) (remaining : nat) : option cstr :=
  match priv with
  | [] => Some []
  | c :: priv =>
      let s := hex 2 (uchar c) in
      if fits remaining s then app s <$> nsm_priv_to_hex priv (remaining - length s) else None
  end.

(** The record's text; [None] is the length 0. *)
Definition nsm_create_monitor_record (buflen : nat) (m : mon) : option cstr :=
  let s1 := hex 8 (s_addr m) ++ $" " ++ hex 8 (my_prog m) ++ $" " ++ hex 8 (my_vers m) ++ $" " ++ hex 8 (my_proc m) ++ $" " in
  if negb (fits buflen s1) then None
  else
    let remaining := (buflen - length s1)%nat in
    match nsm_priv_to_hex (priv m) remaining with
    | None | Some [] => None
    | Some s2 =>
        let remaining := (remaining - length s2)%nat in
        let s3 := $" " ++ mon_name m ++ $" " ++ my_name m ++ [NL] in
        if negb (fits remaining s3) then None else Some (s1 ++ s2 ++ s3)
    end.

(** [sscanf] with "%<w>x": the number and what follows it. *)
Definition scan_hex (w : nat) (s : cstr) : option (Z * cstr) :=
  let s := skip_while isspace s in
  match strto_scan 16 (take w s) with
  | None => None
  | Some (neg, v, rest) => Some (u32 (if neg then - v else v), drop (length (take w s) - length rest) s)
  end.

(** The bytes of the cookie from the position [c]; [None]: [sscanf] fails,
    [Some None]: the line is read past its end. *)
Fixpoint scan_priv (n : nat) (line : cstr) (c : nat) : option (option (list ascii)) :=
  match n with
  | O => Some (Some [])
  | S n =>
      if (length line <? c)%nat then Some None
      else match scan_hex 2 (drop c line) with
           | None => None
           | Some (v, _) =>
               match scan_priv n line (c + 2) with
               | Some (Some l) => Some (Some (chr v :: l))
               | r => r
               end
           end
  end.

Inductive parse_res := ParseFalse | ParseOverrun | ParseTrue (m : mon).

Definition nsm_parse_line (line : cstr) : parse_res :=
  let line := match strchr NL line with Some (a, _) => a | None => line end in
  match scan_hex 8 line with
  | None => ParseFalse
  | Some (addr, r) =>
  match scan_hex 8 r with
  | None => ParseFalse
  | Some (prog, r) =>
  match scan_hex 8 r with
  | None => ParseFalse
  | Some (vers, r) =>
  match scan_hex 8 r with
  | None => ParseFalse
  | Some (proc, _) =>
      match scan_priv SM_PRIV_SIZE line RPCARGSLEN with
      | None => ParseFalse
      | Some None => ParseOverrun
      | Some (Some p) =>
          let c := (RPCARGSLEN + 2 * SM_PRIV_SIZE + 1)%nat in
          if (length line <? c)%nat then ParseOverrun
          else
            let '(mon_name, rest) := span (fun x => negb (ceqb x SP)) (drop c line) in
            let my_name := skip_while (fun x => ceqb x SP) rest in
            ParseTrue (Mon addr prog vers proc p mon_name my_name)
      end
  end end end end.

(** ** Host files *)

(** [fgets(buf, n, f)]: a line with its newline, or [n - 1] bytes of it. *)
Fixpoint fgets (n : nat) (s : cstr) : cstr * cstr :=
  match n, s with
  | S (S n), c :: s => if ceqb c NL then ([c], s) else let '(a, r) := fgets (S n) s in (c :: a, r)
  | _, _ => ([], s)
  end.

Definition nsm_append_monitored_host (p : path) (line : cstr) : dM bool :=
  stb ← sys_stat p;
  match stb with
  | None => mret false
  | Some st_size =>
      old ← sys_read p;
      match old with
      | None => mret false
      | Some c =>
          if exact_error_check (Z.of_nat (length c)) st_size then mret false
          else nsm_atomic_write p (c ++ line)
      end
  end.

Definition nsm_insert_monitored_host (hostname : cstr) (m : mon) : dM bool :=
  match nsm_make_record_pathname NSM_MONITOR_DIR hostname with
  | None => mret false
  | Some p =>
      match nsm_create_monitor_record BUFLEN m with
      | None => mret false
      | Some buf =>
          r ← sys_create_excl p;
          match r with
          | CreateError => mret false
          | Exists_ => nsm_append_monitored_host p buf
          | Created =>
              len ← sys_write p buf;
              let failed := exact_error_check len (length buf) in
              _ ← (if failed then sys_unlink p else mret true);
              ok ← sys_close;
              _ ← (if negb ok then sys_unlink p else mret true);
              mret (negb failed && ok)
          end
      end
  end.

(** The reading loop of [nsm_load_host]: the records handed to the callback;
    [None]: a line is read past its end. *)
Fixpoint load_loop (fuel : nat) (s : cstr) : option (list mon) :=
  match fuel, s with
  | S fuel, _ :: _ =>
      let '(line, s) := fgets BUFLEN s in
      match nsm_parse_line line, load_loop fuel s with
      | ParseOverrun, _ | _, None => None
      | ParseFalse, Some l => Some l
      | ParseTrue m, Some l => Some (m :: l)
      end
  | _, _ => Some []
  end.

Definition nsm_load_host (directory filename : cstr) : dM (option (list mon)) :=
  match nsm_make_record_pathname directory filename with
  | None => mret (Some [])
  | Some p =>
      stb ← sys_stat p;
      match stb with
      | None => mret (Some [])
      | Some _ =>
          c ← sys_read p;
          match c with
          | None => mret (Some [])
          | Some s => mret (load_loop (length s) s)
          end
      end
  end.

(** The loop of [nsm_load_dir] over the names [readdir] returns: the records
    handed to the callback, each with the name of its file. *)
Fixpoint nsm_load_loop (directory : cstr) (names : list cstr) : dM (option (list (cstr * mon))) :=
  match names with
  | [] => mret (Some [])
  | n :: names =>
      if ceqb (deref n) "." then nsm_load_loop directory names
      else
        r ← nsm_load_host directory n;
        rs ← nsm_load_loop directory names;
        mret (match r, rs with Some r, Some rs => Some ((pair n <$> r) ++ rs) | _, _ => None end)
  end.

(** [names] is what [opendir] and [readdir] give; [None]: the directory cannot
    be opened. *)
Definition nsm_load_dir (directory : cstr) (names : option (list cstr)) : dM (option (list (cstr * mon))) :=
  match nsm_make_pathname directory, names with
  | None, _ | _, None => mret (Some [])
  | Some _, Some names => nsm_load_loop directory names
  end.

Definition nsm_load_monitor_list := nsm_load_dir NSM_MONITOR_DIR.
Definition nsm_load_notify_list := nsm_load_dir NSM_NOTIFY_DIR.

(** The copy loop of [nsm_delete_host]: the text kept; it stops when a line does
    not parse or a record does not fit. *)
Inductive copy_res := CopyStop | CopyOverrun | CopyKept (s : cstr).
Definition copy_app (r : cstr) (c : copy_res) : copy_res :=
  match c with CopyKept s => CopyKept (r ++ s) | c => c end.

Fixpoint delete_loop (fuel : nat) (mon_n my_n : cstr) (remaining : nat) (s : cstr) : copy_res :=
  match fuel, s with
  | S fuel, _ :: _ =>
      let '(line, s) := fgets BUFLEN s in
      match nsm_parse_line line with
      | ParseFalse => CopyStop
      | ParseOverrun => CopyOverrun
      | ParseTrue m =>
          if streq mon_n (mon_name m) && streq my_n (my_name m) then delete_loop fuel mon_n my_n remaining s
          else match nsm_create_monitor_record remaining m with
               | None => CopyStop
               | Some r => copy_app r (delete_loop fuel mon_n my_n (remaining - length r) s)
               end
      end
  | _, _ => CopyKept []
  end.

(** [None]: a line is read past its end. *)
Definition nsm_delete_host (directory hostname mon_n my_n : cstr) : dM (option unit) :=
  match nsm_make_record_pathname directory hostname with
  | None => mret (Some tt)
  | Some p =>
      stb ← sys_stat p;
      match stb with
      | None => mret (Some tt)
      | Some st_size =>
          c ← sys_read p;
          match c with
          | None => mret (Some tt)
          | Some s =>
              match delete_loop (length s) mon_n my_n (st_size + 1) s with
              | CopyOverrun => mret None
              | CopyStop => mret (Some tt)
              | CopyKept [] => _ ← sys_unlink p; mret (Some tt)
              | CopyKept out => _ ← nsm_atomic_write p out; mret (Some tt)
              end
          end
      end
  end.

Definition nsm_delete_monitored_host (hostname mon_n my_n : cstr) : dM (option unit) :=
  nsm_delete_host NSM_MONITOR_DIR hostname mon_n my_n.
Definition nsm_delete_notified_host (hostname mon_n my_n : cstr) : dM (option unit) :=
  nsm_delete_host NSM_NOTIFY_DIR hostname mon_n my_n.

(** ** Retiring the monitor list *)

(** The loop over the names [readdir] returns: the count of records moved. *)
Fixpoint nsm_retire_loop (names : list cstr) (count : Z) : dM Z :=
  match names with
  | [] => mret count
  | n :: names =>
      if ceqb (deref n) "." then nsm_retire_loop names count
      else match nsm_make_record_pathname NSM_MONITOR_DIR n with
           | None => nsm_retire_loop names count
           | Some src =>
               stb ← sys_stat src;
               match stb with
               | None => nsm_retire_loop names count
               | Some _ =>
                   match nsm_make_record_pathname NSM_NOTIFY_DIR n with
                   | None => nsm_retire_loop names count
                   | Some dst =>
                       ok ← sys_rename src dst;
                       nsm_retire_loop names (if ok : bool then u32 (count + 1) else count)
                   end
               end
           end
  end.

(** [names] is what [opendir] and [readdir] give; [None]: the directory cannot
    be opened. *)
Definition nsm_retire_monitored_hosts (names : option (list cstr)) : dM Z :=
  match nsm_make_pathname NSM_MONITOR_DIR, names with
  | None, _ | _, None => mret 0
  | Some _, Some names => nsm_retire_loop names 0
  end.

End nsm.

(** ** Reasoning about calls that may fail and a machine that may stop

    [triple P c Q C]: run in a state whose files satisfy [P], whatever its calls
    return, [c] ends with a result and files related by [Q], and [C] holds of
    the files after each of its calls. *)

Definition triple {A : Type} (P : fmap_t -> Prop) (c : dM A) (Q : A -> fmap_t -> Prop) (C : fmap_t -> Prop) : Prop :=
  forall d, P (files d) ->
    Q (fst (c d)) (files (snd (c d))) /\
    exists h, history (snd (c d)) = history d ++ h /\ Forall C h.

Lemma t_ret {A : Type} (P : fmap_t -> Prop) (a : A) (Q : A -> fmap_t -> Prop) (C : fmap_t -> Prop) :
  (forall m, P m -> Q a m) -> triple P (mret a) Q C.
Proof. intros H d Hd. split; [by apply H|]. exists []. by rewrite app_nil_r. Qed.

Lemma t_bind {A B : Type} (P : fmap_t -> Prop) (c : dM A) (R : A -> fmap_t -> Prop) (k : A -> dM B)
    (Q : B -> fmap_t -> Prop) (C : fmap_t -> Prop) :
  triple P c R C -> (forall a, triple (R a) (k a) Q C) -> triple P (c ≫= k) Q C.
Proof.
  intros Hc Hk d Hd. unfold mbind, dM_bind. destruct (Hc d Hd) as (HR & h1 & Eh1 & F1).
  destruct (c d) as [a d1]. cbn in *. destruct (Hk a d1 HR) as (HQ & h2 & Eh2 & F2).
  split; [done|]. exists (h1 ++ h2). rewrite Eh2, Eh1, app_assoc. split; [done|]. by apply Forall_app.
Qed.

Lemma t_syscall {A : Type} (P : fmap_t -> Prop) (f : outcome -> fmap_t -> A * fmap_t)
    (Q : A -> fmap_t -> Prop) (C : fmap_t -> Prop) :
  (forall o m, P m -> Q (fst (f o m)) (snd (f o m)) /\ C (snd (f o m))) -> triple P (syscall f) Q C.
Proof.
  intros H d Hd. unfold syscall. destruct (script d) as [|o r].
  - destruct (H Fine _ Hd) as [HQ HC]. destruct (f Fine (files d)). split; [done|].
    eexists. split; [reflexivity|]. by constructor.
  - destruct (H o _ Hd) as [HQ HC]. destruct (f o (files d)). split; [done|].
    eexists. split; [reflexivity|]. by constructor.
Qed.

Lemma t_conseq {A : Type} (P P' : fmap_t -> Prop) (c : dM A) (Q Q' : A -> fmap_t -> Prop) (C C' : fmap_t -> Prop) :
  triple P' c Q' C' -> (forall m, P m -> P' m) -> (forall a m, Q' a m -> Q a m) ->
  (forall m, C' m -> C m) -> triple P c Q C.
Proof.
  intros T HP HQ HC d Hd. destruct (T d (HP _ Hd)) as (HR & h & Eh & F).
  split; [by apply HQ|]. exists h. split; [done|]. by eapply Forall_impl.
Qed.

Lemma t_pure {A : Type} (p : Prop) (P : fmap_t -> Prop) (c : dM A) (Q : A -> fmap_t -> Prop) (C : fmap_t -> Prop) :
  (p -> triple P c Q C) -> triple (fun m => p /\ P m) c Q C.
Proof. intros T d [Hp Hd]. by apply T. Qed.

(** ** Replacing a file *)

(** Equal apart from the file [t]. *)
Definition agree_off (t : path) (m0 m : fmap_t) : Prop := forall q, q <> t -> m !! q = m0 !! q.

(** The files after [buf] has replaced [p] through [t]. *)
Definition replaced (t p : path) (buf : cstr) (m0 m : fmap_t) : Prop :=
  m !! p = Some buf /\ forall q, q <> t -> q <> p -> m !! q = m0 !! q.

Lemma exact_error_check_false len n : exact_error_check len n = false -> len = Z.of_nat n.
Proof. unfold exact_error_check. intros H. btrue. lia. Qed.

Lemma t_unlink_temp (t : path) (m0 : fmap_t) (C : fmap_t -> Prop) :
  (forall m, agree_off t m0 m -> C m) ->
  triple (agree_off t m0) (_ ← sys_unlink t; mret false) (fun ok m => ok = false /\ agree_off t m0 m) C.
Proof.
  intros HC. eapply t_bind with (R := fun _ => agree_off t m0); [|intros; by apply t_ret].
  apply t_syscall. intros o m H.
  assert (agree_off t m0 (delete t m)) as Hd by (intros q Hq; rewrite lookup_delete_ne by done; by apply H).
  destruct o, (m !! t); cbn; eauto.
Qed.

Lemma temp_pathname_ne p t : nsm_make_temp_pathname p = Some t -> t = p ++ $".new" /\ t <> p.
Proof.
  unfold nsm_make_temp_pathname. case_if; [done|]. intros [= <-]. split; [done|].
  intros H%(f_equal length). rewrite length_app in H. cbn in H. lia.
Qed.

Section atomic_write.
  Context (p t : path) (buf : cstr) (m0 : fmap_t).

(** The result of the write and the files at each of its calls. *)
Definition aw_post (ok : bool) (m : fmap_t) : Prop :=
  if ok then replaced t p buf m0 m else agree_off t m0 m.
Definition aw_crash (m : fmap_t) : Prop := agree_off t m0 m \/ replaced t p buf m0 m.

Lemma aw_fail (P : fmap_t -> Prop) :
  (forall m, P m -> agree_off t m0 m) -> triple P (_ ← sys_unlink t; mret false) aw_post aw_crash.
Proof.
  intros HP. eapply t_conseq; [apply (t_unlink_temp t m0 aw_crash)|done| |done]; unfold aw_crash; [eauto|].
  by intros a m [-> ?].
Qed.

Lemma agree_off_insert (c : cstr) : agree_off t m0 (<[t := c]> m0).
Proof. intros q Hq. by rewrite lookup_insert_ne. Qed.
  #[local] Hint Resolve agree_off_insert : core.

Lemma aw_create :
  triple (eq m0) (sys_create t) (fun ok m => if ok then m = <[t := []]> m0 else m = m0) aw_crash.
Proof. unfold sys_create. apply t_syscall. intros [] m <-; cbn; unfold aw_crash; eauto; by split; [|left]. Qed.

Lemma aw_write :
  triple (eq (<[t := []]> m0)) (sys_write t buf)
    (fun len m => exists c, m = <[t := c]> m0 /\ (len = Z.of_nat (length buf) -> c = buf)) aw_crash.
Proof.
  unfold aw_crash. apply t_syscall. intros o m <-. destruct o as [| |n]; cbn; rewrite ?insert_insert_eq.
  - eauto.
  - split; [|eauto]. exists []. split; [done|lia].
  - split; [|eauto]. eexists. split; [done|]. rewrite length_take. intros Hn. apply take_ge. lia.
Qed.

Lemma aw_rename :
  triple (eq (<[t := buf]> m0)) (sys_rename t p) aw_post aw_crash.
Proof.
  unfold aw_crash. apply t_syscall. intros o m <-. rewrite lookup_insert_eq.
  assert (replaced t p buf m0 (<[p := buf]> (delete t (<[t := buf]> m0)))) as Hr.
  { split; [by rewrite lookup_insert_eq|]. intros q H1 H2.
    by rewrite lookup_insert_ne, lookup_delete_ne, lookup_insert_ne. }
  destruct o; cbn; eauto.
Qed.

Lemma nsm_atomic_write_triple :
  nsm_make_temp_pathname p = Some t -> triple (eq m0) (nsm_atomic_write p buf) aw_post aw_crash.
Proof.
  intros Et. unfold nsm_atomic_write. rewrite Et.
  eapply t_bind; [apply aw_create|]. intros [|]; cbn [negb]; [|by apply t_ret; intros m ->].
  eapply t_bind; [eapply t_conseq; [apply aw_write|by intros m ->|done|done]|].
  intros len. destruct (exact_error_check len (length buf)) eqn:El.
  { eapply t_bind with (R := fun _ => agree_off t m0); [|intros _; by apply aw_fail].
    unfold aw_crash. apply t_syscall. intros o m (c & -> & _). cbn. eauto. }
  apply exact_error_check_false in El.
  eapply t_bind with (R := fun _ => eq (<[t := buf]> m0)).
  { unfold aw_crash. apply t_syscall. intros o m (c & -> & Hc). rewrite (Hc El). cbn. eauto. }
  intros [|]; cbn [negb]; [|apply aw_fail; by intros m <-].
  eapply t_bind; [apply aw_rename|]. intros [|]; cbn [negb]; [by apply t_ret|by apply aw_fail].
Qed.
End atomic_write.

Lemma nsm_atomic_write_crash (p : path) (buf : cstr) (d : disk) :
  let '(ok, d') := nsm_atomic_write p buf d in
  files d' !! p = (if ok then Some buf else files d !! p) /\
  exists h, history d' = history d ++ h /\
    Forall (fun m => (m !! p = files d !! p \/ m !! p = Some buf) /\
                     forall q, q <> p -> q <> p ++ $".new" -> m !! q = files d !! q) (files d' :: h).
Proof.
  destruct (nsm_make_temp_pathname p) as [t|] eqn:Et.
  - pose proof (nsm_atomic_write_triple p t buf (files d) Et d eq_refl) as (Q & h & Eh & C).
    apply temp_pathname_ne in Et as [<- Ht].
    assert (forall m, aw_crash p t buf (files d) m ->
      (m !! p = files d !! p \/ m !! p = Some buf) /\ forall q, q <> p -> q <> t -> m !! q = files d !! q) as Hc.
    { intros m [A|[E A]]; split; [left; by apply A|intros; by apply A|by right|intros; by apply A]. }
    destruct (nsm_atomic_write p buf d) as [ok d']. cbn in *. split; [destruct ok; by apply Q|].
    exists h. split; [done|]. constructor; [apply Hc; destruct ok; [by right|by left]|by eapply Forall_impl].
  - unfold nsm_atomic_write. rewrite Et. cbn. split; [done|]. exists []. rewrite app_nil_r. split; [done|].
    constructor; [|done]. split; [by left|done].
Qed.

(** Replacing a file is atomic: whatever its system calls return and wherever
    the machine stops, the file has its old contents or the whole new ones, no
    other file than the temporary one changes, and the function returns true
    exactly when the new contents are in place rather than the old. *)
Theorem nsm_atomic_write_atomic (p : path) (buf : cstr) (d : disk) :
  let '(ok, d') := nsm_atomic_write p buf d in
  files d' !! p = (if ok then Some buf else files d !! p) /\
  exists h, history d' = history d ++ h /\
    Forall (fun m => (m !! p = files d !! p \/ m !! p = Some buf) /\
                     forall q, q <> p -> q <> p ++ $".new" -> m !! q = files d !! q) (files d' :: h).
Proof. apply nsm_atomic_write_crash. Qed.

Lemma nsm_atomic_write_fine (p : path) (buf : cstr) (d : disk) :
  script d = [] -> Z.of_nat (length p) + 7 <= PATH_MAX ->
  let '(ok, d') := nsm_atomic_write p buf d in
  ok = true /\ script d' = [] /\
  files d' = <[p := buf]> (delete (p ++ $".new") (files d)).
Proof.
  intros Hs Hp. unfold nsm_atomic_write, nsm_make_temp_pathname.
  destruct (_ >? PATH_MAX) eqn:E; [btrue; lia|].
  unfold mbind, dM_bind, sys_create, sys_write, sys_close, sys_rename, syscall. rewrite Hs. cbn.
  unfold exact_error_check. rewrite Z.eqb_refl, (proj2 (Z.ltb_ge _ _)) by lia. cbn. rewrite lookup_insert_eq. cbn.
  split_and!; [done..|]. by rewrite insert_insert_eq, delete_insert_eq.
Qed.

(** ** Records as text *)

Lemma hex_length (w : nat) v : 0 <= v < 16 ^ Z.of_nat w -> (0 < w)%nat -> length (hex w v) = w.
Proof.
  intros Hv Hw. unfold hex, pad0. rewrite length_app, length_replicate.
  pose proof (utoa_aux_length (S (Z.to_nat (Z.log2 v))) 16 v w ltac:(lia) Hv Hw). unfold utoa. lia.
Qed.

Lemma hex_digits w v : Forall (fun c => digit_val c < 16) (hex w v).
Proof.
  apply Forall_app. split; [|apply utoa_digits; lia]. apply Forall_replicate. by vm_compute.
Qed.

Lemma scan_hex_digits w v : 0 <= v -> scan_digits 16 (hex w v) 0 = (v, []).
Proof.
  intros Hv. unfold hex, pad0. rewrite scan_digits_app by (apply Forall_replicate; by vm_compute).
  assert (forall n, fst (scan_digits 16 (replicate n "0"%char) 0) = 0) as -> by (by induction n).
  pose proof (scan_utoa 16 v [] ltac:(lia) Hv (or_introl eq_refl)) as H. by rewrite app_nil_r in H.
Qed.

Lemma hex_digit_plain c : digit_val c < 16 ->
  isspace c = false /\ ceqb c "-" = false /\ ceqb c "+" = false /\ ceqb (tolower c) "x" = false /\
  ceqb c SP = false /\ ceqb c NL = false.
Proof. all_chars c; vm_compute; intros; split_and!; done. Qed.

Lemma strto_scan_hex (ds : cstr) :
  ds <> [] -> Forall (fun c => digit_val c < 16) ds ->
  strto_scan 16 ds = let '(v, r) := scan_digits 16 ds 0 in Some (false, v, r).
Proof.
  intros Hne Hd. destruct ds as [|c ds]; [done|]. pose proof Hd as Hd'. apply Forall_cons in Hd' as [Hc Hds].
  destruct (hex_digit_plain c Hc) as (H1 & H2 & H3 & _). unfold strto_scan.
  rewrite skip_while_head, H2, H3 by done. unfold at_index.
  assert (ceqb (tolower (deref (drop 1 (c :: ds)))) "x" = false) as ->.
  { cbn. destruct ds as [|e ds]; [done|]. cbn. apply Forall_cons in Hds as [He _]. by apply hex_digit_plain. }
  rewrite andb_false_r, andb_false_l. cbn -[digit_val scan_digits ceqb]. by rewrite (proj2 (Z.ltb_lt _ _) Hc).
Qed.

Lemma scan_hex_hex (w : nat) v rest :
  0 <= v < 16 ^ Z.of_nat w -> 0 <= v < 2 ^ 32 -> (0 < w)%nat -> scan_hex w (hex w v ++ rest) = Some (v, rest).
Proof.
  intros Hv Hu Hw. pose proof (hex_length w v Hv Hw) as Hl. pose proof (hex_digits w v) as Hd.
  unfold scan_hex. assert (skip_while isspace (hex w v ++ rest) = hex w v ++ rest) as ->.
  { destruct (hex w v) as [|c s]; [cbn in Hl; lia|]. apply Forall_cons in Hd as [Hc _].
    cbn. by rewrite (proj1 (hex_digit_plain c Hc)). }
  rewrite take_app_length' by done. rewrite strto_scan_hex; [|by destruct (hex w v); cbn in Hl; [lia|]|done].
  rewrite scan_hex_digits by lia. rewrite u32_id by done. do 2 f_equal. cbn [length].
  rewrite Nat.sub_0_r. by apply drop_app_length'.
Qed.

Lemma scan_hex_space w s : scan_hex w (SP :: s) = scan_hex w s.
Proof. reflexivity. Qed.

Definition priv_text (p : list ascii) : cstr := concat (map (fun c => hex 2 (uchar c)) p).

Lemma uchar_hex c : 0 <= uchar c < 16 ^ Z.of_nat 2.
Proof. pose proof (uchar_range c). change (16 ^ Z.of_nat 2) with 256. lia. Qed.

Lemma priv_text_length p : length (priv_text p) = (2 * length p)%nat.
Proof.
  induction p as [|c p IH]; [done|]. unfold priv_text in *. cbn [map concat length].
  rewrite length_app, IH, hex_length by (apply uchar_hex || lia). lia.
Qed.

Lemma nsm_priv_to_hex_spec p remaining :
  nsm_priv_to_hex p remaining =
  if (length (priv_text p) <? remaining)%nat || match p with [] => true | _ => false end
  then Some (priv_text p) else None.
Proof.
  revert remaining; induction p as [|c p IH]; intros r; cbn [nsm_priv_to_hex]; [by rewrite orb_true_r|].
  unfold fits. rewrite IH. pose proof (hex_length 2 (uchar c) (uchar_hex c) ltac:(lia)) as Hc.
  unfold priv_text at 3 4. cbn [map concat]. fold (priv_text p). rewrite length_app, Hc, orb_false_r.
  pose proof (priv_text_length p). destruct p as [|c' p].
  - change (priv_text []) with (@nil ascii). cbn [length]. rewrite Nat.add_0_r, app_nil_r, orb_true_r.
    destruct (2 <? r)%nat; cbn; [|done]. by rewrite app_nil_r.
  - rewrite orb_false_r. cbn [length] in *.
    repeat match goal with |- context [(?a <? ?b)%nat] => destruct (Nat.ltb_spec a b) end; cbn; done || lia.
Qed.

Lemma scan_priv_text p line c rest :
  drop c line = priv_text p ++ rest -> scan_priv (length p) line c = Some (Some p).
Proof.
  revert c; induction p as [|b p IH]; intros c H; [done|]. unfold priv_text in H. cbn [map concat] in H.
  rewrite <- app_assoc in H. pose proof (hex_length 2 (uchar b) (uchar_hex b) ltac:(lia)) as Hb.
  cbn [length scan_priv]. rewrite (proj2 (Nat.ltb_ge _ _)).
  2: { apply (f_equal length) in H. rewrite length_drop, length_app, Hb in H. lia. }
  rewrite H, scan_hex_hex by (pose proof (uchar_range b); pose proof (uchar_hex b); lia).
  rewrite (IH (c + 2)%nat).
  - by rewrite chr_uchar.
  - rewrite <- drop_drop, H. by apply drop_app_length'.
Qed.

(** The line of a record. *)
Definition args_text (m : mon) : cstr :=
  hex 8 (s_addr m) ++ $" " ++ hex 8 (my_prog m) ++ $" " ++ hex 8 (my_vers m) ++ $" " ++ hex 8 (my_proc m) ++ $" ".
Definition names_text (m : mon) : cstr := $" " ++ mon_name m ++ $" " ++ my_name m.
Definition record_text (m : mon) : cstr := args_text m ++ priv_text (priv m) ++ names_text m ++ [NL].

Definition is_u32 (z : Z) : Prop := 0 <= z < 2 ^ 32.

(** What SM_MON's arguments satisfy when the record can be read back: numbers of
    32 bits, a cookie of 16 bytes, names without newline, no space in the
    monitored name and none at the start of the caller's. *)
Record mon_ok (m : mon) : Prop := MonOk
  { ok_addr : is_u32 (s_addr m); ok_prog : is_u32 (my_prog m); ok_vers : is_u32 (my_vers m);
    ok_proc : is_u32 (my_proc m); ok_priv : length (priv m) = SM_PRIV_SIZE;
    ok_mon_sp : SP ∉ mon_name m; ok_mon_nl : NL ∉ mon_name m; ok_my_nl : NL ∉ my_name m;
    ok_my_sp : deref (my_name m) <> SP }.

(** A record that fits the line buffers. *)
Record rec_ok (m : mon) : Prop := RecOk { rec_mon : mon_ok m; rec_fits : (length (record_text m) < BUFLEN)%nat }.

Lemma hex8_length v : is_u32 v -> length (hex 8 v) = 8%nat.
Proof. intros H. apply hex_length; [exact H|lia]. Qed.

Lemma args_text_length m : mon_ok m -> length (args_text m) = RPCARGSLEN.
Proof. intros []. unfold args_text. rewrite !length_app, !hex8_length by done. reflexivity. Qed.

Lemma nsm_create_monitor_record_spec m buflen :
  length (priv m) = SM_PRIV_SIZE ->
  nsm_create_monitor_record buflen m =
  if (length (record_text m) <? buflen)%nat then Some (record_text m) else None.
Proof.
  intros Hp. unfold nsm_create_monitor_record. fold (args_text m). unfold fits.
  assert ($" " ++ mon_name m ++ $" " ++ my_name m ++ [NL] = names_text m ++ [NL]) as ->.
  { unfold names_text. by rewrite <- !app_assoc. }
  rewrite nsm_priv_to_hex_spec. pose proof (priv_text_length (priv m)) as Hl. rewrite Hp in Hl.
  assert (match priv m with [] => true | _ => false end = false) as -> by (by destruct (priv m)).
  rewrite orb_false_r. destruct (priv_text (priv m)) as [|c s] eqn:E; [done|]. rewrite <- E in *.
  unfold record_text. rewrite !(length_app _ (priv_text _ ++ _)), !(length_app (priv_text _)).
  set (l1 := length (args_text m)). set (l2 := length (priv_text (priv m))). set (l3 := length (names_text m ++ [NL])).
  destruct (Nat.ltb_spec l1 buflen); cbn [negb].
  2: { by rewrite (proj2 (Nat.ltb_ge _ _)) by lia. }
  destruct (Nat.ltb_spec l2 (buflen - l1)).
  2: { by rewrite (proj2 (Nat.ltb_ge _ _)) by lia. }
  rewrite E. rewrite <- E. fold l2.
  repeat match goal with |- context [(?a <? ?b)%nat] => destruct (Nat.ltb_spec a b) end; cbn; done || lia.
Qed.

Lemma hex_no c w v : digit_val c >= 16 -> c ∉ hex w v.
Proof. intros Hc Hin. pose proof (hex_digits w v) as H. rewrite Forall_forall in H. apply H in Hin. lia. Qed.

Lemma priv_no_nl p : NL ∉ priv_text p.
Proof.
  induction p as [|c p IH]; [by apply not_elem_of_nil|]. unfold priv_text in *. cbn [map concat].
  apply not_elem_of_app. split; [by apply hex_no|done].
Qed.

Lemma record_no_nl m : mon_ok m -> NL ∉ args_text m ++ priv_text (priv m) ++ names_text m.
Proof.
  intros []. unfold args_text, names_text. rewrite !not_elem_of_app.
  split_and!; done || (by apply hex_no) || (by apply strchr_None) || apply priv_no_nl.
Qed.

Lemma span_stop (f : ascii -> bool) a c b :
  Forall (fun x => f x = true) a -> f c = false -> span f (a ++ c :: b) = (a, c :: b).
Proof. induction 1 as [|x a Hx Ha IH]; intros Hc; cbn; [by rewrite Hc|]. by rewrite Hx, IH. Qed.

Lemma nsm_parse_record m : mon_ok m -> nsm_parse_line (record_text m) = ParseTrue m.
Proof.
  intros H. pose proof (args_text_length m H) as Ha. pose proof H as [].
  unfold nsm_parse_line, record_text. rewrite !app_assoc, <- (app_assoc (args_text m)).
  rewrite strchr_app by (by apply record_no_nl). set (line := args_text m ++ _).
  assert (drop RPCARGSLEN line = priv_text (priv m) ++ names_text m) as Hd by (by apply drop_app_length').
  pose proof (scan_priv_text _ _ _ _ Hd) as Hp. rewrite ok_priv0 in Hp.
  assert (drop (RPCARGSLEN + 2 * SM_PRIV_SIZE + 1) line = mon_name m ++ SP :: my_name m) as Hn.
  { rewrite <- !drop_drop, Hd, drop_app_length'; [done|]. by rewrite priv_text_length, ok_priv0. }
  assert ((length line <? RPCARGSLEN + 2 * SM_PRIV_SIZE + 1)%nat = false) as Hl.
  { apply Nat.ltb_ge. apply (f_equal length) in Hn. rewrite length_drop, length_app in Hn. cbn [length] in Hn. lia. }
  assert (line = hex 8 (s_addr m) ++ SP :: hex 8 (my_prog m) ++ SP :: hex 8 (my_vers m) ++ SP :: hex 8 (my_proc m) ++
    SP :: priv_text (priv m) ++ names_text m) as Eline.
  { unfold line, args_text. by rewrite <- !app_assoc. }
  rewrite Eline at 1. clearbody line.
  do 3 (rewrite scan_hex_hex, scan_hex_space by (done || lia)). rewrite scan_hex_hex by (done || lia).
  rewrite Hp, Hl, Hn. rewrite span_stop; [|apply Forall_forall; intros x Hx; apply negb_true_iff, ceqb_false; by intros ->|done].
  cbn [skip_while]. rewrite ceqb_refl. destruct m as [? ? ? ? ? ? [|c s]]; cbn in *; [done|].
  by rewrite (proj2 (ceqb_false _ _)).
Qed.

(** A record written for a monitored host is read back as it was: the line
    made by [nsm_create_monitor_record] parses to the same address, program,
    version, procedure, private cookie and names, for every 32-bit number and every
    byte of the cookie. *)
Theorem nsm_record_round_trip (m : mon) (buflen : nat) (line : cstr) :
  mon_ok m -> nsm_create_monitor_record buflen m = Some line -> nsm_parse_line line = ParseTrue m.
Proof.
  intros H Hc. rewrite nsm_create_monitor_record_spec in Hc by apply H.
  destruct (_ <? _)%nat in Hc; [|done]. simplify_eq. by apply nsm_parse_record.
Qed.

(** ** Host files as lists of records *)

Definition file_of (ms : list mon) : cstr := concat (map record_text ms).
(** A host without records has no file. *)
Definition host_file (ms : list mon) : option cstr := match ms with [] => None | _ => Some (file_of ms) end.
Definition selected (mon_n my_n : cstr) (m : mon) : bool := streq mon_n (mon_name m) && streq my_n (my_name m).
(** The records that deleting [mon_n], [my_n] keeps. *)
Definition kept (mon_n my_n : cstr) (ms : list mon) : list mon := filter (fun m => selected mon_n my_n m = false) ms.

Lemma fgets_line a rest n :
  NL ∉ a -> (length a + 1 < n)%nat -> fgets n (a ++ NL :: rest) = (a ++ [NL], rest).
Proof.
  revert n; induction a as [|c a IH]; intros n Ha Hn; (destruct n as [|[|n]]; [cbn in Hn; lia..|]).
  - reflexivity.
  - apply not_elem_of_cons in Ha as [Hc Ha]. cbn [app fgets]. rewrite (proj2 (ceqb_false _ _)) by done.
    rewrite IH; [done|done|]. cbn in Hn. lia.
Qed.

Lemma fgets_record m rest : rec_ok m -> fgets BUFLEN (record_text m ++ rest) = (record_text m, rest).
Proof.
  intros [Hm Hl]. unfold record_text in *. rewrite !(app_assoc _ _ [NL]) in *.
  rewrite <- app_assoc. apply fgets_line; [by apply record_no_nl|]. revert Hl. rewrite length_app. cbn. lia.
Qed.

Lemma record_nonempty m : exists c s, record_text m = c :: s.
Proof.
  unfold record_text. destruct (args_text m) as [|c s] eqn:E; [|by eexists _, _].
  by apply app_eq_nil in E as [_ [=]].
Qed.

Lemma file_of_cons m ms : file_of (m :: ms) = record_text m ++ file_of ms.
Proof. reflexivity. Qed.

Lemma file_of_snoc ms m : file_of (ms ++ [m]) = file_of ms ++ record_text m.
Proof. unfold file_of. rewrite map_app, concat_app. cbn. by rewrite app_nil_r. Qed.

Lemma file_of_length ms : (length ms <= length (file_of ms))%nat.
Proof.
  induction ms as [|m ms IH]; [done|]. rewrite file_of_cons, length_app.
  destruct (record_nonempty m) as (c & s & ->). cbn in *. lia.
Qed.

Lemma file_of_nil ms : file_of ms = [] -> ms = [].
Proof. destruct ms as [|m ms]; [done|]. rewrite file_of_cons. by destruct (record_nonempty m) as (c & s & ->). Qed.

(** Reading the file of the records gives them, in order. *)
Lemma load_loop_file ms fuel : Forall rec_ok ms -> (length ms <= fuel)%nat -> load_loop fuel (file_of ms) = Some ms.
Proof.
  intros H. revert fuel; induction H as [|m ms Hm Hms IH]; intros [|fuel] Hf; try (cbn in *; done || lia).
  rewrite file_of_cons. cbn [length] in Hf. pose proof (fgets_record m (file_of ms) Hm) as Hg.
  destruct (record_nonempty m) as (c & s & E). rewrite E in *. cbn [app load_loop] in *. rewrite Hg, <- E.
  rewrite nsm_parse_record by apply Hm. by rewrite IH by lia.
Qed.

(** Copying the file without the selected records. *)
Lemma delete_loop_file mon_n my_n ms fuel remaining :
  Forall rec_ok ms -> (length ms <= fuel)%nat -> (length (file_of ms) < remaining)%nat ->
  delete_loop fuel mon_n my_n remaining (file_of ms) = CopyKept (file_of (kept mon_n my_n ms)).
Proof.
  intros H. revert fuel remaining; induction H as [|m ms Hm Hms IH]; intros [|fuel] r Hf Hr; try (cbn in *; done || lia).
  rewrite file_of_cons in *. cbn [length] in Hf. pose proof (fgets_record m (file_of ms) Hm) as Hg.
  rewrite length_app in Hr. unfold kept. rewrite filter_cons.
  destruct (record_nonempty m) as (c & s & E). rewrite E in Hg |- *. cbn [app delete_loop] in *. rewrite Hg, <- E.
  rewrite nsm_parse_record by apply Hm. fold (selected mon_n my_n m).
  destruct (selected mon_n my_n m) eqn:Es; [by apply IH; lia|].
  rewrite nsm_create_monitor_record_spec by apply Hm. rewrite (proj2 (Nat.ltb_lt _ _)) by lia.
  rewrite IH by lia. cbn [copy_app]. destruct (decide _); [|done]. by rewrite file_of_cons.
Qed.

(** ** The operations on a host's file *)

(** The outcome of the next call. *)
Definition next_outcome (d : disk) : outcome := default Fine (head (script d)).

Lemma syscall_run {A : Type} (f : outcome -> fmap_t -> A * fmap_t) (d : disk) :
  syscall f d = (fst (f (next_outcome d) (files d)),
                 Disk (snd (f (next_outcome d) (files d))) (tail (script d))
                      (history d ++ [snd (f (next_outcome d) (files d))])).
Proof. unfold syscall, next_outcome. destruct (script d) as [|o r]; cbn; by destruct (f _ _). Qed.

(** At each point the file of the host holds the records before the operation or
    those after it, and other files have not changed. *)
Definition host_crash (p : path) (m0 : fmap_t) (ms ms' : list mon) (m : fmap_t) : Prop :=
  (m !! p = host_file ms \/ m !! p = host_file ms') /\
  forall q, q <> p -> q <> p ++ $".new" -> m !! q = m0 !! q.

Definition host_step (p : path) (ms ms' : list mon) (d d' : disk) : Prop :=
  exists h, history d' = history d ++ h /\ Forall (host_crash p (files d) ms ms') (files d' :: h).

Lemma host_step_none p ms ms' (d : disk) : files d !! p = host_file ms -> host_step p ms ms' d d.
Proof. intros Hf. exists []. rewrite app_nil_r. split; [done|]. constructor; [split; auto|done]. Qed.

(** The state after a call that only reads. *)
Definition after_read (d : disk) : disk := Disk (files d) (tail (script d)) (history d ++ [files d]).

Lemma host_step_after p ms ms' (d d' : disk) :
  files d !! p = host_file ms -> host_step p ms ms' (after_read d) d' -> host_step p ms ms' d d'.
Proof.
  intros Hf (h & Eh & F). exists (files d :: h). rewrite Eh. cbn in *. rewrite <- app_assoc. split; [done|].
  apply Forall_cons in F as [F1 F2]. constructor; [done|]. constructor; [|done]. split; auto.
Qed.

Lemma host_file_cons ms : ms <> [] -> host_file ms = Some (file_of ms).
Proof. by destruct ms. Qed.

Lemma host_step_write p ms ms' (d : disk) :
  files d !! p = host_file ms -> ms' <> [] -> host_step p ms ms' d (snd (nsm_atomic_write p (file_of ms') d)).
Proof.
  intros Hf Hne. pose proof (nsm_atomic_write_crash p (file_of ms') d) as Hc.
  destruct (nsm_atomic_write p (file_of ms') d) as [ok d']. destruct Hc as (_ & h & Eh & F).
  exists h. split; [done|]. eapply Forall_impl; [exact F|]. intros m [[E|E] O]; (split; [|done]).
  - left. congruence.
  - right. by rewrite host_file_cons.
Qed.

Lemma host_step_unlink p ms (d : disk) : files d !! p = host_file ms -> host_step p ms [] d (snd (sys_unlink p d)).
Proof.
  intros Hf. unfold sys_unlink. rewrite syscall_run. eexists. split; [reflexivity|]. cbn.
  assert (host_crash p (files d) ms [] (files d)) by (split; auto).
  assert (host_crash p (files d) ms [] (delete p (files d))).
  { split; [right; by rewrite lookup_delete_eq|]. intros q Hq _. by rewrite lookup_delete_ne. }
  repeat case_match; constructor; try done; by constructor.
Qed.

Lemma bind_run {A B : Type} (c : dM A) (k : A -> dM B) (d : disk) : (c ≫= k) d = k (fst (c d)) (snd (c d)).
Proof. unfold mbind, dM_bind. by destruct (c d). Qed.

Lemma sys_stat_run p d :
  sys_stat p d = (match next_outcome d with Fails => None | _ => length <$> files d !! p end, after_read d).
Proof. apply syscall_run. Qed.

Lemma sys_read_run p d :
  sys_read p d = (match next_outcome d with Fails => None | Fine => files d !! p | Short n => take n <$> files d !! p end,
                  after_read d).
Proof. apply syscall_run. Qed.

(** [stat] then a read that is not cut short: nothing, or the whole file. *)
Lemma stat_read_run {A : Type} p (k : nat -> cstr -> dM A) (none : dM A) (d : disk) :
  (forall n, script d !! 1%nat <> Some (Short n)) ->
  let c := stb ← sys_stat p;
           match stb with
           | None => none
           | Some sz => c ← sys_read p; match c with None => none | Some s => k sz s end
           end in
  c d = none (after_read d) \/ c d = none (after_read (after_read d)) \/
  exists s, files d !! p = Some s /\ c d = k (length s) s (after_read (after_read d)).
Proof.
  intros Hs c. unfold c. rewrite bind_run, sys_stat_run. cbn [fst snd].
  destruct (next_outcome d) eqn:Eo; [|by left|]; (destruct (files d !! p) as [s|] eqn:Ef; [|by left]); cbn [fmap option_fmap option_map];
    rewrite bind_run, sys_read_run; cbn [fst snd after_read files]; rewrite Ef;
    (destruct (next_outcome (after_read d)) as [| |n1] eqn:En; [by eauto|by eauto|]);
    destruct (Hs n1); unfold next_outcome in En; cbn in En; destruct (script d) as [|o1 [|o2 r]]; cbn in *; congruence.
Qed.

Section ops.
  Context (base : cstr).

Lemma nsm_delete_host_step directory hostname p ms mon_n my_n (d : disk) :
  nsm_make_record_pathname base directory hostname = Some p ->
  Forall rec_ok ms -> files d !! p = host_file ms -> (forall n, script d !! 1%nat <> Some (Short n)) ->
  exists d', nsm_delete_host base directory hostname mon_n my_n d = (Some tt, d') /\
             host_step p ms (kept mon_n my_n ms) d d'.
Proof.
  intros Hp Hms Hf Hs. unfold nsm_delete_host. rewrite Hp.
  edestruct (stat_read_run p (fun sz s => match delete_loop (length s) mon_n my_n (sz + 1) s with
            | CopyOverrun => mret None
            | CopyStop => mret (Some tt)
            | CopyKept [] => _ ← sys_unlink p; mret (Some tt)
            | CopyKept out => _ ← nsm_atomic_write p out; mret (Some tt)
            end) (mret (Some tt)) d Hs) as [E|[E|(s & Es & E)]]; rewrite E; clear E.
  { eexists. split; [reflexivity|]. apply host_step_after; [done|]. by apply host_step_none. }
  { eexists. split; [reflexivity|]. do 2 (apply host_step_after; [done|]). by apply host_step_none. }
  rewrite Hf in Es. destruct (decide (ms = [])) as [->|Hne]; [done|]. rewrite host_file_cons in Es by done. simplify_eq.
  rewrite delete_loop_file; [|done|apply file_of_length|lia].
  destruct (kept mon_n my_n ms) as [|k ks].
  - change (file_of []) with (@nil ascii). cbv beta iota. rewrite bind_run.
    eexists. split; [reflexivity|]. do 2 (apply host_step_after; [done|]). by apply host_step_unlink.
  - destruct (file_of (k :: ks)) as [|c out] eqn:Eo; [by apply file_of_nil in Eo|].
    cbv beta iota. rewrite <- Eo, bind_run.
    eexists. split; [reflexivity|]. do 2 (apply host_step_after; [done|]). by apply host_step_write.
Qed.

Lemma create_record m : rec_ok m -> nsm_create_monitor_record BUFLEN m = Some (record_text m).
Proof.
  intros [Hm Hl]. rewrite nsm_create_monitor_record_spec by apply Hm. by rewrite (proj2 (Nat.ltb_lt _ _) Hl).
Qed.

Lemma sys_create_excl_exists p s (d : disk) :
  files d !! p = Some s ->
  sys_create_excl p d = (match next_outcome d with Fails => CreateError | _ => Exists_ end, after_read d).
Proof.
  intros Hf. unfold sys_create_excl. rewrite syscall_run. unfold after_read.
  destruct (next_outcome d); cbn; by rewrite ?Hf.
Qed.

(** Appending a record to the file of a host that has records. *)
Lemma nsm_append_step p ms m (d : disk) :
  ms <> [] -> files d !! p = host_file ms ->
  let '(ok, d') := nsm_append_monitored_host p (record_text m) d in
  (ok = true -> files d' !! p = host_file (ms ++ [m])) /\ host_step p ms (ms ++ [m]) d d'.
Proof.
  intros Hne Hf. pose proof Hf as Hf'. rewrite host_file_cons in Hf' by done.
  unfold nsm_append_monitored_host. rewrite bind_run, sys_stat_run. cbn [fst snd]. rewrite Hf'.
  assert (host_step p ms (ms ++ [m]) d (after_read d)) as S1 by (apply host_step_after; [done|]; by apply host_step_none).
  destruct (match next_outcome d with Fails => None | _ => _ end) as [sz|] eqn:Ez; [|done].
  assert (sz = length (file_of ms)) as -> by (destruct (next_outcome d); by simplify_eq/=).
  rewrite bind_run, sys_read_run. cbn [fst snd]. set (d2 := after_read (after_read d)).
  assert (forall d', host_step p ms (ms ++ [m]) d2 d' -> host_step p ms (ms ++ [m]) d d') as S2.
  { intros d' H. by do 2 (apply host_step_after; [done|]). }
  assert (host_step p ms (ms ++ [m]) d d2) as S3 by (apply S2; by apply host_step_none).
  destruct (match next_outcome (after_read d) with Fails => None | _ => _ end) as [c|] eqn:Ec; [|done].
  destruct (exact_error_check _ _) eqn:Ee; [done|]. apply exact_error_check_false, Nat2Z.inj in Ee.
  assert (c = file_of ms) as ->.
  { cbn [after_read files] in Ec. rewrite Hf' in Ec. destruct (next_outcome (after_read d)) as [| |n]; simplify_eq/=; [done|].
    rewrite length_take in Ee. apply take_ge. lia. }
  rewrite <- file_of_snoc. assert (ms ++ [m] <> []) as Hne2 by (by destruct ms).
  pose proof (host_step_write p ms (ms ++ [m]) d2 Hf Hne2) as Hw.
  pose proof (nsm_atomic_write_crash p (file_of (ms ++ [m])) d2) as Hc.
  destruct (nsm_atomic_write p (file_of (ms ++ [m])) d2) as [ok d']. split; [|by apply S2].
  intros ->. rewrite host_file_cons by done. apply Hc.
Qed.

(** Creating the file of a host: the file is there when true is returned. *)
Lemma nsm_create_step p m (d : disk) :
  let '(ok, d') := (len ← sys_write p (record_text m);
                    let failed := exact_error_check len (length (record_text m)) in
                    _ ← (if failed then sys_unlink p else mret true);
                    ok ← sys_close;
                    _ ← (if negb ok then sys_unlink p else mret true);
                    mret (negb failed && ok)) d in
  ok = true -> files d' !! p = host_file [m].
Proof.
  rewrite bind_run. unfold sys_write. rewrite syscall_run. cbn [fst snd].
  destruct (exact_error_check _ _) eqn:Ee; [by rewrite !bind_run|]. apply exact_error_check_false in Ee.
  rewrite !bind_run. unfold sys_close. rewrite syscall_run. cbn [fst snd mret dM_ret files].
  destruct (match next_outcome _ with Fails => false | _ => true end) eqn:Eo; cbn; [|done]. intros _.
  destruct (next_outcome d) as [| |n]; cbn in *; [by rewrite lookup_insert_eq, app_nil_r|lia|].
  rewrite lookup_insert_eq, app_nil_r. f_equal. rewrite length_take in Ee. apply take_ge. lia.
Qed.

Lemma nsm_insert_step hostname p ms m (d : disk) :
  nsm_make_record_pathname base NSM_MONITOR_DIR hostname = Some p ->
  rec_ok m -> files d !! p = host_file ms ->
  let '(ok, d') := nsm_insert_monitored_host base hostname m d in
  (ok = true -> files d' !! p = host_file (ms ++ [m])) /\ (ms <> [] -> host_step p ms (ms ++ [m]) d d').
Proof.
  intros Hp Hm Hf. unfold nsm_insert_monitored_host. rewrite Hp, create_record by done.
  rewrite bind_run. destruct (decide (ms = [])) as [->|Hne].
  - pose proof (nsm_create_step p m (snd (sys_create_excl p d))) as Hc.
    destruct (fst (sys_create_excl p d)) eqn:Er; [| |done].
    { revert Hc. cbv beta iota zeta. match goal with |- context [let '(_, _) := ?x in _] => destruct x end. done. }
    unfold sys_create_excl in Er. rewrite syscall_run in Er. cbn in *. rewrite Hf in Er. by destruct (next_outcome d).
  - rewrite (sys_create_excl_exists p (file_of ms)) by (by rewrite Hf, host_file_cons). cbn [fst snd].
    pose proof (nsm_append_step p ms m (after_read d) Hne Hf) as Ha.
    assert (host_step p ms (ms ++ [m]) d (after_read d)) as S1 by (apply host_step_after; [done|]; by apply host_step_none).
    destruct (next_outcome d); [|done|]; destruct (nsm_append_monitored_host _ _ _) as [ok d'];
      destruct Ha as [Ha1 Ha2]; (split; [done|intros _; by apply host_step_after]).
Qed.
End ops.

(** ** The host files as a store of records *)

(** What a client does to the records of one monitored host. *)
Inductive host_op := OpInsert (m : mon) | OpDelete (mon_n my_n : cstr).
Definition op_ok (op : host_op) : Prop := match op with OpInsert m => rec_ok m | OpDelete _ _ => True end.
(** The specification: a list of records. *)
Definition spec_op (ms : list mon) (op : host_op) : list mon :=
  match op with OpInsert m => ms ++ [m] | OpDelete mon_n my_n => kept mon_n my_n ms end.
Definition run_op (base hostname : cstr) (d : disk) (op : host_op) : disk :=
  match op with
  | OpInsert m => snd (nsm_insert_monitored_host base hostname m d)
  | OpDelete mon_n my_n => snd (nsm_delete_monitored_host base hostname mon_n my_n d)
  end.

Lemma after_read_fine (d : disk) : script d = [] -> script (after_read d) = [] /\ next_outcome d = Fine.
Proof. unfold next_outcome. cbn. by intros ->. Qed.

Lemma kept_ok mon_n my_n ms : Forall rec_ok ms -> Forall rec_ok (kept mon_n my_n ms).
Proof. rewrite !Forall_forall. intros H m [_ Hm]%list_elem_of_filter. by apply H. Qed.

(** Deleting from a host's file when no call fails, in either directory. *)
Lemma delete_host_fine base directory hostname p ms mon_n my_n (d : disk) :
  nsm_make_record_pathname base directory hostname = Some p -> Z.of_nat (length p) + 7 <= PATH_MAX ->
  Forall rec_ok ms -> script d = [] -> files d !! p = host_file ms ->
  let d' := snd (nsm_delete_host base directory hostname mon_n my_n d) in
  files d' !! p = host_file (kept mon_n my_n ms) /\ script d' = [].
Proof.
  intros Hp Htemp Hms Hs Hf. unfold nsm_delete_host. rewrite Hp, bind_run, sys_stat_run. cbn [fst snd].
  destruct (after_read_fine d Hs) as [Hs1 ->]. rewrite Hf. destruct (decide (ms = [])) as [->|Hne]; [done|].
  pose proof Hf as Hf'. rewrite host_file_cons in Hf' |- * by done. cbn [fmap option_fmap option_map].
  rewrite bind_run, sys_read_run. destruct (after_read_fine _ Hs1) as [Hs2 ->]. cbn [fst snd].
  change (files (after_read d)) with (files d). rewrite Hf'.
  rewrite delete_loop_file; [|done|apply file_of_length|lia]. set (d2 := after_read (after_read d)) in *.
  destruct (kept mon_n my_n ms) as [|k ks].
  - change (file_of []) with (@nil ascii). cbv beta iota. rewrite bind_run. unfold sys_unlink. rewrite syscall_run.
    cbn [fst snd mret dM_ret files script]. rewrite Hs2. unfold next_outcome. rewrite Hs2. cbn. rewrite Hf'. cbn.
    by rewrite lookup_delete_eq.
  - destruct (file_of (k :: ks)) as [|c out] eqn:Eo; [by apply file_of_nil in Eo|].
    cbv beta iota. rewrite <- Eo, bind_run. cbn [snd mret dM_ret].
    pose proof (nsm_atomic_write_fine p (file_of (k :: ks)) d2 Hs2 Htemp) as Hw.
    destruct (nsm_atomic_write _ _ _) as [ok d']. cbn. destruct Hw as (_ & ? & ->). by rewrite lookup_insert_eq.
Qed.

Section fine.
  #[local] Set Default Proof Using "All".
  Context (base hostname : cstr) (p : path).
  Hypothesis Hp : nsm_make_record_pathname base NSM_MONITOR_DIR hostname = Some p.
  (** The temporary name fits too. *)
  Hypothesis Htemp : Z.of_nat (length p) + 7 <= PATH_MAX.

Lemma nsm_append_fine s line (d : disk) :
  script d = [] -> files d !! p = Some s ->
  let '(ok, d') := nsm_append_monitored_host p line d in
  ok = true /\ script d' = [] /\ files d' = <[p := s ++ line]> (delete (p ++ $".new") (files d)).
Proof.
  intros Hs Hf. unfold nsm_append_monitored_host. rewrite bind_run, sys_stat_run. cbn [fst snd].
  destruct (after_read_fine d Hs) as [Hs1 ->]. rewrite Hf. cbn [fmap option_fmap option_map].
  rewrite bind_run, sys_read_run. destruct (after_read_fine _ Hs1) as [Hs2 ->]. cbn [fst snd].
  change (files (after_read d)) with (files d). rewrite Hf.
  unfold exact_error_check. rewrite Z.eqb_refl, (proj2 (Z.ltb_ge _ _)) by lia. cbn [orb negb].
  pose proof (nsm_atomic_write_fine p (s ++ line) _ Hs2 Htemp) as H.
  destruct (nsm_atomic_write _ _ _). tauto.
Qed.

Lemma nsm_insert_fine ms m (d : disk) :
  rec_ok m -> script d = [] -> files d !! p = host_file ms ->
  let d' := snd (nsm_insert_monitored_host base hostname m d) in
  files d' !! p = host_file (ms ++ [m]) /\ script d' = [].
Proof.
  intros Hm Hs Hf. pose proof (nsm_insert_step base hostname p ms m d Hp Hm Hf) as Hi.
  assert (fst (nsm_insert_monitored_host base hostname m d) = true /\
          script (snd (nsm_insert_monitored_host base hostname m d)) = []) as [H1 H2].
  2: { destruct (nsm_insert_monitored_host base hostname m d). cbn in *. split; [by apply Hi|done]. }
  clear Hi. unfold nsm_insert_monitored_host. rewrite Hp, create_record by done. rewrite bind_run.
  destruct (decide (ms = [])) as [->|Hne].
  - unfold mbind, dM_bind, sys_create_excl, sys_write, sys_close, syscall. rewrite Hs, Hf. cbn.
    unfold exact_error_check. by rewrite Z.eqb_refl, (proj2 (Z.ltb_ge _ _)) by lia.
  - rewrite host_file_cons in Hf by done. rewrite (sys_create_excl_exists p _ d Hf). cbn [fst snd].
    destruct (after_read_fine d Hs) as [Hs1 ->].
    pose proof (nsm_append_fine (file_of ms) (record_text m) (after_read d) Hs1 Hf) as H.
    destruct (nsm_append_monitored_host _ _ _). tauto.
Qed.

Lemma nsm_delete_fine ms mon_n my_n (d : disk) :
  Forall rec_ok ms -> script d = [] -> files d !! p = host_file ms ->
  let d' := snd (nsm_delete_monitored_host base hostname mon_n my_n d) in
  files d' !! p = host_file (kept mon_n my_n ms) /\ script d' = [].
Proof. intros. by apply delete_host_fine. Qed.

Lemma run_ops_refine ops ms (d : disk) :
  Forall op_ok ops -> Forall rec_ok ms -> script d = [] -> files d !! p = host_file ms ->
  let d' := foldl (run_op base hostname) d ops in
  files d' !! p = host_file (foldl spec_op ms ops) /\ script d' = [] /\ Forall rec_ok (foldl spec_op ms ops).
Proof.
  intros Ho. revert ms d; induction Ho as [|op ops Hop Hops IH]; intros ms d Hms Hs Hf; [done|]. cbn [foldl].
  destruct op as [m|mon_n my_n]; cbn [run_op spec_op].
  - destruct (nsm_insert_fine ms m d Hop Hs Hf). apply IH; [|done..]. apply Forall_app. by split; [|constructor].
  - destruct (nsm_delete_fine ms mon_n my_n d Hms Hs Hf). apply IH; [|done..]. by apply kept_ok.
Qed.
End fine.

Lemma nsm_load_host_file base directory hostname p ms (d : disk) :
  nsm_make_record_pathname base directory hostname = Some p -> Forall rec_ok ms -> script d = [] ->
  files d !! p = host_file ms -> fst (nsm_load_host base directory hostname d) = Some ms.
Proof.
  intros Hp Hms Hs Hf. unfold nsm_load_host. rewrite Hp, bind_run, sys_stat_run. cbn [fst snd].
  destruct (after_read_fine d Hs) as [Hs1 ->]. rewrite Hf. destruct (decide (ms = [])) as [->|Hne]; [done|].
  pose proof Hf as Hf'. rewrite host_file_cons in Hf' |- * by done. cbn [fmap option_fmap option_map].
  rewrite bind_run, sys_read_run. destruct (after_read_fine _ Hs1) as [Hs2 ->]. cbn [fst snd].
  change (files (after_read d)) with (files d). rewrite Hf'. cbn. apply load_loop_file; [done|apply file_of_length].
Qed.

(** C27. The file of a monitored host implements a list of records: after any
    sequence of insertions and deletions on a disk without errors, loading the
    host gives exactly the records inserted and not deleted since, in order of
    insertion, and a host left without records has no file. *)
Theorem nsm_host_store_refines base hostname p (ops : list host_op) ms (d : disk) :
  nsm_make_record_pathname base NSM_MONITOR_DIR hostname = Some p ->
  Z.of_nat (length p) + 7 <= PATH_MAX ->
  Forall op_ok ops -> Forall rec_ok ms -> script d = [] -> files d !! p = host_file ms ->
  let d' := foldl (run_op base hostname) d ops in
  let ms' := foldl spec_op ms ops in
  files d' !! p = host_file ms' /\ fst (nsm_load_host base NSM_MONITOR_DIR hostname d') = Some ms'.
Proof.
  intros Hp Ht Ho Hms Hs Hf. destruct (run_ops_refine base hostname p Hp Ht ops ms d Ho Hms Hs Hf) as (H1 & H2 & H3).
  split; [done|]. by eapply nsm_load_host_file.
Qed.

(** Deleting a record is atomic and touches nothing else: whatever calls fail
    and wherever the machine stops, the file of the host holds either all its
    records or exactly those that do not match both names, in order; provided
    the read of the file is not cut short. *)
Theorem nsm_delete_host_crash_safe base directory hostname p ms mon_n my_n (d : disk) :
  nsm_make_record_pathname base directory hostname = Some p ->
  Forall rec_ok ms -> files d !! p = host_file ms -> (forall n, script d !! 1%nat <> Some (Short n)) ->
  exists d' h,
    nsm_delete_host base directory hostname mon_n my_n d = (Some tt, d') /\
    history d' = history d ++ h /\
    Forall (fun m => (m !! p = host_file ms \/
                      m !! p = host_file (filter (fun r => ~ (mon_name r = mon_n /\ my_name r = my_n)) ms)) /\
                     forall q, q <> p -> q <> p ++ $".new" -> m !! q = files d !! q) (files d' :: h).
Proof.
  intros Hp Hms Hf Hs. destruct (nsm_delete_host_step base directory hostname p ms mon_n my_n d Hp Hms Hf Hs)
    as (d' & E & h & Eh & F). exists d', h. split_and!; [done..|].
  assert (kept mon_n my_n ms = filter (fun r => ~ (mon_name r = mon_n /\ my_name r = my_n)) ms) as <-; [|done].
  apply list_filter_iff. intros m. unfold selected. rewrite andb_false_iff, !streq_false.
  split; [intros [?|?] [??]; congruence|].
  intros H. destruct (decide (mon_n = mon_name m)); [right|left]; [|done]. intros ->. by apply H.
Qed.

(** Inserting a record never loses one: whatever calls fail and wherever the
    machine stops, the file of a host that has records holds those it had or
    those with the new one after them, and when the function returns true the
    new record is in the file. *)
Theorem nsm_insert_monitored_host_crash_safe base hostname p ms m (d : disk) :
  nsm_make_record_pathname base NSM_MONITOR_DIR hostname = Some p ->
  rec_ok m -> files d !! p = host_file ms ->
  let '(ok, d') := nsm_insert_monitored_host base hostname m d in
  (ok = true -> files d' !! p = host_file (ms ++ [m])) /\
  (ms <> [] -> exists h, history d' = history d ++ h /\
    Forall (fun m' => (m' !! p = host_file ms \/ m' !! p = host_file (ms ++ [m])) /\
                      forall q, q <> p -> q <> p ++ $".new" -> m' !! q = files d !! q) (files d' :: h)).
Proof. intros Hp Hm Hf. exact (nsm_insert_step base hostname p ms m d Hp Hm Hf). Qed.

(** *** Concrete records *)

Definition mon_ex (name : cstr) : mon :=
  Mon 2130706433 100021 4 16 (map (fun n => chr (Z.of_nat n * 17)) (seq 0 16)) name $"me".
Definition base_ex : cstr := $"/var/lib/nfs".
Definition disk_ex (l : list (cstr * list mon)) (s : list outcome) : disk :=
  Disk (list_to_map (map (fun '(n, ms) => (base_ex ++ $"/sm/" ++ n, file_of ms)) l)) s [].

Lemma mon_ex_ok name :
  strchr SP name = None -> strchr NL name = None -> (length name <? 900)%nat = true -> rec_ok (mon_ex name).
Proof.
  intros H1 H2 H3. split.
  - split; unfold is_u32; cbn; try lia; try done; by apply strchr_None.
  - unfold record_text, names_text. cbn [mon_name my_name mon_ex]. rewrite !length_app. apply Nat.ltb_lt in H3.
    rewrite args_text_length by (split; unfold is_u32; cbn; try lia; try done; by apply strchr_None).
    rewrite priv_text_length. unfold BUFLEN, LINELEN, RPCARGSLEN, SM_PRIV_SIZE, SM_MAXSTRLEN. cbn [length mon_ex priv map seq]. 
    change (length $"me") with 2%nat. change (length $" ") with 1%nat. lia.
Qed.

(** ** The state number *)

Lemma uchar_chr_mod z : uchar (chr z) = z mod 256.
Proof.
  unfold chr. rewrite <- (Z.mod_mod z 256) at 1 by lia. change (ascii_of_N (Z.to_N ((z mod 256) mod 256))) with (chr (z mod 256)).
  apply uchar_chr. apply Z.mod_pos_bound. lia.
Qed.

Lemma bytes_int_bytes z : INT_MIN <= z <= INT_MAX -> bytes_int (int_bytes z) = z.
Proof.
  intros H. unfold bytes_int, int_bytes. cbn [foldr]. rewrite !uchar_chr_mod, !Z.shiftr_div_pow2 by lia.
  rewrite <- (i32_id z) at 5 by done. unfold i32. f_equal.
  set (b := _ + 256 * _). assert (b = z mod 2 ^ 32) as ->; [|by rewrite Zplus_mod_idemp_l]. unfold b.
  change (2 ^ 8) with 256. change (2 ^ 16) with (256 * 256). change (2 ^ 24) with (256 * 256 * 256).
  change (2 ^ 32) with (256 * (256 * (256 * 256))).
  rewrite !(Z.rem_mul_r) by lia. rewrite <- !Z.div_div by lia. lia.
Qed.

Lemma int_bytes_length z : length (int_bytes z) = 4%nat.
Proof. done. Qed.

Lemma odd_i32 z : Z.odd (i32 z) = Z.odd z.
Proof.
  unfold i32. rewrite (Z.mod_eq (z + 2 ^ 31) (2 ^ 32)) by lia.
  change (2 ^ 32) with (2 * 2 ^ 31). rewrite <- Z.mul_assoc.
  replace (z + 2 ^ 31 - 2 * (2 ^ 31 * ((z + 2 ^ 31) / (2 * 2 ^ 31))) - 2 ^ 31)
    with (z + 2 * (- (2 ^ 31 * ((z + 2 ^ 31) / (2 * 2 ^ 31))))) by lia.
  by rewrite Z.odd_add_mul_2.
Qed.

Lemma land_1_odd z : (Z.land z 1 =? 0) = negb (Z.odd z).
Proof.
  change 1 with (Z.ones 1) at 1. rewrite Z.land_ones by lia. change (2 ^ 1) with 2. rewrite Zmod_odd. by destruct (Z.odd z).
Qed.

(** The end of [nsm_get_state]: the number read, [state], and its update. *)
Definition state_finish (p : path) (state : Z) (update : bool) : dM Z :=
  if update then
    let state := i32 (state + 2) in
    ok ← nsm_atomic_write p (int_bytes state);
    mret (if ok : bool then state else 0)
  else mret state.

Lemma state_finish_spec p state update (d : disk) :
  let '(r, d') := state_finish p state update d in
  let new := i32 (state + 2) in
  (if update then r = 0 /\ files d' !! p = files d !! p \/ r = new /\ files d' !! p = Some (int_bytes new)
   else r = state /\ d' = d) /\
  exists h, history d' = history d ++ h /\
    Forall (fun m => m !! p = files d !! p \/ m !! p = Some (int_bytes new)) (files d' :: h).
Proof.
  unfold state_finish. destruct update.
  - rewrite bind_run. pose proof (nsm_atomic_write_crash p (int_bytes (i32 (state + 2))) d) as Hc.
    destruct (nsm_atomic_write p _ d) as [ok d']. cbn. destruct Hc as (Hr & h & Eh & F).
    split; [destruct ok; [by right|by left]|]. exists h. split; [done|].
    eapply Forall_impl; [exact F|]. by intros m [? _].
  - cbn. split; [done|]. exists []. rewrite app_nil_r. split; [done|]. constructor; [by left|done].
Qed.

(** The number [nsm_get_state] starts from, given what it reads. *)
Definition state_read (o : open_res) : option (Z * bool) :=
  match o with
  | OpenError => None
  | NoEntry => Some (1, true)
  | Contents s => if exact_error_check (Z.of_nat (length s)) 4 then Some (1, true)
                  else let state := bytes_int s in
                       Some (if Z.land state 1 =? 0 then i32 (state + 1) else state, false)
  end.

Lemma nsm_get_state_run base p update (d : disk) :
  nsm_make_pathname base NSM_STATE_FILE = Some p ->
  exists o, sys_read_state p d = (o, after_read d) /\
  nsm_get_state base update d =
    match state_read o with
    | None => (0, after_read d)
    | Some (s, force) => state_finish p s (force || update) (after_read d)
    end.
Proof.
  intros Hp. unfold nsm_get_state. rewrite Hp, bind_run. fold (state_finish p).
  unfold sys_read_state. rewrite syscall_run. cbn [fst snd]. eexists. split; [reflexivity|]. fold (after_read d).
  destruct (match next_outcome d with Fine => _ | _ => _ end) as [| |s]; [done..|].
  unfold state_read. by destruct (exact_error_check _ 4).
Qed.

(** The number is odd whatever the file holds. *)
Lemma state_read_odd o s force : state_read o = Some (s, force) -> Z.odd s = true.
Proof.
  destruct o as [| |c]; cbn [state_read]; [done|by intros [= <- _]|].
  destruct (exact_error_check _ _); [by intros [= <- _]|]. cbv zeta. rewrite land_1_odd. intros [= <- _].
  destruct (Z.odd (bytes_int c)) eqn:E; cbn [negb]; [done|]. rewrite odd_i32, Z.add_1_r, Z.odd_succ, <- Z.negb_odd. by rewrite E.
Qed.

(** [nsm_get_state] returns an odd number or zero, whatever the state file
    holds and whatever calls fail; when it is asked to update and returns a
    number, that number is in the file; and at every point the file has its old
    contents or an odd number. *)
Theorem nsm_get_state_odd base p update (d : disk) :
  nsm_make_pathname base NSM_STATE_FILE = Some p ->
  let '(r, d') := nsm_get_state base update d in
  (r = 0 \/ Z.odd r = true) /\
  (update = true -> r <> 0 -> files d' !! p = Some (int_bytes r)) /\
  exists h, history d' = history d ++ h /\
    Forall (fun m => m !! p = files d !! p \/ exists s, Z.odd s = true /\ m !! p = Some (int_bytes s)) (files d' :: h).
Proof.
  intros Hp. destruct (nsm_get_state_run base p update d Hp) as (o & _ & ->).
  destruct (state_read o) as [[s force]|] eqn:Eo.
  2: { split_and!; [by left|done|]. exists [files d]. split; [done|]. repeat constructor; by left. }
  apply state_read_odd in Eo. pose proof (state_finish_spec p s (force || update) (after_read d)) as Hs.
  destruct (state_finish p s (force || update) (after_read d)) as [r d']. cbv zeta in Hs.
  destruct Hs as (Hr & h & Eh & F). assert (Z.odd (i32 (s + 2)) = true) as Hodd.
  { by rewrite odd_i32, Z.odd_add, Eo. }
  split_and!.
  - destruct (force || update); [destruct Hr as [[-> _]|[-> _]]; [by left|by right]|]. destruct Hr as [-> _]. by right.
  - intros -> Hne. rewrite orb_true_r in Hr. destruct Hr as [[? _]|[-> ?]]; done.
  - exists (files d :: h). rewrite Eh. cbn. rewrite <- app_assoc. split; [done|].
    apply Forall_cons in F as [F1 F2]. constructor; [|constructor; [by left|eapply Forall_impl; [exact F2|]]].
    + destruct F1; [by left|right; eauto].
    + intros m [?|?]; [by left|right; eauto].
Qed.

(** Each start of the daemon gets a higher number: from a state file that
    holds the odd number [s], an update gives [s + 2], or zero with the file as
    it was; and the file holds [s] or [s + 2] at every point. *)
Theorem nsm_get_state_advances base p s (d : disk) :
  nsm_make_pathname base NSM_STATE_FILE = Some p ->
  files d !! p = Some (int_bytes s) -> Z.odd s = true -> 0 < s -> s + 2 <= INT_MAX ->
  (forall n, head (script d) <> Some (Short n)) ->
  let '(r, d') := nsm_get_state base true d in
  (r = s + 2 /\ files d' !! p = Some (int_bytes (s + 2)) \/ r = 0 /\ files d' !! p = Some (int_bytes s)) /\
  exists h, history d' = history d ++ h /\
    Forall (fun m => m !! p = Some (int_bytes s) \/ m !! p = Some (int_bytes (s + 2))) (files d' :: h).
Proof.
  intros Hp Hf Hodd Hpos Hmax Hs. destruct (nsm_get_state_run base p true d Hp) as (o & Eo & ->).
  assert (o = OpenError \/ o = Contents (int_bytes s)) as Ho.
  { unfold sys_read_state in Eo. rewrite syscall_run, Hf in Eo. simplify_eq/=. unfold next_outcome.
    destruct (script d) as [|[| |n] r]; cbn; auto. by destruct (Hs n). }
  destruct Ho as [->| ->]; cbn [state_read].
  { split; [by right|]. exists [files d]. split; [done|]. by do 2 (constructor; [by left|]). }
  rewrite bytes_int_bytes by (unfold INT_MIN in *; lia). rewrite land_1_odd, Hodd. cbn [negb orb length exact_error_check].
  pose proof (state_finish_spec p s true (after_read d)) as H. cbv zeta in H. cbn [files after_read] in H.
  change (exact_error_check (Z.of_nat (length (int_bytes s))) 4) with false. cbv iota beta. cbn [orb].
  rewrite (i32_id (s + 2)) in H by (unfold INT_MIN in *; lia).
  destruct (state_finish p s true (after_read d)) as [r d']. destruct H as (Hr & h & Eh & F). rewrite Hf in *.
  split; [tauto|]. exists (files d :: h). rewrite Eh. cbn. rewrite <- app_assoc. split; [done|].
  apply Forall_cons in F as [F1 F2]. constructor; [done|]. constructor; [by left|done].
Qed.

(** ** Retiring the monitor list *)

Lemma record_pathname_inv base dir n p :
  nsm_make_record_pathname base dir n = Some p -> p = base ++ $"/" ++ dir ++ $"/" ++ n.
Proof. unfold nsm_make_record_pathname. by repeat case_if; intros [=]. Qed.

Lemma record_dir_path b directory n p : nsm_make_record_pathname b directory n = Some p -> is_Some (nsm_make_pathname b directory).
Proof.
  unfold nsm_make_record_pathname, nsm_make_pathname. destruct (existsb bad_name_char n); [done|].
  destruct (Z.gtb_spec (Z.of_nat (length b + length directory + length n) + 3) PATH_MAX); [done|].
  destruct (Z.gtb_spec (Z.of_nat (length b + length directory) + 2) PATH_MAX); [lia|]. by eexists.
Qed.

Lemma sm_paths_differ base n n' src dst :
  nsm_make_record_pathname base NSM_MONITOR_DIR n = Some src ->
  nsm_make_record_pathname base NSM_NOTIFY_DIR n' = Some dst -> src <> dst.
Proof. intros ->%record_pathname_inv ->%record_pathname_inv H%app_inv_head. done. Qed.

Lemma record_paths_inj base dir n n' p :
  nsm_make_record_pathname base dir n = Some p -> nsm_make_record_pathname base dir n' = Some p -> n = n'.
Proof. intros ->%record_pathname_inv H%record_pathname_inv. do 4 apply app_inv_head in H. done. Qed.

Section retire.
  Context (base n : cstr) (src dst : path) (c : cstr).
  Hypothesis Hsrc : nsm_make_record_pathname base NSM_MONITOR_DIR n = Some src.
  Hypothesis Hdst : nsm_make_record_pathname base NSM_NOTIFY_DIR n = Some dst.
  #[local] Set Default Proof Using "All".

(** The record of [n] is still to be moved, or has been. *)
Definition unmoved (m : fmap_t) : Prop := m !! src = Some c.
Definition moved (m : fmap_t) : Prop := m !! src = None /\ m !! dst = Some c.

Lemma rename_other (n' : cstr) (src' dst' : path) (m : fmap_t) (c' : cstr) :
  nsm_make_record_pathname base NSM_MONITOR_DIR n' = Some src' ->
  nsm_make_record_pathname base NSM_NOTIFY_DIR n' = Some dst' -> m !! src' = Some c' ->
  let m' := <[dst' := c']> (delete src' m) in
  (n' = n /\ src' = src /\ dst' = dst /\ (m !! src = Some c -> moved m')) \/
  (n' <> n /\ (unmoved m -> unmoved m') /\ (moved m -> moved m')).
Proof.
  intros Hs Hd Hm m'. destruct (decide (n' = n)) as [->|Hn].
  - left. rewrite Hs in Hsrc. rewrite Hd in Hdst. simplify_eq. split_and!; [done..|]. intros H. simplify_eq.
    unfold moved, m'. rewrite lookup_insert_eq, lookup_insert_ne, lookup_delete_eq; [done|].
    intros E. by apply (sm_paths_differ _ _ _ _ _ Hs Hd).
  - right. assert (src' <> src) by (intros ->; exact (Hn (record_paths_inj _ _ _ _ _ Hs Hsrc))).
    assert (dst' <> dst) by (intros ->; exact (Hn (record_paths_inj _ _ _ _ _ Hd Hdst))).
    pose proof (sm_paths_differ _ _ _ _ _ Hsrc Hd). pose proof (sm_paths_differ _ _ _ _ _ Hs Hdst).
    unfold unmoved, moved, m'. rewrite !lookup_insert_ne, !lookup_delete_ne by done. done.
Qed.

(** A record is in one of the directories throughout; once moved, it stays. *)
Lemma retire_loop_safe (K : fmap_t -> Prop) names count :
  K = moved \/ K = (fun m => unmoved m \/ moved m) ->
  triple K (nsm_retire_loop base names count) (fun _ => K) K.
Proof.
  intros HK. revert count; induction names as [|n' names IH]; intros count; cbn [nsm_retire_loop]; [by apply t_ret|].
  case_if; [apply IH|]. destruct (nsm_make_record_pathname base NSM_MONITOR_DIR n') as [s'|] eqn:Es; [|apply IH].
  eapply t_bind with (R := fun _ => K); [by apply t_syscall|]. intros [sz|]; [|apply IH].
  destruct (nsm_make_record_pathname base NSM_NOTIFY_DIR n') as [d'|] eqn:Ed; [|apply IH].
  eapply t_bind with (R := fun _ => K); [|intros; apply IH].
  apply t_syscall. intros o m Hm. destruct (m !! s') as [c'|] eqn:Em; [|by destruct o].
  assert (K (<[d' := c']> (delete s' m))); [|by destruct o].
  destruct (rename_other n' s' d' m c' Es Ed Em) as [(-> & -> & -> & H)|(Hn & H1 & H2)];
    destruct HK as [->| ->]; unfold moved, unmoved in *; tauto || (destruct Hm; congruence) || idtac.
  right. destruct Hm as [Hm|Hm]; [by apply H|]. destruct Hm. congruence.
Qed.

(** With no failure every record that [readdir] names is moved. *)
Lemma retire_loop_moves names count (d : disk) :
  script d = [] -> n ∈ names -> ceqb (deref n) "." = false -> unmoved (files d) ->
  moved (files (snd (nsm_retire_loop base names count d))).
Proof.
  intros Hs Hin Hdot. revert count d Hs; induction names as [|n' names IH]; intros count d Hs Hm; [by apply elem_of_nil in Hin|].
  cbn [nsm_retire_loop]. destruct (decide (n' = n)) as [->|Hn].
  - rewrite Hdot, Hsrc, bind_run, sys_stat_run. destruct (after_read_fine d Hs) as [Hs1 ->]. cbn [fst snd].
    rewrite Hm, Hdst. cbn [fmap option_fmap option_map]. rewrite bind_run. unfold sys_rename. rewrite syscall_run.
    destruct (after_read_fine _ Hs1) as [Hs2 ->]. cbn [fst snd after_read files script history]. rewrite Hm. cbn [fst snd].
    apply (retire_loop_safe moved); [by left|]. cbn [files].
    destruct (rename_other n src dst (files d) c Hsrc Hdst Hm) as [(_ & _ & _ & H)|[? _]]; [by apply H|done].
  - assert (n ∈ names) as Hin' by set_solver. specialize (IH Hin').
    case_if; [by apply IH|]. destruct (nsm_make_record_pathname base NSM_MONITOR_DIR n') as [s'|] eqn:Es; [|by apply IH].
    rewrite bind_run, sys_stat_run. destruct (after_read_fine d Hs) as [Hs1 ->]. cbn [fst snd].
    destruct (files d !! s') as [c'|] eqn:Em; cbn [fmap option_fmap option_map]; [|by apply IH].
    destruct (nsm_make_record_pathname base NSM_NOTIFY_DIR n') as [d'|] eqn:Ed; [|by apply IH].
    rewrite bind_run. unfold sys_rename. rewrite syscall_run.
    destruct (after_read_fine _ Hs1) as [Hs2 ->]. cbn [fst snd after_read files script history]. rewrite Em. cbn [fst snd].
    apply IH; cbn [script files]; [by rewrite Hs|].
    destruct (rename_other n' s' d' (files d) c' Es Ed Em) as [(? & _)|(_ & H & _)]; [done|by apply H].
Qed.
End retire.

(** C28. Retiring the monitor list never loses a host: whatever calls fail and
    wherever the machine stops, each record of "sm" is still there or is in
    "sm.bak" under the same name; and without failures every record that the
    directory lists is moved. *)
Theorem nsm_retire_no_loss base n src dst c names (d : disk) :
  nsm_make_record_pathname base NSM_MONITOR_DIR n = Some src ->
  nsm_make_record_pathname base NSM_NOTIFY_DIR n = Some dst ->
  files d !! src = Some c ->
  let '(_, d') := nsm_retire_monitored_hosts base (Some names) d in
  (exists h, history d' = history d ++ h /\
     Forall (fun m => m !! src = Some c \/ m !! src = None /\ m !! dst = Some c) (files d' :: h)) /\
  (script d = [] -> n ∈ names -> deref n <> "."%char -> nsm_make_pathname base NSM_MONITOR_DIR <> None ->
   files d' !! src = None /\ files d' !! dst = Some c).
Proof.
  intros Hs Hd Hc. unfold nsm_retire_monitored_hosts.
  destruct (nsm_make_pathname base NSM_MONITOR_DIR).
  2: { cbn. split; [|done]. exists []. rewrite app_nil_r. split; [done|]. constructor; [by left|done]. }
  pose proof (retire_loop_safe base n src dst c Hs Hd _ names 0 (or_intror eq_refl) d (or_introl Hc)) as (HQ & h & Eh & F).
  pose proof (retire_loop_moves base n src dst c Hs Hd names 0 d) as Hm.
  destruct (nsm_retire_loop base names 0 d) as [k d']. split.
  - exists h. split; [done|]. by constructor.
  - intros H1 H2 H3%ceqb_false _. by apply Hm.
Qed.

(** A disk without errors stays so. *)
Definition keeps_fine {A : Type} (c : dM A) : Prop := forall d, script d = [] -> script (snd (c d)) = [].

Lemma kf_ret {A : Type} (a : A) : keeps_fine (mret a).
Proof. by intros d Hd. Qed.

Lemma kf_bind {A B : Type} (c : dM A) (k : A -> dM B) : keeps_fine c -> (forall a, keeps_fine (k a)) -> keeps_fine (c ≫= k).
Proof. intros Hc Hk d Hd. rewrite bind_run. by apply Hk, Hc. Qed.

Lemma kf_syscall {A : Type} (f : outcome -> fmap_t -> A * fmap_t) : keeps_fine (syscall f).
Proof. intros d Hd. rewrite syscall_run. cbn. by rewrite Hd. Qed.

Lemma retire_loop_fine base names count : keeps_fine (nsm_retire_loop base names count).
Proof.
  revert count; induction names as [|n names IH]; intros count; cbn [nsm_retire_loop]; [apply kf_ret|].
  case_if; [apply IH|]. destruct (nsm_make_record_pathname _ _ _); [|apply IH].
  apply kf_bind; [apply kf_syscall|]. intros [?|]; [|apply IH]. destruct (nsm_make_record_pathname _ _ _); [|apply IH].
  apply kf_bind; [apply kf_syscall|]. intros; apply IH.
Qed.

Lemma nsm_load_host_reads base directory n (d : disk) :
  script d = [] -> files (snd (nsm_load_host base directory n d)) = files d /\
  script (snd (nsm_load_host base directory n d)) = [].
Proof.
  intros Hs. unfold nsm_load_host. destruct (nsm_make_record_pathname _ _ _) as [p|]; [|done].
  rewrite bind_run, sys_stat_run. destruct (after_read_fine d Hs) as [Hs1 ->]. cbn [fst snd].
  destruct (length <$> _); [|done]. rewrite bind_run, sys_read_run. destruct (after_read_fine _ Hs1) as [Hs2 ->]. cbn [fst snd].
  by destruct (files (after_read d) !! p).
Qed.

Lemma nsm_load_loop_all base directory names (rs : cstr -> list mon) (d : disk) :
  script d = [] ->
  Forall (fun n => deref n <> "."%char /\ Forall rec_ok (rs n) /\
                   exists p, nsm_make_record_pathname base directory n = Some p /\ files d !! p = host_file (rs n)) names ->
  fst (nsm_load_loop base directory names d) = Some (concat (map (fun n => pair n <$> rs n) names)).
Proof.
  revert d; induction names as [|n names IH]; intros d Hs Hn; [done|].
  apply Forall_cons in Hn as [(Hdot & Hr & p & Hp & Hf) Hn]. cbn [nsm_load_loop].
  rewrite (proj2 (ceqb_false _ _) Hdot), !bind_run. cbn [fst mret dM_ret].
  destruct (nsm_load_host_reads base directory n d Hs) as [Ef Es].
  rewrite (nsm_load_host_file base directory n p (rs n)) by done. rewrite IH; [done|done|]. by rewrite Ef.
Qed.

(** A reboot forgets no peer: when the files of "sm" hold the records [rs n] of
    the hosts [n] the directory lists and no call fails, moving them to "sm.bak"
    and loading the notify list gives every record of every host. *)
Theorem nsm_reboot_notifies_all base names (rs : cstr -> list mon) (d : disk) :
  nsm_make_pathname base NSM_NOTIFY_DIR <> None -> script d = [] ->
  Forall (fun n => deref n <> "."%char /\ rs n <> [] /\ Forall rec_ok (rs n) /\
                   nsm_make_record_pathname base NSM_NOTIFY_DIR n <> None /\
                   exists p, nsm_make_record_pathname base NSM_MONITOR_DIR n = Some p /\ files d !! p = host_file (rs n)) names ->
  let d' := snd (nsm_retire_monitored_hosts base (Some names) d) in
  fst (nsm_load_notify_list base (Some names) d') = Some (concat (map (fun n => pair n <$> rs n) names)).
Proof.
  intros Hb Hs Hn. unfold nsm_retire_monitored_hosts, nsm_load_notify_list, nsm_load_dir.
  assert (nsm_make_pathname base NSM_MONITOR_DIR <> None) as Hm.
  { unfold nsm_make_pathname in *. intros E. apply Hb. destruct (_ >? _) eqn:E1 in E; [|done]. btrue.
    assert (Z.of_nat (length base + length NSM_NOTIFY_DIR) + 2 >? PATH_MAX = true) as ->; [|done].
    apply Z.gtb_lt. cbn [length NSM_NOTIFY_DIR NSM_MONITOR_DIR String.list_ascii_of_string] in *. lia. }
  destruct (nsm_make_pathname base NSM_MONITOR_DIR); [|done]. destruct (nsm_make_pathname base NSM_NOTIFY_DIR); [|done].
  apply nsm_load_loop_all; [by apply retire_loop_fine|]. rewrite Forall_forall in *. intros n Hin.
  destruct (Hn n Hin) as (Hdot & Hne & Hr & Hdst & p & Hp & Hf). split_and!; [done..|].
  destruct (nsm_make_record_pathname base NSM_NOTIFY_DIR n) as [q|] eqn:Hq; [|done]. exists q. split; [done|].
  rewrite host_file_cons in * by done. eapply (retire_loop_moves base n p q _ Hp Hq); [done..|by apply ceqb_false|done].
Qed.

(** ** What the failures cost *)

(** A read error is taken for the end of the file: when the read of a host's
    file fails after its first records, deleting one of them rewrites the file
    without the records that were not read. *)
Theorem nsm_delete_host_read_error base hostname p ms1 ms2 mon_n my_n (d : disk) :
  nsm_make_record_pathname base NSM_MONITOR_DIR hostname = Some p -> Z.of_nat (length p) + 7 <= PATH_MAX ->
  Forall rec_ok ms1 -> kept mon_n my_n ms1 <> [] -> files d !! p = host_file (ms1 ++ ms2) ->
  script d = [Fine; Short (length (file_of ms1))] ->
  files (snd (nsm_delete_monitored_host base hostname mon_n my_n d)) !! p = host_file (kept mon_n my_n ms1).
Proof.
  intros Hp Ht Hms Hk Hf Hs. assert (ms1 <> []) as Hne by (by intros ->).
  rewrite host_file_cons in Hf by (by destruct ms1). unfold nsm_delete_monitored_host, nsm_delete_host.
  assert (next_outcome d = Fine) as O1 by (unfold next_outcome; by rewrite Hs).
  assert (next_outcome (after_read d) = Short (length (file_of ms1))) as O2 by (unfold next_outcome; cbn; by rewrite Hs).
  rewrite Hp, bind_run, sys_stat_run, O1, Hf. cbn [fst snd fmap option_fmap option_map].
  rewrite bind_run, sys_read_run, O2. change (files (after_read d)) with (files d). rewrite Hf.
  cbn [fst snd fmap option_fmap option_map].
  assert (file_of (ms1 ++ ms2) = file_of ms1 ++ file_of ms2) as -> by (unfold file_of; by rewrite map_app, concat_app).
  rewrite take_app_length, delete_loop_file; [|done|apply file_of_length|rewrite length_app; lia].
  destruct (file_of (kept mon_n my_n ms1)) as [|c out] eqn:Eo; [by apply file_of_nil in Eo|]. cbv beta iota. rewrite <- Eo, bind_run.
  cbn [snd mret dM_ret]. match goal with |- context [nsm_atomic_write p ?b ?d2] => pose proof (nsm_atomic_write_fine p b d2) as Hw;
    destruct (nsm_atomic_write p b d2) as [ok d'] end.
  cbn in *. rewrite Hs in Hw. destruct Hw as (_ & _ & ->); [done|done|]. by rewrite lookup_insert_eq, host_file_cons.
Qed.

(** The temporary name of a host's file is the file of another host: adding a
    record to the host "h", which has records, removes the file of the host
    named "h.new". *)
Theorem nsm_insert_temp_collision base hostname p p' ms m (d : disk) :
  nsm_make_record_pathname base NSM_MONITOR_DIR hostname = Some p ->
  nsm_make_record_pathname base NSM_MONITOR_DIR (hostname ++ $".new") = Some p' ->
  Z.of_nat (length p) + 7 <= PATH_MAX -> rec_ok m -> ms <> [] ->
  script d = [] -> files d !! p = host_file ms ->
  let '(ok, d') := nsm_insert_monitored_host base hostname m d in ok = true /\ files d' !! p' = None.
Proof.
  intros Hp Hp' Ht Hm Hne Hs Hf. rewrite host_file_cons in Hf by done.
  unfold nsm_insert_monitored_host. rewrite Hp, create_record by done. rewrite bind_run, (sys_create_excl_exists p _ d Hf).
  destruct (after_read_fine d Hs) as [Hs1 ->]. cbn [fst snd].
  pose proof (nsm_append_fine base hostname p Hp Ht _ (record_text m) (after_read d) Hs1 Hf) as H.
  destruct (nsm_append_monitored_host _ _ _) as [ok d']. destruct H as (-> & _ & ->). split; [done|].
  assert (p' = p ++ $".new") as ->.
  { apply record_pathname_inv in Hp as ->. apply record_pathname_inv in Hp' as ->. by rewrite <- !app_assoc. }
  rewrite lookup_insert_ne, lookup_delete_eq; [done|]. intros H%(f_equal length). rewrite length_app in H. cbn in H. lia.
Qed.

(** ** Witnesses *)

Lemma nsm_record_round_trip_witness :
  nsm_parse_line (record_text (mon_ex $"peer")) = ParseTrue (mon_ex $"peer").
Proof.
  apply (nsm_record_round_trip (mon_ex $"peer") BUFLEN); [|vm_compute; reflexivity].
  by apply mon_ex_ok.
Defined.

Definition ops_ex : list host_op := [OpInsert (mon_ex $"a"); OpInsert (mon_ex $"b"); OpDelete $"a" $"me"].

Lemma nsm_host_store_refines_witness :
  let d' := foldl (run_op base_ex $"peer") (disk_ex [] []) ops_ex in
  fst (nsm_load_host base_ex NSM_MONITOR_DIR $"peer" d') = Some [mon_ex $"b"].
Proof.
  refine (proj2 (nsm_host_store_refines base_ex $"peer" $"/var/lib/nfs/sm/peer" ops_ex [] (disk_ex [] []) _ _ _ _ _ _));
    [reflexivity|vm_compute; discriminate| |constructor|reflexivity|reflexivity].
  repeat constructor; by apply mon_ex_ok.
Defined.

Lemma nsm_delete_host_crash_safe_witness :
  fst (nsm_delete_host base_ex NSM_MONITOR_DIR $"peer" $"a" $"me"
         (disk_ex [($"peer", [mon_ex $"a"; mon_ex $"b"])] [Fine; Fine; Fails])) = Some tt.
Proof.
  destruct (nsm_delete_host_crash_safe base_ex NSM_MONITOR_DIR $"peer" $"/var/lib/nfs/sm/peer" [mon_ex $"a"; mon_ex $"b"]
    $"a" $"me" (disk_ex [($"peer", [mon_ex $"a"; mon_ex $"b"])] [Fine; Fine; Fails])) as (d' & h & E & _).
  - reflexivity.
  - repeat constructor; by apply mon_ex_ok.
  - vm_compute; reflexivity.
  - intros n; discriminate.
  - rewrite E. reflexivity.
Defined.

Lemma nsm_insert_monitored_host_crash_safe_witness :
  let '(ok, d') := nsm_insert_monitored_host base_ex $"peer" (mon_ex $"b")
                     (disk_ex [($"peer", [mon_ex $"a"])] [Fine; Fine; Fine; Fine; Short 3]) in
  ok = true -> files d' !! $"/var/lib/nfs/sm/peer" = host_file [mon_ex $"a"; mon_ex $"b"].
Proof.
  pose proof (nsm_insert_monitored_host_crash_safe base_ex $"peer" $"/var/lib/nfs/sm/peer" [mon_ex $"a"] (mon_ex $"b")
    (disk_ex [($"peer", [mon_ex $"a"])] [Fine; Fine; Fine; Fine; Short 3])) as H.
  destruct (nsm_insert_monitored_host _ _ _ _) as [ok d']. apply H; [reflexivity|by apply mon_ex_ok|vm_compute; reflexivity].
Defined.

(** A disk with the state file. *)
Definition state_ex (s : Z) (o : list outcome) : disk := Disk {[ $"/var/lib/nfs/state" := int_bytes s ]} o [].

Lemma nsm_get_state_odd_witness :
  let '(r, _) := nsm_get_state base_ex true (state_ex 8 [Short 2; Fine; Fails]) in r = 0 \/ Z.odd r = true.
Proof.
  pose proof (nsm_get_state_odd base_ex $"/var/lib/nfs/state" true (state_ex 8 [Short 2; Fine; Fails])) as H.
  destruct (nsm_get_state _ _ _) as [r d']. apply H. reflexivity.
Defined.

Lemma nsm_get_state_advances_witness :
  let '(r, d') := nsm_get_state base_ex true (state_ex 257 []) in
  r = 259 /\ files d' !! $"/var/lib/nfs/state" = Some (int_bytes 259) \/
  r = 0 /\ files d' !! $"/var/lib/nfs/state" = Some (int_bytes 257).
Proof.
  pose proof (nsm_get_state_advances base_ex $"/var/lib/nfs/state" 257 (state_ex 257 [])) as H.
  destruct (nsm_get_state _ _ _) as [r d']. apply H; try reflexivity; intros; discriminate.
Defined.

Lemma nsm_retire_no_loss_witness :
  let '(_, d') := nsm_retire_monitored_hosts base_ex (Some [$"."; $".."; $"peer"]) (disk_ex [($"peer", [mon_ex $"a"])] []) in
  files d' !! $"/var/lib/nfs/sm/peer" = None /\ files d' !! $"/var/lib/nfs/sm.bak/peer" = Some (file_of [mon_ex $"a"]).
Proof.
  pose proof (nsm_retire_no_loss base_ex $"peer" $"/var/lib/nfs/sm/peer" $"/var/lib/nfs/sm.bak/peer" (file_of [mon_ex $"a"])
    [$"."; $".."; $"peer"] (disk_ex [($"peer", [mon_ex $"a"])] [])) as H.
  destruct (nsm_retire_monitored_hosts _ _ _) as [k d']. apply H; try reflexivity; try discriminate; set_solver.
Defined.

Lemma nsm_delete_host_read_error_witness :
  files (snd (nsm_delete_monitored_host base_ex $"peer" $"a" $"me"
    (disk_ex [($"peer", [mon_ex $"a"; mon_ex $"b"; mon_ex $"c"])] [Fine; Short (length (file_of [mon_ex $"a"; mon_ex $"b"]))])))
  !! $"/var/lib/nfs/sm/peer" = host_file [mon_ex $"b"].
Proof.
  refine (nsm_delete_host_read_error base_ex $"peer" $"/var/lib/nfs/sm/peer" [mon_ex $"a"; mon_ex $"b"] [mon_ex $"c"] $"a" $"me"
    (disk_ex [($"peer", [mon_ex $"a"; mon_ex $"b"; mon_ex $"c"])] [Fine; Short (length (file_of [mon_ex $"a"; mon_ex $"b"]))])
    _ _ _ _ _ _); [reflexivity|vm_compute; discriminate| |discriminate|vm_compute; reflexivity|reflexivity].
  repeat constructor; by apply mon_ex_ok.
Defined.

Lemma nsm_insert_temp_collision_witness :
  let '(ok, d') := nsm_insert_monitored_host base_ex $"peer" (mon_ex $"b")
                     (disk_ex [($"peer", [mon_ex $"a"]); ($"peer.new", [mon_ex $"c"])] []) in
  ok = true /\ files d' !! $"/var/lib/nfs/sm/peer.new" = None.
Proof.
  refine (nsm_insert_temp_collision base_ex $"peer" $"/var/lib/nfs/sm/peer" $"/var/lib/nfs/sm/peer.new" [mon_ex $"a"] (mon_ex $"b")
    (disk_ex [($"peer", [mon_ex $"a"]); ($"peer.new", [mon_ex $"c"])] []) _ _ _ _ _ _ _);
    [reflexivity|reflexivity|vm_compute; discriminate|by apply mon_ex_ok|discriminate|reflexivity|vm_compute; reflexivity].
Defined.

Lemma nsm_reboot_notifies_all_witness :
  let d' := snd (nsm_retire_monitored_hosts base_ex (Some [$"p"; $"q"])
                   (disk_ex [($"p", [mon_ex $"p"]); ($"q", [mon_ex $"q"])] [])) in
  fst (nsm_load_notify_list base_ex (Some [$"p"; $"q"]) d') = Some [($"p", mon_ex $"p"); ($"q", mon_ex $"q")].
Proof.
  refine (nsm_reboot_notifies_all base_ex [$"p"; $"q"] (fun n => [mon_ex n])
            (disk_ex [($"p", [mon_ex $"p"]); ($"q", [mon_ex $"q"])] []) _ eq_refl _); [discriminate|].
  apply Forall_cons. split; [|apply Forall_singleton];
    (split_and!; [discriminate|discriminate|by constructor; [apply mon_ex_ok|]|discriminate|];
     eexists; split; [reflexivity|vm_compute; reflexivity]).
Defined.
