(* ===== verification/Xio.v ===== *)
(** * Reading export files (support/nfs/xio.c, getexportent of support/nfs/exports.c)

    The file is the text still to be read and a line number.  A token goes to a
    buffer of a fixed size; writing behind its end is recorded.  [getexportent]
    keeps the entry it returns and the defaults of the line in static storage;
    its local buffer is not initialised, so its contents are an argument. *)

From S2P Require Import Prelude Exports ExportsRT.

Record xfile := XFile { x_fp : cstr; x_line : Z }.

(** [None] is EOF.  A backslash before a newline joins the next line. *)
Definition xgetc (x : xfile) : option ascii * xfile :=
  match x_fp x with
  | [] => (None, x)
  | c :: s =>
      if ceqb c BSLASH then
        if ceqb (deref s) NL then (Some SP, XFile (skip_while isblank (advance 1 s)) (x_line x + 1))
        else (Some BSLASH, XFile s (x_line x))
      else (Some c, XFile s (if ceqb c NL then x_line x + 1 else x_line x))
  end.

Definition xungetc (c : option ascii) (x : xfile) : xfile :=
  match c with
  | None => x
  | Some c => XFile (c :: x_fp x) (if ceqb c NL then x_line x - 1 else x_line x)
  end.

Definition xskipcomment (x : xfile) : option ascii * xfile :=
  match snd (span (fun c => negb (ceqb c NL)) (x_fp x)) with
  | [] => (None, XFile [] (x_line x))
  | c :: s => (Some c, XFile s (x_line x))
  end.

(** [strchr(str, c) != NULL]: the terminator counts. *)
Definition in_str (str : cstr) (c : ascii) : bool := existsb (ceqb c) str || ceqb c NUL.

Fixpoint xskip_loop (fuel : nat) (str : cstr) (x : xfile) : xfile :=
  match fuel with
  | O => x
  | S fuel =>
      match xgetc x with
      | (None, x) => x
      | (Some c, x) =>
          match (if ceqb c "#" then xskipcomment x else (Some c, x)) with
          | (None, x) => x
          | (Some c, x) => if in_str str c then xskip_loop fuel str x else xungetc (Some c) x
          end
      end
  end.
Definition xskip (str : cstr) (x : xfile) : xfile := xskip_loop (S (length (x_fp x))) str x.

(** ** Tokens *)

Definition isoctal (c : ascii) : bool := isdigit c && (schar c <? 56).

(** After a byte was stored: an octal escape at the end of the token becomes its
    byte.  The terminator written for [strtol] goes to index [length tok]. *)
Definition unescape (len : Z) (tok : cstr) (c : ascii) (over : bool) : cstr * ascii * bool :=
  let i := length tok in
  match drop (i - 4) tok with
  | [b; x; y; z] =>
      if ceqb b BSLASH && isoctal x && isoctal y && isoctal z then
        let over := over || (Z.of_nat i >=? len) in
        let v := st_value (strtol 8 [x; y; z]) in
        if v <? 256 then (take (i - 4) tok ++ [chr v], chr v, over) else (tok, c, over)
      else (tok, c, over)
  | _ => (tok, c, over)
  end.

Record token := Token { g_tok : cstr; g_c : option ascii; g_over : bool; g_file : xfile }.

Fixpoint gettok_loop (fuel : nat) (sepa : ascii) (len : Z) (tok : cstr) (c : option ascii) (quoted over : bool) (x : xfile)
  : token :=
  match fuel with
  | O => Token tok c over x
  | S fuel =>
      if Z.of_nat (length tok) <? len then
        match xgetc x with
        | (None, x) => Token tok None over x
        | (Some c, x) =>
            if quoted || (negb (ceqb c sepa) && negb (isspace c)) then
              if ceqb c DQUOTE then gettok_loop fuel sepa len tok (Some c) (negb quoted) over x
              else let '(tok, c, over) := unescape len (tok ++ [c]) c over in
                   gettok_loop fuel sepa len tok (Some c) quoted over x
            else Token tok (Some c) over x
        end
      else Token tok c over x
  end.

(** The result: its value, the token, whether the buffer was overrun, the file. *)
Record gettok := GetTok { gt_ret : Z; gt_tok : cstr; gt_over : bool; gt_file : xfile }.

Definition xgettok (x : xfile) (sepa : ascii) (len : Z) : gettok :=
  let t := gettok_loop (S (length (x_fp x))) sepa len [] (Some NUL) false false x in
  let x := if bool_decide (g_c t = Some NL) then xungetc (g_c t) (g_file t) else g_file t in
  let ret := if bool_decide (g_tok t = []) then 0
             else if (Z.of_nat (length (g_tok t)) >=? len) || (negb (ceqb sepa NUL) && negb (bool_decide (g_c t = Some sepa)))
             then -1 else 1 in
  GetTok ret (g_tok t) (g_over t) x.

Definition getpath (x : xfile) (len : Z) : gettok := xgettok (xskip [SP; TAB; NL] x) NUL len.
Definition getexport (x : xfile) (len : Z) : gettok := xgettok (xskip [SP; TAB] x) NUL len.

(** ** Entries *)

(** The static variables of exports.c. *)
Record efile := EFile
  { efp : option xfile; first : bool; has_default_opts : bool; has_default_subtree_opts : bool; def_ee : exportent }.

(** [GotUndef]: a buffer is overrun, or the entry keeps id lists that
    [freesquash] has freed. *)
Inductive got := Got (ee : exportent) | GotNull | GotUndef.

Definition set_hostname (ee : exportent) (h : option cstr) : exportent :=
  Ent h (e_path ee) (e_flags ee) (e_anonuid ee) (e_anongid ee) (e_squids ee) (e_sqgids ee)
    (e_fsid ee) (e_mountpoint ee) (e_fslocmethod ee) (e_fslocdata ee) (e_uuid ee) (e_secinfo ee)
    (e_xprtsec ee) (e_ttl ee) (e_realpath ee) (e_reexport ee) (e_fsid_value ee).
Definition set_path (ee : exportent) (p : cstr) : exportent :=
  Ent (e_hostname ee) p (e_flags ee) (e_anonuid ee) (e_anongid ee) (e_squids ee) (e_sqgids ee)
    (e_fsid ee) (e_mountpoint ee) (e_fslocmethod ee) (e_fslocdata ee) (e_uuid ee) (e_secinfo ee)
    (e_xprtsec ee) (e_ttl ee) (e_realpath ee) (e_reexport ee) (e_fsid_value ee).

Definition setexportent (st : efile) (file : option cstr) : efile :=
  EFile ((fun s => XFile s 1) <$> file) true (has_default_opts st) (has_default_subtree_opts st) (def_ee st).

Section getexportent.
  (** As in [Exports], and [realpath] of the C library. *)
  Context (secinfo_flags : Z) (fsidnum_by_path : cstr -> bool -> option Z) (realpath : cstr -> option cstr).

(** The client word: what stands before the parenthesis and inside it, [None]
    for a bad option list. *)
Definition split_client (exp : cstr) : option (cstr * option cstr) :=
  match strchr "(" exp with
  | None => Some (exp, None)
  | Some (h, opt) =>
      match strchr ")" opt with
      | Some (o, []) => Some (match h with [] => $"*" | _ => h end, Some o)
      | _ => None
      end
  end.

(** From [ee = def_ee] on. *)
Definition client_entry (ee : exportent) (exp : cstr) : got :=
  match split_client exp with
  | None => GotNull
  | Some (hostname, opt) =>
      match parseopts secinfo_flags fsidnum_by_path opt (set_hostname ee (Some hostname)) with
      | inr _ => GotNull
      | inl (ee, _) =>
          match realpath (e_path ee) with
          | Some rpath => Got (set_path ee (take 1024 rpath))
          | None => Got ee
          end
      end
  end.

Definition has_ids (ee : exportent) : bool := negb (bool_decide (e_squids ee = [])) || negb (bool_decide (e_sqgids ee = [])).

(** Behind the reading of the first word: default options, then the client.
    [stale]: the id lists of [def_ee] have been freed. *)
Definition line_entry (st : efile) (x : xfile) (fromkernel stale : bool) (ok : Z) (exp : cstr) : got * efile :=
  let with_file x st := EFile (Some x) false (has_default_opts st) (has_default_subtree_opts st) (def_ee st) in
  if ceqb (deref exp) "-" && negb fromkernel then
    if stale then (GotUndef, with_file x st)
    else match parseopts secinfo_flags fsidnum_by_path (Some (advance 1 exp)) (def_ee st) with
    | inr d => (GotNull, EFile (Some x) false (has_default_opts st) (has_default_subtree_opts st) d)
    | inl (d, sub) =>
        let st := EFile (Some x) false true sub d in
        let t := getexport x 512 in
        if gt_over t then (GotUndef, st)
        else if gt_ret t <? 0 then (GotNull, with_file (gt_file t) st)
        else (client_entry d (if gt_ret t =? 0 then [] else gt_tok t), with_file (gt_file t) st)
    end
  else if stale then (GotUndef, with_file x st)
  else (client_entry (def_ee st) (if ok =? 0 then [] else exp), with_file x st).

(** [stack]: what the buffer [exp] holds when nothing was stored in it. *)
Definition getexportent (st : efile) (stack : cstr) (fromkernel : bool) : got * efile :=
  match efp st with
  | None => (GotNull, st)
  | Some x =>
      let t := getexport x 512 in
      if negb (first st) && gt_over t then (GotUndef, st)
      else if first st || (gt_ret t =? 0) then
        let x := if first st then x else gt_file t in
        let d := init_exportent (def_ee st) fromkernel in
        let p := getpath x 1025 in
        if gt_over p then (GotUndef, st)
        else if gt_ret p <=? 0 then (GotNull, EFile (Some (gt_file p)) (first st) false false d)
        else
          let st := EFile (Some (gt_file p)) (first st) false false (set_path d (gt_tok p)) in
          let t := getexport (gt_file p) 512 in
          if gt_over t then (GotUndef, st)
          else if gt_ret t <? 0 then (GotNull, EFile (Some (gt_file t)) (first st) false false (def_ee st))
          else line_entry st (gt_file t) fromkernel false (gt_ret t) (if gt_ret t =? 0 then stack else gt_tok t)
      else if gt_ret t <? 0 then
        (GotNull, EFile (Some (gt_file t)) (first st) (has_default_opts st) (has_default_subtree_opts st) (def_ee st))
      else line_entry st (gt_file t) fromkernel (has_ids (def_ee st)) (gt_ret t) (gt_tok t)
  end.

(** [while ((xp = getexportent(...)) != NULL)]: the entries, [None] if undefined. *)
Fixpoint read_entries (fuel : nat) (st : efile) (stack : cstr) (fromkernel : bool) : option (list exportent) :=
  match fuel with
  | O => None
  | S fuel =>
      match getexportent st stack fromkernel with
      | (Got ee, st) => (fun l => ee :: l) <$> read_entries fuel st stack fromkernel
      | (GotNull, _) => Some []
      | (GotUndef, _) => None
      end
  end.

Definition read_file (def : exportent) (file : option cstr) (stack : cstr) (fromkernel : bool) : option (list exportent) :=
  read_entries (S (length (default [] file))) (setexportent (EFile None true false false def) file) stack fromkernel.
End getexportent.

(** ** Tokens: what [fprintpath] writes is read back *)

(** A backslash with three octal digits behind it, anywhere in the text. *)
Fixpoint has_escape (s : cstr) : bool :=
  match s with
  | [] => false
  | b :: r => match r with
              | x :: y :: z :: _ => ceqb b BSLASH && isoctal x && isoctal y && isoctal z
              | _ => false
              end || has_escape r
  end.

Lemma has_escape_mid a b x y z rest :
  ceqb b BSLASH && isoctal x && isoctal y && isoctal z = true -> has_escape (a ++ b :: x :: y :: z :: rest) = true.
Proof.
  intros H. induction a as [|c a IH].
  - cbn [app has_escape]. by rewrite H.
  - rewrite <- app_comm_cons. cbn [has_escape]. by rewrite IH, orb_true_r.
Qed.

Lemma unescape_none len tok c over rest : has_escape (tok ++ rest) = false -> unescape len tok c over = (tok, c, over).
Proof.
  intros H. unfold unescape. pose proof (take_drop (length tok - 4) tok) as E.
  destruct (drop (length tok - 4) tok) as [|b [|x [|y [|z [|? ?]]]]]; try done.
  destruct (_ && isoctal x && _ && _) eqn:Hp; [|done].
  rewrite <- E, <- app_assoc in H. cbn in H. by rewrite (has_escape_mid _ _ _ _ _ rest Hp) in H.
Qed.

(** The escape of a byte that [fprintpath] does not print as it is. *)
Definition escaped (c : ascii) : bool := iscntrl c || ceqb c DQUOTE || ceqb c BSLASH || ceqb c "#" || isspace c.

Lemma path_char_cases c : path_char c = if escaped c then BSLASH :: pad0 3 (utoa 8 (uchar c)) else [c].
Proof. done. Qed.

Lemma escape_digits c : escaped c = true ->
  exists x y z, path_char c = [BSLASH; x; y; z] /\ isoctal x && isoctal y && isoctal z = true /\
    st_value (strtol 8 [x; y; z]) = uchar c.
Proof.
  revert c. assert (forall c, match escaped c with
    | false => True
    | true => match path_char c with
              | [b; x; y; z] => b = BSLASH /\ isoctal x && isoctal y && isoctal z = true /\ st_value (strtol 8 [x; y; z]) = uchar c
              | _ => False
              end end) as H.
  { intros c. all_chars c; vm_compute; auto. }
  intros c Hc. specialize (H c). rewrite Hc in H. destruct (path_char c) as [|b [|x [|y [|z [|]]]]]; try done.
  destruct H as (-> & ? & ?). eauto 10.
Qed.

Lemma plain_word c : escaped c = false -> c <> NUL ->
  ceqb c BSLASH = false /\ ceqb c NL = false /\ ceqb c NUL = false /\ isspace c = false /\ ceqb c DQUOTE = false /\ ceqb c "#" = false.
Proof.
  intros H Hn. unfold escaped in H. rewrite !orb_false_iff in H. destruct H as ((((H1 & H2) & H3) & H4) & H5).
  split_and!; try done; apply ceqb_false; try done. intros ->. vm_compute in H5. discriminate.
Qed.

Section token_steps.
  Context (len ln : Z).

Lemma xgetc_plain c s : ceqb c BSLASH = false -> ceqb c NL = false -> xgetc (XFile (c :: s) ln) = (Some c, XFile s ln).
Proof. intros H1 H2. unfold xgetc. cbn [x_fp]. by rewrite H1, H2. Qed.

Lemma xgetc_bslash c s : ceqb c NL = false -> xgetc (XFile (BSLASH :: c :: s) ln) = (Some BSLASH, XFile (c :: s) ln).
Proof. intros H. unfold xgetc. cbn [x_fp]. rewrite ceqb_refl. cbn [deref]. by rewrite H. Qed.

(** One byte that is read as it is and completes no escape. *)
Lemma gettok_char fuel t c c0 s s' over :
  xgetc (XFile s ln) = (Some c, XFile s' ln) -> isspace c = false -> ceqb c NUL = false -> ceqb c DQUOTE = false ->
  unescape len (t ++ [c]) c over = (t ++ [c], c, over) -> Z.of_nat (length t) < len ->
  gettok_loop (S fuel) NUL len t c0 false over (XFile s ln) = gettok_loop fuel NUL len (t ++ [c]) (Some c) false over (XFile s' ln).
Proof.
  intros Eg Hs Hn Hq Eu Hl. cbn [gettok_loop]. rewrite (proj2 (Z.ltb_lt _ _) Hl), Eg, Hs, Hn, Hq, Eu. done.
Qed.

Lemma drop_last4 {A} (t : list A) (w x y z : A) : drop (length (t ++ [w; x; y; z]) - 4) (t ++ [w; x; y; z]) = [w; x; y; z].
Proof. rewrite length_app. cbn [length]. replace (length t + 4 - 4)%nat with (length t) by lia. by rewrite drop_app_length. Qed.

(** The last byte of a token is no digit behind a backslash and two digits. *)
Lemma unescape_shape t c over :
  (match rev t with z :: y :: x :: _ => negb (ceqb x BSLASH && isoctal y && isoctal z) | _ => true end) || negb (isoctal c) = true ->
  unescape len (t ++ [c]) c over = (t ++ [c], c, over).
Proof.
  intros H. unfold unescape. pose proof (take_drop (length (t ++ [c]) - 4) (t ++ [c])) as E.
  destruct (drop _ _) as [|b [|x [|y [|z [|? ?]]]]]; try done.
  assert (t = take (length (t ++ [c]) - 4) (t ++ [c]) ++ [b; x; y] /\ c = z) as [Et ->].
  { change [b; x; y; z] with ([b; x; y] ++ [z]) in E. rewrite app_assoc in E. apply app_inj_tail in E as [E1 E2]. by rewrite E1. }
  rewrite Et, rev_app_distr in H. cbn in H. destruct (ceqb b BSLASH), (isoctal x), (isoctal y), (isoctal z); done.
Qed.

Lemma octal_word c : isoctal c = true ->
  ceqb c BSLASH = false /\ ceqb c NL = false /\ ceqb c NUL = false /\ isspace c = false /\ ceqb c DQUOTE = false.
Proof. all_chars c; vm_compute; intros; split_and!; congruence. Qed.

Lemma gettok_escaped fuel t c c0 s :
  escaped c = true -> Z.of_nat (length t) + 4 < len ->
  gettok_loop (4 + fuel) NUL len t c0 false false (XFile (path_char c ++ s) ln)
    = gettok_loop fuel NUL len (t ++ [c]) (Some c) false false (XFile s ln).
Proof.
  intros He Hl. destruct (escape_digits c He) as (x & y & z & -> & Hd & Hv).
  rewrite !andb_true_iff in Hd. destruct Hd as [[Hx Hy] Hz].
  destruct (octal_word x Hx) as (X1 & X2 & X3 & X4 & X5), (octal_word y Hy) as (Y1 & Y2 & Y3 & Y4 & Y5),
    (octal_word z Hz) as (Z1 & Z2 & Z3 & Z4 & Z5).
  change (4 + fuel)%nat with (S (S (S (S fuel)))). cbn [app].
  erewrite gettok_char; [|by apply xgetc_bslash|done..|apply unescape_shape; by rewrite orb_true_r|lia].
  erewrite gettok_char; [|by apply xgetc_plain|done..| |len].
  2:{ apply unescape_shape. rewrite rev_app_distr. cbn [rev app]. change (isoctal BSLASH) with false.
      destruct (rev t) as [|? [|? ?]]; rewrite ?andb_false_r; done. }
  erewrite gettok_char; [|by apply xgetc_plain|done..| |len].
  2:{ apply unescape_shape. rewrite !rev_app_distr. cbn [rev app]. change (isoctal BSLASH) with false.
      destruct (rev t); rewrite ?andb_false_r; done. }
  cbn [gettok_loop]. rewrite (proj2 (Z.ltb_lt _ _)) by len.
  rewrite (xgetc_plain z s Z1 Z2), Z3, Z4, Z5. cbn [orb andb negb].
  unfold unescape. rewrite <- !app_assoc. cbn [app]. rewrite drop_last4, ceqb_refl, Hx, Hy, Hz. cbn [andb].
  rewrite Hv. rewrite (proj2 (Z.ltb_lt _ _)) by (pose proof (uchar_range c); lia). rewrite chr_uchar.
  replace (Z.of_nat (length (t ++ [BSLASH; x; y; z])) >=? len) with false
    by (symmetry; rewrite Z.geb_leb; apply Z.leb_gt; len).
  replace (take _ _) with t; [done|].
  rewrite length_app. cbn [length]. replace (length t + 4 - 4)%nat with (length t) by lia. by rewrite take_app_length.
Qed.

Lemma last_from (c : ascii) p (c0 : option ascii) : from_option Some (Some c) (last p) = from_option Some c0 (last (c :: p)).
Proof. rewrite last_cons. by destruct (last p). Qed.

Lemma gettok_path p t fuel c0 s :
  has_escape (t ++ p) = false -> NUL ∉ p -> Forall (fun c => escaped c = false) p \/ Z.of_nat (length (t ++ p)) + 3 < len ->
  Z.of_nat (length (t ++ p)) <= len ->
  gettok_loop (length (fprintpath p) + fuel) NUL len t c0 false false (XFile (fprintpath p ++ s) ln)
    = gettok_loop fuel NUL len (t ++ p) (from_option Some c0 (last p)) false false (XFile s ln).
Proof.
  revert t c0. induction p as [|c p IH]; intros t c0 He Hn Hor Hl.
  { by rewrite app_nil_r. }
  change (fprintpath (c :: p)) with (path_char c ++ fprintpath p).
  rewrite <- app_assoc, length_app, <- Nat.add_assoc.
  apply not_elem_of_cons in Hn as [Hc Hn].
  assert (has_escape ((t ++ [c]) ++ p) = false) as He' by (by rewrite <- app_assoc).
  assert (Forall (fun c => escaped c = false) p \/ Z.of_nat (length ((t ++ [c]) ++ p)) + 3 < len) as Hor'.
  { destruct Hor as [Hf|Hf]; [left; by apply Forall_cons in Hf as [_ ?]|right; len]. }
  destruct (escaped c) eqn:Ec.
  - destruct Hor as [Hf|Hf]; [apply Forall_cons in Hf as [? _]; congruence|].
    destruct (escape_digits c Ec) as (x & y & z & E & _). replace (length (path_char c)) with 4%nat by (by rewrite E).
    rewrite gettok_escaped by (done || len). rewrite IH, <- app_assoc by (done || len). by rewrite (last_from c p c0).
  - destruct (plain_word c Ec) as (H1 & H2 & H3 & H4 & H5 & _); [done|]. rewrite path_char_cases, Ec. cbn [length app Nat.add].
    erewrite gettok_char; [|by apply xgetc_plain|done..|by apply (unescape_none _ _ _ _ p)|len].
    rewrite IH, <- app_assoc by (done || len). by rewrite (last_from c p c0).
Qed.
End token_steps.

(** What can be written as a word and read back into a buffer of [len] bytes. *)
Record word_ok (len : Z) (p : cstr) : Prop := WordOk
  { wd_nonempty : p <> []; wd_no_nul : NUL ∉ p; wd_no_escape : has_escape p = false;
    wd_fits : Z.of_nat (length p) < len; wd_room : Forall (fun c => escaped c = false) p \/ Z.of_nat (length p) + 3 < len }.

Definition blanks (str : cstr) : Prop := Forall (fun c => isspace c = true) str.

Lemma in_blanks str c : blanks str -> isspace c = false -> c <> NUL -> in_str str c = false.
Proof.
  intros Hb Hc Hn. unfold in_str. rewrite (proj2 (ceqb_false _ _) Hn), orb_false_r.
  apply not_true_iff_false. intros (d & Hd & E)%existsb_exists. apply ceqb_true in E as <-.
  unfold blanks in Hb. rewrite Forall_forall in Hb. apply list_elem_of_In, Hb in Hd. congruence.
Qed.

Lemma xskip_stay str c s s' ln :
  xgetc (XFile (c :: s) ln) = (Some c, XFile s' ln) -> c :: s = c :: s' -> ceqb c "#" = false -> ceqb c NL = false ->
  in_str str c = false -> xskip str (XFile (c :: s) ln) = XFile (c :: s) ln.
Proof.
  intros Eg Es Hh Hnl Hin. unfold xskip. cbn [x_fp length xskip_loop]. rewrite Eg, Hh, Hin. cbn [xungetc x_fp x_line].
  by rewrite Hnl, Es.
Qed.

Lemma xskip_word str len p s ln : word_ok len p -> blanks str ->
  xskip str (XFile (fprintpath p ++ s) ln) = XFile (fprintpath p ++ s) ln.
Proof.
  intros [Hne Hn _ _ _] Hb. destruct p as [|c p]; [done|]. apply not_elem_of_cons in Hn as [Hc _].
  change (fprintpath (c :: p)) with (path_char c ++ fprintpath p). rewrite <- app_assoc.
  destruct (escaped c) eqn:Ec.
  - destruct (escape_digits c Ec) as (x & y & z & -> & Hd & _). rewrite !andb_true_iff in Hd. destruct Hd as [[Hx _] _].
    destruct (octal_word x Hx) as (_ & Hnl & _). cbn [app].
    eapply xskip_stay; [by apply xgetc_bslash|done..|]. by apply in_blanks.
  - destruct (plain_word c Ec) as (H1 & H2 & H3 & H4 & _ & H6); [done|]. rewrite path_char_cases, Ec. cbn [app].
    eapply xskip_stay; [by apply xgetc_plain|done..|]. by apply in_blanks.
Qed.

Lemma gettok_word len p c s ln : word_ok len p -> isspace c = true ->
  xgettok (XFile (fprintpath p ++ c :: s) ln) NUL len = GetTok 1 p false (XFile (if ceqb c NL then c :: s else s) ln).
Proof.
  intros [Hne Hn He Hf Hr] Hc. unfold xgettok. cbn [x_fp].
  replace (S (length (fprintpath p ++ c :: s))) with (length (fprintpath p) + S (S (length s)))%nat by len.
  rewrite gettok_path by (done || (cbn [app]; lia)).
  cbn [gettok_loop app]. rewrite (proj2 (Z.ltb_lt _ _) Hf). unfold xgetc. cbn [x_fp].
  assert (ceqb c BSLASH = false) as -> by (apply ceqb_false; intros ->; discriminate).
  rewrite Hc, andb_false_r. cbn [orb g_c g_file g_tok g_over x_line x_fp].
  rewrite bool_decide_eq_false_2 by done. rewrite ceqb_refl. cbn [negb andb]. rewrite orb_false_r.
  replace (_ >=? len) with false by (symmetry; rewrite Z.geb_leb; apply Z.leb_gt; lia). f_equal.
  destruct (ceqb c NL) eqn:E.
  - apply ceqb_true in E as ->. rewrite bool_decide_eq_true_2 by done. cbn [xungetc x_fp x_line]. rewrite ceqb_refl. f_equal. lia.
  - rewrite bool_decide_eq_false_2; [done|]. intros [= ->]. by rewrite ceqb_refl in E.
Qed.

(** At the end of a line there is no word. *)
Lemma getexport_eol s ln len : 0 < len -> getexport (XFile (NL :: s) ln) len = GetTok 0 [] false (XFile (NL :: s) ln).
Proof.
  intros Hl. unfold getexport.
  assert (xskip [SP; TAB] (XFile (NL :: s) ln) = XFile (NL :: s) ln) as ->.
  { unfold xskip, xskip_loop. cbn -[Z.add Z.sub]. f_equal. lia. }
  unfold xgettok. cbn [x_fp length gettok_loop]. rewrite (proj2 (Z.ltb_lt _ _)) by (cbn; lia).
  assert (xgetc (XFile (NL :: s) ln) = (Some NL, XFile s (ln + 1))) as -> by done.
  change (isspace NL) with true. cbn -[Z.add Z.sub]. do 2 f_equal. lia.
Qed.

Lemma getpath_eof ln len : 0 < len -> gt_ret (getpath (XFile [] ln) len) = 0 /\ gt_over (getpath (XFile [] ln) len) = false.
Proof. intros Hl. unfold getpath, xgettok. cbn. rewrite (proj2 (Z.ltb_lt _ _)) by lia. done. Qed.

Lemma getpath_word len p c s ln : word_ok len p -> isspace c = true -> ceqb c NL = false ->
  getpath (XFile (fprintpath p ++ c :: s) ln) len = GetTok 1 p false (XFile s ln).
Proof.
  intros Hp Hc Hnl. unfold getpath. rewrite (xskip_word _ len) by first [done|repeat constructor]. by rewrite gettok_word, Hnl.
Qed.

Lemma xskip_nl s ln : xskip [SP; TAB; NL] (XFile (NL :: s) ln) = xskip [SP; TAB; NL] (XFile s (ln + 1)).
Proof. done. Qed.

(** ** A line of etab *)

Section lines.
  Context (m : Z) (db : cstr -> bool -> option Z) (realpath : cstr -> option cstr).

(** A client word [host(options)]. *)
Definition client_word (h opts : cstr) : cstr := h ++ "("%char :: opts ++ [")"%char].

(** An entry that [putexportent] can write on a line and [getexportent] can
    read: its path and its client word are readable words, the host has no
    parenthesis and does not look like default options, the path is the one
    [realpath] would give. *)
Record line_ok (ep : exportent) : Prop := LineOk
  { ln_printable : printable m ep; ln_path : word_ok 1025 (e_path ep); ln_realpath : e_realpath ep = None;
    ln_resolved : realpath (e_path ep) = None \/ realpath (e_path ep) = Some (e_path ep);
    ln_client : exists h opts, e_hostname ep = Some h /\ put_options m ep = Some opts /\ h <> [] /\
      deref h <> "-"%char /\ "("%char ∉ h /\ ")"%char ∉ opts /\
      Forall (fun c => escaped c = false) (client_word h opts) /\ word_ok 512 (client_word h opts) }.

(** The defaults of a file without default options. *)
Definition blank_def (d : exportent) : Prop := e_hostname d = None /\ e_fsid d = 0 /\ e_realpath d = None.

Definition at_line (d : exportent) (fst : bool) (s : cstr) (st : efile) : Prop :=
  exists ln, st = EFile (Some (XFile (if fst then s else NL :: s) ln)) fst false false d /\ blank_def d /\
             (fst = true \/ has_ids d = false).

Lemma client_entry_ok ep d :
  mask_ok m -> line_ok ep -> blank_def d ->
  exists h opts, e_hostname ep = Some h /\ put_options m ep = Some opts /\
    client_entry m db realpath (set_path (init_exportent d false) (e_path ep)) (client_word h opts) = Got ep.
Proof.
  intros Hm [Hp Hpath Hr Hres (h & opts & Eh & Eo & Hne & _ & H1 & H2 & _)] (D1 & D2 & D3).
  exists h, opts. split_and!; [done..|]. unfold client_entry, split_client, client_word. rewrite strchr_app by done.
  rewrite strchr_app by done.
  assert (match h with [] => $"*" | _ :: _ => h end = h) as -> by (by destruct h).
  destruct (put_parse_options m db ep opts Hm Hp Eo) as (hs & E).
  assert (set_hostname (set_path (init_exportent d false) (e_path ep)) (Some h) = start_entry ep) as ->.
  { unfold start_entry, init_exportent, set_hostname, set_path, set_fsid. cbn. by rewrite D2, D3, Eh, Hr. }
  rewrite E. destruct Hres as [->| ->]; [done|]. rewrite take_ge by (destruct Hpath; lia).
  f_equal. by destruct ep.
Qed.

Lemma putexportent_line ep text : line_ok ep -> putexportent m ep = Some text ->
  exists h opts, e_hostname ep = Some h /\ put_options m ep = Some opts /\ word_ok 512 (client_word h opts) /\
    deref (client_word h opts) <> "-"%char /\
    text = fprintpath (e_path ep) ++ TAB :: fprintpath (client_word h opts) ++ [NL].
Proof.
  intros [_ _ _ _ (h & opts & Eh & Eo & Hne & Hd & _ & _ & Hpl & Hw)] Et. exists h, opts. split_and!; try done.
  - by destruct h.
  - unfold putexportent in Et. rewrite Eo, Eh in Et. cbn [default] in Et. injection Et as <-.
    rewrite (fprintpath_plain (client_word h opts)) by (eapply Forall_impl; [exact Hpl|]; intros c Hc; by rewrite path_char_cases, Hc).
    unfold client_word. rewrite <- (app_assoc h). cbn [app]. by rewrite <- app_assoc.
Qed.

Lemma getpath_line fst p s ln : word_ok 1025 p ->
  exists ln', getpath (XFile (if fst : bool then fprintpath p ++ TAB :: s else NL :: fprintpath p ++ TAB :: s) ln) 1025
    = GetTok 1 p false (XFile s ln').
Proof.
  intros Hp. destruct fst; [by eexists; apply getpath_word|]. unfold getpath. rewrite xskip_nl.
  eexists. by apply getpath_word.
Qed.

Lemma getexportent_line st d fst ep text rest stack :
  mask_ok m -> line_ok ep -> at_line d fst (text ++ rest) st -> putexportent m ep = Some text ->
  exists st' d', getexportent m db realpath st stack false = (Got ep, st') /\ at_line d' false rest st'.
Proof.
  intros Hm Hl (ln & -> & Hb & Hi) Et.
  destruct (putexportent_line ep text Hl Et) as (h & opts & Eh & Eo & Hw & Hd & ->).
  rewrite <- app_assoc. cbn [app]. rewrite <- app_assoc. cbn [app].
  destruct (getpath_line fst (e_path ep) (fprintpath (client_word h opts) ++ NL :: rest) ln) as (ln' & Ep); [apply Hl|].
  assert (getexport (XFile (fprintpath (client_word h opts) ++ NL :: rest) ln') 512
          = GetTok 1 (client_word h opts) false (XFile (NL :: rest) ln')) as Ec.
  { unfold getexport. rewrite (xskip_word _ 512) by first [done|repeat constructor]. by rewrite gettok_word. }
  assert (getexportent m db realpath (EFile (Some (XFile (if fst then fprintpath (e_path ep) ++ TAB :: fprintpath (client_word h opts) ++ NL :: rest
            else NL :: fprintpath (e_path ep) ++ TAB :: fprintpath (client_word h opts) ++ NL :: rest) ln)) fst false false d) stack false
    = line_entry m db realpath (EFile (Some (XFile (fprintpath (client_word h opts) ++ NL :: rest) ln')) fst false false
        (set_path (init_exportent d false) (e_path ep))) (XFile (NL :: rest) ln') false false 1 (client_word h opts)) as ->.
  { unfold getexportent. cbn [efp first has_default_opts has_default_subtree_opts def_ee]. destruct fst.
    - cbn [negb andb orb]. rewrite Ep. cbn [gt_over gt_ret gt_file gt_tok Z.leb Z.compare]. by rewrite Ec.
    - rewrite getexport_eol by lia. cbn [negb andb orb gt_over gt_ret gt_file Z.eqb]. rewrite Ep.
      cbn [gt_over gt_ret gt_file gt_tok Z.leb Z.compare]. by rewrite Ec. }
  unfold line_entry. rewrite (proj2 (ceqb_false _ _) Hd). cbn [andb Z.eqb has_default_opts has_default_subtree_opts def_ee].
  destruct (client_entry_ok ep d Hm Hl Hb) as (h' & opts' & Eh' & Eo' & E). rewrite Eh in Eh'. rewrite Eo in Eo'.
  injection Eh' as <-. injection Eo' as <-. rewrite E. do 2 eexists. split; [done|].
  exists ln'. split; [done|]. split; [exact Hb|by right].
Qed.

Lemma getexportent_end st d fst stack : at_line d fst [] st -> exists st', getexportent m db realpath st stack false = (GotNull, st').
Proof.
  intros (ln & -> & _ & _). unfold getexportent. cbn [efp first]. destruct fst; cbn [negb andb orb].
  - destruct (getpath_eof ln 1025) as [-> ->]; [lia|]. by eexists.
  - rewrite getexport_eol by lia. cbn [gt_over gt_ret gt_file Z.eqb].
    assert (getpath (XFile [NL] ln) 1025 = getpath (XFile [] (ln + 1)) 1025) as -> by done.
    destruct (getpath_eof (ln + 1) 1025) as [-> ->]; [lia|]. by eexists.
Qed.

Lemma read_entries_lines eps texts st d fst stack fuel :
  mask_ok m -> Forall line_ok eps -> Forall2 (fun ep t => putexportent m ep = Some t) eps texts ->
  at_line d fst (mjoin texts) st -> (length eps < fuel)%nat -> read_entries m db realpath fuel st stack false = Some eps.
Proof.
  intros Hm Hl H2. revert st d fst fuel Hl. induction H2 as [|ep t eps texts Ht H2 IH]; intros st d fst fuel Hl Hat Hf.
  - destruct fuel; [cbn in Hf; lia|]. cbn [read_entries]. by destruct (getexportent_end st d fst stack Hat) as (st' & ->).
  - destruct fuel; [cbn in Hf; lia|]. apply Forall_cons in Hl as [Hl1 Hl2]. cbn [read_entries].
    destruct (getexportent_line st d fst ep t (mjoin texts) stack Hm Hl1 Hat Ht) as (st' & d' & -> & Hat').
    rewrite (IH st' d' false fuel Hl2 Hat') by (cbn in Hf; lia). done.
Qed.
End lines.

Lemma read_back m db realpath def eps texts stack :
  mask_ok m -> blank_def def -> Forall (line_ok m realpath) eps ->
  Forall2 (fun ep t => putexportent m ep = Some t) eps texts ->
  read_file m db realpath def (Some (mjoin texts)) stack false = Some eps.
Proof.
  intros Hm Hb Hl H2. unfold read_file, setexportent. change (default [] (Some (mjoin texts))) with (mjoin texts).
  apply (read_entries_lines _ _ _ eps texts _ def true); [done..| |].
  - exists 1. auto.
  - assert (length eps <= length (mjoin texts))%nat; [|lia]. clear -H2.
    induction H2 as [|ep t eps texts Ht H2 IH]; [cbn; lia|]. change (mjoin (t :: texts)) with (t ++ mjoin texts).
    assert (t <> []) by (unfold putexportent in Ht; destruct (put_options m ep); [|done]; injection Ht as <-;
                         intros [_ [=]]%app_eq_nil). rewrite length_app. destruct t; [done|]. cbn [length]. lia.
Qed.

(** ** Default entries *)

(** An entry as [secinfo_show] leaves it: one without flavors, as every export
    without sec= is, gets the flavor sys with the flags of the export. *)
Definition shown (m : Z) (ep : exportent) : exportent := (secinfo_show m ep).1.

Lemma shown_cases m ep :
  e_secinfo ep <> [] /\ shown m ep = ep \/
  e_secinfo ep = [] /\ shown m ep = set_secinfo ep [Entry (Flav $"sys" 1 false) (e_flags ep)].
Proof. unfold shown, secinfo_show. destruct (e_secinfo ep) eqn:E; [right|by left]. split; [done|]. unfold secinfo_addflavor. by rewrite E. Qed.

Lemma putexportent_shown m ep : putexportent m (shown m ep) = putexportent m ep.
Proof.
  destruct (shown_cases m ep) as [[_ ->]|[E ->]]; [done|]. unfold putexportent, put_options, put_ids, put_flags, put_fsid, put_locations, secinfo_show, secinfo_addflavor.
  rewrite E. done.
Qed.

Lemma putexportent_shown_all m eps texts :
  Forall2 (fun ep t => putexportent m ep = Some t) eps texts -> Forall2 (fun ep t => putexportent m ep = Some t) (shown m <$> eps) texts.
Proof. induction 1 as [|ep t eps texts Ht _ IH]; [constructor|]. constructor; [by rewrite putexportent_shown|exact IH]. Qed.

Lemma read_back_shown m db realpath def eps texts stack :
  mask_ok m -> blank_def def -> Forall (line_ok m realpath) (shown m <$> eps) ->
  Forall2 (fun ep t => putexportent m ep = Some t) eps texts ->
  read_file m db realpath def (Some (mjoin texts)) stack false = Some (shown m <$> eps).
Proof. intros Hm Hd Hl H2. apply read_back; [done..|]. by apply putexportent_shown_all. Qed.

(** C24. Reading etab gives back the table it was written from.  For entries that
    have a readable line (no squash_uids= or squash_gids= list, no reexport=, only
    flags that have a keyword, no comma in a mount point or location, a client word
    of less than 512 characters; see [line_ok] and [printable]), the file that
    [putexportent] writes for them is read by [getexportent], entry by entry, as
    exactly those entries in that order, and then ends, whatever is in the
    uninitialised buffer of the reader.  An entry without flavors, the default, is
    written and read with the flavor sys and the flags of the export. *)
Theorem etab_read_back m db realpath def eps texts stack :
  mask_ok m -> blank_def def -> Forall (line_ok m realpath) (shown m <$> eps) ->
  Forall2 (fun ep t => putexportent m ep = Some t) eps texts ->
  read_file m db realpath def (Some (mjoin texts)) stack false = Some (shown m <$> eps).
Proof. apply read_back_shown. Qed.

(** An export with the default options, to a single host. *)
Definition default_entry : exportent :=
  set_path (set_hostname (init_exportent no_ent false) (Some $"h.ex.org")) $"/srv".

Definition second_entry : exportent := set_path (set_hostname sample_entry (Some $"@staff")) (BSLASH :: $"a #1").

Lemma sample_line ep : ep = sample_entry \/ ep = second_entry -> line_ok 15 (fun _ => None) ep.
Proof.
  intros H. split.
  - destruct H as [-> | ->]; [apply sample_printable|]. destruct sample_printable. by split.
  - destruct H as [-> | ->]; (split; [done|by apply strchr_None|reflexivity|cbn; lia|right; cbn; lia]).
  - by destruct H as [-> | ->].
  - by left.
  - destruct H as [-> | ->]; (do 2 eexists; split; [reflexivity|]; split; [vm_compute; reflexivity|]);
      (split_and!; [done|done|by apply strchr_None|by apply strchr_None|repeat constructor|]);
      (split; [done|by apply strchr_None|reflexivity|cbn; lia|left; repeat constructor]).
Qed.

Lemma default_line : line_ok 15 (fun _ => None) (shown 15 default_entry).
Proof.
  split.
  - split; vm_compute (shown 15 default_entry).
    + reflexivity.
    + unfold INT_MIN, INT_MAX. cbn. lia.
    + done.
    + split; [cbn; lia|done].
    + done.
    + done.
    + split_and!; [discriminate|repeat constructor|apply NoDup_singleton|repeat constructor; done|reflexivity].
    + split_and!; [repeat constructor|apply NoDup_nil_2|cbn; lia|repeat constructor].
  - change (e_path (shown 15 default_entry)) with ($"/srv"). split; [done|by apply strchr_None|reflexivity|cbn; lia|right; cbn; lia].
  - done.
  - by left.
  - do 2 eexists. split; [reflexivity|]. split; [vm_compute; reflexivity|].
    split_and!; [done|done|by apply strchr_None|by apply strchr_None|repeat constructor|].
    split; [done|by apply strchr_None|reflexivity|cbn; lia|left; repeat constructor].
Qed.

Lemma etab_read_back_witness :
  match putexportent 15 sample_entry, putexportent 15 second_entry, putexportent 15 default_entry with
  | Some t1, Some t2, Some t3 =>
      read_file 15 (fun _ _ => None) (fun _ => None) no_ent (Some (mjoin [t1; t2; t3])) $"-rw" false
      = Some [sample_entry; second_entry; set_secinfo default_entry [Entry (Flav $"sys" 1 false) (e_flags default_entry)]]
  | _, _, _ => False
  end.
Proof.
  destruct (putexportent 15 sample_entry) as [t1|] eqn:E1; [|vm_compute in E1; discriminate].
  destruct (putexportent 15 second_entry) as [t2|] eqn:E2; [|vm_compute in E2; discriminate].
  destruct (putexportent 15 default_entry) as [t3|] eqn:E3; [|vm_compute in E3; discriminate].
  apply (etab_read_back 15 (fun _ _ => None) (fun _ => None) no_ent [sample_entry; second_entry; default_entry] [t1; t2; t3] $"-rw").
  - reflexivity.
  - done.
  - apply Forall_cons; split; [apply sample_line; auto|]. apply Forall_cons; split; [apply sample_line; auto|]. apply Forall_singleton, default_line.
  - auto.
Defined.

(** ** Where the file is not read back *)

(** Two paths are written differently and read as one: a backslash that stood in
    the path, decoded, starts a new escape with the digits behind it. *)
Theorem path_escape_collapse len a x y z c s ln :
  word_ok len (a ++ [BSLASH; x; y]) -> Z.of_nat (length a) + 7 < len ->
  isoctal x && isoctal y && isoctal z = true -> st_value (strtol 8 [x; y; z]) < 256 -> isspace c = true ->
  gt_tok (xgettok (XFile (fprintpath (a ++ [BSLASH; x; y; z]) ++ c :: s) ln) NUL len) = a ++ [chr (st_value (strtol 8 [x; y; z]))].
Proof.
  intros [Hne Hn He _ _] Hl Hd Hv Hc. rewrite !andb_true_iff in Hd. destruct Hd as [[Hx Hy] Hz].
  destruct (octal_word z Hz) as (Z1 & Z2 & Z3 & Z4 & Z5).
  assert (escaped z = false) as Ez by (clear - Hz; revert Hz; all_chars z; vm_compute; congruence).
  replace (a ++ [BSLASH; x; y; z]) with ((a ++ [BSLASH; x; y]) ++ [z]) by (by rewrite <- app_assoc).
  assert (fprintpath ((a ++ [BSLASH; x; y]) ++ [z]) = fprintpath (a ++ [BSLASH; x; y]) ++ [z]) as ->.
  { unfold fprintpath. rewrite fmap_app, join_app. cbn. by rewrite path_char_cases, Ez. }
  rewrite <- app_assoc. cbn [app]. unfold xgettok. cbn [x_fp gt_tok].
  replace (S (length (fprintpath (a ++ [BSLASH; x; y]) ++ z :: c :: s)))
    with (length (fprintpath (a ++ [BSLASH; x; y])) + S (S (S (length s))))%nat by len.
  rewrite gettok_path by first [done|right; cbn [app]; len|cbn [app]; len].
  cbn [gettok_loop app]. rewrite (proj2 (Z.ltb_lt _ _)) by len. rewrite xgetc_plain, Z3, Z4, Z5 by done. cbn [orb andb negb].
  unfold unescape. rewrite <- app_assoc. cbn [app]. rewrite drop_last4, ceqb_refl, Hx, Hy, Hz. cbn [andb].
  rewrite (proj2 (Z.ltb_lt _ _) Hv).
  replace (take _ _) with a by (rewrite length_app; cbn [length]; replace (length a + 4 - 4)%nat with (length a) by lia; by rewrite take_app_length).
  rewrite (proj2 (Z.ltb_lt _ _)) by len. unfold xgetc. cbn [x_fp].
  assert (ceqb c BSLASH = false) as -> by (apply ceqb_false; intros ->; discriminate).
  rewrite Hc, andb_false_r. done.
Qed.

Lemma path_escape_collapse_witness :
  gt_tok (xgettok (XFile (fprintpath ($"/a" ++ BSLASH :: $"101") ++ [TAB]) 1) NUL 1025) = $"/aA".
Proof.
  apply (path_escape_collapse 1025 $"/a" "1" "0" "1" TAB [] 1); [|cbn; lia|done|done|done].
  split; [done|by apply strchr_None|reflexivity|cbn; lia|right; cbn; lia].
Defined.

(** A client word that does not fit into the buffer of 512 bytes, though it was
    written to the file, ends the reading of the file. *)
Lemma escaped_free v : Forall (fun c => escaped c = false) v -> has_escape v = false /\ fprintpath v = v.
Proof.
  intros Hv. split.
  - induction Hv as [|c v Hc Hv IH]; [done|]. cbn [has_escape]. rewrite IH, orb_false_r.
    destruct v as [|? [|? [|? ?]]]; try done. unfold escaped in Hc. rewrite !orb_false_iff in Hc.
    by destruct Hc as (((_ & ->) & _) & _).
  - apply fprintpath_plain. eapply Forall_impl; [exact Hv|]. intros c Hc. by rewrite path_char_cases, Hc.
Qed.

Lemma getexport_long w rest ln : Forall (fun c => escaped c = false) w -> NUL ∉ w -> (512 <= length w)%nat ->
  getexport (XFile (w ++ rest) ln) 512 = GetTok (-1) (take 512 w) false (XFile (drop 512 w ++ rest) ln).
Proof.
  intros Hpl Hn Hl. destruct (escaped_free w Hpl) as [He Hfp]. unfold getexport.
  assert (xskip [SP; TAB] (XFile (w ++ rest) ln) = XFile (w ++ rest) ln) as ->.
  { rewrite <- Hfp at 1. rewrite (xskip_word _ (Z.of_nat (length w) + 1)); [by rewrite Hfp| |repeat constructor].
    split; [by (destruct w; [cbn in Hl; lia|])|done|done|lia|by left]. }
  rewrite <- (take_drop 512 w) at 1. rewrite <- app_assoc. unfold xgettok. cbn [x_fp].
  set (t := take 512 w). set (s := drop 512 w ++ rest).
  assert (length t = 512%nat) as Ht by (unfold t; rewrite length_take; lia).
  replace (S (length (t ++ s))) with (length t + S (length s))%nat by len.
  assert (Forall (fun c => escaped c = false) t) as Hpt by (by apply Forall_take).
  destruct (escaped_free t Hpt) as [Het Hft].
  assert (NUL ∉ t) as Hnt by (intros H; apply Hn; rewrite <- (take_drop 512 w), elem_of_app; by left).
  pose proof (gettok_path 512 ln t [] (S (length s)) (Some NUL) s) as E. rewrite Hft in E.
  rewrite E by first [done|by left|cbn [app]; lia]. clear E. cbn [app gettok_loop].
  rewrite (proj2 (Z.ltb_ge _ _)) by lia. cbn [g_c g_file g_tok g_over].
  assert (exists c, last t = Some c /\ c <> NL) as (c & -> & Hc).
  { destruct (last t) as [c|] eqn:E; [|apply last_None in E; by rewrite E in Ht]. exists c. split; [done|]. intros ->.
    apply last_Some_elem_of in E. rewrite Forall_forall in Hpt. by specialize (Hpt _ E). }
  cbn [from_option]. rewrite (bool_decide_eq_false_2 (Some c = Some NL)) by congruence.
  rewrite (bool_decide_eq_false_2 (t = [])) by (intros E; by rewrite E in Ht).
  by replace (Z.of_nat (length t) >=? 512) with true by (symmetry; rewrite Z.geb_leb; apply Z.leb_le; lia).
Qed.

Theorem getexportent_long_word m db realpath d h opts p rest stack ln :
  word_ok 1025 p -> NUL ∉ client_word h opts ->
  Forall (fun c => escaped c = false) (client_word h opts) -> (512 <= length (client_word h opts))%nat ->
  fst (getexportent m db realpath
    (EFile (Some (XFile (fprintpath p ++ TAB :: client_word h opts ++ NL :: rest) ln)) true false false d) stack false) = GotNull.
Proof.
  intros Hp Hn Hpl Hl. unfold getexportent. cbn [efp first negb andb orb].
  rewrite getpath_word by done. cbn [gt_over gt_ret gt_file gt_tok Z.leb Z.compare]. by rewrite getexport_long.
Qed.

(** The terminator stored for an escape at the end of the buffer is stored
    behind the buffer. *)
Theorem xgettok_overrun :
  gt_over (xgettok (XFile (replicate 508 "a"%char ++ BSLASH :: $"101") 1) NUL 512) = true.
Proof. vm_compute. reflexivity. Qed.

(** Freed id lists: the second client of a line with default id lists. *)
Theorem getexportent_freed_ids :
  read_file 15 (fun _ _ => None) (fun _ => None) no_ent (Some ($"/srv -squash_uids=1-2 a b" ++ [NL])) [] false = None.
Proof. vm_compute. reflexivity. Qed.

(** A line without a client reads the uninitialised buffer. *)
Theorem getexportent_stack_options : exists e1 e2,
  read_file 15 (fun _ _ => None) (fun _ => None) no_ent (Some ($"/srv" ++ [NL])) [] false = Some [e1] /\
  read_file 15 (fun _ _ => None) (fun _ => None) no_ent (Some ($"/srv" ++ [NL])) $"-rw,no_root_squash" false = Some [e2] /\
  has_flag (e_flags e1) NFSEXP_READONLY = true /\ has_flag (e_flags e2) NFSEXP_READONLY = false.
Proof. do 2 eexists. split_and!; vm_compute; reflexivity. Qed.

(** ** The reader ends *)

(** What is left to read. *)
Definition left_of (x : xfile) : nat := length (x_fp x).

Lemma xgetc_left x c x' : xgetc x = (Some c, x') -> (left_of x' < left_of x)%nat.
Proof.
  unfold xgetc, left_of. destruct (x_fp x) as [|d s]; [done|]. destruct (ceqb d BSLASH); [|intros [= _ <-]; cbn; lia].
  destruct (ceqb (deref s) NL); intros [= _ <-]; cbn [x_fp length]; [|lia].
  destruct (skip_while_suffix isblank (advance 1 s)) as (a & E). apply (f_equal length) in E.
  rewrite length_app in E. unfold advance in *. rewrite length_drop in E. change (match s with [] => [] | _ :: l => l end) with (drop 1 s). lia.
Qed.

Lemma xskipcomment_left x c x' : xskipcomment x = (c, x') -> (left_of x' + match c with Some _ => 1 | None => 0 end <= left_of x)%nat.
Proof.
  unfold xskipcomment, left_of. destruct (span _ (x_fp x)) as [a b] eqn:E. apply span_app in E. apply (f_equal length) in E.
  rewrite length_app in E. cbn [snd]. destruct b; intros [= <- <-]; cbn [x_fp length] in *; lia.
Qed.

Lemma xskip_left str x : (left_of (xskip str x) <= left_of x)%nat.
Proof.
  unfold xskip. generalize (S (length (x_fp x))). intros fuel. revert x. induction fuel as [|fuel IH]; intros x; cbn; [lia|].
  destruct (xgetc x) as [[c|] x'] eqn:E; [|unfold xgetc in E; destruct (x_fp x); [by injection E as <-|by repeat case_if_in E]].
  apply xgetc_left in E. destruct (if ceqb c "#" then _ else _) as [[d|] x''] eqn:E'.
  - assert (left_of x'' + 1 <= left_of x)%nat.
    { destruct (ceqb c "#"); [|injection E' as <- <-; lia]. apply xskipcomment_left in E'. lia. }
    destruct (in_str str d); [specialize (IH x''); lia|]. unfold left_of, xungetc in *. cbn. lia.
  - destruct (ceqb c "#"); [|done]. apply xskipcomment_left in E'. lia.
Qed.

Lemma unescape_short len tok c over tok' c' over' : unescape len tok c over = (tok', c', over') -> (length tok' <= length tok)%nat.
Proof.
  unfold unescape. destruct (drop (length tok - 4) tok) as [|b [|x [|y [|z [|? ?]]]]] eqn:E; try by intros [= <- _ _].
  repeat case_if; intros [= <- _ _]; try done. apply (f_equal length) in E. rewrite length_drop in E. cbn in E. len.
Qed.

Lemma gettok_loop_left fuel sepa len tok c quoted over x g :
  gettok_loop fuel sepa len tok c quoted over x = g -> (left_of x < fuel)%nat ->
  (left_of (g_file g) + length (g_tok g) + (if bool_decide (g_c g = Some NL) && (Z.of_nat (length (g_tok g)) <? len)%Z then 1 else 0)
   <= left_of x + length tok)%nat.
Proof.
  revert tok c quoted over x. induction fuel as [|fuel IH]; intros tok c quoted over x Hg Hf; [lia|]. cbn [gettok_loop] in Hg.
  destruct (Z.of_nat (length tok) <? len)%Z eqn:El; [|subst g; cbn [g_tok g_file g_c]; rewrite El, andb_false_r; lia].
  destruct (xgetc x) as [[d|] x'] eqn:E.
  2:{ subst g. cbn. rewrite bool_decide_eq_false_2 by done. unfold xgetc in E.
      destruct (x_fp x); [injection E as <-; cbn; lia|by repeat case_if_in E]. }
  apply xgetc_left in E. destruct (quoted || _); [|subst g; cbn [g_tok g_file g_c]; case_if; lia].
  destruct (ceqb d DQUOTE).
  - apply IH in Hg; [|lia]. lia.
  - destruct (unescape len (tok ++ [d]) d over) as [[tok' c'] over'] eqn:Eu. apply IH in Hg; [|lia].
    apply unescape_short in Eu. rewrite length_app in Eu. cbn in Eu. lia.
Qed.

Lemma xgettok_ret x sepa len : let r := gt_ret (xgettok x sepa len) in r = -1 \/ r = 0 \/ r = 1.
Proof. unfold xgettok. cbn [gt_ret]. repeat case_if; auto. Qed.

Lemma xgettok_left x sepa len g : xgettok x sepa len = g -> 0 < len ->
  (gt_ret g = 0 -> (left_of (gt_file g) <= left_of x)%nat) /\ (gt_ret g = 1 -> (left_of (gt_file g) < left_of x)%nat).
Proof.
  unfold xgettok. intros <- Hl. set (g := gettok_loop _ _ _ _ _ _ _ _).
  pose proof (gettok_loop_left _ sepa len [] (Some NUL) false false x g eq_refl) as H. fold (left_of x) in H.
  specialize (H ltac:(unfold left_of; lia)). cbn [gt_ret gt_file length] in *. rewrite Nat.add_0_r in H.
  assert (forall b : bool, left_of (if b then xungetc (g_c g) (g_file g) else g_file g)
            <= left_of (g_file g) + (if b then 1 else 0))%nat as Hun.
  { intros []; [|lia]. unfold left_of, xungetc. destruct (g_c g); cbn; lia. }
  specialize (Hun (bool_decide (g_c g = Some NL))).
  destruct (bool_decide (g_tok g = [])) eqn:Et.
  - apply bool_decide_eq_true in Et. rewrite Et in H. cbn [length] in H. rewrite (proj2 (Z.ltb_lt _ _)), andb_true_r in H by (cbn; lia).
    split; [lia|discriminate].
  - apply bool_decide_eq_false in Et. destruct ((_ >=? len) || _) eqn:E; [split; discriminate|].
    apply orb_false_iff in E as [E _]. rewrite Z.geb_leb in E. apply Z.leb_gt in E.
    rewrite (proj2 (Z.ltb_lt _ _) E), andb_true_r in H. split; [discriminate|]. intros _. destruct (g_tok g); [done|]. cbn [length] in H. lia.
Qed.

Section ends.
  Context (m : Z) (db : cstr -> bool -> option Z) (realpath : cstr -> option cstr).

Definition file_left (st : efile) : nat := from_option left_of O (efp st).

Lemma line_entry_left st x fromkernel stale ok exp ee st' :
  line_entry m db realpath st x fromkernel stale ok exp = (Got ee, st') -> (file_left st' <= left_of x)%nat.
Proof.
  unfold line_entry. destruct (ceqb _ _ && _), stale; try by intros [= _ <-].
  destruct (parseopts _ _ _ _) as [[d sub]|d]; [|done]. pose proof (xskip_left [SP; TAB] x) as Hs.
  destruct (xgettok_left (xskip [SP; TAB] x) NUL 512 _ eq_refl ltac:(lia)) as [H0 H1]. fold (getexport x 512) in H0, H1.
  destruct (gt_over (getexport x 512)); [done|]. destruct (gt_ret (getexport x 512) <? 0) eqn:El; [done|]. apply Z.ltb_ge in El. intros [= _ <-].
  change (left_of (gt_file (getexport x 512)) <= left_of x)%nat.
  destruct (xgettok_ret (xskip [SP; TAB] x) NUL 512) as [E'|[E'|E']]; fold (getexport x 512) in E'; [lia|..].
  - specialize (H0 E'). lia.
  - specialize (H1 E'). lia.
Qed.

(** Each entry takes something from the file. *)
Lemma getexportent_left st stack fromkernel ee st' :
  getexportent m db realpath st stack fromkernel = (Got ee, st') -> (file_left st' < file_left st)%nat.
Proof.
  unfold getexportent. destruct (efp st) as [x|] eqn:Ef; [|done].
  assert (forall x len, 0 < len -> gt_ret (getexport x len) <> -1 -> (left_of (gt_file (getexport x len)) <= left_of x)%nat /\
            (gt_ret (getexport x len) <> 0 -> (left_of (gt_file (getexport x len)) < left_of x)%nat)) as Hget.
  { intros y len Hl Hr. pose proof (xskip_left [SP; TAB] y) as Hs.
    destruct (xgettok_left (xskip [SP; TAB] y) NUL len _ eq_refl Hl) as [H0 H1]. fold (getexport y len) in H0, H1.
    destruct (xgettok_ret (xskip [SP; TAB] y) NUL len) as [E'|[E'|E']]; fold (getexport y len) in E'; [lia|..].
    - specialize (H0 E'). split; [lia|done].
    - specialize (H1 E'). split; [|intros _]; lia. }
  assert (file_left st = left_of x) as -> by (unfold file_left; by rewrite Ef).
  destruct (negb (first st) && _) eqn:E0; [done|]. destruct (first st || _) eqn:E1.
  - set (y := if first st then x else gt_file (getexport x 512)).
    assert (left_of y <= left_of x)%nat as Hy.
    { unfold y. destruct (first st); [done|]. cbn [orb] in E1. apply Z.eqb_eq in E1. apply Hget; lia. }
    pose proof (xskip_left [SP; TAB; NL] y) as Hs. destruct (gt_over (getpath y 1025)); [done|].
    destruct (gt_ret (getpath y 1025) <=? 0) eqn:E2; [done|]. apply Z.leb_gt in E2.
    destruct (xgettok_left (xskip [SP; TAB; NL] y) NUL 1025 _ eq_refl ltac:(lia)) as [_ H1]. fold (getpath y 1025) in H1.
    assert (gt_ret (getpath y 1025) = 1) as E3 by (destruct (xgettok_ret (xskip [SP; TAB; NL] y) NUL 1025) as [E'|[E'|E']]; fold (getpath y 1025) in E'; lia).
    specialize (H1 E3). set (z := getexport (gt_file (getpath y 1025)) 512) in *.
    destruct (gt_over z); [done|]. destruct (gt_ret z <? 0) eqn:E4; [done|]. apply Z.ltb_ge in E4.
    intros H%line_entry_left. destruct (Hget (gt_file (getpath y 1025)) 512) as [Hz _]; [lia|fold z; lia|]. fold z in Hz. lia.
  - destruct (gt_ret (getexport _ _) <? 0) eqn:E4; [done|]. apply orb_false_iff in E1 as [_ E1]. apply Z.ltb_ge in E4. apply Z.eqb_neq in E1.
    intros H%line_entry_left. destruct (Hget x 512) as [_ ?]; lia.
Qed.

Lemma read_entries_fuel st stack fromkernel n1 n2 : (file_left st < n1)%nat -> (file_left st < n2)%nat ->
  read_entries m db realpath n1 st stack fromkernel = read_entries m db realpath n2 st stack fromkernel.
Proof.
  revert st n2. induction n1 as [|n1 IH]; intros st n2 H1 H2; [lia|]. destruct n2 as [|n2]; [lia|]. cbn [read_entries].
  destruct (getexportent _ _ _ _ _ _) as [[ee| |] st'] eqn:E; [|done..]. apply getexportent_left in E. f_equal. apply IH; lia.
Qed.
End ends.

(** Reading a file ends: with the length of the file as its bound, [read_file]
    has the result that every larger bound gives. *)
Theorem read_file_ends m db realpath def file stack fromkernel fuel :
  (length (default [] file) < fuel)%nat ->
  read_entries m db realpath fuel (setexportent (EFile None true false false def) file) stack fromkernel
  = read_file m db realpath def file stack fromkernel.
Proof.
  intros H. apply read_entries_fuel; destruct file; cbn in *; lia.
Qed.
