(* ===== verification/Xtab.v ===== *)
(** * The table of exports on disk and the pseudo file system
      (support/export/xtab.c, v4root.c, export_freeall of export.c)

    exportfs writes etab from its table, mountd reads it into its own after
    freeing the old one.  The text of the file is written by [putexportent] and
    read by [getexportent] ([Xio]); the table is that of [ExportTab].  A file
    that may be replaced is an inode number and its contents. *)

From S2P Require Import Prelude Exports ExportsRT Client Hosts ExportTab Xio.

(** ** Freeing the table *)

(** [None]: a node or client is gone, or [client_release] exits. *)
Fixpoint freeall_loop (fuel : nat) (st : extab) (exp : option positive) : option extab :=
  match exp, fuel with
  | None, _ => Some st
  | Some _, O => None
  | Some id, S fuel =>
      e ← ex_store st !! id;
      let nxt := m_next e in
      s ← client_release (ex_clients st) (m_client e);
      freeall_loop fuel (Extab (delete id (ex_store st)) (exportlist st) s) nxt
  end.

Fixpoint freeall_types (types : list mcl_type) (st : extab) : option extab :=
  match types with
  | [] => Some st
  | t :: types =>
      st ← freeall_loop (size (ex_store st)) st (p_head (exportlist st t));
      freeall_types types (set_table st t (Table None (fun _ => Bucket None None)))
  end.

Definition export_freeall (st : extab) : option extab :=
  st ← freeall_types mcl_types st;
  Some (set_clients st (client_freeall (ex_clients st))).

(** ** Reading and writing etab *)

Definition set_marks (e : nfs_export) (exported : Z) (xtabent mayexport : bool) : nfs_export :=
  Export (m_next e) (m_client e) (m_export e) exported xtabent mayexport (m_changed e) (m_warned e).

Section xtab.
  Context (ns : resolver) (erange : bool).
  Context (secinfo_flags : Z) (fsidnum_by_path : cstr -> bool -> option Z) (realpath : cstr -> option cstr).

(** The loop of [xtab_read] over what [getexportent] returns; with it
    [v4root_needed]. *)
Fixpoint xtab_loop (st : extab) (xps : list exportent) (is_export v4root_needed : bool) : option (extab * bool) :=
  match xps with
  | [] => Some (st, v4root_needed)
  | xp :: xps =>
      hname ← e_hostname xp;
      '(exp, st) ← export_lookup ns erange st hname (e_path xp) (negb is_export);
      '(exp, st) ← match exp with
                   | Some id => Some (Some id, st)
                   | None => export_create ns erange st xp (negb is_export)
                   end;
      match exp with
      | None => xtab_loop st xps is_export v4root_needed
      | Some id =>
          e ← ex_store st !! id;
          let e := if is_export then set_marks e (ex_exported e) true true
                   else set_marks e 1 (m_xtabent e) (m_mayexport e) in
          let needed := if is_export && has_flag (e_flags xp) NFSEXP_FSID && (e_fsid xp =? 0) then false else v4root_needed in
          xtab_loop (set_store st (<[id := e]> (ex_store st))) xps is_export needed
      end
  end.

(** [lock]: [xflock] succeeds; [def], [stack]: the statics and the stack of
    [getexportent]. *)
Definition xtab_read (st : extab) (lock : bool) (def : exportent) (file : option cstr) (stack : cstr)
    (is_export v4root_needed : bool) : option (extab * bool) :=
  if lock then
    xps ← read_file secinfo_flags fsidnum_by_path realpath def file stack (negb is_export);
    xtab_loop st xps is_export (is_export || v4root_needed)
  else Some (st, v4root_needed).

(** The entries written for the exports from [exp] on. *)
Fixpoint write_loop (fuel : nat) (st : extab) (exp : option positive) (is_export : bool) : option (list exportent) :=
  match exp, fuel with
  | None, _ => Some []
  | Some _, O => None
  | Some id, S fuel =>
      e ← ex_store st !! id;
      rest ← write_loop fuel st (m_next e) is_export;
      if (is_export : bool) && negb (m_xtabent e) then Some rest
      else if negb is_export && (ex_exported e =? 0) then Some rest
      else c ← cl_store (ex_clients st) !! m_client e;
           Some (set_hostname (m_export e) (Some (m_hostname c)) :: rest)
  end.

Fixpoint write_types (types : list mcl_type) (st : extab) (is_export : bool) : option (list exportent) :=
  match types with
  | [] => Some []
  | t :: types =>
      l ← write_loop (size (ex_store st)) st (p_head (exportlist st t)) is_export;
      rest ← write_types types st is_export;
      Some (l ++ rest)
  end.

(** A sequence of calls of [putexportent]. *)
Fixpoint put_all (xes : list exportent) : option cstr :=
  match xes with
  | [] => Some []
  | xe :: xes => t ← putexportent secinfo_flags xe; rest ← put_all xes; Some (t ++ rest)
  end.

Definition xtab_text (st : extab) (is_export : bool) : option cstr :=
  xes ← write_types mcl_types st is_export; put_all xes.
End xtab.

(** ** Replacing the file *)

Record file := File { f_ino : Z; f_text : cstr }.

(** The comparison of [cond_rename], 4096 bytes at a time; [err k] says which
    read of the k-th round fails.  [true]: identical. *)
Fixpoint same_loop (fuel k : nat) (err : nat -> bool * bool) (n o : cstr) : bool :=
  match fuel with
  | O => false
  | S fuel =>
      let nbuf := take 4096 n in
      let obuf := take 4096 o in
      if fst (err k) || snd (err k) then false
      else if negb (length nbuf =? length obuf)%nat then false
      else if (length nbuf =? 0)%nat then true
      else if streq obuf nbuf then same_loop fuel (S k) err (drop 4096 n) (drop 4096 o)
      else false
  end.

(** The two files afterwards; [ren]: [rename] succeeds. *)
Definition cond_rename (err : nat -> bool * bool) (ren : bool) (newfile oldfile : option file) : option file * option file :=
  let renamed := if ren then (None, newfile) else (newfile, oldfile) in
  match newfile with
  | None => (None, oldfile)
  | Some n =>
      match oldfile with
      | None => renamed
      | Some o => if same_loop (S (length (f_text n))) 0 err (f_text n) (f_text o) then (None, oldfile) else renamed
      end
  end.

(** [xtab_write]: [tmp] is the inode of the temporary file, if it could be
    locked and opened. *)
Definition xtab_write (secinfo_flags : Z) (st : extab) (is_export lock : bool) (tmp : Z) (err : nat -> bool * bool) (ren : bool)
    (etab : option file) : option (option file) :=
  if lock then
    t ← xtab_text secinfo_flags st is_export;
    Some (snd (cond_rename err ren (Some (File tmp t)) etab))
  else Some etab.

(** ** cond_rename *)

Lemma same_loop_spec fuel k err n o : (length n < fuel)%nat ->
  same_loop fuel k err n o = true -> n = o.
Proof.
  revert k n o. induction fuel as [|fuel IH]; intros k n o Hf; [lia|]. cbn [same_loop].
  destruct (_ || _); [done|]. destruct (negb _) eqn:El; [done|]. apply negb_false_iff, Nat.eqb_eq in El.
  rewrite !length_take in El. rewrite length_take.
  destruct (Nat.min 4096 (length n) =? 0)%nat eqn:E0.
  - apply Nat.eqb_eq in E0. intros _. destruct n as [|? n]; [|cbn [length] in E0; lia].
    destruct o; [done|cbn [length] in El; lia].
  - apply Nat.eqb_neq in E0. destruct (streq _ _) eqn:Es; [|done]. apply streq_true in Es. intros H.
    rewrite <- (take_drop 4096 n), <- (take_drop 4096 o), Es. f_equal.
    apply (IH (S k)); [rewrite length_drop; lia|exact H].
Qed.

Lemma same_loop_refl fuel k err n : (length n < fuel)%nat -> (forall i, err i = (false, false)) -> same_loop fuel k err n n = true.
Proof.
  revert k n. induction fuel as [|fuel IH]; intros k n Hf He; [lia|]. cbn [same_loop]. rewrite He. cbn [fst snd orb].
  rewrite Nat.eqb_refl. cbn [negb]. destruct (_ =? 0)%nat eqn:E0; [done|]. rewrite streq_refl. apply IH; [|done].
  apply Nat.eqb_neq in E0. rewrite length_take in E0. rewrite length_drop. lia.
Qed.

(** When the rename works, the file holds the new text whatever reads fail, and
    without failing reads its inode changes exactly when the text does: that is
    what [auth_reload] relies on. *)
Theorem cond_rename_installs err tmp text old :
  exists f, snd (cond_rename err true (Some (File tmp text)) old) = Some f /\ f_text f = text /\
    fst (cond_rename err true (Some (File tmp text)) old) = None /\
    ((forall i, err i = (false, false)) -> f_ino f = if bool_decide (f_text <$> old = Some text) then from_option f_ino tmp old else tmp).
Proof.
  unfold cond_rename. destruct old as [[oi ot]|]; cbn [f_text f_ino].
  - destruct (same_loop _ _ _ _ _) eqn:Es.
    + apply same_loop_spec in Es as <-; [|lia]. eexists. split; [done|]. cbn. split; [done|]. split; [done|]. intros _.
      by rewrite bool_decide_eq_true_2.
    + eexists. split; [done|]. cbn. split; [done|]. split; [done|]. intros He. rewrite bool_decide_eq_false_2; [done|].
      intros [= ->]. rewrite same_loop_refl in Es by (done || lia). done.
  - eexists. split; [done|]. done.
Qed.

(** ** Reference counts *)

Definition all_of (L : mcl_type -> list positive) : list positive := concat (map L mcl_types).

Lemma elem_of_all_of L x : x ∈ all_of L <-> exists t, x ∈ L t.
Proof.
  unfold all_of. rewrite list_elem_of_In, in_concat. split.
  - intros (l & (t & <- & _)%in_map_iff & H). exists t. by apply list_elem_of_In.
  - intros (t & H). exists (L t). split; [|by apply list_elem_of_In]. apply in_map. destruct t; cbn; tauto.
Qed.

Lemma all_of_NoDup st L : st_ok st L -> NoDup (all_of L).
Proof.
  intros Hst. assert (forall types, NoDup types -> NoDup (concat (map L types))) as H.
  { induction types as [|t types IH]; intros Hn; [constructor|]. apply NoDup_cons in Hn as [Ht Hn]. cbn. apply NoDup_app.
    split_and!; [apply (so_table st L Hst t)| |by apply IH]. intros x Hx Hin. rewrite list_elem_of_In, in_concat in Hin.
    destruct Hin as (l & (t' & <- & Ht')%in_map_iff & Hl). apply list_elem_of_In in Hl, Ht'.
    by rewrite (so_disjoint st L t t' x Hst Hx Hl) in Ht. }
  apply H. repeat (apply NoDup_cons; split; [set_solver|]). constructor.
Qed.

(** How many exports of a list belong to a client. *)
Definition belongs (m : gmap positive nfs_export) (clp x : positive) : Prop := m_client <$> m !! x = Some clp.
#[export] Instance belongs_dec m clp x : Decision (belongs m clp x).
Proof. unfold belongs. apply _. Defined.
Definition refs (m : gmap positive nfs_export) (l : list positive) (clp : positive) : nat := length (filter (belongs m clp) l).

Lemma refs_cons m x l clp : refs m (x :: l) clp = ((if decide (belongs m clp x) then 1 else 0) + refs m l clp)%nat.
Proof. unfold refs. rewrite filter_cons. by destruct (decide _). Qed.

Lemma refs_ext m m' l clp : (forall x, x ∈ l -> m_client <$> m' !! x = m_client <$> m !! x) -> refs m' l clp = refs m l clp.
Proof.
  induction l as [|x l IH]; intros H; [done|]. rewrite !refs_cons, IH by (intros y Hy; apply H; by right).
  f_equal.
  assert (belongs m' clp x <-> belongs m clp x) as Hb by (unfold belongs; rewrite (H x) by (by left); done).
  by destruct (decide (belongs m' clp x)), (decide (belongs m clp x)); tauto || done.
Qed.

Lemma refs_perm m l l' clp : l ≡ₚ l' -> refs m l clp = refs m l' clp.
Proof. intros H. unfold refs. by rewrite H. Qed.

(** No client is referred to more often than it counts. *)
Definition refs_le (m : gmap positive nfs_export) (l : list positive) (s : clients) : Prop :=
  forall clp c, cl_store s !! clp = Some c -> Z.of_nat (refs m l clp) <= m_count c.
Definition refs_ok (st : extab) (L : mcl_type -> list positive) : Prop := refs_le (ex_store st) (all_of L) (ex_clients st).

(** Each node of a list is there, and so is its client. *)
Definition owned (st : extab) (l : list positive) : Prop :=
  forall x, x ∈ l -> exists e, ex_store st !! x = Some e /\ is_Some (cl_store (ex_clients st) !! m_client e).

Lemma st_ok_owned st L : st_ok st L -> owned st (all_of L).
Proof.
  intros Hst x (t & Hx)%elem_of_all_of. destruct (so_type st L Hst t x Hx) as (e & E & Et). exists e. split; [done|].
  unfold client_type in Et. destruct (cl_store _ !! _); [by eexists|done].
Qed.

Lemma freeall_loop_ok fuel st p l rest :
  chain (ex_store st) p l None -> NoDup (l ++ rest) -> (length l <= fuel)%nat -> owned st (l ++ rest) ->
  refs_le (ex_store st) (l ++ rest) (ex_clients st) ->
  exists m s, freeall_loop fuel st p = Some (Extab m (exportlist st) s) /\
    (forall x, x ∈ rest -> m !! x = ex_store st !! x) /\ owned (Extab m (exportlist st) s) rest /\
    refs_le m rest s /\ cl_list s = cl_list (ex_clients st) /\ types_kept (ex_clients st) s.
Proof.
  revert fuel st p. induction l as [|x l IH]; intros fuel st p Hc Hn Hf Ho Hr.
  { cbn in Hc. subst p. exists (ex_store st), (ex_clients st).
    assert (freeall_loop fuel st None = Some st) as -> by (by destruct fuel). destruct st; cbn in *. by split_and!. }
  destruct Hc as (-> & e & E & Hc). cbn [app] in Hn, Ho, Hr. apply NoDup_cons in Hn as [Hx Hn].
  destruct (Ho x) as (e' & E' & c & Ec); [by left|]. assert (e' = e) as -> by congruence.
  destruct fuel as [|fuel]; [cbn in Hf; lia|]. cbn [freeall_loop]. rewrite E. cbn [mbind option_bind].
  unfold client_release. rewrite Ec. pose proof (Hr _ _ Ec) as Hcount. rewrite refs_cons in Hcount.
  rewrite decide_True in Hcount by (unfold belongs; by rewrite E). rewrite (proj2 (Z.leb_gt _ _)) by lia. cbn [mbind option_bind].
  set (s' := Clients _ _). set (m' := delete x (ex_store st)).
  assert (forall y, y ∈ l ++ rest -> m' !! y = ex_store st !! y) as Hm'.
  { intros y Hy. unfold m'. rewrite lookup_delete_ne; [done|]. intros <-. done. }
  assert (types_kept (ex_clients st) s') as Hk by (by eapply types_kept_insert).
  destruct (IH fuel (Extab m' (exportlist st) s') (m_next e)) as (m & s & E1 & H1 & H2 & H3 & H4 & H5).
  - cbn [ex_store]. clear -Hc Hm'. revert Hc. generalize (m_next e). induction l as [|y l IHl]; intros q Hc; [done|].
    destruct Hc as (-> & e1 & E1 & Hc). split; [done|]. exists e1. split; [by rewrite Hm' by (by left)|].
    apply IHl; [|done]. intros z Hz. apply Hm'. by right.
  - done.
  - cbn in Hf. lia.
  - intros y Hy. destruct (Ho y) as (ey & Ey & cy & Ecy); [by right|]. exists ey. cbn [ex_store ex_clients]. rewrite Hm' by done.
    split; [done|]. destruct (Hk _ _ Ecy) as (? & ? & _). by eexists.
  - intros clp c1. cbn [ex_store ex_clients]. rewrite (refs_ext (ex_store st)) by (intros y Hy; by rewrite Hm').
    unfold s'. cbn [cl_store]. destruct (decide (m_client e = clp)) as [<-|Hne].
    + rewrite lookup_insert_eq. intros [= <-]. cbn [m_count set_count]. lia.
    + rewrite lookup_insert_ne by done. intros E1. specialize (Hr _ _ E1). rewrite refs_cons in Hr.
      destruct (decide _); lia.
  - exists m, s. split_and!; try done. intros y Hy. rewrite H1 by done. apply Hm'. apply elem_of_app. by right.
    by etrans.
Qed.

Lemma freeall_types_ok types st L :
  (forall t, t ∈ types -> table_ok (ex_store st) (exportlist st t) (L t)) -> NoDup types -> NoDup (concat (map L types)) ->
  owned st (concat (map L types)) -> refs_le (ex_store st) (concat (map L types)) (ex_clients st) ->
  exists st', freeall_types types st = Some st' /\ refs_le (ex_store st') [] (ex_clients st') /\
    forall t, exportlist st' t = if decide (t ∈ types) then Table None (fun _ => Bucket None None) else exportlist st t.
Proof.
  revert st. induction types as [|t types IH]; intros st Ht Hnt Hn Ho Hr.
  { exists st. split_and!; [done..|]. intros t. by rewrite decide_False by set_solver. }
  cbn [map concat] in *. destruct (Ht t ltac:(by left)) as [Hc Hnd Hb].
  destruct (freeall_loop_ok (size (ex_store st)) st _ (L t) _ Hc Hn) as (m & s & E & H1 & H2 & H3 & H4 & _); [|done..|].
  { by eapply chain_size. }
  cbn [freeall_types]. rewrite E. cbn [mbind option_bind]. apply NoDup_cons in Hnt as [Htn Hnt].
  destruct (IH (set_table (Extab m (exportlist st) s) t (Table None (fun _ => Bucket None None)))) as (st' & E' & Hz & Hl).
  - intros t' Ht'. cbn [ex_store set_table exportlist]. rewrite decide_False by congruence.
    eapply table_ok_frame; [|by apply Ht; right]. intros x Hx. apply H1. rewrite list_elem_of_In, in_concat.
    exists (L t'). split; [apply in_map; by apply list_elem_of_In|by apply list_elem_of_In].
  - done.
  - by apply NoDup_app in Hn as (_ & _ & ?).
  - done.
  - done.
  - exists st'. split; [done|]. split; [done|]. intros t'. rewrite Hl. cbn [set_table exportlist].
    destruct (decide (t' ∈ types)); [by rewrite decide_True by (by right)|].
    destruct (decide (t' = t)) as [->|]; [by rewrite decide_True by (by left)|]. by rewrite decide_False by set_solver.
Qed.

(** Freeing a table whose counts cover its references ends, never releases a
    client too often, and leaves it empty. *)
Lemma export_freeall_empties st L :
  st_ok st L -> refs_ok st L ->
  exists st', export_freeall st = Some st' /\ st_ok st' (fun _ => []) /\ clients_wf (ex_clients st') /\ refs_ok st' (fun _ => []) /\
    forall t, exportlist st' t = Table None (fun _ => Bucket None None) /\ cl_list (ex_clients st') t = [].
Proof.
  intros Hst Hr. destruct (freeall_types_ok mcl_types st L) as (st' & E & Hz & Hl).
  - intros t _. apply Hst.
  - repeat (apply NoDup_cons; split; [set_solver|]). constructor.
  - by eapply all_of_NoDup.
  - by apply st_ok_owned.
  - done.
  - unfold export_freeall. rewrite E. cbn [mbind option_bind]. eexists. split; [reflexivity|].
    assert (forall t, exportlist st' t = Table None (fun _ => Bucket None None)) as Ht.
    { intros t. rewrite Hl, decide_True; [done|]. rewrite list_elem_of_In. destruct t; cbn; tauto. }
    split_and!.
    + split; cbn [ex_store exportlist set_clients].
      * intros t. rewrite Ht. split; [done|constructor|]. intros pos. exists [], [], []. by split_and!.
      * intros t id H. by apply elem_of_nil in H.
    + split; cbn; intros; [by apply elem_of_nil in H|constructor|by apply elem_of_nil in H0].
    + intros clp c. cbn [ex_store ex_clients set_clients client_freeall cl_store]. change (refs _ _ _) with 0%nat. intros Ec.
      apply (Hz clp c). revert Ec. generalize (concat (map (cl_list (ex_clients st')) mcl_types)).
      generalize (cl_store (ex_clients st')). intros m l. revert m. induction l as [|x l IH]; intros m; cbn; [done|].
      intros H. apply IH in H. by apply lookup_delete_Some in H as [_ ?].
    + intros t. split; [apply Ht|done].
Qed.

(** What [client_lookup] keeps of the records, and what it adds. *)
Definition counts_kept (s s' : clients) : Prop :=
  (forall i c, cl_store s !! i = Some c -> exists c', cl_store s' !! i = Some c' /\ m_count c' = m_count c) /\
  forall i c', cl_store s' !! i = Some c' -> cl_store s !! i = None -> m_count c' = 0.

Lemma counts_kept_insert s id c c' L' :
  cl_store s !! id = Some c -> m_count c' = m_count c -> counts_kept s (Clients (<[id := c']> (cl_store s)) L').
Proof.
  intros E Ec. split; cbn.
  - intros i ci Ei. destruct (decide (id = i)) as [<-|]; [|rewrite lookup_insert_ne by done; eauto].
    rewrite lookup_insert_eq. simplify_eq. eauto.
  - intros i ci Ei Hi. destruct (decide (id = i)) as [<-|]; [congruence|]. rewrite lookup_insert_ne in Ei by done. congruence.
Qed.

Lemma init_addrlist_count clp ai : m_count (init_addrlist clp ai) = m_count clp.
Proof.
  destruct ai as [ai|]; [|done]. cbn -[take zip seq]. generalize (zip (seq 0 (length (take NFSCLNT_ADDRMAX (ai_addrs ai)))) (take NFSCLNT_ADDRMAX (ai_addrs ai))).
  intros l. revert clp. induction l as [|p l IH]; intros clp; [done|]. cbn. by rewrite IH.
Qed.

Lemma client_init_count ns erange clp hname ai clp' : client_init ns erange clp hname ai = InitOk clp' -> m_count clp' = 0.
Proof.
  unfold client_init. cbn [m_type]. destruct (m_type clp); try (intros [= <-]; apply init_addrlist_count).
  unfold init_subnetwork, init_netmask4, init_netmask6. repeat case_match; intros; simplify_eq; done.
Qed.

Lemma lookup_finish_counts htype ai s id r s' : lookup_finish htype ai s id = Some (r, s') -> counts_kept s s'.
Proof.
  unfold lookup_finish. destruct (cl_store s !! id) as [clp|] eqn:E; [|done]. cbv zeta. intros H. simplify_eq.
  eapply counts_kept_insert; [done|]. case_if; [apply init_addrlist_count|done].
Qed.

Lemma counts_kept_add s s' id clp :
  cl_store s !! id = None -> m_count clp = 0 -> counts_kept (client_add s id clp) s' -> counts_kept s s'.
Proof.
  intros Hid Hz [H1 H2]. split.
  - intros i c E. destruct (H1 i c) as (c' & E' & Hc); [|eauto]. cbn. rewrite lookup_insert_ne; [done|congruence].
  - intros i c' E' Hi. destruct (decide (i = id)) as [->|Hne].
    + destruct (H1 id clp) as (c2 & E2 & Hc); [cbn; by rewrite lookup_insert_eq|]. simplify_eq. by rewrite Hc.
    + apply (H2 i c' E'). cbn. by rewrite lookup_insert_ne.
Qed.

Lemma client_lookup_counts ns erange s hname canonical r s' :
  client_lookup ns erange s hname canonical = Some (r, s') -> counts_kept s s'.
Proof.
  assert (counts_kept s s) as Hrefl by (split; [eauto|]; intros; congruence).
  unfold client_lookup. cbv zeta. set (resolved := if _ && _ then _ else _). destruct resolved as [[ai|]|].
  2: { by intros [= <- <-]. }
  1: destruct (ai_canonname ai) as [cname|]; [|done].
  all: destruct (find_client _ _ _) as [[id|]|]; [apply lookup_finish_counts| |done].
  all: destruct (client_init _ _ _ _ _) as [| |clp] eqn:Ei; [by intros [= <- <-]|done|].
  all: intros H%lookup_finish_counts; eapply counts_kept_add; [apply not_elem_of_dom, is_fresh|by eapply client_init_count|done].
Qed.

(** No export belongs to a client that is not there. *)
Lemma refs_unowned st L clp : st_ok st L -> cl_store (ex_clients st) !! clp = None -> refs (ex_store st) (all_of L) clp = 0%nat.
Proof.
  intros Hst Hc. pose proof (st_ok_owned st L Hst) as Ho. unfold owned in Ho. revert Ho. generalize (all_of L). intros l.
  induction l as [|x l IH]; intros Ho; [done|]. rewrite refs_cons, IH by (intros y Hy; apply Ho; by right).
  destruct (decide _) as [Hb|]; [|done]. destruct (Ho x) as (e & E & c & Ec); [by left|]. unfold belongs in Hb. rewrite E in Hb.
  cbn in Hb. simplify_eq.
Qed.

Lemma refs_ok_lookup st L s' : st_ok st L -> refs_ok st L -> counts_kept (ex_clients st) s' -> refs_ok (set_clients st s') L.
Proof.
  intros Hst Hr [H1 H2] clp c'. cbn [ex_store ex_clients set_clients]. intros E'.
  destruct (cl_store (ex_clients st) !! clp) as [c|] eqn:E.
  - destruct (H1 clp c E) as (c2 & E2 & Hc2). assert (c2 = c') as -> by congruence. rewrite Hc2. by apply Hr.
  - rewrite (refs_unowned st L clp Hst E), (H2 clp c' E' E). done.
Qed.

(** A well-formed table with correct counts. *)
Record tab_ok (st : extab) (L : mcl_type -> list positive) : Prop := TabOk
  { to_st : st_ok st L; to_refs : refs_ok st L }.

Lemma export_lookup_tab ns erange st L hname path canonical r st' :
  tab_ok st L -> export_lookup ns erange st hname path canonical = Some (r, st') -> tab_ok st' L.
Proof.
  intros [Hst Hr] H. split; [by eapply export_lookup_keeps|]. unfold export_lookup in H.
  destruct (client_lookup ns erange (ex_clients st) hname canonical) as [[clp s]|] eqn:Hc; cbn [mbind option_bind] in H; [|done].
  assert (st' = set_clients st s) as ->.
  { destruct clp; [|by simplify_eq]. destruct (cl_store s !! p); cbn [mbind option_bind] in H; [|done].
    destruct (lookup_loop _ _ _ _ _ _); cbn [mbind option_bind] in H; by simplify_eq. }
  apply refs_ok_lookup; [done..|]. by eapply client_lookup_counts.
Qed.

Lemma all_of_add L t x l' : l' ≡ₚ x :: L t -> all_of (fun t' => if decide (t' = t) then l' else L t') ≡ₚ x :: all_of L.
Proof.
  intros P. unfold all_of, mcl_types. cbn [map concat].
  destruct t; cbn [decide mcl_type_eq_dec]; repeat (destruct (decide _); [|try done]); try done; rewrite P; solve_Permutation.
Qed.

(** ** From etab to a table *)

Lemma export_create_tab ns erange st L xep hname canonical clp c s' :
  tab_ok st L -> e_hostname xep = Some hname ->
  client_lookup ns erange (ex_clients st) hname canonical = Some (Some clp, s') -> cl_store s' !! clp = Some c ->
  List.find (is_export (ex_store st) clp (e_path xep)) (L (m_type c)) = None ->
  exists id st' L', export_create ns erange st xep canonical = Some (Some id, st') /\ tab_ok st' L' /\
    (forall t, L t `sublist_of` L' t) /\ all_of L' ≡ₚ id :: all_of L /\ contents <$> ex_store st' !! id = Some (Export None clp (copy_ent xep) 0 false false false false) /\
    (forall x, x <> id -> contents <$> ex_store st' !! x = contents <$> ex_store st !! x) /\ id ∉ all_of L /\
    cl_list (ex_clients st') = cl_list s' /\ cl_store (ex_clients st') = <[clp := set_count c (m_count c + 1)]> (cl_store s').
Proof.
  intros [Hst Hr] Hh Hc Ec Hn.
  destruct (export_create_found ns erange st L xep hname canonical clp c s' Hst Hh Hc Ec Hn)
    as (id & st' & L' & H1 & H2 & Hsub & H3 & H4 & H5 & H6 & (H7 & H8) & _).
  assert (all_of L' ≡ₚ id :: all_of L) as HP.
  { rewrite <- (all_of_add L (m_type c) id (L' (m_type c)) H3). apply reflexive_eq. unfold all_of. f_equal. apply map_ext. intros t.
    destruct (decide (t = m_type c)) as [->|]; [done|by apply H4]. }
  assert (id ∉ all_of L) as Hid.
  { pose proof (all_of_NoDup st' L' H2) as Hnd. rewrite HP in Hnd. by apply NoDup_cons in Hnd as [? _]. }
  exists id, st', L'. split_and!; try done.
  2: { intros t. destruct (decide (t = m_type c)) as [->|]; [done|by rewrite H4]. }
  split; [done|].
  pose proof (refs_ok_lookup st L s' Hst Hr (client_lookup_counts _ _ _ _ _ _ _ Hc)) as Hr1.
  intros k ck Ek. rewrite (refs_perm _ _ _ _ HP), refs_cons.
  rewrite (refs_ext (ex_store st)).
  2: { intros x Hx. assert (x <> id) as Hne by congruence. specialize (H6 x Hne).
       destruct (ex_store st' !! x), (ex_store st !! x); cbn in *; try done. injection H6. congruence. }
  assert (belongs (ex_store st') k id <-> clp = k) as Hb.
  { unfold belongs. destruct (ex_store st' !! id) as [[]|]; [|done]. cbn in H5. injection H5. intros. subst. cbn. naive_solver. }
  rewrite H8 in Ek. destruct (decide (clp = k)) as [<-|Hne].
  - rewrite lookup_insert_eq in Ek. injection Ek as <-. rewrite decide_True by tauto. cbn [m_count set_count].
    specialize (Hr1 clp c Ec). cbn [ex_store ex_clients set_clients] in Hr1. lia.
  - rewrite lookup_insert_ne in Ek by done. rewrite decide_False by tauto. specialize (Hr1 k ck Ek). cbn [ex_store ex_clients set_clients] in Hr1. lia.
Qed.

(** Nodes may change in everything but their links, clients and paths. *)
Definition linkage (e : nfs_export) : option positive * positive * cstr := (m_next e, m_client e, e_path (m_export e)).

Lemma change_nodes_tab st L m' :
  tab_ok st L -> (forall y, linkage <$> m' !! y = linkage <$> ex_store st !! y) -> tab_ok (set_store st m') L.
Proof.
  intros [Hst Hr] Hm.
  assert (forall y ey, ex_store st !! y = Some ey -> exists ey', m' !! y = Some ey' /\ m_next ey' = m_next ey /\ m_client ey' = m_client ey) as Hs.
  { intros y ey Ey. specialize (Hm y). rewrite Ey in Hm. destruct (m' !! y) as [ey'|]; [|done]. exists ey'. unfold linkage in Hm. cbn in Hm. by injection Hm as -> ->. }
  split; [split|]; cbn [ex_store ex_clients set_store exportlist].
  - intros t. destruct (so_table st L Hst t) as [Hc Hn Hb]. split; [|done|].
    + revert Hc. generalize (p_head (exportlist st t)). clear Hb. induction (L t) as [|y l IH]; intros p Hc; [done|].
      destruct Hc as (-> & ey & Ey & Hc). destruct (Hs y ey Ey) as (ey' & Ey' & Hnx & _). split; [done|]. exists ey'.
      split; [done|]. rewrite Hnx. apply IH; [|done]. by apply NoDup_cons in Hn as [_ ?].
    + intros pos. eapply bucket_ok_ext; [|apply Hb]. intros y. unfold hash_of. specialize (Hm y). unfold linkage in Hm.
      destruct (m' !! y), (ex_store st !! y); cbn in *; try done. by injection Hm as _ _ ->.
  - intros t y Hy. destruct (so_type st L Hst t y Hy) as (ey & Ey & Et). destruct (Hs y ey Ey) as (ey' & Ey' & _ & Hcl).
    exists ey'. split; [done|]. unfold client_type in *. cbn. by rewrite Hcl.
  - intros k c Ek. cbn in Ek. rewrite (refs_ext (ex_store st)); [by apply Hr|]. intros y _. specialize (Hm y). unfold linkage in Hm.
    cbn [ex_store set_store]. destruct (m' !! y), (ex_store st !! y); cbn in *; congruence.
Qed.

Lemma update_node_tab st L id e e' :
  tab_ok st L -> ex_store st !! id = Some e -> m_next e' = m_next e -> m_client e' = m_client e ->
  e_path (m_export e') = e_path (m_export e) -> tab_ok (set_store st (<[id := e']> (ex_store st))) L.
Proof.
  intros Ht E Hnext Hcli Hpath. apply change_nodes_tab; [done|]. intros y. destruct (decide (id = y)) as [<-|]; [|by rewrite lookup_insert_ne].
  rewrite lookup_insert_eq, E. unfold linkage. cbn. by rewrite Hnext, Hcli, Hpath.
Qed.

Lemma set_marks_tab st L id e x xt may :
  tab_ok st L -> ex_store st !! id = Some e -> tab_ok (set_store st (<[id := set_marks e x xt may]> (ex_store st))) L.
Proof. intros H E. by eapply update_node_tab. Qed.

Lemma clients_wf_count s clp c n :
  clients_wf s -> cl_store s !! clp = Some c -> clients_wf (Clients (<[clp := set_count c n]> (cl_store s)) (cl_list s)).
Proof.
  intros [W1 W2 W3] E.
  assert (forall i ci, <[clp := set_count c n]> (cl_store s) !! i = Some ci ->
            exists ci', cl_store s !! i = Some ci' /\ m_type ci' = m_type ci /\ m_hostname ci' = m_hostname ci) as H.
  { intros i ci. destruct (decide (clp = i)) as [<-|]; [|rewrite lookup_insert_ne by done; eauto].
    rewrite lookup_insert_eq. intros [= <-]. eauto. }
  split; cbn [cl_store cl_list]; [|done|].
  - intros t i Hi. destruct (W1 t i Hi) as (ci & Ei & Ht). destruct (decide (clp = i)) as [<-|].
    + rewrite lookup_insert_eq. eexists. split; [done|]. cbn. by simplify_eq.
    + rewrite lookup_insert_ne by done. eauto.
  - intros t i j ci cj Ht Hi Hj Ei Ej Hs. destruct (H i ci Ei) as (ci' & Ei' & _ & Hni), (H j cj Ej) as (cj' & Ej' & _ & Hnj).
    apply (W3 t i j ci' cj'); try done. by rewrite Hni, Hnj.
Qed.

Section transfer.
  Context (ns : resolver) (erange : bool) (P : cstr -> Prop) (Hns : hosts_apart ns P).

(** An entry whose client is in use and can be made. *)
Definition known_client (xp : exportent) : Prop := exists h, e_hostname xp = Some h /\ known ns P erange h.

(** What distinguishes exports: the client's kind and canonical name in lower
    case and the path. *)
Definition key (xp : exportent) : mcl_type * cstr * cstr :=
  let h := default [] (e_hostname xp) in (client_gettype h, tolower <$> canon ns h, e_path xp).

(** The export read from an entry. *)
Definition present (st : extab) (id : positive) (xp : exportent) : Prop :=
  exists e c h, ex_store st !! id = Some e /\ contents e = Export None (m_client e) (copy_ent xp) 0 true true false false /\
    cl_store (ex_clients st) !! m_client e = Some c /\ e_hostname xp = Some h /\
    m_type c = client_gettype h /\ strcaseeq (canon ns h) (m_hostname c) = true.

Record holds (st : extab) (L : mcl_type -> list positive) (xps : list exportent) : Prop := Holds
  { hd_tab : tab_ok st L; hd_clients : clients_ok ns P (ex_clients st);
    hd_exports : exists ids, Forall2 (present st) ids xps /\ all_of L ≡ₚ ids }.

(** The records of [present] survive what a lookup or a count does to clients. *)
Definition names_kept (s s' : clients) : Prop :=
  forall i c, cl_store s !! i = Some c -> exists c', cl_store s' !! i = Some c' /\ m_type c' = m_type c /\ m_hostname c' = m_hostname c.

Lemma present_kept st st' id xp :
  present st id xp -> contents <$> ex_store st' !! id = contents <$> ex_store st !! id -> names_kept (ex_clients st) (ex_clients st') ->
  present st' id xp.
Proof.
  intros (e & c & h & E & Hc & Ec & Hh & Ht & Hn) Hs Hk. rewrite E in Hs. destruct (ex_store st' !! id) as [e'|] eqn:E'; [|done].
  apply Some_inj in Hs.
  assert (m_client e' = m_client e) as Hcl by (change (m_client (contents e') = m_client (contents e)); by rewrite Hs).
  destruct (Hk _ _ Ec) as (c' & Ec' & Ht' & Hn'). exists e', c', h. rewrite Hcl, Ht', Hn'. split_and!; try done.
  by rewrite <- Hc, <- Hs.
Qed.

(** An export of the same client and path has the same key. *)
Lemma present_key st id xp clp c h path :
  present st id xp -> is_export (ex_store st) clp path id = true -> cl_store (ex_clients st) !! clp = Some c ->
  m_type c = client_gettype h -> strcaseeq (canon ns h) (m_hostname c) = true -> key xp = (client_gettype h, tolower <$> canon ns h, path).
Proof.
  intros (e & c' & h' & E & Hc & Ec & Hh & Ht & Hn) Hi Ec' Ht' Hn'. unfold is_export in Hi. rewrite E in Hi.
  apply andb_true_iff in Hi as [Hcl%bool_decide_eq_true Hp%streq_true]. subst.
  assert (c' = c) as -> by congruence. unfold key. rewrite Hh. change (default [] (Some h')) with h'. cbv zeta.
  assert (client_gettype h' = client_gettype h) as -> by congruence.
  assert (tolower <$> canon ns h' = tolower <$> canon ns h) as -> by (apply strcaseeq_spec in Hn, Hn'; congruence).
  change (m_export e) with (m_export (contents e)). by rewrite Hc.
Qed.

Definition root_fsid (xp : exportent) : bool := has_flag (e_flags xp) NFSEXP_FSID && (e_fsid xp =? 0).

Lemma lookup_absent st L xps xp h clp s1 c :
  holds st L xps -> e_hostname xp = Some h -> key xp ∉ key <$> xps ->
  (forall i ci, cl_store (ex_clients st) !! i = Some ci -> cl_store s1 !! i = Some ci) ->
  cl_store s1 !! clp = Some c -> m_type c = client_gettype h -> strcaseeq (canon ns h) (m_hostname c) = true ->
  List.find (is_export (ex_store st) clp (e_path xp)) (L (m_type c)) = None.
Proof.
  intros [[Hst _] W (ids & Hp & HL)] Hh Hk Hold Ec Hct Hn.
  destruct (List.find _ _) as [id|] eqn:Ef; [|done]. exfalso. apply Hk.
  apply find_some in Ef as [Hin%list_elem_of_In Hi]. assert (id ∈ ids) as Hid by (rewrite <- HL; apply elem_of_all_of; eauto).
  apply list_elem_of_lookup in Hid as (i & Hi'). destruct (Forall2_lookup_l _ _ _ _ _ Hp Hi') as (xp' & Ex & Hpr).
  apply list_elem_of_fmap. exists xp'. split; [|by apply list_elem_of_lookup_2 in Ex].
  assert (cl_store (ex_clients st) !! clp = Some c) as Ecs.
  { destruct Hpr as (e & c' & h' & E & _ & Ec' & _). unfold is_export in Hi. rewrite E in Hi.
    apply andb_true_iff in Hi as [<-%bool_decide_eq_true _]. pose proof (Hold _ _ Ec'). congruence. }
  rewrite (present_key st id xp' clp c h (e_path xp) Hpr Hi Ecs Hct Hn). unfold key. by rewrite Hh.
Qed.

Lemma xtab_step st L xps xp :
  holds st L xps -> known_client xp -> key xp ∉ key <$> xps ->
  exists st' L', (forall rest v, xtab_loop ns erange st (xp :: rest) true v = xtab_loop ns erange st' rest true (if root_fsid xp then false else v)) /\
    holds st' L' (xps ++ [xp]).
Proof using Hns.
  intros Hh (h & Eh & Hkn) Hk.
  destruct (client_lookup_known ns P Hns erange _ h (hd_clients _ _ _ Hh) Hkn) as (clp & s1 & c & Hc & W1 & Hold & _ & Ec & _ & Hct & Hn & _ & Hc2).
  specialize (Hc2 erange). pose proof (lookup_absent st L xps xp h clp s1 c Hh Eh Hk Hold Ec Hct Hn) as Hnone.
  destruct Hh as [[Hst Hr] W (ids & Hp & HL)].
  assert (tab_ok (set_clients st s1) L) as Htab.
  { split; [apply st_ok_clients; [done|by apply (client_lookup_types _ _ _ _ _ _ _ Hc)]|].
    apply refs_ok_lookup; [done..|by eapply client_lookup_counts]. }
  destruct (export_create_tab ns erange (set_clients st s1) L xp h false clp c s1 Htab Eh Hc2) as
    (id & st' & L' & Ecr & Htab' & _ & HP & Hnew & Holdx & Hid & Hcl & Hcs); [done..|].
  destruct (ex_store st' !! id) as [e|] eqn:Ee; [|done]. apply Some_inj in Hnew.
  exists (set_store st' (<[id := set_marks e (ex_exported e) true true]> (ex_store st'))), L'. split.
  - intros rest v. cbn [xtab_loop]. rewrite Eh. cbn [mbind option_bind negb].
    destruct (export_lookup_run ns erange st L h (e_path xp) false clp s1 Hst Hc) as (c' & Ec' & ->).
    assert (c' = c) as -> by congruence. rewrite Hnone. cbn [mbind option_bind]. rewrite Ecr. cbn [mbind option_bind]. by rewrite Ee.
  - split.
    + by apply set_marks_tab.
    + cbn [ex_clients set_store]. apply (clients_ok_count ns P s1 _ clp c (m_count c + 1) W1 Ec Hcs). intros t. by rewrite Hcl.
    + assert (names_kept (ex_clients st) (ex_clients st')) as Hkept.
      { intros i ci Ei. apply Hold in Ei. rewrite Hcs. destruct (decide (clp = i)) as [<-|].
        - rewrite lookup_insert_eq. eexists. split; [done|]. by simplify_eq.
        - rewrite lookup_insert_ne by done. eauto. }
      exists (ids ++ [id]). split; [|by rewrite HP, HL, Permutation_cons_append].
      apply Forall2_app; [|apply Forall2_cons; split; [|done]].
      * apply Forall2_same_length_lookup. split; [by eapply Forall2_length|]. intros k i x Hk1 Hk2.
        pose proof (Forall2_lookup_lr _ _ _ _ _ _ Hp Hk1 Hk2) as Hpr.
        assert (i <> id) as Hne by (intros ->; apply Hid; rewrite HL; by apply list_elem_of_lookup_2 in Hk1).
        eapply present_kept; [exact Hpr| |done]. cbn [ex_store set_store]. rewrite lookup_insert_ne by done. by apply Holdx.
      * assert (m_client e = clp) as Hec by (change (m_client (contents e) = clp); by rewrite Hnew).
        exists (set_marks e (ex_exported e) true true), (set_count c (m_count c + 1)), h.
        cbn [ex_store ex_clients set_store]. rewrite lookup_insert_eq. cbn [m_client set_marks]. split_and!; try done.
        { rewrite Hec. destruct e. cbn in *. by injection Hnew as -> -> -> -> -> -> ->. }
        by rewrite Hec, Hcs, lookup_insert_eq.
Qed.

Lemma xtab_loop_holds xps st L done v :
  holds st L done -> Forall known_client xps -> NoDup (key <$> (done ++ xps)) ->
  exists st' L', xtab_loop ns erange st xps true v = Some (st', v && negb (existsb root_fsid xps)) /\ holds st' L' (done ++ xps).
Proof using Hns.
  revert st L done v. induction xps as [|xp xps IH]; intros st L don v Hh Hc Hn.
  { exists st, L. rewrite app_nil_r. cbn. by rewrite andb_true_r. }
  apply Forall_cons in Hc as [Hc1 Hc2].
  destruct (xtab_step st L don xp Hh Hc1) as (st1 & L1 & E & Hh1).
  { rewrite fmap_app, NoDup_app in Hn. destruct Hn as (_ & Hn & _). intros Hin. apply (Hn _ Hin). by left. }
  rewrite E. destruct (IH st1 L1 (don ++ [xp]) (if root_fsid xp then false else v) Hh1 Hc2) as (st' & L' & E' & Hh').
  { by rewrite <- app_assoc. }
  exists st', L'. rewrite <- app_assoc in Hh'. split; [|done]. rewrite E'. do 2 f_equal. cbn [existsb].
  destruct (root_fsid xp); cbn [orb negb]; by rewrite ?andb_false_r.
Qed.
End transfer.

(** ** The whole way *)

Lemma put_all_texts m xes t : put_all m xes = Some t ->
  exists texts, Forall2 (fun xe t => putexportent m xe = Some t) xes texts /\ t = mjoin texts.
Proof.
  revert t. induction xes as [|xe xes IH]; intros t; cbn [put_all].
  - intros [= <-]. by exists [].
  - destruct (putexportent m xe) as [t1|] eqn:E; [|done]. cbn [mbind option_bind]. destruct (put_all m xes) as [t2|]; [|done].
    cbn [mbind option_bind]. intros [= <-]. destruct (IH t2 eq_refl) as (texts & H & ->). exists (t1 :: texts). split; [by constructor|done].
Qed.

(** The entries a table has for etab: of its exports, those marked as being in
    it, in the order of the lists, under the names of their clients. *)
Definition etab_entry (st : extab) (id : positive) : option exportent :=
  e ← ex_store st !! id; c ← cl_store (ex_clients st) !! m_client e;
  if m_xtabent e then Some (set_hostname (m_export e) (Some (m_hostname c))) else None.
Definition etab_entries (st : extab) (L : mcl_type -> list positive) : list exportent := omap (etab_entry st) (all_of L).

Lemma write_loop_entries fuel st p l :
  chain (ex_store st) p l None -> (length l <= fuel)%nat -> owned st l -> write_loop fuel st p true = Some (omap (etab_entry st) l).
Proof.
  revert fuel p. induction l as [|x l IH]; intros fuel p Hc Hf Ho.
  { cbn in Hc. subst p. by destruct fuel. }
  destruct Hc as (-> & e & E & Hc). destruct fuel as [|fuel]; [cbn in Hf; lia|]. cbn [write_loop omap list_omap].
  destruct (Ho x) as (e' & E' & c & Ec); [by left|]. assert (e' = e) as -> by congruence.
  assert (etab_entry st x = if m_xtabent e then Some (set_hostname (m_export e) (Some (m_hostname c))) else None) as -> by
    (unfold etab_entry; rewrite E; cbn; by rewrite Ec).
  rewrite E. cbn [mbind option_bind]. rewrite (IH fuel (m_next e)); [|done|cbn in Hf; lia|].
  - cbn [mbind option_bind andb negb]. rewrite Ec. by destruct (m_xtabent e).
  - intros y Hy. apply Ho. by right.
Qed.

Lemma write_types_entries st L : st_ok st L -> write_types mcl_types st true = Some (etab_entries st L).
Proof.
  intros Hst. pose proof (st_ok_owned st L Hst) as Ho. unfold etab_entries, all_of in *. revert Ho. generalize mcl_types.
  induction l as [|t types IH]; intros Ho; [done|]. cbn [write_types map concat] in *. rewrite omap_app.
  destruct (so_table st L Hst t) as [Hc _ _].
  rewrite (write_loop_entries (size (ex_store st)) st _ (L t) Hc); [|by eapply chain_size; eapply so_table|].
  - cbn [mbind option_bind]. rewrite IH; [done|]. intros x Hx. apply Ho. apply elem_of_app. by right.
  - intros x Hx. apply Ho. apply elem_of_app. by left.
Qed.

(** The flavor that [secinfo_show] adds changes neither client nor path nor fsid. *)
Lemma shown_same m ep : e_hostname (shown m ep) = e_hostname ep /\ e_path (shown m ep) = e_path ep /\
  e_flags (shown m ep) = e_flags ep /\ e_fsid (shown m ep) = e_fsid ep.
Proof. by destruct (shown_cases m ep) as [[_ ->]|[_ ->]]. Qed.

Lemma known_shown ns erange P m xes : Forall (known_client ns erange P) xes -> Forall (known_client ns erange P) (shown m <$> xes).
Proof.
  intros H. apply Forall_fmap. eapply Forall_impl; [exact H|]. intros xp (h & Hh & Hk). exists h. by destruct (shown_same m xp) as (-> & _).
Qed.

Lemma key_shown ns m (xes : list exportent) : key ns <$> (shown m <$> xes) = key ns <$> xes.
Proof.
  rewrite <- list_fmap_compose. apply list_fmap_ext. intros i xp _. change (key ns (shown m xp) = key ns xp). unfold key. by destruct (shown_same m xp) as (-> & -> & _).
Qed.

Lemma root_shown m (xes : list exportent) : existsb root_fsid (shown m <$> xes) = existsb root_fsid xes.
Proof.
  induction xes as [|xp xes IH]; [done|]. cbn [fmap list_fmap existsb]. rewrite <- IH. f_equal. unfold root_fsid.
  by destruct (shown_same m xp) as (_ & _ & -> & ->).
Qed.

(** C1. etab carries the export table from exportfs to mountd: when the text that
    [xtab_write] produces for the writer's table is read by [xtab_read] after
    [export_freeall] has emptied the reader's, the reader holds exactly the
    exports that the writer's table marks for etab, each once, with the same options and its client,
    marked as exportable; the freeing neither fails nor releases a client too
    often, and the pseudo root is needed exactly when no entry has fsid=0.  An
    export without flavors, the default, arrives with the flavor sys that
    [secinfo_show] gives it.  The entries must have a line that can be read
    ([line_ok]: no squash_uids= or squash_gids= list and no reexport=, among others),
    and the reader's name service must resolve the single hosts among the clients
    and keep them apart ([hosts_apart]). *)
Theorem etab_transfer ns erange P m db realpath def stack wst Lw xes text rst L v :
  st_ok wst Lw -> etab_entries wst Lw = xes -> put_all m xes = Some text ->
  mask_ok m -> blank_def def -> Forall (line_ok m realpath) (shown m <$> xes) ->
  hosts_apart ns P -> Forall (known_client ns erange P) xes -> NoDup (key ns <$> xes) ->
  tab_ok rst L ->
  exists rst0 rst' L', export_freeall rst = Some rst0 /\ xtab_text m wst true = Some text /\
    xtab_read ns erange m db realpath rst0 true def (Some text) stack true v = Some (rst', negb (existsb root_fsid xes)) /\
    holds ns P rst' L' (shown m <$> xes).
Proof.
  intros Hwst Hw Ht Hm Hd Hl Hns Hc Hk [Hst Hr].
  destruct (export_freeall_empties rst L Hst Hr) as (rst0 & E0 & Hst0 & W0 & Hr0 & Hz).
  destruct (put_all_texts m xes text Ht) as (texts & H2 & ->).
  destruct (xtab_loop_holds ns erange P Hns (shown m <$> xes) rst0 (fun _ => []) [] true) as (rst' & L' & E & Hh).
  { split; [by split|apply no_clients_ok; intros t; apply (Hz t)|]. exists []. by split. }
  { by apply known_shown. }
  { cbn [app]. by rewrite key_shown. }
  exists rst0, rst', L'. split; [done|]. split; [unfold xtab_text; by rewrite (write_types_entries wst Lw Hwst), Hw|]. split; [|done].
  unfold xtab_read. cbn [negb]. rewrite (read_back_shown m db realpath def xes texts stack Hm Hd Hl H2). cbn [mbind option_bind orb].
  by rewrite E, root_shown.
Qed.

(** Exports to everybody, to a netgroup and, with the default options, to a host. *)
Definition world_entry : exportent := set_hostname sample_entry (Some $"*").
Definition written_tab : extab :=
  match xtab_loop ns_hosts false empty_tab [world_entry; second_entry; default_entry] true true with Some (st, _) => st | None => empty_tab end.

Lemma empty_tab_tab : tab_ok empty_tab (fun _ => []).
Proof. split; [apply empty_tab_ok|]. intros clp c E. exfalso. cbn in E. by rewrite lookup_empty in E. Qed.

Lemma world_line ep : ep = world_entry \/ ep = second_entry -> line_ok 15 (fun _ => None) ep.
Proof.
  intros [->| ->]; [|apply sample_line; auto]. destruct (sample_line sample_entry) as [Hp H1 H2 H3 _]; [auto|].
  split; try done; [by destruct Hp|]. do 2 eexists. split; [reflexivity|]. split; [vm_compute; reflexivity|].
  split_and!; [done|done|by apply strchr_None|by apply strchr_None|repeat constructor|].
  split; [done|by apply strchr_None|reflexivity|cbn; lia|left; repeat constructor].
Qed.

Lemma entries_known xps : xps ⊆ [world_entry; second_entry; default_entry] -> Forall (known_client ns_hosts false names_hosts) xps.
Proof.
  intros Hs. apply Forall_forall. intros ep Hin%Hs. rewrite list_elem_of_In in Hin. destruct Hin as [<-|[<-|[<-|[]]]]; eexists; (split; [reflexivity|]).
  - split; [by left|]. eexists. vm_compute. reflexivity.
  - split; [by left|]. eexists. vm_compute. reflexivity.
  - split; [right; by left|]. eexists. vm_compute. reflexivity.
Qed.

Lemma entries_keys : NoDup (key ns_hosts <$> [default_entry; second_entry; world_entry]).
Proof. repeat (apply NoDup_cons; split; [rewrite list_elem_of_In; cbn; intuition discriminate|]). apply NoDup_nil_2. Qed.

Lemma written_tab_ok : exists L, st_ok written_tab L.
Proof.
  destruct (xtab_loop_holds ns_hosts false names_hosts hosts_apart_ex [world_entry; second_entry; default_entry] empty_tab (fun _ => []) [] true)
    as (st & L & E & [[H _] _ _]).
  - split; [apply empty_tab_tab|by apply no_clients_ok|]. exists []. by split.
  - by apply entries_known.
  - repeat (apply NoDup_cons; split; [rewrite list_elem_of_In; cbn; intuition discriminate|]). apply NoDup_nil_2.
  - exists L. unfold written_tab. by rewrite E.
Qed.

Lemma etab_transfer_witness :
  match put_all 15 [default_entry; second_entry; world_entry] with
  | Some text => exists rst0 rst' L', export_freeall empty_tab = Some rst0 /\
      xtab_read ns_hosts false 15 (fun _ _ => None) (fun _ => None) rst0 true no_ent (Some text) $"-rw" true false = Some (rst', true) /\
      holds ns_hosts names_hosts rst' L' [shown 15 default_entry; second_entry; world_entry]
  | None => False
  end.
Proof.
  destruct (put_all 15 [default_entry; second_entry; world_entry]) as [text|] eqn:E; [|vm_compute in E; discriminate].
  destruct written_tab_ok as [Lw HLw].
  destruct (etab_transfer ns_hosts false names_hosts 15 (fun _ _ => None) (fun _ => None) no_ent $"-rw" written_tab Lw
    [default_entry; second_entry; world_entry] text empty_tab (fun _ => []) false) as (rst0 & rst' & L' & H0 & _ & H1 & H2).
  - exact HLw.
  - apply Some_inj. rewrite <- write_types_entries by exact HLw. vm_compute. reflexivity.
  - exact E.
  - reflexivity.
  - done.
  - apply Forall_cons; split; [exact default_line|]. apply Forall_cons; split; [|apply Forall_singleton]; apply world_line; auto.
  - exact hosts_apart_ex.
  - apply entries_known. set_solver.
  - exact entries_keys.
  - apply empty_tab_tab.
  - exists rst0, rst', L'. by split_and!.
Defined.
