(* ===== verification/V4root.v ===== *)
(** * The pseudo file system of NFSv4 (support/export/v4root.c, export_test of export.c)

    For every export, each directory above it that is not exported gets an
    export of its own, read-only and marked [NFSEXP_V4ROOT], so that a client can
    walk from the root.  The answers of the kernel, the presence of a keytab and
    the hash of a path are arguments. *)

From S2P Require Import Prelude Cacheio Exports ExportsRT Client Hosts ExportTab Xio Xtab.

(** [e_fsid_value] and the other fields the initializer leaves out are zero. *)
Definition pseudo_root : exportent :=
  Ent (Some $"*") $"/"
    (Z.lor (Z.lor (Z.lor (Z.lor NFSEXP_READONLY NFSEXP_NOSUBTREECHECK) NFSEXP_FSID) NFSEXP_V4ROOT) NFSEXP_INSECURE_PORT)
    65534 65534 [] [] 0 None FSLOC_NONE None None [] [] 0 None REEXP_NONE [].

Section v4root.
  Context (ns : resolver) (erange : bool).
  (** Writing to the channel of the kernel succeeds; /etc/krb5.keytab exists; the
      UUID of a path, in capitals and without hyphens. *)
  Context (chan_write : cstr -> bool) (have_keytab : bool) (path_uuid : cstr -> cstr).

Definition set_uuid (eep : exportent) (u : option cstr) : exportent := set_fsid eep (e_fsid eep) u.

(** The request is "-test-client- path 3 flags 65534 65534 0" in a buffer of
    1089 bytes. *)
Definition export_test (eep : exportent) (with_fsid : bool) : bool :=
  let flags := if with_fsid then Z.lor (e_flags eep) NFSEXP_FSID else e_flags eep in
  let w := qword_add (WBuf $"-test-client- " (1089 - 14)) (e_path eep) in
  if w_len w <? 1 then false
  else chan_write (w_out w ++ take (Z.to_nat (w_len w - 1)) ($" 3 " ++ itoa flags ++ $" 65534 65534 0" ++ [NL])).

(** [new->flags |= NFSEXP_INSECURE_PORT] on the entry at the index returned. *)
Fixpoint pseudofs_flavors (flavs : list flav_info) (pseudo : exportent) : option exportent :=
  match flavs with
  | [] => Some pseudo
  | flav :: flavs =>
      if (fnum flav =? 0) || (need_krb5 flav && negb have_keytab) then pseudofs_flavors flavs pseudo
      else match secinfo_addflavor flav pseudo with
           | (_, None) => None
           | (pseudo, Some i) =>
               pseudofs_flavors flavs
                 (set_secinfo pseudo (alter (fun e => Entry (what e) (Z.lor (flags e) NFSEXP_INSECURE_PORT)) i (e_secinfo pseudo)))
           end
  end.
Definition set_pseudofs_security (pseudo : exportent) : option exportent := pseudofs_flavors flav_map pseudo.

Definition pseudo_entry (path : cstr) (curexp : exportent) : option exportent :=
  let eep := dupexportent pseudo_root in
  let eep := Ent (e_hostname curexp) (take 1024 path) (e_flags eep) (e_anonuid eep) (e_anongid eep) (e_squids eep) (e_sqgids eep)
               (e_fsid eep) (e_mountpoint eep) (e_fslocmethod eep) (e_fslocdata eep) (e_uuid eep) (e_secinfo eep)
               (e_xprtsec eep) default_ttl (e_realpath eep) (e_reexport eep) (e_fsid_value eep) in
  let eep := if negb (streq path $"/") then set_flags eep (Z.ldiff (e_flags eep) NFSEXP_FSID) else eep in
  let eep := if negb (streq path $"/") && negb (export_test eep false) then set_uuid eep (Some (path_uuid path)) else eep in
  set_pseudofs_security eep.

Definition v4root_create (st : extab) (path : cstr) (curexp : exportent) : option (option positive * extab) :=
  eep ← pseudo_entry path curexp;
  export_create ns erange st eep false.

(** The table, and whether 0 is returned. *)
Definition pseudofs_update (st : extab) (hostname path : cstr) (source : exportent) : option (extab * bool) :=
  '(exp, st) ← export_lookup ns erange st hostname path false;
  match exp with
  | None =>
      '(new, st) ← v4root_create st path source;
      Some (st, match new with Some _ => true | None => false end)
  | Some id =>
      e ← ex_store st !! id;
      if negb (has_flag (e_flags (m_export e)) NFSEXP_V4ROOT) then Some (st, true)
      else pseudo ← set_pseudofs_security (m_export e);
           Some (set_store st (<[id := Export (m_next e) (m_client e) pseudo (ex_exported e) (m_xtabent e) (m_mayexport e)
                                        (m_changed e) (m_warned e)]> (ex_store st)), true)
  end.

(** [for (ptr = path; ptr; ptr = strchr(ptr, '/'))]: [before] is what stands
    before [ptr]; the loop leaves at the first failure.  [None] includes a step
    behind the terminator, which only an empty path takes. *)
Fixpoint parents_loop (fuel : nat) (st : extab) (hostname before ptr : cstr) (source : exportent) : option (extab * bool) :=
  match fuel with
  | O => None
  | S fuel =>
      '(st, ok) ← pseudofs_update st hostname (match before with [] => $"/" | _ => before end) source;
      if ok : bool then
        match ptr with
        | [] => None
        | c :: ptr =>
            match strchr "/" ptr with
            | None => Some (st, true)
            | Some (a, b) => parents_loop fuel st hostname (before ++ c :: a) ("/"%char :: b) source
            end
        end
      else Some (st, false)
  end.

Definition v4root_add_parents (st : extab) (exp : exportent) : option (extab * bool) :=
  hostname ← e_hostname exp;
  parents_loop (S (length (e_path exp))) st hostname [] (e_path exp) exp.

(** The walk over one list, which may grow. *)
Fixpoint v4root_walk (fuel : nat) (st : extab) (exp : option positive) : option extab :=
  match exp, fuel with
  | None, _ => Some st
  | Some _, O => None
  | Some id, S fuel =>
      e ← ex_store st !! id;
      st ← (if has_flag (e_flags (m_export e)) NFSEXP_V4ROOT then Some st
            else
              let ent := if streq (e_path (m_export e)) $"/" && negb (has_flag (e_flags (m_export e)) NFSEXP_FSID)
                         then set_fsid (set_flags (m_export e) (Z.lor (e_flags (m_export e)) NFSEXP_FSID)) 0 (e_uuid (m_export e))
                         else m_export e in
              let st := set_store st (<[id := Export (m_next e) (m_client e) ent (ex_exported e) (m_xtabent e) (m_mayexport e)
                                                (m_changed e) (m_warned e)]> (ex_store st)) in
              '(st, _) ← v4root_add_parents st ent; Some st);
      e ← ex_store st !! id;
      v4root_walk fuel st (m_next e)
  end.

Fixpoint v4root_types (fuel : nat) (types : list mcl_type) (st : extab) : option extab :=
  match types with
  | [] => Some st
  | t :: types => st ← v4root_walk fuel st (p_head (exportlist st t)); v4root_types fuel types st
  end.

(** [features]: the flags of [get_export_features()]. *)
Definition v4root_set (fuel : nat) (st : extab) (v4root_needed : bool) (features : Z) : option extab :=
  if negb v4root_needed then Some st
  else if negb (has_flag features NFSEXP_V4ROOT) then Some st
  else v4root_types fuel mcl_types st.
End v4root.

(** ** The flavors of a pseudo export *)

(** The flavors by number: all those of the table but AUTH_NONE, the Kerberos
    ones only with a keytab. *)
Definition pseudo_flavors (have_keytab : bool) : list flav_info :=
  (if have_keytab then [Flav $"krb5" 390003 true; Flav $"krb5i" 390004 true; Flav $"krb5p" 390005 true] else [])
  ++ [Flav $"unix" 1 false].

Definition pseudo_sec (f : Z) (flav : flav_info) : entry flav_info := Entry flav (Z.lor f NFSEXP_INSECURE_PORT).

Lemma pseudofs_add have_keytab flav flavs ep l :
  fnum flav <> 0 -> need_krb5 flav && negb have_keytab = false -> find_entry fnum (fnum flav) 0 l = None -> (length l < 8)%nat ->
  pseudofs_flavors have_keytab (flav :: flavs) (set_secinfo ep l)
  = pseudofs_flavors have_keytab flavs (set_secinfo ep (l ++ [pseudo_sec (e_flags ep) flav])).
Proof.
  intros Hz Hk Hf Hl. cbn [pseudofs_flavors]. rewrite (proj2 (Z.eqb_neq _ _) Hz), Hk. cbn [orb].
  unfold secinfo_addflavor, add_entry. change (e_secinfo (set_secinfo ep l)) with l. rewrite Hf.
  change (SECFLAVOR_COUNT) with 8%nat. rewrite (proj2 (Nat.leb_gt _ _) Hl). cbn [fst snd].
  change (e_flags (set_secinfo ep l)) with (e_flags ep). f_equal.
  change (set_secinfo ep (alter (fun e => Entry (what e) (Z.lor (flags e) NFSEXP_INSECURE_PORT)) (length l) (l ++ [Entry flav (e_flags ep)]))
    = set_secinfo ep (l ++ [pseudo_sec (e_flags ep) flav])). f_equal.
  rewrite alter_app_r_alt by lia. by rewrite Nat.sub_diag.
Qed.

Lemma pseudofs_again have_keytab flav flavs ep l :
  fnum flav <> 0 -> need_krb5 flav && negb have_keytab = false ->
  (exists i f, find_entry fnum (fnum flav) 0 l = Some i /\ l !! i = Some (pseudo_sec (e_flags ep) f)) ->
  pseudofs_flavors have_keytab (flav :: flavs) (set_secinfo ep l) = pseudofs_flavors have_keytab flavs (set_secinfo ep l).
Proof.
  intros Hz Hk (i & f & Hf & Hi). cbn [pseudofs_flavors]. rewrite (proj2 (Z.eqb_neq _ _) Hz), Hk. cbn [orb].
  unfold secinfo_addflavor, add_entry. change (e_secinfo (set_secinfo ep l)) with l. rewrite Hf. f_equal.
  change (set_secinfo ep (alter (fun e => Entry (what e) (Z.lor (flags e) NFSEXP_INSECURE_PORT)) i l) = set_secinfo ep l). f_equal.
  apply list_eq. intros j. destruct (decide (i = j)) as [<-|Hne]; [|by rewrite list_lookup_alter_ne].
  rewrite list_lookup_alter_eq, Hi. cbn. unfold pseudo_sec. cbn. by rewrite <- Z.lor_assoc, Z.lor_diag.
Qed.

Lemma pseudofs_skip have_keytab flav flavs ep :
  (fnum flav =? 0) || (need_krb5 flav && negb have_keytab) = true ->
  pseudofs_flavors have_keytab (flav :: flavs) ep = pseudofs_flavors have_keytab flavs ep.
Proof. intros H. cbn [pseudofs_flavors]. by rewrite H. Qed.

Ltac pseudo_step := first
  [ rewrite pseudofs_skip by reflexivity
  | rewrite pseudofs_add by (reflexivity || discriminate || (cbn [length app]; lia)); cbn [app]
  | rewrite pseudofs_again by (reflexivity || discriminate || (do 2 eexists; split; reflexivity)) ].

(** Fresh, or once more on what it gave: the result is the same. *)
Lemma pseudofs_security_set have_keytab ep l :
  l = [] \/ l = (pseudo_sec (e_flags ep) <$> pseudo_flavors have_keytab) ->
  set_pseudofs_security have_keytab (set_secinfo ep l) = Some (set_secinfo ep (pseudo_sec (e_flags ep) <$> pseudo_flavors have_keytab)).
Proof.
  intros [->| ->]; unfold set_pseudofs_security, flav_map; destruct have_keytab; cbn [pseudo_flavors fmap list_fmap app];
    repeat pseudo_step; reflexivity.
Qed.

(** ** The directories above an export *)

(** What [parents_loop] visits. *)
Fixpoint visited (fuel : nat) (before ptr : cstr) : list cstr :=
  match fuel with
  | O => []
  | S fuel =>
      (match before with [] => $"/" | _ => before end) ::
      match ptr with
      | [] => []
      | c :: ptr => match strchr "/" ptr with
                    | None => []
                    | Some (a, b) => visited fuel (before ++ c :: a) ("/"%char :: b)
                    end
      end
  end.
Definition parents (path : cstr) : list cstr := visited (S (length path)) [] path.

(** The root, and the path up to each of its slashes but the first. *)
Lemma visited_spec fuel before ptr q : (length ptr < fuel)%nat -> ptr <> [] ->
  (before = [] \/ deref ptr = "/"%char) ->
  q ∈ visited fuel before ptr <->
  q = (match before with [] => $"/" | _ => before end) \/
  exists a b, ptr = a ++ "/"%char :: b /\ a <> [] /\ q = before ++ a.
Proof.
  revert before ptr. induction fuel as [|fuel IH]; intros before ptr Hf Hne Hb; [lia|]. cbn [visited].
  destruct ptr as [|c ptr]; [done|]. rewrite elem_of_cons. apply or_iff_compat_l.
  destruct (strchr "/" ptr) as [[a b]|] eqn:E.
  - apply strchr_Some in E as [-> Ha]. cbn [length] in Hf. rewrite length_app in Hf. cbn [length] in Hf.
    rewrite IH by (done || (cbn [length]; lia) || (by right)).
    assert (match before ++ c :: a with [] => $"/" | _ => before ++ c :: a end = before ++ c :: a) as -> by (by destruct before).
    split.
    + intros [->|(a' & b' & E & Ha' & ->)].
      * exists (c :: a), b. by split_and!.
      * destruct a' as [|d a']; [done|]. cbn in E. injection E as <- E. exists (c :: a ++ "/"%char :: a'), b'. split_and!; [|done|].
        { cbn. f_equal. rewrite <- app_assoc. cbn. by rewrite E. }
        by rewrite <- app_assoc.
    + intros (a' & b' & E & Ha' & ->). destruct a' as [|d a']; [done|]. cbn in E. injection E as <- E.
      destruct (decide (a' = a)) as [->|Hne']; [by left|]. right.
      assert (exists r, a' = a ++ "/"%char :: r /\ b = r ++ "/"%char :: b') as (r & -> & ->).
      { clear -E Ha Hne'. revert a' E Hne'. induction a as [|x a IH]; intros [|y a'] E Hne'; cbn in E; try done.
        - injection E as <- ->. eauto.
        - injection E as -> E. destruct Ha. by left.
        - injection E as <- E. apply not_elem_of_cons in Ha as [_ Ha]. destruct (IH Ha a' E) as (r & -> & ->); [congruence|]. eauto. }
      exists ("/"%char :: r), b'. split_and!; [done|done|]. by rewrite <- app_assoc.
  - apply strchr_None in E. split; [by intros H%elem_of_nil|]. intros (a' & b' & E' & Ha' & _).
    destruct a' as [|d a']; [done|]. cbn in E'. injection E' as -> ->. destruct E. apply elem_of_app. right. by left.
Qed.

Lemma parents_spec path q : path <> [] ->
  q ∈ parents path <-> q = $"/" \/ exists a b, path = a ++ "/"%char :: b /\ a <> [] /\ q = a.
Proof. intros Hne. unfold parents. rewrite visited_spec by (done || lia || auto). done. Qed.

Section cover.
  Context (ns : resolver) (erange : bool) (chan_write : cstr -> bool) (have_keytab : bool) (path_uuid : cstr -> cstr).
  Context (P : cstr -> Prop) (Hns : hosts_apart ns P).

(** There is an export of the path to the client of that name. *)
Definition covers (st : extab) (L : mcl_type -> list positive) (h path : cstr) : Prop :=
  exists id e c, id ∈ all_of L /\ ex_store st !! id = Some e /\ e_path (m_export e) = path /\
    cl_store (ex_clients st) !! m_client e = Some c /\ m_type c = client_gettype h /\ strcaseeq (canon ns h) (m_hostname c) = true.

Definition is_pseudo (e : nfs_export) : bool := has_flag (e_flags (m_export e)) NFSEXP_V4ROOT.

(** A table whose pseudo exports have their flavors. *)
Record root_ok (st : extab) (L : mcl_type -> list positive) : Prop := RootOk
  { ro_tab : tab_ok st L; ro_clients : clients_ok ns P (ex_clients st);
    ro_pseudo : forall id e, id ∈ all_of L -> ex_store st !! id = Some e -> is_pseudo e = true ->
      e_secinfo (m_export e) = pseudo_sec (e_flags (m_export e)) <$> pseudo_flavors have_keytab }.

(** What adding pseudo exports keeps: every export with its client, path, host
    and kind, in the order of its list; at most [k] are new, all of them pseudo
    exports. *)
Record grows (k : nat) (st : extab) (L : mcl_type -> list positive) (st' : extab) (L' : mcl_type -> list positive) : Prop := Grows
  { gr_names : names_kept (ex_clients st) (ex_clients st');
    gr_order : forall t, L t `sublist_of` L' t;
    gr_count : (length (all_of L') <= length (all_of L) + k)%nat;
    gr_new : forall id e', id ∈ all_of L' -> id ∉ all_of L -> ex_store st' !! id = Some e' -> is_pseudo e' = true;
    gr_old : forall id e, id ∈ all_of L -> ex_store st !! id = Some e ->
      exists e', ex_store st' !! id = Some e' /\ m_client e' = m_client e /\ e_path (m_export e') = e_path (m_export e) /\
        e_hostname (m_export e') = e_hostname (m_export e) /\ is_pseudo e' = is_pseudo e }.

(** Real exports are as they were. *)
Definition real_kept (st : extab) (L : mcl_type -> list positive) (st' : extab) : Prop :=
  forall id e, id ∈ all_of L -> ex_store st !! id = Some e -> is_pseudo e = false -> contents <$> ex_store st' !! id = Some (contents e).

#[export] Instance names_kept_refl : Reflexive names_kept.
Proof. intros s i c E. eauto. Qed.
#[export] Instance names_kept_trans : Transitive names_kept.
Proof.
  intros s1 s2 s3 H1 H2 i c E. destruct (H1 i c E) as (c2 & E2 & T2 & N2), (H2 i c2 E2) as (c3 & E3 & T3 & N3).
  exists c3. by rewrite T3, N3.
Qed.

Lemma grows_in k st L st' L' id : grows k st L st' L' -> id ∈ all_of L -> id ∈ all_of L'.
Proof. intros [_ Ho _ _ _]. rewrite !elem_of_all_of. intros (t & Ht). exists t. by eapply elem_of_sublist. Qed.

Lemma grows_refl st L : owned st (all_of L) -> grows 0 st L st L.
Proof. intros Ho. split; [reflexivity|done|lia| |]; [intros; contradiction|]. intros id e Hid E. eauto 10. Qed.

Lemma grows_trans k1 k2 st L st1 L1 st2 L2 :
  owned st1 (all_of L1) -> grows k1 st L st1 L1 -> grows k2 st1 L1 st2 L2 -> grows (k1 + k2) st L st2 L2.
Proof.
  intros Hown G1 G2. pose proof G1 as [N1 O1 C1 X1 S1]. pose proof G2 as [N2 O2 C2 X2 S2].
  split; [by etrans|intros t; etrans; [apply O1|apply O2]|lia| |].
  - intros id e2 Hid Hni E2. destruct (decide (id ∈ all_of L1)) as [Hi1|Hi1]; [|by eapply X2].
    destruct (Hown id Hi1) as (e1 & E1 & _). destruct (S2 id e1 Hi1 E1) as (e2' & E2' & _ & _ & _ & Hv).
    assert (e2' = e2) as -> by congruence. rewrite Hv. by eapply X1.
  - intros id e Hid E. destruct (S1 id e Hid E) as (e1 & E1 & A1 & B1 & D1 & V1).
    destruct (S2 id e1 (grows_in _ _ _ _ _ _ G1 Hid) E1) as (e2 & E2 & A2 & B2 & D2 & V2). exists e2. rewrite A2, B2, D2, V2. done.
Qed.

Lemma grows_le k k' st L st' L' : (k <= k')%nat -> grows k st L st' L' -> grows k' st L st' L'.
Proof. intros Hk [H1 H2 H3 H4 H5]. split; try done. lia. Qed.

Lemma real_kept_trans k st L st1 L1 st2 :
  grows k st L st1 L1 -> real_kept st L st1 -> real_kept st1 L1 st2 -> real_kept st L st2.
Proof.
  intros G R1 R2 id e Hid E Hv. pose proof (R1 id e Hid E Hv) as H1. destruct (gr_old _ _ _ _ _ G id e Hid E) as (e1 & E1 & _ & _ & _ & Hv1).
  rewrite E1 in H1. apply Some_inj in H1. rewrite <- H1. apply R2; [by eapply grows_in|done|by rewrite Hv1].
Qed.

Lemma covers_grows k st L st' L' h q : grows k st L st' L' -> covers st L h q -> covers st' L' h q.
Proof.
  intros G (id & e & c & Hid & E & Hp & Ec & Ht & Hn). destruct (gr_old _ _ _ _ _ G id e Hid E) as (e' & E' & C' & P' & _).
  destruct (gr_names _ _ _ _ _ G _ _ Ec) as (c' & Ec' & Ht' & Hn'). exists id, e', c'. rewrite C', P', Ht', Hn'.
  split_and!; try done. by eapply grows_in.
Qed.

Lemma set_secinfo_same ep : ep = set_secinfo ep (e_secinfo ep).
Proof. by destruct ep. Qed.

Lemma pseudo_entry_ok path cur : (length path <= 1024)%nat ->
  exists eep, pseudo_entry chan_write have_keytab path_uuid path cur = Some eep /\ e_hostname eep = e_hostname cur /\
    e_path eep = path /\ has_flag (e_flags eep) NFSEXP_V4ROOT = true /\ has_flag (e_flags eep) NFSEXP_READONLY = true /\
    e_secinfo eep = pseudo_sec (e_flags eep) <$> pseudo_flavors have_keytab.
Proof.
  intros Hl. unfold pseudo_entry. cbv zeta. set (e0 := Ent _ _ _ _ _ _ _ _ _ _ _ _ _ _ _ _ _ _).
  set (e1 := if negb (streq path $"/") then set_flags e0 _ else e0).
  set (e2 := if negb (streq path $"/") && negb (export_test chan_write e1 false) then set_uuid e1 _ else e1).
  assert (e_path e0 = path) as Hp by (cbn; by apply take_ge).
  assert (e_hostname e2 = e_hostname cur /\ e_path e2 = path /\ e_secinfo e2 = [] /\ e_flags e2 = e_flags e1) as (H1 & H2 & H3 & H4).
  { unfold e2, e1. destruct (negb (streq path $"/")); destruct (export_test _ _ _); cbn; by rewrite ?take_ge. }
  rewrite (set_secinfo_same e2), H3, pseudofs_security_set by (by left). eexists. split; [reflexivity|].
  cbn [e_hostname e_path e_flags e_secinfo set_secinfo]. rewrite H1, H2. split_and!; try done; rewrite H4; unfold e1;
    by destruct (negb (streq path $"/")).
Qed.

(** A lookup changes no export and no name. *)
Lemma lookup_root st L h :
  root_ok st L -> known ns P erange h ->
  exists clp s1 c, client_lookup ns erange (ex_clients st) h false = Some (Some clp, s1) /\
  root_ok (set_clients st s1) L /\ grows 0 st L (set_clients st s1) L /\ real_kept st L (set_clients st s1) /\
  cl_store s1 !! clp = Some c /\ m_type c = client_gettype h /\ strcaseeq (canon ns h) (m_hostname c) = true /\
  client_lookup ns erange s1 h false = Some (Some clp, s1).
Proof using Hns.
  intros [[Hst Hr] W Hp] Hk.
  destruct (client_lookup_known ns P Hns erange _ h W Hk) as (clp & s1 & c & Hc & W1 & Hold & _ & Ec & _ & Hct & Hn & _ & Hagain).
  exists clp, s1, c. split_and!; try done.
  - split; [split|done|done]; [apply st_ok_clients; [done|by apply (client_lookup_types _ _ _ _ _ _ _ Hc)]|].
    apply refs_ok_lookup; [done..|by eapply client_lookup_counts].
  - split; [intros i ci Ei; apply Hold in Ei; eauto|done|lia|intros; contradiction|]. intros id e Hid E. eauto 10.
  - intros id e Hid E _. cbn. by rewrite E.
Qed.

Lemma update_existing st L id e :
  root_ok st L -> id ∈ all_of L -> ex_store st !! id = Some e -> is_pseudo e = true ->
  exists pseudo, set_pseudofs_security have_keytab (m_export e) = Some pseudo /\
    let st' := set_store st (<[id := Export (m_next e) (m_client e) pseudo (ex_exported e) (m_xtabent e) (m_mayexport e)
                                       (m_changed e) (m_warned e)]> (ex_store st)) in
    root_ok st' L /\ grows 0 st L st' L /\ real_kept st L st'.
Proof.
  intros [Ht W Hp] Hid E Hv. pose proof (Hp id e Hid E Hv) as Hs. exists (m_export e). split.
  { rewrite (set_secinfo_same (m_export e)) at 1. rewrite pseudofs_security_set by (by right). rewrite <- Hs. f_equal. symmetry. apply set_secinfo_same. }
  cbv zeta. assert (Export (m_next e) (m_client e) (m_export e) (ex_exported e) (m_xtabent e) (m_mayexport e) (m_changed e) (m_warned e) = e) as ->
    by (by destruct e). rewrite insert_id by done.
  assert (set_store st (ex_store st) = st) as -> by (by destruct st). split; [by split|].
  split; [by apply grows_refl, st_ok_owned, Ht|]. intros x ex Hx Ex _. by rewrite Ex.
Qed.

Lemma pseudofs_update_ok st L h path source :
  root_ok st L -> known ns P erange h -> e_hostname source = Some h -> (length path <= 1024)%nat ->
  exists st' L', pseudofs_update ns erange chan_write have_keytab path_uuid st h path source = Some (st', true) /\
    root_ok st' L' /\ grows 1 st L st' L' /\ real_kept st L st' /\ covers st' L' h path.
Proof using Hns.
  intros Hro Hkn Eh' Hl.
  destruct (lookup_root st L h Hro Hkn) as (clp & s1 & c & Hc & Hro1 & Hg1 & Hr1 & Ec & Hct & Hn & Hc2).
  unfold pseudofs_update.
  destruct (export_lookup_run ns erange st L h path false clp s1 (to_st _ _ (ro_tab _ _ Hro)) Hc) as (c' & Ec' & ->).
  assert (c' = c) as -> by congruence. cbn [mbind option_bind].
  destruct (List.find _ _) as [id|] eqn:Ef.
  - apply find_some in Ef as [Hin%list_elem_of_In He]. assert (id ∈ all_of L) as Hid by (apply elem_of_all_of; eauto).
    unfold is_export in He. destruct (ex_store st !! id) as [e|] eqn:E; [|done].
    apply andb_true_iff in He as [Hcl%bool_decide_eq_true Hpath%streq_true]. change (ex_store (set_clients st s1)) with (ex_store st).
    rewrite E. cbn [mbind option_bind]. fold (is_pseudo e).
    assert (covers (set_clients st s1) L h path) as Hcov by (exists id, e, c; rewrite Hcl; by split_and!).
    assert (owned (set_clients st s1) (all_of L)) as Hown by apply st_ok_owned, Hro1.
    destruct (is_pseudo e) eqn:Hv; cbn [negb].
    2: { eexists _, L. split; [reflexivity|]. split_and!; try done. eapply grows_le; [|exact Hg1]. lia. }
    destruct (update_existing (set_clients st s1) L id e Hro1 Hid E Hv) as (pseudo & -> & Hro2 & Hg2 & Hr2). cbn [mbind option_bind].
    eexists _, L. split; [reflexivity|]. split; [exact Hro2|]. split; [|split; [by eapply real_kept_trans|by eapply covers_grows]].
    eapply (grows_le 0); [lia|]. by eapply (grows_trans 0 0).
  - destruct (pseudo_entry_ok path source Hl) as (eep & Ep & Hh & Hpath & Hv & _ & Hsec).
    unfold v4root_create. rewrite Ep. cbn [mbind option_bind].
    destruct (export_create_tab ns erange (set_clients st s1) L eep h false clp c s1 (ro_tab _ _ Hro1)) as
      (id & st' & L' & Ecr & Htab' & Hsub & HP & Hnew & Hold & Hid & Hcl & Hcs).
    { by rewrite Hh. } { done. } { done. } { by rewrite Hpath. }
    rewrite Ecr. cbn [mbind option_bind]. exists st', L'. split; [done|].
    destruct (ex_store st' !! id) as [e|] eqn:E; [|done]. apply Some_inj in Hnew.
    assert (m_client e = clp /\ m_export e = copy_ent eep) as [Hec Hee]
      by (change (m_client (contents e) = clp /\ m_export (contents e) = copy_ent eep); by rewrite Hnew).
    assert (names_kept s1 (ex_clients st')) as Hk.
    { intros i ci Ei. rewrite Hcs. destruct (decide (clp = i)) as [<-|]; [|rewrite lookup_insert_ne by done; eauto].
      rewrite lookup_insert_eq. eexists. split; [done|]. by simplify_eq. }
    assert (forall x ex, x ∈ all_of L -> ex_store st !! x = Some ex ->
              exists ex', ex_store st' !! x = Some ex' /\ contents ex' = contents ex) as Hkeep.
    { intros x ex Hx Ex. assert (x <> id) as Hne by congruence. specialize (Hold x Hne). cbn in Hold. rewrite Ex in Hold.
      destruct (ex_store st' !! x) as [ex'|]; [|done]. apply Some_inj in Hold. eauto. }
    assert (grows 1 (set_clients st s1) L st' L') as Hg2.
    { split; [done|done|rewrite HP; cbn; lia| |].
      - intros x ex' Hx Hni Ex'. rewrite HP in Hx. apply elem_of_cons in Hx as [->|Hx]; [|done].
        assert (ex' = e) as -> by congruence. unfold is_pseudo. by rewrite Hee.
      - intros x ex Hx Ex. destruct (Hkeep x ex Hx Ex) as (ex' & Ex' & Hc'). exists ex'. split; [done|].
        assert (m_client ex' = m_client ex /\ m_export ex' = m_export ex) as [-> Hm]
          by (change (m_client (contents ex') = m_client (contents ex) /\ m_export (contents ex') = m_export (contents ex)); by rewrite Hc').
        unfold is_pseudo. by rewrite Hm. }
    assert (real_kept (set_clients st s1) L st') as Hr2.
    { intros x ex Hx Ex _. destruct (Hkeep x ex Hx Ex) as (ex' & -> & Hc'). cbn. by rewrite Hc'. }
    split; [|split; [by eapply (grows_trans 0 1); [apply st_ok_owned, Hro1|..]|split; [by eapply real_kept_trans|]]].
    + split; [done| |].
      * apply (clients_ok_count ns P s1 _ clp c (m_count c + 1) (ro_clients _ _ Hro1) Ec Hcs). intros t. by rewrite Hcl.
      * intros x ex Hx Ex Hvx. rewrite HP in Hx. apply elem_of_cons in Hx as [->|Hx].
        { assert (ex = e) as -> by congruence. rewrite Hee. exact Hsec. }
        assert (x <> id) as Hne by congruence. specialize (Hold x Hne). rewrite Ex in Hold. cbn in Hold.
        destruct (ex_store st !! x) as [ex0|] eqn:Ex0; [|done]. apply Some_inj in Hold.
        assert (m_export ex = m_export ex0) as Hm by (change (m_export (contents ex) = m_export (contents ex0)); by rewrite Hold).
        unfold is_pseudo in Hvx. rewrite Hm in *. by apply (ro_pseudo _ _ Hro x ex0).
    + exists id, e, (set_count c (m_count c + 1)). rewrite HP, Hec, Hee, Hcs, lookup_insert_eq. split_and!; try done. by left.
Qed.

Lemma parents_loop_ok fuel st L h before ptr source :
  root_ok st L -> known ns P erange h -> e_hostname source = Some h -> (length before + length ptr <= 1024)%nat ->
  ptr <> [] -> (length ptr < fuel)%nat ->
  exists st' L', parents_loop ns erange chan_write have_keytab path_uuid fuel st h before ptr source = Some (st', true) /\
    root_ok st' L' /\ grows (length (visited fuel before ptr)) st L st' L' /\ real_kept st L st' /\
    forall q, q ∈ visited fuel before ptr -> covers st' L' h q.
Proof using Hns.
  revert st L before ptr. induction fuel as [|fuel IH]; intros st L before ptr Hro Hnc Hh Hl Hne Hf; [lia|]. cbn [parents_loop visited].
  set (q0 := match before with [] => $"/" | _ :: _ => before end).
  assert (length q0 <= 1024)%nat as Hq0 by (unfold q0; destruct before; cbn [length] in *; [cbn; lia|lia]).
  destruct (pseudofs_update_ok st L h q0 source Hro Hnc Hh Hq0) as (st1 & L1 & -> & Hro1 & Hg1 & Hr1 & Hc1). cbn [mbind option_bind].
  destruct ptr as [|c ptr]; [done|]. destruct (strchr "/" ptr) as [[a b]|] eqn:E.
  - apply strchr_Some in E as [-> _]. cbn [length] in Hl, Hf. rewrite length_app in Hl, Hf. cbn [length] in Hl, Hf.
    destruct (IH st1 L1 (before ++ c :: a) ("/"%char :: b) Hro1 Hnc Hh) as (st2 & L2 & -> & Hro2 & Hg2 & Hr2 & Hc2);
      [rewrite length_app; cbn [length]; lia|done|cbn [length]; lia|].
    exists st2, L2. split; [done|]. split; [done|]. split; [by eapply (grows_trans 1); [apply st_ok_owned, Hro1|..]|].
    split; [by eapply real_kept_trans|]. intros q [->|Hq]%elem_of_cons; [by eapply covers_grows|by apply Hc2].
  - exists st1, L1. split_and!; try done; intros q Hq. apply elem_of_cons in Hq as [->|Hq]; [done|by apply elem_of_nil in Hq].
Qed.
End cover.

(** ** The whole table *)

(** Sums over a list of exports. *)
Definition total_of (f : positive -> nat) (l : list positive) : nat := foldr (fun x n => f x + n)%nat O l.

Lemma total_of_app f l l' : total_of f (l ++ l') = (total_of f l + total_of f l')%nat.
Proof. induction l as [|x l IH]; cbn; [done|]. unfold total_of in *. rewrite IH. lia. Qed.

Lemma total_of_perm f l l' : l ≡ₚ l' -> total_of f l = total_of f l'.
Proof. induction 1; cbn in *; unfold total_of in *; lia. Qed.

Lemma total_of_ext f g l : (forall x, x ∈ l -> f x = g x) -> total_of f l = total_of g l.
Proof.
  induction l as [|x l IH]; intros H; [done|]. cbn. fold (total_of f l) (total_of g l).
  rewrite H by (by left). rewrite IH; [done|]. intros y Hy. apply H. by right.
Qed.

Lemma total_of_const f l n : (forall x, x ∈ l -> f x = n) -> total_of f l = (n * length l)%nat.
Proof.
  induction l as [|x l IH]; intros H; [cbn; lia|]. cbn [total_of foldr length]. fold (total_of f l).
  rewrite H by (by left). rewrite IH; [lia|]. intros y Hy. apply H. by right.
Qed.

(** How many pseudo exports an export can ask for. *)
Definition demand (st : extab) (x : positive) : nat :=
  match ex_store st !! x with
  | Some e => if is_pseudo e then O else S (length (e_path (m_export e)))
  | None => O
  end.
(** The turns of the walk that an export can cause. *)
Definition weight (st : extab) (x : positive) : nat := S (demand st x).

Lemma visited_length fuel before ptr : (length (visited fuel before ptr) <= S (length ptr))%nat.
Proof.
  revert before ptr. induction fuel as [|fuel IH]; intros before ptr; [cbn; lia|]. cbn [visited length].
  destruct ptr as [|c ptr]; [cbn; lia|]. destruct (strchr "/" ptr) as [[a b]|] eqn:E; [|cbn; lia].
  apply strchr_Some in E as [-> _]. specialize (IH (before ++ c :: a) ("/"%char :: b)). cbn [length] in *. rewrite length_app. cbn [length]. lia.
Qed.

Section whole.
  Context (ns : resolver) (erange : bool) (chan_write : cstr -> bool) (have_keytab : bool) (path_uuid : cstr -> cstr).
  Context (P : cstr -> Prop).
  Abbreviation walk := (v4root_walk ns erange chan_write have_keytab path_uuid).
  Abbreviation rootok := (root_ok ns have_keytab P).

(** Exports proper have a path and a client that can be made. *)
Definition real_ok (st : extab) (L : mcl_type -> list positive) : Prop :=
  forall id e, id ∈ all_of L -> ex_store st !! id = Some e -> is_pseudo e = false ->
    known_client ns erange P (m_export e) /\ e_path (m_export e) <> [] /\ (length (e_path (m_export e)) <= 1024)%nat.

(** All the directories above an export are exported to its client. *)
Definition reachable (st : extab) (L : mcl_type -> list positive) (e : nfs_export) : Prop :=
  forall h q, e_hostname (m_export e) = Some h -> q ∈ parents (e_path (m_export e)) -> covers ns st L h q.

Lemma demand_grows k st L st' L' x : grows k st L st' L' -> owned st (all_of L) -> x ∈ all_of L -> demand st' x = demand st x.
Proof.
  intros G Ho Hx. destruct (Ho x Hx) as (e & E & _). destruct (gr_old _ _ _ _ _ G x e Hx E) as (e' & E' & _ & Hp & _ & Hv).
  unfold demand. by rewrite E, E', Hv, Hp.
Qed.

Lemma real_ok_grows k st L st' L' : grows k st L st' L' -> owned st (all_of L) -> real_ok st L -> real_ok st' L'.
Proof.
  intros G Ho Hr id e' Hid E' Hv. destruct (decide (id ∈ all_of L)) as [Hi|Hi].
  - destruct (Ho id Hi) as (e & E & _). destruct (gr_old _ _ _ _ _ G id e Hi E) as (e2 & E2 & _ & Hp & Hh & Hv2).
    assert (e2 = e') as -> by congruence. destruct (Hr id e Hi E) as ((h & Hn & Hk) & H2); [congruence|].
    rewrite Hp. split; [|done]. exists h. by rewrite Hh.
  - rewrite (gr_new _ _ _ _ _ G id e' Hid Hi E') in Hv. done.
Qed.

Lemma reachable_grows k st L st' L' e e' :
  grows k st L st' L' -> e_hostname (m_export e') = e_hostname (m_export e) -> e_path (m_export e') = e_path (m_export e) ->
  reachable st L e -> reachable st' L' e'.
Proof. intros G Hh Hp H h q Eh Hq. rewrite Hh in Eh. rewrite Hp in Hq. eapply covers_grows; [exact G|]. by apply H. Qed.

(** The real export at the head of the walk, with fsid=0 forced on the root. *)
Definition forced (e : nfs_export) : nfs_export :=
  let ent := if streq (e_path (m_export e)) $"/" && negb (has_flag (e_flags (m_export e)) NFSEXP_FSID)
             then set_fsid (set_flags (m_export e) (Z.lor (e_flags (m_export e)) NFSEXP_FSID)) 0 (e_uuid (m_export e))
             else m_export e in
  Export (m_next e) (m_client e) ent (ex_exported e) (m_xtabent e) (m_mayexport e) (m_changed e) (m_warned e).

Lemma forced_same e : m_next (forced e) = m_next e /\ m_client (forced e) = m_client e /\
  e_path (m_export (forced e)) = e_path (m_export e) /\ e_hostname (m_export (forced e)) = e_hostname (m_export e) /\ is_pseudo (forced e) = is_pseudo e.
Proof.
  unfold forced, is_pseudo. destruct (streq _ _ && _); cbn -[has_flag NFSEXP_V4ROOT NFSEXP_FSID]; split_and!; try done.
  unfold has_flag. rewrite Z.land_lor_distr_l. change (Z.land NFSEXP_FSID NFSEXP_V4ROOT) with 0. by rewrite Z.lor_0_r.
Qed.

Lemma forced_ok st L x e :
  rootok st L -> x ∈ all_of L -> ex_store st !! x = Some e -> is_pseudo e = false ->
  let st1 := set_store st (<[x := forced e]> (ex_store st)) in rootok st1 L /\ grows 0 st L st1 L.
Proof.
  intros [Ht W Hp] Hx E Hv st1. destruct (forced_same e) as (F1 & F2 & F3 & F4 & F5).
  split.
  - split; [by eapply update_node_tab|done|]. intros id e' Hid. cbn. destruct (decide (x = id)) as [<-|]; [|rewrite lookup_insert_ne by done; by apply Hp].
    rewrite lookup_insert_eq. intros [= <-]. rewrite F5. congruence.
  - split; [reflexivity|done|lia|intros; contradiction|]. intros id ei Hid Ei. cbn. destruct (decide (x = id)) as [<-|].
    + rewrite lookup_insert_eq. exists (forced e). assert (ei = e) as -> by congruence. by split_and!.
    + rewrite lookup_insert_ne by done. exists ei. by split_and!.
Qed.

Lemma all_of_length_t L L' t k :
  (forall t, L t `sublist_of` L' t) -> (length (all_of L') <= length (all_of L) + k)%nat -> (length (L' t) <= length (L t) + k)%nat.
Proof.
  intros Hs Hl. assert (forall t, length (L t) <= length (L' t))%nat as H by (intros; by apply sublist_length).
  pose proof (H MCL_FQDN). pose proof (H MCL_SUBNETWORK). pose proof (H MCL_WILDCARD). pose proof (H MCL_NETGROUP).
  pose proof (H MCL_ANONYMOUS). pose proof (H MCL_GSS).
  unfold all_of, mcl_types in Hl. cbn [map concat] in Hl. rewrite !length_app in Hl. destruct t; lia.
Qed.

(** Behind a node, growth adds only new pseudo exports. *)
Lemma suffix_grows k st L st' L' t pre x l :
  rootok st' L' -> grows k st L st' L' -> L t = pre ++ x :: l ->
  exists pre' l' n, L' t = pre' ++ x :: l' /\ l' ≡ₚ l ++ n /\ (length n <= k)%nat /\ forall y, y ∈ n -> y ∈ all_of L' /\ y ∉ all_of L.
Proof.
  intros Hro G Et. pose proof (gr_order _ _ _ _ _ G t) as Hs. rewrite Et in Hs.
  apply sublist_app_cons_l in Hs as (pre' & l' & E' & Hp & Hl). apply sublist_submseteq, submseteq_Permutation in Hl as (n & Hn).
  exists pre', l', n. pose proof (all_of_length_t L L' t k (gr_order _ _ _ _ _ G) (gr_count _ _ _ _ _ G)) as Hlen.
  rewrite Et, E' in Hlen. apply sublist_length in Hp as Hlp. pose proof (Permutation_length Hn) as Hln. rewrite !length_app in *. cbn [length] in *.
  split; [done|]. split; [done|]. split; [lia|]. intros y Hy.
  assert (y ∈ l') as Hyl by (rewrite Hn; apply elem_of_app; by right). assert (y ∈ L' t) as Hyt by (rewrite E'; set_solver).
  split; [apply elem_of_all_of; eauto|]. intros (t2 & Ht2)%elem_of_all_of.
  pose proof (to_st _ _ (ro_tab _ _ _ _ _ Hro)) as Hst. pose proof (elem_of_sublist _ _ _ Ht2 (gr_order _ _ _ _ _ G t2)) as Ht2'.
  rewrite (so_disjoint st' L' t2 t y Hst Ht2' Hyt), Et in Ht2. pose proof (tb_nodup _ _ _ (so_table st' L' Hst t)) as Hnd. rewrite E' in Hnd.
  apply NoDup_app in Hnd as (_ & Hd & Hnd). apply NoDup_cons in Hnd as [Hx Hnd]. rewrite Hn in Hnd. apply NoDup_app in Hnd as (_ & Hd2 & _).
  apply elem_of_app in Ht2 as [Hin|[->|Hin]%elem_of_cons].
  - apply (Hd y); [exact (elem_of_sublist _ _ _ Hin Hp)|by right].
  - done.
  - by apply (Hd2 y).
Qed.

Lemma chain_suffix m p pre x l : chain m p (pre ++ x :: l) None -> exists e, m !! x = Some e /\ chain m (m_next e) l None.
Proof. intros (r & _ & Hc)%chain_app. destruct Hc as (_ & e & E & Hc). eauto. Qed.

Lemma types_grows k st L st' L' types :
  rootok st' L' -> grows k st L st' L' -> NoDup types ->
  exists n, concat (map L' types) ≡ₚ concat (map L types) ++ n /\ forall y, y ∈ n -> y ∈ all_of L' /\ y ∉ all_of L.
Proof.
  intros Hro G Hnt. pose proof (to_st _ _ (ro_tab _ _ _ _ _ Hro)) as Hst.
  induction types as [|t types IH]; [exists []; split; [done|intros y Hy; by apply elem_of_nil in Hy]|]. apply NoDup_cons in Hnt as [Hti Hnt]. destruct (IH Hnt) as (n & Hn & Hnew).
  pose proof (gr_order _ _ _ _ _ G t) as Hs. apply sublist_submseteq, submseteq_Permutation in Hs as (n1 & Hn1).
  exists (n1 ++ n). cbn [map concat]. split; [rewrite Hn1, Hn; solve_Permutation|].
  intros y [Hy|Hy]%elem_of_app; [|by apply Hnew].
  assert (y ∈ L' t) as Hyt by (rewrite Hn1; apply elem_of_app; by right).
  split; [apply elem_of_all_of; eauto|]. intros (t2 & Ht2)%elem_of_all_of.
  pose proof (elem_of_sublist _ _ _ Ht2 (gr_order _ _ _ _ _ G t2)) as Ht2'.
  rewrite (so_disjoint st' L' t2 t y Hst Ht2' Hyt) in Ht2. pose proof (tb_nodup _ _ _ (so_table st' L' Hst t)) as Hnd.
  rewrite Hn1 in Hnd. apply NoDup_app in Hnd as (_ & Hd & _). by apply (Hd y).
Qed.

Lemma new_demand k st L st' L' (n : list positive) :
  rootok st' L' -> grows k st L st' L' -> (forall y, y ∈ n -> y ∈ all_of L' /\ y ∉ all_of L) -> forall y, y ∈ n -> demand st' y = 0%nat.
Proof.
  intros Hro G Hnew y Hy. destruct (Hnew y Hy) as [H1 H2].
  destruct (st_ok_owned st' L' (to_st _ _ (ro_tab _ _ _ _ _ Hro)) y H1) as (e & E & _). unfold demand. rewrite E.
  by rewrite (gr_new _ _ _ _ _ G y e H1 H2 E).
Qed.

Lemma mcl_types_NoDup : NoDup mcl_types.
Proof. repeat (apply NoDup_cons; split; [set_solver|]). constructor. Qed.

Lemma weight_grows k st L st' L' : rootok st L -> rootok st' L' -> grows k st L st' L' ->
  (total_of (weight st') (all_of L') <= total_of (weight st) (all_of L) + k)%nat.
Proof.
  intros Hro Hro' G. destruct (types_grows k st L st' L' mcl_types Hro' G mcl_types_NoDup) as (n & Hn & Hnew). fold (all_of L') (all_of L) in Hn.
  pose proof (gr_count _ _ _ _ _ G) as Hc. rewrite (Permutation_length Hn), length_app in Hc.
  rewrite (total_of_perm _ _ _ Hn), total_of_app, (total_of_const _ n 1) by (intros y Hy; unfold weight; by rewrite (new_demand k st L st' L' n)).
  rewrite (total_of_ext _ (weight st) (all_of L)); [lia|]. intros y Hy. unfold weight. f_equal.
  eapply demand_grows; [exact G|apply st_ok_owned, Hro|done].
Qed.

Lemma demand_types k st L st' L' types : rootok st L -> rootok st' L' -> grows k st L st' L' -> NoDup types ->
  total_of (demand st') (concat (map L' types)) = total_of (demand st) (concat (map L types)).
Proof.
  intros Hro Hro' G Hnt. destruct (types_grows k st L st' L' types Hro' G Hnt) as (n & Hn & Hnew).
  rewrite (total_of_perm _ _ _ Hn), total_of_app, (total_of_const _ n 0) by (by eapply new_demand).
  rewrite (total_of_ext _ (demand st)); [lia|]. intros y Hy. eapply demand_grows; [exact G|apply st_ok_owned, Hro|].
  rewrite list_elem_of_In, in_concat in Hy. destruct Hy as (l & (t & <- & _)%in_map_iff & Hy). apply elem_of_all_of. exists t. by apply list_elem_of_In.
Qed.

Context (Hns : hosts_apart ns P).

Lemma walk_ok fuel st L t pre l p :
  rootok st L -> real_ok st L -> L t = pre ++ l -> chain (ex_store st) p l None -> (total_of (weight st) l <= fuel)%nat ->
  exists st' L', walk fuel st p = Some st' /\ rootok st' L' /\ grows (total_of (demand st) l) st L st' L' /\
    forall x e, x ∈ l -> ex_store st !! x = Some e -> is_pseudo e = false -> reachable st' L' e.
Proof using Hns.
  revert st L pre l p. induction fuel as [|fuel IH]; intros st L pre l p Hro Hre Et Hc Hf.
  { destruct l; [|cbn in Hf; lia]. cbn in Hc. subst p. exists st, L. split_and!; try done.
    - apply grows_refl, st_ok_owned, Hro.
    - intros x e Hx. by apply elem_of_nil in Hx. }
  destruct l as [|x l].
  { cbn in Hc. subst p. exists st, L. split_and!; try done.
    - apply grows_refl, st_ok_owned, Hro.
    - intros x e Hx. by apply elem_of_nil in Hx. }
  destruct Hc as (-> & e & E & Hc). cbn [v4root_walk]. rewrite E. cbn [mbind option_bind].
  assert (owned st (all_of L)) as Hown by apply st_ok_owned, Hro.
  assert (x ∈ all_of L) as Hx by (apply elem_of_all_of; exists t; rewrite Et; set_solver).
  fold (is_pseudo e). cbn [total_of foldr] in Hf. fold (total_of (weight st) l) in Hf.
  destruct (is_pseudo e) eqn:Hv.
  - cbn [mbind option_bind]. rewrite E. cbn [mbind option_bind].
    destruct (IH st L (pre ++ [x]) l (m_next e) Hro Hre) as (st' & L' & E' & Hro' & G & Hcov);
      [by rewrite <- app_assoc|done|unfold weight in Hf at 1; lia|].
    exists st', L'. split_and!; try done.
    + cbn [total_of foldr]. unfold demand at 1. by rewrite E, Hv.
    + intros y ey [->|Hy]%elem_of_cons Ey Hvy; [congruence|by eapply Hcov].
  - destruct (Hre x e Hx E Hv) as (Hnc & Hne & Hlen). destruct (forced_same e) as (F1 & F2 & F3 & F4 & F5).
    destruct (forced_ok st L x e Hro Hx E Hv) as [Hro1 G1]. cbv zeta in Hro1, G1.
    change (set_store st (<[x := Export _ _ _ _ _ _ _ _]> (ex_store st))) with (set_store st (<[x := forced e]> (ex_store st))).
    set (st1 := set_store st (<[x := forced e]> (ex_store st))) in *.
    assert (owned st1 (all_of L)) as Hown1 by apply st_ok_owned, Hro1.
    destruct Hnc as (h & Hh & Hnc).
    unfold v4root_add_parents. change (if streq _ _ && _ then _ else m_export e) with (m_export (forced e)). rewrite F4, Hh, F3. cbn [mbind option_bind].
    destruct (parents_loop_ok ns erange chan_write have_keytab path_uuid P Hns (S (length (e_path (m_export e)))) st1 L h [] (e_path (m_export e)) (m_export (forced e)))
      as (st2 & L2 & -> & Hro2 & G2 & _ & Hcov2); [done|done|by rewrite F4|cbn [length]; lia|done|lia|]. cbn [mbind option_bind].
    pose proof (grows_trans _ _ _ _ _ _ _ _ Hown1 G1 G2) as G12. cbn [Nat.add] in G12.
    destruct (suffix_grows _ st L st2 L2 t pre x l Hro2 G12 Et) as (pre2 & l2 & n & Et2 & Hn & Hkn & Hnew).
    pose proof (tb_chain _ _ _ (so_table st2 L2 (to_st _ _ (ro_tab _ _ _ _ _ Hro2)) t)) as Hc2. rewrite Et2 in Hc2.
    apply chain_suffix in Hc2 as (e2 & E2 & Hc2). rewrite E2. cbn [mbind option_bind].
    assert (owned st2 (all_of L2)) as Hown2 by apply st_ok_owned, Hro2.
    assert (forall y, y ∈ l -> y ∈ all_of L) as Hl by (intros y Hy; apply elem_of_all_of; exists t; rewrite Et; set_solver).
    assert (forall y, y ∈ n -> demand st2 y = 0%nat) as Hd0.
    { intros y Hy. destruct (Hnew y Hy) as [Hy2 Hyn]. destruct (Hown2 y Hy2) as (ey & Ey & _). unfold demand. rewrite Ey.
      by rewrite (gr_new _ _ _ _ _ G12 y ey Hy2 Hyn Ey). }
    assert (total_of (demand st2) l2 = total_of (demand st) l) as Hd.
    { rewrite (total_of_perm _ _ _ Hn), total_of_app, (total_of_const _ n 0) by done. rewrite (total_of_ext _ (demand st) l); [lia|].
      intros y Hy. eapply demand_grows; [exact G12|done|by apply Hl]. }
    assert (total_of (weight st2) l2 = total_of (weight st) l + length n)%nat as Hw.
    { rewrite (total_of_perm _ _ _ Hn), total_of_app, (total_of_const _ n 1) by (intros y Hy; unfold weight; by rewrite Hd0).
      rewrite (total_of_ext _ (weight st) l); [lia|]. intros y Hy. unfold weight. f_equal. eapply demand_grows; [exact G12|done|by apply Hl]. }
    pose proof (visited_length (S (length (e_path (m_export e)))) [] (e_path (m_export e))) as Hvl.
    assert (demand st x = S (length (e_path (m_export e)))) as Hdx by (unfold demand; by rewrite E, Hv).
    unfold weight in Hf at 1. rewrite Hdx in Hf.
    destruct (IH st2 L2 (pre2 ++ [x]) l2 (m_next e2) Hro2) as (st' & L' & E' & Hro' & G' & Hcov');
      [by eapply real_ok_grows|by rewrite <- app_assoc|done|lia|].
    exists st', L'. split_and!; try done.
    + rewrite Hd in G'. cbn [total_of foldr]. fold (total_of (demand st) l). rewrite Hdx. eapply grows_le; [|by eapply grows_trans]. lia.
    + intros y ey [->|Hy]%elem_of_cons Ey Hvy.
      * assert (ey = e) as -> by congruence. eapply reachable_grows; [exact G'|reflexivity|reflexivity|]. intros h' q Eh' Hq.
        rewrite Hh in Eh'. injection Eh' as <-. by apply Hcov2.
      * destruct (gr_old _ _ _ _ _ G12 y ey (Hl y Hy) Ey) as (ey2 & Ey2 & _ & Hp2 & Hh2 & Hv2).
        assert (reachable st' L' ey2) as Hr2 by (apply (Hcov' y ey2); [rewrite Hn; apply elem_of_app; by left|done|congruence]).
        intros h' q Eh' Hq. apply Hr2; [by rewrite Hh2|by rewrite Hp2].
Qed.

Lemma types_ok fuel types st L :
  rootok st L -> real_ok st L -> NoDup types ->
  (total_of (weight st) (all_of L) + total_of (demand st) (concat (map L types)) <= fuel)%nat ->
  exists k st' L', v4root_types ns erange chan_write have_keytab path_uuid fuel types st = Some st' /\ rootok st' L' /\ grows k st L st' L' /\
    forall t x e, t ∈ types -> x ∈ L t -> ex_store st !! x = Some e -> is_pseudo e = false -> reachable st' L' e.
Proof using Hns.
  revert st L. induction types as [|t types IH]; intros st L Hro Hre Hnt Hf.
  { exists 0%nat, st, L. split_and!; try done; [apply grows_refl, st_ok_owned, Hro|]. intros t x e Ht. by apply elem_of_nil in Ht. }
  apply NoDup_cons in Hnt as [Hti Hnt]. cbn [map concat v4root_types] in *. rewrite total_of_app in Hf.
  assert (total_of (weight st) (L t) <= total_of (weight st) (all_of L))%nat as Hw.
  { unfold all_of, mcl_types. cbn [map concat]. rewrite !total_of_app. destruct t; lia. }
  pose proof (tb_chain _ _ _ (so_table st L (to_st _ _ (ro_tab _ _ _ _ _ Hro)) t)) as Hc.
  destruct (walk_ok fuel st L t [] (L t) _ Hro Hre eq_refl Hc) as (st1 & L1 & -> & Hro1 & G1 & Hcov1); [lia|]. cbn [mbind option_bind].
  pose proof (weight_grows _ _ _ _ _ Hro Hro1 G1) as Hw1. pose proof (demand_types _ _ _ _ _ types Hro Hro1 G1 Hnt) as Hd1.
  assert (owned st (all_of L)) as Hown by apply st_ok_owned, Hro.
  destruct (IH st1 L1 Hro1) as (k & st' & L' & E' & Hro' & G' & Hcov'); [by eapply real_ok_grows|done|lia|].
  eexists _, st', L'. split; [done|]. split; [done|]. split; [eapply grows_trans; [apply st_ok_owned, Hro1|exact G1|exact G']|].
  intros t2 x e [->|Ht2]%elem_of_cons Hx Ex Hv.
  - eapply reachable_grows; [exact G'|reflexivity|reflexivity|]. by apply (Hcov1 x e).
  - assert (x ∈ all_of L) as Hxa by (apply elem_of_all_of; eauto).
    destruct (gr_old _ _ _ _ _ G1 x e Hxa Ex) as (e1 & E1 & _ & Hp1 & Hh1 & Hv1).
    assert (reachable st' L' e1) as Hr by (apply (Hcov' t2 x e1); [done|exact (elem_of_sublist _ _ _ Hx (gr_order _ _ _ _ _ G1 t2))|done|congruence]).
    intros h q Eh Hq. apply Hr; [by rewrite Hh1|by rewrite Hp1].
Qed.
End whole.

(** C21. After [v4root_set] a client can walk from the root to every export: the
    root and each directory above any export are exported to the export's
    client, be it a network, a netgroup, a pattern, everybody or a single host that
    the name service resolves and keeps apart from the other hosts.  The walk
    ends although it adds to the lists it walks over, the
    table stays well formed, no export is lost, and only pseudo exports are new. *)
Theorem v4root_set_reachable ns erange chan_write have_keytab path_uuid P features st L fuel :
  hosts_apart ns P -> root_ok ns have_keytab P st L -> real_ok ns erange P st L -> has_flag features NFSEXP_V4ROOT = true ->
  (total_of (weight st) (all_of L) + total_of (demand st) (all_of L) <= fuel)%nat ->
  exists k st' L', v4root_set ns erange chan_write have_keytab path_uuid fuel st true features = Some st' /\
    root_ok ns have_keytab P st' L' /\ grows k st L st' L' /\
    forall id e h q, id ∈ all_of L -> ex_store st !! id = Some e -> is_pseudo e = false -> e_hostname (m_export e) = Some h ->
      (q = $"/" \/ exists a b, e_path (m_export e) = a ++ "/"%char :: b /\ a <> [] /\ q = a) -> covers ns st' L' h q.
Proof.
  intros Hns Hro Hre Hf Hfu. unfold v4root_set. cbn [negb]. rewrite Hf. cbn [negb].
  destruct (types_ok ns erange chan_write have_keytab path_uuid P Hns fuel mcl_types st L Hro Hre mcl_types_NoDup Hfu) as (k & st' & L' & E & Hro' & G & Hc).
  exists k, st', L'. split_and!; try done. intros id e h q Hid Ee Hv Hh Hq. pose proof (Hre id e Hid Ee Hv) as (_ & Hne & _).
  apply elem_of_all_of in Hid as (t & Ht). apply (Hc t id e); [|done..|]; [rewrite list_elem_of_In; destruct t; cbn; tauto|].
  by apply parents_spec.
Qed.

(** An export of a directory below the root to one host, given by an alias. *)
Definition deep_entry : exportent := set_path (set_hostname sample_entry (Some $"h")) $"/srv/a/b".

Lemma deep_table : exists st L, xtab_loop ns_hosts false empty_tab [deep_entry] true true = Some (st, true) /\ holds ns_hosts names_hosts st L [deep_entry].
Proof.
  destruct (xtab_loop_holds ns_hosts false names_hosts hosts_apart_ex [deep_entry] empty_tab (fun _ => []) [] true) as (st & L & E & H).
  - split; [apply empty_tab_tab|by apply no_clients_ok|exists []; by split].
  - apply Forall_singleton. exists $"h". split; [reflexivity|]. split; [right; rewrite list_elem_of_In; cbn; tauto|]. eexists. reflexivity.
  - apply NoDup_singleton.
  - exists st, L. by split.
Qed.

Lemma v4root_set_reachable_witness :
  exists fuel st st' L', xtab_loop ns_hosts false empty_tab [deep_entry] true true = Some (st, true) /\
    v4root_set ns_hosts false (fun _ => false) true (fun _ => $"00") fuel st true NFSEXP_V4ROOT = Some st' /\
    covers ns_hosts st' L' $"h" $"/" /\ covers ns_hosts st' L' $"h" $"/srv" /\ covers ns_hosts st' L' $"h" $"/srv/a".
Proof.
  destruct deep_table as (st & L & E & [Ht W (ids & Hp & HL)]).
  apply Forall2_cons_inv_r in Hp as (id & ids' & Hpr & Hp & ->). apply Forall2_nil_inv_r in Hp as ->.
  destruct Hpr as (e & c & h & Ee & Hce & Ec & Hh & Hct & Hn). injection Hh as <-.
  assert (m_export e = copy_ent deep_entry) as Hm by (change (m_export (contents e) = copy_ent deep_entry); by rewrite Hce).
  assert (forall x ex, x ∈ all_of L -> ex_store st !! x = Some ex -> ex = e) as Hone.
  { intros x ex Hx Ex. rewrite HL in Hx. apply list_elem_of_singleton in Hx as ->. congruence. }
  destruct (v4root_set_reachable ns_hosts false (fun _ => false) true (fun _ => $"00") names_hosts NFSEXP_V4ROOT st L
    (total_of (weight st) (all_of L) + total_of (demand st) (all_of L))) as (k & st' & L' & E' & _ & _ & Hcov).
  - exact hosts_apart_ex.
  - split; [done|done|]. intros x ex Hx Ex Hv. rewrite (Hone x ex Hx Ex) in Hv. unfold is_pseudo in Hv. by rewrite Hm in Hv.
  - intros x ex Hx Ex _. rewrite (Hone x ex Hx Ex), Hm. split; [|split; [done|cbn; lia]].
    exists $"h". split; [reflexivity|]. split; [right; rewrite list_elem_of_In; cbn; tauto|]. eexists. reflexivity.
  - reflexivity.
  - lia.
  - eexists _, st, st', L'. split; [exact E|]. split; [exact E'|].
    assert (id ∈ all_of L) as Hid by (rewrite HL; by apply list_elem_of_singleton).
    assert (is_pseudo e = false) as Hv by (unfold is_pseudo; by rewrite Hm).
    assert (e_hostname (m_export e) = Some $"h") as Heh by (by rewrite Hm). assert (e_path (m_export e) = $"/srv/a/b") as Hep by (by rewrite Hm).
    split_and!; apply (Hcov id e $"h" _ Hid Ee Hv Heh); rewrite Hep; [by left|right; by exists $"/srv", $"a/b"|right; by exists $"/srv/a", $"b"].
Defined.
