(* ===== verification/Auth.v ===== *)
(** * Authentication of mount requests (support/export/auth.c)

    The state of mountd: its table of exports, the bracket of the cache of client
    checks, whether it works by address, and the file it read the table from.
    That file is kept open, so that the file system cannot give its inode number
    to a new file while it is compared with etab.  The checks of clients are
    those of [Client]. *)

From S2P Require Import Prelude Exports ExportsRT Client ExportTab Xio Xtab V4root.

Record auth := Auth
  { a_tab : extab; client_match_gen : Z; client_match_active : bool; use_ipaddr : Z;
    last_fd : option file; counter : Z; v4root_needed : bool }.

Definition set_tab (st : auth) (tab : extab) : auth :=
  Auth tab (client_match_gen st) (client_match_active st) (use_ipaddr st) (last_fd st) (counter st) (v4root_needed st).

Definition set_match (c : nfs_client) (gen : Z) (res : bool) : nfs_client :=
  Client (m_hostname c) (m_type c) (m_naddr c) (m_addrlist c) (m_exported c) (m_count c) gen res.

Inductive auth_error := bad_path | unknown_host | no_entry | not_exported | illegal_port | success.

#[export] Instance auth_error_eq_dec : EqDecision auth_error.
Proof. solve_decision. Defined.

Definition NFSCLNT_IDMAX : Z := 1024.

Definition client_match_begin (st : auth) : auth :=
  let gen := u64 (client_match_gen st + 1) in
  Auth (a_tab st) (if gen =? 0 then 1 else gen) true (use_ipaddr st) (last_fd st) (counter st) (v4root_needed st).
Definition client_match_end (st : auth) : auth :=
  Auth (a_tab st) (client_match_gen st) false (use_ipaddr st) (last_fd st) (counter st) (v4root_needed st).

Definition is_ipaddr_client (dom : cstr) : bool := ceqb (deref dom) "$".

(** ** Paths *)

Fixpoint squeeze (path : cstr) : cstr :=
  match path with
  | [] => []
  | c :: sp => if negb (ceqb c "/") || negb (ceqb (deref sp) "/") then c :: squeeze sp else squeeze sp
  end.

(** Without the slashes at the end. *)
Fixpoint rtrim (s : cstr) : cstr :=
  match s with
  | [] => []
  | c :: s => match rtrim s with
              | [] => if ceqb c "/" then [] else [c]
              | r => c :: r
              end
  end.

Definition auth_fixpath (path : cstr) : cstr :=
  match squeeze path with
  | [] => []
  | c :: r => c :: rtrim r
  end.

Section auth.
  Context (ns : resolver).

Definition host_ntop (sap : sockaddr) : cstr :=
  match getnameinfo_numeric ns sap with
  | Some buf => buf
  | None => $"bad address"
  end.

Definition ipaddr_client_matches (c : nfs_client) (ai : option addrinfo) : option bool := a ← ai; client_check ns c a.
Definition namelist_client_matches (c : nfs_client) (dom : cstr) : bool := client_member dom (m_hostname c).

(** The answer without the cache. *)
Definition verdict (c : nfs_client) (dom : cstr) (ai : option addrinfo) : option bool :=
  if is_ipaddr_client dom then ipaddr_client_matches c ai else Some (namelist_client_matches c dom).

Definition client_matches (st : auth) (exp : nfs_export) (dom : cstr) (ai : option addrinfo) : option (bool * auth) :=
  c ← cl_store (ex_clients (a_tab st)) !! m_client exp;
  if client_match_active st && (m_match_gen c =? client_match_gen st) then Some (m_match c, st)
  else
    res ← verdict c dom ai;
    if client_match_active st then
      let s := ex_clients (a_tab st) in
      let s := Clients (<[m_client exp := set_match c (client_match_gen st) res]> (cl_store s)) (cl_list s) in
      Some (res, set_tab st (set_clients (a_tab st) s))
    else Some (res, st).

(** ** The table *)

Fixpoint netgroup_len (s : clients) (l : list positive) (len : Z) : option Z :=
  match l with
  | [] => Some len
  | clp :: l => c ← cl_store s !! clp; netgroup_len s l (u32 (len + u32 (Z.of_nat (length (m_hostname c)) + 1)))
  end.

(** With it, whether the kernel caches are flushed. *)
Definition check_useipaddr (st : auth) : option (auth * bool) :=
  if 1 <? use_ipaddr st then Some (st, false)
  else
    len ← netgroup_len (ex_clients (a_tab st)) (cl_list (ex_clients (a_tab st)) MCL_NETGROUP) 0;
    let u := if NFSCLNT_IDMAX / 2 <? len then 1 else 0 in
    Some (Auth (a_tab st) (client_match_gen st) (client_match_active st) u (last_fd st) (counter st) (v4root_needed st),
          negb (u =? use_ipaddr st)).

(** What reading etab needs: [errno] at the call, the mask of the security
    flags, the re-export database, [realpath], the kernel's answers to test
    exports, the keytab, the hash of paths, the features of the kernel, whether
    etab can be locked, the statics and the stack of the reader. *)
Record loader := Loader
  { ld_erange : bool; ld_mask : Z; ld_db : cstr -> bool -> option Z; ld_realpath : cstr -> option cstr;
    ld_chan : cstr -> bool; ld_keytab : bool; ld_uuid : cstr -> cstr; ld_features : Z;
    ld_lock : bool; ld_def : exportent; ld_stack : cstr; ld_fuel : nat }.

(** Replacing the table by what a text describes. *)
Definition load (ld : loader) (tab : extab) (needed : bool) (text : cstr) : option (extab * bool) :=
  tab ← export_freeall tab;
  xtab_read ns (ld_erange ld) (ld_mask ld) (ld_db ld) (ld_realpath ld) tab (ld_lock ld) (ld_def ld) (Some text) (ld_stack ld) true needed.

Definition v4root (ld : loader) (tab : extab) (needed : bool) : option extab :=
  v4root_set ns (ld_erange ld) (ld_chan ld) (ld_keytab ld) (ld_uuid ld) (ld_fuel ld) tab needed (ld_features ld).

(** [None] when etab cannot be opened: the program exits.  The result is
    [counter]. *)
Definition auth_reload (ld : loader) (st : auth) (etab : option file) : option (Z * auth) :=
  f ← etab;
  if bool_decide (f_ino <$> last_fd st = Some (f_ino f)) then Some (counter st, st)
  else
    '(tab, needed) ← load ld (a_tab st) (v4root_needed st) (f_text f);
    let st := Auth tab (client_match_gen st) (client_match_active st) (use_ipaddr st) (Some f) (counter st) needed in
    '(st, _) ← check_useipaddr st;
    tab ← v4root ld (a_tab st) needed;
    let n := u32 (counter st + 1) in
    Some (n, Auth tab (client_match_gen st) (client_match_active st) (use_ipaddr st) (last_fd st) n (v4root_needed st)).

(** ** Requests *)

(** The name of the client, and the error set on the way. *)
Definition get_client_hostname (st : auth) (caller : sockaddr) (ai : addrinfo) (error : auth_error) : option (option cstr * auth_error) :=
  if negb (use_ipaddr st =? 0) then Some (Some ("$"%char :: host_ntop caller), error)
  else
    n ← client_compose ns (ex_clients (a_tab st)) ai;
    Some (match n with
          | None => None
          | Some [] => Some $"DEFAULT"
          | Some n => Some n
          end, unknown_host).

Fixpoint newcache_loop (fuel : nat) (st : auth) (exp : option positive) (path dom : cstr) (ai : addrinfo)
  : option (option exportent * auth) :=
  match exp, fuel with
  | None, _ => Some (None, st)
  | Some _, O => None
  | Some id, S fuel =>
      e ← ex_store (a_tab st) !! id;
      if negb (streq path (e_path (m_export e))) then newcache_loop fuel st (m_next e) path dom ai
      else
        '(ok, st) ← client_matches st e dom (Some ai);
        if negb ok then newcache_loop fuel st (m_next e) path dom ai
        else if has_flag (e_flags (m_export e)) NFSEXP_V4ROOT then newcache_loop fuel st (m_next e) path dom ai
        else Some (Some (m_export e), st)
  end.

Fixpoint newcache_types (types : list mcl_type) (st : auth) (path dom : cstr) (ai : addrinfo) : option (option exportent * auth) :=
  match types with
  | [] => Some (None, st)
  | t :: types =>
      '(r, st) ← newcache_loop (size (ex_store (a_tab st))) st (p_head (exportlist (a_tab st) t)) path dom ai;
      match r with
      | Some e => Some (Some e, st)
      | None => newcache_types types st path dom ai
      end
  end.

(** The export with the client's name, or the error. *)
Definition auth_authenticate_newcache (st : auth) (caller : sockaddr) (path : cstr) (ai : addrinfo) (error : auth_error)
  : option (option (cstr * exportent) * auth_error * auth) :=
  match get_client_hostname st caller ai error with
  | None => None
  | Some (None, error) => Some (None, error, st)
  | Some (Some dom, _) =>
      match newcache_types mcl_types st path dom ai with
      | None => None
      | Some (r, st) => Some ((fun e => (dom, e)) <$> r, not_exported, st)
      end
  end.

Definition IPPORT_RESERVED : Z := 1024.

Definition auth_authenticate_internal (st : auth) (caller : sockaddr) (port : Z) (path : cstr) (ai : addrinfo) (error : auth_error)
  : option (option (cstr * exportent) * auth_error * auth) :=
  match auth_authenticate_newcache st caller path ai error with
  | None => None
  | Some (None, error, st) => Some (None, error, st)
  | Some (Some (dom, e), _, st) =>
      if negb (has_flag (e_flags e) NFSEXP_INSECURE_PORT) && (IPPORT_RESERVED <=? port)
      then Some (None, illegal_port, st) else Some (Some (dom, e), success, st)
  end.

(** [strrchr(s, '/')]: the part before the last slash. *)
Fixpoint before_last_slash (s : cstr) : option cstr :=
  match s with
  | [] => None
  | c :: s => match before_last_slash s with
              | Some a => Some (c :: a)
              | None => if ceqb c "/" then Some [] else None
              end
  end.

(** [stop]: [p == &epath[1]]. *)
Fixpoint authenticate_loop (fuel : nat) (st : auth) (caller : sockaddr) (port : Z) (epath : cstr) (stop : bool) (ai : addrinfo)
    (error : auth_error) : option (option (cstr * exportent) * auth_error * auth) :=
  match fuel with
  | O => None
  | S fuel =>
      match auth_authenticate_internal st caller port epath ai error with
      | None => None
      | Some (Some e, error, st) => Some (Some e, error, st)
      | Some (None, error, st) =>
          if negb (bool_decide (error = not_exported) || bool_decide (error = no_entry)) then Some (None, error, st)
          else if stop then Some (None, error, st)
          else a ← before_last_slash epath;
               match a with
               | [] => authenticate_loop fuel st caller port (take 1 epath) true ai error
               | _ => authenticate_loop fuel st caller port a (length a =? 1)%nat ai error
               end
      end
  end.

Definition MAXPATHLEN : nat := 4096.

(** The entry and the name of its client, or the reason of the refusal. *)
Definition auth_authenticate (st : auth) (caller : sockaddr) (port : Z) (path : cstr) : option ((cstr * exportent) + auth_error) :=
  if negb (ceqb (deref path) "/") then Some (inr bad_path)
  else
    let epath := auth_fixpath (take MAXPATHLEN path) in
    match client_resolve ns (ex_clients (a_tab st)) caller with
    | None => Some (inr bad_path)
    | Some ai =>
        match authenticate_loop (S (S (length epath))) st caller port epath false ai bad_path with
        | None => None
        | Some (Some e, _, _) => Some (inl e)
        | Some (None, error, _) => Some (inr error)
        end
    end.
End auth.

(** ** The cache of client checks *)

Section match_cache.
  Context (ns : resolver).

(** No record carries a stamp of the future. *)
Definition stamps_ok (st : auth) : Prop :=
  0 <= client_match_gen st /\
  forall i c, cl_store (ex_clients (a_tab st)) !! i = Some c -> 0 <= m_match_gen c <= client_match_gen st.

(** What the cache holds for this bracket is right. *)
Definition cached_ok (st : auth) (dom : cstr) (ai : option addrinfo) : Prop :=
  forall i c, cl_store (ex_clients (a_tab st)) !! i = Some c -> m_match_gen c = client_match_gen st -> verdict ns c dom ai = Some (m_match c).

Lemma verdict_set_match c g r dom ai : verdict ns (set_match c g r) dom ai = verdict ns c dom ai.
Proof. done. Qed.

(** The same state but for the cached answers. *)
Record same_but_cache (st st' : auth) : Prop := SameButCache
  { sb_store : ex_store (a_tab st') = ex_store (a_tab st); sb_lists : exportlist (a_tab st') = exportlist (a_tab st);
    sb_clients : cl_list (ex_clients (a_tab st')) = cl_list (ex_clients (a_tab st));
    sb_records : forall i, (fun c => set_match c 0 false) <$> cl_store (ex_clients (a_tab st')) !! i
                         = (fun c => set_match c 0 false) <$> cl_store (ex_clients (a_tab st)) !! i;
    sb_gen : client_match_gen st' = client_match_gen st; sb_active : client_match_active st' = client_match_active st;
    sb_use : use_ipaddr st' = use_ipaddr st }.

#[export] Instance same_but_cache_refl : Reflexive same_but_cache.
Proof. intros st. by split. Qed.
#[export] Instance same_but_cache_trans : Transitive same_but_cache.
Proof. intros s1 s2 s3 [] []. split; congruence. Qed.

Lemma same_but_cache_client st st' i c :
  same_but_cache st st' -> cl_store (ex_clients (a_tab st)) !! i = Some c ->
  exists c', cl_store (ex_clients (a_tab st')) !! i = Some c' /\ set_match c' 0 false = set_match c 0 false.
Proof.
  intros H E. pose proof (sb_records _ _ H i) as R. rewrite E in R.
  destruct (cl_store (ex_clients (a_tab st')) !! i) as [c'|]; [|by inversion R]. exists c'. split; [done|]. exact (Some_inj _ _ R).
Qed.

Lemma verdict_same c c' dom ai : set_match c' 0 false = set_match c 0 false -> verdict ns c' dom ai = verdict ns c dom ai.
Proof. intros H. by rewrite <- (verdict_set_match c' 0 false), H, verdict_set_match. Qed.

Lemma begin_cached st dom ai : stamps_ok st -> client_match_gen st < 2 ^ 64 - 1 ->
  cached_ok (client_match_begin st) dom ai /\ client_match_active (client_match_begin st) = true /\ stamps_ok (client_match_begin st).
Proof.
  intros [H0 Hs] Hg. unfold client_match_begin, cached_ok, stamps_ok. cbn [a_tab client_match_gen client_match_active].
  assert (u64 (client_match_gen st + 1) = client_match_gen st + 1) as -> by (unfold u64; rewrite Z.mod_small; lia).
  rewrite (proj2 (Z.eqb_neq _ _)) by lia.
  split; [|split; [done|split; [lia|]]]; intros i c E; specialize (Hs i c E); lia.
Qed.

(** Inside a bracket the answer is the one the check gives. *)
Lemma client_matches_cached st exp dom ai c b :
  client_match_active st = true -> cached_ok st dom ai ->
  cl_store (ex_clients (a_tab st)) !! m_client exp = Some c -> verdict ns c dom ai = Some b ->
  exists st', client_matches ns st exp dom ai = Some (b, st') /\ cached_ok st' dom ai /\ same_but_cache st st'.
Proof.
  intros Ha Hc E Hv. unfold client_matches. rewrite E. cbn [mbind option_bind]. rewrite Ha. cbn [andb].
  destruct (m_match_gen c =? client_match_gen st) eqn:Eg.
  - apply Z.eqb_eq in Eg. rewrite (Hc _ _ E Eg) in Hv. injection Hv as <-. by exists st; split_and!.
  - rewrite Hv. cbn [mbind option_bind]. eexists. split; [reflexivity|]. split.
    + intros i ci. cbn. destruct (decide (m_client exp = i)) as [<-|]; [|rewrite lookup_insert_ne by done; apply Hc].
      rewrite lookup_insert_eq. intros [= <-] _. by rewrite verdict_set_match.
    + split; try done. intros i. cbn. destruct (decide (m_client exp = i)) as [<-|]; [|by rewrite lookup_insert_ne].
      by rewrite lookup_insert_eq, E.
Qed.

(** Outside a bracket the cache is not consulted and not changed. *)
Lemma client_matches_inert st exp dom ai :
  client_match_active st = false ->
  client_matches ns st exp dom ai = (c ← cl_store (ex_clients (a_tab st)) !! m_client exp; b ← verdict ns c dom ai; Some (b, st)).
Proof.
  intros Ha. unfold client_matches. destruct (_ !! _) as [c|]; [|done]. cbn [mbind option_bind]. rewrite Ha. cbn [andb].
  by destruct (verdict ns c dom ai).
Qed.

(** A sequence of checks. *)
Fixpoint matches_all (st : auth) (exps : list nfs_export) (dom : cstr) (ai : option addrinfo) : option (list bool * auth) :=
  match exps with
  | [] => Some ([], st)
  | exp :: exps =>
      '(b, st) ← client_matches ns st exp dom ai;
      '(bs, st) ← matches_all st exps dom ai;
      Some (b :: bs, st)
  end.

Lemma matches_all_cached st exps dom ai bs :
  client_match_active st = true -> cached_ok st dom ai ->
  Forall2 (fun exp b => exists c, cl_store (ex_clients (a_tab st)) !! m_client exp = Some c /\ verdict ns c dom ai = Some b) exps bs ->
  exists st', matches_all st exps dom ai = Some (bs, st') /\ same_but_cache st st'.
Proof.
  intros Ha Hc H. revert st Ha Hc H. induction exps as [|exp exps IH] in bs |- *; intros st Ha Hc H.
  { apply Forall2_nil_inv_l in H as ->. by exists st. }
  apply Forall2_cons_inv_l in H as (b & bs' & (c & E & Hv) & H & ->). cbn [matches_all].
  destruct (client_matches_cached st exp dom ai c b Ha Hc E Hv) as (st1 & -> & Hc1 & Hs1). cbn [mbind option_bind].
  destruct (IH bs' st1) as (st2 & -> & Hs2).
  - by rewrite (sb_active _ _ Hs1).
  - done.
  - eapply Forall2_impl; [exact H|]. intros e b' (c' & E' & Hv'). destruct (same_but_cache_client _ _ _ _ Hs1 E') as (c2 & E2 & Hc2).
    exists c2. split; [done|]. by rewrite (verdict_same c').
  - exists st2. split; [done|by etrans].
Qed.
End match_cache.

(** C23. The cache of client checks never shows: in a bracket opened by
    [client_match_begin], each call of [client_matches] for one requester gives
    the answer of the check itself, however many exports share a client and
    whatever earlier brackets, for other requesters, left in the records; after
    [client_match_end] the same holds for any requester. *)
Theorem client_match_cache_sound ns st exps dom ai bs :
  stamps_ok st -> client_match_gen st < 2 ^ 64 - 1 ->
  Forall2 (fun exp b => exists c, cl_store (ex_clients (a_tab st)) !! m_client exp = Some c /\ verdict ns c dom ai = Some b) exps bs ->
  exists st', matches_all ns (client_match_begin st) exps dom ai = Some (bs, st') /\
    forall exp dom' ai' c b, cl_store (ex_clients (a_tab st)) !! m_client exp = Some c -> verdict ns c dom' ai' = Some b ->
      client_matches ns (client_match_end st') exp dom' ai' = Some (b, client_match_end st').
Proof.
  intros Hs Hg H. destruct (begin_cached ns st dom ai Hs Hg) as (Hc & Ha & _).
  destruct (matches_all_cached ns (client_match_begin st) exps dom ai bs Ha Hc H) as (st' & E & Hsame).
  exists st'. split; [done|]. intros exp dom' ai' c b Ec Hv. rewrite client_matches_inert by done. cbn [a_tab client_match_end].
  destruct (same_but_cache_client _ _ _ _ Hsame Ec) as (c' & -> & Hc'). cbn [mbind option_bind].
  by rewrite (verdict_same ns c c'), Hv.
Qed.

Definition auth_ex : auth := Auth one_tab 41 false 0 None 0 false.

Definition exp_ex : nfs_export :=
  match ex_store one_tab !! 1%positive with Some e => e | None => Export None 1 ent_ex 0 false false false false end.

Lemma client_match_cache_sound_witness :
  exists st', matches_all ns_ex (client_match_begin auth_ex) [exp_ex; exp_ex] $"*" None = Some ([true; true], st').
Proof.
  destruct (client_match_cache_sound ns_ex auth_ex [exp_ex; exp_ex] $"*" None [true; true]) as (st' & H & _).
  - split; [cbn; lia|]. intros i c Hc. vm_compute in Hc. destruct i; [done|done|]. injection Hc as <-. cbn. lia.
  - cbn. lia.
  - repeat constructor; eexists; (split; [vm_compute; reflexivity|vm_compute; reflexivity]).
  - exists st'. exact H.
Defined.

(** ** The path of a request *)

Definition comps (path : cstr) : list cstr := List.filter (fun w => negb (streq w [])) (split_on "/" path).
Definition slashed (l : list cstr) : cstr := concat (map (cons "/"%char) l).
Definition canon (l : list cstr) : cstr := match l with [] => $"/" | _ => slashed l end.

Lemma squeeze_word w s : "/"%char ∉ w -> squeeze (w ++ s) = w ++ squeeze s.
Proof.
  induction w as [|c w IH]; intros H; [done|]. apply not_elem_of_cons in H as [Hc H]. cbn [app squeeze].
  rewrite (proj2 (ceqb_false c "/"%char)) by congruence. cbn [negb orb]. by rewrite IH.
Qed.

Lemma squeeze_slash_word w s : "/"%char ∉ w -> w <> [] -> squeeze ("/"%char :: w ++ s) = "/"%char :: w ++ squeeze s.
Proof.
  intros Hw Hn. destruct w as [|c w]; [done|]. rewrite <- squeeze_word by done. apply not_elem_of_cons in Hw as [Hc _]. cbn [squeeze app deref].
  rewrite (proj2 (ceqb_false c "/"%char)) by congruence. by rewrite orb_true_r.
Qed.

Lemma rtrim_word w s : "/"%char ∉ w -> w <> [] -> rtrim (w ++ s) = w ++ rtrim s.
Proof.
  induction w as [|c w IH]; intros H Hn; [done|]. apply not_elem_of_cons in H as [Hc H]. cbn [app rtrim].
  destruct w as [|d w].
  - cbn [app]. rewrite (proj2 (ceqb_false c "/"%char)) by congruence. by destruct (rtrim s).
  - by rewrite (IH H) by done.
Qed.

Lemma rtrim_slash_word w s : "/"%char ∉ w -> w <> [] -> rtrim ("/"%char :: w ++ s) = "/"%char :: w ++ rtrim s.
Proof. intros H Hn. cbn [rtrim]. rewrite rtrim_word by done. by destruct w. Qed.

Lemma comps_word w : "/"%char ∉ w -> w <> [] -> comps w = [w].
Proof. intros H Hn. unfold comps. rewrite split_on_notin by done. cbn. unfold streq. by rewrite bool_decide_false. Qed.
Lemma comps_app w s : "/"%char ∉ w -> w <> [] -> comps (w ++ "/"%char :: s) = w :: comps s.
Proof. intros H Hn. unfold comps. rewrite split_on_app by done. cbn. unfold streq at 1. by rewrite bool_decide_false. Qed.

Lemma squeeze_slashed n s : (length s <= n)%nat -> rtrim (squeeze ("/"%char :: s)) = slashed (comps s).
Proof.
  revert s; induction n as [|n IH]; intros s Hn; [by destruct s; [|cbn in Hn; lia]|].
  destruct (strchr "/" s) as [[a b]|] eqn:E.
  - apply strchr_Some in E as [-> Ha]. destruct a as [|c a].
    + apply (IH b). cbn in Hn. lia.
    + rewrite squeeze_slash_word, rtrim_slash_word, comps_app by done. cbn [slashed map concat app]. rewrite IH by (cbn in Hn; len). done.
  - apply strchr_None in E. destruct s as [|c s]; [done|]. rewrite <- (app_nil_r (c :: s)) at 1.
    rewrite squeeze_slash_word, rtrim_slash_word, comps_word by done. done.
Qed.

Lemma squeeze_head s : exists r, squeeze ("/"%char :: s) = "/"%char :: r.
Proof.
  induction s as [|c s IH]; [by exists []|]. cbn [squeeze deref]. destruct (ceqb c "/") eqn:E.
  - apply ceqb_true in E as ->. cbn. exact IH.
  - cbn. eauto.
Qed.

(** The path as it is looked up: one slash before each component, none behind. *)
Lemma auth_fixpath_canon s : auth_fixpath ("/"%char :: s) = canon (comps s).
Proof.
  unfold auth_fixpath, canon. pose proof (squeeze_slashed (length s) s (Nat.le_refl _)) as H.
  destruct (squeeze_head s) as [r E]. rewrite E in *. cbn [rtrim] in H.
  destruct (comps s) as [|w l].
  - cbn in H. destruct (rtrim r); [done|]. done.
  - rewrite <- H. destruct (rtrim r); [|done]. done.
Qed.

(** ** The longest exported directory *)

(** The directories at and above a path, from the longest; [n] components of it. *)
Fixpoint ancestors (n : nat) (l : list cstr) : list cstr :=
  canon (take n l) :: match n with O => [] | S n => ancestors n l end.

Definition parts_ok (l : list cstr) : Prop := Forall (fun w => "/"%char ∉ w /\ w <> []) l.

Lemma comps_ok s : parts_ok (comps s).
Proof.
  unfold parts_ok, comps. apply Forall_forall. intros w [Hw Hn]%list_elem_of_In%filter_In.
  split; [|intros ->; done]. clear Hn. revert w Hw. induction s as [|c s IH]; cbn [split_on]; intros w.
  { intros [<-|[]]. by apply not_elem_of_nil. }
  destruct (ceqb c "/") eqn:E.
  - intros [<-|Hw]; [by apply not_elem_of_nil|by apply IH].
  - apply ceqb_false in E. destruct (split_on "/" s) as [|x l] eqn:Es.
    + intros [<-|[]]. by rewrite list_elem_of_singleton.
    + intros [<-|Hw]; [|apply IH; by right]. rewrite not_elem_of_cons. split; [done|]. apply IH. by left.
Qed.

Lemma slashed_app l l' : slashed (l ++ l') = slashed l ++ slashed l'.
Proof. unfold slashed. by rewrite map_app, concat_app. Qed.

Lemma before_last_word a w : "/"%char ∉ w -> before_last_slash (a ++ "/"%char :: w) = Some a.
Proof.
  intros Hw. induction a as [|c a IH]; cbn [app before_last_slash]; [|by rewrite IH].
  assert (before_last_slash w = None) as ->; [|done]. clear -Hw. induction w as [|c w IH]; [done|].
  apply not_elem_of_cons in Hw as [Hc Hw]. cbn. rewrite IH by done. by rewrite (proj2 (ceqb_false c "/"%char)) by congruence.
Qed.

Lemma slashed_length l : parts_ok l -> (2 * length l <= length (slashed l))%nat.
Proof.
  induction 1 as [|w l [_ Hw] _ IH]; [done|]. change (slashed (w :: l)) with (("/"%char :: w) ++ slashed l).
  rewrite length_app. cbn [length]. destruct w; [done|]. cbn [length]. lia.
Qed.

(** One step of the loop: the directory above. *)
Lemma canon_up l n : parts_ok l -> (n < length l)%nat ->
  exists a, before_last_slash (canon (take (S n) l)) = Some a /\
    (n = O /\ a = [] /\ take 1 (canon (take (S n) l)) = canon [] \/ a = canon (take n l) /\ (2 <= length a)%nat).
Proof.
  intros Hl Hn. destruct (lookup_lt_is_Some_2 l n Hn) as [w Ew]. rewrite (take_S_r l n w Ew).
  pose proof (Forall_lookup_1 _ _ _ _ Hl Ew) as [Hw _].
  assert (canon (take n l ++ [w]) = slashed (take n l) ++ "/"%char :: w) as ->.
  { transitivity (slashed (take n l ++ [w])); [by destruct (take n l)|]. rewrite slashed_app. cbn. by rewrite app_nil_r. }
  exists (slashed (take n l)). split; [by apply before_last_word|]. destruct n as [|n]; [by left|right].
  pose proof (slashed_length (take (S n) l) (Forall_take _ _ _ Hl)) as Hlen. rewrite length_take in Hlen.
  split; [by destruct l|lia].
Qed.

Section longest.
  Context (ns : resolver) (st : auth) (L : mcl_type -> list positive) (caller : sockaddr) (port : Z) (ai : addrinfo) (dom : cstr).

(** The exports, in the order of the search. *)
Definition exports_of (ids : list positive) : list nfs_export := omap (fun id => ex_store (a_tab st) !! id) ids.

Definition client_ok (e : nfs_export) : bool :=
  match cl_store (ex_clients (a_tab st)) !! m_client e with
  | Some c => bool_decide (verdict ns c dom (Some ai) = Some true)
  | None => false
  end.

(** The export that answers for a directory. *)
Definition grant (path : cstr) : option exportent :=
  m_export <$> List.find (fun e => streq path (e_path (m_export e)) && client_ok e && negb (has_flag (e_flags (m_export e)) NFSEXP_V4ROOT))
                 (exports_of (all_of L)).

Definition port_ok (e : exportent) : bool := has_flag (e_flags e) NFSEXP_INSECURE_PORT || (port <? IPPORT_RESERVED).

Hypothesis Hact : client_match_active st = false.
Hypothesis Hst : st_ok (a_tab st) L.
Hypothesis Hcheck : forall e, e ∈ exports_of (all_of L) ->
  exists c b, cl_store (ex_clients (a_tab st)) !! m_client e = Some c /\ verdict ns c dom (Some ai) = Some b.
Hypothesis Hdom : forall error, exists error', get_client_hostname ns st caller ai error = Some (Some dom, error').

Definition find_in (path : cstr) (l : list nfs_export) : option exportent :=
  m_export <$> List.find (fun e => streq path (e_path (m_export e)) && client_ok e && negb (has_flag (e_flags (m_export e)) NFSEXP_V4ROOT)) l.

Lemma newcache_loop_find path l fuel p :
  chain (ex_store (a_tab st)) p l None -> (length l <= fuel)%nat -> (forall id, id ∈ l -> id ∈ all_of L) ->
  newcache_loop ns fuel st p path dom ai = Some (find_in path (exports_of l), st).
Proof using Hact Hcheck.
  revert fuel p; induction l as [|x l IH]; intros fuel p Hc Hf Hin; [cbn in Hc; subst; by destruct fuel|].
  destruct Hc as (-> & e & E & Hc). destruct fuel as [|fuel]; [cbn in Hf; lia|]. cbn [newcache_loop]. rewrite E. cbn [mbind option_bind].
  assert (newcache_loop ns fuel st (m_next e) path dom ai = Some (find_in path (exports_of l), st)) as IH'.
  { apply IH; [done|cbn in Hf; lia|]. intros id Hid. apply Hin. by right. }
  assert (exports_of (x :: l) = e :: exports_of l) as -> by (unfold exports_of; cbn; by rewrite E).
  unfold find_in at 1. cbn [List.find]. fold (find_in path (exports_of l)).
  destruct (streq path (e_path (m_export e))); cbn [negb andb]; [|exact IH'].
  rewrite client_matches_inert by done. unfold client_ok at 1.
  destruct (Hcheck e) as (c & b & Ec & Hv). { apply list_elem_of_omap. exists x. split; [apply Hin; by left|done]. }
  rewrite Ec. cbn [mbind option_bind]. rewrite !Hv. cbn [mbind option_bind]. destruct b.
  - rewrite bool_decide_true by done. cbn [negb andb]. destruct (has_flag _ _); [exact IH'|done].
  - rewrite bool_decide_false by done. exact IH'.
Qed.

Lemma find_in_app path l l' :
  find_in path (exports_of (l ++ l')) = match find_in path (exports_of l) with Some e => Some e | None => find_in path (exports_of l') end.
Proof.
  unfold exports_of, find_in. rewrite omap_app. induction (omap _ l) as [|e r IH]; [done|].
  cbn [app List.find]. case_if; [done|exact IH].
Qed.

Lemma newcache_types_find path types :
  (forall t, t ∈ types -> t ∈ mcl_types) ->
  newcache_types ns types st path dom ai = Some (find_in path (exports_of (concat (map L types))), st).
Proof using Hact Hst Hcheck.
  induction types as [|t types IH]; intros Ht; [done|]. cbn [newcache_types map concat].
  destruct (so_table _ _ Hst t) as [Hc Hn _].
  rewrite (newcache_loop_find path (L t)); [|done|by eapply chain_size|intros id Hid; apply elem_of_all_of; eauto].
  cbn [mbind option_bind]. rewrite find_in_app. destruct (find_in path (exports_of (L t))); [done|]. apply IH.
  intros t' Ht'. apply Ht. by right.
Qed.

Definition answer (path : cstr) : option (cstr * exportent) * auth_error :=
  match grant path with
  | None => (None, not_exported)
  | Some e => if port_ok e then (Some (dom, e), success) else (None, illegal_port)
  end.

Lemma authenticate_internal_answer path error :
  auth_authenticate_internal ns st caller port path ai error = Some (answer path, st).
Proof using Hact Hst Hcheck Hdom.
  unfold auth_authenticate_internal, auth_authenticate_newcache. destruct (Hdom error) as [error' ->].
  rewrite newcache_types_find by done. change (find_in path (exports_of (concat (map L mcl_types)))) with (grant path).
  unfold answer. destruct (grant path) as [e|]; [|done]. cbn [fmap option_fmap option_map]. unfold port_ok.
  rewrite Z.leb_antisym. by destruct (has_flag _ _), (port <? IPPORT_RESERVED).
Qed.

(** The answer for the first directory that is exported. *)
Definition longest (dirs : list cstr) : option (cstr * exportent) * auth_error :=
  match omap grant dirs with
  | [] => (None, not_exported)
  | e :: _ => if port_ok e then (Some (dom, e), success) else (None, illegal_port)
  end.

Lemma longest_cons d dirs : longest (d :: dirs) = match grant d with None => longest dirs | Some _ => answer d end.
Proof. unfold longest, answer. cbn [omap list_omap]. by destruct (grant d). Qed.

Lemma loop_step fuel path stop error :
  authenticate_loop ns (S fuel) st caller port path stop ai error =
  match grant path with
  | Some _ => Some (answer path, st)
  | None => if stop then Some (None, not_exported, st)
            else a ← before_last_slash path;
                 match a with
                 | [] => authenticate_loop ns fuel st caller port (take 1 path) true ai not_exported
                 | _ => authenticate_loop ns fuel st caller port a (length a =? 1)%nat ai not_exported
                 end
  end.
Proof using Hact Hst Hcheck Hdom.
  cbn [authenticate_loop]. rewrite authenticate_internal_answer. unfold answer. destruct (grant path) as [e|]; [|done].
  by destruct (port_ok e).
Qed.

Lemma authenticate_loop_longest l n fuel error :
  parts_ok l -> (n <= length l)%nat -> (n + 2 <= fuel)%nat ->
  authenticate_loop ns fuel st caller port (canon (take n l)) false ai error = Some (longest (ancestors n l), st).
Proof using Hact Hst Hcheck Hdom.
  intros Hl. revert fuel error; induction n as [|n IH]; intros fuel error Hn Hf; (destruct fuel as [|fuel]; [lia|]); rewrite loop_step.
  - cbn [ancestors]. rewrite longest_cons, take_0. destruct (grant (canon [])) as [e|] eqn:Eg; [done|].
    destruct fuel as [|fuel]; [lia|]. change (before_last_slash (canon [])) with (Some (@nil ascii)). cbn [mbind option_bind].
    change (take 1 (canon [])) with (canon []). by rewrite loop_step, Eg.
  - cbn [ancestors]. rewrite longest_cons. destruct (grant _) as [e|] eqn:Eg; [done|].
    destruct (canon_up l n Hl Hn) as (a & -> & [(-> & -> & ->)|(-> & Ha)]); cbn [mbind option_bind].
    + destruct fuel as [|fuel]; [lia|]. cbn [ancestors]. rewrite longest_cons, take_0, loop_step. by destruct (grant (canon [])).
    + destruct (canon (take n l)) as [|c a] eqn:Ec; [cbn in Ha; lia|]. rewrite <- Ec in *.
      rewrite (proj2 (Nat.eqb_neq _ 1%nat)) by lia. apply IH; lia.
Qed.
End longest.

Lemma get_client_hostname_any ns st caller ai error error' dom :
  get_client_hostname ns st caller ai error = Some (Some dom, error') ->
  forall e, exists e', get_client_hostname ns st caller ai e = Some (Some dom, e').
Proof.
  unfold get_client_hostname. intros H e. destruct (negb (use_ipaddr st =? 0)).
  - injection H as <- <-. eauto.
  - by exists error'.
Qed.

Lemma authenticate_ancestors ns st L caller port s ai dom error :
  client_match_active st = false -> st_ok (a_tab st) L ->
  (forall e, e ∈ exports_of st (all_of L) ->
     exists c b, cl_store (ex_clients (a_tab st)) !! m_client e = Some c /\ verdict ns c dom (Some ai) = Some b) ->
  client_resolve ns (ex_clients (a_tab st)) caller = Some ai ->
  get_client_hostname ns st caller ai bad_path = Some (Some dom, error) ->
  (length s < MAXPATHLEN)%nat ->
  auth_authenticate ns st caller port ("/"%char :: s) =
    Some (match omap (grant ns st L ai dom) (ancestors (length (comps s)) (comps s)) with
          | [] => inr not_exported
          | e :: _ => if port_ok port e then inl (dom, e) else inr illegal_port
          end).
Proof.
  intros Hact Hst Hcheck Hai Hdom Hlen. unfold auth_authenticate. cbn [deref]. change (negb (ceqb "/" "/")) with false. cbv iota.
  rewrite take_ge by (cbn [length]; lia). rewrite auth_fixpath_canon, Hai.
  pose proof (comps_ok s) as Hl. pose proof (slashed_length _ Hl) as Hsl.
  rewrite <- (take_ge (comps s) (length (comps s))) at 2 by lia.
  rewrite (authenticate_loop_longest ns st L caller port ai dom Hact Hst Hcheck (get_client_hostname_any _ _ _ _ _ _ _ Hdom));
    [|done|done|unfold canon; destruct (comps s); cbn [length] in *; lia].
  unfold longest. destruct (omap _ _) as [|e l]; [done|]. by destruct (port_ok port e).
Qed.

(** C2. A mount request is answered by the longest exported directory at or above
    its path.  The path counts by its components, doubled and trailing slashes
    aside; a directory is exported when an export of that path, other than one
    of the pseudo file system, has a client that accepts the requester.  A port
    of 1024 and more is refused there, without a try further up, unless the export
    says insecure; when no directory up to the root is exported, the request is
    refused as such. *)
Theorem auth_authenticate_longest ns st L caller port s ai dom error :
  client_match_active st = false -> st_ok (a_tab st) L ->
  (forall e, e ∈ exports_of st (all_of L) ->
     exists c b, cl_store (ex_clients (a_tab st)) !! m_client e = Some c /\ verdict ns c dom (Some ai) = Some b) ->
  client_resolve ns (ex_clients (a_tab st)) caller = Some ai ->
  get_client_hostname ns st caller ai bad_path = Some (Some dom, error) ->
  (length s < MAXPATHLEN)%nat ->
  auth_authenticate ns st caller port ("/"%char :: s) =
    Some (match omap (grant ns st L ai dom) (ancestors (length (comps s)) (comps s)) with
          | [] => inr not_exported
          | e :: _ => if port_ok port e then inl (dom, e) else inr illegal_port
          end).
Proof. apply authenticate_ancestors. Qed.

(** A resolver that knows the address 10.1.2.3, and no names. *)
Definition ns_num : resolver :=
  Resolver (fun _ => None) (fun s => if streq s $"10.1.2.3" then Some (AI (AF_INET 0x0a010203) [] None) else None)
    (fun _ => None) (fun a => match a with AF_INET 0x0a010203 => Some $"10.1.2.3" | _ => None end)
    (fun _ => None) (fun _ _ => false) (fun _ _ _ _ => []).

Lemma one_tab_only e ids : e ∈ exports_of auth_ex ids -> e = exp_ex.
Proof.
  intros (x & _ & E)%list_elem_of_omap. destruct x; vm_compute in E; [done|done|]. injection E as <-. vm_compute. reflexivity.
Qed.

Lemma auth_authenticate_longest_witness :
  exists L, st_ok one_tab L /\
    match omap (grant ns_num auth_ex L (AI (AF_INET 0x0a010203) [] None) $"*") (ancestors 2 [$"srv"; $"data"]) with
    | e :: _ => port_ok 1023 e = true /\ e = m_export exp_ex
    | [] => False
    end.
Proof.
  destruct one_tab_ok as [L H]. exists L. split; [exact H|].
  pose proof (auth_authenticate_longest ns_num auth_ex L (AF_INET 0x0a010203) 1023 $"srv//data/" (AI (AF_INET 0x0a010203) [] None) $"*" unknown_host
    eq_refl H) as HT.
  specialize (HT ltac:(intros e ->%one_tab_only; do 2 eexists; split; vm_compute; reflexivity)).
  specialize (HT eq_refl eq_refl ltac:(cbn; unfold MAXPATHLEN; lia)).
  change (comps $"srv//data/") with [$"srv"; $"data"] in HT. cbn [length] in HT.
  assert (auth_authenticate ns_num auth_ex (AF_INET 0x0a010203) 1023 ("/"%char :: $"srv//data/") = Some (inl ($"*", m_export exp_ex))) as HE
    by (vm_compute; reflexivity).
  rewrite HE in HT. destruct (omap _ _) as [|e l]; [done|]. destruct (port_ok 1023 e); [|done]. by injection HT as <-.
Defined.

(** ** The table and the file *)

(** mountd or exportd with etab beside it, which exportfs replaces. *)
Record sys := Sys { s_auth : auth; s_etab : option file }.

Section reload.
  Context (ns : resolver).
  (** The circumstances in which etab is read: what the name service, the kernel
      and the keytab say at the time. *)
  Context (known : loader -> Prop).

(** A file gets an inode number no open file has: among these is the one kept
    by [last_fd].  Reloads get the lock of etab. *)
Inductive sys_step : sys -> sys -> Prop :=
| write_step st etab etab' secinfo_flags tab is_export lock tmp err ren :
    (forall f, last_fd st = Some f -> tmp <> f_ino f) ->
    xtab_write secinfo_flags tab is_export lock tmp err ren etab = Some etab' ->
    sys_step (Sys st etab) (Sys st etab')
| reload_step st etab ld n st' :
    known ld -> ld_lock ld = true -> auth_reload ns ld st etab = Some (n, st') -> sys_step (Sys st etab) (Sys st' etab)
| check_step st etab exp dom ai b st' :
    client_matches ns st exp dom ai = Some (b, st') -> sys_step (Sys st etab) (Sys st' etab)
| bracket_step st etab (on : bool) :
    sys_step (Sys st etab) (Sys (if on then client_match_begin st else client_match_end st) etab).

(** The table is what the text describes, with the pseudo exports; the answers
    cached in it aside: the entries that were read from the text, in known
    circumstances, entered one after the other into an emptied table. *)
Definition loaded (st : auth) (f : file) : Prop :=
  exists ld tab0 empty xps tab1 tab2 needed, known ld /\ export_freeall tab0 = Some empty /\
    read_file (ld_mask ld) (ld_db ld) (ld_realpath ld) (ld_def ld) (Some (f_text f)) (ld_stack ld) false = Some xps /\
    xtab_loop ns (ld_erange ld) empty xps true true = Some (tab1, needed) /\ v4root ns ld tab1 needed = Some tab2 /\
    same_but_cache (set_tab st tab2) st.

(** What was read is still what etab holds as long as etab has its inode. *)
Definition in_step (s : sys) : Prop :=
  forall f, last_fd (s_auth s) = Some f -> loaded (s_auth s) f /\ forall g, s_etab s = Some g -> f_ino g = f_ino f -> g = f.

Lemma xtab_write_ino secinfo_flags tab is_export lock tmp err ren etab g :
  xtab_write secinfo_flags tab is_export lock tmp err ren etab = Some (Some g) -> etab = Some g \/ f_ino g = tmp.
Proof.
  unfold xtab_write. destruct lock; [|intros [= ->]; by left]. destruct (xtab_text _ _ _) as [t|]; [|done]. cbn [mbind option_bind].
  intros H%Some_inj. unfold cond_rename in H. destruct etab as [o|]; [destruct (same_loop _ _ _ _ _)|]; destruct ren; cbn [snd] in H;
    try discriminate; apply Some_inj in H as <-; auto.
Qed.

Lemma auth_reload_loads ld st etab n st' :
  known ld -> ld_lock ld = true -> auth_reload ns ld st etab = Some (n, st') ->
  exists f, etab = Some f /\ (f_ino <$> last_fd st = Some (f_ino f) /\ st' = st \/ last_fd st' = Some f /\ loaded st' f).
Proof.
  intros Hk Hlock. unfold auth_reload. destruct etab as [f|]; [|done]. cbn [mbind option_bind]. intros H. exists f. split; [done|].
  destruct (bool_decide _) eqn:Eb; [apply bool_decide_eq_true in Eb; left; by simplify_eq|right].
  destruct (load ns ld (a_tab st) (v4root_needed st) (f_text f)) as [[tab1 needed]|] eqn:El; [|done]. cbn [mbind option_bind] in H.
  destruct (check_useipaddr _) as [[st1 fl]|] eqn:Ec; [|done]. cbn [mbind option_bind] in H.
  assert (a_tab st1 = tab1 /\ last_fd st1 = Some f /\ v4root_needed st1 = needed) as (H1 & H2 & H3).
  { unfold check_useipaddr in Ec. destruct (1 <? _); [by simplify_eq|]. destruct (netgroup_len _ _ _); [|done]. cbn in Ec. by simplify_eq. }
  destruct (v4root ns ld (a_tab st1) needed) as [tab2|] eqn:Ev; [|done]. cbn [mbind option_bind] in H. injection H as <- <-. cbn.
  split; [done|]. rewrite H1 in Ev. unfold load, xtab_read in El. rewrite Hlock in El.
  destruct (export_freeall (a_tab st)) as [empty|] eqn:Efr; [|done]. cbn [mbind option_bind] in El.
  destruct (read_file (ld_mask ld) (ld_db ld) (ld_realpath ld) (ld_def ld) (Some (f_text f)) (ld_stack ld) (negb true)) as [xps|] eqn:Ex; [|done].
  cbn [mbind option_bind orb] in El.
  exists ld, (a_tab st), empty, xps, tab1, tab2, needed. by split_and!.
Qed.

Lemma loaded_same st st' f : loaded st f -> same_but_cache st st' -> loaded st' f.
Proof.
  intros (ld & tab0 & empty & xps & tab1 & tab2 & n & H1 & H2 & H3 & H4 & H5 & H6) Hs.
  exists ld, tab0, empty, xps, tab1, tab2, n. split_and!; try done. destruct H6, Hs. split; cbn in *; try congruence.
Qed.

Lemma client_matches_same st exp dom ai b st' :
  client_matches ns st exp dom ai = Some (b, st') -> same_but_cache st st' /\ last_fd st' = last_fd st.
Proof.
  unfold client_matches. destruct (_ !! _) as [c|] eqn:Ec; [|done]. cbn [mbind option_bind]. destruct (_ && _); [intros H; by simplify_eq|].
  destruct (verdict _ _ _ _) as [r|]; [|done]. cbn [mbind option_bind]. destruct (client_match_active st); intros H; simplify_eq; [|done].
  split; [|done]. split; try done. intros i. cbn. destruct (decide (m_client exp = i)) as [<-|]; [|by rewrite lookup_insert_ne].
  by rewrite lookup_insert_eq, Ec.
Qed.

Lemma sys_step_in_step s s' : in_step s -> sys_step s s' -> in_step s'.
Proof.
  intros HI H f Hf. destruct H as [st etab etab' sf tab ie lock tmp err ren Hfr Hw|st etab ld n st' Hkn Hlk Hr|st etab exp dom ai b st' Hm|st etab on]; cbn in *.
  - destruct (HI f Hf) as [Hl He]. split; [done|]. intros g -> Hg. apply xtab_write_ino in Hw as [->| <-]; [by apply He|].
    by destruct (Hfr f Hf).
  - destruct (auth_reload_loads _ _ _ _ _ Hkn Hlk Hr) as (g & -> & [[Hi ->]|[Hf' Hl]]); [by apply HI|]. simplify_eq. split; [done|]. intros. congruence.
  - destruct (client_matches_same _ _ _ _ _ _ Hm) as [Hs Hl]. rewrite Hl in Hf. destruct (HI f Hf) as [Hd He]. split; [by eapply loaded_same|done].
  - assert (last_fd st = Some f) as Hf0 by (by destruct on). destruct (HI f Hf0) as [(ld & tab0 & empty & xps & tab1 & tab2 & n & H1 & H2 & H3 & H4 & H5 & H6) He].
    split; [|done]. exists ld, tab0, empty, xps, tab1, tab2, n. split_and!; try done. destruct H6. by destruct on; split.
Qed.
End reload.

(** C22. [auth_reload] never leaves a stale table: whatever sequence of rewrites of
    etab, failing ones included, of reloads that get the lock and of client checks
    went before, after a reload that gets the lock the table is the one the text
    now in etab describes, its entries read from that text in the circumstances of
    one of these reloads, with its pseudo exports.  Comparing inode numbers is
    enough because the file last read is kept open. *)
Theorem auth_reload_current ns (known : loader -> Prop) st0 s ld n st' :
  last_fd st0 = None -> (exists etab, rtc (sys_step ns known) (Sys st0 etab) s) -> known ld -> ld_lock ld = true ->
  auth_reload ns ld (s_auth s) (s_etab s) = Some (n, st') ->
  exists f, s_etab s = Some f /\ loaded ns known st' f.
Proof.
  intros H0 [etab Hrtc] Hkn Hlk Hr.
  assert (in_step ns known s) as HI.
  { assert (in_step ns known (Sys st0 etab)) as HI0 by (intros f Hf; cbn in Hf; congruence).
    clear Hr. revert HI0. induction Hrtc as [|s1 s2 s3 H12 _ IH]; [done|]. intros H1. apply IH. by eapply sys_step_in_step. }
  destruct (auth_reload_loads _ _ _ _ _ _ _ Hkn Hlk Hr) as (f & E & [[Hi ->]|[_ Hl]]); exists f; (split; [done|]); [|done].
  destruct (last_fd (s_auth s)) as [g|] eqn:Eg; [|done]. destruct (HI g Eg) as [Hl He]. injection Hi as Hi. by rewrite (He f E (eq_sym Hi)).
Qed.

Definition ld_ex : loader := Loader false 15 (fun _ _ => None) (fun _ => None) (fun _ => true) false (fun _ => []) NFSEXP_V4ROOT true no_ent [] 100.
Definition auth_ex0 : auth := Auth empty_tab 0 false 0 None 0 false.
Definition etab1 : file := File 7 ($"/srv" ++ TAB :: $"*(rw)" ++ [NL]).
Definition reloaded : auth :=
  match auth_reload ns_ex ld_ex auth_ex0 (Some etab1) with Some (_, st) => st | None => auth_ex0 end.
Definition etab2 : file :=
  match xtab_write 15 written_tab true true 8 (fun _ => (false, false)) true (Some etab1) with Some (Some f) => f | _ => etab1 end.

Lemma reloaded_ok : auth_reload ns_ex ld_ex auth_ex0 (Some etab1) = Some (1, reloaded).
Proof.
  unfold reloaded. destruct (auth_reload ns_ex ld_ex auth_ex0 (Some etab1)) as [[n st]|] eqn:E.
  - assert (fst <$> auth_reload ns_ex ld_ex auth_ex0 (Some etab1) = Some 1) as H by (vm_compute; reflexivity).
    rewrite E in H. by injection H as ->.
  - exfalso. assert (fst <$> auth_reload ns_ex ld_ex auth_ex0 (Some etab1) = Some 1) as H by (vm_compute; reflexivity). by rewrite E in H.
Qed.

Lemma etab2_ok : xtab_write 15 written_tab true true 8 (fun _ => (false, false)) true (Some etab1) = Some (Some etab2).
Proof. vm_compute. reflexivity. Qed.

Lemma auth_reload_current_witness :
  exists n st', auth_reload ns_ex ld_ex reloaded (Some etab2) = Some (n, st') /\ n = 2 /\ loaded ns_ex (eq ld_ex) st' etab2.
Proof.
  assert (fst <$> auth_reload ns_ex ld_ex reloaded (Some etab2) = Some 2) as H2 by (vm_compute; reflexivity).
  destruct (auth_reload ns_ex ld_ex reloaded (Some etab2)) as [[n st']|] eqn:E; [|discriminate]. injection H2 as ->.
  destruct (auth_reload_current ns_ex (eq ld_ex) auth_ex0 (Sys reloaded (Some etab2)) ld_ex 2 st') as (f & Hf & Hl).
  - reflexivity.
  - exists (Some etab1). eapply rtc_l; [exact (reload_step ns_ex (eq ld_ex) auth_ex0 (Some etab1) ld_ex 1 reloaded eq_refl eq_refl reloaded_ok)|].
    apply rtc_once. eapply write_step; [|exact etab2_ok]. intros f Hf.
    assert (f_ino <$> last_fd reloaded = Some 7) as H7 by (vm_compute; reflexivity). rewrite Hf in H7. injection H7 as ->. discriminate.
  - reflexivity.
  - reflexivity.
  - exact E.
  - exists 2, st'. split; [done|]. split; [done|]. cbn in Hf. by apply Some_inj in Hf as <-.
Defined.

(** A reload that does not get the lock leaves an empty table, and keeps it: the
    file counts as read, so that the next reload does nothing. *)
Definition ld_unlocked : loader :=
  Loader false 15 (fun _ _ => None) (fun _ => None) (fun _ => true) false (fun _ => []) NFSEXP_V4ROOT false no_ent [] 100.

Lemma auth_reload_unlocked :
  match auth_reload ns_ex ld_unlocked auth_ex0 (Some etab1) with
  | Some (n, st) => Forall (fun t => p_head (exportlist (a_tab st) t) = None) mcl_types /\ auth_reload ns_ex ld_ex st (Some etab1) = Some (n, st)
  | None => False
  end.
Proof.
  destruct (auth_reload ns_ex ld_unlocked auth_ex0 (Some etab1)) as [[n st]|] eqn:E; [|vm_compute in E; discriminate].
  vm_compute in E. injection E as <- <-. split; [repeat constructor|reflexivity].
Qed.
