(* ===== verification/Lookup.v ===== *)
(** * Finding the export of a path (support/export/cache.c 60-82, 461-672, 1264-1333)

    The kernel asks mountd which export a path belongs to.  Paths are compared by
    name, then, when they have as many components, by what the kernel says they
    are.  The answers of the kernel about files are arguments; [None] of the
    functions below is undefined behaviour: a buffer of 4096 bytes that is
    overrun, a byte read behind the end of a string.

    The walk over the exports is the one optimised in this tree: exports whose
    number of components cannot fit are skipped, clients are checked before
    paths, and the check of a client is cached for the length of the walk. *)

From S2P Require Import Prelude Exports ExportsRT Client ExportTab Xio Xtab V4root Auth.

Definition ENOENT : Z := 2.
Definition EACCES : Z := 13.
Definition ENOTDIR : Z := 20.
Definition ENAMETOOLONG : Z := 36.
Definition ELOOP : Z := 40.

Definition path_lookup_error (err : Z) : bool :=
  (err =? ELOOP) || (err =? ENAMETOOLONG) || (err =? ENOENT) || (err =? ENOTDIR) || (err =? EACCES).

Record stat := Stat { st_dev : Z; st_ino : Z; st_isdir : bool; st_isreg : bool }.
Record fhandle := Handle { h_mnt : Z; h_type : Z; h_bytes : cstr }.
Record statfs := Statfs { f_type : Z; f_fsid0 : Z; f_fsid1 : Z }.

(** The file system below the root directory of nfsd, an error number where a
    call fails; the tags that libblkid has for a device; the mount table.  A
    build without file handles is one where [name_to_handle_at] fails. *)
Record vfs := Vfs
  { v_handle : cstr -> fhandle + Z; v_lstat : cstr -> stat + Z; v_stat : cstr -> stat + Z; v_statfs : cstr -> option statfs;
    v_blkid : Z -> option (list (cstr * cstr)); v_mtab : list cstr }.

Definition PATH_MAX : nat := 4096.

Definition count_slashes (p : cstr) : nat := length (List.filter (fun c => ceqb c "/") p).

Section lookup.
  Context (ns : resolver) (fs : vfs).

(** [None] is -1: not known. *)
Definition check_same_path_by_handle (child parent : cstr) : option bool :=
  match v_handle fs child with
  | inr _ => None
  | inl fchild =>
      match v_handle fs parent with
      | inr err => if path_lookup_error err then Some false else None
      | inl fparent =>
          Some (negb (negb (h_mnt fchild =? h_mnt fparent)
                      || negb (length (h_bytes fchild) =? length (h_bytes fparent))%nat
                      || negb (h_type fchild =? h_type fparent)
                      || negb (streq (h_bytes fchild) (h_bytes fparent))))
      end
  end.

Definition check_same_path_by_inode (child parent : cstr) : bool :=
  match v_lstat fs child, v_lstat fs parent with
  | inl sc, inl sp => (st_dev sc =? st_dev sp) && (st_ino sc =? st_ino sp)
  | _, _ => false
  end.

Definition same_path (child parent : cstr) (len : nat) : option bool :=
  let len := if (len =? 0)%nat then length child else len in
  if (PATH_MAX <=? len)%nat then None
  else
    let p := take len child in
    if streq p parent then Some true
    else if negb (count_slashes p =? count_slashes parent)%nat then Some false
    else match check_same_path_by_handle p parent with
         | Some b => Some b
         | None => Some (check_same_path_by_inode p parent)
         end.

Definition is_subdirectory (child parent : cstr) : option bool :=
  let l := length parent in
  if streq parent $"/" && negb (ceqb (at_index child 1) NUL) then Some true
  else same ← same_path child parent l;
       if negb same then Some false
       else if (length child <? l)%nat then None
       else Some (ceqb (at_index child l) "/").

Definition path_matches (exp : nfs_export) (path : cstr) : option bool :=
  same ← same_path path (e_path (m_export exp)) 0;
  if (same : bool) then Some true
  else if has_flag (e_flags (m_export exp)) NFSEXP_CROSSMOUNT then is_subdirectory path (e_path (m_export exp))
  else Some false.

Definition export_matches (st : auth) (exp : nfs_export) (dom path : cstr) (nslashes : nat) (ai : option addrinfo) : option (bool * auth) :=
  if negb (has_flag (e_flags (m_export exp)) NFSEXP_CROSSMOUNT) && negb (nslashes =? count_slashes (e_path (m_export exp)))%nat
  then Some (false, st)
  else
    match client_matches ns st exp dom ai with
    | None => None
    | Some (false, st) => Some (false, st)
    | Some (true, st) => b ← path_matches exp path; Some (b, st)
    end.

(** True iff [e1] is below [e2] and [e2] has crossmnt set. *)
Definition subexport (e1 e2 : exportent) : option bool :=
  if has_flag (e_flags e2) NFSEXP_CROSSMOUNT then is_subdirectory (e_path e1) (e_path e2) else Some false.

Definition set_warned (e : nfs_export) (w : bool) : nfs_export :=
  Export (m_next e) (m_client e) (m_export e) (ex_exported e) (m_xtabent e) (m_mayexport e) (m_changed e) w.

(** Which of two exports that match is kept: [true] for the new one; [None]
    when it is the first by chance. *)
Definition prefer (found exp : exportent) : option bool :=
  if has_flag (e_flags exp) NFSEXP_V4ROOT then Some false
  else if has_flag (e_flags found) NFSEXP_V4ROOT then Some true
  else if (has_flag (e_flags found) NFSEXP_CROSSMOUNT || has_flag (e_flags exp) NFSEXP_CROSSMOUNT)
          && negb (length (e_path found) =? length (e_path exp))%nat
  then Some (length (e_path found) <? length (e_path exp))%nat
  else None.

Fixpoint walk_loop (fuel : nat) (st : auth) (i : mcl_type) (exp : option positive) (found : option (positive * mcl_type)) (dom path : cstr)
    (nslashes : nat) (ai : option addrinfo) : option (option (positive * mcl_type) * auth) :=
  match exp, fuel with
  | None, _ => Some (found, st)
  | Some _, O => None
  | Some id, S fuel =>
      e ← ex_store (a_tab st) !! id;
      match export_matches st e dom path nslashes ai with
      | None => None
      | Some (false, st) => walk_loop fuel st i (m_next e) found dom path nslashes ai
      | Some (true, st) =>
          match found with
          | None => walk_loop fuel st i (m_next e) (Some (id, i)) dom path nslashes ai
          | Some (fid, ft) =>
              f ← ex_store (a_tab st) !! fid;
              match prefer (m_export f) (m_export e) with
              | Some true => walk_loop fuel st i (m_next e) (Some (id, i)) dom path nslashes ai
              | Some false => walk_loop fuel st i (m_next e) found dom path nslashes ai
              | None =>
                  let st := if bool_decide (ft = i) && negb (m_warned f)
                            then set_tab st (set_store (a_tab st) (<[fid := set_warned f true]> (ex_store (a_tab st)))) else st in
                  walk_loop fuel st i (m_next e) found dom path nslashes ai
              end
          end
      end
  end.

Fixpoint walk_types (types : list mcl_type) (st : auth) (found : option (positive * mcl_type)) (dom path : cstr) (nslashes : nat)
    (ai : option addrinfo) : option (option (positive * mcl_type) * auth) :=
  match types with
  | [] => Some (found, st)
  | t :: types =>
      '(found, st) ← walk_loop (size (ex_store (a_tab st))) st t (p_head (exportlist (a_tab st) t)) found dom path nslashes ai;
      walk_types types st found dom path nslashes ai
  end.

Definition lookup_export_walk (st : auth) (dom path : cstr) (ai : option addrinfo) : option (option positive * auth) :=
  '(found, st) ← walk_types mcl_types st None dom path (count_slashes path) ai;
  Some (option_map fst found, st).

Definition lookup_export (st : auth) (dom path : cstr) (ai : option addrinfo) : option (option positive * auth) :=
  '(exp, st) ← lookup_export_walk (client_match_begin st) dom path ai;
  Some (exp, client_match_end st).
End lookup.

(** ** The walk without its optimisations *)

Section reference.
  Context (ns : resolver) (fs : vfs) (st0 : auth) (dom path : cstr) (ai : option addrinfo).

(** The export's client accepts the requester and its path fits. *)
Definition match_ok (e : nfs_export) : bool :=
  match cl_store (ex_clients (a_tab st0)) !! m_client e with
  | Some c => bool_decide (verdict ns c dom ai = Some true) && bool_decide (path_matches fs e path = Some true)
  | None => false
  end.

Definition choose_step (found : option (positive * nfs_export)) (x : positive * nfs_export) : option (positive * nfs_export) :=
  if match_ok (snd x) then
    match found with
    | None => Some x
    | Some f => if bool_decide (prefer (m_export (snd f)) (m_export (snd x)) = Some true) then Some x else Some f
    end
  else found.

(** The choice among exports in the order of the table. *)
Definition choose (found : option (positive * nfs_export)) (l : list (positive * nfs_export)) : option (positive * nfs_export) :=
  foldl choose_step found l.

(** The exports with their names. *)
Definition named (ids : list positive) : list (positive * nfs_export) :=
  omap (fun id => (fun e => (id, e)) <$> ex_store (a_tab st0) !! id) ids.

(** Nothing undefined happens for this request. *)
Definition decidable (e : nfs_export) : Prop :=
  (exists c b, cl_store (ex_clients (a_tab st0)) !! m_client e = Some c /\ verdict ns c dom ai = Some b) /\
  exists b, path_matches fs e path = Some b.

(** The same state up to cached answers and warnings given. *)
Record similar (st : auth) : Prop := Similar
  { sm_store : forall i, (fun e => set_warned e false) <$> ex_store (a_tab st) !! i = (fun e => set_warned e false) <$> ex_store (a_tab st0) !! i;
    sm_size : size (ex_store (a_tab st)) = size (ex_store (a_tab st0));
    sm_lists : exportlist (a_tab st) = exportlist (a_tab st0);
    sm_records : forall i, (fun c => set_match c 0 false) <$> cl_store (ex_clients (a_tab st)) !! i
                         = (fun c => set_match c 0 false) <$> cl_store (ex_clients (a_tab st0)) !! i;
    sm_active : client_match_active st = true;
    sm_cached : cached_ok ns st dom ai }.

Lemma similar_export st i e0 : similar st -> ex_store (a_tab st0) !! i = Some e0 ->
  exists e, ex_store (a_tab st) !! i = Some e /\ m_next e = m_next e0 /\ m_client e = m_client e0 /\ m_export e = m_export e0.
Proof.
  intros H E. pose proof (sm_store st H i) as R. rewrite E in R. destruct (ex_store (a_tab st) !! i) as [e|]; [|by inversion R].
  exists e. split; [done|]. apply Some_inj in R. unfold set_warned in R. by injection R.
Qed.

Lemma similar_client st i c0 : similar st -> cl_store (ex_clients (a_tab st0)) !! i = Some c0 ->
  exists c, cl_store (ex_clients (a_tab st)) !! i = Some c /\ verdict ns c dom ai = verdict ns c0 dom ai.
Proof.
  intros H E. pose proof (sm_records st H i) as R. rewrite E in R. destruct (cl_store (ex_clients (a_tab st)) !! i) as [c|]; [|by inversion R].
  exists c. split; [done|]. apply verdict_same. exact (Some_inj _ _ R).
Qed.

Lemma similar_cache st st' : similar st -> same_but_cache st st' -> cached_ok ns st' dom ai -> similar st'.
Proof.
  intros [H1 H2 H3 H4 H5 H6] [S1 S2 S3 S4 S5 S6 S7] Hc. split; [|congruence|congruence| |congruence|done].
  - intros i. rewrite <- H1. congruence.
  - intros i. rewrite S4. apply H4.
Qed.

Lemma similar_warn st i e : similar st -> ex_store (a_tab st) !! i = Some e ->
  similar (set_tab st (set_store (a_tab st) (<[i := set_warned e true]> (ex_store (a_tab st))))).
Proof.
  intros [H1 H2 H3 H4 H5 H6] E. split; cbn; try done.
  - intros j. destruct (decide (i = j)) as [<-|]; [|rewrite lookup_insert_ne by done; apply H1].
    rewrite lookup_insert_eq. rewrite <- H1, E. done.
  - rewrite <- H2. by eapply map_size_insert_Some.
Qed.

(** Skipping by the number of slashes loses nothing. *)
Lemma prefilter_ok e : has_flag (e_flags (m_export e)) NFSEXP_CROSSMOUNT = false ->
  count_slashes path <> count_slashes (e_path (m_export e)) -> path_matches fs e path <> Some true.
Proof.
  intros Hx Hs. unfold path_matches, same_path. rewrite Nat.eqb_refl. rewrite Hx. destruct (PATH_MAX <=? length path)%nat; [done|].
  rewrite take_ge by lia. destruct (streq _ _) eqn:Es; [apply streq_true in Es; congruence|].
  rewrite (proj2 (Nat.eqb_neq _ _) Hs). done.
Qed.

Lemma export_matches_ok st e0 e : similar st -> decidable e0 -> m_client e = m_client e0 -> m_export e = m_export e0 ->
  exists st', export_matches ns fs st e dom path (count_slashes path) ai = Some (match_ok e0, st') /\ similar st'.
Proof.
  intros Hs [(c0 & b & Ec & Hv) [pb Hp]] Hcl Hex. unfold export_matches, match_ok. rewrite Hex, Ec, Hv, Hp.
  destruct (negb (has_flag _ _) && _) eqn:Epre.
  { apply andb_true_iff in Epre as [Hx Hn]. apply negb_true_iff in Hx, Hn. apply Nat.eqb_neq in Hn.
    exists st. split; [|done]. pose proof (prefilter_ok e0 Hx Hn) as Hf. rewrite Hp in Hf. rewrite (bool_decide_false (Some pb = Some true)) by done.
    by rewrite andb_false_r. }
  destruct (similar_client st _ _ Hs Ec) as (c & Ec' & Hv'). rewrite Hv in Hv'.
  rewrite <- Hcl in Ec'. destruct (client_matches_cached ns st e dom ai c b (sm_active _ Hs) (sm_cached _ Hs) Ec' Hv') as (st' & -> & Hc & Hsb).
  exists st'. split; [|by eapply similar_cache]. destruct b; [|done]. assert (path_matches fs e path = path_matches fs e0 path) as ->.
  { unfold path_matches. by rewrite Hex. }
  rewrite Hp. by destruct pb.
Qed.

(** The export found so far, in the walk and in the reference. *)
Definition found_ok (found : option (positive * mcl_type)) (ref : option (positive * nfs_export)) : Prop :=
  fst <$> found = fst <$> ref /\ forall x, ref = Some x -> ex_store (a_tab st0) !! fst x = Some (snd x).

Lemma walk_loop_choose l p fuel i found ref st :
  chain (ex_store (a_tab st0)) p l None -> (length l <= fuel)%nat -> (forall x e, x ∈ l -> ex_store (a_tab st0) !! x = Some e -> decidable e) ->
  similar st -> found_ok found ref ->
  exists found' st', walk_loop ns fs fuel st i p found dom path (count_slashes path) ai = Some (found', st') /\ similar st' /\
    found_ok found' (choose ref (named l)).
Proof.
  revert p fuel found ref st; induction l as [|x l IH]; intros p fuel found ref st Hc Hf Hd Hs Hfo.
  { cbn in Hc. subst. exists found, st. by destruct fuel. }
  destruct Hc as (-> & e0 & E0 & Hc). destruct fuel as [|fuel]; [cbn in Hf; lia|]. cbn [walk_loop].
  assert (named (x :: l) = (x, e0) :: named l) as -> by (unfold named; cbn [omap list_omap]; by rewrite E0).
  destruct (similar_export st x e0 Hs E0) as (e & E & Hn & Hcl & Hex). rewrite E. cbn [mbind option_bind].
  destruct (export_matches_ok st e0 e Hs) as (st1 & -> & Hs1); [by eapply Hd; [left|]|done|done|]. rewrite Hn.
  change (choose ref ((x, e0) :: named l)) with (choose (choose_step ref (x, e0)) (named l)). unfold choose_step. cbn [snd].
  assert (forall found ref st, similar st -> found_ok found ref ->
    exists found' st', walk_loop ns fs fuel st i (m_next e0) found dom path (count_slashes path) ai = Some (found', st') /\ similar st' /\
      found_ok found' (choose ref (named l))) as IH'.
  { intros. eapply IH; [done|cbn in Hf; lia| |done|done]. intros y ey Hy. apply Hd. by right. }
  clear IH. destruct (match_ok e0); [|by apply IH'].
  assert (found_ok (Some (x, i)) (Some (x, e0))) as Hnew by (split; [done|]; intros y [= <-]; done).
  destruct Hfo as [Hfst Hlk]. destruct found as [[fid ft]|], ref as [[rid f0]|]; try done; [|by apply IH'].
  injection Hfst as <-. pose proof (Hlk _ eq_refl) as Ef0. cbn [fst snd] in *.
  destruct (similar_export st1 fid f0 Hs1 Ef0) as (f & Ef & _ & _ & Hfe). rewrite Ef. cbn [mbind option_bind]. rewrite Hfe, Hex.
  destruct (prefer (m_export f0) (m_export e0)) as [[]|].
  - rewrite bool_decide_true by done. by apply IH'.
  - rewrite bool_decide_false by done. by apply IH'.
  - rewrite (bool_decide_false (None = Some true)) by done. apply IH'; [|done]. destruct (_ && _); [|done]. by apply similar_warn.
Qed.

Lemma choose_app ref l l' : choose ref (l ++ l') = choose (choose ref l) l'.
Proof. apply foldl_app. Qed.

Lemma walk_types_choose L types found ref st :
  st_ok (a_tab st0) L -> (forall x e, x ∈ all_of L -> ex_store (a_tab st0) !! x = Some e -> decidable e) ->
  similar st -> found_ok found ref ->
  exists found' st', walk_types ns fs types st found dom path (count_slashes path) ai = Some (found', st') /\ similar st' /\
    found_ok found' (choose ref (named (concat (map L types)))).
Proof.
  intros Hst Hd. revert found ref st; induction types as [|t types IH]; intros found ref st Hs Hfo; [by exists found, st|].
  cbn [walk_types map concat]. destruct (so_table _ _ Hst t) as [Hc Hn _]. rewrite (sm_lists _ Hs), (sm_size _ Hs).
  destruct (walk_loop_choose (L t) (p_head (exportlist (a_tab st0) t)) (size (ex_store (a_tab st0))) t found ref st) as (found1 & st1 & -> & Hs1 & Hf1);
    [done|by eapply chain_size|intros x e Hx; apply Hd, elem_of_all_of; eauto|done|done|].
  cbn [mbind option_bind]. unfold named. rewrite omap_app, choose_app. by apply IH.
Qed.
End reference.

Lemma similar_begin ns st dom ai : stamps_ok st -> client_match_gen st < 2 ^ 64 - 1 ->
  similar ns (client_match_begin st) dom ai (client_match_begin st).
Proof. intros H Hg. destruct (begin_cached ns st dom ai H Hg) as (Hc & Ha & _). by split. Qed.

Lemma lookup_export_chooses ns fs st L dom path ai :
  st_ok (a_tab st) L -> stamps_ok st -> client_match_gen st < 2 ^ 64 - 1 ->
  (forall x e, x ∈ all_of L -> ex_store (a_tab st) !! x = Some e -> decidable ns fs st dom path ai e) ->
  exists st', lookup_export ns fs st dom path ai = Some (fst <$> choose ns fs st dom path ai None (named st (all_of L)), client_match_end st') /\
    similar ns (client_match_begin st) dom ai st'.
Proof.
  intros Hst Hs Hg Hd. unfold lookup_export, lookup_export_walk.
  destruct (walk_types_choose ns fs (client_match_begin st) dom path ai L mcl_types None None (client_match_begin st))
    as (found & st' & -> & Hs' & Hf & _); [done|done|by apply similar_begin|by split|].
  cbn [mbind option_bind]. exists st'. split; [|done]. change (option_map fst found) with (fst <$> found). by rewrite Hf.
Qed.

(** C9. The optimised walk of [lookup_export] gives what the plain one gives: the
    export chosen by going once through the table, checking the client without
    cache and the path without the count of slashes, is the one returned.  The
    table is left as it was but for cached answers and warnings given. *)
Theorem lookup_export_optimised ns fs st L dom path ai :
  st_ok (a_tab st) L -> stamps_ok st -> client_match_gen st < 2 ^ 64 - 1 ->
  (forall x e, x ∈ all_of L -> ex_store (a_tab st) !! x = Some e -> decidable ns fs st dom path ai e) ->
  exists st', lookup_export ns fs st dom path ai = Some (fst <$> choose ns fs st dom path ai None (named st (all_of L)), st') /\
    client_match_active st' = false /\ exportlist (a_tab st') = exportlist (a_tab st) /\
    forall i, (fun e => set_warned e false) <$> ex_store (a_tab st') !! i = (fun e => set_warned e false) <$> ex_store (a_tab st) !! i.
Proof.
  intros Hst Hs Hg Hd. destruct (lookup_export_chooses ns fs st L dom path ai Hst Hs Hg Hd) as (st' & E & [H1 _ H3 _ _ _]).
  exists (client_match_end st'). by split_and!.
Qed.

(** ** The export that is chosen *)

(** The name [p] leads to the directory [q]: it is that name, or it has as many
    components and the kernel says that they are the same. *)
Definition leads (fs : vfs) (p q : cstr) : bool :=
  streq p q || (count_slashes p =? count_slashes q)%nat && default (check_same_path_by_inode fs p q) (check_same_path_by_handle fs p q).

(** The path is the one of the export or, with crossmnt, goes on below it. *)
Definition fits (fs : vfs) (e : exportent) (path : cstr) : bool :=
  leads fs path (e_path e) ||
  has_flag (e_flags e) NFSEXP_CROSSMOUNT &&
    ((streq (e_path e) $"/" && (1 <? length path)%nat) ||
     leads fs (take (length (e_path e)) path) (e_path e) && ceqb (at_index path (length (e_path e))) "/").

Definition rank (e : exportent) : nat := if has_flag (e_flags e) NFSEXP_V4ROOT then O else S (length (e_path e)).

Lemma same_path_leads fs child parent len :
  let len' := if (len =? 0)%nat then length child else len in
  (len' < PATH_MAX)%nat -> same_path fs child parent len = Some (leads fs (take len' child) parent).
Proof.
  intros len' Hl. unfold same_path, leads. fold len'. rewrite (proj2 (Nat.leb_gt _ _) Hl).
  destruct (streq (take len' child) parent); [done|]. cbn [orb]. destruct (count_slashes (take len' child) =? count_slashes parent)%nat; [|done]. cbn [negb andb].
  by destruct (check_same_path_by_handle _ _ _).
Qed.

(** A shorter path that led to the export would have matched before. *)
Lemma path_matches_fits fs e path : no_nul path -> (length path < PATH_MAX)%nat ->
  e_path (m_export e) <> [] -> (length (e_path (m_export e)) < PATH_MAX)%nat -> path_matches fs e path = Some (fits fs (m_export e) path).
Proof.
  intros Hnul Hl Hne Hle. unfold path_matches, fits. rewrite (same_path_leads fs path _ 0) by done. cbn [Nat.eqb]. rewrite take_ge by lia.
  cbn [mbind option_bind]. destruct (leads fs path (e_path (m_export e))) eqn:Es; [done|]. cbn [orb]. destruct (has_flag _ _); [|done]. cbn [andb].
  unfold is_subdirectory. assert (negb (ceqb (at_index path 1) NUL) = (1 <? length path)%nat) as ->.
  { destruct path as [|a [|b path]]; [done|done|]. inversion Hnul as [|x y Ha Hr]; subst. inversion Hr as [|x y Hb _]; subst.
    unfold at_index. cbn [drop deref]. by rewrite (proj2 (ceqb_false _ _) Hb). }
  destruct (streq (e_path (m_export e)) $"/" && _) eqn:Er; [done|]. cbn [orb].
  assert ((length (e_path (m_export e)) =? 0)%nat = false) as Hz by (destruct (e_path (m_export e)); done).
  rewrite same_path_leads by (rewrite ?Hz; done). rewrite Hz. cbn [mbind option_bind].
  destruct (leads fs (take _ path) _) eqn:Et; [|done]. cbn [negb andb].
  destruct (length path <? length (e_path (m_export e)))%nat eqn:El; [|done].
  apply Nat.ltb_lt in El. rewrite take_ge in Et by lia. congruence.
Qed.

Section best.
  Context (ns : resolver) (fs : vfs) (st : auth) (dom path : cstr) (ai : option addrinfo).
Let ok (x : positive * nfs_export) : bool := match_ok ns fs st dom path ai (snd x).

(** The first of the highest rank among those that match. *)
Definition best (l : list (positive * nfs_export)) (r : option (positive * nfs_export)) : Prop :=
  match r with
  | None => Forall (fun x => ok x = false) l
  | Some f => exists l1 l2, l = l1 ++ f :: l2 /\ ok f = true /\
      Forall (fun x => ok x = true -> (rank (m_export (snd x)) < rank (m_export (snd f)))%nat) l1 /\
      Forall (fun x => ok x = true -> (rank (m_export (snd x)) <= rank (m_export (snd f)))%nat) l2
  end.

(** An export that matches and is not crossmnt has a path as long as the one
    asked for. *)
Definition exact_path (x : positive * nfs_export) : Prop :=
  ok x = true -> has_flag (e_flags (m_export (snd x))) NFSEXP_CROSSMOUNT = false -> length (e_path (m_export (snd x))) = length path.

Lemma prefer_rank f x : exact_path f -> exact_path x -> ok f = true -> ok x = true ->
  match prefer (m_export (snd f)) (m_export (snd x)) with
  | Some true => (rank (m_export (snd f)) < rank (m_export (snd x)))%nat
  | _ => (rank (m_export (snd x)) <= rank (m_export (snd f)))%nat
  end.
Proof.
  intros Xf Xx Hf Hx. unfold prefer, rank. destruct (has_flag (e_flags (m_export (snd x))) NFSEXP_V4ROOT); [lia|].
  destruct (has_flag (e_flags (m_export (snd f))) NFSEXP_V4ROOT); [lia|].
  destruct (has_flag (e_flags (m_export (snd f))) NFSEXP_CROSSMOUNT) eqn:Cf;
    [|destruct (has_flag (e_flags (m_export (snd x))) NFSEXP_CROSSMOUNT) eqn:Cx; [|cbn [orb andb]; rewrite Xf, Xx by done; lia]]; cbn [orb andb];
    (destruct (Nat.eqb_spec (length (e_path (m_export (snd f)))) (length (e_path (m_export (snd x))))) as [->|]; cbn [negb]; [lia|];
     destruct (Nat.ltb_spec (length (e_path (m_export (snd f)))) (length (e_path (m_export (snd x))))); lia).
Qed.

Lemma best_later l1 l2 f x : best (l1 ++ f :: l2) (Some f) -> (ok x = true -> (rank (m_export (snd x)) <= rank (m_export (snd f)))%nat) ->
  best ((l1 ++ f :: l2) ++ [x]) (Some f).
Proof.
  intros (a & b & -> & Hf & H1 & H2) Hx. exists a, (b ++ [x]). rewrite <- app_assoc. split_and!; [done|done|done|].
  apply Forall_app. by split; [|apply Forall_singleton].
Qed.

Lemma choose_best l : Forall exact_path l -> best l (choose ns fs st dom path ai None l).
Proof.
  induction l as [|x l IH] using rev_ind; intros HX; [constructor|]. unfold choose. rewrite foldl_app. cbn [foldl].
  apply Forall_app in HX as [HX Xx]. rewrite Forall_singleton in Xx. specialize (IH HX).
  fold (choose ns fs st dom path ai None l). unfold choose_step. fold (ok x). destruct (choose ns fs st dom path ai None l) as [f|].
  - pose proof IH as (l1 & l2 & -> & Hf & H1 & H2). assert (exact_path f) as Xf by (by apply Forall_app in HX as [_ []%Forall_cons]).
    destruct (ok x) eqn:Hx; [|apply best_later; [done|congruence]].
    pose proof (prefer_rank f x Xf Xx Hf Hx) as Hp. destruct (bool_decide _) eqn:Eb.
    + apply bool_decide_eq_true in Eb. rewrite Eb in Hp. exists (l1 ++ f :: l2), []. split_and!; [done|done| |constructor].
      apply Forall_app. split; [|constructor; [done|]].
      * eapply Forall_impl; [exact H1|]. intros y Hy Hok. specialize (Hy Hok). lia.
      * eapply Forall_impl; [exact H2|]. intros y Hy Hok. specialize (Hy Hok). lia.
    + apply bool_decide_eq_false in Eb. apply best_later; [done|]. intros _. by destruct (prefer _ _) as [[]|].
  - destruct (ok x) eqn:Hx.
    + exists l, []. split_and!; [done|done| |constructor]. eapply Forall_impl; [exact IH|]. cbn. congruence.
    + apply Forall_app. by split; [|apply Forall_singleton].
Qed.
End best.

(** C10. The export that answers for a path is the first one of the highest rank:
    among the exports whose client accepts the requester and to whose path the
    one asked for leads, by its name or in the kernel's view, or, with crossmnt,
    one above it, an export that is not of the
    pseudo file system comes before one that is, and among these the longest path
    wins; nothing is found exactly when there is none.  Where a directory has
    several names, those under which it is exported without crossmnt must be as
    long as the name asked for, as names that differ in case are. *)
Theorem lookup_export_best ns fs st L dom path ai :
  st_ok (a_tab st) L -> stamps_ok st -> client_match_gen st < 2 ^ 64 - 1 -> no_nul path -> (length path < PATH_MAX)%nat ->
  (forall x e, x ∈ all_of L -> ex_store (a_tab st) !! x = Some e ->
     (exists c b, cl_store (ex_clients (a_tab st)) !! m_client e = Some c /\ verdict ns c dom ai = Some b) /\
     e_path (m_export e) <> [] /\ (length (e_path (m_export e)) < PATH_MAX)%nat /\
     (has_flag (e_flags (m_export e)) NFSEXP_CROSSMOUNT = false -> leads fs path (e_path (m_export e)) = true ->
      length (e_path (m_export e)) = length path)) ->
  exists r st', lookup_export ns fs st dom path ai = Some (r, st') /\
    let ok e := match cl_store (ex_clients (a_tab st)) !! m_client e with
                | Some c => bool_decide (verdict ns c dom ai = Some true) && fits fs (m_export e) path
                | None => false
                end in
    match r with
    | None => forall x e, x ∈ all_of L -> ex_store (a_tab st) !! x = Some e -> ok e = false
    | Some id => exists e l1 l2, named st (all_of L) = l1 ++ (id, e) :: l2 /\ ok e = true /\
        Forall (fun x => ok (snd x) = true -> (rank (m_export (snd x)) < rank (m_export e))%nat) l1 /\
        Forall (fun x => ok (snd x) = true -> (rank (m_export (snd x)) <= rank (m_export e))%nat) l2
    end.
Proof.
  intros Hst Hs Hg Hnul Hl Hd.
  assert (forall x e, x ∈ all_of L -> ex_store (a_tab st) !! x = Some e -> path_matches fs e path = Some (fits fs (m_export e) path)) as Hp.
  { intros x e Hx E. destruct (Hd x e Hx E) as (_ & H1 & H2 & _). by apply path_matches_fits. }
  destruct (lookup_export_chooses ns fs st L dom path ai Hst Hs Hg) as (st' & E & _).
  { intros x e Hx E. destruct (Hd x e Hx E) as (H1 & _). split; [done|]. eauto. }
  eexists _, _. split; [exact E|]. intros ok.
  assert (forall x, x ∈ named st (all_of L) -> match_ok ns fs st dom path ai (snd x) = ok (snd x) /\ fst x ∈ all_of L /\ ex_store (a_tab st) !! fst x = Some (snd x)) as Hok.
  { intros [x e] (y & Hy & Ey)%list_elem_of_omap. destruct (ex_store (a_tab st) !! y) as [ey|] eqn:Ee; [|done]. injection Ey as <- <-. cbn [fst snd].
    split_and!; [|done|done]. unfold match_ok, ok. destruct (cl_store _ !! _); [|done]. rewrite (Hp y ey Hy Ee). f_equal.
    by destruct (fits _ _ _). }
  assert (best ns fs st dom path ai (named st (all_of L)) (choose ns fs st dom path ai None (named st (all_of L)))) as Hb.
  { apply choose_best, Forall_forall. intros x Hx Hm Hc. destruct (Hok x Hx) as (Hm' & Hin & Ex). rewrite Hm' in Hm. unfold ok in Hm.
    destruct (cl_store _ !! _); [|done]. apply andb_true_iff in Hm as [_ Hf]. unfold fits in Hf. rewrite Hc in Hf. cbn [andb] in Hf.
    rewrite orb_false_r in Hf. by apply (Hd _ _ Hin Ex). }
  unfold best in Hb. destruct (choose _ _ _ _ _ _ _ _) as [[id e]|]; cbn [fmap option_fmap option_map fst].
  - destruct Hb as (l1 & l2 & El & Hm & H1 & H2). exists e, l1, l2. rewrite El in Hok. split; [done|].
    assert (forall x, x ∈ l1 \/ x ∈ l2 -> match_ok ns fs st dom path ai (snd x) = ok (snd x)) as Hok'.
    { intros x Hx. apply Hok. rewrite elem_of_app, elem_of_cons. tauto. }
    split; [pose proof (proj1 (Hok (id, e) ltac:(set_solver))) as He; cbn [snd] in He; by rewrite <- He|].
    rewrite Forall_forall in H1, H2. split; apply Forall_forall; intros x Hx; rewrite <- Hok' by auto; auto.
  - intros x e Hx Ex. rewrite Forall_forall in Hb. assert ((x, e) ∈ named st (all_of L)) as Hin.
    { apply list_elem_of_omap. exists x. by rewrite Ex. }
    pose proof (proj1 (Hok (x, e) Hin)) as He. cbn [snd] in He. rewrite <- He. by apply (Hb (x, e)).
Qed.

(** A kernel with file handles on a file system that ignores case: each directory
    has a handle, whatever the case of its name, and other names do not exist. *)
Definition dir_handle (p : cstr) : option Z :=
  let p := tolower <$> p in
  if streq p $"/srv" then Some 1 else if streq p $"/srv/a" then Some 2 else if streq p $"/srv/a/b" then Some 3 else None.
Definition fs_nocase : vfs :=
  Vfs (fun p => match dir_handle p with Some n => inl (Handle 7 1 [chr n]) | None => inr ENOENT end)
      (fun _ => inr ENOENT) (fun _ => inr ENOENT) (fun _ => None) (fun _ => None) [].

(** /srv and /srv/a with crossmnt. *)
Definition cross_ent (path : cstr) : exportent := set_path (set_flags ent_ex NFSEXP_CROSSMOUNT) path.
Definition cross_tab1 : extab := match export_create ns_ex false empty_tab (cross_ent $"/srv") false with Some (_, st) => st | None => empty_tab end.
Definition cross_tab : extab := match export_create ns_ex false cross_tab1 (cross_ent $"/srv/a") false with Some (_, st) => st | None => empty_tab end.
Definition cross : auth := Auth cross_tab 0 false 0 None 0 false.

Lemma cross_ok : exists L, st_ok cross_tab L.
Proof.
  destruct (export_create_some ns_ex false empty_tab (fun _ => []) (cross_ent $"/srv") false (Some 1%positive) cross_tab1 empty_tab_ok eq_refl)
    as (L1 & H1 & _).
  destruct (export_create_some ns_ex false cross_tab1 L1 (cross_ent $"/srv/a") false (Some 2%positive) cross_tab H1 eq_refl) as (L2 & H2 & _).
  by exists L2.
Qed.

Lemma cross_stamps : stamps_ok cross.
Proof. split; [cbn; lia|]. intros i c Hc. vm_compute in Hc. destruct i; [done|done|]. injection Hc as <-. cbn. lia. Qed.

Lemma cross_exports x e : ex_store cross_tab !! x = Some e ->
  m_client e = 1%positive /\ (e_path (m_export e) = $"/srv" \/ e_path (m_export e) = $"/srv/a") /\
  has_flag (e_flags (m_export e)) NFSEXP_CROSSMOUNT = true.
Proof. intros E. vm_compute in E. destruct x as [x|x|]; [by destruct x|destruct x|]; try done; injection E as <-; cbn; auto. Qed.

(** /SRV/A/b is answered by the export of /srv/a. *)
Lemma lookup_export_best_witness :
  exists st', lookup_export ns_ex fs_nocase cross $"*" $"/SRV/A/b" None = Some (Some 2%positive, st').
Proof.
  destruct cross_ok as [L HL].
  destruct (lookup_export_best ns_ex fs_nocase cross L $"*" $"/SRV/A/b" None HL cross_stamps) as (r & st' & E & _).
  - cbn. lia.
  - repeat constructor; discriminate.
  - cbn. unfold PATH_MAX. lia.
  - intros x e _ Ex. destruct (cross_exports x e Ex) as (Hc & Hp & Hx). rewrite Hc. split; [|split; [|split; [|by rewrite Hx]]].
    + do 2 eexists. split; vm_compute; reflexivity.
    + by destruct Hp as [-> | ->].
    + destruct Hp as [-> | ->]; cbn; unfold PATH_MAX; lia.
  - assert (fst <$> lookup_export ns_ex fs_nocase cross $"*" $"/SRV/A/b" None = Some (Some 2%positive)) as H by (vm_compute; reflexivity).
    rewrite E in H. injection H as ->. by exists st'.
Defined.

Lemma lookup_export_optimised_witness :
  exists L st', lookup_export ns_ex fs_nocase cross $"*" $"/srv/a/b" None
    = Some (fst <$> choose ns_ex fs_nocase cross $"*" $"/srv/a/b" None None (named cross (all_of L)), st').
Proof.
  destruct cross_ok as [L HL].
  destruct (lookup_export_optimised ns_ex fs_nocase cross L $"*" $"/srv/a/b" None HL cross_stamps) as (st' & E & _).
  - cbn. lia.
  - intros x e _ Ex. destruct (cross_exports x e Ex) as (Hc & Hp & _). unfold decidable. rewrite Hc. split.
    + do 2 eexists. split; vm_compute; reflexivity.
    + rewrite path_matches_fits; [eauto|repeat constructor; discriminate|cbn; unfold PATH_MAX; lia|..];
        destruct Hp as [-> | ->]; try done; cbn; unfold PATH_MAX; lia.
  - by exists L, st'.
Defined.
