(* ===== verification/Fsloc.v ===== *)
(** * File system locations (support/export/fsloc.c, support/junction/path.c, cache.c 1337-1553)

    The locations of a replicated or referred file system travel as a text
    path@host+host:path@host in the options of an export and as arrays of path
    components in a junction.  Both readings, and the code that turns the
    locations of a junction into an export. *)

From S2P Require Import Prelude Exports ExportsRT Client ExportTab Xio Xtab V4root Auth.

(** ** Paths as arrays of components *)

Inductive FedFsStatus := FEDFS_ERR_BADNAME | FEDFS_ERR_NAMETOOLONG | FEDFS_ERR_SVRFAULT.

(** [None] for an empty name. *)
Definition nsdb_normalize_path (pathname : cstr) : option cstr :=
  match pathname with
  | [] => None
  | _ =>
      let result := squeeze pathname in
      let j := length result in
      Some (if (1 <? j)%nat && ceqb (at_index result (j - 1)) "/" then take (j - 1) result else result)
  end.

(** The component at [component] and what [next] points to. *)
Definition next_component (component : cstr) : option (cstr * cstr) :=
  let component := match component with c :: r => if ceqb c "/" then r else component | [] => [] end in
  match component with
  | [] => None
  | _ => Some (span (fun c => negb (ceqb c "/")) component)
  end.

(** The size of the XDR form, in bytes, and the number of components. *)
Fixpoint count_loop (fuel : nat) (component : cstr) (length_ : Z) (count : nat) : option (Z * nat) :=
  match fuel with
  | O => None
  | S fuel =>
      match next_component component with
      | None => Some (length_, count)
      | Some (c, next) =>
          if (255 <? length c)%nat then None
          else let length_ := length_ + 4 + Z.shiftl (Z.shiftr (Z.of_nat (length c) + 3) 2) 2 in
               match next with
               | [] => Some (length_, S count)
               | _ => count_loop fuel next length_ (S count)
               end
      end
  end.
Definition nsdb_count_components (pathname : cstr) : option (Z * nat) := count_loop (S (length pathname)) pathname 4 0.

Fixpoint check_components (l : list cstr) (len : nat) : option FedFsStatus :=
  match l with
  | [] => None
  | component :: l =>
      if (length component =? 0)%nat then Some FEDFS_ERR_BADNAME
      else if (255 <? length component)%nat then Some FEDFS_ERR_NAMETOOLONG
      else match strchr "/" component with
           | Some _ => Some FEDFS_ERR_BADNAME
           | None => let len := (len + 1 + length component)%nat in
                     if (4096 <? len)%nat then Some FEDFS_ERR_NAMETOOLONG else check_components l len
           end
  end.

Definition nsdb_path_array_to_posix (path_array : list cstr) : cstr + FedFsStatus :=
  match path_array with
  | [] => inl $"/"
  | _ =>
      match check_components path_array 0 with
      | Some err => inr err
      | None => match nsdb_normalize_path (concat (map (cons "/"%char) path_array)) with
                | Some p => inl p
                | None => inr FEDFS_ERR_SVRFAULT
                end
      end
  end.

Fixpoint array_loop (fuel : nat) (component : cstr) : option (list cstr) :=
  match fuel with
  | O => None
  | S fuel =>
      match next_component component with
      | None => Some []
      | Some (c, next) =>
          if (255 <? length c)%nat then None
          else match next with
               | [] => Some [c]
               | _ => l ← array_loop fuel next; Some (c :: l)
               end
      end
  end.

Definition nsdb_posix_to_path_array (pathname : cstr) : list cstr + FedFsStatus :=
  match nsdb_normalize_path pathname with
  | None => inr FEDFS_ERR_SVRFAULT
  | Some normalized =>
      match nsdb_count_components normalized with
      | None => inr FEDFS_ERR_BADNAME
      | Some (_, O) => inl []
      | Some (_, S _) =>
          match array_loop (S (length normalized)) normalized with
          | Some result => inl result
          | None => inr FEDFS_ERR_SVRFAULT
          end
      end
  end.

(** ** The text of locations *)

Definition FSLOC_MAX_LIST : nat := 40.

Record mount_point := MountPoint { h_host : cstr; h_path : cstr }.

(** [h_mp]: an entry is [None] as long as nothing was stored there. *)
Record servers := Servers { h_num : nat; h_mp : list (option mount_point); h_referral : bool }.

Definition plus_to_colon (host : cstr) : cstr := (fun c => if ceqb c "+" then ":"%char else c) <$> host.

Fixpoint parse_list_loop (list_ : list cstr) (i : nat) (res : servers) : servers :=
  match list_ with
  | [] => res
  | item :: list_ =>
      if (FSLOC_MAX_LIST <=? i)%nat then res
      else match strchr "@" item with
           | None => parse_list_loop list_ (S i) res
           | Some (path, host) =>
               if negb (ceqb (deref item) "/") then parse_list_loop list_ (S i) res
               else parse_list_loop list_ (S i)
                      (Servers (S (h_num res)) (<[i := Some (MountPoint (plus_to_colon host) path)]> (h_mp res)) (h_referral res))
           end
  end.
Definition parse_list (list_ : list cstr) : servers := parse_list_loop list_ 0 (Servers 0 (replicate FSLOC_MAX_LIST None) false).

(** The items between the colons that are not inside brackets; an empty one is
    left out.  [ptr]: the item being read. *)
Fixpoint split_list (p ptr : cstr) (v6esc : bool) : list cstr :=
  match p with
  | [] => match ptr with [] => [] | _ => [ptr] end
  | c :: p =>
      let v6esc := if ceqb c "[" then true else if ceqb c "]" then false else v6esc in
      if negb v6esc && ceqb c ":" then
        match ptr with [] => split_list p [] v6esc | _ => ptr :: split_list p [] v6esc end
      else split_list p (ptr ++ [c]) v6esc
  end.

Definition method_list (data : cstr) : servers := parse_list (split_list data [] false).

Definition replicas_lookup (method : fsloc_method) (data : cstr) : option servers :=
  match method with
  | FSLOC_NONE => None
  | FSLOC_REFER => let sp := method_list data in Some (Servers (h_num sp) (h_mp sp) true)
  | FSLOC_REPLICA => let sp := method_list data in Some (Servers (h_num sp) (h_mp sp) false)
  end.

(** The [h_num] entries that are used; [None]: one of them was never set. *)
Definition server_list (sp : servers) : option (list mount_point) := mapM id (take (h_num sp) (h_mp sp)).

(** ** The locations of a junction *)

Record nfs_fsloc := Fsloc { nfl_hostname : cstr; nfl_rootpath : list cstr }.

(** The loop over the locations.  [seen]: a location was written, so that
    [last_path] points to its path, which has been freed: comparing it, or
    freeing it again on an error, is undefined and gives [None]. *)
Fixpoint locations_loop (locations : list nfs_fsloc) (remaining : nat) (seen : bool) (out : cstr) : option (bool * cstr) :=
  match locations with
  | [] => Some (seen, out)
  | loc :: locations =>
      match nsdb_path_array_to_posix (nfl_rootpath loc) with
      | inr _ => if seen then None else Some (false, out)
      | inl rootpath =>
          if seen then None
          else
            let text := rootpath ++ "@"%char :: nfl_hostname loc in
            if (remaining <=? length text)%nat then Some (false, out ++ take (remaining - 1) text)
            else locations_loop locations (remaining - length text) true (out ++ text)
      end
  end.

(** The result, the text and the time to live, which stays 0 without locations. *)
Definition locations_to_fslocdata (locations : list nfs_fsloc) (remaining : nat) : option (bool * cstr * Z) :=
  '(ok, text) ← locations_loop locations remaining false [];
  Some (ok, text, match locations with loc :: _ => match nsdb_path_array_to_posix (nfl_rootpath loc) with inl _ => 300 | inr _ => 0 end | [] => 0 end).

Definition create_junction_exportent (parent : exportent) (junction fslocdata : cstr) (ttl : Z) : exportent :=
  let eep := dupexportent parent in
  Ent (e_hostname parent) junction (e_flags eep) (e_anonuid eep) (e_anongid eep) (e_squids eep) (e_sqgids eep)
    (e_fsid eep) (e_mountpoint eep) FSLOC_REFER (Some fslocdata) None (e_secinfo eep) (e_xprtsec eep) (u32 ttl) (e_realpath eep)
    (e_reexport eep) (e_fsid_value eep).

Definition locations_to_export (locations : list nfs_fsloc) (junction : cstr) (parent : exportent) : option (option exportent) :=
  '(ok, fslocdata, ttl) ← locations_to_fslocdata locations BUFSIZ;
  Some (if (ok : bool) then Some (create_junction_exportent parent junction fslocdata ttl) else None).

(** ** Paths and arrays *)

Definition components_ok (l : list cstr) : Prop := parts_ok l /\ Forall (fun w => (length w <= 255)%nat) l.

(** After squeezing at most one slash is left at the end. *)
Lemma squeeze_split n s : (length s <= n)%nat ->
  squeeze ("/"%char :: s) = slashed (comps s) /\ comps s <> [] \/ squeeze ("/"%char :: s) = slashed (comps s) ++ $"/".
Proof.
  revert s; induction n as [|n IH]; intros s Hn; [destruct s; [by right|cbn in Hn; lia]|].
  destruct (strchr "/" s) as [[a b]|] eqn:E.
  - apply strchr_Some in E as [-> Ha]. destruct a as [|c a].
    + apply (IH b). cbn in Hn. lia.
    + rewrite squeeze_slash_word, comps_app by done.
      change (slashed ((c :: a) :: comps b)) with ("/"%char :: (c :: a) ++ slashed (comps b)).
      destruct (IH b) as [[-> Hc]| ->]; [cbn in Hn; len|by left|right; cbn [app]; by rewrite <- app_assoc].
  - apply strchr_None in E. destruct s as [|c s]; [by right|]. left. rewrite comps_word by done. split; [|done].
    rewrite <- (app_nil_r (c :: s)) at 1. by rewrite squeeze_slash_word.
Qed.

Lemma slashed_last l : parts_ok l -> l <> [] -> at_index (slashed l) (length (slashed l) - 1) <> "/"%char.
Proof.
  intros Hl Hn. destruct l as [|w l] using rev_ind; [done|]. clear IHl Hn. apply Forall_app in Hl as [_ [Hw Hne]%Forall_singleton].
  rewrite slashed_app. change (slashed [w]) with ("/"%char :: w ++ []). rewrite app_nil_r.
  destruct w as [|c w] using rev_ind; [done|]. clear IHw Hne.
  assert (slashed l ++ "/"%char :: w ++ [c] = (slashed l ++ "/"%char :: w) ++ [c]) as -> by (by rewrite <- app_assoc).
  rewrite length_app. cbn [length]. rewrite Nat.add_sub. unfold at_index. rewrite drop_app_length. cbn. rewrite elem_of_app in Hw.
  intros ->. apply Hw. right. by left.
Qed.

Lemma normalize_canon s : nsdb_normalize_path ("/"%char :: s) = Some (canon (comps s)).
Proof.
  unfold nsdb_normalize_path. f_equal. pose proof (comps_ok s) as Hl. pose proof (slashed_length _ Hl) as Hlen.
  destruct (squeeze_split (length s) s (Nat.le_refl _)) as [[-> Hne]| ->].
  - rewrite (proj2 (ceqb_false _ _)) by (by apply slashed_last). rewrite andb_false_r. by destruct (comps s).
  - rewrite length_app. cbn [length]. rewrite Nat.add_sub. destruct (comps s) as [|w l]; [done|]. cbn [length] in Hlen.
    rewrite (proj2 (Nat.ltb_lt _ _)) by lia. unfold at_index. rewrite drop_app_length, take_app_length. done.
Qed.

Lemma next_component_slashed w l : "/"%char ∉ w -> w <> [] -> next_component (slashed (w :: l)) = Some (w, slashed l).
Proof.
  intros Hw Hn. unfold next_component. change (slashed (w :: l)) with ("/"%char :: w ++ slashed l). change (ceqb "/" "/") with true. cbv iota.
  assert (span (fun c => negb (ceqb c "/")) (w ++ slashed l) = (w, slashed l)) as Hs.
  { clear Hn. induction w as [|c w IH].
    - destruct l as [|x l]; [done|]. change (slashed (x :: l)) with ("/"%char :: x ++ slashed l). done.
    - apply not_elem_of_cons in Hw as [Hc Hw]. cbn [app span]. rewrite (proj2 (ceqb_false c "/"%char)) by congruence. cbn [negb].
      by rewrite IH. }
  destruct w as [|c w]; [done|]. exact (f_equal Some Hs).
Qed.

Lemma slashed_nil l : slashed l = [] -> l = [].
Proof. by destruct l. Qed.

Lemma array_loop_slashed l fuel : parts_ok l -> (length l < fuel)%nat ->
  array_loop fuel (slashed l) = if forallb (fun w => length w <=? 255)%nat l then Some l else None.
Proof.
  revert fuel; induction l as [|w l IH]; intros fuel Hl Hf; (destruct fuel as [|fuel]; [cbn in Hf; lia|]); [done|].
  apply Forall_cons in Hl as [[Hw Hn] Hl]. cbn [array_loop]. rewrite next_component_slashed by done. cbn [forallb]. rewrite Nat.leb_antisym.
  destruct (255 <? length w)%nat; [done|]. cbn [negb andb]. specialize (IH fuel Hl ltac:(cbn in Hf; lia)).
  destruct (slashed l) as [|c r] eqn:Es; [apply slashed_nil in Es as ->; done|]. rewrite IH. by destruct (forallb _ l).
Qed.

Lemma count_loop_slashed l fuel len n : parts_ok l -> (length l < fuel)%nat ->
  exists len', count_loop fuel (slashed l) len n = if forallb (fun w => length w <=? 255)%nat l then Some (len', (n + length l)%nat) else None.
Proof.
  revert fuel len n; induction l as [|w l IH]; intros fuel len n Hl Hf; (destruct fuel as [|fuel]; [cbn in Hf; lia|]).
  { exists len. cbn. by rewrite Nat.add_0_r. }
  apply Forall_cons in Hl as [[Hw Hn] Hl]. cbn [count_loop]. rewrite next_component_slashed by done. cbn [forallb length]. rewrite (Nat.leb_antisym 255).
  destruct (255 <? length w)%nat; [by exists 0|]. cbn [negb andb].
  destruct (IH fuel (len + 4 + Z.shiftl (Z.shiftr (Z.of_nat (length w) + 3) 2) 2) (S n) Hl ltac:(cbn in Hf; lia)) as [len' IH'].
  destruct (slashed l) as [|c r] eqn:Es.
  - apply slashed_nil in Es as ->. eexists. cbn. rewrite Nat.add_1_r. reflexivity.
  - exists len'. rewrite IH'. destruct (forallb _ l); [|done]. do 2 f_equal. lia.
Qed.

(** What an absolute path is read as. *)
Lemma posix_to_array s : nsdb_posix_to_path_array ("/"%char :: s) =
  if forallb (fun w => length w <=? 255)%nat (comps s) then inl (comps s) else inr FEDFS_ERR_BADNAME.
Proof.
  unfold nsdb_posix_to_path_array, nsdb_count_components. rewrite normalize_canon. pose proof (comps_ok s) as Hl. pose proof (slashed_length _ Hl) as Hlen.
  destruct (comps s) as [|w l] eqn:Ec; [done|]. change (canon (w :: l)) with (slashed (w :: l)).
  destruct (count_loop_slashed (w :: l) (S (length (slashed (w :: l)))) 4 0 Hl) as [len' ->]; [lia|].
  rewrite array_loop_slashed by (done || lia). by destruct (forallb _ (w :: l)).
Qed.

Lemma check_components_ok l n : components_ok l -> check_components l n = None <-> l = [] \/ (n + length (slashed l) <= 4096)%nat.
Proof.
  intros [Hl H2]. revert n. induction H2 as [|w l Hw H2 IH]; intros n; [split; auto|]. apply Forall_cons in Hl as [[Hs Hn] Hl]. specialize (IH Hl).
  cbn [check_components]. rewrite (proj2 (Nat.eqb_neq _ _)) by (by destruct w). rewrite (proj2 (Nat.ltb_ge _ _)) by done.
  rewrite (proj2 (strchr_None _ _) Hs). change (slashed (w :: l)) with (("/"%char :: w) ++ slashed l). rewrite length_app. cbn [length].
  destruct (Nat.ltb_spec 4096 (n + 1 + length w)).
  - split; [done|]. intros [?|?]; [done|lia].
  - rewrite IH. split.
    + intros [->|?]; right; [cbn; lia|lia].
    + intros [?|?]; [done|]. right. lia.
Qed.

Lemma comps_slash s : comps ("/"%char :: s) = comps s.
Proof. unfold comps. cbn [split_on]. by change (ceqb "/" "/") with true. Qed.

Lemma comps_slashed l : parts_ok l -> comps (slashed l) = l.
Proof.
  induction 1 as [|w l [Hw Hn] Hl IH]; [done|]. change (slashed (w :: l)) with ("/"%char :: w ++ slashed l). rewrite comps_slash.
  destruct l as [|x l]; [by rewrite app_nil_r, comps_word|]. change (slashed (x :: l)) with ("/"%char :: x ++ slashed l) in *.
  rewrite comps_app by done. rewrite comps_slash in IH. by rewrite IH.
Qed.

Lemma array_to_posix l : components_ok l -> (length (slashed l) <= 4096)%nat -> nsdb_path_array_to_posix l = inl (canon l).
Proof.
  intros Hok Hlen. unfold nsdb_path_array_to_posix. destruct l as [|w l]; [done|].
  rewrite (proj2 (check_components_ok (w :: l) 0 Hok)) by (by right). destruct Hok as [Hl _].
  change (concat (map (cons "/"%char) (w :: l))) with ("/"%char :: w ++ slashed l). rewrite normalize_canon.
  rewrite <- comps_slash. change ("/"%char :: w ++ slashed l) with (slashed (w :: l)). by rewrite comps_slashed.
Qed.

(** Paths and arrays of components are two forms of one thing: an array of
    proper components becomes a path that is read back as the same array, and an
    absolute path becomes the array of its components, doubled and trailing
    slashes aside, which gives the path back in the form [auth_fixpath] would
    bring it to. *)
Theorem path_array_roundtrip l s :
  components_ok l -> (length (slashed l) <= 4096)%nat -> components_ok (comps s) -> (length (slashed (comps s)) <= 4096)%nat ->
  (exists path, nsdb_path_array_to_posix l = inl path /\ nsdb_posix_to_path_array path = inl l) /\
  (nsdb_posix_to_path_array ("/"%char :: s) = inl (comps s) /\
   nsdb_path_array_to_posix (comps s) = inl (auth_fixpath ("/"%char :: s))).
Proof.
  intros Hl Hlen Hs Hslen.
  assert (forall l, components_ok l -> forallb (fun w => length w <=? 255)%nat l = true) as Hall.
  { intros l0 [_ H]. apply forallb_forall. intros w Hw. rewrite Forall_forall in H. apply Nat.leb_le, H. by apply list_elem_of_In. }
  split.
  - exists (canon l). split; [by apply array_to_posix|]. destruct l as [|w l]; [done|].
    change (canon (w :: l)) with ("/"%char :: w ++ slashed l). rewrite posix_to_array. rewrite <- comps_slash.
    change ("/"%char :: w ++ slashed l) with (slashed (w :: l)). rewrite comps_slashed by apply Hl. by rewrite Hall.
  - split; [by rewrite posix_to_array, Hall|]. rewrite auth_fixpath_canon. by apply array_to_posix.
Qed.

Lemma components_ok_dec l : forallb (fun w => negb (streq w []) && (length w <=? 255)%nat && negb (existsb (fun c => ceqb c "/") w)) l = true -> components_ok l.
Proof.
  intros H. rewrite forallb_forall in H. split; apply Forall_forall; intros w Hw%list_elem_of_In; specialize (H w Hw);
    apply andb_true_iff in H as [[H1 H2]%andb_true_iff H3].
  - apply negb_true_iff in H1, H3. split; [|by apply streq_false in H1]. intros Hin. apply list_elem_of_In in Hin.
    assert (existsb (fun c => ceqb c "/") w = true) as Ht by (apply existsb_exists; eexists; split; [done|apply ceqb_refl]). congruence.
  - by apply Nat.leb_le in H2.
Qed.

Lemma path_array_roundtrip_witness :
  (exists path, nsdb_path_array_to_posix [$"srv"; $"a b"] = inl path /\ nsdb_posix_to_path_array path = inl [$"srv"; $"a b"]) /\
  (nsdb_posix_to_path_array $"//x/y//" = inl [$"x"; $"y"] /\ nsdb_path_array_to_posix [$"x"; $"y"] = inl $"/x/y").
Proof.
  apply (path_array_roundtrip [$"srv"; $"a b"] $"/x/y//").
  - apply components_ok_dec. vm_compute. reflexivity.
  - cbn. lia.
  - apply components_ok_dec. vm_compute. reflexivity.
  - vm_compute. lia.
Defined.

(** ** The text and the servers *)

(** Reading an item: whether brackets are open behind it; [None] when a colon
    outside of brackets would end it. *)
Fixpoint item_scan (item : cstr) (v6esc : bool) : option bool :=
  match item with
  | [] => Some v6esc
  | c :: item =>
      let v6esc := if ceqb c "[" then true else if ceqb c "]" then false else v6esc in
      if negb v6esc && ceqb c ":" then None else item_scan item v6esc
  end.

Lemma split_list_item item rest ptr v v' : item_scan item v = Some v' ->
  split_list (item ++ rest) ptr v = split_list rest (ptr ++ item) v'.
Proof.
  revert ptr v; induction item as [|c item IH]; intros ptr v; cbn [item_scan].
  - intros [= <-]. by rewrite app_nil_r.
  - cbn [app split_list]. destruct (negb _ && _); [done|]. intros H. rewrite (IH _ _ H). by rewrite <- app_assoc.
Qed.

(** A location: the path, and the hosts with plus signs between them. *)
Record loc_ok (x : cstr * cstr) : Prop := LocOk
  { lo_slash : deref (fst x) = "/"%char; lo_at : "@"%char ∉ fst x; lo_scan : item_scan (fst x ++ "@"%char :: snd x) false = Some false }.

Definition loc_text (x : cstr * cstr) : cstr := fst x ++ "@"%char :: snd x.
Fixpoint locs_text (l : list (cstr * cstr)) : cstr :=
  match l with
  | [] => []
  | [x] => loc_text x
  | x :: l => loc_text x ++ ":"%char :: locs_text l
  end.

Lemma split_list_text l : Forall loc_ok l -> split_list (locs_text l) [] false = map loc_text l.
Proof.
  induction 1 as [|x l [Hs Ha Hx] Hl IH]; [done|]. destruct l as [|y l].
  - cbn [locs_text map]. rewrite <- (app_nil_r (loc_text x)) at 1. unfold loc_text at 1. rewrite (split_list_item _ [] [] _ _ Hx). cbn [app split_list].
    unfold loc_text. by destruct (fst x).
  - change (locs_text (x :: y :: l)) with (loc_text x ++ ":"%char :: locs_text (y :: l)). unfold loc_text at 1.
    rewrite (split_list_item _ _ [] _ _ Hx). rewrite app_nil_l. cbn [split_list map]. fold (loc_text x).
    change (ceqb ":" "[") with false. change (ceqb ":" "]") with false. change (ceqb ":" ":") with true. cbv iota. cbn [negb andb].
    cbn [map] in IH. rewrite IH. unfold loc_text at 1. destruct (fst x); [done|]. done.
Qed.

Definition loc_mount (x : cstr * cstr) : mount_point := MountPoint (plus_to_colon (snd x)) (fst x).

Lemma parse_list_loop_text l done_ ref : Forall loc_ok l -> (length done_ + length l <= FSLOC_MAX_LIST)%nat ->
  parse_list_loop (map loc_text l) (length done_)
    (Servers (length done_) ((Some <$> done_) ++ replicate (FSLOC_MAX_LIST - length done_) None) ref)
  = Servers (length done_ + length l) ((Some <$> done_ ++ (loc_mount <$> l)) ++ replicate (FSLOC_MAX_LIST - length done_ - length l) None) ref.
Proof.
  revert done_; induction l as [|x l IH]; intros done_ Hl Hn.
  { cbn [map parse_list_loop length fmap list_fmap]. rewrite app_nil_r. f_equal; [lia|]. f_equal. f_equal. lia. }
  apply Forall_cons in Hl as [[Hs Ha _] Hl]. cbn [map parse_list_loop length] in *. rewrite (proj2 (Nat.leb_gt _ _)) by lia.
  unfold loc_text at 1. rewrite strchr_app by done. assert (deref (loc_text x) = "/"%char) as -> by (unfold loc_text; by destruct (fst x)).
  change (negb (ceqb "/" "/")) with false. cbv iota. cbn [h_num h_mp h_referral].
  rewrite insert_app_r_alt by (by rewrite length_fmap). rewrite length_fmap, Nat.sub_diag.
  destruct (FSLOC_MAX_LIST - length done_)%nat as [|k] eqn:Ek; [lia|]. cbn [replicate]. cbn [insert list_insert].
  specialize (IH (done_ ++ [loc_mount x]) Hl). rewrite length_app in IH. cbn [length] in IH.
  rewrite fmap_app, <- app_assoc in IH. cbn [fmap list_fmap app] in IH. replace (FSLOC_MAX_LIST - (length done_ + 1))%nat with k in IH by lia.
  fold (loc_mount x). replace (S (length done_)) with (length done_ + 1)%nat by lia. rewrite IH by lia. f_equal; [lia|]. rewrite <- app_assoc. cbn [app]. f_equal.
Qed.

Lemma server_list_text l ref : (length l <= FSLOC_MAX_LIST)%nat ->
  server_list (Servers (length l) ((Some <$> l) ++ replicate (FSLOC_MAX_LIST - length l) (@None mount_point)) ref) = Some l.
Proof.
  intros _. unfold server_list. cbn [h_num h_mp]. rewrite take_app_le by (by rewrite length_fmap). rewrite take_ge by (by rewrite length_fmap).
  apply mapM_Some. induction l; by constructor.
Qed.

Lemma method_list_text l : Forall loc_ok l -> (length l <= FSLOC_MAX_LIST)%nat ->
  exists sp, method_list (locs_text l) = sp /\ h_num sp = length l /\ server_list sp = Some (loc_mount <$> l).
Proof.
  intros Hl Hn. eexists. split; [done|]. unfold method_list, parse_list. rewrite split_list_text by done.
  pose proof (parse_list_loop_text l [] false Hl Hn) as H. cbn [length app fmap list_fmap] in H. rewrite Nat.sub_0_r in H. rewrite H.
  cbn [h_num]. split; [done|]. rewrite <- (length_fmap loc_mount l). apply server_list_text. by rewrite length_fmap.
Qed.

(** The locations of an export are read as they are written: from the text
    path@host+host:path@host the servers come out in order, each with its path,
    and with a colon for each plus sign as the kernel wants it; the colons of IPv6
    addresses in brackets do not separate, and the method says whether it is a
    referral. *)
Theorem fsloc_text_read l method sp :
  Forall loc_ok l -> (length l <= FSLOC_MAX_LIST)%nat -> replicas_lookup method (locs_text l) = Some sp ->
  server_list sp = Some (loc_mount <$> l) /\ h_num sp = length l /\ h_referral sp = match method with FSLOC_REFER => true | _ => false end.
Proof.
  intros Hl Hn H. destruct (method_list_text l Hl Hn) as (sp0 & E & H1 & H2). unfold replicas_lookup in H. rewrite E in H.
  destruct method; [done|..]; injection H as <-; by split_and!.
Qed.

Lemma fsloc_text_read_witness :
  match replicas_lookup FSLOC_REFER $"/a@h1+h2:/b/c@[fe80::1]" with
  | Some sp => server_list sp = Some [MountPoint $"h1:h2" $"/a"; MountPoint $"[fe80::1]" $"/b/c"]
  | None => False
  end.
Proof.
  destruct (replicas_lookup FSLOC_REFER $"/a@h1+h2:/b/c@[fe80::1]") as [sp|] eqn:E; [|discriminate].
  destruct (fsloc_text_read [($"/a", $"h1+h2"); ($"/b/c", $"[fe80::1]")] FSLOC_REFER sp) as (H & _ & _).
  - repeat constructor; by apply strchr_None.
  - cbn. unfold FSLOC_MAX_LIST. lia.
  - exact E.
  - exact H.
Defined.

(** An item that is not of the form path@host is skipped but keeps its place:
    the count of servers is right and the entry before the good ones was never
    set, so that whoever goes through the servers follows a stray pointer. *)
Theorem fsloc_bad_item_hole bad x :
  item_scan bad false = Some false -> bad <> [] -> "@"%char ∉ bad -> loc_ok x ->
  h_num (method_list (bad ++ ":"%char :: loc_text x)) = 1%nat /\ server_list (method_list (bad ++ ":"%char :: loc_text x)) = None.
Proof.
  intros Hs Hn Ha Hx. unfold method_list. rewrite (split_list_item _ _ [] _ _ Hs). rewrite app_nil_l. cbn [split_list].
  change (ceqb ":" "[") with false. change (ceqb ":" "]") with false. change (ceqb ":" ":") with true. cbv iota. cbn [negb andb].
  pose proof (split_list_text [x] ltac:(by constructor)) as Ht. cbn [locs_text map] in Ht. rewrite Ht. destruct bad as [|c bad]; [done|].
  unfold parse_list. cbn [parse_list_loop]. change (FSLOC_MAX_LIST <=? 0)%nat with false. cbv iota. rewrite (proj2 (strchr_None _ _) Ha).
  change (FSLOC_MAX_LIST <=? 1)%nat with false. cbv iota. destruct Hx as [Hsl Hat _]. unfold loc_text at 1 3. rewrite strchr_app by done.
  assert (deref (loc_text x) = "/"%char) as -> by (unfold loc_text; by destruct (fst x)). done.
Qed.

Lemma fsloc_bad_item_hole_witness :
  server_list (method_list $"srv:/a@h") = None.
Proof.
  apply (fsloc_bad_item_hole $"srv" ($"/a", $"h")).
  - reflexivity.
  - discriminate.
  - by apply strchr_None.
  - by constructor; [|apply strchr_None|].
Defined.

(** ** Junctions *)

(** A junction with one location becomes an export that refers to it: the
    text put into the export is read back as that host and path.  With a second
    location the code compares with a path it has freed, or frees it twice, and
    its behaviour is undefined. *)
Theorem junction_locations loc locs path junction parent :
  nsdb_path_array_to_posix (nfl_rootpath loc) = inl path -> loc_ok (path, nfl_hostname loc) ->
  (length path + length (nfl_hostname loc) + 1 < BUFSIZ)%nat ->
  match locs with
  | [] => exists e sp, locations_to_export [loc] junction parent = Some (Some e) /\ e_path e = junction /\ e_ttl e = 300 /\
      replicas_lookup (e_fslocmethod e) (default [] (e_fslocdata e)) = Some sp /\
      server_list sp = Some [MountPoint (plus_to_colon (nfl_hostname loc)) path] /\ h_referral sp = true
  | _ => locations_to_export (loc :: locs) junction parent = None
  end.
Proof.
  intros Hp Hok Hlen. unfold locations_to_export, locations_to_fslocdata. cbn [locations_loop]. rewrite Hp.
  rewrite (proj2 (Nat.leb_gt _ _)) by (rewrite length_app; cbn [length]; lia). rewrite app_nil_l. destruct locs as [|loc2 locs].
  - destruct (method_list_text [(path, nfl_hostname loc)]) as (sp & E & H1 & H2); [by constructor|cbn; unfold FSLOC_MAX_LIST; lia|].
    cbn [locations_loop mbind option_bind]. eexists _, (Servers (h_num sp) (h_mp sp) true). split; [reflexivity|].
    split; [done|]. split; [done|]. split; [by rewrite <- E|]. done.
  - cbn [locations_loop]. by destruct (nsdb_path_array_to_posix (nfl_rootpath loc2)).
Qed.

Lemma junction_locations_witness :
  exists e sp, locations_to_export [Fsloc $"h.ex.org" [$"srv"; $"a"]] $"/junction" ent_ex = Some (Some e) /\
    replicas_lookup (e_fslocmethod e) (default [] (e_fslocdata e)) = Some sp /\ server_list sp = Some [MountPoint $"h.ex.org" $"/srv/a"].
Proof.
  destruct (junction_locations (Fsloc $"h.ex.org" [$"srv"; $"a"]) [] $"/srv/a" $"/junction" ent_ex) as (e & sp & H1 & _ & _ & H2 & H3 & _).
  - reflexivity.
  - by constructor; [|apply strchr_None|].
  - cbn. unfold BUFSIZ. lia.
  - by exists e, sp.
Defined.
