(* ===== verification/Fsid.v ===== *)
(** * File handles (support/export/cache.c 231-485, 674-1080; mountpoint.c, nfsd_path.c of support/misc)

    The kernel asks for the export a file handle belongs to by the part of the
    handle that names the file system: a device and inode, a number, or a UUID
    that is folded from what libblkid or [statfs] say.  The host is taken to be
    little-endian.  A request that cannot be decided yet, because something is
    not mounted, is kept in a queue and tried again. *)

From S2P Require Import Prelude Cacheio Exports ExportsRT Client ExportTab Xio Xtab V4root Auth Lookup.

(** ** Paths below the root of nfsd *)

Fixpoint nfsd_path_strip (path : cstr) : cstr :=
  match path with
  | a :: ((b :: r) as rest) =>
      if ceqb a "/" && ceqb b "/" then nfsd_path_strip rest
      else if ceqb a "." && ceqb b "/" then nfsd_path_strip r
      else path
  | _ => path
  end.

(** [conf]: the value of rootdir in the section exports. *)
Definition nfsd_path_nfsd_rootdir (conf : option cstr) : option cstr :=
  match nfsd_path_strip <$> conf with
  | None | Some [] => None
  | Some rootdir => if streq rootdir $"/" then None else Some rootdir
  end.

Definition nfsd_path_strip_root (conf : option cstr) (realpath : cstr -> option cstr) (pathname : cstr) : option cstr :=
  match nfsd_path_nfsd_rootdir conf with
  | None => Some pathname
  | Some dir => match realpath dir with
                | Some buffer => if starts_with buffer pathname then Some (drop (length buffer) pathname) else None
                | None => Some pathname
                end
  end.

Definition nfsd_path_prepend_dir (dir pathname : cstr) : option cstr :=
  match rtrim dir with
  | [] => None
  | d => Some (d ++ $"/" ++ skip_while (fun c => ceqb c "/") pathname)
  end.

(** [strstr(s, p) != NULL]. *)
Fixpoint contains (p s : cstr) : bool :=
  starts_with p s || match s with [] => false | _ :: s => contains p s end.

(** Whether it is a mount point, and [errno] when a call failed. *)
Definition check_is_mountpoint (mystat : cstr -> stat + Z) (path : cstr) : bool * option Z :=
  if (starts_with $"/domain0/" path && negb (contains $"appdata_timeflow" path)) || starts_with $"/dcenter/" path then (true, None)
  else
    match mystat path with
    | inr err => (false, Some err)
    | inl stb =>
        match mystat (path ++ $"/..") with
        | inr err => (false, Some err)
        | inl pstb => (negb (st_dev stb =? st_dev pstb) || (st_ino stb =? st_ino pstb), None)
        end
    end.

(** ** UUIDs *)

Definition uuid_digit (c : ascii) : Z :=
  if isupper c then uchar c - 65 + 10 else if islower c then uchar c - 97 + 10 else uchar c - 48.

Fixpoint get_uuid_loop (val : cstr) (uuidlen i : nat) (u : cstr) : cstr :=
  match val with
  | [] => u
  | c :: val =>
      if negb (isxdigit c) then get_uuid_loop val uuidlen i u
      else
        let d := if Nat.even i then Z.shiftl (uuid_digit c) 4 else uuid_digit c in
        let u := alter (fun b => chr (Z.lxor (uchar b) d)) (i / 2)%nat u in
        let i := S i in
        get_uuid_loop val uuidlen (if (i =? uuidlen * 2)%nat then O else i) u
  end.

Definition get_uuid (val : cstr) (uuidlen : nat) : cstr := get_uuid_loop val uuidlen 0 (replicate uuidlen NUL).

(** The tags of a device: the last UUID, none if it holds btrfs. *)
Fixpoint blkid_tags (tags : list (cstr * cstr)) (uuid : option cstr) : option cstr :=
  match tags with
  | [] => uuid
  | (type, val) :: tags =>
      let uuid := if streq type $"UUID" then Some val else uuid in
      if streq type $"TYPE" && streq val $"btrfs" then None else blkid_tags tags uuid
  end.

Definition nonblkid_filesystems : list Z :=
  [0x2fc12fc1; 0x9123683E; 0xFF534D42; 0x1373; 0x73757245; 0x564C; 0x6969; 0x9FA0; 0x62656572; 0x517B; 0x01021994].

Definition set_fsid_value (e : exportent) (v : cstr) : exportent :=
  Ent (e_hostname e) (e_path e) (e_flags e) (e_anonuid e) (e_anongid e) (e_squids e) (e_sqgids e) (e_fsid e) (e_mountpoint e)
    (e_fslocmethod e) (e_fslocdata e) (e_uuid e) (e_secinfo e) (e_xprtsec e) (e_ttl e) (e_realpath e) (e_reexport e) v.

Definition set_m_export (exp : nfs_export) (e : exportent) : nfs_export :=
  Export (m_next exp) (m_client exp) e (ex_exported exp) (m_xtabent exp) (m_mayexport exp) (m_changed exp) (m_warned exp).

Section fsid.
  Context (ns : resolver) (fs : vfs).
  (** The mount table as nfsd sees it, and the number of a path in the re-export
      database. *)
  Context (strip_root : cstr -> option cstr) (fsidnum_by_path : cstr -> option Z).

Definition is_mountpoint (path : cstr) : bool * option Z := check_is_mountpoint (v_lstat fs) path.

Definition get_uuid_blkdev (path : cstr) : option cstr :=
  match v_stat fs path with
  | inr _ => None
  | inl stb => tags ← v_blkid fs (st_dev stb); blkid_tags tags None
  end.

(** The UUID, if there is one, and the entry, whose [e_fsid_value] may be set. *)
Definition uuid_by_path (path : cstr) (exp : exportent) (type : Z) (uuidlen : nat) : option cstr * exportent :=
  if negb (type =? 0) then (None, exp)
  else
    match e_fsid_value exp with
    | _ :: _ => (Some (get_uuid (e_fsid_value exp) uuidlen), exp)
    | [] =>
        match v_statfs fs path with
        | None => (None, exp)
        | Some st =>
            let blkid_val := if bool_decide (f_type st ∈ nonblkid_filesystems) then None else get_uuid_blkdev path in
            let fsid_val := if negb (f_fsid0 st =? 0) || negb (f_fsid1 st =? 0)
                            then pad0 8 (utoa 16 (u32 (f_fsid0 st))) ++ pad0 8 (utoa 16 (u32 (f_fsid1 st))) else [] in
            match blkid_val, fsid_val with
            | Some val, _ => (Some (get_uuid val uuidlen), exp)
            | None, _ :: _ => (Some (get_uuid fsid_val uuidlen), set_fsid_value exp fsid_val)
            | None, [] => (None, exp)
            end
        end
    end.

(** The mount points strictly below [p]; [l] is what is left of the table. *)
Fixpoint submounts (l : list cstr) (p : cstr) : list cstr :=
  match p, l with
  | [], _ | _, [] => []
  | _, me :: l =>
      match strip_root me with
      | None => submounts l p
      | Some mnt_dir =>
          if streq p $"/" then mnt_dir :: submounts l p
          else if starts_with (p ++ $"/") mnt_dir then mnt_dir :: submounts l p
          else submounts l p
      end
  end.

(** ** The part of a file handle that names the file system *)

Inductive nfsd_fsid := FSID_DEV | FSID_NUM | FSID_MAJOR_MINOR | FSID_ENCODE_DEV | FSID_UUID4_INUM | FSID_UUID8 | FSID_UUID16 | FSID_UUID16_INUM.

#[export] Instance nfsd_fsid_eq_dec : EqDecision nfsd_fsid.
Proof. solve_decision. Defined.

Definition fsid_of (n : Z) : option nfsd_fsid :=
  match n with
  | 0 => Some FSID_DEV | 1 => Some FSID_NUM | 2 => Some FSID_MAJOR_MINOR | 3 => Some FSID_ENCODE_DEV
  | 4 => Some FSID_UUID4_INUM | 5 => Some FSID_UUID8 | 6 => Some FSID_UUID16 | 7 => Some FSID_UUID16_INUM
  | _ => None
  end.

Record parsed_fsid := Parsed
  { fsidtype : nfsd_fsid; p_inode : Z; p_minor : Z; p_major : Z; p_fsidnum : Z; p_uuidlen : nat; fhuuid : cstr }.

(** A number stored in memory, and one in network order. *)
Definition host_num (b : cstr) : Z := foldr (fun c n => uchar c + 256 * n) 0 b.
Definition net_num (b : cstr) : Z := foldl (fun n c => 256 * n + uchar c) 0 b.

Definition parse_fsid (type : nfsd_fsid) (fsid : cstr) : option parsed_fsid :=
  let len := length fsid in
  match type with
  | FSID_DEV =>
      if negb (len =? 8)%nat then None
      else let dev := net_num (take 4 fsid) in
           Some (Parsed type (host_num (drop 4 fsid)) (Z.land dev 0xFFFF) (Z.shiftr dev 16) 0 0 [])
  | FSID_NUM => if negb (len =? 4)%nat then None else Some (Parsed type 0 0 0 (host_num fsid) 0 [])
  | FSID_MAJOR_MINOR =>
      if negb (len =? 12)%nat then None
      else Some (Parsed type (host_num (drop 8 fsid)) (net_num (take 4 (drop 4 fsid))) (net_num (take 4 fsid)) 0 0 [])
  | FSID_ENCODE_DEV =>
      if negb (len =? 8)%nat then None
      else let dev := host_num (take 4 fsid) in
           Some (Parsed type (host_num (drop 4 fsid)) (Z.lor (Z.land dev 0xff) (Z.land (Z.shiftr dev 12) 0xfff00))
                   (Z.shiftr (Z.land dev 0xfff00) 8) 0 0 [])
  | FSID_UUID4_INUM => if negb (len =? 8)%nat then None else Some (Parsed type (host_num (take 4 fsid)) 0 0 0 4 (drop 4 fsid))
  | FSID_UUID8 => if negb (len =? 8)%nat then None else Some (Parsed type 0 0 0 0 8 fsid)
  | FSID_UUID16 => if negb (len =? 16)%nat then None else Some (Parsed type 0 0 0 0 16 fsid)
  | FSID_UUID16_INUM => if negb (len =? 24)%nat then None else Some (Parsed type (host_num (take 8 fsid)) 0 0 0 16 (drop 8 fsid))
  end.

(** [major] and [minor] of the C library. *)
Definition dev_major (dev : Z) : Z := u32 (Z.lor (Z.land (Z.shiftr dev 8) 0xfff) (Z.ldiff (Z.shiftr dev 32) 0xfff)).
Definition dev_minor (dev : Z) : Z := u32 (Z.lor (Z.land dev 0xff) (Z.ldiff (Z.shiftr dev 12) 0xff)).

Definition match_crossmnt_fsidnum (parsed_fsidnum : Z) (path : cstr) : bool :=
  match fsidnum_by_path path with None => false | Some n => n =? parsed_fsidnum end.

(** [Some true]: match, [Some false]: no match, [None]: -1. *)
Definition check_uuid_type (parsed : parsed_fsid) (exp : exportent) (path : cstr) (type : Z) : option bool * exportent :=
  match uuid_by_path path exp type (p_uuidlen parsed) with
  | (None, exp) => (Some false, exp)
  | (Some u, exp) => (if streq u (fhuuid parsed) then Some true else None, exp)
  end.

(** The loop over the types of UUIDs: it goes on while one was found that does
    not fit. *)
Definition check_uuid (parsed : parsed_fsid) (exp : exportent) (path : cstr) : bool * exportent :=
  match e_uuid exp with
  | Some uuid => (streq (get_uuid uuid (p_uuidlen parsed)) (fhuuid parsed), exp)
  | None =>
      match check_uuid_type parsed exp path 0 with
      | (Some b, exp) => (b, exp)
      | (None, exp) => let '(r, exp) := check_uuid_type parsed exp path 1 in (default false r, exp)
      end
  end.

Definition path_error (err : Z) : option bool := if path_lookup_error err then Some false else None.

Definition match_fsid (parsed : parsed_fsid) (exp : exportent) (path : cstr) : option bool * exportent :=
  let uuid_mounted :=
    match is_mountpoint path with
    | (false, None) => (Some false, exp)
    | (false, Some err) => (path_error err, exp)
    | (true, _) => let '(b, exp) := check_uuid parsed exp path in (Some b, exp)
    end in
  let num :=
    (Some (has_flag (e_flags exp) NFSEXP_FSID && (e_fsid exp =? p_fsidnum parsed)
           || has_flag (e_flags exp) NFSEXP_CROSSMOUNT && negb (match e_reexport exp with REEXP_NONE => true | _ => false end)
              && match_crossmnt_fsidnum (p_fsidnum parsed) path), exp) in
  match fsidtype parsed with
  | FSID_NUM => num
  | FSID_UUID16 => uuid_mounted
  | t =>
      match v_stat fs path with
      | inr err => (path_error err, exp)
      | inl stb =>
          if negb (st_isdir stb) && negb (st_isreg stb) then (Some false, exp)
          else match t with
               | FSID_UUID8 => uuid_mounted
               | FSID_UUID4_INUM | FSID_UUID16_INUM =>
                   if negb (st_ino stb =? p_inode parsed) then (Some false, exp)
                   else let '(b, exp) := check_uuid parsed exp path in (Some b, exp)
               | _ =>
                   (Some ((st_ino stb =? p_inode parsed) && (p_major parsed =? dev_major (st_dev stb))
                          && (p_minor parsed =? dev_minor (st_dev stb))), exp)
               end
      end
  end.

Definition lookup_client_addr (st : auth) (dom : cstr) : option addrinfo :=
  match host_pton ns (tail dom) with
  | None => None
  | Some tmp => client_resolve ns (ex_clients (a_tab st)) (ai_addr tmp)
  end.

End fsid.

(** ** Requests for a file handle *)

Definition RPC_CHAN_BUF_SIZE : Z := 32768.

(** [e_mountpoint], an empty one standing for the path. *)
Definition mountpoint_of (e : exportent) : option cstr :=
  match e_mountpoint e with Some [] => Some (e_path e) | m => m end.

(** The search so far: the export with the path that fitted, how often
    something was missing, the file systems and whether [did_uncover] is set. *)
Record fh_state := FhState
  { fh_auth : auth; fh_found : option (positive * cstr); fh_missing : Z; fh_fs : vfs; fh_uncovered : bool }.

Section fh.
  Context (ns : resolver) (strip_root : cstr -> option cstr) (fsidnum_by_path : cstr -> option Z).
  (** The path of a number in the re-export database, and what the kernel mounts
      when [statfs] reaches a path. *)
  Context (path_by_fsidnum : Z -> option cstr) (touch : cstr -> vfs -> vfs).

Definition reexpdb_uncover_subvolume (fsidnum : Z) (fs : vfs) : vfs :=
  match path_by_fsidnum fsidnum with Some path => touch path fs | None => fs end.

(** One path of one export. *)
Definition fh_path (parsed : parsed_fsid) (dom : cstr) (ai : option addrinfo) (id : positive) (path : cstr) (s : fh_state) : option fh_state :=
  let fs := fh_fs s in
  exp ← ex_store (a_tab (fh_auth s)) !! id;
  c ← cl_store (ex_clients (a_tab (fh_auth s))) !! m_client exp;
  if negb (is_ipaddr_client dom) && negb (namelist_client_matches c dom) then Some s
  else
    let missing := match mountpoint_of (m_export exp) with
                   | Some mp => if fst (is_mountpoint fs mp) then fh_missing s else fh_missing s + 1
                   | None => fh_missing s
                   end in
    let '(r, e) := match_fsid fs fsidnum_by_path parsed (m_export exp) path in
    let tab := a_tab (fh_auth s) in
    let st := set_tab (fh_auth s) (set_store tab (<[id := set_m_export exp e]> (ex_store tab))) in
    let go found missing := Some (FhState st found missing fs (fh_uncovered s)) in
    match r with
    | None => go (fh_found s) (missing + 1)
    | Some false => go (fh_found s) missing
    | Some true =>
        ok ← (if is_ipaddr_client dom then ipaddr_client_matches ns c ai else Some true);
        if negb ok then go (fh_found s) missing
        else
          match fh_found s with
          | None => go (Some (id, path)) missing
          | Some (fid, fpath) =>
              f ← ex_store (a_tab st) !! fid;
              sub ← subexport fs e (m_export f);
              if (sub : bool) then go (Some (id, path)) missing
              else if negb (streq (e_path (m_export f)) (e_path e)) then
                sup ← subexport fs (m_export f) e;
                if (sup : bool) && has_flag (e_flags (m_export f)) NFSEXP_V4ROOT
                then go (Some (id, path)) missing else go (fh_found s) missing
              else if has_flag (e_flags (m_export f)) NFSEXP_V4ROOT then go (Some (id, path)) missing
              else go (fh_found s) missing
          end
    end.

Fixpoint fh_paths (parsed : parsed_fsid) (dom : cstr) (ai : option addrinfo) (id : positive) (paths : list cstr) (s : fh_state) : option fh_state :=
  match paths with
  | [] => Some s
  | path :: paths => s ← fh_path parsed dom ai id path s; fh_paths parsed dom ai id paths s
  end.

(** The paths of an export: with crossmnt, those of the file systems mounted
    below as well; [prev] and [mnt] of the code make its loop stay at an export
    until these are through. *)
Definition candidates (fs : vfs) (e : exportent) : list cstr :=
  e_path e :: if has_flag (e_flags e) NFSEXP_CROSSMOUNT then submounts strip_root (v_mtab fs) (e_path e) else [].

(** The first export that is re-exported makes the subvolume of the number
    appear. *)
Definition wants_uncover (parsed : parsed_fsid) (e : exportent) : bool :=
  negb (p_fsidnum parsed =? 0) && bool_decide (fsidtype parsed = FSID_NUM) && negb (match e_reexport e with REEXP_NONE => true | _ => false end).

Definition uncover (parsed : parsed_fsid) (e : exportent) (s : fh_state) : fh_state :=
  if negb (fh_uncovered s) && wants_uncover parsed e
  then FhState (fh_auth s) (fh_found s) (fh_missing s) (reexpdb_uncover_subvolume (p_fsidnum parsed) (fh_fs s)) true
  else s.

Fixpoint fh_exports (fuel : nat) (parsed : parsed_fsid) (dom : cstr) (ai : option addrinfo) (exp : option positive) (s : fh_state)
  : option fh_state :=
  match exp, fuel with
  | None, _ => Some s
  | Some _, O => None
  | Some id, S fuel =>
      e ← ex_store (a_tab (fh_auth s)) !! id;
      let s := uncover parsed (m_export e) s in
      s ← fh_paths parsed dom ai id (candidates (fh_fs s) (m_export e)) s;
      fh_exports fuel parsed dom ai (m_next e) s
  end.

Fixpoint fh_types (types : list mcl_type) (parsed : parsed_fsid) (dom : cstr) (ai : option addrinfo) (s : fh_state) : option fh_state :=
  match types with
  | [] => Some s
  | t :: types =>
      let tab := a_tab (fh_auth s) in
      s ← fh_exports (size (ex_store tab)) parsed dom ai (p_head (exportlist tab t)) s;
      fh_types types parsed dom ai s
  end.

Definition fh_reply (dom : cstr) (type : Z) (fsid : cstr) (found : option cstr) : option cstr :=
  let w := qword_add (WBuf [] RPC_CHAN_BUF_SIZE) dom in
  let w := qword_addint w type in
  let w := qword_addhex w fsid in
  let w := qword_addint w 0x7fffffff in
  let w := match found with Some path => qword_add w path | None => w end in
  let w := qword_addeol w in
  if w_len w <=? 0 then None else Some (w_out w).

(** What is written, whether the request must be tried again, the state. *)
Record fh_result := FhResult { fr_reply : option cstr; fr_retry : bool; fr_auth : auth }.

(** The requester: no address is needed of a name; [None]: it has none. *)
Definition requester (st : auth) (dom : cstr) : option (option addrinfo) :=
  if is_ipaddr_client dom then match lookup_client_addr ns st dom with Some ai => Some (Some ai) | None => None end else Some None.

(** The request after the words were read: [reload] is [auth_reload]. *)
Definition fh_lookup (fs : vfs) (reload : auth -> option auth) (st : auth) (dom : cstr) (type : Z) (parsed : parsed_fsid) (fsid : cstr)
  : option fh_result :=
  st ← reload st;
  match requester st dom with
  | None => Some (FhResult None false st)
  | Some ai =>
      s ← fh_types mcl_types parsed dom ai (FhState st None 0 fs false);
      match fh_found s with
      | None => if 0 <? fh_missing s then Some (FhResult None true (fh_auth s))
                else Some (FhResult (fh_reply dom type fsid None) false (fh_auth s))
      | Some (id, path) =>
          f ← ex_store (a_tab (fh_auth s)) !! id;
          if match mountpoint_of (m_export f) with Some mp => negb (fst (is_mountpoint (fh_fs s) mp)) | None => false end
          then Some (FhResult None true (fh_auth s))
          else Some (FhResult (fh_reply dom type fsid (Some path)) false (fh_auth s))
      end
  end.

Definition nfsd_handle_fh (fs : vfs) (reload : auth -> option auth) (st : auth) (bp : cstr) : option fh_result :=
  let drop_it := Some (FhResult None false st) in
  let q := qword_get bp (Z.of_nat (length bp) + 1) in
  if q_ret q <=? 0 then drop_it
  else
    let dom := cstr_of (q_dest q) in
    match qword_get_int (q_bp q) with
    | (_, None) => drop_it
    | (bp, Some n) =>
        match fsid_of n with
        | None => drop_it
        | Some t =>
            let q := qword_get bp 32 in
            if q_ret q <=? 0 then drop_it
            else let fsid := take (Z.to_nat (q_ret q)) (q_dest q) in
                 match parse_fsid t fsid with
                 | None => drop_it
                 | Some parsed => fh_lookup fs reload st dom n parsed fsid
                 end
        end
    end.
End fh.

(** ** Requests that are tried again *)

Record delayed := Delayed { d_message : cstr; d_last_attempt : Z; d_f : Z }.

Definition set_attempt (d : delayed) (t : Z) : delayed := Delayed (d_message d) t (d_f d).
Definition RETRY_SEC : Z := 120.

Section queue.
  (** What handles a request: the new state, and whether there was no definite
      answer. *)
  Context {W : Type} (handle : W -> Z -> cstr -> option (W * bool)).

(** [inbuf] is what was read; [now] the time after the request was handled. *)
Definition nfsd_fh (q : list delayed) (w : W) (f : Z) (inbuf : cstr) (now : Z) : option (list delayed * W) :=
  match last inbuf with
  | Some c =>
      if negb (ceqb c NL) then Some (q, w)
      else let message := cstr_of (take (length inbuf - 1) inbuf) in
           '(w, again) ← handle w f message;
           Some (if (again : bool) then q ++ [Delayed message now f] else q, w)
  | None => Some (q, w)
  end.

(** With it, whether the request was kept. *)
Definition nfsd_retry_fh (q : list delayed) (w : W) (d : delayed) (now : Z) : option (list delayed * W * bool) :=
  '(w, again) ← handle w (d_f d) (d_message d);
  Some (if (again : bool) then q ++ [set_attempt d now] else q, w, again).

(** Before [select]: the queue and the timeout. *)
Definition select_delay (q : list delayed) (now : Z) : list delayed * Z :=
  match q with
  | [] => (q, 24 * 3600)
  | d :: r =>
      let d := if now <? d_last_attempt d then set_attempt d (now - RETRY_SEC) else d in
      let delay := d_last_attempt d + RETRY_SEC - now in
      (d :: r, if delay <? 0 then 0 else delay)
  end.

(** After it: the request that was tried, with its outcome. *)
Definition retry_due (q : list delayed) (w : W) (now after : Z) : option (list delayed * W * option (delayed * bool)) :=
  match q with
  | d :: r =>
      if d_last_attempt d + RETRY_SEC <=? now
      then '(q, w, again) ← nfsd_retry_fh r w d after; Some (q, w, Some (d, again))
      else Some (q, w, None)
  | [] => Some (q, w, None)
  end.

(** ** Every delayed request is tried again *)

(** A round of [cache_process], with the clock before [select], after it and
    after a request was handled; and a request that comes in. *)
Inductive event := Round (now1 now2 now3 : Z) | Request (f : Z) (inbuf : cstr) (now : Z).

(** With the requests tried, and the number of rounds in which [select] waited
    until its timeout. *)
Fixpoint run (evs : list event) (q : list delayed) (w : W) : option (list delayed * W * list (delayed * bool) * nat) :=
  match evs with
  | [] => Some (q, w, [], O)
  | Request f inbuf now :: evs => '(q, w) ← nfsd_fh q w f inbuf now; run evs q w
  | Round now1 now2 now3 :: evs =>
      let '(q, tv) := select_delay q now1 in
      '(q, w, tried) ← retry_due q w now2 now3;
      '(q, w, log, n) ← run evs q w;
      Some (q, w, match tried with Some x => x :: log | None => log end, if now1 + tv <=? now2 then S n else n)
  end.

Definition same_request (d d' : delayed) : Prop := d_message d' = d_message d /\ d_f d' = d_f d.

Lemma nfsd_fh_keeps q w f inbuf now q' w' : nfsd_fh q w f inbuf now = Some (q', w') -> exists new, q' = q ++ new.
Proof.
  unfold nfsd_fh. destruct (last inbuf) as [c|]; [|intros [= <- <-]; exists []; by rewrite app_nil_r].
  destruct (negb _); [intros [= <- <-]; exists []; by rewrite app_nil_r|]. destruct (handle _ _ _) as [[w1 []]|]; intros [= <- <-]; eauto.
  exists []. by rewrite app_nil_r.
Qed.

Lemma select_delay_head d r now : exists d', same_request d d' /\
  select_delay (d :: r) now = (d' :: r, Z.max 0 (d_last_attempt d' + RETRY_SEC - now)) /\ d_last_attempt d' <= now.
Proof.
  exists (if now <? d_last_attempt d then set_attempt d (now - RETRY_SEC) else d). cbn [select_delay].
  destruct (now <? d_last_attempt d) eqn:E; (split; [done|]); cbn [d_last_attempt set_attempt]; unfold RETRY_SEC; (split; [|lia]);
    (destruct (_ <? 0) eqn:E2; f_equal; lia).
Qed.

(** A round with a waiting request: it is tried, or the round did not time out. *)
Lemma round_head d r w now1 now2 now3 q' w' tried tv q1 :
  select_delay (d :: r) now1 = (q1, tv) -> retry_due q1 w now2 now3 = Some (q', w', tried) ->
  (exists d' b new, same_request d d' /\ tried = Some (d', b) /\ q' = r ++ new) \/
  (exists d', same_request d d' /\ tried = None /\ q' = d' :: r /\ now2 < now1 + tv).
Proof.
  destruct (select_delay_head d r now1) as (d' & Hs & -> & Hl). intros [= <- <-]. cbn [retry_due].
  destruct (d_last_attempt d' + RETRY_SEC <=? now2) eqn:E.
  - unfold nfsd_retry_fh. destruct (handle _ _ _) as [[w1 again]|]; [|done]. cbn [mbind option_bind]. intros [= <- <- <-]. left.
    exists d', again, (if again then [set_attempt d' now3] else []). split; [done|]. split; [done|].
    by destruct again; rewrite ?app_nil_r.
  - intros [= <- <- <-]. right. exists d'. split; [done|]. split_and!; try done. lia.
Qed.
End queue.

(** No delayed request starves: a request that waits behind [k] others has
    been tried again once [select] ran into its timeout [k + 1] times, whatever
    other requests come in, however often the clock is set back, and whether or
    not rounds end early.  A request leaves the queue only by being tried. *)
Theorem delayed_request_retried {W : Type} (handle : W -> Z -> cstr -> option (W * bool)) evs pre d post w q' w' log n :
  run handle evs (pre ++ d :: post) w = Some (q', w', log, n) ->
  (exists d' b, same_request d d' /\ (d', b) ∈ log) \/
  ((n <= length pre)%nat /\ exists pre' d' post', same_request d d' /\ q' = pre' ++ d' :: post').
Proof.
  revert pre d post w q' w' log n; induction evs as [|ev evs IH]; intros pre d post w q' w' log n H.
  { injection H as <- <- <- <-. right. split; [lia|]. by exists pre, d, post. }
  destruct ev as [now1 now2 now3|f inbuf now]; cbn [run] in H.
  - destruct (select_delay (pre ++ d :: post) now1) as [q1 tv] eqn:Es.
    destruct (retry_due handle q1 w now2 now3) as [[[q2 w2] tried]|] eqn:Er; [|done]. cbn [mbind option_bind] in H.
    destruct (run handle evs q2 w2) as [[[[q3 w3] log3] n3]|] eqn:Eq; [|done]. injection H as <- <- <- <-.
    destruct pre as [|p pre].
    + destruct (round_head handle _ _ _ _ _ _ _ _ _ _ _ Es Er) as [(d' & b & new & Hs & -> & ->)|(d' & Hs & -> & -> & Ht)].
      * left. exists d', b. split; [done|by left].
      * destruct (IH [] d' post w2 q3 w3 log3 n3 Eq) as [(d2 & b & Hs2 & Hin)|(Hn & pre' & d2 & post' & Hs2 & ->)].
        -- left. exists d2, b. split; [|done]. destruct Hs, Hs2. split; congruence.
        -- right. rewrite (proj2 (Z.leb_gt _ _) Ht). split; [done|]. exists pre', d2, post'. split; [|done]. destruct Hs, Hs2. split; congruence.
    + destruct (round_head handle _ _ _ _ _ _ _ _ _ _ _ Es Er) as [(d' & b & new & Hs & -> & ->)|(d' & Hs & -> & -> & Ht)].
      * rewrite <- app_assoc in Eq. cbn [app] in Eq. destruct (IH pre d (post ++ new) w2 q3 w3 log3 n3 Eq) as [(d2 & b2 & Hs2 & Hin)|(Hn & Hr)].
        -- left. exists d2, b2. split; [done|by right].
        -- right. split; [cbn [length]; destruct (_ <=? _); lia|done].
      * destruct (IH (d' :: pre) d post w2 q3 w3 log3 n3 Eq) as [Hl|(Hn & Hr)]; [by left|right].
        rewrite (proj2 (Z.leb_gt _ _) Ht). done.
  - destruct (nfsd_fh handle (pre ++ d :: post) w f inbuf now) as [[q1 w1]|] eqn:Ef; [|done]. cbn [mbind option_bind] in H.
    destruct (nfsd_fh_keeps _ _ _ _ _ _ _ _ Ef) as [new ->]. rewrite <- app_assoc in H. exact (IH pre d (post ++ new) _ _ _ _ _ H).
Qed.

(** Three rounds that time out, with a request in between; nothing can be
    answered. *)
Lemma delayed_request_retried_witness :
  (exists d' b, same_request (Delayed $"b" 5 4) d' /\
     (d', b) ∈ [(Delayed $"a" 0 3, true); (Delayed $"b" 5 4, true); (Delayed $"a" 121 3, true)]) \/
  ((3 <= 1)%nat /\ exists pre' d' post', same_request (Delayed $"b" 5 4) d' /\
     [Delayed $"b" 126 4; Delayed $"x" 130 9; Delayed $"a" 242 3] = pre' ++ d' :: post').
Proof.
  apply (delayed_request_retried (W := unit) (fun w _ _ => Some (w, true))
    [Round 100 120 121; Round 121 125 126; Request 9 ($"x" ++ [NL]) 130; Round 130 241 242] [Delayed $"a" 0 3] (Delayed $"b" 5 4) [] tt _ tt).
  vm_compute. reflexivity.
Defined.

(** ** The folding of UUIDs *)

Definition xor_byte (a b : ascii) : ascii := chr (Z.lxor (uchar a) (uchar b)).
Definition xor_bytes (a b : cstr) : cstr := zip_with xor_byte a b.

Lemma lxor_range a b : 0 <= a < 256 -> 0 <= b < 256 -> 0 <= Z.lxor a b < 256.
Proof.
  intros Ha Hb. assert (0 <= Z.lxor a b) as H0 by (apply Z.lxor_nonneg; lia). split; [done|].
  destruct (Z.eq_dec (Z.lxor a b) 0) as [->|]; [lia|]. change 256 with (2 ^ 8). apply Z.log2_lt_pow2; [lia|].
  pose proof (Z.log2_lxor a b ltac:(lia) ltac:(lia)) as Hl.
  assert (forall x, 0 <= x < 256 -> Z.log2 x < 8) as Hx.
  { intros x Hx. destruct (Z.eq_dec x 0) as [->|]; [done|]. apply Z.log2_lt_pow2; lia. }
  pose proof (Hx a Ha). pose proof (Hx b Hb). lia.
Qed.

Lemma hex_pair_digits c : isxdigit (hex_hi c) = true /\ isxdigit (hex_lo c) = true /\
  0 <= Z.shiftl (uuid_digit (hex_hi c)) 4 < 256 /\ 0 <= uuid_digit (hex_lo c) < 256 /\
  Z.lxor (Z.shiftl (uuid_digit (hex_hi c)) 4) (uuid_digit (hex_lo c)) = uchar c.
Proof. all_chars c; vm_compute; repeat split; discriminate. Qed.

Lemma get_uuid_loop_filter val n i u : get_uuid_loop val n i u = get_uuid_loop (List.filter isxdigit val) n i u.
Proof.
  revert i u; induction val as [|c val IH]; intros i u; [done|]. cbn [get_uuid_loop List.filter].
  destruct (isxdigit c) eqn:E; cbn [negb]; [|apply IH]. cbn [get_uuid_loop]. rewrite E. cbn [negb]. apply IH.
Qed.

(** Two digits change one byte. *)
Lemma get_uuid_byte c r n k u : (k < n)%nat ->
  get_uuid_loop (hex_hi c :: hex_lo c :: r) n (2 * k) u
  = get_uuid_loop r n (if (S k =? n)%nat then O else 2 * S k)%nat (alter (fun b => xor_byte b c) k u).
Proof.
  intros Hk. destruct (hex_pair_digits c) as (H1 & H2 & R1 & R2 & Hx). cbn [get_uuid_loop]. rewrite H1. cbn [negb].
  rewrite (proj2 (Nat.even_spec (2 * k)) (ex_intro _ k eq_refl)).
  rewrite (proj2 (Nat.eqb_neq (S (2 * k)) (n * 2))) by lia. rewrite H2. cbn [negb].
  assert (Nat.even (S (2 * k)) = false) as ->.
  { rewrite Nat.even_succ, <- Nat.negb_even. by rewrite (proj2 (Nat.even_spec (2 * k)) (ex_intro _ k eq_refl)). }
  assert ((2 * k) / 2 = k)%nat as -> by (rewrite Nat.mul_comm; apply Nat.div_mul; lia).
  assert (S (2 * k) / 2 = k)%nat as -> by (symmetry; apply (Nat.div_unique _ _ _ 1); lia).
  f_equal.
  - destruct (Nat.eqb_spec (S k) n), (Nat.eqb_spec (S (S (2 * k))) (n * 2)); lia.
  - apply list_eq. intros j. destruct (decide (k = j)) as [<-|Hne]; [|by rewrite !list_lookup_alter_ne].
    rewrite !list_lookup_alter_eq. destruct (u !! k) as [b|]; [|done]. cbn. f_equal. unfold xor_byte.
    rewrite uchar_chr by (apply lxor_range; [apply uchar_range|done]). by rewrite Z.lxor_assoc, Hx.
Qed.

Lemma get_uuid_chunk b r n pre rest : b <> [] -> length rest = length b -> (length pre + length b = n)%nat ->
  get_uuid_loop (hexencode b ++ r) n (2 * length pre) (pre ++ rest) = get_uuid_loop r n 0 (pre ++ xor_bytes rest b).
Proof.
  revert pre rest; induction b as [|c b IH]; intros pre rest Hb Hr Hn; [done|]. destruct rest as [|x rest]; [done|].
  change (hexencode (c :: b) ++ r) with (hex_hi c :: hex_lo c :: hexencode b ++ r). cbn [length] in *. rewrite get_uuid_byte by lia.
  rewrite alter_app_r_alt, Nat.sub_diag by lia. cbn [alter list_alter]. cbn [xor_bytes zip_with]. fold (xor_bytes rest b).
  destruct b as [|c' b].
  - cbn [length] in *. rewrite (proj2 (Nat.eqb_eq _ _)) by lia. destruct rest; done.
  - rewrite (proj2 (Nat.eqb_neq _ _)) by (cbn [length] in *; lia).
    pose proof (IH (pre ++ [xor_byte x c]) rest) as IH'. rewrite length_app in IH'. cbn [length] in IH'. rewrite <- !app_assoc in IH'. cbn [app] in IH'.
    replace (2 * S (length pre))%nat with (2 * (length pre + 1))%nat by lia. apply IH'; [done|cbn [length] in *; lia..].
Qed.

Lemma get_uuid_chunks us n u : (0 < n)%nat -> length u = n -> Forall (fun b => length b = n) us ->
  get_uuid_loop (hexencode (concat us)) n 0 u = foldl xor_bytes u us.
Proof.
  intros Hn. revert u; induction us as [|b us IH]; intros u Hu Hus; [done|]. apply Forall_cons in Hus as [Hb Hus]. cbn [concat foldl].
  unfold hexencode. rewrite flat_map_app. fold (hexencode b) (hexencode (concat us)).
  rewrite (get_uuid_chunk b _ n [] u); [|intros ->; cbn in Hb; lia|congruence|done]. cbn [app]. apply IH; [|done].
  unfold xor_bytes. rewrite length_zip_with. lia.
Qed.

Lemma xor_byte_nul c : xor_byte NUL c = c.
Proof. unfold xor_byte. change (uchar NUL) with 0. rewrite Z.lxor_0_l. apply chr_uchar. Qed.

Lemma xor_bytes_nul b : xor_bytes (replicate (length b) NUL) b = b.
Proof. induction b as [|c b IH]; [done|]. cbn. rewrite xor_byte_nul. by f_equal. Qed.

(** [get_uuid] reads the hexadecimal digits of its text, whatever stands
    between them, as bytes; from a text with more bytes than asked for the
    blocks are folded by exclusive or, so that a UUID of 16 bytes is taken over
    as it is when 16 bytes are asked for and as the sum of its halves when 8
    are. *)
Theorem get_uuid_folds val us b n :
  (0 < n)%nat -> Forall (fun u => length u = n) (b :: us) -> List.filter isxdigit val = hexencode (concat (b :: us)) ->
  get_uuid val n = foldl xor_bytes b us.
Proof.
  intros Hn Hus Hval. unfold get_uuid. rewrite get_uuid_loop_filter, Hval. rewrite get_uuid_chunks; [|done|apply length_replicate|done].
  cbn [foldl]. apply Forall_cons in Hus as [<- _]. by rewrite xor_bytes_nul.
Qed.

Lemma get_uuid_folds_witness :
  get_uuid $"01-02:030405 06ff08" 4 = chr <$> [0x04; 0x04; 0xfc; 0x0c].
Proof.
  rewrite (get_uuid_folds $"01-02:030405 06ff08" [chr <$> [5; 6; 0xff; 8]] (chr <$> [1; 2; 3; 4]) 4).
  - vm_compute. reflexivity.
  - lia.
  - repeat constructor.
  - vm_compute. reflexivity.
Defined.

(** ** The export of a file handle *)

Section handle.
  Context (ns : resolver) (strip_root : cstr -> option cstr) (fsidnum_by_path : cstr -> option Z).
  Context (path_by_fsidnum : Z -> option cstr) (touch : cstr -> vfs -> vfs).
  Context (st : auth) (L : mcl_type -> list positive) (dom : cstr) (ai : option addrinfo) (parsed : parsed_fsid).

Definition mounted (fs : vfs) (e : nfs_export) : bool :=
  match mountpoint_of (m_export e) with Some mp => fst (is_mountpoint fs mp) | None => true end.

(** Whether the file handle is asked for at all, and whether the client may
    have it; for a name the two are one. *)
Definition asked (e : nfs_export) : bool :=
  match cl_store (ex_clients (a_tab st)) !! m_client e with
  | Some c => is_ipaddr_client dom || namelist_client_matches c dom
  | None => false
  end.
Definition allowed (e : nfs_export) : bool :=
  match cl_store (ex_clients (a_tab st)) !! m_client e with
  | Some c => bool_decide (verdict ns c dom ai = Some true)
  | None => false
  end.

(** The paths of an export in their order, and what comparing each with the file
    handle gives: a look at a path may cache the number of its file system in the
    entry for the next. *)
Fixpoint outcomes (fs : vfs) (e : exportent) (paths : list cstr) : list (cstr * option bool) :=
  match paths with
  | [] => []
  | path :: paths => let '(r, e) := match_fsid fs fsidnum_by_path parsed e path in (path, r) :: outcomes fs e paths
  end.

(** One path of one export: whether the export is mounted where it has to be, and
    the comparison. *)
Record trial := Trial { t_id : positive; t_exp : nfs_export; t_path : cstr; t_mounted : bool; t_result : option bool }.

Definition tries (fs : vfs) (id : positive) (e : nfs_export) : list trial :=
  (fun pr => Trial id e pr.1 (mounted fs e) pr.2) <$> outcomes fs (m_export e) (candidates strip_root fs (m_export e)).

(** The file systems, and whether the subvolume was made to appear. *)
Definition step_view (e : nfs_export) (v : vfs * bool) : vfs * bool :=
  if negb v.2 && wants_uncover parsed (m_export e) then (reexpdb_uncover_subvolume path_by_fsidnum touch (p_fsidnum parsed) v.1, true) else v.

(** All the trials for exports in their order, and the file systems then. *)
Fixpoint trials (v : vfs * bool) (ids : list positive) : list trial :=
  match ids with
  | [] => []
  | id :: ids => match ex_store (a_tab st) !! id with
                 | Some e => let v := step_view e v in tries v.1 id e ++ trials v ids
                 | None => trials v ids
                 end
  end.
Definition last_view (v : vfs * bool) (ids : list positive) : vfs * bool :=
  foldl (fun v id => match ex_store (a_tab st) !! id with Some e => step_view e v | None => v end) v ids.

Context (fs0 : vfs).

(** Nothing is undefined, before the subvolume appears and after. *)
Record handle_ok : Prop := HandleOk
  { ho_client : forall x e, x ∈ all_of L -> ex_store (a_tab st) !! x = Some e ->
      exists c b, cl_store (ex_clients (a_tab st)) !! m_client e = Some c /\ verdict ns c dom ai = Some b;
    ho_sub : forall fs x e y f, fs = fs0 \/ fs = reexpdb_uncover_subvolume path_by_fsidnum touch (p_fsidnum parsed) fs0 ->
      x ∈ all_of L -> ex_store (a_tab st) !! x = Some e -> y ∈ all_of L -> ex_store (a_tab st) !! y = Some f ->
      exists b, subexport fs (m_export e) (m_export f) = Some b }.

Context (Hok : handle_ok).

(** The entry with another number cached. *)
Definition cached (e : nfs_export) (ep : exportent) : Prop := exists w, ep = set_fsid_value (m_export e) w.

Lemma match_fsid_cached fs e ep path : cached e ep -> cached e (match_fsid fs fsidnum_by_path parsed ep path).2.
Proof.
  intros [w ->]. set (ep := set_fsid_value _ _). assert (cached e ep) as Hc by (by exists w).
  assert (forall ty, cached e (check_uuid_type fs parsed ep path ty).2 /\ forall ep', cached e ep' -> cached e (check_uuid_type fs parsed ep' path ty).2) as Ht.
  { assert (forall ty ep', cached e ep' -> cached e (check_uuid_type fs parsed ep' path ty).2) as H; [|auto].
    intros ty ep' [w' ->]. unfold check_uuid_type, uuid_by_path. repeat case_match; simplify_eq; cbn; by eexists. }
  assert (cached e (check_uuid fs parsed ep path).2) as Hu.
  { unfold check_uuid. destruct (e_uuid ep); [done|]. destruct (Ht 0) as [H0 _]. destruct (check_uuid_type fs parsed ep path 0) as [[r|] e1] eqn:E1; [done|].
    pose proof (proj2 (Ht 1) e1 H0) as H1. by destruct (check_uuid_type fs parsed e1 path 1). }
  destruct (check_uuid fs parsed ep path) as [b e1] eqn:Eu. cbn [snd] in Hu. unfold match_fsid. rewrite Eu.
  repeat case_match; simplify_eq; done.
Qed.

(** What is known after the trials [seen], the exports [todo] being untouched. *)
Record fh_inv (todo : list positive) (v : vfs * bool) (seen : list trial) (s : fh_state) : Prop := FhInv
  { fi_view : (fh_fs s, fh_uncovered s) = v;
    fi_fs : fh_fs s = if fh_uncovered s then reexpdb_uncover_subvolume path_by_fsidnum touch (p_fsidnum parsed) fs0 else fs0;
    fi_auth : fh_auth s = set_tab st (set_store (a_tab st) (ex_store (a_tab (fh_auth s))));
    fi_size : size (ex_store (a_tab (fh_auth s))) = size (ex_store (a_tab st));
    fi_store : forall i e, ex_store (a_tab st) !! i = Some e ->
      exists ep, ex_store (a_tab (fh_auth s)) !! i = Some (set_m_export e ep) /\ cached e ep /\ (i ∈ todo -> ep = m_export e);
    fi_seen : Forall (fun t => t_id t ∈ all_of L /\ ex_store (a_tab st) !! t_id t = Some (t_exp t)) seen;
    fi_found : forall id path, fh_found s = Some (id, path) ->
      exists t, t ∈ seen /\ t_id t = id /\ t_path t = path /\ allowed (t_exp t) = true /\ t_result t = Some true;
    fi_none : fh_found s = None -> forall t, t ∈ seen -> allowed (t_exp t) = true -> t_result t <> Some true;
    fi_missing : 0 <= fh_missing s;
    fi_all : fh_missing s = 0 -> forall t, t ∈ seen -> asked (t_exp t) = true -> t_mounted t = true /\ t_result t <> None;
    fi_some : 0 < fh_missing s -> exists t, t ∈ seen /\ asked (t_exp t) = true /\ (t_mounted t = false \/ t_result t = None) }.

Lemma allowed_asked e : allowed e = true -> asked e = true.
Proof.
  unfold allowed, asked, verdict. destruct (cl_store _ !! _); [|done]. destruct (is_ipaddr_client dom); [done|].
  rewrite bool_decide_eq_true. by intros [= ->].
Qed.

(** The step that keeps the invariant: what is new about one trial. *)
Lemma fh_inv_step todo v seen s id e t ep found' missing' :
  fh_inv todo v seen s -> id ∈ all_of L -> ex_store (a_tab st) !! id = Some e -> t_id t = id -> t_exp t = e -> id ∉ todo -> cached e ep ->
  (found' = fh_found s /\ (allowed e = true -> t_result t = Some true -> fh_found s <> None) \/
   found' = Some (id, t_path t) /\ allowed e = true /\ t_result t = Some true) ->
  fh_missing s <= missing' -> (missing' = 0 -> asked e = true -> t_mounted t = true /\ t_result t <> None) ->
  (missing' <> fh_missing s -> asked e = true /\ (t_mounted t = false \/ t_result t = None)) ->
  let tab := a_tab (fh_auth s) in
  fh_inv todo v (seen ++ [t])
    (FhState (set_tab (fh_auth s) (set_store tab (<[id := set_m_export e ep]> (ex_store tab)))) found' missing' (fh_fs s) (fh_uncovered s)).
Proof.
  intros [Hv Hfs Ha Hsz Hs Hseen Hf Hn Hm Hall Hsome] Hid E Ht1 Ht2 Hnt Hc Hfound Hle Hnew Hinc tab.
  split; cbn [fh_auth fh_found fh_missing fh_fs fh_uncovered]; [done|done| | | | | | |lia| |].
  - unfold tab. rewrite Ha. done.
  - cbn [a_tab set_tab ex_store set_store]. destruct (Hs id e E) as (ep0 & E0 & _). unfold tab. by rewrite map_size_insert_Some by (by eexists).
  - intros i ei Ei. cbn [a_tab set_tab ex_store set_store]. destruct (decide (id = i)) as [<-|Hne].
    + rewrite lookup_insert_eq. assert (ei = e) as -> by congruence. exists ep. by split_and!.
    + rewrite lookup_insert_ne by done. by apply Hs.
  - apply Forall_app. split; [done|]. apply Forall_singleton. rewrite Ht1, Ht2. by split.
  - intros i p Hi. destruct Hfound as [[-> _]|(-> & H1 & H2)].
    + destruct (Hf i p Hi) as (t' & H1 & H2). exists t'. split; [apply elem_of_app; by left|done].
    + injection Hi as <- <-. exists t. rewrite Ht2. split_and!; try done. apply elem_of_app. right. by left.
  - intros Hnone t' [Hin|Hin]%elem_of_app Hal.
    + destruct Hfound as [[-> _]|(-> & _)]; [|done]. by apply Hn.
    + apply list_elem_of_singleton in Hin as ->. rewrite Ht2 in Hal. destruct Hfound as [[-> Hx]|(-> & _)]; [|done]. intros Hr. by apply (Hx Hal Hr).
  - intros Hz t' [Hin|Hin]%elem_of_app Hal; [by apply Hall; [lia|..]|].
    apply list_elem_of_singleton in Hin as ->. rewrite Ht2 in Hal. by apply Hnew.
  - intros Hpos. destruct (decide (missing' = fh_missing s)) as [->|Hne].
    + destruct (Hsome Hpos) as (t' & Hin & Hr). exists t'. split; [apply elem_of_app; by left|done].
    + exists t. rewrite Ht2. split; [apply elem_of_app; right; by left|]. by apply Hinc.
Qed.

(** Trials of an export that is not asked for say nothing. *)
Lemma fh_inv_unasked todo v seen s ts e id :
  fh_inv todo v seen s -> id ∈ all_of L -> ex_store (a_tab st) !! id = Some e -> asked e = false ->
  Forall (fun t => t_id t = id /\ t_exp t = e) ts -> fh_inv todo v (seen ++ ts) s.
Proof.
  intros [Hv Hfs Ha Hsz Hs Hseen Hf Hn Hm Hall Hsome] Hid E Hna Hts. rewrite Forall_forall in Hts. split; try done.
  - apply Forall_app. split; [done|]. apply Forall_forall. intros t Ht. destruct (Hts t Ht) as [-> ->]. by split.
  - intros i p Hi. destruct (Hf i p Hi) as (t' & H1 & H2). exists t'. split; [apply elem_of_app; by left|done].
  - intros Hnone t [Hin|Hin]%elem_of_app Hal; [by apply Hn|]. destruct (Hts t Hin) as [_ Ht]. rewrite Ht in Hal.
    apply allowed_asked in Hal. congruence.
  - intros Hz t [Hin|Hin]%elem_of_app Hal; [by apply Hall|]. destruct (Hts t Hin) as [_ Ht]. congruence.
  - intros Hpos. destruct (Hsome Hpos) as (t & Hin & Hr). exists t. split; [apply elem_of_app; by left|done].
Qed.

Lemma subexport_cached fs e f ep fp b : cached e ep -> cached f fp -> subexport fs (m_export e) (m_export f) = Some b -> subexport fs ep fp = Some b.
Proof. by intros [w ->] [w' ->]. Qed.

Lemma fh_path_inv todo v seen s id path e ep :
  fh_inv todo v seen s -> id ∈ all_of L -> ex_store (a_tab st) !! id = Some e -> id ∉ todo -> asked e = true ->
  ex_store (a_tab (fh_auth s)) !! id = Some (set_m_export e ep) -> cached e ep ->
  let '(r, ep') := match_fsid (fh_fs s) fsidnum_by_path parsed ep path in
  exists s', fh_path ns fsidnum_by_path parsed dom ai id path s = Some s' /\
    fh_inv todo v (seen ++ [Trial id e path (mounted (fh_fs s) e) r]) s' /\
    fh_fs s' = fh_fs s /\ ex_store (a_tab (fh_auth s')) !! id = Some (set_m_export e ep').
Proof using Hok.
  intros HI Hid E Hnt Hask Ecur Hc. destruct Hok as [Hcl Hsub]. pose proof (fi_found _ _ _ _ HI) as Hfd. pose proof (fi_missing _ _ _ _ HI) as Hm0.
  destruct (Hcl id e Hid E) as (c & b & Ec & Hv).
  pose proof (match_fsid_cached (fh_fs s) e ep path Hc) as Hc'.
  destruct (match_fsid (fh_fs s) fsidnum_by_path parsed ep path) as [r ep'] eqn:Em. cbn [snd] in Hc'.
  unfold fh_path. cbv zeta. rewrite Ecur. cbn [mbind option_bind m_client set_m_export m_export].
  assert (cl_store (ex_clients (a_tab (fh_auth s))) = cl_store (ex_clients (a_tab st))) as -> by (by rewrite (fi_auth _ _ _ _ HI)).
  rewrite Ec. cbn [mbind option_bind].
  assert (allowed e = b) as Hal by (unfold allowed; rewrite Ec, Hv; by destruct b).
  assert (asked e = is_ipaddr_client dom || namelist_client_matches c dom) as Has by (unfold asked; by rewrite Ec).
  rewrite Hask in Has. rewrite <- negb_orb, <- Has. cbn [negb]. rewrite Em.
  assert (mountpoint_of ep = mountpoint_of (m_export e)) as -> by (by destruct Hc as [w ->]).
  set (m := match mountpoint_of (m_export e) with Some mp => if fst (is_mountpoint (fh_fs s) mp) then fh_missing s else fh_missing s + 1 | None => fh_missing s end).
  assert (fh_missing s <= m /\ (m = 0 -> mounted (fh_fs s) e = true) /\ (m <> fh_missing s -> mounted (fh_fs s) e = false)) as (Hm1 & Hm2 & Hm3).
  { unfold m, mounted. destruct (mountpoint_of _) as [mp|]; [|lia]. destruct (fst _); [lia|]. split; [lia|]. split; intros; [lia|done]. }
  set (t := Trial id e path (mounted (fh_fs s) e) r).
  change (set_m_export (set_m_export e ep) ep') with (set_m_export e ep').
  set (st' := set_tab (fh_auth s) _).
  assert (ex_store (a_tab st') !! id = Some (set_m_export e ep')) as Est by (unfold st'; cbn [a_tab set_tab ex_store set_store]; apply lookup_insert_eq).
  assert (forall found' missing',
    (found' = fh_found s /\ (allowed e = true -> r = Some true -> fh_found s <> None) \/ found' = Some (id, path) /\ allowed e = true /\ r = Some true) ->
    fh_missing s <= missing' -> (missing' = 0 -> mounted (fh_fs s) e = true /\ r <> None) ->
    (missing' <> fh_missing s -> mounted (fh_fs s) e = false \/ r = None) ->
    exists s', Some (FhState st' found' missing' (fh_fs s) (fh_uncovered s)) = Some s' /\
    fh_inv todo v (seen ++ [t]) s' /\ fh_fs s' = fh_fs s /\ ex_store (a_tab (fh_auth s')) !! id = Some (set_m_export e ep')) as Hstep.
  { intros found' missing' Hf H1 H2 H3. eexists. split; [reflexivity|]. split; [|by split].
    eapply (fh_inv_step todo v seen s id e t ep'); try done; auto. }
  destruct r as [[]|].
  - assert ((if is_ipaddr_client dom then ipaddr_client_matches ns c ai else Some true) = Some b) as Hb.
    { unfold verdict in Hv. destruct (is_ipaddr_client dom); [done|]. cbn [orb] in Has. congruence. }
    rewrite Hb. cbn [mbind option_bind]. destruct b; cbn [negb].
    + destruct (fh_found s) as [[fid fpath]|] eqn:Ef; [|apply Hstep; [by right|done|by split; auto|by intros ?%Hm3; left]].
      destruct (Hfd fid fpath eq_refl) as (t' & Hin & Ht' & _). pose proof (fi_seen _ _ _ _ HI) as Hseen. rewrite Forall_forall in Hseen.
      destruct (Hseen t' Hin) as (Hfid & Ef'). rewrite Ht' in Hfid, Ef'.
      assert (exists fp, ex_store (a_tab st') !! fid = Some (set_m_export (t_exp t') fp) /\ cached (t_exp t') fp) as (fp & -> & Hcf).
      { unfold st'. cbn [a_tab set_tab ex_store set_store]. destruct (decide (id = fid)) as [<-|Hne].
        - rewrite lookup_insert_eq. assert (t_exp t' = e) as -> by congruence. by exists ep'.
        - rewrite lookup_insert_ne by done. destruct (fi_store _ _ _ _ HI fid _ Ef') as (fp & H1 & H2 & _). by exists fp. }
      cbn [mbind option_bind m_export set_m_export].
      assert (fh_fs s = fs0 \/ fh_fs s = reexpdb_uncover_subvolume path_by_fsidnum touch (p_fsidnum parsed) fs0) as Hw
        by (rewrite (fi_fs _ _ _ _ HI); destruct (fh_uncovered s); auto).
      destruct (Hsub _ id e fid _ Hw Hid E Hfid Ef') as [b1 Hb1]. destruct (Hsub _ fid _ id e Hw Hfid Ef' Hid E) as [b2 Hb2].
      rewrite (subexport_cached _ _ _ _ _ _ Hc' Hcf Hb1), (subexport_cached _ _ _ _ _ _ Hcf Hc' Hb2). cbn [mbind option_bind].
      destruct b1; [apply Hstep; [by right|done|by split; auto|by intros ?%Hm3; left]|].
      destruct (negb (streq _ _)); [destruct (b2 && _)|destruct (has_flag _ _)];
        (apply Hstep; [first [by right|by left]|done|by split; auto|by intros ?%Hm3; left]).
    + apply Hstep; [|done|by split; auto|by intros ?%Hm3; left]. left. split; [done|]. congruence.
  - apply Hstep; [|done|by split; auto|by intros ?%Hm3; left]. left. by split.
  - apply Hstep; [|lia|intros; lia|by intros; right]. left. by split.
Qed.

Lemma fh_paths_inv paths todo v seen s id e ep :
  fh_inv todo v seen s -> id ∈ all_of L -> ex_store (a_tab st) !! id = Some e -> id ∉ todo -> asked e = true ->
  ex_store (a_tab (fh_auth s)) !! id = Some (set_m_export e ep) -> cached e ep ->
  exists s', fh_paths ns fsidnum_by_path parsed dom ai id paths s = Some s' /\
    fh_inv todo v (seen ++ ((fun pr => Trial id e pr.1 (mounted (fh_fs s) e) pr.2) <$> outcomes (fh_fs s) ep paths)) s'.
Proof using Hok.
  revert seen s ep; induction paths as [|path paths IH]; intros seen s ep HI Hid E Hnt Hask Ecur Hc; [exists s; by rewrite app_nil_r|].
  cbn [fh_paths outcomes]. pose proof (fh_path_inv todo v seen s id path e ep HI Hid E Hnt Hask Ecur Hc) as H.
  pose proof (match_fsid_cached (fh_fs s) e ep path Hc) as Hc'.
  destruct (match_fsid (fh_fs s) fsidnum_by_path parsed ep path) as [r ep']. destruct H as (s1 & -> & H1 & Hfs & Ecur'). cbn [mbind option_bind snd] in *.
  destruct (IH _ _ ep' H1 Hid E Hnt Hask Ecur' Hc') as (s2 & -> & H2). exists s2. split; [done|]. rewrite Hfs, <- app_assoc in H2. exact H2.
Qed.

Lemma fh_paths_unasked paths s id e c :
  ex_store (a_tab (fh_auth s)) !! id = Some e -> cl_store (ex_clients (a_tab (fh_auth s))) !! m_client e = Some c ->
  is_ipaddr_client dom || namelist_client_matches c dom = false -> fh_paths ns fsidnum_by_path parsed dom ai id paths s = Some s.
Proof.
  intros E Ec Hna. induction paths as [|p paths IH]; [done|]. cbn [fh_paths]. unfold fh_path. rewrite E. cbn [mbind option_bind]. rewrite Ec.
  cbn [mbind option_bind]. by rewrite <- negb_orb, Hna.
Qed.

Lemma fh_inv_todo todo todo' v seen s : (forall x, x ∈ todo' -> x ∈ todo) -> fh_inv todo v seen s -> fh_inv todo' v seen s.
Proof.
  intros H [Hv Hfs Ha Hsz Hs Hseen Hf Hn Hm Hall Hsome]. split; try done.
  intros i e E. destruct (Hs i e E) as (ep & H1 & H2 & H3). exists ep. by split_and!; auto.
Qed.

Lemma fh_inv_uncover todo v seen s e : fh_inv todo v seen s -> fh_inv todo (step_view e v) seen (uncover path_by_fsidnum touch parsed (m_export e) s).
Proof.
  intros [Hv Hfs Ha Hsz Hs Hseen Hf Hn Hm Hall Hsome]. unfold uncover, step_view. rewrite <- Hv. cbn [fst snd].
  destruct (fh_uncovered s) eqn:Eu; cbn [negb andb]; [by split; rewrite ?Eu|].
  destruct (wants_uncover parsed (m_export e)); [|by split; rewrite ?Eu].
  split; cbn [fh_auth fh_found fh_missing fh_fs fh_uncovered]; try done. by rewrite Hfs.
Qed.

(** One export with all its paths. *)
Lemma fh_export_inv todo v seen s id e :
  fh_inv (id :: todo) v seen s -> id ∉ todo -> id ∈ all_of L -> ex_store (a_tab st) !! id = Some e ->
  ex_store (a_tab (fh_auth s)) !! id = Some e /\
  let s1 := uncover path_by_fsidnum touch parsed (m_export e) s in
  exists s', fh_paths ns fsidnum_by_path parsed dom ai id (candidates strip_root (fh_fs s1) (m_export e)) s1 = Some s' /\
    fh_inv todo (step_view e v) (seen ++ tries (step_view e v).1 id e) s'.
Proof using Hok.
  intros HI Hnt Hid E. destruct (fi_store _ _ _ _ HI id e E) as (ep & Ecur & Hc & Htodo).
  assert (ep = m_export e) as -> by (apply Htodo; by left). assert (set_m_export e (m_export e) = e) as Hee by (by destruct e).
  split; [by rewrite Ecur, Hee|]. intros s1. pose proof (fh_inv_uncover _ _ _ _ e HI) as H1. fold s1 in H1.
  assert (ex_store (a_tab (fh_auth s1)) !! id = Some (set_m_export e (m_export e))) as Ecur1.
  { unfold s1, uncover. by destruct (_ && _). }
  assert ((step_view e v).1 = fh_fs s1) as -> by (by rewrite <- (fi_view _ _ _ _ H1)).
  pose proof (fh_inv_todo _ todo _ _ _ ltac:(by right) H1) as H2.
  destruct (asked e) eqn:Hask; [by eapply (fh_paths_inv _ todo _ seen s1 id e)|].
  destruct Hok as [Hcl _]. destruct (Hcl id e Hid E) as (c & _ & Ec & _). rewrite Hee in Ecur1.
  exists s1. split.
  - eapply fh_paths_unasked; [exact Ecur1| |unfold asked in Hask; by rewrite Ec in Hask]. by rewrite (fi_auth _ _ _ _ H1).
  - eapply fh_inv_unasked; [done..|]. apply Forall_fmap, Forall_forall. by intros.
Qed.

Lemma trials_app v l l' : trials v (l ++ l') = trials v l ++ trials (last_view v l) l'.
Proof.
  revert v. induction l as [|id l IH]; intros v; [done|]. cbn [app trials]. unfold last_view. cbn [foldl]. fold (last_view v l).
  destruct (ex_store (a_tab st) !! id) as [e|]; [|apply IH]. rewrite IH. by rewrite app_assoc.
Qed.

Lemma fh_exports_inv l p fuel todo v seen s :
  chain (ex_store (a_tab st)) p l None -> (length l <= fuel)%nat -> NoDup (l ++ todo) -> (forall x, x ∈ l -> x ∈ all_of L) -> fh_inv (l ++ todo) v seen s ->
  exists s', fh_exports ns strip_root fsidnum_by_path path_by_fsidnum touch fuel parsed dom ai p s = Some s' /\
    fh_inv todo (last_view v l) (seen ++ trials v l) s'.
Proof using Hok.
  revert p fuel v seen s; induction l as [|x l IH]; intros p fuel v seen s Hc Hf Hnd Hin HI.
  { cbn in Hc. subst. exists s. cbn [trials]. rewrite app_nil_r. by destruct fuel. }
  destruct Hc as (-> & e & E & Hc). destruct fuel as [|fuel]; [cbn in Hf; lia|]. cbn [app] in Hnd, HI. apply NoDup_cons in Hnd as [Hx Hnd].
  destruct (fh_export_inv (l ++ todo) v seen s x e HI Hx) as (Ecur & s1 & Hs1 & H1); [apply Hin; by left|done|].
  cbn [fh_exports]. rewrite Ecur. cbn [mbind option_bind]. rewrite Hs1. cbn [mbind option_bind].
  destruct (IH (m_next e) fuel _ _ s1 Hc ltac:(cbn in Hf; lia) Hnd ltac:(intros y Hy; apply Hin; by right) H1) as (s2 & -> & H2).
  exists s2. split; [done|]. cbn [trials]. unfold last_view. cbn [foldl]. rewrite E. by rewrite <- app_assoc in H2.
Qed.

Lemma fh_types_inv types v seen s : st_ok (a_tab st) L -> NoDup (concat (map L types)) -> fh_inv (concat (map L types)) v seen s ->
  exists s', fh_types ns strip_root fsidnum_by_path path_by_fsidnum touch types parsed dom ai s = Some s' /\
    fh_inv [] (last_view v (concat (map L types))) (seen ++ trials v (concat (map L types))) s'.
Proof using Hok.
  intros Hst. revert v seen s; induction types as [|t types IH]; intros v seen s Hnd HI; [exists s; cbn; by rewrite app_nil_r|].
  cbn [fh_types map concat] in *. rewrite (fi_size _ _ _ _ HI).
  assert (exportlist (a_tab (fh_auth s)) = exportlist (a_tab st)) as -> by (by rewrite (fi_auth _ _ _ _ HI)).
  destruct (so_table _ _ Hst t) as [Hc Hn _].
  destruct (fh_exports_inv (L t) _ (size (ex_store (a_tab st))) (concat (map L types)) v seen s Hc) as (s1 & -> & H1);
    [by eapply chain_size|done|intros x Hx; apply elem_of_all_of; eauto|done|]. cbn [mbind option_bind].
  apply NoDup_app in Hnd as (_ & _ & Hnd). destruct (IH _ _ _ Hnd H1) as (s2 & -> & H2). exists s2. split; [done|].
  rewrite trials_app. unfold last_view in *. by rewrite foldl_app, app_assoc.
Qed.
End handle.

(** C20. The answer to a request for a file handle.  The exports are looked at in the
    order of the table, each with its path and, with crossmnt, the file systems
    mounted below it ([trials]); what comparing a path caches in the entry and the
    subvolume that the first re-exported entry makes appear count for the paths
    that follow.  A requester whose address does not resolve gets no answer and is
    forgotten.  Otherwise, when a path is given back, it is one that was found to fit
    the file handle, its export has a client that accepts the requester and is
    mounted where it has to be.  When the kernel is told that there is none, no path
    of an export that the requester may use fits and all of them could be
    looked at.  Else no answer is given, something is missing, and the
    request is to be tried again.  The table changes only in the numbers cached. *)
Theorem nfsd_fh_answer ns strip_root fsidnum_by_path path_by_fsidnum touch fs reload st0 st L dom type parsed fsid :
  reload st0 = Some st -> st_ok (a_tab st) L ->
  (forall ai, requester ns st dom = Some ai -> handle_ok ns path_by_fsidnum touch st L dom ai parsed fs) ->
  exists r, fh_lookup ns strip_root fsidnum_by_path path_by_fsidnum touch fs reload st0 dom type parsed fsid = Some r /\
    match requester ns st dom with
    | None => r = FhResult None false st
    | Some ai =>
        let ts := trials strip_root fsidnum_by_path path_by_fsidnum touch st parsed (fs, false) (all_of L) in
        let fs' := (last_view path_by_fsidnum touch st parsed (fs, false) (all_of L)).1 in
        fr_auth r = set_tab st (set_store (a_tab st) (ex_store (a_tab (fr_auth r)))) /\
        (forall i e, ex_store (a_tab st) !! i = Some e -> exists ep, ex_store (a_tab (fr_auth r)) !! i = Some (set_m_export e ep) /\ cached e ep) /\
        ((exists t, t ∈ ts /\ allowed ns st dom ai (t_exp t) = true /\ t_result t = Some true /\ mounted fs' (t_exp t) = true /\
            fr_reply r = fh_reply dom type fsid (Some (t_path t)) /\ fr_retry r = false) \/
         (fr_reply r = fh_reply dom type fsid None /\ fr_retry r = false /\
            forall t, t ∈ ts -> allowed ns st dom ai (t_exp t) = true -> t_mounted t = true /\ t_result t = Some false) \/
         (fr_reply r = None /\ fr_retry r = true /\
            exists t, t ∈ ts /\ asked st dom (t_exp t) = true /\
              (t_mounted t = false \/ t_result t = None \/ mounted fs' (t_exp t) = false)))
    end.
Proof.
  intros Hre Hst Hok. unfold fh_lookup. rewrite Hre. cbn [mbind option_bind].
  destruct (requester ns st dom) as [ai|] eqn:Eai; [|by eexists]. specialize (Hok ai eq_refl).
  destruct (fh_types_inv ns strip_root fsidnum_by_path path_by_fsidnum touch st L dom ai parsed fs Hok mcl_types (fs, false) []
              (FhState st None 0 fs false) Hst) as (s & -> & [Hv _ Ha _ Hs Hseen Hf Hn Hm Hall Hsome]).
  { exact (all_of_NoDup _ _ Hst). }
  { split; cbn; try done; try (intros; by match goal with H : _ ∈ [] |- _ => apply elem_of_nil in H end).
    - by destruct st as [[] ? ? ? ? ? ?].
    - intros i e E. exists (m_export e). rewrite E. split_and!; [by destruct e| |done]. exists (e_fsid_value (m_export e)). by destruct (m_export e). }
  cbn [app mbind option_bind] in *. change (concat (map L mcl_types)) with (all_of L) in *.
  set (ts := trials _ _ _ _ _ _ _ _) in *. set (fs' := (last_view _ _ _ _ _ _).1).
  assert (fh_fs s = fs') as Hfs by (unfold fs'; by rewrite <- Hv).
  assert (forall i e, ex_store (a_tab st) !! i = Some e -> exists ep, ex_store (a_tab (fh_auth s)) !! i = Some (set_m_export e ep) /\ cached e ep) as Hst'.
  { intros i e E. destruct (Hs i e E) as (ep & H1 & H2 & _). eauto. }
  rewrite Forall_forall in Hseen. destruct (fh_found s) as [[id path]|] eqn:Ef.
  - destruct (Hf id path eq_refl) as (t & Hin & <- & <- & Hal & Hr). destruct (Hseen t Hin) as (Hid & E).
    destruct (Hst' _ _ E) as (ep & E' & Hc). rewrite E'. cbn [mbind option_bind m_export set_m_export].
    assert (mountpoint_of ep = mountpoint_of (m_export (t_exp t))) as -> by (by destruct Hc as [w ->]). rewrite Hfs.
    assert (match mountpoint_of (m_export (t_exp t)) with Some mp => negb (fst (is_mountpoint fs' mp)) | None => false end = negb (mounted fs' (t_exp t))) as ->.
    { unfold mounted. by destruct (mountpoint_of _). }
    destruct (mounted fs' (t_exp t)) eqn:Emt; (eexists; split; [reflexivity|]; split; [done|]; split; [done|]).
    + left. exists t. by split_and!.
    + right; right. split; [done|]. split; [done|]. exists t. split_and!; [done|by eapply allowed_asked|]. auto.
  - destruct (0 <? fh_missing s) eqn:Em; (eexists; split; [reflexivity|]; split; [done|]; split; [done|]); right.
    + right. split; [done|]. split; [done|]. apply Z.ltb_lt in Em. destruct (Hsome Em) as (t & Hin & Hask & Hr). exists t. split_and!; [done..|]. tauto.
    + left. split; [done|]. split; [done|]. apply Z.ltb_ge in Em. intros t Hin Hal.
      destruct (Hall ltac:(lia) t Hin (allowed_asked _ _ _ _ _ Hal)) as [Hmt Hne]. split; [done|].
      pose proof (Hn eq_refl t Hin Hal) as Hnt. by destruct (t_result t) as [[]|].
Qed.

(** An export of /srv, a file system of its own that has the number 1 and no
    UUID: the first request for it by UUID caches the number. *)
Definition uuid_ent : exportent := set_flags ent_ex 0.
Definition uuid_tab : extab := match export_create ns_ex false empty_tab uuid_ent false with Some (_, st) => st | None => empty_tab end.
Definition uuid_auth : auth := Auth uuid_tab 0 false 0 None 0 false.
Definition fs_uuid : vfs :=
  Vfs (fun _ => inr 38) (fun p => if streq p $"/srv" then inl (Stat 2 2 true false) else inl (Stat 1 2 true false)) (fun _ => inr ENOENT)
    (fun _ => Some (Statfs 0x2fc12fc1 1 0)) (fun _ => None) [].
Definition uuid1 : cstr := get_uuid $"0000000100000000" 16.
Definition parsed_uuid : parsed_fsid := Parsed FSID_UUID16 0 0 0 0 16 uuid1.

Lemma uuid_tab_ok : exists L, st_ok uuid_tab L.
Proof.
  destruct (export_create_some ns_ex false empty_tab (fun _ => []) uuid_ent false (Some 1%positive) uuid_tab empty_tab_ok eq_refl) as (L & H & _).
  by exists L.
Qed.

Lemma uuid_exports x e : ex_store uuid_tab !! x = Some e -> m_client e = 1%positive /\ m_export e = copy_ent uuid_ent.
Proof. intros E. vm_compute in E. destruct x as [x|x|]; [done|done|]. injection E as <-. split; vm_compute; reflexivity. Qed.

Lemma nfsd_fh_answer_witness :
  exists r, fh_lookup ns_ex Some (fun _ => None) (fun _ => None) (fun _ fs => fs) fs_uuid Some uuid_auth $"*" 6 parsed_uuid uuid1 = Some r /\
    fr_reply r = Some ($"* 6 \x00000001000000000000000000000000 2147483647 /srv " ++ [NL]) /\
    (fun e => e_fsid_value (m_export e)) <$> ex_store (a_tab (fr_auth r)) !! 1%positive = Some $"0000000100000000".
Proof.
  destruct uuid_tab_ok as [L HL].
  destruct (nfsd_fh_answer ns_ex Some (fun _ => None) (fun _ => None) (fun _ fs => fs) fs_uuid Some uuid_auth uuid_auth L $"*" 6 parsed_uuid uuid1
    eq_refl HL) as (r & E & _).
  - intros ai [= <-]. split.
    + intros x e _ Ex. destruct (uuid_exports x e Ex) as [-> _]. do 2 eexists. split; vm_compute; reflexivity.
    + intros fs x e y f Hfs _ Ex _ Ey. destruct (uuid_exports x e Ex) as [_ ->], (uuid_exports y f Ey) as [_ ->]. eexists. reflexivity.
  - exists r. split; [exact E|].
    assert ((fun r => (fr_reply r, (fun e => e_fsid_value (m_export e)) <$> ex_store (a_tab (fr_auth r)) !! 1%positive)) <$>
            fh_lookup ns_ex Some (fun _ => None) (fun _ => None) (fun _ fs => fs) fs_uuid Some uuid_auth $"*" 6 parsed_uuid uuid1
            = Some (Some ($"* 6 \x00000001000000000000000000000000 2147483647 /srv " ++ [NL]), Some $"0000000100000000")) as H by (vm_compute; reflexivity).
    rewrite E in H. by injection H.
Defined.

(** ** The cached number of a file system *)

(** The number of a file system is cached in the export without the path it
    was asked for: once it was taken from [statfs] for one path, every other path
    gets the UUID of that file system too, whatever [statfs] or libblkid say about
    it. *)
Lemma uuid_cache_ignores_path fs p1 p2 exp n u1 exp1 :
  uuid_by_path fs p1 exp 0 n = (Some u1, exp1) -> e_fsid_value exp1 <> [] ->
  uuid_by_path fs p2 exp1 0 n = (Some u1, exp1).
Proof.
  unfold uuid_by_path. cbn [Z.eqb negb]. intros H Hne. destruct (e_fsid_value exp) as [|a v] eqn:Ev.
  - destruct (v_statfs fs p1) as [st|]; [|done]. case_match; [injection H as _ <-; congruence|].
    destruct (_ || _); [|done]. destruct (pad0 _ _ ++ _) as [|c w] eqn:Ew; [done|]. injection H as <- <-. done.
  - injection H as <- <-. by rewrite Ev.
Qed.

(** Two file systems below one export, with the numbers 1 and 2. *)
Definition fs_two : vfs :=
  Vfs (fun _ => inr 38) (fun _ => inr ENOENT) (fun _ => inr ENOENT)
    (fun p => Some (Statfs 0x2fc12fc1 (if streq p $"/srv" then 1 else 2) 0)) (fun _ => None) [].

Example uuid_cache_two_systems :
  match uuid_by_path fs_two $"/srv" (cross_ent $"/srv") 0 16 with
  | (Some u1, exp1) => fst (uuid_by_path fs_two $"/srv/sub" exp1 0 16) = Some u1 /\
                       fst (uuid_by_path fs_two $"/srv/sub" (cross_ent $"/srv") 0 16) <> Some u1
  | _ => False
  end.
Proof.
  destruct (uuid_by_path fs_two $"/srv" (cross_ent $"/srv") 0 16) as [[u1|] exp1] eqn:E; [|vm_compute in E; discriminate].
  split.
  - rewrite (uuid_cache_ignores_path fs_two $"/srv" $"/srv/sub" (cross_ent $"/srv") 16 u1 exp1 E); [done|].
    vm_compute in E. injection E as _ <-. discriminate.
  - vm_compute in E. injection E as <- _. vm_compute. discriminate.
Defined.
