(* ===== verification/Upcall.v ===== *)
(** * The caches of the kernel (support/export/cache.c 98-229, 1081-1262, 1371-1420, 1575-1710, 1758-2010)

    What mountd and exportd write into the caches of the kernel: the client of
    an address, the groups of a user, the export of a path; the replies to
    requests, and what is put there before a file handle is asked for.  A reply is
    the sequence of the calls that append words to a buffer of 32768 bytes; it is
    written only if all of it fits. *)

From S2P Require Import Prelude Cacheio Exports ExportsRT Client ExportTab Xio Xtab V4root Auth Lookup Fsloc Fsid.

(** ** Words *)

Inductive qcall := Qadd (s : cstr) | Qaddint (n : Z) | Qadduint (n : Z) | Qaddhex (b : cstr).

Definition emit (w : wbuf) (c : qcall) : wbuf :=
  match c with
  | Qadd s => qword_add w s
  | Qaddint n => qword_addint w n
  | Qadduint n => qword_adduint w (u32 n)
  | Qaddhex b => qword_addhex w b
  end.

(** The line, or [None] when the buffer is too small. *)
Definition chan_line (calls : list qcall) : option cstr :=
  let w := qword_addeol (foldl emit (WBuf [] RPC_CHAN_BUF_SIZE) calls) in
  if w_len w <=? 0 then None else Some (w_out w).

(** ** An export for the kernel *)

Definition can_reexport_via_fsidnum (exp : exportent) (st : statfs) : bool :=
  if negb (f_type st =? 0x6969) then false
  else match e_reexport exp with REEXP_NONE => false | _ => true end.

(** [None]: a stray pointer is followed. *)
Definition write_fsloc (ep : exportent) : option (list qcall) :=
  match e_fslocmethod ep with
  | FSLOC_NONE => Some []
  | m =>
      data ← e_fslocdata ep;
      match replicas_lookup m data with
      | None => Some []
      | Some sp =>
          mps ← server_list sp;
          Some ([Qadd $"fsloc"; Qaddint (Z.of_nat (h_num sp))] ++ concat (map (fun mp => [Qadd (h_host mp); Qadd (h_path mp)]) mps)
                ++ [Qaddint (if h_referral sp then 1 else 0)])
      end
  end.

Definition write_secinfo (secinfo_flags : Z) (ep : exportent) (mask : Z -> Z) (extra_flag : Z) : list qcall * exportent :=
  match e_secinfo ep with
  | [] => ([], ep)
  | _ =>
      let ep := fix_pseudoflavor_flags secinfo_flags ep in
      ([Qadd $"secinfo"; Qaddint (Z.of_nat (length (e_secinfo ep)))]
       ++ concat (map (fun p => [Qaddint (fnum (what p)); Qaddint (mask (Z.lor (flags p) extra_flag))]) (e_secinfo ep)), ep)
  end.

Definition write_xprtsec (ep : exportent) : list qcall :=
  match e_xprtsec ep with
  | [] => []
  | l => [Qadd $"xprtsec"; Qaddint (Z.of_nat (length l))] ++ map (fun p => Qaddint (xnumber (what p))) l
  end.

(** The outcome of [dump_to_cache]: what was handed to the kernel, whether it
    was taken, and the entry, where a number may now be cached. *)
Record dump_result := Dump { dp_text : option cstr; dp_ok : bool; dp_exp : exportent }.

Section upcall.
  Context (ns : resolver) (fs : vfs) (strip_root : cstr -> option cstr).
  (** The flags of the kernel that depend on the flavor; the number of a path in
      the re-export database, which may be told to make one up; whether the kernel
      takes a line. *)
  Context (secinfo_flags : Z) (fsidnum_by_path : cstr -> bool -> option Z) (chan_write : cstr -> bool).

Definition dump_denied (now : Z) (domain path : cstr) (ttl : Z) : list qcall :=
  [Qadd domain; Qadd path; Qadduint (now + (if ttl =? 0 then default_ttl else ttl))].

(** The words for an export; [inl]: EINVAL. *)
Definition dump_words (now : Z) (domain path : cstr) (exp : exportent) : option (unit + (list qcall * exportent)) :=
  let different_fs := negb (streq path (e_path exp)) in
  let plain := fun f => f in
  let masked := fun f => Z.ldiff f NFSEXP_FSID in
  match (if different_fs then
           match v_statfs fs path with
           | None => None
           | Some st => if can_reexport_via_fsidnum exp st then Some (true, plain) else Some (false, masked)
           end
         else Some (false, plain)) with
  | None => Some (inl tt)
  | Some (do_fsidnum, mask) =>
      match (if (do_fsidnum : bool)
             then fsidnum_by_path path (match e_reexport exp with REEXP_AUTO_FSIDNUM => true | _ => false end)
             else Some (e_fsid exp)) with
      | None => Some (inl tt)
      | Some fsidnum =>
          let fl := if do_fsidnum then Z.lor (e_flags exp) NFSEXP_FSID else mask (e_flags exp) in
          fsloc ← write_fsloc exp;
          let '(sec, exp) := write_secinfo secinfo_flags exp mask (if do_fsidnum then NFSEXP_FSID else 0) in
          let '(uuid, exp) :=
            match e_uuid exp, different_fs with
            | Some u, false => ([Qadd $"uuid"; Qaddhex (get_uuid u 16)], exp)
            | _, _ =>
                if negb (has_flag (mask (e_flags exp)) NFSEXP_FSID) then
                  match uuid_by_path fs path exp 0 16 with
                  | (Some u, exp) => ([Qadd $"uuid"; Qaddhex u], exp)
                  | (None, exp) => ([], exp)
                  end
                else ([], exp)
            end in
          Some (inr ([Qadd domain; Qadd path; Qadduint (now + e_ttl exp); Qaddint fl; Qaddint (e_anonuid exp); Qaddint (e_anongid exp);
                      Qaddint (i32 fsidnum)] ++ fsloc ++ sec ++ uuid ++ write_xprtsec exp, exp))
      end
  end.

Definition dump_line (calls : list qcall) (exp : exportent) : dump_result :=
  match chan_line calls with
  | None => Dump None false exp
  | Some text => Dump (Some text) (chan_write text) exp
  end.

Definition dump_to_cache (now : Z) (domain path : cstr) (exp : exportent) : option dump_result :=
  r ← dump_words now domain path exp;
  Some (match r with
        | inl _ => Dump None false exp
        | inr (calls, exp) => dump_line calls exp
        end).

(** Without an export, [dump_to_cache(..., NULL, ttl)]. *)
Definition deny (now : Z) (domain path : cstr) (ttl : Z) : option cstr := chan_line (dump_denied now domain path ttl).

(** ** Requests for an export *)

(** What is written, one after the other, and the state. *)
Definition reply := (list cstr * auth)%type.

Definition put_export (st : auth) (id : positive) (e : exportent) : auth :=
  set_tab st (set_store (a_tab st) (alter (fun exp => set_m_export exp e) id (ex_store (a_tab st)))).

(** Up from [parent], by a component each time. *)
Fixpoint parent_loop (fuel : nat) (static_ee : exportent) (st : auth) (dom parent : cstr) (ai : option addrinfo) : option (option exportent * auth) :=
  let out_default := snd (mkexportent secinfo_flags fsidnum_by_path static_ee $"*" $"/" (Some $"insecure")) in
  let exp_of (st : auth) id := m_export <$> ex_store (a_tab st) !! id in
  match fuel with
  | O => None
  | S fuel =>
      match before_last_slash parent with
      | None => Some (out_default, st)
      | Some [] =>
          '(r, st) ← lookup_export ns fs st dom $"/" ai;
          match r with
          | None => Some (out_default, st)
          | Some id => e ← exp_of st id; Some (Some e, st)
          end
      | Some parent =>
          '(r, st) ← lookup_export ns fs st dom parent ai;
          match r with
          | None => parent_loop fuel static_ee st dom parent ai
          | Some id => e ← exp_of st id; Some (Some e, st)
          end
      end
  end.
Definition lookup_parent_export (static_ee : exportent) (st : auth) (dom pathname : cstr) (ai : option addrinfo) : option (option exportent * auth) :=
  parent_loop (S (length pathname)) static_ee st dom pathname ai.

(** [locations]: what the junction code read from the path, if it is a junction. *)
Definition lookup_junction (static_ee : exportent) (locations : cstr -> option (list nfs_fsloc)) (st : auth) (dom pathname : cstr)
    (ai : option addrinfo) : option (option exportent * auth) :=
  match locations pathname with
  | None => Some (None, st)
  | Some locs =>
      '(parent, st) ← lookup_parent_export static_ee st dom pathname ai;
      match parent with
      | None => Some (None, st)
      | Some parent => e ← locations_to_export locs pathname parent; Some (e, st)
      end
  end.

Definition opt_list (o : option cstr) : list cstr := match o with Some t => [t] | None => [] end.

Definition lookup_nonexport (static_ee : exportent) (locations : cstr -> option (list nfs_fsloc)) (now : Z) (st : auth) (dom path : cstr)
    (ai : option addrinfo) : option reply :=
  '(eep, st) ← lookup_junction static_ee locations st dom path ai;
  match eep with
  | None => Some (opt_list (deny now dom path 0), st)
  | Some eep => d ← dump_to_cache now dom path eep; Some (opt_list (dp_text d), st)
  end.

Definition answer_export (now : Z) (st : auth) (dom path : cstr) (id : positive) : option reply :=
  found ← ex_store (a_tab st) !! id;
  let export :=
    d ← dump_to_cache now dom path (m_export found);
    let st := put_export st id (dp_exp d) in
    Some (opt_list (dp_text d) ++ (if dp_ok d then [] else opt_list (deny now dom path 0)), st) in
  match mountpoint_of (m_export found) with
  | None => export
  | Some mp =>
      match is_mountpoint fs mp with
      | (true, _) => export
      | (false, Some err) => if negb (err =? 0) && negb (path_lookup_error err) then Some ([], st)
                             else Some (opt_list (deny now dom path 60), st)
      | (false, None) => Some (opt_list (deny now dom path 60), st)
      end
  end.

(** [inbuf]: what was read from the channel. *)
Definition request_line (inbuf : cstr) : option cstr :=
  match last inbuf with
  | Some c => if ceqb c NL then Some (cstr_of (take (length inbuf - 1) inbuf)) else None
  | None => None
  end.

Definition nfsd_export (reload : auth -> option auth) (static_ee : exportent) (locations : cstr -> option (list nfs_fsloc)) (now : Z) (st : auth)
    (inbuf : cstr) : option reply :=
  let nothing := Some ([], st) in
  match request_line inbuf with
  | None => nothing
  | Some buf =>
      let blen := Z.of_nat (length inbuf) in
      let q := qword_get buf blen in
      if q_ret q <=? 0 then nothing
      else
        let dom := cstr_of (q_dest q) in
        let q := qword_get (q_bp q) blen in
        if q_ret q <=? 0 then nothing
        else
          let path := cstr_of (q_dest q) in
          st ← reload st;
          match (if is_ipaddr_client dom then match lookup_client_addr ns st dom with Some ai => Some (Some ai) | None => None end else Some None) with
          | None => Some ([], st)
          | Some ai =>
              '(found, st) ← lookup_export ns fs st dom path ai;
              match found with
              | Some id => answer_export now st dom path id
              | None => lookup_nonexport static_ee locations now st dom path ai
              end
          end
  end.

(** ** Addresses and groups *)

Definition auth_unix_ip (reload : auth -> option auth) (now : Z) (st : auth) (inbuf : cstr) : option reply :=
  let nothing := Some ([], st) in
  match request_line inbuf with
  | None => nothing
  | Some buf =>
      let q := qword_get buf 20 in
      if (q_ret q <=? 0) || negb (streq (cstr_of (q_dest q)) $"nfsd") then nothing
      else
        let q := qword_get (q_bp q) 46 in
        if q_ret q <=? 0 then nothing
        else
          let ipaddr := cstr_of (q_dest q) in
          match host_pton ns ipaddr with
          | None => nothing
          | Some tmp =>
              st ← reload st;
              client ← (match client_resolve ns (ex_clients (a_tab st)) (ai_addr tmp) with
                        | Some ai => client_compose ns (ex_clients (a_tab st)) ai
                        | None => Some None
                        end);
              let name := match client with
                          | None => []
                          | Some c => if negb (use_ipaddr st =? 0) then [Qadd ("$"%char :: ipaddr)]
                                      else [Qadd match c with [] => $"DEFAULT" | _ => c end]
                          end in
              Some (opt_list (chan_line ([Qadd $"nfsd"; Qadd ipaddr; Qadduint (now + default_ttl)] ++ name)), st)
          end
  end.

(** [getgrouplist]: the count, or the size that is needed. *)
Definition getgrouplist (size : Z) (groups : list Z) : (list Z + Z) :=
  let n := Z.of_nat (length groups) in if n <=? size then inl groups else inr n.

(** The user of a number, and the groups at two calls for them; the state is the
    length of the static array, 100 at first; [None] of [realloc]: it fails. *)
Definition auth_unix_gid (getpwuid : Z -> option (cstr * Z)) (grouplist : nat -> cstr -> Z -> list Z) (realloc : bool) (now groups_len : Z)
    (inbuf : cstr) : list cstr * Z :=
  let groups_len := if groups_len =? 0 then 100 else groups_len in
  match request_line inbuf with
  | None => ([], groups_len)
  | Some buf =>
      match qword_get_uint buf with
      | (_, None) => ([], groups_len)
      | (_, Some uid) =>
          let '(rv, groups_len) :=
            match getpwuid uid with
            | None => (None, groups_len)
            | Some (name, gid) =>
                match getgrouplist groups_len (grouplist 0%nat name gid) with
                | inl g => (Some g, groups_len)
                | inr n => if realloc then (match getgrouplist n (grouplist 1%nat name gid) with inl g => Some g | inr _ => None end, n)
                           else (None, groups_len)
                end
            end in
          let groups := match rv with
                        | Some g => Qadduint (Z.of_nat (length g)) :: map Qadduint g
                        | None => [Qadduint 0]
                        end in
          (opt_list (chan_line ([Qadduint uid; Qadduint (now + default_ttl)] ++ groups)), groups_len)
      end
  end.

(** ** Before a file handle is asked for *)

(** The directories below the one that ends at [l], up to [path]: what is
    written for them. *)
Fixpoint subdirs (fuel : nat) (before rest : cstr) : list cstr :=
  match fuel, rest with
  | S fuel, c :: rest =>
      let '(w, rest) := span (fun c => negb (ceqb c "/")) rest in
      (before ++ c :: w) :: subdirs fuel (before ++ c :: w) rest
  | _, _ => []
  end.

(** Whether [path] is below [exp_path], and the rest of it. *)
Definition below (exp_path path : cstr) : option cstr :=
  let l := length exp_path in
  if (length path <=? l)%nat || negb (ceqb (at_index path l) "/") || negb (starts_with exp_path path) then None
  else Some (drop l path).

Definition cache_expire_subdirs (now : Z) (exp_path domain path : cstr) : list cstr :=
  match below exp_path path with
  | None => []
  | Some rest => omap (fun dir => deny now domain dir (-10)) (subdirs (length rest) exp_path rest)
  end.

(** Along [path], the file systems other than the one before: the devices
    decide. *)
Fixpoint submount_loop (fuel : nat) (now : Z) (domain before rest : cstr) (dev : Z) (exp : exportent) : option (list cstr * exportent) :=
  match fuel, rest with
  | S fuel, c :: rest =>
      if negb (ceqb c "/") then Some ([], exp)
      else
        let '(w, rest) := span (fun c => negb (ceqb c "/")) rest in
        let dir := before ++ c :: w in
        match v_lstat fs dir with
        | inr _ => Some ([], exp)
        | inl stb =>
            if st_dev stb =? dev then submount_loop fuel now domain dir rest dev exp
            else d ← dump_to_cache now domain dir exp;
                 '(out, exp) ← submount_loop fuel now domain dir rest (st_dev stb) (dp_exp d);
                 Some (opt_list (dp_text d) ++ out, exp)
        end
  | _, _ => Some ([], exp)
  end.

(** What is written, whether it failed, the entry. *)
Definition cache_export_ent (now : Z) (domain : cstr) (exp : exportent) (path : option cstr) : option (list cstr * bool * exportent) :=
  d ← dump_to_cache now domain (e_path exp) exp;
  let exp := dp_exp d in
  let nothing := Some (opt_list (dp_text d), dp_ok d, exp) in
  if negb (dp_ok d) || negb (has_flag (e_flags exp) NFSEXP_CROSSMOUNT) then nothing
  else
    match path with
    | None => nothing
    | Some path =>
        match below (e_path exp) path, v_stat fs (e_path exp) with
        | Some rest, inl stb =>
            '(out, exp) ← submount_loop (length rest) now domain (e_path exp) rest (st_dev stb) exp;
            Some (opt_list (dp_text d) ++ out, dp_ok d, exp)
        | _, _ => nothing
        end
    end.

(** The address of the client, then the export. *)
Definition cache_export (now : Z) (domain : cstr) (addr : sockaddr) (exp : exportent) (path : cstr) : option (list cstr * bool * exportent) :=
  match chan_line [Qadd $"nfsd"; Qadd (host_ntop ns addr); Qadduint (now + e_ttl exp); Qadd domain] with
  | None => Some ([], false, exp)
  | Some text =>
      if negb (chan_write text) then Some ([text], false, exp)
      else '(out, ok, exp) ← cache_export_ent now domain exp (Some path); Some (text :: out, ok, exp)
  end.

(** [answer]: what the kernel gives back for a request, if it takes it. *)
Definition cache_get_filehandle (answer : cstr -> option cstr) (domain path : cstr) (len : Z) : option (Z * cstr) :=
  match chan_line [Qadd domain; Qadd path; Qaddint len] with
  | None => None
  | Some text =>
      match answer text with
      | None => None
      | Some buf => match request_line buf with
                    | None => None
                    | Some buf => let q := qword_get buf 64 in Some (q_ret q, q_dest q)
                    end
      end
  end.
End upcall.

(** ** What reaches the kernel *)

Definition call_text (c : qcall) : cstr :=
  match c with
  | Qadd s => qencode s ++ [SP]
  | Qaddint n => itoa n ++ [SP]
  | Qadduint n => utoa 10 (u32 n) ++ [SP]
  | Qaddhex b => [BSLASH; "x"%char] ++ hexencode b ++ [SP]
  end.
Definition line_text (calls : list qcall) : cstr := concat (map call_text calls) ++ [NL].

Lemma qword_addnum_spec w text : 0 < w_len w ->
  if Z.of_nat (length text) <? w_len w then qword_addnum w text = WBuf (w_out w ++ text) (w_len w - Z.of_nat (length text))
  else w_len (qword_addnum w text) <= 0.
Proof.
  intros Hw. unfold qword_addnum. rewrite (proj2 (Z.ltb_ge (w_len w) 0)) by lia. destruct (_ <? w_len w) eqn:E.
  - rewrite (proj2 (Z.ltb_ge (w_len w) _)) by lia. f_equal. unfold snprintf_bytes. f_equal.
    rewrite take_app_le by (rewrite length_take; lia). rewrite !take_ge; [done|lia|rewrite take_ge; lia].
  - destruct (w_len w <? Z.of_nat (length text)) eqn:E2; cbn [w_len]; lia.
Qed.

Lemma hexencode_length b : length (hexencode b) = (2 * length b)%nat.
Proof. induction b as [|c b IH]; [done|]. cbn. unfold hexencode in IH. rewrite IH. lia. Qed.

Lemma qword_addhex_loop_short buf out len : 0 <= len < 2 * Z.of_nat (length buf) -> fst (fst (qword_addhex_loop buf out len)) <> [].
Proof.
  revert out len; induction buf as [|c buf IH]; intros out len H; [cbn in H; lia|]. cbn [qword_addhex_loop length] in *.
  destruct (2 <=? len) eqn:E; [|done]. apply IH. lia.
Qed.

Lemma qword_addhex_short w b : b <> [] -> 0 <= w_len w < 2 * Z.of_nat (length b) + 3 -> w_len (qword_addhex w b) <= 0.
Proof.
  intros Hb H. unfold qword_addhex. rewrite (proj2 (Z.ltb_ge _ 0)) by lia. destruct (2 <? w_len w) eqn:E.
  - destruct (Z_lt_dec (w_len w - 2) (2 * Z.of_nat (length b))).
    + pose proof (qword_addhex_loop_short b (w_out w ++ [BSLASH; "x"%char]) (w_len w - 2) ltac:(lia)) as Hs.
      destruct (qword_addhex_loop _ _ _) as [[r o] l']. cbn in Hs. destruct r; [done|]. cbn. lia.
    + rewrite qword_addhex_loop_fits by lia. rewrite (proj2 (Z.ltb_lt _ 1)) by lia. cbn. lia.
  - destruct b; cbn; [done|lia].
Qed.

(** With nothing to encode not even the prefix is written when it does not fit. *)
Definition call_ok (c : qcall) : Prop := match c with Qaddhex [] => False | _ => True end.

(** A word fits, or there is no room left. *)
Lemma emit_spec w c : call_ok c -> 0 < w_len w ->
  if Z.of_nat (length (call_text c)) <? w_len w
  then emit w c = WBuf (w_out w ++ call_text c) (w_len w - Z.of_nat (length (call_text c)))
  else w_len (emit w c) <= 0.
Proof.
  intros Hc Hw. destruct c as [s|n|n|b]; cbn [emit call_text]; [|by apply qword_addnum_spec|by apply qword_addnum_spec|].
  - destruct (qword_add_spec w s ltac:(lia)) as [Hs _]. rewrite length_app. cbn [length]. destruct (Z.ltb_spec (Z.of_nat (length (qencode s) + 1)) (w_len w)) as [E|E].
    + rewrite qword_add_fits by lia. f_equal. lia.
    + destruct (Z.of_nat (length (qencode s)) <? w_len w) eqn:E2; [|lia]. destruct Hs as [_ ->]. lia.
  - assert (b <> []) as Hb by (by destruct b). clear Hc. rewrite !length_app, hexencode_length. cbn [length]. destruct (Z.ltb_spec (Z.of_nat (2 + (2 * length b + 1))) (w_len w)) as [E|E].
    + rewrite qword_addhex_fits by lia. f_equal. lia.
    + destruct (Z_lt_dec (w_len w) (2 * Z.of_nat (length b) + 3)); [apply qword_addhex_short; [done|lia]|].
      rewrite qword_addhex_fits by lia. cbn. lia.
Qed.

Lemma emit_stuck w c : call_ok c -> w_len w <= 0 -> w_len (emit w c) <= 0.
Proof.
  intros Hc Hw. assert (forall t, w_len (qword_addnum w t) <= 0) as Hn.
  { intros t. unfold qword_addnum. destruct (w_len w <? Z.of_nat (length t)) eqn:E, (w_len w <? 0) eqn:E2; cbn [w_len]; lia. }
  destruct c as [s|n|n|b]; cbn [emit]; [|apply Hn|apply Hn|].
  - destruct (Z.eq_dec (w_len w) 0) as [E|].
    + destruct (qword_add_spec w s ltac:(lia)) as [Hs _]. destruct (_ <? _) eqn:E2; [destruct Hs as [_ ->]|]; lia.
    + unfold qword_add. rewrite (proj2 (Z.ltb_lt _ 0)) by lia. done.
  - destruct (Z.eq_dec (w_len w) 0) as [E|]; [apply qword_addhex_short; [by destruct b|]; destruct b; [done|cbn [length]; lia]|].
    unfold qword_addhex. rewrite (proj2 (Z.ltb_lt _ 0)) by lia. done.
Qed.

Lemma emits_stuck calls w : Forall call_ok calls -> w_len w <= 0 -> w_len (foldl emit w calls) <= 0.
Proof. intros Hc. revert w; induction Hc as [|c calls Hc _ IH]; intros w H; [done|]. cbn [foldl]. by apply IH, emit_stuck. Qed.

Lemma emits_spec calls w : Forall call_ok calls -> 0 < w_len w ->
  let text := concat (map call_text calls) in
  if Z.of_nat (length text) <? w_len w then foldl emit w calls = WBuf (w_out w ++ text) (w_len w - Z.of_nat (length text))
  else w_len (foldl emit w calls) <= 0.
Proof.
  intros Hok. revert w; induction Hok as [|c calls Hc0 Hok IH]; intros w Hw.
  { cbn. rewrite (proj2 (Z.ltb_lt _ _)) by lia. rewrite app_nil_r, Z.sub_0_r. by destruct w. }
  cbn [map concat foldl] in *. rewrite length_app. pose proof (emit_spec w c Hc0 Hw) as Hc. destruct (Z.of_nat (length (call_text c)) <? w_len w) eqn:E.
  - rewrite Hc. specialize (IH (WBuf (w_out w ++ call_text c) (w_len w - Z.of_nat (length (call_text c)))) ltac:(cbn; lia)). cbn [w_len w_out] in IH.
    destruct (_ <? w_len w - _) eqn:E2.
    + rewrite (proj2 (Z.ltb_lt _ _)) by lia. rewrite IH, <- app_assoc. f_equal. lia.
    + rewrite (proj2 (Z.ltb_ge _ _)) by lia. done.
  - rewrite (proj2 (Z.ltb_ge _ _)) by lia. by apply emits_stuck.
Qed.

(** The whole line, or nothing. *)
Lemma chan_line_exact calls : Forall call_ok calls ->
  chan_line calls = if Z.of_nat (length (line_text calls)) <? RPC_CHAN_BUF_SIZE then Some (line_text calls) else None.
Proof.
  intros Hok. unfold chan_line, line_text. pose proof (emits_spec calls (WBuf [] RPC_CHAN_BUF_SIZE) Hok ltac:(done)) as H. cbn [w_len w_out app] in H.
  rewrite length_app. cbn [length]. set (t := concat (map call_text calls)) in *.
  destruct (Z.ltb_spec (Z.of_nat (length t)) RPC_CHAN_BUF_SIZE) as [E|E].
  - rewrite H. unfold qword_addeol. cbn [w_len w_out].
    rewrite (proj2 (Z.leb_gt (RPC_CHAN_BUF_SIZE - Z.of_nat (length t)) 0)) by lia. cbn [w_len w_out].
    destruct (Z.ltb_spec (Z.of_nat (length t + 1)) RPC_CHAN_BUF_SIZE).
    + by rewrite (proj2 (Z.leb_gt _ 0)) by lia.
    + by rewrite (proj2 (Z.leb_le _ 0)) by lia.
  - rewrite (proj2 (Z.ltb_ge (Z.of_nat (length t + 1)) _)) by lia. unfold qword_addeol. rewrite (proj2 (Z.leb_le _ 0) H).
    by rewrite (proj2 (Z.leb_le _ 0) H).
Qed.

(** Reading the first two words of a line, as the kernel does. *)
Definition first_words (line : cstr) : cstr * cstr :=
  let q := qword_get line RPC_CHAN_BUF_SIZE in
  (cstr_of (q_dest q), cstr_of (q_dest (qword_get (q_bp q) RPC_CHAN_BUF_SIZE))).

Lemma cstr_of_nul s : no_nul s -> cstr_of (s ++ [NUL]) = s.
Proof.
  unfold cstr_of. induction 1 as [|c s Hc _ IH]; [done|]. cbn [app span]. rewrite (proj2 (ceqb_false _ _) Hc). cbn [negb].
  destruct (span _ (s ++ [NUL])) as [a b]. cbn in *. by rewrite IH.
Qed.

Lemma qencode_length s : (length s <= length (qencode s))%nat.
Proof. induction s as [|c s IH]; [done|]. rewrite qencode_cons_length. cbn [length]. destruct (must_quote c); lia. Qed.

Lemma chan_line_words a b rest line :
  Forall call_ok rest -> a <> [] -> no_nul a -> b <> [] -> no_nul b -> chan_line (Qadd a :: Qadd b :: rest) = Some line -> first_words line = (a, b).
Proof.
  intros Hok Ha Ha0 Hb Hb0 H. rewrite chan_line_exact in H by (by repeat constructor). destruct (_ <? _) eqn:E; [|done]. apply Z.ltb_lt in E. injection H as <-. unfold line_text in *.
  cbn [map concat call_text] in *. rewrite <- !app_assoc in E |- *. rewrite !length_app in E. cbn [length] in E.
  pose proof (qencode_length a). pose proof (qencode_length b). unfold RPC_CHAN_BUF_SIZE in *.
  assert (skip_while is_space_char (qencode b ++ [SP] ++ concat (map call_text rest) ++ [NL])
          = qencode b ++ [SP] ++ concat (map call_text rest) ++ [NL]) as Hsk.
  { apply qencode_head; done. }
  unfold first_words. rewrite (qword_get_encoded a) by (done || (unfold RPC_CHAN_BUF_SIZE; lia)). cbn [q_dest q_bp]. rewrite Hsk.
  rewrite (qword_get_encoded b) by (done || (unfold RPC_CHAN_BUF_SIZE; lia)). cbn [q_dest]. by rewrite !cstr_of_nul.
Qed.

Lemma get_uuid_length v n : length (get_uuid v n) = n.
Proof.
  unfold get_uuid. generalize 0%nat. assert (length (replicate n NUL) = n) as H by apply length_replicate. revert H. generalize (replicate n NUL).
  induction v as [|c v IH]; intros u Hu i; [done|]. cbn [get_uuid_loop]. destruct (negb _); [by apply IH|]. apply IH. by rewrite length_alter.
Qed.

Lemma uuid_by_path_length fs path exp n u exp' : uuid_by_path fs path exp 0 n = (Some u, exp') -> length u = n.
Proof.
  unfold uuid_by_path. cbn [Z.eqb negb]. destruct (e_fsid_value exp); [|intros [= <- _]; apply get_uuid_length].
  destruct (v_statfs fs path); [|done]. case_match; [intros [= <- _]; apply get_uuid_length|].
  destruct (_ || _); [|done]. destruct (pad0 _ _ ++ _); [done|]. intros [= <- _]. apply get_uuid_length.
Qed.

Lemma call_ok_hex u : length u = 16%nat -> call_ok (Qaddhex u).
Proof. by destruct u. Qed.

Lemma write_fsloc_ok ep l : write_fsloc ep = Some l -> Forall call_ok l.
Proof.
  assert (forall l', Forall call_ok (concat (map (fun mp => [Qadd (h_host mp); Qadd (h_path mp)]) l'))) as Hl.
  { induction l'; cbn; by repeat constructor. }
  unfold write_fsloc. destruct (e_fslocmethod ep); [by intros [= <-]|..]; (destruct (e_fslocdata ep); [|done]); cbn [mbind option_bind replicas_lookup];
    (destruct (server_list _); [|done]); cbn [mbind option_bind]; intros [= <-]; repeat constructor; apply Forall_app; (split; [apply Hl|by repeat constructor]).
Qed.

Lemma write_secinfo_ok m ep mask x : Forall call_ok (fst (write_secinfo m ep mask x)).
Proof.
  unfold write_secinfo. destruct (e_secinfo ep) as [|p l]; [constructor|]. cbn [fst]. repeat constructor.
  generalize (e_secinfo (fix_pseudoflavor_flags m ep)). intros l'. induction l'; cbn; by repeat constructor.
Qed.

Lemma write_xprtsec_ok ep : Forall call_ok (write_xprtsec ep).
Proof. unfold write_xprtsec. destruct (e_xprtsec ep) as [|p l]; repeat constructor. induction l; cbn; by constructor. Qed.

Lemma dump_words_ok fs m db now domain path exp calls exp' :
  dump_words fs m db now domain path exp = Some (inr (calls, exp')) ->
  exists rest, calls = Qadd domain :: Qadd path :: rest /\ Forall call_ok rest.
Proof.
  unfold dump_words. intros H. destruct (if negb (streq path (e_path exp)) then _ else _) as [[do_fsidnum mask]|]; [|done].
  destruct (if do_fsidnum then _ else _) as [fsidnum|]; [|done].
  destruct (write_fsloc exp) as [fsloc|] eqn:Ef; [|done]. cbn [mbind option_bind] in H.
  pose proof (write_fsloc_ok _ _ Ef) as Hf. pose proof (write_secinfo_ok m exp mask (if do_fsidnum then NFSEXP_FSID else 0)) as Hs.
  destruct (write_secinfo _ _ _ _) as [sec exp1]. cbn [fst] in Hs.
  assert (forall u e, ((if negb (has_flag (mask (e_flags exp1)) NFSEXP_FSID) then
      match uuid_by_path fs path exp1 0 16 with (Some u, exp) => ([Qadd $"uuid"; Qaddhex u], exp) | (None, exp) => ([], exp) end
      else ([], exp1)) = (u, e)) -> Forall call_ok u) as Hu.
  { intros u e Hq. destruct (negb (has_flag (mask (e_flags exp1)) NFSEXP_FSID)); [|by simplify_eq; constructor]. destruct (uuid_by_path fs path exp1 0 16) as [[v|] ev] eqn:Eu;
      simplify_eq; repeat constructor. apply call_ok_hex. by eapply uuid_by_path_length. }
  destruct (match e_uuid exp1, negb (streq path (e_path exp)) with Some u, false => _ | _, _ => _ end) as [uuid exp2] eqn:Eu.
  injection H as <- <-. eexists. split; [reflexivity|]. repeat constructor. repeat (apply Forall_app; split); [done|done| |apply write_xprtsec_ok].
  destruct (e_uuid exp1) as [u|]; [destruct (negb (streq _ _))|].
  - by eapply Hu.
  - injection Eu as <- _. repeat constructor. by apply call_ok_hex, get_uuid_length.
  - by eapply Hu.
Qed.

(** What [dump_to_cache] hands to the kernel is the whole line or nothing: if
    there is a line, it is the encoding of all its words, in order, it fits the
    buffer, and its first two words are read back as the domain and the path; if
    there is none, the call fails, and either the path has no file system or
    number of its own, or the line does not fit. *)
Theorem dump_to_cache_line fs m db chan_write now domain path exp d :
  domain <> [] -> no_nul domain -> path <> [] -> no_nul path -> dump_to_cache fs m db chan_write now domain path exp = Some d ->
  match dp_text d with
  | Some line => exists calls exp', dump_words fs m db now domain path exp = Some (inr (calls, exp')) /\ line = line_text calls /\
      Z.of_nat (length line) < RPC_CHAN_BUF_SIZE /\ first_words line = (domain, path) /\ dp_ok d = chan_write line
  | None => dp_ok d = false /\
      (dump_words fs m db now domain path exp = Some (inl tt) \/
       exists calls exp', dump_words fs m db now domain path exp = Some (inr (calls, exp')) /\ RPC_CHAN_BUF_SIZE <= Z.of_nat (length (line_text calls)))
  end.
Proof.
  intros Hd Hd0 Hp Hp0 H. unfold dump_to_cache in H. destruct (dump_words fs m db now domain path exp) as [[[]|[calls exp']]|] eqn:E; [|..|done];
    cbn [mbind option_bind] in H; injection H as <-; [cbn; auto|].
  destruct (dump_words_ok _ _ _ _ _ _ _ _ _ E) as (rest & -> & Hok). unfold dump_line.
  destruct (chan_line (Qadd domain :: Qadd path :: rest)) as [line|] eqn:El; cbn [dp_text dp_ok].
  - pose proof (chan_line_words domain path rest line Hok Hd Hd0 Hp Hp0 El) as Hw.
    rewrite chan_line_exact in El by (by repeat constructor). destruct (Z.ltb_spec (Z.of_nat (length (line_text (Qadd domain :: Qadd path :: rest)))) RPC_CHAN_BUF_SIZE); [|done].
    injection El as <-. eexists _, exp'. by split_and!.
  - split; [done|]. right. eexists _, exp'. split; [done|]. rewrite chan_line_exact in El by (by repeat constructor).
    destruct (Z.ltb_spec (Z.of_nat (length (line_text (Qadd domain :: Qadd path :: rest)))) RPC_CHAN_BUF_SIZE); done.
Qed.

Lemma dump_to_cache_line_witness :
  exists d line, dump_to_cache fs_two 15 (fun _ _ => None) (fun _ => true) 1000 $"*" $"/srv" ent_ex = Some d /\ dp_text d = Some line /\
    line = $"* /srv 1000 0 0 0 0 uuid \x00000001000000000000000000000000 " ++ [NL] /\ first_words line = ($"*", $"/srv").
Proof.
  destruct (dump_to_cache fs_two 15 (fun _ _ => None) (fun _ => true) 1000 $"*" $"/srv" ent_ex) as [d|] eqn:E; [|vm_compute in E; discriminate].
  pose proof (dump_to_cache_line fs_two 15 (fun _ _ => None) (fun _ => true) 1000 $"*" $"/srv" ent_ex d ltac:(done) ltac:(repeat constructor; done)
    ltac:(done) ltac:(repeat constructor; done) E) as H.
  assert (dp_text d = Some ($"* /srv 1000 0 0 0 0 uuid \x00000001000000000000000000000000 " ++ [NL])) as Ht.
  { vm_compute in E. injection E as <-. vm_compute. reflexivity. }
  rewrite Ht in H. destruct H as (calls & exp' & _ & _ & _ & Hw & _). eexists d, _. split; [done|]. split; [exact Ht|]. split; [done|exact Hw].
Defined.

(** Two file systems below one export get one UUID: when the number of the
    file system of a crossmnt export was taken from [statfs], the line for a
    file system mounted below it carries the UUID of the export's own file
    system, so that the file handles of both look alike to the kernel. *)
Theorem crossmnt_uuid_clash fs m db now domain e sub st c1 e1 c2 e2 :
  e_uuid e = None -> has_flag (e_flags e) NFSEXP_FSID = false -> e_path e <> sub ->
  v_statfs fs sub = Some st -> can_reexport_via_fsidnum e st = false ->
  dump_words fs m db now domain (e_path e) e = Some (inr (c1, e1)) -> e_fsid_value e1 <> [] ->
  dump_words fs m db now domain sub e1 = Some (inr (c2, e2)) ->
  exists u, Qaddhex u ∈ c1 /\ Qaddhex u ∈ c2.
Proof.
  intros Hu Hf Hne Hst Hre H1 Hv H2.
  assert (forall ep mask x, let r := snd (write_secinfo m ep mask x) in e_uuid r = e_uuid ep /\ e_flags r = e_flags ep /\ e_path r = e_path ep /\
    e_fsid_value r = e_fsid_value ep /\ e_reexport r = e_reexport ep) as Hsec.
  { intros ep mask x. unfold write_secinfo. by destruct (e_secinfo ep). }
  unfold dump_words in H1. rewrite streq_refl in H1. cbn [negb] in H1.
  destruct (write_fsloc e) as [fl1|]; [|done]. cbn [mbind option_bind] in H1.
  specialize (Hsec e (fun f => f) 0) as Hs1. destruct (write_secinfo m e (fun f => f) 0) as [s1 e']. cbn [snd] in Hs1.
  destruct Hs1 as (A1 & A2 & A3 & A4 & A5). rewrite A1, Hu, A2, Hf in H1. cbn [negb] in H1.
  destruct (uuid_by_path fs (e_path e) e' 0 16) as [[u|] e1'] eqn:Eu.
  2: { injection H1 as <- <-. unfold uuid_by_path in Eu. cbn [Z.eqb negb] in Eu. destruct (e_fsid_value e') eqn:Ev; [|done].
       assert (e1' = e') as ->; [|congruence]. destruct (v_statfs fs (e_path e)); [|by simplify_eq]. repeat case_match; by simplify_eq. }
  injection H1 as <- <-.
  assert (e_uuid e1' = None /\ e_flags e1' = e_flags e /\ e_path e1' = e_path e /\ e_reexport e1' = e_reexport e) as (B1 & B2 & B3 & B4).
  { unfold uuid_by_path in Eu. cbn [Z.eqb negb] in Eu. destruct (e_fsid_value e'); [|injection Eu as _ <-; split_and!; congruence].
    destruct (v_statfs fs (e_path e)); [|done]. repeat case_match; simplify_eq; split_and!; cbn; congruence. }
  exists u. split; [repeat (rewrite elem_of_cons || rewrite elem_of_app); tauto|].
  unfold dump_words in H2. rewrite B3, (proj2 (streq_false sub (e_path e))) in H2 by congruence. cbn [negb] in H2. rewrite Hst in H2.
  assert (can_reexport_via_fsidnum e1' st = false) as Hre' by (unfold can_reexport_via_fsidnum in *; by rewrite B4).
  rewrite Hre' in H2. destruct (write_fsloc e1') as [fl2|]; [|done]. cbn [mbind option_bind] in H2.
  specialize (Hsec e1' (fun f => Z.ldiff f NFSEXP_FSID) 0) as Hs2. destruct (write_secinfo m e1' (fun f => Z.ldiff f NFSEXP_FSID) 0) as [s2 e2']. cbn [snd] in Hs2.
  destruct Hs2 as (C1 & C2 & C3 & C4 & C5). rewrite C1, B1, C2 in H2.
  assert (has_flag (Z.ldiff (e_flags e1') NFSEXP_FSID) NFSEXP_FSID = false) as Hnf.
  { unfold has_flag. rewrite negb_false_iff, Z.eqb_eq. apply Z.bits_inj'. intros n Hn. rewrite Z.land_spec, Z.ldiff_spec, Z.bits_0.
    by destruct (Z.testbit _ n), (Z.testbit NFSEXP_FSID n). }
  rewrite Hnf in H2. cbn [negb] in H2.
  assert (exists e3, uuid_by_path fs sub e2' 0 16 = (Some u, e3)) as [e3 Eu2].
  { pose proof (uuid_cache_ignores_path fs (e_path e) sub e' 16 u e1' Eu Hv) as Hc. unfold uuid_by_path in Hc |- *. cbn [Z.eqb negb] in *.
    rewrite C4. destruct (e_fsid_value e1'); [done|]. injection Hc as ->. eauto. }
  rewrite Eu2 in H2. injection H2 as <- <-. repeat (rewrite elem_of_cons || rewrite elem_of_app). tauto.
Qed.

Lemma crossmnt_uuid_clash_witness :
  match dump_words fs_two 15 (fun _ _ => None) 0 $"*" $"/srv" (cross_ent $"/srv") with
  | Some (inr (c1, e1)) =>
      match dump_words fs_two 15 (fun _ _ => None) 0 $"*" $"/srv/sub" e1 with
      | Some (inr (c2, _)) => exists u, Qaddhex u ∈ c1 /\ Qaddhex u ∈ c2
      | _ => False
      end
  | _ => False
  end.
Proof.
  destruct (dump_words fs_two 15 (fun _ _ => None) 0 $"*" $"/srv" (cross_ent $"/srv")) as [[|[c1 e1]]|] eqn:E1; [vm_compute in E1; discriminate| |vm_compute in E1; discriminate].
  destruct (dump_words fs_two 15 (fun _ _ => None) 0 $"*" $"/srv/sub" e1) as [[|[c2 e2]]|] eqn:E2;
    [vm_compute in E1; injection E1 as <- <-; vm_compute in E2; discriminate| |vm_compute in E1; injection E1 as <- <-; vm_compute in E2; discriminate].
  apply (crossmnt_uuid_clash fs_two 15 (fun _ _ => None) 0 $"*" (cross_ent $"/srv") $"/srv/sub" (Statfs 0x2fc12fc1 2 0) c1 e1 c2 e2);
    try reflexivity; try discriminate; try assumption.
  vm_compute in E1. injection E1 as <- <-. discriminate.
Defined.

(** ** Expiring what lies below an export *)

Lemma span_word w l : "/"%char ∉ w -> span (fun c => negb (ceqb c "/")) (w ++ slashed l) = (w, slashed l).
Proof.
  intros Hw. induction w as [|c w IH].
  - destruct l as [|x l]; [done|]. change (slashed (x :: l)) with ("/"%char :: x ++ slashed l). done.
  - apply not_elem_of_cons in Hw as [Hc Hw]. cbn [app span]. rewrite (proj2 (ceqb_false c "/"%char)) by congruence. cbn [negb].
    by rewrite IH.
Qed.

Lemma subdirs_slashed l fuel before : parts_ok l -> (length l <= fuel)%nat ->
  subdirs fuel before (slashed l) = (fun n => before ++ slashed (take n l)) <$> seq 1 (length l).
Proof.
  intros Hl. revert fuel before; induction Hl as [|w l [Hw Hn] Hl IH]; intros fuel before Hf; [by destruct fuel|].
  destruct fuel as [|fuel]; [cbn in Hf; lia|]. change (slashed (w :: l)) with ("/"%char :: w ++ slashed l). cbn [subdirs].
  rewrite span_word by done. rewrite IH by (cbn in Hf; lia). cbn [length seq fmap list_fmap]. f_equal.
  - change (take 1 (w :: l)) with (w :: take 0 l). rewrite take_0. change (slashed [w]) with ("/"%char :: w ++ []). by rewrite app_nil_r.
  - rewrite <- (seq_shift (length l) 1). change (map S (seq 1 (length l))) with (S <$> seq 1 (length l)). rewrite <- list_fmap_compose. apply list_fmap_ext. intros i n _. cbn [compose].
    change (take (S n) (w :: l)) with (w :: take n l). change (slashed (w :: take n l)) with ("/"%char :: w ++ slashed (take n l)).
    by rewrite <- app_assoc.
Qed.

(** After a mount of a directory below an export, the entries the kernel made
    on the way are expired, exactly these: one line, which denies and has expired
    ten seconds ago, for each directory below the export's path, down to the one
    that was mounted.  Below the root nothing is expired, because the path of the
    root ends in the slash that is looked for behind it. *)
Theorem expire_subdirs_exact now exp_path domain l c r :
  parts_ok l -> l <> [] -> c <> "/"%char ->
  cache_expire_subdirs now exp_path domain (exp_path ++ slashed l)
    = omap (fun n => deny now domain (exp_path ++ slashed (take n l)) (-10)) (seq 1 (length l)) /\
  cache_expire_subdirs now $"/" domain ("/"%char :: c :: r) = [].
Proof.
  intros Hl Hn Hc. split.
  - unfold cache_expire_subdirs, below. pose proof (slashed_length l Hl) as Hlen.
    assert (0 < length l)%nat by (destruct l; [done|cbn; lia]).
    rewrite length_app, (proj2 (Nat.leb_gt _ _)) by lia. cbn [orb]. unfold at_index. rewrite drop_app_length.
    assert (deref (slashed l) = "/"%char) as -> by (by destruct l). change (negb (ceqb "/" "/")) with false. cbn [orb].
    rewrite starts_with_app. cbn [negb]. rewrite subdirs_slashed by (done || lia).
    generalize (seq 1 (length l)). intros ns. induction ns as [|n ns IH]; [done|]. cbn [fmap list_fmap omap list_omap]. by rewrite IH.
  - unfold cache_expire_subdirs, below. change (length $"/") with 1%nat. unfold at_index. cbn [drop deref].
    rewrite (proj2 (ceqb_false _ _) Hc). cbn [negb]. by rewrite orb_true_r.
Qed.

Lemma expire_subdirs_exact_witness :
  cache_expire_subdirs 1000 $"/a/b" $"*" $"/a/b/c/d" = [$"* /a/b/c 990 " ++ [NL]; $"* /a/b/c/d 990 " ++ [NL]] /\
  cache_expire_subdirs 1000 $"/" $"*" $"/x/y" = [].
Proof.
  destruct (expire_subdirs_exact 1000 $"/a/b" $"*" [$"c"; $"d"] "x"%char $"/y") as [H1 H2].
  - apply (components_ok_dec [$"c"; $"d"]). reflexivity.
  - discriminate.
  - discriminate.
  - split; [|exact H2]. change ($"/a/b/c/d") with ($"/a/b" ++ slashed [$"c"; $"d"]). rewrite H1. vm_compute. reflexivity.
Defined.

(** ** Groups *)

(** All the groups of a user reach the kernel: the line holds the user, the
    time, the count and each group in order, however many there are, since the
    array of groups grows when it is too short; only a line longer than the
    buffer is not sent. *)
Theorem unix_gid_all_groups getpwuid grouplist now groups_len uid name gid inbuf buf rest gids :
  request_line inbuf = Some buf -> qword_get_uint buf = (rest, Some uid) ->
  getpwuid uid = Some (name, gid) -> (forall n, grouplist n name gid = gids) ->
  let line := line_text ([Qadduint uid; Qadduint (now + default_ttl); Qadduint (Z.of_nat (length gids))] ++ map Qadduint gids) in
  let size := if groups_len =? 0 then 100 else groups_len in
  auth_unix_gid getpwuid grouplist true now groups_len inbuf
  = (if Z.of_nat (length line) <? RPC_CHAN_BUF_SIZE then [line] else [], Z.max size (Z.of_nat (length gids))).
Proof.
  intros Hl Hq Hpw Hg line size. unfold auth_unix_gid. fold size. rewrite Hl, Hq, Hpw, !Hg. unfold getgrouplist.
  assert (Forall call_ok ([Qadduint uid; Qadduint (now + default_ttl)] ++ Qadduint (Z.of_nat (length gids)) :: map Qadduint gids)) as Hok.
  { repeat constructor. clear. induction gids; by constructor. }
  assert (forall n : Z, (opt_list (chan_line ([Qadduint uid; Qadduint (now + default_ttl)] ++ Qadduint (Z.of_nat (length gids)) :: map Qadduint gids)), n)
    = (if Z.of_nat (length line) <? RPC_CHAN_BUF_SIZE then [line] else [], n)) as Hline.
  { intros n. rewrite chan_line_exact by done. fold line. by destruct (_ <? _). }
  destruct (Z.leb_spec (Z.of_nat (length gids)) size).
  - rewrite Hline. f_equal. lia.
  - rewrite Z.leb_refl, Hline. f_equal. lia.
Qed.

Lemma unix_gid_all_groups_witness :
  auth_unix_gid (fun u => if u =? 1000 then Some ($"joe", 100) else None) (fun _ _ _ => [100; 4; 4294967294]) true 0 2 ($"1000 " ++ [NL])
  = ([$"1000 1800 3 100 4 4294967294 " ++ [NL]], 3).
Proof.
  rewrite (unix_gid_all_groups _ _ 0 2 1000 $"joe" 100 ($"1000 " ++ [NL]) $"1000 " [] [100; 4; 4294967294]); [|reflexivity|vm_compute; reflexivity|reflexivity|done].
  vm_compute. reflexivity.
Defined.

(** ** Replies name their request *)

Lemma dump_text_words fs m db chan_write now domain path exp d line :
  domain <> [] -> no_nul domain -> path <> [] -> no_nul path ->
  dump_to_cache fs m db chan_write now domain path exp = Some d -> dp_text d = Some line -> first_words line = (domain, path).
Proof.
  intros Hd Hd0 Hp Hp0 H Ht. unfold dump_to_cache in H. destruct (dump_words fs m db now domain path exp) as [[|[calls exp']]|] eqn:E; [|..|done];
    cbn [mbind option_bind] in H; injection H as <-; [done|].
  destruct (dump_words_ok _ _ _ _ _ _ _ _ _ E) as (rest & -> & Hok). unfold dump_line in Ht.
  destruct (chan_line (Qadd domain :: Qadd path :: rest)) eqn:El; [|done]. cbn in Ht. injection Ht as ->. by eapply chan_line_words.
Qed.

Lemma deny_words now domain path ttl line :
  domain <> [] -> no_nul domain -> path <> [] -> no_nul path -> deny now domain path ttl = Some line -> first_words line = (domain, path).
Proof. intros Hd Hd0 Hp Hp0 H. eapply chan_line_words; [..|exact H]; [by repeat constructor|done..]. Qed.

Lemma qchar_no_nul c : c <> NUL -> no_nul (qchar c).
Proof. intros H. unfold qchar. destruct (must_quote c) eqn:E; [|by constructor]. clear H. revert E. all_chars c; intros E; try discriminate E; vm_compute; repeat constructor; discriminate. Qed.

Lemma qencode_no_nul s : no_nul s -> no_nul (qencode s).
Proof. induction 1 as [|c s Hc Hs IH]; [constructor|]. cbn. apply Forall_app. split; [by apply qchar_no_nul|exact IH]. Qed.

Lemma cstr_of_id s : no_nul s -> cstr_of s = s.
Proof.
  unfold cstr_of. induction 1 as [|c s Hc _ IH]; [done|]. cbn [span]. rewrite (proj2 (ceqb_false _ _) Hc). cbn [negb].
  destruct (span _ s) as [a b]. cbn in *. by rewrite IH.
Qed.

Lemma request_words a b : no_nul a -> no_nul b ->
  request_line (line_text [Qadd a; Qadd b]) = Some (qencode a ++ [SP] ++ qencode b ++ [SP]).
Proof.
  intros Ha Hb. unfold line_text. cbn [map concat call_text]. rewrite app_nil_r. unfold request_line. rewrite last_snoc. change (ceqb NL NL) with true.
  cbv iota. rewrite length_app. cbn [length]. rewrite Nat.add_sub, take_app_length, <- app_assoc. f_equal. apply cstr_of_id.
  repeat (apply Forall_app; split); try (by apply qencode_no_nul); by repeat constructor.
Qed.

Lemma opt_list_words (P : cstr -> Prop) o : (forall t, o = Some t -> P t) -> Forall P (opt_list o).
Proof. destruct o; repeat constructor. auto. Qed.

Section names.
  Context (ns : resolver) (fs : vfs) (m : Z) (db : cstr -> bool -> option Z) (chan_write : cstr -> bool) (dom path : cstr).
  Hypothesis Hd : dom <> [].
  Hypothesis Hd0 : no_nul dom.
  Hypothesis Hp : path <> [].
  Hypothesis Hp0 : no_nul path.

Definition names (out : list cstr) : Prop := Forall (fun t => first_words t = (dom, path)) out.

Lemma answer_export_names now st id out st' : answer_export fs m db chan_write now st dom path id = Some (out, st') -> names out.
Proof using All.
  assert (forall ttl, names (opt_list (deny now dom path ttl))) as Hdeny by (intros; apply opt_list_words; intros; by eapply deny_words).
  unfold answer_export. destruct (_ !! id) as [f|]; [|done]. cbn [mbind option_bind].
  destruct (dump_to_cache fs m db chan_write now dom path (m_export f)) as [d|] eqn:Ed; cbn [mbind option_bind].
  - assert (names (opt_list (dp_text d) ++ (if dp_ok d then [] else opt_list (deny now dom path 0)))) as Hn.
    { apply Forall_app. split; [apply opt_list_words; intros; by eapply dump_text_words|]. destruct (dp_ok d); [constructor|apply Hdeny]. }
    repeat case_match; intros ?; simplify_eq; first [done|constructor].
  - repeat case_match; intros ?; simplify_eq; first [done|constructor].
Qed.

Lemma lookup_nonexport_names static_ee locations now st ai out st' :
  lookup_nonexport ns fs m db chan_write static_ee locations now st dom path ai = Some (out, st') -> names out.
Proof using All.
  unfold lookup_nonexport. destruct (lookup_junction _ _ _ _ _ _ _ _ _ _) as [[[eep|] st1]|]; [|..|done]; cbn [mbind option_bind].
  - destruct (dump_to_cache fs m db chan_write now dom path eep) as [d|] eqn:Ed; [|done]. cbn [mbind option_bind]. intros [= <- _].
    apply opt_list_words. intros. by eapply dump_text_words.
  - intros [= <- _]. apply opt_list_words. intros. by eapply deny_words.
Qed.
End names.

(** Whatever mountd answers to a request for an export names the request: all
    lines it writes start with the domain and the path that were asked for, so
    that the kernel can tell which entry is meant; that holds for exports, for
    junctions and for refusals. *)
Theorem nfsd_export_names_request ns fs m db chan_write reload static_ee locations now st dom path out st' :
  dom <> [] -> no_nul dom -> path <> [] -> no_nul path ->
  nfsd_export ns fs m db chan_write reload static_ee locations now st (line_text [Qadd dom; Qadd path]) = Some (out, st') ->
  Forall (fun line => first_words line = (dom, path)) out.
Proof.
  intros Hd Hd0 Hp Hp0. unfold nfsd_export. rewrite request_words by done.
  assert (Z.of_nat (length dom) < Z.of_nat (length (line_text [Qadd dom; Qadd path])) /\
          Z.of_nat (length path) < Z.of_nat (length (line_text [Qadd dom; Qadd path]))) as [L1 L2].
  { unfold line_text. cbn [map concat call_text]. rewrite !length_app. cbn [length]. pose proof (qencode_length dom). pose proof (qencode_length path). lia. }
  rewrite (qword_get_encoded dom) by done. cbn [q_ret q_dest q_bp]. rewrite (proj2 (Z.leb_gt _ 0)) by (destruct dom; [done|cbn [length]; lia]).
  assert (skip_while is_space_char (qencode path ++ [SP]) = qencode path ++ [SP] ++ []) as -> by (apply qencode_head; done).
  rewrite (qword_get_encoded path) by done. cbn [q_ret q_dest q_bp]. rewrite (proj2 (Z.leb_gt _ 0)) by (destruct path; [done|cbn [length]; lia]).
  rewrite !cstr_of_nul by done. destruct (reload st) as [st1|]; [|done]. cbn [mbind option_bind].
  destruct (if is_ipaddr_client dom then _ else _) as [ai|]; [|intros [= <- _]; constructor].
  destruct (lookup_export ns fs st1 dom path ai) as [[[id|] st2]|]; [|..|done]; cbn [mbind option_bind].
  - by apply answer_export_names.
  - by apply lookup_nonexport_names.
Qed.

Lemma nfsd_export_names_request_witness :
  exists out st', nfsd_export ns_ex fs_two 15 (fun _ _ => None) (fun _ => true) Some no_ent (fun _ => None) 0 cross (line_text [Qadd $"*"; Qadd $"/srv/a"])
    = Some (out, st') /\ out <> [] /\ Forall (fun line => first_words line = ($"*", $"/srv/a")) out.
Proof.
  assert ($"*" <> []) as H1 by discriminate. assert (no_nul $"*") as H2 by (repeat constructor; discriminate).
  assert ($"/srv/a" <> []) as H3 by discriminate. assert (no_nul $"/srv/a") as H4 by (repeat constructor; discriminate).
  assert (length <$> (fst <$> nfsd_export ns_ex fs_two 15 (fun _ _ => None) (fun _ => true) Some no_ent (fun _ => None) 0 cross
    (line_text [Qadd $"*"; Qadd $"/srv/a"])) = Some 1%nat) as Hl by (vm_compute; reflexivity).
  destruct (nfsd_export ns_ex fs_two 15 (fun _ _ => None) (fun _ => true) Some no_ent (fun _ => None) 0 cross (line_text [Qadd $"*"; Qadd $"/srv/a"]))
    as [[out st']|] eqn:E; [|discriminate].
  exists out, st'. split; [reflexivity|]. split; [clear E; intros ->; discriminate Hl|].
  exact (nfsd_export_names_request ns_ex fs_two 15 (fun _ _ => None) (fun _ => true) Some no_ent (fun _ => None) 0 cross $"*" $"/srv/a" out st'
    H1 H2 H3 H4 E).
Defined.
