(* ===== verification/Statd.v ===== *)
(** * statd's requests and callbacks (utils/statd)

    statd runs one request at a time over a state it keeps between them: the list
    of monitored peers [rtnl] and the list of callbacks in flight [notify], both
    on the store of [Heap] with the operations of [Notlist], and the record files
    of [Nsm].  monitor.c changes the first and the files together, callback.c
    turns a peer's notice into callbacks, rmtcall.c sends them to the local lock
    manager and handles the answers.  hostname.c decides when two names are the
    same host; what the name service answers is a record of functions.  Datagrams
    sent and callout programs run are kept in a log.  [None] as a result is an
    access to memory that is not allocated, or a record line read past its end. *)

From S2P Require Import Prelude Heap Client Nsm Notlist.

(** ** Host names (utils/statd/hostname.c) *)

(** The answers of the resolver: [getaddrinfo] for a presentation address
    (AI_NUMERICHOST) and for a name (AI_CANONNAME: the canonical name, which is
    then always set, and the addresses); [getnameinfo] with NI_NAMEREQD and with
    NI_NUMERICHOST. *)
Record names := Names
  { gai_numeric : cstr -> option sockaddr;
    gai_canon : cstr -> option (cstr * list sockaddr);
    name_of : sockaddr -> option cstr;
    numeric_of : sockaddr -> option cstr }.

Definition INADDR_LOOPBACK : Z := 0x7f000001.
(** [htonl(INADDR_LOOPBACK)] as a little-endian machine reads it. *)
Definition LOOPBACK_NET : Z := 0x0100007f.

Definition nfs_is_v4_loopback (sap : sockaddr) : bool :=
  match sap with AF_INET a => a =? INADDR_LOOPBACK | _ => false end.

Section hostname.
  Context (ns : names).

Definition statd_present_address (sap : sockaddr) : option cstr := numeric_of ns sap.

Definition statd_canonical_name (hostname : cstr) : option cstr :=
  match gai_numeric ns hostname with
  | Some _ => Some hostname
  | None => fst <$> gai_canon ns hostname
  end.

Definition statd_canonical_list (hostname : cstr) : option (cstr * list sockaddr) :=
  let buf := match gai_numeric ns hostname with
             | Some ai => match name_of ns ai with Some buf => buf | None => hostname end
             | None => hostname
             end in
  gai_canon ns buf.

Definition statd_matchhostname (hostname1 hostname2 : cstr) : bool :=
  if strcaseeq hostname1 hostname2 then true
  else
    match statd_canonical_list hostname1 with
    | None => false
    | Some (canon1, results1) =>
        match statd_canonical_list hostname2 with
        | None => false
        | Some (canon2, results2) =>
            if strcaseeq canon1 canon2 then true
            else existsb (fun ai1 => existsb (nfs_compare_sockaddr ai1) results2) results1
        end
    end.

Definition statd_matchhostname_pa (hostname1 hostname2 : cstr) : bool :=
  if strcaseeq hostname1 hostname2 then true
  else match inet_pton4 hostname1 with
       | Some _ => false
       | None => match inet_pton4 hostname2 with
                 | Some _ => false
                 | None => statd_matchhostname hostname1 hostname2
                 end
       end.

End hostname.

(** ** The state of the daemon *)

Inductive event :=
  | Callout (what mon my : cstr) (state : Z)
  | Getport (prog vers xid : Z)
  | Nlmcall (port prog vers proc : Z) (mon_name : cstr) (state : Z) (priv : list ascii) (xid : Z).

Record statd := St { st_heap : hstate nl_entry; rtnl : ptr; notify : ptr; st_disk : disk; st_log : list event }.

Definition sM (A : Type) : Type := statd -> option (A * statd).
#[export] Instance sM_ret : MRet sM := fun A a s => Some (a, s).
#[export] Instance sM_bind : MBind sM := fun A B k m s => match m s with Some (a, s) => k a s | None => None end.

Definition on_heap {A} (m : M A) : sM A := fun s =>
  match m (st_heap s) with
  | Some (a, h) => Some (a, St h (rtnl s) (notify s) (st_disk s) (st_log s))
  | None => None
  end.
Definition on_disk {A} (m : dM A) : sM A := fun s =>
  let '(a, d) := m (st_disk s) in Some (a, St (st_heap s) (rtnl s) (notify s) d (st_log s)).
Definition get_rtnl : sM ptr := fun s => Some (rtnl s, s).
Definition set_rtnl (p : ptr) : sM unit := fun s => Some (tt, St (st_heap s) p (notify s) (st_disk s) (st_log s)).
Definition get_notify : sM ptr := fun s => Some (notify s, s).
Definition set_notify (p : ptr) : sM unit := fun s => Some (tt, St (st_heap s) (rtnl s) p (st_disk s) (st_log s)).
Definition log_event (e : event) : sM unit := fun s => Some (tt, St (st_heap s) (rtnl s) (notify s) (st_disk s) (st_log s ++ [e])).
Definition crash {A} : sM A := fun _ => None.
Definition st_fuel {A} (k : nat -> sM A) : sM A := fun s => k (size (cells (st_heap s))) s.
Definition ha_callout (what mon my : cstr) (state : Z) : sM unit := log_event (Callout what mon my state).

(** Fields of an entry. *)
Definition set_id (d : nl_entry) (prog vers proc : Z) (priv : list ascii) (dns : option cstr) : nl_entry :=
  NL (nl_mon_name d) (nl_my_name d) prog vers proc priv (nl_port d) (nl_times d) (nl_state d) dns (nl_xid d) (nl_when d).
Definition set_state (d : nl_entry) (state : Z) : nl_entry :=
  NL (nl_mon_name d) (nl_my_name d) (nl_my_prog d) (nl_my_vers d) (nl_my_proc d) (nl_priv d) (nl_port d) (nl_times d) state
    (nl_dns_name d) (nl_xid d) (nl_when d).
Definition set_call (d : nl_entry) (port times xid when : Z) : nl_entry :=
  NL (nl_mon_name d) (nl_my_name d) (nl_my_prog d) (nl_my_vers d) (nl_my_proc d) (nl_priv d) port times (nl_state d)
    (nl_dns_name d) xid when.

Section statd.
  (** The directory of the records, the resolver and [MY_STATE]. *)
  Context (base : cstr) (ns : names) (MY_STATE : Z).

(** ** Monitoring (utils/statd/monitor.c) *)

Definition caller_is_localhost (sap : sockaddr) : bool := nfs_is_v4_loopback sap.

Definition no_blanks (my_name : cstr) : cstr :=
  map (fun c => if ceqb c SP || ceqb c "009" || ceqb c "013" || ceqb c Prelude.NL then "_"%char else c) my_name.

(** The entry of a caller: same program, version and procedure. *)
Definition same_id (d : nl_entry) (prog vers proc : Z) : bool :=
  (nl_my_proc d =? proc) && (nl_my_prog d =? prog) && (nl_my_vers d =? vers).

(** The search of [sm_mon_1_svc] and [sm_unmon_1_svc]. *)
Fixpoint find_mon (fuel : nat) (clnt : ptr) (mon_name my_name : cstr) (prog vers proc : Z) : M ptr :=
  let* clnt := nlist_gethost (statd_matchhostname ns) (statd_matchhostname_pa ns) clnt mon_name false in
  match clnt with
  | None => hret None
  | Some _ =>
      match fuel with
      | O => hfail
      | S fuel =>
          let* n := load clnt in
          if statd_matchhostname ns (nl_my_name (data n)) my_name && same_id (data n) prog vers proc then hret clnt
          else find_mon fuel (next n) mon_name my_name prog vers proc
      end
  end.

Inductive res_stat := STAT_SUCC | STAT_FAIL.

(** The program, version, procedure, cookie and canonical name of an entry. *)
Definition fill_entry (clnt : ptr) (m : mon) (dnsname : cstr) : sM unit :=
  n ← on_heap (load clnt);
  on_heap (set_data clnt (set_id (data n) (my_prog m) (my_vers m) (my_proc m) (priv m) (Some dnsname))).

Definition new_entry (my_name mon_name : cstr) (m : mon) (dnsname : cstr) : sM ptr :=
  clnt ← on_heap (nlist_new my_name mon_name 0);
  _ ← fill_entry clnt m dnsname;
  mret clnt.

(** From the choice of the entry on; [found] is the entry already there. *)
Definition sm_mon_register (found : ptr) (dnsname mon_name my_name : cstr) (argp : mon) : sM (res_stat * Z) :=
  clnt ← (match found with
          | Some _ => _ ← fill_entry found argp dnsname; mret found
          | None => new_entry my_name mon_name argp dnsname
          end);
  r ← on_disk (nsm_delete_monitored_host base dnsname mon_name my_name);
  match r with
  | None => crash
  | Some _ =>
      ok ← on_disk (nsm_insert_monitored_host base dnsname
                      (Mon LOOPBACK_NET (my_prog argp) (my_vers argp) (my_proc argp) (priv argp) mon_name my_name));
      if negb ok then
        head ← get_rtnl;
        head ← on_heap (nlist_free (match found with Some _ => Some head | None => None end) clnt);
        _ ← (match head with Some head => set_rtnl head | None => mret tt end);
        _ ← on_heap (hfree clnt);
        mret (STAT_FAIL, -1)
      else
        _ ← ha_callout $"add-client" mon_name my_name (-1);
        _ ← (match found with
             | Some _ => mret tt
             | None => head ← get_rtnl; head ← on_heap (nlist_insert head clnt); set_rtnl head
             end);
        mret (STAT_SUCC, MY_STATE)
  end.

Definition sm_mon_1_svc (caller : sockaddr) (argp : mon) : sM (res_stat * Z) :=
  let mon_name := mon_name argp in
  if negb (caller_is_localhost caller) then mret (STAT_FAIL, -1)
  else if negb (my_prog argp =? 100021) || (negb (my_proc argp =? 16) && negb (my_proc argp =? 24)) then mret (STAT_FAIL, -1)
  else if existsb (ceqb "/") mon_name || ceqb (deref mon_name) "." then mret (STAT_FAIL, -1)
  else
    let my_name := no_blanks (my_name argp) in
    match statd_canonical_name ns mon_name with
    | None => mret (STAT_FAIL, -1)
    | Some dnsname =>
        head ← get_rtnl;
        found ← on_heap (with_fuel (fun fuel => find_mon fuel head mon_name my_name (my_prog argp) (my_vers argp) (my_proc argp)));
        match found with
        | Some _ =>
            n ← on_heap (load found);
            if streq (nl_priv (data n)) (priv argp) then mret (STAT_SUCC, MY_STATE)
            else sm_mon_register found dnsname mon_name my_name argp
        | None => sm_mon_register None dnsname mon_name my_name argp
        end
    end.

Definition load_one_host (hostname : cstr) (m : mon) : sM unit :=
  clnt ← new_entry (my_name m) (mon_name m) m hostname;
  head ← get_rtnl;
  head ← on_heap (nlist_insert head clnt);
  set_rtnl head.

(** [dir] is the list of names in the monitor directory. *)
Fixpoint load_hosts (recs : list (cstr * mon)) : sM unit :=
  match recs with
  | [] => mret tt
  | (h, m) :: recs => _ ← load_one_host h m; load_hosts recs
  end.
Definition load_state (dir : option (list cstr)) : sM unit :=
  recs ← on_disk (nsm_load_monitor_list base dir);
  match recs with None => crash | Some recs => load_hosts recs end.

Definition sm_unmon_1_svc (caller : sockaddr) (mon_name my_name : cstr) (prog vers proc : Z) : sM Z :=
  if negb (caller_is_localhost caller) then mret MY_STATE
  else
    let my_name := no_blanks my_name in
    head ← get_rtnl;
    match head with
    | None => mret MY_STATE
    | Some _ =>
        clnt ← on_heap (with_fuel (fun fuel => find_mon fuel head mon_name my_name prog vers proc));
        match clnt with
        | None => mret MY_STATE
        | Some _ =>
            n ← on_heap (load clnt);
            _ ← ha_callout $"del-client" mon_name my_name (-1);
            match nl_dns_name (data n) with
            | None => crash
            | Some dns =>
                r ← on_disk (nsm_delete_monitored_host base dns mon_name my_name);
                match r with
                | None => crash
                | Some _ =>
                    head ← on_heap (nlist_free (Some head) clnt);
                    _ ← set_rtnl (default None head);
                    mret MY_STATE
                end
            end
        end
    end.

Fixpoint unmon_all_loop (fuel : nat) (clnt : ptr) (my_name : cstr) (prog vers proc : Z) : sM unit :=
  clnt ← on_heap (nlist_gethost (statd_matchhostname ns) (statd_matchhostname_pa ns) clnt my_name true);
  match clnt with
  | None => mret tt
  | Some _ =>
      match fuel with
      | O => crash
      | S fuel =>
          n ← on_heap (load clnt);
          if same_id (data n) prog vers proc then
            let mon_name := take SM_MAXSTRLEN (nl_mon_name (data n)) in
            let temp := next n in
            _ ← ha_callout $"del-client" mon_name my_name (-1);
            match nl_dns_name (data n) with
            | None => crash
            | Some dns =>
                r ← on_disk (nsm_delete_monitored_host base dns mon_name my_name);
                match r with
                | None => crash
                | Some _ =>
                    head ← get_rtnl;
                    head ← on_heap (nlist_free (Some head) clnt);
                    _ ← set_rtnl (default None head);
                    unmon_all_loop fuel temp my_name prog vers proc
                end
            end
          else unmon_all_loop fuel (next n) my_name prog vers proc
      end
  end.

(** [None]: the static result as an earlier call left it. *)
Definition sm_unmon_all_1_svc (caller : sockaddr) (my_name : cstr) (prog vers proc : Z) : sM (option Z) :=
  if negb (caller_is_localhost caller) then mret None
  else
    head ← get_rtnl;
    match head with
    | None => mret (Some MY_STATE)
    | Some _ =>
        _ ← st_fuel (fun fuel => unmon_all_loop fuel head my_name prog vers proc);
        mret (Some MY_STATE)
    end.

(** SM_STAT (stat.c) and SM_SIMU_CRASH (simu.c); the service loop ends with the
    latter. *)
Definition sm_stat_1_svc (mon_name : cstr) : sM (res_stat * Z) :=
  mret (match statd_canonical_name ns mon_name with None => STAT_FAIL | Some _ => STAT_SUCC end, MY_STATE).

Definition IPPORT_RESERVED : Z := 1024.
Definition sm_simu_crash_1_svc (caller : sockaddr) (port : Z) : sM unit :=
  if negb (nfs_is_v4_loopback caller) then mret tt
  else if port >=? IPPORT_RESERVED then mret tt
  else
    head ← get_rtnl;
    match head with
    | None => mret tt
    | Some _ => head ← on_heap (nlist_kill head); set_rtnl head
    end.

(** ** Notices from peers (utils/statd/callback.c) *)

Fixpoint notify_loop (fuel : nat) (lp : ptr) (mon_name ip_addr : cstr) (state : Z) : sM unit :=
  match lp with
  | None => mret tt
  | Some _ =>
      match fuel with
      | O => crash
      | S fuel =>
          n ← on_heap (load lp);
          _ ← (if nl_state (data n) =? state then mret tt
               else
                 match nl_dns_name (data n) with
                 | None => crash
                 | Some dns =>
                     if statd_matchhostname ns mon_name dns || statd_matchhostname ns ip_addr dns then
                       _ ← on_heap (set_data lp (set_state (data n) state));
                       call ← on_heap (nlist_clone lp);
                       head ← get_notify;
                       head ← on_heap (nlist_insert head call);
                       set_notify head
                     else mret tt
                 end);
          notify_loop fuel (next n) mon_name ip_addr state
      end
  end.

Definition sm_notify_1_svc (caller : sockaddr) (mon_name : cstr) (state : Z) : sM unit :=
  match statd_present_address ns caller with
  | None => mret tt
  | Some ip_addr =>
      _ ← ha_callout $"sm-notify" mon_name ip_addr state;
      head ← get_rtnl;
      match head with
      | None => mret tt
      | Some _ => st_fuel (fun fuel => notify_loop fuel head mon_name ip_addr state)
      end
  end.

(** ** Callbacks to the lock manager (utils/statd/rmtcall.c) *)

Definition NOTIFY_TIMEOUT : Z := 5.

Section rmtcall.
  (** The transmission functions of support/nsm/rpc.c give the identifier of the
      call, 0 when it could not be sent; [k] numbers the calls. *)
  Context (xmit : nat -> Z).

Definition is_send (e : event) : bool := match e with Callout _ _ _ _ => false | _ => true end.
Definition sends (log : list event) : nat := length (List.filter is_send log).
Definition next_xid : sM Z := fun s => Some (xmit (sends (st_log s)), s).

(** The message for an entry. *)
Definition call_event (d : nl_entry) (xid : Z) : event :=
  if nl_port d =? 0 then Getport (nl_my_prog d) (nl_my_vers d) xid
  else Nlmcall (nl_port d) (nl_my_prog d) (nl_my_vers d) (nl_my_proc d) (nl_mon_name d) (nl_state d) (nl_priv d) xid.

Definition process_entry (lp : ptr) : sM bool :=
  n ← on_heap (load lp);
  let d := data n in
  if nl_times d =? 0 then mret false
  else
    xid ← next_xid;
    _ ← log_event (call_event d xid);
    _ ← on_heap (set_data lp (set_call d (nl_port d) (nl_times d - 1) xid (nl_when d)));
    mret true.

(** A datagram on the notify socket: what [nsm_parse_reply] and, for a query of
    the port mapper, [nsm_recv_getport] read from it, and whether it came from
    the loopback address. *)
Record reply := Reply { r_xid : Z; r_port : Z; r_local : bool }.

Fixpoint recv_loop (fuel : nat) (lp : ptr) (xid : Z) : M ptr :=
  match lp with
  | None => hret None
  | Some _ =>
      match fuel with
      | O => hfail
      | S fuel => let* n := load lp in if negb (nl_xid (data n) =? xid) then recv_loop fuel (next n) xid else hret lp
      end
  end.

Definition recv_rply (r : option reply) : sM ptr :=
  match r with
  | None => mret None
  | Some r =>
      if r_xid r =? 0 then mret None
      else if negb (r_local r) then mret None
      else head ← get_notify; on_heap (with_fuel (fun fuel => recv_loop fuel head (r_xid r)))
  end.

(** The entry's new due time and place in the list. *)
Definition requeue (lp : ptr) (now : Z) : sM unit :=
  n ← on_heap (load lp);
  let d := data n in
  _ ← on_heap (set_data lp (set_call d (nl_port d) (nl_times d) (nl_xid d) (now + NOTIFY_TIMEOUT)));
  head ← get_notify;
  head ← on_heap (nlist_remove head lp);
  head ← on_heap (nlist_insert_timer head lp);
  set_notify head.

Definition drop_call (lp : ptr) : sM unit :=
  head ← get_notify;
  head ← on_heap (nlist_free (Some head) lp);
  set_notify (default None head).

Definition process_reply (r : option reply) (now : Z) : sM unit :=
  lp ← recv_rply r;
  match lp, r with
  | Some _, Some r =>
      n ← on_heap (load lp);
      let d := data n in
      if (nl_port d =? 0) && negb (r_port r =? 0) then
        _ ← on_heap (set_data lp (set_call d (r_port r) (nl_times d) (nl_xid d) (nl_when d)));
        _ ← process_entry lp;
        requeue lp now
      else drop_call lp
  | _, _ => mret tt
  end.

(** [time] gives a value for each reading of the clock. *)
Fixpoint process_notify_list (fuel k : nat) (time : nat -> Z) : sM unit :=
  entry ← get_notify;
  match entry with
  | None => mret tt
  | Some _ =>
      n ← on_heap (load entry);
      if nl_when (data n) <? time k then
        match fuel with
        | O => crash
        | S fuel =>
            more ← process_entry entry;
            if more : bool then (_ ← requeue entry (time (S k)); process_notify_list fuel (S (S k)) time)
            else (_ ← drop_call entry; process_notify_list fuel (S k) time)
        end
      else mret tt
  end.

End rmtcall.
End statd.

(** ** The lists in the store *)

(** [rtnl] and [notify] reach the entries [lr] and [ln], on nodes of their own. *)
Record lists (s : statd) (lr ln : list (loc * nl_entry)) : Prop := Lists
  { li_rtnl : nlist (cells (st_heap s)) (rtnl s) lr;
    li_notify : nlist (cells (st_heap s)) (notify s) ln;
    li_apart : forall x, x ∈ lr.*1 -> x ∉ ln.*1 }.

Lemma sbind_ok {A B} (m : sM A) (k : A -> sM B) s a s' : m s = Some (a, s') -> (m ≫= k) s = k a s'.
Proof. intros H. unfold mbind, sM_bind. by rewrite H. Qed.

Lemma on_heap_ok {A} (m : M A) s a h :
  m (st_heap s) = Some (a, h) -> on_heap m s = Some (a, St h (rtnl s) (notify s) (st_disk s) (st_log s)).
Proof. intros H. unfold on_heap. by rewrite H. Qed.

Lemma nlist_frame xs (h h' : gmap loc (node nl_entry)) head l :
  same_outside xs h h' -> (forall x, x ∈ l.*1 -> x ∉ xs) -> nlist h head l -> nlist h' head l.
Proof. intros Hs Hd (H1 & H2 & H3). split; [done|]. split; [done|]. by eapply dseg_same. Qed.

(** The node of an entry, and changing what it holds. *)
Lemma nlist_node h head l1 x (e : nl_entry) l2 :
  nlist h head (l1 ++ (x, e) :: l2) -> h !! x = Some (Node (hd_loc l2 None) (last_loc None l1) e).
Proof. intros (_ & _ & [_ [H _]]%dseg_app). exact H. Qed.

Lemma nlist_set_data h head l1 x (e e' : nl_entry) l2 :
  nlist h head (l1 ++ (x, e) :: l2) ->
  nlist (<[x := Node (hd_loc l2 None) (last_loc None l1) e']> h) head (l1 ++ (x, e') :: l2).
Proof.
  intros (Hh & Hn & D). destruct (NoDup_around l1 l2 x e Hn) as (N1 & N2 & _ & _).
  apply dseg_app in D as [D1 [D2 D3]]. split; [by rewrite Hh, !hd_loc_app|]. split.
  - by rewrite fmap_app, fmap_cons in *.
  - apply dseg_app. split; [by apply dseg_insert|]. split; [by rewrite lookup_insert_eq|]. by apply dseg_insert.
Qed.

Lemma insert_outside {A} x (n : node A) h xs : x ∈ xs -> same_outside xs h (<[x := n]> h).
Proof. intros Hx y Hy. rewrite lookup_insert_ne; [done|]. set_solver. Qed.

(** ** The callbacks refine a list of calls *)

Section rounds.
  Context (base : cstr) (ns : names) (xmit : nat -> Z) (time : nat -> Z).

(** One pass of [process_notify_list] on the list of calls. *)
Fixpoint calls_round (fuel k : nat) (l : list (loc * nl_entry)) (log : list event) : list (loc * nl_entry) * list event :=
  match l, fuel with
  | (x, d) :: l', S fuel =>
      if nl_when d <? time k then
        if nl_times d =? 0 then calls_round fuel (S k) l' log
        else
          let xid := xmit (sends log) in
          calls_round fuel (S (S k))
            (timer_insert (x, set_call d (nl_port d) (nl_times d - 1) xid (time (S k) + NOTIFY_TIMEOUT)) l')
            (log ++ [call_event d xid])
      else (l, log)
  | _, _ => (l, log)
  end.

Lemma process_entry_run s lr l1 x d l2 :
  lists s lr (l1 ++ (x, d) :: l2) ->
  exists s', process_entry xmit (Some x) s = Some (negb (nl_times d =? 0), s') /\ st_disk s' = st_disk s /\
    if nl_times d =? 0 then s' = s
    else
      let xid := xmit (sends (st_log s)) in
      st_log s' = st_log s ++ [call_event d xid] /\
      lists s' lr (l1 ++ (x, set_call d (nl_port d) (nl_times d - 1) xid (nl_when d)) :: l2).
Proof.
  intros [Hr Hn Ha]. pose proof (nlist_node _ _ _ _ _ _ Hn) as Hx. unfold process_entry.
  erewrite sbind_ok by (apply on_heap_ok; by apply load_ok). cbn [data].
  destruct (nl_times d =? 0) eqn:Et; cbn [negb]; [exists s; split; [by destruct s|done]|].
  erewrite sbind_ok by reflexivity. erewrite sbind_ok by reflexivity. cbn [st_heap rtnl notify st_disk st_log].
  erewrite sbind_ok by (apply on_heap_ok; by apply set_data_ok). cbn [st_heap rtnl notify st_disk st_log next prev].
  eexists. split; [reflexivity|]. split; [done|]. cbn [st_log]. split; [done|]. split; cbn [st_heap rtnl notify cells].
  - eapply (nlist_frame [x]); [apply insert_outside; by left| |exact Hr]. intros y Hy Hy'.
    apply list_elem_of_singleton in Hy' as ->. apply (Ha x Hy). rewrite fmap_app. set_solver.
  - by apply (nlist_set_data _ _ l1 x d).
  - intros y Hy. rewrite fmap_app, fmap_cons. specialize (Ha y Hy). by rewrite fmap_app, fmap_cons in Ha.
Qed.

Lemma requeue_run s lr l1 x d l2 now :
  lists s lr (l1 ++ (x, d) :: l2) ->
  exists s', requeue (Some x) now s = Some (tt, s') /\ st_disk s' = st_disk s /\ st_log s' = st_log s /\
    lists s' lr (timer_insert (x, set_call d (nl_port d) (nl_times d) (nl_xid d) (now + NOTIFY_TIMEOUT)) (l1 ++ l2)).
Proof.
  intros [Hr Hn Ha]. pose proof (nlist_node _ _ _ _ _ _ Hn) as Hx. unfold requeue.
  erewrite sbind_ok by (apply on_heap_ok; by apply load_ok). cbn [data].
  set (d' := set_call _ _ _ _ _). erewrite sbind_ok by (apply on_heap_ok; by apply set_data_ok).
  erewrite sbind_ok by reflexivity. cbn [st_heap rtnl notify st_disk st_log next prev].
  pose proof (nlist_set_data _ _ l1 x d d' l2 Hn) as Hn1. set (h1 := <[x := _]> _) in *.
  destruct (nlist_remove_spec (HState h1 (budget (st_heap s))) (notify s) l1 x d' l2 Hn1) as (p2 & h2 & E2 & Hn2 & Hu2 & Hs2).
  erewrite sbind_ok by (apply on_heap_ok; exact E2). cbn [st_heap rtnl notify st_disk st_log budget].
  destruct (NoDup_around l1 l2 x d' (proj1 (proj2 Hn1))) as (N1 & N2 & _ & _).
  destruct (nlist_insert_timer_spec (HState h2 (budget (st_heap s))) p2 (l1 ++ l2) x d' Hn2 Hu2) as (p3 & h3 & E3 & Hn3 & Hs3).
  { rewrite fmap_app. set_solver. }
  erewrite sbind_ok by (apply on_heap_ok; exact E3). eexists. split; [reflexivity|]. split; [done|]. split; [done|].
  split; cbn [st_heap rtnl notify cells]; [|done|].
  - assert (forall y, y ∈ lr.*1 -> y <> x /\ y ∉ (l1 ++ l2).*1) as Hd.
    { intros y Hy. specialize (Ha y Hy). rewrite fmap_app, fmap_cons in Ha. rewrite fmap_app. cbn in Ha. set_solver. }
    eapply (nlist_frame (x :: (l1 ++ l2).*1)); [exact Hs3|intros y Hy; destruct (Hd y Hy); set_solver|].
    eapply (nlist_frame (l1 ++ (x, d') :: l2).*1); [exact Hs2| |].
    + intros y Hy. destruct (Hd y Hy) as [H1 H2]. rewrite fmap_app, fmap_cons in *. cbn. set_solver.
    + eapply (nlist_frame [x]); [apply insert_outside; by left| |exact Hr]. intros y Hy. destruct (Hd y Hy). set_solver.
  - intros y Hy. rewrite timer_insert_perm, fmap_cons. specialize (Ha y Hy). rewrite fmap_app, fmap_cons in Ha.
    rewrite fmap_app. cbn in *. set_solver.
Qed.

Lemma drop_call_run s lr l1 x d l2 :
  lists s lr (l1 ++ (x, d) :: l2) ->
  exists s', drop_call (Some x) s = Some (tt, s') /\ st_disk s' = st_disk s /\ st_log s' = st_log s /\ lists s' lr (l1 ++ l2).
Proof.
  intros [Hr Hn Ha]. unfold drop_call. erewrite sbind_ok by reflexivity.
  destruct (nlist_remove_spec (st_heap s) (notify s) l1 x d l2 Hn) as (p2 & h2 & E2 & Hn2 & Hu2 & Hs2).
  assert (exists h, notify s = Some h) as [h Hh].
  { destruct Hn as (-> & _). rewrite hd_loc_app. destruct l1 as [|[]]; eauto. }
  unfold nlist_free. rewrite Hh in *.
  erewrite sbind_ok.
  2:{ apply on_heap_ok. erewrite hbind_ok by exact E2. erewrite hbind_ok by (apply load_ok; exact Hu2). reflexivity. }
  eexists. split; [reflexivity|]. split; [done|]. split; [done|]. split; cbn [st_heap rtnl notify cells]; [|done|].
  - eapply nlist_frame; [exact Hs2| |exact Hr]. exact Ha.
  - intros y Hy. specialize (Ha y Hy). rewrite fmap_app, fmap_cons in Ha. rewrite fmap_app. cbn in Ha. set_solver.
Qed.


(** Turns that the loop can still take. *)
Definition turns (l : list (loc * nl_entry)) : nat := sum_list ((fun x => S (Z.to_nat (nl_times x.2))) <$> l).
(** Calls that the entries may still make. *)
Definition calls_left (l : list (loc * nl_entry)) : nat := sum_list ((fun x => Z.to_nat (nl_times x.2)) <$> l).

Lemma turns_insert x l : turns (timer_insert x l) = (S (Z.to_nat (nl_times x.2)) + turns l)%nat.
Proof. unfold turns. by rewrite timer_insert_perm. Qed.
Lemma calls_left_insert x l : calls_left (timer_insert x l) = (Z.to_nat (nl_times x.2) + calls_left l)%nat.
Proof. unfold calls_left. by rewrite timer_insert_perm. Qed.

Definition has_tries (x : loc * nl_entry) : Prop := 0 <= nl_times x.2.

Lemma process_list_refines fuel k s lr ln :
  lists s lr ln -> Forall has_tries ln -> (turns ln <= fuel)%nat ->
  exists s', process_notify_list xmit fuel k time s = Some (tt, s') /\ st_disk s' = st_disk s /\
    lists s' lr (fst (calls_round fuel k ln (st_log s))) /\ st_log s' = snd (calls_round fuel k ln (st_log s)).
Proof.
  revert k s ln. induction fuel as [|fuel IH]; intros k s ln Hl Ht Hf; destruct ln as [|[x d] ln]; pose proof Hl as [_ Hn _].
  1,3: destruct Hn as (Hn & _); exists s; cbn [process_notify_list calls_round]; erewrite sbind_ok by reflexivity; by rewrite Hn.
  { cbn in Hf. lia. }
  apply Forall_cons in Ht as [Hd Ht]. unfold has_tries in Hd. cbn [snd] in Hd.
  cbn [process_notify_list calls_round]. erewrite sbind_ok by reflexivity. pose proof Hn as (-> & _). cbn [hd_loc].
  erewrite sbind_ok by (apply on_heap_ok; apply load_ok; exact (nlist_node _ _ [] _ _ _ Hn)). cbn [data].
  destruct (nl_when d <? time k) eqn:Ew; [|exists s; by destruct s].
  assert (St (st_heap s) (rtnl s) (notify s) (st_disk s) (st_log s) = s) as -> by (by destruct s).
  destruct (process_entry_run s lr [] x d ln Hl) as (s1 & E1 & Hd1 & H1). erewrite sbind_ok by exact E1.
  cbn in Hf. fold (turns ln) in Hf.
  destruct (nl_times d =? 0) eqn:Et; cbn [negb].
  - subst s1. destruct (drop_call_run s lr [] x d ln Hl) as (s2 & E2 & Hd2 & Hg2 & Hl2).
    erewrite sbind_ok by exact E2. destruct (IH (S k) s2 ln Hl2 Ht) as (s3 & E3 & Hd3 & Hl3 & Hg3); [lia|].
    rewrite Hg2 in *. exists s3. split; [done|]. split; [congruence|]. done.
  - destruct H1 as [Hg1 Hl1]. destruct (requeue_run s1 lr [] x _ ln (time (S k)) Hl1) as (s2 & E2 & Hd2 & Hg2 & Hl2).
    erewrite sbind_ok by exact E2. cbn [app] in Hl2. apply Z.eqb_neq in Et.
    destruct (IH (S (S k)) s2 _ Hl2) as (s3 & E3 & Hd3 & Hl3 & Hg3).
    + rewrite timer_insert_perm. constructor; [unfold has_tries; cbn; lia|done].
    + rewrite turns_insert. cbn [snd nl_times set_call]. lia.
    + rewrite Hg2, Hg1 in *. exists s3. split; [done|]. split; [congruence|]. done.
Qed.

(** What an entry becomes while it waits: another identifier and due time, and
    fewer tries. *)
Definition same_call (d d' : nl_entry) : Prop :=
  exists times xid when, d' = set_call d (nl_port d) times xid when /\ times <= nl_times d.

Lemma same_call_refl d : same_call d d.
Proof. exists (nl_times d), (nl_xid d), (nl_when d). split; [by destruct d|lia]. Qed.
Lemma same_call_set d d1 : same_call d d1 -> forall t x w, t <= nl_times d1 -> same_call d (set_call d1 (nl_port d1) t x w).
Proof. intros (t1 & x1 & w1 & -> & H) t x w Ht. exists t, x, w. cbn in *. split; [done|lia]. Qed.

Lemma sends_snoc log e : is_send e = true -> sends (log ++ [e]) = S (sends log).
Proof. intros H. unfold sends. rewrite List.filter_app. cbn. rewrite H, length_app. cbn. lia. Qed.

Lemma call_is_send d xid : is_send (call_event d xid) = true.
Proof. unfold call_event. by destruct (nl_port d =? 0). Qed.

Lemma calls_round_spec fuel k l log (l0 : list (loc * nl_entry)) :
  by_time l -> Forall has_tries l -> (turns l <= fuel)%nat ->
  (forall x d, (x, d) ∈ l -> exists d0, (x, d0) ∈ l0 /\ same_call d0 d) ->
  let '(l', log') := calls_round fuel k l log in
  by_time l' /\ (exists k', (k <= k')%nat /\ Forall (fun x => time k' <= nl_when x.2) l') /\
  (sends log' + calls_left l' = sends log + calls_left l)%nat /\ log `prefix_of` log' /\
  (forall x d, (x, d) ∈ l' -> exists d0, (x, d0) ∈ l0 /\ same_call d0 d).
Proof.
  revert k l log. induction fuel as [|fuel IH]; intros k l log Hs Ht Hf H0; destruct l as [|[x d] l]; cbn [calls_round].
  1,3: split_and!; try done; by exists k.
  { cbn in Hf. lia. }
  apply Forall_cons in Ht as [Hd Ht]. unfold has_tries in Hd. cbn [snd] in Hd. cbn in Hf. fold (turns l) in Hf.
  pose proof Hs as Hs0. apply Sorted.StronglySorted_inv in Hs as [Hs Hx].
  destruct (Z.ltb_spec (nl_when d) (time k)) as [Hw|Hw].
  2:{ split_and!; try done. exists k. split; [done|]. constructor; [done|]. eapply Forall_impl; [exact Hx|]. cbn. lia. }
  destruct (Z.eqb_spec (nl_times d) 0) as [Et|Et].
  - specialize (IH (S k) l log Hs Ht). destruct (calls_round fuel (S k) l log) as [l' log'].
    destruct IH as (I1 & (k' & Hk & I2) & I3 & I4 & I5); [lia|intros; apply H0; by right|]. split_and!; try done.
    + exists k'. split; [lia|done].
    + rewrite I3. unfold calls_left. cbn. rewrite Et. done.
  - set (e := set_call _ _ _ _ _).
    specialize (IH (S (S k)) (timer_insert (x, e) l) (log ++ [call_event d (xmit (sends log))])).
    destruct (calls_round fuel _ _ _) as [l' log'].
    destruct IH as (I1 & (k' & Hk & I2) & I3 & I4 & I5).
    + by apply timer_insert_by_time.
    + rewrite timer_insert_perm. constructor; [unfold has_tries, e; cbn; lia|done].
    + rewrite turns_insert. unfold e. cbn [snd nl_times set_call]. lia.
    + intros y dy. rewrite timer_insert_perm. intros [[= -> ->]|Hy]%elem_of_cons; [|apply H0; by right].
      destruct (H0 x d) as (d0 & Hin & Hc); [by left|]. exists d0. split; [done|]. apply same_call_set; [done|lia].
    + split_and!; try done.
      * exists k'. split; [lia|done].
      * rewrite I3, sends_snoc by apply call_is_send. rewrite calls_left_insert. unfold e. cbn [snd nl_times set_call].
        change (calls_left ((x, d) :: l)) with (Z.to_nat (nl_times d) + calls_left l)%nat. lia.
      * etrans; [|exact I4]. by exists [call_event d (xmit (sends log))].
Qed.

End rounds.

(** statd's callbacks to the lock manager: a pass of [process_notify_list]
    over a list in due order ends whatever the clock shows, within one turn per
    call left and entry; it follows no bad pointer and leaves the monitor list
    and the disk alone; when it ends no entry is due, the list is still in due
    order, its entries are calls that were there, and the calls made are
    exactly the tries used up, so that no callback is given up before its last
    try. *)
Theorem process_notify_list_round xmit time fuel k s lr ln :
  lists s lr ln -> by_time ln -> Forall has_tries ln -> (turns ln <= fuel)%nat ->
  exists s' ln' k', process_notify_list xmit fuel k time s = Some (tt, s') /\ lists s' lr ln' /\ st_disk s' = st_disk s /\
    by_time ln' /\ (k <= k')%nat /\ Forall (fun x => time k' <= nl_when x.2) ln' /\
    (sends (st_log s') + calls_left ln' = sends (st_log s) + calls_left ln)%nat /\
    forall x d, (x, d) ∈ ln' -> exists d0, (x, d0) ∈ ln /\ same_call d0 d.
Proof.
  intros Hl Hs Ht Hf. destruct (process_list_refines xmit time fuel k s lr ln Hl Ht Hf) as (s' & E & Hd & Hl' & Hg).
  pose proof (calls_round_spec xmit time fuel k ln (st_log s) ln Hs Ht Hf) as H.
  destruct (calls_round xmit time fuel k ln (st_log s)) as [ln' log'].
  destruct H as (H1 & (k' & Hk & H2) & H3 & _ & H5); [intros x d Hx; exists d; split; [done|apply same_call_refl]|].
  cbn [fst snd] in *. exists s', ln', k'. rewrite Hg. by split_and!.
Qed.

(** ** Replies *)

Lemma recv_loop_find fuel (s : hstate nl_entry) p l xid :
  dseg (cells s) p l None -> (length l <= fuel)%nat ->
  recv_loop fuel (hd_loc l None) xid s =
  Some (fst <$> (snd <$> list_find (fun x => nl_xid x.2 = xid) l), s).
Proof.
  revert fuel p. induction l as [|[x d] l IH]; intros fuel p D Hf; [by destruct fuel|].
  destruct D as [D1 D2]. destruct fuel as [|fuel]; [cbn in Hf; lia|]. cbn [recv_loop hd_loc list_find snd].
  erewrite hbind_ok by (by apply load_ok). cbn [data next].
  destruct (Z.eqb_spec (nl_xid d) xid) as [->|Hx]; cbn [negb].
  - by rewrite decide_True by done.
  - rewrite decide_False by done. rewrite (IH fuel (Some x)); [|done|cbn in Hf; lia].
    by destruct (list_find _ l) as [[i [y e]]|].
Qed.

(** The entry a reply is for: the first with its identifier. *)
Definition answers (r : reply) (ln : list (loc * nl_entry)) : option (nat * (loc * nl_entry)) :=
  if (r_xid r =? 0) || negb (r_local r) then None else list_find (fun x => nl_xid x.2 = r_xid r) ln.

Lemma recv_rply_run s lr ln r : lists s lr ln -> recv_rply (Some r) s = Some (fst <$> (snd <$> answers r ln), s).
Proof.
  intros [_ Hn _]. unfold recv_rply, answers. destruct (r_xid r =? 0); [done|]. destruct (r_local r); [|done]. cbn [orb negb].
  erewrite sbind_ok by reflexivity. pose proof (nlist_fuel _ _ _ Hn) as Hf. destruct Hn as (-> & _ & D).
  erewrite on_heap_ok by (unfold with_fuel; apply (recv_loop_find _ _ None ln); [exact D|exact Hf]). by destruct s.
Qed.

(** The life of a callback: a datagram that answers no call, or comes from
    another host, changes nothing; the port of the lock manager makes the
    callback itself go out, with the procedure, the peer's name and state and the
    cookie that were registered, and be retried later; "not registered", and the
    answer to the callback itself, take the entry off the list, and only that
    entry. *)
Theorem process_reply_cases xmit s lr ln r now :
  lists s lr ln ->
  exists s', process_reply xmit (Some r) now s = Some (tt, s') /\ st_disk s' = st_disk s /\
    match answers r ln with
    | None => s' = s
    | Some (i, (x, d)) =>
        let rest := delete i ln in
        if (nl_port d =? 0) && negb (r_port r =? 0) then
          let xid := xmit (sends (st_log s)) in
          let used := negb (nl_times d =? 0) in
          let d' := set_call d (r_port r) (if used then nl_times d - 1 else nl_times d) (if used then xid else nl_xid d) (now + NOTIFY_TIMEOUT) in
          st_log s' = st_log s ++ (if used then [Nlmcall (r_port r) (nl_my_prog d) (nl_my_vers d) (nl_my_proc d)
                                                  (nl_mon_name d) (nl_state d) (nl_priv d) xid] else []) /\
          lists s' lr (timer_insert (x, d') rest)
        else st_log s' = st_log s /\ lists s' lr rest
    end.
Proof.
  intros Hl. unfold process_reply. erewrite sbind_ok by (by eapply recv_rply_run).
  destruct (answers r ln) as [[i [x d]]|] eqn:Ea; cbn [fmap option_fmap option_map fst snd]; [|by exists s].
  assert (exists l1 l2, ln = l1 ++ (x, d) :: l2 /\ delete i ln = l1 ++ l2) as (l1 & l2 & -> & ->).
  { unfold answers in Ea. destruct ((r_xid r =? 0) || negb (r_local r)); [done|]. apply list_find_Some in Ea as (Hi & _ & _).
    exists (take i ln), (drop (S i) ln). split; [by rewrite take_drop_middle|apply delete_take_drop]. }
  clear Ea. pose proof Hl as [Hr Hn Ha]. pose proof (nlist_node _ _ _ _ _ _ Hn) as Hx.
  erewrite sbind_ok by (apply on_heap_ok; by apply load_ok). cbn [data next prev].
  assert (St (st_heap s) (rtnl s) (notify s) (st_disk s) (st_log s) = s) as -> by (by destruct s).
  destruct ((nl_port d =? 0) && negb (r_port r =? 0)) eqn:Ep.
  2:{ destruct (drop_call_run s lr l1 x d l2 Hl) as (s' & E & H1 & H2 & H3). exists s'. by split_and!. }
  apply andb_true_iff in Ep as [Ep Hrp]. set (d1 := set_call d (r_port r) (nl_times d) (nl_xid d) (nl_when d)).
  erewrite sbind_ok by (apply on_heap_ok; by apply set_data_ok). cbn [next prev].
  set (s1 := St _ _ _ _ _). assert (lists s1 lr (l1 ++ (x, d1) :: l2)) as Hl1.
  { split; cbn [s1 st_heap rtnl notify cells].
    - eapply (nlist_frame [x]); [apply insert_outside; by left| |exact Hr]. intros y Hy Hy'.
      apply list_elem_of_singleton in Hy' as ->. apply (Ha x Hy). rewrite fmap_app. set_solver.
    - by apply (nlist_set_data _ _ l1 x d).
    - intros y Hy. specialize (Ha y Hy). by rewrite fmap_app, fmap_cons in *. }
  destruct (process_entry_run xmit s1 lr l1 x d1 l2 Hl1) as (s2 & E2 & Hd2 & H2). erewrite sbind_ok by exact E2.
  cbn [d1 nl_times set_call] in H2. destruct (nl_times d =? 0) eqn:Et; cbn [negb].
  - subst s2. destruct (requeue_run s1 lr l1 x d1 l2 now Hl1) as (s3 & E3 & Hd3 & Hg3 & Hl3).
    exists s3. split; [done|]. split; [by rewrite Hd3|]. rewrite app_nil_r. split; [by rewrite Hg3|done].
  - destruct H2 as [Hg2 Hl2]. destruct (requeue_run s2 lr l1 x _ l2 now Hl2) as (s3 & E3 & Hd3 & Hg3 & Hl3).
    exists s3. split; [done|]. split; [by rewrite Hd3, Hd2|]. split; [|exact Hl3]. rewrite Hg3, Hg2. f_equal.
    unfold call_event, d1. cbn [nl_port set_call]. apply negb_true_iff in Hrp. by rewrite Hrp.
Qed.

(** ** Notices *)

(** The entry [nlist_clone] makes. *)
Definition clone_of (d : nl_entry) : nl_entry :=
  NL (nl_mon_name d) (nl_my_name d) (nl_my_prog d) (nl_my_vers d) (nl_my_proc d) (nl_priv d) 0 MAX_TRIES (nl_state d) None 0 0.

Lemma nlist_clone_run (s : hstate nl_entry) x n :
  cells s !! x = Some n ->
  exists y, cells s !! y = None /\
    nlist_clone (Some x) s = Some (Some y, HState (<[y := Node None None (clone_of (data n))]> (cells s)) (budget s)).
Proof.
  intros Hx. exists (fresh (dom (cells s))). split; [apply fresh_cells|]. unfold nlist_clone. hstep. unfold nlist_new, xmalloc.
  erewrite hbind_ok by reflexivity. cbn [cells budget]. erewrite hbind_ok by (apply load_ok; cbn [cells]; apply lookup_insert_eq).
  cbn [data]. erewrite hbind_ok by (apply set_data_ok; cbn [cells]; apply lookup_insert_eq).
  cbn [cells budget next prev hret]. by rewrite insert_insert_eq.
Qed.

Section notices.
  Context (ns : names).

(** Whether an entry is to be told of the new state. *)
Definition concerned (mon_name ip_addr : cstr) (state : Z) (d : nl_entry) : bool :=
  negb (nl_state d =? state) &&
  match nl_dns_name d with
  | Some dns => statd_matchhostname ns mon_name dns || statd_matchhostname ns ip_addr dns
  | None => false
  end.
Definition told (mon_name ip_addr : cstr) (state : Z) (d : nl_entry) : nl_entry :=
  if concerned mon_name ip_addr state d then set_state d state else d.
(** The callbacks for a list of entries, the last one first. *)
Fixpoint new_calls (mon_name ip_addr : cstr) (state : Z) (l : list nl_entry) : list nl_entry :=
  match l with
  | [] => []
  | d :: l => new_calls mon_name ip_addr state l ++ (if concerned mon_name ip_addr state d then [clone_of (set_state d state)] else [])
  end.

(** One entry of the monitor list. *)
Lemma queue_call_run s l1 x d l2 ln state :
  lists s (l1 ++ (x, d) :: l2) ln ->
  exists s' y, (_ ← on_heap (set_data (Some x) (set_state d state)); call ← on_heap (nlist_clone (Some x)); head ← get_notify;
                head ← on_heap (nlist_insert head call); set_notify head) s = Some (tt, s') /\
    st_disk s' = st_disk s /\ st_log s' = st_log s /\
    lists s' (l1 ++ (x, set_state d state) :: l2) ((y, clone_of (set_state d state)) :: ln).
Proof.
  intros [Hr Hn Ha]. pose proof (nlist_node _ _ _ _ _ _ Hr) as Hx.
  erewrite sbind_ok by (apply on_heap_ok; by apply set_data_ok). cbn [next prev].
  set (h1 := <[x := _]> _). assert (nlist h1 (rtnl s) (l1 ++ (x, set_state d state) :: l2)) as Hr1 by (by apply (nlist_set_data _ _ l1 x d)).
  destruct (nlist_clone_run (HState h1 (budget (st_heap s))) x _ (nlist_node _ _ _ _ _ _ Hr1)) as (y & Hy & Ey). cbn [data] in Ey.
  erewrite sbind_ok by (apply on_heap_ok; exact Ey). erewrite sbind_ok by reflexivity. cbn [st_heap rtnl notify st_disk st_log cells budget].
  cbn [cells] in Hy. set (c := clone_of _). set (h2 := <[y := Node None None c]> h1).
  assert (nlist h1 (notify s) ln) as Hn1.
  { eapply (nlist_frame [x]); [apply insert_outside; by left| |exact Hn]. intros z Hz Hz'. apply list_elem_of_singleton in Hz' as ->.
    apply (Ha x); [rewrite fmap_app; set_solver|done]. }
  assert (y ∉ ln.*1) as Hyn.
  { intros Hin. destruct Hn1 as (_ & _ & D). apply (dseg_dom _ _ _ _ _ D), elem_of_dom in Hin. rewrite Hy in Hin. by destruct Hin. }
  assert (y ∉ (l1 ++ (x, set_state d state) :: l2).*1) as Hyr.
  { intros Hin. destruct Hr1 as (_ & _ & D). apply (dseg_dom _ _ _ _ _ D), elem_of_dom in Hin. rewrite Hy in Hin. by destruct Hin. }
  destruct (nlist_insert_spec (HState h2 (budget (st_heap s))) (notify s) ln y c) as (h3 & E3 & Hn3 & Hs3).
  { eapply (nlist_frame [y]); [apply insert_outside; by left| |exact Hn1]. intros z Hz Hz'. apply list_elem_of_singleton in Hz' as ->. done. }
  { apply lookup_insert_eq. }
  { done. }
  erewrite sbind_ok by (apply on_heap_ok; exact E3). eexists _, y. split; [reflexivity|]. split; [done|]. split; [done|].
  assert ((l1 ++ (x, set_state d state) :: l2).*1 = (l1 ++ (x, d) :: l2).*1) as Hk by (by rewrite !fmap_app).
  split; cbn [st_heap rtnl notify cells]; [|done|].
  - eapply (nlist_frame (y :: ln.*1)); [exact Hs3| |].
    + intros z Hz. apply not_elem_of_cons. split; [intros ->; done|]. apply Ha. by rewrite <- Hk.
    + eapply (nlist_frame [y]); [apply insert_outside; by left| |exact Hr1]. intros z Hz Hz'. apply list_elem_of_singleton in Hz' as ->. done.
  - intros z Hz. rewrite fmap_cons. apply not_elem_of_cons. split; [cbn; intros ->; done|]. apply Ha. by rewrite <- Hk.
Qed.

Lemma notify_loop_run fuel s l1 l2 ln mon_name ip_addr state :
  lists s (l1 ++ l2) ln -> (length l2 <= fuel)%nat -> Forall (fun x => is_Some (nl_dns_name x.2)) l2 ->
  exists s' new, notify_loop ns fuel (hd_loc l2 None) mon_name ip_addr state s = Some (tt, s') /\
    st_disk s' = st_disk s /\ st_log s' = st_log s /\ new.*2 = new_calls mon_name ip_addr state l2.*2 /\
    lists s' (l1 ++ (prod_map id (told mon_name ip_addr state) <$> l2)) (new ++ ln).
Proof.
  revert fuel s l1 ln. induction l2 as [|[x d] l2 IH]; intros fuel s l1 ln Hl Hf Hd.
  { exists s, []. cbn [hd_loc notify_loop]. destruct fuel; by split_and!. }
  apply Forall_cons in Hd as [Hd1 Hd]. cbn [snd] in Hd1. destruct Hd1 as [dns Hdns].
  destruct fuel as [|fuel]; [cbn in Hf; lia|]. cbn [hd_loc notify_loop]. pose proof (li_rtnl _ _ _ Hl) as Hr.
  erewrite sbind_ok by (apply on_heap_ok; apply load_ok; exact (nlist_node _ _ _ _ _ _ Hr)). cbn [data next].
  assert (St (st_heap s) (rtnl s) (notify s) (st_disk s) (st_log s) = s) as -> by (by destruct s).
  assert (concerned mon_name ip_addr state d = negb (nl_state d =? state) &&
    (statd_matchhostname ns mon_name dns || statd_matchhostname ns ip_addr dns)) as Hc by (unfold concerned; by rewrite Hdns).
  rewrite !fmap_cons. cbn [new_calls snd]. change (prod_map id (told mon_name ip_addr state) (x, d)) with
    (x, if concerned mon_name ip_addr state d then set_state d state else d). rewrite Hc, Hdns. clear Hc.
  assert (forall s1 l ln1, lists s1 (l1 ++ (x, l) :: l2) ln1 -> st_disk s1 = st_disk s -> st_log s1 = st_log s ->
    exists s' new, notify_loop ns fuel (hd_loc l2 None) mon_name ip_addr state s1 = Some (tt, s') /\
      st_disk s' = st_disk s /\ st_log s' = st_log s /\ new.*2 = new_calls mon_name ip_addr state l2.*2 /\
      lists s' (l1 ++ (x, l) :: (prod_map id (told mon_name ip_addr state) <$> l2)) (new ++ ln1)) as Hgo.
  { intros s1 l ln1 Hl1 H1 H2. destruct (IH fuel s1 (l1 ++ [(x, l)]) ln1) as (s' & new & E & Ed & Eg & En & El).
    - by rewrite <- app_assoc.
    - cbn in Hf. lia.
    - done.
    - exists s', new. rewrite <- app_assoc in El. split_and!; try done; congruence. }
  destruct (nl_state d =? state); cbn [negb andb].
  { erewrite sbind_ok by reflexivity. destruct (Hgo s d ln Hl eq_refl eq_refl) as (s' & new & E & Ed & Eg & En & El).
    exists s', new. rewrite app_nil_r. by split_and!. }
  destruct (statd_matchhostname ns mon_name dns || statd_matchhostname ns ip_addr dns).
  - destruct (queue_call_run s l1 x d l2 ln state Hl) as (s1 & y & E1 & Ed1 & Eg1 & Hl1). erewrite sbind_ok by exact E1.
    destruct (Hgo s1 _ _ Hl1 Ed1 Eg1) as (s' & new & E & Ed & Eg & En & El).
    exists s', (new ++ [(y, clone_of (set_state d state))]). rewrite <- app_assoc. split_and!; try done.
    rewrite fmap_app, En. done.
  - erewrite sbind_ok by reflexivity. destruct (Hgo s d ln Hl eq_refl eq_refl) as (s' & new & E & Ed & Eg & En & El).
    exists s', new. rewrite app_nil_r. by split_and!.
Qed.

Lemma sm_notify_run s lr ln caller ip_addr mon_name state :
  lists s lr ln -> Forall (fun x => is_Some (nl_dns_name x.2)) lr -> statd_present_address ns caller = Some ip_addr ->
  exists s' new, sm_notify_1_svc ns caller mon_name state s = Some (tt, s') /\ st_disk s' = st_disk s /\
    st_log s' = st_log s ++ [Callout $"sm-notify" mon_name ip_addr state] /\
    new.*2 = new_calls mon_name ip_addr state lr.*2 /\
    lists s' (prod_map id (told mon_name ip_addr state) <$> lr) (new ++ ln).
Proof.
  intros Hl Hd Hp. unfold sm_notify_1_svc. rewrite Hp. erewrite sbind_ok by reflexivity. erewrite sbind_ok by reflexivity.
  set (s1 := St _ _ _ _ _). assert (lists s1 ([] ++ lr) ln) as Hl1 by (by destruct Hl).
  pose proof (nlist_fuel _ _ _ (li_rtnl _ _ _ Hl)) as Hf.
  destruct (notify_loop_run (size (cells (st_heap s))) s1 [] lr ln mon_name ip_addr state Hl1 Hf Hd) as (s' & new & E & Ed & Eg & En & El).
  exists s', new. split; [|by split_and!].
  change (rtnl s1) with (rtnl s) in *. destruct (li_rtnl _ _ _ Hl) as (-> & _). destruct lr as [|[x d] lr]; [|exact E].
  cbn [hd_loc] in *. unfold mret, sM_ret. rewrite <- E. by destruct (size (cells (st_heap s))).
Qed.
End notices.

(** A peer's notice of a new state: every monitored entry of that peer whose
    state differs, by the name in the notice or by the sender's address, takes
    the new state and gets one callback, ready to go out at once with all its
    tries, in front of the calls already waiting, which stay in due order; all
    entries stay monitored, and a second notice with the same state finds
    nothing left to do. *)
Theorem sm_notify_exact ns s lr ln caller ip_addr mon_name state :
  lists s lr ln -> Forall (fun x => is_Some (nl_dns_name x.2)) lr ->
  statd_present_address ns caller = Some ip_addr ->
  exists s' new, sm_notify_1_svc ns caller mon_name state s = Some (tt, s') /\ st_disk s' = st_disk s /\
    st_log s' = st_log s ++ [Callout $"sm-notify" mon_name ip_addr state] /\
    new.*2 = new_calls ns mon_name ip_addr state lr.*2 /\
    Forall (fun x => nl_when x.2 = 0 /\ nl_times x.2 = MAX_TRIES /\ nl_port x.2 = 0 /\ nl_state x.2 = state) new /\
    lists s' (prod_map id (told ns mon_name ip_addr state) <$> lr) (new ++ ln) /\
    (by_time ln -> Forall (fun x => 0 <= nl_when x.2) ln -> by_time (new ++ ln)) /\
    new_calls ns mon_name ip_addr state (prod_map id (told ns mon_name ip_addr state) <$> lr).*2 = [].
Proof.
  intros Hl Hd Hp. destruct (sm_notify_run ns s lr ln caller ip_addr mon_name state Hl Hd Hp) as (s' & new & E & Ed & Eg & En & El).
  assert (Forall (fun x : loc * nl_entry => nl_when x.2 = 0 /\ nl_times x.2 = MAX_TRIES /\ nl_port x.2 = 0 /\ nl_state x.2 = state) new) as Hnew.
  { assert (Forall (fun d => nl_when d = 0 /\ nl_times d = MAX_TRIES /\ nl_port d = 0 /\ nl_state d = state) new.*2) as H;
      [|by apply Forall_fmap in H]. rewrite En.
    generalize (lr.*2). intros l. induction l as [|d l IH]; [constructor|]. cbn [new_calls]. apply Forall_app. split; [done|].
    destruct (concerned _ _ _ _ d); by repeat constructor. }
  exists s', new. split_and!; try done.
  - intros Hs H0. clear -Hnew Hs H0. induction Hnew as [|[x d] new (Hw & _) Hnew IH]; [done|]. cbn [app]. constructor; [done|].
    cbn [snd] in *. rewrite Hw. apply Forall_app. split; [|done]. eapply Forall_impl; [exact Hnew|]. cbn. lia.
  - clear. induction lr as [|[x d] lr IH]; [done|]. cbn [fmap list_fmap prod_map fst snd new_calls] in *.
    change (list_fmap _ _ snd ?l) with (l.*2). rewrite IH. unfold told, concerned.
    destruct (nl_state d =? state) eqn:Es; cbn [negb andb]; [by rewrite Es|].
    destruct (match nl_dns_name d with Some dns => _ | None => _ end) eqn:Em; [|by rewrite Es, Em].
    cbn [nl_state set_state]. by rewrite Z.eqb_refl.
Qed.

(** ** A peer that is monitored, with a callback for it waiting *)

Definition peer : nl_entry := NL $"a.ex" $"me" 100021 3 16 (replicate 16 "c"%char) 0 MAX_TRIES 0 (Some $"a.ex") 0 0.
Definition waiting : nl_entry := clone_of (set_state peer 7).
Definition st_ex : statd :=
  St (HState {[1%positive := Node None None peer; 2%positive := Node None None waiting]} 0) (Some 1%positive) (Some 2%positive) (Disk ∅ [] []) [].
Definition ns_one : names := Names (fun _ => None) (fun _ => None) (fun _ => None) (fun _ => Some $"10.0.0.1").

Lemma st_ex_lists : lists st_ex [(1%positive, peer)] [(2%positive, waiting)].
Proof.
  split; cbn.
  - split_and!; [done|apply NoDup_singleton|]. by split.
  - split_and!; [done|apply NoDup_singleton|]. by split.
  - intros x ->%list_elem_of_singleton ?%list_elem_of_singleton. done.
Qed.

Lemma process_notify_list_round_witness :
  exists s' ln' k', process_notify_list (fun k => Z.of_nat k + 1) 6 0 (fun k => 100 + Z.of_nat k) st_ex = Some (tt, s') /\
    lists s' [(1%positive, peer)] ln' /\ Forall (fun x => 100 + Z.of_nat k' <= nl_when x.2) ln' /\
    (sends (st_log s') + calls_left ln' = 5)%nat.
Proof.
  destruct (process_notify_list_round (fun k => Z.of_nat k + 1) (fun k => 100 + Z.of_nat k) 6 0 st_ex [(1%positive, peer)] [(2%positive, waiting)])
    as (s' & ln' & k' & E & Hl & _ & _ & _ & Hw & Hc & _).
  - exact st_ex_lists.
  - repeat constructor.
  - apply Forall_singleton. vm_compute. discriminate.
  - vm_compute. lia.
  - exists s', ln', k'. split; [exact E|]. split; [exact Hl|]. split; [exact Hw|]. rewrite Hc. reflexivity.
Defined.

Lemma process_reply_cases_witness :
  exists s', process_reply (fun k => Z.of_nat k + 1) (Some (Reply 9 111 true)) 100 st_ex = Some (tt, s') /\ s' = st_ex.
Proof.
  destruct (process_reply_cases (fun k => Z.of_nat k + 1) st_ex [(1%positive, peer)] [(2%positive, waiting)] (Reply 9 111 true) 100 st_ex_lists)
    as (s' & E & _ & H). exists s'. split; [exact E|exact H].
Defined.

Lemma sm_notify_exact_witness :
  exists s' new, sm_notify_1_svc ns_one (AF_INET 1) $"A.EX" 9 st_ex = Some (tt, s') /\ new.*2 = [clone_of (set_state peer 9)] /\
    lists s' [(1%positive, set_state peer 9)] (new ++ [(2%positive, waiting)]).
Proof.
  destruct (sm_notify_exact ns_one st_ex [(1%positive, peer)] [(2%positive, waiting)] (AF_INET 1) $"10.0.0.1" $"A.EX" 9)
    as (s' & new & E & _ & _ & Hn & _ & Hl & _).
  - exact st_ex_lists.
  - repeat constructor. by eexists.
  - reflexivity.
  - exists s', new. split; [exact E|]. split; [exact Hn|exact Hl].
Defined.
