(* ===== verification/Monitor.v ===== *)
(** * statd's monitor list and its records on disk agree (utils/statd/monitor.c)

    The requests of [Statd] change the list in memory and the files of [Nsm]
    together.  Seen from outside they implement a finite map from the names of
    peer and caller to the cookie to call back with.  The theorem is about
    callers like the kernel's lock manager, which register one procedure, on a
    disk whose calls succeed, with names that the resolver tells apart; the
    lemmas at the end show what happens when those conditions fail. *)

From S2P Require Import Prelude Heap Client Nsm Notlist Statd.

(** ** The searches *)

Lemma gethost_run (f g : cstr -> cstr -> bool) fuel (s : hstate nl_entry) p l host myname :
  dseg (cells s) p l None -> (length l <= fuel)%nat ->
  gethost_loop f g fuel (hd_loc l None) host myname s =
  Some (fst <$> (snd <$> list_find (fun x => (if negb myname then g host (nl_mon_name x.2) else f host (nl_my_name x.2)) = true) l), s).
Proof.
  revert fuel p. induction l as [|[x d] l IH]; intros fuel p D Hf; [by destruct fuel|].
  destruct D as [D1 D2]. destruct fuel as [|fuel]; [cbn in Hf; lia|]. cbn [gethost_loop hd_loc list_find snd].
  erewrite hbind_ok by (by apply load_ok). cbn [data next].
  destruct (if negb myname then g host (nl_mon_name d) else f host (nl_my_name d)) eqn:E.
  - by rewrite decide_True by done.
  - rewrite decide_False by done. rewrite (IH fuel (Some x)); [|done|cbn in Hf; lia].
    by destruct (list_find _ l) as [[i [y e]]|].
Qed.

Lemma list_find_split {A} (P : A -> Prop) `{!forall x, Decision (P x)} l i x :
  list_find P l = Some (i, x) -> exists l1 l2, l = l1 ++ x :: l2 /\ Forall (fun y => ~ P y) l1 /\ P x.
Proof.
  intros (Hi & Hx & Hn)%list_find_Some. exists (take i l), (drop (S i) l). split; [by rewrite take_drop_middle|].
  split; [|done]. apply Forall_lookup. intros j y Hj. destruct (decide (j < i)%nat) as [Hlt|Hge].
  - rewrite lookup_take_lt in Hj by done. by eapply Hn.
  - rewrite lookup_take_ge in Hj by lia. done.
Qed.

Lemma list_find_skip {A} (P : A -> Prop) `{!forall x, Decision (P x)} l1 l2 :
  Forall (fun y => ~ P y) l1 -> snd <$> list_find P (l1 ++ l2) = snd <$> list_find P l2.
Proof.
  induction 1 as [|x l1 Hx Hl IH]; [done|]. cbn [app list_find]. rewrite decide_False by done.
  rewrite <- IH. by destruct (list_find P (l1 ++ l2)) as [[i y]|].
Qed.

Section monitor.
  Context (base : cstr) (ns : names) (MY_STATE : Z).

(** What [sm_mon_1_svc] and [sm_unmon_1_svc] look for. *)
Definition wanted (mon_name my_name : cstr) (prog vers proc : Z) (d : nl_entry) : bool :=
  statd_matchhostname_pa ns mon_name (nl_mon_name d) &&
  (statd_matchhostname ns (nl_my_name d) my_name && same_id d prog vers proc).

Lemma find_mon_run fuel (s : hstate nl_entry) p l mon_name my_name prog vers proc :
  dseg (cells s) p l None -> (length l <= size (cells s))%nat -> (length l <= fuel)%nat ->
  find_mon ns fuel (hd_loc l None) mon_name my_name prog vers proc s =
  Some (fst <$> (snd <$> list_find (fun x => wanted mon_name my_name prog vers proc x.2 = true) l), s).
Proof.
  revert p l. induction fuel as [|fuel IH]; intros p l D Hs Hf; cbn [find_mon].
  - destruct l; [|cbn in Hf; lia]. erewrite hbind_ok; [|unfold nlist_gethost, with_fuel; by apply (gethost_run _ _ _ s p)]. done.
  - erewrite hbind_ok; [|unfold nlist_gethost, with_fuel; by apply (gethost_run _ _ _ s p)]. cbn [negb].
    destruct (list_find _ l) as [[i [x d]]|] eqn:E; cbn [fmap option_fmap option_map fst snd].
    + apply list_find_split in E as (l1 & l2 & -> & H1 & H2). cbn [snd] in H2. apply dseg_app in D as [_ [D1 D2]].
      erewrite hbind_ok by (by apply load_ok). cbn [data next].
      pose proof (list_find_skip (fun x => wanted mon_name my_name prog vers proc x.2 = true) l1 ((x, d) :: l2)) as Hk.
      change (snd <$> ?a) with (option_map snd a) in Hk |- *. rewrite Hk.
      2:{ eapply Forall_impl; [exact H1|]. intros [y e] Hy Hw. unfold wanted in Hw. apply andb_true_iff in Hw as [Hw _]. done. }
      cbn [list_find snd].
      destruct (statd_matchhostname ns (nl_my_name d) my_name && same_id d prog vers proc) eqn:Em.
      * rewrite decide_True; [done|]. unfold wanted. cbn [snd]. by rewrite H2.
      * rewrite decide_False; [|unfold wanted; cbn [snd]; by rewrite H2, Em].
        rewrite length_app in Hs, Hf. cbn in Hs, Hf. rewrite (IH (Some x)); [|done|lia|lia].
        by destruct (list_find _ l2) as [[j [y e]]|].
    + assert (list_find (fun x => wanted mon_name my_name prog vers proc x.2 = true) l = None) as ->; [|done].
      apply list_find_None in E. apply list_find_None. eapply Forall_impl; [exact E|]. intros [y e] Hy Hw.
      unfold wanted in Hw. apply andb_true_iff in Hw as [Hw _]. done.
Qed.


(** ** The files, on a disk whose calls succeed *)

(** A host whose file has a legal path name. *)
Definition host_path (h : cstr) (p : path) : Prop :=
  nsm_make_record_pathname base NSM_MONITOR_DIR h = Some p /\ Z.of_nat (length p) + 7 <= PATH_MAX /\ deref h <> "."%char.

Lemma disk_delete h p ms mon_n my_n (d : disk) :
  host_path h p -> Forall rec_ok ms -> script d = [] -> files d !! p = host_file ms ->
  exists d', nsm_delete_monitored_host base h mon_n my_n d = (Some tt, d') /\ script d' = [] /\
    files d' !! p = host_file (kept mon_n my_n ms) /\ forall q, q <> p -> q <> p ++ $".new" -> files d' !! q = files d !! q.
Proof.
  intros (Hp & Ht & _) Hms Hs Hf. destruct (nsm_delete_fine base h p Hp Ht ms mon_n my_n d Hms Hs Hf) as [H1 H2].
  destruct (nsm_delete_host_step base NSM_MONITOR_DIR h p ms mon_n my_n d Hp Hms Hf) as (d' & E & hs & _ & [[_ H3] _]%Forall_cons).
  { intros n. rewrite Hs. done. }
  unfold nsm_delete_monitored_host in *. rewrite E in *. exists d'. by split_and!.
Qed.

Lemma disk_insert h p ms m (d : disk) :
  host_path h p -> rec_ok m -> script d = [] -> files d !! p = host_file ms ->
  exists d', nsm_insert_monitored_host base h m d = (true, d') /\ script d' = [] /\
    files d' !! p = host_file (ms ++ [m]) /\ forall q, q <> p -> q <> p ++ $".new" -> files d' !! q = files d !! q.
Proof.
  intros (Hp & Ht & _) Hm Hs Hf. destruct (nsm_insert_fine base h p Hp Ht ms m d Hm Hs Hf) as [H1 H2].
  assert (fst (nsm_insert_monitored_host base h m d) = true /\
    forall q, q <> p -> q <> p ++ $".new" -> files (snd (nsm_insert_monitored_host base h m d)) !! q = files d !! q) as [H3 H4].
  2:{ destruct (nsm_insert_monitored_host base h m d) as [ok d']. cbn in *. subst ok. exists d'. by split_and!. }
  clear H1 H2. unfold nsm_insert_monitored_host. rewrite Hp, create_record by done. rewrite bind_run.
  destruct (decide (ms = [])) as [->|Hne].
  - unfold mbind, dM_bind, sys_create_excl, sys_write, sys_close, syscall. rewrite Hs, Hf. cbn.
    unfold exact_error_check. rewrite Z.eqb_refl, (proj2 (Z.ltb_ge _ _)) by lia. cbn. split; [done|].
    intros q Hq _. by rewrite !lookup_insert_ne by done.
  - rewrite host_file_cons in Hf by done. rewrite (sys_create_excl_exists p _ d Hf). cbn [fst snd].
    destruct (after_read_fine d Hs) as [Hs1 ->].
    pose proof (nsm_append_fine base h p Hp Ht (file_of ms) (record_text m) (after_read d) Hs1 Hf) as H.
    destruct (nsm_append_monitored_host _ _ _) as [ok d']. destruct H as (-> & _ & Hd). cbn [fst snd]. split; [done|].
    intros q Hq Hq'. by rewrite Hd, lookup_insert_ne, lookup_delete_ne by done.
Qed.

(** ** Agreement *)

(** One procedure registers; the names in use are told apart by the resolver, and
    each has a file of its own that is not another's temporary file. *)
Record setting := Setting
  { vers0 : Z; proc0 : Z; known : cstr -> Prop; hosts : list cstr }.
Context (E : setting).
Record setting_ok : Prop := SettingOk
  { so_proc : proc0 E = 16 \/ proc0 E = 24;
    so_match : forall a b, known E a -> known E b -> statd_matchhostname ns a b = true -> a = b;
    so_canon : forall a h, known E a -> statd_canonical_name ns a = Some h -> h ∈ hosts E;
    so_path : forall h, h ∈ hosts E -> exists p, host_path h p;
    so_temp : forall h h', h ∈ hosts E -> h' ∈ hosts E -> h' <> h ++ $".new";
    so_nodup : NoDup (hosts E) }.

Definition rec_of (d : nl_entry) : mon :=
  Mon LOOPBACK_NET (nl_my_prog d) (nl_my_vers d) (nl_my_proc d) (nl_priv d) (nl_mon_name d) (nl_my_name d).
Definition key (d : nl_entry) : cstr * cstr := (nl_mon_name d, nl_my_name d).

Record entry_ok (d : nl_entry) : Prop := EntryOk
  { en_id : same_id d 100021 (vers0 E) (proc0 E) = true;
    en_mon : known E (nl_mon_name d); en_my : known E (nl_my_name d);
    en_dns : is_Some (nl_dns_name d) /\ nl_dns_name d = statd_canonical_name ns (nl_mon_name d);
    en_rec : rec_ok (rec_of d) }.

(** The records that the file of a host should hold. *)
Definition records (h : cstr) (l : list nl_entry) : list mon := rec_of <$> filter (fun d => nl_dns_name d = Some h) l.

Definition agree (d : disk) (l : list nl_entry) : Prop :=
  forall h p, h ∈ hosts E -> host_path h p -> exists ms, files d !! p = host_file ms /\ ms ≡ₚ records h l.

Record synced (s : statd) (lr ln : list (loc * nl_entry)) : Prop := Synced
  { sy_lists : lists s lr ln; sy_script : script (st_disk s) = [];
    sy_entries : Forall entry_ok lr.*2; sy_keys : NoDup (key <$> lr.*2); sy_agree : agree (st_disk s) lr.*2 }.

(** The map that the list stands for. *)
Definition table (l : list nl_entry) : gmap (cstr * cstr) (list ascii) := list_to_map ((fun d => (key d, nl_priv d)) <$> l).

Lemma table_perm l l' : NoDup (key <$> l) -> l ≡ₚ l' -> table l = table l'.
Proof.
  intros Hn Hp. apply list_to_map_proper; [|by rewrite Hp]. by rewrite <- list_fmap_compose.
Qed.

Lemma table_lookup_none l k : k ∉ key <$> l -> table l !! k = None.
Proof. intros H. apply not_elem_of_list_to_map_1. by rewrite <- list_fmap_compose. Qed.

Lemma records_ok h l : Forall entry_ok l -> Forall rec_ok (records h l).
Proof.
  intros Hl. apply Forall_fmap, Forall_forall. intros d [_ Hd]%list_elem_of_filter. rewrite Forall_forall in Hl.
  apply en_rec, Hl, Hd.
Qed.

(** A change of the list that changes only one host's file. *)
Lemma agree_change d d' l l' h p ms :
  setting_ok -> agree d l -> h ∈ hosts E -> host_path h p ->
  files d' !! p = host_file ms -> ms ≡ₚ records h l' ->
  (forall q, q <> p -> q <> p ++ $".new" -> files d' !! q = files d !! q) ->
  (forall h', h' <> h -> records h' l' ≡ₚ records h' l) -> agree d' l'.
Proof.
  intros HS Ha Hh Hp Hf Hms Hq Hr h' p' Hh' Hp'. destruct (decide (h' = h)) as [->|Hne].
  - assert (p' = p) as -> by (destruct Hp as (? & _), Hp' as (? & _); congruence). eauto.
  - destruct (Ha h' p' Hh' Hp') as (ms' & Hf' & Hms'). exists ms'. rewrite Hr by done. split; [|done]. rewrite Hq; [done| |].
    + intros ->. destruct Hp as (Hp & _), Hp' as (Hp' & _). by eapply Hne, record_paths_inj.
    + intros ->. destruct Hp as (Hp%record_pathname_inv & _), Hp' as (Hp'%record_pathname_inv & _). subst p.
      apply (so_temp HS h h' Hh Hh'). rewrite <- !app_assoc in Hp'. by do 4 apply app_inv_head in Hp'.
Qed.

Lemma kept_records h k l :
  kept k.1 k.2 (records h l) = records h (filter (fun d => key d <> k) l).
Proof.
  unfold kept, records. destruct k as [a b]. cbn [fst snd]. induction l as [|d l IH]; [done|].
  rewrite !filter_cons. assert (selected a b (rec_of d) = false <-> key d <> (a, b)) as Hs.
  { unfold selected, key. cbn [rec_of mon_name my_name]. destruct (streq a (nl_mon_name d)) eqn:E1; cbn [andb].
    - apply streq_true in E1 as ->. destruct (streq b (nl_my_name d)) eqn:E2.
      + apply streq_true in E2 as ->. split; [done|]. intros H. by destruct H.
      + apply streq_false in E2. split; [|done]. intros _ [= H]. by apply E2.
    - apply streq_false in E1. split; [|done]. intros _ [= H _]. by apply E1. }
  destruct (decide (nl_dns_name d = Some h)) as [Hd|Hd]; rewrite ?fmap_cons, ?filter_cons.
  - destruct (decide (key d <> (a, b))) as [Hk|Hk].
    + rewrite filter_cons, !decide_True by (tauto || done). cbn. by f_equal.
    + rewrite decide_False by tauto. exact IH.
  - destruct (decide (key d <> (a, b))); [rewrite filter_cons, decide_False by done|]; exact IH.
Qed.


Lemma records_perm h l l' : l ≡ₚ l' -> records h l ≡ₚ records h l'.
Proof. intros H. unfold records. by rewrite H. Qed.

Lemma records_cons h d l : records h (d :: l) = if decide (nl_dns_name d = Some h) then rec_of d :: records h l else records h l.
Proof. unfold records. rewrite filter_cons. by case_decide. Qed.

(** Entries with the names [k] are records of one host only. *)
Lemma records_other h h' k l :
  Forall entry_ok l -> statd_canonical_name ns k.1 = Some h -> h' <> h -> records h' (filter (fun d => key d <> k) l) = records h' l.
Proof.
  intros Hl Hk Hne. induction Hl as [|d l Hd Hl IH]; [done|]. rewrite filter_cons, records_cons.
  destruct (decide (key d <> k)) as [Hd'|Hd']; [rewrite records_cons, IH; done|].
  apply dec_stable in Hd'. destruct (en_dns d Hd) as [_ ->]. rewrite decide_False; [done|]. rewrite <- Hd' in Hk. cbn in Hk. congruence.
Qed.

Lemma disk_forget (d : disk) l h k :
  setting_ok -> agree d l -> Forall entry_ok l -> script d = [] -> known E k.1 -> statd_canonical_name ns k.1 = Some h ->
  exists d', nsm_delete_monitored_host base h k.1 k.2 d = (Some tt, d') /\ script d' = [] /\ agree d' (filter (fun e => key e <> k) l).
Proof.
  intros HS Ha Hl Hs Hk Hc. pose proof (so_canon HS _ _ Hk Hc) as Hh. destruct (so_path HS h Hh) as [p Hp].
  destruct (Ha h p Hh Hp) as (ms & Hf & Hms).
  destruct (disk_delete h p ms k.1 k.2 d Hp) as (d' & E1 & H1 & H2 & H3); [|done|done|].
  { rewrite Hms. by apply records_ok. }
  exists d'. split; [done|]. split; [done|]. eapply agree_change; [done|exact Ha|exact Hh|exact Hp|exact H2| |exact H3|].
  - rewrite <- kept_records. unfold kept. by rewrite Hms.
  - intros h' Hne. by rewrite (records_other h).
Qed.

Lemma disk_register (d : disk) l h e :
  setting_ok -> agree d l -> Forall entry_ok l -> script d = [] -> entry_ok e -> nl_dns_name e = Some h ->
  exists d1 d2, nsm_delete_monitored_host base h (nl_mon_name e) (nl_my_name e) d = (Some tt, d1) /\
    nsm_insert_monitored_host base h (rec_of e) d1 = (true, d2) /\ script d2 = [] /\
    forall l', l' ≡ₚ e :: filter (fun x => key x <> key e) l -> agree d2 l'.
Proof.
  intros HS Ha Hl Hs He Hd. pose proof (en_dns e He) as [_ Hc]. rewrite Hd in Hc. symmetry in Hc.
  destruct (disk_forget d l h (key e) HS Ha Hl Hs (en_mon e He) Hc) as (d1 & E1 & Hs1 & Ha1).
  pose proof (so_canon HS _ _ (en_mon e He) Hc) as Hh. destruct (so_path HS h Hh) as [p Hp].
  destruct (Ha1 h p Hh Hp) as (ms & Hf & Hms).
  destruct (disk_insert h p ms (rec_of e) d1 Hp (en_rec e He) Hs1 Hf) as (d2 & E2 & Hs2 & Hf2 & Hq2).
  exists d1, d2. split; [exact E1|]. split; [done|]. split; [done|]. intros l' Hl'.
  eapply agree_change; [done|exact Ha1|exact Hh|exact Hp|exact Hf2| |exact Hq2|].
  - rewrite (records_perm h _ _ Hl'), records_cons, decide_True by done. rewrite Hms. by rewrite Permutation_app_comm.
  - intros h' Hne. rewrite (records_perm h' _ _ Hl'), records_cons, decide_False by congruence. done.
Qed.

(** ** Finding an entry by its names *)

Lemma pa_match a b : statd_matchhostname_pa ns a b = true -> statd_matchhostname ns a b = true.
Proof.
  unfold statd_matchhostname_pa. destruct (strcaseeq a b) eqn:Es; [intros _; unfold statd_matchhostname; by rewrite Es|].
  destruct (inet_pton4 a); [done|]. destruct (inet_pton4 b); [done|]. done.
Qed.

Lemma wanted_key d a b :
  setting_ok -> entry_ok d -> known E a -> known E b -> wanted a b 100021 (vers0 E) (proc0 E) d = true <-> key d = (a, b).
Proof.
  intros HS Hd Ka Kb. unfold wanted, key. rewrite (en_id d Hd), andb_true_r, andb_true_iff. split.
  - intros [H1%pa_match H2]. apply (so_match HS) in H1; [|done|by apply en_mon]. apply (so_match HS) in H2; [|by apply en_my|done]. congruence.
  - intros [= -> ->]. unfold statd_matchhostname_pa, statd_matchhostname. by rewrite !strcaseeq_refl.
Qed.

(** The search in [sm_mon_1_svc] and [sm_unmon_1_svc]: the entry with the names, or none. *)
Lemma find_synced s lr ln a b :
  setting_ok -> synced s lr ln -> known E a -> known E b ->
  exists r, on_heap (with_fuel (fun fuel => find_mon ns fuel (rtnl s) a b 100021 (vers0 E) (proc0 E))) s = Some (r, s) /\
    match r with
    | None => (a, b) ∉ key <$> lr.*2
    | Some x => exists l1 d l2, lr = l1 ++ (x, d) :: l2 /\ key d = (a, b)
    end.
Proof.
  intros HS [Hl _ He _ _] Ka Kb. pose proof (li_rtnl _ _ _ Hl) as Hr. pose proof (nlist_fuel _ _ _ Hr) as Hf.
  destruct Hr as (Hh & _ & D). eexists. split.
  { unfold on_heap, with_fuel. rewrite Hh at 1. rewrite (find_mon_run _ (st_heap s) None lr) by done. by destruct s. }
  assert (forall d, d ∈ lr.*2 -> wanted a b 100021 (vers0 E) (proc0 E) d = true <-> key d = (a, b)) as Hw.
  { intros d Hd. apply wanted_key; [done| |done|done]. rewrite Forall_forall in He. by apply He. }
  destruct (list_find _ lr) as [[i [x d]]|] eqn:Ef; cbn [fmap option_fmap option_map fst snd].
  - apply list_find_split in Ef as (l1 & l2 & -> & _ & H2). cbn [snd] in H2. exists l1, d, l2. split; [done|].
    apply Hw; [|done]. rewrite fmap_app, fmap_cons. set_solver.
  - apply list_find_None in Ef. intros (d & Hk & ([x d'] & -> & Hin)%list_elem_of_fmap)%list_elem_of_fmap.
    rewrite Forall_forall in Ef. apply (Ef (x, d') Hin). cbn [snd]. apply Hw; [|done]. apply list_elem_of_fmap. by exists (x, d').
Qed.

Lemma filter_key l1 d l2 :
  NoDup (key <$> (l1 ++ d :: l2)) -> filter (fun e => key e <> key d) (l1 ++ d :: l2) = l1 ++ l2.
Proof.
  rewrite fmap_app, fmap_cons. intros (_ & N2 & [N3 _]%NoDup_cons)%NoDup_app.
  rewrite filter_app, filter_cons. case_decide as Hd; [by destruct Hd|]. f_equal; apply filter_all, Forall_forall; intros e He Hk.
  - apply (N2 (key e)); [apply list_elem_of_fmap; eauto|rewrite Hk; by left].
  - apply N3. rewrite <- Hk. apply list_elem_of_fmap. eauto.
Qed.

Lemma filter_absent k (l : list nl_entry) : k ∉ key <$> l -> filter (fun e => key e <> k) l = l.
Proof.
  intros H. apply filter_all, Forall_forall. intros e He <-. apply H, list_elem_of_fmap. eauto.
Qed.


(** ** Requests *)

Definition local : sockaddr := AF_INET INADDR_LOOPBACK.

(** A request of the kernel's lock manager. *)
Record mon_req (a : mon) : Prop := MonReq
  { mr_prog : my_prog a = 100021; mr_vers : my_vers a = vers0 E; mr_proc : my_proc a = proc0 E;
    mr_mon : known E (mon_name a); mr_my : known E (my_name a); mr_blank : no_blanks (my_name a) = my_name a;
    mr_slash : "/"%char ∉ mon_name a; mr_dot : deref (mon_name a) <> "."%char;
    mr_canon : is_Some (statd_canonical_name ns (mon_name a));
    mr_rec : rec_ok (Mon LOOPBACK_NET (my_prog a) (my_vers a) (my_proc a) (priv a) (mon_name a) (my_name a)) }.

(** The entry for a request. *)
Definition is_entry (a : mon) (e : nl_entry) : Prop :=
  nl_my_prog e = my_prog a /\ nl_my_vers e = my_vers a /\ nl_my_proc e = my_proc a /\ nl_priv e = priv a /\
  nl_mon_name e = mon_name a /\ nl_my_name e = my_name a /\ nl_dns_name e = statd_canonical_name ns (mon_name a).

Lemma is_entry_ok a e : mon_req a -> is_entry a e -> entry_ok e.
Proof.
  intros [] (H1 & H2 & H3 & H4 & H5 & H6 & H7). split.
  - unfold same_id. rewrite H1, H2, H3, mr_prog0, mr_vers0, mr_proc0, !Z.eqb_refl. done.
  - by rewrite H5.
  - by rewrite H6.
  - rewrite H7, H5. done.
  - unfold rec_of. by rewrite H1, H2, H3, H4, H5, H6.
Qed.

(** The list and the disk behind a request, from what they were. *)
Lemma synced_change s lr ln s' lr' ln' l :
  synced s lr ln -> lists s' lr' ln' -> script (st_disk s') = [] -> agree (st_disk s') lr'.*2 ->
  lr'.*2 ≡ₚ l -> Forall entry_ok l -> NoDup (key <$> l) -> synced s' lr' ln'.
Proof. intros _ Hl Hs Ha Hp Hf Hn. split; [done|done| | |done]; by rewrite Hp. Qed.

Lemma table_register l e k : key e = k -> NoDup (key <$> l) -> k ∉ key <$> filter (fun x => key x <> k) l.
Proof. intros _ _ (d & -> & [H _]%list_elem_of_filter)%list_elem_of_fmap. done. Qed.

Lemma NoDup_filter_key k l : NoDup (key <$> l) -> NoDup (key <$> filter (fun x => key x <> k) l).
Proof.
  induction l as [|d l IH]; [done|]. rewrite fmap_cons, filter_cons. intros [H1 H2]%NoDup_cons. case_decide; [|by apply IH].
  rewrite fmap_cons. apply NoDup_cons. split; [|by apply IH]. intros (e & He & [_ Hin]%list_elem_of_filter)%list_elem_of_fmap.
  apply H1. rewrite He. apply list_elem_of_fmap. eauto.
Qed.

Lemma table_filter k l : NoDup (key <$> l) -> table (filter (fun x => key x <> k) l) = delete k (table l).
Proof.
  induction l as [|d l IH]; [intros _; unfold table; cbn; by rewrite delete_empty|]. rewrite fmap_cons, filter_cons. intros [H1 H2]%NoDup_cons.
  case_decide as Hk.
  - unfold table in *. cbn [fmap list_fmap list_to_map foldr curry fst snd]. rewrite delete_insert_ne by done. by rewrite <- IH.
  - rewrite IH by done. unfold table. cbn [fmap list_fmap list_to_map foldr curry fst snd]. rewrite Hk.
    by rewrite delete_insert_eq.
Qed.

(** What a registration leaves. *)
Lemma registered l e l' :
  Forall entry_ok l -> NoDup (key <$> l) -> entry_ok e -> l' ≡ₚ e :: filter (fun x => key x <> key e) l ->
  Forall entry_ok l' /\ NoDup (key <$> l') /\ table l' = <[key e := nl_priv e]> (table l).
Proof.
  intros Hl Hn He Hp. assert (NoDup (key <$> (e :: filter (fun x => key x <> key e) l))) as Hn'.
  { rewrite fmap_cons. apply NoDup_cons. split; [by eapply table_register|by apply NoDup_filter_key]. }
  split; [|split].
  - rewrite Hp. constructor; [done|]. rewrite Forall_forall in *. intros x [_ Hx]%list_elem_of_filter. by apply Hl.
  - by rewrite Hp.
  - rewrite (table_perm l' (e :: filter (fun x => key x <> key e) l)) by (done || by rewrite Hp). trans (<[key e := nl_priv e]> (table (filter (fun x => key x <> key e) l))); [done|].
    by rewrite table_filter, insert_delete_eq.
Qed.

Lemma St_eta s : St (st_heap s) (rtnl s) (notify s) (st_disk s) (st_log s) = s.
Proof. by destruct s. Qed.

(** Changing an entry of the monitor list, and adding one. *)
Lemma rtnl_set_run s l1 x d l2 ln d' :
  lists s (l1 ++ (x, d) :: l2) ln ->
  exists s', on_heap (set_data (Some x) d') s = Some (tt, s') /\ rtnl s' = rtnl s /\ st_disk s' = st_disk s /\ st_log s' = st_log s /\
    lists s' (l1 ++ (x, d') :: l2) ln.
Proof.
  intros [Hr Hn Ha]. pose proof (nlist_node _ _ _ _ _ _ Hr) as Hx.
  eexists. split; [apply on_heap_ok; by apply set_data_ok|]. cbn [next prev]. split_and!; try done.
  split; cbn [st_heap rtnl notify cells].
  - by apply (nlist_set_data _ _ l1 x d).
  - eapply (nlist_frame [x]); [apply insert_outside; by left| |exact Hn]. intros y Hy Hy'. apply list_elem_of_singleton in Hy' as ->.
    apply (Ha x); [rewrite fmap_app; set_solver|done].
  - intros y Hy. apply Ha. by rewrite fmap_app, fmap_cons in *.
Qed.

(** An entry that is on neither list yet. *)
Record spare (s : statd) (y : loc) (e : nl_entry) (lr ln : list (loc * nl_entry)) : Prop := Spare
  { sp_lists : lists s lr ln; sp_node : unlinked (cells (st_heap s)) y e; sp_rtnl : y ∉ lr.*1; sp_notify : y ∉ ln.*1 }.

Lemma new_run s lr ln my_n mon_n a h :
  lists s lr ln ->
  let e := NL mon_n my_n (my_prog a) (my_vers a) (my_proc a) (priv a) 0 MAX_TRIES 0 (Some h) 0 0 in
  exists s' y, new_entry my_n mon_n a h s = Some (Some y, s') /\
    st_disk s' = st_disk s /\ rtnl s' = rtnl s /\ st_log s' = st_log s /\ spare s' y e lr ln.
Proof.
  intros [Hr Hn Ha] e. pose (y := fresh (dom (cells (st_heap s)))). assert (cells (st_heap s) !! y = None) as Hy by apply fresh_cells.
  unfold new_entry. erewrite sbind_ok by (apply on_heap_ok; reflexivity). fold y. unfold fill_entry.
  erewrite sbind_ok.
  2:{ erewrite sbind_ok by (apply on_heap_ok; apply load_ok; apply lookup_insert_eq). cbn [data].
      apply on_heap_ok, set_data_ok, lookup_insert_eq. }
  cbn [next prev cells budget st_heap rtnl notify st_disk st_log].
  rewrite insert_insert_eq. eexists _, y. split; [reflexivity|]. split; [done|]. split; [done|]. split; [done|].
  assert (forall l head, nlist (cells (st_heap s)) head l -> y ∉ l.*1 /\ forall n, nlist (<[y := n]> (cells (st_heap s))) head l) as Hf.
  { intros l head Hl. assert (y ∉ l.*1) as Hyl.
    { intros Hin. destruct Hl as (_ & _ & D). apply (dseg_dom _ _ _ _ _ D), elem_of_dom in Hin. rewrite Hy in Hin. by destruct Hin. }
    split; [done|]. intros n. eapply (nlist_frame [y]); [apply insert_outside; by left| |exact Hl]. set_solver. }
  split; [split| | |]; cbn [st_heap rtnl notify cells]; [by apply Hf|by apply Hf|done|apply lookup_insert_eq|by eapply Hf|by eapply Hf].
Qed.

Lemma rtnl_insert_run s y e lr ln :
  spare s y e lr ln ->
  exists s', (head ← get_rtnl; head ← on_heap (nlist_insert head (Some y)); set_rtnl head) s = Some (tt, s') /\
    st_disk s' = st_disk s /\ st_log s' = st_log s /\ lists s' ((y, e) :: lr) ln.
Proof.
  intros [[Hr Hn Ha] Hu H1 H2]. destruct (nlist_insert_spec (st_heap s) (rtnl s) lr y e Hr Hu H1) as (h3 & E3 & Hr3 & Hs3).
  erewrite sbind_ok by reflexivity. erewrite sbind_ok by (apply on_heap_ok; exact E3). eexists. split; [reflexivity|].
  split; [done|]. split; [done|]. split; cbn [st_heap rtnl notify cells]; [done| |].
  - eapply nlist_frame; [exact Hs3| |exact Hn]. intros z Hz. apply not_elem_of_cons. split; [intros ->; done|]. intros Hz'. by apply (Ha z).
  - intros z. rewrite fmap_cons. intros [->|Hz]%elem_of_cons; [done|]. by apply Ha.
Qed.


Lemma register_found s l1 x d l2 ln a h :
  setting_ok -> synced s (l1 ++ (x, d) :: l2) ln -> mon_req a -> key d = (mon_name a, my_name a) ->
  statd_canonical_name ns (mon_name a) = Some h ->
  exists s' lr', sm_mon_register base MY_STATE (Some x) h (mon_name a) (my_name a) a s = Some ((STAT_SUCC, MY_STATE), s') /\ synced s' lr' ln /\
    table lr'.*2 = <[(mon_name a, my_name a) := priv a]> (table (l1 ++ (x, d) :: l2).*2).
Proof.
  intros HS [Hl Hsc He Hk Hag] Ha Hkd Hc. pose proof (nlist_node _ _ _ _ _ _ (li_rtnl _ _ _ Hl)) as Hx. injection Hkd as Hm Hy.
  assert ((l1 ++ (x, d) :: l2).*2 = l1.*2 ++ d :: l2.*2) as Hl2 by (by rewrite fmap_app). rewrite Hl2 in *.
  unfold sm_mon_register, fill_entry. set (d' := set_id d (my_prog a) (my_vers a) (my_proc a) (priv a) (Some h)).
  assert (is_entry a d') as Hi by (unfold is_entry, d'; cbn; rewrite Hm, Hy, Hc; done). pose proof (is_entry_ok a d' Ha Hi) as Hd'.
  destruct (rtnl_set_run s l1 x d l2 ln d' Hl) as (s1 & E1 & Er1 & Ed1 & Eg1 & Hl1).
  erewrite sbind_ok.
  2:{ erewrite sbind_ok; [reflexivity|]. erewrite sbind_ok by (apply on_heap_ok; by apply load_ok). rewrite St_eta. exact E1. }
  destruct (disk_register (st_disk s) (l1.*2 ++ d :: l2.*2) h d' HS Hag He Hsc Hd' eq_refl) as (d1 & d2 & D1 & D2 & D3 & D4).
  change (nl_mon_name d') with (nl_mon_name d) in D1. change (nl_my_name d') with (nl_my_name d) in D1. rewrite Hm, Hy in D1.
  erewrite sbind_ok by (unfold on_disk; rewrite Ed1, D1; reflexivity). cbv beta iota.
  erewrite sbind_ok.
  2:{ unfold on_disk. cbn [st_disk]. replace (Mon _ _ _ _ _ _ _) with (rec_of d'); [rewrite D2; reflexivity|].
      unfold rec_of, d'. cbn. by rewrite Hm, Hy. }
  cbn [negb]. erewrite sbind_ok by reflexivity. eexists _, (l1 ++ (x, d') :: l2). split; [reflexivity|].
  assert ((l1 ++ (x, d') :: l2).*2 ≡ₚ d' :: filter (fun e => key e <> key d') (l1.*2 ++ d :: l2.*2)) as Hp.
  { change (key d') with (key d). rewrite filter_key by done. rewrite fmap_app, fmap_cons. cbn [snd]. solve_Permutation. }
  destruct (registered _ d' _ He Hk Hd' Hp) as (R1 & R2 & R3).
  split; [|rewrite R3; unfold key, d'; cbn [nl_mon_name nl_my_name nl_priv set_id]; by rewrite Hm, Hy].
  split; cbn [st_disk]; [|done|done|done|by apply D4]. by destruct Hl1.
Qed.

Lemma register_new s lr ln a h :
  setting_ok -> synced s lr ln -> mon_req a -> (mon_name a, my_name a) ∉ key <$> lr.*2 ->
  statd_canonical_name ns (mon_name a) = Some h ->
  exists s' lr', sm_mon_register base MY_STATE None h (mon_name a) (my_name a) a s = Some ((STAT_SUCC, MY_STATE), s') /\ synced s' lr' ln /\
    table lr'.*2 = <[(mon_name a, my_name a) := priv a]> (table lr.*2).
Proof.
  intros HS [Hl Hsc He Hk Hag] Ha Hno Hc. unfold sm_mon_register.
  destruct (new_run s lr ln (my_name a) (mon_name a) a h Hl) as (s1 & y & E1 & Ed1 & Er1 & Eg1 & Hsp).
  erewrite sbind_ok by exact E1. set (e := NL _ _ _ _ _ _ _ _ _ _ _ _) in *.
  assert (is_entry a e) as Hi by (by unfold is_entry, e; rewrite Hc). pose proof (is_entry_ok a e Ha Hi) as Hd'.
  destruct (disk_register (st_disk s) lr.*2 h e HS Hag He Hsc Hd' eq_refl) as (d1 & d2 & D1 & D2 & D3 & D4).
  cbn [e nl_mon_name nl_my_name] in D1. erewrite sbind_ok by (unfold on_disk; rewrite Ed1, D1; reflexivity). cbv beta iota.
  erewrite sbind_ok by (unfold on_disk; cbn [st_disk]; change (Mon _ _ _ _ _ _ _) with (rec_of e); rewrite D2; reflexivity).
  cbn [negb]. erewrite sbind_ok by reflexivity. cbn [st_heap rtnl notify st_disk st_log]. set (s2 := St _ _ _ _ _).
  assert (spare s2 y e lr ln) as Hsp2 by (destruct Hsp as [[]]; by split).
  destruct (rtnl_insert_run s2 y e lr ln Hsp2) as (s3 & E3 & Ed3 & Eg3 & Hl3). erewrite sbind_ok by exact E3.
  exists s3, ((y, e) :: lr). split; [done|].
  assert (((y, e) :: lr).*2 ≡ₚ e :: filter (fun x => key x <> key e) lr.*2) as Hp by (by rewrite filter_absent).
  destruct (registered _ e _ He Hk Hd' Hp) as (R1 & R2 & R3). split; [|by rewrite R3].
  split; [done|by rewrite Ed3|done|done|]. rewrite Ed3. by apply D4.
Qed.

Lemma sm_mon_run s lr ln a :
  setting_ok -> synced s lr ln -> mon_req a ->
  exists s' lr', sm_mon_1_svc base ns MY_STATE local a s = Some ((STAT_SUCC, MY_STATE), s') /\ synced s' lr' ln /\
    table lr'.*2 = <[(mon_name a, my_name a) := priv a]> (table lr.*2).
Proof.
  intros HS Hs Ha. unfold sm_mon_1_svc, caller_is_localhost, nfs_is_v4_loopback, local.
  rewrite Z.eqb_refl, (mr_prog a Ha), Z.eqb_refl. cbn [negb orb].
  replace (negb (my_proc a =? 16) && negb (my_proc a =? 24)) with false
    by (rewrite (mr_proc a Ha); destruct (so_proc HS) as [-> | ->]; done).
  replace (existsb (ceqb "/") (mon_name a)) with false.
  2:{ symmetry. apply not_true_iff_false. intros (c & Hc & Heq%ceqb_true)%existsb_exists. apply (mr_slash a Ha), list_elem_of_In. by subst c. }
  rewrite (proj2 (ceqb_false _ _) (mr_dot a Ha)). cbn [orb]. rewrite (mr_blank a Ha). destruct (mr_canon a Ha) as [h Hc]. rewrite Hc.
  erewrite sbind_ok by reflexivity. rewrite (mr_vers a Ha), (mr_proc a Ha).
  destruct (find_synced s lr ln _ _ HS Hs (mr_mon a Ha) (mr_my a Ha)) as (found & Ef & Hfound). erewrite sbind_ok by exact Ef.
  destruct found as [x|]; [|by apply register_new].
  destruct Hfound as (l1 & d & l2 & -> & Hkd). pose proof (nlist_node _ _ _ _ _ _ (li_rtnl _ _ _ (sy_lists _ _ _ Hs))) as Hx.
  erewrite sbind_ok by (apply on_heap_ok; by apply load_ok). rewrite St_eta. cbn [data].
  destruct (streq (nl_priv d) (priv a)) eqn:Ep; [|by apply register_found].
  apply streq_true in Ep. exists s, (l1 ++ (x, d) :: l2). split; [done|]. split; [done|].
  symmetry. apply insert_id, elem_of_list_to_map_1.
  - rewrite <- list_fmap_compose. apply Hs.
  - apply list_elem_of_fmap. exists d. rewrite Hkd, Ep. split; [done|]. rewrite fmap_app, fmap_cons. set_solver.
Qed.

(** Taking an entry off both. *)
Lemma rtnl_unlink_run s l1 x d l2 ln :
  setting_ok -> synced s (l1 ++ (x, d) :: l2) ln ->
  exists h d' h2 p2, nl_dns_name d = Some h /\
    nsm_delete_monitored_host base h (nl_mon_name d) (nl_my_name d) (st_disk s) = (Some tt, d') /\
    (forall log, on_heap (nlist_free (Some (rtnl s)) (Some x)) (St (st_heap s) (rtnl s) (notify s) d' log) =
                   Some (Some p2, St h2 (rtnl s) (notify s) d' log) /\
                 synced (St h2 p2 (notify s) d' log) (l1 ++ l2) ln) /\
    table (l1 ++ l2).*2 = delete (key d) (table (l1 ++ (x, d) :: l2).*2).
Proof.
  intros HS [Hl Hsc He Hk Hag]. assert ((l1 ++ (x, d) :: l2).*2 = l1.*2 ++ d :: l2.*2) as Hl2 by (by rewrite fmap_app). rewrite Hl2 in *.
  assert (entry_ok d) as Hd by (apply Forall_app in He as [_ [? _]%Forall_cons]; done).
  destruct (en_dns d Hd) as [[h Hh] Hc]. rewrite Hh in Hc. symmetry in Hc.
  destruct (disk_forget (st_disk s) _ h (key d) HS Hag He Hsc (en_mon d Hd) Hc) as (d' & Ed & Hsd & Had).
  destruct Hl as [Hr Hn Ha]. destruct (nlist_remove_spec (st_heap s) (rtnl s) l1 x d l2 Hr) as (p2 & h2 & E2 & Hr2 & Hu2 & Hs2).
  exists h, d', (HState h2 (budget (st_heap s))), p2. split; [done|]. split; [exact Ed|].
  assert (exists q, rtnl s = Some q) as [q Hq] by (destruct Hr as (-> & _); rewrite hd_loc_app; destruct l1 as [|[]]; eauto).
  split; [|rewrite fmap_app, <- table_filter by done; by rewrite filter_key].
  intros log. split.
  - unfold nlist_free. rewrite Hq in *. unfold on_heap. cbn [st_heap]. erewrite hbind_ok by exact E2.
    erewrite hbind_ok by (apply load_ok; exact Hu2). reflexivity.
  - rewrite filter_key in Had by done. apply Forall_app in He as [He1 [_ He2]%Forall_cons].
    assert ((l1 ++ l2).*2 = l1.*2 ++ l2.*2) as Hl3 by apply fmap_app.
    split; cbn [st_disk]; rewrite ?Hl3; [|done|by apply Forall_app| |done].
    + split; cbn [st_heap rtnl notify cells]; [done| |].
      * eapply nlist_frame; [exact Hs2| |exact Hn]. intros y Hy Hy'. by apply (Ha y).
      * intros y Hy. apply Ha. rewrite fmap_app, fmap_cons. rewrite fmap_app in Hy. set_solver.
    + rewrite fmap_app in *. rewrite fmap_cons in Hk. apply NoDup_app in Hk as (N1 & N2 & [N3 N4]%NoDup_cons).
      apply NoDup_app. split; [done|]. split; [|done]. intros z Hz Hz'. apply (N2 z Hz). by right.
Qed.


(** Requests that end the monitoring. *)
Lemma sm_unmon_run s lr ln mon_n my_n :
  setting_ok -> synced s lr ln -> known E mon_n -> known E my_n -> no_blanks my_n = my_n ->
  exists s' lr', sm_unmon_1_svc base ns MY_STATE local mon_n my_n 100021 (vers0 E) (proc0 E) s = Some (MY_STATE, s') /\ synced s' lr' ln /\
    table lr'.*2 = delete (mon_n, my_n) (table lr.*2).
Proof.
  intros HS Hs Km Ky Hb. unfold sm_unmon_1_svc, caller_is_localhost, nfs_is_v4_loopback, local. rewrite Z.eqb_refl. cbn [negb]. rewrite Hb.
  assert ((mon_n, my_n) ∉ key <$> lr.*2 -> table lr.*2 = delete (mon_n, my_n) (table lr.*2)) as Hnone.
  { intros H. symmetry. by apply delete_id, table_lookup_none. }
  erewrite sbind_ok by reflexivity. destruct (find_synced s lr ln _ _ HS Hs Km Ky) as (found & Ef & Hfound).
  pose proof (li_rtnl _ _ _ (sy_lists _ _ _ Hs)) as Hr. destruct (rtnl s) as [q|] eqn:Eq.
  2:{ exists s, lr. split; [done|]. split; [done|]. apply Hnone. destruct Hr as (Hr & _). destruct lr as [|[]]; [apply not_elem_of_nil|done]. }
  erewrite sbind_ok by exact Ef. destruct found as [x|]; [|by exists s, lr; split_and!; [..|apply Hnone]].
  destruct Hfound as (l1 & d & l2 & -> & Hkd). pose proof (nlist_node _ _ _ _ _ _ Hr) as Hx.
  erewrite sbind_ok by (apply on_heap_ok; by apply load_ok). rewrite St_eta. erewrite sbind_ok by reflexivity. cbn [data st_heap rtnl notify st_disk st_log].
  destruct (rtnl_unlink_run s l1 x d l2 ln HS Hs) as (h & d' & h2 & p2 & Hh & Ed & Hu & Ht). rewrite Hh. injection Hkd as Hm Hy.
  rewrite Hm, Hy in Ed. erewrite sbind_ok by (unfold on_disk; cbn [st_disk]; rewrite Ed; reflexivity). cbv beta iota.
  cbn [st_heap rtnl notify st_disk st_log]. rewrite <- Eq. erewrite sbind_ok by apply Hu. erewrite sbind_ok by reflexivity.
  eexists _, (l1 ++ l2). split; [reflexivity|]. split; [apply Hu|]. rewrite Ht. unfold key. by rewrite Hm, Hy.
Qed.

Lemma table_filter_my my_n l :
  table (filter (fun d => nl_my_name d <> my_n) l) = filter (fun kv => kv.1.2 <> my_n) (table l).
Proof.
  induction l as [|d l IH]; [unfold table; cbn; by rewrite map_filter_empty|]. rewrite filter_cons.
  change (table (d :: l)) with (<[key d := nl_priv d]> (table l)). case_decide as Hk.
  - rewrite map_filter_insert_True by done. rewrite <- IH. done.
  - rewrite map_filter_insert_False by (cbn; intros H; by apply H). rewrite IH. apply map_eq. intros k.
    apply option_eq. intros v. rewrite !map_lookup_filter_Some. destruct (decide (k = key d)) as [->|Hne].
    + split; [|by rewrite lookup_delete_eq; intros [? _]]. intros [_ H]. exfalso. apply H. cbn. by apply dec_stable.
    + by rewrite lookup_delete_ne by done.
Qed.


Lemma mon_name_fits d : entry_ok d -> take SM_MAXSTRLEN (nl_mon_name d) = nl_mon_name d.
Proof.
  intros Hd. apply take_ge. destruct (en_rec d Hd) as [Hm Hf]. unfold record_text, names_text in Hf.
  rewrite !length_app, args_text_length, priv_text_length in Hf by done.
  rewrite (ok_priv _ Hm) in Hf. cbn [rec_of mon_name my_name] in Hf. change (length ($" ")) with 1%nat in Hf.
  unfold BUFLEN, LINELEN, RPCARGSLEN, Nsm.SM_PRIV_SIZE, SM_MAXSTRLEN in *. change (length [Prelude.NL]) with 1%nat in Hf. lia.
Qed.

Lemma unmon_all_run fuel s l1 l2 ln my_n :
  setting_ok -> synced s (l1 ++ l2) ln -> known E my_n -> (length l2 <= fuel)%nat ->
  exists s', unmon_all_loop base ns fuel (hd_loc l2 None) my_n 100021 (vers0 E) (proc0 E) s = Some (tt, s') /\
    synced s' (l1 ++ filter (fun x => nl_my_name x.2 <> my_n) l2) ln.
Proof.
  intros HS Hs Ky. remember (length l2) as n eqn:Hn. revert fuel s l1 l2 Hs Hn.
  induction n as [n IH] using lt_wf_ind. intros fuel s l1 l2 Hs Hn Hf.
  pose proof (li_rtnl _ _ _ (sy_lists _ _ _ Hs)) as Hr. pose proof (nlist_fuel _ _ _ Hr) as Hsz. rewrite length_app in Hsz.
  pose proof Hr as (_ & _ & [_ D]%dseg_app).
  assert (forall d, d ∈ l2.*2 -> entry_ok d /\ (statd_matchhostname ns my_n (nl_my_name d) = true <-> nl_my_name d = my_n)) as Hw.
  { intros d Hd. pose proof (sy_entries _ _ _ Hs) as He. rewrite fmap_app in He. apply Forall_app in He as [_ He].
    rewrite Forall_forall in He. pose proof (He d Hd) as He'. split; [done|]. split.
    - intros H. symmetry. apply (so_match HS); [done|by apply en_my|done].
    - intros <-. unfold statd_matchhostname. by rewrite strcaseeq_refl. }
  destruct fuel as [|fuel]; cbn [unmon_all_loop]; (erewrite sbind_ok; [|apply on_heap_ok; unfold nlist_gethost, with_fuel;
    apply (gethost_run _ _ _ _ (last_loc None l1)); [exact D|lia]]); rewrite St_eta; cbn [negb].
  { destruct l2; [|cbn in *; lia]. by exists s. }
  destruct (list_find _ l2) as [[i [x d]]|] eqn:Ef; cbn [fmap option_fmap option_map fst snd].
  2:{ exists s. split; [done|]. rewrite filter_all; [done|]. apply list_find_None in Ef. rewrite Forall_forall in *. intros [x d] Hx Hd.
      apply (Ef (x, d) Hx). cbn [snd] in *. apply Hw; [|done]. apply list_elem_of_fmap. by exists (x, d). }
  apply list_find_split in Ef as (m1 & m2 & -> & Hm1 & Hm2). cbn [snd] in Hm2.
  destruct (Hw d) as [Hd Hmy]; [rewrite fmap_app, fmap_cons; set_solver|]. apply Hmy in Hm2.
  rewrite app_assoc in Hr, Hs. pose proof (nlist_node _ _ _ _ _ _ Hr) as Hx.
  erewrite sbind_ok by (apply on_heap_ok; by apply load_ok). rewrite St_eta. cbn [data next]. rewrite (en_id d Hd).
  erewrite sbind_ok by reflexivity. cbn [data st_heap rtnl notify st_disk st_log].
  destruct (rtnl_unlink_run s (l1 ++ m1) x d m2 ln HS Hs) as (h & d' & h2 & p2 & Hh & Ed & Hu & _). rewrite Hh, mon_name_fits by done.
  rewrite Hm2 in Ed. erewrite sbind_ok by (unfold on_disk; cbn [st_disk]; rewrite Ed; reflexivity). cbv beta iota.
  erewrite sbind_ok by reflexivity. cbn [st_heap rtnl notify st_disk st_log]. erewrite sbind_ok by apply Hu. erewrite sbind_ok by reflexivity.
  cbn [st_heap rtnl notify st_disk st_log default]. subst n. rewrite length_app in IH, Hf. cbn [length] in IH, Hf.
  edestruct (IH (length m2) ltac:(lia) fuel) as (s' & E' & Hs'); [apply Hu|reflexivity|lia|]. exists s'. split; [exact E'|].
  rewrite filter_app, filter_cons, decide_False by (cbn; intros H; by apply H). rewrite (filter_all _ m1), app_assoc; [done|].
  rewrite Forall_forall in *. intros [y e] Hy He. apply (Hm1 (y, e) Hy). cbn [snd] in *. apply Hw; [|done].
  apply list_elem_of_fmap. exists (y, e). split; [done|]. set_solver.
Qed.


(** A notice from a peer changes no entry's names, procedure or cookie. *)
Lemma told_same mon_n ip state d :
  let d' := told ns mon_n ip state d in
  key d' = key d /\ nl_priv d' = nl_priv d /\ nl_dns_name d' = nl_dns_name d /\ rec_of d' = rec_of d /\ (entry_ok d -> entry_ok d').
Proof.
  unfold told. destruct (concerned ns mon_n ip state d); cbn zeta; [|done]. split_and!; try done. by intros []; split.
Qed.

Lemma sm_notice_run s lr ln caller mon_n state :
  setting_ok -> synced s lr ln ->
  exists s' lr' ln', sm_notify_1_svc ns caller mon_n state s = Some (tt, s') /\ synced s' lr' ln' /\ table lr'.*2 = table lr.*2.
Proof.
  intros HS [Hl Hsc He Hk Hag]. destruct (statd_present_address ns caller) as [ip|] eqn:Hp.
  2:{ exists s, lr, ln. unfold sm_notify_1_svc. rewrite Hp. by split_and!. }
  destruct (sm_notify_run ns s lr ln caller ip mon_n state Hl) as (s' & new & E1 & Ed & _ & _ & Hl'); [|done|].
  { assert (Forall (fun d => is_Some (nl_dns_name d)) lr.*2) as H; [|rewrite Forall_fmap in H; exact H].
    eapply Forall_impl; [exact He|]. intros d Hd. apply en_dns, Hd. }
  set (f := told ns mon_n ip state) in *. assert ((prod_map id f <$> lr).*2 = f <$> lr.*2) as Hf by (by rewrite <- !list_fmap_compose).
  assert (key <$> (f <$> lr.*2) = key <$> lr.*2) as Hkk.
  { rewrite <- list_fmap_compose. apply list_fmap_ext. intros _ d _. apply told_same. }
  eexists s', _, _. split; [exact E1|]. split; [split; [exact Hl'|by rewrite Ed| | |]|]; rewrite Hf.
  - apply Forall_fmap. eapply Forall_impl; [exact He|]. intros d Hd. by apply told_same.
  - by rewrite Hkk.
  - rewrite Ed. intros h p Hh Hpp. destruct (Hag h p Hh Hpp) as (ms & H1 & H2). exists ms. split; [done|]. rewrite H2.
    generalize (lr.*2). intros l. induction l as [|d l IH]; [done|]. rewrite fmap_cons, !records_cons.
    destruct (told_same mon_n ip state d) as (_ & _ & H3 & H4 & _). fold f in H3, H4. rewrite H3, H4. case_decide; [by constructor|done].
  - unfold table. rewrite <- list_fmap_compose. f_equal. apply list_fmap_ext. intros _ d _. cbn.
    destruct (told_same mon_n ip state d) as (H1 & H2 & _). fold f in H1, H2. by rewrite H1, H2.
Qed.

(** ** Restart *)

Lemma list_choice {A B} `{EqDecision A} (P : A -> B -> Prop) (b0 : B) (l : list A) :
  (forall a, a ∈ l -> exists b, P a b) -> exists f, forall a, a ∈ l -> P a (f a).
Proof.
  induction l as [|a l IH]; intros H; [exists (fun _ => b0); intros a Ha; by apply elem_of_nil in Ha|].
  destruct IH as [f Hf]; [intros a' Ha'; apply H; by right|]. destruct (H a) as [b Hb]; [by left|].
  exists (fun x => if decide (x = a) then b else f x). intros x Hx. case_decide as Hxa; [by subst|].
  apply Hf. by apply elem_of_cons in Hx as [?|?].
Qed.

Lemma concat_one {A B} `{EqDecision A} (h : A) (x : B) (g : A -> list B) (l : list A) :
  NoDup l -> h ∈ l -> concat (map (fun n => if decide (n = h) then x :: g n else g n) l) ≡ₚ x :: concat (map g l).
Proof.
  induction l as [|n l IH]; [by intros _ ?%elem_of_nil|]. intros [Hn Hnd]%NoDup_cons Hin. cbn [map concat].
  destruct (decide (n = h)) as [->|Hne].
  - cbn [app]. constructor. f_equiv. match goal with |- ?a ≡ₚ ?b => assert (a = b) as ->; [f_equal|done] end. apply map_ext_in. intros a Ha%list_elem_of_In. rewrite decide_False; [done|]. intros ->. done.
  - apply elem_of_cons in Hin as [?|Hin]; [congruence|]. rewrite IH by done. solve_Permutation.
Qed.

(** The entry made from a record. *)
Definition loaded (r : cstr * mon) : nl_entry :=
  let '(h, m) := r in NL (mon_name m) (my_name m) (my_prog m) (my_vers m) (my_proc m) (priv m) 0 MAX_TRIES 0 (Some h) 0 0.

Lemma load_hosts_run recs s lr ln :
  lists s lr ln -> exists s' lr', load_hosts recs s = Some (tt, s') /\ lists s' lr' ln /\ lr'.*2 ≡ₚ (loaded <$> recs) ++ lr.*2 /\
    st_disk s' = st_disk s.
Proof.
  revert s lr. induction recs as [|[h m] recs IH]; intros s lr Hl; [by exists s, lr|]. cbn [load_hosts]. unfold load_one_host.
  destruct (new_run s lr ln (my_name m) (mon_name m) m h Hl) as (s1 & y & E1 & Hd1 & _ & _ & Hsp).
  destruct (rtnl_insert_run s1 y _ lr ln Hsp) as (s2 & E2 & Hd2 & _ & Hl2).
  erewrite sbind_ok by (erewrite sbind_ok by exact E1; exact E2).
  destruct (IH s2 _ Hl2) as (s3 & lr3 & E3 & Hl3 & Hp & Hd3). exists s3, lr3. split; [done|]. split; [done|].
  split; [|by rewrite Hd3, Hd2, Hd1]. rewrite Hp, fmap_cons. cbn. solve_Permutation.
Qed.

(** The entry that a restart makes of one: with its names, its procedure and its
    cookie, and otherwise new. *)
Definition refreshed (d : nl_entry) : nl_entry := loaded (default [] (nl_dns_name d), rec_of d).

Lemma records_all dir l (rs : cstr -> list mon) :
  NoDup dir -> (forall d, d ∈ l -> exists h, nl_dns_name d = Some h /\ h ∈ dir) -> (forall n, n ∈ dir -> rs n ≡ₚ records n l) ->
  loaded <$> concat (map (fun n => pair n <$> rs n) dir) ≡ₚ refreshed <$> l.
Proof.
  intros Hn Hl Hrs. assert (concat (map (fun n => pair n <$> rs n) dir) ≡ₚ concat (map (fun n => pair n <$> records n l) dir)) as ->.
  { clear Hn Hl. induction dir as [|n dir IH]; [done|]. cbn. rewrite IH by (intros; apply Hrs; by right).
    f_equiv. rewrite Hrs by (by left). done. }
  clear Hrs. induction l as [|d l IH].
  { assert (concat (map (fun n => pair n <$> records n []) dir) = []) as ->; [|done]. clear. induction dir; done. }
  destruct (Hl d) as (h & Hh & Hin); [by left|].
  trans (loaded <$> concat (map (fun n => if decide (n = h) then (n, rec_of d) :: (pair n <$> records n l)
    else pair n <$> records n l) dir)).
  { f_equiv. match goal with |- ?a ≡ₚ ?b => assert (a = b) as ->; [f_equal|done] end. apply map_ext. intros n. rewrite records_cons, Hh. destruct (decide (n = h)) as [->|Hne].
    - by rewrite decide_True.
    - by rewrite decide_False by congruence. }
  trans (loaded <$> ((h, rec_of d) :: concat (map (fun n => pair n <$> records n l) dir))).
  - f_equiv. rewrite <- concat_one by done. match goal with |- ?a ≡ₚ ?b => assert (a = b) as ->; [f_equal|done] end. apply map_ext. intros n. case_decide; by subst.
  - rewrite !fmap_cons. unfold refreshed at 1. rewrite Hh. constructor. apply IH. intros e He. apply Hl. by right.
Qed.

(** Reading the directory changes nothing on the disk. *)
Lemma load_loop_reads directory names (d : disk) :
  script d = [] -> let d' := snd (nsm_load_loop base directory names d) in files d' = files d /\ script d' = [].
Proof.
  revert d; induction names as [|n names IH]; intros d Hs; [done|]. cbn [nsm_load_loop]. destruct (ceqb _ _); [by apply IH|].
  cbv zeta. rewrite !bind_run. destruct (nsm_load_host_reads base directory n d Hs) as [Ef Es].
  destruct (IH _ Es) as [Ef' Es']. cbn [snd mret dM_ret]. by rewrite Ef', Ef.
Qed.

Lemma refreshed_ok d : entry_ok d -> entry_ok (refreshed d).
Proof.
  intros [H1 H2 H3 [[h Hh] H4] H5]. split; try done. cbn [refreshed loaded nl_dns_name nl_mon_name rec_of mon_name].
  rewrite Hh. split; [by eexists|]. by rewrite <- H4, Hh.
Qed.

Lemma records_refreshed h l : Forall entry_ok l -> records h (refreshed <$> l) = records h l.
Proof.
  induction 1 as [|d l Hd _ IH]; [done|]. rewrite fmap_cons, !records_cons, IH. destruct (en_dns d Hd) as [[h' Hh'] _].
  cbn [refreshed loaded nl_dns_name]. by rewrite Hh'.
Qed.

(** Every entry has a file in the directory. *)
Lemma entry_listed (d : disk) l (dir : list cstr) e :
  setting_ok -> agree d l -> Forall entry_ok l -> (forall h p, h ∈ hosts E -> host_path h p -> is_Some (files d !! p) -> h ∈ dir) ->
  e ∈ l -> exists h, nl_dns_name e = Some h /\ h ∈ dir.
Proof.
  intros HS Hag He Hall Hin. rewrite Forall_forall in He. pose proof (He e Hin) as Hok. destruct (en_dns e Hok) as [[h Hh] Hc]. exists h.
  split; [done|]. rewrite Hh in Hc. symmetry in Hc. pose proof (so_canon HS _ _ (en_mon e Hok) Hc) as Hh'. destruct (so_path HS h Hh') as [p Hp].
  apply (Hall h p Hh' Hp). destruct (Hag h p Hh' Hp) as (ms & -> & Hms). destruct ms as [|m ms]; [|by eexists]. exfalso.
  assert (rec_of e ∈ records h l) as Hx. { apply list_elem_of_fmap. exists e. split; [done|]. by apply list_elem_of_filter. }
  rewrite <- Hms in Hx. by apply elem_of_nil in Hx.
Qed.

(** What [readdir] gives of the monitor directory, which holds the files of hosts
    in use: each of them once. *)
Definition lists_dir (d : disk) (dir : list cstr) : Prop :=
  NoDup dir /\ (forall h, h ∈ dir -> h ∈ hosts E) /\
  forall h p, h ∈ hosts E -> host_path h p -> is_Some (files d !! p) -> h ∈ dir.

(** A new process on the same disk. *)
Definition reborn (s : statd) : statd := St (HState ∅ 0) None None (st_disk s) [].

Lemma restart_run s lr ln (dir : list cstr) :
  setting_ok -> synced s lr ln -> lists_dir (st_disk s) dir ->
  exists s' lr', load_state base (Some dir) (reborn s) = Some (tt, s') /\ synced s' lr' [] /\ table lr'.*2 = table lr.*2.
Proof.
  intros HS [Hl Hsc He Hk Hag] (Hn & Hsub & Hall).
  destruct (list_choice (fun n ms => exists p, host_path n p /\ files (st_disk s) !! p = host_file ms /\ ms ≡ₚ records n lr.*2) [] dir) as [rs Hrs].
  { intros n Hin. destruct (so_path HS n (Hsub n Hin)) as [p Hp]. destruct (Hag n p (Hsub n Hin) Hp) as (ms & H1 & H2). eauto. }
  assert (fst (nsm_load_monitor_list base (Some dir) (st_disk s)) = Some (concat (map (fun n => pair n <$> rs n) dir)) /\
          files (snd (nsm_load_monitor_list base (Some dir) (st_disk s))) = files (st_disk s) /\
          script (snd (nsm_load_monitor_list base (Some dir) (st_disk s))) = []) as (Hload & Hfiles & Hscript).
  { unfold nsm_load_monitor_list, nsm_load_dir. destruct dir as [|n0 dir0] eqn:Ed; [by destruct (nsm_make_pathname _ _)|]. rewrite <- Ed in *.
    destruct (Hrs n0) as (p0 & (Hp0 & _) & _); [subst; by left|]. destruct (record_dir_path _ _ _ _ Hp0) as [q ->].
    split; [|by apply load_loop_reads].
    apply nsm_load_loop_all; [done|]. apply Forall_forall. intros n Hin. destruct (Hrs n Hin) as (p & (Hp & _ & Hdot) & Hf & Hms).
    split; [done|]. split; [rewrite Hms; by apply records_ok|]. eauto. }
  unfold load_state, reborn. destruct (nsm_load_monitor_list base (Some dir) (st_disk s)) as [r d2] eqn:Er. cbn [fst snd] in Hload, Hfiles, Hscript. subst r.
  erewrite sbind_ok by (unfold on_disk; cbn [st_disk]; rewrite Er; reflexivity).
  destruct (load_hosts_run (concat (map (fun n => pair n <$> rs n) dir)) (St (HState ∅ 0) None None d2 []) [] []) as (s' & lr' & E1 & Hl' & Hp & Hd).
  { split; cbn; [split_and!; [done|constructor|done]..|]. intros x Hx. by apply elem_of_nil in Hx. }
  exists s', lr'. split; [exact E1|]. rewrite app_nil_r in Hp. cbn [st_disk] in Hd.
  rewrite (records_all dir lr.*2 rs Hn (fun e => entry_listed _ _ dir e HS Hag He Hall)) in Hp by (intros n Hin; by destruct (Hrs n Hin) as (p & _ & _ & ?)).
  assert (key <$> (refreshed <$> lr.*2) = key <$> lr.*2) as Hkey by (by rewrite <- list_fmap_compose).
  assert (NoDup (key <$> lr'.*2)) as Hnd by (rewrite Hp; by rewrite Hkey).
  split; [split|].
  - done.
  - by rewrite Hd.
  - rewrite Hp. apply Forall_fmap. eapply Forall_impl; [exact He|]. intros d. apply refreshed_ok.
  - exact Hnd.
  - intros h p Hh Hpath. destruct (Hag h p Hh Hpath) as (ms & Hf & Hms). exists ms. rewrite Hd, Hfiles. split; [done|].
    rewrite (records_perm h _ _ Hp). by rewrite records_refreshed.
  - rewrite (table_perm lr'.*2 (refreshed <$> lr.*2) Hnd Hp). unfold table. by rewrite <- list_fmap_compose.
Qed.

(** ** The refinement *)

Inductive request :=
  | ReqMon (a : mon)
  | ReqUnmon (mon_n my_n : cstr)
  | ReqUnmonAll (my_n : cstr)
  | ReqNotify (caller : sockaddr) (mon_n : cstr) (state : Z).

Definition req_ok (r : request) : Prop :=
  match r with
  | ReqMon a => mon_req a
  | ReqUnmon mon_n my_n => known E mon_n /\ known E my_n /\ no_blanks my_n = my_n
  | ReqUnmonAll my_n => known E my_n
  | ReqNotify _ _ _ => True
  end.

Definition serve (r : request) : sM unit :=
  match r with
  | ReqMon a => _ ← sm_mon_1_svc base ns MY_STATE local a; mret tt
  | ReqUnmon mon_n my_n => _ ← sm_unmon_1_svc base ns MY_STATE local mon_n my_n 100021 (vers0 E) (proc0 E); mret tt
  | ReqUnmonAll my_n => _ ← sm_unmon_all_1_svc base ns MY_STATE local my_n 100021 (vers0 E) (proc0 E); mret tt
  | ReqNotify caller mon_n state => sm_notify_1_svc ns caller mon_n state
  end.

(** What happens to statd: a request is served, or the process ends and a new one
    loads its state from the disk; [readdir] is what the monitor directory of a
    disk is listed as. *)
Inductive event := Serve (r : request) | Restart.
Definition event_ok (e : event) : Prop := match e with Serve r => req_ok r | Restart => True end.

Definition happen (readdir : disk -> list cstr) (e : event) (s : statd) : option statd :=
  match e with
  | Serve r => snd <$> serve r s
  | Restart => snd <$> load_state base (Some (readdir (st_disk s))) (reborn s)
  end.
Fixpoint happen_all (readdir : disk -> list cstr) (es : list event) (s : statd) : option statd :=
  match es with [] => Some s | e :: es => s ← happen readdir e s; happen_all readdir es s end.

(** The specification: a map from the names of peer and caller to the cookie. *)
Definition spec_request (m : gmap (cstr * cstr) (list ascii)) (r : request) : gmap (cstr * cstr) (list ascii) :=
  match r with
  | ReqMon a => <[(mon_name a, my_name a) := priv a]> m
  | ReqUnmon mon_n my_n => delete (mon_n, my_n) m
  | ReqUnmonAll my_n => filter (fun kv => kv.1.2 <> my_n) m
  | ReqNotify _ _ _ => m
  end.
Definition spec_event (m : gmap (cstr * cstr) (list ascii)) (e : event) : gmap (cstr * cstr) (list ascii) :=
  match e with Serve r => spec_request m r | Restart => m end.

Lemma fmap_filter_snd my_n (l : list (loc * nl_entry)) :
  (filter (fun x => nl_my_name x.2 <> my_n) l).*2 = filter (fun d => nl_my_name d <> my_n) l.*2.
Proof.
  induction l as [|[x d] l IH]; [done|]. rewrite fmap_cons, !filter_cons. cbn [snd].
  destruct (decide (nl_my_name d <> my_n)); [rewrite fmap_cons; cbn [snd]; by f_equal|done].
Qed.

Lemma serve_run r s lr ln :
  setting_ok -> synced s lr ln -> req_ok r ->
  exists s' lr' ln', serve r s = Some (tt, s') /\ synced s' lr' ln' /\ table lr'.*2 = spec_request (table lr.*2) r.
Proof.
  intros HS Hs Hr. destruct r as [a|mon_n my_n|my_n|caller mon_n state]; cbn [serve spec_request req_ok] in *.
  - destruct (sm_mon_run s lr ln a HS Hs Hr) as (s' & lr' & E1 & Hs' & Ht). exists s', lr', ln. erewrite sbind_ok by exact E1. done.
  - destruct Hr as (K1 & K2 & K3). destruct (sm_unmon_run s lr ln mon_n my_n HS Hs K1 K2 K3) as (s' & lr' & E1 & Hs' & Ht).
    exists s', lr', ln. erewrite sbind_ok by exact E1. done.
  - pose proof (li_rtnl _ _ _ (sy_lists _ _ _ Hs)) as Hl. pose proof (nlist_fuel _ _ _ Hl) as Hf. destruct Hl as (Hh & _).
    destruct (unmon_all_run (size (cells (st_heap s))) s [] lr ln my_n HS Hs Hr Hf) as (s' & E1 & Hs').
    exists s', (filter (fun x => nl_my_name x.2 <> my_n) lr), ln. split; [|split; [done|by rewrite fmap_filter_snd, table_filter_my]].
    assert (sm_unmon_all_1_svc base ns MY_STATE local my_n 100021 (vers0 E) (proc0 E) s = Some (Some MY_STATE, s')) as Hrun;
      [|by erewrite sbind_ok by exact Hrun].
    unfold sm_unmon_all_1_svc, caller_is_localhost, nfs_is_v4_loopback, local. rewrite Z.eqb_refl. cbn [negb].
    erewrite sbind_ok by reflexivity. rewrite Hh.
    destruct lr as [|[x d] lr]; cbn [hd_loc] in *; [|erewrite sbind_ok by exact E1; reflexivity].
    assert (s' = s) as ->; [|done].
    assert (unmon_all_loop base ns (size (cells (st_heap s))) None my_n 100021 (vers0 E) (proc0 E) s = Some (tt, s)) as E2.
    { destruct (size (cells (st_heap s))) eqn:Esz; cbn [unmon_all_loop];
        (erewrite sbind_ok; [|apply on_heap_ok; unfold nlist_gethost, with_fuel; apply (gethost_run _ _ _ _ None []); [done|cbn; lia]]);
        by rewrite St_eta. }
    congruence.
  - destruct (sm_notice_run s lr ln caller mon_n state HS Hs) as (s' & lr' & ln' & E1 & Hs' & Ht). by exists s', lr', ln'.
Qed.

Lemma happen_run readdir e s lr ln :
  setting_ok -> (forall d, lists_dir d (readdir d)) -> synced s lr ln -> event_ok e ->
  exists s' lr' ln', happen readdir e s = Some s' /\ synced s' lr' ln' /\ table lr'.*2 = spec_event (table lr.*2) e.
Proof.
  intros HS Hd Hs He. destruct e as [r|]; cbn [happen spec_event].
  - destruct (serve_run r s lr ln HS Hs He) as (s' & lr' & ln' & -> & Hs' & Ht). by exists s', lr', ln'.
  - destruct (restart_run s lr ln (readdir (st_disk s)) HS Hs (Hd _)) as (s' & lr' & -> & Hs' & Ht). by exists s', lr', [].
Qed.

Lemma happen_all_run readdir es s lr ln :
  setting_ok -> (forall d, lists_dir d (readdir d)) -> synced s lr ln -> Forall event_ok es ->
  exists s' lr' ln', happen_all readdir es s = Some s' /\ synced s' lr' ln' /\ table lr'.*2 = foldl spec_event (table lr.*2) es.
Proof.
  intros HS Hd. revert s lr ln. induction es as [|e es IH]; intros s lr ln Hs Hr; [by exists s, lr, ln|].
  apply Forall_cons in Hr as [Hr1 Hr2]. destruct (happen_run readdir e s lr ln HS Hd Hs Hr1) as (s1 & lr1 & ln1 & E1 & Hs1 & Ht1).
  destruct (IH s1 lr1 ln1 Hs1 Hr2) as (s2 & lr2 & ln2 & E2 & Hs2 & Ht2). exists s2, lr2, ln2. cbn [happen_all foldl].
  rewrite E1. cbn [mbind option_bind]. by rewrite <- Ht1.
Qed.

End monitor.

(** C8. statd refines a map from the names of peer and caller to the cookie to
    call back with: any sequence of SM_MON, SM_UNMON, SM_UNMON_ALL and SM_NOTIFY
    requests and of restarts of the daemon, which lose the memory and load the
    files, runs without touching memory it should not, leaves in memory the
    map that the requests describe, and on disk the same records.  The caller is the
    kernel's lock manager (one procedure), the resolver tells the names apart,
    no host's file is another's temporary file, the calls on the disk
    succeed, and the directory is listed with each of its files once. *)
Theorem statd_refines_map base ns MY_STATE E readdir s lr ln (es : list event) :
  setting_ok base ns E -> (forall d, lists_dir base E d (readdir d)) -> synced base ns E s lr ln -> Forall (event_ok ns E) es ->
  exists s' lr' ln', happen_all base ns MY_STATE E readdir es s = Some s' /\ synced base ns E s' lr' ln' /\
    table lr'.*2 = foldl spec_event (table lr.*2) es.
Proof. apply happen_all_run. Qed.

(** Two peers that the resolver knows. *)
Definition ns_two : names :=
  Names (fun _ => None)
        (fun n => if streq n $"a.ex" then Some ($"a.ex", [AF_INET 1]) else if streq n $"b.ex" then Some ($"b.ex", [AF_INET 2])
                  else if streq n $"me" then Some ($"me", [AF_INET 3]) else None)
        (fun _ => None) (fun _ => Some $"10.0.0.1").
Definition known_two (n : cstr) : Prop := n = $"a.ex" \/ n = $"b.ex" \/ n = $"me".
Definition setting_two : setting := Setting 3 16 known_two [$"a.ex"; $"b.ex"; $"me"].
Definition cookie (c : ascii) : list ascii := replicate 16 c.
Definition mon_two (n : cstr) (c : ascii) : mon := Mon 0 100021 3 16 (cookie c) n $"me".
Definition idle : statd := St (HState ∅ 0) None None (Disk ∅ [] []) [].

Lemma setting_two_ok : setting_ok $"/var/lib/nfs" ns_two setting_two.
Proof.
  split.
  - by left.
  - intros a b [->|[->| ->]] [->|[->| ->]]; try done; vm_compute; discriminate.
  - intros a h [->|[->| ->]]; vm_compute; intros [= <-]; set_solver.
  - intros h Hh. apply elem_of_cons in Hh as [->|Hh]; [|apply elem_of_cons in Hh as [->|Hh]; [|apply list_elem_of_singleton in Hh as ->]];
      (eexists; split; [reflexivity|]; split; [vm_compute; discriminate|discriminate]).
  - intros h h' Hh Hh'. apply elem_of_cons in Hh as [->|Hh]; [|apply elem_of_cons in Hh as [->|Hh]; [|apply list_elem_of_singleton in Hh as ->]];
      (apply elem_of_cons in Hh' as [->|Hh']; [|apply elem_of_cons in Hh' as [->|Hh']; [|apply list_elem_of_singleton in Hh' as ->]]; discriminate).
  - apply NoDup_cons; split; [|apply NoDup_cons; split; [|apply NoDup_singleton]]; rewrite list_elem_of_In; cbn; intuition discriminate.
Qed.

Lemma idle_synced : synced $"/var/lib/nfs" ns_two setting_two idle [] [].
Proof.
  split; cbn; [|done|constructor|constructor|].
  - split; cbn; [split_and!; [done|constructor|done]..|]. intros x Hx. by apply elem_of_nil in Hx.
  - intros h p _ _. exists []. split; [apply lookup_empty|done].
Qed.

Lemma mon_two_req n c : n = $"a.ex" \/ n = $"b.ex" -> mon_req ns_two setting_two (mon_two n c).
Proof.
  intros Hn. assert (known_two n) as Kn by (destruct Hn as [->| ->]; [by left|by right; left]).
  split; try done.
  - by right; right.
  - rewrite list_elem_of_In. destruct Hn as [->| ->]; cbn; intuition discriminate.
  - by destruct Hn as [->| ->].
  - by destruct Hn as [->| ->]; eexists.
  - split; [split; cbn; try (unfold is_u32; lia); try done; rewrite ?list_elem_of_In; destruct Hn as [->| ->]; cbn; intuition discriminate|].
    apply Nat.ltb_lt. destruct Hn as [->| ->]; revert c; intros [[] [] [] [] [] [] [] []]; vm_compute; reflexivity.
Qed.

(** The files of the monitor directory, in the order of the hosts. *)
Definition listing (E : setting) (d : disk) : list cstr :=
  filter (fun h => (nsm_make_record_pathname $"/var/lib/nfs" NSM_MONITOR_DIR h ≫= (files d !!.)) <> None) (hosts E).

Lemma listing_lists d : lists_dir $"/var/lib/nfs" setting_two d (listing setting_two d).
Proof.
  split_and!.
  - apply NoDup_filter, setting_two_ok.
  - intros h Hh. by apply list_elem_of_filter in Hh as [_ Hh].
  - intros h p Hh (Hp & _) [x Hx]. apply list_elem_of_filter. split; [|done]. rewrite Hp. cbn. by rewrite Hx.
Qed.

Lemma statd_refines_map_witness :
  exists s' lr' ln', happen_all $"/var/lib/nfs" ns_two 5 setting_two (listing setting_two)
      [Serve (ReqMon (mon_two $"a.ex" "1")); Restart; Serve (ReqMon (mon_two $"b.ex" "2")); Serve (ReqMon (mon_two $"a.ex" "3")); Restart;
       Serve (ReqUnmon $"b.ex" $"me")] idle = Some s' /\
    synced $"/var/lib/nfs" ns_two setting_two s' lr' ln' /\
    table lr'.*2 !! ($"a.ex", $"me") = Some (cookie "3") /\ table lr'.*2 !! ($"b.ex", $"me") = None.
Proof.
  destruct (statd_refines_map $"/var/lib/nfs" ns_two 5 setting_two (listing setting_two) idle [] []
    [Serve (ReqMon (mon_two $"a.ex" "1")); Restart; Serve (ReqMon (mon_two $"b.ex" "2")); Serve (ReqMon (mon_two $"a.ex" "3")); Restart;
     Serve (ReqUnmon $"b.ex" $"me")])
    as (s' & lr' & ln' & E1 & Hs & Ht).
  - exact setting_two_ok.
  - exact listing_lists.
  - exact idle_synced.
  - repeat (apply Forall_cons; split; [first [exact I|apply mon_two_req; auto | split_and!; [by right; left|by right; right|done]]|]). constructor.
  - exists s', lr', ln'. split; [exact E1|]. split; [exact Hs|]. rewrite Ht. split; vm_compute; reflexivity.
Defined.

(** ** Where the conditions fail *)

Definition a_file : path := $"/var/lib/nfs/sm/a.ex".

(** The peer "a.ex" under another name with the same address. *)
Definition ns_alias : names :=
  Names (fun _ => None)
        (fun n => if streq n $"a.ex" || streq n $"www.ex" then Some ($"a.ex", [AF_INET 1]) else Some (n, [])) (fun _ => None) (fun _ => None).

(** SM_UNMON deletes the record by the name in the request, although the entry
    was found by comparing hosts: under another name of the peer the entry goes
    and its record stays, to be monitored again after a restart. *)
Theorem sm_unmon_alias_keeps_record :
  match (_ ← sm_mon_1_svc $"/var/lib/nfs" ns_alias 5 local (mon_two $"a.ex" "1");
         sm_unmon_1_svc $"/var/lib/nfs" ns_alias 5 local $"www.ex" $"me" 100021 3 16) idle with
  | Some (_, s) => rtnl s = None /\ negb (bool_decide (files (st_disk s) !! a_file = None)) = true
  | None => False
  end.
Proof. vm_compute. split; reflexivity. Qed.

(** SM_MON deletes the earlier records of the two names whatever their procedure,
    but keeps the other procedure's entry in memory: its record is gone. *)
Theorem sm_mon_other_procedure :
  match (_ ← sm_mon_1_svc $"/var/lib/nfs" ns_two 5 local (Mon 0 100021 3 16 (cookie "1") $"a.ex" $"me");
         sm_mon_1_svc $"/var/lib/nfs" ns_two 5 local (Mon 0 100021 4 24 (cookie "2") $"a.ex" $"me")) idle with
  | Some (r, s) =>
      r = (STAT_SUCC, 5) /\ size (cells (st_heap s)) = 2%nat /\
      files (st_disk s) !! a_file = Some (record_text (Mon LOOPBACK_NET 100021 4 24 (cookie "2") $"a.ex" $"me"))
  | None => False
  end.
Proof. vm_compute. split_and!; reflexivity. Qed.
