(* ===== verification/SmNotify.v ===== *)
(** * Notifying peers after a reboot (utils/statd/sm-notify.c)

    sm-notify moves the monitor records to "sm.bak", makes a queue of the hosts in
    them and sends each an SM_NOTIFY, first asking its port mapper for statd's
    port, until the host has answered or the time is up; a host that has answered
    is deleted from "sm.bak" ([Nsm]).  The queue is a singly linked list whose
    nodes are on it once, so it is a list.  The addresses of a host are nodes of a
    store, because the code relinks them.  What the environment does in one turn
    of the loop (the clock, the datagram that [poll] finds, if any) is a record,
    and a run is over a list of them.  [None] is a bad pointer or a record line
    read past its end. *)

From Stdlib Require Import Sorted.
From S2P Require Import Prelude Heap Client Nsm.

Definition NSM_TIMEOUT : Z := 2.
Definition NSM_MAX_TIMEOUT : Z := 120.

(** [struct addrinfo], with the port in its address. *)
Record ainode := Ai { ai_sa : sockaddr; ai_port : Z; ai_next : ptr }.

Record nsm_host := Host
  { h_name : cstr; h_mon_name : cstr; h_my_name : cstr; notify_arg : cstr; h_ai : ptr;
    last_used : Z; send_next : Z; timeout : Z; retries : Z; h_xid : Z }.

(** The datagrams sent. *)
Inductive sent :=
  | Rpcbind (to : sockaddr) (xid : Z)
  | Notified (to : sockaddr) (port : Z) (mon_name : cstr) (state : Z) (xid : Z).

Record smn := Smn { s_hosts : list nsm_host; s_addrs : gmap loc ainode; s_disk : disk; s_log : list sent }.
Definition set_hosts (s : smn) (l : list nsm_host) : smn := Smn l (s_addrs s) (s_disk s) (s_log s).

(** Fields of a host. *)
Definition set_ai (h : nsm_host) (ai : ptr) : nsm_host :=
  Host (h_name h) (h_mon_name h) (h_my_name h) (notify_arg h) ai (last_used h) (send_next h) (timeout h) (retries h) (h_xid h).
Definition set_sched (h : nsm_host) (next tmo retr xid : Z) : nsm_host :=
  Host (h_name h) (h_mon_name h) (h_my_name h) (notify_arg h) (h_ai h) (last_used h) next tmo retr xid.
Definition set_arg (h : nsm_host) (arg : cstr) : nsm_host :=
  Host (h_name h) (h_mon_name h) (h_my_name h) arg (h_ai h) (last_used h) (send_next h) (timeout h) (retries h) (h_xid h).

(** ** The queue *)

Fixpoint insert_host (host : nsm_host) (l : list nsm_host) : list nsm_host :=
  match l with
  | [] => [host]
  | p :: l' =>
      if send_next host <? send_next p then host :: l
      else if (send_next host =? send_next p) && (last_used p <? last_used host) then host :: l
      else p :: insert_host host l'
  end.

Fixpoint find_host (xid : Z) (l : list nsm_host) : option (nsm_host * list nsm_host) :=
  match l with
  | [] => None
  | p :: l' => if h_xid p =? xid then Some (p, l') else '(h, r) ← find_host xid l'; Some (h, p :: r)
  end.

Section smn.
  (** The directory of the records; the state number; the name to announce when a
      source address was given; what [getaddrinfo] answers at a time; and the
      identifiers of the datagrams in the order they are sent, 0 for one that
      could not be. *)
  Context (base : cstr) (nsm_state : Z) (src_name : option cstr) (gai : Z -> cstr -> list sockaddr) (xmit : nat -> Z).

Definition smn_alloc_host (hostname mon_name my_name : cstr) (timestamp : Z) : nsm_host :=
  Host hostname mon_name my_name (match src_name with Some n => n | None => my_name end) None timestamp 0 NSM_TIMEOUT 100 0.

Definition smn_get_host (hostname : cstr) (m : mon) (timestamp : Z) (hosts : list nsm_host) : list nsm_host :=
  insert_host (smn_alloc_host hostname (mon_name m) (my_name m) timestamp) hosts.

Definition smn_forget_host (host : nsm_host) (s : smn) : option smn :=
  let '(r, d) := nsm_delete_notified_host base (h_name host) (h_mon_name host) (h_my_name host) (s_disk s) in
  match r with None => None | Some _ => Some (Smn (s_hosts s) (s_addrs s) d (s_log s)) end.

(** ** Addresses *)

Fixpoint alloc_addrs (l : list sockaddr) (m : gmap loc ainode) : ptr * gmap loc ainode :=
  match l with
  | [] => (None, m)
  | a :: l =>
      let '(p, m) := alloc_addrs l m in
      let x := fresh (dom m) in (Some x, <[x := Ai a 0 p]> m)
  end.

Definition smn_lookup (now : Z) (name : cstr) (m : gmap loc ainode) : ptr * gmap loc ainode := alloc_addrs (gai now name) m.

(** The node whose link is NULL, from the link of [x] on. *)
Fixpoint last_node (fuel : nat) (m : gmap loc ainode) (x : loc) : option loc :=
  match fuel with
  | O => None
  | S fuel => n ← m !! x; match ai_next n with None => Some x | Some y => last_node fuel m y end
  end.

Definition link (m : gmap loc ainode) (x : loc) (p : ptr) : option (gmap loc ainode) :=
  n ← m !! x; Some (<[x := Ai (ai_sa n) (ai_port n) p]> m).

(** Moving on to the next address, as the code relinks the list. *)
Definition rotate (m : gmap loc ainode) (first : loc) : option (ptr * gmap loc ainode) :=
  n ← m !! first;
  match ai_next n with
  | None => Some (Some first, m)
  | Some second =>
      m ← link m first None;
      e ← last_node (S (size m)) m first;
      m ← link m e (Some first);
      Some (Some second, m)
  end.

Definition set_port (m : gmap loc ainode) (x : loc) (port : Z) : option (gmap loc ainode) :=
  n ← m !! x; Some (<[x := Ai (ai_sa n) port (ai_next n)]> m).

(** ** Sending *)

Definition notify_host (now : Z) (host : nsm_host) (s : smn) : option (nsm_host * smn) :=
  let '(ai, m) := match h_ai host with Some _ => (h_ai host, s_addrs s) | None => smn_lookup now (h_name host) (s_addrs s) end in
  match ai with
  | None => Some (host, Smn (s_hosts s) m (s_disk s) (s_log s))
  | Some x =>
      '(ai, m, retr) ← (if 4 <=? retries host then
                          match rotate m x with
                          | Some (Some y, m) => match set_port m y 0 with Some m => Some (Some y, m, 0) | None => None end
                          | _ => None
                          end
                        else Some (Some x, m, retries host));
      y ← (ai : ptr);
      n ← m !! y;
      let xid := xmit (length (s_log s)) in
      let msg := if ai_port n =? 0 then Rpcbind (ai_sa n) xid
                 else Notified (ai_sa n) (ai_port n) (notify_arg host) nsm_state xid in
      Some (set_sched (set_ai host (Some y)) (send_next host) (timeout host) retr xid,
            Smn (s_hosts s) m (s_disk s) (s_log s ++ [msg]))
  end.

Definition next_timeout (t : Z) : Z := let t := u32 (Z.shiftl t 1) in if NSM_MAX_TIMEOUT <? t then NSM_MAX_TIMEOUT else t.

(** The inner loop of [notify]: at most ten datagrams. *)
Fixpoint send_due (fuel : nat) (now : Z) (s : smn) : option smn :=
  match s_hosts s with
  | [] => Some s
  | hp :: rest =>
      if send_next hp - now <=? 0 then
        match fuel with
        | O => Some s
        | S fuel =>
            '(hp, s) ← notify_host now hp (set_hosts s rest);
            let hp := set_sched hp (now + timeout hp) (next_timeout (timeout hp)) (u32 (retries hp + 1)) (h_xid hp) in
            send_due fuel now (set_hosts s (insert_host hp (s_hosts s)))
        end
      else Some s
  end.

(** ** Receiving *)

Definition smn_defer (host : nsm_host) (now : Z) (s : smn) : smn :=
  set_hosts s (insert_host (set_sched host (now + NSM_MAX_TIMEOUT) NSM_MAX_TIMEOUT (retries host) 0) (s_hosts s)).
Definition smn_schedule (host : nsm_host) (now : Z) (s : smn) : smn :=
  set_hosts s (insert_host (set_sched host now NSM_TIMEOUT 0 0) (s_hosts s)).

(** A datagram: the identifier that [nsm_parse_reply] gives, 0 for one that is not
    a successful reply, and the port that [nsm_recv_rpcbind] would read. *)
Record reply := Reply { r_xid : Z; r_port : Z }.

Definition recv_rpcbind_reply (x : loc) (host : nsm_host) (port now : Z) (s : smn) : option smn :=
  if port =? 0 then Some (smn_defer host now s)
  else m ← set_port (s_addrs s) x port; Some (smn_schedule host now (Smn (s_hosts s) m (s_disk s) (s_log s))).

Definition recv_notify_reply (host : nsm_host) (now : Z) (s : smn) : option smn :=
  match strchr "." (notify_arg host) with
  | Some (before, _) => Some (smn_schedule (set_arg host before) now s)
  | None => smn_forget_host host s
  end.

Definition recv_reply (r : reply) (now : Z) (s : smn) : option smn :=
  if r_xid r =? 0 then Some s
  else
    match find_host (r_xid r) (s_hosts s) with
    | None => Some s
    | Some (hp, rest) =>
        x ← h_ai hp;
        n ← s_addrs s !! x;
        if ai_port n =? 0 then recv_rpcbind_reply x hp (r_port r) now (set_hosts s rest)
        else recv_notify_reply hp now (set_hosts s rest)
    end.

(** One turn of the loop: the clock, the datagram that [poll] and [recv] give, and
    the clock when it is handled. *)
Record turn := Turn { t_now : Z; t_reply : option reply; t_then : Z }.

Definition notify_turn (t : turn) (s : smn) : option smn :=
  s ← send_due 10 (t_now t) s;
  match s_hosts s, t_reply t with
  | [], _ | _, None => Some s
  | _, Some r => recv_reply r (t_then t) s
  end.

(** The loop: [failtime] is 0 for no limit.  Whether it has ended is the second
    component. *)
Fixpoint notify (failtime : Z) (turns : list turn) (s : smn) : option (smn * bool) :=
  match s_hosts s with
  | [] => Some (s, true)
  | _ =>
      match turns with
      | [] => Some (s, false)
      | t :: turns =>
          if negb (failtime =? 0) && (failtime <=? t_now t) then Some (s, true)
          else s ← notify_turn t s; notify failtime turns s
      end
  end.

(** [main] up to the loop: the hosts of the records, in the order they are
    loaded; [mtime] is the time of a record's file. *)
Definition load_queue (mtime : cstr -> Z) (recs : list (cstr * mon)) : list nsm_host :=
  foldl (fun l '(h, m) => smn_get_host h m (mtime h) l) [] recs.

End smn.

(** ** The order of the queue *)

(** Earlier, or due at the same time and not used less recently. *)
Definition before (a b : nsm_host) : Prop := send_next a < send_next b \/ (send_next a = send_next b /\ last_used b <= last_used a).
Definition in_order (l : list nsm_host) : Prop := StronglySorted before l.

Lemma insert_host_perm h l : insert_host h l ≡ₚ h :: l.
Proof. induction l as [|p l IH]; cbn [insert_host]; [done|]. repeat case_if; [done..|]. rewrite IH. constructor. Qed.


Lemma find_host_spec xid l h r :
  find_host xid l = Some (h, r) -> l ≡ₚ h :: r /\ h_xid h = xid /\ (in_order l -> in_order r).
Proof.
  revert h r. induction l as [|p l IH]; intros h r; cbn [find_host]; [done|].
  destruct (Z.eqb_spec (h_xid p) xid) as [Hx|Hx].
  { intros [= <- <-]. split_and!; [done|done|]. by intros []%StronglySorted_inv. }
  destruct (find_host xid l) as [[h' r']|] eqn:E; [|done]. cbn. intros [= <- <-]. destruct (IH h' r' eq_refl) as (H1 & H2 & H3).
  split_and!; [rewrite H1; constructor|done|]. intros [Hs Hp]%StronglySorted_inv. constructor; [by apply H3|]. rewrite H1 in Hp.
  by inversion Hp.
Qed.

(** ** The addresses of a host *)

Fixpoint chain (m : gmap loc ainode) (p : ptr) (l : list loc) : Prop :=
  match l with
  | [] => p = None
  | x :: l => p = Some x /\ exists n, m !! x = Some n /\ chain m (ai_next n) l
  end.

Lemma addrs_frame m m' p l : (forall x, x ∈ l -> m' !! x = m !! x) -> chain m p l -> chain m' p l.
Proof.
  revert p. induction l as [|x l IH]; intros p H; [done|]. intros (-> & n & E & Hc). split; [done|]. exists n.
  rewrite H by (by left). split; [done|]. apply IH; [|done]. intros y Hy. apply H. by right.
Qed.

Lemma chain_dom m p l x : chain m p l -> x ∈ l -> x ∈ dom m.
Proof.
  revert p. induction l as [|y l IH]; intros p Hc; [by intros ?%elem_of_nil|]. destruct Hc as (_ & n & E & Hc).
  intros [->|Hx]%elem_of_cons; [by eapply elem_of_dom_2|by eapply IH].
Qed.

Lemma alloc_addrs_spec l m : exists xs, let '(p, m') := alloc_addrs l m in
  chain m' p xs /\ NoDup xs /\ (forall x, x ∈ xs -> x ∉ dom m) /\ (forall x, x ∈ dom m -> m' !! x = m !! x) /\ dom m ⊆ dom m' /\
  (l = [] <-> xs = []).
Proof.
  induction l as [|a l [xs IH]]; cbn [alloc_addrs].
  { exists []. split_and!; try done; [constructor|by intros x Hx%elem_of_nil]. }
  destruct (alloc_addrs l m) as [p m']. destruct IH as (H1 & H2 & H3 & H4 & H5 & _). set (x := fresh (dom m')).
  assert (x ∉ dom m') as Hx by apply is_fresh. assert (x ∉ xs) as Hxx.
  { intros Hin. by apply Hx, (chain_dom _ _ _ _ H1). }
  exists (x :: xs). split_and!; try done.
  - split; [done|]. exists (Ai a 0 p). rewrite lookup_insert_eq. split; [done|]. eapply addrs_frame; [|exact H1].
    intros y Hy. rewrite lookup_insert_ne; [done|]. intros <-. done.
  - by apply NoDup_cons.
  - intros y [->|Hy]%elem_of_cons; [|by apply H3]. intros Hd. by apply Hx, H5.
  - intros y Hy. rewrite lookup_insert_ne; [by apply H4|]. intros <-. by apply Hx, H5.
  - rewrite dom_insert. set_solver.
Qed.

(** "Rotating" through the addresses drops the first one: it is linked to itself,
    and the list goes on without it. *)
Lemma rotate_drops m first second l :
  chain m (Some first) (first :: second :: l) ->
  exists n m', m !! first = Some n /\ rotate m first = Some (Some second, m') /\
    m' = <[first := Ai (ai_sa n) (ai_port n) (Some first)]> m.
Proof.
  intros (_ & n & E & Hc & _). exists n. eexists. split; [done|]. unfold rotate. rewrite E. cbn [mbind option_bind]. rewrite Hc.
  unfold link. rewrite E. cbn [mbind option_bind last_node]. rewrite lookup_insert_eq. cbn [mbind option_bind ai_next ai_sa ai_port].
  rewrite lookup_insert_eq. cbn [mbind option_bind ai_next ai_sa ai_port]. by rewrite insert_insert_eq.
Qed.

Lemma set_port_chain m x l p :
  chain m (Some x) (x :: l) -> NoDup (x :: l) ->
  exists n, m !! x = Some n /\ set_port m x p = Some (<[x := Ai (ai_sa n) p (ai_next n)]> m) /\
    chain (<[x := Ai (ai_sa n) p (ai_next n)]> m) (Some x) (x :: l).
Proof.
  intros (_ & n & E & Hc) [Hx _]%NoDup_cons. exists n. split; [done|]. unfold set_port. rewrite E. split; [done|]. split; [done|].
  eexists. rewrite lookup_insert_eq. split; [reflexivity|]. cbn [ai_next]. eapply addrs_frame; [|exact Hc].
  intros y Hy. rewrite lookup_insert_ne; [done|]. intros <-. done.
Qed.


(** ** The queue, its addresses and the datagrams *)

Section safety.
  Context (base : cstr) (nsm_state : Z) (gai : Z -> cstr -> list sockaddr) (xmit : nat -> Z).

Definition ident (h : nsm_host) : cstr * cstr * cstr := (h_name h, h_mon_name h, h_my_name h).














(** ** The records of the hosts *)









Lemma set_sched_ident h a b c d : ident (set_sched h a b c d) = ident h.
Proof. done. Qed.







End safety.


(** ** The pace of the datagrams *)

Section pace.
  Context (base : cstr) (nsm_state : Z) (gai : Z -> cstr -> list sockaddr) (xmit : nat -> Z).

(** No host waits longer than the maximal timeout. *)
Definition paced (T : Z) (h : nsm_host) : Prop := send_next h <= T + NSM_MAX_TIMEOUT /\ NSM_TIMEOUT <= timeout h <= NSM_MAX_TIMEOUT.

Lemma next_timeout_range t : NSM_TIMEOUT <= t <= NSM_MAX_TIMEOUT -> next_timeout t = Z.min (2 * t) NSM_MAX_TIMEOUT.
Proof.
  unfold next_timeout, NSM_TIMEOUT, NSM_MAX_TIMEOUT. intros Ht. rewrite Z.shiftl_mul_pow2 by lia. change (2 ^ 1) with 2.
  rewrite u32_id by lia. destruct (Z.ltb_spec 120 (t * 2)); lia.
Qed.

Lemma notify_host_keeps now h s h' s' :
  notify_host nsm_state gai xmit now h s = Some (h', s') -> send_next h' = send_next h /\ timeout h' = timeout h /\ s_hosts s' = s_hosts s.
Proof.
  unfold notify_host. destruct (match h_ai h with Some _ => _ | None => _ end) as [ai m]. destruct ai as [x|]; [|by intros [= <- <-]].
  destruct (if 4 <=? retries h then _ else _) as [[[ai' m'] retr]|]; [|done]. cbn [mbind option_bind]. destruct ai' as [y|]; [|done].
  cbn [mbind option_bind]. destruct (m' !! y); [|done]. cbn [mbind option_bind]. by intros [= <- <-].
Qed.

Lemma send_due_paced fuel now T s s' :
  now <= T -> send_due nsm_state gai xmit fuel now s = Some s' -> Forall (paced T) (s_hosts s) -> Forall (paced T) (s_hosts s').
Proof.
  intros Hnow. revert s. induction fuel as [|fuel IH]; intros s; (destruct (s_hosts s) as [|hp rest] eqn:Eh; cbn [send_due]; rewrite Eh;
    [intros [= <-]; by rewrite Eh|]; destruct (send_next hp - now <=? 0); [|intros [= <-]; by rewrite Eh]).
  { intros [= <-]. by rewrite Eh. }
  destruct (notify_host _ _ _ now hp (set_hosts s rest)) as [[h' s1]|] eqn:E1; [|done]. cbn [mbind option_bind]. intros E2 [Hp Hr]%Forall_cons.
  apply (IH _ E2). cbn [s_hosts set_hosts]. rewrite insert_host_perm. destruct (notify_host_keeps _ _ _ _ _ E1) as (_ & Ht & Hh). rewrite Hh.
  constructor; [|done]. unfold paced in *. cbn [send_next timeout set_sched]. rewrite Ht, next_timeout_range by lia.
  unfold NSM_TIMEOUT, NSM_MAX_TIMEOUT in *. lia.
Qed.

Lemma recv_reply_paced r now T s s' :
  now <= T -> recv_reply base r now s = Some s' -> Forall (paced T) (s_hosts s) -> Forall (paced T) (s_hosts s').
Proof.
  intros Hnow. unfold recv_reply. destruct (r_xid r =? 0); [by intros [= <-]|].
  destruct (find_host (r_xid r) (s_hosts s)) as [[hp rest]|] eqn:Ef; [|by intros [= <-]].
  apply find_host_spec in Ef as (Hp & _). rewrite Hp. intros E [Hh Hr]%Forall_cons. revert E.
  destruct (h_ai hp) as [x|]; [|done]. cbn [mbind option_bind]. destruct (s_addrs s !! x) as [n|]; [|done]. cbn [mbind option_bind].
  unfold recv_rpcbind_reply, recv_notify_reply, smn_forget_host, smn_defer, smn_schedule. cbn [set_hosts s_hosts s_addrs s_disk s_log].
  assert (forall h next tmo, timeout h = tmo -> send_next h = next -> next <= T + NSM_MAX_TIMEOUT -> NSM_TIMEOUT <= tmo <= NSM_MAX_TIMEOUT ->
    Forall (paced T) (insert_host h rest)) as Hins.
  { intros h next tmo <- <- H1 H2. rewrite insert_host_perm. by constructor. }
  unfold NSM_TIMEOUT, NSM_MAX_TIMEOUT in *. destruct (ai_port n =? 0).
  - destruct (r_port r =? 0).
    + intros [= <-]. eapply Hins; [reflexivity|reflexivity|cbn; lia|cbn; lia].
    + destruct (set_port _ _ _); [|done]. cbn [mbind option_bind]. intros [= <-]. eapply Hins; [reflexivity|reflexivity|cbn; lia|cbn; lia].
  - destruct (strchr "." (notify_arg hp)) as [[b a]|].
    + intros [= <-]. eapply Hins; [reflexivity|reflexivity|cbn; lia|cbn; lia].
    + destruct (nsm_delete_notified_host _ _ _ _ _) as [[|] d]; [|done]. by intros [= <-].
Qed.

Lemma notify_paced failtime turns T s s' b :
  Forall (fun t => t_now t <= T /\ t_then t <= T) turns -> notify base nsm_state gai xmit failtime turns s = Some (s', b) ->
  Forall (paced T) (s_hosts s) -> Forall (paced T) (s_hosts s').
Proof.
  intros Ht. revert s. induction Ht as [|t turns [H1 H2] Ht IH]; intros s; cbn [notify].
  { destruct (s_hosts s) eqn:Eh; intros [= <- <-]; by rewrite Eh. }
  destruct (s_hosts s) as [|h rest] eqn:Eh; [intros [= <- <-]; by rewrite Eh|]. rewrite <- Eh.
  destruct (negb (failtime =? 0) && _); [by intros [= <- <-]|]. unfold notify_turn.
  destruct (send_due _ _ _ 10 (t_now t) s) as [s1|] eqn:E1; [|done]. cbn [mbind option_bind]. intros E Hp.
  pose proof (send_due_paced _ _ T _ _ H1 E1 Hp) as Hp1. destruct (s_hosts s1) as [|h1 r1] eqn:Eh1; rewrite <- Eh1 in Hp1.
  - cbn [mbind option_bind] in E. by apply (IH s1 E).
  - destruct (t_reply t) as [r|]; cbn [mbind option_bind] in E; [|by apply (IH s1 E)].
    destruct (recv_reply base r (t_then t) s1) as [s2|] eqn:E2; [|done]. cbn [mbind option_bind] in E.
    apply (IH s2); [done|]. by eapply recv_reply_paced.
Qed.

End pace.

(** The pace of the notifications: whatever datagrams come in, every host left
    on the queue has a timeout between 2 and 120 seconds and is due within 120
    seconds of the latest reading of the clock; and each try that is not answered
    doubles the timeout, up to that bound. *)
Theorem smn_pace base nsm_state src gai xmit failtime turns mtime recs (d : disk) T s' b :
  0 <= T -> Forall (fun t => t_now t <= T /\ t_then t <= T) turns ->
  notify base nsm_state gai xmit failtime turns (Smn (load_queue src mtime recs) ∅ d []) = Some (s', b) ->
  Forall (fun h => send_next h <= T + NSM_MAX_TIMEOUT /\ NSM_TIMEOUT <= timeout h <= NSM_MAX_TIMEOUT /\
                   next_timeout (timeout h) = Z.min (2 * timeout h) NSM_MAX_TIMEOUT) (s_hosts s').
Proof.
  intros HT Ht E. assert (Forall (paced T) (s_hosts s')) as H.
  - eapply (notify_paced base nsm_state gai xmit failtime turns T); [exact Ht|exact E|]. clear E. cbn [s_hosts]. unfold load_queue.
    assert (forall l, Forall (paced T) l -> Forall (paced T) (foldl (fun l '(h, m) => smn_get_host src h m (mtime h) l) l recs)) as H;
      [|apply H; constructor].
    induction recs as [|[h m] recs IH]; intros l Hl; [done|]. cbn [foldl]. apply IH. unfold smn_get_host. rewrite insert_host_perm.
    constructor; [|done]. unfold paced, NSM_TIMEOUT, NSM_MAX_TIMEOUT. cbn. unfold NSM_TIMEOUT. lia.
  - eapply Forall_impl; [exact H|]. intros h [H1 H2]. split_and!; try lia. by apply next_timeout_range.
Qed.

(** "Rotating" addresses: the first datagram to a host with several addresses goes
    to the second one, and the first is never used again: its node is linked to
    itself and no longer on the host's list. *)
Theorem smn_first_address_dropped nsm_state gai xmit now h (s : smn) a b rest :
  h_ai h = None -> 4 <= retries h -> gai now (h_name h) = a :: b :: rest ->
  exists h' s' x l, notify_host nsm_state gai xmit now h s = Some (h', s') /\
    s_log s' = s_log s ++ [Rpcbind b (xmit (length (s_log s)))] /\
    chain (s_addrs s') (h_ai h') l /\ x ∉ l /\ s_addrs s' !! x = Some (Ai a 0 (Some x)).
Proof.
  intros Ha Hr Hg. unfold notify_host, smn_lookup. rewrite Ha, Hg. cbn [alloc_addrs].
  destruct (alloc_addrs_spec rest (s_addrs s)) as [xs Hx]. destruct (alloc_addrs rest (s_addrs s)) as [p m].
  destruct Hx as (X1 & X2 & _). set (y := fresh (dom m)). assert (y ∉ dom m) as Hy by apply is_fresh.
  set (m1 := <[y := Ai b 0 p]> m). set (x := fresh (dom m1)). assert (x ∉ dom m1) as Hx by apply is_fresh.
  assert (x <> y) as Hxy by (intros ->; apply Hx; unfold m1; rewrite dom_insert; set_solver).
  assert (forall z, z ∈ xs -> z ∈ dom m) as Hxs by (intros z; by apply (chain_dom _ _ _ _ X1)).
  set (m2 := <[x := Ai a 0 (Some y)]> m1).
  assert (chain m2 (Some x) (x :: y :: xs)) as Hc.
  { split; [done|]. eexists. unfold m2. rewrite lookup_insert_eq. split; [reflexivity|]. split; [done|]. eexists.
    rewrite lookup_insert_ne by done. unfold m1. rewrite lookup_insert_eq. split; [reflexivity|].
    eapply addrs_frame; [|exact X1]. intros z Hz. rewrite !lookup_insert_ne; [done| |].
    - intros <-. by apply Hy, Hxs.
    - intros <-. apply Hx. unfold m1. rewrite dom_insert. apply elem_of_union_r. by apply Hxs. }
  assert (NoDup (y :: xs)) as Hn2 by (apply NoDup_cons; split; [intros Hz; by apply Hy, Hxs|done]).
  assert (x ∉ y :: xs) as Hxn.
  { intros [?|Hz]%elem_of_cons; [done|]. apply Hx. unfold m1. rewrite dom_insert. apply elem_of_union_r. by apply Hxs. }
  rewrite (proj2 (Z.leb_le _ _) Hr). destruct (rotate_drops m2 x y xs Hc) as (n & m3 & En & -> & ->).
  assert (n = Ai a 0 (Some y)) as -> by (unfold m2 in En; rewrite lookup_insert_eq in En; congruence). cbn [ai_sa ai_port].
  assert (chain (<[x := Ai a 0 (Some x)]> m2) (Some y) (y :: xs)) as Hc3.
  { destruct Hc as (_ & n' & En' & Hc). rewrite En in En'. injection En' as <-. eapply addrs_frame; [|exact Hc].
    intros z Hz. rewrite lookup_insert_ne; [done|]. by intros <-. }
  destruct (set_port_chain _ y xs 0 Hc3 Hn2) as (n & En2 & -> & Hc4). cbn [mbind option_bind]. rewrite lookup_insert_eq. cbn [mbind option_bind].
  assert (n = Ai b 0 p) as ->.
  { unfold m2, m1 in En2. rewrite !lookup_insert_ne, lookup_insert_eq in En2 by done. congruence. }
  eexists _, _, x, (y :: xs). split; [reflexivity|]. split; [done|]. split; [exact Hc4|]. split; [done|]. cbn [s_addrs].
  rewrite lookup_insert_ne, lookup_insert_eq by done. done.
Qed.

(** ** A host that answers *)

Section handshake.
  Context (base : cstr) (nsm_state : Z) (gai : Z -> cstr -> list sockaddr) (xmit : nat -> Z).

(** One datagram to the only host of the queue, at its only address. *)
Lemma send_one now h x n (s : smn) :
  s_hosts s = [h] -> h_ai h = Some x -> s_addrs s !! x = Some n -> retries h < 4 -> send_next h <= now -> NSM_TIMEOUT <= timeout h <= NSM_MAX_TIMEOUT ->
  let xid := xmit (length (s_log s)) in
  send_due nsm_state gai xmit 10 now s =
  Some (Smn [set_sched h (now + timeout h) (next_timeout (timeout h)) (u32 (retries h + 1)) xid] (s_addrs s) (s_disk s)
    (s_log s ++ [if ai_port n =? 0 then Rpcbind (ai_sa n) xid else Notified (ai_sa n) (ai_port n) (notify_arg h) nsm_state xid])).
Proof.
  intros Hh Ha En Hr Hs Ht xid. cbn [send_due]. rewrite Hh, (proj2 (Z.leb_le _ _)) by lia. unfold notify_host.
  cbn [set_hosts s_addrs s_log s_disk s_hosts]. rewrite Ha, (proj2 (Z.leb_gt _ _)) by lia. cbn [mbind option_bind]. rewrite En. cbn [mbind option_bind].
  cbn [set_hosts s_addrs s_log s_disk s_hosts insert_host send_due send_next set_sched set_ai timeout retries h_xid].
  assert (0 < timeout h) by (unfold NSM_TIMEOUT in Ht; lia). rewrite (proj2 (Z.leb_gt _ _)) by lia.
  unfold set_hosts, set_sched, set_ai. cbn. by rewrite ?Ha.
Qed.

(** The answer to it. *)
Lemma recv_one h x n r now (s : smn) :
  s_hosts s = [h] -> h_ai h = Some x -> s_addrs s !! x = Some n -> h_xid h = r_xid r -> r_xid r <> 0 ->
  recv_reply base r now s =
  if ai_port n =? 0 then recv_rpcbind_reply x h (r_port r) now (set_hosts s []) else recv_notify_reply base h now (set_hosts s []).
Proof.
  intros Hh Ha En Hx Hr. unfold recv_reply. rewrite (proj2 (Z.eqb_neq _ _) Hr), Hh. cbn [find_host].
  rewrite Hx, Z.eqb_refl. cbn [mbind option_bind]. rewrite Ha. cbn [mbind option_bind]. by rewrite En.
Qed.

End handshake.

(** A peer that answers is done in three exchanges: its port mapper is asked,
    statd there is notified under the full name of this machine and again under
    the unqualified one, and then its record is deleted and the loop ends, with
    no other datagram sent. *)
Theorem smn_handshake base nsm_state gai xmit n mon_n short domain a port timestamp (d d' : disk) t1 u1 t2 u2 t3 u3 p2 p3 :
  (forall t, gai t n = [a]) -> (forall k, xmit k <> 0) -> port <> 0 -> "."%char ∉ short ->
  0 <= t1 -> u1 <= t2 -> u2 <= t3 ->
  nsm_delete_notified_host base n mon_n (short ++ "."%char :: domain) d = (Some tt, d') ->
  let my := short ++ "."%char :: domain in
  exists m, notify base nsm_state gai xmit 0
      [Turn t1 (Some (Reply (xmit 0%nat) port)) u1; Turn t2 (Some (Reply (xmit 1%nat) p2)) u2; Turn t3 (Some (Reply (xmit 2%nat) p3)) u3]
      (Smn [smn_alloc_host None n mon_n my timestamp] ∅ d []) =
    Some (Smn [] m d' [Rpcbind a (xmit 0%nat); Notified a port my nsm_state (xmit 1%nat); Notified a port short nsm_state (xmit 2%nat)], true).
Proof.
  intros Hg Hx Hp Hs Ht1 Ht2 Ht3 Hd my. cbn [notify s_hosts Z.eqb negb andb].
  assert (notify_turn base nsm_state gai xmit (Turn t1 (Some (Reply (xmit 0%nat) port)) u1) (Smn [smn_alloc_host None n mon_n my timestamp] ∅ d []) =
    Some (Smn [Host n mon_n my my (Some 1%positive) timestamp u1 NSM_TIMEOUT 0 0] {[1%positive := Ai a port None]} d [Rpcbind a (xmit 0%nat)])) as ->.
  { unfold notify_turn. cbn [t_now t_reply t_then send_due s_hosts smn_alloc_host send_next]. rewrite (proj2 (Z.leb_le _ _)) by lia.
    unfold notify_host. cbn [h_ai smn_alloc_host h_name set_hosts s_addrs]. unfold smn_lookup. rewrite Hg. cbn [alloc_addrs].
    change (fresh (dom ∅)) with 1%positive. cbn [retries smn_alloc_host Z.leb Z.compare]. unfold rotate. rewrite lookup_insert_eq.
    cbn [mbind option_bind ai_next set_port]. unfold set_port. rewrite lookup_insert_eq. cbn [mbind option_bind ai_next ai_sa].
    change (4 <=? 100) with true. cbv iota. rewrite insert_insert_eq. cbn [mbind option_bind]. rewrite lookup_insert_eq.
    cbn [mbind option_bind ai_port ai_sa Z.eqb].
    cbn [set_hosts s_hosts s_addrs s_disk s_log insert_host send_due send_next set_sched smn_alloc_host set_ai timeout].
    rewrite (proj2 (Z.leb_gt _ _)) by (unfold NSM_TIMEOUT; lia). cbn [mbind option_bind s_hosts].
    erewrite (recv_one _ _ 1%positive (Ai a 0 None)); [|reflexivity|reflexivity|apply lookup_insert_eq|reflexivity|apply Hx].
    cbn [ai_port Z.eqb r_port]. unfold recv_rpcbind_reply. rewrite (proj2 (Z.eqb_neq _ _) Hp). cbn [set_hosts s_addrs]. unfold set_port.
    rewrite lookup_insert_eq. cbn [mbind option_bind ai_sa ai_next]. by rewrite insert_insert_eq. }
  cbn [mbind option_bind notify s_hosts Z.eqb negb andb].
  assert (forall arg t u v k p log, u <= t -> length log = k ->
    notify_turn base nsm_state gai xmit (Turn t (Some (Reply (xmit k) p)) v)
      (Smn [Host n mon_n my arg (Some 1%positive) timestamp u NSM_TIMEOUT 0 0] {[1%positive := Ai a port None]} d log) =
    recv_notify_reply base (Host n mon_n my arg (Some 1%positive) timestamp (t + NSM_TIMEOUT) 4 1 (xmit k)) v
      (Smn [] {[1%positive := Ai a port None]} d (log ++ [Notified a port arg nsm_state (xmit k)]))) as Hturn.
  { intros arg t u v k p log Hut Hk. unfold notify_turn. cbn [t_now t_reply t_then].
    erewrite (send_one nsm_state gai xmit t _ 1%positive (Ai a port None)); [|reflexivity|reflexivity|apply lookup_insert_eq|done|done|done].
    cbn [mbind option_bind s_hosts s_log]. erewrite (recv_one base _ 1%positive (Ai a port None)); [|reflexivity|reflexivity|apply lookup_insert_eq| |apply Hx].
    - cbn [ai_port ai_sa]. rewrite (proj2 (Z.eqb_neq _ _) Hp), Hk. done.
    - cbn. by rewrite Hk. }
  rewrite (Hturn my t2 u1 u2 1%nat p2) by done. unfold recv_notify_reply at 1. cbn [notify_arg].
  assert (strchr "." my = Some (short, domain)) as -> by (by apply strchr_app). unfold smn_schedule, set_hosts, set_sched, set_arg.
  cbn [mbind option_bind notify s_hosts s_addrs s_disk s_log Z.eqb negb andb insert_host h_name h_mon_name h_my_name notify_arg h_ai last_used].
  rewrite (Hturn short t3 u2 u3 2%nat p3) by done. unfold recv_notify_reply. cbn [notify_arg].
  rewrite (proj2 (strchr_None _ _) Hs). unfold smn_forget_host. cbn [h_name h_mon_name h_my_name s_disk]. fold my in Hd. rewrite Hd.
  eexists. reflexivity.
Qed.

(** ** Two hosts on a disk *)

Definition bak_ex : disk :=
  Disk (list_to_map (map (fun n => (base_ex ++ $"/sm.bak/" ++ n, file_of [mon_ex n])) [$"p"; $"q"])) [] [].


Definition turns_ex : list turn :=
  [Turn 10 (Some (Reply 1 700)) 11; Turn 12 (Some (Reply 3 0)) 12; Turn 12 (Some (Reply 4 0)) 12; Turn 12 None 12].


Lemma smn_pace_witness :
  exists s' b, notify base_ex 3 (fun _ _ => [AF_INET 1]) (fun k => Z.of_nat k + 1) 900 turns_ex
      (Smn (load_queue None (fun _ => 5) [($"p", mon_ex $"p"); ($"q", mon_ex $"q")]) ∅ bak_ex []) = Some (s', b) /\
    Forall (fun h => send_next h <= 12 + NSM_MAX_TIMEOUT) (s_hosts s').
Proof.
  destruct (notify base_ex 3 (fun _ _ => [AF_INET 1]) (fun k => Z.of_nat k + 1) 900 turns_ex
    (Smn (load_queue None (fun _ => 5) [($"p", mon_ex $"p"); ($"q", mon_ex $"q")]) ∅ bak_ex [])) as [[s' b]|] eqn:E.
  2:{ exfalso. assert (bool_decide (notify base_ex 3 (fun _ _ => [AF_INET 1]) (fun k => Z.of_nat k + 1) 900 turns_ex
        (Smn (load_queue None (fun _ => 5) [($"p", mon_ex $"p"); ($"q", mon_ex $"q")]) ∅ bak_ex []) = None) = false) as H by (vm_compute; reflexivity).
      rewrite E in H. discriminate H. }
  exists s', b. split; [reflexivity|].
  pose proof (smn_pace base_ex 3 None (fun _ _ => [AF_INET 1]) (fun k => Z.of_nat k + 1) 900 turns_ex (fun _ => 5)
    [($"p", mon_ex $"p"); ($"q", mon_ex $"q")] bak_ex 12 s' b) as H.
  eapply Forall_impl; [apply H; [lia|repeat constructor; cbn; lia|exact E]|]. intros h (H1 & _). exact H1.
Defined.

Lemma smn_handshake_witness :
  exists m d', notify base_ex 3 (fun _ _ => [AF_INET 1]) (fun k => Z.of_nat k + 1) 0
      [Turn 10 (Some (Reply 1 700)) 11; Turn 11 (Some (Reply 2 0)) 12; Turn 13 (Some (Reply 3 0)) 14]
      (Smn [smn_alloc_host None $"p" $"p" $"me.ex.org" 5] ∅ bak_ex []) =
    Some (Smn [] m d' [Rpcbind (AF_INET 1) 1; Notified (AF_INET 1) 700 $"me.ex.org" 3 2; Notified (AF_INET 1) 700 $"me" 3 3], true).
Proof.
  destruct (nsm_delete_notified_host base_ex $"p" $"p" $"me.ex.org" bak_ex) as [r d'] eqn:Ed.
  assert (r = Some tt) as ->.
  { assert (fst (nsm_delete_notified_host base_ex $"p" $"p" $"me.ex.org" bak_ex) = Some tt) as H by (vm_compute; reflexivity).
    rewrite Ed in H. exact H. }
  destruct (smn_handshake base_ex 3 (fun _ _ => [AF_INET 1]) (fun k => Z.of_nat k + 1) $"p" $"p" $"me" $"ex.org" (AF_INET 1) 700 5 bak_ex d' 10 11 11 12 13 14 0 0)
    as [m E].
  - reflexivity.
  - intros k. lia.
  - discriminate.
  - rewrite list_elem_of_In. cbn. intuition discriminate.
  - lia.
  - lia.
  - lia.
  - exact Ed.
  - exists m, d'. exact E.
Defined.
