(* ===== verification/MntOpts.v ===== *)
(** * The options of a mount (utils/mount/network.c, support/nfs/getport.c)

    mount.nfs reads the version, transport, port and program of the NFS and the
    mount service from its option list and writes them back.  The code reaches the
    list only through the operations of parse_opt.c; here an option list is the
    list of its options, each operation is its effect on that list, and
    [po_operations] shows that the linked lists of [ParseOpt] have these effects.
    [nfs_nfs_version] and the other readers follow network.c.  The netconfig and
    protocol databases are a record of functions. *)

From S2P Require Import Prelude Heap Token ParseOpt Client.

(** ** Option lists *)

Abbreviation opts := (list mopt).

Definition o_has (o : opts) (kw : cstr) : bool := existsb (fun a => streq (keyword a) kw) o.

Fixpoint o_prefix (o : opts) (prefix : cstr) (n : Z) : option cstr :=
  match o with
  | [] => None
  | a :: o =>
      if starts_with prefix (keyword a) then if 0 <? n then o_prefix o prefix (n - 1) else Some (keyword a)
      else o_prefix o prefix n
  end.

Definition o_get (o : opts) (kw : cstr) : option cstr :=
  match last (with_keyword kw o) with Some a => value a | None => None end.

Definition o_numeric (o : opts) (kw : cstr) : po_found_t * option Z :=
  match o_get o kw with
  | None => (PO_NOT_FOUND, None)
  | Some s =>
      let r := strtol 10 s in
      if negb (st_erange r) && st_conv r then (PO_FOUND, Some (st_value r)) else (PO_BAD_VALUE, None)
  end.

Definition o_rightmost (o : opts) (keys : list cstr) : Z :=
  default (-1) (last (omap (fun a => key_index 0 (keyword a) keys) o)).

Definition o_remove (o : opts) (kw : cstr) : opts := filter (fun a => streq (keyword a) kw = false) o.
Definition o_append (o : opts) (str : cstr) : opts := o ++ [parse_option str].
Definition o_insert (o : opts) (str : cstr) : opts := parse_option str :: o.

(** ** Versions, transports, ports *)

Inductive v_mode_t := V_DEFAULT | V_GENERAL | V_SPECIFIC | V_PARSE_ERR.
#[export] Instance v_mode_eq : EqDecision v_mode_t.
Proof. solve_decision. Defined.

Record nfs_version := NV { major : Z; minor : Z; v_mode : v_mode_t }.

Definition nfs_version_opttbl : list cstr := [$"v2"; $"v3"; $"v4"; $"vers"; $"nfsvers"].
Definition nfs_transport_opttbl : list cstr := [$"udp"; $"tcp"; $"rdma"; $"proto"].

(** The search for the version option; [None] when there is more than one. *)
Fixpoint version_search (o : opts) (i : Z) (tbl : list cstr) (found : option (Z * cstr)) : option (option (Z * cstr)) :=
  match tbl with
  | [] => Some found
  | k :: tbl =>
      match o_prefix o k 0 with
      | None => version_search o (i + 1) tbl found
      | Some key =>
          match found, o_prefix o k 1 with
          | None, None => version_search o (i + 1) tbl (Some (i, key))
          | _, _ => None
          end
      end
  end.

Definition parse_err (v : nfs_version) : bool * nfs_version := (false, NV (major v) (minor v) V_PARSE_ERR).

(** From [version->major = strtol(version_val, ...)] on. *)
Definition read_version (o : opts) (version_val : cstr) (v : nfs_version) : bool * nfs_version :=
  let r := strtol 10 version_val in
  let cptr := st_end r in
  let v := NV (u64 (st_value r)) (minor v) (v_mode v) in
  if negb (st_conv r) || (negb (streq cptr []) && negb (ceqb (deref cptr) ".")) then parse_err v
  else
    let minorversion := o_get o $"minorversion" in
    match (if (major v =? 4) && negb (ceqb (deref cptr) ".") then minorversion else None) with
    | Some mv =>
        let r := strtol 10 mv in
        let v := NV (major v) (u64 (st_value r)) (v_mode v) in
        if negb (streq (st_end r) []) then parse_err v else (true, NV (major v) (minor v) V_SPECIFIC)
    | None =>
        if major v <? 4 then
          let v := NV (major v) (minor v) V_SPECIFIC in
          if streq cptr [] then (true, v) else parse_err v
        else if ceqb (deref cptr) "." then
          let r := strtol 10 (drop 1 cptr) in
          let v := NV (major v) (u64 (st_value r)) (v_mode v) in
          if (minor v =? 0) && negb (st_conv r) then parse_err v
          else if streq (st_end r) [] then (true, NV (major v) (minor v) V_SPECIFIC)
          else parse_err v
        else
          match minorversion with
          | Some mv =>
              let r := strtol 10 mv in
              let v := NV (major v) (u64 (st_value r)) V_SPECIFIC in
              if streq (st_end r) [] then (true, v) else parse_err v
          | None => (true, NV (major v) (minor v) V_GENERAL)
          end
    end.

Definition nfs_nfs_version (type : cstr) (o : opts) (version : nfs_version) : bool * nfs_version :=
  let v := NV (major version) (minor version) V_DEFAULT in
  match version_search o 0 nfs_version_opttbl None with
  | None => parse_err v
  | Some None => if streq type $"nfs4" then read_version o (drop 3 type) v else (true, v)
  | Some (Some (found, key)) =>
      if found <=? 2 then read_version o (drop 1 key) (NV (major v) (minor v) V_SPECIFIC)
      else
        match o_get o key with
        | None => parse_err v
        | Some val => read_version o val v
        end
  end.

Inductive family := F_UNSPEC | F_INET | F_INET6.
#[export] Instance family_eq : EqDecision family.
Proof. solve_decision. Defined.
Definition sa_family (sap : sockaddr) : family :=
  match sap with AF_INET _ => F_INET | AF_INET6 _ _ _ _ _ => F_INET6 end.

Definition IPPROTO_TCP : Z := 6.
Definition IPPROTO_UDP : Z := 17.
Definition NFSPROTO_RDMA : Z := 3939.
Definition NC_INET : cstr := $"inet".
Definition NC_INET6 : cstr := $"inet6".

(** An entry of /etc/netconfig, and the databases that the C library reads. *)
Record netconfig := NC { nc_netid : cstr; nc_protofmly : cstr; nc_proto : cstr }.
Record netdb := NetDb
  { netconfigs : list netconfig;                     (* [getnetconfig] *)
    getnetconfigent : cstr -> option netconfig;
    getprotobyname : cstr -> option Z;
    getprotobynumber : Z -> option cstr;
    getrpcbyname : Z -> Z;                           (* [nfs_getrpcbyname] with its table *)
    config_default_family : family }.

Section netdb.
  Context (db : netdb).

Definition nfs_get_proto (netid : cstr) : option (family * Z) :=
  if streq netid $"rdma" then Some (F_INET, NFSPROTO_RDMA)
  else if streq netid $"rdma6" then Some (F_INET6, NFSPROTO_RDMA)
  else
    match getnetconfigent db netid with
    | None => None
    | Some nconf =>
        match getprotobyname db (nc_proto nconf) with
        | None => None
        | Some p =>
            let family := F_UNSPEC in
            let family := if streq (nc_protofmly nconf) NC_INET then F_INET else family in
            let family := if streq (nc_protofmly nconf) NC_INET6 then F_INET6 else family in
            Some (family, p)
        end
    end.

Definition nfs_get_netid (f : family) (protocol : Z) : option cstr :=
  match f with
  | F_UNSPEC => None
  | F_INET | F_INET6 =>
      match getprotobynumber db protocol with
      | None => None
      | Some name =>
          let fmly := match f with F_INET6 => NC_INET6 | _ => NC_INET end in
          nc_netid <$> List.find (fun nc => streq (nc_protofmly nc) fmly && streq (nc_proto nc) name) (netconfigs db)
      end
  end.

Definition EPROTONOSUPPORT : Z := 93.

(** [Some p]: the transport, 0 when none is given.  [None]: the option has a bad
    value. *)
Definition nfs_nfs_protocol (o : opts) : option Z :=
  let i := o_rightmost o nfs_transport_opttbl in
  if i =? 0 then Some IPPROTO_UDP
  else if i =? 1 then Some IPPROTO_TCP
  else if i =? 2 then Some NFSPROTO_RDMA
  else if i =? 3 then
    match o_get o $"proto" with
    | Some option => snd <$> nfs_get_proto option
    | None => Some 0
    end
  else Some 0.

(** A number in a range; 0 when the option is not there. *)
Definition ranged (o : opts) (kw : cstr) (ok : Z -> bool) (def : Z) : option Z :=
  match o_numeric o kw with
  | (PO_NOT_FOUND, _) => Some def
  | (PO_FOUND, Some tmp) => if ok tmp then Some tmp else None
  | _ => None
  end.

Definition is_port (tmp : Z) : bool := (0 <=? tmp) && (tmp <=? 65535).

Definition nfs_nfs_port (o : opts) : option Z := ranged o $"port" is_port 0.
Definition nfs_mount_port (o : opts) : option Z := ranged o $"mountport" is_port 0.
Definition nfs_nfs_program (o : opts) : option Z := ranged o $"nfsprog" (fun tmp => 0 <? tmp) (getrpcbyname db 100003).
Definition nfs_mount_program (o : opts) : option Z := ranged o $"mountprog" (fun tmp => 0 <? tmp) (getrpcbyname db 100005).
Definition nfs_mount_version (o : opts) : option Z := ranged o $"mountvers" (fun tmp => (1 <=? tmp) && (tmp <=? 4)) 0.

(** With IPv6 every family is supported. *)
Definition nfs_nfs_proto_family (o : opts) : option family :=
  let i := o_rightmost o nfs_transport_opttbl in
  if (i =? 0) || (i =? 1) || (i =? 2) then Some F_INET
  else if i =? 3 then
    match o_get o $"proto" with
    | Some option => fst <$> nfs_get_proto option
    | None => Some (config_default_family db)
    end
  else Some (config_default_family db).

Definition nfs_mount_protocol (o : opts) : option Z :=
  match o_get o $"mountproto" with
  | Some option => snd <$> nfs_get_proto option
  | None =>
      match nfs_nfs_protocol o with
      | None => None
      | Some p => Some (if p =? NFSPROTO_RDMA then IPPROTO_TCP else p)
      end
  end.

Definition nfs_mount_proto_family (o : opts) : option family :=
  match o_get o $"mountproto" with
  | Some option => fst <$> nfs_get_proto option
  | None => nfs_nfs_proto_family o
  end.

(** [struct pmap]. *)
Record pmap := Pmap { pm_prog : Z; pm_vers : Z; pm_prot : Z; pm_port : Z }.

Definition nfs_options2pmap (o : opts) : option (pmap * pmap) :=
  nprog ← nfs_nfs_program o;
  let '(ok, version) := nfs_nfs_version $"nfs" o (NV 0 0 V_DEFAULT) in
  if negb ok then None
  else
    let nvers := if decide (v_mode version = V_DEFAULT) then 0 else major version in
    nprot ← nfs_nfs_protocol o;
    nport ← nfs_nfs_port o;
    mprog ← nfs_mount_program o;
    mvers ← nfs_mount_version o;
    mprot ← nfs_mount_protocol o;
    mport ← nfs_mount_port o;
    Some (Pmap nprog nvers nprot nport, Pmap mprog mvers mprot mport).

Definition nfs_umount_hostname (o : opts) (hostname : cstr) : cstr :=
  match o_get o $"mountaddr" with
  | Some option => option
  | None =>
      match o_get o $"mounthost" with
      | Some option => option
      | None => default hostname (o_get o $"addr")
      end
  end.

End netdb.

(** ** The linked lists have these effects *)

Lemma o_has_with o kw : o_has o kw = match with_keyword kw o with [] => false | _ => true end.
Proof.
  unfold o_has, with_keyword. induction o as [|a o IH]; [done|]. cbn [existsb].
  destruct (streq (keyword a) kw) eqn:E; [by rewrite filter_cons_True|].
  rewrite filter_cons_False by congruence. exact IH.
Qed.

Lemma scan_prefix prefix o n :
  match scan_list (fun n (_ : bool) a => if starts_with prefix (keyword a)
                                         then if 0 <? n then inl (n - 1) else inr (keyword a) else inl n) n o with
  | inr k => Some k | inl _ => None end = o_prefix o prefix n.
Proof.
  revert n; induction o as [|a o IH]; intros n; [done|]. cbn [scan_list o_prefix].
  destruct (starts_with prefix (keyword a)); [destruct (0 <? n)|]; [apply IH|done|apply IH].
Qed.

Lemma scan_rightmost keys (o : opts) :
  match scan_list (fun (_ : unit) (_ : bool) a => match key_index 0 (keyword a) keys with
                                                  | Some i => inr i | None => inl tt end) tt (reverse o) with
  | inr i => i | inl _ => -1 end = o_rightmost o keys.
Proof.
  unfold o_rightmost. induction o as [|a o IH] using rev_ind; [done|].
  rewrite reverse_snoc, omap_app. cbn [scan_list omap list_omap].
  destruct (key_index 0 (keyword a) keys) as [i|]; [by rewrite last_snoc|]. by rewrite app_nil_r.
Qed.

Lemma po_read_ops s o l kw prefix n keys :
  rep (cells s) o l ->
  po_contains (Some o) (Some kw) s = Some (if o_has l.*2 kw then PO_FOUND else PO_NOT_FOUND, s) /\
  po_contains_prefix (Some o) (Some prefix) n s = Some (o_prefix l.*2 prefix n, s) /\
  po_get (Some o) (Some kw) s = Some (o_get l.*2 kw, s) /\
  po_get_numeric (Some o) (Some kw) s = Some (o_numeric l.*2 kw, s) /\
  po_rightmost (Some o) keys s = Some (o_rightmost l.*2 keys, s).
Proof.
  intros R. pose proof (rep_fuel _ _ _ R) as Hf.
  pose proof (po_get_spec s o l kw R) as G.
  split. { rewrite (po_contains_spec _ _ _ kw R), o_has_with. by destruct (with_keyword kw l.*2). }
  pose proof R as ((Hh & Ht & _ & D) & _).
  split.
  { unfold po_contains_prefix, with_fuel. rewrite Hh. erewrite hbind_ok by (by eapply scan_fwd_list).
    unfold hret. by rewrite scan_prefix. }
  split; [exact G|]. split.
  - unfold po_get_numeric. erewrite hbind_ok by exact G. unfold o_numeric, o_get.
    destruct (match last (with_keyword kw l.*2) with Some a => value a | None => None end); [|done].
    by destruct (negb _ && _).
  - unfold po_rightmost, with_fuel. rewrite Ht. erewrite hbind_ok by (by eapply scan_bwd_list).
    unfold hret. by rewrite scan_rightmost.
Qed.

Lemma create_rep s o l str :
  rep (cells s) o l -> exists r s', option_create (Some str) s = Some (r, s') /\ rep (cells s') o l /\
    ((3 <= budget s)%nat -> r <> None) /\
    match r with None => True | Some x => x ∉ l.*1 /\ cells s' !! x = Some (Node None None (parse_option str)) end.
Proof.
  intros R. destruct (option_create_spec str s) as (r & s' & E & _ & Hb & Hr).
  exists r, s'. split; [done|]. destruct r as [x|].
  - destruct Hr as [Hx Hc].
    assert (x ∉ l.*1) as Hxl.
    { intros Hin. destruct R as ((_ & _ & _ & D) & _).
      apply (dseg_dom _ _ _ _ _ D) in Hin. apply elem_of_dom in Hin as [? ?]. congruence. }
    rewrite Hc. split; [|split; [naive_solver|split; [done|apply lookup_insert_eq]]].
    eapply (rep_same [x]); [|set_solver|exact R].
    intros y Hy. rewrite lookup_insert_ne; [done|set_solver].
  - rewrite Hr. split; [done|]. split; [naive_solver|done].
Qed.

(** The two insertions; [None] memory leaves the list as it was. *)
Lemma po_write_ops s o l str :
  rep (cells s) o l -> Z.of_nat (length l) + 1 < 2 ^ 32 ->
  (exists o' s' r, po_append o (Some str) s = Some ((o', r), s') /\ ((3 <= budget s)%nat -> r = PO_SUCCEEDED) /\
     holds s' o' (match r with PO_SUCCEEDED => o_append l.*2 str | PO_FAILED => l.*2 end)) /\
  (exists o' s' r, po_insert o (Some str) s = Some ((o', r), s') /\ ((3 <= budget s)%nat -> r = PO_SUCCEEDED) /\
     holds s' o' (match r with PO_SUCCEEDED => o_insert l.*2 str | PO_FAILED => l.*2 end)).
Proof.
  intros R Hl. destruct (create_rep s o l str R) as (r & s1 & E & R1 & Hb & Hr).
  unfold po_append, po_insert, hbind. rewrite E. destruct r as [x|].
  - destruct Hr as [Hx Hc]. split.
    + destruct (options_tail_insert_rep s1 o l x _ R1 Hc Hx Hl) as (o' & h' & E' & R' & _).
      eexists o', _, PO_SUCCEEDED. rewrite E'. split; [done|]. split; [done|].
      eexists. split; [exact R'|]. by rewrite fmap_app.
    + destruct (options_head_insert_rep s1 o l x _ R1 Hc Hx Hl) as (o' & h' & E' & R' & _).
      eexists o', _, PO_SUCCEEDED. rewrite E'. split; [done|]. split; [done|].
      eexists. split; [exact R'|]. done.
  - split; exists o, s1, PO_FAILED; (split; [done|]); (split; [naive_solver|]); by exists l.
Qed.

(** The operations of parse_opt.c on a linked list of options have exactly the
    effects that the mount code is modelled with: the searches return what the
    list of options holds and leave the store alone; removal deletes every option
    with the keyword and keeps the order of the others; appending and inserting
    put the new option at its end, or fail for want of memory and change nothing.
    The linked list stays well formed throughout. *)
Theorem po_operations (s : hstate mopt) (o : mount_options) (l : opts) (kw prefix str : cstr) (n : Z) (keys : list cstr) :
  holds s o l -> Z.of_nat (length l) + 1 < 2 ^ 32 ->
  po_contains (Some o) (Some kw) s = Some (if o_has l kw then PO_FOUND else PO_NOT_FOUND, s) /\
  po_contains_prefix (Some o) (Some prefix) n s = Some (o_prefix l prefix n, s) /\
  po_get (Some o) (Some kw) s = Some (o_get l kw, s) /\
  po_get_numeric (Some o) (Some kw) s = Some (o_numeric l kw, s) /\
  po_rightmost (Some o) keys s = Some (o_rightmost l keys, s) /\
  (exists o' s', po_remove_all (Some o) (Some kw) s
     = Some ((Some o', if o_has l kw then PO_FOUND else PO_NOT_FOUND), s') /\ holds s' o' (o_remove l kw)) /\
  (exists o' s' r, po_append o (Some str) s = Some ((o', r), s') /\ ((3 <= budget s)%nat -> r = PO_SUCCEEDED) /\
     holds s' o' (match r with PO_SUCCEEDED => o_append l str | PO_FAILED => l end)) /\
  (exists o' s' r, po_insert o (Some str) s = Some ((o', r), s') /\ ((3 <= budget s)%nat -> r = PO_SUCCEEDED) /\
     holds s' o' (match r with PO_SUCCEEDED => o_insert l str | PO_FAILED => l end)).
Proof.
  intros H Hl. destruct (po_remove_all_spec s o l kw H) as (o' & s' & E & H' & _).
  destruct H as (l0 & R & <-). rewrite length_fmap in Hl.
  destruct (po_read_ops s o l0 kw prefix n keys R) as (? & ? & ? & ? & ?).
  destruct (po_write_ops s o l0 str R Hl) as [? ?].
  repeat (split; [done|]). split; [|done].
  exists o', s'. rewrite E, o_has_with. split; [by destruct (with_keyword kw l0.*2)|exact H'].
Qed.

Lemma po_operations_witness :
  exists s o, po_get (Some o) (Some ($"vers")) s = Some (Some ($"4"), s).
Proof.
  eexists _, _.
  eapply (po_operations _ _ _ ($"vers") ($"v") ($"ro") 0 [] (two_options_hold 0)). reflexivity.
Defined.

(** ** What a version option means *)

(** Numbers that [strtol] reads. *)
Definition number (n : Z) : Prop := 0 <= n <= LONG_MAX.

Lemma strtol_number n : number n -> strtol 10 (utoa 10 n) = StrTo n [] false true.
Proof. intros H. rewrite <- (app_nil_r (utoa 10 n)). apply strtol_utoa; auto. Qed.

Lemma o_prefix_nth o k n :
  o_prefix o k (Z.of_nat n) = keyword <$> filter (fun a => starts_with k (keyword a) = true) o !! n.
Proof.
  revert n; induction o as [|a o IH]; intros n; [done|]. cbn [o_prefix].
  destruct (starts_with k (keyword a)) eqn:E.
  - rewrite filter_cons_True by done. destruct n as [|n]; [done|].
    rewrite (proj2 (Z.ltb_lt _ _)) by lia. rewrite Nat2Z.inj_succ, <- Z.add_1_r, Z.add_simpl_r. apply IH.
  - rewrite filter_cons_False by congruence. apply IH.
Qed.

(** The options whose keyword starts as one of the table does, with its index. *)
Fixpoint version_keys (o : opts) (i : Z) (tbl : list cstr) : list (Z * cstr) :=
  match tbl with
  | [] => []
  | k :: tbl => ((fun a => (i, keyword a)) <$> filter (fun a => starts_with k (keyword a) = true) o)
                ++ version_keys o (i + 1) tbl
  end.
Definition version_options (o : opts) : list (Z * cstr) := version_keys o 0 nfs_version_opttbl.

Lemma version_search_keys o i tbl found :
  version_search o i tbl found
  = match option_list found ++ version_keys o i tbl with [] => Some None | [x] => Some (Some x) | _ => None end.
Proof.
  revert i found; induction tbl as [|k tbl IH]; intros i found.
  { cbn. rewrite app_nil_r. by destruct found. }
  cbn [version_search version_keys].
  change 0 with (Z.of_nat 0). change (o_prefix o k 1) with (o_prefix o k (Z.of_nat 1)). rewrite !o_prefix_nth.
  destruct (filter _ o) as [|a [|b l]]; cbn [lookup list_lookup fmap option_fmap option_map list_fmap app].
  - apply IH.
  - destruct found as [x|]; [by destruct (version_keys o (i + 1) tbl)|]. rewrite IH. done.
  - destruct found; done.
Qed.

(** [M] or [M.m]. *)
Definition version_text (M : Z) (m : option Z) : cstr :=
  utoa 10 M ++ match m with None => [] | Some m => "."%char :: utoa 10 m end.

(** What a version and a minorversion option ask for. *)
Definition version_meaning (M : Z) (m mv : option Z) (old : Z) : option nfs_version :=
  match m with
  | Some m => if M <? 4 then None else Some (NV M m V_SPECIFIC)
  | None =>
      if M <? 4 then Some (NV M old V_SPECIFIC)
      else Some (match mv with Some k => NV M k V_SPECIFIC | None => NV M old V_GENERAL end)
  end.

Lemma u64_number n : number n -> u64 n = n.
Proof. unfold number, u64, LONG_MAX. intros. apply Z.mod_small. lia. Qed.

Lemma read_version_text o M m mv v :
  number M -> (forall k, m = Some k -> number k) -> (forall k, mv = Some k -> number k) ->
  o_get o $"minorversion" = utoa 10 <$> mv ->
  match version_meaning M m mv (minor v) with
  | Some r => read_version o (version_text M m) v = (true, r)
  | None => exists r, read_version o (version_text M m) v = (false, r) /\ v_mode r = V_PARSE_ERR
  end.
Proof.
  intros HM Hm Hmv Eo. unfold read_version, version_text. cbv zeta. rewrite Eo.
  rewrite strtol_utoa; [|done|destruct m; [right|left]; done]. cbn [st_end st_value st_conv negb orb major minor v_mode].
  rewrite (u64_number M HM). unfold version_meaning. destruct m as [m|].
  - cbn [deref]. rewrite ceqb_refl. cbn [negb]. rewrite !andb_false_r. cbv iota.
    destruct (M <? 4) eqn:E4; [eexists; split; reflexivity|]. cbn [drop].
    rewrite ?drop_0, (strtol_number m (Hm m eq_refl)). cbn [st_end st_value st_conv]. rewrite andb_false_r.
    by rewrite streq_refl, (u64_number m (Hm m eq_refl)).
  - cbn [deref]. rewrite streq_refl. change (ceqb NUL ".") with false. cbn [negb andb].
    destruct (M <? 4) eqn:E4; btrue.
    + rewrite (proj2 (Z.eqb_neq M 4)) by lia. done.
    + rewrite andb_true_r. destruct mv as [k|]; cbn [fmap option_fmap option_map].
      * pose proof (Hmv k eq_refl) as Hk.
        destruct (M =? 4); rewrite (strtol_number k Hk); cbn [st_end st_value]; by rewrite streq_refl, (u64_number k Hk).
      * by destruct (M =? 4).
Qed.

(** How the options of a mount say which NFS version to use.  With no version
    option the version is left open, unless the type is nfs4, which means 4 and
    leaves the minor version open; with more than one, in whatever spelling, it is
    an error; with one, written as v<text>, vers=<text> or nfsvers=<text>, the
    text M asks for exactly that version below 4, for any minor version of M from
    4 on unless minorversion= is given, and M.m asks for exactly that version, and
    is an error below 4. *)
Theorem nfs_version_meaning (type : cstr) (o : opts) (v : nfs_version) (M : Z) (m mv : option Z) :
  number M -> (forall k, m = Some k -> number k) -> (forall k, mv = Some k -> number k) ->
  o_get o $"minorversion" = utoa 10 <$> mv ->
  match version_options o with
  | [] => nfs_nfs_version type o v
          = (true, if streq type $"nfs4" then match mv with Some k => NV 4 k V_SPECIFIC | None => NV 4 (minor v) V_GENERAL end
                   else NV (major v) (minor v) V_DEFAULT)
  | [(i, key)] =>
      (if i <=? 2 then key = "v"%char :: version_text M m else o_get o key = Some (version_text M m)) ->
      match version_meaning M m mv (minor v) with
      | Some r => nfs_nfs_version type o v = (true, r)
      | None => exists r, nfs_nfs_version type o v = (false, r) /\ v_mode r = V_PARSE_ERR
      end
  | _ => nfs_nfs_version type o v = (false, NV (major v) (minor v) V_PARSE_ERR)
  end.
Proof.
  intros HM Hm Hmv Eo. unfold nfs_nfs_version. rewrite version_search_keys. cbn [option_list app].
  unfold version_options. destruct (version_keys o 0 nfs_version_opttbl) as [|[i key] [|]]; [| |done].
  - destruct (streq type $"nfs4") eqn:E; [|done]. btrue. subst type.
    change (drop 3 $"nfs4") with (version_text 4 None).
    apply (read_version_text o 4 None mv (NV (major v) (minor v) V_DEFAULT)); [split; done|done|done|done].
  - change (option_list None ++ [(i, key)]) with [(i, key)]. cbn [major minor]. destruct (i <=? 2).
    + intros ->. apply (read_version_text o M m mv (NV (major v) (minor v) V_SPECIFIC)); done.
    + intros ->. apply (read_version_text o M m mv (NV (major v) (minor v) V_DEFAULT)); done.
Qed.

Lemma nfs_version_meaning_witness :
  nfs_nfs_version $"nfs" [MOpt $"ro" None; MOpt $"v4.1" None] (NV 0 0 V_DEFAULT) = (true, NV 4 1 V_SPECIFIC).
Proof.
  apply (nfs_version_meaning $"nfs" [MOpt $"ro" None; MOpt $"v4.1" None] (NV 0 0 V_DEFAULT) 4 (Some 1) None);
    [split; done|intros k [= <-]; split; done|done|reflexivity|reflexivity].
Defined.

(** A keyword that only starts as "vers" is taken for the version option. *)
Theorem nfs_version_prefix :
  nfs_nfs_version $"nfs" [MOpt $"versatile" (Some $"3")] (NV 0 0 V_DEFAULT) = (true, NV 3 0 V_SPECIFIC).
Proof. vm_compute. reflexivity. Qed.
