(* ===== verification/Probe.v ===== *)
(** * The mount command: its world, and probing the server (utils/mount/network.c)

    mount.nfs asks the kernel, the clock, the name service and the server many
    questions.  The state of the command is a record; the world answers the n-th
    question by functions of n, so a theorem about every world is a theorem about
    every behaviour of the environment over time.  The RPC exchanges of
    support/nfs/getport.c ([nfs_getport], [nfs_rpc_ping]) are such questions, with
    any port or error as the answer.  Memory is asked for in the same way: a
    request that is refused sets errno to ENOMEM. *)

From S2P Require Import Prelude Heap Token ParseOpt Client MntOpts.

(** ** Errors *)

Definition EPERM : Z := 1.
Definition ENOENT : Z := 2.
Definition EIO : Z := 5.
Definition EAGAIN : Z := 11.
Definition EACCES : Z := 13.
Definition EBUSY : Z := 16.
Definition ESPIPE : Z := 29.
Definition EOPNOTSUPP : Z := 95.
Definition EAFNOSUPPORT : Z := 97.
Definition ETIMEDOUT : Z := 110.
Definition ECONNREFUSED : Z := 111.
Definition EHOSTUNREACH : Z := 113.
Definition EALREADY : Z := 114.
Definition ESTALE : Z := 116.

Definition one_of (e : Z) (l : list Z) : bool := existsb (Z.eqb e) l.

Inductive clnt_stat :=
  | RPC_SUCCESS | RPC_CANTRECV | RPC_TIMEDOUT | RPC_PROGVERSMISMATCH | RPC_AUTHERROR
  | RPC_PROGNOTREGISTERED | RPC_UNKNOWNPROTO | RPC_FAILED | RPC_OTHER (n : Z).
#[export] Instance clnt_stat_eq : EqDecision clnt_stat.
Proof. solve_decision. Defined.

(** [rpc_createerr]: its status and the errno in it. *)
Record rpc_err := RpcErr { cf_stat : clnt_stat; re_errno : Z }.

(** ** The world *)

Record world := World
  { w_alloc : nat -> bool;                          (* memory *)
    w_mount : nat -> option Z;                      (* mount(2): its errno, [None] for success *)
    w_getport : nat -> Z * rpc_err;                 (* [nfs_getport] *)
    w_ping : nat -> bool * rpc_err;                 (* [nfs_rpc_ping] *)
    w_statd : nat -> bool;                          (* [start_statd] *)
    w_time : nat -> Z;                              (* time(2) *)
    w_sleep : nat -> bool;                          (* sleep(3) was interrupted *)
    w_gai : nat -> addrinfo + bool;                 (* getaddrinfo(3) of the server; EAI_AGAIN? *)
    w_lookup : nat -> cstr -> family -> sockaddr + Z;  (* [nfs_lookup]; errno *)
    w_callback : nat -> sockaddr -> option sockaddr;   (* [nfs_callback_address] *)
    w_is_mountpoint : nat -> bool;
    w_present : sockaddr -> cstr + Z;               (* [nfs_present_sockaddr]; errno *)
    w_string_to_sockaddr : cstr -> option sockaddr;
    w_db : netdb;
    linux_version_code : Z;
    nfs_mount_data_version : Z;
    config_default_proto : Z;
    config_default_vers : nfs_version }.

(** What the command did to the outside. *)
Inductive event :=
  | Mount (options : opts) (res : option Z)
  | Sleep (secs : Z).

(** The variables of the command: errno, [rpc_createerr], the static variables of
    [nfs_is_permanent_error], [sloppy], and the fields of [struct nfsmount_info]
    that change. *)
Record mstate := MS
  { m_tick : nat; m_log : list event; m_errno : Z; m_rpc : rpc_err; prev_error : Z; rpt_cnt : Z; sloppy : Z;
    mi_options : opts; mi_version : nfs_version; mi_address : list sockaddr; mi_hostname : option cstr;
    mi_family : family; extra_opts : cstr }.

Definition mM (A : Type) : Type := mstate -> A * mstate.
#[export] Instance mM_ret : MRet mM := fun A a s => (a, s).
#[export] Instance mM_bind : MBind mM := fun A B k m s => let '(a, s') := m s in k a s'.

#[export] Instance mM_fmap : FMap mM := fun A B f m s => let '(a, s') := m s in (f a, s').

Definition gets {A} (f : mstate -> A) : mM A := fun s => (f s, s).

(** Ask the world. *)
Definition ask {A} (f : nat -> A) : mM A := fun s =>
  (f (m_tick s), MS (S (m_tick s)) (m_log s) (m_errno s) (m_rpc s) (prev_error s) (rpt_cnt s) (sloppy s)
     (mi_options s) (mi_version s) (mi_address s) (mi_hostname s) (mi_family s) (extra_opts s)).
Definition log (e : event) : mM unit := fun s =>
  (tt, MS (m_tick s) (m_log s ++ [e]) (m_errno s) (m_rpc s) (prev_error s) (rpt_cnt s) (sloppy s)
     (mi_options s) (mi_version s) (mi_address s) (mi_hostname s) (mi_family s) (extra_opts s)).
Definition set_errno (e : Z) : mM unit := fun s =>
  (tt, MS (m_tick s) (m_log s) e (m_rpc s) (prev_error s) (rpt_cnt s) (sloppy s)
     (mi_options s) (mi_version s) (mi_address s) (mi_hostname s) (mi_family s) (extra_opts s)).
Definition set_rpc (e : rpc_err) : mM unit := fun s =>
  (tt, MS (m_tick s) (m_log s) (m_errno s) e (prev_error s) (rpt_cnt s) (sloppy s)
     (mi_options s) (mi_version s) (mi_address s) (mi_hostname s) (mi_family s) (extra_opts s)).
Definition set_repeat (e n : Z) : mM unit := fun s =>
  (tt, MS (m_tick s) (m_log s) (m_errno s) (m_rpc s) e n (sloppy s)
     (mi_options s) (mi_version s) (mi_address s) (mi_hostname s) (mi_family s) (extra_opts s)).
Definition set_sloppy (n : Z) : mM unit := fun s =>
  (tt, MS (m_tick s) (m_log s) (m_errno s) (m_rpc s) (prev_error s) (rpt_cnt s) n
     (mi_options s) (mi_version s) (mi_address s) (mi_hostname s) (mi_family s) (extra_opts s)).
Definition set_options (o : opts) : mM unit := fun s =>
  (tt, MS (m_tick s) (m_log s) (m_errno s) (m_rpc s) (prev_error s) (rpt_cnt s) (sloppy s)
     o (mi_version s) (mi_address s) (mi_hostname s) (mi_family s) (extra_opts s)).
Definition edit_options (f : opts -> opts) : mM unit := fun s => set_options (f (mi_options s)) s.
Definition set_version (v : nfs_version) : mM unit := fun s =>
  (tt, MS (m_tick s) (m_log s) (m_errno s) (m_rpc s) (prev_error s) (rpt_cnt s) (sloppy s)
     (mi_options s) v (mi_address s) (mi_hostname s) (mi_family s) (extra_opts s)).
Definition set_address (l : list sockaddr) : mM unit := fun s =>
  (tt, MS (m_tick s) (m_log s) (m_errno s) (m_rpc s) (prev_error s) (rpt_cnt s) (sloppy s)
     (mi_options s) (mi_version s) l (mi_hostname s) (mi_family s) (extra_opts s)).
Definition set_server (h : option cstr) (f : family) : mM unit := fun s =>
  (tt, MS (m_tick s) (m_log s) (m_errno s) (m_rpc s) (prev_error s) (rpt_cnt s) (sloppy s)
     (mi_options s) (mi_version s) (mi_address s) h f (extra_opts s)).
Definition set_extra (x : cstr) : mM unit := fun s =>
  (tt, MS (m_tick s) (m_log s) (m_errno s) (m_rpc s) (prev_error s) (rpt_cnt s) (sloppy s)
     (mi_options s) (mi_version s) (mi_address s) (mi_hostname s) (mi_family s) x).

(** A call that returned 0, or NULL, ends the caller with the same. *)
Definition tbind {A B} (m : mM (option A)) (k : A -> mM (option B)) : mM (option B) :=
  r ← m; match r with Some a => k a | None => mret None end.
Notation "x ?← m ; k" := (tbind m (fun x => k)) (at level 100, m at next level, k at level 200, right associativity).

Definition fail {A} (e : Z) : mM (option A) := _ ← set_errno e; mret None.

Section probe.
  Context (w : world).

Definition allocate : mM bool :=
  ok ← ask (w_alloc w);
  if ok : bool then mret true else (_ ← set_errno ENOMEM; mret false).

(** ** Probing (network.c) *)

Definition nfs_to_mnt : list Z := [0; 0; 1; 3].
Definition mnt_to_nfs : list Z := [0; 2; 2; 3].
Definition nfsvers_to_mnt (vers : Z) : Z := if vers <=? 3 then default 0 (nfs_to_mnt !! Z.to_nat vers) else 0.
Definition mntvers_to_nfs (vers : Z) : Z := if vers <=? 3 then default 0 (mnt_to_nfs !! Z.to_nat vers) else 0.

Definition probe_udp_only : list Z := [IPPROTO_UDP].
Definition probe_udp_first : list Z := [IPPROTO_UDP; IPPROTO_TCP].
Definition probe_tcp_first : list Z := [IPPROTO_TCP; IPPROTO_UDP].
Definition probe_nfs2_only : list Z := [2].
Definition probe_nfs3_only : list Z := [3].
Definition probe_mnt1_first : list Z := [1; 2].
Definition probe_mnt3_only : list Z := [3].

Definition nfs_default_proto : list Z :=
  if negb (config_default_proto w =? 0) && negb (config_default_proto w =? IPPROTO_TCP) then probe_udp_first
  else probe_tcp_first.

(** One query of the port mapper and, when its answer fits, one ping: the port,
    or [None] with [rpc_createerr] set. *)
Definition probe_one (port : Z) : mM (option Z) :=
  r ← ask (w_getport w);
  _ ← set_rpc (snd r);
  let p_port := fst r in
  if p_port =? 0 then mret None
  else if (port =? 0) || (port =? p_port) then
    a ← ask (w_ping w);
    _ ← set_rpc (snd a);
    mret (if fst a : bool then Some p_port else None)
  else
    _ ← set_rpc (RpcErr RPC_PROGNOTREGISTERED (re_errno (snd r)));
    mret None.

Definition try_another (c : clnt_stat) : bool :=
  bool_decide (c ∈ [RPC_PROGNOTREGISTERED; RPC_TIMEDOUT; RPC_CANTRECV; RPC_PROGVERSMISMATCH]).

(** The protocols for one version: a port, the end of the search, or the next
    version. *)
Inductive probed := Found (prot port : Z) | Stop | NextVersion.

Fixpoint probe_protos (port : Z) (protos : list Z) : mM probed :=
  match protos with
  | [] =>
      e ← gets m_rpc;
      mret (if bool_decide (cf_stat e ∈ [RPC_TIMEDOUT; RPC_CANTRECV]) then Stop else NextVersion)
  | p_prot :: protos =>
      r ← probe_one port;
      match r with
      | Some p_port => mret (Found p_prot p_port)
      | None =>
          e ← gets m_rpc;
          if try_another (cf_stat e) then probe_protos port protos else mret Stop
      end
  end.

Fixpoint probe_versions (port : Z) (versions protos : list Z) : mM (option (Z * Z * Z)) :=
  match versions with
  | [] => mret None
  | p_vers :: versions =>
      r ← probe_protos port protos;
      match r with
      | Found prot p => mret (Some (p_vers, prot, p))
      | Stop => mret None
      | NextVersion => probe_versions port versions protos
      end
  end.

Definition nfs_probe_port (pm : pmap) (versions protos : list Z) : mM (option pmap) :=
  let prot := u32 (pm_prot pm) in
  let port := pm_port pm mod 65536 in
  let vers := pm_vers pm in
  r ← probe_versions port (if vers =? 0 then versions else [vers]) (if prot =? 0 then protos else [prot]);
  match r with
  | None => mret None
  | Some (p_vers, p_prot, p_port) =>
      _ ← set_rpc (RpcErr RPC_SUCCESS 0);
      mret (Some (Pmap (pm_prog pm) (if vers =? 0 then p_vers else pm_vers pm)
                    (if prot =? 0 then p_prot else pm_prot pm) (if port =? 0 then p_port else pm_port pm)))
  end.

Definition pm_complete (pm : pmap) : bool := negb (pm_vers pm =? 0) && negb (pm_prot pm =? 0) && negb (pm_port pm =? 0).

Definition nfs_probe_nfsport (pm : pmap) (checkv4 : bool) : mM (option pmap) :=
  if pm_complete pm then mret (Some pm)
  else if 4 <=? nfs_mount_data_version w then
    let probe_proto := nfs_default_proto in
    r ← nfs_probe_port pm probe_nfs3_only probe_proto;
    match r with
    | None => mret None
    | Some pm =>
        if negb checkv4 || negb (bool_decide (probe_proto = probe_tcp_first)) then mret (Some pm)
        else
          a ← ask (w_ping w);
          _ ← set_rpc (snd a);
          if fst a : bool then (_ ← set_rpc (RpcErr RPC_FAILED EAGAIN); mret None)
          else mret (Some pm)
    end
  else nfs_probe_port pm probe_nfs2_only probe_udp_only.

Definition nfs_probe_mntport (pm : pmap) : mM (option pmap) :=
  if pm_complete pm then mret (Some pm)
  else if 4 <=? nfs_mount_data_version w then nfs_probe_port pm probe_mnt3_only probe_udp_first
  else nfs_probe_port pm probe_mnt1_first probe_udp_only.

(** The mount and the NFS service, in this order. *)
Definition nfs_probe_version_fixed (mnt nfs : pmap) : mM (option (pmap * pmap)) :=
  nfs ?← nfs_probe_nfsport nfs false;
  mnt ?← nfs_probe_mntport mnt;
  mret (Some (mnt, nfs)).

Definition set_vers (pm : pmap) (v : Z) : pmap := Pmap (pm_prog pm) v (pm_prot pm) (pm_port pm).

Fixpoint probe_both (mnt nfs : pmap) (vers : list Z) (checkv4 : bool) : mM (option (pmap * pmap)) :=
  match vers with
  | [] => mret None
  | v :: vers =>
      r ← nfs_probe_nfsport (set_vers nfs (mntvers_to_nfs v)) checkv4;
      m ← (match r with None => mret None | Some _ => nfs_probe_mntport (set_vers mnt v) end);
      match r, m with
      | Some nfs, Some mnt => mret (Some (mnt, nfs))
      | _, _ =>
          e ← gets m_rpc;
          if bool_decide (cf_stat e ∈ [RPC_PROGVERSMISMATCH; RPC_PROGNOTREGISTERED]) then probe_both mnt nfs vers checkv4
          else mret None
      end
  end.

Definition nfs_probe_bothports (mnt nfs : pmap) (checkv4 : bool) : mM (option (pmap * pmap)) :=
  let nfs := if negb (pm_vers mnt =? 0) && (pm_vers nfs =? 0) then set_vers nfs (mntvers_to_nfs (pm_vers mnt)) else nfs in
  let mnt := if negb (pm_vers nfs =? 0) && (pm_vers mnt =? 0) then set_vers mnt (nfsvers_to_mnt (pm_vers nfs)) else mnt in
  if negb (pm_vers nfs =? 0) then nfs_probe_version_fixed mnt nfs
  else probe_both mnt nfs (if 4 <=? nfs_mount_data_version w then probe_mnt3_only else probe_mnt1_first) checkv4.

End probe.
