(* ===== verification/Stropts.v ===== *)
(** * Mounting with text options (utils/mount/stropts.c)

    The mount command proper, in the state and world of [Probe]: the options are
    validated, the server's addresses are tried in turn, version 4 before 3 when
    the version is open, and the whole is repeated in the foreground or the
    background while the error may pass.  Messages are left out; the address list
    is the list of addresses, empty for NULL. *)

From S2P Require Import Prelude Heap Token ParseOpt ParseDev Client MntOpts Probe.

Definition NFS_PROGRAM : Z := 100003.
Definition MOUNTPROG : Z := 100005.
Definition NFS_PORT : Z := 2049.
Definition NFS_DEFAULT_MAJOR : Z := 4.
Definition NFS_DEFAULT_MINOR : Z := 2.
Definition NFS_DEF_FG_TIMEOUT_MINUTES : Z := 2.
Definition NFS_DEF_BG_TIMEOUT_MINUTES : Z := 10000.
Definition MS_REMOUNT : Z := 32.
Definition MAKE_VERSION (p q r : Z) : Z := 65536 * p + 256 * q + r.

Definition EX_SUCCESS : Z := 0.
Definition EX_FAIL : Z := 32.
Definition EX_BG : Z := 256.

(** The fields of [struct nfsmount_info] that do not change. *)
Record request := Request { r_spec : cstr; r_node : cstr; r_type : cstr; r_flags : Z; r_fake : bool; r_child : bool }.
Definition remount (r : request) : bool := negb (Z.land (r_flags r) MS_REMOUNT =? 0).

(** [po_split] on lists; [None] is an unclosed quotation mark. *)
Definition o_split (str : cstr) : option opts :=
  if quotes_open false str then None else Some (parse_option <$> tokens "," str).

Section stropts.
  Context (w : world) (mi : request).
Let db := w_db w.

(** ** Options *)

Definition nfs_default_version : mM unit :=
  v ← gets mi_version;
  let c := config_default_vers w in
  let minor_of := match v_mode c with V_SPECIFIC => minor c | _ => NFS_DEFAULT_MINOR end in
  if bool_decide (v_mode c = V_PARSE_ERR) then set_version (NV (major v) (minor v) V_PARSE_ERR)
  else if bool_decide (v_mode v = V_DEFAULT) && negb (bool_decide (v_mode c = V_DEFAULT)) then
    set_version (NV (major c) minor_of (v_mode v))
  else if bool_decide (v_mode v = V_GENERAL) then
    set_version (NV (major v)
      (if negb (bool_decide (v_mode c = V_DEFAULT)) && (major v =? major c) then minor_of else NFS_DEFAULT_MINOR) (v_mode v))
  else set_version (NV NFS_DEFAULT_MAJOR NFS_DEFAULT_MINOR (v_mode v)).

(** [time_t] has 64 bits: a large value of retry wraps around. *)
Definition nfs_parse_retry_option (o : opts) (default_timeout : Z) : mM Z :=
  let minutes := match o_numeric o $"retry" with
                 | (PO_FOUND, Some tmp) => if 0 <=? tmp then tmp else default_timeout
                 | _ => default_timeout
                 end in
  now ← ask (w_time w);
  mret (i64 (now + i64 (minutes * 60))).

Definition po_append' (o : opts) (str : cstr) : mM (option opts) :=
  ok ← allocate w;
  mret (if ok : bool then Some (o_append o str) else None).

Definition nfs_append_generic_address_option (sap : sockaddr) (kw : cstr) (o : opts) : mM (option opts) :=
  match w_present w sap with
  | inr e => _ ← (if e =? 0 then mret tt else set_errno e); mret None
  | inl address =>
      let new_option := kw ++ "="%char :: address in
      if (512 <=? Z.of_nat (length new_option)) then mret None else po_append' o new_option
  end.

Definition nfs_append_addr_option (sap : sockaddr) (o : opts) : mM (option opts) :=
  nfs_append_generic_address_option sap $"addr" (o_remove o $"addr").

Definition nfs_append_clientaddr_option (sap : sockaddr) (o : opts) : mM (option opts) :=
  if o_has o $"clientaddr" then
    match o_get o $"clientaddr" with
    | None => mret None
    | Some addr => match w_string_to_sockaddr w addr with None => mret None | Some _ => mret (Some o) end
    end
  else
    a ← ask (fun n => w_callback w n sap);
    match a with
    | None => mret None
    | Some my_addr => nfs_append_generic_address_option my_addr $"clientaddr" o
    end.

Definition nfs_fix_mounthost_option (o : opts) (nfs_hostname : cstr) : mM (option opts) :=
  match nfs_nfs_proto_family db o with
  | None => fail EPROTONOSUPPORT
  | Some nfs_family =>
      match nfs_mount_proto_family db o with
      | None => fail EAFNOSUPPORT
      | Some mnt_family =>
          match o_get o $"mounthost", bool_decide (nfs_family = mnt_family) with
          | None, true => mret (Some o)
          | mh, _ =>
              r ← ask (fun n => w_lookup w n (default nfs_hostname mh) mnt_family);
              match r with
              | inr e => _ ← (if e =? 0 then mret tt else set_errno e); mret None
              | inl sap => nfs_append_generic_address_option sap $"mountaddr" o
              end
          end
      end
  end.

Definition nfs_lock_opttbl : list cstr := [$"nolock"; $"lock"].

Definition nfs_verify_lock_option (o : opts) : mM bool :=
  if o_rightmost o nfs_lock_opttbl =? 0 then mret true
  else
    ok ← ask (w_statd w);
    if ok : bool then mret true else (_ ← set_errno EALREADY; mret false).

Definition nfs_insert_sloppy_option : mM bool :=
  if linux_version_code w <? MAKE_VERSION 2 6 27 then mret true
  else
    o ← gets mi_options;
    n ← gets sloppy;
    _ ← (if o_has o $"sloppy" then (_ ← edit_options (fun o => o_remove o $"sloppy"); set_sloppy (n + 1)) else mret tt);
    n ← gets sloppy;
    if n =? 0 then mret true
    else
      ok ← allocate w;
      if ok : bool then (_ ← edit_options (fun o => o_insert o $"sloppy"); mret true) else mret false.

Definition nfs_set_version : mM bool :=
  o ← gets mi_options;
  v ← gets mi_version;
  let '(ok, v) := nfs_nfs_version (r_type mi) o v in
  _ ← set_version v;
  if negb ok then (_ ← set_errno EINVAL; mret false)
  else
    let v := if bool_decide (v_mode v = V_DEFAULT) && (linux_version_code w <=? MAKE_VERSION 2 6 31)
             then NV 3 (minor v) V_SPECIFIC else v in
    let v := if bool_decide (v_mode v = V_DEFAULT)
                && (o_has o $"mounthost" || o_has o $"mountaddr" || o_has o $"mountvers" || o_has o $"mountproto")
             then NV 3 (minor v) V_SPECIFIC else v in
    _ ← set_version v;
    _ ← (if bool_decide (v_mode v = V_SPECIFIC) then mret tt
         else (_ ← nfs_default_version;
               edit_options (fun o => o_remove (o_remove (o_remove o $"v4") $"vers") $"nfsvers")));
    v ← gets mi_version;
    mret (negb (bool_decide (v_mode v = V_PARSE_ERR))).

(** The server of a device name, by [nfs_parse_devname] of [ParseDev]. *)
Definition devname_host (spec : cstr) : mM (option cstr) :=
  ok ← allocate w;
  match nfs_parse_devname (if ok : bool then 3 else 0) (Some spec) true false with
  | Pdn None (Points h) _ => mret (Some h)
  | _ => mret None
  end.

Definition nfs_validate_options : mM bool :=
  host ← (if remount mi then mret (Some None) else fmap Some <$> devname_host (r_spec mi));
  match host with
  | None => mret false
  | Some host =>
      o ← gets mi_options;
      match nfs_nfs_proto_family db o with
      | None => _ ← set_errno EPROTONOSUPPORT; mret false
      | Some f =>
          _ ← set_server host f;
          _ ← edit_options (fun o => o_remove o $"addr");
          ok ← nfs_set_version;
          if ok : bool then nfs_insert_sloppy_option else mret false
      end
  end.

(** The address of the NFS and of the mount service. *)
Definition nfs_extract_server_addresses (o : opts) : option (sockaddr * sockaddr) :=
  addr ← o_get o $"addr";
  nfs_saddr ← w_string_to_sockaddr w addr;
  match o_get o $"mountaddr" with
  | None => Some (nfs_saddr, nfs_saddr)
  | Some mountaddr => mnt_saddr ← w_string_to_sockaddr w mountaddr; Some (nfs_saddr, mnt_saddr)
  end.

Definition append_netid (kw : cstr) (f : family) (prot : Z) (o : opts) : mM (option opts) :=
  match nfs_get_netid db f prot with
  | None => e ← gets m_rpc; _ ← set_rpc (RpcErr RPC_UNKNOWNPROTO (re_errno e)); mret None
  | Some netid => po_append' o (take 62 (kw ++ "="%char :: netid))
  end.

Definition remove_all (o : opts) (l : list cstr) : opts := foldl o_remove o l.

Definition nfs_construct_new_options (o : opts) (nfs_saddr : sockaddr) (nfs_pmap : pmap) (mnt_saddr : sockaddr) (mnt_pmap : pmap)
  : mM (option opts) :=
  let o := remove_all o [$"nfsprog"; $"mountprog"; $"v2"; $"v3"; $"vers"; $"nfsvers"] in
  o ?← po_append' o ($"vers=" ++ utoa 10 (pm_vers nfs_pmap));
  let o := remove_all o [$"proto"; $"udp"; $"tcp"] in
  o ?← append_netid $"proto" (sa_family nfs_saddr) (pm_prot nfs_pmap) o;
  o ?← (if o_has o $"port" || negb (pm_port nfs_pmap =? NFS_PORT)
        then po_append' (o_remove o $"port") ($"port=" ++ utoa 10 (pm_port nfs_pmap)) else mret (Some o));
  o ?← po_append' (o_remove o $"mountvers") ($"mountvers=" ++ utoa 10 (pm_vers mnt_pmap));
  o ?← append_netid $"mountproto" (sa_family mnt_saddr) (pm_prot mnt_pmap) (o_remove o $"mountproto");
  po_append' (o_remove o $"mountport") ($"mountport=" ++ utoa 10 (pm_port mnt_pmap)).

Definition probe_errno (e : rpc_err) : Z :=
  match cf_stat e with
  | RPC_PROGNOTREGISTERED => EOPNOTSUPP
  | RPC_AUTHERROR => EACCES
  | RPC_TIMEDOUT => ETIMEDOUT
  | RPC_PROGVERSMISMATCH => EPROTONOSUPPORT
  | _ => if negb (re_errno e =? 0) then re_errno e else ESPIPE
  end.

Definition set_prog (pm : pmap) (p : Z) : pmap := Pmap p (pm_vers pm) (pm_prot pm) (pm_port pm).

Definition nfs_rewrite_pmap_mount_options (o : opts) (checkv4 : bool) : mM (option opts) :=
  match nfs_nfs_protocol db o with
  | None => fail EINVAL
  | Some protocol =>
      if protocol =? NFSPROTO_RDMA then (_ ← set_errno 0; mret (Some o))
      else
        match nfs_extract_server_addresses o, nfs_options2pmap db o with
        | Some (nfs_saddr, mnt_saddr), Some (nfs_pmap, mnt_pmap) =>
            r ← nfs_probe_bothports w (set_prog mnt_pmap MOUNTPROG) (set_prog nfs_pmap NFS_PROGRAM) checkv4;
            match r with
            | None => e ← gets m_rpc; fail (probe_errno e)
            | Some (mnt_pmap, nfs_pmap) =>
                r ← nfs_construct_new_options o nfs_saddr nfs_pmap mnt_saddr mnt_pmap;
                match r with
                | None => e ← gets m_rpc; fail (if bool_decide (cf_stat e = RPC_UNKNOWNPROTO) then EPROTONOSUPPORT else EINVAL)
                | Some o => _ ← set_errno 0; mret (Some o)
                end
            end
        | _, _ => fail EINVAL
        end
  end.

(** ** The system call *)

Definition nfs_sys_mount (o : opts) : mM bool :=
  if r_fake mi then mret true
  else
    ok ← allocate w;
    if negb ok then (_ ← set_errno EIO; mret false)
    else
      res ← ask (w_mount w);
      _ ← log (Mount o res);
      match res with
      | None => mret true
      | Some e => _ ← set_errno e; mret false
      end.

Definition or_einval {A} (m : mM (option A)) : mM (option A) :=
  r ← m;
  match r with
  | Some a => mret (Some a)
  | None => e ← gets m_errno; _ ← (if e =? 0 then set_errno EINVAL else mret tt); mret None
  end.

Definition nfs_do_mount_v3v2 (sap : sockaddr) (checkv4 : bool) : mM bool :=
  ok ← allocate w;
  if negb ok then mret false
  else
    o ← gets mi_options;
    host ← gets mi_hostname;
    _ ← set_errno 0;
    r ← (o ?← or_einval (nfs_append_addr_option sap o);
         o ?← or_einval (nfs_fix_mounthost_option o (default [] host));
         o ?← or_einval (if r_fake mi then mret (Some o)
                         else (ok ← nfs_verify_lock_option o; mret (if ok : bool then Some o else None)));
         ok ← allocate w;
         if negb ok then mret None
         else
           _ ← set_extra (join_opts o);
           nfs_rewrite_pmap_mount_options o checkv4);
    match r with
    | None => mret false
    | Some o => nfs_sys_mount o
    end.

Fixpoint try_v3v2 (l : list sockaddr) (checkv4 : bool) : mM bool :=
  match l with
  | [] => mret false
  | ai :: l =>
      ret ← nfs_do_mount_v3v2 ai checkv4;
      if ret : bool then mret true
      else
        e ← gets m_errno;
        if one_of e [ECONNREFUSED; EOPNOTSUPP; EHOSTUNREACH; ETIMEDOUT; EACCES] then try_v3v2 l checkv4 else mret false
  end.

Definition nfs_try_mount_v3v2 (checkv4 : bool) : mM bool := l ← gets mi_address; try_v3v2 l checkv4.

(** The text of the version for a kernel that may be old. *)
Definition version_opt (v : nfs_version) : cstr :=
  take 30 ($"vers=" ++ utoa 10 (major v) ++
           (if minor v =? 0 then []
            else if minor v =? 1 then $",minorversion=" ++ utoa 10 (minor v)
            else "."%char :: utoa 10 (minor v))).

Definition v3_only (o : opts) : bool :=
  o_has o $"mounthost" || o_has o $"mountaddr" || o_has o $"mountvers" || o_has o $"mountport" || o_has o $"mountproto".

Definition einval {A} (m : mM (option A)) : mM (option A) :=
  r ← m; match r with Some a => mret (Some a) | None => fail EINVAL end.

Definition nfs_do_mount_v4 (sap : sockaddr) : mM bool :=
  ok ← allocate w;
  if negb ok then mret false
  else
    o ← gets mi_options;
    v ← gets mi_version;
    if v3_only o then (_ ← set_errno EPROTONOSUPPORT; mret false)
    else
      r ← (o ?← (if negb (bool_decide (v_mode v = V_SPECIFIC)) then einval (po_append' o (version_opt v))
                 else if bool_decide (is_Some (o_get o $"minorversion")) && (MAKE_VERSION 3 4 0 <? linux_version_code w) then
                   einval (po_append' (o_remove o $"minorversion")
                             (take 30 ($"vers=" ++ utoa 10 (major v) ++ "."%char :: utoa 10 (minor v))))
                 else mret (Some o));
           o ?← einval (nfs_append_addr_option sap o);
           o ?← einval (nfs_append_clientaddr_option sap o);
           ok ← allocate w;
           mret (if ok : bool then Some o else None));
      match r with
      | None => mret false
      | Some o =>
          result ← nfs_sys_mount o;
          _ ← (if result : bool then set_extra (join_opts o) else mret tt);
          mret result
      end.

Fixpoint try_v4 (l : list sockaddr) : mM bool :=
  match l with
  | [] => mret false
  | ai :: l =>
      ret ← nfs_do_mount_v4 ai;
      if ret : bool then mret true
      else
        e ← gets m_errno;
        if one_of e [ECONNREFUSED; EHOSTUNREACH; ETIMEDOUT; EACCES] then try_v4 l else mret false
  end.

Definition nfs_try_mount_v4 : mM bool := l ← gets mi_address; try_v4 l.

(** ** Negotiation *)

Definition fall_back : mM bool :=
  v ← gets mi_version;
  if bool_decide (v_mode v = V_GENERAL) then mret false
  else
    olderrno ← gets m_errno;
    result ← nfs_try_mount_v3v2 false;
    if result : bool then mret true
    else
      e ← gets m_errno;
      _ ← (if negb (e =? EBUSY) && negb (e =? EACCES) then set_errno olderrno else mret tt);
      mret false.

(** From the label [check_result] on; [None] when the fuel is used up. *)
Fixpoint check_result (fuel : nat) (result : bool) : mM (option bool) :=
  match fuel with
  | O => mret None
  | S fuel =>
      if result then mret (Some true)
      else
        e ← gets m_errno;
        v ← gets mi_version;
        if one_of e [EPROTONOSUPPORT; EINVAL; EACCES] then
          if negb (bool_decide (v_mode v = V_SPECIFIC)) && (0 <? minor v) then
            _ ← set_version (NV (major v) (minor v - 1) (v_mode v));
            result ← nfs_try_mount_v4;
            check_result fuel result
          else Some <$> fall_back
        else if one_of e [ENOENT; EPERM] then Some <$> fall_back
        else if e =? ECONNREFUSED then
          if bool_decide (v_mode v = V_GENERAL) then mret (Some false)
          else
            result ← nfs_try_mount_v3v2 true;
            e ← gets m_errno;
            if negb result && (e =? EAGAIN) then
              result ← nfs_try_mount_v4;
              e ← gets m_errno;
              if negb result && negb (e =? ECONNREFUSED) then check_result fuel result else mret (Some result)
            else
              _ ← (if negb result then set_errno ECONNREFUSED else mret tt);
              mret (Some result)
        else mret (Some false)
  end.

(** The fuel suffices for the minor versions below the first. *)
Definition nfs_autonegotiate : mM (option bool) :=
  v ← gets mi_version;
  result ← nfs_try_mount_v4;
  check_result (2 * Z.to_nat (minor v) + 2) result.

Definition nfs_try_mount : mM (option bool) :=
  l ← gets mi_address;
  ok ← (match l with
        | _ :: _ => mret true
        | [] =>
            r ← ask (w_gai w);
            match r with
            | inr again => _ ← set_errno (if again : bool then EAGAIN else EALREADY); mret false
            | inl address =>
                o ← gets mi_options;
                _ ← edit_options (fun o => o_remove o $"addr");
                r ← nfs_append_addr_option (ai_addr address) o;
                match r with
                | None => _ ← set_errno ENOMEM; mret false
                | Some o => _ ← set_options o; _ ← set_address (ai_addrs address); mret true
                end
            end
        end);
  if negb ok then mret (Some false)
  else
    v ← gets mi_version;
    if major v =? 3 then Some <$> nfs_try_mount_v3v2 false
    else if major v =? 4 then
      if bool_decide (v_mode v = V_SPECIFIC) then Some <$> nfs_try_mount_v4 else nfs_autonegotiate
    else _ ← set_errno EIO; mret (Some false).

(** ** Retries *)

Definition nfs_is_permanent_error (error : Z) : mM bool :=
  prev ← gets prev_error;
  n ← gets rpt_cnt;
  let n := if error =? prev then n + 1 else 1 in
  _ ← set_repeat error n;
  mret (if one_of error [ESTALE; EOPNOTSUPP] then 3 <=? n
        else negb (one_of error [ECONNREFUSED; ETIMEDOUT; EHOSTUNREACH; EAGAIN])).

(** [sleep(secs)], and the next time to sleep. *)
Definition nap (secs limit : Z) : mM (bool * Z) :=
  cut ← ask (w_sleep w);
  _ ← log (Sleep secs);
  let secs := u32 (Z.shiftl secs 1) in
  mret (cut, if limit <? secs then limit else secs).

(** The loop; [None] when the fuel is used up. *)
Fixpoint fg_loop (fuel : nat) (timeout secs : Z) : mM (option Z) :=
  match fuel with
  | O => mret None
  | S fuel =>
      r ← nfs_try_mount;
      match r with
      | None => mret None
      | Some true => mret (Some EX_SUCCESS)
      | Some false =>
          e ← gets m_errno;
          busy ← (if e =? EBUSY then ask (w_is_mountpoint w) else mret false);
          if busy : bool then mret (Some EX_SUCCESS)
          else
            permanent ← nfs_is_permanent_error e;
            if permanent : bool then mret (Some EX_FAIL)
            else
              now ← ask (w_time w);
              if timeout <? now then mret (Some EX_FAIL)
              else if e =? ETIMEDOUT then fg_loop fuel timeout secs
              else
                n ← nap secs 10;
                if fst n : bool then mret (Some EX_FAIL) else fg_loop fuel timeout (snd n)
      end
  end.

Definition nfsmount_fg (fuel : nat) : mM (option Z) :=
  o ← gets mi_options;
  timeout ← nfs_parse_retry_option o NFS_DEF_FG_TIMEOUT_MINUTES;
  fg_loop fuel timeout 1.

Definition nfsmount_parent : mM (option Z) :=
  r ← nfs_try_mount;
  match r with
  | None => mret None
  | Some true => mret (Some EX_SUCCESS)
  | Some false =>
      e ← gets m_errno;
      permanent ← nfs_is_permanent_error e;
      mret (Some (if permanent : bool then EX_FAIL else EX_BG))
  end.

Fixpoint bg_loop (fuel : nat) (timeout secs : Z) : mM (option Z) :=
  match fuel with
  | O => mret None
  | S fuel =>
      n ← nap secs 120;
      if fst n : bool then mret (Some EX_FAIL)
      else
        r ← nfs_try_mount;
        match r with
        | None => mret None
        | Some true => mret (Some EX_SUCCESS)
        | Some false =>
            e ← gets m_errno;
            permanent ← nfs_is_permanent_error e;
            if permanent : bool then mret (Some EX_FAIL)
            else
              now ← ask (w_time w);
              if timeout <? now then mret (Some EX_FAIL) else bg_loop fuel timeout (snd n)
        end
  end.

Definition nfsmount_child (fuel : nat) : mM (option Z) :=
  o ← gets mi_options;
  timeout ← nfs_parse_retry_option o NFS_DEF_BG_TIMEOUT_MINUTES;
  bg_loop fuel timeout 1.

Definition nfsmount_bg (fuel : nat) : mM (option Z) := if r_child mi then nfsmount_child fuel else nfsmount_parent.

Definition nfs_remount : mM (option Z) :=
  o ← gets mi_options;
  r ← nfs_sys_mount o;
  mret (Some (if r : bool then EX_SUCCESS else EX_FAIL)).

Definition nfs_background_opttbl : list cstr := [$"bg"; $"fg"].

Definition nfsmount_start (fuel : nat) : mM (option Z) :=
  ok ← nfs_validate_options;
  if negb ok then mret (Some EX_FAIL)
  else
    v ← gets mi_version;
    if major v =? 2 then mret (Some EX_FAIL)
    else if remount mi then nfs_remount
    else
      o ← gets mi_options;
      if o_rightmost o nfs_background_opttbl =? 0 then nfsmount_bg fuel else nfsmount_fg fuel.

Definition nfsmount_string (fuel : nat) (extra : cstr) : mM (option Z) :=
  ok ← allocate w;
  match o_split extra, ok with
  | Some o, true =>
      _ ← set_options o;
      _ ← set_version (NV 0 0 V_DEFAULT);
      _ ← set_address [];
      nfsmount_start fuel
  | _, _ => mret (Some EX_FAIL)
  end.

End stropts.
