(* ===== verification/Negotiate.v ===== *)
(** * What the mount command does (properties of [Probe] and [Stropts])

    Over every world: which options reach mount(2), which versions are tried in
    which order, and when the command ends. *)

From Stdlib Require Import Sorted.
From S2P Require Import Prelude Heap Token ParseOpt ParseDev Client MntOpts Probe Stropts.

Create HintDb quiet.

(** ** Operations that change errno, [rpc_createerr] and the clock only *)

Record quiet (s s' : mstate) : Prop := Quiet
  { q_log : m_log s' = m_log s; q_opts : mi_options s' = mi_options s; q_vers : mi_version s' = mi_version s;
    q_addr : mi_address s' = mi_address s; q_host : mi_hostname s' = mi_hostname s;
    q_tick : (m_tick s <= m_tick s')%nat }.

Definition still {A} (m : mM A) : Prop := forall s, quiet s (m s).2.

Lemma quiet_refl s : quiet s s.
Proof. by split. Qed.

Lemma quiet_trans s1 s2 s3 : quiet s1 s2 -> quiet s2 s3 -> quiet s1 s3.
Proof. intros [] []. split; congruence || lia. Qed.

Lemma still_ret {A} (a : A) : still (mret a : mM A).
Proof. intros s. apply quiet_refl. Qed.

Lemma still_bind {A B} (m : mM A) (k : A -> mM B) : still m -> (forall a, still (k a)) -> still (m ≫= k).
Proof.
  intros Hm Hk s. specialize (Hm s). unfold mbind, mM_bind. destruct (m s) as [a s1]. cbn in *.
  eapply quiet_trans; [exact Hm|apply Hk].
Qed.

Lemma still_tbind {A B} (m : mM (option A)) (k : A -> mM (option B)) :
  still m -> (forall a, still (k a)) -> still (tbind m k).
Proof. intros Hm Hk. apply still_bind; [done|]. intros [a|]; [apply Hk|apply still_ret]. Qed.

Lemma still_gets {A} (f : mstate -> A) : still (gets f).
Proof. intros s. apply quiet_refl. Qed.
Lemma still_ask {A} (f : nat -> A) : still (ask f).
Proof. intros s. split; cbn; auto. Qed.
Lemma still_errno e : still (set_errno e).
Proof. intros s. by split. Qed.
Lemma still_rpc e : still (set_rpc e).
Proof. intros s. by split. Qed.
Lemma still_extra x : still (set_extra x).
Proof. intros s. by split. Qed.
Lemma still_fail {A} e : still (fail e : mM (option A)).
Proof. apply still_bind; [apply still_errno|intros; apply still_ret]. Qed.

#[export] Hint Resolve @still_ret @still_gets @still_ask still_errno still_rpc still_extra @still_fail : quiet.

(** Follow the code: sequence, tests, known calls. *)
Ltac still :=
  repeat first
    [ solve [eauto with quiet]
    | apply still_tbind; [|intros ?]
    | apply still_bind; [|intros ?]
    | match goal with |- still (match ?x with _ => _ end) => destruct x end ].

Section quiet.
  Context (w : world).

Lemma still_allocate : still (allocate w).
Proof. unfold allocate. still. Qed.
Hint Resolve still_allocate : quiet.

Lemma still_probe_one port : still (probe_one w port).
Proof. unfold probe_one. still. Qed.
Hint Resolve still_probe_one : quiet.

Lemma still_probe_protos port protos : still (probe_protos w port protos).
Proof. induction protos; cbn [probe_protos]; still. Qed.
Hint Resolve still_probe_protos : quiet.

Lemma still_probe_versions port versions protos : still (probe_versions w port versions protos).
Proof. induction versions; cbn [probe_versions]; still. Qed.
Hint Resolve still_probe_versions : quiet.

Lemma still_probe_port pm versions protos : still (nfs_probe_port w pm versions protos).
Proof. unfold nfs_probe_port. still. Qed.
Hint Resolve still_probe_port : quiet.

Lemma still_probe_nfsport pm c : still (nfs_probe_nfsport w pm c).
Proof. unfold nfs_probe_nfsport. still. Qed.
Lemma still_probe_mntport pm : still (nfs_probe_mntport w pm).
Proof. unfold nfs_probe_mntport. still. Qed.
Hint Resolve still_probe_nfsport still_probe_mntport : quiet.

Lemma still_probe_both mnt nfs vers c : still (probe_both w mnt nfs vers c).
Proof. revert mnt nfs; induction vers; intros; cbn [probe_both]; still. Qed.
Hint Resolve still_probe_both : quiet.

Lemma still_bothports mnt nfs c : still (nfs_probe_bothports w mnt nfs c).
Proof. unfold nfs_probe_bothports, nfs_probe_version_fixed. still. Qed.
Hint Resolve still_bothports : quiet.

Lemma still_append o str : still (po_append' w o str).
Proof. unfold po_append'. still. Qed.
Hint Resolve still_append : quiet.

Lemma still_generic sap kw o : still (nfs_append_generic_address_option w sap kw o).
Proof. unfold nfs_append_generic_address_option. still. Qed.
Hint Resolve still_generic : quiet.

Lemma still_netid kw f prot o : still (append_netid w kw f prot o).
Proof. unfold append_netid. still. Qed.
Hint Resolve still_netid : quiet.

Lemma still_construct o a p b q : still (nfs_construct_new_options w o a p b q).
Proof. unfold nfs_construct_new_options. still. Qed.
Hint Resolve still_construct : quiet.

Lemma still_rewrite o c : still (nfs_rewrite_pmap_mount_options w o c).
Proof. unfold nfs_rewrite_pmap_mount_options. still. Qed.

Lemma still_addr sap o : still (nfs_append_addr_option w sap o).
Proof. unfold nfs_append_addr_option. still. Qed.
Lemma still_clientaddr sap o : still (nfs_append_clientaddr_option w sap o).
Proof. unfold nfs_append_clientaddr_option. still. Qed.
Lemma still_mounthost o h : still (nfs_fix_mounthost_option w o h).
Proof. unfold nfs_fix_mounthost_option. still. Qed.
Lemma still_lock o : still (nfs_verify_lock_option w o).
Proof. unfold nfs_verify_lock_option. still. Qed.
Lemma still_or_einval {A} (m : mM (option A)) : still m -> still (or_einval m).
Proof. intros. unfold or_einval. still. Qed.
Lemma still_einval {A} (m : mM (option A)) : still m -> still (einval m).
Proof. intros. unfold einval. still. Qed.

End quiet.
#[export] Hint Resolve still_allocate still_append still_generic still_netid still_construct still_rewrite still_addr
  still_clientaddr still_mounthost still_lock still_or_einval still_einval still_bothports : quiet.

(** ** What an operation returns *)

Definition yields {A} (P : A -> Prop) (m : mM (option A)) : Prop := forall s a, (m s).1 = Some a -> P a.

Lemma yields_ret {A} (P : A -> Prop) a : P a -> yields P (mret (Some a)).
Proof. by intros H s b [= <-]. Qed.
Lemma yields_none {A} (P : A -> Prop) : yields P (mret None).
Proof. by intros s b [=]. Qed.
Lemma yields_fail {A} (P : A -> Prop) e : yields P (fail e).
Proof. by intros s b [=]. Qed.
Lemma yields_bind {A B} (P : B -> Prop) (m : mM A) (k : A -> mM (option B)) :
  (forall a, yields P (k a)) -> yields P (m ≫= k).
Proof. intros H s b. unfold mbind, mM_bind. destruct (m s) as [a s1]. apply H. Qed.
Lemma yields_tbind {A B} (P : A -> Prop) (Q : B -> Prop) m (k : A -> mM (option B)) :
  yields P m -> (forall a, P a -> yields Q (k a)) -> yields Q (tbind m k).
Proof.
  intros Hm Hk s b. unfold tbind, mbind, mM_bind. specialize (Hm s). destruct (m s) as [[a|] s1]; [|done].
  apply Hk, Hm. done.
Qed.
(** A call whose failure is reported in another way. *)
Lemma yields_handle {A B} (P : A -> Prop) (Q : B -> Prop) m (k : option A -> mM (option B)) :
  yields P m -> (forall a, P a -> yields Q (k (Some a))) -> yields Q (k None) -> yields Q (m ≫= k).
Proof.
  intros Hm Hk Hn s b. unfold mbind, mM_bind. specialize (Hm s). destruct (m s) as [[a|] s1]; [|apply Hn].
  apply Hk, Hm. done.
Qed.
Lemma yields_mono {A} (P Q : A -> Prop) m : yields P m -> (forall a, P a -> Q a) -> yields Q m.
Proof. intros H HPQ s a E. eapply HPQ, H, E. Qed.
#[export] Hint Resolve @yields_none @yields_fail : quiet.

Lemma yields_einval {A} (P : A -> Prop) m : yields P m -> yields P (einval m).
Proof. intros H. eapply yields_handle; [exact H| |]; eauto using yields_ret with quiet. Qed.
Lemma yields_or_einval {A} (P : A -> Prop) m : yields P m -> yields P (or_einval m).
Proof.
  intros H. eapply yields_handle; [exact H| |]; [eauto using yields_ret|].
  apply yields_bind. intros e. apply yields_bind. intros _. apply yields_none.
Qed.

(** ** Option lists that differ in some keywords only *)

Definition same_but (ks : list cstr) (o o' : opts) : Prop :=
  filter (fun a => keyword a ∉ ks) o' = filter (fun a => keyword a ∉ ks) o.

Lemma same_but_refl ks o : same_but ks o o.
Proof. done. Qed.
Lemma same_but_trans ks o1 o2 o3 : same_but ks o1 o2 -> same_but ks o2 o3 -> same_but ks o1 o3.
Proof. unfold same_but. congruence. Qed.

Lemma filter_imp {A} (P Q : A -> Prop) `{!forall x, Decision (P x)} `{!forall x, Decision (Q x)} (l : list A) :
  (forall x, Q x -> P x) -> filter Q (filter P l) = filter Q l.
Proof.
  intros HQP. induction l as [|x l IH]; [done|]. destruct (decide (P x)).
  - rewrite (filter_cons_True P) by done. rewrite !filter_cons. by rewrite IH.
  - rewrite (filter_cons_False P), (filter_cons_False Q) by auto. done.
Qed.

Lemma same_but_mono ks ks' o o' : ks ⊆ ks' -> same_but ks o o' -> same_but ks' o o'.
Proof.
  unfold same_but. intros Hs H.
  rewrite <- (filter_imp (fun a => keyword a ∉ ks) (fun a => keyword a ∉ ks') o) by set_solver.
  rewrite <- H. by rewrite filter_imp by set_solver.
Qed.

Lemma same_but_keyword ks o o' k : same_but ks o o' -> k ∉ ks -> with_keyword k o' = with_keyword k o.
Proof.
  unfold same_but, with_keyword. intros H Hk.
  assert (forall a : mopt, streq (keyword a) k = true -> keyword a ∉ ks) as Hq.
  { intros a Ha. apply streq_true in Ha. by rewrite Ha. }
  rewrite <- (filter_imp (fun a => keyword a ∉ ks) (fun a => streq (keyword a) k = true) o) by done.
  rewrite <- H. by rewrite filter_imp by done.
Qed.

Lemma same_but_remove ks o k : k ∈ ks -> same_but ks o (o_remove o k).
Proof.
  intros Hk. unfold same_but, o_remove. apply filter_imp.
  intros a Ha. apply streq_false. intros E. by rewrite E in Ha.
Qed.

Lemma parse_option_eq kw v : "="%char ∉ kw -> parse_option (kw ++ "="%char :: v) = MOpt kw (Some v).
Proof. intros H. unfold parse_option. by rewrite strchr_app. Qed.

Lemma take_keyword n kw (v : cstr) :
  (length kw < n)%nat -> take n (kw ++ "="%char :: v) = kw ++ "="%char :: take (n - length kw - 1) v.
Proof.
  intros H. rewrite take_app_ge by lia. f_equal.
  destruct (n - length kw)%nat as [|m] eqn:E; [lia|]. cbn [take]. by rewrite Nat.sub_succ, Nat.sub_0_r.
Qed.

Lemma same_but_append ks o str : keyword (parse_option str) ∈ ks -> same_but ks o (o_append o str).
Proof.
  intros H. unfold same_but, o_append. rewrite filter_app, filter_cons_False by (intros Hn; done).
  by rewrite filter_nil, app_nil_r.
Qed.

Lemma with_keyword_append k o str :
  with_keyword k (o_append o str) = with_keyword k o ++ (if streq (keyword (parse_option str)) k then [parse_option str] else []).
Proof.
  unfold with_keyword, o_append. rewrite filter_app. f_equal. rewrite filter_cons, filter_nil.
  case_decide as H; [by rewrite H|]. by destruct (streq _ _).
Qed.

Lemma with_keyword_remove k o : with_keyword k (o_remove o k) = [].
Proof.
  unfold with_keyword, o_remove. apply filter_none, Forall_forall. intros a Ha.
  apply list_elem_of_filter in Ha as [Ha _]. congruence.
Qed.

Lemma same_but_remove_all ks o l : l ⊆ ks -> same_but ks o (remove_all o l).
Proof.
  revert o; induction l as [|k l IH]; intros o H; [apply same_but_refl|]. cbn [remove_all foldl].
  eapply same_but_trans; [|apply IH; set_solver]. apply same_but_remove. set_solver.
Qed.

Lemma yields_append w ks o str : keyword (parse_option str) ∈ ks -> yields (same_but ks o) (po_append' w o str).
Proof.
  intros H. unfold po_append'. apply yields_bind. intros [|]; [|apply yields_none].
  apply yields_ret, same_but_append, H.
Qed.

(** Membership and inclusion of literal keywords. *)
Ltac keys := apply (bool_decide_unpack _); vm_compute; exact I.

(** The keywords that the negotiation may change. *)
Definition rewrite_keys : list cstr :=
  [$"nfsprog"; $"mountprog"; $"v2"; $"v3"; $"vers"; $"nfsvers"; $"proto"; $"udp"; $"tcp"; $"port"; $"mountvers";
   $"mountproto"; $"mountport"].
Definition managed : list cstr :=
  [$"addr"; $"clientaddr"; $"mountaddr"; $"v4"; $"minorversion"; $"sloppy"] ++ rewrite_keys.

(** The version option as keyword and value. *)
Ltac vers_kw :=
  match goal with |- context [$"vers=" ++ ?x] => change ($"vers=" ++ x) with ($"vers" ++ "="%char :: x) end.

Section yields.
  Context (w : world).

Lemma generic_yields sap kw o text :
  "="%char ∉ kw -> w_present w sap = inl text ->
  yields (fun o' => o' = o_append o (kw ++ "="%char :: text)) (nfs_append_generic_address_option w sap kw o).
Proof.
  intros Hk E. unfold nfs_append_generic_address_option. rewrite E. destruct (512 <=? _); [apply yields_none|].
  unfold po_append'. apply yields_bind. intros [|]; [|apply yields_none]. by apply yields_ret.
Qed.

Lemma generic_same sap kw o ks :
  "="%char ∉ kw -> kw ∈ ks -> yields (same_but ks o) (nfs_append_generic_address_option w sap kw o).
Proof.
  intros Hk Hin. destruct (w_present w sap) as [text|e] eqn:E.
  - eapply yields_mono; [by apply generic_yields|]. intros o' ->. apply same_but_append. by rewrite parse_option_eq.
  - unfold nfs_append_generic_address_option. rewrite E. apply yields_bind. intros _. apply yields_none.
Qed.

(** The only address option is the one of this address. *)
Definition addressed (sap : sockaddr) (o : opts) : Prop :=
  exists text, w_present w sap = inl text /\ with_keyword $"addr" o = [MOpt $"addr" (Some text)].

Lemma addressed_same sap o o' ks : same_but ks o o' -> $"addr" ∉ ks -> addressed sap o -> addressed sap o'.
Proof. intros H Hk (text & E & Ht). exists text. by rewrite (same_but_keyword ks o o'). Qed.

Lemma addr_yields sap o :
  yields (fun o' => addressed sap o' /\ same_but [$"addr"] o o') (nfs_append_addr_option w sap o).
Proof.
  unfold nfs_append_addr_option. destruct (w_present w sap) as [text|e] eqn:E.
  - eapply yields_mono; [apply generic_yields; [keys|exact E]|]. intros o' ->. split.
    + exists text. split; [done|]. by rewrite with_keyword_append, with_keyword_remove, parse_option_eq by keys.
    + eapply same_but_trans; [apply (same_but_remove _ _ $"addr"); keys|].
      apply same_but_append. rewrite parse_option_eq by keys. keys.
  - unfold nfs_append_generic_address_option. rewrite E. apply yields_bind. intros _. apply yields_none.
Qed.

Lemma mounthost_yields o h : yields (same_but [$"mountaddr"] o) (nfs_fix_mounthost_option w o h).
Proof.
  unfold nfs_fix_mounthost_option. destruct (nfs_nfs_proto_family _ o); [|apply yields_fail].
  destruct (nfs_mount_proto_family _ o); [|apply yields_fail].
  assert (forall mh fam, yields (same_but [$"mountaddr"] o)
            (r ← ask (fun n => w_lookup w n (default h mh) fam);
             match r with
             | inr e => _ ← (if e =? 0 then mret tt else set_errno e); mret None
             | inl sap => nfs_append_generic_address_option w sap $"mountaddr" o
             end)) as H.
  { intros mh fam. apply yields_bind. intros [sap|e]; [apply generic_same; keys|].
    apply yields_bind. intros _. apply yields_none. }
  destruct (o_get o $"mounthost"); [apply H|]. destruct (bool_decide _); [by apply yields_ret|apply H].
Qed.

Lemma clientaddr_yields sap o : yields (same_but [$"clientaddr"] o) (nfs_append_clientaddr_option w sap o).
Proof.
  unfold nfs_append_clientaddr_option. destruct (o_has o $"clientaddr").
  - destruct (o_get o _) as [a|]; [|apply yields_none].
    destruct (w_string_to_sockaddr w a); [by apply yields_ret|apply yields_none].
  - apply yields_bind. intros [a|]; [apply generic_same; keys|apply yields_none].
Qed.

(** The version of the NFS service is the one asked for, or 2 or 3. *)
Lemma probe_port_vers pm versions protos :
  pm_vers pm <> 0 -> yields (fun pm' => pm_vers pm' = pm_vers pm) (nfs_probe_port w pm versions protos).
Proof.
  intros Hv. unfold nfs_probe_port. apply yields_bind. intros [[[v pr] po]|]; [|apply yields_none].
  apply yields_bind. intros _. apply yields_ret. cbn. by rewrite (proj2 (Z.eqb_neq _ _) Hv).
Qed.

Lemma nfsport_vers pm c :
  pm_vers pm <> 0 -> yields (fun pm' => pm_vers pm' = pm_vers pm) (nfs_probe_nfsport w pm c).
Proof.
  intros Hv. unfold nfs_probe_nfsport. destruct (pm_complete pm); [by apply yields_ret|].
  destruct (4 <=? _); [|by apply probe_port_vers].
  eapply yields_handle; [by apply probe_port_vers| |apply yields_none]. intros pm' H'.
  destruct (_ || _); [by apply yields_ret|]. apply yields_bind. intros [[] e]; cbn [fst snd];
    apply yields_bind; intros _; [apply yields_bind; intros _; apply yields_none|by apply yields_ret].
Qed.

Definition v23 (v : Z) : Prop := v = 2 \/ v = 3.

Lemma mntvers_v23 v : 1 <= v <= 3 -> v23 (mntvers_to_nfs v).
Proof. intros H. assert (v = 1 \/ v = 2 \/ v = 3) as [->|[->| ->]] by lia; [by left|by left|by right]. Qed.

Lemma probe_both_vers mnt nfs vers c :
  Forall (fun v => 1 <= v <= 3) vers -> yields (fun r => v23 (pm_vers r.2)) (probe_both w mnt nfs vers c).
Proof.
  intros H. induction H as [|v vers Hv _ IH]; cbn [probe_both]; [apply yields_none|].
  pose proof (mntvers_v23 v Hv) as H23.
  assert (pm_vers (set_vers nfs (mntvers_to_nfs v)) <> 0) as Hn by (cbn; destruct H23 as [->| ->]; done).
  eapply yields_handle; [by apply nfsport_vers| |].
  - intros nfs' E. apply yields_bind. intros [mnt'|]; [by apply yields_ret; cbn; rewrite E|].
    apply yields_bind. intros e. destruct (bool_decide _); [apply IH|apply yields_none].
  - apply yields_bind. intros _. apply yields_bind. intros e. destruct (bool_decide _); [apply IH|apply yields_none].
Qed.

Lemma bothports_v23 mnt nfs c :
  pm_vers nfs = 0 -> 0 <= pm_vers mnt <= 4 -> yields (fun r => v23 (pm_vers r.2)) (nfs_probe_bothports w mnt nfs c).
Proof.
  intros Hn Hm. unfold nfs_probe_bothports. rewrite Hn. cbn [Z.eqb]. rewrite andb_true_r.
  assert (forall a b, pm_vers a = 0 -> yields (fun r => v23 (pm_vers r.2))
            (probe_both w b a (if 4 <=? nfs_mount_data_version w then probe_mnt3_only else probe_mnt1_first) c)) as L.
  { intros a b _. apply probe_both_vers. destruct (4 <=? _); repeat constructor; lia. }
  destruct (pm_vers mnt =? 0) eqn:E; cbn [negb]; [rewrite Hn; cbn [Z.eqb negb andb]; by apply L|]. btrue.
  rewrite andb_false_r. destruct (Z.eq_dec (pm_vers mnt) 4) as [E4|E4].
  { rewrite E4. cbn. by apply L. }
  pose proof (mntvers_v23 (pm_vers mnt) ltac:(lia)) as H23.
  assert (mntvers_to_nfs (pm_vers mnt) <> 0) as Hz by (destruct H23 as [->| ->]; done).
  cbn [pm_vers set_vers]. rewrite (proj2 (Z.eqb_neq _ _) Hz). cbn [negb].
  unfold nfs_probe_version_fixed. eapply yields_tbind; [by apply nfsport_vers|]. intros nfs' E'.
  eapply (yields_tbind (fun _ => True)); [by intros ? ? ?|]. intros mnt' _. apply yields_ret. cbn. by rewrite E'.
Qed.

Lemma ranged_range o kw ok def v : ranged o kw ok def = Some v -> v = def \/ ok v = true.
Proof.
  unfold ranged. destruct (o_numeric o kw) as [[] [n|]]; try (intros [= <-]; by left); try done.
  destruct (ok n) eqn:E; [intros [= <-]; by right|done].
Qed.

Lemma options2pmap_vers o nfs mnt :
  version_options o = [] -> nfs_options2pmap (w_db w) o = Some (nfs, mnt) -> pm_vers nfs = 0 /\ 0 <= pm_vers mnt <= 4.
Proof.
  intros Hv. unfold nfs_options2pmap, nfs_nfs_version. rewrite version_search_keys.
  fold (version_options o). rewrite Hv. cbn. intros H. repeat (apply bind_Some in H as (? & ? & H)).
  injection H as <- <-. cbn. split; [done|].
  match goal with E : nfs_mount_version o = Some ?v |- _ => apply ranged_range in E as [->|E] end; [lia|].
  btrue. lia.
Qed.

Lemma removed_all kw o l : kw ∈ l -> with_keyword kw (remove_all o l) = [].
Proof.
  revert o; induction l as [|k l IH]; intros o H; [set_solver|]. cbn [remove_all foldl].
  destruct (decide (kw ∈ l)) as [Hl|Hl]; [by apply IH|]. assert (kw = k) as -> by set_solver.
  transitivity (with_keyword k (o_remove o k)); [|apply with_keyword_remove].
  by apply (same_but_keyword l); [apply same_but_remove_all|].
Qed.

(** A keyword is removed, with others, and given a value. *)
Definition put (l : list cstr) (kw : cstr) (v : cstr) (o o' : opts) : Prop :=
  o' = o_append (remove_all o l) (kw ++ "="%char :: v) /\ kw ∈ l /\ "="%char ∉ kw.

Lemma put_same l kw v o o' : put l kw v o o' -> same_but l o o'.
Proof.
  intros (-> & Hin & Hk). eapply same_but_trans; [by apply same_but_remove_all|].
  apply same_but_append. by rewrite parse_option_eq.
Qed.

Lemma put_value l kw v o o' : put l kw v o o' -> with_keyword kw o' = [MOpt kw (Some v)].
Proof.
  intros (-> & Hin & Hk). rewrite with_keyword_append, removed_all by done. by rewrite parse_option_eq, streq_refl.
Qed.

Lemma put_number l kw n o : kw ∈ l -> "="%char ∉ kw ->
  yields (put l kw (utoa 10 n) o) (po_append' w (remove_all o l) (kw ++ "="%char :: utoa 10 n)).
Proof.
  intros Hin Hk. unfold po_append'. apply yields_bind. intros [|]; [|apply yields_none]. by apply yields_ret.
Qed.

Lemma put_netid l kw f prot o : kw ∈ l -> "="%char ∉ kw -> (length kw < 12)%nat ->
  yields (fun o' => exists n, nfs_get_netid (w_db w) f prot = Some n /\ put l kw (take (61 - length kw) n) o o')
    (append_netid w kw f prot (remove_all o l)).
Proof.
  intros Hin Hk Hl. unfold append_netid. destruct (nfs_get_netid _ f prot) as [n|].
  - unfold po_append'. apply yields_bind. intros [|]; [|apply yields_none]. apply yields_ret. exists n.
    split; [done|]. split; [|done]. rewrite take_keyword by lia. do 4 f_equal. lia.
  - apply yields_bind. intros e. apply yields_bind. intros _. apply yields_none.
Qed.

(** The stages of the new options. *)
Record stages (o : opts) (a : sockaddr) (p : pmap) (b : sockaddr) (q : pmap) (o1 o2 o3 o4 o5 o6 : opts) (n1 n2 : cstr) : Prop := Stages
  { sg_vers : put [$"nfsprog"; $"mountprog"; $"v2"; $"v3"; $"vers"; $"nfsvers"] $"vers" (utoa 10 (pm_vers p)) o o1;
    sg_netid : nfs_get_netid (w_db w) (sa_family a) (pm_prot p) = Some n1;
    sg_proto : put [$"proto"; $"udp"; $"tcp"] $"proto" (take 56 n1) o1 o2;
    sg_port : if o_has o2 $"port" || negb (pm_port p =? NFS_PORT) then put [$"port"] $"port" (utoa 10 (pm_port p)) o2 o3 else o3 = o2;
    sg_mountvers : put [$"mountvers"] $"mountvers" (utoa 10 (pm_vers q)) o3 o4;
    sg_mountnetid : nfs_get_netid (w_db w) (sa_family b) (pm_prot q) = Some n2;
    sg_mountproto : put [$"mountproto"] $"mountproto" (take 51 n2) o4 o5;
    sg_mountport : put [$"mountport"] $"mountport" (utoa 10 (pm_port q)) o5 o6 }.

Definition constructed (o : opts) (a : sockaddr) (p : pmap) (b : sockaddr) (q : pmap) (o6 : opts) : Prop :=
  exists o1 o2 o3 o4 o5 n1 n2, stages o a p b q o1 o2 o3 o4 o5 o6 n1 n2.

Lemma construct_stages o a p b q : yields (constructed o a p b q) (nfs_construct_new_options w o a p b q).
Proof.
  unfold nfs_construct_new_options.
  eapply yields_tbind; [apply (put_number _ $"vers"); keys|]. intros o1 H1.
  eapply yields_tbind; [apply (put_netid _ $"proto"); [keys|keys|cbn; lia]|]. intros o2 (n1 & N1 & H2).
  eapply (yields_tbind (fun o3 => if o_has o2 $"port" || negb (pm_port p =? NFS_PORT)
                                  then put [$"port"] $"port" (utoa 10 (pm_port p)) o2 o3 else o3 = o2)).
  { destruct (_ || _); [apply (put_number [_] $"port"); keys|by apply yields_ret]. }
  intros o3 H3.
  eapply yields_tbind; [apply (put_number [_] $"mountvers"); keys|]. intros o4 H4.
  eapply yields_tbind; [apply (put_netid [_] $"mountproto"); [keys|keys|cbn; lia]|]. intros o5 (n2 & N2 & H5).
  eapply yields_mono; [apply (put_number [_] $"mountport"); keys|]. intros o6 H6.
  by exists o1, o2, o3, o4, o5, n1, n2.
Qed.

(** From a stage to the end only later keywords change. *)
Lemma stages_frame o a p b q o1 o2 o3 o4 o5 o6 n1 n2 :
  stages o a p b q o1 o2 o3 o4 o5 o6 n1 n2 ->
  same_but [$"mountport"] o5 o6 /\ same_but [$"mountproto"; $"mountport"] o4 o6 /\
  same_but [$"mountvers"; $"mountproto"; $"mountport"] o3 o6 /\
  same_but [$"port"; $"mountvers"; $"mountproto"; $"mountport"] o2 o6 /\
  same_but [$"proto"; $"udp"; $"tcp"; $"port"; $"mountvers"; $"mountproto"; $"mountport"] o1 o6 /\
  same_but rewrite_keys o o6.
Proof.
  intros [P1 _ P2 P3 P4 _ P5 P6].
  assert (forall l ks x y z, same_but l x y -> same_but ks y z -> same_but (l ++ ks) x z) as C.
  { intros l ks x y z Hl Hk. eapply same_but_trans; eapply same_but_mono; [|exact Hl| |exact Hk]; set_solver. }
  pose proof (put_same _ _ _ _ _ P6) as S6. split; [done|].
  pose proof (C _ _ _ _ _ (put_same _ _ _ _ _ P5) S6) as S5. split; [done|].
  pose proof (C _ _ _ _ _ (put_same _ _ _ _ _ P4) S5) as S4. split; [done|].
  assert (same_but [$"port"] o2 o3) as S3 by (destruct (_ || _); [by eapply put_same|by rewrite P3]).
  pose proof (C _ _ _ _ _ S3 S4) as S2. split; [done|].
  pose proof (C _ _ _ _ _ (put_same _ _ _ _ _ P2) S2) as S1. split; [done|].
  eapply same_but_mono; [|exact (C _ _ _ _ _ (put_same _ _ _ _ _ P1) S1)]. keys.
Qed.

Lemma construct_yields o a p b q : yields (same_but rewrite_keys o) (nfs_construct_new_options w o a p b q).
Proof.
  eapply yields_mono; [apply construct_stages|].
  intros o6 (o1 & o2 & o3 & o4 & o5 & n1 & n2 & H%stages_frame). by destruct_and! H.
Qed.

Lemma construct_vers o a p b q :
  yields (fun o' => with_keyword $"vers" o' = [MOpt $"vers" (Some (utoa 10 (pm_vers p)))]) (nfs_construct_new_options w o a p b q).
Proof.
  eapply yields_mono; [apply construct_stages|].
  intros o6 (o1 & o2 & o3 & o4 & o5 & n1 & n2 & H). destruct (stages_frame _ _ _ _ _ _ _ _ _ _ _ _ _ H) as (_ & _ & _ & _ & S1 & _).
  rewrite (same_but_keyword _ _ _ $"vers" S1) by keys. eapply put_value, H.
Qed.
End yields.

(** ** No version option *)

Definition version_free (k : cstr) : Prop := Forall (fun p => starts_with p k = false) nfs_version_opttbl.
#[export] Instance version_free_dec k : Decision (version_free k).
Proof. unfold version_free. apply _. Defined.

Lemma version_options_free o : version_options o = [] <-> Forall (fun a => version_free (keyword a)) o.
Proof.
  unfold version_options, version_free. generalize 0. generalize nfs_version_opttbl. intros tbl.
  induction tbl as [|k tbl IH]; intros i; cbn [version_keys].
  { split; [|done]. intros _. apply Forall_forall. intros. constructor. }
  rewrite app_nil, IH. split.
  - intros [H1 H2]. apply Forall_forall. intros a Ha. constructor; [|by apply (proj1 (Forall_forall _ _) H2)].
    destruct (starts_with k (keyword a)) eqn:E; [|done].
    assert (a ∈ filter (fun a => starts_with k (keyword a) = true) o) as Hf by (by apply list_elem_of_filter).
    apply fmap_nil_inv in H1. rewrite H1 in Hf. by apply elem_of_nil in Hf.
  - intros H. split.
    + rewrite filter_none; [done|]. eapply Forall_impl; [exact H|]. intros a Ha. apply Forall_cons in Ha as [Ha _]. congruence.
    + eapply Forall_impl; [exact H|]. intros a Ha. by apply Forall_cons in Ha as [_ Ha].
Qed.

Lemma version_free_vers o : version_options o = [] -> with_keyword $"vers" o = [].
Proof.
  intros H. apply version_options_free in H. unfold with_keyword. apply filter_none.
  eapply Forall_impl; [exact H|]. intros a Ha E. apply streq_true in E. cbv beta in Ha. rewrite E in Ha.
  do 3 apply Forall_cons in Ha as [_ Ha]. by apply Forall_cons in Ha as [Ha _].
Qed.

Lemma version_free_same ks o o' :
  same_but ks o o' -> Forall version_free ks -> version_options o = [] -> version_options o' = [].
Proof.
  intros H Hk Ho. apply version_options_free in Ho. apply version_options_free, Forall_forall. intros a Ha.
  destruct (decide (keyword a ∈ ks)) as [Hin|Hin]; [by apply (proj1 (Forall_forall _ _) Hk)|].
  apply (proj1 (Forall_forall _ _) Ho).
  assert (a ∈ filter (fun a => keyword a ∉ ks) o') as Hf by (by apply list_elem_of_filter).
  rewrite H in Hf. by apply list_elem_of_filter in Hf as [_ ?].
Qed.

(** ** One attempt *)

Definition on_mount (P : opts -> Prop) (e : event) : Prop := match e with Mount o _ => P o | Sleep _ => False end.

(** What was done between two states, with the server and the options unchanged. *)
Record round (P : opts -> Prop) (s s' : mstate) : Prop := Round
  { r_log : exists l, m_log s' = m_log s ++ l /\ Forall (on_mount P) l;
    r_opts : mi_options s' = mi_options s; r_addr : mi_address s' = mi_address s;
    r_host : mi_hostname s' = mi_hostname s; r_tick : (m_tick s <= m_tick s')%nat }.

Lemma round_quiet P s s' : quiet s s' -> round P s s'.
Proof. intros []. split; try done. exists []. by rewrite app_nil_r. Qed.

Lemma round_trans P s1 s2 s3 : round P s1 s2 -> round P s2 s3 -> round P s1 s3.
Proof.
  intros [(l1 & E1 & H1) ? ? ? ?] [(l2 & E2 & H2) ? ? ? ?]. split; try congruence; [|lia].
  exists (l1 ++ l2). rewrite E2, E1, app_assoc. split; [done|]. by apply Forall_app.
Qed.

Lemma round_mono (P Q : opts -> Prop) s s' : (forall o, P o -> Q o) -> round P s s' -> round Q s s'.
Proof.
  intros HPQ [(l & E & H) ? ? ? ?]. split; try done. exists l. split; [done|].
  eapply Forall_impl; [exact H|]. intros [o r|n]; cbn; auto.
Qed.

(** Composition: the first part is quiet, or a round that keeps the version. *)
Definition rounds {A} (P : opts -> Prop) (m : mM A) (s : mstate) : Prop := round P s (m s).2.

Lemma rounds_bind {A B} P (m : mM A) (k : A -> mM B) s :
  rounds P m s -> (forall a s', m s = (a, s') -> rounds P (k a) s') -> rounds P (m ≫= k) s.
Proof.
  unfold rounds, mbind, mM_bind. destruct (m s) as [a s'] eqn:E. cbn. intros H1 H2.
  eapply round_trans; [exact H1|by apply H2].
Qed.

Lemma rounds_still {A} P (m : mM A) s : still m -> rounds P m s.
Proof. intros H. apply round_quiet, H. Qed.

Lemma still_run {A} (m : mM A) s a s' : still m -> m s = (a, s') -> quiet s s'.
Proof. intros H E. specialize (H s). by rewrite E in H. Qed.

Section attempt.
  Context (w : world) (mi : request).

Lemma sys_mount_rounds P o s : P o -> rounds P (nfs_sys_mount w mi o) s.
Proof.
  intros HP. unfold nfs_sys_mount. destruct (r_fake mi); [apply rounds_still; still|].
  apply rounds_bind; [apply rounds_still; still|]. intros [|] s1 E1; cbn [negb]; [|apply rounds_still; still].
  apply rounds_bind; [apply rounds_still; still|]. intros res s2 E2. apply rounds_bind.
  - split; cbn; auto. exists [Mount o res]. by repeat constructor.
  - intros [] s3 E3. apply rounds_still. destruct res; still.
Qed.

Lemma sys_mount_version o s : mi_version (nfs_sys_mount w mi o s).2 = mi_version s.
Proof.
  unfold nfs_sys_mount. destruct (r_fake mi); [done|]. unfold mbind, mM_bind.
  pose proof (still_allocate w s) as [_ _ Hv _ _ _]. destruct (allocate w s) as [[|] s1]; cbn in *; [|done].
  by destruct (w_mount w (m_tick s1)).
Qed.

Definition v3_text (o : opts) : Prop :=
  with_keyword $"vers" o = [] \/ exists v, v23 v /\ with_keyword $"vers" o = [MOpt $"vers" (Some (utoa 10 v))].

Lemma rewrite_yields o c :
  yields (fun o' => same_but rewrite_keys o o' /\ (version_options o = [] -> v3_text o')) (nfs_rewrite_pmap_mount_options w o c).
Proof.
  unfold nfs_rewrite_pmap_mount_options. destruct (nfs_nfs_protocol _ o) as [prot|]; [|apply yields_fail].
  destruct (prot =? NFSPROTO_RDMA).
  { apply yields_bind. intros _. apply yields_ret. split; [done|]. intros H. left. by apply version_free_vers. }
  destruct (nfs_extract_server_addresses w o) as [[na ma]|]; [|apply yields_fail].
  destruct (nfs_options2pmap _ o) as [[nfs mnt]|] eqn:E; [|apply yields_fail].
  eapply (yields_handle (fun r => version_options o = [] -> v23 (pm_vers r.2))).
  - destruct (decide (version_options o = [])) as [Hv|Hv]; [|by intros ? ? _ ?].
    eapply yields_mono; [apply bothports_v23; apply (options2pmap_vers _ _ _ _ Hv E)|]. auto.
  - intros [mnt' nfs'] H23. cbn in H23. eapply (yields_handle (fun o' => same_but rewrite_keys o o' /\
      with_keyword $"vers" o' = [MOpt $"vers" (Some (utoa 10 (pm_vers nfs')))])).
    + intros s o' Eo. split; [eapply construct_yields, Eo|eapply construct_vers, Eo].
    + intros o' [H1 H2]. apply yields_bind. intros _. apply yields_ret. split; [done|]. right. eauto.
    + apply yields_bind. intros. apply yields_fail.
  - apply yields_bind. intros. apply yields_fail.
Qed.

(** The attempt, once the options are made. *)
Lemma attempt_rounds {P : opts -> Prop} (m : mM (option opts)) (k : opts -> mM bool) s :
  still m -> yields P m -> (forall o s, P o -> rounds P (k o) s) ->
  rounds P (r ← m; match r with None => mret false | Some o => k o end) s.
Proof.
  intros Hs Hy Hk. apply rounds_bind; [by apply rounds_still|]. intros [o|] s' E.
  - apply Hk. apply (Hy s). by rewrite E.
  - apply rounds_still. still.
Qed.

Lemma managed_of ks o o' : same_but ks o o' -> ks ⊆ managed -> same_but managed o o'.
Proof. intros. eapply same_but_mono; eauto. Qed.

(** What a call for versions 2 and 3 passes. *)
Definition call_v3 (sap : sockaddr) (o0 o : opts) : Prop :=
  addressed w sap o /\ same_but managed o0 o /\ (version_options o0 = [] -> v3_text o).

Lemma do_mount_v3v2_rounds sap c s : rounds (call_v3 sap (mi_options s)) (nfs_do_mount_v3v2 w mi sap c) s.
Proof.
  unfold nfs_do_mount_v3v2. apply rounds_bind; [apply rounds_still; still|]. intros [|] s1 E1; cbn [negb];
    [|apply rounds_still; still].
  apply rounds_bind; [apply rounds_still; still|]. intros o s2 [= <- <-].
  rewrite (q_opts _ _ (still_run _ _ _ _ (still_allocate w) E1)). generalize (mi_options s). clear s E1. intros o.
  apply rounds_bind; [apply rounds_still; still|]. intros host s2 _.
  apply rounds_bind; [apply rounds_still; still|]. intros [] s3 _.
  apply attempt_rounds; [still| |by intros; apply sys_mount_rounds].
  eapply yields_tbind; [apply yields_or_einval, addr_yields|]. intros o1 [A1 S1]. cbv beta in A1.
  eapply yields_tbind; [apply yields_or_einval, mounthost_yields|]. intros o2 S2.
  eapply (yields_tbind (fun o3 => o3 = o2)).
  { apply yields_or_einval. destruct (r_fake mi); [by apply yields_ret|]. apply yields_bind. intros [|]; [by apply yields_ret|apply yields_none]. }
  intros o3 ->. apply yields_bind. intros [|]; cbn [negb]; [|apply yields_none]. apply yields_bind. intros _.
  eapply yields_mono; [apply rewrite_yields|]. intros o3 [S3 V3]. split; [|split].
  - eapply addressed_same; [exact S3|keys|]. eapply addressed_same; [exact S2|keys|done].
  - eapply same_but_trans; [apply (managed_of _ _ _ S1); keys|].
    eapply same_but_trans; [apply (managed_of _ _ _ S2); keys|]. apply (managed_of _ _ _ S3). keys.
  - intros Hv. apply V3. eapply version_free_same; [exact S2|keys|]. eapply version_free_same; [exact S1|keys|done].
Qed.


(** The value of the version option for version 4. *)
Definition v4_text (v : nfs_version) : cstr :=
  take 25 (utoa 10 (major v) ++
           (if minor v =? 0 then []
            else if minor v =? 1 then $",minorversion=" ++ utoa 10 (minor v)
            else "."%char :: utoa 10 (minor v))).

(** What a call for version 4 passes. *)
Definition call_v4 (sap : sockaddr) (v : nfs_version) (o0 o : opts) : Prop :=
  addressed w sap o /\ same_but managed o0 o /\
  (v_mode v <> V_SPECIFIC -> with_keyword $"vers" o0 = [] ->
   with_keyword $"vers" o = [MOpt $"vers" (Some (v4_text v))]).

Lemma append_version v o :
  yields (fun o' => same_but [$"vers"; $"minorversion"] o o' /\
            (with_keyword $"vers" o = [] -> with_keyword $"vers" o' = [MOpt $"vers" (Some (v4_text v))]))
    (po_append' w o (version_opt v)).
Proof.
  assert (parse_option (version_opt v) = MOpt $"vers" (Some (v4_text v))) as E.
  { unfold version_opt. vers_kw. rewrite (take_keyword 30 $"vers") by (cbn; lia). by rewrite parse_option_eq by keys. }
  unfold po_append'. apply yields_bind. intros [|]; [|apply yields_none]. apply yields_ret. split.
  - apply same_but_append. rewrite E. keys.
  - intros H. by rewrite with_keyword_append, E, H.
Qed.

Lemma specific_version v o :
  yields (same_but [$"vers"; $"minorversion"] o)
    (po_append' w (o_remove o $"minorversion") (take 30 ($"vers=" ++ utoa 10 (major v) ++ "."%char :: utoa 10 (minor v)))).
Proof.
  unfold po_append'. apply yields_bind. intros [|]; [|apply yields_none]. apply yields_ret.
  eapply same_but_trans; [apply (same_but_remove _ _ $"minorversion"); keys|]. apply same_but_append.
  vers_kw. rewrite (take_keyword 30 $"vers") by (cbn; lia). rewrite parse_option_eq by keys. keys.
Qed.

Lemma do_mount_v4_rounds sap s : rounds (call_v4 sap (mi_version s) (mi_options s)) (nfs_do_mount_v4 w mi sap) s.
Proof.
  unfold nfs_do_mount_v4. apply rounds_bind; [apply rounds_still; still|]. intros [|] s1 E1; cbn [negb];
    [|apply rounds_still; still].
  apply rounds_bind; [apply rounds_still; still|]. intros o s2 [= <- <-].
  apply rounds_bind; [apply rounds_still; still|]. intros v s2 [= <- <-].
  pose proof (still_run _ _ _ _ (still_allocate w) E1) as Q. rewrite (q_opts _ _ Q), (q_vers _ _ Q).
  generalize (mi_options s) (mi_version s). clear s E1 Q. intros o v.
  destruct (v3_only o); [apply rounds_still; still|].
  apply attempt_rounds; [still| |].
  2:{ intros o' s' H. apply rounds_bind; [by apply sys_mount_rounds|]. intros [|] s2 _; apply rounds_still; still. }
  eapply (yields_tbind (fun o1 => same_but [$"vers"; $"minorversion"] o o1 /\
            (v_mode v <> V_SPECIFIC -> with_keyword $"vers" o = [] -> with_keyword $"vers" o1 = [MOpt $"vers" (Some (v4_text v))]))).
  { destruct (bool_decide_reflect (v_mode v = V_SPECIFIC)) as [Hv|Hv]; cbn [negb].
    - destruct (_ && _); [|by apply yields_ret].
      apply yields_einval. eapply yields_mono; [apply specific_version|]. intros o1 H1. by split.
    - apply yields_einval. eapply yields_mono; [apply append_version|]. intros o1 [H1 H2]. by split. }
  intros o1 [S1 V1]. eapply yields_tbind; [apply yields_einval, addr_yields|]. intros o2 [A2 S2]. cbv beta in A2.
  eapply yields_tbind; [apply yields_einval, clientaddr_yields|]. intros o3 S3.
  apply yields_bind. intros [|]; [|apply yields_none]. apply yields_ret. split; [|split].
  - by eapply addressed_same; [exact S3|keys|].
  - eapply same_but_trans; [apply (managed_of _ _ _ S1); keys|].
    eapply same_but_trans; [apply (managed_of _ _ _ S2); keys|]. apply (managed_of _ _ _ S3). keys.
  - intros H1 H2. rewrite (same_but_keyword _ _ _ $"vers" S3), (same_but_keyword _ _ _ $"vers" S2) by keys. auto.
Qed.

(** ** The version stays while the addresses are tried *)

Definition same_vers {A} (m : mM A) : Prop := forall s, mi_version (m s).2 = mi_version s.

Lemma same_vers_bind {A B} (m : mM A) (k : A -> mM B) : same_vers m -> (forall a, same_vers (k a)) -> same_vers (m ≫= k).
Proof.
  intros H1 H2 s. unfold mbind, mM_bind. specialize (H1 s). destruct (m s) as [a s1]. cbn in H1. by rewrite H2.
Qed.
Lemma same_vers_still {A} (m : mM A) : still m -> same_vers m.
Proof. intros H s. apply H. Qed.

Lemma do_mount_v3v2_vers sap c : same_vers (nfs_do_mount_v3v2 w mi sap c).
Proof.
  unfold nfs_do_mount_v3v2. apply same_vers_bind; [apply same_vers_still; still|]. intros [|]; cbn [negb]; [|done].
  do 3 (apply same_vers_bind; [apply same_vers_still; still|intros ?]).
  apply same_vers_bind; [apply same_vers_still; still|]. intros [o|]; [intros s; apply sys_mount_version|done].
Qed.

Lemma do_mount_v4_vers sap : same_vers (nfs_do_mount_v4 w mi sap).
Proof.
  unfold nfs_do_mount_v4. apply same_vers_bind; [apply same_vers_still; still|]. intros [|]; cbn [negb]; [|done].
  do 2 (apply same_vers_bind; [apply same_vers_still; still|intros ?]). destruct (v3_only _); [done|].
  apply same_vers_bind; [apply same_vers_still; still|]. intros [o|]; [|done].
  apply same_vers_bind; [intros s; apply sys_mount_version|]. intros [|]; apply same_vers_still; still.
Qed.

(** The addresses in turn: any property of the calls that holds for each of them. *)
Lemma try_v3v2_rounds (P : opts -> Prop) l c s :
  (forall sap o, sap ∈ l -> call_v3 sap (mi_options s) o -> P o) ->
  rounds P (try_v3v2 w mi l c) s /\ mi_version (try_v3v2 w mi l c s).2 = mi_version s.
Proof.
  revert s; induction l as [|a l IH]; intros s H; cbn [try_v3v2]; [split; [apply rounds_still; still|done]|].
  pose proof (do_mount_v3v2_rounds a c s) as R. pose proof (do_mount_v3v2_vers a c s) as V.
  apply (round_mono _ P) in R; [|intros o; apply H; set_solver].
  unfold rounds, mbind, mM_bind, gets. destruct (nfs_do_mount_v3v2 w mi a c s) as [[|] s1]; cbn [fst snd] in *; [done|].
  destruct (one_of (m_errno s1) _); [|done]. destruct (IH s1) as [R' V'].
  { intros sap o Hin. rewrite (r_opts _ _ _ R). apply H. set_solver. }
  split; [eapply round_trans; [exact R|exact R']|congruence].
Qed.

Lemma try_v4_rounds (P : opts -> Prop) l s :
  (forall sap o, sap ∈ l -> call_v4 sap (mi_version s) (mi_options s) o -> P o) ->
  rounds P (try_v4 w mi l) s /\ mi_version (try_v4 w mi l s).2 = mi_version s.
Proof.
  revert s; induction l as [|a l IH]; intros s H; cbn [try_v4]; [split; [apply rounds_still; still|done]|].
  pose proof (do_mount_v4_rounds a s) as R. pose proof (do_mount_v4_vers a s) as V.
  apply (round_mono _ P) in R; [|intros o; apply H; set_solver].
  unfold rounds, mbind, mM_bind, gets. destruct (nfs_do_mount_v4 w mi a s) as [[|] s1]; cbn [fst snd] in *; [done|].
  destruct (one_of (m_errno s1) _); [|done]. destruct (IH s1) as [R' V'].
  { intros sap o Hin. rewrite (r_opts _ _ _ R), V. apply H. set_solver. }
  split; [eapply round_trans; [exact R|exact R']|congruence].
Qed.

End attempt.

(** ** Negotiation *)

(** A call for version [M.j], or for version 2 or 3. *)
Definition call_kind (M : Z) (e : event) (j : option Z) : Prop :=
  match j, e with
  | Some j, Mount o _ => with_keyword $"vers" o = [MOpt $"vers" (Some (v4_text (NV M j V_DEFAULT)))]
  | None, Mount o _ => v3_text o
  | _, Sleep _ => False
  end.

(** Minor versions that do not grow, from [k] down. *)
Fixpoint descend (k : Z) (js : list (option Z)) : Prop :=
  match js with
  | [] => True
  | None :: js => descend k js
  | Some j :: js => 0 <= j <= k /\ descend j js
  end.

Lemma descend_mono k k' js : k <= k' -> descend k js -> descend k' js.
Proof. revert k k'; induction js as [|[j|] js IH]; intros k k' H; cbn; eauto. intros []. split; [lia|done]. Qed.

Lemma descend_v4 k n js : 0 <= k -> descend k js -> descend k (replicate n (Some k) ++ js).
Proof. intros Hk. induction n; cbn; [done|]. intros H. split; [lia|auto]. Qed.
Lemma descend_v3 k n js : descend k js -> descend k (replicate n None ++ js).
Proof. induction n; cbn; auto. Qed.

(** The calls between two states. *)
Record negotiated (M k : Z) (mode : v_mode_t) (s s' : mstate) : Prop := Negotiated
  { n_calls : exists es js, m_log s' = m_log s ++ es /\ Forall2 (call_kind M) es js /\ descend k js /\
                            (mode = V_GENERAL -> None ∉ js);
    n_opts : mi_options s' = mi_options s; n_addr : mi_address s' = mi_address s;
    n_host : mi_hostname s' = mi_hostname s }.

Lemma negotiated_quiet M k mode s s' : quiet s s' -> negotiated M k mode s s'.
Proof. intros []. split; try done. exists [], []. rewrite app_nil_r. repeat split; auto; set_solver. Qed.

Lemma negotiated_mono M k k' mode s s' : k <= k' -> negotiated M k mode s s' -> negotiated M k' mode s s'.
Proof.
  intros Hk [(es & js & E & F & D & G) ? ? ?]. split; try done. exists es, js. eauto using descend_mono.
Qed.

Lemma Forall2_kind M (P : opts -> Prop) (j : option Z) es :
  (forall o r, P o -> call_kind M (Mount o r) j) -> Forall (on_mount P) es -> Forall2 (call_kind M) es (replicate (length es) j).
Proof.
  intros H. induction 1 as [|[o r|n] es He _ IH]; cbn; [constructor| |done]. constructor; [by apply H|done].
Qed.

Lemma round_v4 M k mode P s1 s2 s3 :
  0 <= k -> round P s1 s2 -> (forall o r, P o -> call_kind M (Mount o r) (Some k)) ->
  negotiated M k mode s2 s3 -> negotiated M k mode s1 s3.
Proof.
  intros Hk [(l1 & E1 & H1) ? ? ? _] HP [(es & js & E2 & F & D & G) ? ? ?]. split; try congruence.
  exists (l1 ++ es), (replicate (length l1) (Some k) ++ js). split; [by rewrite E2, E1, app_assoc|].
  split; [apply Forall2_app; [by eapply Forall2_kind|done]|]. split; [by apply descend_v4|].
  intros Hm. rewrite elem_of_app. intros [Hn|Hn]; [|by apply G]. by apply elem_of_replicate in Hn as [? _].
Qed.

Lemma round_v3 M k mode P s1 s2 s3 :
  mode <> V_GENERAL -> round P s1 s2 -> (forall o r, P o -> call_kind M (Mount o r) None) ->
  negotiated M k mode s2 s3 -> negotiated M k mode s1 s3.
Proof.
  intros Hk [(l1 & E1 & H1) ? ? ? _] HP [(es & js & E2 & F & D & G) ? ? ?]. split; try congruence.
  exists (l1 ++ es), (replicate (length l1) None ++ js). split; [by rewrite E2, E1, app_assoc|].
  split; [apply Forall2_app; [by eapply Forall2_kind|done]|]. split; [by apply descend_v3|done].
Qed.

Section negotiate.
  Context (w : world) (mi : request).

(** A state in which the version is open. *)
Record open_version (M k : Z) (mode : v_mode_t) (s : mstate) : Prop := OpenVersion
  { ov_v : mi_version s = NV M k mode; ov_k : 0 <= k; ov_mode : mode = V_DEFAULT \/ mode = V_GENERAL;
    ov_vers : with_keyword $"vers" (mi_options s) = [];
    ov_free : mode = V_DEFAULT -> version_options (mi_options s) = [] }.

Lemma open_quiet M k mode s s' : quiet s s' -> open_version M k mode s -> open_version M k mode s'.
Proof. intros [] []. split; try congruence; done || by rewrite q_opts0. Qed.

Lemma open_round M k mode P s s' :
  round P s s' -> mi_version s' = mi_version s -> open_version M k mode s -> open_version M k mode s'.
Proof. intros [? E ? ? ?] ? []. split; rewrite ?E; try done. congruence. Qed.

Definition is_v4 (M k : Z) (o : opts) : Prop := with_keyword $"vers" o = [MOpt $"vers" (Some (v4_text (NV M k V_DEFAULT)))].

Lemma v4_round M k mode s r s' :
  open_version M k mode s -> nfs_try_mount_v4 w mi s = (r, s') ->
  round (is_v4 M k) s s' /\ open_version M k mode s'.
Proof.
  intros O. unfold nfs_try_mount_v4, mbind, mM_bind, gets.
  destruct (try_v4_rounds w mi (is_v4 M k) (mi_address s) s) as [R V].
  { intros sap o _ (_ & _ & H). destruct O as [Ev ? Hm Hn ?]. rewrite Ev in H. unfold is_v4.
    rewrite H; [done| |done]. cbn. by destruct Hm as [->| ->]. }
  intros E. unfold rounds in R. rewrite E in R, V. split; [done|]. by eapply open_round.
Qed.

Lemma v3_round M k s c r s' :
  open_version M k V_DEFAULT s -> nfs_try_mount_v3v2 w mi c s = (r, s') ->
  round v3_text s s' /\ open_version M k V_DEFAULT s'.
Proof.
  intros O. unfold nfs_try_mount_v3v2, mbind, mM_bind, gets.
  destruct (try_v3v2_rounds w mi v3_text (mi_address s) c s) as [R V].
  { intros sap o _ (_ & _ & H). by apply H, O. }
  intros E. unfold rounds in R. rewrite E in R, V. split; [done|]. by eapply open_round.
Qed.

Lemma fall_back_negotiated M k mode s :
  open_version M k mode s -> negotiated M k mode s (fall_back w mi s).2.
Proof.
  intros O. unfold fall_back, mbind, mM_bind, gets. rewrite (ov_v _ _ _ _ O). cbn [v_mode].
  destruct (bool_decide_reflect (mode = V_GENERAL)) as [Hg|Hg]; [apply negotiated_quiet, quiet_refl|].
  assert (mode = V_DEFAULT) as -> by (destruct (ov_mode _ _ _ _ O); congruence).
  destruct (nfs_try_mount_v3v2 w mi false s) as [r s1] eqn:E. destruct (v3_round _ _ _ _ _ _ O E) as [R _].
  eapply round_v3; [done|exact R|done|]. apply negotiated_quiet. destruct r; [apply quiet_refl|].
  by destruct (_ && _).
Qed.

Definition again (s : mstate) : nat := if m_errno s =? ECONNREFUSED then 1 else 0.

Lemma check_result_negotiated M fuel k mode s result :
  open_version M k mode s -> (2 * Z.to_nat k + again s < fuel)%nat ->
  exists r s', check_result w mi fuel result s = (Some r, s') /\ negotiated M k mode s s'.
Proof.
  revert k s result; induction fuel as [|fuel IH]; intros k s result O Hf; [lia|]. cbn [check_result].
  destruct result; [eexists _, _; split; [reflexivity|apply negotiated_quiet, quiet_refl]|].
  unfold mbind, mM_bind at 1, gets at 1. unfold mM_bind at 1, gets at 1. rewrite (ov_v _ _ _ _ O).
  assert (forall s, open_version M k mode s -> exists r s', (Some <$> fall_back w mi) s = (Some r, s') /\ negotiated M k mode s s') as FB.
  { intros s0 O0. unfold fmap, mM_fmap. pose proof (fall_back_negotiated _ _ _ _ O0) as H.
    destruct (fall_back w mi s0) as [r s']. eauto. }
  destruct (one_of (m_errno s) [EPROTONOSUPPORT; EINVAL; EACCES]) eqn:E1.
  - cbn [v_mode minor major]. destruct (negb _ && (0 <? k)) eqn:E2; [|by apply FB]. btrue.
    unfold mM_bind. unfold set_version at 1. set (s1 := MS _ _ _ _ _ _ _ _ _ _ _ _ _).
    assert (open_version M (k - 1) mode s1) as O1 by (destruct O; split; cbn; [done|lia|done..]).
    destruct (nfs_try_mount_v4 w mi s1) as [r s2] eqn:Em. destruct (v4_round _ _ _ _ _ _ O1 Em) as [R O2].
    destruct (IH (k - 1) s2 r O2) as (r' & s' & Ec & N); [unfold again; destruct (_ =? _); lia|].
    exists r', s'. split; [done|]. apply (negotiated_mono M (k - 1)); [lia|].
    assert (negotiated M (k - 1) mode s1 s') as N1 by (eapply round_v4; [lia|exact R|done|done]).
    by destruct N1 as [H1 ? ? ?]; split.
  - destruct (one_of (m_errno s) [ENOENT; EPERM]); [by apply FB|]. unfold again in Hf.
    destruct (m_errno s =? ECONNREFUSED) eqn:Ec; [|eexists _, _; split; [reflexivity|apply negotiated_quiet, quiet_refl]].
    cbn [v_mode]. destruct (bool_decide_reflect (mode = V_GENERAL)) as [Hg|Hg];
      [eexists _, _; split; [reflexivity|apply negotiated_quiet, quiet_refl]|].
    assert (mode = V_DEFAULT) as -> by (destruct (ov_mode _ _ _ _ O); congruence).
    unfold mM_bind, gets. destruct (nfs_try_mount_v3v2 w mi true s) as [r1 s1] eqn:E3.
    destruct (v3_round _ _ _ _ _ _ O E3) as [R1 O1].
    destruct (negb r1 && (m_errno s1 =? EAGAIN)) eqn:Ea.
    + destruct (nfs_try_mount_v4 w mi s1) as [r2 s2] eqn:E4. destruct (v4_round _ _ _ _ _ _ O1 E4) as [R2 O2].
      assert (exists r s', (if negb r2 && negb (m_errno s2 =? ECONNREFUSED) then check_result w mi fuel r2 s2 else (Some r2, s2))
                           = (Some r, s') /\ negotiated M k V_DEFAULT s2 s') as (r & s' & Er & N).
      { destruct (negb r2 && negb (m_errno s2 =? ECONNREFUSED)) eqn:Eb; [|eexists _, _; split; [reflexivity|apply negotiated_quiet, quiet_refl]].
        apply IH; [done|]. btrue. unfold again. rewrite (proj2 (Z.eqb_neq _ _)) by done. lia. }
      exists r, s'. split.
      { unfold mbind. rewrite <- Er. by destruct (negb r2 && negb (m_errno s2 =? ECONNREFUSED)). }
      eapply round_v3; [done|exact R1|done|]. eapply round_v4; [apply O|exact R2|done|done].
    + destruct r1; eexists _, _; (split; [reflexivity|]); (eapply round_v3; [done|exact R1|done|]);
        apply negotiated_quiet; by split.
Qed.


(** C16. The negotiation of the version, over every world.  When the version is left
    open, or only its major number is given, the negotiation ends, and the calls of
    mount(2) that it makes are for minor versions that never grow, from the first
    one down, each with exactly one version option that names it; in between and
    after them only versions 2 and 3 are tried, and not at all when the major
    number was given.  The options and the addresses it works on are unchanged. *)
Theorem autonegotiate_order (M k : Z) (mode : v_mode_t) (s : mstate) :
  open_version M k mode s ->
  exists r s', nfs_autonegotiate w mi s = (Some r, s') /\
    mi_options s' = mi_options s /\ mi_address s' = mi_address s /\
    exists es js, m_log s' = m_log s ++ es /\ Forall2 (call_kind M) es js /\ descend k js /\
                  (mode = V_GENERAL -> None ∉ js).
Proof.
  intros O. unfold nfs_autonegotiate, mbind, mM_bind, gets. rewrite (ov_v _ _ _ _ O). cbn [minor].
  destruct (nfs_try_mount_v4 w mi s) as [r1 s1] eqn:E. destruct (v4_round _ _ _ _ _ _ O E) as [R O1].
  destruct (check_result_negotiated M (2 * Z.to_nat k + 2) k mode s1 r1 O1) as (r & s' & Ec & N);
    [unfold again; destruct (_ =? _); lia|].
  pose proof (round_v4 M k mode (is_v4 M k) s s1 s' (ov_k _ _ _ _ O) R (fun o r H => H) N) as [H1 H2 H3 _].
  exists r, s'. repeat (split; [done|]). exact H1.
Qed.

(** ** Success is the kernel's *)

Definition succeeded (s : mstate) : Prop := r_fake mi = true \/ exists l o, m_log s = l ++ [Mount o None].
Definition honest (m : mM bool) : Prop := forall s s', m s = (true, s') -> succeeded s'.

Lemma honest_false : honest (mret false).
Proof. by intros s s' [=]. Qed.

Lemma honest_bind {A} (m : mM A) (k : A -> mM bool) : (forall a, honest (k a)) -> honest (m ≫= k).
Proof. intros H s s'. unfold mbind, mM_bind. destruct (m s) as [a s1]. apply H. Qed.

(** A test of a result whose success is reported as it is. *)
Lemma honest_test (m k : mM bool) : honest m -> honest k -> honest (r ← m; if r : bool then mret true else k).
Proof.
  intros H1 H2 s s'. unfold mbind, mM_bind. specialize (H1 s). destruct (m s) as [[|] s1]; [|apply H2].
  intros [= <-]. by apply H1.
Qed.

Lemma sys_mount_honest o : honest (nfs_sys_mount w mi o).
Proof.
  intros s s'. unfold nfs_sys_mount. destruct (r_fake mi) eqn:Ef; [intros [= <-]; by left|].
  unfold mbind, mM_bind, ask, log. destruct (allocate w s) as [[|] s1]; cbn [negb]; [|done].
  destruct (w_mount w (m_tick s1)); [done|]. intros [= <-]. right. cbn. eauto.
Qed.

Lemma do_mount_v3v2_honest sap c : honest (nfs_do_mount_v3v2 w mi sap c).
Proof.
  unfold nfs_do_mount_v3v2. apply honest_bind. intros [|]; [|apply honest_false].
  do 4 (apply honest_bind; intros ?). destruct a2; [apply sys_mount_honest|apply honest_false].
Qed.

Lemma do_mount_v4_honest sap : honest (nfs_do_mount_v4 w mi sap).
Proof.
  unfold nfs_do_mount_v4. apply honest_bind. intros [|]; [|apply honest_false].
  do 2 (apply honest_bind; intros ?). destruct (v3_only a); [apply honest_bind; intros; apply honest_false|].
  apply honest_bind. intros [o|]; [|apply honest_false].
  intros s s'. unfold mbind, mM_bind. pose proof (sys_mount_honest o s) as H.
  destruct (nfs_sys_mount w mi o s) as [[|] s1]; [|done]. intros [= <-]. specialize (H s1 eq_refl). exact H.
Qed.

Lemma try_v3v2_honest l c : honest (try_v3v2 w mi l c).
Proof.
  induction l as [|a l IH]; cbn [try_v3v2]; [apply honest_false|].
  apply honest_test; [apply do_mount_v3v2_honest|]. apply honest_bind. intros e.
  destruct (one_of e _); [exact IH|apply honest_false].
Qed.

Lemma try_v4_honest l : honest (try_v4 w mi l).
Proof.
  induction l as [|a l IH]; cbn [try_v4]; [apply honest_false|].
  apply honest_test; [apply do_mount_v4_honest|]. apply honest_bind. intros e.
  destruct (one_of e _); [exact IH|apply honest_false].
Qed.

Lemma v3v2_honest c : honest (nfs_try_mount_v3v2 w mi c).
Proof. apply honest_bind. intros. apply try_v3v2_honest. Qed.
Lemma v4_honest : honest (nfs_try_mount_v4 w mi).
Proof. apply honest_bind. intros. apply try_v4_honest. Qed.

Lemma fall_back_honest : honest (fall_back w mi).
Proof.
  unfold fall_back. apply honest_bind. intros v. destruct (bool_decide _); [apply honest_false|].
  apply honest_bind. intros e. apply honest_test; [apply v3v2_honest|].
  do 2 (apply honest_bind; intros ?). apply honest_false.
Qed.

(** The same for operations that may run out of fuel. *)
Definition honest_opt (m : mM (option bool)) : Prop := forall s s', m s = (Some true, s') -> succeeded s'.

Lemma honest_some m : honest m -> honest_opt (Some <$> m).
Proof.
  intros H s s'. unfold fmap, mM_fmap. specialize (H s). destruct (m s) as [[|] s1]; [|done]. intros [= <-]. auto.
Qed.
Lemma honest_opt_bind {A} (m : mM A) (k : A -> mM (option bool)) : (forall a, honest_opt (k a)) -> honest_opt (m ≫= k).
Proof. intros H s s'. unfold mbind, mM_bind. destruct (m s) as [a s1]. apply H. Qed.
Lemma honest_opt_false : honest_opt (mret (Some false)).
Proof. by intros s s' [=]. Qed.
Lemma honest_opt_carry (m : mM bool) (k : bool -> mM (option bool)) :
  honest m -> honest_opt (k false) ->
  (forall s s' , succeeded s -> k true s = (Some true, s') -> succeeded s') -> honest_opt (m ≫= k).
Proof.
  intros H1 H2 H3 s s'. unfold mbind, mM_bind. specialize (H1 s).
  destruct (m s) as [[|] s1]; [|apply H2]. apply H3. by apply H1.
Qed.

Lemma check_result_honest fuel : honest_opt (check_result w mi fuel false).
Proof.
  induction fuel as [|fuel IH]; [done|]. cbn [check_result].
  assert (forall s s', succeeded s -> check_result w mi fuel true s = (Some true, s') -> succeeded s') as IH'.
  { intros s s' H. destruct fuel; [done|]. by intros [= <-]. }
  apply honest_opt_bind. intros e. apply honest_opt_bind. intros v.
  destruct (one_of e _).
  { destruct (_ && _); [|apply honest_some, fall_back_honest].
    apply honest_opt_bind. intros []. apply honest_opt_carry; [apply v4_honest|exact IH|exact IH']. }
  destruct (one_of e _); [apply honest_some, fall_back_honest|].
  destruct (e =? ECONNREFUSED); [|apply honest_opt_false]. destruct (bool_decide _); [apply honest_opt_false|].
  apply honest_opt_carry; [apply v3v2_honest| |].
  - apply honest_opt_bind. intros e1. cbn [negb andb]. destruct (e1 =? EAGAIN).
    + apply honest_opt_carry; [apply v4_honest| |].
      * apply honest_opt_bind. intros e2. cbn [negb andb]. destruct (negb _); [exact IH|apply honest_opt_false].
      * intros s s' H. by intros [= <-].
    + apply honest_opt_bind. intros []. apply honest_opt_false.
  - intros s s' H. by intros [= <-].
Qed.

Lemma try_mount_honest : honest_opt (nfs_try_mount w mi).
Proof.
  unfold nfs_try_mount. apply honest_opt_bind. intros l. apply honest_opt_bind. intros [|]; cbn [negb]; [|apply honest_opt_false].
  apply honest_opt_bind. intros v. destruct (major v =? 3); [apply honest_some, v3v2_honest|].
  destruct (major v =? 4); [|apply honest_opt_bind; intros []; apply honest_opt_false].
  destruct (bool_decide _); [apply honest_some, v4_honest|].
  unfold nfs_autonegotiate. apply honest_opt_bind. intros v'.
  apply honest_opt_carry; [apply v4_honest|apply check_result_honest|].
  intros s s' H. replace (2 * Z.to_nat (minor v') + 2)%nat with (S (2 * Z.to_nat (minor v') + 1)) by lia.
  by intros [= <-].
Qed.

End negotiate.

(** ** A world *)

Definition nc_tcp : netconfig := NC $"tcp" NC_INET $"tcp".
Definition nc_udp : netconfig := NC $"udp" NC_INET $"udp".
Definition netdb_ex : netdb :=
  NetDb [nc_udp; nc_tcp]
    (fun id => if streq id $"tcp" then Some nc_tcp else if streq id $"udp" then Some nc_udp else None)
    (fun name => if streq name $"tcp" then Some IPPROTO_TCP else if streq name $"udp" then Some IPPROTO_UDP else None)
    (fun p => if p =? IPPROTO_TCP then Some $"tcp" else if p =? IPPROTO_UDP then Some $"udp" else None)
    id F_INET.

Definition addr_ex : sockaddr := AF_INET 0x0a000001.

(** A server at 10.0.0.1: the kernel answers the n-th question [mnt n]; the clock
    counts the questions. *)
Definition world_ex (mnt : nat -> option Z) : world :=
  World (fun _ => true) mnt (fun _ => (2049, RpcErr RPC_SUCCESS 0)) (fun _ => (true, RpcErr RPC_SUCCESS 0))
    (fun _ => true) Z.of_nat (fun _ => false) (fun _ => inl (AI addr_ex [] None))
    (fun _ _ _ => inl addr_ex) (fun _ _ => Some (AF_INET 0x0a000002)) (fun _ => false)
    (fun _ => inl $"10.0.0.1") (fun _ => Some addr_ex) netdb_ex 0x060000 6 0 (NV 4 2 V_DEFAULT).

Definition request_ex : request := Request $"server:/export" $"/mnt" $"nfs" 0 false false.
Definition state_ex (o : opts) (v : nfs_version) : mstate :=
  MS 0 [] 0 (RpcErr RPC_SUCCESS 0) 0 0 0 o v [addr_ex] (Some $"server") F_INET [].

(** The minor version of each call of mount(2), and its result. *)
Definition calls (s : mstate) : list (option cstr * option Z) :=
  omap (fun e => match e with Mount o r => Some (o_get o $"vers", r) | Sleep _ => None end) (m_log s).

(** A server without minor versions 2 and 1. *)
Definition old_server (n : nat) : option Z := if (n <? 20)%nat then Some EPROTONOSUPPORT else None.

Lemma autonegotiate_order_witness :
  calls (nfs_autonegotiate (world_ex old_server) request_ex (state_ex [MOpt $"soft" None] (NV 4 2 V_DEFAULT))).2 =
    [(Some $"4.2", Some EPROTONOSUPPORT); (Some $"4,minorversion=1", Some EPROTONOSUPPORT); (Some $"4", None)] /\
  exists r s', nfs_autonegotiate (world_ex old_server) request_ex (state_ex [MOpt $"soft" None] (NV 4 2 V_DEFAULT)) = (Some r, s') /\
    mi_options s' = [MOpt $"soft" None] /\ mi_address s' = [addr_ex] /\
    exists es js, m_log s' = [] ++ es /\ Forall2 (call_kind 4) es js /\ descend 2 js /\ (V_DEFAULT = V_GENERAL -> None ∉ js).
Proof.
  split; [vm_compute; reflexivity|].
  apply (autonegotiate_order (world_ex old_server) request_ex 4 2 V_DEFAULT (state_ex [MOpt $"soft" None] (NV 4 2 V_DEFAULT))).
  split; [reflexivity|lia|by left|reflexivity|reflexivity].
Defined.
