(* ===== verification/MountRun.v ===== *)
(** * What a run of the mount command does (properties of [Stropts])

    Over every world: which options reach mount(2), when the retries end, and that
    the option string written after the negotiation reads back as what was
    negotiated. *)

From S2P Require Import Prelude Heap Token ParseOpt ParseDev Client MntOpts Probe Stropts Negotiate.

(** ** Which options reach the kernel *)

(** Setting up: nothing is done outside, and only managed options change. *)
Record set_up (s s' : mstate) : Prop := SetUp
  { u_log : m_log s' = m_log s; u_addr : mi_address s' = mi_address s;
    u_opts : same_but managed (mi_options s) (mi_options s');
    u_no_addr : with_keyword $"addr" (mi_options s) = [] -> with_keyword $"addr" (mi_options s') = [] }.

Lemma set_up_refl s : set_up s s.
Proof. by split. Qed.
Lemma set_up_trans s1 s2 s3 : set_up s1 s2 -> set_up s2 s3 -> set_up s1 s3.
Proof. intros [] []. split; [congruence|congruence|by eapply same_but_trans|auto]. Qed.
Lemma set_up_quiet s s' : quiet s s' -> set_up s s'.
Proof. intros [? Ho ????]. split; [done|done|by rewrite Ho|by rewrite Ho]. Qed.

Definition prepares {A} (m : mM A) : Prop := forall s, set_up s (m s).2.

Lemma prepares_bind {A B} (m : mM A) (k : A -> mM B) : prepares m -> (forall a, prepares (k a)) -> prepares (m ≫= k).
Proof.
  intros H1 H2 s. unfold mbind, mM_bind. specialize (H1 s). destruct (m s) as [a s1]. cbn in H1.
  eapply set_up_trans; [exact H1|apply H2].
Qed.
Lemma prepares_still {A} (m : mM A) : still m -> prepares m.
Proof. intros H s. apply set_up_quiet, H. Qed.
Lemma prepares_version v : prepares (set_version v).
Proof. intros s. by split. Qed.

(** An edit of managed options. *)
Lemma prepares_edit (f : opts -> opts) ks :
  ks ⊆ managed -> $"addr" ∉ ks -> (forall o, same_but ks o (f o)) -> prepares (edit_options f).
Proof.
  intros Hs Ha Hf s. split; [done|done|by eapply same_but_mono|].
  intros E. cbn [edit_options set_options snd mi_options]. by rewrite (same_but_keyword ks (mi_options s) _ _ (Hf _) Ha).
Qed.

Section kernel.
  Context (w : world) (mi : request).

Lemma default_version_prepares : prepares (nfs_default_version w).
Proof.
  unfold nfs_default_version. apply prepares_bind; [apply prepares_still; still|]. intros v.
  cbv zeta. repeat match goal with |- prepares (if ?b then _ else _) => destruct b end; apply prepares_version.
Qed.

Lemma set_version_prepares : prepares (nfs_set_version w mi).
Proof.
  unfold nfs_set_version. do 2 (apply prepares_bind; [apply prepares_still; still|intros ?]).
  destruct (nfs_nfs_version (r_type mi) _ _) as [ok v]. apply prepares_bind; [apply prepares_version|]. intros [].
  destruct ok; cbn [negb]; [|apply prepares_still; still]. cbv zeta.
  apply prepares_bind; [apply prepares_version|]. intros []. apply prepares_bind.
  - destruct (bool_decide _); [apply prepares_still; still|]. apply prepares_bind; [apply default_version_prepares|]. intros [].
    apply (prepares_edit _ [$"v4"; $"vers"; $"nfsvers"]); [keys|keys|].
    intros o. apply (same_but_remove_all _ o [$"v4"; $"vers"; $"nfsvers"]). keys.
  - intros []. apply prepares_still. still.
Qed.

Lemma sloppy_prepares : prepares (nfs_insert_sloppy_option w).
Proof.
  unfold nfs_insert_sloppy_option. destruct (_ <? _); [apply prepares_still; still|].
  do 2 (apply prepares_bind; [apply prepares_still; still|intros ?]). apply prepares_bind.
  - destruct (o_has _ _); [|apply prepares_still; still]. apply prepares_bind; [|intros [] s; by split].
    apply (prepares_edit _ [$"sloppy"]); [keys|keys|]. intros o. apply same_but_remove. keys.
  - intros []. apply prepares_bind; [apply prepares_still; still|]. intros n. destruct (n =? 0); [apply prepares_still; still|].
    apply prepares_bind; [apply prepares_still; still|]. intros [|]; [|apply prepares_still; still].
    apply prepares_bind; [|intros []; apply prepares_still; still].
    apply (prepares_edit _ [$"sloppy"]); [keys|keys|]. intros o. unfold same_but, o_insert. by rewrite filter_cons_False by (intros Hn; apply Hn; keys).
Qed.

Lemma validate_set_up s ok s' :
  nfs_validate_options w mi s = (ok, s') ->
  m_log s' = m_log s /\ mi_address s' = mi_address s /\ same_but managed (mi_options s) (mi_options s') /\
  (ok = true -> with_keyword $"addr" (mi_options s') = []).
Proof.
  unfold nfs_validate_options. unfold mbind at 1, mM_bind at 1.
  assert (still (if remount mi then mret (Some None) else fmap Some <$> devname_host w (r_spec mi) : mM (option (option cstr)))) as Hst.
  { destruct (remount mi); [still|]. intros s1. unfold fmap at 1, mM_fmap.
    assert (still (devname_host w (r_spec mi))) as Hd by (unfold devname_host; still). specialize (Hd s1).
    by destruct (devname_host w (r_spec mi) s1). }
  specialize (Hst s). destruct (_ s) as [host s1]. cbn in Hst. destruct Hst as [E1 E2 _ E4 _ _].
  destruct host as [host|]; [|intros [= <- <-]; by rewrite E1, E2, E4].
  unfold mbind at 1, mM_bind at 1, gets at 1. destruct (nfs_nfs_proto_family _ _) as [f|];
    [|intros [= <- <-]; cbn; by rewrite E1, E2, E4].
  unfold mbind at 1, mM_bind at 1. unfold set_server at 1. unfold mbind at 1, mM_bind at 1. unfold edit_options at 1, set_options at 1. cbn [mi_options m_tick m_log m_errno m_rpc prev_error rpt_cnt sloppy mi_version mi_address mi_hostname mi_family extra_opts].
  set (s2 := MS _ _ _ _ _ _ _ _ _ _ _ _ _).
  assert (prepares (ok ← nfs_set_version w mi; if ok : bool then nfs_insert_sloppy_option w else mret false)) as P.
  { apply prepares_bind; [apply set_version_prepares|]. intros [|]; [apply sloppy_prepares|apply prepares_still; still]. }
  specialize (P s2). intros E. unfold mbind in P. fold (mM_bind) in E. unfold mbind in E. rewrite E in P. cbn in P.
  destruct P as [L A O N]. cbn in L, A. rewrite L, A, E1, E4. split; [done|]. split; [done|]. split.
  - eapply same_but_trans; [|exact O]. cbn. rewrite E2. apply same_but_remove. keys.
  - intros _. apply N. cbn. apply with_keyword_remove.
Qed.

(** An address that the name service gave for the server. *)
Definition resolved (sap : sockaddr) : Prop := exists n ai, w_gai w n = inl ai /\ sap ∈ ai_addrs ai.

(** What is handed to the kernel: the user's options but for the managed ones, in
    their order, and one address option with an address of the server. *)
Definition good_call (o0 o : opts) : Prop :=
  same_but managed o0 o /\ exists sap, resolved sap /\ addressed w sap o.

Definition good_event (o0 : opts) (e : event) : Prop := match e with Mount o _ => good_call o0 o | Sleep _ => True end.

Record sound (o0 : opts) (s : mstate) : Prop := Sound
  { so_log : Forall (good_event o0) (m_log s); so_opts : same_but managed o0 (mi_options s);
    so_addr : Forall resolved (mi_address s) }.

Definition keeps {A} (o0 : opts) (m : mM A) : Prop := forall s, sound o0 s -> sound o0 (m s).2.

Lemma keeps_bind {A B} o0 (m : mM A) (k : A -> mM B) : keeps o0 m -> (forall a, keeps o0 (k a)) -> keeps o0 (m ≫= k).
Proof. intros H1 H2 s Hs. unfold mbind, mM_bind. specialize (H1 s Hs). destruct (m s). by apply H2. Qed.
Lemma keeps_fmap {A B} o0 (f : A -> B) (m : mM A) : keeps o0 m -> keeps o0 (f <$> m).
Proof. intros H s Hs. unfold fmap, mM_fmap. specialize (H s Hs). by destruct (m s). Qed.
Lemma keeps_still {A} o0 (m : mM A) : still m -> keeps o0 m.
Proof. intros H s [L O A']. specialize (H s) as [E1 E2 _ E4 _ _]. split; by rewrite ?E1, ?E2, ?E4. Qed.
Lemma keeps_round o0 P s s' : (forall o, P o -> good_call o0 o) -> round P s s' -> sound o0 s -> sound o0 s'.
Proof.
  intros H [(l & E & F) E2 E3 _ _] [L O A']. split; [|by rewrite E2|by rewrite E3].
  rewrite E. apply Forall_app. split; [done|]. eapply Forall_impl; [exact F|]. intros [o r|n]; cbn; auto.
Qed.
Lemma keeps_version o0 v : keeps o0 (set_version v).
Proof. by intros s []. Qed.

Lemma keeps_v3v2 o0 c : keeps o0 (nfs_try_mount_v3v2 w mi c).
Proof.
  intros s Hs. destruct (try_v3v2_rounds w mi (good_call o0) (mi_address s) c s) as [R _].
  { intros sap o Hin (A' & S' & _). split; [eapply same_but_trans; [apply Hs|done]|].
    exists sap. split; [|done]. apply (proj1 (Forall_forall _ _) (so_addr _ _ Hs)). done. }
  eapply keeps_round; [|exact R|done]. done.
Qed.

Lemma keeps_v4 o0 : keeps o0 (nfs_try_mount_v4 w mi).
Proof.
  intros s Hs. destruct (try_v4_rounds w mi (good_call o0) (mi_address s) s) as [R _].
  { intros sap o Hin (A' & S' & _). split; [eapply same_but_trans; [apply Hs|done]|].
    exists sap. split; [|done]. apply (proj1 (Forall_forall _ _) (so_addr _ _ Hs)). done. }
  eapply keeps_round; [|exact R|done]. done.
Qed.
Hint Resolve keeps_v3v2 keeps_v4 keeps_version : quiet.

Ltac keep :=
  repeat first
    [ solve [eauto with quiet]
    | solve [apply keeps_still; still]
    | apply keeps_fmap
    | apply keeps_bind; [|intros ?]
    | match goal with |- keeps _ (match ?x with _ => _ end) => destruct x end ].

Lemma keeps_fall_back o0 : keeps o0 (fall_back w mi).
Proof. unfold fall_back. keep. Qed.
Hint Resolve keeps_fall_back : quiet.

Lemma keeps_check o0 fuel r : keeps o0 (check_result w mi fuel r).
Proof. revert r; induction fuel; intros; cbn [check_result]; keep. Qed.
Hint Resolve keeps_check : quiet.

(** The server's addresses, looked up once. *)
Lemma keeps_resolve o0 : keeps o0
  (r ← ask (w_gai w);
   match r with
   | inr again => _ ← set_errno (if again : bool then EAGAIN else EALREADY); mret false
   | inl address =>
       o ← gets mi_options;
       _ ← edit_options (fun o => o_remove o $"addr");
       r ← nfs_append_addr_option w (ai_addr address) o;
       match r with
       | None => _ ← set_errno ENOMEM; mret false
       | Some o => _ ← set_options o; _ ← set_address (ai_addrs address); mret true
       end
   end).
Proof.
  intros s Hs. unfold mbind at 1, mM_bind at 1. unfold ask at 1.
  set (s1 := MS _ _ _ _ _ _ _ _ _ _ _ _ _). assert (sound o0 s1) as H1 by (by destruct Hs).
  assert (mi_options s1 = mi_options s) as E1 by done. clearbody s1.
  destruct (w_gai w (m_tick s)) as [ai|e] eqn:Eg; [|by apply keeps_still; [still|]].
  unfold mbind at 1, mM_bind at 1, gets at 1. unfold mbind at 1, mM_bind at 1. unfold edit_options at 1, set_options at 1.
  set (s2 := MS _ _ _ _ _ _ _ _ _ _ _ _ _).
  assert (sound o0 s2) as H2.
  { destruct H1. split; cbn; try done. eapply same_but_trans; [done|]. apply same_but_remove. keys. }
  clearbody s2. pose proof (still_addr w (ai_addr ai) (mi_options s1) s2) as Q.
  pose proof (addr_yields w (ai_addr ai) (mi_options s1) s2) as Y.
  unfold mbind at 1, mM_bind at 1. destruct (nfs_append_addr_option w (ai_addr ai) (mi_options s1) s2) as [[o|] s3]; cbn [snd fst] in *.
  - destruct (Y o eq_refl) as [_ S']. destruct H2 as [L O A']. destruct Q as [E2 E3 _ E4 _ _]. unfold mbind, mM_bind, set_options, set_address. split; cbn.
    + by rewrite E2.
    + eapply same_but_trans; [apply H1|]. apply (managed_of _ _ _ S'). keys.
    + apply Forall_forall. intros sap Hin. by exists (m_tick s), ai.
  - apply keeps_still; [still|]. destruct H2 as [L O A']. destruct Q as [E2 E3 _ E4 _ _]. split; by rewrite ?E2, ?E3, ?E4.
Qed.
Hint Resolve keeps_resolve : quiet.

Lemma keeps_try_mount o0 : keeps o0 (nfs_try_mount w mi).
Proof. unfold nfs_try_mount, nfs_autonegotiate. keep. Qed.
Hint Resolve keeps_try_mount : quiet.

Lemma keeps_permanent o0 e : keeps o0 (nfs_is_permanent_error e).
Proof. unfold nfs_is_permanent_error. keep. by intros s []. Qed.
Lemma keeps_nap o0 secs limit : keeps o0 (nap w secs limit).
Proof.
  unfold nap. apply keeps_bind; [keep|]. intros c. apply keeps_bind; [|intros; keep].
  intros s []. split; cbn; try done. apply Forall_app. by repeat constructor.
Qed.
Hint Resolve keeps_permanent keeps_nap : quiet.

Lemma keeps_fg o0 fuel timeout secs : keeps o0 (fg_loop w mi fuel timeout secs).
Proof. revert secs; induction fuel; intros; cbn [fg_loop]; keep. Qed.
Lemma keeps_bg o0 fuel timeout secs : keeps o0 (bg_loop w mi fuel timeout secs).
Proof. revert secs; induction fuel; intros; cbn [bg_loop]; keep. Qed.
Hint Resolve keeps_fg keeps_bg : quiet.

Lemma still_retry o d : still (nfs_parse_retry_option w o d).
Proof. unfold nfs_parse_retry_option. cbv zeta. still. Qed.
Hint Resolve still_retry : quiet.

Lemma keeps_mounting o0 fuel (o : opts) :
  keeps o0 (if o_rightmost o nfs_background_opttbl =? 0 then nfsmount_bg w mi fuel else nfsmount_fg w mi fuel).
Proof. unfold nfsmount_bg, nfsmount_fg, nfsmount_child, nfsmount_parent. keep. intros s Hs. by apply keeps_permanent. Qed.

(** The options given to the command, after the set-up. *)
Lemma nfsmount_start_calls fuel o0 s :
  m_log s = [] -> mi_address s = [] -> mi_options s = o0 ->
  forall o res, Mount o res ∈ m_log (nfsmount_start w mi fuel s).2 ->
  if remount mi then same_but managed o0 o /\ with_keyword $"addr" o = [] else good_call o0 o.
Proof.
  intros El Ea Eo o res. unfold nfsmount_start. unfold mbind at 1, mM_bind at 1.
  destruct (nfs_validate_options w mi s) as [ok s1] eqn:E. destruct (validate_set_up s ok s1 E) as (L & A' & O & N).
  rewrite Eo in O. rewrite El in L. rewrite Ea in A'.
  assert (Mount o res ∉ ([] : list event)) as Hnil by apply not_elem_of_nil.
  destruct ok; cbn [negb]; [|cbn; rewrite L; done]. unfold mbind at 1, mM_bind at 1, gets at 1.
  destruct (major _ =? 2); [cbn; rewrite L; done|]. destruct (remount mi).
  - unfold nfs_remount. unfold mbind at 1, mM_bind at 1, gets at 1.
    pose proof (sys_mount_rounds w mi (eq (mi_options s1)) (mi_options s1) s1 eq_refl) as [(l & El' & F) _ _ _ _].
    unfold mbind, mM_bind. destruct (nfs_sys_mount w mi (mi_options s1) s1) as [r s2]. cbn in *.
    rewrite El', L. cbn. intros Hin. apply (proj1 (Forall_forall _ _) F) in Hin. cbn in Hin. subst o. auto.
  - assert (sound o0 s1) as Hs by (split; [by rewrite L|done|by rewrite A']).
    intros Hin. unfold mbind, mM_bind, gets in Hin.
    pose proof (so_log _ _ (keeps_mounting o0 fuel (mi_options s1) s1 Hs)) as F.
    apply (proj1 (Forall_forall _ _) F) in Hin. exact Hin.
Qed.

(** C12. Which options reach the kernel, over every world: whatever the name service,
    the server and the kernel answer, and however often the mount is retried, every
    call of mount(2) passes the options the user gave, in their order, except for
    those the command manages, and exactly one address option, whose value is the
    text of an address that the name service gave for the server; an address
    option of the user never gets through.  A remount passes no address. *)
Theorem nfsmount_string_calls (fuel : nat) (extra : cstr) (o0 : opts) (s : mstate) :
  o_split extra = Some o0 -> m_log s = [] ->
  forall o res, Mount o res ∈ m_log (nfsmount_string w mi fuel extra s).2 ->
  if remount mi then same_but managed o0 o /\ with_keyword $"addr" o = [] else good_call o0 o.
Proof.
  intros Es El o res. unfold nfsmount_string. unfold mbind at 1, mM_bind at 1. rewrite Es.
  pose proof (still_allocate w s) as [Q1 _ _ _ _ _]. destruct (allocate w s) as [[|] s1]; cbn [snd] in Q1.
  - apply nfsmount_start_calls; cbn; congruence.
  - cbn. rewrite Q1, El. intros H. by apply elem_of_nil in H.
Qed.

End kernel.

(** ** The retries *)

Definition is_mount (e : event) : Prop := match e with Mount _ _ => True | Sleep _ => False end.

(** Time has not gone back, and only mount(2) was called. *)
Definition worked (s s' : mstate) : Prop :=
  (m_tick s <= m_tick s')%nat /\ exists l, m_log s' = m_log s ++ l /\ Forall is_mount l.

Lemma worked_refl s : worked s s.
Proof. split; [done|]. exists []. by rewrite app_nil_r. Qed.
Lemma worked_trans s1 s2 s3 : worked s1 s2 -> worked s2 s3 -> worked s1 s3.
Proof.
  intros [T1 (l1 & E1 & F1)] [T2 (l2 & E2 & F2)]. split; [lia|]. exists (l1 ++ l2).
  rewrite E2, E1, app_assoc. split; [done|]. by apply Forall_app.
Qed.
Lemma worked_round P s s' : round P s s' -> worked s s'.
Proof.
  intros [(l & E & F) _ _ _ T]. split; [done|]. exists l. split; [done|].
  eapply Forall_impl; [exact F|]. by intros [].
Qed.

Definition works {A} (m : mM A) : Prop := forall s, worked s (m s).2.

Lemma works_bind {A B} (m : mM A) (k : A -> mM B) : works m -> (forall a, works (k a)) -> works (m ≫= k).
Proof.
  intros H1 H2 s. unfold mbind, mM_bind. specialize (H1 s). destruct (m s) as [a s1]. cbn in H1.
  eapply worked_trans; [exact H1|apply H2].
Qed.
Lemma works_fmap {A B} (f : A -> B) (m : mM A) : works m -> works (f <$> m).
Proof. intros H s. unfold fmap, mM_fmap. specialize (H s). by destruct (m s). Qed.
Lemma works_still {A} (m : mM A) : still m -> works m.
Proof. intros H s. eapply (worked_round (fun _ => True)), round_quiet, H. Qed.
Lemma works_set {A} (m : mM A) : (forall s, m_tick (m s).2 = m_tick s /\ m_log (m s).2 = m_log s) -> works m.
Proof. intros H s. destruct (H s) as [E1 E2]. split; [lia|]. exists []. by rewrite app_nil_r. Qed.

Section retry.
  Context (w : world) (mi : request).

Lemma works_v3v2 c : works (nfs_try_mount_v3v2 w mi c).
Proof.
  intros s. destruct (try_v3v2_rounds w mi (fun _ => True) (mi_address s) c s) as [R _]; [done|].
  by eapply worked_round.
Qed.
Lemma works_v4 : works (nfs_try_mount_v4 w mi).
Proof.
  intros s. destruct (try_v4_rounds w mi (fun _ => True) (mi_address s) s) as [R _]; [done|].
  by eapply worked_round.
Qed.
Lemma works_version v : works (set_version v).
Proof. by apply works_set. Qed.
Hint Resolve works_v3v2 works_v4 works_version : quiet.

Ltac work :=
  repeat first
    [ solve [eauto with quiet]
    | solve [apply works_still; still]
    | solve [by apply works_set]
    | apply works_fmap
    | apply works_bind; [|intros ?]
    | match goal with |- works (match ?x with _ => _ end) => destruct x end ].

Lemma works_check fuel r : works (check_result w mi fuel r).
Proof. revert r; induction fuel; intros; cbn [check_result]; unfold fall_back; work. Qed.
Hint Resolve works_check : quiet.

Lemma works_try_mount : works (nfs_try_mount w mi).
Proof. unfold nfs_try_mount, nfs_autonegotiate. work. Qed.

(** The negotiation has fuel enough in every state. *)
Lemma v4_keeps_version s r s' : nfs_try_mount_v4 w mi s = (r, s') -> mi_version s' = mi_version s.
Proof.
  unfold nfs_try_mount_v4, mbind, mM_bind, gets. intros E.
  destruct (try_v4_rounds w mi (fun _ => True) (mi_address s) s) as [_ V]; [done|]. by rewrite E in V.
Qed.
Lemma v3v2_keeps_version c s r s' : nfs_try_mount_v3v2 w mi c s = (r, s') -> mi_version s' = mi_version s.
Proof.
  unfold nfs_try_mount_v3v2, mbind, mM_bind, gets. intros E.
  destruct (try_v3v2_rounds w mi (fun _ => True) (mi_address s) c s) as [_ V]; [done|]. by rewrite E in V.
Qed.

Lemma check_result_total fuel s result :
  (2 * Z.to_nat (minor (mi_version s)) + again s < fuel)%nat -> exists r, (check_result w mi fuel result s).1 = Some r.
Proof.
  revert s result; induction fuel as [|fuel IH]; intros s result Hf; [lia|]. cbn [check_result].
  destruct result; [by eexists|]. unfold mbind, mM_bind at 1, gets at 1. unfold mM_bind at 1, gets at 1.
  assert (exists r, ((Some <$> fall_back w mi : mM (option bool)) s).1 = Some r) as FB.
  { unfold fmap, mM_fmap. destruct (fall_back w mi s). by eexists. }
  destruct (one_of (m_errno s) [EPROTONOSUPPORT; EINVAL; EACCES]).
  - destruct (negb _ && (0 <? _)) eqn:E2; [|exact FB]. btrue. unfold mM_bind. unfold set_version at 1.
    set (s1 := MS _ _ _ _ _ _ _ _ _ _ _ _ _). destruct (nfs_try_mount_v4 w mi s1) as [r s2] eqn:E.
    apply v4_keeps_version in E. apply IH. rewrite E. cbn. unfold again. destruct (m_errno s2 =? _); lia.
  - destruct (one_of (m_errno s) [ENOENT; EPERM]); [exact FB|]. unfold again in Hf.
    destruct (m_errno s =? ECONNREFUSED); [|by eexists]. destruct (bool_decide _); [by eexists|].
    unfold mM_bind, gets. destruct (nfs_try_mount_v3v2 w mi true s) as [r1 s1] eqn:E1. apply v3v2_keeps_version in E1.
    destruct (negb r1 && (m_errno s1 =? EAGAIN)); [|destruct r1; by eexists].
    destruct (nfs_try_mount_v4 w mi s1) as [r2 s2] eqn:E2. apply v4_keeps_version in E2.
    destruct (negb r2 && negb (m_errno s2 =? ECONNREFUSED)) eqn:Eb; [|by eexists]. btrue.
    apply IH. unfold again. rewrite (proj2 (Z.eqb_neq _ _)) by done. rewrite E2, E1. lia.
Qed.

Lemma try_mount_total s : exists r, (nfs_try_mount w mi s).1 = Some r.
Proof.
  unfold nfs_try_mount. unfold mbind at 1, mM_bind at 1, gets at 1. unfold mbind at 1, mM_bind at 1.
  destruct (_ s) as [[|] s1]; cbn [negb]; [|by eexists]. unfold mbind at 1, mM_bind at 1, gets at 1.
  destruct (major _ =? 3); [unfold fmap, mM_fmap; destruct (nfs_try_mount_v3v2 w mi false s1); by eexists|].
  destruct (major _ =? 4); [|by eexists].
  destruct (bool_decide _); [unfold fmap, mM_fmap; destruct (nfs_try_mount_v4 w mi s1); by eexists|].
  unfold nfs_autonegotiate, mbind, mM_bind, gets. destruct (nfs_try_mount_v4 w mi s1) as [r s2] eqn:E.
  apply v4_keeps_version in E. apply check_result_total. rewrite E. unfold again. destruct (_ =? _); lia.
Qed.

(** The times slept: doubled up to a limit. *)
Fixpoint nap_times (n : nat) (secs limit : Z) : list Z :=
  match n with O => [] | S n => secs :: nap_times n (Z.min (2 * secs) limit) limit end.

Definition sleeps (l : list event) : list Z := omap (fun e => match e with Sleep n => Some n | _ => None end) l.

Lemma sleeps_mounts l : Forall is_mount l -> sleeps l = [].
Proof. induction 1 as [|[] l Hl _ IH]; done. Qed.

Lemma worked_sleeps s s' : worked s s' -> sleeps (m_log s') = sleeps (m_log s).
Proof. intros [_ (l & -> & F)]. unfold sleeps. rewrite omap_app. fold (sleeps l). by rewrite (sleeps_mounts l F), app_nil_r. Qed.

Lemma nap_next secs limit : 1 <= secs <= limit -> limit <= 120 ->
  (if limit <? u32 (Z.shiftl secs 1) then limit else u32 (Z.shiftl secs 1)) = Z.min (2 * secs) limit /\
  1 <= Z.min (2 * secs) limit <= limit.
Proof.
  intros H1 H2. rewrite Z.shiftl_mul_pow2 by lia. change (2 ^ 1) with 2. rewrite u32_id by lia.
  destruct (limit <? secs * 2) eqn:E; btrue; lia.
Qed.

(** The end of a loop from a state: why it ended, and what it slept. *)
Definition ended (limit secs : Z) (s : mstate) (r : option Z * mstate) : Prop :=
  exists code n, r.1 = Some code /\ (code = EX_SUCCESS \/ code = EX_FAIL) /\
    (code = EX_SUCCESS -> succeeded mi r.2 \/ exists n, w_is_mountpoint w n = true) /\
    sleeps (m_log r.2) = sleeps (m_log s) ++ nap_times n secs limit.

Lemma ended_now limit secs s s' code :
  worked s s' -> code = EX_SUCCESS \/ code = EX_FAIL ->
  (code = EX_SUCCESS -> succeeded mi s' \/ exists n, w_is_mountpoint w n = true) -> ended limit secs s (Some code, s').
Proof. intros H Hc Hs. exists code, 0%nat. cbn. by rewrite app_nil_r, (worked_sleeps _ _ H). Qed.

Lemma ended_worked limit secs s s1 r : worked s s1 -> ended limit secs s1 r -> ended limit secs s r.
Proof. intros H (c & n & H1 & H2 & H3 & H4). exists c, n. by rewrite <- (worked_sleeps _ _ H). Qed.

Lemma ended_slept limit secs s s1 r :
  sleeps (m_log s1) = sleeps (m_log s) ++ [secs] -> ended limit (Z.min (2 * secs) limit) s1 r -> ended limit secs s r.
Proof. intros H (c & n & H1 & H2 & H3 & H4). exists c, (S n). repeat (split; [done|]). rewrite H4, H, <- app_assoc. done. Qed.

Lemma ended_cut limit secs s s1 :
  sleeps (m_log s1) = sleeps (m_log s) ++ [secs] -> ended limit secs s (Some EX_FAIL, s1).
Proof. intros H. exists EX_FAIL, 1%nat. split; [done|]. split; [by right|]. split; [done|]. exact H. Qed.

Lemma nap_run secs limit s :
  1 <= secs <= limit -> limit <= 120 ->
  exists c s', nap w secs limit s = ((c, Z.min (2 * secs) limit), s') /\ m_tick s' = S (m_tick s) /\
    sleeps (m_log s') = sleeps (m_log s) ++ [secs] /\ 1 <= Z.min (2 * secs) limit <= limit.
Proof.
  intros H1 H2. destruct (nap_next secs limit H1 H2) as [E R]. eexists _, _. split.
  { unfold nap, mbind, mM_bind, ask, log, mret, mM_ret. cbn [m_tick m_log]. rewrite E. reflexivity. }
  split; [done|]. split; [|done]. cbn. unfold sleeps. by rewrite omap_app.
Qed.

Lemma busy_run e s b s' :
  (if e =? EBUSY then ask (w_is_mountpoint w) else mret false : mM bool) s = (b, s') ->
  worked s s' /\ (b = true -> exists n, w_is_mountpoint w n = true).
Proof.
  intros E. split.
  - change s' with (b, s').2. rewrite <- E. apply works_still. destruct (e =? EBUSY); still.
  - intros ->. destruct (e =? EBUSY); [|done]. injection E as E _. by eexists.
Qed.

Lemma permanent_run e s b s' : nfs_is_permanent_error e s = (b, s') -> worked s s'.
Proof.
  intros E. change s' with (b, s').2. rewrite <- E.
  assert (works (nfs_is_permanent_error e)) as H by (unfold nfs_is_permanent_error; work). apply H.
Qed.

(** A turn of a loop: it ends, or goes on after a look at the clock. *)
Definition turn (limit timeout secs : Z) (s : mstate) (r : option Z * mstate) (next : Z -> mM (option Z)) : Prop :=
  ended limit secs s r \/
  exists n s' secs', (m_tick s <= n < m_tick s')%nat /\ w_time w n <= timeout /\ 1 <= secs' <= limit /\
    r = next secs' s' /\ (forall r, ended limit secs' s' r -> ended limit secs s r).

Lemma fg_turn timeout fuel secs s :
  1 <= secs <= 10 -> turn 10 timeout secs s (fg_loop w mi (S fuel) timeout secs s) (fg_loop w mi fuel timeout).
Proof.
  intros Hs. cbn [fg_loop]. unfold mbind at 1, mM_bind at 1. destruct (try_mount_total s) as [r Er].
  pose proof (works_try_mount s) as W. pose proof (try_mount_honest w mi s) as Hh.
  destruct (nfs_try_mount w mi s) as [r' s1]. cbn [fst snd] in *. subst r'. destruct r.
  { left. apply ended_now; [done|by left|intros _; left; by apply Hh]. }
  unfold mbind at 1, mM_bind at 1, gets at 1. unfold mbind at 1, mM_bind at 1.
  destruct ((if m_errno s1 =? EBUSY then ask (w_is_mountpoint w) else mret false : mM bool) s1) as [b s2] eqn:Eb. apply busy_run in Eb as [W2 Hm].
  pose proof (worked_trans _ _ _ W W2) as W3. destruct b; [left; apply ended_now; [done|by left|intros _; right; by apply Hm]|].
  unfold mbind at 1, mM_bind at 1. destruct (nfs_is_permanent_error (m_errno s1) s2) as [b s3] eqn:Ep.
  apply permanent_run in Ep. pose proof (worked_trans _ _ _ W3 Ep) as W4.
  destruct b; [left; apply ended_now; [done|by right|done]|]. unfold mbind at 1, mM_bind at 1. unfold ask at 1.
  set (s4 := MS _ _ _ _ _ _ _ _ _ _ _ _ _).
  assert (worked s3 s4) as W5 by (split; [cbn; lia|exists []; by rewrite app_nil_r]).
  pose proof (worked_trans _ _ _ W4 W5) as W6. assert (m_tick s4 = S (m_tick s3)) as T4 by done. clearbody s4.
  destruct W4 as [T _]. destruct (timeout <? w_time w (m_tick s3)) eqn:Et; [left; apply ended_now; [done|by right|done]|]. btrue.
  destruct (m_errno s1 =? ETIMEDOUT).
  { right. exists (m_tick s3), s4, secs. split; [lia|]. split; [done|]. split; [done|]. split; [done|]. by intros; eapply ended_worked. }
  unfold mbind at 1, mM_bind at 1. destruct (nap_run secs 10 s4 Hs ltac:(lia)) as (c & s5 & -> & T5 & S5 & R5). cbn [fst snd].
  rewrite (worked_sleeps _ _ W6) in S5. destruct c; [left; by apply ended_cut|].
  right. exists (m_tick s3), s5, (Z.min (2 * secs) 10). split; [lia|]. split; [done|]. split; [done|]. split; [done|].
  intros r. by apply ended_slept.
Qed.

Lemma bg_turn timeout fuel secs s :
  1 <= secs <= 120 -> turn 120 timeout secs s (bg_loop w mi (S fuel) timeout secs s) (bg_loop w mi fuel timeout).
Proof.
  intros Hs. cbn [bg_loop]. unfold mbind at 1, mM_bind at 1.
  destruct (nap_run secs 120 s Hs ltac:(lia)) as (c & s0 & -> & T0 & S0 & R0). cbn [fst snd].
  destruct c; [left; by apply ended_cut|]. unfold mbind at 1, mM_bind at 1. destruct (try_mount_total s0) as [r Er].
  pose proof (works_try_mount s0) as W. pose proof (try_mount_honest w mi s0) as Hh.
  assert (forall r, ended 120 (Z.min (2 * secs) 120) s0 r -> ended 120 secs s r) as Hn by (intros r0; by apply ended_slept).
  destruct (nfs_try_mount w mi s0) as [r' s1]. cbn [fst snd] in *. subst r'. destruct r.
  { left. apply Hn, ended_now; [done|by left|intros _; left; by apply Hh]. }
  unfold mbind at 1, mM_bind at 1, gets at 1. unfold mbind at 1, mM_bind at 1.
  destruct (nfs_is_permanent_error (m_errno s1) s1) as [b s3] eqn:Ep.
  apply permanent_run in Ep. pose proof (worked_trans _ _ _ W Ep) as W4.
  destruct b; [left; apply Hn, ended_now; [done|by right|done]|]. unfold mbind at 1, mM_bind at 1. unfold ask at 1.
  set (s4 := MS _ _ _ _ _ _ _ _ _ _ _ _ _).
  assert (worked s3 s4) as W5 by (split; [cbn; lia|exists []; by rewrite app_nil_r]).
  pose proof (worked_trans _ _ _ W4 W5) as W6. assert (m_tick s4 = S (m_tick s3)) as T4 by done. clearbody s4.
  destruct W4 as [T _]. destruct (timeout <? w_time w (m_tick s3)) eqn:Et; [left; apply Hn, ended_now; [done|by right|done]|]. btrue.
  right. exists (m_tick s3), s4, (Z.min (2 * secs) 120). split; [lia|]. split; [done|]. split; [done|]. split; [done|].
  intros r Hr. apply Hn. by eapply ended_worked.
Qed.

(** A loop of such turns ends once the clock has passed the time-out for good. *)
Lemma loop_ends limit timeout (loop : nat -> Z -> mM (option Z)) N d fuel s secs :
  (forall fuel secs s, 1 <= secs <= limit -> turn limit timeout secs s (loop (S fuel) secs s) (loop fuel)) ->
  (forall n, (N <= n)%nat -> timeout < w_time w n) -> (N <= m_tick s + d)%nat -> (d < fuel)%nat -> 1 <= secs <= limit ->
  ended limit secs s (loop fuel secs s).
Proof.
  intros Ht HN. revert fuel s secs; induction d as [|d IH]; intros fuel s secs Hd Hf Hs; (destruct fuel as [|fuel]; [lia|]);
    destruct (Ht fuel secs s Hs) as [He|(n & s' & secs' & Hn & Hw & Hs' & -> & Hr)]; try done.
  - specialize (HN n). lia.
  - apply Hr, IH; [lia|lia|done].
Qed.

(** C33. The retries end, over every world.  If the clock passes every time sooner
    or later, mounting in the foreground returns, and so does the retry daemon of
    a background mount, with success or failure; success means that the kernel
    accepted the last call of mount(2), or nothing was to be done, or, in the
    foreground, that the directory is a mount point already.  In between the
    command has slept for 1, 2, 4, ... seconds, never more than 10 in the
    foreground and 120 in the background. *)
Theorem nfsmount_ends (s : mstate) :
  (forall T, exists N, forall n, (N <= n)%nat -> T < w_time w n) ->
  exists fuel, ended 10 1 s (nfsmount_fg w mi fuel s) /\ ended 120 1 s (nfsmount_child w mi fuel s).
Proof.
  intros Hclock. unfold nfsmount_fg, nfsmount_child, mbind, mM_bind, gets.
  destruct (nfs_parse_retry_option w (mi_options s) NFS_DEF_FG_TIMEOUT_MINUTES s) as [t1 s1] eqn:E1.
  destruct (nfs_parse_retry_option w (mi_options s) NFS_DEF_BG_TIMEOUT_MINUTES s) as [t2 s2] eqn:E2.
  assert (worked s s1 /\ worked s s2) as [W1 W2].
  { split; [change s1 with (t1, s1).2; rewrite <- E1|change s2 with (t2, s2).2; rewrite <- E2]; apply works_still, still_retry. }
  destruct (Hclock t1) as [N1 H1], (Hclock t2) as [N2 H2]. exists (S (N1 + N2)). split.
  - eapply ended_worked; [exact W1|]. eapply (loop_ends 10 t1 (fun f => fg_loop w mi f t1) N1 N1); [|done|lia|lia|lia].
    intros. by apply fg_turn.
  - eapply ended_worked; [exact W2|]. eapply (loop_ends 120 t2 (fun f => bg_loop w mi f t2) N2 N2); [|done|lia|lia|lia].
    intros. by apply bg_turn.
Qed.

End retry.

(** ** The options say what was negotiated *)

(** The databases agree with each other: an entry is found under its name, a
    protocol under its number and its name; no entry has one of the two names that
    the code handles itself, and names are short. *)
Record netdb_ok (db : netdb) : Prop := NetDbOk
  { nd_ent : forall e, e ∈ netconfigs db -> getnetconfigent db (nc_netid e) = Some e;
    nd_proto : forall p name, getprotobynumber db p = Some name -> getprotobyname db name = Some p;
    nd_names : forall e, e ∈ netconfigs db ->
      nc_netid e <> $"rdma" /\ nc_netid e <> $"rdma6" /\ (length (nc_netid e) <= 50)%nat }.

Lemma netid_proto db f p n :
  netdb_ok db -> nfs_get_netid db f p = Some n -> (length n <= 50)%nat /\ snd <$> nfs_get_proto db n = Some p.
Proof.
  intros [H1 H2 H3]. unfold nfs_get_netid. intros E.
  assert (exists name, getprotobynumber db p = Some name /\ exists fm,
    nc_netid <$> List.find (fun nc => streq (nc_protofmly nc) fm && streq (nc_proto nc) name) (netconfigs db) = Some n) as (name & En & fm & Ef).
  { destruct f; [done| |]; (destruct (getprotobynumber db p) as [name|]; [|done]); eauto. }
  apply fmap_Some in Ef as (nc & Ef & ->). apply List.find_some in Ef as [Hin Hm]. apply list_elem_of_In in Hin. btrue.
  destruct (H3 nc Hin) as (N1 & N2 & N3). split; [done|]. unfold nfs_get_proto.
  rewrite (proj2 (streq_false _ _) N1), (proj2 (streq_false _ _) N2), (H1 nc Hin).
  match goal with E : nc_proto nc = name |- _ => rewrite E end. by rewrite (H2 _ _ En).
Qed.

Lemma o_get_one o kw v : with_keyword kw o = [MOpt kw v] -> o_get o kw = v.
Proof. intros E. unfold o_get. by rewrite E. Qed.

Lemma ranged_one o kw ok def n :
  with_keyword kw o = [MOpt kw (Some (utoa 10 n))] -> number n -> ok n = true -> ranged o kw ok def = Some n.
Proof.
  intros E Hn Ho. unfold ranged, o_numeric. rewrite (o_get_one o kw _ E), (strtol_number n Hn). cbn. by rewrite Ho.
Qed.
Lemma ranged_none o kw ok def : with_keyword kw o = [] -> ranged o kw ok def = Some def.
Proof. intros E. unfold ranged, o_numeric, o_get. by rewrite E. Qed.

(** The transport options, in order. *)
Definition transports (o : opts) : list Z := omap (fun a => key_index 0 (keyword a) nfs_transport_opttbl) o.

Lemma transports_same ks o o' :
  same_but ks o o' -> Forall (fun k => key_index 0 k nfs_transport_opttbl = None) ks -> transports o' = transports o.
Proof.
  intros H Hk.
  assert (forall l : opts, transports l = transports (filter (fun a => keyword a ∉ ks) l)) as L.
  { intros l. unfold transports. induction l as [|a l IH]; [done|]. rewrite filter_cons. cbn [omap list_omap].
    case_decide as Hd; cbn [omap list_omap]; [by rewrite IH|].
    by rewrite (proj1 (Forall_forall _ _) Hk _ Hd). }
  by rewrite (L o'), H, <- L.
Qed.

Lemma version_keys_vers o i tbl :
  Forall (fun a => keyword a = $"vers" \/ version_free (keyword a)) o ->
  i = 0 -> tbl = nfs_version_opttbl -> version_keys o i tbl = (fun _ => (3, $"vers")) <$> with_keyword $"vers" o.
Proof.
  intros H -> ->. unfold nfs_version_opttbl. cbn [version_keys]. rewrite app_nil_r.
  assert (forall p, p ∈ nfs_version_opttbl -> starts_with p $"vers" = false ->
            filter (fun a => starts_with p (keyword a) = true) o = []) as L.
  { intros p Hp Hv. apply filter_none. eapply Forall_impl; [exact H|]. intros a [E|Hf]; cbv beta.
    - rewrite E, Hv. done.
    - apply (proj1 (Forall_forall _ _) Hf) in Hp. congruence. }
  rewrite (L $"v2"), (L $"v3"), (L $"v4"), (L $"nfsvers") by (keys || done). cbn [fmap list_fmap app]. rewrite app_nil_r.
  unfold with_keyword. clear L. induction H as [|a o Ha _ IH]; [done|].
  destruct (streq (keyword a) $"vers") eqn:E; btrue.
  - rewrite !filter_cons_True by (rewrite E; done). cbn [fmap list_fmap]. rewrite IH. by rewrite E.
  - rewrite (filter_cons_False (fun a => streq _ _ = true)) by (intros E'; apply streq_true in E'; done).
    rewrite filter_cons_False; [done|]. destruct Ha as [Ha|Ha]; [done|].
    do 3 apply Forall_cons in Ha as [_ Ha]. apply Forall_cons in Ha as [Ha _]. congruence.
Qed.

(** No version option but those that the rewriting removes. *)
Definition plain_versions (o : opts) : Prop :=
  Forall (fun a => keyword a ∈ [$"v2"; $"v3"; $"vers"; $"nfsvers"] \/ version_free (keyword a)) o.

Lemma plain_removed o l :
  plain_versions o -> [$"v2"; $"v3"; $"vers"; $"nfsvers"] ⊆ l -> Forall (fun a => version_free (keyword a)) (remove_all o l).
Proof.
  intros H Hl. apply Forall_forall. intros a Ha.
  assert (keyword a ∉ l) as Hn.
  { intros Hin. pose proof (removed_all (keyword a) o l Hin) as E. apply (not_elem_of_nil a). rewrite <- E.
    apply list_elem_of_filter. split; [apply streq_refl|done]. }
  assert (a ∈ o) as Hao.
  { pose proof (same_but_remove_all l o l ltac:(done)) as S.
    assert (a ∈ filter (fun a => keyword a ∉ l) (remove_all o l)) as Hf by (by apply list_elem_of_filter).
    rewrite S in Hf. by apply list_elem_of_filter in Hf as [_ ?]. }
  apply (proj1 (Forall_forall _ _) H) in Hao as [Hin|Hf]; [|done]. set_solver.
Qed.

Section read_back.
  Context (w : world) (o : opts) (a b : sockaddr) (p q : pmap) (o1 o2 o3 o4 o5 o6 : opts) (n1 n2 : cstr)
    (Hst : stages w o a p b q o1 o2 o3 o4 o5 o6 n1 n2) (Hdb : netdb_ok (w_db w)).

Lemma read_vers :
  plain_versions o -> v23 (pm_vers p) ->
  nfs_nfs_version $"nfs" o6 (NV 0 0 V_DEFAULT) = (true, NV (pm_vers p) 0 V_SPECIFIC).
Proof using Hst.
  intros Hp Hv. destruct (stages_frame _ _ _ _ _ _ _ _ _ _ _ _ _ _ Hst) as (_ & _ & _ & _ & S1 & _).
  destruct Hst as [P1 _ _ _ _ _ _ _]. pose proof (put_value _ _ _ _ _ P1) as V1.
  assert (with_keyword $"vers" o6 = [MOpt $"vers" (Some (utoa 10 (pm_vers p)))]) as V6
    by (by rewrite (same_but_keyword _ _ _ $"vers" S1) by keys).
  assert (Forall (fun a => keyword a = $"vers" \/ version_free (keyword a)) o6) as F.
  { apply Forall_forall. intros x Hx.
    destruct (decide (keyword x ∈ [$"proto"; $"udp"; $"tcp"; $"port"; $"mountvers"; $"mountproto"; $"mountport"])) as [Hin|Hin].
    - right. revert Hin. apply (proj1 (Forall_forall version_free _)). keys.
    - assert (x ∈ o1) as Hx1.
      { assert (x ∈ filter (fun a => keyword a ∉ [$"proto"; $"udp"; $"tcp"; $"port"; $"mountvers"; $"mountproto"; $"mountport"]) o6) as Hf
          by (by apply list_elem_of_filter). rewrite S1 in Hf. by apply list_elem_of_filter in Hf as [_ ?]. }
      destruct P1 as (-> & _ & _). apply elem_of_app in Hx1 as [Hx1|Hx1].
      + right. eapply (proj1 (Forall_forall (fun a => version_free (keyword a)) _)); [|exact Hx1]. apply plain_removed; [done|keys].
      + apply list_elem_of_singleton in Hx1 as ->. left. by rewrite parse_option_eq by keys. }
  unfold nfs_nfs_version. rewrite version_search_keys. change (option_list None ++ ?x) with x.
  rewrite (version_keys_vers o6 0 _ F eq_refl eq_refl), V6. cbn [fmap list_fmap].
  change (3 <=? 2) with false. cbv iota. rewrite (o_get_one _ _ _ V6). unfold read_version. cbv zeta.
  rewrite strtol_number by (destruct Hv as [->| ->]; by split). cbn [st_end st_conv st_value negb orb].
  rewrite streq_refl. cbn [negb andb orb major minor v_mode]. destruct Hv as [->| ->]; reflexivity.
Qed.

Lemma read_proto : nfs_nfs_protocol (w_db w) o6 = Some (pm_prot p).
Proof using Hst Hdb.
  destruct (stages_frame _ _ _ _ _ _ _ _ _ _ _ _ _ _ Hst) as (_ & _ & _ & S2 & _).
  destruct Hst as [_ N1 P2 _ _ _ _ _]. pose proof (netid_proto _ _ _ _ Hdb N1) as [Hl Hp].
  assert (with_keyword $"proto" o6 = [MOpt $"proto" (Some n1)]) as V.
  { rewrite (same_but_keyword _ _ _ $"proto" S2) by keys. rewrite (put_value _ _ _ _ _ P2). by rewrite take_ge by lia. }
  unfold nfs_nfs_protocol. rewrite (o_get_one _ _ _ V).
  assert (o_rightmost o6 nfs_transport_opttbl = 3) as ->.
  { unfold o_rightmost. fold (transports o6). rewrite (transports_same _ _ _ S2) by keys.
    destruct P2 as (-> & _ & _). unfold transports, o_append. rewrite omap_app, parse_option_eq by keys.
    change (omap _ [_]) with [3]. by rewrite last_snoc. }
  exact Hp.
Qed.

Lemma read_port :
  is_port (pm_port p) = true ->
  nfs_nfs_port o6 = Some (if o_has o $"port" || negb (pm_port p =? NFS_PORT) then pm_port p else 0).
Proof using Hst.
  intros Hr. assert (number (pm_port p)) as Hn by (unfold is_port in Hr; btrue; unfold number, LONG_MAX; lia).
  destruct (stages_frame _ _ _ _ _ _ _ _ _ _ _ _ _ _ Hst) as (_ & _ & S3 & S2 & S1 & _).
  destruct Hst as [P1 _ P2 P3 _ _ _ _].
  assert (o_has o $"port" = o_has o2 $"port") as ->.
  { rewrite !o_has_with. rewrite (same_but_keyword _ _ _ $"port" (put_same _ _ _ _ _ P2)) by keys.
    by rewrite (same_but_keyword _ _ _ $"port" (put_same _ _ _ _ _ P1)) by keys. }
  unfold nfs_nfs_port. destruct (o_has o2 $"port" || negb (pm_port p =? NFS_PORT)) eqn:E.
  - apply ranged_one; [|done|done]. rewrite (same_but_keyword _ _ _ $"port" S3) by keys. eapply put_value, P3.
  - subst o3. apply ranged_none. rewrite (same_but_keyword _ _ _ $"port" S3) by keys.
    apply orb_false_iff in E as [E _]. rewrite o_has_with in E. by destruct (with_keyword $"port" o2).
Qed.

Lemma read_mount :
  1 <= pm_vers q <= 4 -> is_port (pm_port q) = true ->
  nfs_mount_version o6 = Some (pm_vers q) /\ nfs_mount_protocol (w_db w) o6 = Some (pm_prot q) /\ nfs_mount_port o6 = Some (pm_port q).
Proof using Hst Hdb.
  intros Hv Hr. assert (number (pm_port q)) as Hn by (unfold is_port in Hr; btrue; unfold number, LONG_MAX; lia).
  destruct (stages_frame _ _ _ _ _ _ _ _ _ _ _ _ _ _ Hst) as (S5 & S4 & _).
  destruct Hst as [_ _ _ _ P4 N2 P5 P6]. pose proof (netid_proto _ _ _ _ Hdb N2) as [Hl Hp]. split; [|split].
  - apply ranged_one; [|unfold number, LONG_MAX; lia|by apply andb_true_intro; split; apply Z.leb_le; lia].
    rewrite (same_but_keyword _ _ _ $"mountvers" S4) by keys. eapply put_value, P4.
  - unfold nfs_mount_protocol. rewrite (o_get_one o6 $"mountproto" (Some n2)); [done|].
    rewrite (same_but_keyword _ _ _ $"mountproto" S5) by keys. rewrite (put_value _ _ _ _ _ P5). by rewrite take_ge by lia.
  - apply ranged_one; [|done|done]. eapply put_value, P6.
Qed.

Lemma read_programs :
  nfs_nfs_program (w_db w) o6 = Some (getrpcbyname (w_db w) 100003) /\
  nfs_mount_program (w_db w) o6 = Some (getrpcbyname (w_db w) 100005).
Proof using Hst.
  clear Hdb.
  destruct (stages_frame _ _ _ _ _ _ _ _ _ _ _ _ _ _ Hst) as (_ & _ & _ & _ & S1 & _). destruct Hst as [P1 _ _ _ _ _ _ _].
  assert (forall k, k ∈ [$"nfsprog"; $"mountprog"] -> with_keyword k o6 = []) as Hk.
  { intros k Hin. rewrite (same_but_keyword _ _ _ k S1) by (revert Hin; apply (proj1 (Forall_forall (fun k => k ∉ _) _)); keys).
    destruct P1 as (-> & _ & _). rewrite with_keyword_append, removed_all by set_solver. rewrite parse_option_eq by keys.
    cbn [keyword]. destruct (streq $"vers" k) eqn:E; [|done]. apply streq_true in E. subst k. exfalso. revert Hin. keys. }
  split; apply ranged_none, Hk; keys.
Qed.
End read_back.

(** C32. The option string handed to the kernel for versions 2 and 3 says what was
    negotiated: when the code has rewritten the options for the services it found,
    reading the version, transport, port and program of the NFS and the mount
    service from the new options gives those of the negotiation, each written once;
    the standard port is left out unless the user had named one. *)
Theorem negotiated_options_read (w : world) (o : opts) (a b : sockaddr) (p q : pmap) (s : mstate) (o' : opts) :
  netdb_ok (w_db w) -> plain_versions o -> v23 (pm_vers p) -> 1 <= pm_vers q <= 4 ->
  is_port (pm_port p) = true -> is_port (pm_port q) = true ->
  (nfs_construct_new_options w o a p b q s).1 = Some o' ->
  nfs_options2pmap (w_db w) o' = Some
    (Pmap (getrpcbyname (w_db w) 100003) (pm_vers p) (pm_prot p)
       (if o_has o $"port" || negb (pm_port p =? NFS_PORT) then pm_port p else 0),
     Pmap (getrpcbyname (w_db w) 100005) (pm_vers q) (pm_prot q) (pm_port q)).
Proof.
  intros Hdb Hp Hv Hq Hr1 Hr2 E. apply construct_stages in E as (o1 & o2 & o3 & o4 & o5 & n1 & n2 & H).
  destruct (read_programs w _ _ _ _ _ _ _ _ _ _ _ _ _ H) as [R1 R2].
  destruct (read_mount w _ _ _ _ _ _ _ _ _ _ _ _ _ H Hdb Hq Hr2) as (R3 & R4 & R5).
  unfold nfs_options2pmap. rewrite R1. cbn [mbind option_bind].
  rewrite (read_vers w _ _ _ _ _ _ _ _ _ _ _ _ _ H Hp Hv). cbn [negb v_mode major].
  rewrite (read_proto w _ _ _ _ _ _ _ _ _ _ _ _ _ H Hdb), (read_port w _ _ _ _ _ _ _ _ _ _ _ _ _ H Hr1), R2, R3, R4, R5. done.
Qed.

(** ** Runs *)

(** The options of each call of mount(2). *)
Definition call_texts (s : mstate) : list cstr :=
  omap (fun e => match e with Mount o _ => Some (join_opts o) | Sleep _ => None end) (m_log s).

Definition given_ex : cstr := $"soft,addr=1.2.3.4,retry=1".

Lemma nfsmount_string_calls_witness :
  call_texts (nfsmount_string (world_ex old_server) request_ex 3 given_ex (state_ex [] (NV 0 0 V_DEFAULT))).2 =
    [$"soft,retry=1,vers=4.2,addr=10.0.0.1,clientaddr=10.0.0.1";
     $"soft,retry=1,vers=4,minorversion=1,addr=10.0.0.1,clientaddr=10.0.0.1"] /\
  forall o res, Mount o res ∈ m_log (nfsmount_string (world_ex old_server) request_ex 3 given_ex (state_ex [] (NV 0 0 V_DEFAULT))).2 ->
  good_call (world_ex old_server) [MOpt $"soft" None; MOpt $"addr" (Some $"1.2.3.4"); MOpt $"retry" (Some $"1")] o.
Proof.
  split; [vm_compute; reflexivity|].
  apply (nfsmount_string_calls (world_ex old_server) request_ex 3 given_ex _ (state_ex [] (NV 0 0 V_DEFAULT)) eq_refl eq_refl).
Defined.

Lemma clock_passes (mnt : nat -> option Z) : forall T, exists N, forall n, (N <= n)%nat -> T < w_time (world_ex mnt) n.
Proof. intros T. exists (Z.to_nat (T + 1)). intros n Hn. cbn [w_time world_ex]. lia. Qed.

(** A server that is always busy: the foreground mount gives up after two minutes. *)
Lemma nfsmount_ends_witness :
  (let r := nfsmount_fg (world_ex (fun _ => Some EAGAIN)) request_ex 99 (state_ex [] (NV 4 2 V_DEFAULT)) in
   fst r = Some EX_FAIL /\ take 6 (sleeps (m_log (snd r))) = [1; 2; 4; 8; 10; 10]) /\
  exists fuel,
    ended (world_ex (fun _ => Some EAGAIN)) request_ex 10 1 (state_ex [] (NV 4 2 V_DEFAULT))
      (nfsmount_fg (world_ex (fun _ => Some EAGAIN)) request_ex fuel (state_ex [] (NV 4 2 V_DEFAULT))) /\
    ended (world_ex (fun _ => Some EAGAIN)) request_ex 120 1 (state_ex [] (NV 4 2 V_DEFAULT))
      (nfsmount_child (world_ex (fun _ => Some EAGAIN)) request_ex fuel (state_ex [] (NV 4 2 V_DEFAULT))).
Proof.
  split; [vm_compute; split; reflexivity|].
  apply (nfsmount_ends (world_ex (fun _ => Some EAGAIN)) request_ex (state_ex [] (NV 4 2 V_DEFAULT))). apply clock_passes.
Defined.

Lemma netdb_ex_ok : netdb_ok netdb_ex.
Proof.
  split.
  - intros e H. apply elem_of_cons in H as [->|H]; [done|]. by apply list_elem_of_singleton in H as ->.
  - intros p name. cbn [getprotobynumber netdb_ex]. destruct (p =? IPPROTO_TCP) eqn:E1; [|destruct (p =? IPPROTO_UDP) eqn:E2; [|done]];
      intros [= <-]; btrue; subst p; done.
  - intros e H. apply elem_of_cons in H as [->|H]; [by vm_compute; repeat split; try done; lia|].
    apply list_elem_of_singleton in H as ->. vm_compute; repeat split; try done; lia.
Qed.

Lemma negotiated_options_read_witness :
  exists o', (nfs_construct_new_options (world_ex old_server) [MOpt $"soft" None; MOpt $"v3" None; MOpt $"udp" None] addr_ex
                (Pmap 100003 3 IPPROTO_TCP NFS_PORT) addr_ex (Pmap 100005 3 IPPROTO_UDP 635) (state_ex [] (NV 3 0 V_SPECIFIC))).1 = Some o' /\
    join_opts o' = $"soft,vers=3,proto=tcp,mountvers=3,mountproto=udp,mountport=635" /\
    nfs_options2pmap netdb_ex o' = Some (Pmap 100003 3 IPPROTO_TCP 0, Pmap 100005 3 IPPROTO_UDP 635).
Proof.
  eexists. split; [vm_compute; reflexivity|]. split; [vm_compute; reflexivity|].
  apply (negotiated_options_read (world_ex old_server) [MOpt $"soft" None; MOpt $"v3" None; MOpt $"udp" None] addr_ex addr_ex
           (Pmap 100003 3 IPPROTO_TCP NFS_PORT) (Pmap 100005 3 IPPROTO_UDP 635) (state_ex [] (NV 3 0 V_SPECIFIC))).
  - exact netdb_ex_ok.
  - unfold plain_versions, version_free. keys.
  - by right.
  - cbn; lia.
  - reflexivity.
  - reflexivity.
  - vm_compute. reflexivity.
Defined.

(** [nfs_is_permanent_error] on a row of errors. *)
Fixpoint verdicts (l : list Z) : mM (list bool) :=
  match l with
  | [] => mret []
  | e :: l => b ← nfs_is_permanent_error e; bs ← verdicts l; mret (b :: bs)
  end.

(** A stale handle is final on the third time in a row, not on the second as a
    comment in the code has it. *)
Lemma stale_third (s : mstate) :
  prev_error s <> ESTALE -> (verdicts [ESTALE; ESTALE; ESTALE; ESTALE] s).1 = [false; false; true; true].
Proof.
  intros H. destruct s as [t l er r p n sl o v a h f x]. cbn [prev_error] in H.
  cbn [verdicts]. unfold nfs_is_permanent_error, mbind, mM_bind, gets, set_repeat. cbn [prev_error].
  rewrite (proj2 (Z.eqb_neq _ _) (not_eq_sym H)). done.
Qed.
