(* ===== verification/MntConf.v ===== *)
(** * The mount configuration file (utils/mount/configfile.c)

    Before mount.nfs reads its options it completes them from /etc/nfsmount.conf:
    first from the section of the mount point, then from that of the server, then
    from the global one.  The file is a database of [ConfDb]; the options are a list
    of [MntOpts].  Settings called default... are not options: they are the initial
    values of the negotiation.

    [conf_get_mntopts] can stop in three ways other than returning: looking up a
    setting may not end ([S_Fuel], see [ConfDb]); listing a section hands NULL to
    strcasecmp ([S_Null]); an empty value makes mountopts_convert read the byte
    before it ([S_Before]).  [conf_merges] says when none of them happens, and what
    is returned then. *)

From S2P Require Import Prelude Heap Token ParseOpt ConfDb Client MntOpts Probe Stropts.

(** ** Names and values *)

Inductive argtype_t := MNT_NOARG | MNT_INTARG | MNT_STRARG | MNT_SPEC | MNT_UNSET.
#[export] Instance argtype_eq : EqDecision argtype_t.
Proof. solve_decision. Defined.

Record mnt_alias := Alias { alias : cstr; al_opt : cstr; al_argtype : argtype_t }.
Definition mnt_alias_tab : list mnt_alias :=
  [Alias $"background" $"bg" MNT_NOARG; Alias $"foreground" $"fg" MNT_NOARG; Alias $"sloppy" $"sloppy" MNT_NOARG].

Definition conf_version_keys : list cstr := [$"v3"; $"v4"; $"vers"; $"nfsvers"; $"minorversion"].

Definition is_version (field : cstr) : bool :=
  existsb (fun k => streq k field) conf_version_keys || starts_with $"v4." field.

(** The option, its kind of argument, and the string of the caller after the call,
    which is put in lower case in place. *)
Definition mountopts_alias (opt : cstr) : cstr * argtype_t * cstr :=
  match List.find (fun a => strcaseeq opt (alias a)) mnt_alias_tab with
  | Some a => (al_opt a, al_argtype a, opt)
  | None => (upper2lower opt, MNT_UNSET, upper2lower opt)
  end.

Definition KBYTES (x : Z) : Z := x * 1024.
Definition MEGABYTES (x : Z) : Z := x * 1048576.
Definition GIGABYTES (x : Z) : Z := x * 1073741824.

Definition unit_factor (ch : ascii) : option Z :=
  let ch := tolower ch in
  if ceqb ch "k" then Some (KBYTES 1)
  else if ceqb ch "m" then Some (MEGABYTES 1)
  else if ceqb ch "g" then Some (GIGABYTES 1)
  else None.

(** [None]: the value is empty, and the byte before it is read. *)
Definition mountopts_convert (value : cstr) : option cstr :=
  match last value with
  | None => None
  | Some ch =>
      match unit_factor ch with
      | None => Some value
      | Some factor =>
          let value := take (length value - 1) value in
          let num :=
            if starts_with $"0x" value then st_value (strtol 16 value)
            else if starts_with $"0" value then st_value (strtol 8 value)
            else st_value (strtol 10 value) in
          let num := u64 (u64 num * factor) in
          Some (itoa (i64 num))
      end
  end.

(** [strncasecmp(s, p, strlen(p)) == 0]. *)
Definition starts_nocase (p s : cstr) : bool := strcaseeq p (take (length p) s).

(** [snprintf(buf, BUFSIZ, ...)]. *)
Definition in_buf (text : cstr) : cstr := take (BUFSIZ - 1) text.

(** ** Reading the file *)

(** The options so far, [strict], and the globals that the defaults set. *)
Record cstate := CState
  { c_opts : opts; c_strict : bool; c_vers : nfs_version; c_proto : Z; c_family : family }.

Definition set_opts (s : cstate) (o : opts) : cstate := CState o (c_strict s) (c_vers s) (c_proto s) (c_family s).
Definition set_strict (s : cstate) : cstate := CState (c_opts s) true (c_vers s) (c_proto s) (c_family s).

Inductive stop := S_Fuel | S_Null | S_Before.

Section configfile.
  Context (db : netdb) (getenv : cstr -> option cstr) (fuel : nat) (conf : conf).

Definition with_family (f : family) : netdb :=
  NetDb (netconfigs db) (getnetconfigent db) (getprotobyname db) (getprotobynumber db) (getrpcbyname db) f.

Definition default_value (mopt : cstr) (s : cstate) : bool * cstate :=
  if negb (starts_nocase $"default" mopt) then (false, s)
  else
    let field := drop 7 mopt in
    (true,
     if starts_nocase $"proto" field then
       match o_split field with
       | None => s
       | Some options =>
           let proto := default (c_proto s) (nfs_nfs_protocol db options) in
           let family := default (c_family s) (nfs_nfs_proto_family (with_family (c_family s)) options) in
           CState (c_opts s) (c_strict s) (c_vers s) proto family
       end
     else if starts_nocase $"vers" field then
       match o_split field with
       | None => s
       | Some options =>
           CState (c_opts s) (c_strict s) (nfs_nfs_version $"nfs" options (c_vers s)).2 (c_proto s) (c_family s)
       end
     else s).

(** The tests by which a setting is passed over. *)
Definition taken (o : opts) (field : cstr) : bool :=
  o_has o field
  || (starts_with $"no" field && o_has o (drop 2 field))
  || ((length field <? BUFSIZ - 3)%nat && o_has o ($"no" ++ field))
  || (streq field $"fg" && o_has o $"bg")
  || (streq field $"bg" && o_has o $"fg").

(** From [if (buf[0] == '\0')] on. *)
Definition put (text : cstr) (s : cstate) : cstate :=
  let buf := in_buf text in
  match buf with
  | [] => s
  | _ => (default_value buf (set_opts s (o_append (c_opts s) buf))).2
  end.

(** One turn of the loop; the boolean is [have_version]. *)
Definition add_setting (section : cstr) (arg : option cstr) (node : cstr) (st : cstate * bool) : stop + (cstate * bool) :=
  let '(s, have_version) := st in
  let '(field, argtype, node) := mountopts_alias node in
  if taken (c_opts s) field then inr st
  else if is_version field && have_version then inr st
  else
    let have_version := have_version || is_version field in
    match conf_get_section getenv fuel conf section arg node with
    | None => inl S_Fuel
    | Some None => inr (s, have_version)
    | Some (Some value) =>
        if strcaseeq value $"false" then
          inr (if negb (bool_decide (argtype = MNT_NOARG)) then put ($"no" ++ field) s
               else if strcaseeq field $"bg" then put $"fg" s
               else if strcaseeq field $"fg" then put $"bg" s
               else if strcaseeq field $"sloppy" then set_strict s
               else s, have_version)
        else if strcaseeq value $"true" then
          inr (if strcaseeq field $"sloppy" && c_strict s then s else put field s, have_version)
        else
          match mountopts_convert value with
          | None => inl S_Before
          | Some ptr => inr (put (field ++ "="%char :: ptr) s, have_version)
          end
    end.

Fixpoint add_settings (section : cstr) (arg : option cstr) (l : list cstr) (st : cstate * bool) : stop + (cstate * bool) :=
  match l with
  | [] => inr st
  | node :: l => match add_setting section arg node st with
                 | inl e => inl e
                 | inr st => add_settings section arg l st
                 end
  end.

Definition conf_parse_mntopts (section : cstr) (arg : option cstr) (s : cstate) : stop + cstate :=
  let o := c_opts s in
  let have_version := (0 <=? o_rightmost o conf_version_keys)
                      || match o_prefix o $"v4." 0 with Some _ => true | None => false end in
  match conf_get_tag_list conf section arg with
  | None => inl S_Null
  | Some list => match add_settings section arg list (s, have_version) with
                 | inl e => inl e
                 | inr (s, _) => inr s
                 end
  end.

(** The loop that removes the defaults. *)
Fixpoint strip_defaults (n : nat) (o : opts) : opts :=
  match n with
  | O => o
  | S n => match o_prefix o $"default" 0 with
           | None => o
           | Some ptr => strip_defaults n (o_remove o ptr)
           end
  end.

Definition NFSMOUNT_GLOBAL_OPTS : cstr := $"NFSMount_Global_Options".
Definition NFSMOUNT_MOUNTPOINT : cstr := $"MountPoint".
Definition NFSMOUNT_SERVER : cstr := $"Server".

Definition server_of (spec : cstr) : cstr := match strchr ":" spec with Some (server, _) => server | None => spec end.

(** The options as text and the globals; the options of the caller are returned
    as they are when they cannot be split. *)
Definition conf_get_mntopts (spec mount_point : cstr) (mount_opts : option cstr) (s : cstate) : stop + (option cstr * cstate) :=
  let s := CState (c_opts s) false (c_vers s) (c_proto s) (c_family s) in
  match match mount_opts with None => Some [] | Some str => o_split str end with
  | None => inr (mount_opts, s)
  | Some options =>
      match conf_parse_mntopts NFSMOUNT_MOUNTPOINT (Some mount_point) (set_opts s options) with
      | inl e => inl e
      | inr s =>
          match conf_parse_mntopts NFSMOUNT_SERVER (Some (server_of spec)) s with
          | inl e => inl e
          | inr s =>
              match conf_parse_mntopts NFSMOUNT_GLOBAL_OPTS None s with
              | inl e => inl e
              | inr s =>
                  let o := strip_defaults (length (c_opts s)) (c_opts s) in
                  inr (Some (join_opts o), set_opts s o)
              end
          end
      end
  end.

End configfile.

(** ** What a merge of settings into options is *)

(** An option with keyword [k] keeps a setting of [f] out: it is the same, its
    negation, the other way of waiting, or both say which version to use. *)
Definition clashes (k f : cstr) : Prop :=
  k = f \/ f = $"no" ++ k \/ k = $"no" ++ f \/ (f = $"fg" /\ k = $"bg") \/ (f = $"bg" /\ k = $"fg").
Definition contradicts (k f : cstr) : Prop := clashes k f \/ (is_version f = true /\ is_version k = true).

(** What a setting asks for: an option of the name as it is, of its negation, or
    with a value whose unit has been applied.  [None] asks for nothing. *)
Definition means (f : cstr) (aliased : bool) (v : cstr) : option mopt :=
  if strcaseeq v $"false" then
    if aliased then
      if decide (f = $"bg") then Some (MOpt $"fg" None)
      else if decide (f = $"fg") then Some (MOpt $"bg" None) else None
    else Some (MOpt ($"no" ++ f) None)
  else if strcaseeq v $"true" then Some (MOpt f None)
  else (fun v => MOpt f (Some (take (BUFSIZ - 2 - length f) v))) <$> mountopts_convert v.

(** [o'] is [o] with options put behind it, each one asked for by a setting that no
    option before it contradicts. *)
Inductive grows (asks : cstr -> mopt -> Prop) : opts -> opts -> Prop :=
| grows_none o : grows asks o o
| grows_add o f a o' :
    asks f a -> Forall (fun b => ~ contradicts (keyword b) f) o -> grows asks (o ++ [a]) o' -> grows asks o o'.

(** Names of settings that fit the buffer of the code and have no equals sign. *)
Definition tag_ok (tag : cstr) : Prop := "="%char ∉ tag /\ (length tag < BUFSIZ - 3)%nat.

Lemma tolower_eq c : tolower c = "="%char -> c = "="%char.
Proof. all_chars c; vm_compute; intros H; try discriminate H; reflexivity. Qed.

Lemma alias_ok tag f t node : mountopts_alias tag = (f, t, node) -> tag_ok tag -> tag_ok f.
Proof.
  unfold mountopts_alias, mnt_alias_tab, List.find. cbn [alias]. intros E H.
  repeat case_match; simplify_eq; try (split; [by vm_compute; set_solver|cbn; unfold BUFSIZ; lia]).
  destruct H as [? ?]. split; [|by unfold upper2lower; rewrite length_fmap].
  unfold upper2lower. intros (c & Hc & Hin)%list_elem_of_fmap. symmetry in Hc. apply tolower_eq in Hc. by subst.
Qed.

(** The fields that stand for several spellings are bg, fg and sloppy. *)
Lemma alias_fields tag f t node : mountopts_alias tag = (f, t, node) ->
  t = MNT_UNSET \/ t = MNT_NOARG /\ (f = $"bg" \/ f = $"fg" \/ f = $"sloppy").
Proof. unfold mountopts_alias, mnt_alias_tab, List.find. cbn [alias]. intros E. repeat case_match; simplify_eq; cbn; tauto. Qed.

Lemma alias_lower tag f t node : mountopts_alias tag = (f, t, node) -> upper2lower f = f.
Proof.
  unfold mountopts_alias, mnt_alias_tab, List.find. cbn [alias]. intros E.
  repeat case_match; simplify_eq; try done. apply upper2lower_idemp.
Qed.

Lemma in_buf_short s : (length s < BUFSIZ)%nat -> in_buf s = s.
Proof. intros. unfold in_buf. apply take_ge. lia. Qed.

Lemma parse_plain s : "="%char ∉ s -> parse_option s = MOpt s None.
Proof. intros H. unfold parse_option. by rewrite (proj2 (strchr_None _ _) H). Qed.

Lemma parse_valued f v : tag_ok f ->
  parse_option (in_buf (f ++ "="%char :: v)) = MOpt f (Some (take (BUFSIZ - 2 - length f) v)).
Proof.
  intros [H1 H2]. unfold in_buf. rewrite take_app_ge by lia.
  replace (BUFSIZ - 1 - length f)%nat with (S (BUFSIZ - 2 - length f)) by lia. cbn [take].
  unfold parse_option. by rewrite strchr_app.
Qed.

Lemma o_has_true o f : o_has o f = true <-> exists b, b ∈ o /\ keyword b = f.
Proof.
  unfold o_has. rewrite existsb_exists. split; intros (b & Hb & Hk); exists b.
  - split; [by apply list_elem_of_In|by btrue].
  - split; [by apply list_elem_of_In|by subst; apply streq_refl].
Qed.

Lemma taken_spec o f : tag_ok f -> taken o f = true <-> exists b, b ∈ o /\ clashes (keyword b) f.
Proof.
  intros [_ Hl]. unfold taken. rewrite (proj2 (Nat.ltb_lt _ _) Hl), andb_true_l.
  rewrite !orb_true_iff, !andb_true_iff, !o_has_true, starts_with_spec. unfold clashes, streq. rewrite !bool_decide_eq_true.
  split.
  - intros [[[[H|[[t ->] H]]|H]|[-> H]]|[-> H]]; destruct H as (b & Hb & Hk); exists b; (split; [done|]); try tauto.
    right; left. by rewrite Hk.
  - intros (b & Hb & [Hk|[Hk|[Hk|[[-> Hk]|[-> Hk]]]]]); try (by eauto 8).
    left; left; left; right. split; [by eauto|]. exists b. by rewrite Hk.
Qed.

Lemma key_index_Some i kw keys : 0 <= i -> match key_index i kw keys with Some j => 0 <= j /\ kw ∈ keys | None => kw ∉ keys end.
Proof.
  revert i; induction keys as [|k keys IH]; intros i Hi; [set_solver|]. cbn [key_index].
  destruct (streq kw k) eqn:E; btrue; [set_solver|]. specialize (IH (i + 1) ltac:(lia)).
  destruct (key_index _ _ _); set_solver.
Qed.

Lemma rightmost_found o keys : (0 <=? o_rightmost o keys) = true <-> exists b, b ∈ o /\ keyword b ∈ keys.
Proof.
  unfold o_rightmost. split.
  - destruct (last _) as [i|] eqn:E; [|done]. intros _. apply last_Some_elem_of in E.
    apply list_elem_of_omap in E as (b & Hb & Hk). exists b. split; [done|].
    pose proof (key_index_Some 0 (keyword b) keys ltac:(lia)) as H. rewrite Hk in H. by destruct H.
  - intros (b & Hb & Hk). destruct (last _) as [i|] eqn:E; cbn [default].
    + apply last_Some_elem_of, list_elem_of_omap in E as (b' & _ & Hk').
      pose proof (key_index_Some 0 (keyword b') keys ltac:(lia)) as H. rewrite Hk' in H. apply Z.leb_le, H.
    + apply last_None in E. pose proof (key_index_Some 0 (keyword b) keys ltac:(lia)) as H.
      destruct (key_index 0 (keyword b) keys) as [j|] eqn:Ej; [|done].
      assert (j ∈ omap (fun a => key_index 0 (keyword a) keys) o) as Hj by (apply list_elem_of_omap; eauto).
      rewrite E in Hj. set_solver.
Qed.

Lemma prefix_found o p : o_prefix o p 0 <> None <-> exists b, b ∈ o /\ starts_with p (keyword b) = true.
Proof.
  change 0 with (Z.of_nat 0). rewrite o_prefix_nth. split.
  - destruct (filter _ o !! 0%nat) as [b|] eqn:E; [|done]. intros _. exists b.
    apply list_elem_of_lookup_2, list_elem_of_filter in E. tauto.
  - intros (b & Hb & Hs). destruct (filter _ o) eqn:E; [|done].
    assert (b ∈ filter (fun a => starts_with p (keyword a) = true) o) as Hf by (by apply list_elem_of_filter).
    rewrite E in Hf. set_solver.
Qed.

(** The flag [have_version] as the loop starts. *)
Definition versioned (o : opts) : Prop := exists b, b ∈ o /\ is_version (keyword b) = true.

Lemma have_version_spec o :
  (0 <=? o_rightmost o conf_version_keys) || match o_prefix o $"v4." 0 with Some _ => true | None => false end = true
  <-> versioned o.
Proof.
  rewrite orb_true_iff, rightmost_found.
  assert (match o_prefix o $"v4." 0 with Some _ => true | None => false end = true
          <-> exists b, b ∈ o /\ starts_with $"v4." (keyword b) = true) as ->.
  { rewrite <- prefix_found. by destruct (o_prefix o _ 0). }
  unfold versioned, is_version. setoid_rewrite orb_true_iff.
  assert (forall k, k ∈ conf_version_keys <-> existsb (fun k' => streq k' k) conf_version_keys = true) as Hk.
  { intros k. rewrite existsb_exists. setoid_rewrite <- list_elem_of_In. split; [eauto using streq_refl|].
    intros (k' & ? & ?); btrue; by subst. }
  setoid_rewrite Hk. split; [intros [(b & ? & ?)|(b & ? & ?)]; eauto|intros (b & ? & [?|?]); eauto].
Qed.

(** ** One setting *)

Lemma is_version_no f : is_version ($"no" ++ f) = false.
Proof.
  unfold is_version. apply orb_false_iff. split; [|done].
  apply not_true_is_false. intros (k & Hk & E)%existsb_exists. btrue. subst k.
  cbn in Hk. repeat (destruct Hk as [Hk|Hk]; [discriminate Hk|]). done.
Qed.

Definition negated (o : opts) : Prop := exists b k, b ∈ o /\ keyword b = $"no" ++ k /\ is_version k = true.

(** The flag is up when a version has been chosen or turned down. *)
Definition tracks (o : opts) (have : bool) : Prop :=
  (versioned o -> have = true) /\ (have = true -> versioned o \/ negated o).

Lemma versioned_snoc o a : versioned (o ++ [a]) <-> versioned o \/ is_version (keyword a) = true.
Proof. unfold versioned. set_solver. Qed.
Lemma negated_mono o a : negated o -> negated (o ++ [a]).
Proof. unfold negated. set_solver. Qed.

Lemma means_keyword f al v a : means f al v = Some a ->
  keyword a = f \/ keyword a = $"no" ++ f \/ is_version f = false /\ is_version (keyword a) = false.
Proof.
  unfold means. intros E. repeat case_match; simplify_eq; cbn [keyword]; try tauto.
  apply fmap_Some in E as (? & _ & ->). by left.
Qed.

Lemma tracks_add o have f a al v : tracks o have -> means f al v = Some a -> tracks (o ++ [a]) (have || is_version f).
Proof.
  intros [T1 T2] E. pose proof (means_keyword _ _ _ _ E) as K. unfold tracks. rewrite versioned_snoc, !orb_true_iff. split.
  - intros [H|H]; [by left; apply T1|]. destruct K as [K|[K|[_ K]]]; [right; congruence| |congruence].
    rewrite K, is_version_no in H. done.
  - intros [H|H].
    + destruct (T2 H); [tauto|]. right. by apply negated_mono.
    + destruct K as [K|[K|[K _]]]; [left; right; congruence| |congruence].
      right. exists a, f. split; [set_solver|done].
Qed.

Lemma grows_sub P o o' : grows P o o' -> o ⊆ o'.
Proof. induction 1; set_solver. Qed.

Section settings.
  Context (db : netdb) (getenv : cstr -> option cstr) (fuel : nat) (cf : conf).

Lemma put_opts text s : in_buf text <> [] ->
  c_opts (put db text s) = c_opts s ++ [parse_option (in_buf text)].
Proof.
  intros H. unfold put. destruct (in_buf text) as [|c l] eqn:E; [done|].
  unfold default_value. destruct (negb _); [done|]. cbn [snd].
  repeat case_match; done.
Qed.

(** What a setting that is not kept out does. *)
Lemma value_run f t v s have section arg tag node :
  mountopts_alias tag = (f, t, node) -> tag_ok tag -> f <> [] -> v <> [] ->
  taken (c_opts s) f = false -> is_version f && have = false ->
  conf_get_section getenv fuel cf section arg node = Some (Some v) ->
  exists s', add_setting db getenv fuel cf section arg tag (s, have) = inr (s', have || is_version f) /\
    (c_opts s' = c_opts s /\ f = $"sloppy" \/
     exists a, c_opts s' = c_opts s ++ [a] /\ means f (bool_decide (t = MNT_NOARG)) v = Some a).
Proof.
  intros Ea Hok Hf Hv Ht Hh Ev. pose proof (alias_ok _ _ _ _ Ea Hok) as [O1 O2]. pose proof (alias_fields _ _ _ _ Ea) as Af.
  unfold add_setting. rewrite Ea, Ht, Hh, Ev. unfold means.
  assert (forall x, (length x < BUFSIZ)%nat -> x <> [] -> "="%char ∉ x ->
            c_opts (put db x s) = c_opts s ++ [MOpt x None]) as P.
  { intros x Hl Hx He. rewrite put_opts; rewrite in_buf_short by done; [by rewrite parse_plain|done]. }
  destruct (strcaseeq v $"false"); [|destruct (strcaseeq v $"true")].
  - eexists; split; [done|]. destruct Af as [->|[-> Af]].
    + rewrite bool_decide_false by done. right. eexists. split; [|done]. apply P; [|done|set_solver].
      rewrite length_app. change (length $"no") with 2%nat. lia.
    + rewrite bool_decide_true by done. destruct Af as [->|[->| ->]]; [right..|left; done].
      * exists (MOpt $"fg" None). split; [|done]. apply P; [unfold BUFSIZ; cbn; lia|done|by vm_compute; set_solver].
      * exists (MOpt $"bg" None). split; [|done]. apply P; [unfold BUFSIZ; cbn; lia|done|by vm_compute; set_solver].
  - destruct (strcaseeq f $"sloppy" && c_strict s) eqn:Es.
    + exists s. split; [done|]. left. split; [done|]. apply andb_true_iff in Es as [Es _].
      apply strcaseeq_lower in Es. rewrite (alias_lower _ _ _ _ Ea) in Es. exact Es.
    + eexists; split; [done|]. right. eexists. split; [|done]. apply P; [lia|done|done].
  - unfold mountopts_convert. destruct (last v) as [ch|] eqn:El; [|by apply last_None in El].
    destruct (unit_factor ch); (eexists; split; [done|]; right; eexists; split; [|done]).
    all: rewrite put_opts; [by rewrite parse_valued|].
    all: destruct f as [|c f]; [done|]; cbn [app]; done.
Qed.
(** ** The settings of a section *)

Definition field_of (tag : cstr) : cstr := (mountopts_alias tag).1.1.
Definition aliased (tag : cstr) : bool := bool_decide ((mountopts_alias tag).1.2 = MNT_NOARG).

(** [v] is the value of [tag] in the section. *)
Definition setting (section : cstr) (arg : option cstr) (tag v : cstr) : Prop :=
  (exists tags, conf_get_tag_list cf section arg = Some tags /\ tag ∈ tags) /\
  conf_get_section getenv fuel cf section arg tag = Some (Some v).

Definition asks (section : cstr) (arg : option cstr) (f : cstr) (a : mopt) : Prop :=
  exists tag v, setting section arg tag v /\ f = field_of tag /\ means f (aliased tag) v = Some a.

(** The section can be listed, and every name in it is usual and has a value. *)
Definition readable (section : cstr) (arg : option cstr) : Prop :=
  exists tags, conf_get_tag_list cf section arg = Some tags /\
    Forall (fun tag => tag_ok tag /\ tag <> [] /\
                       exists v, conf_get_section getenv fuel cf section arg tag = Some (Some v) /\ v <> []) tags.

(** A setting is kept out by what contradicts it, and one of the version also by
    the negation of one. *)
Definition keeps_out (k f : cstr) : Prop :=
  contradicts k f \/ (is_version f = true /\ exists k', k = $"no" ++ k' /\ is_version k' = true).

(** Every setting is among the options or kept out by one of them. *)
Definition heeds (section : cstr) (arg : option cstr) (tags : list cstr) (o : opts) : Prop :=
  forall tag v, tag ∈ tags -> setting section arg tag v ->
    field_of tag = $"sloppy" \/
    exists b, b ∈ o /\ (means (field_of tag) (aliased tag) v = Some b \/ keeps_out (keyword b) (field_of tag)).

Lemma alias_node tag : upper2lower (mountopts_alias tag).2 = upper2lower tag.
Proof. unfold mountopts_alias. case_match; [done|]. apply upper2lower_idemp. Qed.

Lemma get_section_case section arg tag tag' :
  upper2lower tag = upper2lower tag' ->
  conf_get_section getenv fuel cf section arg tag = conf_get_section getenv fuel cf section arg tag'.
Proof.
  intros E. destruct fuel as [|n]; [done|]. cbn [conf_get_section].
  replace (List.find (binding_matches section arg tag) (chain cf section))
    with (List.find (binding_matches section arg tag') (chain cf section)); [done|].
  induction (chain cf section) as [|cb l IH]; [done|]. cbn [List.find].
  replace (binding_matches section arg tag' cb) with (binding_matches section arg tag cb); [by rewrite IH|].
  unfold binding_matches. f_equal. apply eq_true_iff_eq. rewrite !strcaseeq_lower. by rewrite E.
Qed.

Lemma field_nonempty tag : tag <> [] -> field_of tag <> [].
Proof.
  unfold field_of, mountopts_alias, mnt_alias_tab, List.find. cbn [alias]. intros H.
  repeat case_match; simplify_eq; try done. by destruct tag.
Qed.

(** One turn of the loop: the setting goes in, or an option keeps it out. *)
Lemma add_setting_run section arg tag v s have :
  tag_ok tag -> tag <> [] -> v <> [] -> tracks (c_opts s) have ->
  conf_get_section getenv fuel cf section arg tag = Some (Some v) ->
  exists s' have', add_setting db getenv fuel cf section arg tag (s, have) = inr (s', have') /\ tracks (c_opts s') have' /\
    (c_opts s' = c_opts s /\ (field_of tag = $"sloppy" \/ exists b, b ∈ c_opts s /\ keeps_out (keyword b) (field_of tag)) \/
     exists a, c_opts s' = c_opts s ++ [a] /\ means (field_of tag) (aliased tag) v = Some a /\
               Forall (fun b => ~ contradicts (keyword b) (field_of tag)) (c_opts s)).
Proof.
  intros Hok Hne Hv T Ev. pose proof (field_nonempty tag Hne) as Hf.
  pose proof (alias_node tag) as Hn. apply get_section_case with (section := section) (arg := arg) in Hn.
  unfold field_of, aliased in *. destruct (mountopts_alias tag) as [[f t] node] eqn:Ea. cbn [fst snd] in *.
  pose proof (alias_ok _ _ _ _ Ea Hok) as Hfo.
  destruct (taken (c_opts s) f) eqn:Et.
  { exists s, have. unfold add_setting. rewrite Ea, Et. split; [done|]. split; [done|]. left. split; [done|]. right.
    apply (taken_spec _ _ Hfo) in Et as (b & Hb & Hc). exists b. split; [done|]. left. by left. }
  destruct (is_version f && have) eqn:Eh.
  { exists s, have. unfold add_setting. rewrite Ea, Et, Eh. split; [done|]. split; [done|]. left. split; [done|]. right.
    apply andb_true_iff in Eh as [Eh ->]. destruct T as [_ [(b & Hb & Hk)|(b & k & Hb & Hk & Hv')]]; [done| |]; exists b; (split; [done|]).
    - left. by right.
    - right. eauto. }
  destruct (value_run f t v s have section arg tag node Ea Hok Hf Hv Et Eh ltac:(congruence)) as (s' & Er & [[Es ->]|(a & Es & Em)]).
  - exists s', (have || is_version $"sloppy"). split; [done|]. rewrite Es.
    split; [by rewrite (eq_refl : is_version $"sloppy" = false), orb_false_r|]. left. tauto.
  - exists s', (have || is_version f). split; [done|]. rewrite Es. split; [by eapply tracks_add|]. right. exists a.
    split; [done|]. split; [done|]. apply Forall_forall. intros b Hb [Hc|[V1 V2]].
    + assert (taken (c_opts s) f = true); [|congruence]. apply taken_spec; eauto.
    + destruct T as [T _]. rewrite V1, T in Eh; [done|]. by exists b.
Qed.

Lemma heeds_mono section arg tags o o' : o ⊆ o' -> heeds section arg tags o -> heeds section arg tags o'.
Proof. intros Ho H tag v Ht Hs. destruct (H tag v Ht Hs) as [?|(b & Hb & ?)]; [by left|]. right. exists b. auto. Qed.

Lemma add_settings_run section arg tags l s have :
  conf_get_tag_list cf section arg = Some tags -> l ⊆ tags -> tracks (c_opts s) have ->
  Forall (fun tag => tag_ok tag /\ tag <> [] /\
                     exists v, conf_get_section getenv fuel cf section arg tag = Some (Some v) /\ v <> []) l ->
  exists s' have', add_settings db getenv fuel cf section arg l (s, have) = inr (s', have') /\
    grows (asks section arg) (c_opts s) (c_opts s') /\ heeds section arg l (c_opts s').
Proof.
  intros Et. revert s have; induction l as [|tag l IH]; intros s have Hl T Hr.
  { exists s, have. split; [done|]. split; [constructor|]. intros ? ? H. set_solver. }
  apply Forall_cons in Hr as [(Hok & Hne & v & Ev & Hv) Hr].
  destruct (add_setting_run section arg tag v s have Hok Hne Hv T Ev) as (s1 & h1 & E1 & T1 & C).
  destruct (IH s1 h1 ltac:(set_solver) T1 Hr) as (s2 & h2 & E2 & G & C2).
  exists s2, h2. cbn [add_settings]. rewrite E1. split; [exact E2|]. pose proof (grows_sub _ _ _ G) as Sub.
  assert (grows (asks section arg) (c_opts s) (c_opts s2)) as G'.
  { destruct C as [[Eo _]|(a & Eo & Em & Hc)]; [by rewrite <- Eo|].
    eapply grows_add; [|exact Hc|by rewrite <- Eo]. exists tag, v. split; [|done]. split; [|done]. exists tags. set_solver. }
  split; [exact G'|]. intros tag' v' Hin Hs. apply elem_of_cons in Hin as [->|Hin]; [|by eapply C2].
  destruct Hs as [_ Ev']. assert (v' = v) as -> by congruence.
  destruct C as [[Eo [C|(b & Hb & Hk)]]|(a & Eo & Em & _)]; [by left|right..].
  - exists b. split; [apply Sub; by rewrite Eo|by right].
  - exists a. split; [apply Sub; rewrite Eo; set_solver|by left].
Qed.

Lemma parse_section_run section arg s :
  readable section arg ->
  exists s' tags, conf_parse_mntopts db getenv fuel cf section arg s = inr s' /\ conf_get_tag_list cf section arg = Some tags /\
    grows (asks section arg) (c_opts s) (c_opts s') /\ heeds section arg tags (c_opts s').
Proof.
  intros (tags & Et & Hr). unfold conf_parse_mntopts. rewrite Et.
  pose proof (have_version_spec (c_opts s)) as Hv. set (h := _ || _) in *. clearbody h.
  destruct (add_settings_run section arg tags tags s h Et ltac:(done)) as (s' & h' & E & G & C); [|done|].
  { split; [by apply Hv|]. intros ->. left. by apply Hv. }
  exists s', tags. by rewrite E.
Qed.

End settings.

(** ** The defaults *)

Definition is_default (a : mopt) : bool := starts_with $"default" (keyword a).
Definition no_defaults (o : opts) : opts := filter (fun a => is_default a = false) o.

Lemma strip_defaults_spec n o : (length o <= n)%nat -> strip_defaults n o = no_defaults o.
Proof.
  revert o; induction n as [|n IH]; intros o Hn; [by destruct o; [|cbn in Hn; lia]|]. cbn [strip_defaults].
  destruct (o_prefix o $"default" 0) as [k|] eqn:E.
  - change 0 with (Z.of_nat 0) in E. rewrite o_prefix_nth in E. apply fmap_Some in E as (a & Ha & ->).
    apply list_elem_of_lookup_2, list_elem_of_filter in Ha as [Hs Ha]. rewrite IH.
    + unfold no_defaults, o_remove. rewrite list_filter_filter. apply list_filter_iff. intros b. split; [tauto|].
      intros Hb. split; [done|]. unfold is_default in Hb. apply not_true_is_false. intros ?; btrue. congruence.
    + enough (length (o_remove o (keyword a)) < length o)%nat by lia.
      apply length_filter_lt with a; [done|]. by rewrite streq_refl.
  - symmetry. apply filter_all, Forall_forall. intros b Hb. unfold is_default. apply not_true_is_false. intros Hs.
    assert (o_prefix o $"default" 0 <> None) as H by (apply prefix_found; eauto). done.
Qed.

(** ** Properties *)

(** C35. How mount.nfs completes its options from /etc/nfsmount.conf.  When the
    sections that apply can be read, the options that the caller gave come first
    and in order, followed by those of the mount point, of the server and of the
    global section; an option from the file is there only if no option before it,
    given or from a section read earlier, is the same, its negation, the other of
    fg and bg, or another choice of version, so nothing is overridden; and every
    setting is among the options or kept out by one of them.  Settings called
    default... are removed at the end, the caller's included. *)
Theorem conf_merges db getenv fuel cf spec mp given user s :
  match given with None => Some [] | Some str => o_split str end = Some user ->
  readable getenv fuel cf NFSMOUNT_MOUNTPOINT (Some mp) ->
  readable getenv fuel cf NFSMOUNT_SERVER (Some (server_of spec)) ->
  readable getenv fuel cf NFSMOUNT_GLOBAL_OPTS None ->
  exists o1 o2 o3 s',
    conf_get_mntopts db getenv fuel cf spec mp given s = inr (Some (join_opts (no_defaults o3)), s') /\
    grows (asks getenv fuel cf NFSMOUNT_MOUNTPOINT (Some mp)) user o1 /\
    grows (asks getenv fuel cf NFSMOUNT_SERVER (Some (server_of spec))) o1 o2 /\
    grows (asks getenv fuel cf NFSMOUNT_GLOBAL_OPTS None) o2 o3 /\
    forall section arg tag v,
      (section, arg) ∈ [(NFSMOUNT_MOUNTPOINT, Some mp); (NFSMOUNT_SERVER, Some (server_of spec)); (NFSMOUNT_GLOBAL_OPTS, None)] ->
      setting getenv fuel cf section arg tag v ->
      field_of tag = $"sloppy" \/
      exists b, b ∈ o3 /\ (means (field_of tag) (aliased tag) v = Some b \/ keeps_out (keyword b) (field_of tag)).
Proof.
  intros Eu R1 R2 R3. unfold conf_get_mntopts. rewrite Eu.
  set (s0 := set_opts _ user). change user with (c_opts s0).
  destruct (parse_section_run db getenv fuel cf _ _ s0 R1) as (s1 & l1 & -> & T1 & G1 & H1).
  destruct (parse_section_run db getenv fuel cf _ _ s1 R2) as (s2 & l2 & -> & T2 & G2 & H2).
  destruct (parse_section_run db getenv fuel cf _ _ s2 R3) as (s3 & l3 & -> & T3 & G3 & H3).
  exists (c_opts s1), (c_opts s2), (c_opts s3). eexists. rewrite strip_defaults_spec by done.
  split; [done|]. do 3 (split; [done|]).
  pose proof (grows_sub _ _ _ G2) as S2. pose proof (grows_sub _ _ _ G3) as S3.
  apply (heeds_mono _ _ _ _ _ _ _ _ S3) in H2. apply (heeds_mono _ _ _ _ _ _ _ _ S2), (heeds_mono _ _ _ _ _ _ _ _ S3) in H1.
  intros section arg tag v Hin Hs. pose proof Hs as [(tags & Et & Ht) _].
  rewrite !elem_of_cons in Hin. destruct Hin as [[= -> ->]|[[= -> ->]|[[= -> ->]|[]%not_elem_of_nil]]].
  - eapply H1; [|exact Hs]. congruence.
  - eapply H2; [|exact Hs]. congruence.
  - eapply H3; [|exact Hs]. congruence.
Qed.

Definition conf_sets (l : list (cstr * option cstr * cstr * cstr)) : conf :=
  foldl (fun cf '(section, arg, tag, value) =>
           match conf_set_now (fun _ => None) 1 cf section arg tag value false false with Some (cf, _) => cf | None => cf end)
        conf_empty l.

Definition mntconf_ex : conf :=
  conf_sets [($"MountPoint", Some $"/mnt", $"Background", $"True"); ($"Server", Some $"srv", $"Rsize", $"32k");
             ($"Server", Some $"srv", $"Vers", $"3"); ($"NFSMount_Global_Options", None, $"lock", $"False");
             ($"NFSMount_Global_Options", None, $"Defaultvers", $"4.1")].
Definition netdb_none : netdb := NetDb [] (fun _ => None) (fun _ => None) (fun _ => None) (fun z => z) F_UNSPEC.
Definition cstate_init : cstate := CState [] false (NV 0 0 V_DEFAULT) 0 F_UNSPEC.

Lemma mntconf_ex_runs :
  (fun r => (r.1, c_vers r.2)) <$> match conf_get_mntopts netdb_none (fun _ => None) 1 mntconf_ex $"srv:/e" $"/mnt" (Some $"ro,vers=4") cstate_init
                                   with inr r => Some r | inl _ => None end
  = Some (Some $"ro,vers=4,bg,rsize=32768,nolock", NV 4 1 V_SPECIFIC).
Proof. vm_compute. reflexivity. Qed.

Ltac read_section :=
  eexists; split; [vm_compute; reflexivity|];
  repeat constructor; try (by vm_compute; set_solver); try (unfold BUFSIZ; cbn; lia);
  eexists; (split; [vm_compute; reflexivity|done]).

Lemma conf_merges_witness :
  exists o3 s', conf_get_mntopts netdb_none (fun _ => None) 1 mntconf_ex $"srv:/e" $"/mnt" (Some $"ro,vers=4") cstate_init
                = inr (Some (join_opts (no_defaults o3)), s').
Proof.
  destruct (conf_merges netdb_none (fun _ => None) 1 mntconf_ex $"srv:/e" $"/mnt" (Some $"ro,vers=4")
              [MOpt $"ro" None; MOpt $"vers" (Some $"4")] cstate_init) as (_ & _ & o3 & s' & E & _).
  - reflexivity.
  - read_section.
  - read_section.
  - read_section.
  - eauto.
Defined.

Lemma utoa_aux_head fuel n acc : 0 < n < 10 ^ Z.of_nat fuel -> exists c s, utoa_aux fuel 10 n acc = c :: s /\ c <> "0"%char.
Proof.
  revert n acc; induction fuel as [|f IH]; intros n acc Hn; [cbn in Hn; lia|].
  rewrite Nat2Z.inj_succ, Z.pow_succ_r in Hn by lia. cbn [utoa_aux]. case_if; btrue.
  - eexists _, _. split; [done|]. rewrite Z.mod_small by lia. unfold digit_char. rewrite (proj2 (Z.ltb_lt _ _)) by lia.
    intros Hc. apply (f_equal uchar) in Hc. rewrite uchar_chr in Hc by lia. change (uchar "0") with 48 in Hc. lia.
  - apply IH. split; [apply Z.div_str_pos; lia|apply Z.div_lt_upper_bound; lia].
Qed.

Lemma utoa_head n : 0 < n -> exists c s, utoa 10 n = c :: s /\ c <> "0"%char.
Proof.
  intros Hn. apply utoa_aux_head. split; [done|]. pose proof (Z.log2_spec n Hn) as [_ L]. pose proof (Z.log2_nonneg n).
  rewrite Nat2Z.inj_succ, Z2Nat.id by done. eapply Z.lt_le_trans; [exact L|]. apply Z.pow_le_mono_l; lia.
Qed.

(** A number with a unit in the file becomes the number of bytes: n followed by
    k, m or g, in either case, is n times 2^10, 2^20 or 2^30, as long as that fits
    a signed 64-bit integer. *)
Theorem mountopts_convert_unit (n factor : Z) (ch : ascii) :
  0 <= n -> unit_factor ch = Some factor -> n * factor <= LONG_MAX ->
  factor ∈ [2 ^ 10; 2 ^ 20; 2 ^ 30] /\ mountopts_convert (utoa 10 n ++ [ch]) = Some (utoa 10 (n * factor)).
Proof.
  intros Hn Hf Hm.
  assert (factor ∈ [2 ^ 10; 2 ^ 20; 2 ^ 30]) as Hfac.
  { unfold unit_factor in Hf. repeat case_match; simplify_eq; unfold KBYTES, MEGABYTES, GIGABYTES; set_solver by lia. }
  split; [done|]. assert (1 <= factor) as H1 by (rewrite !elem_of_cons in Hfac; destruct Hfac as [->|[->|[->|[]%not_elem_of_nil]]]; lia).
  assert (number n) as Nn by (unfold number; nia).
  unfold mountopts_convert. rewrite last_snoc, Hf, length_app. cbn [length].
  replace (length (utoa 10 n) + 1 - 1)%nat with (length (utoa 10 n)) by lia. rewrite take_app_length.
  assert ((if starts_with $"0x" (utoa 10 n) then st_value (strtol 16 (utoa 10 n))
           else if starts_with $"0" (utoa 10 n) then st_value (strtol 8 (utoa 10 n))
           else st_value (strtol 10 (utoa 10 n))) = n) as ->.
  { destruct (decide (n = 0)) as [->|]; [reflexivity|]. rewrite (strtol_number n Nn).
    destruct (utoa_head n ltac:(lia)) as (c & s & -> & Hc).
    change (starts_with $"0x" (c :: s)) with (ceqb "0" c && starts_with $"x" s).
    change (starts_with $"0" (c :: s)) with (ceqb "0" c && true).
    assert (ceqb "0" c = false) as -> by (apply not_true_is_false; intros ?; btrue; congruence). done. }
  rewrite (u64_number n Nn), (u64_number (n * factor)) by (unfold number; nia).
  unfold i64, itoa. unfold LONG_MAX in Hm. rewrite Z.mod_small by nia. rewrite Z.add_simpl_r.
  by rewrite (proj2 (Z.ltb_ge _ _)) by nia.
Qed.

Lemma mountopts_convert_unit_witness : mountopts_convert $"32k" = Some $"32768".
Proof. apply (mountopts_convert_unit 32 1024 "k"); [lia|reflexivity|unfold LONG_MAX; lia]. Defined.

(** A word that ends in k, m or g is taken for a number: local_lock=flock is passed
    on as local_lock=0, and a host name as 0. *)
Theorem mountopts_convert_word : mountopts_convert $"flock" = Some $"0" /\ mountopts_convert $"nas.example.org" = Some $"0".
Proof. vm_compute. auto. Qed.

(** A section that gives the version and the minor version as two settings, as the
    command line can, has one of them dropped. *)
Theorem conf_minorversion_dropped :
  (fun r => r.1) <$> match conf_get_mntopts netdb_none (fun _ => None) 1
                       (conf_sets [($"Server", Some $"srv", $"Vers", $"4"); ($"Server", Some $"srv", $"Minorversion", $"1")])
                       $"srv:/e" $"/mnt" None cstate_init with inr r => Some r | inl _ => None end
  = Some (Some $"minorversion=1").
Proof. vm_compute. reflexivity. Qed.

(** The negation of bg in its own spelling is an option nobody knows. *)
Theorem conf_bg_false :
  (fun r => r.1) <$> match conf_get_mntopts netdb_none (fun _ => None) 1
                       (conf_sets [($"NFSMount_Global_Options", None, $"Bg", $"False")])
                       $"srv:/e" $"/mnt" None cstate_init with inr r => Some r | inl _ => None end
  = Some (Some $"nobg").
Proof. vm_compute. reflexivity. Qed.
