(* ===== verification/Mntent.v ===== *)
(** * The table of mounts as a file (support/nfs/nfs_mntent.c, utils/mount/fstab.c)

    /etc/fstab, /etc/mtab and /proc/mounts are read line by line into entries;
    blanks and backslashes in a field are written as octal escapes.  A file is its
    text.  Lines are read into a buffer of 4096 bytes; a longer line is an error that
    ends the file, and so is the fifth line that cannot be understood.

    fstab.c keeps the entries on a circular list with a dummy head.  [update_mtab]
    reads /etc/mtab into such a list, edits it, writes the list to a new file and
    renames that one to /etc/mtab.  The list is modelled on the store of [Heap]. *)

From S2P Require Import Prelude Heap.

(** ** Fields *)

Definition need_escaping : list ascii := [SP; TAB; NL; BSLASH].

Definition octal (c : ascii) : cstr :=
  [BSLASH; chr (48 + Z.shiftr (Z.land (uchar c) 192) 6);
   chr (48 + Z.shiftr (Z.land (uchar c) 56) 3); chr (48 + Z.land (uchar c) 7)].

Fixpoint mangle (s : cstr) : cstr :=
  match s with
  | [] => []
  | c :: s => (if existsb (ceqb c) need_escaping then octal c else [c]) ++ mangle s
  end.

Definition skip_spaces (s : cstr) : cstr := skip_while isblank s.
Definition skip_nonspaces (s : cstr) : cstr := skip_while (fun c => negb (isblank c)) s.

Definition isoctal (c : ascii) : bool := Z.land (uchar c) (Z.lnot 7) =? 48.

Fixpoint unmangle_loop (s : cstr) : cstr :=
  match s with
  | [] => []
  | c :: s' =>
      match s' with
      | a :: b :: d :: r =>
          if ceqb c BSLASH && isoctal a && isoctal b && isoctal d
          then chr (64 * Z.land (uchar a) 7 + 8 * Z.land (uchar b) 7 + Z.land (uchar d) 7) :: unmangle_loop r
          else c :: unmangle_loop s'
      | _ => c :: unmangle_loop s'
      end
  end.

(** The string ends at the first NUL that was written. *)
Definition unmangle (s : cstr) : cstr :=
  let field := (span (fun c => negb (isblank c)) s).1 in
  (span (fun c => negb (ceqb c NUL)) (unmangle_loop field)).1.

(** ** Entries *)

Record mntent := Mntent
  { mnt_fsname : cstr; mnt_dir : cstr; mnt_type : cstr; mnt_opts : cstr; mnt_freq : Z; mnt_passno : Z }.
#[export] Instance mntent_eq : EqDecision mntent.
Proof. solve_decision. Defined.

Definition mntent_line (mnt : mntent) : cstr :=
  mangle (mnt_fsname mnt) ++ [SP] ++ mangle (mnt_dir mnt) ++ [SP] ++ mangle (mnt_type mnt) ++ [SP]
  ++ mangle (mnt_opts mnt) ++ [SP] ++ itoa (mnt_freq mnt) ++ [SP] ++ itoa (mnt_passno mnt) ++ [NL].

(** How the C library fares with an entry: the position cannot be set; printing
    fails after some bytes; flushing fails after some bytes, and the file is or is
    not cut back. *)
Inductive add_fate := A_Ok | A_Seek | A_Print (n : nat) | A_Flush (n : nat) (cut : bool).

(** The result of [nfs_addmntent], and the file. *)
Definition nfs_addmntent (fate : add_fate) (file : cstr) (mnt : mntent) : Z * cstr :=
  match fate with
  | A_Seek => (1, file)
  | A_Print n => (1, file ++ take n (mntent_line mnt))
  | A_Flush n cut => (1, if cut then file else file ++ take n (mntent_line mnt))
  | A_Ok => (0, file ++ mntent_line mnt)
  end.

(** [mntFILE]: what is left of the file, and the error counters. *)
Record mntFILE := MF { mf_rest : cstr; mntent_errs : bool; mntent_softerrs : Z }.
Definition ERR_MAX : Z := 5.
Definition nfs_setmntent (file : cstr) : mntFILE := MF file false 0.

(** [fgets(buf, 4096, fp)]: the bytes up to and with a newline, 4095 at most. *)
Definition fgets (rest : cstr) : option (cstr * cstr) :=
  match rest with
  | [] => None
  | _ =>
      let line := (span (fun c => negb (ceqb c NL)) rest).1 in
      let n := Nat.min 4095 (S (length line)) in
      Some (take n rest, drop n rest)
  end.

Definition atoi_field (s : cstr) : Z * cstr :=
  if isdigit (deref s) then (atoi s, skip_while isdigit s) else (0, s).
Definition at_word_end (s : cstr) : bool := ceqb (deref s) NUL || isblank (deref s).

(** From [me.mnt_fsname = unmangle(s)] on; [None] is [goto err]. *)
Definition read_fields (s : cstr) : option mntent :=
  let fsname := unmangle s in
  let s := skip_spaces (skip_nonspaces s) in
  let dir := unmangle s in
  let s := skip_spaces (skip_nonspaces s) in
  let type := unmangle s in
  let s := skip_spaces (skip_nonspaces s) in
  let opts := unmangle s in
  let s := skip_spaces (skip_nonspaces s) in
  let '(freq, s) := atoi_field s in
  if negb (at_word_end s) then None
  else
    let s := skip_spaces s in
    let '(passno, s) := atoi_field s in
    if negb (at_word_end s) then None
    else Some (Mntent fsname dir type opts freq passno).

(** The line without its newline and the carriage return before it. *)
Definition chomp (s : cstr) : cstr :=
  match last s with Some c => if ceqb c CR then take (length s - 1) s else s | None => s end.

(** [nfs_getmntent]: a turn for each line.  [None] is fuel exhausted. *)
Fixpoint nfs_getmntent (fuel : nat) (mfp : mntFILE) : option (option mntent * mntFILE) :=
  match fuel with
  | O => None
  | S fuel =>
      if mntent_errs mfp || (ERR_MAX <=? mntent_softerrs mfp) then Some (None, mfp)
      else
        match fgets (mf_rest mfp) with
        | None => Some (None, mfp)
        | Some (buf, rest) =>
            let '(line, more) := span (fun c => negb (ceqb c NL)) buf in
            if bool_decide (more = []) && negb (length buf <? 4095)%nat
            then nfs_getmntent fuel (MF rest true (mntent_softerrs mfp + 1))
            else
              let mfp := MF rest (mntent_errs mfp) (mntent_softerrs mfp) in
              let s := skip_spaces (chomp line) in
              if ceqb (deref s) NUL || ceqb (deref s) "#" then nfs_getmntent fuel mfp
              else
                match read_fields s with
                | Some me => Some (Some me, mfp)
                | None => nfs_getmntent fuel (MF rest (mntent_errs mfp) (mntent_softerrs mfp + 1))
                end
        end
  end.

(** ** The list of entries *)

(** The payload of a node: an entry, and whether its device and type are NULL
    pointers, as those of [try_remount] are. *)
Record chn_ent := CE { ce_m : mntent; ce_null : bool }.
Abbreviation cM := (hM chn_ent).

(** [xmalloc] ends the command when there is no memory, which is left out. *)
Definition xmalloc (a : chn_ent) : cM ptr :=
  fun s => let l := fresh (dom (cells s)) in Some (Some l, HState (<[l := Node None None a]> (cells s)) (budget s)).

Definition MNTTYPE_IGNORE : cstr := $"ignore".

Fixpoint read_chn (fuel : nat) (mfp : mntFILE) (mc0 mc : ptr) : cM ptr :=
  match fuel with
  | O => hfail
  | S fuel =>
      match nfs_getmntent (S (length (mf_rest mfp))) mfp with
      | None => hfail
      | Some (None, _) => hret mc
      | Some (Some mnt, mfp) =>
          if streq (mnt_type mnt) MNTTYPE_IGNORE then read_chn fuel mfp mc0 mc
          else
            let* p := xmalloc (CE mnt false) in
            set_next mc p ;* set_prev p mc ;* set_next p mc0 ;* read_chn fuel mfp mc0 p
      end
  end.

(** [ferror] is given. *)
Definition read_mntentchn (mfp : mntFILE) (ferror : bool) (mc0 : ptr) : cM unit :=
  let* mc := read_chn (S (length (mf_rest mfp))) mfp mc0 mc0 in
  set_prev mc0 mc ;*
  (if ferror then set_next mc0 None ;* set_prev mc0 None else hret tt).

(** [for (mc = mc0->prev; mc && mc != mc0; mc = mc->prev) if (...) break;]: where
    the loop ends. *)
Fixpoint find_back (fuel : nat) (test : mntent -> bool) (mc0 mc : ptr) : cM ptr :=
  match fuel with
  | O => hfail
  | S fuel =>
      if bool_decide (mc = None) || bool_decide (mc = mc0) then hret mc
      else let* n := load mc in
           if test (ce_m (data n)) then hret mc else find_back fuel test mc0 (prev n)
  end.

(** The entry that replaces or joins the table: [None] of its device and type is
    the NULL of [try_remount]. *)
Definition edit_chn (dir : cstr) (instead : option chn_ent) (mc0 : ptr) : cM unit :=
  let* h := load mc0 in
  let* mc := with_fuel (fun fuel => find_back (S fuel) (fun m => streq (mnt_dir m) dir) mc0 (prev h)) in
  if negb (bool_decide (mc = None)) && negb (bool_decide (mc = mc0)) then
    match instead with
    | None =>
        let* n := load mc in
        set_next (prev n) (next n) ;* set_prev (next n) (prev n) ;* hfree mc
    | Some i =>
        let* n := load mc in
        let m := ce_m (data n) in
        set_data mc (CE (Mntent (mnt_fsname m) (mnt_dir m) (mnt_type m) (mnt_opts (ce_m i)) (mnt_freq m) (mnt_passno m))
                        (ce_null (data n)))
    end
  else
    match instead with
    | None => hret tt
    | Some i =>
        let* absent := xmalloc i in
        set_next absent mc0 ;*
        let* h := load mc0 in
        set_prev absent (prev h) ;* set_prev mc0 absent ;*
        let* h := load mc0 in
        match next h with None => set_next mc0 absent | Some _ => hret tt end
    end.

(** The loop that writes the new file: [inl] is a failure, which ends the command. *)
Fixpoint write_chn (fuel : nat) (fates : nat -> add_fate) (i : nat) (file : cstr) (mc0 mc : ptr) : cM (cstr + cstr) :=
  match fuel with
  | O => hfail
  | S fuel =>
      if bool_decide (mc = None) || bool_decide (mc = mc0) then hret (inr file)
      else
        let* n := load mc in
        if ce_null (data n) then hfail
        else
          let '(res, file) := nfs_addmntent (fates i) file (ce_m (data n)) in
          if res =? 1 then hret (inl file) else write_chn fuel fates (S i) file mc0 (next n)
  end.

(** The file system as [update_mtab] meets it: whether /etc/mtab is there, is a
    symbolic link, can be written, opened and read to its end; whether the new file
    can be opened; the fate of each entry; whether the file can be renamed. *)
Record mtab_io := MtabIO
  { io_absent : bool; io_symlink : bool; io_writable : bool; io_open : bool; io_ferror : bool;
    io_open_tmp : bool; io_fates : nat -> add_fate; io_rename : bool }.

Definition mtab_is_writable (io : mtab_io) : bool := negb (io_symlink io) && io_writable io.

Definition dummy : chn_ent := CE (Mntent [] [] [] [] 0 0) true.

(** /etc/mtab after [update_mtab], and whether the command goes on.  [None] is a
    bad access. *)
Definition update_mtab (io : mtab_io) (mtab dir : cstr) (instead : option chn_ent) : option (cstr * bool) :=
  if io_absent io || negb (mtab_is_writable io) then Some (mtab, true)
  else if negb (io_open io) then Some (mtab, true)
  else
    let mc0 : ptr := Some 1%positive in
    match
      (read_mntentchn (nfs_setmntent mtab) (io_ferror io) mc0 ;*
       edit_chn dir instead mc0 ;*
       if negb (io_open_tmp io) then hret None
       else
         let* h := load mc0 in
         let* r := with_fuel (fun fuel => write_chn (S fuel) (io_fates io) 0 [] mc0 (next h)) in
         hret (Some r)) (HState {[1%positive := Node None None dummy]} 0)
    with
    | None => None
    | Some (None, _) => Some (mtab, true)
    | Some (Some (inl _), _) => Some (mtab, false)
    | Some (Some (inr file), _) => Some (if io_rename io then file else mtab, true)
    end.

(** The entries of the list, from its last one: [getmntdirbackward],
    [getmntdevbackward] and their like search it so; [getfsfile] from its first. *)
Fixpoint entries (fuel : nat) (mfp : mntFILE) : list mntent :=
  match fuel with
  | O => []
  | S fuel =>
      match nfs_getmntent (S (length (mf_rest mfp))) mfp with
      | Some (Some mnt, mfp) => if streq (mnt_type mnt) MNTTYPE_IGNORE then entries fuel mfp else mnt :: entries fuel mfp
      | _ => []
      end
  end.
Definition read_entries (file : cstr) : list mntent := entries (S (length file)) (nfs_setmntent file).

Definition getfsfile (fstab : list mntent) (file : cstr) : option mntent :=
  List.find (fun m => streq (mnt_dir m) file) fstab.
Definition getfsspec (fstab : list mntent) (spec : cstr) : option mntent :=
  List.find (fun m => streq (mnt_fsname m) spec) fstab.
Definition getmntdirbackward (mtab : list mntent) (name : cstr) : option mntent :=
  List.find (fun m => streq (mnt_dir m) name) (reverse mtab).
Definition getmntdevbackward (mtab : list mntent) (name : cstr) : option mntent :=
  List.find (fun m => streq (mnt_fsname m) name) (reverse mtab).

(** ** Reading ends *)

Lemma fgets_shorter rest buf rest' : fgets rest = Some (buf, rest') -> (length rest' < length rest)%nat.
Proof. unfold fgets. destruct rest as [|c r]; [done|]. intros [= _ <-]. rewrite length_drop. cbn [length]. lia. Qed.

Lemma getmntent_total fuel mfp :
  (length (mf_rest mfp) < fuel)%nat ->
  exists r mfp', nfs_getmntent fuel mfp = Some (r, mfp') /\
    (length (mf_rest mfp') <= length (mf_rest mfp))%nat /\ (r <> None -> (length (mf_rest mfp') < length (mf_rest mfp))%nat).
Proof.
  revert mfp; induction fuel as [|fuel IH]; intros mfp Hf; [lia|]. cbn [nfs_getmntent].
  destruct (_ || _); [by eexists _, _|]. destruct (fgets (mf_rest mfp)) as [[buf rest]|] eqn:E; [|by eexists _, _].
  apply fgets_shorter in E.
  assert (forall e n, exists r mfp', nfs_getmntent fuel (MF rest e n) = Some (r, mfp') /\
    (length (mf_rest mfp') <= length (mf_rest mfp))%nat /\ (r <> None -> (length (mf_rest mfp') < length (mf_rest mfp))%nat)) as H.
  { intros e n. destruct (IH (MF rest e n)) as (r & m' & E' & H1 & H2); [cbn; lia|]. exists r, m'. cbn in H1. split; [done|]. lia. }
  destruct (span _ buf) as [line more]. destruct (_ && _); [apply H|]. cbn [mntent_errs mntent_softerrs].
  destruct (_ || _); [apply H|]. destruct (read_fields _) as [me|]; [|apply H].
  eexists _, _. split; [done|]. cbn. split; [lia|]. intros _. lia.
Qed.

(** ** The ring of entries *)

Implicit Types (h : gmap loc (node chn_ent)) (l : list (loc * chn_ent)).

(** The nodes of [l] hang between the head and the head; [nil] is the head's next
    when there are none, and [pv] its previous. *)
Definition ring h (mc0 : loc) l (nil pv : ptr) : Prop :=
  NoDup (mc0 :: l.*1) /\ (exists d, h !! mc0 = Some (Node (hd_loc l nil) pv d)) /\ dseg h (Some mc0) l (Some mc0).

Lemma ring_outside h mc0 l nil pv x : ring h mc0 l nil pv -> h !! x = None -> x <> mc0 /\ x ∉ l.*1.
Proof.
  intros (_ & [d Hd] & D) Hx. split; [congruence|]. intros Hin. apply (dseg_dom _ _ _ _ _ D) in Hin.
  apply not_elem_of_dom in Hx. done.
Qed.

Lemma ring_set_prev s mc0 l nil pv pv' :
  ring (cells s) mc0 l nil pv ->
  exists s', set_prev (Some mc0) pv' s = Some (tt, s') /\ ring (cells s') mc0 l nil pv'.
Proof.
  intros (N & [d Hd] & D). eexists. split; [by apply set_prev_ok|]. cbn [cells next data].
  split; [done|]. split; [exists d; by rewrite lookup_insert_eq|].
  apply NoDup_cons in N as [N _]. by apply dseg_insert.
Qed.

(** A new node behind the last one, as [read_mntentchn] links it. *)
Lemma ring_append s mc0 l pv a :
  ring (cells s) mc0 l None pv ->
  exists p s', (let* p := xmalloc a in
                set_next (last_loc (Some mc0) l) p ;* set_prev p (last_loc (Some mc0) l) ;* set_next p (Some mc0) ;* hret p) s
               = Some (Some p, s') /\ ring (cells s') mc0 (l ++ [(p, a)]) None pv.
Proof.
  intros R. pose proof R as (N & [d Hd] & D). set (p := fresh (dom (cells s))).
  assert (cells s !! p = None) as Hp by apply fresh_cells. destruct (ring_outside _ _ _ _ _ _ R Hp) as [P1 P2].
  unfold xmalloc, hbind at 1. fold p.
  assert (is_Some (cells s !! (default mc0 (last_loc (Some mc0) l)))) as [n Hn].
  { destruct l as [|[y b] l' _] using rev_ind; [by eauto|]. rewrite last_loc_snoc.
    apply (dseg_lookup _ _ _ _ y b D). set_solver. }
  destruct (last_loc (Some mc0) l) as [y|] eqn:Ey; [|exfalso; revert Ey; clear; revert mc0; induction l as [|[] l IH]; intros ? H; [done|exact (IH _ H)]].
  cbn in Hn. assert (y <> p) as Hy by congruence.
  eexists p, _. split.
  { erewrite hbind_ok by (apply set_next_ok; cbn [cells]; by simplify_map_eq). cbn [cells budget].
    erewrite hbind_ok by (apply set_prev_ok; cbn [cells]; by simplify_map_eq). cbn [cells budget next prev data].
    erewrite hbind_ok by (apply set_next_ok; cbn [cells]; by simplify_map_eq). cbn [cells budget next prev data]. reflexivity. }
  cbn [cells]. rewrite insert_insert_eq.
  rewrite (insert_insert_ne _ y p) by done. rewrite insert_insert_eq.
  destruct l as [|[z b] l' _] using rev_ind.
  - cbn in Ey. simplify_eq. split; [by repeat constructor; set_solver|]. split.
    + exists d. cbn [app hd_loc prev data]. by simplify_map_eq.
    + cbn. by simplify_map_eq.
  - rewrite last_loc_snoc in Ey. simplify_eq. rewrite fmap_app in *. apply NoDup_cons in N as [N0 N].
    apply dseg_app in D as D'. destruct D' as [_ [Dz _]]. rewrite Dz in Hn. simplify_eq. cbn [prev data].
    split; [|split].
    + rewrite !fmap_app. constructor; [set_solver|]. apply NoDup_app. split; [done|]. split; [set_solver|]. by repeat constructor; set_solver.
    + exists d. rewrite lookup_insert_ne, lookup_insert_ne by set_solver. rewrite Hd. by rewrite (hd_loc_app (l' ++ [(y, b)])), !hd_loc_app.
    + apply dseg_app. cbn [hd_loc]. split.
      * rewrite (insert_insert_ne _ p y) by done. eapply dseg_set_last; [by rewrite fmap_app|].
        apply dseg_insert; [by rewrite fmap_app|done].
      * rewrite last_loc_snoc. split; [|done]. by simplify_map_eq.
Qed.

Definition as_read (l : list mntent) : list chn_ent := (fun m => CE m false) <$> l.

Lemma read_chn_run fuel mfp mc0 l pv s :
  (length (mf_rest mfp) < fuel)%nat -> ring (cells s) mc0 l None pv ->
  exists l' s', read_chn fuel mfp (Some mc0) (last_loc (Some mc0) l) s = Some (last_loc (Some mc0) l', s') /\
    ring (cells s') mc0 l' None pv /\ l'.*2 = l.*2 ++ as_read (entries fuel mfp).
Proof.
  revert mfp l s; induction fuel as [|fuel IH]; intros mfp l s Hf R; [lia|]. cbn [read_chn entries].
  destruct (getmntent_total (S (length (mf_rest mfp))) mfp ltac:(lia)) as (r & mfp' & -> & H1 & H2).
  destruct r as [mnt|]; [|exists l, s; by rewrite app_nil_r].
  specialize (H2 ltac:(done)). destruct (streq (mnt_type mnt) MNTTYPE_IGNORE); [apply IH; [lia|done]|].
  destruct (ring_append s mc0 l pv (CE mnt false) R) as (p & s1 & E1 & R1).
  destruct (IH mfp' (l ++ [(p, CE mnt false)]) s1 ltac:(lia) R1) as (l' & s2 & E2 & R2 & El).
  exists l', s2. split; [|split; [done|]].
  - rewrite last_loc_snoc in E2. rewrite <- E2. revert E1. unfold hbind, hret.
    destruct (xmalloc _ s) as [[q sa]|]; [|done]. destruct (set_next (last_loc (Some mc0) l) q sa) as [[[] sb]|]; [|done].
    destruct (set_prev q _ sb) as [[[] sc]|]; [|done]. destruct (set_next q _ sc) as [[[] sd]|]; [|done]. by intros [= -> ->].
  - rewrite El, fmap_app, <- app_assoc. done.
Qed.

Lemma read_mntentchn_run mfp ferror mc0 s :
  cells s = {[mc0 := Node None None dummy]} ->
  exists l s', read_mntentchn mfp ferror (Some mc0) s = Some (tt, s') /\
    l.*2 = as_read (if ferror then [] else entries (S (length (mf_rest mfp))) mfp) /\
    ring (cells s') mc0 l None (if ferror then None else last_loc (Some mc0) l).
Proof.
  intros Hs. assert (ring (cells s) mc0 [] None None) as R.
  { rewrite Hs. split; [by repeat constructor; set_solver|]. split; [|done]. exists dummy. by simplify_map_eq. }
  destruct (read_chn_run (S (length (mf_rest mfp))) mfp mc0 [] None s ltac:(lia) R) as (l & s1 & E1 & R1 & El).
  unfold read_mntentchn. cbn [last_loc] in E1. erewrite hbind_ok by exact E1.
  destruct (ring_set_prev s1 mc0 l None None (last_loc (Some mc0) l) R1) as (s2 & E2 & R2).
  erewrite hbind_ok by exact E2. destruct ferror.
  - destruct R2 as (N2 & [d Hd] & D2). eexists [], _. split; [|split; [done|]].
    + erewrite hbind_ok by (by apply set_next_ok). apply set_prev_ok. cbn [cells]. by simplify_map_eq.
    + cbn [cells prev data]. split; [by repeat constructor; set_solver|]. split; [|done]. exists d. cbn. by simplify_map_eq.
  - by exists l, s2.
Qed.

(** ** Searching from the back *)

Lemma ring_last h mc0 l x a nil pv : ring h mc0 (l ++ [(x, a)]) nil pv ->
  h !! x = Some (Node (Some mc0) (last_loc (Some mc0) l) a) /\ x <> mc0.
Proof.
  intros (N & _ & D). apply dseg_app in D as [_ [D _]]. split; [exact D|].
  rewrite fmap_app in N. apply NoDup_cons in N as [N _]. set_solver.
Qed.

Lemma dseg_shorten h p l x a n : dseg h p (l ++ [(x, a)]) n -> dseg h p l (Some x).
Proof. by intros [D _]%dseg_app. Qed.

(** The walk over a prefix of the list, back to the head. *)
Lemma find_back_run test mc0 l n s fuel :
  NoDup (mc0 :: l.*1) -> dseg (cells s) (Some mc0) l n -> (length l < fuel)%nat ->
  exists mc, find_back fuel test (Some mc0) (last_loc (Some mc0) l) s = Some (mc, s) /\
    (mc = Some mc0 /\ Forall (fun a => test (ce_m a) = false) l.*2 \/
     exists l1 x a l2, l = l1 ++ (x, a) :: l2 /\ mc = Some x /\ test (ce_m a) = true /\ Forall (fun a => test (ce_m a) = false) l2.*2).
Proof.
  revert n fuel; induction l as [|[x a] l IH] using rev_ind; intros n fuel N D Hf.
  { exists (Some mc0). destruct fuel as [|fuel]; [cbn in Hf; lia|]. cbn [find_back last_loc]. rewrite (bool_decide_true (Some mc0 = Some mc0)) by done.
    rewrite orb_true_r. split; [done|]. left. done. }
  apply dseg_app in D as D'. destruct D' as [_ [Dx _]]. rewrite last_loc_snoc.
  rewrite fmap_app in N. assert (x <> mc0) as Hx by (apply NoDup_cons in N as [N _]; set_solver).
  destruct fuel as [|fuel]; [lia|]. cbn [find_back]. rewrite bool_decide_false by done. rewrite bool_decide_false by congruence.
  cbn [orb]. erewrite hbind_ok by (by apply load_ok). cbn [data prev]. destruct (test (ce_m a)) eqn:Et.
  - exists (Some x). split; [done|]. right. exists l, x, a, []. by repeat split.
  - destruct (IH (Some x) fuel) as (mc & E & C).
    + apply NoDup_cons in N as [N0 N]. apply NoDup_cons. apply NoDup_app in N as [N _]. set_solver.
    + by eapply dseg_shorten.
    + rewrite length_app in Hf. cbn in Hf. lia.
    + exists mc. split; [exact E|]. destruct C as [[-> C]|(l1 & y & b & l2 & -> & -> & Hb & C)].
      * left. split; [done|]. rewrite fmap_app. apply Forall_app. by repeat constructor.
      * right. exists l1, y, b, (l2 ++ [(x, a)]). rewrite <- app_assoc. split; [done|]. split; [done|]. split; [done|].
        rewrite fmap_app. apply Forall_app. by repeat constructor.
Qed.

(** ** What the edit does to the entries *)

(** Change the last element that passes the test. *)
Fixpoint on_last {A} (test : A -> bool) (f : A -> list A) (l : list A) : option (list A) :=
  match l with
  | [] => None
  | a :: l => match on_last test f l with
              | Some l => Some (a :: l)
              | None => if test a then Some (f a ++ l) else None
              end
  end.

Lemma on_last_Some {A} test (f : A -> list A) (l1 : list A) a (l2 : list A) :
  test a = true -> Forall (fun b => test b = false) l2 -> on_last test f (l1 ++ a :: l2) = Some (l1 ++ f a ++ l2).
Proof.
  intros Ha H2. induction l1 as [|b l1 IH]; cbn [app on_last].
  - enough (on_last test f l2 = None) as -> by (by rewrite Ha). induction H2 as [|b l2 Hb _ IH]; [done|]. cbn. by rewrite IH, Hb.
  - by rewrite IH.
Qed.

Lemma on_last_None {A} test (f : A -> list A) (l : list A) : Forall (fun b => test b = false) l -> on_last test f l = None.
Proof. induction 1 as [|b l Hb _ IH]; [done|]. cbn. by rewrite IH, Hb. Qed.

Definition with_opts (i c : chn_ent) : chn_ent :=
  let m := ce_m c in
  CE (Mntent (mnt_fsname m) (mnt_dir m) (mnt_type m) (mnt_opts (ce_m i)) (mnt_freq m) (mnt_passno m)) (ce_null c).

(** The last entry of the directory goes, or gets new options; an entry for a
    directory that has none is added to an empty table only. *)
Definition edited (dir : cstr) (instead : option chn_ent) (l : list chn_ent) : list chn_ent :=
  let test c := streq (mnt_dir (ce_m c)) dir in
  match instead with
  | None => default l (on_last test (fun _ => []) l)
  | Some i => default (match l with [] => [i] | _ => l end) (on_last test (fun c => [with_opts i c]) l)
  end.

(** A walk along the next pointers. *)
Fixpoint walk h (p : ptr) l (fin : ptr) : Prop :=
  match l with
  | [] => p = fin
  | (x, a) :: l => p = Some x /\ exists n pv, h !! x = Some (Node n pv a) /\ walk h n l fin
  end.

Lemma dseg_walk h p l n : dseg h p l n -> walk h (hd_loc l n) l n.
Proof. revert p; induction l as [|[x a] l IH]; intros p; [done|]. intros [H D]. split; [done|]. eauto. Qed.

Lemma walk_app h p l1 l2 n : walk h p (l1 ++ l2) n <-> exists m, walk h p l1 m /\ walk h m l2 n.
Proof. revert p; induction l1 as [|[x a] l1 IH]; intros p; cbn; [naive_solver|]. setoid_rewrite IH. naive_solver. Qed.

Lemma walk_frame h h' p l n : (forall x, x ∈ l.*1 -> h' !! x = h !! x) -> walk h p l n -> walk h' p l n.
Proof.
  revert p; induction l as [|[x a] l IH]; intros p Hh; [done|]. intros (-> & m & pv & Hx & W). split; [done|]. exists m, pv.
  rewrite fmap_cons in Hh. split; [rewrite Hh; [done|set_solver]|]. apply IH; [|done]. intros y Hy. apply Hh. set_solver.
Qed.

Lemma walk_set_prev h x m q p l n : h !! x = Some m -> walk h p l n -> walk (<[x := Node (next m) q (data m)]> h) p l n.
Proof.
  intros Hx. revert p; induction l as [|[y b] l IH]; intros p; [done|]. intros (-> & k & pv & Hy & W). split; [done|].
  destruct (decide (x = y)) as [<-|Hne].
  - rewrite Hx in Hy. simplify_eq. eexists _, _. rewrite lookup_insert_eq. eauto.
  - exists k, pv. rewrite lookup_insert_ne by done. eauto.
Qed.

(** Skipping over a node. *)
Lemma walk_unlink h p l1 x a l2 n m pv y b ny py :
  NoDup (l1 ++ (y, b) :: (x, a) :: l2).*1 -> h !! y = Some (Node ny py b) -> h !! x = Some (Node m pv a) ->
  walk h p (l1 ++ (y, b) :: (x, a) :: l2) n ->
  walk (<[y := Node m py b]> h) p (l1 ++ (y, b) :: l2) n.
Proof.
  rewrite fmap_app. cbn. intros (_ & N1 & [N2 [N3 _]%NoDup_cons]%NoDup_cons)%NoDup_app Hy Hx (q & W1 & -> & k & py' & Hy' & -> & k' & pv' & Hx' & W2)%walk_app.
  simplify_eq. apply walk_app. exists (Some y). split.
  - eapply walk_frame; [|exact W1]. intros z Hz. rewrite lookup_insert_ne; [done|]. intros <-. apply (N1 y Hz). set_solver.
  - split; [done|]. eexists _, _. split; [by rewrite lookup_insert_eq|].
    eapply walk_frame; [|exact W2]. intros z Hz. rewrite lookup_insert_ne; [done|]. set_solver.
Qed.

(** The list is as the edit wants it, seen forward from the head. *)
Definition linked h (mc0 : loc) l : Prop :=
  NoDup (mc0 :: l.*1) /\ exists nx pv d fin, h !! mc0 = Some (Node nx pv d) /\ walk h nx l fin /\ (fin = None \/ fin = Some mc0).

Lemma ring_linked h mc0 l pv : ring h mc0 l None pv -> linked h mc0 l.
Proof.
  intros (N & [d Hd] & D). split; [done|]. apply dseg_walk in D. destruct l as [|[x a] l]; [exists None, pv, d, None; cbn; auto|].
  eexists _, _, _, (Some mc0). eauto.
Qed.

Lemma edit_remove s mc0 l1 x a l2 pv d :
  ring (cells s) mc0 (l1 ++ (x, a) :: l2) None pv ->
  cells s !! mc0 = Some (Node (hd_loc (l1 ++ (x, a) :: l2) None) pv d) ->
  exists s', (let* n := load (Some x) in set_next (prev n) (next n) ;* set_prev (next n) (prev n) ;* hfree (Some x)) s = Some (tt, s') /\
    linked (cells s') mc0 (l1 ++ l2).
Proof.
  intros (N & _ & D) Hd. apply dseg_app in D as D'. destruct D' as [_ [Dx D2]].
  assert (walk (cells s) (Some mc0) ((mc0, d) :: l1 ++ (x, a) :: l2) (Some mc0)) as W.
  { split; [done|]. eexists _, _. split; [exact Hd|]. apply dseg_walk in D. by destruct l1 as [|[]]. }
  erewrite hbind_ok by (by apply load_ok). cbn [next prev].
  destruct (exists_last (l := (mc0, d) :: l1) ltac:(done)) as (L & [y b] & EL).
  assert (last_loc (Some mc0) l1 = Some y) as ->.
  { change (last_loc None ((mc0, d) :: l1) = Some y). rewrite EL. apply last_loc_snoc. }
  change ((mc0, d) :: l1 ++ (x, a) :: l2) with (((mc0, d) :: l1) ++ (x, a) :: l2) in W.
  assert (NoDup (((mc0, d) :: l1) ++ (x, a) :: l2).*1) as N' by done.
  rewrite EL, <- app_assoc in W, N'. cbn [app] in W, N'.
  pose proof W as (q & _ & _ & ny & py & Hy & _ & _)%walk_app.
  assert (x <> y) as Hxy by (rewrite fmap_app in N'; apply NoDup_app in N' as (_ & _ & [N' _]%NoDup_cons); set_solver).
  assert (x <> mc0) as Hx0 by (apply NoDup_cons in N as [N _]; rewrite fmap_app in N; set_solver).
  pose proof (walk_unlink _ _ _ _ _ _ _ _ _ _ _ _ _ N' Hy Dx W) as W1.
  erewrite hbind_ok by (by apply set_next_ok). cbn [prev data].
  set (h1 := <[y := _]> (cells s)) in *.
  assert (exists z m, hd_loc l2 (Some mc0) = Some z /\ h1 !! z = Some m /\ z <> x) as (z & m & Ez & Hz & Hzx).
  { destruct l2 as [|[z c] l2]; cbn [hd_loc] in *.
    - destruct (decide (y = mc0)) as [->|]; [exists mc0; eexists; unfold h1; rewrite lookup_insert_eq; eauto|].
      exists mc0, (Node (hd_loc (l1 ++ [(x, a)]) None) pv d). unfold h1. rewrite lookup_insert_ne by done. auto.
    - destruct D2 as [Dz _]. exists z. rewrite fmap_app in N'. apply NoDup_app in N' as (_ & _ & N'). cbn in N'.
      eexists. unfold h1. rewrite lookup_insert_ne by (apply NoDup_cons in N' as [N' _]; set_solver).
      split; [done|]. split; [exact Dz|]. apply NoDup_cons in N' as [_ [N' _]%NoDup_cons]. set_solver. }
  rewrite Ez. rewrite (hbind_ok _ _ _ _ _ (set_prev_ok (HState h1 (budget s)) z m (Some y) Hz)). cbn [cells].
  eexists. split; [eapply hfree_ok; cbn [cells]; unfold h1; rewrite !lookup_insert_ne by done; exact Dx|]. cbn [cells].
  assert (L ++ (y, b) :: l2 = (mc0, d) :: l1 ++ l2) as EL2.
  { change ((mc0, d) :: l1 ++ l2) with (((mc0, d) :: l1) ++ l2). by rewrite EL, <- app_assoc. }
  rewrite EL2 in W1. apply (walk_set_prev _ z m (Some y)) in W1; [|exact Hz].
  assert (NoDup (mc0 :: (l1 ++ l2).*1) /\ x ∉ (mc0 :: (l1 ++ l2).*1)) as [N3 Nx].
  { rewrite !fmap_app in *. cbn in N. apply NoDup_cons in N as [N0 (Na & Nb & [Nc Nd]%NoDup_cons)%NoDup_app].
    split; [constructor; [set_solver|]; apply NoDup_app; set_solver|set_solver]. }
  apply (walk_frame _ (delete x (<[z := Node (next m) (Some y) (data m)]> h1))) in W1.
  2: { intros w Hw. rewrite lookup_delete_ne; [done|]. set_solver. }
  destruct W1 as (_ & nx & pv' & Hh & W1). split; [done|]. exists nx, pv', d, (Some mc0). auto.
Qed.

Lemma edit_replace s mc0 l1 x a l2 pv i :
  ring (cells s) mc0 (l1 ++ (x, a) :: l2) None pv ->
  exists s', (let* n := load (Some x) in
              let m := ce_m (data n) in
              set_data (Some x) (CE (Mntent (mnt_fsname m) (mnt_dir m) (mnt_type m) (mnt_opts (ce_m i)) (mnt_freq m) (mnt_passno m))
                                   (ce_null (data n)))) s = Some (tt, s') /\
    linked (cells s') mc0 (l1 ++ (x, with_opts i a) :: l2).
Proof.
  intros (N & [d Hd] & D). apply dseg_app in D as D'. destruct D' as [_ [Dx _]].
  erewrite hbind_ok by (by apply load_ok). cbn [data]. eexists. split; [by apply set_data_ok|]. cbn [cells next prev data].
  fold (with_opts i a). rewrite fmap_app in N. cbn in N.
  split; [by rewrite fmap_app|]. apply dseg_walk in D. apply NoDup_cons in N as [N0 (_ & N1 & [N2 _]%NoDup_cons)%NoDup_app].
  exists (hd_loc (l1 ++ (x, a) :: l2) (Some mc0)), pv, d, (Some mc0). split; [|split; [|by right]].
  - rewrite lookup_insert_ne by set_solver. rewrite Hd. by destruct l1 as [|[]].
  - apply walk_app in D as (m & W1 & -> & n & pv' & Hx & W2). simplify_eq. apply walk_app. exists (Some x). split.
    + eapply walk_frame; [|exact W1]. intros w Hw. rewrite lookup_insert_ne; [done|]. intros <-. apply (N1 x Hw). set_solver.
    + split; [done|]. eexists _, _. split; [by rewrite lookup_insert_eq|].
      eapply walk_frame; [|exact W2]. intros w Hw. rewrite lookup_insert_ne; [done|]. set_solver.
Qed.

(** The new entry becomes the previous of the head, and its next only when the head
    has none. *)
Lemma edit_absent s mc0 l pv i :
  ring (cells s) mc0 l None pv ->
  exists l' s', (let* absent := xmalloc i in
              set_next absent (Some mc0) ;*
              let* h := load (Some mc0) in
              set_prev absent (prev h) ;* set_prev (Some mc0) absent ;*
              let* h := load (Some mc0) in
              match next h with None => set_next (Some mc0) absent | Some _ => hret tt end) s = Some (tt, s') /\
    linked (cells s') mc0 l' /\ l'.*2 = match l.*2 with [] => [i] | _ => l.*2 end.
Proof.
  intros R. pose proof R as (N & [d Hd] & D). set (p := fresh (dom (cells s))).
  assert (cells s !! p = None) as Hp by apply fresh_cells. destruct (ring_outside _ _ _ _ _ _ R Hp) as [P1 P2].
  unfold xmalloc, hbind at 1. fold p. do 5 hstep.
  destruct l as [|[y b] l].
  - cbn [hd_loc]. exists [(p, i)]. eexists. split; [eapply set_next_ok; cbn [cells]; by simplify_map_eq|]. split; [|done].
    cbn [cells prev data]. split; [repeat constructor; set_solver|]. eexists (Some p), _, _, (Some mc0).
    split; [by simplify_map_eq|]. split; [|by right]. split; [done|]. eexists _, _. split; [by simplify_map_eq|done].
  - cbn [hd_loc]. exists ((y, b) :: l). eexists. split; [done|]. split; [|done]. cbn [cells]. split; [done|].
    eexists _, _, _, (Some mc0). split; [by simplify_map_eq|]. split; [|by right]. apply dseg_walk in D.
    eapply walk_frame; [|exact D]. intros w Hw. apply NoDup_cons in N as [N _].
    rewrite !lookup_insert_ne by (intros <-; done). done.
Qed.

Lemma edit_chn_run dir instead mc0 l pv s :
  ring (cells s) mc0 l None pv -> pv = last_loc (Some mc0) l \/ pv = None /\ l = [] ->
  exists l' s', edit_chn dir instead (Some mc0) s = Some (tt, s') /\ linked (cells s') mc0 l' /\ l'.*2 = edited dir instead l.*2.
Proof.
  intros R Hpv. pose proof R as (N & [d Hd] & D). unfold edit_chn. erewrite hbind_ok by (by apply load_ok). cbn [prev].
  set (test := fun m => streq (mnt_dir m) dir).
  assert (exists mc, with_fuel (fun fuel => find_back (S fuel) test (Some mc0) pv) s = Some (mc, s) /\
    ((mc = None \/ mc = Some mc0) /\ Forall (fun a => test (ce_m a) = false) l.*2 \/
     exists l1 x a l2, l = l1 ++ (x, a) :: l2 /\ mc = Some x /\ test (ce_m a) = true /\ Forall (fun a => test (ce_m a) = false) l2.*2))
    as (mc & E & C).
  { unfold with_fuel. destruct Hpv as [->|[-> ->]].
    - destruct (find_back_run test mc0 l (Some mc0) s (S (size (cells s))) N D) as (mc & E & C).
      { apply NoDup_cons in N as [_ N]. pose proof (dseg_nodup_size _ _ _ _ N D). lia. }
      exists mc. split; [exact E|]. destruct C as [[-> C]|C]; [|by right]. left. auto.
    - exists None. split; [done|]. left. auto. }
  erewrite hbind_ok by exact E. unfold edited. fold test. destruct C as [[Hmc C]|(l1 & x & a & l2 & -> & -> & Ha & C)].
  - replace (negb (bool_decide (mc = None)) && negb (bool_decide (mc = Some mc0))) with false.
    2: { destruct Hmc as [-> | ->]; [done|]. by rewrite (bool_decide_true (Some mc0 = Some mc0)). }
    destruct instead as [i|]; rewrite on_last_None by done; cbn [default].
    + destruct (edit_absent s mc0 l pv i R) as (l' & s' & ? & ? & ?). eauto.
    + exists l, s. split; [done|]. split; [by eapply ring_linked|done].
  - assert (x <> mc0) as Hx by (apply NoDup_cons in N as [N _]; rewrite fmap_app in N; set_solver).
    rewrite bool_decide_false by done. rewrite bool_decide_false by congruence. cbn [negb andb].
    rewrite fmap_app. cbn [fmap list_fmap snd]. destruct instead as [i|]; rewrite on_last_Some by done; cbn [default].
    + destruct (edit_replace s mc0 l1 x a l2 pv i R) as (s' & ? & ?). eexists _, _. split; [done|]. split; [done|]. by rewrite fmap_app.
    + destruct (edit_remove s mc0 l1 x a l2 pv d R Hd) as (s' & ? & ?). eexists _, _. split; [done|]. split; [done|]. by rewrite fmap_app.
Qed.

Lemma linked_size h l p fin : NoDup l.*1 -> walk h p l fin -> (length l <= size h)%nat.
Proof.
  intros N W. rewrite <- (length_fmap fst), <- size_dom, <- (size_list_to_set (C := gset loc)) by done.
  apply subseteq_size. intros x Hx. apply elem_of_list_to_set in Hx. clear N.
  revert p W; induction l as [|[y b] l IH]; intros p W; [set_solver|]. destruct W as (_ & n & pv & Hy & W). cbn in Hx.
  apply elem_of_cons in Hx as [->|Hx]; [by apply elem_of_dom_2 in Hy|eauto].
Qed.

(** The new file: the lines of the entries, or the prefix up to a failure. *)
Lemma write_chn_run fates mc0 l s i file p fin fuel :
  mc0 ∉ l.*1 -> fin = None \/ fin = Some mc0 -> walk (cells s) p l fin -> (length l < fuel)%nat ->
  Forall (fun a => ce_null a = false) l.*2 ->
  exists r, write_chn fuel fates i file (Some mc0) p s = Some (r, s) /\
    match r with
    | inr f => f = file ++ concat (mntent_line <$> (ce_m <$> l.*2))
    | inl _ => exists j, fates j <> A_Ok
    end.
Proof.
  intros H0 Hfin. revert fuel i file p; induction l as [|[x a] l IH]; intros fuel i file p W Hf Hn; destruct fuel as [|fuel]; [lia| |lia|]; cbn [write_chn].
  - exists (inr file). rewrite app_nil_r. split; [|done]. cbn in W. subst p. destruct Hfin as [-> | ->]; [done|].
    rewrite (bool_decide_true (Some mc0 = Some mc0)) by done. by rewrite orb_true_r.
  - destruct W as (-> & n & pv & Hx & W). cbn in H0. apply Forall_cons in Hn as [Hn Hn'].
    rewrite bool_decide_false by done. rewrite bool_decide_false by set_solver. cbn [orb].
    erewrite hbind_ok by (by apply load_ok). cbn [data next]. cbn [snd] in Hn. rewrite Hn.
    destruct (fates i) eqn:Ef; cbn [nfs_addmntent]; try (eexists; split; [done|]; exists i; by rewrite Ef).
    cbn [Z.eqb]. destruct (IH ltac:(set_solver) fuel (S i) (file ++ mntent_line (ce_m a)) n W ltac:(cbn in Hf; lia) Hn') as (r & E & C).
    exists r. split; [exact E|]. destruct r; [done|]. cbn. by rewrite C, <- app_assoc.
Qed.

Lemma write_null mc0 x a n pv s fates i file fuel :
  cells s !! x = Some (Node n pv a) -> ce_null a = true -> x <> mc0 ->
  write_chn (S fuel) fates i file (Some mc0) (Some x) s = None.
Proof.
  intros Hx Ha Hne. cbn [write_chn]. rewrite bool_decide_false by done. rewrite bool_decide_false by congruence. cbn [orb].
  erewrite hbind_ok by (by apply load_ok). cbn [data]. by rewrite Ha.
Qed.

(** ** Fields and lines read back *)

Lemma mangle_chars s : Forall (fun c => isblank c = false /\ c <> NL) (mangle s).
Proof.
  induction s as [|c s IH]; [done|]. cbn [mangle]. apply Forall_app. split; [|done].
  destruct (existsb (ceqb c) need_escaping) eqn:E.
  - cbn in E. repeat rewrite orb_true_iff in E. rewrite !ceqb_true in E.
    destruct E as [->|[->|[->|[->|?]]]]; [..|done]; by repeat constructor.
  - constructor; [|done]. cbn in E. repeat (apply orb_false_iff in E as [? E]). btrue. split; [|done].
    unfold isblank. apply orb_false_iff. by rewrite !ceqb_false.
Qed.

Lemma unmangle_mangle s : unmangle_loop (mangle s) = s.
Proof.
  induction s as [|c s IH]; [done|]. cbn [mangle]. destruct (existsb (ceqb c) need_escaping) eqn:E.
  - cbn in E. repeat rewrite orb_true_iff in E. rewrite !ceqb_true in E.
    destruct E as [->|[->|[->|[->|?]]]]; [..|done]; cbn [octal app unmangle_loop]; rewrite IH; reflexivity.
  - cbn [app unmangle_loop]. cbn in E. repeat (apply orb_false_iff in E as [? E]).
    destruct (mangle s) as [|a [|b [|d r]]]; rewrite <- IH; try done.
    replace (ceqb c BSLASH) with false by done. done.
Qed.

Lemma skip_while_all f (a b : cstr) : Forall (fun c => f c = true) a -> f (deref b) = false \/ b = [] -> skip_while f (a ++ b) = b.
Proof.
  intros H Hb. induction H as [|c a Hc _ IH]; cbn; [|by rewrite Hc].
  destruct b as [|d b]; [done|]. cbn. destruct Hb as [Hb|Hb]; [|done]. cbn in Hb. by rewrite Hb.
Qed.

Lemma span_all f (a b : cstr) : Forall (fun c => f c = true) a -> f (deref b) = false \/ b = [] -> span f (a ++ b) = (a, b).
Proof.
  intros H Hb. induction H as [|c a Hc _ IH]; cbn; [|by rewrite Hc, IH].
  destruct b as [|d b]; [done|]. cbn. destruct Hb as [Hb|Hb]; [|done]. cbn in Hb. by rewrite Hb.
Qed.

Lemma no_nul_span s : no_nul s -> span (fun c => negb (ceqb c NUL)) s = (s, []).
Proof.
  intros H. rewrite <- (app_nil_r s) at 1. apply span_all; [|by right].
  eapply Forall_impl; [exact H|]. cbn. intros c Hc. by apply negb_true_iff, ceqb_false.
Qed.

(** A field of a line: what it reads as, and where the next one starts. *)
Lemma read_field s r : no_nul s -> isblank (deref r) = false ->
  unmangle (mangle s ++ SP :: r) = s /\ skip_spaces (skip_nonspaces (mangle s ++ SP :: r)) = r.
Proof.
  intros Hn Hr. assert (Forall (fun c => negb (isblank c) = true) (mangle s)) as Hm.
  { eapply Forall_impl; [apply mangle_chars|]. cbn. intros c [-> _]. done. }
  unfold unmangle, skip_spaces, skip_nonspaces. rewrite span_all by auto. cbn [fst]. rewrite unmangle_mangle, no_nul_span by done.
  split; [done|]. rewrite skip_while_all by auto. change (SP :: r) with ([SP] ++ r). apply skip_while_all; [by repeat constructor|auto].
Qed.

Lemma digit_isdigit c : digit_val c < 10 -> isdigit c = true /\ isblank c = false /\ c <> NL /\ c <> NUL /\ c <> CR.
Proof. all_chars c; vm_compute; intros H; try discriminate H; repeat split; congruence. Qed.

Lemma utoa_all_digits n : Forall (fun c => isdigit c = true /\ isblank c = false /\ c <> NL /\ c <> NUL /\ c <> CR) (utoa 10 n).
Proof. eapply Forall_impl; [apply utoa_digits; lia|]. apply digit_isdigit. Qed.

Lemma atoi_field_utoa n r : 0 <= n <= INT_MAX -> r = [] \/ isblank (deref r) = true -> atoi_field (utoa 10 n ++ r) = (n, r).
Proof.
  intros Hn Hr. pose proof (utoa_all_digits n) as Hd. unfold atoi_field.
  assert (isdigit (deref (utoa 10 n ++ r)) = true) as ->.
  { pose proof (utoa_nonempty 10 n). destruct (utoa 10 n) as [|c s]; [done|]. by apply Forall_cons in Hd as [(? & _) _]. }
  assert (isdigit (deref r) = false \/ r = []) as Hr'.
  { destruct Hr as [->|Hr]; [by right|]. left. revert Hr. generalize (deref r). intros c. all_chars c; by vm_compute. }
  rewrite skip_while_all; [|by eapply Forall_impl; [exact Hd|intros c (? & _)]|done].
  f_equal. unfold atoi. rewrite strtol_utoa; [apply i32_id; unfold INT_MIN, INT_MAX in *; cbn [st_value]; lia|unfold INT_MAX, LONG_MAX in *; lia|].
  destruct Hr as [->|Hr]; [by left|]. right. revert Hr. generalize (deref r). intros c. all_chars c; vm_compute; congruence.
Qed.

(** Entries that survive being written and read. *)
Record entry_ok (m : mntent) : Prop := EntryOk
  { eo_nul : Forall no_nul [mnt_fsname m; mnt_dir m; mnt_type m; mnt_opts m];
    eo_ne : Forall (fun f => f <> []) [mnt_fsname m; mnt_dir m; mnt_type m; mnt_opts m];
    eo_hash : deref (mnt_fsname m) <> "#"%char;
    eo_num : 0 <= mnt_freq m <= INT_MAX /\ 0 <= mnt_passno m <= INT_MAX;
    eo_len : (length (mntent_line m) <= 4095)%nat }.

Lemma mangle_head s r : s <> [] -> no_nul s -> isblank (deref (mangle s ++ r)) = false /\ deref (mangle s ++ r) <> NUL /\
  (deref s <> "#"%char -> deref (mangle s ++ r) <> "#"%char).
Proof.
  destruct s as [|c s]; [done|]. intros _ [Hc _]%Forall_cons. pose proof (mangle_chars (c :: s)) as Hm. cbn [mangle] in *.
  destruct (existsb (ceqb c) need_escaping); cbn in *; [done|]. apply Forall_cons in Hm as [[? _] _]. done.
Qed.

(** The line without its newline. *)
Definition line_body (m : mntent) : cstr :=
  mangle (mnt_fsname m) ++ SP :: mangle (mnt_dir m) ++ SP :: mangle (mnt_type m) ++ SP :: mangle (mnt_opts m)
  ++ SP :: utoa 10 (mnt_freq m) ++ SP :: utoa 10 (mnt_passno m).

Lemma line_shape m : 0 <= mnt_freq m -> 0 <= mnt_passno m -> mntent_line m = line_body m ++ [NL].
Proof.
  intros H1 H2. unfold mntent_line, line_body, itoa. rewrite !(proj2 (Z.ltb_ge _ _)) by lia.
  repeat (rewrite <- app_assoc; cbn [app]). done.
Qed.

Lemma line_no_nl m : Forall (fun c => c <> NL) (line_body m).
Proof.
  assert (forall s, Forall (fun c => c <> NL) (mangle s)) as M by (intros s; eapply Forall_impl; [apply mangle_chars|]; by intros c []).
  assert (forall n, Forall (fun c => c <> NL) (utoa 10 n)) as U by (intros n; eapply Forall_impl; [apply utoa_all_digits|]; by intros c (_ & _ & ? & _)).
  unfold line_body. repeat (first [apply Forall_app; split|apply Forall_cons; split]; auto); done.
Qed.

Lemma chomp_body m : chomp (line_body m) = line_body m.
Proof.
  unfold chomp. destruct (last (line_body m)) as [c|] eqn:E; [|done].
  replace (ceqb c CR) with false; [done|]. symmetry. apply ceqb_false. intros ->.
  pose proof (utoa_nonempty 10 (mnt_passno m)) as Hne. pose proof (utoa_all_digits (mnt_passno m)) as Hd.
  destruct (exists_last Hne) as (u & x & Eu).
  assert (exists a, line_body m = a ++ utoa 10 (mnt_passno m)) as [a Ea].
  { unfold line_body. eexists (mangle (mnt_fsname m) ++ SP :: mangle (mnt_dir m) ++ SP :: mangle (mnt_type m) ++ SP :: mangle (mnt_opts m)
      ++ SP :: utoa 10 (mnt_freq m) ++ [SP]). repeat (rewrite <- app_assoc; cbn [app]). done. }
  rewrite Ea, Eu, app_assoc, last_snoc in E. simplify_eq. rewrite Eu in Hd. apply Forall_app in Hd as [_ [(_ & _ & _ & _ & Hd) _]%Forall_cons]. done.
Qed.

Lemma read_fields_body m : entry_ok m -> read_fields (line_body m) = Some m.
Proof.
  intros [Hn He _ [N1 N2] _]. rewrite !Forall_cons in Hn, He. destruct Hn as (n1 & n2 & n3 & n4 & _), He as (e1 & e2 & e3 & e4 & _).
  assert (forall n r, isblank (deref (utoa 10 n ++ r)) = false) as U.
  { intros n r. pose proof (utoa_nonempty 10 n). pose proof (utoa_all_digits n) as Hd. destruct (utoa 10 n); [done|].
    by apply Forall_cons in Hd as [(_ & ? & _) _]. }
  unfold read_fields, line_body.
  rewrite !(proj1 (read_field _ _ n1 (proj1 (mangle_head _ _ e2 n2)))), !(proj2 (read_field _ _ n1 (proj1 (mangle_head _ _ e2 n2)))).
  rewrite !(proj1 (read_field _ _ n2 (proj1 (mangle_head _ _ e3 n3)))), !(proj2 (read_field _ _ n2 (proj1 (mangle_head _ _ e3 n3)))).
  rewrite !(proj1 (read_field _ _ n3 (proj1 (mangle_head _ _ e4 n4)))), !(proj2 (read_field _ _ n3 (proj1 (mangle_head _ _ e4 n4)))).
  rewrite !(proj1 (read_field _ _ n4 (U _ _))), !(proj2 (read_field _ _ n4 (U _ _))).
  rewrite atoi_field_utoa by auto. cbn [at_word_end deref]. change (at_word_end (SP :: _)) with true. cbn [negb].
  unfold skip_spaces. cbn [skip_while]. change (isblank SP) with true. cbv iota.
  assert (skip_while isblank (utoa 10 (mnt_passno m)) = utoa 10 (mnt_passno m)) as ->.
  { pose proof (U (mnt_passno m) []) as Hb. rewrite app_nil_r in Hb. pose proof (utoa_nonempty 10 (mnt_passno m)).
    destruct (utoa 10 (mnt_passno m)); [done|]. cbn in *. by rewrite Hb. }
  rewrite <- (app_nil_r (utoa 10 (mnt_passno m))), atoi_field_utoa by auto. cbn. by destruct m.
Qed.

Lemma getmntent_line fuel m rest n : entry_ok m -> n < ERR_MAX ->
  nfs_getmntent (S fuel) (MF (mntent_line m ++ rest) false n) = Some (Some m, MF rest false n).
Proof.
  intros Hok Hn. pose proof Hok as [Hnul Hne Hh [[N1 _] [N2 _]] Hl]. rewrite line_shape in * by lia.
  assert (forall r, span (fun c => negb (ceqb c NL)) (line_body m ++ NL :: r) = (line_body m, NL :: r)) as Sp.
  { intros r. apply span_all; [|by left]. eapply Forall_impl; [apply line_no_nl|]. cbn. intros c Hc. by apply negb_true_iff, ceqb_false. }
  cbn [nfs_getmntent mntent_errs mntent_softerrs mf_rest]. rewrite (proj2 (Z.leb_gt _ _)) by done. cbn [orb].
  unfold fgets. rewrite <- app_assoc. cbn [app]. destruct (line_body m ++ NL :: rest) as [|c0 l0] eqn:El; [by apply app_eq_nil in El as [_ ?]|].
  rewrite <- El, Sp. cbn [fst]. rewrite length_app in Hl. cbn in Hl. rewrite Nat.min_r by lia.
  change (NL :: rest) with ([NL] ++ rest). rewrite app_assoc, take_app_length', drop_app_length' by (rewrite length_app; cbn; lia).
  rewrite Sp. cbn [bool_decide andb]. rewrite bool_decide_false by done. cbn [andb].
  rewrite chomp_body. apply Forall_cons in Hnul as [Hnul _]. apply Forall_cons in Hne as [Hne _].
  destruct (mangle_head (mnt_fsname m) (SP :: mangle (mnt_dir m) ++ SP :: mangle (mnt_type m) ++ SP :: mangle (mnt_opts m)
      ++ SP :: utoa 10 (mnt_freq m) ++ SP :: utoa 10 (mnt_passno m)) Hne Hnul) as (B & Hz & Hs). fold (line_body m) in B, Hz, Hs.
  assert (skip_spaces (line_body m) = line_body m) as ->.
  { unfold skip_spaces. destruct (line_body m) as [|c l]; [done|]. cbn in *. by rewrite B. }
  rewrite (proj2 (ceqb_false _ _) Hz), (proj2 (ceqb_false _ _) (Hs Hh)). cbn [orb]. by rewrite read_fields_body.
Qed.

Lemma entries_lines fuel (l : list mntent) n : Forall entry_ok l -> n < ERR_MAX -> (length l < fuel)%nat ->
  entries fuel (MF (concat (mntent_line <$> l)) false n) = filter (fun m => mnt_type m <> MNTTYPE_IGNORE) l.
Proof.
  intros H Hn. revert fuel; induction H as [|m l Hm _ IH]; intros fuel Hf; (destruct fuel as [|fuel]; [cbn in Hf; lia|]); cbn [entries].
  - cbn [nfs_getmntent mf_rest length fmap list_fmap concat mntent_errs mntent_softerrs]. by destruct (_ || _).
  - cbn [fmap list_fmap concat]. rewrite getmntent_line by done. cbn in Hf. rewrite filter_cons. unfold streq.
    destruct (decide (mnt_type m = MNTTYPE_IGNORE)) as [E|E].
    + rewrite bool_decide_true by done. rewrite decide_False by auto. apply IH. lia.
    + rewrite bool_decide_false by done. rewrite decide_True by done. f_equal. apply IH. lia.
Qed.

Lemma read_lines (l : list mntent) : Forall entry_ok l -> read_entries (concat (mntent_line <$> l)) = filter (fun m => mnt_type m <> MNTTYPE_IGNORE) l.
Proof.
  intros H. unfold read_entries, nfs_setmntent. apply entries_lines; [done|done|].
  apply Nat.lt_succ_r. induction H as [|m l Hm _ IH]; [done|]. cbn. rewrite length_app.
  enough (1 <= length (mntent_line m))%nat by lia. unfold mntent_line. rewrite !length_app. cbn. lia.
Qed.

(** ** Properties *)

Definition io_good (io : mtab_io) : Prop :=
  io_absent io = false /\ io_symlink io = false /\ io_writable io = true /\ io_open io = true /\ io_ferror io = false /\
  io_open_tmp io = true /\ (forall i, io_fates io i = A_Ok) /\ io_rename io = true.

Lemma as_read_edited dir instead (l : list mntent) :
  (forall i, instead = Some i -> ce_null i = false) -> Forall (fun a => ce_null a = false) (edited dir instead (as_read l)).
Proof.
  intros Hi. assert (Forall (fun a => ce_null a = false) (as_read l)) as Hl by (apply Forall_fmap; by apply Forall_forall).
  unfold edited. revert Hl. generalize (as_read l). intros cs Hl.
  assert (forall f, (forall c, ce_null c = false -> Forall (fun a => ce_null a = false) (f c)) ->
    match on_last (fun c => streq (mnt_dir (ce_m c)) dir) f cs with Some r => Forall (fun a => ce_null a = false) r | None => True end) as H.
  { intros f Hf. induction Hl as [|c cs Hc Hcs IH]; [done|]. cbn. destruct (on_last _ f cs); [by constructor|].
    destruct (streq _ _); [|done]. apply Forall_app. auto. }
  destruct instead as [i|].
  - specialize (H (fun c => [with_opts i c])). destruct (on_last _ _ cs); cbn; [apply H; intros c Hc; by repeat constructor|].
    destruct cs; [|done]. repeat constructor. by apply Hi.
  - specialize (H (fun _ => [])). destruct (on_last _ _ cs); cbn; [by apply H|done].
Qed.

Lemma update_mtab_run io mtab dir instead :
  (forall i, instead = Some i -> ce_null i = false) ->
  exists file go, update_mtab io mtab dir instead = Some (file, go) /\
    (file = mtab \/ file = concat (mntent_line <$> (ce_m <$> edited dir instead (as_read (if io_ferror io then [] else read_entries mtab))))) /\
    (io_good io -> go = true /\ file = concat (mntent_line <$> (ce_m <$> edited dir instead (as_read (read_entries mtab))))).
Proof.
  intros Hi. unfold update_mtab.
  destruct (io_absent io || negb (mtab_is_writable io)) eqn:Ew.
  { eexists _, _. split; [done|]. split; [by left|]. intros (A1 & A2 & A3 & _). unfold mtab_is_writable in Ew. rewrite A1, A2, A3 in Ew. done. }
  destruct (io_open io) eqn:Eo; cbn [negb]; [|eexists _, _; split; [done|]; split; [by left|]; intros (_ & _ & _ & A & _); congruence].
  set (s0 := HState _ 0). set (l := if io_ferror io then [] else read_entries mtab).
  destruct (read_mntentchn_run (nfs_setmntent mtab) (io_ferror io) 1 s0 eq_refl) as (l1 & s1 & E1 & El1 & R1).
  assert (l1.*2 = as_read l) as El by (rewrite El1; by destruct (io_ferror io)). clear El1.
  erewrite hbind_ok by exact E1.
  destruct (edit_chn_run dir instead 1 l1 _ s1 R1) as (l2 & s2 & E2 & (N2 & nx & pv & d & fin & Hh & W & Hfin) & El2).
  { destruct (io_ferror io); [|by left]. right. split; [done|]. by destruct l1. }
  erewrite hbind_ok by exact E2.
  destruct (io_open_tmp io) eqn:Et; cbn [negb]; [|eexists _, _; split; [done|]; split; [by left|]; intros (_ & _ & _ & _ & _ & A & _); congruence].
  erewrite hbind_ok by (by apply load_ok). cbn [next]. apply NoDup_cons in N2 as [N20 N2].
  destruct (write_chn_run (io_fates io) 1 l2 s2 0 [] nx fin (S (size (cells s2))) N20 Hfin W) as (r & E3 & C).
  { pose proof (linked_size _ _ _ _ N2 W). lia. }
  { rewrite El2, El. by apply as_read_edited. }
  unfold with_fuel at 1. unfold hbind. rewrite E3. cbn. rewrite El2, El in C. destruct r as [f|f].
  - eexists _, _. split; [done|]. split; [by left|]. destruct C as [j Hj]. intros (_ & _ & _ & _ & _ & _ & A & _). by rewrite A in Hj.
  - eexists _, _. split; [done|]. rewrite C. split; [destruct (io_rename io); auto|].
    intros (_ & _ & _ & _ & Af & _ & _ & ->). unfold l. by rewrite Af.
Qed.

(** The table of mounts survives being written and read: entries whose fields
    are not empty, whose device does not start with a hash sign and whose line fits
    the buffer are read back exactly as they were, whatever blanks, newlines and
    backslashes they hold; only entries of type ignore are left out. *)
Theorem mtab_roundtrip (l : list mntent) :
  Forall entry_ok l ->
  read_entries (concat (mntent_line <$> l)) = filter (fun m => mnt_type m <> MNTTYPE_IGNORE) l.
Proof. apply read_lines. Qed.

Definition ent_a : mntent := Mntent $"srv:/a b" $"/mnt/a b" $"nfs" $"rw,addr=1.2.3.4" 0 0.
Definition ent_b : mntent := Mntent $"srv:/b" $"/mnt/b" $"nfs4" $"ro" 0 0.

Ltac ok_entry := constructor; [repeat constructor; done|repeat constructor; done|done|cbn; unfold INT_MAX; lia|vm_compute; lia].

Lemma mtab_roundtrip_witness :
  entry_ok ent_a /\ read_entries (concat (mntent_line <$> [ent_a; ent_b])) = [ent_a; ent_b].
Proof.
  assert (entry_ok ent_a /\ entry_ok ent_b) as [Ha Hb] by (split; ok_entry). split; [exact Ha|].
  rewrite (mtab_roundtrip [ent_a; ent_b]); [reflexivity|by repeat constructor].
Defined.

(** The table without the last entry of a directory, or with new options there. *)
Definition removed (dir : cstr) (l : list mntent) : list mntent :=
  default l (on_last (fun m => streq (mnt_dir m) dir) (fun _ => []) l).
Definition reoptioned (dir opts : cstr) (l : list mntent) : list mntent :=
  default l (on_last (fun m => streq (mnt_dir m) dir)
               (fun m => [Mntent (mnt_fsname m) (mnt_dir m) (mnt_type m) opts (mnt_freq m) (mnt_passno m)]) l).

Lemma on_last_as_read dir (f : chn_ent -> list chn_ent) (g : mntent -> list mntent) (l : list mntent) :
  (forall m, ce_m <$> f (CE m false) = g m) ->
  on_last (fun m => streq (mnt_dir m) dir) g l
  = (fun r : list chn_ent => ce_m <$> r) <$> on_last (fun c => streq (mnt_dir (ce_m c)) dir) f (as_read l).
Proof.
  intros Hfg. induction l as [|m l IH]; [done|]. cbn [as_read fmap list_fmap on_last ce_m]. rewrite IH. fold (as_read l).
  destruct (on_last _ f (as_read l)); cbn [fmap option_fmap option_map]; [done|].
  destruct (streq (mnt_dir m) dir); [|done]. cbn. rewrite fmap_app, Hfg. f_equal. f_equal.
  unfold as_read. rewrite <- list_fmap_compose. symmetry. apply list_fmap_id.
Qed.

Lemma ce_m_as_read (l : list mntent) : ce_m <$> as_read l = l.
Proof. unfold as_read. rewrite <- list_fmap_compose. apply list_fmap_id. Qed.

Lemma edited_removed dir (l : list mntent) : ce_m <$> edited dir None (as_read l) = removed dir l.
Proof.
  unfold edited, removed. rewrite (on_last_as_read dir (fun _ => [])) by done.
  destruct (on_last _ _ (as_read l)); cbn [fmap option_fmap option_map default]; [done|]. apply ce_m_as_read.
Qed.

Lemma edited_reoptioned dir i (l : list mntent) : l <> [] -> ce_m <$> edited dir (Some i) (as_read l) = reoptioned dir (mnt_opts (ce_m i)) l.
Proof.
  intros Hl. unfold edited, reoptioned. rewrite (on_last_as_read dir (fun c => [with_opts i c])) by done.
  destruct (on_last _ _ (as_read l)); cbn [fmap option_fmap option_map default]; [done|].
  destruct l; [done|]. apply (ce_m_as_read (m :: l)).
Qed.

Lemma entries_types fuel mfp : Forall (fun m => mnt_type m <> MNTTYPE_IGNORE) (entries fuel mfp).
Proof.
  revert mfp; induction fuel as [|fuel IH]; intros mfp; [constructor|]. cbn [entries].
  destruct (nfs_getmntent _ mfp) as [[[m|] mfp']|]; [|constructor..]. destruct (streq _ _) eqn:E; [apply IH|]. btrue. by constructor.
Qed.

Lemma on_last_keeps {A} (P : A -> Prop) test f (l : list A) :
  Forall P l -> (forall a, P a -> Forall P (f a)) -> Forall P (default l (on_last test f l)).
Proof.
  intros Hl Hf. enough (match on_last test f l with Some r => Forall P r | None => True end) by (destruct (on_last test f l); done).
  induction Hl as [|a l Ha Hl IH]; [done|]. cbn. destruct (on_last test f l); [by constructor|].
  destruct (test a); [|done]. apply Forall_app. auto.
Qed.

(** An unmount without failures. *)
Lemma update_removes io mtab dir : io_good io -> Forall entry_ok (read_entries mtab) ->
  exists file, update_mtab io mtab dir None = Some (file, true) /\ read_entries file = removed dir (read_entries mtab).
Proof.
  intros Hio Hok. destruct (update_mtab_run io mtab dir None) as (file & go & E & _ & G); [done|].
  destruct (G Hio) as [-> ->]. eexists. split; [exact E|].
  pose proof (entries_types (S (length mtab)) (nfs_setmntent mtab)) as T. fold (read_entries mtab) in T.
  rewrite edited_removed. rewrite read_lines by (apply on_last_keeps; [done|by constructor]). apply filter_all.
  apply on_last_keeps; [done|]. by constructor.
Qed.

(** The table that an unmount, or a remount with new options, is to leave. *)
Definition new_table (dir : cstr) (instead : option mntent) (l : list mntent) : list mntent :=
  match instead with None => removed dir l | Some i => reoptioned dir (mnt_opts i) l end.

Lemma new_table_types dir instead mtab : Forall (fun m => mnt_type m <> MNTTYPE_IGNORE) (new_table dir instead (read_entries mtab)).
Proof.
  pose proof (entries_types (S (length mtab)) (nfs_setmntent mtab)) as T. fold (read_entries mtab) in T.
  destruct instead as [i|]; apply on_last_keeps; try done; intros a Ha; by repeat constructor.
Qed.

Lemma edited_new_table dir instead (l : list mntent) :
  (is_Some instead -> l <> []) -> ce_m <$> edited dir ((fun m => CE m false) <$> instead) (as_read l) = new_table dir instead l.
Proof.
  intros Hl. destruct instead as [i|]; cbn [fmap option_fmap option_map new_table]; [|apply edited_removed].
  rewrite edited_reoptioned by (by apply Hl). done.
Qed.

(** C15. Updating /etc/mtab never follows a bad pointer, whatever fails on the way.
    When /etc/mtab itself is read without an error, a remount is of a directory
    that the table lists, and the lines of the new table fit the buffer of the
    reader, then the file that is left is the old one or the complete new one,
    whichever call fails; and when no call fails it is the new one and the command
    goes on.  The new table has every entry of the old one in its order, but for the
    last entry of the directory: an unmount takes that away, and a remount gives it
    its new options. *)
Theorem update_mtab_refines (io : mtab_io) (mtab dir : cstr) (instead : option mntent) :
  let new := new_table dir instead (read_entries mtab) in
  exists file go, update_mtab io mtab dir ((fun m => CE m false) <$> instead) = Some (file, go) /\
    (io_ferror io = false -> (is_Some instead -> exists m, m ∈ read_entries mtab /\ mnt_dir m = dir) -> Forall entry_ok new ->
     (file = mtab \/ (file = concat (mntent_line <$> new) /\ read_entries file = new)) /\
     (io_good io -> go = true /\ read_entries file = new)).
Proof.
  intros new. destruct (update_mtab_run io mtab dir ((fun m => CE m false) <$> instead)) as (file & go & E & A & G).
  { intros i Hi. apply fmap_Some in Hi as (m & _ & ->). done. }
  exists file, go. split; [done|]. intros Hf Hin Hok. rewrite Hf in A.
  assert (is_Some instead -> read_entries mtab <> []) as Hne by (intros (m & Hm & _)%Hin Hr; rewrite Hr in Hm; by apply elem_of_nil in Hm).
  assert (read_entries (concat (mntent_line <$> new)) = new) as Hr
    by (rewrite read_lines by done; apply filter_all, new_table_types).
  rewrite edited_new_table in A, G by done. fold new in A, G. split.
  - destruct A as [->| ->]; [by left|by right].
  - intros Hio. by destruct (G Hio) as [-> ->].
Qed.

Definition io_ex : mtab_io := MtabIO false false true true false true (fun _ => A_Ok) true.

Lemma update_mtab_refines_witness :
  let mtab := concat (mntent_line <$> [ent_a; ent_b]) in
  (exists file, update_mtab io_ex mtab $"/mnt/a b" None = Some (file, true) /\ read_entries file = [ent_b]) /\
  (exists file, update_mtab io_ex mtab $"/mnt/b" (Some (CE (Mntent $"srv:/b" $"/mnt/b" $"nfs4" $"rw" 0 0) false)) = Some (file, true) /\
     read_entries file = [ent_a; Mntent $"srv:/b" $"/mnt/b" $"nfs4" $"rw" 0 0]).
Proof.
  intros mtab. assert (read_entries mtab = [ent_a; ent_b]) as Hr by (vm_compute; reflexivity).
  pose proof (fun d i => update_mtab_refines io_ex mtab d i) as R. cbv zeta in R. rewrite Hr in R. split.
  - destruct (R $"/mnt/a b" None) as (file & go & E & G). destruct G as [_ G]; [reflexivity|by intros [? ?]| |].
    { repeat constructor; ok_entry || done || (cbn; unfold INT_MAX; lia) || (vm_compute; lia). }
    destruct G as [-> G]; [by repeat split|]. exists file. split; [exact E|]. rewrite G. vm_compute. reflexivity.
  - destruct (R $"/mnt/b" (Some (Mntent $"srv:/b" $"/mnt/b" $"nfs4" $"rw" 0 0))) as (file & go & E & G).
    destruct G as [_ G]; [reflexivity|intros _; exists ent_b; split; [right; by left|reflexivity]| |].
    { repeat constructor; ok_entry || done || (cbn; unfold INT_MAX; lia) || (vm_compute; lia). }
    destruct G as [-> G]; [by repeat split|]. exists file. split; [exact E|]. rewrite G. vm_compute. reflexivity.
Defined.

(** A remount of a directory that the table does not list is not recorded, unless
    the table is empty: the new node is linked backward only. *)
Theorem update_mtab_absent (mtab dir : cstr) (i : mntent) :
  Forall (fun m => mnt_dir m <> dir) (read_entries mtab) -> read_entries mtab <> [] ->
  update_mtab io_ex mtab dir (Some (CE i false)) = Some (concat (mntent_line <$> read_entries mtab), true).
Proof.
  intros Hd Hne. destruct (update_mtab_run io_ex mtab dir (Some (CE i false))) as (file & go & E & _ & G); [by intros ? [= <-]|].
  destruct G as [-> ->]; [by repeat split|]. rewrite E, edited_reoptioned by done. unfold reoptioned.
  rewrite on_last_None; [done|]. eapply Forall_impl; [exact Hd|]. intros m Hm. unfold streq. by rewrite bool_decide_false.
Qed.

Lemma update_mtab_absent_witness :
  update_mtab io_ex (mntent_line ent_b) $"/mnt/a b" (Some (CE ent_a false)) = Some (mntent_line ent_b, true).
Proof.
  assert (read_entries (mntent_line ent_b) = [ent_b]) as Hr by (vm_compute; reflexivity).
  rewrite (update_mtab_absent (mntent_line ent_b) $"/mnt/a b" ent_a); rewrite Hr; [cbn [fmap list_fmap concat]; by rewrite app_nil_r|by repeat constructor|done].
Defined.

(** A table with a line longer than the buffer loses that line and every entry
    after it when any entry is removed. *)
Theorem update_mtab_long_line :
  update_mtab io_ex (mntent_line ent_a ++ replicate 5000 "x"%char ++ [NL] ++ mntent_line ent_b) $"/none" None = Some (mntent_line ent_a, true).
Proof. vm_compute. reflexivity. Qed.

(** A read error empties it. *)
Theorem update_mtab_read_error :
  update_mtab (MtabIO false false true true true true (fun _ => A_Ok) true) (mntent_line ent_a ++ mntent_line ent_b) $"/none" None = Some ([], true).
Proof. vm_compute. reflexivity. Qed.
