(* ===== verification/MountMain.v ===== *)
(** * The mount command (utils/mount/mount.c, with utils.c and support/nfs/xcommon.c)

    mount.nfs reads its command line, completes the options from the configuration
    file, sorts them into the flags of mount(2) and the options of NFS, mounts, and
    writes an entry to /etc/mtab.  Installed setuid root it lets a user mount what
    /etc/fstab says he may.

    [parse_opts] writes to a buffer as large as its input; a write past its end is
    [None].  [mount_prepare] is the command up to the mount, [mount_main] the whole;
    mounting is [Stropts], completing the options [MntConf], the tables [Mntent]. *)

From S2P Require Import Prelude Heap Token ParseOpt ConfDb Client MntOpts Probe Stropts MntConf Mntent.

(** ** Flags *)

Definition MS_RDONLY : Z := 1.
Definition MS_NOSUID : Z := 2.
Definition MS_NODEV : Z := 4.
Definition MS_NOEXEC : Z := 8.
Definition MS_SYNCHRONOUS : Z := 16.
Definition MS_MANDLOCK : Z := 64.
Definition MS_DIRSYNC : Z := 128.
Definition MS_NOATIME : Z := 1024.
Definition MS_NODIRATIME : Z := 2048.
Definition MS_BIND : Z := 4096.
Definition MS_REC : Z := 16384.
Definition MS_SILENT : Z := 32768.
Definition MS_RELATIME : Z := 2 ^ 21.
Definition MS_DUMMY : Z := 0.
Definition MS_USERS : Z := 2 ^ 30.
Definition MS_USER : Z := 2 ^ 31.
Definition MS_NOMTAB : Z := MS_REMOUNT.

Record opt_map_t := OM { om_opt : cstr; om_skip : bool; om_inv : bool; om_mask : Z }.

Definition opt_map : list opt_map_t :=
  [ OM $"defaults" false false 0;
    OM $"ro" true false MS_RDONLY; OM $"rw" true true MS_RDONLY;
    OM $"exec" false true MS_NOEXEC; OM $"noexec" false false MS_NOEXEC;
    OM $"suid" false true MS_NOSUID; OM $"nosuid" false false MS_NOSUID;
    OM $"dev" false true MS_NODEV; OM $"nodev" false false MS_NODEV;
    OM $"sync" false false MS_SYNCHRONOUS; OM $"async" false true MS_SYNCHRONOUS;
    OM $"dirsync" false false MS_DIRSYNC; OM $"remount" false false MS_REMOUNT;
    OM $"bind" false false MS_BIND; OM $"rbind" false false (Z.lor MS_BIND MS_REC);
    OM $"auto" false false MS_DUMMY; OM $"noauto" false false MS_DUMMY;
    OM $"users" true false MS_USERS; OM $"nousers" false true MS_DUMMY;
    OM $"user" true false MS_USER; OM $"nouser" false true MS_DUMMY;
    OM $"owner" false false MS_DUMMY; OM $"noowner" false false MS_DUMMY;
    OM $"group" false false MS_DUMMY; OM $"nogroup" false false MS_DUMMY;
    OM $"_netdev" false false MS_DUMMY; OM $"comment" false false MS_DUMMY;
    OM $"quiet" false false MS_SILENT; OM $"loud" false true MS_SILENT;
    OM $"mand" false false MS_MANDLOCK; OM $"nomand" false true MS_MANDLOCK;
    OM $"loop" true false MS_DUMMY;
    OM $"atime" false true MS_NOATIME; OM $"noatime" false false MS_NOATIME;
    OM $"diratime" false true MS_NODIRATIME; OM $"nodiratime" false false MS_NODIRATIME;
    OM $"relatime" false false MS_RELATIME; OM $"norelatime" false true MS_RELATIME;
    OM $"noquota" false false MS_DUMMY; OM $"quota" false false MS_DUMMY;
    OM $"usrquota" false false MS_DUMMY; OM $"grpquota" false false MS_DUMMY ].

(** ** Options to flags and back *)

(** [strcat] to a buffer of [cap] bytes. *)
Definition strcat (cap : Z) (dst src : cstr) : option cstr :=
  if Z.of_nat (length dst) + Z.of_nat (length src) + 1 <=? cap then Some (dst ++ src) else None.

(** The flags and the buffer [extra_opts] of [cap] bytes; [len] is a [size_t]. *)
Definition parse_opt (cap : Z) (opt : cstr) (mask : Z) (extra_opts : cstr) (len : Z) : option (Z * cstr) :=
  match List.find (fun om => streq opt (om_opt om)) opt_map with
  | Some om => Some (if om_inv om then Z.ldiff mask (om_mask om) else Z.lor mask (om_mask om), extra_opts)
  | None =>
      let len := u64 (len - Z.of_nat (length extra_opts)) in
      '(extra_opts, len) ←
        (if streq extra_opts [] then Some (extra_opts, len)
         else
           let len := u64 (len - 1) in
           if 0 <? len then (fun e => (e, len)) <$> strcat cap extra_opts $"," else Some (extra_opts, len));
      let len := u64 (len - Z.of_nat (length opt)) in
      extra_opts ← (if 0 <? len then strcat cap extra_opts opt else Some extra_opts);
      Some (mask, extra_opts)
  end.

(** The loop on [p]; [opt] is the item so far, if one has begun. *)
Fixpoint parse_opts_loop (cap len : Z) (p : cstr) (opt : option cstr) (open_quote : bool) (flags : Z) (extra_opts : cstr)
  : option (Z * cstr) :=
  match p with
  | [] => Some (flags, extra_opts)
  | c :: p =>
      let item := default [] opt in
      let open_quote := if ceqb c DQUOTE then negb open_quote else open_quote in
      if open_quote then parse_opts_loop cap len p (Some (item ++ [c])) open_quote flags extra_opts
      else
        let item := if ceqb c "," then item else item ++ [c] in
        if ceqb c "," || bool_decide (p = []) then
          '(flags, extra_opts) ← parse_opt cap item flags extra_opts len;
          parse_opts_loop cap len p None open_quote flags extra_opts
        else parse_opts_loop cap len p (Some item) open_quote flags extra_opts
  end.

Definition parse_opts (options : cstr) (flags : Z) : option (Z * cstr) :=
  let len := Z.of_nat (length options) + 1 in
  parse_opts_loop len len options None false flags [].

Definition fix_one (st : cstr * Z) (om : opt_map_t) : cstr * Z :=
  let '(new_opts, flags) := st in
  if om_skip om then st
  else if om_inv om || (om_mask om =? 0) || negb (Z.land flags (om_mask om) =? om_mask om) then st
  else (new_opts ++ $"," ++ om_opt om, Z.ldiff flags (om_mask om)).

(** [pw] is the name of the user, when he has one. *)
Definition fix_opts_string (pw : option cstr) (flags : Z) (extra_opts : option cstr) : cstr :=
  let new_opts := if Z.land flags MS_RDONLY =? 0 then $"rw" else $"ro" in
  let new_opts := if Z.land flags MS_USER =? 0 then new_opts
                  else match pw with Some name => new_opts ++ $",user=" ++ name | None => new_opts end in
  let new_opts := if Z.land flags MS_USERS =? 0 then new_opts else new_opts ++ $",users" in
  let new_opts := (foldl fix_one (new_opts, flags) opt_map).1 in
  match extra_opts with Some (c :: e) => new_opts ++ $"," ++ c :: e | _ => new_opts end.

Definition init_mntent (pw : option cstr) (fsname dir type : cstr) (flags : Z) (opts : option cstr) : mntent :=
  Mntent fsname dir type (fix_opts_string pw (Z.ldiff flags MS_NOMTAB) opts) 0 0.

(** ** What the options of a mount are *)

(** The text between commas outside quotation marks; what is after the last comma
    is not an item when it is empty or a quotation mark is left open. *)
Definition closed (item : cstr) (q : bool) (p : cstr) : list cstr :=
  let f := match qfields "," q p with f :: fs => (item ++ f) :: fs | [] => [item] end in
  if quotes_open q p then removelast f
  else match last f with Some [] => removelast f | _ => f end.
Definition items (options : cstr) : list cstr := closed [] false options.

Definition flag_of (item : cstr) : option opt_map_t := List.find (fun om => streq item (om_opt om)) opt_map.
Definition apply_flag (flags : Z) (item : cstr) : Z :=
  match flag_of item with
  | Some om => if om_inv om then Z.ldiff flags (om_mask om) else Z.lor flags (om_mask om)
  | None => flags
  end.
(** The items that are not flags, with commas between them. *)
Definition add_extra (e item : cstr) : cstr :=
  match flag_of item, e with
  | Some _, _ => e
  | None, [] => item
  | None, _ => e ++ ","%char :: item
  end.

Definition used (e : cstr) : Z := match e with [] => 0 | _ => Z.of_nat (length e) + 1 end.

Lemma parse_opt_fits cap opt flags extra :
  used extra + Z.of_nat (length opt) < cap -> cap < 2 ^ 64 ->
  parse_opt cap opt flags extra cap = Some (apply_flag flags opt, add_extra extra opt).
Proof.
  intros H Hc. unfold parse_opt, apply_flag, add_extra. fold (flag_of opt). destruct (flag_of opt) as [om|]; [done|].
  destruct extra as [|c e].
  - cbn [used] in H. rewrite streq_refl. cbn [length Z.of_nat mbind option_bind]. unfold u64. rewrite Z.sub_0_r, !Z.mod_small by (rewrite ?Z.mod_small; lia).
    rewrite (proj2 (Z.ltb_lt _ _)) by lia. unfold strcat. rewrite (proj2 (Z.leb_le _ _)) by (cbn; lia). done.
  - cbn [used] in H. set (x := c :: e) in *. assert (streq x [] = false) as -> by (unfold streq; by rewrite bool_decide_false).
    unfold u64. rewrite (Z.mod_small (cap - _)), (Z.mod_small (cap - _ - 1)) by lia.
    rewrite (proj2 (Z.ltb_lt _ _)) by lia. unfold strcat. rewrite (proj2 (Z.leb_le (Z.of_nat (length x) + _ + _) cap)) by (change (Z.of_nat (length $",")) with 1; lia).
    cbn [fmap option_fmap option_map mbind option_bind]. rewrite Z.mod_small by lia. rewrite (proj2 (Z.ltb_lt _ _)) by lia.
    rewrite length_app. change (length $",") with 1%nat. rewrite (proj2 (Z.leb_le _ _)) by lia.
    cbn [mbind option_bind]. by rewrite <- app_assoc.
Qed.

Lemma closed_comma item q p : (if ceqb "," DQUOTE then negb q else q) = false -> closed item q (","%char :: p) = item :: closed [] false p.
Proof.
  cbn. intros ->. unfold closed. cbn [qfields quotes_open]. change (ceqb "," DQUOTE) with false. cbn [negb andb]. rewrite ceqb_refl.
  rewrite app_nil_r. destruct (qfields "," false p) as [|f fs] eqn:E; [by destruct p as [|c p]; cbn in E; repeat case_match|].
  cbn [app]. destruct (quotes_open false p); [done|]. change (last (item :: f :: fs)) with (last (f :: fs)). by destruct (last (f :: fs)) as [[|]|].
Qed.

Lemma closed_char item q c p :
  let q' := if ceqb c DQUOTE then negb q else q in
  q' = true \/ c <> ","%char -> closed item q (c :: p) = closed (item ++ [c]) q' p.
Proof.
  intros q' H. unfold closed. cbn [qfields quotes_open]. fold q'.
  assert (negb q' && ceqb c "," = false) as ->.
  { destruct H as [-> |H]; [done|]. rewrite (proj2 (ceqb_false _ _) H). apply andb_false_r. }
  destruct (qfields "," q' p); [done|]. by rewrite <- app_assoc.
Qed.

Lemma used_add e item : used (add_extra e item) <= used e + Z.of_nat (length item) + 1.
Proof.
  unfold add_extra. destruct (flag_of item); [lia|]. destruct e as [|c e]; cbn [used].
  - destruct item; cbn [used length]; lia.
  - cbn [app]. unfold used. cbn [length]. rewrite length_app. cbn [length]. lia.
Qed.

Lemma parse_opts_loop_run cap p opt q flags extra :
  cap < 2 ^ 64 -> used extra + Z.of_nat (length (default [] opt)) + Z.of_nat (length p) < cap ->
  (p = [] -> q = false -> default [] opt = []) ->
  parse_opts_loop cap cap p opt q flags extra
  = Some (foldl apply_flag flags (closed (default [] opt) q p), foldl add_extra extra (closed (default [] opt) q p)).
Proof.
  intros Hc. revert opt q flags extra; induction p as [|c p IH]; intros opt q flags extra Hu Hp.
  { cbn [parse_opts_loop]. unfold closed. cbn. destruct q; [done|]. rewrite Hp by done. done. }
  cbn [parse_opts_loop]. set (item := default [] opt) in *. set (q' := if ceqb c DQUOTE then negb q else q).
  cbn [length] in Hu. rewrite Nat2Z.inj_succ in Hu. destruct q' eqn:Eq.
  - rewrite IH; cbn [from_option id]; [|rewrite length_app; cbn; lia|done]. rewrite closed_char by (left; exact Eq). fold q'. by rewrite Eq.
  - destruct (ceqb c ",") eqn:Ec; cbn [orb].
    + btrue. subst c. rewrite parse_opt_fits by lia. cbn [mbind option_bind].
      rewrite IH; cbn [from_option id]; [|pose proof (used_add extra item); cbn; lia|done]. by rewrite closed_comma by (exact Eq).
    + btrue. rewrite closed_char by (by right). fold q'. rewrite Eq. destruct (bool_decide (p = [])) eqn:Ep.
      * apply bool_decide_eq_true in Ep as ->. rewrite parse_opt_fits by (rewrite ?length_app; cbn in *; lia). cbn [mbind option_bind parse_opts_loop].
        unfold closed. cbn. rewrite app_nil_r. by destruct item.
      * apply bool_decide_eq_false in Ep. rewrite IH; cbn [from_option id]; [done|rewrite length_app; cbn; lia|done].
Qed.

(** Sorting the options of a mount into flags and options of NFS.  The buffer is
    never overrun and nothing is cut off: every item that names a flag is applied
    to the flags, in order, and every other item is kept, in order; items in
    quotation marks are not split, and an item after a quotation mark that is left
    open is dropped. *)
Theorem parse_opts_items (options : cstr) (flags : Z) :
  Z.of_nat (length options) + 1 < 2 ^ 64 ->
  parse_opts options flags = Some (foldl apply_flag flags (items options), foldl add_extra [] (items options)).
Proof. intros H. unfold parse_opts. apply (parse_opts_loop_run _ _ None); [done|cbn; lia|done]. Qed.

Lemma parse_opts_items_witness :
  parse_opts ($"ro,hard,nosuid,context=" ++ DQUOTE :: $"a,ro" ++ [DQUOTE]) 0 = Some (3, $"hard,context=" ++ DQUOTE :: $"a,ro" ++ [DQUOTE]).
Proof. rewrite (parse_opts_items _ 0); [vm_compute; reflexivity|cbn; lia]. Defined.

(** ** The options that /etc/mtab records *)

Fixpoint emitted (flags : Z) (l : list opt_map_t) : list opt_map_t :=
  match l with
  | [] => []
  | om :: l =>
      if om_skip om || om_inv om || (om_mask om =? 0) || negb (Z.land flags (om_mask om) =? om_mask om) then emitted flags l
      else om :: emitted (Z.ldiff flags (om_mask om)) l
  end.
Fixpoint remaining (flags : Z) (l : list opt_map_t) : Z :=
  match l with
  | [] => flags
  | om :: l =>
      if om_skip om || om_inv om || (om_mask om =? 0) || negb (Z.land flags (om_mask om) =? om_mask om) then remaining flags l
      else remaining (Z.ldiff flags (om_mask om)) l
  end.
Definition masks (l : list opt_map_t) : Z := foldr (fun om m => Z.lor (om_mask om) m) 0 l.

Definition comma_list (l : list cstr) : cstr := concat ((fun n => ","%char :: n) <$> l).

Lemma comma_list_cons a l : comma_list (a :: l) = ","%char :: a ++ comma_list l.
Proof. done. Qed.

Lemma fix_fold new flags l : (foldl fix_one (new, flags) l).1 = new ++ comma_list (om_opt <$> emitted flags l).
Proof.
  revert new flags; induction l as [|om l IH]; intros new flags; [by rewrite app_nil_r|]. cbn [foldl fix_one emitted].
  destruct (om_skip om); cbn [orb]; [apply IH|]. destruct (_ || _ || _); [apply IH|]. rewrite IH. unfold comma_list. cbn. by rewrite <- app_assoc.
Qed.

Lemma emitted_masks flags l : Z.lor (masks (emitted flags l)) (remaining flags l) = flags.
Proof.
  revert flags; induction l as [|om l IH]; intros flags; [apply Z.lor_0_l|]. cbn [emitted remaining].
  destruct (_ || _ || _ || _) eqn:E; [apply IH|]. cbn [masks foldr]. fold (masks (emitted (Z.ldiff flags (om_mask om)) l)).
  rewrite <- Z.lor_assoc, IH. apply orb_false_iff in E as [_ E]. btrue. rewrite <- E at 1.
  apply Z.bits_inj'. intros n Hn. rewrite Z.lor_spec, Z.land_spec, Z.ldiff_spec.
  apply (f_equal (fun z => Z.testbit z n)) in E. rewrite Z.land_spec in E. by destruct (Z.testbit flags n), (Z.testbit (om_mask om) n).
Qed.

Lemma emitted_sub flags l om : om ∈ emitted flags l -> om ∈ l /\ om_inv om = false /\ om_skip om = false.
Proof.
  revert flags; induction l as [|o l IH]; intros flags; [set_solver|]. cbn [emitted].
  destruct (_ || _ || _ || _) eqn:E; [intros H; apply IH in H; set_solver|]. repeat (apply orb_false_iff in E as [E ?]).
  intros [->|Hin]%elem_of_cons; [set_solver|]. apply IH in Hin. set_solver.
Qed.

(** The names of the table are distinct, without commas and quotation marks. *)
Lemma opt_map_names : Forall (fun om => flag_of (om_opt om) = Some om /\ om_opt om <> [] /\ ","%char ∉ om_opt om /\ DQUOTE ∉ om_opt om) opt_map.
Proof.
  unfold opt_map. repeat apply Forall_cons_2; try apply Forall_nil_2.
  all: split_and!; [vm_compute; reflexivity|discriminate|refine (bool_decide_unpack _ _); vm_compute; exact I..].
Qed.

Lemma apply_emitted f0 flags l :
  (forall om, om ∈ l -> flag_of (om_opt om) = Some om) ->
  foldl apply_flag f0 (om_opt <$> emitted flags l) = Z.lor f0 (masks (emitted flags l)).
Proof.
  intros H. assert (forall om, om ∈ emitted flags l -> flag_of (om_opt om) = Some om /\ om_inv om = false) as H'.
  { intros om Hin. apply emitted_sub in Hin as (? & ? & _). auto. }
  revert f0 H'. generalize (emitted flags l) as e. induction e as [|om e IH]; intros f0 H'; cbn [fmap list_fmap foldl masks foldr]; [by rewrite Z.lor_0_r|].
  destruct (H' om ltac:(set_solver)) as [E1 E2]. unfold apply_flag at 2. rewrite E1, E2, IH by set_solver. by rewrite Z.lor_assoc.
Qed.

(** Plain text in front of a comma is an item. *)
Lemma closed_plain item a p : ","%char ∉ a -> DQUOTE ∉ a -> closed item false (a ++ ","%char :: p) = (item ++ a) :: closed [] false p.
Proof.
  revert item; induction a as [|c a IH]; intros item Hc Hq; cbn [app]; [by rewrite closed_comma, app_nil_r|].
  assert (c <> DQUOTE /\ c <> ","%char) as [H1 H2] by set_solver.
  rewrite closed_char by (by right). rewrite (proj2 (ceqb_false _ _) H1). rewrite IH by set_solver. by rewrite <- app_assoc.
Qed.

Lemma closed_last item a : ","%char ∉ a -> DQUOTE ∉ a -> item ++ a <> [] -> closed item false a = [item ++ a].
Proof.
  revert item; induction a as [|c a IH]; intros item Hc Hq Hne.
  - unfold closed. cbn. rewrite app_nil_r in *. by destruct item.
  - assert (c <> DQUOTE /\ c <> ","%char) as [H1 H2] by set_solver.
    rewrite closed_char by (by right). rewrite (proj2 (ceqb_false _ _) H1). rewrite IH; [by rewrite <- app_assoc|set_solver..|by destruct item].
Qed.

Definition plain (a : cstr) : Prop := ","%char ∉ a /\ DQUOTE ∉ a.

Lemma closed_names item n l (tail : option cstr) :
  plain n -> item ++ n <> [] -> Forall (fun a => plain a /\ a <> []) l ->
  closed item false (n ++ comma_list l ++ match tail with Some e => ","%char :: e | None => [] end)
  = (item ++ n) :: l ++ match tail with Some e => items e | None => [] end.
Proof.
  intros [P1 P2] Hne Hl. revert item n P1 P2 Hne; induction Hl as [|a l [[A1 A2] Ha] _ IH]; intros item n P1 P2 Hne.
  - cbn [comma_list fmap list_fmap concat app]. destruct tail as [e|]; [by rewrite closed_plain|]. rewrite app_nil_r. by apply closed_last.
  - unfold comma_list. cbn [fmap list_fmap concat app]. rewrite closed_plain by done. f_equal.
    change (concat _) with (comma_list l). rewrite <- app_assoc. by rewrite IH.
Qed.

Lemma remaining_sub f l n : Z.testbit (remaining f l) n = true -> Z.testbit f n = true.
Proof.
  revert f; induction l as [|om l IH]; intros f; [done|]. cbn [remaining]. destruct (_ || _ || _ || _); intros H; apply IH in H; [done|].
  rewrite Z.ldiff_spec in H. by apply andb_true_iff in H as [? _].
Qed.

Lemma remaining_clear f l n om : 0 <= n -> om ∈ l -> om_mask om = 2 ^ n -> om_skip om = false -> om_inv om = false ->
  Z.testbit (remaining f l) n = false.
Proof.
  intros Hn Hin Em Es Ei. revert f; induction l as [|o l IH]; intros f; [set_solver|]. apply elem_of_cons in Hin as [<-|Hin].
  - cbn [remaining]. rewrite Es, Ei, Em. rewrite (proj2 (Z.eqb_neq (2 ^ n) 0)) by (apply Z.pow_nonzero; lia). cbn [orb].
    apply not_true_is_false. destruct (Z.land f (2 ^ n) =? 2 ^ n) eqn:E; cbn [negb]; intros H; apply remaining_sub in H.
    + rewrite Z.ldiff_spec, Z.pow2_bits_true, andb_false_r in H by done. done.
    + apply Z.eqb_neq in E. apply E. apply Z.bits_inj'. intros k Hk. rewrite Z.land_spec.
      destruct (decide (k = n)) as [->|]; [by rewrite H, Z.pow2_bits_true|]. by rewrite Z.pow2_bits_false, andb_false_r by done.
  - cbn [remaining]. destruct (_ || _ || _ || _); by apply IH.
Qed.

(** The flags that /etc/mtab can record; that of user by the user's name. *)
Definition recorded : Z :=
  masks [OM [] true false MS_RDONLY; OM [] true false MS_USER; OM [] true false MS_USERS; OM [] true false MS_NOEXEC; OM [] true false MS_NOSUID;
         OM [] true false MS_NODEV; OM [] true false MS_SYNCHRONOUS; OM [] true false MS_DIRSYNC; OM [] true false MS_REMOUNT;
         OM [] true false MS_BIND; OM [] true false MS_SILENT; OM [] true false MS_MANDLOCK; OM [] true false MS_NOATIME;
         OM [] true false MS_NODIRATIME; OM [] true false MS_RELATIME].

Definition covered (n : Z) : bool :=
  negb (Z.testbit recorded n) || (n =? 0) || (n =? 30) || (n =? 31)
  || existsb (fun om => (om_mask om =? 2 ^ n) && negb (om_skip om) && negb (om_inv om)) opt_map.

Lemma all_covered n : 0 <= n -> covered n = true.
Proof.
  intros Hn. destruct (decide (n < 32)).
  - assert (Forall (fun n => covered n = true) (seqZ 0 32)) as H by (apply Forall_forall; vm_compute; set_solver).
    rewrite Forall_forall in H. apply H. apply elem_of_seqZ. lia.
  - unfold covered. rewrite Z.bits_above_log2; [done|by vm_compute|]. change (Z.log2 recorded) with 31. lia.
Qed.

Lemma remaining_recorded flags n : 0 <= n -> Z.ldiff flags recorded = 0 ->
  Z.testbit (remaining flags opt_map) n = true -> n = 0 \/ n = 30 \/ n = 31.
Proof.
  intros Hn Hr H. pose proof (remaining_sub _ _ _ H) as Hf.
  assert (Z.testbit recorded n = true) as Hk.
  { apply (f_equal (fun z => Z.testbit z n)) in Hr. rewrite Z.ldiff_spec, Hf, Z.bits_0 in Hr. by destruct (Z.testbit recorded n). }
  pose proof (all_covered n Hn) as C. unfold covered in C. rewrite Hk in C. cbn [negb orb] in C.
  rewrite !orb_true_iff in C. destruct C as [[[C|C]|C]|C]; [btrue; auto..|].
  apply existsb_exists in C as (om & Hin & C). btrue. apply list_elem_of_In in Hin.
  rewrite (remaining_clear flags opt_map n om) in H by done. done.
Qed.

Lemma flags_no_extra e l : Forall (fun i => flag_of i <> None) l -> foldl add_extra e l = e.
Proof.
  intros H. revert e; induction H as [|i l Hi _ IH]; intros e; [done|]. cbn. rewrite IH. unfold add_extra. by destruct (flag_of i).
Qed.
Lemma own_no_flags f l : Forall (fun i => flag_of i = None) l -> foldl apply_flag f l = f.
Proof. intros H. revert f; induction H as [|i l Hi _ IH]; intros f; [done|]. cbn. rewrite IH. unfold apply_flag. by rewrite Hi. Qed.

Definition tail_of (extra : cstr) : option cstr := match extra with [] => None | _ => Some extra end.

(** The item that names the user of the mount. *)
Definition mounter_item (pw : option cstr) (flags : Z) : list cstr :=
  if Z.land flags MS_USER =? 0 then [] else match pw with Some name => [$"user=" ++ name] | None => [] end.

Lemma mounter_plain pw flags : (forall name, pw = Some name -> plain name) -> Forall (fun a => (plain a /\ a <> []) /\ flag_of a = None) (mounter_item pw flags).
Proof.
  intros Hpw. unfold mounter_item. destruct (Z.land flags MS_USER =? 0); [constructor|]. destruct pw as [name|]; constructor; [|constructor].
  destruct (Hpw name eq_refl) as [Hc Hq]. split.
  - split; [|done]. split; (intros [H|H]%elem_of_app; [vm_compute in H; set_solver|done]).
  - destruct (flag_of _) as [om|] eqn:E; [|done]. apply List.find_some in E as [Hin%list_elem_of_In E]. btrue.
    assert (Forall (fun om => "="%char ∉ om_opt om) opt_map) as Hn by (refine (bool_decide_unpack _ _); vm_compute; exact I).
    rewrite Forall_forall in Hn. destruct (Hn om Hin). rewrite <- E. apply elem_of_app. left. refine (bool_decide_unpack _ _). vm_compute. exact I.
Qed.

(** The items of a recorded option string. *)
Lemma fix_opts_items pw flags extra : (forall name, pw = Some name -> plain name) ->
  items (fix_opts_string pw flags (Some extra))
  = (if Z.land flags MS_RDONLY =? 0 then $"rw" else $"ro")
    :: (mounter_item pw flags ++ (if Z.land flags MS_USERS =? 0 then [] else [$"users"]) ++ (om_opt <$> emitted flags opt_map))
    ++ match tail_of extra with Some e => items e | None => [] end.
Proof.
  intros Hpw. unfold fix_opts_string. rewrite fix_fold.
  set (base := if Z.land flags MS_RDONLY =? 0 then _ else _). set (us := if Z.land flags MS_USERS =? 0 then [] else [$"users"]).
  assert ((if Z.land flags MS_USER =? 0 then base else match pw with Some name => base ++ $",user=" ++ name | None => base end)
    = base ++ comma_list (mounter_item pw flags)) as ->.
  { unfold mounter_item, comma_list. destruct (Z.land flags MS_USER =? 0); [symmetry; apply app_nil_r|]. destruct pw; cbn; by rewrite ?app_nil_r. }
  assert (forall b : cstr, (if Z.land flags MS_USERS =? 0 then b else b ++ $",users") = b ++ comma_list us) as ->.
  { intros b. unfold us. destruct (Z.land flags MS_USERS =? 0); [symmetry; apply app_nil_r|done]. }
  pose proof (closed_names [] base (mounter_item pw flags ++ us ++ (om_opt <$> emitted flags opt_map)) (tail_of extra)) as H. cbn [app] in H.
  unfold items at 1. rewrite <- H.
  - f_equal. unfold comma_list. rewrite !fmap_app, !concat_app. destruct extra; cbn [tail_of app]; rewrite <- ?app_assoc, ?app_nil_r; done.
  - subst base. destruct (Z.land flags MS_RDONLY =? 0); split; refine (bool_decide_unpack _ _); vm_compute; exact I.
  - subst base. by destruct (Z.land flags MS_RDONLY =? 0).
  - apply Forall_app. split; [|apply Forall_app; split].
    + eapply Forall_impl; [by apply mounter_plain|]. by intros a [? _].
    + subst us. destruct (Z.land flags MS_USERS =? 0); repeat constructor; try done; refine (bool_decide_unpack _ _); vm_compute; exact I.
    + apply Forall_fmap, Forall_forall. intros om Hin. apply emitted_sub in Hin as [Hin _].
      pose proof (proj1 (Forall_forall _ _) opt_map_names om Hin) as (_ & ? & ? & ?). split; [split|]; done.
Qed.

Lemma bit_land f k : 0 <= k -> Z.land f (2 ^ k) = if Z.testbit f k then 2 ^ k else 0.
Proof.
  intros Hk. apply Z.bits_inj'. intros n Hn. rewrite Z.land_spec. destruct (decide (n = k)) as [->|Hne].
  - rewrite Z.pow2_bits_true, andb_true_r by done. destruct (Z.testbit f k) eqn:E; [by rewrite Z.pow2_bits_true|by rewrite Z.bits_0].
  - rewrite (Z.pow2_bits_false k n), andb_false_r by done. destruct (Z.testbit f k); [by rewrite Z.pow2_bits_false|by rewrite Z.bits_0].
Qed.

Lemma emitted_no_user flags : Z.testbit (masks (emitted flags opt_map)) 31 = false.
Proof.
  assert (Forall (fun om => om_skip om = true \/ Z.testbit (om_mask om) 31 = false) opt_map) as H
    by (refine (bool_decide_unpack _ _); vm_compute; exact I).
  assert (forall om, om ∈ emitted flags opt_map -> Z.testbit (om_mask om) 31 = false) as He.
  { intros om (Hin & _ & Hs)%emitted_sub. rewrite Forall_forall in H. destruct (H om Hin); [congruence|done]. }
  revert He. generalize (emitted flags opt_map). induction l as [|om l IH]; intros He; [done|]. cbn [masks foldr]. rewrite Z.lor_spec, He by set_solver.
  apply IH. set_solver.
Qed.

Lemma lor_emitted flags : Z.ldiff flags recorded = 0 ->
  Z.lor (Z.lor (Z.land flags MS_RDONLY) (Z.land flags MS_USERS)) (masks (emitted flags opt_map)) = Z.ldiff flags MS_USER.
Proof.
  intros Hr. apply Z.bits_inj'. intros n Hn. rewrite !Z.lor_spec, !Z.land_spec, Z.ldiff_spec. unfold MS_USER at 1.
  pose proof (emitted_masks flags opt_map) as E. apply (f_equal (fun z => Z.testbit z n)) in E. rewrite Z.lor_spec in E.
  pose proof (remaining_recorded flags n Hn Hr) as R. destruct (decide (n = 31)) as [->|Hne].
  { rewrite emitted_no_user. change (Z.testbit MS_RDONLY 31) with false. change (Z.testbit MS_USERS 31) with false. change (Z.testbit (2 ^ 31) 31) with true.
    by rewrite !andb_false_r. }
  rewrite Z.pow2_bits_false, andb_true_r by done.
  destruct (Z.testbit (masks (emitted flags opt_map)) n); [by rewrite orb_true_r, <- E|]. cbn [orb] in E. rewrite orb_false_r.
  destruct (Z.testbit flags n); [|done]. destruct (R E) as [-> |[-> |?]]; done.
Qed.

Lemma add_extra_all e l : e <> [] -> Forall (fun i => flag_of i = None) l -> foldl add_extra e l = e ++ comma_list l.
Proof.
  intros He Hl. revert e He. induction Hl as [|i l Hi _ IH]; intros e He; [symmetry; apply app_nil_r|]. cbn [foldl].
  assert (add_extra e i = e ++ ","%char :: i) as -> by (unfold add_extra; rewrite Hi; by destruct e).
  rewrite IH by (by destruct e). unfold comma_list. cbn [fmap list_fmap concat]. by rewrite <- app_assoc.
Qed.

(** The options of NFS that are read back: the user's name, then those of the mount. *)
Definition with_user (pw : option cstr) (flags : Z) (extra : cstr) : cstr :=
  match mounter_item pw flags, extra with
  | [], _ => extra
  | u :: _, [] => u
  | u :: _, _ => u ++ ","%char :: extra
  end.

Lemma user_extra pw flags extra :
  (forall name, pw = Some name -> plain name) -> Forall (fun i => flag_of i = None /\ i <> []) (items extra) -> foldl add_extra [] (items extra) = extra ->
  foldl add_extra (foldl add_extra [] (mounter_item pw flags)) (items extra) = with_user pw flags extra.
Proof.
  intros Hpw [Hf Hne]%Forall_and Hex. pose proof (mounter_plain pw flags Hpw) as Hu. unfold with_user, mounter_item in *.
  destruct (Z.land flags MS_USER =? 0); [|destruct pw as [name|]]; cbn [foldl app]; [rewrite Hex; by destruct extra| |rewrite Hex; by destruct extra].
  apply Forall_cons in Hu as [[_ Hu] _]. unfold add_extra at 2. rewrite Hu. destruct extra as [|c extra].
  - done.
  - rewrite add_extra_all by done. destruct (items (c :: extra)) as [|i l] eqn:E; [done|]. apply Forall_cons in Hf as [Hi Hf], Hne as [Hi' _].
    cbn [foldl] in Hex. unfold add_extra at 2 in Hex. rewrite Hi, add_extra_all in Hex by done. rewrite comma_list_cons, Hex. done.
Qed.

(** C36. The options that are written to /etc/mtab say what the mount was: reading
    them again gives the same flags and the same options of NFS.  A mount that its
    user may undo is recorded by his name: in place of the flag, the option
    user=NAME is read back, in front of the others (and nothing when the user has
    no name).  This is for the flags that have a name there, which are all but that of
    rbind, for user names without a comma or a quotation mark, and for NFS options
    as [parse_opts] leaves them: no flags, none empty, joined by commas. *)
Theorem fix_opts_roundtrip (pw : option cstr) (flags : Z) (extra : cstr) :
  Z.ldiff flags recorded = 0 -> (forall name, pw = Some name -> plain name) ->
  Forall (fun i => flag_of i = None /\ i <> []) (items extra) -> foldl add_extra [] (items extra) = extra ->
  Z.of_nat (length (fix_opts_string pw flags (Some extra))) + 1 < 2 ^ 64 ->
  parse_opts (fix_opts_string pw flags (Some extra)) 0 = Some (Z.ldiff flags MS_USER, with_user pw flags extra).
Proof.
  intros Hr Hpw Hown Hex Hlen. unfold parse_opts. erewrite (parse_opts_loop_run _ _ None); [|done|cbn; lia|done].
  change (closed (default [] None) false) with items. rewrite fix_opts_items by done.
  assert (match tail_of extra with Some e => items e | None => [] end = items extra) as -> by (by destruct extra).
  set (base := if Z.land flags MS_RDONLY =? 0 then _ else _). set (us := if Z.land flags MS_USERS =? 0 then _ else _).
  pose proof (mounter_plain pw flags Hpw) as [_ Hu]%Forall_and.
  assert (apply_flag 0 base = Z.land flags MS_RDONLY) as Eb.
  { subst base. unfold MS_RDONLY. change 1 with (2 ^ 0). rewrite (bit_land flags 0) by lia. by destruct (Z.testbit flags 0). }
  assert (foldl apply_flag (Z.land flags MS_RDONLY) us = Z.lor (Z.land flags MS_RDONLY) (Z.land flags MS_USERS)) as Eu.
  { subst us. unfold MS_USERS. rewrite (bit_land flags 30) by lia. destruct (Z.testbit flags 30); [|by rewrite Z.lor_0_r]. done. }
  assert (forall om, om ∈ opt_map -> flag_of (om_opt om) = Some om) as Hf.
  { intros om Hin. by destruct (proj1 (Forall_forall _ _) opt_map_names om Hin). }
  f_equal. f_equal.
  - pose proof Hown as [Hown' _]%Forall_and.
    cbn [foldl]. rewrite !foldl_app, Eb, (own_no_flags _ (mounter_item pw flags)), Eu, apply_emitted, own_no_flags by done. by apply lor_emitted.
  - cbn [foldl]. rewrite !foldl_app. assert (add_extra [] base = []) as -> by (subst base; by destruct (Z.land flags MS_RDONLY =? 0)).
    rewrite (flags_no_extra _ us) by (subst us; destruct (Z.land flags MS_USERS =? 0); repeat constructor; done).
    rewrite (flags_no_extra _ (om_opt <$> _)); [by apply user_extra|].
    apply Forall_fmap, Forall_forall. intros om Hin. apply emitted_sub in Hin as [Hin _]. change (flag_of (om_opt om) <> None). by rewrite Hf.
Qed.

Lemma fix_opts_roundtrip_witness :
  let flags := Z.lor MS_USER 1035 in
  fix_opts_string (Some $"joe") flags (Some $"hard,vers=3") = $"ro,user=joe,noexec,nosuid,noatime,hard,vers=3" /\
  parse_opts (fix_opts_string (Some $"joe") flags (Some $"hard,vers=3")) 0 = Some (1035, $"user=joe,hard,vers=3").
Proof.
  split; [reflexivity|]. apply (fix_opts_roundtrip (Some $"joe") (Z.lor MS_USER 1035) $"hard,vers=3"); [reflexivity| |repeat constructor; done|reflexivity|vm_compute; reflexivity].
  intros name [= <-]. split; refine (bool_decide_unpack _ _); vm_compute; exact I.
Defined.

(** A recursive bind mount is recorded as a plain one, since the flag of bind is
    taken away before rbind is looked at. *)
Theorem fix_opts_rbind : parse_opts (fix_opts_string None (Z.lor MS_BIND MS_REC) (Some $"hard")) 0 = Some (MS_BIND, $"hard").
Proof. vm_compute. reflexivity. Qed.

(** The options nouser and nousers, which forbid ordinary users to mount, take
    nothing away from an earlier user or users. *)
Theorem parse_opts_nouser :
  parse_opts $"user,nouser" 0 = Some (MS_USER, []) /\ parse_opts $"users,nousers" 0 = Some (MS_USERS, []).
Proof. vm_compute. auto. Qed.

(** ** Recording a mount *)

Definition EX_USAGE : Z := 1.
Definition EX_FILEIO : Z := 16.

(** The file system as [add_mtab] meets it: that of [update_mtab], whether /etc/mtab
    can be opened for writing at its end, the fates of the entry and of that of the
    root, whether its mode can be set, and what the uninitialized variable [flags]
    of [create_mtab] holds. *)
Record add_io := AddIO
  { ai_mtab : mtab_io; ai_open : bool; ai_fate : add_fate; ai_root : add_fate; ai_chmod : bool; ai_garbage : Z }.

(** [inl] ends the command with this code. *)
Definition create_mtab (ai : add_io) (pw : option cstr) (fstab : list mntent) (mtab : cstr) : option (Z + cstr) :=
  if io_symlink (ai_mtab ai) then Some (inr mtab)
  else if negb (ai_open ai) then Some (inl EX_FILEIO)
  else
    r ← match (match getfsfile fstab $"/" with Some m => Some m | None => getfsfile fstab $"root" end) with
        | None => Some (inr mtab)
        | Some m =>
            '(flags, extra_opts) ← parse_opts (mnt_opts m) (ai_garbage ai);
            let '(res, file) := nfs_addmntent (ai_root ai) mtab (init_mntent pw (mnt_fsname m) $"/" (mnt_type m) flags (Some extra_opts)) in
            Some (if res =? 1 then inl EX_FILEIO else inr file)
        end;
    match r with
    | inl e => Some (inl e)
    | inr file => Some (if ai_chmod ai then inr file else inl EX_FILEIO)
    end.

(** The result of [add_mtab], which is the exit code of the command, and the table. *)
Definition add_mtab (ai : add_io) (nomtab : bool) (pw : option cstr) (fstab : list mntent)
    (spec mount_point fstype : cstr) (flags : Z) (opts : option cstr) (mtab : cstr) : option (Z * cstr) :=
  let ment := init_mntent pw spec mount_point fstype flags opts in
  r ← (if negb nomtab && io_absent (ai_mtab ai) then create_mtab ai pw fstab mtab else Some (inr mtab));
  match r with
  | inl e => Some (e, mtab)
  | inr mtab =>
      if negb nomtab && mtab_is_writable (ai_mtab ai) then
        if negb (Z.land flags MS_REMOUNT =? 0) then
          '(file, go) ← update_mtab (ai_mtab ai) mtab (mnt_dir ment) (Some (CE ment false));
          Some (if go : bool then EX_SUCCESS else EX_FILEIO, file)
        else if negb (ai_open ai) then Some (EX_FILEIO, mtab)
        else
          let '(res, file) := nfs_addmntent (ai_fate ai) mtab ment in
          Some (if res =? 1 then EX_FILEIO else EX_SUCCESS, file)
      else Some (EX_SUCCESS, mtab)
  end.

(** ** The command *)

(** What getopt_long returns; [O_h] is also an option it does not know. *)
Inductive optc := O_r | O_v | O_V | O_w | O_f | O_n | O_o (optarg : cstr) | O_s | O_h.

Record cmdline := Cmd { cl_flags : Z; cl_fake : bool; cl_nomtab : bool; cl_sloppy : Z; cl_opts : option cstr }.
Definition cmd_init : cmdline := Cmd 0 false false 0 None.

Fixpoint read_cmd (l : list optc) (c : cmdline) : Z + cmdline :=
  match l with
  | [] => inr c
  | o :: l =>
      match o with
      | O_r => read_cmd l (Cmd (Z.lor (cl_flags c) MS_RDONLY) (cl_fake c) (cl_nomtab c) (cl_sloppy c) (cl_opts c))
      | O_v => read_cmd l c
      | O_V => inl EX_SUCCESS
      | O_w => read_cmd l (Cmd (Z.ldiff (cl_flags c) MS_RDONLY) (cl_fake c) (cl_nomtab c) (cl_sloppy c) (cl_opts c))
      | O_f => read_cmd l (Cmd (cl_flags c) true (cl_nomtab c) (cl_sloppy c) (cl_opts c))
      | O_n => read_cmd l (Cmd (cl_flags c) (cl_fake c) true (cl_sloppy c) (cl_opts c))
      | O_o optarg =>
          let opts := match cl_opts c with Some o => o ++ $"," ++ optarg | None => optarg end in
          read_cmd l (Cmd (cl_flags c) (cl_fake c) (cl_nomtab c) (cl_sloppy c) (Some opts))
      | O_s => read_cmd l (Cmd (cl_flags c) (cl_fake c) (cl_nomtab c) (cl_sloppy c + 1) (cl_opts c))
      | O_h => inl EX_USAGE
      end
  end.

(** The user and the file system. *)
Record menv := MEnv
  { e_uid : Z; e_euid : Z; e_pw : option cstr; e_progname : cstr; e_fstab : list mntent;
    e_realpath : cstr -> option cstr; e_stat : cstr -> option bool; e_access : cstr -> bool; e_daemon : bool }.

Definition canonicalize (e : menv) (path : cstr) : cstr :=
  if streq path $"none" || streq path $"proc" || streq path $"devpts" then path
  else default path (e_realpath e path).

(** [true] is an error.  [e_stat] says whether a file is a directory. *)
Definition chk_mountpoint (e : menv) (mount_point : cstr) : bool :=
  match e_stat e mount_point with
  | None => true
  | Some isdir =>
      if negb isdir then true
      else negb (e_uid e =? 0) && negb (e_euid e =? 0) && negb (e_access e mount_point)
  end.

(** What is to be mounted. *)
Record job := Job
  { j_spec : cstr; j_mount_point : cstr; j_flags : Z; j_type : cstr; j_extra : cstr; j_opts : option cstr;
    j_cmd : cmdline; j_globals : cstate }.

Section main.
  Context (e : menv) (db : netdb) (getenv : cstr -> option cstr) (cfuel : nat) (cf : conf).

(** The command up to the mount: an exit code or the mount.  [None]: reading the
    configuration file does not end well. *)
Definition mount_prepare (argc : Z) (opts : list optc) (words : list cstr) : option (Z + job) :=
  match read_cmd opts cmd_init with
  | inl code => Some (inl code)
  | inr c =>
      if argc <? 3 then Some (inl EX_USAGE)
      else
        match words with
        | [spec; mount_point] =>
            let fs_type := if streq (e_progname e) $"mount.nfs4" then $"nfs4" else $"nfs" in
            match (if e_uid e =? 0 then Some (cl_opts c)
                   else match getfsfile (e_fstab e) mount_point with
                        | None => None
                        | Some mc =>
                            if negb (streq (mnt_fsname mc) spec) || negb (streq (mnt_type mc) fs_type) then None
                            else Some (Some (mnt_opts mc))
                        end) with
            | None => Some (inl EX_USAGE)
            | Some mount_opts =>
                let mount_point := canonicalize e mount_point in
                if negb (ceqb (deref mount_point) "/") then Some (inl EX_USAGE)
                else
                  match conf_get_mntopts db getenv cfuel cf spec mount_point mount_opts cstate_init with
                  | inl _ => None
                  | inr (mount_opts, cs) =>
                      '(flags, extra_opts) ← match mount_opts with None => Some (cl_flags c, []) | Some o => parse_opts o (cl_flags c) end;
                      if negb (e_uid e =? 0) && (Z.land flags (Z.lor MS_USERS MS_USER) =? 0) then Some (inl EX_USAGE)
                      else if negb (e_uid e =? 0) && negb (e_euid e =? 0) then Some (inl EX_FAIL)
                      else if chk_mountpoint e mount_point then Some (inl EX_USAGE)
                      else Some (inr (Job spec mount_point flags fs_type extra_opts mount_opts c cs))
                  end
            end
        | _ => Some (inl EX_USAGE)
        end
  end.
End main.

(** [try_mount] through the text interface of mount(2): the exit code and the table
    of mounts; a fuel exhausted or a bad access is [None]. *)
Definition try_mount (w : world) (e : menv) (ai : add_io) (fuel : nat) (j : job) (bg : bool) (s : mstate) (mtab : cstr)
  : option (Z * mstate * cstr) :=
  let mi := Request (j_spec j) (j_mount_point j) (j_type j) (j_flags j) (cl_fake (j_cmd j)) bg in
  let '(ret, s) := nfsmount_string w mi fuel (extra_opts s) s in
  ret ← ret;
  if negb (ret =? 0) then Some (ret, s, mtab)
  else
    '(code, mtab) ← add_mtab ai (cl_nomtab (j_cmd j)) (e_pw e) (e_fstab e) (j_spec j) (j_mount_point j) (j_type j) (j_flags j)
                      (Some (extra_opts s)) mtab;
    Some (code, s, mtab).

(** The globals that the configuration file set, and [sloppy]. *)
Definition configured (w : world) (cs : cstate) : world :=
  World (w_alloc w) (w_mount w) (w_getport w) (w_ping w) (w_statd w) (w_time w) (w_sleep w) (w_gai w) (w_lookup w) (w_callback w)
    (w_is_mountpoint w) (w_present w) (w_string_to_sockaddr w) (with_family (w_db w) (c_family cs)) (linux_version_code w)
    (nfs_mount_data_version w) (c_proto cs) (c_vers cs).

(** From [mnt_err = try_mount(...)] to the end: the exit code. *)
Definition mount_job (w : world) (e : menv) (ai : add_io) (fuel : nat) (j : job) (s : mstate) (mtab : cstr)
  : option (Z * mstate * cstr) :=
  let w := configured w (j_globals j) in
  let s := (set_sloppy (cl_sloppy (j_cmd j)) (set_extra (j_extra j) s).2).2 in
  '(mnt_err, s, mtab) ← try_mount w e ai fuel j false s mtab;
  if mnt_err =? EX_BG then
    if negb (e_daemon e) then Some (EX_FAIL, s, mtab) else try_mount w e ai fuel j true s mtab
  else Some (mnt_err, s, mtab).

(** ** Who may mount *)

Lemma read_cmd_flags l c c' : read_cmd l c = inr c' -> cl_flags c ∈ [0; MS_RDONLY] -> cl_flags c' ∈ [0; MS_RDONLY].
Proof.
  revert c; induction l as [|o l IH]; intros c E Hc; [by inversion E; subst|]. cbn [read_cmd] in E.
  destruct o; try done; apply IH in E; try done; cbn [cl_flags]; rewrite !elem_of_cons in Hc; destruct Hc as [->|[->|[]%not_elem_of_nil]]; by vm_compute; set_solver.
Qed.

Lemma conf_get_mntopts_text db getenv fuel cf spec mp given s r cs :
  conf_get_mntopts db getenv fuel cf spec mp (Some given) s = inr (r, cs) -> exists o, r = Some o.
Proof.
  unfold conf_get_mntopts. destruct (o_split given); [|intros [= <- _]; eauto].
  destruct (conf_parse_mntopts _ _ _ _ _ _ _) as [|s1]; [done|]. destruct (conf_parse_mntopts _ _ _ _ _ _ s1) as [|s2]; [done|].
  destruct (conf_parse_mntopts _ _ _ _ _ _ s2); [done|]. intros [= <- _]. eauto.
Qed.

Lemma user_flag_of i om n : flag_of i = Some om -> n = 30 \/ n = 31 -> Z.testbit (om_mask om) n = true -> om_inv om = false ->
  i = $"users" \/ i = $"user".
Proof.
  intros E Hn Hb Hi. apply List.find_some in E as [Hin Hs]. btrue. subst i.
  assert (Forall (fun om => om_inv om = false -> Z.testbit (om_mask om) 30 = true \/ Z.testbit (om_mask om) 31 = true ->
                            om_opt om = $"users" \/ om_opt om = $"user") opt_map) as H.
  { unfold opt_map. repeat apply Forall_cons_2; try apply Forall_nil_2; cbn [om_inv om_mask om_opt]; intros _; vm_compute; intros [H|H]; try discriminate H; auto. }
  rewrite Forall_forall in H. apply H; [by apply list_elem_of_In|done|]. destruct Hn as [-> | ->]; auto.
Qed.

Lemma user_item f l n : n = 30 \/ n = 31 -> Z.testbit (foldl apply_flag f l) n = true ->
  Z.testbit f n = true \/ exists i, i ∈ l /\ (i = $"users" \/ i = $"user").
Proof.
  intros Hn. revert f; induction l as [|i l IH]; intros f H; [by left|]. cbn in H. apply IH in H as [H|(j & ? & ?)]; [|right; set_solver].
  unfold apply_flag in H. destruct (flag_of i) as [om|] eqn:E; [|by left]. destruct (om_inv om) eqn:Ei.
  - rewrite Z.ldiff_spec in H. btrue. by left.
  - rewrite Z.lor_spec in H. apply orb_true_iff in H as [H|H]; [by left|]. right. exists i. split; [set_solver|]. by eapply user_flag_of.
Qed.

(** C13. Who is not root mounts only what /etc/fstab lets him: there is an entry of
    the directory he named, with the device and type he named, and the options are
    those of this entry, completed from the configuration file, whatever options he
    gave; one of them is user or users; the command runs as root; and of his own
    command line only read-only or read-write enter the flags of the mount, ahead of
    the options.  (His switches -s, -f, -n and -v are taken as they are: they say
    whether unknown options pass, whether anything is mounted or recorded, and what
    is printed, not what is mounted with which options.) *)
Theorem mount_user_permitted (e : menv) db getenv cfuel cf argc opts words j :
  e_uid e <> 0 -> mount_prepare e db getenv cfuel cf argc opts words = Some (inr j) ->
  (forall o, j_opts j = Some o -> Z.of_nat (length o) + 1 < 2 ^ 64) ->
  exists mc dir options,
    words = [j_spec j; dir] /\ getfsfile (e_fstab e) dir = Some mc /\ mnt_fsname mc = j_spec j /\ mnt_type mc = j_type j /\
    j_mount_point j = canonicalize e dir /\ e_euid e = 0 /\
    conf_get_mntopts db getenv cfuel cf (j_spec j) (j_mount_point j) (Some (mnt_opts mc)) cstate_init = inr (Some options, j_globals j) /\
    (exists i, i ∈ items options /\ (i = $"users" \/ i = $"user")) /\
    exists f0, f0 ∈ [0; MS_RDONLY] /\ j_flags j = foldl apply_flag f0 (items options) /\ j_extra j = foldl add_extra [] (items options).
Proof.
  intros Hu. unfold mount_prepare. destruct (read_cmd opts cmd_init) as [|c] eqn:Ec; [done|]. destruct (argc <? 3); [done|].
  destruct words as [|spec [|dir [|]]]; try done. rewrite (proj2 (Z.eqb_neq _ _) Hu).
  destruct (getfsfile (e_fstab e) dir) as [mc|] eqn:Ef; [|done]. destruct (negb (streq (mnt_fsname mc) spec) || _) eqn:Em; [done|]. btrue.
  destruct (negb (ceqb _ "/")); [done|]. destruct (conf_get_mntopts _ _ _ _ _ _ _ _) as [|[r cs]] eqn:Eo; [done|].
  destruct (conf_get_mntopts_text _ _ _ _ _ _ _ _ _ _ Eo) as [o ->]. cbn [negb andb].
  destruct (parse_opts o (cl_flags c)) as [[flags extra]|] eqn:Ep; [|done]. cbn [mbind option_bind].
  destruct (Z.land flags _ =? 0) eqn:Efl; [done|]. destruct (e_euid e =? 0) eqn:Eeu; [|done]. cbn [negb].
  destruct (chk_mountpoint _ _); [done|]. intros [= <-] Hl. cbn [j_opts j_spec j_mount_point j_flags j_type j_extra j_globals] in *.
  specialize (Hl o eq_refl). unfold parse_opts in Ep. rewrite (parse_opts_loop_run _ _ None) in Ep; [|done|cbn; lia|done].
  change (closed (default [] None) false) with items in Ep. injection Ep as <- <-.
  apply read_cmd_flags in Ec; [|by vm_compute; set_solver].
  exists mc, dir, o. btrue. subst spec. do 6 (split; [done|]). split; [done|]. split; [|by exists (cl_flags c)].
  assert (exists n, (n = 30 \/ n = 31) /\ Z.testbit (foldl apply_flag (cl_flags c) (items o)) n = true) as (n & Hn & Hb).
  { destruct (Z.testbit (foldl apply_flag (cl_flags c) (items o)) 30) eqn:E30; [by eauto|].
    destruct (Z.testbit (foldl apply_flag (cl_flags c) (items o)) 31) eqn:E31; [by eauto|]. exfalso. apply Efl.
    rewrite Z.land_lor_distr_r. unfold MS_USERS, MS_USER. by rewrite !bit_land, E30, E31 by lia. }
  apply user_item in Hb as [Hb|Hb]; [|done|done]. exfalso.
  rewrite !elem_of_cons in Ec. destruct Ec as [Ec|[Ec|[]%not_elem_of_nil]]; rewrite Ec in Hb; destruct Hn as [-> | ->]; done.
Qed.

Definition menv_ex : menv :=
  MEnv 1000 0 (Some $"ann") $"mount.nfs" [Mntent $"srv:/e" $"/mnt" $"nfs" $"user,nosuid,hard" 0 0] Some (fun _ => Some true) (fun _ => true) true.

Definition job_ex : option (Z + job) :=
  mount_prepare menv_ex netdb_none (fun _ => None) 1 mntconf_ex 6 [O_r; O_o $"suid,soft"] [$"srv:/e"; $"/mnt"].

Lemma mount_user_permitted_witness :
  exists j, job_ex = Some (inr j) /\ j_extra j = $"hard,bg,vers=3,rsize=32768,nolock" /\
    exists mc options, mnt_fsname mc = j_spec j /\ exists i, i ∈ items options /\ (i = $"users" \/ i = $"user").
Proof.
  eexists. split; [vm_compute; reflexivity|]. split; [reflexivity|].
  destruct (mount_user_permitted menv_ex netdb_none (fun _ => None) 1 mntconf_ex 6 [O_r; O_o $"suid,soft"] [$"srv:/e"; $"/mnt"]
              (match job_ex with Some (inr j) => j | _ => Job [] [] 0 [] [] None cmd_init cstate_init end))
    as (mc & dir & options & _ & _ & E & _ & _ & _ & _ & Hi & _).
  - discriminate.
  - vm_compute. reflexivity.
  - intros o Ho. vm_compute in Ho. injection Ho as <-. reflexivity.
  - exists mc, options. split; [exact E|exact Hi].
Defined.
