(* ===== verification/Umount.v ===== *)
(** * The unmount command (utils/mount/nfsumount.c, nfs_umount23 of utils.c)

    umount.nfs looks an entry up in /etc/mtab, checks that the user may unmount it,
    tells the server of a version 3 mount, unmounts and takes the entry from
    /etc/mtab.  The system calls are answered by the environment and kept in a log.
    Entries and the update of the table are those of [Mntent]; the entry of a mount
    by a user is written by [MountMain], and [umount_own_mount] is about both. *)

From S2P Require Import Prelude Heap Token ParseOpt ParseDev ConfDb Client MntOpts Probe Stropts MntConf Mntent MountMain.

Definition MNT_FORCE : Z := 1.
Definition MNT_DETACH : Z := 2.
Definition ENOSYS : Z := 38.

(** [hasmntopt(3)]: the options from the first item that is [opt], alone or with a
    value. *)
Definition item_is (opt s : cstr) : bool :=
  starts_with opt s && (let c := deref (drop (length opt) s) in ceqb c NUL || ceqb c "=" || ceqb c ",").
Fixpoint hasmntopt_from (start : bool) (s opt : cstr) : option cstr :=
  match s with
  | [] => None
  | c :: s' => if start && item_is opt s then Some s else hasmntopt_from (ceqb c ",") s' opt
  end.
Definition hasmntopt (opts opt : cstr) : option cstr := hasmntopt_from true opts opt.

(** Who is not root may unmount: the options have users, or user= and his name. *)
Definition permitted (pw : option cstr) (opts : cstr) : bool :=
  match hasmntopt opts $"users" with
  | Some _ => true
  | None =>
      match hasmntopt opts $"user" with
      | None => false
      | Some opt =>
          if negb (ceqb (at_index opt 4) "=") then false
          else
            let len := match strchr "," opt with Some (a, _) => (length a - 5)%nat | None => (length opt - 5)%nat end in
            match pw with
            | None => false
            | Some name => (length name =? len)%nat && streq name (take len (drop 5 opt))
            end
      end
  end.

(** [while (fsname[nlen - 1] == '/') nlen--;]: [None] reads before the string. *)
Fixpoint strip_slashes (fsname : cstr) (nlen : nat) : option nat :=
  match nlen with
  | O => None
  | S n => if ceqb (at_index fsname n) "/" then strip_slashes fsname n else Some nlen
  end.

(** The entries of /proc/mounts for the directory, last first; [garbage] is what the
    uninitialized [version] holds. *)
Fixpoint is_vers4_loop (garbage : nfs_version) (fsname : cstr) (l : list mntent) : option Z :=
  match l with
  | [] => Some (-1)
  | pmc :: l =>
      nlen ← strip_slashes (mnt_fsname pmc) (length (mnt_fsname pmc));
      if negb (streq (take nlen (mnt_fsname pmc)) (take nlen fsname)) then is_vers4_loop garbage fsname l
      else if streq (mnt_type pmc) $"nfs4" then Some 1
      else if match o_split (mnt_opts pmc) with
              | Some options => let '(rc, version) := nfs_nfs_version $"nfs" options garbage in rc && (major version =? 4)
              | None => false
              end then Some 1
      else if streq (mnt_type pmc) $"nfs" then Some 0
      else is_vers4_loop garbage fsname l
  end.
Definition nfs_umount_is_vers4 (garbage : nfs_version) (procmounts : list mntent) (mc : mntent) : option Z :=
  is_vers4_loop garbage (mnt_fsname mc) (filter (fun m => mnt_dir m = mnt_dir mc) (reverse procmounts)).

(** What the command asked the kernel and the server for. *)
Inductive call := K_umount (node : cstr) | K_umount2 (node : cstr) (flag : Z) | K_remount (spec node : cstr) | K_UMNT (host dir : cstr).

(** The answers: an errno is a failure. *)
Record kernel := Kernel { k_umount : option Z; k_umount2 : Z -> option Z; k_remount : option Z }.

(** [u_mtab_open], [u_mtab_error]: whether /etc/mtab can be opened, and whether reading
    it ends with an error, when the command looks for its entry; [u_procmounts]: the
    entries that can be read from /proc/mounts. *)
Record uenv := UEnv
  { u_uid : Z; u_pw : option cstr; u_mtab_open : bool; u_mtab_error : bool; u_procmounts : list mntent; u_kernel : kernel; u_io : mtab_io; u_garbage : nfs_version;
    u_db : netdb; u_lookup : cstr -> family -> option sockaddr; u_advise : sockaddr -> pmap -> cstr -> bool }.

Record ucmd := UCmd { uc_force : bool; uc_lazy : bool; uc_remount : bool; uc_nomtab : bool }.

Section umount.
  Context (e : uenv) (c : ucmd).

(** The result of the remount, the table, and whether the command goes on. *)
Definition try_remount (spec node mtab : cstr) : option (option Z * cstr * bool) :=
  match k_remount (u_kernel e) with
  | None =>
      if uc_nomtab c then Some (None, mtab, true)
      else
        '(file, go) ← update_mtab (u_io e) mtab node (Some (CE (Mntent [] node [] $"ro" 0 0) true));
        Some (None, file, go)
  | Some errno => Some (Some errno, mtab, true)
  end.

(** From [writemtab] on: [failed] is [res < 0]. *)
Definition write_mtab (node mtab : cstr) (failed : bool) (umnt_err : Z) : option (Z * cstr) :=
  '(mtab, go) ← (if negb (uc_nomtab c) && ((umnt_err =? 0) || (umnt_err =? EINVAL) || (umnt_err =? ENOENT))
                 then update_mtab (u_io e) mtab node None else Some (mtab, true));
  Some (if failed || negb go then EX_FILEIO else EX_SUCCESS, mtab).

Definition del_mtab (spec : option cstr) (node mtab : cstr) : option (Z * cstr * list call) :=
  let k := u_kernel e in
  if uc_lazy c then
    let err := k_umount2 k MNT_DETACH in
    '(code, mtab) ← write_mtab node mtab (match err with Some _ => true | None => false end) (default 0 err);
    Some (code, mtab, [K_umount2 node MNT_DETACH])
  else
    let '(err, log) :=
      if uc_force c then
        match k_umount2 k MNT_FORCE with
        | Some errno => if errno =? ENOSYS then (k_umount k, [K_umount2 node MNT_FORCE; K_umount node])
                        else (Some errno, [K_umount2 node MNT_FORCE])
        | None => (None, [K_umount2 node MNT_FORCE])
        end
      else (k_umount k, [K_umount node]) in
    match err with
    | None => '(code, mtab) ← write_mtab node mtab false 0; Some (code, mtab, log)
    | Some errno =>
        match (if uc_remount c && (errno =? EBUSY) then spec else None) with
        | Some spec =>
            '(res, mtab, go) ← try_remount spec node mtab;
            match res with
            | None => Some (if go : bool then EX_SUCCESS else EX_FILEIO, mtab, log ++ [K_remount spec node])
            | Some _ => '(code, mtab) ← write_mtab node mtab true 0; Some (code, mtab, log ++ [K_remount spec node])
            end
        | None => '(code, mtab) ← write_mtab node mtab true errno; Some (code, mtab, log)
        end
    end.

(** network.c *)
Definition nfs_umount_do_umnt (options : opts) (hostname dirname : cstr) : Z * list call :=
  match nfs_options2pmap (u_db e) options with
  | None => (EX_FAIL, [])
  | Some (nfs_pmap, mnt_pmap) =>
      if pm_vers nfs_pmap =? 4 then (EX_SUCCESS, [])
      else
        let hostname := nfs_umount_hostname options hostname in
        match nfs_mount_proto_family (u_db e) options with
        | None => (0, [])
        | Some family =>
            match u_lookup e hostname family with
            | None => (EX_FAIL, [])
            | Some sap => (if u_advise e sap mnt_pmap dirname then EX_SUCCESS else EX_FAIL, [K_UMNT hostname dirname])
            end
        end
  end.

(** utils.c; memory is not short. *)
Definition nfs_umount23 (devname string : cstr) : Z * list call :=
  match nfs_parse_devname 3 (Some devname) true true with
  | Pdn None (Points hostname) (Points dirname) =>
      match o_split string with
      | Some options => nfs_umount_do_umnt options hostname dirname
      | None => (EX_FAIL, [])
      end
  | _ => (EX_USAGE, [])
  end.

(** fstab.c: the table that [mtab_head] gives.  /proc/mounts is read when /etc/mtab
    cannot be opened, and a read error leaves the table empty. *)
Definition read_mounttable (mtab : cstr) : list mntent :=
  if u_mtab_open e then if u_mtab_error e then [] else read_entries mtab else u_procmounts e.

(** [nfsumount] behind its options: the exit code, the table and the calls.  [None]
    is a bad access. *)
Definition nfsumount (spec mtab : cstr) : option (Z * cstr * list call) :=
  if negb (ceqb (deref spec) "/") && match strchr ":" spec with None => true | Some _ => false end
  then Some (EX_USAGE, mtab, [])
  else
    let entries := read_mounttable mtab in
    let mc := if ceqb (deref spec) "/" then getmntdirbackward entries spec else getmntdevbackward entries spec in
    if match mc with Some m => negb (streq (mnt_type m) $"nfs") && negb (streq (mnt_type m) $"nfs4") | None => false end
    then Some (EX_USAGE, mtab, [])
    else
      let go :=
        match mc with
        | Some m =>
            '(log, fail) ← (if uc_lazy c then Some ([], false)
                            else v ← nfs_umount_is_vers4 (u_garbage e) (u_procmounts e) m;
                                 Some (if v =? 0 then ((nfs_umount23 (mnt_fsname m) (mnt_opts m)).2, false)
                                       else if v =? 1 then ([], false) else ([], true)));
            if fail : bool then Some (EX_FAIL, mtab, log)
            else '(code, mtab, log') ← del_mtab (Some (mnt_fsname m)) (mnt_dir m) mtab; Some (code, mtab, log ++ log')
        | None =>
            if negb (ceqb (deref spec) "/") then
              if uc_lazy c then Some (EX_SUCCESS, mtab, [])
              else let '(code, log) := nfs_umount23 spec $"tcp,v3" in Some (code, mtab, log)
            else del_mtab None spec mtab
        end in
      if negb (u_uid e =? 0) then
        match mc with
        | None => Some (EX_SUCCESS, mtab, [])
        | Some m => if permitted (u_pw e) (mnt_opts m) then go else Some (EX_USAGE, mtab, [])
        end
      else go.

End umount.

(** ** Looking for an option *)

(** An item that is the option, alone or with a value. *)
Definition names (opt item : cstr) : Prop := item = opt \/ exists v, item = opt ++ "="%char :: v.
#[export] Instance names_dec opt item : Decision (names opt item).
Proof.
  destruct (decide (item = opt)); [by left; left|].
  destruct (decide (take (length opt + 1) item = opt ++ ["="%char])) as [E|E].
  - left. right. exists (drop (length opt + 1) item). rewrite <- (take_drop (length opt + 1) item) at 1. rewrite E, <- app_assoc. done.
  - right. intros [?|[v ->]]; [done|]. apply E. rewrite take_app_ge by lia. f_equal. by replace (length opt + 1 - length opt)%nat with 1%nat by lia.
Defined.

Lemma item_is_names opt a r : ","%char ∉ a -> ","%char ∉ opt -> no_nul a -> r = [] \/ deref r = ","%char ->
  item_is opt (a ++ r) = true <-> names opt a.
Proof.
  intros Ha Ho Hn Hr. unfold item_is. rewrite andb_true_iff, starts_with_spec. split.
  - intros [[t Et] Hc]. assert (drop (length opt) (a ++ r) = t) as Ed by (by rewrite Et, drop_app_length). rewrite Ed in Hc.
    destruct (decide (length opt <= length a)%nat) as [Hl|Hl].
    + assert (exists a', a = opt ++ a') as [a' ->].
      { exists (drop (length opt) a). rewrite <- (take_drop (length opt) a) at 1. f_equal.
        apply (f_equal (take (length opt))) in Et. rewrite take_app_le, take_app_length in Et by done. done. }
      rewrite <- app_assoc in Et. apply app_inv_head in Et. subst t. destruct a' as [|x a']; [by left; rewrite app_nil_r|].
      cbn in Hc. rewrite !orb_true_iff, !ceqb_true in Hc. apply Forall_app in Hn as [_ [Hx _]%Forall_cons].
      destruct Hc as [[Hc|Hc]|Hc]; [done| |subst; set_solver]. subst x. right. by exists a'.
    + exfalso. destruct Hr as [->|Hr]; [apply (f_equal length) in Et; rewrite !length_app in Et; cbn in Et; lia|].
      destruct r as [|x r]; [done|]. cbn in Hr. subst x. apply (f_equal (fun l => l !! length a)) in Et.
      rewrite lookup_app_r, Nat.sub_diag in Et by lia. cbn in Et. rewrite lookup_app_l in Et by lia. symmetry in Et.
      apply list_elem_of_lookup_2 in Et. done.
  - intros [->|[v ->]].
    + split; [by exists r|]. rewrite drop_app_length. destruct Hr as [->|Hr]; [done|]. cbn. rewrite Hr. done.
    + split; [exists ("="%char :: v ++ r); by rewrite <- app_assoc|]. rewrite <- app_assoc, drop_app_length. done.
Qed.

Lemma has_inside a b opt : ","%char ∉ a -> hasmntopt_from false (a ++ ","%char :: b) opt = hasmntopt b opt /\ hasmntopt_from false a opt = None.
Proof.
  induction a as [|c a IH]; intros Ha; [done|]. cbn [app hasmntopt_from andb].
  assert (ceqb c "," = false) as -> by (apply ceqb_false; set_solver). apply IH. set_solver.
Qed.

Lemma has_app a b opt : ","%char ∉ a -> ","%char ∉ opt -> opt <> [] -> no_nul a ->
  hasmntopt (a ++ ","%char :: b) opt = (if decide (names opt a) then Some (a ++ ","%char :: b) else hasmntopt b opt) /\
  hasmntopt a opt = (if decide (names opt a) then Some a else None).
Proof.
  intros Ha Ho Hne Hn. unfold hasmntopt at 1 3.
  pose proof (item_is_names opt a (","%char :: b) Ha Ho Hn ltac:(by right)) as H1.
  pose proof (item_is_names opt a [] Ha Ho Hn ltac:(by left)) as H2. rewrite app_nil_r in H2.
  destruct a as [|c a].
  - assert (~ names opt []) as Hx by (intros [?|[v ?]]; [done|by destruct opt]). rewrite !decide_False by done.
    split; [|done]. cbn [app hasmntopt_from]. destruct (item_is opt (","%char :: b)) eqn:E; [|done]. exfalso. by apply Hx, H1.
  - cbn [app hasmntopt_from andb] in *. assert (ceqb c "," = false) as Ec by (apply ceqb_false; set_solver).
    destruct (has_inside a b opt ltac:(set_solver)) as [I1 I2].
    destruct (decide (names opt (c :: a))) as [Hx|Hx].
    + rewrite (proj2 H1 Hx), (proj2 H2 Hx). done.
    + destruct (item_is opt (c :: a ++ ","%char :: b)); [exfalso; by apply Hx, H1|].
      destruct (item_is opt (c :: a)); [exfalso; by apply Hx, H2|]. by rewrite Ec.
Qed.

(** None of a list of plain items is the option. *)
Lemma has_none a l tail opt : ","%char ∉ opt -> opt <> [] ->
  Forall (fun x => ","%char ∉ x /\ no_nul x /\ ~ names opt x) (a :: l) ->
  match tail with Some t => hasmntopt t opt = None | None => True end ->
  hasmntopt (a ++ comma_list l ++ match tail with Some t => ","%char :: t | None => [] end) opt = None.
Proof.
  intros Ho Hne Hl Ht. revert a Hl; induction l as [|b l IH]; intros a Hl; apply Forall_cons in Hl as [(A1 & A2 & A3) Hl].
  - unfold comma_list. cbn [fmap list_fmap concat app]. destruct tail as [t|].
    + rewrite (proj1 (has_app a t opt A1 Ho Hne A2)). by rewrite decide_False.
    + rewrite app_nil_r, (proj2 (has_app a [] opt A1 Ho Hne A2)). by rewrite decide_False.
  - unfold comma_list. cbn [fmap list_fmap concat app]. fold (comma_list l). rewrite <- app_assoc.
    rewrite (proj1 (has_app a _ opt A1 Ho Hne A2)), decide_False by done. apply (IH b Hl).
Qed.

(** The name of a user in the options. *)
Lemma permitted_user pw name base R :
  ","%char ∉ base -> no_nul base -> ~ names $"user" base -> ","%char ∉ name -> no_nul name ->
  R = [] \/ deref R = ","%char ->
  hasmntopt (base ++ ","%char :: ($"user=" ++ name) ++ R) $"users" = None ->
  permitted pw (base ++ ","%char :: ($"user=" ++ name) ++ R) = bool_decide (pw = Some name).
Proof.
  intros B1 B2 B3 N1 N2 HR Hu. unfold permitted. rewrite Hu.
  assert (","%char ∉ $"user") as Ho by (refine (bool_decide_unpack _ _); vm_compute; exact I).
  assert (","%char ∉ $"user=" ++ name) as Hun.
  { intros [H|H]%elem_of_app; [|done]. revert H. refine (bool_decide_unpack _ _). vm_compute. exact I. }
  assert (no_nul ($"user=" ++ name)) as Hnn by (apply Forall_app; split; [by repeat constructor|done]).
  rewrite (proj1 (has_app base _ $"user" B1 Ho ltac:(done) B2)), decide_False by done.
  assert (hasmntopt (($"user=" ++ name) ++ R) $"user" = Some (($"user=" ++ name) ++ R)) as ->.
  { assert (names $"user" ($"user=" ++ name)) as Hx by (right; by exists name).
    destruct HR as [->|HR]; [rewrite app_nil_r, (proj2 (has_app _ [] $"user" Hun Ho ltac:(done) Hnn)); by rewrite decide_True|].
    destruct R as [|c R]; [done|]. cbn in HR. subst c. rewrite (proj1 (has_app _ R $"user" Hun Ho ltac:(done) Hnn)). by rewrite decide_True. }
  change (at_index (($"user=" ++ name) ++ R) 4) with "="%char. rewrite ceqb_refl. cbn [negb].
  assert (match strchr "," (($"user=" ++ name) ++ R) with Some (a, _) => (length a - 5)%nat | None => (length (($"user=" ++ name) ++ R) - 5)%nat end = length name) as ->.
  { destruct HR as [->|HR].
    - rewrite app_nil_r, (proj2 (strchr_None _ _) Hun). cbn. lia.
    - destruct R as [|c R]; [done|]. cbn in HR. subst c. rewrite strchr_app by done. cbn. lia. }
  change (drop 5 (($"user=" ++ name) ++ R)) with (name ++ R). rewrite take_app_length.
  destruct pw as [n|]; [|done]. destruct (decide (n = name)) as [->|Hne].
  - rewrite Nat.eqb_refl, streq_refl. by rewrite bool_decide_true.
  - rewrite bool_decide_false by congruence. apply andb_false_iff. right. unfold streq. by rewrite bool_decide_false.
Qed.

(** C37. What a user mounted, he and no other user may unmount: the options that mount
    records for him in /etc/mtab let exactly the user of that name through, as long
    as none of the other options is users. *)
Theorem umount_own_mount (name : cstr) (pw : option cstr) (flags : Z) (extra : cstr) :
  ","%char ∉ name -> no_nul name -> Z.land flags MS_USER <> 0 -> Z.land flags MS_USERS = 0 -> hasmntopt extra $"users" = None ->
  permitted pw (fix_opts_string (Some name) flags (Some extra)) = bool_decide (pw = Some name).
Proof.
  intros N1 N2 Hu Hus He. unfold fix_opts_string. rewrite Hus, (proj2 (Z.eqb_neq _ _) Hu). cbn [Z.eqb]. rewrite fix_fold.
  set (base := if Z.land flags MS_RDONLY =? 0 then _ else _). set (L := om_opt <$> emitted flags opt_map).
  replace (match extra with [] => _ | c :: e => _ end)
    with (base ++ ","%char :: ($"user=" ++ name) ++ comma_list L ++ match tail_of extra with Some e => ","%char :: e | None => [] end).
  2: { change $",user=" with (","%char :: $"user="). destruct extra; cbn [tail_of]; rewrite ?app_nil_r, <- ?app_assoc; done. }
  assert (","%char ∉ base /\ no_nul base /\ ~ names $"user" base /\ ~ names $"users" base) as (B1 & B2 & B3 & B4).
  { subst base. destruct (Z.land flags MS_RDONLY =? 0);
      (split_and!; [refine (bool_decide_unpack _ _); vm_compute; exact I|by repeat constructor|by intros [?|[v ?]]..]). }
  apply permitted_user; try done.
  - unfold comma_list. destruct L; [|by right]. destruct extra; [by left|by right].
  - pose proof (has_none base (($"user=" ++ name) :: L) (tail_of extra) $"users") as H.
    rewrite comma_list_cons in H. cbn [app] in H. rewrite <- app_assoc in H.
    apply H; [refine (bool_decide_unpack _ _); vm_compute; exact I|done| |by destruct extra].
    constructor; [done|]. constructor.
    + split_and!; [|apply Forall_app; split; [by repeat constructor|done]|by intros [?|[v ?]]].
      intros [Hin|Hin]%elem_of_app; [|done]. revert Hin. refine (bool_decide_unpack _ _). vm_compute. exact I.
    + apply Forall_fmap, Forall_forall. intros om Hin. apply emitted_sub in Hin as (Hin & _ & Hs).
      assert (Forall (fun om => om_skip om = true \/ ","%char ∉ om_opt om /\ no_nul (om_opt om) /\ ~ names $"users" (om_opt om)) opt_map) as Ho.
      { unfold opt_map. repeat apply Forall_cons_2; try apply Forall_nil_2; cbn [om_skip om_opt]; refine (bool_decide_unpack _ _); vm_compute; exact I. }
      rewrite Forall_forall in Ho. destruct (Ho om Hin); [congruence|done].
Qed.

Lemma umount_own_mount_witness :
  fix_opts_string (Some $"ann") MS_USER (Some $"hard") = $"rw,user=ann,hard" /\
  permitted (Some $"ann") $"rw,user=ann,hard" = true /\ permitted (Some $"an") $"rw,user=ann,hard" = false.
Proof.
  split; [reflexivity|]. split.
  - apply (umount_own_mount $"ann" (Some $"ann") MS_USER $"hard"); [refine (bool_decide_unpack _ _); vm_compute; exact I|by repeat constructor|done|done|done].
  - apply (umount_own_mount $"ann" (Some $"an") MS_USER $"hard"); [refine (bool_decide_unpack _ _); vm_compute; exact I|by repeat constructor|done|done|done].
Defined.

(** ** What an unmount does *)

Definition on_node (node : cstr) (k : call) : Prop :=
  match k with K_umount n => n = node | K_umount2 n _ => n = node | K_remount _ n => n = node | K_UMNT _ _ => True end.

Lemma umnt_calls e options h d node : Forall (on_node node) (nfs_umount_do_umnt e options h d).2.
Proof. unfold nfs_umount_do_umnt. repeat case_match; simplify_eq; repeat constructor. Qed.

Lemma umount23_calls e devname string node : Forall (on_node node) (nfs_umount23 e devname string).2.
Proof.
  unfold nfs_umount23. destruct (nfs_parse_devname _ _ _ _) as [[] [] []]; try constructor.
  destruct (o_split string); [apply umnt_calls|constructor].
Qed.

Lemma del_mtab_calls e c spec node mtab code mtab' log :
  del_mtab e c spec node mtab = Some (code, mtab', log) -> Forall (on_node node) log.
Proof.
  unfold del_mtab. intros E. destruct (uc_lazy c).
  { destruct (write_mtab _ _ _ _ _ _) as [[]|]; [|done]. cbn in E. simplify_eq. by repeat constructor. }
  destruct (if uc_force c then _ else _) as [err lg] eqn:Ef.
  assert (Forall (on_node node) lg) as Hl by (repeat case_match; simplify_eq; by repeat constructor).
  destruct err as [errno|]; [|destruct (write_mtab _ _ _ _ _ _) as [[]|]; [|done]; cbn in E; by simplify_eq].
  destruct (if uc_remount c && (errno =? EBUSY) then spec else None) as [sp|]; [|destruct (write_mtab _ _ _ _ _ _) as [[]|]; [|done]; cbn in E; by simplify_eq].
  destruct (try_remount _ _ _ _ _) as [[[res m2] go]|]; [|done]. cbn in E. destruct res as [r|].
  - destruct (write_mtab _ _ _ _ _ _) as [[]|]; [|done]. cbn in E. simplify_eq. apply Forall_app. by repeat constructor.
  - simplify_eq. apply Forall_app. by repeat constructor.
Qed.

Definition entry_of (e : uenv) (spec mtab : cstr) : option mntent :=
  if ceqb (deref spec) "/" then getmntdirbackward (read_mounttable e mtab) spec else getmntdevbackward (read_mounttable e mtab) spec.

(** C14. Who is not root unmounts only what is his: unless the last entry of the
    table of mounts (/etc/mtab or, when that cannot be opened, /proc/mounts) for the
    name he gave is an NFS mount whose options let him, nothing is asked of
    the kernel or the server and the table stays as it is; and when they do, only
    the directory of that entry is unmounted. *)
Theorem umount_permitted (e : uenv) (c : ucmd) (spec mtab : cstr) (code : Z) (mtab' : cstr) (log : list call) :
  u_uid e <> 0 -> nfsumount e c spec mtab = Some (code, mtab', log) ->
  (mtab' = mtab /\ log = []) \/
  exists m, entry_of e spec mtab = Some m /\ (mnt_type m = $"nfs" \/ mnt_type m = $"nfs4") /\ permitted (u_pw e) (mnt_opts m) = true /\
            Forall (on_node (mnt_dir m)) log.
Proof.
  intros Hu. unfold nfsumount. destruct (_ && _); [intros [= <- <- <-]; by left|].
  fold (entry_of e spec mtab). destruct (entry_of e spec mtab) as [m|] eqn:Em.
  2: { rewrite (proj2 (Z.eqb_neq _ _) Hu). intros [= <- <- <-]. by left. }
  destruct (negb (streq (mnt_type m) $"nfs") && _) eqn:Et; [intros [= <- <- <-]; by left|].
  rewrite (proj2 (Z.eqb_neq _ _) Hu). cbn [negb]. destruct (permitted (u_pw e) (mnt_opts m)) eqn:Ep; [|intros [= <- <- <-]; by left].
  intros E. right. exists m. split; [done|]. split.
  { apply andb_false_iff in Et as [Et|Et]; btrue; auto. }
  split; [done|]. destruct (uc_lazy c).
  - cbn [mbind option_bind] in E. destruct (del_mtab _ _ _ _ _) as [[[c1 m1] l1]|] eqn:Ed; [|done]. cbn in E. simplify_eq.
    by eapply del_mtab_calls.
  - destruct (nfs_umount_is_vers4 _ _ _) as [v|]; [|done]. cbn [mbind option_bind] in E.
    assert (Forall (on_node (mnt_dir m)) (nfs_umount23 e (mnt_fsname m) (mnt_opts m)).2) as H23 by apply umount23_calls.
    destruct (del_mtab _ _ _ _ _) as [[[c1 m1] l1]|] eqn:Ed.
    + pose proof (del_mtab_calls _ _ _ _ _ _ _ _ Ed) as Hd. destruct (v =? 0); [|destruct (v =? 1)]; cbn in E; simplify_eq; try done; try by constructor.
      apply Forall_app. done.
    + destruct (v =? 0); [|destruct (v =? 1)]; cbn in E; simplify_eq; try done.
Qed.

Definition uenv_ex (uid : Z) (pw : option cstr) (k : kernel) : uenv :=
  UEnv uid pw true false [Mntent $"srv:/e" $"/mnt" $"nfs4" $"rw,vers=4.2" 0 0] k io_ex (NV 0 0 V_DEFAULT) netdb_none (fun _ _ => None) (fun _ _ _ => true).
Definition mtab_ex : cstr := mntent_line (Mntent $"srv:/e" $"/mnt" $"nfs4" $"rw,user=ann,hard" 0 0).
Definition ucmd_ex : ucmd := UCmd false false false false.
Definition idle : kernel := Kernel None (fun _ => None) None.

Lemma umount_permitted_witness :
  nfsumount (uenv_ex 1000 (Some $"ann") idle) ucmd_ex $"/mnt" mtab_ex = Some (EX_SUCCESS, [], [K_umount $"/mnt"]) /\
  exists m, entry_of (uenv_ex 1000 (Some $"ann") idle) $"/mnt" mtab_ex = Some m /\ permitted (Some $"ann") (mnt_opts m) = true.
Proof.
  split; [vm_compute; reflexivity|].
  destruct (umount_permitted (uenv_ex 1000 (Some $"ann") idle) ucmd_ex $"/mnt" mtab_ex EX_SUCCESS [] [K_umount $"/mnt"]) as [[? ?]|(m & E & _ & P & _)];
    [discriminate|vm_compute; reflexivity|discriminate|]. exists m. split; [exact E|exact P].
Defined.

(** An unmount that succeeds takes exactly the last entry of its directory from
    /etc/mtab and reports success, for root and for a user who may. *)
Theorem umount_removes (e : uenv) (c : ucmd) (spec mtab : cstr) (m : mntent) (v : Z) :
  entry_of e spec mtab = Some m -> deref spec = "/"%char -> mnt_type m = $"nfs" \/ mnt_type m = $"nfs4" ->
  u_uid e = 0 \/ permitted (u_pw e) (mnt_opts m) = true ->
  nfs_umount_is_vers4 (u_garbage e) (u_procmounts e) m = Some v -> v = 0 \/ v = 1 ->
  uc_lazy c = false -> uc_force c = false -> uc_nomtab c = false -> k_umount (u_kernel e) = None ->
  io_good (u_io e) -> Forall entry_ok (read_entries mtab) ->
  exists mtab' log, nfsumount e c spec mtab = Some (EX_SUCCESS, mtab', log) /\ K_umount (mnt_dir m) ∈ log /\
    read_entries mtab' = removed (mnt_dir m) (read_entries mtab).
Proof.
  intros Em Hs Ht Hp Ev Hv Hl Hfo Hn Hk Hio Hok. destruct (update_removes (u_io e) mtab (mnt_dir m) Hio Hok) as (file & Eu & Er).
  assert (del_mtab e c (Some (mnt_fsname m)) (mnt_dir m) mtab = Some (EX_SUCCESS, file, [K_umount (mnt_dir m)])) as Ed.
  { unfold del_mtab. rewrite Hl, Hfo, Hk. unfold write_mtab. rewrite Hn. cbn [negb andb orb Z.eqb]. rewrite Eu. done. }
  unfold nfsumount. rewrite Hs, ceqb_refl. cbn [negb andb].
  assert (getmntdirbackward (read_mounttable e mtab) spec = Some m) as -> by (unfold entry_of in Em; by rewrite Hs, ceqb_refl in Em).
  assert (negb (streq (mnt_type m) $"nfs") && negb (streq (mnt_type m) $"nfs4") = false) as ->.
  { destruct Ht as [-> | ->]; by rewrite streq_refl, ?andb_false_r. }
  rewrite Hl, Ev, Ed. destruct Hv as [-> | ->]; cbn [mbind option_bind Z.eqb fst snd Pos.eqb].
  - eexists _, _. split; [destruct Hp as [-> | ->]; [done|by destruct (u_uid e =? 0)]|]. split; [set_solver|done].
  - eexists _, _. split; [destruct Hp as [-> | ->]; [done|by destruct (u_uid e =? 0)]|]. split; [set_solver|done].
Qed.

Lemma umount_removes_witness :
  exists mtab' log, nfsumount (uenv_ex 0 None idle) ucmd_ex $"/mnt" mtab_ex = Some (EX_SUCCESS, mtab', log) /\ read_entries mtab' = [].
Proof.
  assert (read_entries mtab_ex = [Mntent $"srv:/e" $"/mnt" $"nfs4" $"rw,user=ann,hard" 0 0]) as Hr by (vm_compute; reflexivity).
  destruct (umount_removes (uenv_ex 0 None idle) ucmd_ex $"/mnt" mtab_ex (Mntent $"srv:/e" $"/mnt" $"nfs4" $"rw,user=ann,hard" 0 0) 1)
    as (mtab' & log & E & _ & R); try done; try (by right); try (by left); try (by repeat split).
  - rewrite Hr. constructor; [ok_entry|constructor].
  - exists mtab', log. split; [exact E|]. rewrite R, Hr. vm_compute. reflexivity.
Defined.

(** When the mount is busy and cannot be made read-only either, its entry is taken
    from /etc/mtab all the same. *)
Theorem umount_busy_forgets :
  nfsumount (uenv_ex 0 None (Kernel (Some EBUSY) (fun _ => None) (Some EBUSY))) (UCmd false false true false) $"/mnt" mtab_ex
  = Some (EX_FILEIO, [], [K_umount $"/mnt"; K_remount $"srv:/e" $"/mnt"]).
Proof. vm_compute. reflexivity. Qed.

(** A remount as read-only records nothing else of the options than ro: the name of
    the user who may unmount is gone. *)
Theorem umount_remount_options :
  fmap (fun r => read_entries r.1.2) (nfsumount (uenv_ex 1000 (Some $"ann") (Kernel (Some EBUSY) (fun _ => None) None)) (UCmd false false true false) $"/mnt" mtab_ex)
  = Some [Mntent $"srv:/e" $"/mnt" $"nfs4" $"ro" 0 0].
Proof. vm_compute. reflexivity. Qed.
