(* ===== verification/Idmap.v ===== *)
(** * Users and groups by name: libnfsidmap

    NFS version 4 sends the owner of a file as a text, name@domain.  The library
    turns ids into such names and back through a list of methods (libnfsidmap.c).
    Two methods are modelled: the name service with the local domain (nss.c,
    nfsidmap_common.c) and the table of the section Static of the configuration
    (static.c).  The answers of the C library about accounts are a record of
    functions [libc]; loading a method by its name is an argument.

    Theorems: the owner that is sent for an id is read back as that id; what each
    name is read as, and which names become nobody; the static table holds exactly
    the mappings of the file; a principal of a foreign realm gets no ids; the search
    for a buffer that is large enough ends. *)

From S2P Require Import Prelude ConfDb.

Definition ENOENT : Z := 2.
Definition ENOMEM : Z := 12.
Definition EINVAL : Z := 22.
Definition ERANGE : Z := 34.
Definition UINT_MAX : Z := 2 ^ 32 - 1.

Definition IDTYPE_USER : Z := 1.
Definition IDTYPE_GROUP : Z := 2.
Definition NFS4_MAX_DOMAIN_LEN : Z := 512.
Definition IDMAPD_DEFAULT_DOMAIN : cstr := $"localdomain".

(** ** The C library *)

Record passwd := Passwd { pw_name : cstr; pw_uid : Z; pw_gid : Z }.
Record grp := Grp { gr_name : cstr; gr_gid : Z }.

(** What [getpwnam_r] and the like answer: an account, none, or an error. *)
Inductive answer (A : Type) := Found (a : A) | Missing | Failed (errno : Z).
Arguments Found {_} _.
Arguments Missing {_}.
Arguments Failed {_} _.

(** [sysconf(_SC_GETPW_R_SIZE_MAX)] and its fellow as a [size_t]; the calls for
    groups are repeated with larger buffers and see their size; a call that a signal
    interrupts counts with the call that repeats it; other allocations succeed. *)
Record libc := Libc
  { sc_getpw : Z; sc_getgr : Z;
    getpwuid_r : Z -> answer passwd; getpwnam_r : cstr -> answer passwd;
    getgrgid_r : Z -> Z -> answer grp; getgrnam_r : Z -> cstr -> answer grp;
    getgrouplist : cstr -> Z -> Z -> option (list Z) }.

(** An allocation fails when it is larger than the largest object. *)
Definition malloc (size : Z) : bool := size <=? LONG_MAX.

(** What a function with an output argument did: it returned a code and left the
    output alone, stored a value and returned 0, wrote behind the output buffer, or
    does not return. *)
Inductive ret (A : Type) := Ret (err : Z) | Put (a : A) | Overrun | Forever.
Arguments Ret {_} _.
Arguments Put {_} _.
Arguments Overrun {_}.
Arguments Forever {_}.

(** [strrchr(s, c)]: what is before and after the last [c]. *)
Fixpoint strrchr (c : ascii) (s : cstr) : option (cstr * cstr) :=
  match s with
  | [] => None
  | d :: s =>
      match strrchr c s with
      | Some (a, b) => Some (d :: a, b)
      | None => if ceqb d c then Some ([], s) else None
      end
  end.

(** ** nfsidmap_common.c *)

Section common.
  Context (getenv : cstr -> option cstr) (fuel : nat) (cfg : conf).

(** [no_strip] and [reformat_group]; [None]: the lookup does not end. *)
Definition get_nostrip : option (Z * bool) :=
  nostrip ← conf_get_str_with_def getenv fuel cfg $"General" $"No-Strip" $"none";
  let no_strip := if strcaseeq nostrip $"both" then Z.lor IDTYPE_USER IDTYPE_GROUP
                  else if strcaseeq nostrip $"group" then IDTYPE_GROUP
                  else if strcaseeq nostrip $"user" then IDTYPE_USER else 0 in
  if negb (Z.land no_strip IDTYPE_GROUP =? 0) then
    reformatgroup ← conf_get_str_with_def getenv fuel cfg $"General" $"Reformat-Group" $"false";
    Some (no_strip, strcaseeq reformatgroup $"true" || strcaseeq reformatgroup $"on" || strcaseeq reformatgroup $"yes")
  else Some (no_strip, false).

(** [nfs4_get_default_domain] into an empty buffer of [NFS4_MAX_DOMAIN_LEN] bytes. *)
Definition domain_in_buf (d : cstr) : cstr :=
  if NFS4_MAX_DOMAIN_LEN <? Z.of_nat (length d) + 1 then [] else d.

Definition get_local_realms (default_domain : cstr) : option (list cstr) :=
  realms ← conf_get_list getenv fuel cfg $"General" $"Local-Realms";
  Some (match realms with
        | Some l => l
        | None => [toupper <$> domain_in_buf default_domain]
        end).
End common.

(** What the methods read from the configuration and keep. *)
Record idconf := IdConf { ic_nostrip : Z; ic_reformat : bool; ic_domain : cstr; ic_realms : list cstr }.

Definition idconf_of (getenv : cstr -> option cstr) (fuel : nat) (cfg : conf) (default_domain : cstr) : option idconf :=
  '(no_strip, reformat_group) ← get_nostrip getenv fuel cfg;
  realms ← get_local_realms getenv fuel cfg default_domain;
  Some (IdConf no_strip reformat_group (domain_in_buf default_domain) realms).

(** ** nss.c *)

Section nss.
  Context (lc : libc) (ic : idconf).

Definition nostrip (t : Z) : bool := negb (Z.land (ic_nostrip ic) t =? 0).

Definition write_name (localname domain : cstr) (len : Z) (doappend : bool) : ret cstr :=
  if doappend || match strchr "@" localname with None => true | Some _ => false end then
    if len <? Z.of_nat (length localname) + 1 + Z.of_nat (length domain) + 1 then Ret (- ENOMEM)
    else Put (localname ++ "@"%char :: domain)
  else if len <? Z.of_nat (length localname) + 1 then Ret (- ENOMEM) else Put localname.

Definition nss_uid_to_name (uid : Z) (domain : option cstr) (len : Z) : ret cstr :=
  if negb (malloc (sc_getpw lc)) then Ret (- ENOMEM)
  else
    let domain := default (ic_domain ic) domain in
    match getpwuid_r lc uid with
    | Found pw => write_name (pw_name pw) domain len (negb (nostrip IDTYPE_USER))
    | _ => Ret (- ENOENT)
    end.

(** The loops that double the buffer while a call answers ERANGE.  [err] is what is
    returned when there is no memory, [again] the same from the second turn on. *)
Fixpoint grow {A} (fuel : nat) (ask : Z -> answer A) (err again buflen : Z) : option (Z + A) :=
  match fuel with
  | O => None
  | S fuel =>
      if negb (malloc buflen) then Some (inl err)
      else
        match ask buflen with
        | Found a => Some (inr a)
        | Missing => Some (inl (- ENOENT))
        | Failed e => if e =? ERANGE then grow fuel ask again again (u64 (2 * buflen)) else Some (inl (- e))
        end
  end.

(** Enough turns to double 1 beyond every allocation. *)
Definition GROW_TURNS : nat := 64.

Definition nss_gid_to_name (gid : Z) (domain : option cstr) (len : Z) : ret cstr :=
  let domain := default (ic_domain ic) domain in
  match grow GROW_TURNS (fun buflen => getgrgid_r lc buflen gid) (- ENOMEM) (- ENOMEM) (sc_getgr lc) with
  | None => Forever
  | Some (inl err) => Ret err
  | Some (inr gr) => write_name (gr_name gr) domain len (negb (nostrip IDTYPE_GROUP))
  end.

Definition strip_domain (name : cstr) (domain : option cstr) : option cstr :=
  match strrchr "@" name, domain with
  | None, Some _ => None
  | None, None => Some name
  | Some (l, d), Some domain => if strcaseeq d domain then Some l else None
  | Some (l, _), None => Some l
  end.

Definition nss_getpwnam (name : cstr) (domain : option cstr) (dostrip : bool) : Z + passwd :=
  if UINT_MAX <? sc_getpw lc then inl (- ENOMEM)
  else
    match (if dostrip then strip_domain name domain else Some name) with
    | None => inl (- EINVAL)
    | Some localname =>
        match getpwnam_r lc localname with
        | Found pw => inr pw
        | Missing => inl (- ENOENT)
        | Failed err => inl (- err)
        end
    end.

Definition nss_name_to_uid (name : cstr) : ret Z :=
  let domain := Some (ic_domain ic) in
  let stripped := match nss_getpwnam name domain true with inr pw => Put (pw_uid pw) | inl err => Ret err end in
  if nostrip IDTYPE_USER then
    match nss_getpwnam name domain false with inr pw => Put (pw_uid pw) | inl _ => stripped end
  else stripped.

Definition reformat_name (name : cstr) : option cstr :=
  '(l, domain) ← strchr "@" name;
  '(d, _) ← strchr "." domain;
  Some ((toupper <$> d) ++ BSLASH :: l).

Definition nss_name_to_gid_ (name : cstr) (dostrip : bool) : ret Z :=
  match (if dostrip then match strip_domain name (Some (ic_domain ic)) with Some l => inr l | None => inl (- EINVAL) end
         else if ic_reformat ic then match reformat_name name with Some r => inr r | None => inl (- ENOENT) end
         else inr name) with
  | inl err => Ret err
  | inr name =>
      if UINT_MAX <? sc_getgr lc then Ret (- ENOMEM)
      else
        match grow GROW_TURNS (fun buflen => getgrnam_r lc buflen name) (- ENOMEM) (- ERANGE) (sc_getgr lc) with
        | None => Forever
        | Some (inl err) => Ret err
        | Some (inr gr) => Put (gr_gid gr)
        end
  end.

Definition nss_name_to_gid (name : cstr) : ret Z :=
  if nostrip IDTYPE_GROUP then
    match nss_name_to_gid_ name false with
    | Ret 0 => Ret 0
    | Ret _ => nss_name_to_gid_ name true
    | r => r
    end
  else nss_name_to_gid_ name true.

Definition nss_gss_princ_to_ids (secname princ : cstr) : ret (Z * Z) :=
  if streq secname $"spkm3" then Ret (- ENOENT)
  else if negb (streq secname $"krb5") then Ret (- EINVAL)
  else
    match strchr "@" princ with
    | None => Ret (- EINVAL)
    | Some (_, princ_realm) =>
        if negb (existsb (fun r => streq r princ_realm) (ic_realms ic)) then Ret (- ENOENT)
        else
          match nss_getpwnam princ None true with
          | inl _ => Ret (- ENOENT)
          | inr pw => Put (pw_uid pw, pw_gid pw)
          end
    end.

Definition nss_gss_princ_to_grouplist (secname princ : cstr) (ngroups : Z) : ret (list Z) :=
  if negb (streq secname $"krb5") then Ret (- EINVAL)
  else
    match nss_getpwnam princ None true with
    | inl _ => Ret (- ENOENT)
    | inr pw =>
        match getgrouplist lc (pw_name pw) (pw_gid pw) ngroups with
        | None => Ret (- ERANGE)
        | Some groups => Put groups
        end
    end.
End nss.

(** ** static.c *)

Record id_mapping := Mapping { m_id : Z; m_principal : cstr; m_local : cstr }.

Definition id_hash (id : Z) : nat := Z.to_nat (id mod 256).

Section static.
  Context (lc : libc) (getenv : cstr -> option cstr) (fuel : nat) (cfg : conf).

(** Positive error numbers, as in the source. *)
Definition static_getpwnam (name : cstr) : option (Z + passwd) :=
  localname ← conf_get_str getenv fuel cfg $"Static" name;
  Some (match localname with
        | None => inl ENOENT
        | Some localname =>
            match getpwnam_r lc localname with
            | Found pw => inr pw
            | Missing => inl ENOENT
            | Failed err => inl err
            end
        end).

Definition static_getgrnam (name : cstr) : option (Z + grp) :=
  localgroup ← conf_get_str getenv fuel cfg $"Static" name;
  Some (match localgroup with
        | None => inl ENOENT
        | Some localgroup =>
            match getgrnam_r lc (sc_getgr lc) localgroup with
            | Found gr => inr gr
            | Missing => inl ENOENT
            | Failed err => inl err
            end
        end).

Definition bad_secname (secname : cstr) : bool := negb (streq secname $"krb5") && negb (streq secname $"spkm3").

Definition static_gss_princ_to_ids (secname princ : cstr) : ret (Z * Z) :=
  if bad_secname secname then Ret (- EINVAL)
  else
    match static_getpwnam princ with
    | None => Forever
    | Some (inr pw) => Put (pw_uid pw, pw_gid pw)
    | Some (inl err) => Ret (- err)
    end.

Definition static_gss_princ_to_grouplist (secname princ : cstr) (ngroups : Z) : ret (list Z) :=
  if bad_secname secname then Ret (- EINVAL)
  else
    match static_getpwnam princ with
    | None => Forever
    | Some (inl err) => Ret (- err)
    | Some (inr pw) =>
        match getgrouplist lc (pw_name pw) (pw_gid pw) ngroups with
        | None => Ret (- - ERANGE)
        | Some groups => Put groups
        end
    end.

Definition static_name_to_uid (name : cstr) : ret Z :=
  match static_getpwnam name with
  | None => Forever
  | Some (inr pw) => Put (pw_uid pw)
  | Some (inl err) => Ret (- err)
  end.

Definition static_name_to_gid (name : cstr) : ret Z :=
  match static_getgrnam name with
  | None => Forever
  | Some (inr gr) => Put (gr_gid gr)
  | Some (inl err) => Ret (- err)
  end.

(** [static_uid_to_name] and [static_gid_to_name] on their table; the length of the
    buffer is not looked at. *)
Definition static_id_to_name (table : list (list id_mapping)) (id len : Z) : ret cstr :=
  match List.find (fun m => m_id m =? id) (default [] (table !! id_hash id)) with
  | Some m => if len <? Z.of_nat (length (m_principal m)) + 1 then Overrun else Put (m_principal m)
  | None => Ret (- ENOENT)
  end.

(** The loops of [static_init]: [resolve] is the lookup of an id.  [None]: the lookup
    in the configuration does not end. *)
Fixpoint fill_table (resolve : cstr -> option (option Z)) (l : list cstr) (table : list (list id_mapping))
  : option (Z + list (list id_mapping)) :=
  match l with
  | [] => Some (inr table)
  | field :: l =>
      id ← resolve field;
      match id with
      | None => fill_table resolve l table
      | Some id =>
          localname ← conf_get_str getenv fuel cfg $"Static" field;
          match localname with
          | None => Some (inl (- ENOENT))
          | Some localname =>
              fill_table resolve l (<[id_hash id := Mapping id field localname :: default [] (table !! id_hash id)]> table)
          end
      end
  end.

Definition uid_of (field : cstr) : option (option Z) :=
  r ← static_getpwnam field; Some (match r with inr pw => Some (pw_uid pw) | inl _ => None end).
Definition gid_of (field : cstr) : option (option Z) :=
  r ← static_getgrnam field; Some (match r with inr gr => Some (gr_gid gr) | inl _ => None end).

(** The tables of the users and of the groups. *)
Definition static_init : option (Z + list (list id_mapping) * list (list id_mapping)) :=
  princ_list ← conf_get_tag_list cfg $"Static" None;
  users ← fill_table uid_of princ_list (replicate 256 []);
  match users with
  | inl err => Some (inl err)
  | inr uid_mappings =>
      groups ← fill_table gid_of princ_list (replicate 256 []);
      Some (match groups with inl err => inl err | inr gid_mappings => inr (uid_mappings, gid_mappings) end)
  end.
End static.

(** ** libnfsidmap.c *)

Record trans_func := Trans
  { t_name : cstr;
    princ_to_ids : option (cstr -> cstr -> ret (Z * Z));
    name_to_uid : option (cstr -> ret Z); name_to_gid : option (cstr -> ret Z);
    uid_to_name : option (Z -> option cstr -> Z -> ret cstr); gid_to_name : option (Z -> option cstr -> Z -> ret cstr);
    gss_princ_to_grouplist : option (cstr -> cstr -> Z -> ret (list Z)) }.

Definition nss_trans (lc : libc) (ic : idconf) : trans_func :=
  Trans $"nsswitch" (Some (nss_gss_princ_to_ids lc ic)) (Some (nss_name_to_uid lc ic)) (Some (nss_name_to_gid lc ic))
    (Some (nss_uid_to_name lc ic)) (Some (nss_gid_to_name lc ic)) (Some (nss_gss_princ_to_grouplist lc)).

Definition static_trans (lc : libc) getenv fuel cfg (uid_mappings gid_mappings : list (list id_mapping)) : trans_func :=
  Trans $"static" (Some (static_gss_princ_to_ids lc getenv fuel cfg)) (Some (static_name_to_uid lc getenv fuel cfg))
    (Some (static_name_to_gid lc getenv fuel cfg)) (Some (fun uid _ len => static_id_to_name uid_mappings uid len))
    (Some (fun gid _ len => static_id_to_name gid_mappings gid len)) (Some (static_gss_princ_to_grouplist lc getenv fuel cfg)).

(** What [nfs4_init_name_mapping] sets up. *)
Record idmap := Idmap
  { default_domain : cstr; nfs4_plugins : list trans_func; gss_plugins : option (list trans_func);
    nobody_uid : Z; nobody_gid : Z }.

Definition NOBODY_UNSET : Z := u32 (-1).

Section lib.
  Context (lc : libc) (getenv : cstr -> option cstr) (fuel : nat) (cfg : conf).
  (** [load_translation_plugin], and the domain that the name service gives. *)
  Context (load_translation_plugin : cstr -> option trans_func) (domain_from_dns : option cstr).

Definition load_plugins (methods : list cstr) : option (list trans_func) := mapM load_translation_plugin methods.

(** [None]: a lookup in the configuration does not end.  [ret] is the variable that is
    tested at [out]: -ENOENT at first, 0 once the name service gave the domain. *)
Definition nfs4_init_name_mapping : option (Z + idmap) :=
  domain ← conf_get_str getenv fuel cfg $"General" $"Domain";
  let '(default_domain, ret) := match domain, domain_from_dns with
                                | Some d, _ => (d, - ENOENT)
                                | None, Some d => (d, 0)
                                | None, None => (IDMAPD_DEFAULT_DOMAIN, -1)
                                end in
  _ ← get_local_realms getenv fuel cfg default_domain;
  nfs4_methods ← conf_get_list getenv fuel cfg $"Translation" $"Method";
  match load_plugins (default [$"nsswitch"] nfs4_methods) with
  | None => Some (inl (- ENOENT))
  | Some nfs4 =>
      gss_methods ← conf_get_list getenv fuel cfg $"Translation" $"GSS-Methods";
      match (match gss_methods with
             | Some l => match load_plugins l with Some p => Some (Some p) | None => None end
             | None => Some None
             end) with
      | None =>
          Some (if negb (ret =? 0) then inl (- ENOENT)
                else inr (Idmap default_domain nfs4 None NOBODY_UNSET NOBODY_UNSET))
      | Some gss =>
          nobody_user ← conf_get_str getenv fuel cfg $"Mapping" $"Nobody-User";
          let uid := match nobody_user with
                     | Some n => match getpwnam_r lc n with Found pw => pw_uid pw | _ => NOBODY_UNSET end
                     | None => NOBODY_UNSET
                     end in
          nobody_group ← conf_get_str getenv fuel cfg $"Mapping" $"Nobody-Group";
          let gid := match nobody_group with
                     | Some n => match getgrnam_r lc (sc_getgr lc) n with Found gr => gr_gid gr | _ => NOBODY_UNSET end
                     | None => NOBODY_UNSET
                     end in
          Some (inr (Idmap default_domain nfs4 gss uid gid))
      end
  end.
End lib.

(** [RUN_TRANSLATIONS] after a successful initialisation: the methods in turn until
    one answers otherwise than -ENOENT.  [err] is [ret] so far. *)
Fixpoint run_translations {F A} (func : trans_func -> option F) (run : F -> ret A) (plgns : list trans_func) (err : Z) : ret A :=
  match plgns with
  | [] => Ret err
  | p :: plgns =>
      match func p with
      | None => run_translations func run plgns err
      | Some f =>
          match run f with
          | Ret e => if e =? - ENOENT then run_translations func run plgns e else Ret e
          | r => r
          end
      end
  end.

Definition plugins (m : idmap) (prefer_gss : bool) : list trans_func :=
  if prefer_gss then default (nfs4_plugins m) (gss_plugins m) else nfs4_plugins m.

Definition nfs4_uid_to_name (m : idmap) (uid : Z) (domain : option cstr) (len : Z) : ret cstr :=
  run_translations uid_to_name (fun f => f uid domain len) (plugins m false) 0.
Definition nfs4_gid_to_name (m : idmap) (gid : Z) (domain : option cstr) (len : Z) : ret cstr :=
  run_translations gid_to_name (fun f => f gid domain len) (plugins m false) 0.
Definition nfs4_name_to_uid (m : idmap) (name : cstr) : ret Z :=
  run_translations name_to_uid (fun f => f name) (plugins m false) 0.
Definition nfs4_name_to_gid (m : idmap) (name : cstr) : ret Z :=
  run_translations name_to_gid (fun f => f name) (plugins m false) 0.
Definition nfs4_gss_princ_to_ids (m : idmap) (secname princ : cstr) : ret (Z * Z) :=
  run_translations princ_to_ids (fun f => f secname princ) (plugins m true) 0.
Definition nfs4_gss_princ_to_grouplist (m : idmap) (secname princ : cstr) (ngroups : Z) : ret (list Z) :=
  run_translations gss_princ_to_grouplist (fun f => f secname princ ngroups) (plugins m true) 0.

(** [sprintf(name, "%u", id)]. *)
Definition number (id len : Z) : ret cstr :=
  if len <? Z.of_nat (length (utoa 10 id)) + 1 then Overrun else Put (utoa 10 id).

(** What the callers of [nfs4_uid_to_name] and its fellow do with its answer. *)
Definition or_number (id len : Z) (r : ret cstr) : ret cstr :=
  match r with
  | Ret 0 => Ret 0
  | Ret _ => number id len
  | r => r
  end.

Definition nfs4_uid_to_owner (m : idmap) (uid : Z) (domain : option cstr) (len : Z) : ret cstr :=
  or_number uid len (nfs4_uid_to_name m uid domain len).
Definition nfs4_gid_to_group_owner (m : idmap) (gid : Z) (domain : option cstr) (len : Z) : ret cstr :=
  or_number gid len (nfs4_gid_to_name m gid domain len).

Definition id_as_chars (name : cstr) : option Z :=
  let value := st_value (strtol 10 name) in
  if (value =? 0) && negb (streq name $"0") then None else Some (u32 (i32 value)).

Definition set_id_to_nobody (m : idmap) (is_uid : bool) : ret Z :=
  if is_uid && negb (nobody_uid m =? NOBODY_UNSET) then Put (nobody_uid m)
  else if negb is_uid && negb (nobody_gid m =? NOBODY_UNSET) then Put (nobody_gid m)
  else
    let nobody := $"nobody@" ++ default_domain m in
    match (if is_uid then nfs4_name_to_uid m nobody else nfs4_name_to_gid m nobody) with
    | Ret 0 => Ret 0
    | Ret _ => Put (u32 (-2))
    | r => r
    end.

(** What [nfs4_owner_to_uid] and its fellow do with the answer of the methods. *)
Definition or_nobody (m : idmap) (is_uid : bool) (name : cstr) (r : ret Z) : ret Z :=
  match r with
  | Ret 0 => Ret 0
  | Ret _ => match id_as_chars name with Some id => Put id | None => set_id_to_nobody m is_uid end
  | r => r
  end.

Definition nfs4_owner_to_uid (m : idmap) (name : cstr) : ret Z := or_nobody m true name (nfs4_name_to_uid m name).
Definition nfs4_group_owner_to_gid (m : idmap) (name : cstr) : ret Z := or_nobody m false name (nfs4_name_to_gid m name).

(** ** Names and domains *)

Lemma strrchr_None c s : c ∉ s -> strrchr c s = None.
Proof.
  induction s as [|d s IH]; [done|]. intros [Hd Hs]%not_elem_of_cons. cbn [strrchr]. rewrite IH by done.
  by rewrite (proj2 (ceqb_false d c)) by done.
Qed.

Lemma strrchr_app c a b : c ∉ b -> strrchr c (a ++ c :: b) = Some (a, b).
Proof.
  intros Hb. induction a as [|d a IH]; cbn [app strrchr]; [|by rewrite IH].
  by rewrite strrchr_None, ceqb_refl.
Qed.

Lemma strrchr_Some c s a b : strrchr c s = Some (a, b) -> s = a ++ c :: b /\ c ∉ b.
Proof.
  revert a; induction s as [|d s IH]; intros a; [done|]. cbn [strrchr].
  destruct (strrchr c s) as [[a' b']|] eqn:E.
  - intros [= <- <-]. destruct (IH a' eq_refl) as [-> ?]. done.
  - destruct (ceqb d c) eqn:Ed; [|done]. intros [= <- <-]. apply ceqb_true in Ed as ->. split; [done|].
    clear IH. revert E. induction s as [|e s IH]; [set_solver|]. cbn [strrchr].
    destruct (strrchr c s); [by destruct p|]. destruct (ceqb e c) eqn:Ee; [done|]. apply ceqb_false in Ee. set_solver.
Qed.

Lemma strip_domain_local l d domain :
  "@"%char ∉ d -> strip_domain (l ++ "@"%char :: d) (Some domain) = if strcaseeq d domain then Some l else None.
Proof. intros Hd. unfold strip_domain. by rewrite strrchr_app. Qed.

Lemma strip_domain_Some name domain l :
  strip_domain name (Some domain) = Some l ->
  exists d, name = l ++ "@"%char :: d /\ "@"%char ∉ d /\ strcaseeq d domain = true.
Proof.
  unfold strip_domain. destruct (strrchr "@" name) as [[a b]|] eqn:E; [|done].
  apply strrchr_Some in E as [-> Hb]. destruct (strcaseeq b domain) eqn:Hs; [|done]. intros [= ->]. eauto.
Qed.

Lemma number_no_at n : "@"%char ∉ utoa 10 n.
Proof.
  intros H. pose proof (proj1 (Forall_forall _ _) (utoa_digits 10 n ltac:(lia)) _ H) as Hd. by vm_compute in Hd.
Qed.

Lemma id_as_chars_number id : 0 <= id < 2 ^ 32 -> id_as_chars (utoa 10 id) = Some id.
Proof.
  intros H. pose proof (strtol_utoa id [] ltac:(unfold LONG_MAX; lia) (or_introl eq_refl)) as E.
  rewrite app_nil_r in E. unfold id_as_chars. rewrite E. cbn [st_value].
  destruct (Z.eqb_spec id 0) as [->|]; [done|]. cbn [andb]. f_equal. unfold u32, i32.
  rewrite Zminus_mod_idemp_l. rewrite Z.add_simpl_r. by apply Z.mod_small.
Qed.

Lemma number_put id len : 0 <= id < 2 ^ 32 -> 11 <= len -> number id len = Put (utoa 10 id).
Proof.
  intros Hid Hlen. unfold number, utoa.
  pose proof (utoa_aux_length (S (Z.to_nat (Z.log2 id))) 10 id 10 ltac:(lia) ltac:(simpl; lia) ltac:(lia)) as H.
  by rewrite (proj2 (Z.ltb_ge _ _)) by lia.
Qed.

(** The search for a buffer that is large enough ends: after 63 turns no allocation
    of that size succeeds. *)
Lemma grow_ends {A} (ask : Z -> answer A) err again buflen :
  1 <= buflen -> grow GROW_TURNS ask err again buflen <> None.
Proof.
  unfold GROW_TURNS. change 64%nat with (S 63). assert (2 ^ 63 <= 2 ^ Z.of_nat 63 * 1) as Hn by done. revert Hn.
  intros Hn Hb. assert (2 ^ 63 <= 2 ^ Z.of_nat 63 * buflen) as H by lia. clear Hn. revert H. generalize 63%nat as n.
  intros n. revert err buflen Hb. induction n as [|n IH]; intros err buflen Hb H; cbn [grow]; unfold malloc, LONG_MAX.
  - change (2 ^ Z.of_nat 0) with 1 in H. by rewrite (proj2 (Z.leb_gt _ _)) by lia.
  - destruct (Z.leb_spec buflen (2 ^ 63 - 1)) as [Hle|]; cbn [negb]; [|done]. destruct (ask buflen); [done..|].
    case_if; [|done]. apply IH; unfold u64; rewrite Z.mod_small by lia; [lia|].
    rewrite Nat2Z.inj_succ, Z.pow_succ_r in H by lia. lia.
Qed.

(** ** Ids to owners and back *)

(** The name service gives the user of an id under the name that it gives for the id;
    the domain has no @; names that are looked up whole belong to the user they were
    sent for. *)
Record users_agree (lc : libc) (ic : idconf) : Prop := UsersAgree
  { ua_size : sc_getpw lc <= UINT_MAX;
    ua_domain : "@"%char ∉ ic_domain ic;
    ua_back u pw : getpwuid_r lc u = Found pw -> exists pw', getpwnam_r lc (pw_name pw) = Found pw' /\ pw_uid pw' = u;
    ua_whole : nostrip ic IDTYPE_USER = true ->
      (forall n pw', getpwnam_r lc (utoa 10 n) = Found pw' -> pw_uid pw' = n) /\
      (forall u pw pw', getpwuid_r lc u = Found pw ->
         getpwnam_r lc (pw_name pw ++ "@"%char :: ic_domain ic) = Found pw' -> pw_uid pw' = u) }.

Definition group_of_id (lc : libc) (gid : Z) : option (Z + grp) :=
  grow GROW_TURNS (fun buflen => getgrgid_r lc buflen gid) (- ENOMEM) (- ENOMEM) (sc_getgr lc).
Definition group_of_name (lc : libc) (name : cstr) : option (Z + grp) :=
  grow GROW_TURNS (fun buflen => getgrnam_r lc buflen name) (- ENOMEM) (- ERANGE) (sc_getgr lc).

(** The same for groups, whose domain is always stripped here. *)
Record groups_agree (lc : libc) (ic : idconf) : Prop := GroupsAgree
  { ga_size : 1 <= sc_getgr lc <= UINT_MAX;
    ga_domain : "@"%char ∉ ic_domain ic;
    ga_strip : nostrip ic IDTYPE_GROUP = false;
    ga_errno buflen gid : getgrgid_r lc buflen gid <> Failed 0;
    ga_back g gr : group_of_id lc g = Some (inr gr) -> exists gr', group_of_name lc (gr_name gr) = Some (inr gr') /\ gr_gid gr' = g }.

Lemma nss_getpwnam_found lc name domain strip l pw :
  sc_getpw lc <= UINT_MAX -> (if strip : bool then strip_domain name domain else Some name) = Some l ->
  getpwnam_r lc l = Found pw -> nss_getpwnam lc name domain strip = inr pw.
Proof. intros Hs Hl Hf. unfold nss_getpwnam. rewrite (proj2 (Z.ltb_ge _ _)) by lia. by rewrite Hl, Hf. Qed.

Lemma nss_getpwnam_inr lc name domain strip pw :
  nss_getpwnam lc name domain strip = inr pw ->
  exists l, (if strip : bool then strip_domain name domain else Some name) = Some l /\ getpwnam_r lc l = Found pw.
Proof.
  unfold nss_getpwnam. destruct (UINT_MAX <? sc_getpw lc); [done|].
  destruct (if strip then _ else _) as [l|]; [|done]. destruct (getpwnam_r lc l) eqn:E; [|done..]. intros [= <-]. eauto.
Qed.

Lemma nss_user_back lc ic u len name :
  users_agree lc ic -> nss_uid_to_name lc ic u None len = Put name -> nss_name_to_uid lc ic name = Put u.
Proof.
  intros [Hsz Hd Hb Hw] E. unfold nss_uid_to_name in E. destruct (negb (malloc (sc_getpw lc))); [done|].
  destruct (getpwuid_r lc u) as [pw| |] eqn:Hu; [|done..]. cbn [default] in E.
  destruct (Hb u pw Hu) as (pw' & Hn & Hpu). unfold nss_name_to_uid, write_name in *.
  assert (forall n, n = pw_name pw ++ "@"%char :: ic_domain ic ->
            nss_getpwnam lc n (Some (ic_domain ic)) true = inr pw') as Hstrip.
  { intros n ->. apply (nss_getpwnam_found _ _ _ _ (pw_name pw)); [done| |done]. rewrite strip_domain_local by done. by rewrite strcaseeq_refl. }
  destruct (nostrip ic IDTYPE_USER) eqn:Hns; cbn [negb orb] in E.
  - destruct (Hw eq_refl) as [_ Hfull]. destruct (strchr "@" (pw_name pw)) as [p|] eqn:Hc; case_if_in E; try done; injection E as <-.
    + rewrite (nss_getpwnam_found _ _ _ false (pw_name pw) pw') by done. by rewrite Hpu.
    + rewrite Hstrip by done. destruct (nss_getpwnam lc _ _ false) as [|pw2] eqn:E2; [by rewrite Hpu|].
      apply nss_getpwnam_inr in E2 as (l & [= <-] & Hf). by rewrite (Hfull _ _ _ Hu Hf).
  - case_if_in E; [done|]. injection E as <-. rewrite Hstrip by done. by rewrite Hpu.
Qed.

Lemma nss_uid_to_name_cases lc ic u len :
  (exists name, nss_uid_to_name lc ic u None len = Put name) \/ (exists e, nss_uid_to_name lc ic u None len = Ret e /\ e <> 0).
Proof.
  unfold nss_uid_to_name, write_name. case_if; [by right; eexists|]. destruct (getpwuid_r lc u); [|by right; eexists..].
  repeat case_if; first [by left; eexists|by right; eexists].
Qed.

Lemma nss_number lc ic n :
  users_agree lc ic -> nss_name_to_uid lc ic (utoa 10 n) = Put n \/ nss_name_to_uid lc ic (utoa 10 n) = Ret (- EINVAL).
Proof.
  intros [Hsz Hd Hb Hw]. unfold nss_name_to_uid.
  assert (nss_getpwnam lc (utoa 10 n) (Some (ic_domain ic)) true = inl (- EINVAL)) as ->.
  { unfold nss_getpwnam, strip_domain. rewrite (proj2 (Z.ltb_ge _ _)) by lia. by rewrite strrchr_None by apply number_no_at. }
  destruct (nostrip ic IDTYPE_USER) eqn:Hns; [|by right]. destruct (Hw eq_refl) as [Hnum _].
  destruct (nss_getpwnam lc _ _ false) as [|pw] eqn:E; [by right|].
  apply nss_getpwnam_inr in E as (l & [= <-] & Hf). left. by rewrite (Hnum _ _ Hf).
Qed.

Lemma nss_group_back lc ic g len name :
  groups_agree lc ic -> nss_gid_to_name lc ic g None len = Put name -> nss_name_to_gid lc ic name = Put g.
Proof.
  intros [Hsz Hd Hst Her Hb] E. unfold nss_gid_to_name in E. fold (group_of_id lc g) in E.
  destruct (group_of_id lc g) as [[|gr]|] eqn:Hg; [done| |done]. destruct (Hb g gr Hg) as (gr' & Hn & Hgg).
  rewrite Hst in E. unfold write_name in E. cbn [negb orb default] in E. case_if_in E; [done|]. injection E as <-.
  unfold nss_name_to_gid, nss_name_to_gid_. rewrite Hst, strip_domain_local, strcaseeq_refl by done.
  rewrite (proj2 (Z.ltb_ge _ _)) by lia. fold (group_of_name lc (gr_name gr)). by rewrite Hn, Hgg.
Qed.

Lemma grow_errno {A} fuel (ask : Z -> answer A) err again buflen e :
  (forall b, ask b <> Failed 0) -> err <> 0 -> again <> 0 -> grow fuel ask err again buflen = Some (inl e) -> e <> 0.
Proof.
  intros Ha He Hag. revert err buflen He. induction fuel as [|fuel IH]; intros err buflen He; [done|]. cbn [grow].
  case_if; [by intros [= <-]|]. destruct (ask buflen) as [| |e'] eqn:Eq; [done|by intros [= <-]|].
  case_if; [by apply IH|]. intros [= <-] Hz. apply (Ha buflen). rewrite Eq. f_equal. lia.
Qed.

Lemma nss_gid_to_name_cases lc ic g len :
  groups_agree lc ic ->
  (exists name, nss_gid_to_name lc ic g None len = Put name) \/ (exists e, nss_gid_to_name lc ic g None len = Ret e /\ e <> 0).
Proof.
  intros [Hsz Hd Hst Her Hb]. unfold nss_gid_to_name.
  destruct (grow _ _ _ _ _) as [[e|gr]|] eqn:E.
  - right. exists e. split; [done|]. refine (grow_errno _ _ _ _ _ _ _ _ _ E); [intros b; apply Her|done..].
  - unfold write_name. repeat case_if; first [by left; eexists|by right; eexists].
  - exfalso. revert E. apply grow_ends. lia.
Qed.

Lemma nss_group_number lc ic n : nostrip ic IDTYPE_GROUP = false -> nss_name_to_gid lc ic (utoa 10 n) = Ret (- EINVAL).
Proof.
  intros H. unfold nss_name_to_gid, nss_name_to_gid_, strip_domain. rewrite H. by rewrite strrchr_None by apply number_no_at.
Qed.

(** With one method. *)
Lemma run_one {F A} (func : trans_func -> option F) (run : F -> ret A) p f :
  func p = Some f -> run_translations func run [p] 0 = run f.
Proof. intros E. cbn [run_translations]. rewrite E. destruct (run f); [|done..]. case_if; [|done]. btrue. by subst. Qed.

Lemma or_number_put id len r :
  0 <= id < 2 ^ 32 -> 11 <= len -> (exists name, r = Put name) \/ (exists e, r = Ret e /\ e <> 0) ->
  exists name, or_number id len r = Put name /\ (r = Put name \/ name = utoa 10 id).
Proof.
  intros Hid Hlen [[name ->]|(e & -> & He)]; [by exists name; auto|]. exists (utoa 10 id). split; [|by right].
  cbn [or_number]. destruct e; [done|by apply number_put..].
Qed.

(** C18. An id survives being sent as an owner: for every 32-bit id the name that
    nfs4_uid_to_owner writes into a buffer of at least 11 bytes is read by
    nfs4_owner_to_uid as the same id, and the same holds for groups.  This covers ids
    without an account and names that do not fit, which are sent as numbers.  The
    name service must know an account under the name it gives for its id. *)
Theorem owner_roundtrip lc ic m id len :
  nfs4_plugins m = [nss_trans lc ic] -> users_agree lc ic -> groups_agree lc ic -> 0 <= id < 2 ^ 32 -> 11 <= len ->
  (exists name, nfs4_uid_to_owner m id None len = Put name /\ nfs4_owner_to_uid m name = Put id) /\
  (exists name, nfs4_gid_to_group_owner m id None len = Put name /\ nfs4_group_owner_to_gid m name = Put id).
Proof.
  intros Hm Hu Hg Hid Hlen.
  unfold nfs4_uid_to_owner, nfs4_owner_to_uid, nfs4_gid_to_group_owner, nfs4_group_owner_to_gid,
    nfs4_uid_to_name, nfs4_name_to_uid, nfs4_gid_to_name, nfs4_name_to_gid, plugins. rewrite Hm. split.
  - erewrite run_one by done.
    destruct (or_number_put id len _ Hid Hlen (nss_uid_to_name_cases lc ic id len)) as (name & E & Hn).
    exists name. split; [done|]. erewrite run_one by done. cbn beta. destruct Hn as [Hp| ->].
    + by rewrite (nss_user_back _ _ _ _ _ Hu Hp).
    + destruct (nss_number lc ic id Hu) as [-> | ->]; [done|]. cbn [or_nobody EINVAL Z.opp]. by rewrite id_as_chars_number.
  - erewrite run_one by done.
    destruct (or_number_put id len _ Hid Hlen (nss_gid_to_name_cases lc ic id len Hg)) as (name & E & Hn).
    exists name. split; [done|]. erewrite run_one by done. cbn beta. destruct Hn as [Hp| ->].
    + by rewrite (nss_group_back _ _ _ _ _ Hg Hp).
    + rewrite nss_group_number by apply Hg. cbn [or_nobody EINVAL Z.opp]. by rewrite id_as_chars_number.
Qed.

(** A host with one user and one group. *)
Definition libc_ex : libc :=
  Libc 1024 1024
    (fun u => if u =? 1000 then Found (Passwd $"ann" 1000 50) else Missing)
    (fun n => if streq n $"ann" then Found (Passwd $"ann" 1000 50) else Missing)
    (fun b g => if g =? 50 then (if b <? 2000 then Failed ERANGE else Found (Grp $"staff" 50)) else Missing)
    (fun b n => if streq n $"staff" then (if b <? 2000 then Failed ERANGE else Found (Grp $"staff" 50)) else Missing)
    (fun _ _ n => if n <? 1 then None else Some [50]).
Definition ic_ex : idconf := IdConf 0 false $"example.org" [$"EXAMPLE.ORG"].
Definition idmap_ex : idmap := Idmap $"example.org" [nss_trans libc_ex ic_ex] None NOBODY_UNSET NOBODY_UNSET.

Lemma example_domain_plain : "@"%char ∉ $"example.org".
Proof. apply (bool_decide_unpack _). by vm_compute. Qed.

Lemma libc_ex_users : users_agree libc_ex ic_ex.
Proof.
  split; [done|apply example_domain_plain| |done]. intros u pw. cbn [getpwuid_r libc_ex]. case_if; [|done].
  intros [= <-]. btrue. subst. by eexists.
Qed.

Lemma libc_ex_groups : groups_agree libc_ex ic_ex.
Proof.
  split; [done|apply example_domain_plain|done| |].
  - intros b g. cbn [getgrgid_r libc_ex]. by repeat case_if.
  - intros g gr. destruct (Z.eqb_spec g 50) as [->|Hg].
    + intros H. vm_compute in H. injection H as <-. by eexists.
    + unfold group_of_id, GROW_TURNS. cbn [grow]. cbn [getgrgid_r libc_ex sc_getgr]. by rewrite (proj2 (Z.eqb_neq _ _)) by done.
Qed.

Lemma owner_roundtrip_witness :
  nfs4_uid_to_owner idmap_ex 1000 None 128 = Put $"ann@example.org" /\
  (exists name, nfs4_uid_to_owner idmap_ex (2 ^ 32 - 3) None 128 = Put name /\ nfs4_owner_to_uid idmap_ex name = Put (2 ^ 32 - 3)).
Proof.
  split; [by vm_compute|].
  apply (owner_roundtrip libc_ex ic_ex idmap_ex (2 ^ 32 - 3) 128); [done|apply libc_ex_users|apply libc_ex_groups|done..].
Defined.

(** ** What a name is read as *)












(** A number in front is enough: a user 100 of a foreign domain is taken for the
    local id 100. *)
Theorem owner_number_foreign : nfs4_owner_to_uid idmap_ex $"100@other.org" = Put 100.
Proof. by vm_compute. Qed.

(** ** The static table *)

Lemma id_hash_bound id : (id_hash id < 256)%nat.
Proof. unfold id_hash. pose proof (Z.mod_pos_bound id 256 ltac:(lia)). lia. Qed.

Definition in_bucket (table : list (list id_mapping)) (id : Z) : option id_mapping :=
  List.find (fun m => m_id m =? id) (default [] (table !! id_hash id)).

Lemma in_bucket_insert table id p l id' :
  length table = 256%nat ->
  in_bucket (<[id_hash id := Mapping id p l :: default [] (table !! id_hash id)]> table) id' =
  if id =? id' then Some (Mapping id p l) else in_bucket table id'.
Proof.
  intros Hlen. unfold in_bucket. destruct (decide (id_hash id = id_hash id')) as [E|E].
  - rewrite <- E, list_lookup_insert_eq by (rewrite Hlen; apply id_hash_bound). cbn.
    by destruct (id =? id').
  - rewrite list_lookup_insert_ne by done. destruct (Z.eqb_spec id id') as [->|]; [done|]. done.
Qed.

(** The mapping found for an id is that of the last tag which resolves to it. *)
Lemma fill_table_spec getenv fuel cfg resolve l table table' id :
  fill_table getenv fuel cfg resolve l table = Some (inr table') -> length table = 256%nat ->
  m_principal <$> in_bucket table' id =
  match last (filter (fun p => resolve p = Some (Some id)) l) with
  | Some p => Some p
  | None => m_principal <$> in_bucket table id
  end.
Proof.
  revert table. induction l as [|p l IH]; intros table; cbn [fill_table]; [by intros [= ->]|].
  destruct (resolve p) as [[id'|]|] eqn:Hp; cbn [mbind option_bind]; [| |done].
  - destruct (conf_get_str _ _ _ _ _) as [[local|]|]; cbn [mbind option_bind]; [|done..]. intros E Hlen.
    rewrite (IH _ E) by by rewrite length_insert. rewrite in_bucket_insert, filter_cons by done.
    destruct (Z.eqb_spec id' id) as [->|Hne].
    + rewrite decide_True by done. rewrite last_cons. by destruct (last _).
    + rewrite decide_False by congruence. done.
  - intros E Hlen. rewrite (IH _ E Hlen), filter_cons, decide_False by congruence. done.
Qed.

Lemma in_bucket_empty id : in_bucket (replicate 256 []) id = None.
Proof. unfold in_bucket. by rewrite lookup_replicate_2 by apply id_hash_bound. Qed.

Lemma static_id_to_name_bucket table id len :
  static_id_to_name table id len =
  match m_principal <$> in_bucket table id with
  | Some p => if len <? Z.of_nat (length p) + 1 then Overrun else Put p
  | None => Ret (- ENOENT)
  end.
Proof. unfold static_id_to_name. fold (in_bucket table id). by destruct (in_bucket table id). Qed.

Lemma last_filter {A} (P : A -> Prop) `{forall x, Decision (P x)} (l : list A) x :
  last (filter P l) = Some x -> P x /\ x ∈ l.
Proof. intros E. apply last_Some in E as [l' E]. assert (x ∈ filter P l) as [? ?]%list_elem_of_filter by (rewrite E; set_solver). done. Qed.

Lemma last_filter_None {A} (P : A -> Prop) `{forall x, Decision (P x)} (l : list A) x :
  last (filter P l) = None -> x ∈ l -> ~ P x.
Proof. intros E%last_None Hx HP. assert (x ∈ filter P l) by (apply list_elem_of_filter; done). rewrite E in *. set_solver. Qed.

Lemma uid_of_name lc getenv fuel cfg p id :
  uid_of lc getenv fuel cfg p = Some (Some id) <-> static_name_to_uid lc getenv fuel cfg p = Put id.
Proof.
  unfold uid_of, static_name_to_uid. destruct (static_getpwnam _ _ _ _ _) as [[|pw]|]; cbn; split; try done; by intros [= <-].
Qed.

Lemma gid_of_name lc getenv fuel cfg p id :
  gid_of lc getenv fuel cfg p = Some (Some id) <-> static_name_to_gid lc getenv fuel cfg p = Put id.
Proof.
  unfold gid_of, static_name_to_gid. destruct (static_getgrnam _ _ _ _ _) as [[|gr]|]; cbn; split; try done; by intros [= <-].
Qed.

(** A table that agrees with the section Static: a name that is found for an id is a
    tag which is read as that id, and an id that some tag is read as has a name. *)
Definition table_ok (tags : list cstr) (back : cstr -> ret Z) (table : list (list id_mapping)) : Prop :=
  forall id len, (forall p, p ∈ tags -> Z.of_nat (length p) < len) ->
    (forall p, static_id_to_name table id len = Put p -> p ∈ tags /\ back p = Put id) /\
    (forall p, p ∈ tags -> back p = Put id -> exists q, static_id_to_name table id len = Put q).

Lemma fill_table_ok getenv fuel cfg resolve back tags table :
  (forall p id, resolve p = Some (Some id) <-> back p = Put id) ->
  fill_table getenv fuel cfg resolve tags (replicate 256 []) = Some (inr table) -> table_ok tags back table.
Proof.
  intros Hb E id len Hlen. rewrite static_id_to_name_bucket, (fill_table_spec _ _ _ _ _ _ _ id E), in_bucket_empty by by rewrite length_replicate.
  destruct (last _) as [q|] eqn:El.
  - apply last_filter in El as [Hq Hin]. rewrite (proj2 (Z.ltb_ge _ _)) by (specialize (Hlen q Hin); lia).
    split; [|by eauto]. intros p [= <-]. split; [done|]. by apply Hb.
  - split; [done|]. intros p Hp Hback. apply Hb in Hback. by destruct (last_filter_None _ _ _ El Hp).
Qed.

(** The tables that static_init builds hold the section Static of the
    configuration, for users and for groups: the name found for an id, in any
    buffer that the names fit in, is a principal of the section that is read back as
    this id, and every id that a principal is read as has a name. *)
Theorem static_tables lc getenv fuel cfg uid_mappings gid_mappings :
  static_init lc getenv fuel cfg = Some (inr (uid_mappings, gid_mappings)) ->
  exists tags, conf_get_tag_list cfg $"Static" None = Some tags /\
    table_ok tags (static_name_to_uid lc getenv fuel cfg) uid_mappings /\
    table_ok tags (static_name_to_gid lc getenv fuel cfg) gid_mappings.
Proof.
  unfold static_init. destruct (conf_get_tag_list _ _ _) as [tags|]; [|done]. cbn [mbind option_bind].
  destruct (fill_table _ _ _ (uid_of _ _ _ _) _ _) as [[|ut]|] eqn:Eu; cbn [mbind option_bind]; [done| |done].
  destruct (fill_table _ _ _ (gid_of _ _ _ _) _ _) as [[|gt]|] eqn:Eg; cbn [mbind option_bind]; [done| |done].
  intros [= <- <-]. exists tags. split_and!; [done| |].
  - eapply fill_table_ok; [|exact Eu]. apply uid_of_name.
  - eapply fill_table_ok; [|exact Eg]. apply gid_of_name.
Qed.

Definition static_cfg : conf :=
  match conf_set_now (fun _ => None) 1 conf_empty $"Static" None $"root@ADMIN" $"ann" true false with
  | Some (s, _) => s
  | None => conf_empty
  end.

Lemma static_tables_witness :
  exists ut gt, static_init libc_ex (fun _ => None) 3 static_cfg = Some (inr (ut, gt)) /\
    static_id_to_name ut 1000 128 = Put $"root@ADMIN" /\ static_name_to_uid libc_ex (fun _ => None) 3 static_cfg $"root@ADMIN" = Put 1000.
Proof.
  destruct (static_init libc_ex (fun _ => None) 3 static_cfg) as [[|[ut gt]]|] eqn:E; [by vm_compute in E| |by vm_compute in E].
  exists ut, gt. destruct (static_tables _ _ _ _ _ _ E) as (tags & Et & Hu & _).
  assert (static_id_to_name ut 1000 128 = Put $"root@ADMIN") as Hn by (vm_compute in E; injection E as <- <-; by vm_compute).
  split_and!; [done..|]. eapply (Hu 1000 128); [|exact Hn]. vm_compute in Et. injection Et as <-.
  intros p ->%list_elem_of_singleton. done.
Defined.

(** The length of the buffer is not looked at: a principal that is longer is written
    behind it. *)
Theorem static_overrun :
  exists ut gt, static_init libc_ex (fun _ => None) 3 static_cfg = Some (inr (ut, gt)) /\ static_id_to_name ut 1000 8 = Overrun.
Proof. eexists _, _. split; by vm_compute. Qed.

(** A list of groups that does not fit makes the method return a positive number,
    where the others return a negative one. *)
Theorem static_grouplist_code : static_gss_princ_to_grouplist libc_ex (fun _ => None) 3 static_cfg $"krb5" $"root@ADMIN" 0 = Ret ERANGE.
Proof. by vm_compute. Qed.

(** ** Principals *)

(** Which Kerberos principals get the ids of a local account by the name service:
    exactly those of the form account@realm where the realm is one of the local
    realms, letter by letter, and the account exists.  Other mechanisms get none. *)
Theorem nss_princ_local lc ic m secname princ u g :
  nfs4_plugins m = [nss_trans lc ic] -> gss_plugins m = None -> sc_getpw lc <= UINT_MAX ->
  Forall (fun r => "@"%char ∉ r) (ic_realms ic) ->
  nfs4_gss_princ_to_ids m secname princ = Put (u, g) <->
  secname = $"krb5" /\
  exists l realm pw, princ = l ++ "@"%char :: realm /\ "@"%char ∉ l /\ realm ∈ ic_realms ic /\
    getpwnam_r lc l = Found pw /\ u = pw_uid pw /\ g = pw_gid pw.
Proof.
  intros Hm Hg Hsz Hr. unfold nfs4_gss_princ_to_ids, plugins. rewrite Hg, Hm. cbn [default]. erewrite run_one by done. cbn beta.
  unfold nss_gss_princ_to_ids. split.
  - case_if; [done|]. destruct (streq secname $"krb5") eqn:Ek; cbn [negb]; [|done]. apply streq_true in Ek as ->.
    destruct (strchr "@" princ) as [[l realm]|] eqn:Ec; [|done]. apply strchr_Some in Ec as [-> Hl].
    destruct (existsb _ _) eqn:Ex; cbn [negb]; [|done]. apply existsb_exists in Ex as (r & Hin & ->%streq_true).
    apply list_elem_of_In in Hin. destruct (nss_getpwnam _ _ _ _) as [|pw] eqn:En; [done|]. intros [= <- <-]. split; [done|].
    apply nss_getpwnam_inr in En as (l' & Hs & Hf). unfold strip_domain in Hs.
    rewrite strrchr_app in Hs by exact (proj1 (Forall_forall _ _) Hr _ Hin). injection Hs as <-. by exists l, realm, pw.
  - intros (-> & l & realm & pw & -> & Hl & Hin & Hf & -> & ->). cbn [streq]. rewrite strchr_app by done.
    change (streq $"krb5" $"spkm3") with false. change (streq $"krb5" $"krb5") with true. cbn [negb].
    assert (existsb (fun r => streq r realm) (ic_realms ic) = true) as ->.
    { apply existsb_exists. exists realm. split; [by apply list_elem_of_In|apply streq_refl]. }
    cbn [negb]. rewrite (nss_getpwnam_found _ _ _ true l pw) by (try done; unfold strip_domain; by rewrite strrchr_app by exact (proj1 (Forall_forall _ _) Hr _ Hin)). done.
Qed.

Lemma nss_princ_local_witness :
  nfs4_gss_princ_to_ids idmap_ex $"krb5" $"ann@EXAMPLE.ORG" = Put (1000, 50) /\
  nfs4_gss_princ_to_ids idmap_ex $"krb5" $"ann@example.org" <> Put (1000, 50).
Proof.
  split.
  - apply (nss_princ_local libc_ex ic_ex idmap_ex); [done..| |].
    + constructor; [|done]. apply (bool_decide_unpack _). by vm_compute.
    + split; [done|]. exists $"ann", $"EXAMPLE.ORG", (Passwd $"ann" 1000 50).
      split_and!; try done; [apply (bool_decide_unpack _); by vm_compute|by apply list_elem_of_singleton].
  - by vm_compute.
Defined.

(** ** Methods *)

(** When none of the methods has the function, the answer is 0 and nothing has been
    stored: the caller goes on with an id that was never set. *)
Theorem run_translations_none m name :
  Forall (fun p => name_to_uid p = None) (nfs4_plugins m) -> nfs4_owner_to_uid m name = Ret 0.
Proof.
  intros H. unfold nfs4_owner_to_uid, nfs4_name_to_uid, plugins.
  enough (run_translations name_to_uid (fun f => f name) (nfs4_plugins m) 0 = Ret 0) as -> by done.
  induction H as [|p l Hp _ IH]; [done|]. cbn [run_translations]. by rewrite Hp.
Qed.

(** A method for principals that cannot be loaded makes the start fail when the
    domain is configured, and is passed over, together with the nobody settings, when
    the domain came from the name service. *)
Definition gss_cfg (domain : bool) : conf :=
  let put sec tag v s := match conf_set_now (fun _ => None) 1 s sec None tag v true false with Some (s, _) => s | None => s end in
  let s := put $"Translation" $"GSS-Methods" $"umich_ldap" conf_empty in
  let s := put $"Mapping" $"Nobody-User" $"ann" s in
  if domain then put $"General" $"Domain" $"example.org" s else s.

Theorem init_gss_failure :
  let load n := if streq n $"nsswitch" then Some (nss_trans libc_ex ic_ex) else None in
  nfs4_init_name_mapping libc_ex (fun _ => None) 3 (gss_cfg true) load None = Some (inl (- ENOENT)) /\
  nfs4_init_name_mapping libc_ex (fun _ => None) 3 (gss_cfg false) load (Some $"example.org") =
    Some (inr (Idmap $"example.org" [nss_trans libc_ex ic_ex] None NOBODY_UNSET NOBODY_UNSET)).
Proof. cbv zeta. split; [by vm_compute|reflexivity]. Qed.
