(* ===== verification/Idmapd.v ===== *)
(** * The daemon that maps ids for the kernel (utils/idmapd/idmapd.c)

    The kernel asks rpc.idmapd for the name of an id or the id of a name, on the
    server by lines of text and on the client by messages of a fixed shape.  The
    daemon answers by the library of [Idmap].  The buffers are those of the source: a
    line of 257 bytes, a name of 128.

    Theorems: fields survive being written and read; the answer to a line carries an
    id only when the name was found; what happens to names that do not fit. *)

From S2P Require Import Prelude Heap Mntent ConfDb Idmap.

Definition IDMAP_NAMESZ : nat := 128.
Definition IDMAP_MAXMSGSZ : nat := 256.
Definition IDMAP_TYPE_USER : Z := 0.
Definition IDMAP_TYPE_GROUP : Z := 1.
Definition IDMAP_CONV_IDTONAME : Z := 0.
Definition IDMAP_CONV_NAMETOID : Z := 1.
Definition IDMAP_STATUS_INVALIDMSG : Z := 1.
Definition IDMAP_STATUS_LOOKUPFAIL : Z := 4.
Definition IDMAP_STATUS_SUCCESS : Z := 8.
Definition NFS4NOBODY_USER : cstr := $"nobody".
Definition NFS4NOBODY_GROUP : cstr := $"nobody".

(** ** Fields of a line *)

(** The buffer from its start to [bp], and [bsiz]. *)
Record out := Out { o_text : cstr; o_bsiz : Z }.

(** The loop of [addfield]; the boolean is [ch == '\0'] after it. *)
Fixpoint addfield_loop (fld : cstr) (o : out) : bool * out :=
  match fld with
  | [] => (true, o)
  | ch :: fld =>
      if o_bsiz o <=? 0 then (false, o)
      else if existsb (ceqb ch) [SP; TAB; NL; BSLASH] then
        addfield_loop fld (if 4 <=? o_bsiz o then Out (o_text o ++ BSLASH :: pad0 3 (utoa 8 (schar ch))) (o_bsiz o - 4) else o)
      else addfield_loop fld (Out (o_text o ++ [ch]) (o_bsiz o - 1))
  end.

(** [None] is -1, after which the pointers of the caller are as before. *)
Definition addfield (o : out) (fld : cstr) : option out :=
  let '(ended, o) := addfield_loop fld o in
  if (o_bsiz o <? 1) || negb ended then None else Some (Out (o_text o ++ [SP]) (o_bsiz o - 1)).

(** The calls, which ignore the result. *)
Definition add (fld : cstr) (o : out) : out := default o (addfield o fld).

(** [sscanf(bp, "\\%03o", &val) == 1] from behind the backslash. *)
Definition scan_octal (s : cstr) : option Z :=
  let s := take 3 (skip_while isspace s) in
  let '(neg, ds) := match s with
                    | c :: r => if ceqb c "-" then (true, r) else if ceqb c "+" then (false, r) else (false, s)
                    | [] => (false, s)
                    end in
  if digit_val (deref ds) <? 8 then
    let v := (scan_digits 8 ds 0).1 in Some (if neg then u32 (- v) else v)
  else None.

(** A field that was read, the result -1, or a step behind the end of the field. *)
Inductive got := G_ok (fld : cstr) | G_bad | G_beyond.

Definition got_cons (c : ascii) (g : got) : got := match g with G_ok f => G_ok (c :: f) | g => g end.

(** The copying loop; the bytes stored, which may contain a NUL. *)
Fixpoint copy_field (fldsz : nat) (bp : cstr) : got :=
  match bp with
  | [] => G_ok []
  | c :: r =>
      match fldsz with
      | S (S _ as n) =>
          if ceqb c BSLASH then
            match scan_octal r with
            | None => G_bad
            | Some val =>
                if 255 <? val then G_bad
                else if (length r <? 3)%nat then G_beyond
                else got_cons (chr val) (copy_field n (drop 3 r))
            end
          else got_cons c (copy_field n r)
      | _ => G_bad
      end
  end.

(** [strsep] until a field is not empty; [None] is NULL. *)
Fixpoint next_field (s : cstr) : option (cstr * option cstr) :=
  match s with
  | [] => None
  | c :: s' => if ceqb c SP then next_field s' else Some (strsep SP s)
  end.

Definition getfield (bpp : option cstr) (fldsz : nat) : got * option cstr :=
  match bpp ≫= next_field with
  | None => (G_bad, None)
  | Some (bp, rest) => (if ceqb (deref bp) NL then G_bad else copy_field fldsz bp, rest)
  end.

(** ** Messages *)

Definition upto_nul (s : cstr) : cstr := (span (fun c => negb (ceqb c NUL)) s).1.

(** The array of the name and the byte of padding behind it. *)
Record idmap_msg := Msg
  { im_type : Z; im_conv : Z; im_bytes : list ascii; im_pad : ascii; im_id : Z; im_status : Z }.

Definition im_name (im : idmap_msg) : cstr := upto_nul (im_bytes im ++ [im_pad im]).
Definition set_name (n : cstr) (im : idmap_msg) : idmap_msg :=
  Msg (im_type im) (im_conv im) (n ++ NUL :: drop (S (length n)) (im_bytes im)) (im_pad im) (im_id im) (im_status im).
Definition set_status (st : Z) (im : idmap_msg) : idmap_msg :=
  Msg (im_type im) (im_conv im) (im_bytes im) (im_pad im) (im_id im) st.
Definition set_id (id : Z) (im : idmap_msg) : idmap_msg :=
  Msg (im_type im) (im_conv im) (im_bytes im) (im_pad im) id (im_status im).

(** The daemon: the library, the names and ids of nobody, what happens to be on the
    stack, and the clock. *)
Record idmapd := Idmapd
  { d_map : idmap; nobodyuser : cstr; nobodygroup : cstr; nobodyuid : Z; nobodygid : Z;
    stack_domain : cstr; stack_id : Z; d_time : Z; cache_entry_expiration : Z }.

Section daemon.
  Context (d : idmapd).

(** The domain, or what was in the buffer when it does not fit. *)
Definition daemon_domain : cstr :=
  if NFS4_MAX_DOMAIN_LEN <? Z.of_nat (length (default_domain (d_map d))) + 1 then stack_domain d
  else default_domain (d_map d).

Definition nobody_name (name dflt : cstr) : cstr := if (length name <? IDMAP_NAMESZ)%nat then name else dflt.

(** The other results of [ret] are those of the library. *)
Definition idtonameres (im : idmap_msg) : ret idmap_msg :=
  let sz := Z.of_nat IDMAP_NAMESZ in
  let finish (r : ret cstr) nobody :=
    match r with
    | Put n => Put (set_status IDMAP_STATUS_SUCCESS (set_name n im))
    | Ret 0 => Put (set_status IDMAP_STATUS_SUCCESS im)
    | Ret _ => Put (set_status IDMAP_STATUS_LOOKUPFAIL (set_name nobody im))
    | Overrun => Overrun
    | Forever => Forever
    end in
  if im_type im =? IDMAP_TYPE_USER then
    finish (nfs4_uid_to_name (d_map d) (im_id im) (Some daemon_domain) sz) (nobody_name (nobodyuser d) NFS4NOBODY_USER)
  else if im_type im =? IDMAP_TYPE_GROUP then
    finish (nfs4_gid_to_name (d_map d) (im_id im) (Some daemon_domain) sz) (nobody_name (nobodygroup d) NFS4NOBODY_GROUP)
  else Put (set_status (if NFS4_MAX_DOMAIN_LEN <? Z.of_nat (length (default_domain (d_map d))) + 1
                        then IDMAP_STATUS_LOOKUPFAIL else IDMAP_STATUS_SUCCESS) im).

Definition nametoidres (im : idmap_msg) : ret idmap_msg :=
  let finish (r : ret Z) nobody :=
    match r with
    | Put id => Put (set_id id (set_status IDMAP_STATUS_SUCCESS im))
    | Ret 0 => Put (set_id (stack_id d) (set_status IDMAP_STATUS_SUCCESS im))
    | Ret _ => Put (set_id nobody (set_status IDMAP_STATUS_LOOKUPFAIL im))
    | Overrun => Overrun
    | Forever => Forever
    end in
  if im_type im =? IDMAP_TYPE_USER then finish (nfs4_name_to_uid (d_map d) (im_name im)) (nobodyuid d)
  else if im_type im =? IDMAP_TYPE_GROUP then finish (nfs4_name_to_gid (d_map d) (im_name im)) (nobodygid d)
  else Put (set_status IDMAP_STATUS_SUCCESS im).

Definition imconv (im : idmap_msg) : ret idmap_msg :=
  if im_conv im =? IDMAP_CONV_IDTONAME then idtonameres im
  else if im_conv im =? IDMAP_CONV_NAMETOID then
    let len := length (upto_nul (take (IDMAP_NAMESZ - 1) (im_bytes im))) in
    if negb (ceqb (at_index (im_bytes im ++ [im_pad im]) (len + 1)) NUL) then Put im else nametoidres im
  else Put (set_status (Z.lor (im_status im) IDMAP_STATUS_INVALIDMSG) im).

(** The client's messages: what is written back. *)
Definition nfscb (im : idmap_msg) : ret idmap_msg :=
  match imconv im with
  | Put im => Put (if im_status im =? IDMAP_STATUS_LOOKUPFAIL then set_status IDMAP_STATUS_SUCCESS im else im)
  | r => r
  end.

(** ** The server's lines *)

Inductive ic_which := IC_IDNAME | IC_NAMEID.

(** What a line makes the daemon do: nothing, write a line, or go wrong. *)
Inductive reply := R_none | R_write (line : cstr) | R_beyond | R_overrun | R_forever.

(** [memset(&im, 0, ...)] and the name stored by [getfield]. *)
Definition new_msg (type conv : Z) (name : cstr) (id : Z) : idmap_msg :=
  Msg type conv (name ++ replicate (IDMAP_NAMESZ - length name) NUL) NUL id 0.

Definition with_field (g : got * option cstr) (k : cstr -> option cstr -> reply) : reply :=
  match g with
  | (G_ok f, rest) => k f rest
  | (G_bad, _) => R_none
  | (G_beyond, _) => R_beyond
  end.

Definition after (r : ret idmap_msg) (k : idmap_msg -> reply) : reply :=
  match r with
  | Put im => k im
  | Ret _ => R_none
  | Overrun => R_overrun
  | Forever => R_forever
  end.

(** [bp[-1] = '\n'] and the bytes up to [bp]. *)
Definition end_line (o : out) : reply :=
  match o_text o with
  | [] => R_overrun
  | t => R_write (removelast t ++ [NL])
  end.

Definition expiry : cstr := itoa (i64 (d_time d + cache_entry_expiration d)).

(** The answers, from [buf[0] = '\0'] on. *)
Definition answer_nameid (auth : cstr) (im : idmap_msg) : reply :=
  let o := add auth (Out [] (Z.of_nat IDMAP_MAXMSGSZ + 1)) in
  let o := add (if im_type im =? IDMAP_TYPE_USER then $"user" else $"group") o in
  let o := add (im_name im) o in
  let o := add expiry o in
  end_line (if im_status im =? IDMAP_STATUS_SUCCESS then add (utoa 10 (im_id im)) o else o).

Definition answer_idname (auth : cstr) (im : idmap_msg) : reply :=
  let o := add auth (Out [] (Z.of_nat IDMAP_MAXMSGSZ + 1)) in
  let o := add (if im_type im =? IDMAP_TYPE_USER then $"user" else $"group") o in
  let o := add (utoa 10 (im_id im)) o in
  let o := add expiry o in
  end_line (add (im_name im) o).

(** A line without its newline. *)
Definition nfsdcb (which : ic_which) (buf : cstr) : reply :=
  with_field (getfield (Some buf) IDMAP_MAXMSGSZ) (fun authbuf bp =>
  with_field (getfield bp IDMAP_MAXMSGSZ) (fun typebuf bp =>
    let type := if streq (upto_nul typebuf) $"user" then IDMAP_TYPE_USER else IDMAP_TYPE_GROUP in
    match which with
    | IC_NAMEID =>
        with_field (getfield bp IDMAP_NAMESZ) (fun name _ =>
          after (imconv (new_msg type IDMAP_CONV_NAMETOID name 0)) (answer_nameid (upto_nul authbuf)))
    | IC_IDNAME =>
        with_field (getfield bp IDMAP_MAXMSGSZ) (fun buf1 _ =>
          let tmp := st_value (strtoul 10 (upto_nul buf1)) in
          if negb (u32 tmp =? tmp) then R_none
          else after (imconv (new_msg type IDMAP_CONV_IDTONAME [] (u32 tmp))) (answer_idname (upto_nul authbuf)))
    end)).
End daemon.

(** ** Fields survive *)

Lemma escape_octal ch : existsb (ceqb ch) [SP; TAB; NL; BSLASH] = true -> BSLASH :: pad0 3 (utoa 8 (schar ch)) = octal ch.
Proof.
  cbn [existsb]. rewrite !orb_true_iff. intros [E|[E|[E|[E|]]]]; [apply ceqb_true in E as ->..|done]; by vm_compute.
Qed.

Lemma octal_length ch : length (octal ch) = 4%nat.
Proof. done. Qed.

Lemma addfield_loop_room fld w b :
  Z.of_nat (length (mangle fld)) < b ->
  addfield_loop fld (Out w b) = (true, Out (w ++ mangle fld) (b - Z.of_nat (length (mangle fld)))).
Proof.
  revert w b. induction fld as [|ch fld IH]; intros w b; cbn [mangle addfield_loop o_bsiz o_text].
  { intros _. rewrite app_nil_r. cbn. by rewrite Z.sub_0_r. }
  rewrite length_app. intros Hb. unfold need_escaping in *. destruct (existsb (ceqb ch) _) eqn:Ech.
  - rewrite octal_length in Hb. rewrite (proj2 (Z.leb_gt _ _)), (proj2 (Z.leb_le _ _)), escape_octal, IH by (done || lia).
    rewrite app_assoc, octal_length. f_equal; f_equal. lia.
  - cbn [length] in *. rewrite (proj2 (Z.leb_gt _ _)), IH by lia. rewrite app_assoc. f_equal; f_equal. lia.
Qed.

Lemma add_room fld w b :
  Z.of_nat (length (mangle fld)) < b -> add fld (Out w b) = Out (w ++ mangle fld ++ [SP]) (b - Z.of_nat (length (mangle fld)) - 1).
Proof.
  intros H. unfold add, addfield. rewrite addfield_loop_room by done. cbn [o_bsiz o_text].
  rewrite (proj2 (Z.ltb_ge _ _)) by lia. cbn [orb negb default]. by rewrite app_assoc.
Qed.

Lemma scan_octal_escape ch rest :
  existsb (ceqb ch) need_escaping = true -> scan_octal (drop 1 (octal ch) ++ rest) = Some (uchar ch) /\ (uchar ch <= 255).
Proof.
  unfold need_escaping. cbn [existsb]. rewrite !orb_true_iff. intros [E|[E|[E|[E|]]]]; [apply ceqb_true in E as ->..|done]; by vm_compute.
Qed.

Lemma copy_field_escape n a b c r v :
  scan_octal (a :: b :: c :: r) = Some v -> v <= 255 ->
  copy_field (S (S n)) (BSLASH :: a :: b :: c :: r) = got_cons (chr v) (copy_field (S n) r).
Proof. intros H Hv. cbn [copy_field]. rewrite ceqb_refl, H, (proj2 (Z.ltb_ge _ _)) by lia. reflexivity. Qed.

Lemma copy_field_plain n c r : ceqb c BSLASH = false -> copy_field (S (S n)) (c :: r) = got_cons c (copy_field (S n) r).
Proof. intros H. cbn [copy_field]. by rewrite H. Qed.

Lemma copy_field_mangle f n : (length f < n)%nat -> copy_field n (mangle f) = G_ok f.
Proof.
  revert n. induction f as [|ch f IH]; intros n Hn; [by destruct n|]. cbn [length] in Hn. destruct n as [|[|n]]; [lia..|].
  cbn [mangle]. destruct (existsb (ceqb ch) need_escaping) eqn:Ech.
  - destruct (scan_octal_escape ch (mangle f) Ech) as [Hs Hle]. unfold octal in *. cbn [app drop] in *.
    rewrite (copy_field_escape _ _ _ _ _ _ Hs Hle), IH by lia. cbn [got_cons]. by rewrite chr_uchar.
  - cbn [app]. destruct (ceqb ch BSLASH) eqn:Eb.
    + unfold need_escaping in Ech. cbn [existsb] in Ech. by rewrite Eb, !orb_true_r in Ech.
    + by rewrite copy_field_plain, IH by (done || lia).
Qed.

Lemma mangle_no_sep f : SP ∉ mangle f.
Proof. intros H. by destruct (proj1 (Forall_forall _ _) (mangle_chars f) _ H) as [? _]. Qed.

Lemma mangle_start f : f <> [] -> exists c r, mangle f = c :: r /\ c <> SP /\ c <> NL.
Proof.
  intros Hf. pose proof (mangle_chars f) as H. destruct f as [|ch f]; [done|].
  assert (exists c r, mangle (ch :: f) = c :: r) as (c & r & E) by (cbn [mangle]; destruct (existsb _ _); by eexists _, _).
  rewrite E in *. apply Forall_cons in H as [[Hc Hn] _]. exists c, r. split_and!; [done| |done]. by intros ->.
Qed.

(** A field followed by another, and the last one. *)
Lemma getfield_mangle f n rest :
  f <> [] -> (length f < n)%nat -> getfield (Some (mangle f ++ SP :: rest)) n = (G_ok f, Some rest).
Proof.
  intros Hf Hn. destruct (mangle_start f Hf) as (c & r & E & Hs & Hnl). unfold getfield. cbn [mbind option_bind].
  assert (next_field (mangle f ++ SP :: rest) = Some (mangle f, Some rest)) as ->.
  { pose proof (strchr_app SP _ rest (mangle_no_sep f)) as Hc. rewrite E in *. cbn [app next_field].
    rewrite (proj2 (ceqb_false c SP)) by done. unfold strsep. cbn [app] in Hc. by rewrite Hc. }
  rewrite E at 1. cbn [deref]. rewrite (proj2 (ceqb_false c NL)), copy_field_mangle by done. done.
Qed.

Lemma getfield_mangle_last f n : f <> [] -> (length f < n)%nat -> getfield (Some (mangle f)) n = (G_ok f, None).
Proof.
  intros Hf Hn. destruct (mangle_start f Hf) as (c & r & E & Hs & Hnl). unfold getfield. cbn [mbind option_bind].
  assert (next_field (mangle f) = Some (mangle f, None)) as ->.
  { pose proof (proj2 (strchr_None SP _) (mangle_no_sep f)) as Hc. rewrite E in *. cbn [next_field].
    rewrite (proj2 (ceqb_false c SP)) by done. unfold strsep. by rewrite Hc. }
  rewrite E at 1. cbn [deref]. rewrite (proj2 (ceqb_false c NL)), copy_field_mangle by done. done.
Qed.

(** Fields with a blank between them. *)
Fixpoint line (fs : list cstr) : cstr :=
  match fs with
  | [] => []
  | [f] => mangle f
  | f :: fs => mangle f ++ SP :: line fs
  end.

Lemma line_cons f fs : fs <> [] -> line (f :: fs) = mangle f ++ SP :: line fs.
Proof. by destruct fs. Qed.

Lemma line_length_cons f fs : fs <> [] -> length (line (f :: fs)) = (length (mangle f) + 1 + length (line fs))%nat.
Proof. intros H. rewrite line_cons, length_app by done. cbn [length]. lia. Qed.

(** A line reads as its fields. *)
Fixpoint reads (fs : list cstr) (bpp : option cstr) : Prop :=
  match fs with
  | [] => bpp = None
  | f :: fs => exists rest, getfield bpp IDMAP_MAXMSGSZ = (G_ok f, rest) /\ reads fs rest
  end.

Lemma line_reads fs : fs <> [] -> Forall (fun f => f <> [] /\ (length f < IDMAP_MAXMSGSZ)%nat) fs -> reads fs (Some (line fs)).
Proof.
  intros Hne H. induction H as [|f fs [Hf Hl] _ IH]; [done|]. destruct fs as [|g fs].
  - exists None. split; [|done]. by apply getfield_mangle_last.
  - exists (Some (line (g :: fs))). split; [|by apply IH]. rewrite line_cons by done. by apply getfield_mangle.
Qed.

Definition spaced (fs : list cstr) : cstr := concat ((fun f => mangle f ++ [SP]) <$> fs).

Lemma spaced_cons f fs : spaced (f :: fs) = mangle f ++ SP :: spaced fs.
Proof. unfold spaced. cbn [fmap list_fmap concat]. by rewrite <- app_assoc. Qed.

Lemma spaced_line fs : fs <> [] -> spaced fs = line fs ++ [SP].
Proof.
  intros Hne. induction fs as [|f fs IH]; [done|]. rewrite spaced_cons. destruct fs as [|g fs]; [done|].
  rewrite IH, (line_cons f) by done. by rewrite <- app_assoc.
Qed.

Lemma add_all fs w b :
  Z.of_nat (length (spaced fs)) <= b ->
  foldl (fun o f => add f o) (Out w b) fs = Out (w ++ spaced fs) (b - Z.of_nat (length (spaced fs))).
Proof.
  revert w b. induction fs as [|f fs IH]; intros w b Hb; cbn [foldl].
  { unfold spaced. cbn. by rewrite app_nil_r, Z.sub_0_r. }
  rewrite spaced_cons, length_app in *. cbn [length] in *. rewrite add_room, IH by lia.
  rewrite <- !app_assoc. f_equal. lia.
Qed.

Lemma add_line fs :
  fs <> [] -> Z.of_nat (length (line fs)) <= 256 ->
  end_line (foldl (fun o f => add f o) (Out [] (Z.of_nat IDMAP_MAXMSGSZ + 1)) fs) = R_write (line fs ++ [NL]).
Proof.
  intros Hne Hl. rewrite add_all by (rewrite spaced_line, length_app by done; unfold IDMAP_MAXMSGSZ; cbn [length]; lia).
  unfold end_line. cbn [o_text app]. rewrite spaced_line by done.
  destruct (line fs ++ [SP]) eqn:E; [by destruct (line fs)|]. by rewrite <- E, removelast_last.
Qed.

Lemma mangle_plain s : Forall (fun c => existsb (ceqb c) need_escaping = false) s -> mangle s = s.
Proof. induction 1 as [|c s Hc _ IH]; [done|]. cbn [mangle]. by rewrite Hc, IH. Qed.

Lemma digit_plain c : digit_val c < 10 -> existsb (ceqb c) need_escaping = false.
Proof. all_chars c; vm_compute; intros H; try discriminate H; auto. Qed.

Lemma mangle_number n : mangle (utoa 10 n) = utoa 10 n.
Proof. apply mangle_plain. eapply Forall_impl; [apply utoa_digits; lia|]. apply digit_plain. Qed.

Lemma mangle_itoa n : mangle (itoa n) = itoa n.
Proof. unfold itoa. case_if; [|apply mangle_number]. cbn [mangle]. by rewrite mangle_number. Qed.

Lemma upto_nul_app s r : no_nul s -> upto_nul (s ++ NUL :: r) = s.
Proof.
  unfold upto_nul. induction 1 as [|c s Hc _ IH]; [done|]. cbn [app span]. rewrite (proj2 (ceqb_false c NUL)) by done. cbn [negb].
  destruct (span _ (s ++ NUL :: r)) as [a b] eqn:E. cbn [fst] in *. by rewrite IH.
Qed.

Lemma upto_nul_id s : no_nul s -> upto_nul s = s.
Proof.
  unfold upto_nul. induction 1 as [|c s Hc _ IH]; [done|]. cbn [span]. rewrite (proj2 (ceqb_false c NUL)) by done. cbn [negb].
  destruct (span _ s) as [a b] eqn:E. cbn [fst] in *. by rewrite IH.
Qed.

Lemma new_msg_array type conv name id :
  im_bytes (new_msg type conv name id) ++ [im_pad (new_msg type conv name id)] =
  name ++ replicate (IDMAP_NAMESZ - length name) NUL ++ [NUL].
Proof. cbn [new_msg im_bytes im_pad]. by rewrite <- app_assoc. Qed.

Lemma nul_tail k : exists r, replicate k NUL ++ [NUL] = NUL :: r.
Proof. destruct k; by eexists. Qed.

Lemma new_msg_name type conv name id : no_nul name -> im_name (new_msg type conv name id) = name.
Proof.
  intros Hn. unfold im_name. rewrite new_msg_array. destruct (nul_tail (IDMAP_NAMESZ - length name)) as [r ->]. by apply upto_nul_app.
Qed.

Lemma at_nuls name k i : (length name <= i)%nat -> at_index (name ++ replicate k NUL) i = NUL.
Proof.
  intros Hi. unfold at_index. rewrite drop_app_ge by done. generalize (i - length name)%nat as j. intros j.
  rewrite drop_replicate. by destruct (k - j)%nat.
Qed.

(** The test before the lookup does not stop a name that [getfield] stored. *)
Lemma new_msg_terminated type name id :
  no_nul name -> (length name < IDMAP_NAMESZ)%nat ->
  let im := new_msg type IDMAP_CONV_NAMETOID name id in
  at_index (im_bytes im ++ [im_pad im]) (length (upto_nul (take (IDMAP_NAMESZ - 1) (im_bytes im))) + 1) = NUL.
Proof.
  intros Hn Hl im. unfold im. rewrite new_msg_array. cbn [new_msg im_bytes].
  assert (upto_nul (take (IDMAP_NAMESZ - 1) (name ++ replicate (IDMAP_NAMESZ - length name) NUL)) = name) as ->.
  { rewrite take_app_ge by (unfold IDMAP_NAMESZ in *; lia). rewrite take_replicate.
    destruct (Nat.min _ _) as [|j]; [cbn [replicate]; rewrite app_nil_r; by apply upto_nul_id|]. cbn [replicate]. by apply upto_nul_app. }
  change [NUL] with (replicate 1 NUL). rewrite <- replicate_add. apply at_nuls. lia.
Qed.

(** ** Answers to the server *)

Definition type_name (user : bool) : cstr := if user then $"user" else $"group".
Definition type_id (user : bool) : Z := if user then IDMAP_TYPE_USER else IDMAP_TYPE_GROUP.

Lemma type_fits user : type_name user <> [] /\ (length (type_name user) < IDMAP_MAXMSGSZ)%nat /\ mangle (type_name user) = type_name user /\
  (length (type_name user) <= 5)%nat /\ (if streq (upto_nul (type_name user)) $"user" then IDMAP_TYPE_USER else IDMAP_TYPE_GROUP) = type_id user.
Proof. unfold IDMAP_MAXMSGSZ. destruct user; cbn; split_and!; (done || lia). Qed.

(** The first two fields. *)
Lemma nfsdcb_head d which auth user name :
  auth <> [] -> no_nul auth -> (length auth < IDMAP_MAXMSGSZ)%nat -> name <> [] ->
  (length name < match which with IC_NAMEID => IDMAP_NAMESZ | IC_IDNAME => IDMAP_MAXMSGSZ end)%nat ->
  nfsdcb d which (line [auth; type_name user; name]) =
  match which with
  | IC_NAMEID => after (imconv d (new_msg (type_id user) IDMAP_CONV_NAMETOID name 0)) (answer_nameid d auth)
  | IC_IDNAME =>
      let tmp := st_value (strtoul 10 (upto_nul name)) in
      if negb (u32 tmp =? tmp) then R_none
      else after (imconv d (new_msg (type_id user) IDMAP_CONV_IDTONAME [] (u32 tmp))) (answer_idname d auth)
  end.
Proof.
  intros Ha Hna Hla Hn Hln. destruct (type_fits user) as (Ht1 & Ht2 & _ & _ & Ht3). unfold nfsdcb.
  rewrite line_cons, getfield_mangle by done. cbn [with_field]. rewrite line_cons, getfield_mangle by done. cbn [with_field line].
  rewrite Ht3. by destruct which; rewrite getfield_mangle_last by done; cbn [with_field]; rewrite (upto_nul_id auth) by done.
Qed.

Definition lookup_id (d : idmapd) (user : bool) (name : cstr) : ret Z :=
  if user then nfs4_name_to_uid (d_map d) name else nfs4_name_to_gid (d_map d) name.

Lemma nametoid_msg d user name :
  no_nul name -> (length name < IDMAP_NAMESZ)%nat -> lookup_id d user name <> Ret 0 ->
  let im := new_msg (type_id user) IDMAP_CONV_NAMETOID name 0 in
  imconv d im =
  match lookup_id d user name with
  | Put id => Put (set_id id (set_status IDMAP_STATUS_SUCCESS im))
  | Ret _ => Put (set_id (if user then nobodyuid d else nobodygid d) (set_status IDMAP_STATUS_LOOKUPFAIL im))
  | Overrun => Overrun
  | Forever => Forever
  end.
Proof.
  intros Hn Hl Hr im. unfold imconv. change (im_conv im =? IDMAP_CONV_IDTONAME) with false. change (im_conv im =? IDMAP_CONV_NAMETOID) with true.
  cbv iota zeta. unfold im at 1 2 3. rewrite new_msg_terminated by done. cbn [negb]. rewrite ceqb_refl. cbn [negb].
  unfold nametoidres, lookup_id in *. rewrite (new_msg_name _ _ _ _ Hn : im_name im = name).
  destruct user; [change (im_type im =? IDMAP_TYPE_USER) with true
                 |change (im_type im =? IDMAP_TYPE_USER) with false; change (im_type im =? IDMAP_TYPE_GROUP) with true];
    cbv iota; [destruct (nfs4_name_to_uid (d_map d) name) as [[]| | |]|destruct (nfs4_name_to_gid (d_map d) name) as [[]| | |]]; done.
Qed.

(** C19. The server's question for the id of a name is answered with the fields of
    the question and the time until which the answer holds; the id follows exactly
    when the name was found, so that an unknown name is never taken for nobody.
    The fields must fit the line of 257 bytes. *)
Theorem idmapd_nameid d auth user name :
  auth <> [] -> no_nul auth -> (length auth < IDMAP_MAXMSGSZ)%nat -> name <> [] -> no_nul name -> (length name < IDMAP_NAMESZ)%nat ->
  (length (mangle auth) + length (mangle name) + length (expiry d) <= 237)%nat ->
  lookup_id d user name <> Ret 0 -> (forall id, lookup_id d user name = Put id -> 0 <= id < 2 ^ 32) ->
  nfsdcb d IC_NAMEID (line [auth; type_name user; name]) =
  match lookup_id d user name with
  | Put id => R_write (line [auth; type_name user; name; expiry d; utoa 10 id] ++ [NL])
  | Ret _ => R_write (line [auth; type_name user; name; expiry d] ++ [NL])
  | Overrun => R_overrun
  | Forever => R_forever
  end.
Proof.
  intros Ha Hna Hla Hn Hnn Hln Hroom H0 Hid. destruct (type_fits user) as (_ & _ & Hm & Ht & _).
  rewrite nfsdcb_head, nametoid_msg by done.
  assert (forall id st, im_name (set_id id (set_status st (new_msg (type_id user) IDMAP_CONV_NAMETOID name 0))) = name) as Hname
    by (intros; by apply (new_msg_name (type_id user) IDMAP_CONV_NAMETOID name 0)).
  assert ((if type_id user =? IDMAP_TYPE_USER then $"user" else $"group") = type_name user) as Hty by by destruct user.
  destruct (lookup_id d user name) as [e|id| |] eqn:E; cbn [after]; [| |done..]; unfold answer_nameid; rewrite Hname;
    cbn [im_type set_id set_status new_msg im_status im_id]; rewrite Hty.
  - apply (add_line [auth; type_name user; name; expiry d]); [done|].
    rewrite !line_length_cons by done. cbn [line]. rewrite Hm, (mangle_itoa _ : mangle (expiry d) = expiry d). lia.
  - apply (add_line [auth; type_name user; name; expiry d; utoa 10 id]); [done|].
    rewrite !line_length_cons by done. cbn [line].
    rewrite Hm, (mangle_itoa _ : mangle (expiry d) = expiry d), mangle_number.
    pose proof (utoa_aux_length (S (Z.to_nat (Z.log2 id))) 10 id 10 ltac:(lia) ltac:(specialize (Hid id eq_refl); simpl; lia) ltac:(lia)) as Hu.
    fold (utoa 10 id) in Hu. lia.
Qed.

Definition lookup_name (d : idmapd) (user : bool) (id : Z) : ret cstr :=
  if user then nfs4_uid_to_name (d_map d) id (Some (daemon_domain d)) (Z.of_nat IDMAP_NAMESZ)
  else nfs4_gid_to_name (d_map d) id (Some (daemon_domain d)) (Z.of_nat IDMAP_NAMESZ).

(** The name that is sent. *)
Definition shown (d : idmapd) (user : bool) (r : ret cstr) : cstr :=
  match r with
  | Put n => n
  | _ => if user then nobody_name (nobodyuser d) NFS4NOBODY_USER else nobody_name (nobodygroup d) NFS4NOBODY_GROUP
  end.

Lemma idtoname_msg d user id :
  lookup_name d user id <> Ret 0 ->
  let im := new_msg (type_id user) IDMAP_CONV_IDTONAME [] id in
  imconv d im =
  match lookup_name d user id with
  | Put n => Put (set_status IDMAP_STATUS_SUCCESS (set_name n im))
  | Ret e => Put (set_status IDMAP_STATUS_LOOKUPFAIL (set_name (shown d user (Ret e)) im))
  | Overrun => Overrun
  | Forever => Forever
  end.
Proof.
  intros Hr im. unfold imconv. change (im_conv im =? IDMAP_CONV_IDTONAME) with true. cbv iota.
  unfold idtonameres, lookup_name in *. change (im_id im) with id. cbv zeta.
  destruct user; [change (im_type im =? IDMAP_TYPE_USER) with true
                 |change (im_type im =? IDMAP_TYPE_USER) with false; change (im_type im =? IDMAP_TYPE_GROUP) with true]; cbv iota.
  - by destruct (nfs4_uid_to_name _ _ _ _) as [[]| | |].
  - by destruct (nfs4_gid_to_name _ _ _ _) as [[]| | |].
Qed.

Lemma strtoul_number id : 0 <= id < 2 ^ 32 -> st_value (strtoul 10 (utoa 10 id)) = id.
Proof.
  intros Hid. pose proof (strtol_utoa id [] ltac:(unfold LONG_MAX; lia) (or_introl eq_refl)) as E. rewrite app_nil_r in E.
  unfold strtol, strtoul in *. destruct (strto_scan 10 (utoa 10 id)) as [[[neg v] r]|]; [|done].
  rewrite !Z.gtb_ltb in *. destruct (Z.ltb_spec LONG_MAX (if neg then - v else v)); [done|].
  destruct (Z.ltb_spec (if neg then - v else v) LONG_MIN); [done|]. injection E as Hv _. unfold LONG_MAX, LONG_MIN, ULONG_MAX in *.
  rewrite (proj2 (Z.ltb_ge _ _)) by (destruct neg; lia). cbn [st_value]. destruct neg; [|done].
  unfold u64. rewrite Hv. apply Z.mod_small. lia.
Qed.

(** The server's question for the name of an id is always answered with a name: the
    one found, or that of nobody. *)
Theorem idmapd_idname d auth user id :
  let r := lookup_name d user id in
  auth <> [] -> no_nul auth -> (length auth < IDMAP_MAXMSGSZ)%nat -> 0 <= id < 2 ^ 32 -> r <> Ret 0 -> no_nul (shown d user r) ->
  (length (mangle auth) + length (mangle (shown d user r)) + length (expiry d) <= 237)%nat ->
  nfsdcb d IC_IDNAME (line [auth; type_name user; utoa 10 id]) =
  match r with
  | Overrun => R_overrun
  | Forever => R_forever
  | _ => R_write (line [auth; type_name user; utoa 10 id; expiry d; shown d user r] ++ [NL])
  end.
Proof.
  intros r Ha Hna Hla Hid H0 Hnn Hroom. destruct (type_fits user) as (_ & _ & Hm & Ht & _).
  pose proof (utoa_aux_length (S (Z.to_nat (Z.log2 id))) 10 id 10 ltac:(lia) ltac:(simpl; lia) ltac:(lia)) as Hu.
  fold (utoa 10 id) in Hu.
  assert (no_nul (utoa 10 id)) as Hnd.
  { eapply Forall_impl; [apply (utoa_digits 10 id); lia|]. intros c Hc ->. by vm_compute in Hc. }
  rewrite nfsdcb_head by first [done|apply utoa_nonempty|unfold IDMAP_MAXMSGSZ; lia]. cbv zeta.
  rewrite upto_nul_id, strtoul_number, (u32_id id Hid), Z.eqb_refl by done. cbn [negb]. rewrite idtoname_msg by done. fold r.
  assert (forall n st, no_nul n -> im_name (set_status st (set_name n (new_msg (type_id user) IDMAP_CONV_IDTONAME [] id))) = n) as Hname.
  { intros n st Hn. unfold im_name. cbn [set_status set_name im_bytes im_pad]. rewrite <- app_assoc. by apply upto_nul_app. }
  assert ((if type_id user =? IDMAP_TYPE_USER then $"user" else $"group") = type_name user) as Hty by by destruct user.
  assert (length (line [auth; type_name user; utoa 10 id; expiry d; shown d user r]) <= 256)%nat as Hl.
  { rewrite !line_length_cons by done. cbn [line]. rewrite Hm, (mangle_itoa _ : mangle (expiry d) = expiry d), mangle_number. lia. }
  destruct r as [e|n| |]; [| |done..]; cbn [after]; unfold answer_idname; rewrite Hname by done;
    cbn [im_type set_name set_status new_msg im_status im_id]; rewrite Hty.
  - by apply (add_line [auth; type_name user; utoa 10 id; expiry d; shown d user (Ret e)]); [|lia].
  - by apply (add_line [auth; type_name user; utoa 10 id; expiry d; shown d user (Put n)]); [|lia].
Qed.

Definition idmapd_ex : idmapd := Idmapd idmap_ex $"nobody" $"nobody" 65534 65534 [] 7 1700000000 600.

Lemma no_nul_ex s : forallb (fun c => negb (ceqb c NUL)) s = true -> no_nul s.
Proof. intros H. apply Forall_forall. intros c Hc ->. apply forallb_forall with (x := NUL) in H; [done|]. by apply list_elem_of_In. Qed.

Lemma idmapd_nameid_witness :
  nfsdcb idmapd_ex IC_NAMEID $"* user ann@example.org" = R_write ($"* user ann@example.org 1700000600 1000" ++ [NL]) /\
  nfsdcb idmapd_ex IC_NAMEID $"* user eve@example.org" = R_write ($"* user eve@example.org 1700000600" ++ [NL]).
Proof.
  split.
  - refine (idmapd_nameid idmapd_ex $"*" true $"ann@example.org" _ _ _ _ _ _ _ _ _);
      [done|by apply no_nul_ex|vm_compute; lia|done|by apply no_nul_ex|vm_compute; lia|vm_compute; lia|by vm_compute|].
    intros id. replace (lookup_id _ _ _) with (@Put Z 1000) by (symmetry; by vm_compute). intros [= <-]. done.
  - refine (idmapd_nameid idmapd_ex $"*" true $"eve@example.org" _ _ _ _ _ _ _ _ _);
      [done|by apply no_nul_ex|vm_compute; lia|done|by apply no_nul_ex|vm_compute; lia|vm_compute; lia|by vm_compute|].
    intros id. replace (lookup_id _ _ _) with (@Ret Z (- ENOENT)) by (symmetry; by vm_compute). done.
Defined.

(** ** What does not fit *)

(** A field that does not fit is left out: the answer to a question whose name has
    sixty blanks carries no time. *)
Theorem idmapd_field_lost :
  nfsdcb idmapd_ex IC_NAMEID (line [$"*"; $"user"; replicate 60 SP]) = R_write (line [$"*"; $"user"; replicate 60 SP] ++ [NL]).
Proof. by vm_compute. Qed.

(** A blank near the end of the buffer is dropped, and the field counts as written. *)
Theorem addfield_drops : addfield (Out [] 3) [SP] = Some (Out [SP] 2).
Proof. by vm_compute. Qed.

(** A short escape at the end of a line makes the reader step behind it. *)
Theorem getfield_short_escape : getfield (Some (BSLASH :: $"7")) IDMAP_MAXMSGSZ = (G_beyond, None).
Proof. by vm_compute. Qed.
