(* ===== verification/Blkmap.v ===== *)
(** * Volumes of a block layout (utils/blkmapd/device-process.c)

    With a pNFS block layout the server describes a device by a message: volumes
    that are disks known by signatures, slices of other volumes, concatenations and
    stripes.  blkmapd decodes the message and builds the device.  A message is its
    bytes and the pointer into it the bytes left; the references of all volumes share
    one array, [arrays], of twice as many cells as there are volumes.  Reading the
    message behind its end and using a cell of the array that is not there or was
    never set are results of their own.

    Theorems: whatever the message, it is never read behind its end; a message that
    follows the protocol is decoded to the volumes it describes and its references
    fit the array, as a comment of the source argues.  What other messages do. *)

From S2P Require Import Prelude.

Definition EIO : Z := 5.
Definition ENXIO : Z := 6.
Definition BLOCK_MAX_SIG_COMP : Z := 16.

(** [blk_vol_type]. *)
Definition BLOCK_VOLUME_SIMPLE : Z := 0.
Definition BLOCK_VOLUME_SLICE : Z := 1.
Definition BLOCK_VOLUME_CONCAT : Z := 2.
Definition BLOCK_VOLUME_STRIPE : Z := 3.

(** A value, a negative error code, or a bad access to the message or to the array. *)
Inductive res (A : Type) := Ok (a : A) | Err (code : Z) | BadMsg | BadMem.
Arguments Ok {_} _.
Arguments Err {_} _.
Arguments BadMsg {_}.
Arguments BadMem {_}.

#[global] Instance res_bind : MBind res := fun A B f m =>
  match m with
  | Ok a => f a
  | Err e => Err e
  | BadMsg => BadMsg
  | BadMem => BadMem
  end.

(** ** Reading the message *)

(** [BLK_READBUF]: are there [nbytes], rounded up to words? *)
Definition blk_overflow (nbytes : Z) (p : cstr) : bool := Z.of_nat (length p) <? 4 * Z.shiftr (nbytes + 3) 2.
Definition readbuf (nbytes : Z) (p : cstr) : res unit := if blk_overflow nbytes p then Err (- EIO) else Ok tt.

Definition read32 (p : cstr) : res (Z * cstr) :=
  match p with
  | a :: b :: c :: d :: p => Ok (uchar a * 2 ^ 24 + uchar b * 2 ^ 16 + uchar c * 2 ^ 8 + uchar d, p)
  | _ => BadMsg
  end.

Definition read64 (p : cstr) : res (Z * cstr) :=
  '(hi, p) ← read32 p; '(lo, p) ← read32 p; Ok (hi * 2 ^ 32 + lo, p).

Definition read_sector (p : cstr) : res (Z * cstr) :=
  '(tmp, p) ← read64 p; if negb (Z.land tmp 511 =? 0) then Err (- EIO) else Ok (Z.shiftr tmp 9, p).

Record bl_sig_comp := Comp { bs_offset : Z; bs_length : Z; bs_string : cstr }.

Fixpoint decode_comps (n : nat) (p : cstr) : res (list bl_sig_comp * cstr) :=
  match n with
  | O => Ok ([], p)
  | S n =>
      _ ← readbuf 12 p;
      '(offset, p) ← read64 p;
      '(siglen, p) ← read32 p;
      _ ← readbuf siglen p;
      let comp := Comp (i64 offset) siglen (take (Z.to_nat siglen) p) in
      '(comps, p) ← decode_comps n (drop (Z.to_nat (4 * Z.shiftr (u32 (siglen + 3)) 2)) p);
      Ok (comp :: comps, p)
  end.

(** [si_num_comps] is an [int]. *)
Definition decode_blk_signature (p : cstr) : res (list bl_sig_comp * cstr) :=
  _ ← readbuf 4 p;
  '(num_comps, p) ← read32 p;
  let num_comps := i32 num_comps in
  if num_comps =? 0 then Err (- EIO)
  else if BLOCK_MAX_SIG_COMP <=? num_comps then Err (- EIO)
  else decode_comps (Z.to_nat num_comps) p.

(** ** Disks *)

(** A disk, whether it can be opened, and what [lseek64] and [read] give at an offset. *)
Record bl_disk := Disk { d_dev : Z; d_size : Z; d_open : bool; d_read : Z -> Z -> option cstr }.

(** [true] is a match. *)
Definition read_cmp_blk_sig (disk : bl_disk) (comp : bl_sig_comp) : bool :=
  let offset := if bs_offset comp <? 0 then i64 (bs_offset comp + i64 (d_size disk * 2 ^ 9)) else bs_offset comp in
  match d_read disk offset (bs_length comp) with
  | Some sig => streq sig (bs_string comp)
  | None => false
  end.

Definition verify_sig (disk : bl_disk) (sig : list bl_sig_comp) : bool := d_open disk && forallb (read_cmp_blk_sig disk) sig.

Definition map_sig_to_device (disks : list bl_disk) (sig : list bl_sig_comp) : option bl_disk :=
  List.find (fun disk => verify_sig disk sig) disks.

(** ** Volumes *)

(** [bv_vols] is a place in [arrays], whose cells are numbers of volumes.  Members that
    the code leaves unset are 0. *)
Record bl_volume := Vol { bv_type : Z; bv_size : Z; bv_vols : Z; bv_vol_n : Z; bv_param : Z }.

Definition store (arrays : list (option Z)) (at_ : Z) (v : Z) : res (list (option Z)) :=
  if (0 <=? at_) && (at_ <? Z.of_nat (length arrays)) then Ok (<[Z.to_nat at_ := Some v]> arrays) else BadMem.

(** [vol->bv_vols[i]->bv_size]. *)
Definition sub_size (vols : list bl_volume) (arrays : list (option Z)) (at_ : Z) : res Z :=
  if at_ <? 0 then BadMem
  else
    match arrays !! Z.to_nat at_ with
    | Some (Some v) => match vols !! Z.to_nat v with Some vol => Ok (bv_size vol) | None => BadMem end
    | _ => BadMem
    end.

(** The references of volume [working]; [n] are left, the next goes to [at_]. *)
Fixpoint set_vol_array (n : nat) (working at_ : Z) (arrays : list (option Z)) (p : cstr) : res (list (option Z) * cstr) :=
  match n with
  | O => Ok (arrays, p)
  | S n =>
      _ ← readbuf 4 p;
      '(index, p) ← read32 p;
      let index := i32 index in
      if (index <? 0) || (working <=? index) then Err (- EIO)
      else arrays ← store arrays at_ index; set_vol_array n working (at_ + 1) arrays p
  end.

Fixpoint sum_subvolume_sizes (n : nat) (vols : list bl_volume) (arrays : list (option Z)) (at_ sum : Z) : res Z :=
  match n with
  | O => Ok sum
  | S n => size ← sub_size vols arrays at_; sum_subvolume_sizes n vols arrays (at_ + 1) (u64 (sum + size))
  end.

(** The loop over [j] from 1; [first] is the place of [bv_vols[0]]. *)
Fixpoint same_sizes (n : nat) (vols : list bl_volume) (arrays : list (option Z)) (first at_ : Z) : res unit :=
  match n with
  | O => Ok tt
  | S n =>
      size ← sub_size vols arrays at_;
      size0 ← sub_size vols arrays first;
      if size =? size0 then same_sizes n vols arrays first (at_ + 1) else Err (- EIO)
  end.

Section decode.
  (** [sysconf(_SC_PAGE_SIZE)], the disks, and [malloc]. *)
  Context (page_size : Z) (disks : list bl_disk) (malloc : Z -> bool).

(** The state: volumes, array and the bytes left; [arrays_ptr] is where the references
    of this volume begin.  The result has [*array_cnt] as well. *)
Definition decode_blk_volume (vols : list bl_volume) (arrays : list (option Z)) (voln arrays_ptr : Z) (p : cstr)
  : res (bl_volume * list (option Z) * Z * cstr) :=
  _ ← readbuf 4 p;
  '(type, p) ← read32 p;
  if type =? BLOCK_VOLUME_SIMPLE then
    '(sig, p) ← decode_blk_signature p;
    match map_sig_to_device disks sig with
    | None => Err (- ENXIO)
    | Some disk => Ok (Vol type (d_size disk) arrays_ptr 0 (d_dev disk), arrays, 0, p)
    end
  else if type =? BLOCK_VOLUME_SLICE then
    _ ← readbuf 16 p;
    '(offset, p) ← read_sector p;
    '(size, p) ← read_sector p;
    '(arrays, p) ← set_vol_array 1 voln arrays_ptr arrays p;
    Ok (Vol type size arrays_ptr 1 offset, arrays, 1, p)
  else if type =? BLOCK_VOLUME_STRIPE then
    _ ← readbuf 8 p;
    '(stripe_unit, p) ← read_sector p;
    if negb (Z.land stripe_unit (stripe_unit - 1) =? 0) || (stripe_unit <? Z.shiftr page_size 9) then Err (- EIO)
    else
      _ ← readbuf 4 p;
      '(vol_n, p) ← read32 p;
      let vol_n := i32 vol_n in
      if vol_n =? 0 then Err (- EIO)
      else
        '(arrays, p) ← set_vol_array (Z.to_nat vol_n) voln arrays_ptr arrays p;
        _ ← same_sizes (Z.to_nat (vol_n - 1)) vols arrays arrays_ptr (arrays_ptr + 1);
        size0 ← sub_size vols arrays arrays_ptr;
        Ok (Vol type (i64 (size0 * vol_n)) arrays_ptr vol_n stripe_unit, arrays, vol_n, p)
  else if type =? BLOCK_VOLUME_CONCAT then
    _ ← readbuf 4 p;
    '(vol_n, p) ← read32 p;
    let vol_n := i32 vol_n in
    if vol_n =? 0 then Err (- EIO)
    else
      '(arrays, p) ← set_vol_array (Z.to_nat vol_n) voln arrays_ptr arrays p;
      sum ← sum_subvolume_sizes (Z.to_nat vol_n) vols arrays arrays_ptr 0;
      Ok (Vol type (i64 sum) arrays_ptr vol_n 0, arrays, vol_n, p)
  else Err (- EIO).

(** The loop over the volumes: [n] are left. *)
Fixpoint decode_volumes (n : nat) (vols : list bl_volume) (arrays : list (option Z)) (arrays_ptr : Z) (p : cstr)
  : res (list bl_volume * list (option Z) * cstr) :=
  match n with
  | O => Ok (vols, arrays, p)
  | S n =>
      '(vol, arrays, count, p) ← decode_blk_volume vols arrays (Z.of_nat (length vols)) arrays_ptr p;
      decode_volumes n (vols ++ [vol]) arrays (arrays_ptr + count) p
  end.

(** What is given to [dm_device_create]. *)
Definition process_deviceinfo (dev_addr_buf : cstr) : res (list bl_volume * list (option Z)) :=
  _ ← readbuf 4 dev_addr_buf;
  '(num_vols, p) ← read32 dev_addr_buf;
  let num_vols := i32 num_vols in
  if num_vols <=? 0 then Err 0
  else if negb (malloc (num_vols * 40)) then Err 0
  else
    let size := u64 (i32 (num_vols * 2) * 8) in
    if negb (malloc size) then Err 0
    else
      '(vols, arrays, p) ← decode_volumes (Z.to_nat num_vols) [] (replicate (Z.to_nat (size / 8)) None) 0 p;
      if negb (streq p []) then Err 0 else Ok (vols, arrays).
End decode.

(** ** The message is not read behind its end *)

Definition in_msg {A} (r : res A) : Prop := r <> BadMsg.

Lemma in_msg_bind {A B} (m : res A) (f : A -> res B) : in_msg m -> (forall a, m = Ok a -> in_msg (f a)) -> in_msg (m ≫= f).
Proof. intros Hm Hf. destruct m; [by apply Hf|done..]. Qed.

Lemma readbuf_in_msg n p : in_msg (readbuf n p).
Proof. unfold readbuf. by case_if. Qed.

Lemma readbuf_Ok n p u : readbuf n p = Ok u -> n <= Z.of_nat (length p).
Proof.
  unfold readbuf, blk_overflow. rewrite Z.shiftr_div_pow2 by lia. change (2 ^ 2) with 4. pose proof (Z.div_mod (n + 3) 4 ltac:(lia)).
  pose proof (Z.mod_pos_bound (n + 3) 4 ltac:(lia)). destruct (Z.ltb_spec (Z.of_nat (length p)) (4 * ((n + 3) / 4))); [done|lia].
Qed.

Lemma read32_room p : (4 <= length p)%nat -> exists z r, read32 p = Ok (z, r) /\ length r = (length p - 4)%nat.
Proof. destruct p as [|a [|b [|c [|d p]]]]; cbn [length]; try lia. intros _. eexists _, p. split; [done|]. cbn [length]. lia. Qed.

Lemma read64_room p : (8 <= length p)%nat -> exists z r, read64 p = Ok (z, r) /\ length r = (length p - 8)%nat.
Proof.
  intros H. destruct (read32_room p ltac:(lia)) as (hi & r & E & Hl). destruct (read32_room r ltac:(lia)) as (lo & r' & E' & Hl').
  unfold read64. rewrite E. cbn. rewrite E'. cbn. eexists _, r'. split; [done|lia].
Qed.

Lemma read_sector_room p : (8 <= length p)%nat ->
  in_msg (read_sector p) /\ forall z r, read_sector p = Ok (z, r) -> length r = (length p - 8)%nat.
Proof.
  intros H. destruct (read64_room p H) as (z & r & E & Hl). unfold read_sector. rewrite E. cbn. case_if; [done|].
  split; [done|]. by intros ? ? [= <- <-].
Qed.

(** One step of a chain of reads. *)
Ltac step_msg :=
  match goal with
  | |- in_msg (mbind _ (readbuf ?n ?p)) =>
      let H := fresh "Hroom" in
      apply in_msg_bind; [apply readbuf_in_msg|intros [] H; apply readbuf_Ok in H]
  | |- in_msg (mbind _ (read32 ?p)) =>
      let z := fresh "z" in let r := fresh "r" in let E := fresh "E" in let Hl := fresh "Hl" in
      destruct (read32_room p ltac:(lia)) as (z & r & E & Hl); rewrite E; cbn [mbind res_bind]
  | |- in_msg (mbind _ (read64 ?p)) =>
      let z := fresh "z" in let r := fresh "r" in let E := fresh "E" in let Hl := fresh "Hl" in
      destruct (read64_room p ltac:(lia)) as (z & r & E & Hl); rewrite E; cbn [mbind res_bind]
  | |- in_msg (mbind _ (read_sector ?p)) =>
      let z := fresh "z" in let r := fresh "r" in let E := fresh "E" in let H := fresh "H" in let Hl := fresh "Hl" in
      destruct (read_sector_room p ltac:(lia)) as [H Hl]; apply in_msg_bind; [exact H|intros [z r] E; apply Hl in E]
  | |- in_msg (if _ then _ else _) => case_if
  | |- in_msg (mbind _ _) => apply in_msg_bind; [|intros]
  | |- in_msg (Ok _) => done
  | |- in_msg (Err _) => done
  end.

Lemma decode_comps_in_msg n p : in_msg (decode_comps n p).
Proof. revert p. induction n as [|n IH]; intros p; cbn [decode_comps]; [done|]. repeat step_msg; [apply IH|by case_match]. Qed.

Lemma set_vol_array_in_msg n w at_ arrays p : in_msg (set_vol_array n w at_ arrays p).
Proof.
  revert at_ arrays p. induction n as [|n IH]; intros at_ arrays p; cbn [set_vol_array]; [done|]. repeat step_msg; [|apply IH].
  unfold store. by case_if.
Qed.

Lemma sub_size_in_msg vols arrays at_ : in_msg (sub_size vols arrays at_).
Proof. unfold sub_size. case_if; [done|]. by repeat case_match. Qed.

Lemma sum_in_msg n vols arrays at_ sum : in_msg (sum_subvolume_sizes n vols arrays at_ sum).
Proof.
  revert at_ sum. induction n as [|n IH]; intros at_ sum; cbn [sum_subvolume_sizes]; [done|].
  apply in_msg_bind; [apply sub_size_in_msg|intros; apply IH].
Qed.

Lemma same_sizes_in_msg n vols arrays first at_ : in_msg (same_sizes n vols arrays first at_).
Proof.
  revert at_. induction n as [|n IH]; intros at_; cbn [same_sizes]; [done|].
  do 2 (apply in_msg_bind; [apply sub_size_in_msg|intros]). case_if; [apply IH|done].
Qed.

Lemma decode_blk_volume_in_msg ps disks vols arrays voln ptr p : in_msg (decode_blk_volume ps disks vols arrays voln ptr p).
Proof.
  unfold decode_blk_volume. repeat step_msg;
    first [apply set_vol_array_in_msg|apply same_sizes_in_msg|apply sub_size_in_msg|apply sum_in_msg|idtac];
    try (destruct a; repeat step_msg; first [done|apply same_sizes_in_msg|apply sub_size_in_msg|apply sum_in_msg]).
  - unfold decode_blk_signature. repeat step_msg. apply decode_comps_in_msg.
  - destruct a. by case_match.
Qed.

Lemma decode_volumes_in_msg ps disks n vols arrays ptr p : in_msg (decode_volumes ps disks n vols arrays ptr p).
Proof.
  revert vols arrays ptr p. induction n as [|n IH]; intros vols arrays ptr p; cbn [decode_volumes]; [done|].
  apply in_msg_bind; [apply decode_blk_volume_in_msg|]. intros [[[vol arrays'] count] p'] _. apply IH.
Qed.

(** C39. Whatever bytes a server sends, decoding its message never reads behind them. *)
Theorem blk_message_bounds ps disks malloc buf : process_deviceinfo ps disks malloc buf <> BadMsg.
Proof.
  change (in_msg (process_deviceinfo ps disks malloc buf)). unfold process_deviceinfo. do 5 step_msg; try done.
  apply in_msg_bind; [apply decode_volumes_in_msg|]. intros [[vols arrays] p] _. by case_if.
Qed.

(** ** What a message describes *)

Inductive volume :=
  | Simple (sig : list (Z * cstr))
  | Slice (offset size index : Z)
  | Concat (l : list Z)
  | Stripe (unit : Z) (l : list Z).

Definition refs (v : volume) : list Z :=
  match v with Simple _ => [] | Slice _ _ i => [i] | Concat l => l | Stripe _ l => l end.
(** Those of concatenations and stripes, which use up what they refer to. *)
Definition joined (v : volume) : list Z :=
  match v with Simple _ | Slice _ _ _ => [] | Concat l => l | Stripe _ l => l end.

(** XDR. *)
Definition be32 (z : Z) : cstr := [chr (z / 2 ^ 24); chr (z / 2 ^ 16 mod 256); chr (z / 2 ^ 8 mod 256); chr (z mod 256)].
Definition be64 (z : Z) : cstr := be32 (z / 2 ^ 32) ++ be32 (z mod 2 ^ 32).
Definition words (n : nat) : nat := (4 * ((n + 3) / 4))%nat.
Definition enc_comp (c : Z * cstr) : cstr :=
  be64 (u64 c.1) ++ be32 (Z.of_nat (length c.2)) ++ c.2 ++ replicate (words (length c.2) - length c.2) NUL.
Definition enc_list (l : list Z) : cstr := be32 (Z.of_nat (length l)) ++ concat (be32 <$> l).
Definition enc_vol (v : volume) : cstr :=
  match v with
  | Simple sig => be32 BLOCK_VOLUME_SIMPLE ++ be32 (Z.of_nat (length sig)) ++ concat (enc_comp <$> sig)
  | Slice offset size i => be32 BLOCK_VOLUME_SLICE ++ be64 (512 * offset) ++ be64 (512 * size) ++ be32 i
  | Concat l => be32 BLOCK_VOLUME_CONCAT ++ enc_list l
  | Stripe unit l => be32 BLOCK_VOLUME_STRIPE ++ be64 (512 * unit) ++ enc_list l
  end.
Definition encode (vs : list volume) : cstr := be32 (Z.of_nat (length vs)) ++ concat (enc_vol <$> vs).

(** The volumes that a description stands for. *)
Definition comps_of (sig : list (Z * cstr)) : list bl_sig_comp :=
  (fun c => Comp c.1 (Z.of_nat (length c.2)) c.2) <$> sig.

Definition size_of (vols : list bl_volume) (i : Z) : option Z := bv_size <$> vols !! Z.to_nat i.

Definition plan_vol (disks : list bl_disk) (vols : list bl_volume) (ptr : Z) (v : volume) : option bl_volume :=
  match v with
  | Simple sig => disk ← map_sig_to_device disks (comps_of sig); Some (Vol BLOCK_VOLUME_SIMPLE (d_size disk) ptr 0 (d_dev disk))
  | Slice offset size i => Some (Vol BLOCK_VOLUME_SLICE size ptr 1 offset)
  | Concat l => sizes ← mapM (size_of vols) l; Some (Vol BLOCK_VOLUME_CONCAT (foldr Z.add 0 sizes) ptr (Z.of_nat (length l)) 0)
  | Stripe unit l =>
      sizes ← mapM (size_of vols) l;
      s0 ← head sizes;
      if forallb (Z.eqb s0) sizes then Some (Vol BLOCK_VOLUME_STRIPE (s0 * Z.of_nat (length l)) ptr (Z.of_nat (length l)) unit) else None
  end.

Fixpoint plan (disks : list bl_disk) (vols : list bl_volume) (ptr : Z) (vs : list volume) : option (list bl_volume) :=
  match vs with
  | [] => Some vols
  | v :: vs => vol ← plan_vol disks vols ptr v; plan disks (vols ++ [vol]) (ptr + Z.of_nat (length (refs v))) vs
  end.

(** Volume number [k] follows the protocol: it refers to earlier volumes. *)
Definition vol_ok (page_size k : Z) (v : volume) : Prop :=
  Forall (fun r => 0 <= r < k) (refs v) /\
  match v with
  | Simple sig => (0 < length sig < 16)%nat /\ Forall (fun c => - 2 ^ 63 <= c.1 < 2 ^ 63 /\ Z.of_nat (length c.2) < 2 ^ 31) sig
  | Slice offset size _ => 0 <= offset < 2 ^ 55 /\ 0 <= size < 2 ^ 55
  | Concat l => l <> [] /\ Z.of_nat (length l) < 2 ^ 31
  | Stripe unit l => l <> [] /\ Z.of_nat (length l) < 2 ^ 31 /\ 0 <= unit < 2 ^ 55 /\ Z.land unit (unit - 1) = 0 /\ Z.shiftr page_size 9 <= unit
  end.

(** ** Reading what was written *)

Lemma read32_be32 z p : 0 <= z < 2 ^ 32 -> read32 (be32 z ++ p) = Ok (z, p).
Proof.
  intros Hz. unfold be32. cbn [app read32]. f_equal. f_equal.
  rewrite !uchar_chr by (Z.to_euclidean_division_equations; lia). Z.to_euclidean_division_equations. lia.
Qed.

Lemma read64_be64 z p : 0 <= z < 2 ^ 64 -> read64 (be64 z ++ p) = Ok (z, p).
Proof.
  intros Hz. unfold be64, read64. rewrite <- app_assoc, read32_be32 by (Z.to_euclidean_division_equations; lia).
  cbn [mbind res_bind]. rewrite read32_be32 by (Z.to_euclidean_division_equations; lia). cbn [mbind res_bind]. f_equal. f_equal. pose proof (Z.div_mod z (2 ^ 32)). lia.
Qed.

Lemma read_sector_be64 z p : 0 <= z < 2 ^ 55 -> read_sector (be64 (512 * z) ++ p) = Ok (z, p).
Proof.
  intros Hz. unfold read_sector. rewrite read64_be64 by lia. cbn [mbind res_bind].
  change 511 with (Z.ones 9). rewrite Z.land_ones, Z.mul_comm, Z.mod_mul by lia. cbn.
  rewrite Z.shiftr_div_pow2, Z.div_mul by lia. done.
Qed.

Lemma readbuf_room n p : 0 <= n -> 4 * ((n + 3) / 4) <= Z.of_nat (length p) -> readbuf n p = Ok tt.
Proof.
  intros Hn H. unfold readbuf, blk_overflow. rewrite Z.shiftr_div_pow2 by lia. change (2 ^ 2) with 4. by rewrite (proj2 (Z.ltb_ge _ _)) by lia.
Qed.

Lemma length_be32 z : length (be32 z) = 4%nat.
Proof. done. Qed.
Lemma length_be64 z : length (be64 z) = 8%nat.
Proof. done. Qed.

Lemma readbuf_be32 z p : readbuf 4 (be32 z ++ p) = Ok tt.
Proof. apply readbuf_room; [lia|]. rewrite length_app, length_be32. change ((4 + 3) / 4) with 1. lia. Qed.

Lemma words_Z n : Z.of_nat (words n) = 4 * ((Z.of_nat n + 3) / 4).
Proof. unfold words. rewrite Nat2Z.inj_mul, Nat2Z.inj_div. f_equal. f_equal. lia. Qed.

Lemma words_ge n : (n <= words n)%nat.
Proof. apply Nat2Z.inj_le. rewrite words_Z. Z.to_euclidean_division_equations. lia. Qed.

Lemma i64_u64 z : - 2 ^ 63 <= z < 2 ^ 63 -> i64 (u64 z) = z.
Proof.
  intros Hz. unfold i64, u64. rewrite Zplus_mod_idemp_l, Z.mod_small by lia. lia.
Qed.

Lemma i64_small z : 0 <= z < 2 ^ 63 -> i64 z = z.
Proof. intros Hz. unfold i64. rewrite Z.mod_small; lia. Qed.

Lemma enc_comp_eq off s :
  enc_comp (off, s) = be64 (u64 off) ++ be32 (Z.of_nat (length s)) ++ s ++ replicate (words (length s) - length s) NUL.
Proof. done. Qed.

Lemma decode_comps_enc sig p :
  Forall (fun c => - 2 ^ 63 <= c.1 < 2 ^ 63 /\ Z.of_nat (length c.2) < 2 ^ 31) sig ->
  decode_comps (length sig) (concat (enc_comp <$> sig) ++ p) = Ok (comps_of sig, p).
Proof.
  induction 1 as [|[off s] sig [Hoff Hs] _ IH]; [done|]. cbn [fst snd] in *. cbn [length fmap list_fmap concat decode_comps].
  rewrite enc_comp_eq, <- !app_assoc.
  rewrite (readbuf_room 12) by (rewrite ?length_app, ?length_be64, ?length_be32; change ((12 + 3) / 4) with 3; lia).
  cbn [mbind res_bind]. rewrite read64_be64 by (unfold u64; apply Z.mod_pos_bound; lia). cbn [mbind res_bind].
  rewrite read32_be32 by lia. cbn [mbind res_bind]. pose proof (words_ge (length s)) as Hw. pose proof (words_Z (length s)) as HwZ.
  rewrite readbuf_room by (rewrite ?length_app, ?length_replicate; lia). cbn [mbind res_bind].
  rewrite Nat2Z.id, take_app_length, i64_u64 by done.
  replace (Z.to_nat (4 * Z.shiftr (u32 (Z.of_nat (length s) + 3)) 2)) with (length (s ++ replicate (words (length s) - length s) NUL)).
  2: { rewrite u32_id, Z.shiftr_div_pow2 by lia. change (2 ^ 2) with 4. rewrite length_app, length_replicate. lia. }
  rewrite (app_assoc s), drop_app_length, IH. done.
Qed.

Lemma set_vol_array_enc w l a b p :
  Forall (fun r => 0 <= r < w) l -> w < 2 ^ 31 -> (length l <= length b)%nat ->
  set_vol_array (length l) w (Z.of_nat (length a)) (a ++ b) (concat (be32 <$> l) ++ p) =
  Ok (a ++ (Some <$> l) ++ drop (length l) b, p).
Proof.
  intros Hl Hw. revert a b. induction Hl as [|r l Hr _ IH]; intros a b Hb; [done|]. destruct b as [|x b]; [cbn [length] in Hb; lia|].
  cbn [length fmap list_fmap concat set_vol_array] in *. rewrite <- app_assoc, readbuf_be32. cbn [mbind res_bind].
  rewrite read32_be32 by lia. cbn [mbind res_bind]. rewrite i32_id by (unfold INT_MIN, INT_MAX; lia).
  rewrite (proj2 (Z.ltb_ge _ _)), (proj2 (Z.leb_gt _ _)) by lia. cbn [orb]. unfold store.
  rewrite (proj2 (Z.leb_le _ _)), (proj2 (Z.ltb_lt _ _)) by (rewrite ?length_app; cbn [length]; lia). cbn [andb mbind res_bind].
  rewrite Nat2Z.id, <- (Nat.add_0_r (length a)), insert_app_r. cbn [insert list_insert]. rewrite Nat.add_0_r.
  rewrite cons_middle, app_assoc. replace (Z.of_nat (length a) + 1) with (Z.of_nat (length (a ++ [Some r]))) by (rewrite length_app; cbn [length]; lia).
  rewrite IH by lia. by rewrite <- app_assoc.
Qed.

Lemma sub_size_at vols a r s c : 0 <= r -> size_of vols r = Some s -> sub_size vols (a ++ Some r :: c) (Z.of_nat (length a)) = Ok s.
Proof.
  intros Hr Hs. unfold sub_size. rewrite (proj2 (Z.ltb_ge _ _)), Nat2Z.id, list_lookup_middle by lia.
  unfold size_of in Hs. destruct (vols !! Z.to_nat r); [|done]. by injection Hs as ->.
Qed.

Lemma length_snoc_Z {A} (a : list A) x : Z.of_nat (length a) + 1 = Z.of_nat (length (a ++ [x])).
Proof. rewrite length_app. cbn [length]. lia. Qed.

Lemma sum_enc vols l sizes a b acc :
  Forall (fun r => 0 <= r) l -> mapM (size_of vols) l = Some sizes -> Forall (fun s => 0 <= s) sizes ->
  0 <= acc -> acc + foldr Z.add 0 sizes < 2 ^ 63 ->
  sum_subvolume_sizes (length l) vols (a ++ (Some <$> l) ++ b) (Z.of_nat (length a)) acc = Ok (acc + foldr Z.add 0 sizes).
Proof.
  intros Hl E%mapM_Some. revert a acc Hl. induction E as [|r s l sizes Hrs _ IH]; intros a acc Hl Hs Hacc Hsum.
  { cbn. by rewrite Z.add_0_r. }
  apply Forall_cons in Hl as [Hr Hl]. apply Forall_cons in Hs as [Hs0 Hs]. cbn [length fmap list_fmap foldr sum_subvolume_sizes app] in *.
  rewrite (sub_size_at _ _ _ _ _ Hr Hrs). cbn [mbind res_bind].
  assert (0 <= foldr Z.add 0 sizes) by (clear -Hs; induction Hs; cbn; lia).
  replace (u64 (acc + s)) with (acc + s) by (unfold u64; rewrite Z.mod_small; lia).
  rewrite (length_snoc_Z a (Some r)), cons_middle, app_assoc, IH by (done || lia). f_equal. lia.
Qed.

Lemma same_sizes_enc vols l sizes s0 first a b :
  Forall (fun r => 0 <= r) l -> mapM (size_of vols) l = Some sizes -> forallb (Z.eqb s0) sizes = true ->
  sub_size vols (a ++ (Some <$> l) ++ b) first = Ok s0 ->
  same_sizes (length l) vols (a ++ (Some <$> l) ++ b) first (Z.of_nat (length a)) = Ok tt.
Proof.
  intros Hl E%mapM_Some. revert a Hl. induction E as [|r s l sizes Hrs _ IH]; intros a Hl He Hf; [done|].
  apply Forall_cons in Hl as [Hr Hl]. cbn [forallb] in He. apply andb_true_iff in He as [->%Z.eqb_eq He].
  cbn [length fmap list_fmap same_sizes app] in *. rewrite (sub_size_at _ _ _ _ _ Hr Hrs). cbn [mbind res_bind]. rewrite Hf.
  cbn [mbind res_bind]. rewrite Z.eqb_refl. rewrite cons_middle, app_assoc in *. rewrite (length_snoc_Z a (Some r)). by apply IH.
Qed.

(** ** A message that follows the protocol *)

Definition fits (vols : list bl_volume) : Prop := Forall (fun v => 0 <= bv_size v < 2 ^ 63) vols.

Lemma size_of_fits vols l sizes : fits vols -> mapM (size_of vols) l = Some sizes -> Forall (fun s => 0 <= s) sizes.
Proof.
  intros Hf E%mapM_Some. induction E as [|r s l sizes Hrs _ IH]; [done|]. constructor; [|done]. unfold size_of in Hrs.
  destruct (vols !! Z.to_nat r) as [v|] eqn:Ev; [|done]. injection Hrs as <-. by apply (proj1 (Forall_lookup _ _) Hf _ _ Ev).
Qed.

Lemma decode_list_enc w l a b p :
  Forall (fun r => 0 <= r < w) l -> w < 2 ^ 31 -> (length l <= length b)%nat -> Z.of_nat (length l) < 2 ^ 31 ->
  readbuf 4 (enc_list l ++ p) = Ok tt /\ read32 (enc_list l ++ p) = Ok (Z.of_nat (length l), concat (be32 <$> l) ++ p) /\
  i32 (Z.of_nat (length l)) = Z.of_nat (length l) /\
  set_vol_array (Z.to_nat (Z.of_nat (length l))) w (Z.of_nat (length a)) (a ++ b) (concat (be32 <$> l) ++ p) =
    Ok (a ++ (Some <$> l) ++ drop (length l) b, p).
Proof.
  intros Hr Hw Hb Hl. unfold enc_list. rewrite <- app_assoc. split_and!.
  - apply readbuf_be32.
  - apply read32_be32. lia.
  - apply i32_id. unfold INT_MIN, INT_MAX. lia.
  - rewrite Nat2Z.id. by apply set_vol_array_enc.
Qed.

Lemma nonneg_refs (k : Z) l : Forall (fun r => 0 <= r < k) l -> Forall (fun r => 0 <= r) l.
Proof. intros H. eapply Forall_impl; [exact H|]. cbn. lia. Qed.

Lemma decode_simple_enc ps disks vols a b sig p vol :
  vol_ok ps (Z.of_nat (length vols)) (Simple sig) -> plan_vol disks vols (Z.of_nat (length a)) (Simple sig) = Some vol ->
  decode_blk_volume ps disks vols (a ++ b) (Z.of_nat (length vols)) (Z.of_nat (length a)) (enc_vol (Simple sig) ++ p) =
  Ok (vol, a ++ b, 0, p).
Proof.
  intros [_ [Hn Hs]] E. unfold decode_blk_volume. cbn [enc_vol]. rewrite <- !app_assoc, readbuf_be32. cbn [mbind res_bind].
  rewrite read32_be32 by done. cbn [mbind res_bind]. change (BLOCK_VOLUME_SIMPLE =? BLOCK_VOLUME_SIMPLE) with true. cbv iota.
  unfold decode_blk_signature. rewrite readbuf_be32. cbn [mbind res_bind]. rewrite read32_be32 by lia. cbn [mbind res_bind].
  rewrite i32_id by (unfold INT_MIN, INT_MAX; lia). rewrite (proj2 (Z.eqb_neq _ _)), (proj2 (Z.leb_gt _ _)) by (unfold BLOCK_MAX_SIG_COMP; lia).
  rewrite Nat2Z.id, decode_comps_enc by done. cbn [mbind res_bind]. cbn [plan_vol] in E.
  destruct (map_sig_to_device disks (comps_of sig)); [|done]. by injection E as <-.
Qed.

Lemma decode_slice_enc ps disks vols a b off size i p :
  vol_ok ps (Z.of_nat (length vols)) (Slice off size i) -> Z.of_nat (length vols) < 2 ^ 31 -> (1 <= length b)%nat ->
  decode_blk_volume ps disks vols (a ++ b) (Z.of_nat (length vols)) (Z.of_nat (length a)) (enc_vol (Slice off size i) ++ p) =
  Ok (Vol BLOCK_VOLUME_SLICE size (Z.of_nat (length a)) 1 off, a ++ [Some i] ++ drop 1 b, 1, p).
Proof.
  intros [Hr [Ho Hz]] Hk Hb. unfold decode_blk_volume. cbn [enc_vol]. rewrite <- !app_assoc, readbuf_be32. cbn [mbind res_bind].
  rewrite read32_be32 by done. cbn [mbind res_bind]. change (BLOCK_VOLUME_SLICE =? BLOCK_VOLUME_SIMPLE) with false.
  change (BLOCK_VOLUME_SLICE =? BLOCK_VOLUME_SLICE) with true. cbv iota.
  rewrite (readbuf_room 16) by (rewrite ?length_app, ?length_be64; change ((16 + 3) / 4) with 4; lia). cbn [mbind res_bind].
  rewrite read_sector_be64 by done. cbn [mbind res_bind]. rewrite read_sector_be64 by done. cbn [mbind res_bind].
  pose proof (set_vol_array_enc (Z.of_nat (length vols)) [i] a b p Hr Hk Hb) as E. cbn [fmap list_fmap concat length] in E.
  rewrite app_nil_r in E. by rewrite E.
Qed.

Lemma decode_concat_enc ps disks vols a b l p vol :
  vol_ok ps (Z.of_nat (length vols)) (Concat l) -> Z.of_nat (length vols) < 2 ^ 31 -> (length l <= length b)%nat -> fits vols ->
  plan_vol disks vols (Z.of_nat (length a)) (Concat l) = Some vol -> bv_size vol < 2 ^ 63 ->
  decode_blk_volume ps disks vols (a ++ b) (Z.of_nat (length vols)) (Z.of_nat (length a)) (enc_vol (Concat l) ++ p) =
  Ok (vol, a ++ (Some <$> l) ++ drop (length l) b, Z.of_nat (length l), p).
Proof.
  intros [Hr [Hne Hl]] Hk Hb Hf E Hsz. unfold decode_blk_volume. cbn [enc_vol]. rewrite <- !app_assoc, readbuf_be32. cbn [mbind res_bind].
  rewrite read32_be32 by done. cbn [mbind res_bind]. change (BLOCK_VOLUME_CONCAT =? BLOCK_VOLUME_SIMPLE) with false.
  change (BLOCK_VOLUME_CONCAT =? BLOCK_VOLUME_SLICE) with false. change (BLOCK_VOLUME_CONCAT =? BLOCK_VOLUME_STRIPE) with false.
  change (BLOCK_VOLUME_CONCAT =? BLOCK_VOLUME_CONCAT) with true. cbv iota.
  destruct (decode_list_enc (Z.of_nat (length vols)) l a b p Hr Hk Hb Hl) as (E1 & E2 & E3 & E4).
  rewrite E1. cbn [mbind res_bind]. rewrite E2. cbn [mbind res_bind]. rewrite E3.
  rewrite (proj2 (Z.eqb_neq _ _)) by (destruct l; [done|cbn [length]; lia]). rewrite E4. cbn [mbind res_bind].
  cbn [plan_vol] in E. destruct (mapM (size_of vols) l) as [sizes|] eqn:Em; [|done]. cbn [mbind option_bind] in E. injection E as <-. cbn [bv_size] in Hsz.
  pose proof (size_of_fits _ _ _ Hf Em) as Hpos. assert (0 <= foldr Z.add 0 sizes) by (clear -Hpos; induction Hpos; cbn; lia).
  rewrite Nat2Z.id, (sum_enc _ _ sizes) by (eauto using nonneg_refs || lia). cbn [mbind res_bind]. by rewrite Z.add_0_l, i64_small by lia.
Qed.

Lemma decode_stripe_enc ps disks vols a b unit l p vol :
  vol_ok ps (Z.of_nat (length vols)) (Stripe unit l) -> Z.of_nat (length vols) < 2 ^ 31 -> (length l <= length b)%nat ->
  plan_vol disks vols (Z.of_nat (length a)) (Stripe unit l) = Some vol -> 0 <= bv_size vol < 2 ^ 63 ->
  decode_blk_volume ps disks vols (a ++ b) (Z.of_nat (length vols)) (Z.of_nat (length a)) (enc_vol (Stripe unit l) ++ p) =
  Ok (vol, a ++ (Some <$> l) ++ drop (length l) b, Z.of_nat (length l), p).
Proof.
  intros [Hr (Hne & Hl & Hu & Hp2 & Hpage)] Hk Hb E Hsz. unfold decode_blk_volume. cbn [enc_vol]. rewrite <- !app_assoc, readbuf_be32. cbn [mbind res_bind].
  rewrite read32_be32 by done. cbn [mbind res_bind]. change (BLOCK_VOLUME_STRIPE =? BLOCK_VOLUME_SIMPLE) with false.
  change (BLOCK_VOLUME_STRIPE =? BLOCK_VOLUME_SLICE) with false. change (BLOCK_VOLUME_STRIPE =? BLOCK_VOLUME_STRIPE) with true. cbv iota.
  rewrite (readbuf_room 8) by (rewrite ?length_app, ?length_be64; change ((8 + 3) / 4) with 2; lia). cbn [mbind res_bind].
  rewrite read_sector_be64 by done. cbn [mbind res_bind]. rewrite Hp2, (proj2 (Z.ltb_ge _ _)) by done. cbn [Z.eqb negb orb]. cbv iota.
  destruct (decode_list_enc (Z.of_nat (length vols)) l a b p Hr Hk Hb Hl) as (E1 & E2 & E3 & E4).
  rewrite E1. cbn [mbind res_bind]. rewrite E2. cbn [mbind res_bind]. rewrite E3.
  rewrite (proj2 (Z.eqb_neq _ _)) by (destruct l; [done|cbn [length]; lia]). rewrite E4. cbn [mbind res_bind].
  cbn [plan_vol] in E. destruct (mapM (size_of vols) l) as [sizes|] eqn:Em; [|done]. cbn [mbind option_bind] in E.
  destruct sizes as [|s0 sizes]; [done|]. cbn [head mbind option_bind] in E. destruct (forallb (Z.eqb s0) (s0 :: sizes)) eqn:He; [|done].
  injection E as <-. cbn [bv_size] in Hsz. destruct l as [|r l]; [done|]. cbn [mapM] in Em.
  apply nonneg_refs, Forall_cons in Hr as [Hr0 Hrl].
  destruct (size_of vols r) as [s|] eqn:Es; [|done]. cbn [mbind option_bind] in Em.
  destruct (mapM (size_of vols) l) as [sizes'|] eqn:Em'; [|done]. cbn [mbind option_bind] in Em. injection Em as -> ->.
  cbn [forallb] in He. apply andb_true_iff in He as [_ He].
  assert (sub_size vols (a ++ (Some <$> r :: l) ++ drop (length (r :: l)) b) (Z.of_nat (length a)) = Ok s0) as Hs0 by by apply sub_size_at.
  replace (Z.to_nat (Z.of_nat (length (r :: l)) - 1)) with (length l) by (cbn [length]; lia).
  rewrite (length_snoc_Z a (Some r)). cbn [fmap list_fmap app] in *. rewrite cons_middle, app_assoc in *.
  rewrite (same_sizes_enc vols l sizes s0 _ (a ++ [Some r])) by done. cbn [mbind res_bind].
  rewrite Hs0. cbn [mbind res_bind]. by rewrite i64_small by done.
Qed.

Lemma decode_volume_enc ps disks vols a b v p vol :
  vol_ok ps (Z.of_nat (length vols)) v -> Z.of_nat (length vols) < 2 ^ 31 -> (length (refs v) <= length b)%nat -> fits vols ->
  plan_vol disks vols (Z.of_nat (length a)) v = Some vol -> 0 <= bv_size vol < 2 ^ 63 ->
  decode_blk_volume ps disks vols (a ++ b) (Z.of_nat (length vols)) (Z.of_nat (length a)) (enc_vol v ++ p) =
  Ok (vol, a ++ (Some <$> refs v) ++ drop (length (refs v)) b, Z.of_nat (length (refs v)), p).
Proof.
  intros Hok Hk Hb Hf E Hsz. destruct v as [sig|off size i|l|unit l]; cbn [refs] in *.
  - by apply decode_simple_enc.
  - injection E as <-. by apply decode_slice_enc.
  - apply decode_concat_enc; try done. apply Hsz.
  - by apply decode_stripe_enc.
Qed.

Lemma plan_prefix disks vols ptr vs vols' : plan disks vols ptr vs = Some vols' -> exists more, vols' = vols ++ more.
Proof.
  revert vols ptr. induction vs as [|v vs IH]; intros vols ptr; cbn [plan].
  - intros [= <-]. exists []. by rewrite app_nil_r.
  - destruct (plan_vol disks vols ptr v) as [vol|]; [|done]. cbn [mbind option_bind]. intros [more ->]%IH.
    rewrite <- app_assoc. by eexists.
Qed.

(** All references, in the order of the array. *)
Definition all_refs (vs : list volume) : list Z := concat (refs <$> vs).

Definition protocol (page_size : Z) (k : nat) (vs : list volume) : Prop :=
  forall i v, vs !! i = Some v -> vol_ok page_size (Z.of_nat (k + i)) v.

Lemma decode_volumes_enc ps disks vs vols a b p vols' :
  protocol ps (length vols) vs -> Z.of_nat (length vols + length vs) < 2 ^ 31 -> (length (all_refs vs) <= length b)%nat ->
  plan disks vols (Z.of_nat (length a)) vs = Some vols' -> fits vols' ->
  decode_volumes ps disks (length vs) vols (a ++ b) (Z.of_nat (length a)) (concat (enc_vol <$> vs) ++ p) =
  Ok (vols', a ++ (Some <$> all_refs vs) ++ drop (length (all_refs vs)) b, p).
Proof.
  revert vols a b. induction vs as [|v vs IH]; intros vols a b Hp Hk Hb E Hf; cbn [plan length fmap list_fmap concat decode_volumes] in *.
  { by injection E as <-. }
  unfold all_refs in *. cbn [fmap list_fmap concat] in *. rewrite length_app in Hb.
  destruct (plan_vol disks vols (Z.of_nat (length a)) v) as [vol|] eqn:Ev; [|done]. cbn [mbind option_bind] in E.
  destruct (plan_prefix _ _ _ _ _ E) as [more Em]. assert (fits (vols ++ [vol])) as [Hfv Hfvol]%Forall_app by (rewrite Em in Hf; by apply Forall_app in Hf as [? _]).
  apply Forall_cons in Hfvol as [Hsz _]. pose proof (Hp 0%nat v eq_refl) as Hok. rewrite Nat.add_0_r in Hok.
  rewrite <- app_assoc, (decode_volume_enc _ _ _ _ _ _ _ vol) by (done || lia). cbn [mbind res_bind].
  replace (Z.of_nat (length a) + Z.of_nat (length (refs v))) with (Z.of_nat (length (a ++ (Some <$> refs v)))) in * by (rewrite length_app, length_fmap; lia).
  rewrite app_assoc, IH; [|..|done|done].
  - rewrite drop_drop, fmap_app, <- !app_assoc, length_app. done.
  - intros i v' Hi. rewrite length_app. cbn [length]. replace (length vols + 1 + i)%nat with (length vols + S i)%nat by lia. by apply Hp.
  - rewrite length_app. cbn [length]. lia.
  - rewrite length_drop. lia.
Qed.

(** The comment above the allocation: slices have one reference each, and what
    concatenations and stripes refer to is referred to once, so that twice the number
    of volumes is enough. *)
Lemma refs_split vs : (length (all_refs vs) <= length vs + length (concat (joined <$> vs)))%nat.
Proof.
  unfold all_refs. induction vs as [|v vs IH]; [done|]. cbn [fmap list_fmap concat length]. rewrite !length_app.
  destruct v; cbn [refs joined length]; lia.
Qed.

Lemma joined_bound ps k vs : protocol ps k vs -> Forall (fun r => 0 <= r < Z.of_nat (k + length vs)) (concat (joined <$> vs)).
Proof.
  revert k. induction vs as [|v vs IH]; intros k Hp; [constructor|]. cbn [fmap list_fmap concat length]. apply Forall_app. split.
  - destruct (Hp 0%nat v eq_refl) as [Hr _]. rewrite Nat.add_0_r in Hr.
    assert (Forall (fun r => 0 <= r < Z.of_nat k) (joined v)) as H by by destruct v.
    eapply Forall_impl; [exact H|]. cbn. lia.
  - replace (k + S (length vs))%nat with (S k + length vs)%nat by lia. apply IH. intros i v' Hi.
    replace (S k + i)%nat with (k + S i)%nat by lia. by apply Hp.
Qed.

Lemma NoDup_range (l : list Z) n : NoDup l -> Forall (fun r => 0 <= r < Z.of_nat n) l -> (length l <= n)%nat.
Proof.
  intros Hd Hr.
  assert (l ⊆+ seqZ 0 (Z.of_nat n)) as H.
  { apply NoDup_submseteq; [done|]. intros x Hx. apply elem_of_seqZ. pose proof (proj1 (Forall_forall _ _) Hr x Hx) as Hx0. cbn in Hx0. lia. }
  apply submseteq_length in H. rewrite length_seqZ in H. lia.
Qed.

Lemma refs_fit ps vs : protocol ps 0 vs -> NoDup (concat (joined <$> vs)) -> (length (all_refs vs) <= 2 * length vs)%nat.
Proof. intros Hp Hd. pose proof (refs_split vs). pose proof (NoDup_range _ _ Hd (joined_bound ps 0 vs Hp)). lia. Qed.

(** C17. A message that follows the protocol, each volume referring to earlier ones and
    none being part of two concatenations or stripes, is decoded to the volumes that
    it describes, with their sizes computed from their parts; the references of all
    volumes fit the array of twice as many cells as there are volumes. *)
Theorem blk_decode_encode ps disks malloc vs vols :
  (0 < length vs)%nat -> Z.of_nat (length vs) < 2 ^ 30 -> protocol ps 0 vs -> NoDup (concat (joined <$> vs)) ->
  plan disks [] 0 vs = Some vols -> fits vols ->
  malloc (Z.of_nat (length vs) * 40) = true -> malloc (Z.of_nat (length vs) * 16) = true ->
  process_deviceinfo ps disks malloc (encode vs) =
  Ok (vols, (Some <$> all_refs vs) ++ replicate (2 * length vs - length (all_refs vs)) None).
Proof.
  intros Hn0 Hn Hp Hd E Hf Hm1 Hm2. unfold process_deviceinfo, encode. rewrite readbuf_be32. cbn [mbind res_bind].
  rewrite read32_be32 by lia. cbn [mbind res_bind]. rewrite i32_id by (unfold INT_MIN, INT_MAX; lia).
  rewrite (proj2 (Z.leb_gt _ _)), Hm1 by lia. cbn [negb]. rewrite i32_id by (unfold INT_MIN, INT_MAX; lia).
  replace (u64 (Z.of_nat (length vs) * 2 * 8)) with (Z.of_nat (length vs) * 16) by (unfold u64; rewrite Z.mod_small; lia).
  rewrite Hm2. cbn [negb]. replace (Z.to_nat (Z.of_nat (length vs) * 16 / 8)) with (2 * length vs)%nat
    by (replace (Z.of_nat (length vs) * 16) with (Z.of_nat (2 * length vs) * 8) by lia; rewrite Z.div_mul by lia; lia).
  rewrite Nat2Z.id. pose proof (refs_fit ps vs Hp Hd) as Hfit.
  pose proof (decode_volumes_enc ps disks vs [] [] (replicate (2 * length vs) None) [] vols) as Hdec.
  rewrite app_nil_r in Hdec. cbn [app length] in Hdec. change (Z.of_nat 0) with 0 in Hdec. rewrite Hdec by (rewrite ?length_replicate; done || lia).
  cbn [mbind res_bind]. by rewrite drop_replicate.
Qed.

(** Two disks, the first of which carries the label A at its start. *)
Definition disks_ex : list bl_disk :=
  [Disk 2049 1000 true (fun off len => Some (replicate (Z.to_nat len) "A"%char));
   Disk 2065 1000 true (fun off len => Some (replicate (Z.to_nat len) "B"%char))].
Definition volumes_ex : list volume :=
  [Simple [(0, $"AAAAA")]; Simple [(-512, $"BB")]; Slice 8 600 0; Slice 0 600 1; Stripe 64 [2; 3]].
Definition planned_ex : list bl_volume :=
  [Vol 0 1000 0 0 2049; Vol 0 1000 0 0 2065; Vol 1 600 0 1 8; Vol 1 600 1 1 0; Vol 3 1200 2 2 64].

Lemma volumes_ex_protocol : protocol 4096 0 volumes_ex.
Proof.
  intros [|[|[|[|[|i]]]]] v; cbn [volumes_ex lookup list_lookup]; try done; intros [= <-]; split;
    try (repeat constructor; cbn; lia); cbn; split_and!; (done || lia).
Qed.

Lemma blk_decode_encode_witness :
  process_deviceinfo 4096 disks_ex (fun _ => true) (encode volumes_ex) =
  Ok (planned_ex, [Some 0; Some 1; Some 2; Some 3; None; None; None; None; None; None]).
Proof.
  refine (blk_decode_encode 4096 disks_ex (fun _ => true) volumes_ex planned_ex _ _ volumes_ex_protocol _ _ _ _ _); try done.
  - cbn. lia.
  - apply (bool_decide_unpack _). by vm_compute.
  - repeat constructor; cbn; lia.
Defined.

(** ** Other messages *)

(** A number of components above 2^31 is a negative [int]: it passes both tests, and
    a signature without components matches the first disk that can be opened. *)
Theorem blk_negative_components :
  process_deviceinfo 4096 disks_ex (fun _ => true) (be32 1 ++ be32 BLOCK_VOLUME_SIMPLE ++ be32 (2 ^ 31)) =
  Ok ([Vol 0 1000 0 0 2049], [None; None]).
Proof. by vm_compute. Qed.

(** So does a number of parts: the next volume's references begin before the array. *)
Theorem blk_negative_parts :
  process_deviceinfo 4096 disks_ex (fun _ => true)
    (be32 3 ++ enc_vol (Simple [(0, $"A")]) ++ be32 BLOCK_VOLUME_CONCAT ++ be32 (2 ^ 32 - 1) ++ enc_vol (Slice 0 8 0)) = BadMem.
Proof. by vm_compute. Qed.

(** A volume that is part of a concatenation more than once: nothing bounds the
    references, and they are written behind the array. *)
Theorem blk_array_overflow :
  process_deviceinfo 4096 disks_ex (fun _ => true) (encode [Simple [(0, $"A")]; Concat [0; 0; 0; 0; 0]]) = BadMem.
Proof. by vm_compute. Qed.
