(* ===== verification/Systemd.v ===== *)
(** * Names of systemd units (systemd/systemd.c)

    The generators of nfs-utils name a mount unit after its path.  [systemd_escape]
    writes the name into memory whose size [systemd_len] has counted, in an [int].

    Theorems: for paths of less than half a gigabyte the count does not overflow
    and the name fits; it determines the path, up to slashes that do not
    matter, so that two mount points never share a unit. *)

From S2P Require Import Prelude.

Definition is_slash (c : ascii) : bool := ceqb c "/".

(** The characters that are not replaced. *)
Definition keeps (c : ascii) : bool :=
  isdigit c || isupper c || islower c || ceqb c ":" || ceqb c "." || ceqb c "_".

(** The loop of [systemd_len]; each turn consumes a byte, and [len] is an [int]. *)
Fixpoint len_loop (fuel : nat) (p : cstr) (len : Z) : Z :=
  match fuel, p with
  | S fuel, c :: p =>
      if is_slash c then
        let p := skip_while is_slash p in
        len_loop fuel p (match p with [] => len | _ => i32 (len + 1) end)
      else len_loop fuel p (i32 (if keeps c then len + 1 else len + 4))
  | _, _ => len
  end.

Definition systemd_len (path : cstr) : Z :=
  let p := skip_while is_slash path in
  match p with
  | [] => 1
  | c :: _ => len_loop (length p) p (if ceqb c "." then 4 else 0)
  end.

Definition hexdigit (n : Z) : ascii := nth (Z.to_nat n) $"0123456789abcdef" NUL.

Definition hexify (c : ascii) : cstr := BSLASH :: "x"%char :: [hexdigit (Z.shiftr (uchar c) 4); hexdigit (Z.land (uchar c) 15)].

(** What the loop of [systemd_escape] writes. *)
Fixpoint escape_loop (fuel : nat) (path : cstr) : cstr :=
  match fuel, path with
  | S fuel, c :: path =>
      if is_slash c then
        let path := skip_while is_slash path in
        match path with [] => [] | _ => ["-"%char] end ++ escape_loop fuel path
      else (if keeps c then [c] else hexify c) ++ escape_loop fuel path
  | _, _ => []
  end.

Definition escape_path (path : cstr) : cstr :=
  match skip_while is_slash path with
  | [] => $"-"
  | c :: path =>
      if ceqb c "." then hexify c ++ escape_loop (length path) path
      else escape_loop (S (length path)) (c :: path)
  end.

(** [alloc]: whether [malloc] gives memory of a size.  [None] is a write behind the
    memory that was allocated, or to none: the pointer is not tested. *)
Definition systemd_escape (alloc : Z -> bool) (path suffix : cstr) : option cstr :=
  let size := u64 (u64 (u64 (systemd_len path) + Z.of_nat (length suffix)) + 1) in
  let result := escape_path path ++ suffix in
  if alloc size && (Z.of_nat (length result) + 1 <=? size) then Some result else None.

(** ** The path in a name *)

(** A path without doubled and trailing slashes. *)
Fixpoint collapse (s : cstr) : cstr :=
  match s with
  | [] => []
  | c :: s' =>
      if is_slash c then
        match s' with
        | [] => []
        | d :: _ => if is_slash d then collapse s' else c :: collapse s'
        end
      else c :: collapse s'
  end.
Definition canonical (path : cstr) : cstr := collapse (skip_while is_slash path).

Definition esc (c : ascii) : cstr := if is_slash c then ["-"%char] else if keeps c then [c] else hexify c.

Lemma collapse_slash c p :
  is_slash c = true ->
  collapse (c :: p) = match skip_while is_slash p with [] => [] | _ => c :: collapse (skip_while is_slash p) end.
Proof.
  intros Hc. revert c Hc. induction p as [|d p IH]; intros c Hc; cbn [collapse skip_while]; rewrite Hc; [done|].
  destruct (is_slash d) eqn:Hd; [|cbn [collapse]; by rewrite Hd].
  assert (c = d) as -> by (unfold is_slash in *; apply ceqb_true in Hc, Hd; congruence).
  rewrite <- (IH d Hd). cbn [collapse]. by rewrite Hd.
Qed.

Lemma skip_length f s : (length (skip_while f s) <= length s)%nat.
Proof. destruct (skip_while_suffix f s) as [a E]. rewrite E at 2. rewrite length_app. lia. Qed.

Lemma slash_dash c : is_slash c = true -> esc c = ["-"%char].
Proof. intros H. unfold esc. by rewrite H. Qed.

(** The loops on the collapsed path. *)
Lemma escape_loop_esc fuel p : (length p <= fuel)%nat -> escape_loop fuel p = concat (esc <$> collapse p).
Proof.
  revert p. induction fuel as [|fuel IH]; intros [|c p] Hf; cbn [length] in Hf; [done|lia|done|]. cbn [escape_loop].
  destruct (is_slash c) eqn:Hc.
  - rewrite collapse_slash by done. pose proof (skip_length is_slash p). rewrite IH by lia.
    destruct (skip_while is_slash p) eqn:E; [done|]. cbn [fmap list_fmap concat]. by rewrite slash_dash.
  - rewrite IH by lia. cbn [collapse]. rewrite Hc. cbn [fmap list_fmap concat]. unfold esc at 2. by rewrite Hc.
Qed.

(** The count is exact as long as it cannot overflow. *)
Lemma len_loop_esc fuel p len :
  (length p <= fuel)%nat -> 0 <= len -> len + 4 * Z.of_nat (length p) <= INT_MAX ->
  len_loop fuel p len = len + Z.of_nat (length (concat (esc <$> collapse p))).
Proof.
  unfold INT_MAX. revert p len. induction fuel as [|fuel IH]; intros [|c p] len Hf H0 Hlen; cbn [length] in Hf, Hlen; [cbn; lia|lia|cbn; lia|].
  cbn [len_loop]. destruct (is_slash c) eqn:Hc.
  - rewrite collapse_slash by done. pose proof (skip_length is_slash p) as Hs.
    destruct (skip_while is_slash p) as [|d q] eqn:E; [rewrite IH by (cbn [length]; lia); done|]. cbn [length] in Hs.
    rewrite i32_id by (unfold INT_MIN, INT_MAX; lia). rewrite IH by (cbn [length]; lia).
    cbn [fmap list_fmap concat]. rewrite slash_dash by done. cbn [app length]. lia.
  - rewrite i32_id by (unfold INT_MIN, INT_MAX; destruct (keeps c); lia). rewrite IH by (destruct (keeps c); lia). cbn [collapse]. rewrite Hc.
    cbn [fmap list_fmap concat]. unfold esc at 2. rewrite Hc, length_app. destruct (keeps c); cbn [length hexify]; lia.
Qed.

(** Names are at most four times as long. *)
Lemma escaped_length p : Z.of_nat (length (concat (esc <$> collapse p))) <= 4 * Z.of_nat (length p).
Proof.
  assert (forall t, Z.of_nat (length (concat (esc <$> t))) <= 4 * Z.of_nat (length t)) as He.
  { induction t as [|c t IH]; [done|]. cbn [fmap list_fmap concat length]. rewrite length_app.
    assert (length (esc c) <= 4)%nat by (unfold esc; destruct (is_slash c), (keeps c); cbn; lia). lia. }
  assert (length (collapse p) <= length p)%nat as Hc.
  { induction p as [|c p IH]; [done|]. cbn [collapse length]. destruct (is_slash c); [|cbn; lia]. destruct p as [|d p]; [cbn; lia|].
    destruct (is_slash d); cbn [length] in *; lia. }
  specialize (He (collapse p)). lia.
Qed.

(** What systemd.unit(5) says of reading a name. *)
Definition unhex (c : ascii) : Z := if isdigit c then uchar c - 48 else uchar c - 87.
Fixpoint unescape (s : cstr) : cstr :=
  match s with
  | [] => []
  | c :: s' =>
      if ceqb c "-" then "/"%char :: unescape s'
      else if ceqb c BSLASH then
        match s' with
        | _ :: h :: l :: r => chr (16 * unhex h + unhex l) :: unescape r
        | _ => []
        end
      else c :: unescape s'
  end.

Lemma unescape_esc c s : unescape (esc c ++ s) = c :: unescape s.
Proof. all_chars c; reflexivity. Qed.

Lemma unescape_hexify c s : unescape (hexify c ++ s) = c :: unescape s.
Proof. all_chars c; reflexivity. Qed.

Lemma unescape_concat t : unescape (concat (esc <$> t)) = t.
Proof. induction t as [|c t IH]; [done|]. cbn [fmap list_fmap concat]. by rewrite unescape_esc, IH. Qed.

Lemma skip_head f s c r : skip_while f s = c :: r -> f c = false.
Proof. induction s as [|d s IH]; [done|]. cbn [skip_while]. destruct (f d) eqn:E; [done|]. by intros [= <- _]. Qed.

(** The body of the name, and the path in it. *)
Lemma escape_path_unescape path :
  match skip_while is_slash path with
  | [] => escape_path path = $"-"
  | _ => unescape (escape_path path) = canonical path
  end.
Proof.
  unfold escape_path, canonical. destruct (skip_while is_slash path) as [|c p] eqn:E; [done|]. apply skip_head in E.
  destruct (ceqb c ".") eqn:Hd.
  - rewrite unescape_hexify, escape_loop_esc, unescape_concat by done. cbn [collapse]. by rewrite E.
  - by rewrite escape_loop_esc, unescape_concat by (cbn [length]; lia).
Qed.

(** The size that a path needs is what the [int] counts, with the suffix. *)
Definition escapable (alloc : Z -> bool) (path suffix : cstr) : Prop :=
  4 * Z.of_nat (length path) + 4 <= INT_MAX /\
  (forall size, 0 < size <= 4 * Z.of_nat (length path) + 5 + Z.of_nat (length suffix) -> alloc size = true).

Lemma systemd_escape_fits alloc path suffix :
  escapable alloc path suffix -> Z.of_nat (length suffix) < 2 ^ 63 -> systemd_escape alloc path suffix = Some (escape_path path ++ suffix).
Proof.
  intros [Hb Ha] Hs. pose proof (skip_length is_slash path) as Hsk. unfold INT_MAX in Hb.
  assert (systemd_len path = Z.of_nat (length (escape_path path)) + (match skip_while is_slash path with c :: _ => if ceqb c "." then 1 else 0 | [] => 0 end)
    /\ 0 < systemd_len path <= 4 * Z.of_nat (length path) + 4) as [El Hl].
  { unfold systemd_len, escape_path. destruct (skip_while is_slash path) as [|c p] eqn:E; [cbn; lia|]. apply skip_head in E. cbn [length] in Hsk.
    pose proof (escaped_length (c :: p)) as Hle. cbn [length] in Hle.
    rewrite len_loop_esc by (unfold INT_MAX; cbn [length]; destruct (ceqb c "."); lia).
    cbn [collapse] in *. rewrite E in *. cbn [fmap list_fmap concat] in *. rewrite length_app in *. destruct (ceqb c ".") eqn:Hd.
    - rewrite length_app, escape_loop_esc by done. change (length (hexify c)) with 4%nat. apply ceqb_true in Hd as ->.
      change (length (esc ".")) with 1%nat in *. lia.
    - rewrite escape_loop_esc by (cbn [length]; lia). cbn [collapse]. rewrite E. cbn [fmap list_fmap concat]. rewrite length_app.
      assert (0 < length (esc c))%nat by (unfold esc; destruct (is_slash c), (keeps c); cbn; lia). lia. }
  unfold systemd_escape. unfold u64. rewrite (Z.mod_small (systemd_len path)), (Z.mod_small (_ + Z.of_nat (length suffix))), Z.mod_small by lia.
  rewrite Ha by lia. cbn [andb]. rewrite (proj2 (Z.leb_le _ _)); [done|]. rewrite length_app. destruct (skip_while _ _) as [|c ?]; [lia|]. destruct (ceqb c "."); lia.
Qed.

(** C40. The name of a unit fits the memory that was counted for it, is the escaped
    path followed by the suffix, and determines the path: two paths with the same name
    are the same up to doubled, leading and trailing slashes.  This is for paths whose
    count cannot overflow an [int] (four bytes for each of theirs), and when [malloc]
    gives the memory, whose pointer is not tested. *)
Theorem systemd_escape_correct alloc path suffix :
  escapable alloc path suffix -> Z.of_nat (length suffix) < 2 ^ 63 ->
  systemd_escape alloc path suffix = Some (escape_path path ++ suffix) /\
  forall path', escapable alloc path' suffix -> systemd_escape alloc path' suffix = systemd_escape alloc path suffix -> canonical path' = canonical path.
Proof.
  intros Hp Hs. split; [by apply systemd_escape_fits|]. intros path' Hp'. rewrite !systemd_escape_fits by done. intros [= Eq%app_inv_tail].
  pose proof (escape_path_unescape path) as H. pose proof (escape_path_unescape path') as H'. rewrite Eq in H'.
  unfold canonical in *. destruct (skip_while is_slash path) as [|c p] eqn:E, (skip_while is_slash path') as [|c' p'] eqn:E'; [done|..|congruence].
  - apply skip_head in E'. rewrite H in H'. cbn in H'. rewrite E' in H'. injection H' as <- _. done.
  - apply skip_head in E. rewrite H' in H. cbn in H. rewrite E in H. injection H as <- _. done.
Qed.

Definition alloc_ex (size : Z) : bool := size <? 4096.

Lemma systemd_escape_correct_witness :
  systemd_escape alloc_ex $"/srv//nfs-data/" $".mount" = Some $"srv-nfs\x2ddata.mount" /\
  canonical $"srv/nfs-data" = canonical $"/srv//nfs-data/".
Proof.
  assert (forall path, Z.of_nat (length path) < 1000 -> escapable alloc_ex path $".mount") as He.
  { intros path Hl. split; [unfold INT_MAX; lia|]. intros size Hsz. change (length $".mount") with 6%nat in Hsz. apply Z.ltb_lt. lia. }
  destruct (systemd_escape_correct alloc_ex $"/srv//nfs-data/" $".mount") as [E H]; [apply He; cbn; lia|cbn; lia|].
  split; [rewrite E; reflexivity|]. apply H; [apply He; cbn; lia|]. vm_compute. reflexivity.
Defined.

(** A path of that length and more overflows the count: after half a gigabyte of
    bytes that are replaced, the next one wraps it around. *)
Lemma len_loop_wraps len fuel : len + 4 = 2 ^ 31 -> len_loop (S fuel) $"-" len = INT_MIN.
Proof. intros Hl. cbn. rewrite Hl. by destruct fuel. Qed.
