(* ===== verification/Exportfs.v ===== *)
(** * The command exportfs (utils/exportfs/exportfs.c)

    One run reads the files of exports and etab into the table of [ExportTab],
    marks exports on it or takes marks away, and writes the marked ones back to
    etab.  What getopt leaves of the command line is a record; the file system,
    the kernel's answers to test exports and the locks are records of answers.
    Messages are not modelled, except for the export_verdict of [validate_export] and the
    listing of [dump]. *)

From S2P Require Import Prelude Cacheio Exports Client ExportTab Xio Xtab V4root Fsid.

Record kview := KView
  { kv_rootdir : option cstr;             (* rootdir of nfs.conf *)
    kv_realpath : cstr -> option cstr;    (* realpath(3) *)
    kv_isdir : cstr -> option bool;       (* stat(2): it is a directory *)
    kv_fsid : cstr -> bool;               (* statfs(2): it has an identifier *)
    kv_time : Z;
    kv_auth : option (cstr -> bool);      (* writing to the channel auth.unix.ip *)
    kv_export : option (cstr -> bool) }.  (* writing to the channel nfsd.export *)

Definition INT_TO_LONG_THRESHOLD_SECS : Z := INT_MAX - 60 * 60 * 24.

Definition set_realpath (eep : exportent) (r : option cstr) : exportent :=
  Ent (e_hostname eep) (e_path eep) (e_flags eep) (e_anonuid eep) (e_anongid eep) (e_squids eep) (e_sqgids eep)
    (e_fsid eep) (e_mountpoint eep) (e_fslocmethod eep) (e_fslocdata eep) (e_uuid eep) (e_secinfo eep)
    (e_xprtsec eep) (e_ttl eep) r (e_reexport eep) (e_fsid_value eep).
Definition set_ent (e : nfs_export) (ep : exportent) : nfs_export :=
  Export (m_next e) (m_client e) ep (ex_exported e) (m_xtabent e) (m_mayexport e) (m_changed e) (m_warned e).

Inductive export_verdict := Fine | NoStat | NotDir | Untested | Unsupported | NeedsFsid.

(** What a command line asks for. *)
Record cmd := Cmd
  { f_export : bool; f_all : bool; f_reexport : bool; f_ignore : bool; force_flush : bool;
    f_verbose : bool; f_export_format : bool; options : option cstr; args : list cstr }.

(** The other end of a run: the locks of etab, what [getexportent] starts from, the
    inode of the new etab, and the failures of reads and of the rename. *)
Record etab_env := EtabEnv
  { ev_rlock : bool; ev_wlock : bool; ev_def : exportent; ev_stack : cstr; ev_tmp : Z;
    ev_err : nat -> bool * bool; ev_ren : bool }.

Inductive outcome := Refused | Flushed | Listed (text : cstr) | Wrote (etab : option file).

(** ** Arguments *)

Fixpoint strstr (p s : cstr) : option (cstr * cstr) :=
  if starts_with p s then Some ([], s)
  else match s with
       | [] => None
       | c :: s => '(a, b) ← strstr p s; Some (c :: a, b)
       end.

(** host:path; [None]: bad syntax. *)
Definition generic_target (arg : cstr) : option (cstr * cstr) :=
  match strchr ":" arg with
  | Some (host, path) => if ceqb (deref path) "/" then Some (host, path) else None
  | None => None
  end.

(** [address]/prefix:path, or a pattern that starts with a bracket. *)
Definition ipv6_target (arg : cstr) : option (cstr * cstr) :=
  match strchr "]" (drop 1 arg) with
  | None => None
  | Some (a, b) =>
      match strchr ":" a with
      | None => generic_target arg
      | Some _ => match strstr $":/" ("]"%char :: b) with
                  | None => None
                  | Some (x, path) => Some (a ++ drop 1 x, drop 1 path)
                  end
      end
  end.

Definition target (arg : cstr) : option (cstr * cstr) :=
  if ceqb (deref arg) "[" then ipv6_target arg else generic_target arg.

(** The length of a path without its trailing slashes. *)
Fixpoint path_len (path : cstr) (nlen : nat) : nat :=
  match nlen with
  | S (S n as m) => if ceqb (at_index path m) "/" then path_len path m else nlen
  | _ => nlen
  end.

(** ** Comparing host names *)

Fixpoint hostname_chars (sp : cstr) : bool :=
  match sp with
  | [] => true
  | c :: sp' =>
      if ceqb c "*" || ceqb c "?" || ceqb c "[" || ceqb c "/" then false
      else if ceqb c BSLASH then match sp' with [] => true | _ :: sp' => hostname_chars sp' end
      else hostname_chars sp'
  end.

Definition is_hostname (sp : cstr) : bool :=
  if streq sp [] || ceqb (deref sp) "@" then false else hostname_chars sp.

Section exportfs.
  Context (ns : resolver) (erange : bool) (secinfo_flags : Z) (fsidnum_by_path : cstr -> bool -> option Z).
  Context (realpath : cstr -> option cstr) (kv : kview).

Definition address_list (hostname : cstr) : option addrinfo :=
  let cname := match host_pton ns hostname with
               | Some ai => default hostname (host_canonname ns (ai_addr ai))
               | None => hostname
               end in
  host_addrinfo ns cname.

(** [None]: a canonical name is missing. *)
Definition matchhostname (hostname1 hostname2 : cstr) : option bool :=
  if strcaseeq hostname1 hostname2 then Some true
  else if negb (is_hostname hostname1) || negb (is_hostname hostname2) then Some false
  else
    match address_list hostname1, address_list hostname2 with
    | Some results1, Some results2 =>
        n1 ← ai_canonname results1; n2 ← ai_canonname results2;
        if strcaseeq n1 n2 then Some true
        else Some (existsb (fun ai1 => existsb (nfs_compare_sockaddr ai1) (ai_addrs results2)) (ai_addrs results1))
    | _, _ => Some false
    end.

(** ** Checking and marking an export *)

Definition exportent_mkrealpath (eep : exportent) : exportent :=
  let ret := match nfsd_path_nfsd_rootdir (kv_rootdir kv) with
             | Some chroot => buffer ← kv_realpath kv chroot; nfsd_path_prepend_dir buffer (e_path eep)
             | None => None
             end in
  set_realpath eep (Some (default (e_path eep) ret)).

Definition exportent_realpath (eep : exportent) : exportent * cstr :=
  let eep := match e_realpath eep with Some _ => eep | None => exportent_mkrealpath eep end in
  (eep, default [] (e_realpath eep)).

Definition can_test : bool :=
  match kv_auth kv with
  | None => false
  | Some write =>
      let buf := if INT_TO_LONG_THRESHOLD_SECS <? kv_time kv
                 then $"nfsd 0.0.0.0 " ++ itoa LONG_MAX ++ $" -test-client-" ++ [NL]
                 else $"nfsd 0.0.0.0 " ++ itoa INT_MAX ++ $" -test-client-" ++ [NL] in
      write buf && bool_decide (is_Some (kv_export kv))
  end.

Definition kernel_accepts (eep : exportent) (with_fsid : bool) : bool :=
  match kv_export kv with Some write => export_test write eep with_fsid | None => false end.

Definition validate_export (exp : nfs_export) : nfs_export * export_verdict :=
  let '(eep, path) := exportent_realpath (m_export exp) in
  let exp := set_ent exp eep in
  (exp,
   match kv_isdir kv path with
   | None => NoStat
   | Some false => NotDir
   | Some true =>
       if negb can_test then Untested
       else if has_flag (e_flags eep) NFSEXP_FSID || bool_decide (is_Some (e_uuid eep)) || kv_fsid kv path then
         if negb (kernel_accepts eep true) then Unsupported else Fine
       else if negb (kernel_accepts eep false) then if kernel_accepts eep true then NeedsFsid else Unsupported
       else Fine
   end).

(** The marks that both ways of exporting set, and the check. *)
Definition mark_export (st : extab) (id : positive) : option extab :=
  e ← ex_store st !! id;
  let e := Export (m_next e) (m_client e) (m_export e) (ex_exported e) true true true false in
  Some (set_store st (<[id := fst (validate_export e)]> (ex_store st))).

Fixpoint all_loop (fuel : nat) (st : extab) (exp : option positive) : option extab :=
  match exp, fuel with
  | None, _ => Some st
  | Some _, O => None
  | Some id, S fuel =>
      st ← mark_export st id;
      e ← ex_store st !! id;
      all_loop fuel st (m_next e)
  end.

Fixpoint all_types (types : list mcl_type) (st : extab) : option extab :=
  match types with
  | [] => Some st
  | t :: types => st ← all_loop (size (ex_store st)) st (p_head (exportlist st t)); all_types types st
  end.

Definition export_all (st : extab) : option extab := all_types mcl_types st.

(** ** Exporting one directory *)

(** [ee] is the static entry of [mkexportent]. *)
Definition exportfs_parsed (ee : exportent) (st : extab) (hname path : cstr) (options : option cstr) : option (exportent * extab) :=
  '(exp, hname, st) ←
    (if bool_decide (client_gettype hname = MCL_FQDN) then
       match host_addrinfo ns hname with
       | Some ai => '(exp, st) ← export_find ns erange st ai path; Some (exp, ai_canonname ai, st)
       | None => Some (None, Some hname, st)
       end
     else '(exp, st) ← export_lookup ns erange st hname path false; Some (exp, Some hname, st));
  match exp with
  | None =>
      hname ← hname;
      let '(ee, eep) := mkexportent secinfo_flags fsidnum_by_path ee hname path options in
      match eep with
      | None => Some (ee, st)
      | Some eep =>
          '(exp, st) ← export_create ns erange st eep false;
          match exp with
          | None => Some (ee, st)
          | Some id => st ← mark_export st id; Some (ee, st)
          end
      end
  | Some id =>
      e ← ex_store st !! id;
      let '(ep, ok) := updateexportent secinfo_flags fsidnum_by_path (m_export e) options in
      let st := set_store st (<[id := set_ent e ep]> (ex_store st)) in
      if ok : bool then st ← mark_export st id; Some (ee, st) else Some (ee, st)
  end.

Definition exportfs (ee : exportent) (st : extab) (arg : cstr) (options : option cstr) : option (exportent * extab) :=
  match target arg with
  | Some (host, path) => exportfs_parsed ee st host path options
  | None => Some (ee, st)
  end.

Fixpoint exportfs_args (ee : exportent) (st : extab) (args : list cstr) (options : option cstr) : option extab :=
  match args with
  | [] => Some st
  | arg :: args => '(ee, st) ← exportfs ee st arg options; exportfs_args ee st args options
  end.

(** ** Taking an export back *)

(** One export against the path and the host; [None]: a name is missing. *)
Definition unexport_matches (st : extab) (e : nfs_export) (htype : mcl_type) (hname path : cstr) (nlen : nat) : option bool :=
  if negb (length (e_path (m_export e)) =? nlen)%nat then Some false
  else if negb (streq (take nlen path) (take nlen (e_path (m_export e)))) then Some false
  else
    c ← cl_store (ex_clients st) !! m_client e;
    if negb (bool_decide (htype = m_type c)) then Some false
    else
      h ← e_hostname (m_export e);
      if bool_decide (htype = MCL_FQDN) then matchhostname h hname else Some (strcaseeq h hname).

Fixpoint unexport_loop (fuel : nat) (st : extab) (exp : option positive) (htype : mcl_type) (hname path : cstr) (nlen : nat)
  : option extab :=
  match exp, fuel with
  | None, _ => Some st
  | Some _, O => None
  | Some id, S fuel =>
      e ← ex_store st !! id;
      hit ← unexport_matches st e htype hname path nlen;
      let e' := if hit : bool then set_marks e (ex_exported e) false false else e in
      unexport_loop fuel (set_store st (<[id := e']> (ex_store st))) (m_next e) htype hname path nlen
  end.

Definition unexportfs_parsed (st : extab) (hname path : cstr) : option extab :=
  let htype := client_gettype hname in
  hname ← (if bool_decide (htype = MCL_FQDN) then
             match host_addrinfo ns hname with Some ai => ai_canonname ai | None => Some hname end
           else Some hname);
  unexport_loop (size (ex_store st)) st (p_head (exportlist st htype)) htype hname path (path_len path (length path)).

Definition unexportfs (st : extab) (arg : cstr) : option extab :=
  match target arg with
  | Some (host, path) => unexportfs_parsed st host path
  | None => Some st
  end.

Fixpoint unexportfs_args (st : extab) (args : list cstr) : option extab :=
  match args with
  | [] => Some st
  | arg :: args => st ← unexportfs st arg; unexportfs_args st args
  end.

(** ** Listing *)

Fixpoint dumpopts (c : ascii) (l : list cstr) : cstr :=
  match l with
  | [] => []
  | o :: l => c :: o ++ dumpopts ","%char l
  end.

Definition dump_options (ep : exportent) : list cstr :=
  let has := has_flag (e_flags ep) in
  [if has NFSEXP_ASYNC then $"async" else $"sync";
   if has NFSEXP_GATHERED_WRITES then $"wdelay" else $"no_wdelay";
   if has NFSEXP_NOHIDE then $"nohide" else $"hide"] ++
  (if has NFSEXP_CROSSMOUNT then [$"crossmnt"] else []) ++
  (if has NFSEXP_NOSUBTREECHECK then [$"no_subtree_check"] else []) ++
  (if has NFSEXP_NOAUTHNLM then [$"insecure_locks"] else []) ++
  (if has NFSEXP_NOREADDIRPLUS then [$"nordirplus"] else []) ++
  (if has NFSEXP_SECURITY_LABEL then [$"security_label"] else []) ++
  (if has NFSEXP_NOACL then [$"no_acl"] else []) ++
  (if has NFSEXP_PNFS then [$"pnfs"] else []) ++
  (if has NFSEXP_FSID then [$"fsid=" ++ itoa (i32 (e_fsid ep))] else []) ++
  match e_uuid ep with Some u => [$"fsid=" ++ u] | None => [] end ++
  match e_reexport ep with
  | REEXP_AUTO_FSIDNUM => [$"reexport=auto-fsidnum"]
  | REEXP_PREDEFINED_FSIDNUM => [$"reexport=predefined-fsidnum"]
  | _ => []
  end ++
  match e_mountpoint ep with Some m => [$"mountpoint" ++ (match m with [] => [] | _ => $"=" end) ++ m] | None => [] end ++
  (if negb (e_anonuid ep =? 65534) then [$"anonuid=" ++ itoa (e_anonuid ep)] else []) ++
  (if negb (e_anongid ep =? 65534) then [$"anongid=" ++ itoa (e_anongid ep)] else []) ++
  match e_fslocmethod ep with
  | FSLOC_REFER => [$"refer=" ++ default [] (e_fslocdata ep)]
  | FSLOC_REPLICA => [$"replicas=" ++ default [] (e_fslocdata ep)]
  | _ => []
  end.

(** [%-14s]. *)
Definition pad14 (s : cstr) : cstr := s ++ replicate (14 - length s) SP.

Definition export_line (verbose export_format : bool) (htype : mcl_type) (ep : exportent) : option cstr :=
  hname ← (if bool_decide (htype = MCL_ANONYMOUS) then Some (if export_format then $"*" else $"<world>") else e_hostname ep);
  let start :=
    if (14 <? length (e_path ep))%nat && negb export_format then pad14 (e_path ep) ++ [NL; TAB; TAB] ++ hname
    else if export_format then w_out (qword_add (WBuf [] NFS_MAXPATHLEN) (e_path ep)) ++ [SP] ++ hname
    else pad14 (e_path ep) ++ [TAB] ++ hname in
  if negb verbose && negb export_format then Some (start ++ [NL])
  else
    let '(ep', sec) := secinfo_show secinfo_flags ep in
    Some (start ++ dumpopts "("%char (dump_options ep) ++ sec ++ xprtsecinfo_show ep' ++ $")" ++ [NL]).

Fixpoint dump_loop (fuel : nat) (st : extab) (exp : option positive) (verbose export_format : bool) (htype : mcl_type) : option cstr :=
  match exp, fuel with
  | None, _ => Some []
  | Some _, O => None
  | Some id, S fuel =>
      e ← ex_store st !! id;
      line ← (if m_xtabent e then export_line verbose export_format htype (m_export e) else Some []);
      rest ← dump_loop fuel st (m_next e) verbose export_format htype;
      Some (line ++ rest)
  end.

Fixpoint dump_types (types : list mcl_type) (st : extab) (verbose export_format : bool) : option cstr :=
  match types with
  | [] => Some []
  | t :: types =>
      a ← dump_loop (size (ex_store st)) st (p_head (exportlist st t)) verbose export_format t;
      b ← dump_types types st verbose export_format;
      Some (a ++ b)
  end.

Definition dump (st : extab) (verbose export_format : bool) : option cstr := dump_types mcl_types st verbose export_format.

(** ** A run *)

(** /etc/exports and the files of /etc/exports.d, each as its entries. *)
Fixpoint read_exports (st : extab) (files : list (list exportent)) : option extab :=
  match files with
  | [] => Some st
  | eeps :: files => '(st, _) ← export_read ns erange st eeps false; read_exports st files
  end.

Definition xtab_export_read (ev : etab_env) (st : extab) (etab : option file) : option extab :=
  fst <$> xtab_read ns erange secinfo_flags fsidnum_by_path realpath st (ev_rlock ev) (ev_def ev) (f_text <$> etab) (ev_stack ev) true false.

(** The table that a run works out from the files, its arguments and etab. *)
Definition final_table (c : cmd) (files : list (list exportent)) (ev : etab_env) (ee : exportent) (etab : option file) : option extab :=
  st ← (if f_export c && negb (f_ignore c) then read_exports empty_tab files else Some empty_tab);
  st ← (if f_export c then if f_all c then export_all st else exportfs_args ee st (args c) (options c) else Some st);
  if negb (negb (f_export c) && f_all c) then
    st ← (if negb (f_reexport c) then xtab_export_read ev st etab else Some st);
    if negb (f_export c) then unexportfs_args st (args c) else Some st
  else Some st.

Definition xtab_export_write (ev : etab_env) (st : extab) (etab : option file) : option (option file) :=
  xtab_write secinfo_flags st true (ev_wlock ev) (ev_tmp ev) (ev_err ev) (ev_ren ev) etab.

Definition main (c : cmd) (files : list (list exportent)) (ev : etab_env) (ee : exportent) (etab : option file) : option outcome :=
  if negb (bool_decide (args c = [])) && f_all c then Some Refused
  else if f_ignore c && (f_all c || negb (f_export c)) then Some Refused
  else if f_reexport c && negb (f_export c) then Some Refused
  else if bool_decide (args c = []) && negb (f_all c) then
    if force_flush c then Some Flushed
    else
      st ← xtab_export_read ev empty_tab etab;
      Listed <$> dump st (f_verbose c) (f_export_format c)
  else
    st ← final_table c files ev ee etab;
    Wrote <$> xtab_export_write ev st etab.

End exportfs.

(** ** Options of the command line *)

(** One letter that getopt returns, with its argument; [None]: usage. *)
Definition opt_step (c : cmd) (o : ascii * cstr) : option cmd :=
  let '(ch, optarg) := o in
  if ceqb ch "a" then Some (Cmd (f_export c) true (f_reexport c) (f_ignore c) (force_flush c) (f_verbose c) (f_export_format c) (options c) (args c))
  else if ceqb ch "d" then Some c
  else if ceqb ch "f" then Some (Cmd (f_export c) (f_all c) (f_reexport c) (f_ignore c) true (f_verbose c) (f_export_format c) (options c) (args c))
  else if ceqb ch "i" then Some (Cmd (f_export c) (f_all c) (f_reexport c) true (force_flush c) (f_verbose c) (f_export_format c) (options c) (args c))
  else if ceqb ch "o" then Some (Cmd (f_export c) (f_all c) (f_reexport c) (f_ignore c) (force_flush c) (f_verbose c) (f_export_format c) (Some optarg) (args c))
  else if ceqb ch "r" then Some (Cmd (f_export c) true true (f_ignore c) (force_flush c) (f_verbose c) (f_export_format c) (options c) (args c))
  else if ceqb ch "u" then Some (Cmd false (f_all c) (f_reexport c) (f_ignore c) (force_flush c) (f_verbose c) (f_export_format c) (options c) (args c))
  else if ceqb ch "v" then Some (Cmd (f_export c) (f_all c) (f_reexport c) (f_ignore c) (force_flush c) true (f_export_format c) (options c) (args c))
  else if ceqb ch "s" then Some (Cmd (f_export c) (f_all c) (f_reexport c) (f_ignore c) (force_flush c) (f_verbose c) true (options c) (args c))
  else None.

Fixpoint parse_cmd (letters : list (ascii * cstr)) (c : cmd) : option cmd :=
  match letters with
  | [] => Some c
  | o :: letters => c ← opt_step c o; parse_cmd letters c
  end.

Definition command_line (letters : list (ascii * cstr)) (args : list cstr) : option cmd :=
  parse_cmd letters (Cmd true false false false false false false None args).
