(* ===== verification/ExportfsMap.v ===== *)
(** * What exportfs does to etab (properties of [Exportfs])

    The table in memory is a map from clients and paths to entries with a mark,
    and a run of the command is a map computed from the files of exports, the old
    etab and the arguments. *)

From S2P Require Import Prelude Cacheio Exports Client Hosts ExportTab Xio Xtab V4root Fsid Exportfs.

(** ** Options do not change whom and what an entry is for *)

Definition ident (ep : exportent) : option cstr * cstr := (e_hostname ep, e_path ep).

Lemma parse_flavors_ident names ep out : ident (parse_flavors_loop names ep out).1 = ident ep.
Proof.
  revert ep out; induction names as [|n names IH]; intros ep out; [done|]. cbn [parse_flavors_loop].
  destruct (find_flavor n) as [f|]; [|done]. unfold secinfo_addflavor. destruct (add_entry _ _ _ _ _) as [l [i|]]; [by rewrite IH|done].
Qed.

Lemma parse_xprtsec_ident names ep out : ident (parse_xprtsec_loop names ep out).1 = ident ep.
Proof.
  revert ep out; induction names as [|n names IH]; intros ep out; [done|]. cbn [parse_xprtsec_loop].
  destruct (find_xprtsec_info n) as [f|]; [|done]. unfold xprtsec_addmode. destruct (add_entry _ _ _ _ _) as [l [i|]]; [by rewrite IH|done].
Qed.

Definition res_ep (r : opt_res) : exportent := match r with OptOk v => pv_ep v | OptBad ep => ep end.

Section options.
  Context (m : Z) (db : cstr -> bool -> option Z).

Lemma reexport_ident v s : ident (res_ep (reexport_option db v s)) = ident (pv_ep v).
Proof.
  unfold reexport_option, reexpdb_apply_reexport_settings. cbv zeta.
  repeat (case_match; simplify_eq; try done); unfold setflags, set_secinfo, set_flags; cbn; repeat case_match; done.
Qed.

Lemma parse_opt_ident v opt : ident (res_ep (parse_opt db v opt)) = ident (pv_ep v).
Proof.
  unfold parse_opt. destruct (flag_option opt) as [[[] mask]|]; [done..|]. cbv zeta.
  repeat match goal with
         | |- context [if starts_with ?a ?b then _ else _] => destruct (starts_with a b); [|]
         | |- context [if Exports.is_mountpoint ?a then _ else _] => destruct (Exports.is_mountpoint a); [done|]
         end;
    try apply reexport_ident; try (repeat case_match; done).
  - unfold fsid_option. cbv zeta. repeat case_match; done.
  - destruct (parse_flavors _ _) as [ep a] eqn:E. pose proof (parse_flavors_ident (split_on ":" (drop 4 opt)) (pv_ep v) 0) as H.
    unfold parse_flavors in E. rewrite E in H. case_match; exact H.
  - destruct (parse_xprtsec _ _) as [ep a] eqn:E. pose proof (parse_xprtsec_ident (split_on ":" (drop 8 opt)) (pv_ep v) 0) as H.
    unfold parse_xprtsec in E. rewrite E in H. case_match; exact H.
Qed.

Lemma parseopts_loop_ident fuel cp v : ident (res_ep (parseopts_loop db fuel cp v)) = ident (pv_ep v).
Proof.
  revert cp v; induction fuel as [|fuel IH]; intros cp v; [done|]. cbn [parseopts_loop]. destruct cp as [|a cp]; [done|].
  destruct (match strchr _ _ with Some _ => _ | None => _ end) as [opt rest]. pose proof (parse_opt_ident v opt) as H.
  destruct (parse_opt db v opt) as [v'|ep]; [|exact H]. by rewrite IH.
Qed.

Lemma parseopts_ident cp ep :
  match parseopts m db cp ep with inl (ep', _) => ident ep' = ident ep | inr ep' => ident ep' = ident ep end.
Proof.
  destruct cp as [cp|]; [|done]. cbn [parseopts]. cbv zeta.
  match goal with |- context [parseopts_loop db ?n ?c ?v] => pose proof (parseopts_loop_ident n c v) as H; destruct (parseopts_loop db n c v) end; exact H.
Qed.

Lemma update_ident ep options : ident (updateexportent m db ep options).1 = ident ep.
Proof. unfold updateexportent. pose proof (parseopts_ident options ep) as H. by destruct (parseopts m db options ep) as [[]|]. Qed.

Lemma mkexportent_ident ee h p options ee' ep : mkexportent m db ee h p options = (ee', Some ep) -> ident ep = (Some h, p).
Proof.
  unfold mkexportent. cbv zeta. case_match; [done|].
  match goal with |- context [parseopts m db options ?e] => pose proof (parseopts_ident options e) as Hi; destruct (parseopts m db options e) as [[]|] end;
    intros [= ? ?]; subst; exact Hi.
Qed.
End options.

(** ** The table as a map *)

#[export] Instance mcl_type_countable : Countable mcl_type.
Proof.
  refine (inj_countable' (fun t => match t with MCL_FQDN => 0 | MCL_SUBNETWORK => 1 | MCL_WILDCARD => 2 | MCL_NETGROUP => 3
                                              | MCL_ANONYMOUS => 4 | MCL_GSS => 5 end)
            (fun n => if n =? 0 then MCL_FQDN else if n =? 1 then MCL_SUBNETWORK else if n =? 2 then MCL_WILDCARD
                      else if n =? 3 then MCL_NETGROUP else if n =? 4 then MCL_ANONYMOUS else MCL_GSS) _).
  by intros [].
Defined.

(** The kind and the canonical name of a client, in lower case, and a path. *)
Definition tkey : Type := mcl_type * cstr * cstr.

(** An entry as the table keeps it, and whether it belongs in etab. *)
Definition row : Type := exportent * bool.
Definition row_of (e : nfs_export) : row := (m_export e, m_xtabent e).

(** A client that is not a single host. *)
Definition named (h : cstr) : Prop := client_gettype h <> MCL_FQDN.

(** Clients are added, counted and otherwise left alone. *)
Definition grown (s s' : clients) : Prop :=
  (forall i c, cl_store s !! i = Some c -> exists c', cl_store s' !! i = Some c' /\ m_type c' = m_type c /\ m_hostname c' = m_hostname c) /\
  forall t i, i ∈ cl_list s t -> i ∈ cl_list s' t.

#[export] Instance grown_refl : Reflexive grown.
Proof. intros s. split; eauto. Qed.

Section table.
  Context (ns : resolver) (P : cstr -> Prop) (erange : bool).

Definition host_key (h path : cstr) : tkey := (client_gettype h, tolower <$> canon ns h, path).
Definition ekey (xp : exportent) : tkey := host_key (default [] (e_hostname xp)) (e_path xp).

Definition shows (st : extab) (x : positive) (k : tkey) (r : row) : Prop :=
  exists e c h, ex_store st !! x = Some e /\ r = row_of e /\ cl_store (ex_clients st) !! m_client e = Some c /\
    m_client e ∈ cl_list (ex_clients st) (m_type c) /\ m_type c = client_gettype h /\ P h /\
    e_hostname (m_export e) = Some h /\ strcaseeq (canon ns h) (m_hostname c) = true /\ k = host_key h (e_path (m_export e)).

Lemma shows_fun st x k k' r r' : shows st x k r -> shows st x k' r' -> k = k' /\ r = r'.
Proof. intros (e & c & h & E & -> & _ & _ & _ & _ & Hh & _ & ->) (e' & c' & h' & E' & -> & _ & _ & _ & _ & Hh' & _ & ->). by simplify_eq. Qed.

Lemma shows_kept st st' x k r :
  contents <$> ex_store st' !! x = contents <$> ex_store st !! x -> grown (ex_clients st) (ex_clients st') -> shows st x k r -> shows st' x k r.
Proof.
  intros Hc [H1 H2] (e & c & h & E & -> & Ec & Hin & Ht & Hf & Hh & Hn & ->). rewrite E in Hc.
  destruct (ex_store st' !! x) as [e'|] eqn:E'; [|done]. apply Some_inj in Hc.
  assert (row_of e' = row_of e /\ m_client e' = m_client e) as [Hr Hcl] by (destruct e, e'; by injection Hc; intros; subst).
  destruct (H1 _ _ Ec) as (c' & Ec' & Ht' & Hn'). assert (m_export e' = m_export e) as Hx by (by injection Hr).
  exists e', c', h. rewrite Hr, Hcl, Ht', Hn', Hx. split_and!; try done. by apply H2.
Qed.

(** A table that holds the rows of a map, its clients kept in order by a name
    service that keeps the single hosts apart. *)
Record tmap (st : extab) (L : mcl_type -> list positive) (T : gmap tkey row) : Prop := TMap
  { tm_tab : tab_ok st L; tm_wf : clients_ok ns P (ex_clients st);
    tm_hosts : hosts_apart ns P;
    tm_row : forall x, x ∈ all_of L -> exists k r, T !! k = Some r /\ shows st x k r;
    tm_all : forall k r, T !! k = Some r -> exists x, x ∈ all_of L /\ shows st x k r;
    tm_inj : forall x y k r r', x ∈ all_of L -> y ∈ all_of L -> shows st x k r -> shows st y k r' -> x = y }.

Lemma client_named s h :
  hosts_apart ns P -> clients_ok ns P s -> known ns P erange h ->
  exists clp s' c, client_lookup ns erange s h false = Some (Some clp, s') /\ clients_ok ns P s' /\ grown s s' /\
    cl_store s' !! clp = Some c /\ clp ∈ cl_list s' (m_type c) /\ m_type c = client_gettype h /\ strcaseeq (canon ns h) (m_hostname c) = true /\
    forall i ci, i ∈ cl_list s (client_gettype h) -> cl_store s !! i = Some ci -> strcaseeq (canon ns h) (m_hostname ci) = true -> i = clp.
Proof.
  intros Hns W Hk. destruct (client_lookup_known ns P Hns erange s h W Hk) as (clp & s' & c & E & W' & Hold & Hl & Ec & Hin & Ht & Hn & Hu & _).
  exists clp, s', c. split_and!; try done. split; [|done]. intros i ci Ei. apply Hold in Ei. eauto.
Qed.

Lemma tmap_clients st L T s1 :
  tmap st L T -> tab_ok (set_clients st s1) L -> clients_ok ns P s1 -> grown (ex_clients st) s1 -> tmap (set_clients st s1) L T.
Proof.
  intros [Ht W N R A I] Ht1 W1 G.
  assert (forall x k r, shows st x k r -> shows (set_clients st s1) x k r) as Hs by (intros x k r; by apply shows_kept).
  split; try done.
  - intros x Hx. destruct (R x Hx) as (k & r & E & Sh). eauto.
  - intros k r E. destruct (A k r E) as (x & Hx & Sh). eauto.
  - intros x y k r r' Hx Hy Sx Sy. destruct (R x Hx) as (kx & rx & _ & Sx'), (R y Hy) as (ky & ry & _ & Sy').
    destruct (shows_fun _ _ _ _ _ _ Sx (Hs _ _ _ Sx')) as [-> ->], (shows_fun _ _ _ _ _ _ Sy (Hs _ _ _ Sy')) as [Ek ->].
    subst ky. by eapply I.
Qed.

(** The export of a client and a path is the one with their key. *)
Lemma key_is_export st L T h path clp s1 c :
  tmap st L T -> grown (ex_clients st) s1 -> cl_store s1 !! clp = Some c -> m_type c = client_gettype h ->
  strcaseeq (canon ns h) (m_hostname c) = true ->
  (forall i ci, i ∈ cl_list (ex_clients st) (client_gettype h) -> cl_store (ex_clients st) !! i = Some ci -> strcaseeq (canon ns h) (m_hostname ci) = true -> i = clp) ->
  (forall x, x ∈ L (m_type c) -> is_export (ex_store st) clp path x = true -> exists r, T !! host_key h path = Some r /\ shows st x (host_key h path) r) /\
  (forall x r, x ∈ all_of L -> shows st x (host_key h path) r -> x ∈ L (m_type c) /\ is_export (ex_store st) clp path x = true).
Proof.
  intros [[Hst Hr] W N R A I] G Ec Ht Hs Hu. split.
  - intros x Hx Hi. destruct (R x) as (k & r & ET & Sh); [apply elem_of_all_of; eauto|]. exists r.
    pose proof Sh as (e & c' & h' & E & _ & Ec' & Hin & Ht' & Hn' & Hh & Hs' & Ek). unfold is_export in Hi. rewrite E in Hi.
    apply andb_true_iff in Hi as [Hcl%bool_decide_eq_true Hp%streq_true]. destruct (proj1 G _ _ Ec') as (c1 & E1 & T1 & N1).
    rewrite Hcl in E1. assert (c1 = c) as -> by congruence.
    assert (k = host_key h path) as <-; [|done]. rewrite Ek.
    unfold host_key. apply strcaseeq_spec in Hs, Hs'. rewrite Hp. f_equal. f_equal; congruence.
  - intros x r Hx (e & c' & h' & E & -> & Ec' & Hin & Ht' & Hn' & Hh & Hs' & Hk). unfold host_key in Hk. injection Hk as Hk1 Hk2 Hk3.
    assert (m_client e = clp) as Hcl.
    { apply (Hu _ c'); [by rewrite Hk1, <- Ht'|done|]. apply strcaseeq_spec in Hs'. apply strcaseeq_spec.
      change (tolower <$> canon ns h = tolower <$> m_hostname c'). by rewrite Hk2. }
    split.
    + apply elem_of_all_of in Hx as (t & Hx). destruct (so_type st L Hst t x Hx) as (e' & E' & Et). assert (e' = e) as -> by congruence.
      unfold client_type in Et. rewrite Ec' in Et. cbn in Et. assert (m_type c = t) as ->; [|done]. congruence.
    + unfold is_export. rewrite E, Hk3. rewrite bool_decide_eq_true_2 by done. by rewrite streq_refl.
Qed.

Lemma lookup_tab st L h clp s1 : tab_ok st L -> client_lookup ns erange (ex_clients st) h false = Some (Some clp, s1) -> tab_ok (set_clients st s1) L.
Proof.
  intros [Hst Hr] Hc. split; [apply st_ok_clients; [done|by apply (client_lookup_types _ _ _ _ _ _ _ Hc)]|].
  apply refs_ok_lookup; [done..|by eapply client_lookup_counts].
Qed.

Lemma tmap_lookup st L T h path :
  tmap st L T -> known ns P erange h ->
  exists o st', export_lookup ns erange st h path false = Some (o, st') /\ tmap st' L T /\
    match o with
    | None => T !! host_key h path = None
    | Some id => id ∈ all_of L /\ exists r, T !! host_key h path = Some r /\ shows st' id (host_key h path) r
    end.
Proof.
  intros M H. destruct (client_named (ex_clients st) h (tm_hosts _ _ _ M) (tm_wf _ _ _ M) H)
    as (clp & s1 & c & Ec & W1 & G & Es & Hin & Ht & Hs & Hu).
  destruct (export_lookup_run ns erange st L h path false clp s1 (to_st _ _ (tm_tab _ _ _ M)) Ec) as (c' & Ec' & ->).
  assert (c' = c) as -> by congruence. eexists _, _. split; [reflexivity|].
  pose proof (tmap_clients st L T s1 M (lookup_tab _ _ _ _ _ (tm_tab _ _ _ M) Ec) W1 G) as M1. split; [done|].
  destruct (key_is_export st L T h path clp s1 c M G Es Ht Hs Hu) as [K1 K2].
  destruct (List.find _ _) as [id|] eqn:Ef.
  - apply find_some in Ef as [Hid%list_elem_of_In Hi]. destruct (K1 id Hid Hi) as (r & ET & Sh).
    split; [apply elem_of_all_of; eauto|]. exists r. split; [done|]. by refine (shows_kept st (set_clients st s1) _ _ _ eq_refl G Sh).
  - apply eq_None_not_Some. intros [r ET]. destruct (tm_all _ _ _ M _ _ ET) as (x & Hx & Sh). destruct (K2 x r Hx Sh) as [Hxl Hi].
    apply find_none_inv in Ef. apply (proj1 (Forall_forall _ _) Ef) in Hxl. congruence.
Qed.

Lemma tmap_create st L T xp h :
  tmap st L T -> e_hostname xp = Some h -> known ns P erange h -> T !! ekey xp = None ->
  exists id st' L', export_create ns erange st xp false = Some (Some id, st') /\ tmap st' L' (<[ekey xp := (copy_ent xp, false)]> T) /\
    id ∈ all_of L' /\ shows st' id (ekey xp) (copy_ent xp, false).
Proof.
  intros M Hh H ET. assert (ekey xp = host_key h (e_path xp)) as Ek by (unfold ekey; by rewrite Hh). rewrite Ek in *.
  destruct (client_named (ex_clients st) h (tm_hosts _ _ _ M) (tm_wf _ _ _ M) H)
    as (clp & s1 & c & Ec & W1 & G & Es & Hin & Ht & Hs & Hu).
  destruct (key_is_export st L T h (e_path xp) clp s1 c M G Es Ht Hs Hu) as [K1 K2].
  assert (List.find (is_export (ex_store st) clp (e_path xp)) (L (m_type c)) = None) as Hnone.
  { destruct (List.find _ _) as [x|] eqn:Ef; [|done]. apply find_some in Ef as [Hx%list_elem_of_In Hi].
    destruct (K1 x Hx Hi) as (r & ET' & _). congruence. }
  destruct (export_create_tab ns erange st L xp h false clp c s1 (tm_tab _ _ _ M) Hh Ec Es Hnone) as
    (id & st' & L' & Ecr & Htab' & _ & HP & Hnew & Hold & Hid & Hcl & Hcs).
  assert (grown (ex_clients st) (ex_clients st')) as G'.
  { destruct G as [G1 G2]. split.
    - intros i ci Ei. destruct (G1 i ci Ei) as (ci' & Ei' & Hty & Hna). rewrite Hcs. destruct (decide (clp = i)) as [<-|].
      + rewrite lookup_insert_eq. eexists. split; [reflexivity|]. assert (ci' = c) as -> by congruence. done.
      + rewrite lookup_insert_ne by done. eauto.
    - intros t i Hi. rewrite Hcl. by apply G2. }
  assert (shows st' id (host_key h (e_path xp)) (copy_ent xp, false)) as Sid.
  { destruct (ex_store st' !! id) as [e|] eqn:Ee; [|done]. apply Some_inj in Hnew.
    assert (row_of e = (copy_ent xp, false) /\ m_client e = clp) as [Hr Hc] by (destruct e; injection Hnew; intros; by subst).
    assert (m_export e = copy_ent xp) as Hx by (by injection Hr). exists e, (set_count c (m_count c + 1)), h.
    rewrite Hr, Hc, Hx, Hcs, lookup_insert_eq, Hcl. cbn [m_type set_count m_hostname]. split_and!; try done. apply H. }
  assert (forall x k r, x ∈ all_of L -> shows st x k r -> shows st' x k r) as Hsh.
  { intros x k r Hx. apply shows_kept; [|done]. apply Hold. by intros ->. }
  assert (forall x k r, x ∈ all_of L -> shows st' x k r -> shows st x k r) as Hback.
  { intros x k r Hx Sh. destruct (tm_row _ _ _ M x Hx) as (k' & r' & _ & Sh'). by destruct (shows_fun _ _ _ _ _ _ Sh (Hsh _ _ _ Hx Sh')) as [-> ->]. }
  assert (forall x, x ∈ all_of L' <-> x = id \/ x ∈ all_of L) as HL by (intros x; rewrite HP; apply elem_of_cons).
  exists id, st', L'. split_and!; [done| |by apply HL; left|done]. split; [done|..].
  - apply (clients_ok_count ns P s1 _ clp c (m_count c + 1) W1 Es Hcs). intros t. by rewrite Hcl.
  - apply (tm_hosts _ _ _ M).
  - intros x [->|Hx]%HL; [eexists _, _; split; [apply lookup_insert_eq|done]|]. destruct (tm_row _ _ _ M x Hx) as (k & r & E & Sh).
    exists k, r. split; [|by apply Hsh]. rewrite lookup_insert_ne; [done|]. intros <-. congruence.
  - intros k r E. apply lookup_insert_Some in E as [[<- <-]|[Hne E]]; [exists id; split; [by apply HL; left|done]|].
    destruct (tm_all _ _ _ M k r E) as (x & Hx & Sh). exists x. split; [by apply HL; right|by apply Hsh].
  - assert (forall y k r r', y ∈ all_of L -> shows st' id k r -> shows st' y k r' -> False) as Hno.
    { intros y k r r' Hy S1 S2. destruct (shows_fun _ _ _ _ _ _ S1 Sid) as [-> _]. apply (Hback _ _ _ Hy) in S2.
      destruct (tm_row _ _ _ M y Hy) as (k2 & r2 & E2 & S2'). destruct (shows_fun _ _ _ _ _ _ S2 S2') as [<- _]. congruence. }
    intros x y k r r' [->|Hx]%HL [->|Hy]%HL Sx Sy; [done|by destruct (Hno y k r r')|by destruct (Hno x k r' r)|].
    eapply (tm_inj _ _ _ M x y k r r'); eauto.
Qed.

(** Entries and marks change, each according to its key. *)
Definition rows (f : tkey -> row -> row) (T : gmap tkey row) : gmap tkey row := map_imap (fun k r => Some (f k r)) T.

Lemma lookup_rows f T k : rows f T !! k = f k <$> T !! k.
Proof. unfold rows. rewrite map_lookup_imap. by destruct (T !! k). Qed.

Lemma tmap_change st L T m' (f : tkey -> row -> row) :
  tmap st L T ->
  (forall x, linkage <$> m' !! x = linkage <$> ex_store st !! x) ->
  (forall x e e', ex_store st !! x = Some e -> m' !! x = Some e' -> e_hostname (m_export e') = e_hostname (m_export e)) ->
  (forall x k r e', x ∈ all_of L -> shows st x k r -> m' !! x = Some e' -> row_of e' = f k r) ->
  tmap (set_store st m') L (rows f T).
Proof.
  intros [Ht W N R A I] Hl Hh Hf.
  assert (forall x k r, x ∈ all_of L -> shows st x k r -> shows (set_store st m') x k (f k r)) as Hs.
  { intros x k r Hx Sh. pose proof Sh as (e & c & h & E & -> & Ec & Hin & Hty & Hn & Hhn & Hsn & ->). specialize (Hl x). rewrite E in Hl.
    destruct (m' !! x) as [e'|] eqn:E'; [|done]. unfold linkage in Hl. cbn in Hl. injection Hl as _ Hc Hp.
    exists e', c, h. cbn [ex_store ex_clients set_store]. rewrite Hc, (Hh x e e' E E'), Hp. split_and!; try done. symmetry. by eapply Hf. }
  assert (forall x k r, x ∈ all_of L -> shows (set_store st m') x k r -> exists r0, shows st x k r0 /\ r = f k r0) as Hb.
  { intros x k r Hx Sh. destruct (R x Hx) as (k0 & r0 & _ & S0). destruct (shows_fun _ _ _ _ _ _ Sh (Hs _ _ _ Hx S0)) as [-> ->]. eauto. }
  split; try done; [by apply change_nodes_tab|..].
  - intros x Hx. destruct (R x Hx) as (k & r & E & Sh). exists k, (f k r). split; [|by apply Hs]. by rewrite lookup_rows, E.
  - intros k r. rewrite lookup_rows. destruct (T !! k) as [r0|] eqn:E; [|done]. cbn. intros [= <-].
    destruct (A k r0 E) as (x & Hx & Sh). exists x. split; [done|by apply Hs].
  - intros x y k r r' Hx Hy Sx Sy. destruct (Hb _ _ _ Hx Sx) as (r1 & S1 & _), (Hb _ _ _ Hy Sy) as (r2 & S2 & _). by eapply I.
Qed.

Lemma tmap_update st L T id e e' k :
  tmap st L T -> id ∈ all_of L -> ex_store st !! id = Some e -> shows st id k (row_of e) ->
  m_next e' = m_next e -> m_client e' = m_client e -> ident (m_export e') = ident (m_export e) ->
  tmap (set_store st (<[id := e']> (ex_store st))) L (<[k := row_of e']> T) /\
  shows (set_store st (<[id := e']> (ex_store st))) id k (row_of e').
Proof.
  intros M Hid E Sk Hn Hc [= Hh Hp]. set (m' := <[id := e']> (ex_store st)).
  assert (shows (set_store st m') id k (row_of e')) as Sk'.
  { destruct Sk as (e0 & c & h & E0 & _ & Ec & Hin & Hty & Hnm & Hhn & Hsn & ->). assert (e0 = e) as -> by congruence.
    exists e', c, h. cbn [ex_store ex_clients set_store]. unfold m'. rewrite lookup_insert_eq, Hc, Hh, Hp. by split_and!. }
  split; [|done].
  assert (<[k := row_of e']> T = rows (fun k0 r => if decide (k0 = k) then row_of e' else r) T) as ->.
  { apply map_eq. intros k0. rewrite lookup_rows. destruct (tm_row _ _ _ M id Hid) as (k1 & r1 & E1 & S1).
    destruct (shows_fun _ _ _ _ _ _ Sk S1) as [<- _]. destruct (decide (k = k0)) as [<-|].
    - rewrite lookup_insert_eq, E1. cbn. by rewrite decide_True.
    - rewrite lookup_insert_ne by done. destruct (T !! k0); [|done]. cbn. by rewrite decide_False. }
  apply tmap_change; [done|..].
  - intros y. unfold m'. destruct (decide (id = y)) as [<-|]; [|by rewrite lookup_insert_ne].
    rewrite lookup_insert_eq, E. unfold linkage. cbn. by rewrite Hn, Hc, Hp.
  - intros x ex ex' Ex. unfold m'. destruct (decide (id = x)) as [<-|]; [rewrite lookup_insert_eq; intros [= <-]; congruence|].
    rewrite lookup_insert_ne by done. congruence.
  - intros x k0 r ex Hx Sx. unfold m'. destruct (decide (id = x)) as [<-|Hne].
    + rewrite lookup_insert_eq. intros [= <-]. destruct (shows_fun _ _ _ _ _ _ Sk Sx) as [<- _]. by rewrite decide_True.
    + rewrite lookup_insert_ne by done. intros Ex. rewrite decide_False.
      * destruct Sx as (ex0 & ? & ? & E0 & -> & _). congruence.
      * intros ->. apply Hne. eapply (tm_inj _ _ _ M id x k); eauto.
Qed.

(** ** Reading files *)

Definition good_entry (xp : exportent) : Prop := exists h, e_hostname xp = Some h /\ known ns P erange h.

(** The first entry for a client and a path counts. *)
Definition add_file (T : gmap tkey row) (xp : exportent) : gmap tkey row :=
  match T !! ekey xp with Some _ => T | None => <[ekey xp := (copy_ent xp, false)]> T end.

Lemma read_loop_map eeps st L T v re :
  tmap st L T -> Forall good_entry eeps ->
  exists st' L' v' re', read_loop ns erange st eeps false v re = Some (st', v', re') /\ tmap st' L' (foldl add_file T eeps).
Proof.
  revert st L T v re; induction eeps as [|xp eeps IH]; intros st L T v re M H; [eauto 6|]. apply Forall_cons in H as [(h & Hh & Hm) H].
  destruct (tmap_lookup st L T h (e_path xp) M Hm) as (o & st1 & E & M1 & Ho). cbn [read_loop foldl]. rewrite Hh. cbn [mbind option_bind].
  rewrite E. cbn [mbind option_bind]. assert (host_key h (e_path xp) = ekey xp) as Ek by (unfold ekey; by rewrite Hh). rewrite Ek in Ho.
  unfold add_file at 2. destruct o as [id|].
  - destruct Ho as (_ & r & -> & _). eapply IH; [exact M1|done].
  - rewrite Ho. destruct (tmap_create st1 L T xp h M1 Hh Hm Ho) as (id & st2 & L2 & -> & M2 & _). cbn [mbind option_bind]. by eapply IH.
Qed.

Lemma export_read_map eeps st L T :
  tmap st L T -> Forall good_entry eeps ->
  exists st' L' v, export_read ns erange st eeps false = Some (st', v) /\ tmap st' L' (foldl add_file T eeps).
Proof.
  intros M H. destruct (read_loop_map eeps st L T 0 false M H) as (st' & L' & v & re & E & M'). unfold export_read. rewrite E.
  cbn [mbind option_bind]. destruct re; [|eauto]. pose proof (fsid_types_ok st' L' mcl_types (to_st _ _ (tm_tab _ _ _ M'))).
  destruct (fsid_types mcl_types st'); [|done]. cbn [mbind option_bind]. eauto.
Qed.

Lemma read_exports_map files st L T :
  tmap st L T -> Forall (Forall good_entry) files ->
  exists st' L', read_exports ns erange st files = Some st' /\ tmap st' L' (foldl add_file T (concat files)).
Proof.
  revert st L T; induction files as [|eeps files IH]; intros st L T M H; [eauto|]. apply Forall_cons in H as [H1 H2].
  destruct (export_read_map eeps st L T M H1) as (st1 & L1 & v & E & M1). cbn [read_exports concat]. rewrite E. cbn [mbind option_bind].
  rewrite foldl_app. by eapply IH.
Qed.

(** An entry of etab marks the export, or adds it when there is none. *)
Definition kept (o : option row) (ep : exportent) : exportent := match o with Some r => r.1 | None => ep end.
Definition add_etab (T : gmap tkey row) (xp : exportent) : gmap tkey row :=
  <[ekey xp := (kept (T !! ekey xp) (copy_ent xp), true)]> T.

Lemma xtab_loop_map xps st L T v :
  tmap st L T -> Forall good_entry xps ->
  exists st' L' v', xtab_loop ns erange st xps true v = Some (st', v') /\ tmap st' L' (foldl add_etab T xps).
Proof.
  revert st L T v; induction xps as [|xp xps IH]; intros st L T v M H; [eauto|]. apply Forall_cons in H as [(h & Hh & Hm) H].
  destruct (tmap_lookup st L T h (e_path xp) M Hm) as (o & st1 & E & M1 & Ho). cbn [xtab_loop foldl]. rewrite Hh. cbn [mbind option_bind negb].
  rewrite E. cbn [mbind option_bind]. assert (host_key h (e_path xp) = ekey xp) as Ek by (unfold ekey; by rewrite Hh). rewrite Ek in Ho.
  assert (exists id st2 L2 r, match o with Some id => Some (Some id, st1) | None => export_create ns erange st1 xp false end = Some (Some id, st2) /\
            tmap st2 L2 (<[ekey xp := r]> T) /\ id ∈ all_of L2 /\ shows st2 id (ekey xp) r /\
            r.1 = kept (T !! ekey xp) (copy_ent xp)) as (id & st2 & L2 & r & -> & M2 & Hid & Sh & Hr).
  { destruct o as [id|].
    - destruct Ho as (Hid & r & ET & Sh). exists id, st1, L, r. split; [done|]. split; [by rewrite insert_id|]. split_and!; try done. by rewrite ET.
    - destruct (tmap_create st1 L T xp h M1 Hh Hm Ho) as (id & st2 & L2 & Ec & M2 & Hid & Sh). eexists id, st2, L2, _. rewrite Ho.
      by split_and!. }
  cbn [mbind option_bind]. pose proof Sh as (e & c & h' & Ee & -> & _). rewrite Ee. cbn [mbind option_bind].
  destruct (tmap_update st2 L2 _ id e (set_marks e (ex_exported e) true true) _ M2 Hid Ee Sh eq_refl eq_refl eq_refl) as [M3 _].
  rewrite insert_insert_eq in M3. unfold add_etab at 2. unfold row_of in Hr. cbn in Hr. rewrite <- Hr. cbn [row_of m_export m_xtabent set_marks] in M3. by eapply IH.
Qed.

(** ** Marking *)

Context (m : Z) (db : cstr -> bool -> option Z) (kv : kview).

Definition realised (ep : exportent) : exportent := (exportent_realpath kv ep).1.

Lemma realised_ident ep : ident (realised ep) = ident ep.
Proof. unfold realised, exportent_realpath. by destruct (e_realpath ep). Qed.
Lemma realised_dup ep : dupexportent (realised ep) = dupexportent ep.
Proof. unfold realised, exportent_realpath. by destruct (e_realpath ep). Qed.

Lemma realised_idem ep : realised (realised ep) = realised ep.
Proof. unfold realised, exportent_realpath. destruct (e_realpath ep) eqn:E; [|done]. cbn. by rewrite E. Qed.

Definition marked (e : nfs_export) : nfs_export :=
  Export (m_next e) (m_client e) (realised (m_export e)) (ex_exported e) true true true false.

Lemma mark_export_eq st id e : ex_store st !! id = Some e -> mark_export kv st id = Some (set_store st (<[id := marked e]> (ex_store st))).
Proof.
  intros E. unfold mark_export. rewrite E. cbn [mbind option_bind]. unfold validate_export, marked, realised.
  by destruct (exportent_realpath kv _).
Qed.

Lemma mark_export_map st L T id k r :
  tmap st L T -> id ∈ all_of L -> shows st id k r ->
  exists st', mark_export kv st id = Some st' /\ tmap st' L (<[k := (realised r.1, true)]> T).
Proof.
  intros M Hid Sh. pose proof Sh as (e & c & h & E & -> & _). rewrite (mark_export_eq st id e E). eexists. split; [done|].
  eapply (tmap_update st L T id e (marked e) k); try done. apply realised_ident.
Qed.

(** The walk over one list replaces its nodes. *)
Lemma all_loop_run fuel st p l :
  chain (ex_store st) p l None -> NoDup l -> (length l <= fuel)%nat ->
  exists mm, all_loop kv fuel st p = Some (set_store st mm) /\
    forall x, mm !! x = if decide (x ∈ l) then marked <$> ex_store st !! x else ex_store st !! x.
Proof.
  revert fuel st p; induction l as [|y l IH]; intros fuel st p Hc Hn Hf.
  - cbn in Hc. subst p. exists (ex_store st). split; [destruct fuel; by destruct st|]. intros x. rewrite decide_False by set_solver. done.
  - destruct Hc as (-> & e & E & Hc). apply NoDup_cons in Hn as [Hy Hn]. destruct fuel as [|fuel]; [cbn in Hf; lia|].
    cbn [all_loop]. rewrite (mark_export_eq st y e E). cbn [mbind option_bind ex_store set_store]. rewrite lookup_insert_eq.
    cbn [mbind option_bind marked m_next].
    destruct (IH fuel (set_store st (<[y := marked e]> (ex_store st))) (m_next e)) as (mm & -> & Hm); [by apply chain_frame|done|cbn in Hf; lia|].
    exists mm. split; [done|]. intros x. rewrite Hm. cbn [ex_store set_store]. destruct (decide (x = y)) as [->|Hne].
    + rewrite decide_False by done. rewrite decide_True by (by left). by rewrite lookup_insert_eq, E.
    + rewrite lookup_insert_ne by done. destruct (decide (x ∈ l)); [rewrite decide_True by (by right)|rewrite decide_False by set_solver]; done.
Qed.

Definition mark_types (types : list mcl_type) (k : tkey) (r : row) : row := if decide (k.1.1 ∈ types) then (realised r.1, true) else r.

Lemma all_types_map types st L T :
  tmap st L T -> exists st', all_types kv types st = Some st' /\ tmap st' L (rows (mark_types types) T).
Proof.
  clear erange m db. revert st T; induction types as [|t types IH]; intros st T M.
  - exists st. split; [done|]. assert (rows (mark_types []) T = T) as ->; [|done].
    apply map_eq. intros k. rewrite lookup_rows. destruct (T !! k); [|done]. cbn. unfold mark_types. by rewrite decide_False by apply not_elem_of_nil.
  - cbn [all_types]. pose proof (to_st _ _ (tm_tab _ _ _ M)) as Hst. destruct (so_table st L Hst t) as [Hc Hn _].
    destruct (all_loop_run (size (ex_store st)) st (p_head (exportlist st t)) (L t) Hc Hn) as (mm & -> & Hm); [by eapply chain_size|].
    cbn [mbind option_bind].
    assert (tmap (set_store st mm) L (rows (mark_types [t]) T)) as M1.
    { apply tmap_change; [done|..].
      - intros x. rewrite Hm. destruct (decide _); [|done]. destruct (ex_store st !! x) as [ex|]; [|done]. cbn [fmap option_fmap option_map].
        unfold linkage, marked. cbn [m_next m_client m_export]. by injection (realised_ident (m_export ex)) as _ ->.
      - intros x e e' E. rewrite Hm, E. destruct (decide _); cbn [fmap option_fmap option_map]; intros [= <-]; [|done]. cbn [m_export marked]. by injection (realised_ident (m_export e)).
      - intros x k r e' Hx Sh. rewrite Hm. pose proof Sh as (e & c & h & E & -> & Ec & Hin & Hty & Hnm & Hhn & Hsn & ->). rewrite E.
        assert (x ∈ L t <-> client_gettype h = t) as Hiff.
        { apply elem_of_all_of in Hx as (t' & Hx). destruct (so_type st L Hst t' x Hx) as (e1 & E1 & Et). assert (e1 = e) as -> by congruence.
          unfold client_type in Et. rewrite Ec in Et. cbn in Et. assert (client_gettype h = t') as -> by congruence.
          split; [intros Hx'; by rewrite (so_disjoint st L t t' x Hst Hx' Hx)|by intros <-]. }
        unfold mark_types. cbn [host_key fst]. destruct (decide (x ∈ L t)) as [Hd|Hd]; intros [= <-].
        + rewrite decide_True by (apply list_elem_of_singleton; tauto). done.
        + rewrite decide_False by (rewrite list_elem_of_singleton; tauto). done. }
    destruct (IH _ _ M1) as (st' & E & M'). exists st'. split; [done|].
    match goal with H : tmap st' L ?X |- tmap st' L ?Y => assert (X = Y) as <-; [|done] end.
    apply map_eq. intros k. rewrite !lookup_rows. destruct (T !! k) as [r|]; [|done]. cbn. f_equal. unfold mark_types.
    destruct (decide (k.1.1 = t)) as [->|Hne].
    + rewrite (decide_True (P := t ∈ [t])) by (by left). rewrite (decide_True (P := t ∈ t :: types)) by (by left). case_decide; [|done].
      cbn [fst]. by rewrite realised_idem.
    + rewrite (decide_False (P := k.1.1 ∈ [t])) by set_solver.
      destruct (decide (k.1.1 ∈ types)); [rewrite decide_True by (by right)|rewrite decide_False by set_solver]; done.
Qed.

(** ** Arguments *)

Definition arg_step (options : option cstr) (a : exportent * gmap tkey row) (arg : cstr) : exportent * gmap tkey row :=
  let '(ee, T) := a in
  match target arg with
  | None => a
  | Some (h, path) =>
      match (T !! host_key h path : option row) with
      | Some r =>
          let '(ep, ok) := updateexportent m db r.1 options in
          (ee, <[host_key h path := if ok : bool then (realised ep, true) else (ep, r.2)]> T)
      | None =>
          match mkexportent m db ee h path options with
          | (ee, None) => (ee, T)
          | (ee, Some ep) => (ee, <[host_key h path := (realised (copy_ent ep), true)]> T)
          end
      end
  end.

(** Arguments name their clients by network, netgroup, pattern or as everybody:
    for a single host [export_find] may split it off a wider export. *)
Definition good_arg (arg : cstr) : Prop := forall h path, target arg = Some (h, path) -> named h /\ known ns P erange h.

Lemma copy_ident ep : ident (copy_ent ep) = ident ep.
Proof. done. Qed.

Lemma exportfs_map ee st L T arg options :
  tmap st L T -> good_arg arg ->
  exists st' L', exportfs ns erange m db kv ee st arg options = Some ((arg_step options (ee, T) arg).1, st') /\
    tmap st' L' (arg_step options (ee, T) arg).2.
Proof.
  intros M Ha. unfold exportfs, arg_step. destruct (target arg) as [[h path]|] eqn:Et; [|eauto]. specialize (Ha h path Et).
  unfold exportfs_parsed. rewrite bool_decide_eq_false_2 by apply Ha. destruct Ha as [_ Ha].
  destruct (tmap_lookup st L T h path M Ha) as (o & st1 & -> & M1 & Ho). cbn [mbind option_bind]. destruct o as [id|].
  - destruct Ho as (Hid & r & -> & Sh). pose proof Sh as (e & c & h' & E & -> & _). rewrite E. cbn [mbind option_bind fst row_of].
    pose proof (update_ident m db (m_export e) options) as Hi. destruct (updateexportent m db (m_export e) options) as [ep ok].
    destruct (tmap_update st1 L T id e (set_ent e ep) _ M1 Hid E Sh eq_refl eq_refl Hi) as [M2 S2].
    destruct ok; [|by eexists _, _].
    destruct (mark_export_map _ _ _ _ _ _ M2 Hid S2) as (st' & -> & M3). rewrite insert_insert_eq in M3. by eexists _, _.
  - rewrite Ho. cbn [mbind option_bind]. destruct (mkexportent m db ee h path options) as [ee' [ep|]] eqn:Em; [|by eexists _, _].
    pose proof (mkexportent_ident _ _ _ _ _ _ _ _ Em) as Hi. injection Hi as Hh Hp.
    assert (ekey ep = host_key h path) as Ek by (unfold ekey; by rewrite Hh, Hp).
    destruct (tmap_create st1 L T ep h M1 Hh Ha) as (id & st2 & L2 & -> & M2 & Hid & Sh); [by rewrite Ek|]. cbn [mbind option_bind].
    destruct (mark_export_map _ _ _ _ _ _ M2 Hid Sh) as (st' & -> & M3). rewrite insert_insert_eq, Ek in M3. by eexists _, _.
Qed.

Lemma exportfs_args_map args ee st L T options :
  tmap st L T -> Forall good_arg args ->
  exists st' L', exportfs_args ns erange m db kv ee st args options = Some st' /\ tmap st' L' (foldl (arg_step options) (ee, T) args).2.
Proof.
  revert ee st L T; induction args as [|arg args IH]; intros ee st L T M H; [eauto|]. apply Forall_cons in H as [Ha H].
  destruct (exportfs_map ee st L T arg options M Ha) as (st1 & L1 & E & M1). cbn [exportfs_args foldl]. rewrite E. cbn [mbind option_bind].
  destruct (arg_step options (ee, T) arg) as [ee1 T1]. by eapply IH.
Qed.

(** ** Taking exports back *)

Definition unmarked (hit : nfs_export -> bool) (e : nfs_export) : nfs_export :=
  if hit e then set_marks e (ex_exported e) false false else e.

Lemma unexport_loop_run hit fuel st p l htype hname path nlen :
  (forall x e, x ∈ l -> ex_store st !! x = Some e -> unexport_matches ns st e htype hname path nlen = Some (hit e)) ->
  chain (ex_store st) p l None -> NoDup l -> (length l <= fuel)%nat ->
  exists mm, unexport_loop ns fuel st p htype hname path nlen = Some (set_store st mm) /\
    forall x, mm !! x = if decide (x ∈ l) then unmarked hit <$> ex_store st !! x else ex_store st !! x.
Proof.
  revert fuel st p; induction l as [|y l IH]; intros fuel st p Hh Hc Hn Hf.
  - cbn in Hc. subst p. exists (ex_store st). split; [destruct fuel; by destruct st|]. intros x. by rewrite decide_False by apply not_elem_of_nil.
  - destruct Hc as (-> & e & E & Hc). apply NoDup_cons in Hn as [Hy Hn]. destruct fuel as [|fuel]; [cbn in Hf; lia|].
    cbn [unexport_loop]. rewrite E. cbn [mbind option_bind]. rewrite (Hh y e) by (done || by left). cbn [mbind option_bind].
    fold (unmarked hit e). set (st1 := set_store st (<[y := unmarked hit e]> (ex_store st))).
    destruct (IH fuel st1 (m_next e)) as (mm & -> & Hm); [|by apply chain_frame|done|cbn in Hf; lia|].
    { intros x ex Hx Ex. unfold st1 in Ex. cbn [ex_store set_store] in Ex. rewrite lookup_insert_ne in Ex by congruence.
      apply (Hh x ex); [by right|done]. }
    exists mm. split; [done|]. intros x. rewrite Hm. unfold st1. cbn [ex_store set_store]. destruct (decide (x = y)) as [->|Hne].
    + rewrite decide_False by done. rewrite decide_True by (by left). by rewrite lookup_insert_eq, E.
    + rewrite lookup_insert_ne by done. destruct (decide (x ∈ l)); [rewrite decide_True by (by right)|rewrite decide_False by (by rewrite not_elem_of_cons)]; done.
Qed.

Lemma path_len_le path n : (path_len path n <= n)%nat.
Proof.
  induction n as [|[|n] IH]; [done..|].
  change (path_len path (S (S n))) with (if ceqb (at_index path (S n)) "/" then path_len path (S n) else S (S n)). destruct (ceqb _ _); lia.
Qed.

(** The key that an argument takes back; trailing slashes do not count. *)
Definition unexport_key (h path : cstr) : tkey := host_key h (take (path_len path (length path)) path).

Lemma unexport_matches_key st x k r e h path :
  shows st x k r -> ex_store st !! x = Some e -> named h ->
  unexport_matches ns st e (client_gettype h) h path (path_len path (length path)) = Some (bool_decide (k = unexport_key h path)).
Proof.
  intros (e' & c & h' & E & -> & Ec & Hin & Hty & Hn & Hh & Hs & ->) E' Hnh. assert (e' = e) as -> by congruence.
  unfold unexport_matches, unexport_key, host_key. pose proof (path_len_le path (length path)) as Hl. set (n := path_len path (length path)) in *.
  rewrite Ec, Hh. cbn [mbind option_bind].
  destruct (negb (length (e_path (m_export e)) =? n)%nat) eqn:El.
  { rewrite bool_decide_eq_false_2; [done|]. intros [= _ _ Hp]. apply (f_equal length) in Hp. rewrite length_take in Hp.
    apply negb_true_iff, Nat.eqb_neq in El. lia. }
  apply negb_false_iff, Nat.eqb_eq in El. rewrite (take_ge (e_path (m_export e)) n) by lia.
  destruct (negb (streq (take n path) (e_path (m_export e)))) eqn:Ep.
  { rewrite bool_decide_eq_false_2; [done|]. intros [= _ _ Hp]. apply negb_true_iff, streq_false in Ep. congruence. }
  apply negb_false_iff, streq_true in Ep. rewrite <- Ep, Hty.
  destruct (negb (bool_decide (client_gettype h = client_gettype h'))) eqn:Et.
  { rewrite bool_decide_eq_false_2; [done|]. intros [= Ht _]. apply negb_true_iff, bool_decide_eq_false in Et. congruence. }
  apply negb_false_iff, bool_decide_eq_true in Et. rewrite (bool_decide_eq_false_2 (client_gettype h = MCL_FQDN)) by apply Hnh. f_equal.
  rewrite (canon_named ns h) by done. rewrite (canon_named ns h') by (by rewrite <- Et).
  rewrite Et. destruct (strcaseeq h' h) eqn:Es; symmetry.
  - apply bool_decide_eq_true_2. apply strcaseeq_spec in Es. change (tolower <$> h' = tolower <$> h) in Es. by rewrite Es.
  - apply bool_decide_eq_false_2. intros [= Hlow]. apply not_true_iff_false in Es. apply Es, strcaseeq_spec. exact Hlow.
Qed.

Definition unmark_key (k0 : tkey) (k : tkey) (r : row) : row := if decide (k = k0) then (r.1, false) else r.

Lemma in_list_type st L T x e c : tmap st L T -> x ∈ all_of L -> ex_store st !! x = Some e -> cl_store (ex_clients st) !! m_client e = Some c -> x ∈ L (m_type c).
Proof.
  intros M Hx E Ec. apply elem_of_all_of in Hx as (t' & Hx). destruct (so_type st L (to_st _ _ (tm_tab _ _ _ M)) t' x Hx) as (e1 & E1 & Et).
  assert (e1 = e) as -> by congruence. unfold client_type in Et. rewrite Ec in Et. cbn in Et. by assert (m_type c = t') as -> by congruence.
Qed.

Lemma unexportfs_parsed_map st L T h path :
  tmap st L T -> named h ->
  exists st', unexportfs_parsed ns st h path = Some st' /\ tmap st' L (rows (unmark_key (unexport_key h path)) T).
Proof.
  intros M Hn. unfold unexportfs_parsed. rewrite bool_decide_eq_false_2 by apply Hn. cbn [mbind option_bind].
  pose proof (to_st _ _ (tm_tab _ _ _ M)) as Hst. destruct (so_table st L Hst (client_gettype h)) as [Hc Hnd _].
  set (hit := fun e => match e_hostname (m_export e) with Some h' => bool_decide (host_key h' (e_path (m_export e)) = unexport_key h path) | None => false end).
  assert (forall x k r e, x ∈ all_of L -> shows st x k r -> ex_store st !! x = Some e -> hit e = bool_decide (k = unexport_key h path)) as Hhit.
  { intros x k r e _ (e' & c & h' & E & _ & _ & _ & _ & _ & Hh & _ & ->) E'. assert (e' = e) as -> by congruence. unfold hit. by rewrite Hh. }
  destruct (unexport_loop_run hit (size (ex_store st)) st (p_head (exportlist st (client_gettype h))) (L (client_gettype h))
              (client_gettype h) h path (path_len path (length path))) as (mm & -> & Hm); [|done|done|by eapply chain_size|].
  { intros x e Hx E. assert (x ∈ all_of L) as Hxa by (apply elem_of_all_of; eauto). destruct (tm_row _ _ _ M x Hxa) as (k & r & _ & Sh).
    rewrite (unexport_matches_key st x k r e h path Sh E Hn). f_equal. symmetry. by eapply Hhit. }
  eexists. split; [reflexivity|]. apply tmap_change; [done|..].
  - intros x. rewrite Hm. destruct (decide _); [|done]. destruct (ex_store st !! x) as [ex|]; [|done]. cbn. unfold unmarked. by destruct (hit ex).
  - intros x e e' E. rewrite Hm, E. destruct (decide _); cbn; intros [= <-]; [|done]. unfold unmarked. by destruct (hit e).
  - intros x k r e' Hx Sh. rewrite Hm. pose proof Sh as (e & c & h' & E & -> & Ec & Hin & Hty & Hnm & Hhn & Hsn & Ek). rewrite E.
    pose proof (Hhit x k _ e Hx Sh E) as He. pose proof (in_list_type st L T x e c M Hx E Ec) as Hxt. unfold unmark_key.
    destruct (decide (x ∈ L (client_gettype h))) as [Hd|Hd]; cbn; intros [= <-].
    + unfold unmarked. rewrite He. by destruct (decide (k = unexport_key h path)); [rewrite bool_decide_eq_true_2|rewrite bool_decide_eq_false_2].
    + rewrite decide_False; [done|]. intros Hk. apply Hd. rewrite Ek in Hk. unfold unexport_key, host_key in Hk. injection Hk as Ht _ _.
      by rewrite <- Ht, <- Hty.
Qed.

Definition unarg_step (T : gmap tkey row) (arg : cstr) : gmap tkey row :=
  match target arg with Some (h, path) => rows (unmark_key (unexport_key h path)) T | None => T end.

Lemma unexportfs_args_map args st L T :
  tmap st L T -> Forall good_arg args ->
  exists st', unexportfs_args ns st args = Some st' /\ tmap st' L (foldl unarg_step T args).
Proof.
  revert st T; induction args as [|arg args IH]; intros st T M H; [eauto|]. apply Forall_cons in H as [Ha H]. cbn [unexportfs_args foldl].
  assert (exists st1, unexportfs ns st arg = Some st1 /\ tmap st1 L (unarg_step T arg)) as (st1 & -> & M1).
  { unfold unexportfs, unarg_step. destruct (target arg) as [[h path]|] eqn:Et; [|eauto]. apply unexportfs_parsed_map; [done|]. by apply (Ha h path). }
  cbn [mbind option_bind]. by apply IH.
Qed.

(** ** Writing etab *)

(** What belongs in etab, without the names and paths that only the running
    command uses. *)
Definition etab_of (T : gmap tkey row) : gmap tkey exportent := omap (fun r : row => if r.2 then Some (dupexportent r.1) else None) T.
Definition etab_map (xes : list exportent) : gmap tkey exportent := list_to_map ((fun xe => (ekey xe, dupexportent xe)) <$> xes).

Lemma etab_entry_shows st L T x k r :
  tmap st L T -> shows st x k r ->
  etab_entry st x = None /\ r.2 = false \/
  exists xe, etab_entry st x = Some xe /\ r.2 = true /\ ekey xe = k /\ dupexportent xe = dupexportent r.1.
Proof.
  intros M (e & c & h & E & -> & Ec & Hin & Hty & Hn & Hh & Hs & ->). unfold etab_entry. rewrite E. cbn [mbind option_bind]. rewrite Ec.
  cbn [mbind option_bind row_of fst snd]. destruct (m_xtabent e); [|by left]. right. eexists. split_and!; try done.
  change (host_key (m_hostname c) (e_path (m_export e)) = host_key h (e_path (m_export e))). unfold host_key.
  rewrite (co_type _ _ _ (tm_wf _ _ _ M) (m_type c) (m_client e) c), (clients_canon _ _ _ _ _ _ (tm_wf _ _ _ M) Hin Ec), Hty by done.
  f_equal. f_equal. apply strcaseeq_spec in Hs. symmetry. exact Hs.
Qed.

Lemma etab_entries_map st L T :
  tmap st L T -> NoDup (ekey <$> etab_entries st L) /\ etab_map (etab_entries st L) = etab_of T.
Proof.
  intros M. assert (NoDup (ekey <$> etab_entries st L)) as Hnd.
  { unfold etab_entries. pose proof (all_of_NoDup st L (to_st _ _ (tm_tab _ _ _ M))) as Hn.
    assert (forall x, x ∈ all_of L -> x ∈ all_of L) as Hin by done. revert Hin Hn. generalize (all_of L) at 1 3 4. intros l.
    induction l as [|x l IH]; intros Hin Hn; [constructor|]. apply NoDup_cons in Hn as [Hx Hn].
    assert (NoDup (ekey <$> omap (etab_entry st) l)) as IH' by (apply IH; [|done]; intros y Hy; apply Hin; by right).
    cbn [omap list_omap]. destruct (tm_row _ _ _ M x) as (k & r & _ & Sh); [apply Hin; by left|].
    destruct (etab_entry_shows st L T x k r M Sh) as [[-> _]|(xe & -> & _ & Ek & _)]; [done|]. cbn [fmap list_fmap]. apply NoDup_cons. split; [|done].
    intros (xe' & Ek' & Hxe)%list_elem_of_fmap. apply list_elem_of_omap in Hxe as (y & Hy & Ey).
    destruct (tm_row _ _ _ M y) as (k' & r' & _ & Sh'); [apply Hin; by right|].
    destruct (etab_entry_shows st L T y k' r' M Sh') as [[Ey' _]|(xe2 & Ey' & _ & Ek2 & _)]; [congruence|].
    assert (k' = k) as -> by congruence.
    assert (x = y) as -> by (eapply (tm_inj _ _ _ M x y k r r'); [apply Hin; by left|apply Hin; by right|done|done]). done. }
  split; [done|]. apply map_eq. intros k. apply option_eq. intros v. unfold etab_map, etab_of. rewrite lookup_omap.
  rewrite <- elem_of_list_to_map; [|by rewrite <- list_fmap_compose]. rewrite list_elem_of_fmap. split.
  - intros (xe & [= -> ->] & Hxe). apply list_elem_of_omap in Hxe as (x & Hx & Ex). destruct (tm_row _ _ _ M x Hx) as (k & r & ET & Sh).
    destruct (etab_entry_shows st L T x k r M Sh) as [[Ex' _]|(xe' & Ex' & Hr & Ek & Ed)]; [congruence|].
    assert (xe' = xe) as -> by congruence. rewrite Ek, ET. cbn. by rewrite Hr, Ed.
  - destruct (T !! k) as [r|] eqn:ET; [|done]. cbn. destruct r.2 eqn:Hr; [|done]. intros [= <-].
    destruct (tm_all _ _ _ M k r ET) as (x & Hx & Sh).
    destruct (etab_entry_shows st L T x k r M Sh) as [[_ Hr']|(xe & Ex & _ & Ek & Ed)]; [congruence|]. exists xe. split; [by rewrite Ek, Ed|].
    apply list_elem_of_omap. eauto.
Qed.

(** ** A run on maps *)

Definition writes (c : cmd) : bool :=
  negb (negb (bool_decide (args c = [])) && f_all c) && negb (f_ignore c && (f_all c || negb (f_export c))) &&
  negb (f_reexport c && negb (f_export c)) && negb (bool_decide (args c = []) && negb (f_all c)).

(** The files, the arguments and the old etab give the new one. *)
Definition exportfs_spec (c : cmd) (files : list (list exportent)) (ee : exportent) (xps : list exportent) : gmap tkey exportent :=
  let T := if f_export c && negb (f_ignore c) then foldl add_file ∅ (concat files) else ∅ in
  let T := if f_export c then if f_all c then rows (mark_types mcl_types) T else (foldl (arg_step (options c)) (ee, T) (args c)).2 else T in
  let T := if negb (f_export c) && f_all c then T
           else let T := if f_reexport c then T else foldl add_etab T xps in
                if f_export c then T else foldl unarg_step T (args c) in
  etab_of T.

Lemma empty_tmap : hosts_apart ns P -> tmap empty_tab (fun _ => []) ∅.
Proof.
  intros Hns. split.
  - apply empty_tab_tab.
  - by apply no_clients_ok.
  - done.
  - intros x Hx. by apply elem_of_nil in Hx.
  - intros k r E. by rewrite lookup_empty in E.
  - intros x y k r r' Hx. by apply elem_of_nil in Hx.
Qed.

Lemma xtab_export_read_map realpath ev st L T etab xps :
  tmap st L T -> ev_rlock ev = true -> read_file m db realpath (ev_def ev) (f_text <$> etab) (ev_stack ev) false = Some xps ->
  Forall good_entry xps ->
  exists st' L', xtab_export_read ns erange m db realpath ev st etab = Some st' /\ tmap st' L' (foldl add_etab T xps).
Proof.
  intros M Hl Hr Hg. unfold xtab_export_read, xtab_read. rewrite Hl. cbn [negb]. rewrite Hr. cbn [mbind option_bind orb].
  destruct (xtab_loop_map xps st L T true M Hg) as (st' & L' & v & -> & M'). eauto.
Qed.
End table.

Section run.
  Context (ns : resolver) (P : cstr -> Prop) (erange : bool) (m : Z) (db : cstr -> bool -> option Z) (realpath : cstr -> option cstr) (kv : kview).

(** The table at the end of a run. *)
Lemma run_table c files ev ee etab xps :
  hosts_apart ns P -> ev_rlock ev = true -> read_file m db realpath (ev_def ev) (f_text <$> etab) (ev_stack ev) false = Some xps ->
  Forall (Forall (good_entry ns P erange)) files -> Forall (good_entry ns P erange) xps -> Forall (good_arg ns P erange) (args c) ->
  exists st L T, tmap ns P st L T /\ etab_of T = exportfs_spec ns m db kv c files ee xps /\
    final_table ns erange m db realpath kv c files ev ee etab = Some st.
Proof.
  intros Hns Hl Hr Hf Hx Ha. unfold final_table, exportfs_spec.
  assert (exists st L, (if f_export c && negb (f_ignore c) then read_exports ns erange empty_tab files else Some empty_tab) = Some st /\
            tmap ns P st L (if f_export c && negb (f_ignore c) then foldl (add_file ns) ∅ (concat files) else ∅)) as (st1 & L1 & -> & M1).
  { destruct (f_export c && negb (f_ignore c)); [|eauto using empty_tmap]. by apply (read_exports_map ns P erange files _ _ _ (empty_tmap ns P Hns)). }
  cbn [mbind option_bind]. set (T1 := if f_export c && _ then _ else _) in *.
  assert (exists st L, (if f_export c then if f_all c then export_all kv st1 else exportfs_args ns erange m db kv ee st1 (args c) (options c) else Some st1) = Some st /\
            tmap ns P st L (if f_export c then if f_all c then rows (mark_types kv mcl_types) T1 else (foldl (arg_step ns m db kv (options c)) (ee, T1) (args c)).2 else T1))
    as (st2 & L2 & -> & M2).
  { destruct (f_export c); [|eauto]. destruct (f_all c).
    - destruct (all_types_map ns P kv mcl_types st1 L1 T1 M1) as (st2 & E & M2). eauto.
    - by eapply exportfs_args_map. }
  cbn [mbind option_bind]. set (T2 := if f_export c then _ else T1) in *. rewrite if_negb.
  destruct (negb (f_export c) && f_all c) eqn:Eu.
  { exists st2, L2, T2. split_and!; try done. }
  assert (exists st L, (if negb (f_reexport c) then xtab_export_read ns erange m db realpath ev st2 etab else Some st2) = Some st /\
            tmap ns P st L (if f_reexport c then T2 else foldl (add_etab ns) T2 xps)) as (st3 & L3 & -> & M3).
  { destruct (f_reexport c); [eauto|]. by eapply xtab_export_read_map. }
  cbn [mbind option_bind]. destruct (f_export c); cbn [negb mbind option_bind]; [by exists st3, L3, (if f_reexport c then T2 else foldl (add_etab ns) T2 xps)|].
  destruct (unexportfs_args_map ns P erange (args c) st3 L3 _ M3 Ha) as (st4 & -> & M4). cbn [mbind option_bind]. by eexists st4, L3, _.
Qed.

Lemma main_writes c files ev ee etab :
  writes c = true ->
  main ns erange m db realpath kv c files ev ee etab
  = st ← final_table ns erange m db realpath kv c files ev ee etab; Wrote <$> xtab_export_write m ev st etab.
Proof.
  intros Hw. unfold writes in Hw. rewrite !andb_true_iff, !negb_true_iff in Hw. destruct Hw as [[[W1 W2] W3] W4].
  unfold main. by rewrite W1, W2, W3, W4.
Qed.

(** C3. What a run of exportfs does to etab.  A run that changes the table replaces
    etab by the entries of a map: the one that the files of exports, the arguments
    with their options and the entries of the old etab give, each client and path
    once, a client by its kind and canonical name.  The clients in the files and in
    etab may be of any kind; the single hosts among them must resolve and be kept
    apart by the name service.  The arguments of the command name networks,
    netgroups, patterns or everybody. *)
Theorem exportfs_refines c files ev ee etab xps :
  writes c = true -> ev_rlock ev = true -> ev_wlock ev = true -> ev_ren ev = true ->
  read_file m db realpath (ev_def ev) (f_text <$> etab) (ev_stack ev) false = Some xps ->
  hosts_apart ns P ->
  Forall (Forall (good_entry ns P erange)) files -> Forall (good_entry ns P erange) xps -> Forall (good_arg ns P erange) (args c) ->
  exists xes, etab_map ns xes = exportfs_spec ns m db kv c files ee xps /\ NoDup (ekey ns <$> xes) /\
    forall text, put_all m xes = Some text ->
    exists f, main ns erange m db realpath kv c files ev ee etab = Some (Wrote (Some f)) /\ f_text f = text.
Proof.
  intros Hw Hl1 Hl2 Hren Hr Hns Hf Hx Ha. destruct (run_table c files ev ee etab xps Hns Hl1 Hr Hf Hx Ha) as (st & L & T & M & ET & Em).
  destruct (etab_entries_map ns P st L T M) as [Hn Hm]. exists (etab_entries st L). split_and!; [by rewrite Hm, ET|done|].
  intros text Ht. rewrite (main_writes _ _ _ _ _ Hw), Em. cbn [mbind option_bind]. unfold xtab_export_write, xtab_write. rewrite Hl2. unfold xtab_text.
  rewrite (write_types_entries st L (to_st _ _ (tm_tab _ _ _ _ _ M))). cbn [mbind option_bind]. rewrite Ht, Hren. cbn [mbind option_bind].
  destruct (cond_rename_installs (ev_err ev) (ev_tmp ev) text etab) as (f & -> & Hft & _). eexists. split; [done|done].
Qed.
End run.

(** ** What the map says *)

Section modes.
  Context (ns : resolver).

Definition entry_for (k : tkey) (l : list exportent) : option exportent := List.find (fun xp => bool_decide (ekey ns xp = k)) l.

Lemma entry_for_cons k xp l : entry_for k (xp :: l) = if bool_decide (ekey ns xp = k) then Some xp else entry_for k l.
Proof. done. Qed.

Lemma etab_map_lookup l k : etab_map ns l !! k = dupexportent <$> entry_for k l.
Proof.
  induction l as [|xp l IH]; [apply lookup_empty|]. unfold etab_map in *. cbn [fmap list_fmap list_to_map foldr]. rewrite entry_for_cons.
  case_bool_decide as E; [by rewrite <- E, lookup_insert_eq|by rewrite lookup_insert_ne].
Qed.

Lemma add_file_lookup l T k :
  foldl (add_file ns) T l !! k = match (T !! k : option row) with Some r => Some r | None => (fun xp => (copy_ent xp, false) : row) <$> entry_for k l end.
Proof.
  revert T; induction l as [|xp l IH]; intros T; [cbn; by destruct (T !! k)|]. cbn [foldl]. rewrite IH, entry_for_cons. unfold add_file.
  destruct (T !! ekey ns xp) as [r|] eqn:E; case_bool_decide as Ek; subst; rewrite ?E, ?lookup_insert_eq; try done.
  by rewrite lookup_insert_ne.
Qed.

Lemma add_etab_lookup l T k :
  foldl (add_etab ns) T l !! k = match entry_for k l with Some xp => Some ((kept (T !! k) (copy_ent xp), true) : row) | None => T !! k end.
Proof.
  revert T; induction l as [|xp l IH]; intros T; [done|]. cbn [foldl]. rewrite IH, entry_for_cons. unfold add_etab.
  case_bool_decide as Ek; [subst k|by rewrite lookup_insert_ne]. rewrite lookup_insert_eq. by destruct (entry_for _ l).
Qed.

Definition arg_keys (f : cstr -> cstr -> tkey) (args : list cstr) : list tkey := omap (fun a => (fun hp => f hp.1 hp.2) <$> target a) args.

Lemma unarg_lookup args T k :
  foldl (unarg_step ns) T args !! k = (fun r : row => if decide (k ∈ arg_keys (unexport_key ns) args) then (r.1, false) else r) <$> T !! k.
Proof.
  revert T; induction args as [|a args IH]; intros T; [cbn; destruct (T !! k); done|]. cbn [foldl]. rewrite IH. clear IH. unfold unarg_step.
  assert (arg_keys (unexport_key ns) (a :: args) = match target a with Some hp => unexport_key ns hp.1 hp.2 :: arg_keys (unexport_key ns) args | None => arg_keys (unexport_key ns) args end) as ->
    by (unfold arg_keys; cbn; by destruct (target a)).
  generalize (arg_keys (unexport_key ns) args). intros l. destruct (target a) as [[h p]|]; [|done]. rewrite lookup_rows.
  destruct (T !! k) as [[v b]|]; [|done]. cbn [fmap option_fmap option_map fst snd]. f_equal. unfold unmark_key.
  destruct (decide (k ∈ l)), (decide (k = unexport_key ns h p)), (decide (k ∈ unexport_key ns h p :: l)); set_solver || done.
Qed.

Lemma args_other m db kv options args ee T k :
  k ∉ arg_keys (host_key ns) args -> (foldl (arg_step ns m db kv options) (ee, T) args).2 !! k = T !! k.
Proof.
  revert ee T; induction args as [|a args IH]; intros ee T; [done|]. unfold arg_keys. cbn [omap list_omap foldl]. unfold arg_step at 2.
  destruct (target a) as [[h p]|]; [|apply IH]. cbn [fmap option_fmap option_map fst snd]. rewrite not_elem_of_cons. intros [Hne Hn].
  destruct (T !! host_key ns h p) as [r|].
  - destruct (updateexportent _ _ _ _) as [ep ok]. rewrite IH by done. by rewrite lookup_insert_ne.
  - destruct (mkexportent _ _ _ _ _ _) as [ee' [ep|]]; rewrite IH by done; [by rewrite lookup_insert_ne|done].
Qed.

Lemma etab_of_lookup T k : etab_of T !! k = (T !! k : option row) ≫= (fun r : row => if r.2 then Some (dupexportent r.1) else None).
Proof. unfold etab_of. rewrite lookup_omap. by destruct (T !! k). Qed.

Lemma key_type_all (k : tkey) : k.1.1 ∈ mcl_types.
Proof. destruct k as [[[] ?] ?]; apply list_elem_of_In; cbn; tauto. Qed.

(** The ways to call exportfs.  With -r, etab becomes the entries of the files,
    the first one for each client and path; with -a, the entries of the old etab
    for other clients and paths stay; with -u, exactly the arguments' clients and
    paths are taken out, trailing slashes and case aside, and with -a -u everything.
    With arguments to export, an entry of the old etab that no argument names stays,
    but with the options that the files give its client and path, if they name it. *)
Theorem exportfs_modes m db kv c files ee xps :
  (f_export c = true -> f_ignore c = false -> f_all c = true -> f_reexport c = true ->
   exportfs_spec ns m db kv c files ee xps = etab_map ns (concat files)) /\
  (f_export c = true -> f_ignore c = false -> f_all c = true -> f_reexport c = false ->
   exportfs_spec ns m db kv c files ee xps = etab_map ns (concat files) ∪ etab_map ns xps) /\
  (f_export c = false -> f_all c = false -> f_reexport c = false ->
   exportfs_spec ns m db kv c files ee xps = filter (fun kv => kv.1 ∉ arg_keys (unexport_key ns) (args c)) (etab_map ns xps)) /\
  (f_export c = false -> f_all c = true -> exportfs_spec ns m db kv c files ee xps = ∅) /\
  (f_export c = true -> f_ignore c = false -> f_all c = false -> f_reexport c = false -> forall k, k ∉ arg_keys (host_key ns) (args c) ->
   exportfs_spec ns m db kv c files ee xps !! k =
     v ← etab_map ns xps !! k; Some (default v (etab_map ns (concat files) !! k))).
Proof.
  assert (forall T k, rows (mark_types kv mcl_types) T !! k = (fun r : row => (realised kv r.1, true)) <$> T !! k) as Hall.
  { intros T k. rewrite lookup_rows. destruct (T !! k); [|done]. cbn [fmap option_fmap option_map]. unfold mark_types. by rewrite decide_True by apply key_type_all. }
  unfold exportfs_spec. split_and!.
  - intros -> -> -> ->. cbn [andb negb]. apply map_eq. intros k. rewrite etab_of_lookup, Hall, add_file_lookup, lookup_empty, etab_map_lookup.
    destruct (entry_for k _); [|done]. cbn [fmap option_fmap option_map mbind option_bind fst snd]. by rewrite realised_dup.
  - intros -> -> -> ->. cbn [andb negb]. apply map_eq. intros k.
    rewrite etab_of_lookup, add_etab_lookup, Hall, add_file_lookup, lookup_empty, lookup_union, !etab_map_lookup.
    destruct (entry_for k (concat files)); destruct (entry_for k xps);
      cbn [fmap option_fmap option_map mbind option_bind fst snd kept]; rewrite ?realised_dup; done.
  - intros -> -> ->. cbn [andb negb]. apply map_eq. intros k. rewrite etab_of_lookup, unarg_lookup, add_etab_lookup, lookup_empty, map_lookup_filter, etab_map_lookup.
    destruct (entry_for k xps); [|done]. cbn. destruct (decide (k ∈ _)) as [Hd|Hd]; [by rewrite option_guard_False by tauto|by rewrite option_guard_True].
  - intros -> ->. cbn [andb negb]. apply map_eq. intros k. rewrite etab_of_lookup, lookup_empty. done.
  - intros -> -> -> -> k Hk. cbn [andb negb]. rewrite etab_of_lookup, add_etab_lookup, (args_other _ _ _ _ _ _ _ _ Hk), add_file_lookup, lookup_empty, !etab_map_lookup.
    destruct (entry_for k (concat files)); destruct (entry_for k xps); done.
Qed.
End modes.

(** ** A run *)

Definition kview_ex : kview := KView None (fun _ => None) (fun _ => Some true) (fun _ => true) 0 None None.
Definition env_ex : etab_env := EtabEnv true true no_ent $"-rw" 7 (fun _ => (false, false)) true.
Definition cmd_ex (args : list cstr) (options : option cstr) : cmd := Cmd true false false false false false false options args.
Definition etab_ex : option file := File 3 <$> put_all 15 [second_entry; default_entry].

Definition run_text (r : option outcome) : option cstr :=
  match r with Some (Wrote (Some f)) => Some (f_text f) | _ => None end.

Lemma entries_good xps : xps ⊆ [world_entry; second_entry; shown 15 default_entry; deep_entry] -> Forall (good_entry ns_hosts names_hosts false) xps.
Proof.
  intros Hs. apply Forall_forall. intros ep Hin%Hs. rewrite list_elem_of_In in Hin.
  destruct Hin as [<-|[<-|[<-|[<-|[]]]]]; eexists; (split; [reflexivity|]);
    (split; [first [by left|right; rewrite list_elem_of_In; cbn; tauto]|eexists; vm_compute; reflexivity]).
Qed.

(** One host under its alias in the files and under its canonical name in etab. *)
Lemma exportfs_refines_witness :
  exists xes, etab_map ns_hosts xes = exportfs_spec ns_hosts 15 (fun _ _ => None) kview_ex (cmd_ex [$"*:/data"] (Some $"ro,async"))
      [[world_entry; deep_entry]] no_ent [second_entry; shown 15 default_entry] /\
    NoDup (ekey ns_hosts <$> xes) /\
    forall text, put_all 15 xes = Some text ->
    exists f, main ns_hosts false 15 (fun _ _ => None) (fun _ => None) kview_ex (cmd_ex [$"*:/data"] (Some $"ro,async")) [[world_entry; deep_entry]]
                env_ex no_ent etab_ex = Some (Wrote (Some f)) /\ f_text f = text.
Proof.
  apply (exportfs_refines ns_hosts names_hosts false 15 (fun _ _ => None) (fun _ => None) kview_ex (cmd_ex [$"*:/data"] (Some $"ro,async"))
           [[world_entry; deep_entry]] env_ex no_ent etab_ex [second_entry; shown 15 default_entry]).
  - reflexivity.
  - reflexivity.
  - reflexivity.
  - reflexivity.
  - vm_compute. reflexivity.
  - exact hosts_apart_ex.
  - apply Forall_singleton, entries_good. set_solver.
  - apply entries_good. set_solver.
  - apply Forall_singleton. intros h path [= <- <-]. split; [discriminate|]. split; [by left|]. eexists. vm_compute. reflexivity.
Defined.

Lemma exportfs_modes_witness :
  exportfs_spec ns_hosts 15 (fun _ _ => None) kview_ex (Cmd true true true false false false false None []) [[world_entry]] no_ent [second_entry]
  = etab_map ns_hosts [world_entry] /\
  exportfs_spec ns_hosts 15 (fun _ _ => None) kview_ex (Cmd false false false false false false false None [$"*:/srv/"]) [] no_ent [world_entry; second_entry]
  = filter (fun kv => kv.1 ∉ arg_keys (unexport_key ns_hosts) [$"*:/srv/"]) (etab_map ns_hosts [world_entry; second_entry]).
Proof.
  split.
  - by apply (exportfs_modes ns_hosts 15 (fun _ _ => None) kview_ex (Cmd true true true false false false false None []) [[world_entry]] no_ent [second_entry]).
  - by apply (exportfs_modes ns_hosts 15 (fun _ _ => None) kview_ex (Cmd false false false false false false false None [$"*:/srv/"]) [] no_ent [world_entry; second_entry]).
Defined.

(** A misspelt option changes the export all the same: it is in /etc/exports and in
    etab with rw; the command fails on the argument, and etab has it read-only and
    with all users squashed. *)
Definition rw_entry : exportent :=
  match mkexportent 15 (fun _ _ => None) no_ent $"*" $"/data" (Some $"rw") with (_, Some ep) => ep | _ => no_ent end.

Lemma exportfs_bad_option :
  (updateexportent 15 (fun _ _ => None) rw_entry (Some $"bogus")).2 = false /\
  run_text (main ns_ex false 15 (fun _ _ => None) (fun _ => None) kview_ex (cmd_ex [$"*:/data"] (Some $"bogus")) [[rw_entry]] env_ex no_ent
              (File 3 <$> put_all 15 [rw_entry])) =
  put_all 15 [set_flags rw_entry (Z.lor (e_flags rw_entry) (Z.lor NFSEXP_ALLSQUASH NFSEXP_READONLY))] /\
  has_flag (e_flags rw_entry) NFSEXP_READONLY = false.
Proof. vm_compute. by split_and!. Qed.
