(* ===== verification/ExportfsLock.v ===== *)
(** * Several runs of exportfs at once (the lock file of utils/exportfs/exportfs.c)

    Each process takes the lock file, reads etab, writes the new etab and lets the
    lock go; the steps of the processes interleave in any way.  A process that
    cannot open the lock file goes on without it. *)

From S2P Require Import Prelude Cacheio Exports ExportsRT Client ExportTab Xio Xtab V4root Fsid Exportfs ExportfsMap.

Record job := Job { j_cmd : cmd; j_files : list (list exportent); j_env : etab_env; j_static : exportent; j_lockfd : bool }.

Inductive stage := Waiting | Holding | Computed (st : extab) | Written | Finished.

(** The holder of the lock file, etab, and what each process is doing.  [sy_order]
    lists the processes as they came to hold the lock. *)
Record sys := Sys { sy_lock : option nat; sy_etab : option file; sy_stage : nat -> stage; sy_order : list nat }.

Definition set_stage (s : sys) (i : nat) (x : stage) : nat -> stage := fun j => if decide (j = i) then x else sy_stage s j.

Section lock.
  Context (ns : resolver) (erange : bool) (m : Z) (db : cstr -> bool -> option Z) (realpath : cstr -> option cstr) (kv : kview).
  Context (jobs : nat -> job).

Definition job_table (i : nat) (etab : option file) : option extab :=
  final_table ns erange m db realpath kv (j_cmd (jobs i)) (j_files (jobs i)) (j_env (jobs i)) (j_static (jobs i)) etab.
Definition job_write (i : nat) (st : extab) (etab : option file) : option (option file) := xtab_export_write m (j_env (jobs i)) st etab.

Inductive step : sys -> sys -> Prop :=
  | grab_lockfile s i :
      sy_stage s i = Waiting -> j_lockfd (jobs i) = true -> sy_lock s = None ->
      step s (Sys (Some i) (sy_etab s) (set_stage s i Holding) (sy_order s ++ [i]))
  | no_lockfile s i :
      sy_stage s i = Waiting -> j_lockfd (jobs i) = false ->
      step s (Sys (sy_lock s) (sy_etab s) (set_stage s i Holding) (sy_order s ++ [i]))
  | read_etab s i st :
      sy_stage s i = Holding -> job_table i (sy_etab s) = Some st ->
      step s (Sys (sy_lock s) (sy_etab s) (set_stage s i (Computed st)) (sy_order s))
  | write_etab s i st etab :
      sy_stage s i = Computed st -> job_write i st (sy_etab s) = Some etab ->
      step s (Sys (sy_lock s) etab (set_stage s i Written) (sy_order s))
  | release_lockfile s i :
      sy_stage s i = Written ->
      step s (Sys (if bool_decide (sy_lock s = Some i) then None else sy_lock s) (sy_etab s) (set_stage s i Finished) (sy_order s)).

Definition start (etab : option file) : sys := Sys None etab (fun _ => Waiting) [].

(** One process after the other. *)
Definition alone (i : nat) (etab : option file) : option (option file) := st ← job_table i etab; job_write i st etab.
Fixpoint serial (order : list nat) (etab : option file) : option (option file) :=
  match order with
  | [] => Some etab
  | i :: order => e ← alone i etab; serial order e
  end.

Lemma serial_snoc order i etab : serial (order ++ [i]) etab = serial order etab ≫= alone i.
Proof.
  revert etab; induction order as [|j order IH]; intros etab; cbn; [by destruct (alone i etab)|]. destruct (alone j etab); [apply IH|done].
Qed.

Definition resting (x : stage) : Prop := x = Waiting \/ x = Finished.

(** The lock is free and the runs so far were serial, or its holder is under way. *)
Inductive serialised (e0 : option file) (s : sys) : Prop :=
  | free : sy_lock s = None -> (forall i, resting (sy_stage s i)) -> (forall i, i ∈ sy_order s <-> sy_stage s i = Finished) ->
      NoDup (sy_order s) -> serial (sy_order s) e0 = Some (sy_etab s) -> serialised e0 s
  | held i before : sy_lock s = Some i -> (forall j, j <> i -> resting (sy_stage s j)) -> (forall j, j ∈ before <-> j <> i /\ sy_stage s j = Finished) ->
      sy_order s = before ++ [i] -> NoDup before ->
      match sy_stage s i with
      | Holding => serial before e0 = Some (sy_etab s)
      | Computed st => serial before e0 = Some (sy_etab s) /\ job_table i (sy_etab s) = Some st
      | Written => serial (before ++ [i]) e0 = Some (sy_etab s)
      | _ => False
      end -> serialised e0 s.

Lemma set_stage_same s i x : set_stage s i x i = x.
Proof. unfold set_stage. by rewrite decide_True. Qed.
Lemma set_stage_other s i x j : j <> i -> set_stage s i x j = sy_stage s j.
Proof. intros. unfold set_stage. by rewrite decide_False. Qed.

Lemma step_serialised e0 s s' :
  (forall i, j_lockfd (jobs i) = true) -> step s s' -> serialised e0 s -> serialised e0 s'.
Proof.
  intros Hl Hs H. assert (forall i, sy_stage s i <> Waiting -> sy_stage s i <> Finished -> exists before, sy_lock s = Some i /\ sy_order s = before ++ [i]) as Hbusy.
  { intros i H1 H2. destruct H as [_ Hr _ _ _|j before Hlk Hr _ Ho _ _]; [by destruct (Hr i)|].
    destruct (decide (i = j)) as [->|Hne]; [eauto|by destruct (Hr i Hne)]. }
  destruct Hs as [s i Hi _ Hlk|s i Hi Hno|s i st Hi Ht|s i st etab Hi Hw|s i Hi].
  - destruct H as [_ Hr Ho Hn Hse|j before Hlk' _ _ _ _ _]; [|congruence].
    apply (held _ _ i (sy_order s)); cbn [sy_lock sy_etab sy_stage sy_order]; try done; [intros j Hj; by rewrite set_stage_other| |by rewrite set_stage_same].
    intros j. rewrite Ho. destruct (decide (j = i)) as [->|Hj]; [rewrite Hi; naive_solver|rewrite set_stage_other by done; naive_solver].
  - by rewrite Hl in Hno.
  - destruct (Hbusy i) as (b & Hlk & Hor); [congruence..|]. destruct H as [Hlk' _ _ _ _|j before Hlk' Hr Ho Hor' Hn Hm]; [congruence|].
    assert (j = i) as -> by congruence. rewrite Hi in Hm.
    apply (held _ _ i before); cbn [sy_lock sy_etab sy_stage sy_order]; try done; [intros j Hj; rewrite set_stage_other by done; by apply Hr| |by rewrite set_stage_same].
    intros j. rewrite Ho. destruct (decide (j = i)) as [->|Hj]; [naive_solver|by rewrite set_stage_other].
  - destruct (Hbusy i) as (b & Hlk & Hor); [congruence..|]. destruct H as [Hlk' _ _ _ _|j before Hlk' Hr Ho Hor' Hn Hm]; [congruence|].
    assert (j = i) as -> by congruence. rewrite Hi in Hm. destruct Hm as [Hse Hta].
    apply (held _ _ i before); cbn [sy_lock sy_etab sy_stage sy_order]; try done; [intros j Hj; rewrite set_stage_other by done; by apply Hr| |].
    + intros j. rewrite Ho. destruct (decide (j = i)) as [->|Hj]; [naive_solver|by rewrite set_stage_other].
    + rewrite set_stage_same, serial_snoc, Hse. cbn [mbind option_bind]. unfold alone. rewrite Hta. done.
  - destruct (Hbusy i) as (b & Hlk & Hor); [congruence..|]. destruct H as [Hlk' _ _ _ _|j before Hlk' Hr Ho Hor' Hn Hm]; [congruence|].
    assert (j = i) as -> by congruence. rewrite Hi in Hm. apply free; cbn [sy_lock sy_etab sy_stage sy_order].
    + by rewrite bool_decide_eq_true_2.
    + intros j. destruct (decide (j = i)) as [->|Hj]; [rewrite set_stage_same; by right|rewrite set_stage_other by done; by apply Hr].
    + intros j. rewrite Hor', elem_of_app, list_elem_of_singleton, Ho. destruct (decide (j = i)) as [->|Hj].
      * rewrite set_stage_same. naive_solver.
      * rewrite set_stage_other by done. naive_solver.
    + rewrite Hor'. apply NoDup_app. split_and!; [done| |apply NoDup_singleton]. intros j Hj ->%list_elem_of_singleton. apply Ho in Hj. naive_solver.
    + by rewrite Hor'.
Qed.

(** C5. No update of etab is lost.  However the steps of any number of processes
    interleave, when every one of them could open the lock file and none is under
    way, etab is what the processes that finished give one after the other, in
    the order in which they got the lock, each of them once. *)
Theorem exportfs_serial (e0 : option file) (s : sys) :
  (forall i, j_lockfd (jobs i) = true) -> rtc step (start e0) s -> (forall i, resting (sy_stage s i)) ->
  exists order, NoDup order /\ (forall i, i ∈ order <-> sy_stage s i = Finished) /\ serial order e0 = Some (sy_etab s).
Proof.
  intros Hl Hr Hq. assert (serialised e0 s) as H.
  { assert (serialised e0 (start e0)) as H0.
    { apply free; [done|by left|split; [by intros ?%elem_of_nil|done]|constructor|done]. }
    clear Hq. induction Hr as [|s1 s2 s3 Hs _ IH]; [done|]. apply IH. by eapply step_serialised. }
  destruct H as [_ _ Ho Hn Hse|i before _ _ _ _ _ Hm]; [eauto|]. destruct (Hq i) as [E|E]; by rewrite E in Hm.
Qed.

(** A process that finds the lock free can run to its end. *)
Lemma run_alone s i e :
  sy_lock s = None -> sy_stage s i = Waiting -> j_lockfd (jobs i) = true -> alone i (sy_etab s) = Some e ->
  exists s', rtc step s s' /\ sy_lock s' = None /\ sy_etab s' = e /\ sy_stage s' i = Finished /\ forall j, j <> i -> sy_stage s' j = sy_stage s j.
Proof.
  intros Hl Hi Hf Ha. unfold alone in Ha. destruct (job_table i (sy_etab s)) as [st|] eqn:Et; [|done]. cbn [mbind option_bind] in Ha.
  eexists. split.
  - eapply rtc_l; [apply (grab_lockfile s i Hi Hf Hl)|]. eapply rtc_l; [apply (read_etab _ i st); [apply set_stage_same|done]|].
    eapply rtc_l; [apply (write_etab _ i st e); [apply set_stage_same|done]|]. eapply rtc_once. apply (release_lockfile _ i). apply set_stage_same.
  - cbn [sy_lock sy_etab sy_stage]. rewrite bool_decide_eq_true_2 by done. split_and!; [done..|apply set_stage_same|].
    intros j Hj. repeat (rewrite set_stage_other by done; cbn [sy_stage]). done.
Qed.
End lock.

(** ** Two processes *)

Definition job_ex (lockfd : bool) (i : nat) : job :=
  Job (Cmd true false false true false false false (Some $"ro") [if (i =? 0)%nat then $"*:/a" else $"*:/b"]) [] env_ex no_ent lockfd.

Definition sys_text (etab : option file) : cstr := match etab with Some f => f_text f | None => [] end.

Lemma exportfs_serial_witness :
  exists s, (forall i, (i < 2)%nat -> sy_stage s i = Finished) /\
    exists order, NoDup order /\ (forall i, i ∈ order <-> sy_stage s i = Finished) /\
      serial ns_ex false 15 (fun _ _ => None) (fun _ => None) kview_ex (job_ex true) order None = Some (sy_etab s).
Proof.
  set (J := job_ex true). set (al := alone ns_ex false 15 (fun _ _ => None) (fun _ => None) kview_ex J).
  destruct (al 0%nat None) as [e1|] eqn:E1; [|vm_compute in E1; discriminate].
  destruct (run_alone ns_ex false 15 (fun _ _ => None) (fun _ => None) kview_ex J (start None) 0 e1) as (s1 & R1 & L1 & T1 & F1 & O1); [done..|].
  destruct (al 1%nat e1) as [e2|] eqn:E2.
  2: { exfalso. revert E2. assert (e1 = default None (al 0%nat None)) as -> by (by rewrite E1). clear. vm_compute. discriminate. }
  destruct (run_alone ns_ex false 15 (fun _ _ => None) (fun _ => None) kview_ex J s1 1 e2) as (s2 & R2 & _ & T2 & F2 & O2);
    [done|by rewrite O1|done|by rewrite T1|].
  exists s2. split; [intros [|[|i]] Hi; [by rewrite O2|done|lia]|].
  apply (exportfs_serial ns_ex false 15 (fun _ _ => None) (fun _ => None) kview_ex J None s2).
  - done.
  - by etrans.
  - intros [|[|i]]; [right; by rewrite O2|by right|left]. by rewrite O2, O1.
Defined.

(** Without the lock file the export of one of the two is lost: both read etab
    before either writes it. *)
Lemma exportfs_unlocked_lost :
  let tab i := final_table ns_ex false 15 (fun _ _ => None) (fun _ => None) kview_ex (j_cmd (job_ex false i)) [] env_ex no_ent None in
  (st0 ← tab 0%nat; st1 ← tab 1%nat; e0 ← xtab_export_write 15 env_ex st0 None; sys_text <$> xtab_export_write 15 env_ex st1 e0)
  = (st1 ← tab 1%nat; sys_text <$> xtab_export_write 15 env_ex st1 None).
Proof. vm_compute. reflexivity. Qed.
