(* ===== verification/Rmtab.v ===== *)
(** * The table of mounts (support/nfs/rmtab.c, utils/mountd/rmtab.c)

    mountd keeps the mounts of its clients in a text file, a line for each client
    and path with a count in hexadecimal.  A mount overwrites the line of its
    client and path in place or adds one at the end; an unmount writes a new file
    and renames it.  Which locks and opens succeed is an argument of each
    operation; the calls of the high-availability program are its second result. *)

From S2P Require Import Prelude Client Nsm.

Record rmtabent := Rm { r_client : cstr; r_path : cstr; r_count : Z }.

Definition IPV6_COLON : ascii := ";"%char.
Definition RMTAB_LINELEN : nat := 2048.
Definition subst_char (a b : ascii) (s : cstr) : cstr := (fun c => if ceqb c a then b else c) <$> s.

(** The next line of a file and what is behind it; [None]: the end, or a line
    without a colon. *)
Definition fgetrmtabent (s : cstr) : option (rmtabent * cstr) :=
  match s with
  | [] => None
  | _ =>
      let '(buf, rest) := fgets (RMTAB_LINELEN - 1) s in
      let host := match strchr NL buf with Some (a, _) => a | None => buf end in
      match strchr ":" host with
      | None => None
      | Some (host, path) =>
          let '(path, count) := match strchr ":" path with
                                | Some (path, count) => (path, i32 (st_value (strtol 0 count)))
                                | None => (path, 1)
                                end in
          Some (Rm (subst_char IPV6_COLON ":" (take 1024 host)) (take 1024 path) count, rest)
      end
  end.

(** The line written for an entry. *)
Definition fputrmtabent (rep : rmtabent) : cstr :=
  if (RMTAB_LINELEN <? length (r_client rep))%nat then []
  else subst_char ":" IPV6_COLON (r_client rep) ++ $":" ++ r_path rep ++ $":0x" ++ hex 8 (u32 (r_count rep)) ++ [NL].

(** All the entries that can be read; each takes at least a character. *)
Fixpoint entries_loop (fuel : nat) (s : cstr) : list rmtabent :=
  match fuel with
  | O => []
  | S fuel => match fgetrmtabent s with
              | None => []
              | Some (re, rest) => re :: entries_loop fuel rest
              end
  end.
Definition rmtab_entries (s : cstr) : list rmtabent := entries_loop (S (length s)) s.

Definition same_mount (host path : cstr) (re : rmtabent) : bool := streq (r_client re) host && streq (r_path re) path.

Record callout := Callout { co_mount : bool; co_client : cstr; co_path : cstr; co_count : Z }.

(** The locks and opens that succeed. *)
Record rm_env := RmEnv { re_lock : bool; re_open : bool; re_create : bool; re_rename : bool }.

(** [before] is the text before the position [pos]; the new line is written there. *)
Fixpoint add_loop (fuel : nat) (before s : cstr) (host path : cstr) : option (cstr * list callout) :=
  match fuel with
  | O => None
  | S fuel =>
      match fgetrmtabent s with
      | None => None
      | Some (re, rest) =>
          if same_mount host path re then
            let re := Rm (r_client re) (r_path re) (i32 (r_count re + 1)) in
            let line := fputrmtabent re in
            Some (before ++ line ++ drop (length line) s, [Callout true (r_client re) (r_path re) (r_count re)])
          else add_loop fuel (before ++ take (length s - length rest) s) rest host path
      end
  end.

Definition mountlist_add (env : rm_env) (rmtab : option cstr) (host path : cstr) : option cstr * list callout :=
  if negb (re_lock env) then (rmtab, [])
  else
    match (if re_open env then s ← rmtab; add_loop (S (length s)) [] s host path else None) with
    | Some (s, out) => (Some s, out)
    | None =>
        let xe := Rm (take 1024 host) (take 1024 path) 1 in
        if re_create env then (Some (default [] rmtab ++ fputrmtabent xe), [Callout true (r_client xe) (r_path xe) 1])
        else (rmtab, [])
    end.

Fixpoint del_loop (l : list rmtabent) (hname path : cstr) : cstr * list callout :=
  match l with
  | [] => ([], [])
  | re :: l =>
      let '(text, out) := del_loop l hname path in
      if same_mount hname path re then
        let re := Rm (r_client re) (r_path re) (i32 (r_count re - 1)) in
        ((if r_count re =? 0 then [] else fputrmtabent re) ++ text, Callout false (r_client re) (r_path re) (r_count re) :: out)
      else (fputrmtabent re ++ text, out)
  end.

Definition mountlist_del (env : rm_env) (rmtab : option cstr) (hname path : cstr) : option cstr * list callout :=
  match rmtab with
  | Some s =>
      if negb (re_lock env) || negb (re_open env) || negb (re_create env) then (rmtab, [])
      else let '(text, out) := del_loop (rmtab_entries s) hname path in (if re_rename env then Some text else rmtab, out)
  | None => (rmtab, [])
  end.

(** [auth]: [auth_authenticate("umountall", sap, path) != NULL]. *)
Definition mountlist_del_all (env : rm_env) (rmtab : option cstr) (hostname : option cstr) (auth : cstr -> bool) : option cstr :=
  match hostname, rmtab with
  | Some hostname, Some s =>
      if negb (re_lock env) || negb (re_open env) || negb (re_create env) then rmtab
      else
        let keep := List.filter (fun re => negb (streq (r_client re) hostname && auth (r_path re))) (rmtab_entries s) in
        if re_rename env then Some (mjoin (fputrmtabent <$> keep)) else rmtab
  | _, _ => rmtab
  end.

(** The list for the protocol, newest first, and when it was made. *)
Record mountlist := MountList { ml_list : list (cstr * cstr); last_mtime : Z }.

(** [alloc n]: the memory for the n-th entry. *)
Fixpoint list_loop (ns : resolver) (reverse_resolve : bool) (alloc : nat -> bool) (n : nat) (l : list rmtabent) (mlist : list (cstr * cstr))
  : list (cstr * cstr) :=
  match l with
  | [] => mlist
  | rep :: l =>
      if negb (alloc n) then []
      else
        let name := if reverse_resolve
                    then match host_pton ns (r_client rep) with
                         | Some ai => default (r_client rep) (host_canonname ns (ai_addr ai))
                         | None => r_client rep
                         end
                    else r_client rep in
        list_loop ns reverse_resolve alloc (S n) l ((name, r_path rep) :: mlist)
  end.

(** [file]: the text and the time of the last change, or [stat] fails. *)
Definition mountlist_list (ns : resolver) (reverse_resolve lock : bool) (alloc : nat -> bool) (st : mountlist) (file : option (cstr * Z))
  : list (cstr * cstr) * mountlist :=
  if negb lock then ([], st)
  else
    match file with
    | None => ([], st)
    | Some (s, mtime) =>
        let st := if mtime =? last_mtime st then st
                  else MountList (list_loop ns reverse_resolve alloc 0 (rmtab_entries s) []) mtime in
        (ml_list st, st)
    end.

(** ** Lines *)

(** Entries whose lines can be read back. *)
Record entry_ok (re : rmtabent) : Prop := EntryOk
  { eo_client : IPV6_COLON ∉ r_client re /\ NL ∉ r_client re; eo_path : ":"%char ∉ r_path re /\ NL ∉ r_path re;
    eo_client_len : (length (r_client re) <= 1000)%nat; eo_path_len : (length (r_path re) <= 1024)%nat;
    eo_count : 1 <= r_count re <= INT_MAX }.

Definition line_body (re : rmtabent) : cstr := subst_char ":" IPV6_COLON (r_client re) ++ $":" ++ r_path re ++ $":0x" ++ hex 8 (u32 (r_count re)).

Lemma line_eq re : entry_ok re -> fputrmtabent re = line_body re ++ [NL].
Proof.
  intros [_ _ H _ _]. unfold fputrmtabent. rewrite (proj2 (Nat.ltb_ge _ _)) by (unfold RMTAB_LINELEN; lia).
  unfold line_body. by rewrite <- !app_assoc.
Qed.

Lemma line_length re : entry_ok re -> length (line_body re) = (length (r_client re) + length (r_path re) + 12)%nat.
Proof.
  intros [_ _ _ _ Hc]. unfold line_body, subst_char. rewrite !length_app, length_fmap, hex_length; [cbn; lia| |lia].
  rewrite u32_id by (unfold INT_MAX in *; lia). change (16 ^ Z.of_nat 8) with (2 ^ 32). unfold INT_MAX in *. lia.
Qed.

Lemma subst_in a b c s : c ∈ subst_char a b s -> c = b \/ c ∈ s.
Proof. intros (d & -> & Hd)%list_elem_of_fmap. destruct (ceqb d a); auto. Qed.

Lemma subst_gone a b s : a <> b -> a ∉ subst_char a b s.
Proof. intros Hab (d & E & _)%list_elem_of_fmap. destruct (ceqb d a) eqn:Ed; [done|]. apply ceqb_false in Ed. congruence. Qed.

Lemma subst_back a b s : b ∉ s -> subst_char b a (subst_char a b s) = s.
Proof.
  unfold subst_char. induction s as [|c s IH]; [done|]. rewrite not_elem_of_cons. intros [Hc Hs]. cbn [fmap list_fmap]. rewrite IH by done. f_equal.
  destruct (ceqb c a) eqn:E; [apply ceqb_true in E as ->; by rewrite (proj2 (ceqb_true b b) eq_refl)|].
  by rewrite (proj2 (ceqb_false c b)).
Qed.

Lemma strtol_0x v : 0 <= v < 2 ^ 32 -> st_value (strtol 0 ($"0x" ++ hex 8 v)) = v.
Proof.
  intros Hv. pose proof (hex_length 8 v) as Hl. change (16 ^ Z.of_nat 8) with (2 ^ 32) in Hl. specialize (Hl Hv ltac:(lia)).
  pose proof (hex_digits 8 v) as Hd. pose proof (scan_hex_digits 8 v (proj1 Hv)) as Hs. destruct (hex 8 v) as [|c h] eqn:Eh; [done|].
  apply Forall_cons in Hd as [Hc _]. unfold strtol, strto_scan. cbn -[scan_digits digit_val isxdigit LONG_MAX LONG_MIN].
  change (isspace "0") with false. cbv iota. change (ceqb "0" "-") with false. change (ceqb "0" "+") with false. cbv iota beta.
  change (at_index ("0"%char :: "x"%char :: c :: h) 2) with c. assert (isxdigit c = true) as -> by (revert Hc; all_chars c; vm_compute; congruence).
  change (ceqb (at_index ("0"%char :: "x"%char :: c :: h) 0) "0" && ceqb (tolower (at_index ("0"%char :: "x"%char :: c :: h) 1)) "x" && true) with true.
  cbv iota. change (drop 2 ("0"%char :: "x"%char :: c :: h)) with (c :: h). cbv iota beta.
  rewrite (proj2 (Z.ltb_lt _ _) Hc), Hs. rewrite Z.gtb_ltb, (proj2 (Z.ltb_ge _ _)) by (unfold LONG_MAX; lia).
  rewrite (proj2 (Z.ltb_ge _ _)) by (unfold LONG_MIN; lia). done.
Qed.

(** A line is read back as its entry. *)
Lemma line_read re rest : entry_ok re -> fgetrmtabent (fputrmtabent re ++ rest) = Some (re, rest).
Proof.
  intros Hok. rewrite (line_eq re Hok), <- app_assoc. cbn [app].
  assert (NL ∉ line_body re) as Hnl.
  { destruct Hok as [[_ H1] [_ H2] _ _ _]. unfold line_body. rewrite !not_elem_of_app. split_and!.
    - intros H%subst_in. destruct H as [H|H]; [done|]. by apply H1.
    - by apply strchr_None.
    - done.
    - by apply strchr_None.
    - apply hex_no. vm_compute. discriminate. }
  unfold fgetrmtabent. destruct (line_body re ++ NL :: rest) as [|c0 s0] eqn:E0; [by apply app_eq_nil in E0 as [_ ?]|]. rewrite <- E0.
  rewrite fgets_line; [|done|rewrite line_length by done; destruct Hok; unfold RMTAB_LINELEN; lia].
  rewrite (strchr_app NL (line_body re) []) by done. unfold line_body at 1.
  assert (":"%char ∉ subst_char ":" IPV6_COLON (r_client re)) as Hcl by (by apply subst_gone).
  destruct Hok as [[H1 _] [H2 _] Hl1 Hl2 Hc].
  change (subst_char ":" IPV6_COLON (r_client re) ++ $":" ++ r_path re ++ $":0x" ++ hex 8 (u32 (r_count re)))
    with (subst_char ":" IPV6_COLON (r_client re) ++ ":"%char :: (r_path re ++ ":"%char :: ($"0x" ++ hex 8 (u32 (r_count re))))).
  rewrite (strchr_app _ _ _ Hcl), (strchr_app _ _ _ H2). rewrite u32_id by (unfold INT_MAX in *; lia).
  rewrite strtol_0x by (unfold INT_MAX in *; lia). rewrite i32_id by (unfold INT_MIN, INT_MAX in *; lia).
  rewrite (take_ge (subst_char _ _ _)) by (unfold subst_char; rewrite length_fmap; lia). rewrite take_ge by lia.
  rewrite subst_back by done. by destruct re.
Qed.

(** ** The file as a list *)

Definition rmtab_text (l : list rmtabent) : cstr := mjoin (fputrmtabent <$> l).

Lemma rmtab_text_cons re l : rmtab_text (re :: l) = fputrmtabent re ++ rmtab_text l.
Proof. done. Qed.

Lemma rmtab_text_app l1 l2 : rmtab_text (l1 ++ l2) = rmtab_text l1 ++ rmtab_text l2.
Proof. induction l1 as [|re l1 IH]; [done|]. cbn [app]. by rewrite !rmtab_text_cons, IH, app_assoc. Qed.

Lemma line_some re : entry_ok re -> (0 < length (fputrmtabent re))%nat.
Proof. intros H. rewrite line_eq, length_app by done. cbn. lia. Qed.

Lemma text_length l : Forall entry_ok l -> (length l <= length (rmtab_text l))%nat.
Proof.
  induction 1 as [|re l Hre _ IH]; [done|]. rewrite rmtab_text_cons, length_app. pose proof (line_some re Hre). cbn. lia.
Qed.

Lemma entries_loop_text fuel l : Forall entry_ok l -> (length l < fuel)%nat -> entries_loop fuel (rmtab_text l) = l.
Proof.
  intros H. revert fuel; induction H as [|re l Hre _ IH]; intros fuel Hf; (destruct fuel as [|fuel]; [cbn in Hf; lia|]); [done|].
  rewrite rmtab_text_cons. cbn [entries_loop]. rewrite (line_read re _ Hre), IH; [done|cbn in Hf; lia].
Qed.

Lemma entries_text l : Forall entry_ok l -> rmtab_entries (rmtab_text l) = l.
Proof. intros H. apply entries_loop_text; [done|]. pose proof (text_length l H). lia. Qed.

Definition bump (re : rmtabent) : rmtabent := Rm (r_client re) (r_path re) (r_count re + 1).

(** The first line of a client and path counts one more. *)
Fixpoint incr_first (host path : cstr) (l : list rmtabent) : option (list rmtabent) :=
  match l with
  | [] => None
  | re :: l => if same_mount host path re then Some (bump re :: l) else cons re <$> incr_first host path l
  end.

Definition below_max (re : rmtabent) : Prop := r_count re < INT_MAX.

Lemma bump_ok re : entry_ok re -> below_max re -> entry_ok (bump re) /\ length (fputrmtabent (bump re)) = length (fputrmtabent re).
Proof.
  intros Hok Hb. assert (entry_ok (bump re)) as Hok'.
  { destruct Hok. split; try done. cbn [bump r_count]. unfold below_max in Hb. lia. }
  split; [done|]. rewrite !line_eq, !length_app, !line_length by done. done.
Qed.

Lemma add_loop_text fuel before l host path :
  Forall entry_ok l -> Forall below_max l -> (length l < fuel)%nat ->
  fst <$> add_loop fuel before (rmtab_text l) host path = (fun l' => before ++ rmtab_text l') <$> incr_first host path l.
Proof.
  intros H. revert fuel before; induction H as [|re l Hre _ IH]; intros fuel before Hb Hf; (destruct fuel as [|fuel]; [cbn in Hf; lia|]); [done|].
  apply Forall_cons in Hb as [Hb1 Hb]. rewrite rmtab_text_cons. cbn [add_loop incr_first]. rewrite (line_read re _ Hre).
  destruct (same_mount host path re).
  - destruct (bump_ok re Hre Hb1) as [Hok' Hlen]. rewrite i32_id by (destruct Hre; unfold below_max, INT_MIN in *; lia).
    change (Rm (r_client re) (r_path re) (r_count re + 1)) with (bump re). cbn [fmap option_fmap option_map fst].
    rewrite Hlen, drop_app_length. by rewrite rmtab_text_cons.
  - rewrite length_app, Nat.add_sub, take_app_length. rewrite IH; [|done|cbn in Hf; lia]. destruct (incr_first host path l) as [l'|]; [|done].
    cbn [fmap option_fmap option_map]. by rewrite rmtab_text_cons, app_assoc.
Qed.

Definition lower (host path : cstr) (re : rmtabent) : option rmtabent :=
  if same_mount host path re then if r_count re =? 1 then None else Some (Rm (r_client re) (r_path re) (r_count re - 1)) else Some re.

Lemma omap_lower host path re l :
  omap (lower host path) (re :: l) = match lower host path re with Some re' => re' :: omap (lower host path) l | None => omap (lower host path) l end.
Proof. done. Qed.

Lemma del_loop_text l host path : Forall entry_ok l -> (del_loop l host path).1 = rmtab_text (omap (lower host path) l).
Proof.
  induction 1 as [|re l Hre _ IH]; [done|]. rewrite omap_lower. cbn [del_loop]. destruct (del_loop l host path) as [text out]. cbn [fst] in IH. subst text.
  unfold lower. destruct (same_mount host path re); [|by rewrite rmtab_text_cons]. rewrite i32_id by (destruct Hre; unfold INT_MIN, INT_MAX in *; lia).
  cbn [r_count fst]. destruct (r_count re =? 1) eqn:E; btrue.
  - by rewrite E.
  - rewrite (proj2 (Z.eqb_neq _ _)) by lia. by rewrite rmtab_text_cons.
Qed.

(** ** The file as a map of counts *)

Definition mkey (re : rmtabent) : cstr * cstr := (r_client re, r_path re).
Definition counts (l : list rmtabent) : gmap (cstr * cstr) Z := list_to_map ((fun re => (mkey re, r_count re)) <$> l).

Lemma counts_cons re l : counts (re :: l) = <[mkey re := r_count re]> (counts l).
Proof. done. Qed.

Lemma same_mount_key h p re : same_mount h p re = true <-> mkey re = (h, p).
Proof. unfold same_mount, mkey. rewrite andb_true_iff, !streq_true. naive_solver. Qed.

Lemma counts_none l k : k ∉ mkey <$> l -> counts l !! k = None.
Proof.
  intros H. apply not_elem_of_list_to_map_1. by rewrite <- list_fmap_compose.
Qed.

Lemma incr_first_map h p l :
  match incr_first h p l with
  | Some l' => mkey <$> l' = mkey <$> l /\ exists n, counts l !! (h, p) = Some n /\ counts l' = <[(h, p) := n + 1]> (counts l)
  | None => (h, p) ∉ mkey <$> l
  end.
Proof.
  induction l as [|re l IH]; [apply not_elem_of_nil|]. cbn [incr_first]. destruct (same_mount h p re) eqn:E.
  - apply same_mount_key in E. rewrite !counts_cons. change (mkey (bump re)) with (mkey re). rewrite E. split; [done|].
    exists (r_count re). rewrite lookup_insert_eq, insert_insert_eq. done.
  - assert (mkey re <> (h, p)) as Hne by (intros H; apply same_mount_key in H; congruence).
    destruct (incr_first h p l) as [l'|]; cbn [fmap option_fmap option_map].
    + destruct IH as (Hk & n & Hn & Hc). split; [by rewrite !fmap_cons, Hk|]. exists n. rewrite !counts_cons, lookup_insert_ne by done.
      split; [done|]. rewrite Hc. by apply insert_insert_ne.
    + cbn [fmap list_fmap]. by rewrite not_elem_of_cons.
Qed.

Definition count_down (k : cstr * cstr) (M : gmap (cstr * cstr) Z) : gmap (cstr * cstr) Z :=
  match M !! k with Some n => if n =? 1 then delete k M else <[k := n - 1]> M | None => M end.

Lemma lower_others h p (l : list rmtabent) : (h, p) ∉ mkey <$> l -> omap (lower h p) l = l.
Proof.
  induction l as [|re l IH]; [done|]. cbn [fmap list_fmap]. rewrite not_elem_of_cons. intros [H1 H2]. rewrite omap_lower, IH by done. unfold lower.
  destruct (same_mount h p re) eqn:E; [|done]. apply same_mount_key in E. congruence.
Qed.

Lemma lower_map h p l :
  NoDup (mkey <$> l) -> (mkey <$> omap (lower h p) l) `sublist_of` (mkey <$> l) /\ counts (omap (lower h p) l) = count_down (h, p) (counts l).
Proof.
  induction l as [|re l IH]; intros Hn; [done|]. cbn [fmap list_fmap] in Hn. apply NoDup_cons in Hn as [Hre Hn].
  rewrite omap_lower. destruct (same_mount h p re) eqn:E.
  - assert (lower h p re = if r_count re =? 1 then None else Some (Rm (r_client re) (r_path re) (r_count re - 1))) as -> by (unfold lower; by rewrite E).
    apply same_mount_key in E. rewrite E in Hre. rewrite (lower_others h p l Hre). unfold count_down. rewrite !counts_cons, E, lookup_insert_eq.
    destruct (r_count re =? 1).
    + split; [rewrite fmap_cons; by apply sublist_cons|]. by rewrite delete_insert_id by by apply counts_none.
    + rewrite counts_cons. change (mkey (Rm _ _ _)) with (mkey re). rewrite E, insert_insert_eq. done.
  - assert (lower h p re = Some re) as -> by (unfold lower; by rewrite E). destruct (IH Hn) as [Hs Hc]. split; [rewrite !fmap_cons; by apply sublist_skip|]. rewrite !counts_cons, Hc. unfold count_down.
    assert (mkey re <> (h, p)) as Hne by (intros H; apply same_mount_key in H; congruence). rewrite lookup_insert_ne by done.
    destruct (counts l !! (h, p)) as [n|]; [|done]. destruct (n =? 1); [by rewrite delete_insert_ne|by rewrite insert_insert_ne].
Qed.

(** The file holds the counts of a map. *)
Record rm_holds (N : Z) (rmtab : option cstr) (M : gmap (cstr * cstr) Z) : Prop := RmHolds
  { rh_list : exists l, default [] rmtab = rmtab_text l /\ (rmtab = None -> l = []) /\ Forall entry_ok l /\ NoDup (mkey <$> l) /\
                        counts l = M /\ Forall (fun re => r_count re <= N) l }.

Definition mount_ok (h p : cstr) : Prop := entry_ok (Rm h p 1).

Definition env_ok : rm_env := RmEnv true true true true.

Lemma add_holds N rmtab M h p :
  rm_holds N rmtab M -> N < INT_MAX -> mount_ok h p ->
  rm_holds (Z.max 1 (N + 1)) (mountlist_add env_ok rmtab h p).1 (<[(h, p) := default 0 (M !! (h, p)) + 1]> M).
Proof.
  intros [(l & Et & Hnone & Hok & Hnd & <- & HN)] Hlt Hm. assert (Forall below_max l) as Hb.
  { eapply Forall_impl; [exact HN|]. intros re H. cbv beta in H. unfold below_max. lia. }
  pose proof (incr_first_map h p l) as Hi. unfold mountlist_add. cbn [re_lock re_open re_create env_ok negb].
  assert (fst <$> (s ← rmtab; add_loop (S (length s)) [] s h p) = rmtab_text <$> incr_first h p l) as Hadd.
  { destruct rmtab as [s|]; [|by rewrite Hnone]. change (s = rmtab_text l) in Et. cbn [mbind option_bind]. subst s. rewrite add_loop_text; [done..|].
    pose proof (text_length l Hok). lia. }
  destruct (incr_first h p l) as [l'|] eqn:Ei.
  - destruct (s ← rmtab; _) as [[s out]|] eqn:Es; [|done]. cbn in Hadd. apply Some_inj in Hadd. subst s. cbn [fst].
    destruct Hi as (Hk & n & Hn & Hc). rewrite Hn. split. exists l'. cbn [default]. split_and!; try done; [|by rewrite Hk|].
    + clear -Hok Hb Ei. revert l' Ei. induction l as [|re l IH]; intros l'; [done|]. cbn. apply Forall_cons in Hok as [H1 H2], Hb as [B1 B2].
      destruct (same_mount h p re); [intros [= <-]; constructor; [by apply bump_ok|done]|].
      destruct (incr_first h p l) as [l1|]; [|done]. intros [= <-]. constructor; [done|by apply IH].
    + clear -HN Ei. revert l' Ei. induction l as [|re l IH]; intros l'; [done|]. cbn. apply Forall_cons in HN as [H1 H2].
      destruct (same_mount h p re).
      * intros [= <-]. constructor; [cbn; lia|]. eapply Forall_impl; [exact H2|]. intros x Hx. cbv beta in Hx. lia.
      * destruct (incr_first h p l) as [l1|]; [|done]. intros [= <-]. constructor; [lia|by apply IH].
  - destruct (s ← rmtab; _) as [[s out]|]; [done|]. cbn [fst]. rewrite (counts_none l _ Hi). cbn [default].
    assert (length h <= 1024 /\ length p <= 1024)%nat as [Hl1 Hl2] by (destruct Hm; cbn in *; lia). rewrite !take_ge by done.
    split. exists (l ++ [Rm h p 1]). split; [|split; [done|]].
    + rewrite rmtab_text_app, rmtab_text_cons, <- Et. change (rmtab_text []) with (@nil ascii). by rewrite app_nil_r.
    + split_and!.
      * apply Forall_app. split; [done|by apply Forall_singleton].
      * rewrite fmap_app. apply NoDup_app. split_and!; [done| |apply NoDup_singleton]. intros k Hk ->%list_elem_of_singleton. done.
      * unfold counts. rewrite fmap_app. cbn. apply list_to_map_snoc. rewrite <- list_fmap_compose. exact Hi.
      * apply Forall_app. split; [eapply Forall_impl; [exact HN|]; intros x Hx; cbv beta in Hx; lia|]. apply Forall_singleton. cbn. lia.
Qed.

Lemma del_holds N rmtab M h p : rm_holds N rmtab M -> rm_holds N (mountlist_del env_ok rmtab h p).1 (count_down (h, p) M).
Proof.
  intros [(l & Et & Hnone & Hok & Hnd & <- & HN)]. destruct (lower_map h p l Hnd) as [Hs Hc]. unfold mountlist_del. destruct rmtab as [s|].
  - change (s = rmtab_text l) in Et. subst s. cbn [re_lock re_open re_create re_rename env_ok negb orb]. rewrite (entries_text l Hok).
    pose proof (del_loop_text l h p Hok) as Hd. destruct (del_loop l h p) as [text out]. cbn [fst] in Hd. subst text. cbn [fst].
    split. exists (omap (lower h p) l). split_and!; try done.
    + apply Forall_forall. intros re (re0 & H0 & Hl)%list_elem_of_omap. apply (proj1 (Forall_forall _ _) Hok) in H0. unfold lower in Hl.
      destruct (same_mount h p re0); [|congruence]. destruct (r_count re0 =? 1) eqn:E1; [done|]. injection Hl as <-. btrue.
      destruct H0. split; try done. cbn [r_count]. lia.
    + by eapply sublist_NoDup.
    + apply Forall_forall. intros re (re0 & H0 & Hl)%list_elem_of_omap. apply (proj1 (Forall_forall _ _) HN) in H0. cbv beta in H0. unfold lower in Hl.
      destruct (same_mount h p re0); [|congruence]. destruct (r_count re0 =? 1) eqn:E1; [done|]. injection Hl as <-. cbn. lia.
  - rewrite Hnone in * by done. cbn [fst]. split. exists []. split_and!; try done; by constructor.
Qed.

(** ** Sequences of mounts and unmounts *)

Inductive rm_op := Mount (host path : cstr) | Unmount (host path : cstr).

Definition op_ok (o : rm_op) : Prop := match o with Mount h p => mount_ok h p | Unmount _ _ => True end.

Definition rm_step (rmtab : option cstr) (o : rm_op) : option cstr :=
  match o with Mount h p => (mountlist_add env_ok rmtab h p).1 | Unmount h p => (mountlist_del env_ok rmtab h p).1 end.
Definition rm_run (ops : list rm_op) (rmtab : option cstr) : option cstr := fold_left rm_step ops rmtab.

Definition count_step (M : gmap (cstr * cstr) Z) (o : rm_op) : gmap (cstr * cstr) Z :=
  match o with Mount h p => <[(h, p) := default 0 (M !! (h, p)) + 1]> M | Unmount h p => count_down (h, p) M end.
Definition count_run (ops : list rm_op) : gmap (cstr * cstr) Z := fold_left count_step ops ∅.

Lemma holds_mono N N' rmtab M : N <= N' -> rm_holds N rmtab M -> rm_holds N' rmtab M.
Proof.
  intros HN [(l & H1 & H2 & H3 & H4 & H5 & H6)]. split. exists l. split_and!; try done. eapply Forall_impl; [exact H6|]. intros re H. cbv beta in *. lia.
Qed.

Lemma run_holds ops N rmtab M :
  Forall op_ok ops -> 0 <= N -> N + Z.of_nat (length ops) <= INT_MAX -> rm_holds N rmtab M ->
  rm_holds (N + Z.of_nat (length ops)) (rm_run ops rmtab) (fold_left count_step ops M).
Proof.
  intros H. revert N rmtab M. induction H as [|o ops Ho _ IH]; intros N rmtab M HN Hmax Hh; [eapply holds_mono; [|exact Hh]; cbn; lia|].
  cbn [length] in *. cbn [rm_run fold_left]. replace (N + Z.of_nat (S (length ops))) with ((N + 1) + Z.of_nat (length ops)) in * by lia.
  apply IH; [lia..|]. destruct o as [h p|h p]; cbn [rm_step count_step].
  - eapply holds_mono; [|apply add_holds; [exact Hh| |exact Ho]]; lia.
  - eapply holds_mono; [|apply del_holds; exact Hh]. lia.
Qed.

(** The file of mounts holds the number of mounts of each client and path: after any sequence of mounts and unmounts from no
    file, the entries that can be read are those of the map of counts, one line for each client and path with a positive count. *)
Lemma rmtab_counts ops :
  Forall op_ok ops -> Z.of_nat (length ops) <= INT_MAX ->
  let l := rmtab_entries (default [] (rm_run ops None)) in
  NoDup (mkey <$> l) /\ (forall h p n, Rm h p n ∈ l <-> count_run ops !! (h, p) = Some n) /\ Forall (fun re => 1 <= r_count re) l.
Proof.
  intros Hops Hmax. assert (rm_holds 0 None ∅) as H0 by (split; exists []; split_and!; try done; by constructor).
  destruct (run_holds ops 0 None ∅ Hops ltac:(lia) Hmax H0) as [(l & -> & _ & Hok & Hnd & Hc & _)]. rewrite (entries_text l Hok). cbv zeta.
  split_and!; [done| |].
  - intros h p n. unfold count_run. rewrite <- Hc. unfold counts. rewrite <- elem_of_list_to_map, list_elem_of_fmap; [|by rewrite <- list_fmap_compose].
    split; [intros Hin; by exists (Rm h p n)|]. intros ([h' p' n'] & [= -> -> ->] & Hin). done.
  - eapply Forall_impl; [exact Hok|]. intros re []. lia.
Qed.

Lemma run_entries ops : Forall op_ok ops -> Z.of_nat (length ops) <= INT_MAX ->
  forall h p n, Rm h p n ∈ rmtab_entries (default [] (rm_run ops None)) <-> count_run ops !! (h, p) = Some n.
Proof. intros Hops Hmax. by apply rmtab_counts. Qed.

Definition ops_ex : list rm_op :=
  [Mount ($"10.0.0.1") ($"/a"); Mount ($"fe80::1") ($"/a"); Mount ($"10.0.0.1") ($"/a"); Unmount ($"fe80::1") ($"/a"); Unmount ($"10.0.0.1") ($"/a")].

Lemma ops_ex_ok : Forall op_ok ops_ex.
Proof. unfold ops_ex. repeat (apply Forall_cons; split); try done; (split; cbn [r_client r_path r_count]; [split; by apply strchr_None..|cbn; lia|cbn; lia|unfold INT_MAX; lia]). Qed.

Example rmtab_run_ex : Forall op_ok ops_ex /\ rm_run ops_ex None = Some ($"10.0.0.1:/a:0x00000001" ++ [NL]).
Proof. split; [apply ops_ex_ok|vm_compute; reflexivity]. Qed.

(** ** Lines that are not read back *)

(** An unmount after a line without a colon loses the lines behind it. *)
Lemma rmtab_del_malformed :
  (mountlist_del env_ok (Some ($"a:/x:0x00000001" ++ [NL] ++ $"junk" ++ [NL] ++ $"b:/y:0x00000001" ++ [NL])) ($"c") ($"/z")).1 =
  Some ($"a:/x:0x00000001" ++ [NL]).
Proof. vm_compute. reflexivity. Qed.

(** A mount over a line without a count writes over the line behind it. *)
Lemma rmtab_add_legacy :
  (mountlist_add env_ok (Some ($"a:/x" ++ [NL] ++ $"b:/y:0x00000001" ++ [NL])) ($"a") ($"/x")).1 =
  Some ($"a:/x:0x00000002" ++ [NL] ++ $"0001" ++ [NL]).
Proof. vm_compute. reflexivity. Qed.

(** A path with a colon is never found again: each mount adds a line, and no unmount removes one. *)
Lemma rmtab_colon_path :
  rm_run [Mount ($"a") ($"/x:y"); Mount ($"a") ($"/x:y"); Unmount ($"a") ($"/x:y")] None =
  Some (mjoin (replicate 2 ($"a:/x:0x00000000" ++ [NL]))).
Proof. vm_compute. reflexivity. Qed.

Lemma count_run_hosts (P : cstr -> Prop) ops M :
  (forall h p, Mount h p ∈ ops -> P h) -> (forall k, is_Some (M !! k) -> P k.1) -> forall k, is_Some (fold_left count_step ops M !! k) -> P k.1.
Proof.
  revert M; induction ops as [|o ops IH]; intros M Hops HM; [done|]. cbn [fold_left]. apply IH; [set_solver|].
  intros k. destruct o as [h p|h p]; cbn [count_step].
  - intros Hk. destruct (decide (k = (h, p))) as [->|Hne]; [apply (Hops h p); set_solver|]. rewrite lookup_insert_ne in Hk by done. by apply HM.
  - unfold count_down. destruct (M !! (h, p)) as [n|] eqn:E; [|apply HM]. destruct (n =? 1).
    + rewrite lookup_delete_is_Some. intros [_ Hk]. by apply HM.
    + rewrite lookup_insert_is_Some'. intros [<-|Hk]; apply HM; eauto.
Qed.

(** The entries of a client recorded by its address are not removed when the client, with another canonical name, unmounts all. *)
Lemma rmtab_del_all_address ops addr hostname auth :
  Forall op_ok ops -> Z.of_nat (length ops) <= INT_MAX -> (forall h p, Mount h p ∈ ops -> h = addr) -> hostname <> addr ->
  let rmtab := rm_run ops None in
  mountlist_del_all env_ok rmtab (Some hostname) auth = rmtab.
Proof.
  intros Hops Hmax Hall Hne rmtab. assert (rm_holds 0 None ∅) as H0 by (split; exists []; split_and!; try done; by constructor).
  destruct (run_holds ops 0 None ∅ Hops ltac:(lia) Hmax H0) as [(l & Et & _ & Hok & Hnd & Hc & _)]. fold rmtab in Et.
  destruct rmtab as [s|]; [|done]. change (s = rmtab_text l) in Et. subst s. cbn [mountlist_del_all re_lock re_open re_create re_rename env_ok negb orb].
  rewrite (entries_text l Hok). f_equal. unfold rmtab_text. do 2 f_equal. apply forallb_filter_id. apply forallb_forall. intros re Hre%list_elem_of_In.
  assert (r_client re = addr) as ->; [|by rewrite (proj2 (streq_false addr hostname)) by congruence].
  apply (count_run_hosts (fun h => h = addr) ops ∅ Hall ltac:(intros k [? H]; by rewrite lookup_empty in H) (mkey re)). rewrite <- Hc. exists (r_count re).
  unfold counts. apply elem_of_list_to_map_1; [by rewrite <- list_fmap_compose|]. apply list_elem_of_fmap. by exists re.
Qed.
