(* ===== verification/Mountd.v ===== *)
(** * The mount protocol (utils/mountd/mountd.c)

    The handlers of mountd on its table of exports, the kernel's caches and the
    file of mounts.  The state is the one of [Auth] with the file of mounts and the
    two lists mountd keeps between requests.  What the kernel and the file system
    answer, the resolver, etab and which opens succeed are arguments; the lines
    handed to the kernel are part of the result, in the order they are written. *)

From S2P Require Import Prelude Exports ExportsRT Client ExportTab Xio Xtab V4root Auth Lookup Fsid Upcall Rmtab.

Inductive mountstat3 := MNT_OK | MNT3ERR_NOENT | MNT3ERR_ACCES | MNT3ERR_NOTDIR.

#[export] Instance mountstat3_eq_dec : EqDecision mountstat3.
Proof. solve_decision. Defined.

Record exportnode := Exportnode { ex_dir : cstr; ex_groups : list cstr }.

(** [md_elist] and [md_ecounter] are the statics of [get_exportlist], [md_mlist] those of [mountlist_list]. *)
Record mountd := Mountd { md_auth : auth; md_rmtab : option cstr; md_elist : list exportnode; md_ecounter : Z; md_mlist : mountlist }.

Definition set_auth (s : mountd) (st : auth) : mountd := Mountd st (md_rmtab s) (md_elist s) (md_ecounter s) (md_mlist s).
Definition set_rmtab (s : mountd) (t : option cstr) : mountd := Mountd (md_auth s) t (md_elist s) (md_ecounter s) (md_mlist s).

(** What is outside of mountd while it serves a request. *)
Record world := World
  { w_ns : resolver; w_ld : loader; w_etab : option file; w_fs : vfs; w_realpath : cstr -> option cstr;
    w_db : cstr -> bool -> option Z; w_chan : cstr -> bool; w_answer : cstr -> option cstr; w_expire : bool;
    w_rm : rm_env; w_now : Z; w_rmtime : Z; w_reverse : bool; w_alloc : nat -> bool; w_pathconf : cstr -> list Z }.

(** An event of a request: a line for a cache of the kernel, or the question for a file handle. *)
Inductive kcall := Kline (line : cstr) | Kask (domain path : cstr) (len : Z).

Definition AUTH_NULL : Z := 0.
Definition AUTH_UNIX : Z := 1.

Definition set_authflavors (exp : exportent) : list Z :=
  match List.filter (fun n => negb (n =? AUTH_NULL)) (map (fun s => fnum (what s)) (e_secinfo exp)) with
  | [] => [AUTH_UNIX]
  | l => l
  end.

Section mountd.
  Context (w : world).

(** The path that a request means. *)
Definition request_path (path : cstr) : cstr :=
  let p := match path with [] => $"/" | _ => path end in default p (w_realpath w p).

Definition reload (s : mountd) : option (Z * mountd) :=
  '(n, st) ← auth_reload (w_ns w) (w_ld w) (md_auth s) (w_etab w); Some (n, set_auth s st).

(** The checks between authentication and the caches; [None]: all hold. *)
Definition mount_checks (p : cstr) (exp : exportent) : option mountstat3 :=
  match v_stat (w_fs w) p with
  | inr errno => Some (if errno =? ENOENT then MNT3ERR_NOENT else MNT3ERR_ACCES)
  | inl stb =>
      if negb (st_isdir stb) && negb (st_isreg stb) then Some MNT3ERR_NOTDIR
      else
        match v_stat (w_fs w) (e_path exp) with
        | inr _ => Some MNT3ERR_NOENT
        | inl estb =>
            if negb (st_dev estb =? st_dev stb) && negb (has_flag (e_flags exp) NFSEXP_CROSSMOUNT) then Some MNT3ERR_ACCES
            else
              match mountpoint_of exp with
              | Some mp => if fst (check_is_mountpoint (v_lstat (w_fs w)) mp) then None else Some MNT3ERR_NOENT
              | None => None
              end
        end
  end.

(** [error] is the status of the reply before the call; the first address of the client is the caller's. *)
Record rootfh := Rootfh
  { rf_error : mountstat3; rf_fh : option ((Z * cstr) * exportent); rf_calls : list kcall; rf_callouts : list callout; rf_state : mountd }.

Definition get_rootfh (s : mountd) (sap : sockaddr) (port : Z) (path : cstr) (error : mountstat3) (v3 : bool) : option rootfh :=
  '(_, s) ← reload s;
  let p := request_path path in
  let fail e calls := Some (Rootfh e None calls [] s) in
  r ← auth_authenticate (w_ns w) (md_auth s) sap port p;
  match r with
  | inr _ => fail MNT3ERR_ACCES []
  | inl (domain, exp) =>
      match mount_checks p exp with
      | Some e => fail e []
      | None =>
          '(lines, ok, exp) ← cache_export (w_ns w) (w_fs w) (ld_mask (w_ld w)) (w_db w) (w_chan w) (w_now w) domain sap exp p;
          let calls := Kline <$> lines in
          if negb ok then fail MNT3ERR_ACCES calls
          else
            let len := if v3 then 64 else 32 in
            let calls := calls ++ [Kask domain p len] in
            match cache_get_filehandle (w_answer w) domain p len with
            | None => fail MNT3ERR_ACCES calls
            | Some fh =>
                match below (e_path exp) p, w_expire w with
                | Some _, false => fail error calls
                | _, _ =>
                    let calls := calls ++ (Kline <$> cache_expire_subdirs (w_now w) (e_path exp) domain p) in
                    let '(rmtab, out) := mountlist_add (w_rm w) (md_rmtab s) (host_ntop (w_ns w) sap) p in
                    Some (Rootfh MNT_OK (Some (fh, exp)) calls out (set_rmtab s rmtab))
                end
            end
      end
  end.

(** The replies: the status, the handle and the flavors. *)
Definition mount_mnt_1_svc (s : mountd) (sap : sockaddr) (port : Z) (path : cstr) : option (mountstat3 * option cstr * rootfh) :=
  r ← get_rootfh s sap port path MNT_OK false;
  Some (rf_error r, (fun f => take 32 (snd (fst f))) <$> rf_fh r, r).

Definition mount_mnt_3_svc (s : mountd) (sap : sockaddr) (port : Z) (path : cstr)
  : option (mountstat3 * option (Z * cstr * list Z) * rootfh) :=
  r ← get_rootfh s sap port path MNT_OK true;
  Some (rf_error r, (fun f => (fst f, set_authflavors (snd f))) <$> rf_fh r, r).

(** The table is not read again for an unmount. *)
Definition mount_umnt_1_svc (s : mountd) (sap : sockaddr) (port : Z) (path : cstr) : option (mountd * list callout) :=
  let p := request_path path in
  r ← auth_authenticate (w_ns w) (md_auth s) sap port p;
  match r with
  | inr _ => Some (s, [])
  | inl _ => let '(rmtab, out) := mountlist_del (w_rm w) (md_rmtab s) (host_ntop (w_ns w) sap) p in Some (set_rmtab s rmtab, out)
  end.

Definition mount_umntall_1_svc (s : mountd) (sap : sockaddr) (port : Z) : option mountd :=
  '(_, s) ← reload s;
  let auth path := match auth_authenticate (w_ns w) (md_auth s) sap port path with Some (inl _) => true | _ => false end in
  Some (set_rmtab s (mountlist_del_all (w_rm w) (md_rmtab s) (host_canonname (w_ns w) sap) auth)).

Definition mount_dump_1_svc (s : mountd) : list (cstr * cstr) * mountd :=
  let '(l, ml) := mountlist_list (w_ns w) (w_reverse w) (re_lock (w_rm w)) (w_alloc w) (md_mlist s)
                    ((fun t => (t, w_rmtime w)) <$> md_rmtab s) in
  (l, Mountd (md_auth s) (md_rmtab s) (md_elist s) (md_ecounter s) ml).

(** [None] inside: all zero. *)
Definition mount_pathconf_2_svc (s : mountd) (sap : sockaddr) (port : Z) (path : cstr) : option (option (list Z) * mountd) :=
  '(_, s) ← reload s;
  let p := request_path path in
  r ← auth_authenticate (w_ns w) (md_auth s) sap port p;
  match r, v_stat (w_fs w) p with
  | inl _, inl _ => Some (Some (w_pathconf w p), s)
  | _, _ => Some (None, s)
  end.
End mountd.

(** ** The list of exports *)

Section exportlist.
  Context (ns : resolver).

(** The names of hosts that the client of an export accepts go away. *)
Fixpoint prune_clients (c : nfs_client) (groups : list cstr) : option (list cstr) :=
  match groups with
  | [] => Some []
  | g :: groups =>
      hit ← (if bool_decide (client_gettype g = MCL_FQDN)
             then match host_addrinfo ns g with Some ai => client_check ns c ai | None => Some false end
             else Some false);
      rest ← prune_clients c groups;
      Some (if hit : bool then rest else g :: rest)
  end.

Definition insert_group (newname : cstr) (groups : list cstr) : list cstr :=
  if existsb (streq newname) groups then groups else newname :: groups.

(** What an export of the type [t] makes of the groups of its path. *)
Definition add_groups (t : mcl_type) (c : nfs_client) (name : cstr) (groups : list cstr) : option (list cstr) :=
  match groups with
  | _ :: _ =>
      if bool_decide (t = MCL_ANONYMOUS) then Some []
      else
        groups ← (if bool_decide (t = MCL_FQDN) then Some groups else prune_clients c groups);
        Some (match name with [] => groups | _ => insert_group name groups end)
  | [] => Some (match name with [] => [] | _ => insert_group name [] end)
  end.

(** [lookup_or_create_elist_entry], with the change of the entry it finds. *)
Fixpoint on_entry (path : cstr) (f : list cstr -> option (list cstr)) (elist : list exportnode) : option (option (list exportnode)) :=
  match elist with
  | [] => Some None
  | e :: elist =>
      if streq path (ex_dir e) then g ← f (ex_groups e); Some (Some (Exportnode (ex_dir e) g :: elist))
      else r ← on_entry path f elist; Some (match r with Some elist => Some (e :: elist) | None => None end)
  end.
Definition lookup_or_create_elist_entry (path : cstr) (f : list cstr -> option (list cstr)) (elist : list exportnode) : option (list exportnode) :=
  r ← on_entry path f elist;
  match r with
  | Some elist => Some elist
  | None => g ← f []; Some (Exportnode path g :: elist)
  end.

Fixpoint list_exports (fuel : nat) (tab : extab) (t : mcl_type) (exp : option positive) (elist : list exportnode) : option (list exportnode) :=
  match exp, fuel with
  | None, _ => Some elist
  | Some _, O => None
  | Some id, S fuel =>
      e ← ex_store tab !! id;
      if has_flag (e_flags (m_export e)) NFSEXP_V4ROOT then list_exports fuel tab t (m_next e) elist
      else
        c ← cl_store (ex_clients tab) !! m_client e;
        elist ← lookup_or_create_elist_entry (e_path (m_export e)) (add_groups t c (default [] (e_hostname (m_export e)))) elist;
        list_exports fuel tab t (m_next e) elist
  end.

Fixpoint list_types (types : list mcl_type) (tab : extab) (elist : list exportnode) : option (list exportnode) :=
  match types with
  | [] => Some elist
  | t :: types => elist ← list_exports (size (ex_store tab)) tab t (p_head (exportlist tab t)) elist; list_types types tab elist
  end.
End exportlist.

Definition get_exportlist (w : world) (s : mountd) : option (list exportnode * mountd) :=
  '(acounter, s) ← reload w s;
  if bool_decide (md_elist s <> []) && (acounter =? md_ecounter s) then Some (md_elist s, s)
  else
    elist ← list_types (w_ns w) mcl_types (a_tab (md_auth s)) [];
    Some (elist, Mountd (md_auth s) (md_rmtab s) elist acounter (md_mlist s)).

(** ** The groups of a path *)

(** An export as the list sees it. *)
Record listed := Listed { ls_type : mcl_type; ls_client : nfs_client; ls_path : cstr; ls_name : cstr }.

Section groups.
  Context (ns : resolver).

Definition add_listed (x : listed) : list cstr -> option (list cstr) := add_groups ns (ls_type x) (ls_client x) (ls_name x).

Fixpoint groups_of (X : list listed) (groups : list cstr) : option (list cstr) :=
  match X with
  | [] => Some groups
  | x :: X => groups ← add_listed x groups; groups_of X groups
  end.

Definition at_path (p : cstr) (X : list listed) : list listed := List.filter (fun x => streq p (ls_path x)) X.

(** The name is shown, or the path is open to all, or a client that is shown accepts the host. *)
Definition covered (X : list listed) (groups : list cstr) (h : cstr) : Prop :=
  h ∈ groups \/ (exists x, x ∈ X /\ ls_type x = MCL_ANONYMOUS) \/
  exists x ai, x ∈ X /\ ls_name x ∈ groups /\ ls_type x <> MCL_FQDN /\ host_addrinfo ns h = Some ai /\ client_check ns (ls_client x) ai = Some true.

Definition named_right (x : listed) : Prop := ls_type x <> MCL_FQDN -> client_gettype (ls_name x) = ls_type x.

Record shown (X : list listed) (groups : list cstr) : Prop := Shown
  { sh_from : forall g, g ∈ groups -> exists x, x ∈ X /\ ls_name x = g;
    sh_covers : forall x, x ∈ X -> ls_name x <> [] -> covered X groups (ls_name x);
    sh_all : (exists x, x ∈ X /\ ls_type x = MCL_ANONYMOUS) ->
      forall g, g ∈ groups -> exists x, x ∈ X /\ ls_name x = g /\ (ls_type x = MCL_ANONYMOUS \/ ls_type x = MCL_GSS);
    sh_nodup : NoDup groups }.

Lemma prune_spec c groups groups' : prune_clients ns c groups = Some groups' ->
  groups' `sublist_of` groups /\
  forall g, g ∈ groups -> g ∈ groups' \/ client_gettype g = MCL_FQDN /\ exists ai, host_addrinfo ns g = Some ai /\ client_check ns c ai = Some true.
Proof.
  revert groups'; induction groups as [|g groups IH]; intros groups'; cbn [prune_clients]; [intros [= <-]; split; [done|]; by intros ? ?%elem_of_nil|].
  destruct (if bool_decide _ then _ else _) as [hit|] eqn:Eh; [|done]. cbn [mbind option_bind].
  destruct (prune_clients ns c groups) as [rest|]; [|done]. cbn [mbind option_bind]. intros [= <-]. destruct (IH rest eq_refl) as [Hs Hg].
  destruct hit.
  - split; [by apply sublist_cons|]. intros g' [->|Hin]%elem_of_cons; [right|by apply Hg].
    case_bool_decide; [|done]. split; [done|]. destruct (host_addrinfo ns g) as [ai|]; [|done]. by exists ai.
  - split; [by apply sublist_skip|]. intros g' [->|Hin]%elem_of_cons; [left; by left|]. destruct (Hg g' Hin); [left; by right|by right].
Qed.

Lemma insert_group_spec n groups : NoDup groups -> NoDup (insert_group n groups) /\ forall g, g ∈ insert_group n groups <-> g = n \/ g ∈ groups.
Proof.
  intros Hn. unfold insert_group. destruct (existsb (streq n) groups) eqn:E.
  - apply existsb_exists in E as (x & Hx%list_elem_of_In & ->%streq_true). split; [done|]. intros g. split; [auto|]. by intros [->|].
  - split.
    + constructor; [|done]. intros Hin. apply not_true_iff_false in E. apply E, existsb_exists. exists n. split; [by apply list_elem_of_In|by apply streq_true].
    + intros g. apply elem_of_cons.
Qed.

(** What one export does. *)
Lemma add_listed_spec x groups groups' : named_right x -> NoDup groups -> add_listed x groups = Some groups' ->
  NoDup groups' /\ (forall g, g ∈ groups' -> g = ls_name x \/ g ∈ groups) /\
  (ls_type x = MCL_ANONYMOUS -> forall g, g ∈ groups' -> g = ls_name x) /\
  (ls_type x <> MCL_ANONYMOUS -> (ls_name x <> [] -> ls_name x ∈ groups') /\
    forall g, g ∈ groups -> g ∈ groups' \/ client_gettype g = MCL_FQDN /\ ls_type x <> MCL_FQDN /\
                                         exists ai, host_addrinfo ns g = Some ai /\ client_check ns (ls_client x) ai = Some true).
Proof.
  intros Hx Hn. unfold add_listed, add_groups. assert (forall l, NoDup l -> match ls_name x with [] => l | _ :: _ => insert_group (ls_name x) l end =
      if bool_decide (ls_name x = []) then l else insert_group (ls_name x) l) as Hm by (intros l _; destruct (ls_name x); done).
  destruct groups as [|g0 groups]; [|destruct (decide (ls_type x = MCL_ANONYMOUS)) as [Ht|Ht]].
  - rewrite Hm by constructor. intros [= <-]. destruct (insert_group_spec (ls_name x) [] (NoDup_nil_2)) as [Hi1 Hi2]. case_bool_decide as Hb.
    + split_and!; [done|by intros ? ?%elem_of_nil|by intros _ ? ?%elem_of_nil|]. intros _. split; [done|]. by intros ? ?%elem_of_nil.
    + split_and!; [done|intros g; rewrite Hi2; naive_solver|intros _ g; rewrite Hi2, elem_of_nil; naive_solver|].
      intros _. split; [intros _; apply Hi2; by left|]. by intros ? ?%elem_of_nil.
  - rewrite bool_decide_true by done. intros [= <-]. split_and!; [by apply NoDup_nil|by intros ? ?%elem_of_nil|by intros _ ? ?%elem_of_nil|done].
  - rewrite bool_decide_false by done. remember (g0 :: groups) as gs. clear Heqgs.
    destruct (if bool_decide (ls_type x = MCL_FQDN) then Some gs else _) as [gs'|] eqn:Ep; [|done]. cbn [mbind option_bind].
    assert (gs' `sublist_of` gs /\ forall g, g ∈ gs -> g ∈ gs' \/ client_gettype g = MCL_FQDN /\ ls_type x <> MCL_FQDN /\
              exists ai, host_addrinfo ns g = Some ai /\ client_check ns (ls_client x) ai = Some true) as [Hs Hk].
    { case_bool_decide as Hf; [injection Ep as <-; auto|]. destruct (prune_spec _ _ _ Ep) as [Hs Hk]. split; [done|]. intros g Hg. destruct (Hk g Hg) as [|[? ?]]; auto. }
    clear Ep. assert (NoDup gs') as Hn' by by eapply sublist_NoDup. rewrite Hm by done. intros [= <-]. destruct (insert_group_spec (ls_name x) gs' Hn') as [Hi1 Hi2].
    assert (forall g, g ∈ gs' -> g ∈ gs) as Hsub by (intros g Hg; by eapply elem_of_sublist).
    case_bool_decide as Hb; (split; [|split; [|split; [by intros ?%Ht|]]]).
    + exact Hn'.
    + auto.
    + intros _. split; [intros Hc; by rewrite Hb in Hc|exact Hk].
    + exact Hi1.
    + intros g. rewrite Hi2. naive_solver.
    + intros _. split; [intros _; apply Hi2; by left|]. intros g Hg. rewrite Hi2. naive_solver.
Qed.

Definition rank (t : mcl_type) : Z :=
  match t with MCL_FQDN => 0 | MCL_SUBNETWORK => 1 | MCL_WILDCARD => 2 | MCL_NETGROUP => 3 | MCL_ANONYMOUS => 4 | MCL_GSS => 5 end.

Lemma shown_step X x groups groups' :
  named_right x -> (forall y, y ∈ X -> rank (ls_type y) <= rank (ls_type x)) -> Forall named_right X ->
  shown X groups -> add_listed x groups = Some groups' -> shown (X ++ [x]) groups'.
Proof.
  intros Hx Hr HX [Hfrom Hcov Hall Hnd] Ha. destruct (add_listed_spec x groups groups' Hx Hnd Ha) as (Hnd' & Hsub & Hanon & Hother).
  assert (x ∈ X ++ [x]) as Hxin by set_solver. assert (forall y, y ∈ X -> y ∈ X ++ [x]) as Hold by set_solver. split; [| | |done].
  - intros g Hg. destruct (Hsub g Hg) as [->|Hg']; [by exists x|]. destruct (Hfrom g Hg') as (y & Hy & <-). exists y. auto.
  - intros y Hy Hne. destruct (decide (ls_type x = MCL_ANONYMOUS)) as [Ht|Ht]; [right; left; by exists x|]. destruct (Hother Ht) as [Hnew Hkeep].
    apply elem_of_app in Hy as [Hy| ->%list_elem_of_singleton]; [|left; by apply Hnew].
    destruct (Hcov y Hy Hne) as [Hin|[(z & Hz & Hzt)|(z & ai & Hz & Hzin & Hzt & Hai & Hc)]].
    + destruct (Hkeep _ Hin) as [?|(_ & Hxf & ai & Hai & Hc)]; [by left|]. right; right. exists x, ai. split_and!; try done.
      apply Hnew. intros E. pose proof (Hx Hxf) as H. rewrite E in H. by apply Ht.
    + right; left. exists z. auto.
    + right; right. exists z, ai. split_and!; auto. destruct (Hkeep _ Hzin) as [?|(Hf & _)]; [done|].
      pose proof (proj1 (Forall_forall _ _) HX z Hz Hzt). congruence.
  - intros (y & Hy & Hyt) g Hg. apply elem_of_app in Hy as [Hy| ->%list_elem_of_singleton].
    + assert (ls_type x = MCL_ANONYMOUS \/ ls_type x = MCL_GSS) as Hxt by (specialize (Hr y Hy); rewrite Hyt in Hr; destruct (ls_type x); cbn in Hr; auto; lia).
      destruct (Hsub g Hg) as [->|Hg']; [by exists x|]. destruct (Hall (ex_intro _ y (conj Hy Hyt)) g Hg') as (z & Hz & Hz'). exists z. auto.
    + rewrite (Hanon Hyt g Hg). exists x. auto.
Qed.

Lemma shown_run X Y groups groups' :
  Forall named_right (X ++ Y) -> Sorted.StronglySorted (fun x y => rank (ls_type x) <= rank (ls_type y)) (X ++ Y) ->
  shown X groups -> groups_of Y groups = Some groups' -> shown (X ++ Y) groups'.
Proof.
  revert X groups; induction Y as [|x Y IH]; intros X groups Hn Hs Hsh; cbn [groups_of]; [rewrite app_nil_r; congruence|].
  destruct (add_listed x groups) as [g1|] eqn:E; [|done]. cbn [mbind option_bind]. intros Hg.
  assert (X ++ x :: Y = (X ++ [x]) ++ Y) as Ex by (by rewrite <- app_assoc). rewrite Ex in *. apply (IH (X ++ [x]) g1); [done..| |done].
  apply Forall_app in Hn as [[HX Hx]%Forall_app _]. apply Forall_cons in Hx as [Hx _]. apply (shown_step X x groups); [exact Hx| |exact HX|exact Hsh|exact E].
  intros y Hy. clear -Hs Hy. induction X as [|z X IH]; [by apply elem_of_nil in Hy|]. cbn in Hs. apply Sorted.StronglySorted_inv in Hs as [Hs Hz].
  apply elem_of_cons in Hy as [->|Hy]; [|by apply IH]. apply (proj1 (List.Forall_forall _ _) Hz). apply in_or_app. left. apply in_or_app. right. by left.
Qed.
End groups.

(** ** The whole list *)

Definition visit (tab : extab) (id : positive) : option listed :=
  e ← ex_store tab !! id;
  if has_flag (e_flags (m_export e)) NFSEXP_V4ROOT then None
  else c ← cl_store (ex_clients tab) !! m_client e; Some (Listed (m_type c) c (e_path (m_export e)) (default [] (e_hostname (m_export e)))).

Definition visited (tab : extab) (ids : list positive) : list listed := omap (visit tab) ids.

Definition node_at (p : cstr) (elist : list exportnode) : option (list cstr) := ex_groups <$> List.find (fun e => streq p (ex_dir e)) elist.

Section whole.
  Context (ns : resolver).

Fixpoint run_list (X : list listed) (elist : list exportnode) : option (list exportnode) :=
  match X with
  | [] => Some elist
  | x :: X => elist ← lookup_or_create_elist_entry (ls_path x) (add_listed ns x) elist; run_list X elist
  end.

Lemma run_list_app X Y elist : run_list (X ++ Y) elist = elist ← run_list X elist; run_list Y elist.
Proof. revert elist; induction X as [|x X IH]; intros elist; [done|]. cbn [app run_list]. destruct (lookup_or_create_elist_entry _ _ _); [apply IH|done]. Qed.

Lemma list_exports_run tab t l fuel p elist :
  chain (ex_store tab) p l None -> (length l <= fuel)%nat ->
  (forall id, id ∈ l -> exists e, ex_store tab !! id = Some e /\ client_type tab e = Some t) ->
  list_exports ns fuel tab t p elist = run_list (visited tab l) elist.
Proof.
  revert fuel p elist; induction l as [|x l IH]; intros fuel p elist Hc Hf Ht; [cbn in Hc; subst; by destruct fuel|].
  destruct Hc as (-> & e & E & Hc). destruct fuel as [|fuel]; [cbn in Hf; lia|]. cbn [list_exports].
  destruct (Ht x ltac:(by left)) as (e' & E' & Het). assert (e' = e) as -> by congruence. rewrite E. cbn [mbind option_bind].
  assert (forall elist, list_exports ns fuel tab t (m_next e) elist = run_list (visited tab l) elist) as IH'.
  { intros el. apply IH; [done|cbn in Hf; lia|]. intros id Hid. apply Ht. by right. }
  unfold visited. cbn [omap list_omap]. unfold visit at 1. rewrite E. cbn [mbind option_bind]. destruct (has_flag _ _); [apply IH'|].
  unfold client_type in Het. destruct (cl_store _ !! m_client e) as [c|]; [|done]. injection Het as Het. cbn [mbind option_bind run_list ls_path].
  unfold add_listed. cbn [ls_type ls_client ls_name]. rewrite Het. destruct (lookup_or_create_elist_entry _ _ _); [apply IH'|done].
Qed.

Lemma list_types_run tab L elist : st_ok tab L -> list_types ns mcl_types tab elist = run_list (visited tab (all_of L)) elist.
Proof.
  intros Hst. unfold all_of. generalize mcl_types. intros types. revert elist; induction types as [|t types IH]; intros elist; [done|].
  cbn [list_types map concat]. unfold visited. rewrite omap_app, run_list_app. destruct (so_table _ _ Hst t) as [Hc Hn _].
  rewrite (list_exports_run tab t (L t)); [|done|by eapply chain_size|apply (so_type _ _ Hst)]. unfold visited.
  destruct (run_list (omap (visit tab) (L t)) elist); [apply IH|done].
Qed.

Definition dirs (elist : list exportnode) : list cstr := ex_dir <$> elist.

Lemma on_entry_spec path f elist r : on_entry path f elist = Some r ->
  match r with
  | Some elist' => dirs elist' = dirs elist /\ (exists g g', node_at path elist = Some g /\ f g = Some g' /\ node_at path elist' = Some g') /\
                   forall p, p <> path -> node_at p elist' = node_at p elist
  | None => path ∉ dirs elist
  end.
Proof.
  revert r; induction elist as [|e elist IH]; intros r; cbn [on_entry]; [intros [= <-]; apply not_elem_of_nil|].
  unfold node_at. cbn [List.find]. destruct (streq path (ex_dir e)) eqn:E.
  - destruct (f (ex_groups e)) as [g|] eqn:Ef; [|done]. cbn [mbind option_bind]. intros [= <-]. apply streq_true in E. subst path. split; [done|]. split.
    + exists (ex_groups e), g. split_and!; [done|done|]. cbn [List.find ex_dir]. by rewrite streq_refl.
    + intros p Hp. cbn [List.find ex_dir]. by rewrite (proj2 (streq_false _ _) Hp).
  - destruct (on_entry path f elist) as [r0|]; [|done]. cbn [mbind option_bind]. specialize (IH r0 eq_refl). destruct r0 as [elist'|]; intros [= <-].
    + destruct IH as (Hd & (g & g' & Hg & Hf & Hg') & Ho). split; [unfold dirs in *; by rewrite !fmap_cons, Hd|]. split.
      * exists g, g'. split_and!; [done|done|]. cbn [List.find]. by rewrite E.
      * intros p Hp. cbn [List.find]. destruct (streq p (ex_dir e)); [done|]. by apply Ho.
    + unfold dirs. rewrite fmap_cons, not_elem_of_cons. split; [by apply streq_false|exact IH].
Qed.

Lemma node_at_none p elist : p ∉ dirs elist -> node_at p elist = None.
Proof.
  unfold node_at, dirs. induction elist as [|e elist IH]; [done|]. rewrite fmap_cons, not_elem_of_cons. intros [H1 H2]. cbn [List.find].
  rewrite (proj2 (streq_false _ _) H1). by apply IH.
Qed.

Lemma node_at_elem e elist : NoDup (dirs elist) -> e ∈ elist -> node_at (ex_dir e) elist = Some (ex_groups e).
Proof.
  unfold node_at, dirs. induction elist as [|e0 elist IH]; [by intros _ ?%elem_of_nil|]. rewrite fmap_cons, NoDup_cons. intros [H0 Hn] Hin. cbn [List.find].
  apply elem_of_cons in Hin as [->|Hin]; [by rewrite streq_refl|]. rewrite (proj2 (streq_false _ _)); [by apply IH|].
  intros E. apply H0. rewrite <- E. apply list_elem_of_fmap. by exists e.
Qed.

Lemma entry_spec path f elist elist' : lookup_or_create_elist_entry path f elist = Some elist' -> NoDup (dirs elist) ->
  NoDup (dirs elist') /\ (forall p, p ∈ dirs elist' <-> p = path \/ p ∈ dirs elist) /\
  (exists g, f (default [] (node_at path elist)) = Some g /\ node_at path elist' = Some g) /\ forall p, p <> path -> node_at p elist' = node_at p elist.
Proof.
  unfold lookup_or_create_elist_entry. destruct (on_entry path f elist) as [r|] eqn:E; [|done]. apply on_entry_spec in E. cbn [mbind option_bind].
  destruct r as [el|]; intros H Hn.
  - injection H as <-. destruct E as (Hd & (g & g' & Hg & Hf & Hg') & Ho). rewrite Hd, Hg. cbn [default]. assert (path ∈ dirs elist) as Hin.
    { destruct (decide (path ∈ dirs elist)) as [|Hout]; [done|]. by rewrite (node_at_none _ _ Hout) in Hg. }
    split_and!; [done|naive_solver|by exists g'|done].
  - destruct (f []) as [g|] eqn:Ef; [|done]. cbn [mbind option_bind] in H. injection H as <-. rewrite (node_at_none _ _ E). cbn [default].
    unfold dirs. rewrite fmap_cons. split_and!; [by constructor|intros p; apply elem_of_cons| |].
    + exists g. split; [done|]. unfold node_at. cbn [List.find ex_dir]. by rewrite streq_refl.
    + intros p Hp. unfold node_at. cbn [List.find ex_dir]. by rewrite (proj2 (streq_false _ _) Hp).
Qed.

Lemma run_list_spec X elist elist' : run_list X elist = Some elist' -> NoDup (dirs elist) ->
  NoDup (dirs elist') /\ (forall p, p ∈ dirs elist' <-> p ∈ ls_path <$> X \/ p ∈ dirs elist) /\
  forall p, match at_path p X with
            | [] => node_at p elist' = node_at p elist
            | Y => exists g, groups_of ns Y (default [] (node_at p elist)) = Some g /\ node_at p elist' = Some g
            end.
Proof.
  revert elist; induction X as [|x X IH]; intros elist; cbn [run_list].
  - intros [= <-] Hn. split_and!; [done| |done]. intros p. rewrite fmap_nil, elem_of_nil. naive_solver.
  - destruct (lookup_or_create_elist_entry _ _ _) as [el|] eqn:E; [|done]. cbn [mbind option_bind]. intros Hr Hn.
    destruct (entry_spec _ _ _ _ E Hn) as (Hn1 & Hd1 & (g & Hg & Hg1) & Ho1). destruct (IH el Hr Hn1) as (Hn' & Hd' & Hp'). split_and!; [done| |].
    + intros p. rewrite Hd', Hd1, fmap_cons, elem_of_cons. naive_solver.
    + intros p. specialize (Hp' p). unfold at_path in *. cbn [List.filter]. destruct (streq p (ls_path x)) eqn:Ep.
      * apply streq_true in Ep. subst p. cbn [groups_of]. rewrite Hg. cbn [mbind option_bind]. rewrite Hg1 in Hp'.
        destruct (List.filter _ X) as [|y Y]; [by exists g|exact Hp'].
      * apply streq_false in Ep. rewrite (Ho1 p Ep) in Hp'. exact Hp'.
Qed.
End whole.

(** The types of the exports do not go down along the lists. *)
Lemma visited_sorted tab L : st_ok tab L -> Sorted.StronglySorted (fun x y => rank (ls_type x) <= rank (ls_type y)) (visited tab (all_of L)).
Proof.
  intros Hst. assert (forall t x, x ∈ visited tab (L t) -> ls_type x = t) as Ht.
  { intros t x (id & Hid & Hv)%list_elem_of_omap. destruct (so_type _ _ Hst t id Hid) as (e & E & Ec). unfold visit in Hv. rewrite E in Hv.
    unfold client_type in Ec. cbn [mbind option_bind] in Hv. destruct (has_flag _ _); [done|]. destruct (cl_store _ !! _) as [c|]; [|done].
    injection Ec as <-. by injection Hv as <-. }
  unfold all_of. assert (forall types, Sorted.StronglySorted (fun a b => rank a <= rank b) types ->
    Sorted.StronglySorted (fun x y => rank (ls_type x) <= rank (ls_type y)) (visited tab (concat (map L types)))) as H; [|apply H; repeat constructor; cbn; lia].
  induction 1 as [|t types Hs IH Hall]; [constructor|]. cbn [map concat]. unfold visited in *. rewrite omap_app.
  assert (forall y, y ∈ omap (visit tab) (concat (map L types)) -> rank t <= rank (ls_type y)) as Hle.
  { intros y (id & Hid%list_elem_of_In & Hv)%list_elem_of_omap. apply in_concat in Hid as (l & (t' & <- & Ht')%in_map_iff & Hid).
    rewrite (Ht t' y); [by apply (proj1 (List.Forall_forall _ _) Hall)|]. apply list_elem_of_omap. exists id. split; [by apply list_elem_of_In|done]. }
  assert (forall x, x ∈ omap (visit tab) (L t) -> rank (ls_type x) = rank t) as Heq by (intros x Hx; by rewrite (Ht t x Hx)). clear -IH Hle Heq.
  induction (omap (visit tab) (L t)) as [|x X IHX]; [exact IH|]. cbn [app]. constructor; [apply IHX; intros y Hy; apply Heq; by right|].
  apply List.Forall_forall. intros y Hy%list_elem_of_In. rewrite (Heq x) by (by left). apply elem_of_app in Hy as [Hy|Hy]; [rewrite (Heq y) by (by right); lia|by apply Hle].
Qed.

Lemma at_path_sorted {R : listed -> listed -> Prop} p X : Sorted.StronglySorted R X -> Sorted.StronglySorted R (at_path p X).
Proof.
  induction 1 as [|x X Hs IH Hx]; [constructor|]. unfold at_path in *. cbn [List.filter]. destruct (streq _ _); [|done]. constructor; [done|].
  apply List.Forall_forall. intros y [Hy _]%filter_In. by apply (proj1 (List.Forall_forall _ _) Hx).
Qed.

Lemma elem_of_at_path p X x : x ∈ at_path p X <-> x ∈ X /\ ls_path x = p.
Proof. unfold at_path. rewrite !list_elem_of_In, filter_In, streq_true. naive_solver. Qed.

(** The answer to an export request, when the list is made anew, has one node for each path that is exported, pseudo file systems
    aside, and its groups are names of the exports of that path, each once.  They cover the exports: the name of every export is
    shown, or a client that is shown accepts the address of that host, or the path is open to all; and when it is, no names other
    than those of the exports to all and of the gss clients are left. *)
Theorem exportlist_covers w s n s1 L elist s' :
  reload w s = Some (n, s1) -> md_elist s1 = [] \/ n <> md_ecounter s1 -> st_ok (a_tab (md_auth s1)) L ->
  Forall named_right (visited (a_tab (md_auth s1)) (all_of L)) ->
  get_exportlist w s = Some (elist, s') ->
  let X := visited (a_tab (md_auth s1)) (all_of L) in
  NoDup (dirs elist) /\ (forall p, p ∈ dirs elist <-> p ∈ ls_path <$> X) /\
  forall e, e ∈ elist -> shown (w_ns w) (at_path (ex_dir e) X) (ex_groups e).
Proof.
  intros Hr Hnew Hst HX Hg X. unfold get_exportlist in Hg. rewrite Hr in Hg. cbn [mbind option_bind] in Hg.
  assert (bool_decide (md_elist s1 <> []) && (n =? md_ecounter s1) = false) as Hmake.
  { destruct Hnew as [->|Hn]; [done|]. rewrite (proj2 (Z.eqb_neq _ _) Hn). apply andb_false_r. }
  rewrite Hmake, (list_types_run _ _ L _ Hst) in Hg. fold X in Hg, HX. destruct (run_list (w_ns w) X []) as [el|] eqn:El; [|done].
  cbn [mbind option_bind] in Hg. injection Hg as <- _. destruct (run_list_spec _ _ _ _ El) as (Hnd & Hd & Hp); [by apply NoDup_nil|].
  split_and!; [done|intros p; rewrite Hd; cbn; rewrite elem_of_nil; naive_solver|]. intros e He. specialize (Hp (ex_dir e)).
  assert (node_at (ex_dir e) el = Some (ex_groups e)) as Hne by (by apply node_at_elem).
  assert (at_path (ex_dir e) X <> []) as HY.
  { assert (ex_dir e ∈ ls_path <$> X) as (x & Hx1 & Hx2)%list_elem_of_fmap.
    { destruct (proj1 (Hd (ex_dir e))) as [H|H]; [apply list_elem_of_fmap; by exists e|exact H|by apply elem_of_nil in H]. }
    intros Hnil. assert (x ∈ at_path (ex_dir e) X) as Hin by by apply elem_of_at_path. rewrite Hnil in Hin. by apply elem_of_nil in Hin. }
  destruct (at_path (ex_dir e) X) as [|y Y] eqn:EY; [done|]. destruct Hp as (g & Hgr & Hg). rewrite Hne in Hg. injection Hg as <-. rewrite <- EY in *.
  apply (shown_run _ [] _ [] _); [| | |exact Hgr]; cbn [app].
  - apply Forall_forall. intros x [Hx _]%elem_of_at_path. by apply (proj1 (Forall_forall _ _) HX).
  - by apply at_path_sorted, visited_sorted.
  - split; [by intros ? ?%elem_of_nil..| |by apply NoDup_nil]. by intros _ ? ?%elem_of_nil.
Qed.

(** A host, and a pattern that its name matches. *)
Definition ns_host : resolver :=
  Resolver (fun s => if streq s $"h.ex.org" then Some (AI (AF_INET 0x0a010203) [] (Some $"h.ex.org")) else None)
    (fun s => if streq s $"10.1.2.3" then Some (AI (AF_INET 0x0a010203) [] None) else None)
    (fun a => match a with AF_INET 0x0a010203 => Some $"h.ex.org" | _ => None end)
    (fun a => match a with AF_INET 0x0a010203 => Some $"10.1.2.3" | _ => None end) (fun _ => None) (fun _ _ => false) (fun _ _ _ _ => []).

Definition host_tab : extab :=
  match export_create ns_host false empty_tab (set_hostname sample_entry (Some $"h.ex.org")) false with Some (_, st) => st | None => empty_tab end.
Definition pattern_tab : extab :=
  match export_create ns_host false host_tab (set_hostname sample_entry (Some $"*.ex.org")) false with Some (_, st) => st | None => empty_tab end.

Definition pattern_auth : auth := Auth pattern_tab 0 false 0 (Some etab1) 1 false.
Definition pattern_mountd : mountd := Mountd pattern_auth None [] 0 (MountList [] 0).

Definition rm_world (rm : rm_env) : world :=
  World ns_host ld_ex (Some etab1) (Vfs (fun _ => inr 38) (fun _ => inl (Stat 1 2 true false)) (fun _ => inl (Stat 1 2 true false)) (fun _ => None) (fun _ => None) [])
    (fun _ => None) (fun _ _ => None) (fun _ => true) (fun _ => Some ($"\x0102" ++ [NL])) true rm 1000 5 false (fun _ => true) (fun _ => []).

Lemma pattern_tab_ok : exists L, st_ok pattern_tab L.
Proof.
  destruct (export_create_some ns_host false empty_tab (fun _ => []) (set_hostname sample_entry (Some $"h.ex.org")) false (Some 1%positive) host_tab empty_tab_ok eq_refl)
    as (L1 & H1 & _).
  destruct (export_create_some ns_host false host_tab L1 (set_hostname sample_entry (Some $"*.ex.org")) false (Some 2%positive) pattern_tab H1 eq_refl) as (L & H & _).
  by exists L.
Qed.

Lemma pattern_named ids : Forall named_right (visited pattern_tab ids).
Proof.
  apply Forall_forall. intros x (id & _ & Hv)%list_elem_of_omap. vm_compute in Hv.
  destruct id as [id|[id|id|]|]; try done; injection Hv as <-; by intros Hne.
Qed.

Lemma exportlist_covers_witness :
  exists L elist s', get_exportlist (rm_world env_ok) pattern_mountd = Some (elist, s') /\ elist = [Exportnode $"/srv" [$"*.ex.org"]] /\
    shown ns_host (at_path $"/srv" (visited pattern_tab (all_of L))) [$"*.ex.org"].
Proof.
  destruct pattern_tab_ok as [L HL]. exists L. destruct (get_exportlist (rm_world env_ok) pattern_mountd) as [[elist s']|] eqn:E.
  - assert (fst <$> get_exportlist (rm_world env_ok) pattern_mountd = Some [Exportnode $"/srv" [$"*.ex.org"]]) as H by (vm_compute; reflexivity).
    rewrite E in H. injection H as ->. exists [Exportnode $"/srv" [$"*.ex.org"]], s'. split_and!; [done|done|].
    destruct (exportlist_covers (rm_world env_ok) pattern_mountd 1 pattern_mountd L [Exportnode $"/srv" [$"*.ex.org"]] s') as (_ & _ & H); [reflexivity|by left|exact HL|apply pattern_named|exact E|].
    apply (H (Exportnode $"/srv" [$"*.ex.org"])). by apply list_elem_of_singleton.
  - exfalso. clear -E. assert (is_Some (get_exportlist (rm_world env_ok) pattern_mountd)) as [? H] by (vm_compute; by eexists). congruence.
Defined.

(** With the export to all among the names of hosts, a gss client alone is shown, although the path is open to all. *)
Lemma exportlist_gss :
  groups_of ns_host [Listed MCL_WILDCARD (zero_client MCL_WILDCARD) $"/srv" $"*.ex.org"; Listed MCL_ANONYMOUS (zero_client MCL_ANONYMOUS) $"/srv" $"*";
                     Listed MCL_GSS (zero_client MCL_GSS) $"/srv" $"gss/krb5"] [] = Some [$"gss/krb5"].
Proof. vm_compute. reflexivity. Qed.

(** ** Mount requests *)

Lemma grant_path ns st L ai dom d e : grant ns st L ai dom d = Some e -> e_path e = d.
Proof.
  unfold grant. destruct (List.find _ _) as [x|] eqn:E; [|done]. intros [= <-]. apply find_some in E as [_ H].
  apply andb_true_iff in H as [[H _]%andb_true_iff _]. by apply streq_true in H.
Qed.

Lemma ancestors_prefix n l d : d ∈ ancestors n l -> exists k, d = canon (take k l).
Proof.
  induction n as [|n IH]; cbn [ancestors]; rewrite elem_of_cons; (intros [->|H]; [by eexists|]); [by apply elem_of_nil in H|by apply IH].
Qed.

Lemma canon_some l : canon l <> [].
Proof. by destruct l. Qed.

Lemma split_on_nul c s : no_nul s -> Forall no_nul (split_on c s).
Proof.
  unfold no_nul. induction 1 as [|d s Hd Hs IH]; [by repeat constructor|]. cbn [split_on]. destruct (ceqb d c); [by constructor|].
  destruct (split_on c s) as [|x l]; [by repeat constructor|]. apply Forall_cons in IH as [H1 H2]. by repeat constructor.
Qed.

Lemma canon_nul k s : no_nul s -> no_nul (canon (take k (comps s))).
Proof.
  intros H. assert (Forall no_nul (take k (comps s))) as F.
  { apply Forall_take, Forall_forall. intros x Hx. unfold comps in Hx. apply list_elem_of_In, filter_In in Hx as [Hx%list_elem_of_In _].
    revert x Hx. apply Forall_forall. by apply split_on_nul. }
  assert (no_nul (slashed (take k (comps s)))) as G.
  { induction F as [|x l Hx _ IH]; [constructor|]. change (slashed (x :: l)) with ("/"%char :: x ++ slashed l). constructor; [done|]. by apply Forall_app. }
  unfold canon. destruct (take k (comps s)); [by repeat constructor|exact G].
Qed.

Lemma subdirs_below fuel before rest d : d ∈ subdirs fuel before rest -> exists r, d = before ++ r /\ r <> [] /\ r `prefix_of` rest.
Proof.
  revert before rest; induction fuel as [|fuel IH]; intros before rest Hd; [by apply elem_of_nil in Hd|].
  destruct rest as [|c rest]; [by apply elem_of_nil in Hd|]. cbn [subdirs] in Hd. destruct (span _ rest) as [x rest'] eqn:Es.
  apply span_app in Es as ->. apply elem_of_cons in Hd as [->|Hd].
  - exists (c :: x). split_and!; [done|done|]. by exists rest'.
  - apply IH in Hd as (r & -> & _ & r' & ->). exists (c :: x ++ r). split_and!; [by rewrite <- app_assoc|done|]. exists r'. cbn. by rewrite <- app_assoc.
Qed.

(** What has been done when a handle is given: the kernel took the address of the client with its domain, then the export for that
    domain, then was asked for the handle; afterwards entries for directories below the export are expired, and no others; the mount is
    in the file of mounts. *)
Record mounted (w : world) (s : mountd) (sap : sockaddr) (dom p : cstr) (len : Z) (e : exportent) (r : rootfh) : Prop := Mounted
  { mo_status : rf_error r = MNT_OK;
    mo_order : exists l0 l1 mid after, rf_calls r = Kline l0 :: Kline l1 :: (Kline <$> mid) ++ Kask dom p len :: (Kline <$> after) /\
      w_chan w l0 = true /\ first_words l0 = ($"nfsd", host_ntop (w_ns w) sap) /\
      w_chan w l1 = true /\ first_words l1 = (dom, e_path e) /\
      forall l, l ∈ after -> exists d, first_words l = (dom, d) /\ e_path e `prefix_of` d /\ d <> e_path e /\ d `prefix_of` p;
    mo_rmtab : md_rmtab (rf_state r) = (mountlist_add (w_rm w) (md_rmtab s) (host_ntop (w_ns w) sap) p).1;
    mo_auth : md_auth (rf_state r) = md_auth s }.

Record refused (s : mountd) (err : mountstat3) (r : rootfh) : Prop := Refused
  { rr_status : rf_error r = err; rr_fh : rf_fh r = None; rr_calls : rf_calls r = []; rr_state : rf_state r = s }.

Lemma expire_names now e_path domain p l :
  domain <> [] -> no_nul domain -> e_path <> [] -> no_nul p -> l ∈ cache_expire_subdirs now e_path domain p ->
  exists d, first_words l = (domain, d) /\ e_path `prefix_of` d /\ d <> e_path /\ d `prefix_of` p.
Proof.
  intros Hd Hd0 He Hp. unfold cache_expire_subdirs, below.
  destruct (length p <=? length e_path)%nat eqn:El; [by intros ?%elem_of_nil|]. destruct (ceqb _ _); [|by intros ?%elem_of_nil]. cbn [negb orb].
  destruct (starts_with e_path p) eqn:Es; [|by intros ?%elem_of_nil]. cbn [negb]. intros (d & Hin & Hl)%list_elem_of_omap.
  apply subdirs_below in Hin as (r & -> & Hr & r' & Hr'). apply starts_with_spec in Es as [q ->]. rewrite drop_app_length in Hr'. subst q.
  exists (e_path ++ r). split_and!.
  - apply (deny_words now domain (e_path ++ r) (-10)); try done; [by destruct e_path|]. unfold no_nul in *. rewrite app_assoc in Hp. by apply Forall_app in Hp as [? _].
  - by exists r.
  - intros E. apply Hr. rewrite <- (app_nil_r e_path) in E at 2. by apply app_inv_head in E.
  - exists r'. by rewrite app_assoc.
Qed.

Lemma uuid_by_path_path fs path e t n : e_path (uuid_by_path fs path e t n).2 = e_path e.
Proof. unfold uuid_by_path. repeat case_match; done. Qed.

Lemma write_secinfo_path m e mask x : e_path (write_secinfo m e mask x).2 = e_path e.
Proof. unfold write_secinfo. by destruct (e_secinfo e). Qed.

Lemma dump_to_cache_path fs m db chan now dom p e d : dump_to_cache fs m db chan now dom p e = Some d -> e_path (dp_exp d) = e_path e.
Proof.
  unfold dump_to_cache, dump_words. destruct (if negb _ then _ else _) as [[b mask]|]; [|by intros [= <-]]. destruct (if b : bool then _ else _) as [f|]; [|by intros [= <-]].
  destruct (write_fsloc e) as [fl|]; [|done]. cbn [mbind option_bind]. pose proof (write_secinfo_path m e mask (if b then NFSEXP_FSID else 0)) as Hs.
  destruct (write_secinfo _ _ _ _) as [sec e1]. cbn [snd] in Hs.
  assert (forall calls e2, e_path e2 = e_path e -> e_path (dp_exp (dump_line chan calls e2)) = e_path e) as Hl by (intros; unfold dump_line; by destruct (chan_line _)).
  pose proof (uuid_by_path_path fs p e1 0 16) as Hu. rewrite Hs in Hu. destruct (uuid_by_path fs p e1 0 16) as [u e2]. cbn [snd] in Hu.
  repeat case_match; simplify_eq; cbn [mbind option_bind]; intros [= <-]; by apply Hl.
Qed.

Lemma submount_path fs m db chan fuel now dom before rest dev e out e' :
  submount_loop fs m db chan fuel now dom before rest dev e = Some (out, e') -> e_path e' = e_path e.
Proof.
  revert before rest dev e out; induction fuel as [|fuel IH]; intros before rest dev e out; [by intros [= _ <-]|]. destruct rest as [|c rest]; [by intros [= _ <-]|].
  cbn [submount_loop]. destruct (negb _); [by intros [= _ <-]|]. destruct (span _ rest) as [x rest']. destruct (v_lstat _ _) as [stb|]; [|by intros [= _ <-]].
  destruct (st_dev stb =? dev); [apply IH|]. destruct (dump_to_cache _ _ _ _ _ _ _ _) as [d|] eqn:Ed; [|done]. cbn [mbind option_bind].
  destruct (submount_loop _ _ _ _ _ _ _ _ _ _ _) as [[o e2]|] eqn:El; [|done]. cbn [mbind option_bind]. intros [= _ <-]. rewrite (IH _ _ _ _ _ El). by eapply dump_to_cache_path.
Qed.

Lemma cache_export_path ns fs m db chan now dom sap e p lines ok e' : cache_export ns fs m db chan now dom sap e p = Some (lines, ok, e') -> e_path e' = e_path e.
Proof.
  unfold cache_export, cache_export_ent. destruct (chan_line _) as [l0|]; [|by intros [= _ _ <-]]. destruct (negb (chan l0)); [by intros [= _ _ <-]|].
  destruct (dump_to_cache _ _ _ _ _ _ _ _) as [d|] eqn:Ed; [|done]. apply dump_to_cache_path in Ed. cbn [mbind option_bind].
  destruct (negb (dp_ok d) || _); [by intros [= _ _ <-]|]. destruct (below _ _); [|by intros [= _ _ <-]]. destruct (v_stat _ _); [|by intros [= _ _ <-]].
  destruct (submount_loop _ _ _ _ _ _ _ _ _ _ _) as [[o e2]|] eqn:El; [|done]. cbn [mbind option_bind]. intros [= _ _ <-]. by rewrite (submount_path _ _ _ _ _ _ _ _ _ _ _ _ _ El).
Qed.

Lemma cache_export_taken ns fs m db chan now dom sap e p lines e' :
  dom <> [] -> no_nul dom -> e_path e <> [] -> no_nul (e_path e) -> host_ntop ns sap <> [] -> no_nul (host_ntop ns sap) ->
  cache_export ns fs m db chan now dom sap e p = Some (lines, true, e') ->
  exists l0 l1 mid, lines = l0 :: l1 :: mid /\ chan l0 = true /\ first_words l0 = ($"nfsd", host_ntop ns sap) /\ chan l1 = true /\ first_words l1 = (dom, e_path e).
Proof.
  intros Hd Hd0 He He0 Ha Ha0. unfold cache_export. destruct (chan_line _) as [l0|] eqn:E0; [|done].
  destruct (chan l0) eqn:C0; [|done]. cbn [negb]. destruct (cache_export_ent _ _ _ _ _ _ _ _) as [[[out ok] e1]|] eqn:E1; [|done].
  cbn [mbind option_bind]. intros [= <- -> <-]. unfold cache_export_ent in E1. destruct (dump_to_cache _ _ _ _ _ _ _ _) as [d|] eqn:Ed; [|done]. cbn [mbind option_bind] in E1.
  assert (exists mid, out = opt_list (dp_text d) ++ mid /\ dp_ok d = true) as (mid & -> & Hok).
  { destruct (dp_ok d) eqn:Eok; [|by cbn in E1; injection E1]. cbn [negb orb] in E1. destruct (negb _); [injection E1 as <- _; exists []; by rewrite app_nil_r|].
    destruct (below _ _); [|injection E1 as <- _; exists []; by rewrite app_nil_r]. destruct (v_stat _ _); [|injection E1 as <- _; exists []; by rewrite app_nil_r].
    destruct (submount_loop _ _ _ _ _ _ _ _ _ _ _) as [[o e2]|]; [|done]. cbn [mbind option_bind] in E1. injection E1 as <- _. by exists o. }
  assert (exists l1, dp_text d = Some l1 /\ chan l1 = true) as (l1 & Hl & C1).
  { unfold dump_to_cache in Ed. destruct (dump_words _ _ _ _ _ _ _) as [[|[calls e2]]|]; [|..|done]; cbn [mbind option_bind] in Ed; injection Ed as <-; [done|].
    unfold dump_line in *. destruct (chan_line calls) as [t|]; [|done]. by exists t. }
  exists l0, l1, mid. rewrite Hl. split_and!; try done.
  - eapply chan_line_words; [..|exact E0]; try done; by repeat constructor.
  - eapply dump_text_words; [..|exact Ed|exact Hl]; done.
Qed.

(** C4. A mount request is granted by the longest exported directory at or above its path, or refused.  Without one, from a port
    that is not allowed, or when a check of the file system fails, the client gets the error, the kernel is told nothing and the state is
    that after the reload.  Otherwise, when a handle is given, the kernel has been told of client and export before it was asked, only
    entries below the export are expired, and the mount is recorded under the client's address; when none is, nothing is recorded. *)
Theorem mount_request w s n s1 L sap port path c ai dom err0 v3 error r :
  reload w s = Some (n, s1) -> request_path w path = "/"%char :: c -> (length c < MAXPATHLEN)%nat -> no_nul c ->
  client_match_active (md_auth s1) = false -> st_ok (a_tab (md_auth s1)) L ->
  (forall e, e ∈ exports_of (md_auth s1) (all_of L) ->
     exists cl b, cl_store (ex_clients (a_tab (md_auth s1))) !! m_client e = Some cl /\ verdict (w_ns w) cl dom (Some ai) = Some b) ->
  client_resolve (w_ns w) (ex_clients (a_tab (md_auth s1))) sap = Some ai ->
  get_client_hostname (w_ns w) (md_auth s1) sap ai bad_path = Some (Some dom, error) ->
  dom <> [] -> no_nul dom -> host_ntop (w_ns w) sap <> [] -> no_nul (host_ntop (w_ns w) sap) ->
  get_rootfh w s sap port path err0 v3 = Some r ->
  let p := request_path w path in
  match omap (grant (w_ns w) (md_auth s1) L ai dom) (ancestors (length (comps c)) (comps c)) with
  | [] => refused s1 MNT3ERR_ACCES r
  | e :: _ =>
      if port_ok port e then
        match mount_checks w p e with
        | Some err => refused s1 err r
        | None => match rf_fh r with
                  | Some (_, e') => mounted w s1 sap dom p (if v3 then 64 else 32) e r
                  | None => rf_state r = s1
                  end
        end
      else refused s1 MNT3ERR_ACCES r
  end.
Proof.
  intros Hr Hp Hlen Hnul Hact Hst Hcheck Hai Hdom Hd Hd0 Ha Ha0 Hg p. subst p. unfold get_rootfh in Hg. rewrite Hr in Hg. cbn [mbind option_bind] in Hg.
  rewrite Hp in *. rewrite (authenticate_ancestors _ _ L _ _ _ _ _ _ Hact Hst Hcheck Hai Hdom Hlen) in Hg. cbn [mbind option_bind] in Hg.
  destruct (omap _ (ancestors _ _)) as [|e es] eqn:Eo; [by injection Hg as <-|]. destruct (port_ok port e); [|by injection Hg as <-].
  assert (exists k, e_path e = canon (take k (comps c))) as [k Hk].
  { assert (e ∈ omap (grant (w_ns w) (md_auth s1) L ai dom) (ancestors (length (comps c)) (comps c))) as (d & Hin & Hgr)%list_elem_of_omap by (rewrite Eo; by left).
    rewrite (grant_path _ _ _ _ _ _ _ Hgr). by eapply ancestors_prefix. }
  assert (e_path e <> [] /\ no_nul (e_path e)) as [He He0] by (rewrite Hk; split; [apply canon_some|by apply canon_nul]).
  destruct (mount_checks w ("/"%char :: c) e); [by injection Hg as <-|]. destruct (cache_export _ _ _ _ _ _ _ _ _ _) as [[[lines ok] e1]|] eqn:Ec; [|done].
  cbn [mbind option_bind] in Hg. destruct ok; cbn [negb] in Hg; [|by injection Hg as <-].
  destruct (cache_get_filehandle _ _ _ _) as [fh|]; [|by injection Hg as <-].
  destruct (cache_export_taken _ _ _ _ _ _ _ _ _ _ _ _ Hd Hd0 He He0 Ha Ha0 Ec) as (l0 & l1 & mid & -> & C0 & W0 & C1 & W1).
  pose proof (cache_export_path _ _ _ _ _ _ _ _ _ _ _ _ _ Ec) as He1. rewrite He1 in Hg.
  destruct (mountlist_add _ _ _ _) as [rmtab out] eqn:Em. assert (Some r = Some (Rootfh err0 None ((Kline <$> l0 :: l1 :: mid) ++ [Kask dom ("/"%char :: c) (if v3 then 64 else 32)]) [] s1) \/
    Some r = Some (Rootfh MNT_OK (Some (fh, e1)) (((Kline <$> l0 :: l1 :: mid) ++ [Kask dom ("/"%char :: c) (if v3 then 64 else 32)]) ++
               (Kline <$> cache_expire_subdirs (w_now w) (e_path e) dom ("/"%char :: c))) out (set_rmtab s1 rmtab))) as [H|H]; [|by injection H as ->|injection H as ->].
  { destruct (below _ _), (w_expire w); auto. }
  cbn [rf_fh]. split; [done| |cbn; by rewrite Em|done]. exists l0, l1, mid, (cache_expire_subdirs (w_now w) (e_path e) dom ("/"%char :: c)). split_and!; try done.
  - cbn [rf_calls]. change (Kline <$> l0 :: l1 :: mid) with (Kline l0 :: Kline l1 :: (Kline <$> mid)). cbn [app]. by rewrite <- app_assoc.
  - intros l Hl. apply (expire_names _ _ _ _ _ Hd Hd0 He) in Hl; [done|]. by constructor.
Qed.

Definition sap_ex : sockaddr := AF_INET 0x0a010203.
Definition dom_ex : cstr := $"*.ex.org,h.ex.org".
Definition root_ex (path : cstr) : option rootfh := get_rootfh (rm_world env_ok) pattern_mountd sap_ex 700 path MNT_OK true.

Lemma pattern_verdicts e ids : e ∈ exports_of pattern_auth ids ->
  exists cl b, cl_store (ex_clients pattern_tab) !! m_client e = Some cl /\ verdict ns_host cl dom_ex (Some (AI sap_ex [] None)) = Some b.
Proof.
  intros (x & _ & E)%list_elem_of_omap. assert (m_client e = 1%positive \/ m_client e = 2%positive) as [-> | ->].
  { vm_compute in E. destruct x as [x|[x|x|]|]; try done; injection E as <-; vm_compute; auto. }
  all: do 2 eexists; split; vm_compute; reflexivity.
Qed.

Lemma mount_request_witness :
  exists L r, root_ex $"/srv/x" = Some r /\
    match omap (grant ns_host pattern_auth L (AI sap_ex [] None) dom_ex) (ancestors 2 [$"srv"; $"x"]) with
    | e :: _ => port_ok 700 e = true -> mount_checks (rm_world env_ok) $"/srv/x" e = None -> mounted (rm_world env_ok) pattern_mountd sap_ex dom_ex $"/srv/x" 64 e r
    | [] => False
    end /\ md_rmtab (rf_state r) = Some ($"10.1.2.3:/srv/x:0x00000001" ++ [NL]).
Proof.
  destruct pattern_tab_ok as [L HL]. destruct (root_ex $"/srv/x") as [r|] eqn:E.
  2: { exfalso. clear -E. assert (is_Some (root_ex $"/srv/x")) as [? H] by (vm_compute; by eexists). congruence. }
  assert ((fun r => (rf_error r, bool_decide (is_Some (rf_fh r)), md_rmtab (rf_state r))) <$> root_ex $"/srv/x" =
          Some (MNT_OK, true, Some ($"10.1.2.3:/srv/x:0x00000001" ++ [NL]))) as H by (vm_compute; reflexivity).
  rewrite E in H. injection H as H1 H2 H3. apply bool_decide_eq_true in H2 as [[fh e'] H2]. exists L, r. split; [done|]. split; [|exact H3].
  pose proof (mount_request (rm_world env_ok) pattern_mountd 1 pattern_mountd L sap_ex 700 $"/srv/x" $"srv/x" (AI sap_ex [] None) dom_ex MNT_OK true unknown_host r) as HT.
  do 2 specialize (HT eq_refl). specialize (HT ltac:(cbn; unfold MAXPATHLEN; lia) ltac:(repeat constructor; discriminate) eq_refl HL).
  specialize (HT ltac:(intros e; apply pattern_verdicts) eq_refl eq_refl ltac:(discriminate) ltac:(repeat constructor; discriminate) ltac:(vm_compute; discriminate)
    ltac:(vm_compute; repeat constructor; discriminate) E).
  cbv zeta in HT. change (request_path (rm_world env_ok) $"/srv/x") with $"/srv/x" in HT. change (comps $"srv/x") with [$"srv"; $"x"] in HT. cbn [length] in HT.
  change (w_ns (rm_world env_ok)) with ns_host in HT. change (md_auth pattern_mountd) with pattern_auth in HT. destruct (omap _ _) as [|e es].
  - destruct HT as [_ HT _ _]. congruence.
  - intros Hport Hchk. rewrite Hport, Hchk, H2 in HT. exact HT.
Defined.

(** ** Mounts and unmounts *)

Inductive mnt_request := Mnt (v3 : bool) (sap : sockaddr) (port : Z) (path : cstr) | Umnt (sap : sockaddr) (port : Z) (path : cstr).

(** The state after a request, and the change of the file of mounts that its answer stands for. *)
Definition serve (w : world) (s : mountd) (q : mnt_request) : option (mountd * list rm_op) :=
  match q with
  | Mnt v3 sap port path =>
      r ← get_rootfh w s sap port path MNT_OK v3;
      Some (rf_state r, match rf_fh r with Some _ => [Mount (host_ntop (w_ns w) sap) (request_path w path)] | None => [] end)
  | Umnt sap port path =>
      a ← auth_authenticate (w_ns w) (md_auth s) sap port (request_path w path);
      '(s, _) ← mount_umnt_1_svc w s sap port path;
      Some (s, match a with inl _ => [Unmount (host_ntop (w_ns w) sap) (request_path w path)] | inr _ => [] end)
  end.

Fixpoint serve_all (qs : list (world * mnt_request)) (s : mountd) : option (mountd * list rm_op) :=
  match qs with
  | [] => Some (s, [])
  | (w, q) :: qs => '(s, ops) ← serve w s q; '(s, ops') ← serve_all qs s; Some (s, ops ++ ops')
  end.

Lemma get_rootfh_rmtab w s sap port path err v3 r : get_rootfh w s sap port path err v3 = Some r ->
  md_rmtab (rf_state r) = match rf_fh r with
                          | Some _ => (mountlist_add (w_rm w) (md_rmtab s) (host_ntop (w_ns w) sap) (request_path w path)).1
                          | None => md_rmtab s
                          end.
Proof.
  unfold get_rootfh, reload. destruct (auth_reload _ _ _ _) as [[n st]|]; [|done]. cbn [mbind option_bind].
  destruct (auth_authenticate _ _ _ _ _) as [[[dom e]|]|]; [| |done]; cbn [mbind option_bind]; [|by intros [= <-]].
  destruct (mount_checks _ _ _); [by intros [= <-]|]. destruct (cache_export _ _ _ _ _ _ _ _ _ _) as [[[lines ok] e1]|]; [|done]. cbn [mbind option_bind].
  destruct (negb ok); [by intros [= <-]|]. destruct (cache_get_filehandle _ _ _ _); [|by intros [= <-]]. cbn [md_rmtab set_auth].
  destruct (mountlist_add _ _ _ _) as [rmtab out]. destruct (below _ _), (w_expire w); by intros [= <-].
Qed.

Lemma serve_rmtab w s q s' ops : w_rm w = env_ok -> serve w s q = Some (s', ops) -> md_rmtab s' = rm_run ops (md_rmtab s).
Proof.
  intros Hw. destruct q as [v3 sap port path|sap port path]; cbn [serve].
  - destruct (get_rootfh _ _ _ _ _ _ _) as [r|] eqn:E; [|done]. cbn [mbind option_bind]. intros [= <- <-]. rewrite (get_rootfh_rmtab _ _ _ _ _ _ _ _ E), Hw.
    by destruct (rf_fh r).
  - unfold mount_umnt_1_svc. destruct (auth_authenticate _ _ _ _ _) as [[a|]|]; [| |done]; cbn [mbind option_bind]; [|by intros [= <- <-]].
    rewrite Hw. destruct (mountlist_del _ _ _ _) as [t out] eqn:E. cbn [mbind option_bind]. intros [= <- <-]. cbn. by rewrite E.
Qed.

Lemma serve_all_rmtab qs s s' ops : Forall (fun wq => w_rm wq.1 = env_ok) qs -> serve_all qs s = Some (s', ops) -> md_rmtab s' = rm_run ops (md_rmtab s).
Proof.
  intros H. revert s ops; induction H as [|[w q] qs Hw _ IH]; intros s ops; cbn [serve_all]; [by intros [= <- <-]|].
  destruct (serve w s q) as [[s1 o1]|] eqn:E; [|done]. cbn [mbind option_bind]. destruct (serve_all qs s1) as [[s2 o2]|] eqn:E2; [|done]. cbn [mbind option_bind].
  intros [= <- <-]. rewrite (IH _ _ E2). unfold rm_run at 2. rewrite fold_left_app. by rewrite (serve_rmtab _ _ _ _ _ Hw E).
Qed.

(** C6. The file of mounts counts what the clients were told: after any mount and unmount requests of any clients, in whatever surroundings,
    each address and path has as many mounts as handles were given for it, less the unmounts that were allowed, down to none. *)
Theorem mountd_counts qs s s' ops :
  Forall (fun wq => w_rm wq.1 = env_ok) qs -> md_rmtab s = None -> serve_all qs s = Some (s', ops) ->
  Forall op_ok ops -> Z.of_nat (length ops) <= INT_MAX ->
  forall h p n, Rm h p n ∈ rmtab_entries (default [] (md_rmtab s')) <-> count_run ops !! (h, p) = Some n.
Proof.
  intros Hw Hs Hr Hok Hmax. rewrite (serve_all_rmtab _ _ _ _ Hw Hr), Hs. by apply run_entries.
Qed.

Definition qs_ex : list (world * mnt_request) :=
  [(rm_world env_ok, Mnt true sap_ex 700 $"/srv/x"); (rm_world env_ok, Mnt false sap_ex 700 $"/srv/x"); (rm_world env_ok, Umnt sap_ex 700 $"/srv/x");
   (rm_world env_ok, Mnt true sap_ex 2000 $"/srv/x"); (rm_world env_ok, Umnt sap_ex 700 $"/other")].

Definition ops_done : list rm_op := [Mount $"10.1.2.3" $"/srv/x"; Mount $"10.1.2.3" $"/srv/x"; Unmount $"10.1.2.3" $"/srv/x"].

Lemma ops_done_ok : Forall op_ok ops_done.
Proof.
  unfold ops_done. repeat (apply Forall_cons; split); try done; (split; cbn [r_client r_path r_count]; [split; by apply strchr_None..|cbn; lia|cbn; lia|unfold INT_MAX; lia]).
Qed.

Lemma mountd_counts_witness :
  exists s' ops, serve_all qs_ex pattern_mountd = Some (s', ops) /\ ops = ops_done /\
    Rm $"10.1.2.3" $"/srv/x" 1 ∈ rmtab_entries (default [] (md_rmtab s')).
Proof.
  destruct (serve_all qs_ex pattern_mountd) as [[s' ops]|] eqn:E.
  2: { exfalso. clear -E. assert (is_Some (serve_all qs_ex pattern_mountd)) as [? H] by (vm_compute; by eexists). congruence. }
  assert (snd <$> serve_all qs_ex pattern_mountd = Some ops_done) as H by (vm_compute; reflexivity).
  rewrite E in H. injection H as ->. exists s', ops_done. split_and!; [done|done|].
  apply (mountd_counts qs_ex pattern_mountd s' ops_done); [by repeat constructor|reflexivity|exact E|apply ops_done_ok|cbn; unfold INT_MAX; lia|vm_compute; reflexivity].
Defined.

(** A mount of a directory below an export is answered with success and no handle when the entries cannot be expired. *)
Lemma mount_ok_without_handle :
  let w := rm_world env_ok in
  let w := World (w_ns w) (w_ld w) (w_etab w) (w_fs w) (w_realpath w) (w_db w) (w_chan w) (w_answer w) false (w_rm w) (w_now w) (w_rmtime w) (w_reverse w)
             (w_alloc w) (w_pathconf w) in
  (fun r => r.1) <$> mount_mnt_3_svc w pattern_mountd sap_ex 700 $"/srv/x" = Some (MNT_OK, None).
Proof. vm_compute. reflexivity. Qed.
