(* ===== verification/Cld.v ===== *)
(** * Client tracking (utils/nfsdcld: sqlite.c, nfsdcld.c, legacy.c)

    nfsdcld remembers which clients may reclaim their state after a restart of the
    server.  Epochs number the restarts: clients are recorded in the table of the
    current epoch, and while a grace period lasts, the table of the recovery epoch
    says who may reclaim.  SQLite is behind an interface, the class [Sqlite] with
    the laws [SqliteLaws]: a statement fails or does what its text says, a
    transaction reaches the disk when it commits, and what a stop of the machine
    leaves is the disk.  The functions run in a state and error monad that keeps
    the database handles it went through, so that theorems can speak of a stop
    between any two statements. *)

From S2P Require Import Prelude Nsm.

(** ** Statements *)

Inductive stmt :=
  | Begin | Commit | Rollback
  | SelectParam (key : cstr) | InsertParam (key value : cstr) | UpdateParam (key value : cstr)
  | CreateParameters | CreateGrace | InsertGrace (current recovery : Z) | UpdateGrace (current recovery : Z) | ClearRecovery | SelectGrace
  | CreateRec (name : cstr) | DropTable (name : cstr) | DeleteFrom (name : cstr)
  | InsertId (name id : cstr) | InsertIdHash (name id hash : cstr) | DeleteId (name id : cstr) | CountId (name id : cstr) | SelectAll (name : cstr)
  | RecNames (unpadded : bool) | AddPrinchash (name : cstr) | RenameTable (name new : cstr)
  | CopyClients (name : cstr) | DropClients
  | Attach | Detach | CopyAttached (name : cstr) | ClearAttached.

Inductive sqlval := SNull | SInt (n : Z) | STxt (s : cstr) | SBlob (b : cstr).
Inductive sqlreply := SFail (code : Z) | SOk (rows : list (list sqlval)).

(** A table of clients: whether it has the column for the principal, and its rows. *)
Record rectab := Rectab { rc_princ : bool; rc_rows : gmap cstr (option cstr) }.

(** The tables of main.sqlite, the table of clients of older versions, and the clients in the database of nfsdcltrack, which may be attached. *)
Record tables := Tables
  { t_params : option (gmap cstr cstr); t_grace : option (list (Z * Z)); t_recs : gmap cstr rectab; t_clients : option (list cstr);
    t_cltrack : option (list cstr); t_attached : bool }.

Definition set_params (T : tables) (p : option (gmap cstr cstr)) : tables := Tables p (t_grace T) (t_recs T) (t_clients T) (t_cltrack T) (t_attached T).
Definition set_grace (T : tables) (g : option (list (Z * Z))) : tables := Tables (t_params T) g (t_recs T) (t_clients T) (t_cltrack T) (t_attached T).
Definition set_recs (T : tables) (r : gmap cstr rectab) : tables := Tables (t_params T) (t_grace T) r (t_clients T) (t_cltrack T) (t_attached T).
Definition set_attached (T : tables) (b : bool) : tables := Tables (t_params T) (t_grace T) (t_recs T) (t_clients T) (t_cltrack T) b.

(** The rows of ids to be inserted; [None]: one is there already. *)
Fixpoint insert_new (ids : list cstr) (rows : gmap cstr (option cstr)) : option (gmap cstr (option cstr)) :=
  match ids with
  | [] => Some rows
  | id :: ids => match rows !! id with Some _ => None | None => insert_new ids (<[id := None]> rows) end
  end.

Definition on_rec (T : tables) (name : cstr) (f : rectab -> option rectab) : option tables :=
  t ← t_recs T !! name; t' ← f t; Some (set_recs T (<[name := t']> (t_recs T))).

(** What a statement other than of a transaction does; [None]: it must fail. *)
Definition effect (s : stmt) (T : tables) : option tables :=
  match s with
  | Begin | Commit | Rollback => None
  | SelectParam _ => _ ← t_params T; Some T
  | InsertParam k v => p ← t_params T; match p !! k with Some _ => None | None => Some (set_params T (Some (<[k := v]> p))) end
  | UpdateParam k v => p ← t_params T; Some (set_params T (Some (match p !! k with Some _ => <[k := v]> p | None => p end)))
  | CreateParameters => match t_params T with Some _ => None | None => Some (set_params T (Some ∅)) end
  | CreateGrace => match t_grace T with Some _ => None | None => Some (set_grace T (Some [])) end
  | InsertGrace c r => g ← t_grace T; Some (set_grace T (Some (g ++ [(c, r)])))
  | UpdateGrace c r => g ← t_grace T; Some (set_grace T (Some (map (fun _ => (c, r)) g)))
  | ClearRecovery => g ← t_grace T; Some (set_grace T (Some (map (fun cr => (fst cr, 0)) g)))
  | SelectGrace => _ ← t_grace T; Some T
  | CreateRec name => match t_recs T !! name with Some _ => None | None => Some (set_recs T (<[name := Rectab true ∅]> (t_recs T))) end
  | DropTable name => _ ← t_recs T !! name; Some (set_recs T (delete name (t_recs T)))
  | DeleteFrom name => on_rec T name (fun t => Some (Rectab (rc_princ t) ∅))
  | InsertId name id => on_rec T name (fun t => Some (Rectab (rc_princ t) (<[id := None]> (rc_rows t))))
  | InsertIdHash name id h => on_rec T name (fun t => if rc_princ t then Some (Rectab true (<[id := Some h]> (rc_rows t))) else None)
  | DeleteId name id => on_rec T name (fun t => Some (Rectab (rc_princ t) (delete id (rc_rows t))))
  | CountId name _ | SelectAll name => _ ← t_recs T !! name; Some T
  | RecNames _ => Some T
  | AddPrinchash name => on_rec T name (fun t => if rc_princ t then None else Some (Rectab true (rc_rows t)))
  | RenameTable name new =>
      t ← t_recs T !! name; match t_recs T !! new with Some _ => None | None => Some (set_recs T (<[new := t]> (delete name (t_recs T)))) end
  | CopyClients name => ids ← t_clients T; on_rec T name (fun t => rows ← insert_new ids (rc_rows t); Some (Rectab (rc_princ t) rows))
  | DropClients => _ ← t_clients T; Some (Tables (t_params T) (t_grace T) (t_recs T) None (t_cltrack T) (t_attached T))
  | Attach => if t_attached T then None else Some (set_attached T true)
  | Detach => if t_attached T then Some (set_attached T false) else None
  | CopyAttached name =>
      if t_attached T then ids ← t_cltrack T; on_rec T name (fun t => rows ← insert_new ids (rc_rows t); Some (Rectab (rc_princ t) rows)) else None
  | ClearAttached =>
      if t_attached T then _ ← t_cltrack T; Some (Tables (t_params T) (t_grace T) (t_recs T) (t_clients T) (Some []) true) else None
  end.

Definition row_of_client (r : cstr * option cstr) : list sqlval := [SBlob (fst r); match snd r with Some h => SBlob h | None => SNull end].

(** What it answers.  The order of the rows of a table is not said. *)
Definition answers (s : stmt) (T : tables) (rows : list (list sqlval)) : Prop :=
  match s with
  | SelectParam k => exists p, t_params T = Some p /\ rows = match p !! k with Some v => [[STxt v]] | None => [] end
  | SelectGrace => exists g, t_grace T = Some g /\ rows = map (fun cr => [SInt (fst cr); SInt (snd cr)]) g
  | CountId name id => exists t, t_recs T !! name = Some t /\ rows = [[SInt (match rc_rows t !! id with Some _ => 1 | None => 0 end)]]
  | SelectAll name => exists t, t_recs T !! name = Some t /\ rows ≡ₚ map row_of_client (map_to_list (rc_rows t))
  | RecNames unpadded => rows ≡ₚ map (fun n => [STxt n]) (List.filter (fun n => negb unpadded || (length n <? 20)%nat) (map fst (map_to_list (t_recs T))))
  | CopyAttached _ => rows = [[SInt (Z.of_nat (length (default [] (t_cltrack T))))]]
  | _ => rows = []
  end.

(** ** The interface *)

Class Sqlite (H : Type) := sql : stmt -> H -> sqlreply * H.

(** [view] is what the connection reads, [disk] what is left when the machine stops now.  A failed statement changes nothing, or ends the
    transaction without effect. *)
Class SqliteLaws (H : Type) `{Sqlite H} :=
  { view : H -> tables; disk : H -> tables; in_tx : H -> bool;
    idle_view : forall h, in_tx h = false -> view h = disk h;
    sql_fail : forall s h c h', sql s h = (SFail c, h') ->
      c <> 0 /\ disk h' = disk h /\ (in_tx h' = in_tx h /\ view h' = view h \/ in_tx h' = false);
    sql_begin : forall h r h', sql Begin h = (SOk r, h') -> in_tx h = false /\ in_tx h' = true /\ view h' = view h /\ disk h' = disk h;
    sql_commit : forall h r h', sql Commit h = (SOk r, h') -> in_tx h = true /\ in_tx h' = false /\ disk h' = view h;
    sql_rollback : forall h, let h' := (sql Rollback h).2 in in_tx h' = false /\ disk h' = disk h;
    sql_ok : forall s h r h', s <> Begin -> s <> Commit -> s <> Rollback -> sql s h = (SOk r, h') ->
      effect s (view h) = Some (view h') /\ answers s (view h) r /\ in_tx h' = in_tx h /\ disk h' = if in_tx h then disk h else view h' }.

(** ** The daemon *)

Definition CLD_SQLITE_LATEST_SCHEMA_VERSION : Z := 4.
Definition NFS4_OPAQUE_LIMIT : nat := 1024.
Definition SHA256_DIGEST_SIZE : nat := 32.
Definition EINVAL : Z := 22.
Definition EACCES : Z := 13.
Definition EREMOTEIO : Z := 121.
Definition SQLITE_ABORT : Z := 4.
Definition SQLITE_DONE : Z := 101.

(** The variables of the daemon, the directory v4recovery of old kernels, and the handles passed through, the last one first. *)
Record cld (H : Type) := Cld
  { dbh : H; current_epoch : Z; recovery_epoch : Z; first_time : Z; num_cltrack_records : Z; num_legacy_records : Z;
    recdir : option (list cstr); passed : list H }.
#[global] Arguments Cld {H}.
#[global] Arguments dbh {H}.
#[global] Arguments current_epoch {H}.
#[global] Arguments recovery_epoch {H}.
#[global] Arguments first_time {H}.
#[global] Arguments num_cltrack_records {H}.
#[global] Arguments num_legacy_records {H}.
#[global] Arguments recdir {H}.
#[global] Arguments passed {H}.

(** A function returns its result, or [inl] and the error it returns instead. *)
Definition cM (H A : Type) : Type := cld H -> (Z + A) * cld H.
#[export] Instance cM_ret H : MRet (cM H) := fun A a s => (inr a, s).
#[export] Instance cM_bind H : MBind (cM H) := fun A B k m s => match m s with (inr a, s) => k a s | (inl c, s) => (inl c, s) end.

Definition rec_name (epoch : Z) : cstr := $"rec-" ++ hex 16 epoch.

(** [sscanf(name, "rec-%" PRIx64, &val) == 1]. *)
Definition name_epoch (name : cstr) : option Z :=
  if starts_with $"rec-" name then
    let '(v, rest) := scan_digits 16 (drop 4 name) 0 in if (length rest <? length (drop 4 name))%nat then Some (u64 v) else None
  else None.

Section cld.
  Context {H : Type} `{Sqlite H}.

Definition set_dbh (s : cld H) (h : H) : cld H :=
  Cld h (current_epoch s) (recovery_epoch s) (first_time s) (num_cltrack_records s) (num_legacy_records s) (recdir s) (h :: passed s).
Definition set_epochs (c r : Z) : cM H unit := fun s =>
  (inr tt, Cld (dbh s) c r (first_time s) (num_cltrack_records s) (num_legacy_records s) (recdir s) (passed s)).
Definition set_first_time (n : Z) : cM H unit := fun s =>
  (inr tt, Cld (dbh s) (current_epoch s) (recovery_epoch s) n (num_cltrack_records s) (num_legacy_records s) (recdir s) (passed s)).
Definition set_num_cltrack (n : Z) : cM H unit := fun s =>
  (inr tt, Cld (dbh s) (current_epoch s) (recovery_epoch s) (first_time s) n (num_legacy_records s) (recdir s) (passed s)).
Definition set_num_legacy (n : Z) : cM H unit := fun s =>
  (inr tt, Cld (dbh s) (current_epoch s) (recovery_epoch s) (first_time s) (num_cltrack_records s) n (recdir s) (passed s)).

Definition fail {A} (c : Z) : cM H A := fun s => (inl c, s).
Definition get : cM H (cld H) := fun s => (inr s, s).
(** The error as a value. *)
Definition catch {A} (m : cM H A) : cM H (Z + A) := fun s => let '(r, s) := m s in (inr r, s).

Definition exec (st : stmt) : cM H (list (list sqlval)) := fun s =>
  let '(r, h) := sql st (dbh s) in
  match r with
  | SOk rows => (inr rows, set_dbh s h)
  | SFail c => (inl c, set_dbh s h)
  end.

(** A body between BEGIN and COMMIT; [false]: roll back without an error.  [undo_begin]: whether a failed BEGIN is rolled back too. *)
Definition transaction (undo_begin : bool) (body : cM H bool) : cM H unit := fun s =>
  let rollback s := snd (exec Rollback s) in
  match exec Begin s with
  | (inl c, s) => (inl c, if undo_begin then rollback s else s)
  | (inr _, s) =>
      match body s with
      | (inl c, s) => (inl c, rollback s)
      | (inr false, s) => (inr tt, rollback s)
      | (inr true, s) => match exec Commit s with (inl c, s) => (inl c, rollback s) | (inr _, s) => (inr tt, s) end
      end
  end.

(** [sqlite3_column_int] on a value stored as text. *)
Definition column_int (v : sqlval) : Z := match v with STxt t => atoi t | SInt n => i32 n | _ => 0 end.

Definition sqlite_query_schema_version : cM H Z :=
  r ← catch (exec (SelectParam $"version"));
  mret (match r with inr ([v] :: _) => column_int v | _ => 0 end).

Definition sqlite_query_first_time : cM H unit :=
  rows ← exec (SelectParam $"first_time");
  match rows with
  | [v] :: _ => set_first_time (column_int v)
  | _ => fail SQLITE_DONE
  end.

Fixpoint for_names (f : cstr -> cM H unit) (rows : list (list sqlval)) : cM H unit :=
  match rows with
  | [] => mret tt
  | row :: rows =>
      r ← catch (match row with [STxt n] => f n | _ => fail (- EINVAL) end);
      match r with inl _ => fail SQLITE_ABORT | inr _ => for_names f rows end
  end.

Definition sqlite_add_princ_col_cb (name : cstr) : cM H unit := _ ← exec (AddPrinchash name); mret tt.
Definition sqlite_maindb_update_v3_to_v4 : cM H unit := rows ← exec (RecNames false); for_names sqlite_add_princ_col_cb rows.
Definition sqlite_maindb_update_v1v2_to_v4 : cM H unit :=
  _ ← exec CreateGrace; _ ← exec (InsertGrace 1 0); _ ← exec (CreateRec (rec_name 1)); _ ← exec (CopyClients (rec_name 1)); _ ← exec DropClients; mret tt.

Definition sqlite_maindb_update_schema (oldversion : Z) : cM H unit :=
  transaction true (
    v ← sqlite_query_schema_version;
    if negb (v =? oldversion) then if v =? CLD_SQLITE_LATEST_SCHEMA_VERSION then mret false else fail (- EINVAL)
    else
      _ ← (if (oldversion =? 3) || (oldversion =? 2) then sqlite_maindb_update_v3_to_v4
           else if oldversion =? 1 then sqlite_maindb_update_v1v2_to_v4 else fail (- EINVAL));
      _ ← exec (UpdateParam $"version" (itoa CLD_SQLITE_LATEST_SCHEMA_VERSION));
      r ← catch sqlite_query_first_time;
      _ ← (match r with inl _ => exec (InsertParam $"first_time" $"1") | inr _ => mret [] end);
      mret true).

Definition sqlite_maindb_init_v4 : cM H unit :=
  transaction false (
    v ← sqlite_query_schema_version;
    if v =? CLD_SQLITE_LATEST_SCHEMA_VERSION then mret false
    else if negb (v =? 0) then fail (- EINVAL)
    else
      _ ← exec CreateParameters; _ ← exec CreateGrace; _ ← exec (InsertGrace 1 0); _ ← exec (CreateRec (rec_name 1));
      _ ← exec (InsertParam $"version" (itoa CLD_SQLITE_LATEST_SCHEMA_VERSION)); _ ← exec (InsertParam $"first_time" $"1");
      mret true).

Definition column_int64 (v : sqlval) : Z := match v with SInt n => n | _ => 0 end.

Definition sqlite_startup_query_grace : cM H unit :=
  rows ← exec SelectGrace;
  match rows with
  | [c; r] :: _ => set_epochs (u64 (column_int64 c)) (u64 (column_int64 r))
  | _ => fail SQLITE_DONE
  end.

Definition sqlite_fix_table_name (name : cstr) : cM H unit :=
  match name_epoch name with
  | None => fail (- EINVAL)
  | Some val => _ ← exec (RenameTable name (rec_name val)); mret tt
  end.

Definition sqlite_check_table_names_cb (name : cstr) : cM H unit :=
  match name_epoch name with
  | None => fail (- EINVAL)
  | Some val =>
      s ← get;
      if (val =? current_epoch s) || (val =? recovery_epoch s) then sqlite_fix_table_name name else fail (- EINVAL)
  end.

Definition sqlite_check_table_names : cM H unit := rows ← exec (RecNames true); for_names sqlite_check_table_names_cb rows.
Definition sqlite_check_db_health : cM H unit := transaction true (_ ← sqlite_check_table_names; mret true).

(** ** Records *)

Definition sqlite_insert_client (clname : cstr) : cM H unit := s ← get; _ ← exec (InsertId (rec_name (current_epoch s)) clname); mret tt.

Definition sqlite_insert_client_and_princhash (clname clprinchash : cstr) : cM H unit :=
  s ← get;
  _ ← exec (match clprinchash with
            | [] => InsertId (rec_name (current_epoch s)) clname
            | _ => InsertIdHash (rec_name (current_epoch s)) clname clprinchash
            end);
  mret tt.

Definition sqlite_remove_client (clname : cstr) : cM H unit := s ← get; _ ← exec (DeleteId (rec_name (current_epoch s)) clname); mret tt.

Definition sqlite_check_client (clname : cstr) : cM H unit :=
  s ← get;
  rows ← exec (CountId (rec_name (recovery_epoch s)) clname);
  match rows with
  | [v] :: _ => if negb (column_int v =? 1) then fail (- EACCES) else sqlite_insert_client clname
  | _ => fail SQLITE_DONE
  end.

(** ** Epochs *)

Definition sqlite_grace_start : cM H unit :=
  s ← get;
  let '(tcur, trec) := if recovery_epoch s =? 0 then (u64 (current_epoch s + 1), current_epoch s) else (current_epoch s, recovery_epoch s) in
  _ ← transaction true (
        if recovery_epoch s =? 0 then
          _ ← exec (UpdateGrace (i64 tcur) (i64 trec)); _ ← exec (CreateRec (rec_name tcur)); mret true
        else _ ← exec (DeleteFrom (rec_name tcur)); mret true);
  set_epochs tcur trec.

Definition sqlite_grace_done : cM H unit :=
  s ← get;
  _ ← transaction true (_ ← exec ClearRecovery; _ ← exec (DropTable (rec_name (recovery_epoch s))); mret true);
  set_epochs (current_epoch s) 0.

(** A record as it is handed to the callback: its id, its principal hash.  The copy
    of the hash is always of the size of a digest: a longer one is cut, and for a
    shorter one, which no kernel sends, what follows the blob in memory would be
    copied too; that is not modelled. *)
Definition client_msg (row : list sqlval) : cstr * cstr :=
  match row with
  | [SBlob id; SBlob h] => (take NFS4_OPAQUE_LIMIT id, take SHA256_DIGEST_SIZE h)
  | SBlob id :: _ => (take NFS4_OPAQUE_LIMIT id, [])
  | _ => ([], [])
  end.

(** The records that the callback gets, one after the other.  What the callback
    returns is not looked at: a record whose write to the pipe fails is passed over
    and the walk goes on, so these are the records that were handed over, not those
    that arrived. *)
Definition sqlite_iterate_recovery : cM H (list (cstr * cstr)) :=
  s ← get;
  if recovery_epoch s =? 0 then fail (- EINVAL)
  else rows ← exec (SelectAll (rec_name (recovery_epoch s))); mret (client_msg <$> rows).

(** ** The one-time upgrade *)

(** [exists_]: there is a database of nfsdcltrack. *)
Definition sqlite_attach_db (exists_ : bool) : cM H unit := if exists_ then _ ← exec Attach; mret tt else fail (-1).
Definition sqlite_detach_db : cM H unit := _ ← exec Detach; mret tt.

Definition sqlite_copy_cltrack_records (exists_ : bool) : cM H unit :=
  _ ← sqlite_attach_db exists_;
  s ← get;
  r ← catch (transaction true (
        _ ← exec (DeleteFrom (rec_name (current_epoch s)));
        rows ← exec (CopyAttached (rec_name (current_epoch s)));
        _ ← set_num_cltrack (match rows with [SInt n] :: _ => n | _ => 0 end);
        mret true));
  _ ← (match r with inl _ => set_num_cltrack 0 | inr _ => mret tt end);
  _ ← catch sqlite_detach_db;
  match r with inl c => fail c | inr _ => mret tt end.

Definition dot_name (n : cstr) : bool := streq n $"." || streq n $"..".

Fixpoint load_recdir (names : list cstr) : cM H unit :=
  match names with
  | [] => mret tt
  | n :: names =>
      let buf := $"hash:" ++ n in
      if dot_name n || (NFS4_OPAQUE_LIMIT <=? length buf)%nat then load_recdir names
      else
        r ← catch (sqlite_insert_client (buf ++ [NUL]));
        s ← get;
        _ ← (match r with inl _ => mret tt | inr _ => set_num_legacy (num_legacy_records s + 1) end);
        load_recdir names
  end.
Definition legacy_load_clients_from_recdir : cM H unit := s ← get; load_recdir (default [] (recdir s)).

(** [rmdir n]: the directory of a client can be removed. *)
Definition legacy_clear_recdir (rmdir : cstr -> bool) : cM H unit := fun s =>
  (inr tt, Cld (dbh s) (current_epoch s) (recovery_epoch s) (first_time s) (num_cltrack_records s) (num_legacy_records s)
     (List.filter (fun n => dot_name n || negb (rmdir n)) <$> recdir s) (passed s)).

Definition sqlite_delete_cltrack_records (exists_ : bool) : cM H unit :=
  _ ← sqlite_attach_db exists_;
  r ← catch (exec ClearAttached);
  _ ← catch sqlite_detach_db;
  match r with inl c => fail c | inr _ => mret tt end.

Definition sqlite_first_time_done : cM H unit := _ ← exec (UpdateParam $"first_time" $"0"); mret tt.

(** After the database has been opened. *)
Definition sqlite_prepare_dbh (cltrack : bool) : cM H unit :=
  v ← sqlite_query_schema_version;
  _ ← (if v =? CLD_SQLITE_LATEST_SCHEMA_VERSION then mret tt
       else if (v =? 3) || (v =? 2) || (v =? 1) then sqlite_maindb_update_schema v
       else if v =? 0 then sqlite_maindb_init_v4
       else fail (- EINVAL));
  _ ← sqlite_startup_query_grace;
  _ ← sqlite_query_first_time;
  _ ← sqlite_check_db_health;
  s ← get;
  if negb (first_time s =? 0) then
    _ ← catch (sqlite_copy_cltrack_records cltrack);
    legacy_load_clients_from_recdir
  else mret tt.

(** ** Upcalls *)

(** What the file v4_end_grace gives: [None]: it cannot be read. *)
Definition cld_check_grace_period (old_kernel : bool) (end_grace : option ascii) : cM H unit :=
  s ← get;
  if negb old_kernel || negb (recovery_epoch s =? 0) then mret tt
  else match end_grace with
       | None => fail 1
       | Some c => if ceqb c "N" then sqlite_grace_start else mret tt
       end.

Inductive upcall :=
  | Cld_Create (vers : Z) (id princhash : cstr) | Cld_Remove (id : cstr) | Cld_Check (id : cstr) | Cld_GraceDone | Cld_GraceStart | Cld_GetVersion.

(** What is outside of the daemon during an upcall. *)
Record cld_env := CldEnv { ce_old_kernel : bool; ce_end_grace : option ascii; ce_cltrack : bool; ce_rmdir : cstr -> bool }.

Definition cld_create (env : cld_env) (vers : Z) (id princhash : cstr) : cM H unit :=
  _ ← cld_check_grace_period (ce_old_kernel env) (ce_end_grace env);
  if 2 <=? vers then sqlite_insert_client_and_princhash id princhash else sqlite_insert_client id.

Definition cld_remove (env : cld_env) (id : cstr) : cM H unit :=
  _ ← cld_check_grace_period (ce_old_kernel env) (ce_end_grace env); sqlite_remove_client id.

Definition cld_check (id : cstr) : cM H unit :=
  s ← get;
  _ ← (if recovery_epoch s =? 0 then sqlite_grace_start else mret tt);
  sqlite_check_client id.

Definition cld_gracedone (env : cld_env) : cM H unit :=
  s ← get;
  _ ← (if recovery_epoch s =? 0 then sqlite_grace_start else mret tt);
  r ← catch sqlite_grace_done;
  s ← get;
  _ ← (if negb (first_time s =? 0) then
         _ ← (if 0 <? num_cltrack_records s then catch (sqlite_delete_cltrack_records (ce_cltrack env)) else mret (inr tt));
         _ ← (if 0 <? num_legacy_records s then legacy_clear_recdir (ce_rmdir env) else mret tt);
         _ ← catch sqlite_first_time_done;
         set_first_time 0
       else mret tt);
  match r with inl c => fail c | inr _ => mret tt end.

Definition cld_gracestart : cM H (list (cstr * cstr)) := _ ← sqlite_grace_start; sqlite_iterate_recovery.

(** The status of the reply, and the records handed to the pipe before it; those before a query fails half-way are left out. *)
Definition serve_upcall (env : cld_env) (q : upcall) (s : cld H) : Z * list (cstr * cstr) * cld H :=
  let status code (m : cM H unit) := let '(r, s) := m s in (match r with inl _ => - code | inr _ => 0 end, [], s) in
  match q with
  | Cld_Create vers id h => status EREMOTEIO (cld_create env vers id h)
  | Cld_Remove id => status EREMOTEIO (cld_remove env id)
  | Cld_Check id => status EACCES (cld_check id)
  | Cld_GraceDone => status EREMOTEIO (cld_gracedone env)
  | Cld_GraceStart => let '(r, s) := cld_gracestart s in match r with inl _ => (- EREMOTEIO, [], s) | inr msgs => (0, msgs, s) end
  | Cld_GetVersion => (0, [], s)
  end.
End cld.
