(* ===== verification/CldSafe.v ===== *)
(** * Client tracking across failures and stops

    The database of [Cld] is a tracker: two epochs and the clients recorded in
    them.  Theorems: whatever statements fail and wherever the machine stops, the
    database is the tracker after the upcalls that were acknowledged, and at most a
    part of the one under way; and who is sent to the kernel when a grace period
    starts.  A database in memory satisfies the laws; on it, what the one-time
    upgrades lose. *)

From S2P Require Import Prelude Nsm Cld.

Record tracker := Tracker { tr_cur : Z; tr_rec : Z; tr_clients : gmap cstr (option cstr); tr_reclaim : gmap cstr (option cstr) }.

Definition tr_start (a : tracker) : tracker :=
  if tr_rec a =? 0 then Tracker (tr_cur a + 1) (tr_cur a) ∅ (tr_clients a) else Tracker (tr_cur a) (tr_rec a) ∅ (tr_reclaim a).
Definition tr_done (a : tracker) : tracker := Tracker (tr_cur a) 0 (tr_clients a) ∅.
Definition tr_create (id : cstr) (h : option cstr) (a : tracker) : tracker := Tracker (tr_cur a) (tr_rec a) (<[id := h]> (tr_clients a)) (tr_reclaim a).
Definition tr_remove (id : cstr) (a : tracker) : tracker := Tracker (tr_cur a) (tr_rec a) (delete id (tr_clients a)) (tr_reclaim a).

Definition recs_of (a : tracker) : gmap cstr rectab :=
  <[rec_name (tr_cur a) := Rectab true (tr_clients a)]> (if tr_rec a =? 0 then ∅ else {[rec_name (tr_rec a) := Rectab true (tr_reclaim a)]}).

(** The epochs of a tracker. *)
Definition repr_range (a : tracker) : Prop := 0 < tr_cur a < 2 ^ 63 /\ 0 <= tr_rec a < tr_cur a.

(** The tables of a tracker, after the one-time upgrade. *)
Record repr (T : tables) (a : tracker) : Prop := Repr
  { rp_range : repr_range a; rp_normal : tr_rec a = 0 -> tr_reclaim a = ∅;
    rp_grace : t_grace T = Some [(tr_cur a, tr_rec a)]; rp_recs : t_recs T = recs_of a;
    rp_params : exists p, t_params T = Some p /\ p !! $"version" = Some $"4" /\ p !! $"first_time" = Some $"0" }.

Lemma rec_name_inj a b : 0 <= a -> 0 <= b -> rec_name a = rec_name b -> a = b.
Proof.
  intros Ha Hb E. unfold rec_name in E. apply app_inv_head in E. pose proof (scan_hex_digits 16 a Ha) as H1. rewrite E, (scan_hex_digits 16 b Hb) in H1. congruence.
Qed.

Lemma rec_name_length e : 0 <= e < 2 ^ 64 -> length (rec_name e) = 20%nat.
Proof. intros He. unfold rec_name. rewrite length_app, hex_length; [done| |lia]. change (16 ^ Z.of_nat 16) with (2 ^ 64). lia. Qed.

Lemma repr_name T a : repr T a -> rec_name (tr_cur a) <> rec_name (tr_rec a).
Proof. intros [[Hc Hr] _ _ _ _] E. apply rec_name_inj in E; lia. Qed.

Lemma repr_cur T a : repr T a -> t_recs T !! rec_name (tr_cur a) = Some (Rectab true (tr_clients a)).
Proof. intros HT. rewrite (rp_recs _ _ HT). apply lookup_insert_eq. Qed.

Lemma repr_rec T a : repr T a -> tr_rec a <> 0 -> t_recs T !! rec_name (tr_rec a) = Some (Rectab true (tr_reclaim a)).
Proof.
  intros HT Hr. rewrite (rp_recs _ _ HT). unfold recs_of. rewrite lookup_insert_ne by (by eapply repr_name). rewrite (proj2 (Z.eqb_neq _ _) Hr). apply lookup_singleton_eq.
Qed.

(** ** Effects on the tables *)

Lemma effect_change T a name f a' T' :
  repr T a -> on_rec T name f = Some T' -> name = rec_name (tr_cur a) -> tr_cur a' = tr_cur a -> tr_rec a' = tr_rec a -> tr_reclaim a' = tr_reclaim a ->
  f (Rectab true (tr_clients a)) = Some (Rectab true (tr_clients a')) -> repr T' a'.
Proof.
  intros HT. unfold on_rec. intros E -> Hc Hr Hrec Hf. rewrite (repr_cur _ _ HT) in E. cbn [mbind option_bind] in E. rewrite Hf in E. cbn [mbind option_bind] in E.
  injection E as <-. destruct HT as [R1 R2 R3 R4 R5]. unfold repr_range in *. split; unfold repr_range; cbn; try done; rewrite ?Hc, ?Hr, ?Hrec; try done. rewrite R4. unfold recs_of.
  rewrite insert_insert_eq, Hc, Hr, Hrec. done.
Qed.

Lemma effect_start T a T1 T2 :
  repr T a -> tr_rec a = 0 -> tr_cur a + 1 < 2 ^ 63 ->
  effect (UpdateGrace (tr_cur a + 1) (tr_cur a)) T = Some T1 -> effect (CreateRec (rec_name (tr_cur a + 1))) T1 = Some T2 -> repr T2 (tr_start a).
Proof.
  intros HT Hr Hlt E1 E2. pose proof HT as [[R1 R1'] R2 R3 R4 R5]. cbn [effect] in E1. rewrite R3 in E1. cbn [mbind option_bind map] in E1. injection E1 as <-.
  cbn [effect] in E2. cbn [set_grace t_recs] in E2. destruct (t_recs T !! _); [done|]. injection E2 as <-. unfold tr_start. rewrite Hr. cbn [Z.eqb].
  split; unfold repr_range; cbn; try done; [lia|lia|]. rewrite R4. unfold recs_of. cbn. rewrite Hr. cbn [Z.eqb]. rewrite (proj2 (Z.eqb_neq _ _)) by lia.
  rewrite insert_empty. done.
Qed.

Lemma effect_restart T a T1 : repr T a -> tr_rec a <> 0 -> effect (DeleteFrom (rec_name (tr_cur a))) T = Some T1 -> repr T1 (tr_start a).
Proof.
  intros HT Hr E. unfold tr_start. rewrite (proj2 (Z.eqb_neq _ _) Hr). by eapply effect_change.
Qed.

Lemma effect_done T a T1 T2 :
  repr T a -> tr_rec a <> 0 -> effect ClearRecovery T = Some T1 -> effect (DropTable (rec_name (tr_rec a))) T1 = Some T2 -> repr T2 (tr_done a).
Proof.
  intros HT Hr E1 E2. pose proof (repr_name _ _ HT) as Hn. pose proof HT as [[R1 R1'] R2 R3 R4 R5]. cbn [effect] in E1. rewrite R3 in E1. cbn [mbind option_bind map fst] in E1. injection E1 as <-.
  cbn [effect set_grace t_recs] in E2. destruct (t_recs T !! _); [|done]. cbn [mbind option_bind] in E2. injection E2 as <-. split; cbn [set_recs set_grace t_grace t_recs t_params]; try done; [unfold repr_range; cbn; lia|].
  rewrite R4. unfold recs_of. cbn [tr_done tr_rec tr_cur tr_clients]. rewrite (proj2 (Z.eqb_neq _ _) Hr). change (0 =? 0) with true. cbv iota.
  rewrite delete_insert_ne by done. by rewrite delete_singleton_eq.
Qed.

(** ** Statements and transactions *)

Section safe.
  Context {H : Type} `{SqliteLaws H}.

(** The handles passed through on the way left the disk so. *)
Definition within (P : tables -> Prop) (s s' : cld H) : Prop := exists hs, passed s' = hs ++ passed s /\ Forall (fun h => P (disk h)) hs.

Definition same_vars (s s' : cld H) : Prop :=
  current_epoch s' = current_epoch s /\ recovery_epoch s' = recovery_epoch s /\ first_time s' = first_time s.

Lemma within_refl P s : within P s s.
Proof. by exists []. Qed.

Lemma within_trans P s1 s2 s3 : within P s1 s2 -> within P s2 s3 -> within P s1 s3.
Proof. intros (l1 & E1 & F1) (l2 & E2 & F2). exists (l2 ++ l1). rewrite E2, E1, app_assoc. split; [done|]. by apply Forall_app. Qed.

Lemma within_impl (P Q : tables -> Prop) s s' : (forall T, P T -> Q T) -> within P s s' -> within Q s s'.
Proof. intros HPQ (l & E & F). exists l. split; [done|]. eapply Forall_impl; [exact F|]. intros h. apply HPQ. Qed.

Lemma same_vars_trans s1 s2 s3 : same_vars s1 s2 -> same_vars s2 s3 -> same_vars s1 s3.
Proof. intros (? & ? & ?) (? & ? & ?). split_and!; congruence. Qed.

Definition ordinary (st : stmt) : Prop := st <> Begin /\ st <> Commit /\ st <> Rollback.

(** The disk does not change before the transaction ends. *)
Definition tx_at (s : cld H) (D V : tables) : Prop := disk (dbh s) = D /\ in_tx (dbh s) = true /\ view (dbh s) = V.

Lemma exec_vars st s : same_vars s (exec st s).2 /\ passed (exec st s).2 = dbh (exec st s).2 :: passed s.
Proof. unfold exec. destruct (sql st (dbh s)) as [[c|rows] h]; done. Qed.

Lemma exec_disk st s P : P (disk (dbh (exec st s).2)) -> within P s (exec st s).2.
Proof. intros HP. exists [dbh (exec st s).2]. destruct (exec_vars st s) as [_ ->]. split; [done|]. by apply Forall_singleton. Qed.

Lemma exec_fail st s c s' : exec st s = (inl c, s') -> disk (dbh s') = disk (dbh s) /\ c <> 0 /\ (in_tx (dbh s) = false -> in_tx (dbh s') = false).
Proof.
  unfold exec. destruct (sql st (dbh s)) as [[c'|rows] h] eqn:E; [|done]. intros [= -> <-]. apply sql_fail in E as (Hc & Hd & Hv). cbn.
  split_and!; [done|done|]. intros Hi. destruct Hv as [[Hv _]|Hv]; [by rewrite Hv|done].
Qed.

Lemma exec_tx st s D V r s' : ordinary st -> tx_at s D V -> exec st s = (r, s') ->
  same_vars s s' /\ within (fun T => T = D) s s' /\ disk (dbh s') = D /\
  match r with inr rows => exists V', effect st V = Some V' /\ answers st V rows /\ tx_at s' D V' | inl _ => True end.
Proof.
  intros (O1 & O2 & O3) (HD & Hx & HV) E. assert (disk (dbh s') = D /\ match r with inr rows => exists V', effect st V = Some V' /\ answers st V rows /\ tx_at s' D V' | inl _ => True end) as [Hd Hr].
  { destruct r as [c|rows]; [apply exec_fail in E as (Hd & _ & _); split; [congruence|done]|]. unfold exec in E.
    destruct (sql st (dbh s)) as [[c'|rows'] h] eqn:Es; [done|]. injection E as -> <-. apply sql_ok in Es as (He & Ha & Hi & Hd); try done. rewrite Hx in Hd.
    cbn [set_dbh dbh]. split; [congruence|]. exists (view h). rewrite <- HV. split_and!; [done|done|]. unfold tx_at. cbn. split_and!; congruence. }
  pose proof (exec_vars st s) as [Hv _]. pose proof (exec_disk st s (fun T => T = D)) as Hw. rewrite E in Hv, Hw. cbn [snd] in Hv, Hw. auto.
Qed.

(** A body that either fails or makes [V] into [V']. *)
Definition body_ok (D V V' : tables -> Prop) (m : cM H bool) : Prop :=
  forall s r s' T, D (disk (dbh s)) -> V T -> tx_at s (disk (dbh s)) T -> m s = (r, s') ->
  same_vars s s' /\ within D s s' /\ disk (dbh s') = disk (dbh s) /\
  match r with inr b => b = true /\ exists T', V' T' /\ tx_at s' (disk (dbh s)) T' | inl _ => True end.

Lemma body_ret (D V : tables -> Prop) : body_ok D V V (mret true).
Proof. intros s r s' T HD HV Hx [= <- <-]. split_and!; try done; [apply within_refl|]. eauto. Qed.

Lemma body_exec (D V V1 V' : tables -> Prop) st m :
  ordinary st -> (forall T T', V T -> effect st T = Some T' -> V1 T') -> body_ok D V1 V' m -> body_ok D V V' (_ ← exec st; m).
Proof.
  intros Ho Heff Hm s r s' T HD HV Hx. unfold mbind, cM_bind. destruct (exec st s) as [r1 s1] eqn:E.
  destruct (exec_tx _ _ _ _ _ _ Ho Hx E) as (Hv & Hw & Hd & Hr). apply (within_impl _ D) in Hw; [|by intros ? ->].
  destruct r1 as [c|rows]; [intros [= <- <-]; done|]. destruct Hr as (V1' & He & _ & Hx1). intros E2.
  assert (tx_at s1 (disk (dbh s1)) V1') as Hx1' by by rewrite Hd.
  destruct (Hm s1 r s' V1') as (Hv2 & Hw2 & Hd2 & Hr2); [by rewrite Hd|by eapply Heff|done|done|].
  split_and!; [by eapply same_vars_trans|by eapply within_trans|congruence|]. by rewrite <- Hd.
Qed.

Lemma rollback_spec s : let s' := (exec Rollback s).2 in
  same_vars s s' /\ in_tx (dbh s') = false /\ disk (dbh s') = disk (dbh s) /\ forall P : tables -> Prop, P (disk (dbh s)) -> within P s s'.
Proof.
  cbv zeta. pose proof (exec_vars Rollback s) as [Hv _]. pose proof (exec_disk Rollback s) as Hw. pose proof (sql_rollback (dbh s)) as Hr. cbv zeta in Hr.
  assert (dbh (exec Rollback s).2 = (sql Rollback (dbh s)).2) as Ed by (unfold exec; by destruct (sql Rollback (dbh s)) as [[c|rows] h]).
  rewrite Ed in *. destruct Hr as [Hr1 Hr2]. split_and!; try done. intros P HP. apply Hw. by rewrite Hr2.
Qed.

(** A transaction fails and leaves the disk, or commits what its body did; there is nothing in between. *)
Lemma transaction_spec u body s r s' (D D' : tables -> Prop) :
  in_tx (dbh s) = false -> D (disk (dbh s)) -> body_ok D (fun T => T = disk (dbh s)) D' body -> transaction u body s = (r, s') ->
  same_vars s s' /\ in_tx (dbh s') = false /\ within (fun T => D T \/ D' T) s s' /\
  match r with inl _ => disk (dbh s') = disk (dbh s) | inr _ => D' (disk (dbh s')) end.
Proof.
  intros Hi HD Hb. unfold transaction. destruct (exec Begin s) as [r1 s1] eqn:E1. pose proof (exec_vars Begin s) as [Hv1 _]. rewrite E1 in Hv1. cbn [snd] in Hv1.
  assert (disk (dbh s1) = disk (dbh s) /\ match r1 with inl _ => in_tx (dbh s1) = false | inr _ => tx_at s1 (disk (dbh s1)) (disk (dbh s)) end) as [Hd1 Hx1].
  { destruct r1 as [c|rows]; [apply exec_fail in E1 as (Hd & _ & Hi1); auto|]. unfold exec in E1. destruct (sql Begin (dbh s)) as [[c|rows'] h] eqn:Es; [done|].
    injection E1 as _ <-. apply sql_begin in Es as (_ & Hx & Hvw & Hd). cbn. split; [done|]. split_and!; [done|done|]. cbn. rewrite Hvw. by apply idle_view. }
  pose proof (exec_disk Begin s (fun T => D T \/ D' T)) as Hw1. rewrite E1 in Hw1. cbn [snd] in Hw1. rewrite Hd1 in Hw1. specialize (Hw1 (or_introl HD)).
  destruct r1 as [c|rows].
  { intros [= <- <-]. destruct u; [|done]. destruct (rollback_spec s1) as (Rv & Ri & Rd & Rw). split_and!; [by eapply same_vars_trans|done| |congruence].
    eapply within_trans; [exact Hw1|]. apply Rw. rewrite Hd1. by left. }
  destruct (body s1) as [r2 s2] eqn:E2. destruct (Hb s1 r2 s2 (disk (dbh s))) as (Hv2 & Hw2 & Hd2 & Hr2); [by rewrite Hd1|done|done|done|].
  apply (within_impl _ (fun T => D T \/ D' T)) in Hw2; [|by left]. assert (within (fun T => D T \/ D' T) s s2) as Hw by by eapply within_trans.
  assert (same_vars s s2) as Hv by by eapply same_vars_trans. destruct (rollback_spec s2) as (Rv & Ri & Rd & Rw).
  assert (D (disk (dbh s2))) as HD2 by (rewrite Hd2, Hd1; done).
  assert (same_vars s (exec Rollback s2).2 /\ in_tx (dbh (exec Rollback s2).2) = false /\ within (fun T => D T \/ D' T) s (exec Rollback s2).2 /\
          disk (dbh (exec Rollback s2).2) = disk (dbh s)) as Hroll.
  { split_and!; [by eapply same_vars_trans|done|eapply within_trans; [exact Hw|apply Rw; by left]|congruence]. }
  destruct r2 as [c|b]; [intros [= <- <-]; exact Hroll|]. destruct Hr2 as (-> & T' & HT' & Hx2). destruct (exec Commit s2) as [r3 s3] eqn:E3.
  pose proof (exec_vars Commit s2) as [Hv3 _]. pose proof (exec_disk Commit s2 (fun T => D T \/ D' T)) as Hw3. rewrite E3 in Hv3, Hw3. cbn [snd] in Hv3, Hw3.
  destruct r3 as [c|rows3]; intros [= <- <-].
  - apply exec_fail in E3 as (Hd3 & _ & _). destruct (rollback_spec s3) as (Rv3 & Ri3 & Rd3 & Rw3). rewrite Hd3 in Hw3. specialize (Hw3 (or_introl HD2)).
    split_and!; [by eapply same_vars_trans; [|eapply same_vars_trans]|done| |congruence]. eapply within_trans; [exact Hw|]. eapply within_trans; [exact Hw3|].
    apply Rw3. rewrite Hd3. by left.
  - unfold exec in E3. destruct (sql Commit (dbh s2)) as [[c|rows'] h] eqn:Es; [done|]. injection E3 as _ <-. apply sql_commit in Es as (_ & Hi3 & Hd3). cbn [set_dbh dbh] in *.
    destruct Hx2 as (_ & _ & HV). assert (D' (disk h)) as HD' by (rewrite Hd3, HV; done). split_and!; [by eapply same_vars_trans|done| |done].
    eapply within_trans; [exact Hw|]. apply Hw3. by right.
Qed.

(** ** The operations *)

(** The daemon between two upcalls. *)
Record live (s : cld H) (a : tracker) : Prop := Live
  { lv_idle : in_tx (dbh s) = false; lv_repr : repr (disk (dbh s)) a; lv_cur : current_epoch s = tr_cur a; lv_rec : recovery_epoch s = tr_rec a;
    lv_first : first_time s = 0 }.

Lemma live_next s s' a a' : live s a -> same_vars s s' -> in_tx (dbh s') = false -> repr (disk (dbh s')) a' -> tr_cur a' = tr_cur a -> tr_rec a' = tr_rec a -> live s' a'.
Proof. intros [_ _ Hc Hr Hf] (V1 & V2 & V3) Hi HT E1 E2. split; try done; congruence. Qed.

Definition bothly (a a' : tracker) (T : tables) : Prop := repr T a \/ repr T a'.

(** An operation makes [a] into [a'] or leaves it, and nothing else is ever on the disk. *)
Definition op_spec {A} (m : cM H A) (a a' : tracker) (Q : A -> Prop) : Prop :=
  forall s r s', live s a -> m s = (r, s') ->
  within (bothly a a') s s' /\ match r with inl _ => live s' a | inr x => live s' a' /\ Q x end.

Lemma u64_same z : 0 <= z < 2 ^ 64 -> u64 z = z.
Proof. intros Hz. unfold u64. by apply Z.mod_small. Qed.

Lemma i64_id z : 0 <= z < 2 ^ 63 -> i64 z = z.
Proof. intros Hz. unfold i64. rewrite Z.mod_small; lia. Qed.

(** The variables are those of the tracker. *)
Lemma op_get {A} (k : cld H -> cM H A) a a' Q :
  (forall s, current_epoch s = tr_cur a -> recovery_epoch s = tr_rec a -> first_time s = 0 -> op_spec (k s) a a' Q) -> op_spec (s ← get; k s) a a' Q.
Proof. intros Hk s r s' Hs E. pose proof Hs as [_ _ Hc Hr Hf]. exact (Hk s Hc Hr Hf s r s' Hs E). Qed.

(** A transaction, and then the variables. *)
Lemma epochs_spec a a' body tc tr s r s' :
  tc = tr_cur a' -> tr = tr_rec a' -> live s a -> body_ok (fun T => repr T a) (fun T => T = disk (dbh s)) (fun T => repr T a') body ->
  (_ ← transaction true body; set_epochs tc tr) s = (r, s') ->
  within (bothly a a') s s' /\ match r with inl _ => live s' a | inr _ => live s' a' /\ True end.
Proof.
  intros -> -> Hs Hb. pose proof Hs as [Hi HT _ _ Hf]. unfold mbind, cM_bind. destruct (transaction true body s) as [r1 s1] eqn:Et.
  apply (transaction_spec _ _ _ _ _ (fun T => repr T a) (fun T => repr T a')) in Et as (Hv & Hi1 & Hw & Hr1); [|done..].
  destruct r1 as [c|[]]; intros [= <- <-]; (split; [exact Hw|]); [eapply live_next; try done; by rewrite Hr1|].
  split; [|done]. destruct Hv as (V1 & V2 & V3). split; cbn; try done; congruence.
Qed.

Lemma grace_start_spec a : tr_cur a + 1 < 2 ^ 63 -> op_spec sqlite_grace_start a (tr_start a) (fun _ => True).
Proof.
  intros Hlt. apply op_get. intros s0 Hc Hr _. rewrite Hc, Hr. clear s0 Hc Hr. intros s r s' Hs. pose proof Hs as [_ HT _ _ _]. pose proof HT as [[R1 R1'] _ _ _ _].
  assert (tr_start a = if tr_rec a =? 0 then Tracker (tr_cur a + 1) (tr_cur a) ∅ (tr_clients a) else Tracker (tr_cur a) (tr_rec a) ∅ (tr_reclaim a)) as Es by done.
  destruct (tr_rec a =? 0) eqn:E0; cbv iota beta.
  - apply Z.eqb_eq in E0. rewrite (u64_same (tr_cur a + 1)) by lia. rewrite !i64_id by lia. apply (epochs_spec a (tr_start a)); [by rewrite Es..|done|].
    apply (body_exec _ _ (fun T1 => effect (UpdateGrace (tr_cur a + 1) (tr_cur a)) (disk (dbh s)) = Some T1)); [done|by intros T T' ->|].
    apply (body_exec _ _ (fun T => repr T (tr_start a))); [done| |apply body_ret]. intros T T' E1 E2. by eapply effect_start.
  - apply Z.eqb_neq in E0. apply (epochs_spec a (tr_start a)); [by rewrite Es..|done|]. apply (body_exec _ _ (fun T => repr T (tr_start a))); [done| |apply body_ret]. intros T T' -> E1. by eapply effect_restart.
Qed.

Lemma grace_done_spec a : tr_rec a <> 0 -> op_spec sqlite_grace_done a (tr_done a) (fun _ => True).
Proof.
  intros Hne. apply op_get. intros s0 Hc Hr _. rewrite Hc, Hr. clear s0 Hc Hr. intros s r s' Hs. pose proof Hs as [_ HT _ _ _]. apply (epochs_spec a (tr_done a)); [done..|].
  apply (body_exec _ _ (fun T1 => effect ClearRecovery (disk (dbh s)) = Some T1)); [done|by intros T T' ->|].
  apply (body_exec _ _ (fun T => repr T (tr_done a))); [done| |apply body_ret]. intros T T' E1 E2. by eapply effect_done.
Qed.

(** One statement on its own. *)
Lemma exec_spec st a a' : ordinary st -> tr_cur a' = tr_cur a -> tr_rec a' = tr_rec a ->
  (forall T T', repr T a -> effect st T = Some T' -> repr T' a') -> op_spec (exec st) a a' (fun rows => exists T, repr T a /\ answers st T rows).
Proof.
  intros (O1 & O2 & O3) E1 E2 Heff s r s' Hs E. pose proof Hs as [Hi HT Hc Hr Hf]. pose proof (exec_vars st s) as [Hv _]. pose proof (exec_disk st s (bothly a a')) as Hw.
  rewrite E in Hv, Hw. cbn [snd] in Hv, Hw. destruct r as [c|rows].
  - apply exec_fail in E as (Hd & _ & Hi'). rewrite Hd in Hw. split; [apply Hw; by left|]. eapply live_next; [done|done|by apply Hi'|by rewrite Hd|done|done].
  - unfold exec in E. destruct (sql st (dbh s)) as [[c'|rows'] h] eqn:Es; [done|]. injection E as -> <-. apply sql_ok in Es as (He & Ha & Hi' & Hd); try done.
    rewrite Hi in Hi', Hd. rewrite (idle_view _ Hi) in He, Ha. assert (repr (disk h) a') as HT' by (rewrite Hd; by eapply Heff). cbn [set_dbh dbh] in *.
    split; [apply Hw; by right|]. split; [by eapply live_next|]. by exists (disk (dbh s)).
Qed.

Lemma op_impl {A} (m : cM H A) a a' (Q Q' : A -> Prop) : (forall x, Q x -> Q' x) -> op_spec m a a' Q -> op_spec m a a' Q'.
Proof. intros HQ Hm s r s' Hs E. destruct (Hm s r s' Hs E) as [Hw Hr]. split; [done|]. destruct r; [done|]. destruct Hr; auto. Qed.

Lemma op_then {A B} (m : cM H A) (k : A -> cM H B) a a' Q :
  op_spec m a a' (fun _ => True) -> (forall x s, k x s = (inr Q, s)) -> op_spec (x ← m; k x) a a' (fun y => y = Q).
Proof.
  intros Hm Hk s r s' Hs. unfold mbind, cM_bind. destruct (m s) as [r1 s1] eqn:E. destruct (Hm s r1 s1 Hs E) as [Hw Hr].
  destruct r1 as [c|x]; [by intros [= <- <-]|]. rewrite Hk. intros [= <- <-]. destruct Hr. auto.
Qed.

Lemma insert_spec id a : op_spec (sqlite_insert_client id) a (tr_create id None a) (fun _ => True).
Proof.
  apply op_get. intros s0 Hc _ _. apply (op_impl _ _ _ (fun y => y = tt)); [done|]. apply op_then; [|done]. apply (op_impl _ _ _ (fun rows => exists T, repr T a /\ answers (InsertId (rec_name (current_epoch s0)) id) T rows)); [done|].
  rewrite Hc. apply exec_spec; [done..|]. intros T T' HT E. by eapply effect_change.
Qed.

Definition hash_of (h : cstr) : option cstr := match h with [] => None | _ => Some h end.

Lemma insert_hash_spec id h a : op_spec (sqlite_insert_client_and_princhash id h) a (tr_create id (hash_of h) a) (fun _ => True).
Proof.
  apply op_get. intros s0 Hc _ _. apply (op_impl _ _ _ (fun y => y = tt)); [done|]. apply op_then; [|done]. eapply op_impl; [by intros ? _|].
  rewrite Hc. apply exec_spec; [by destruct h|done|done|]. intros T T' HT E. destruct h; by eapply effect_change.
Qed.

Lemma remove_spec id a : op_spec (sqlite_remove_client id) a (tr_remove id a) (fun _ => True).
Proof.
  apply op_get. intros s0 Hc _ _. apply (op_impl _ _ _ (fun y => y = tt)); [done|]. apply op_then; [|done]. eapply op_impl; [by intros ? _|].
  rewrite Hc. apply exec_spec; [done..|]. intros T T' HT E. by eapply effect_change.
Qed.

Lemma op_bind {A B} (m : cM H A) (k : A -> cM H B) a a' Q1 Q :
  op_spec m a a Q1 -> (forall x, Q1 x -> op_spec (k x) a a' Q) -> op_spec (x ← m; k x) a a' Q.
Proof.
  intros Hm Hk s r s' Hs. unfold mbind, cM_bind. destruct (m s) as [r1 s1] eqn:E. destruct (Hm s r1 s1 Hs E) as [Hw Hr].
  assert (within (bothly a a') s s1) as Hw1 by (eapply within_impl; [|exact Hw]; unfold bothly; tauto).
  destruct r1 as [c|x]; [by intros [= <- <-]|]. destruct Hr as [Hs1 HQ]. intros E2. destruct (Hk x HQ s1 r s' Hs1 E2) as [Hw2 Hr2].
  split; [by eapply within_trans|done].
Qed.

Lemma op_ret {A} (x : A) a (Q : A -> Prop) : Q x -> op_spec (mret x) a a Q.
Proof. intros HQ s r s' Hs [= <- <-]. split; [apply within_refl|done]. Qed.

Lemma op_fail {A} c a a' (Q : A -> Prop) : op_spec (fail c) a a' Q.
Proof. intros s r s' Hs [= <- <-]. split; [apply within_refl|done]. Qed.

Lemma check_spec id a : tr_rec a <> 0 -> op_spec (sqlite_check_client id) a (tr_create id None a) (fun _ => is_Some (tr_reclaim a !! id)).
Proof.
  intros Hne. apply op_get. intros s0 _ Hr _. rewrite Hr. eapply op_bind; [apply exec_spec; [done..|]|].
  - intros T T' HT E. cbn [effect] in E. rewrite (repr_rec _ _ HT Hne) in E. by injection E as <-.
  - intros rows (T & HT & t & Et & ->). rewrite (repr_rec _ _ HT Hne) in Et. injection Et as <-. cbn [rc_rows column_int]. destruct (tr_reclaim a !! id) as [h|] eqn:Eh.
    + eapply op_impl; [|apply insert_spec]. intros _ _. by eexists.
    + apply op_fail.
Qed.

Definition msg_of (r : cstr * option cstr) : cstr * cstr := (take NFS4_OPAQUE_LIMIT (fst r), take SHA256_DIGEST_SIZE (default [] (snd r))).

Lemma iterate_spec a : tr_rec a <> 0 -> op_spec sqlite_iterate_recovery a a (fun msgs => msgs ≡ₚ msg_of <$> map_to_list (tr_reclaim a)).
Proof.
  intros Hne. apply op_get. intros s0 _ Hr _. rewrite Hr, (proj2 (Z.eqb_neq _ _) Hne). eapply op_bind; [apply exec_spec; [done..|]|].
  - intros T T' HT E. cbn [effect] in E. rewrite (repr_rec _ _ HT Hne) in E. by injection E as <-.
  - intros rows (T & HT & t & Et & Hp). rewrite (repr_rec _ _ HT Hne) in Et. injection Et as <-. apply op_ret. rewrite Hp. cbn [rc_rows].
    change (map row_of_client (map_to_list (tr_reclaim a))) with (row_of_client <$> map_to_list (tr_reclaim a)). rewrite <- list_fmap_compose.
    assert ((client_msg ∘ row_of_client) <$> map_to_list (tr_reclaim a) = msg_of <$> map_to_list (tr_reclaim a)) as ->; [|done].
    apply list_fmap_ext. intros i [id h] _. by destruct h.
Qed.

(** ** Upcalls *)

(** Whether an upcall opens a grace period. *)
Definition opens (env : cld_env) (q : upcall) (a : tracker) : bool :=
  match q with
  | Cld_Create _ _ _ | Cld_Remove _ => ce_old_kernel env && (tr_rec a =? 0) && bool_decide (ce_end_grace env = Some "N"%char)
  | Cld_Check _ | Cld_GraceDone => tr_rec a =? 0
  | Cld_GraceStart => true
  | Cld_GetVersion => false
  end.
Definition opened (env : cld_env) (q : upcall) (a : tracker) : tracker := if opens env q a then tr_start a else a.

(** The tracker after an upcall that was acknowledged. *)
Definition acked (env : cld_env) (q : upcall) (a : tracker) : tracker :=
  let a1 := opened env q a in
  match q with
  | Cld_Create vers id h => tr_create id (if 2 <=? vers then hash_of h else None) a1
  | Cld_Remove id => tr_remove id a1
  | Cld_Check id => tr_create id None a1
  | Cld_GraceDone => tr_done a1
  | Cld_GraceStart | Cld_GetVersion => a1
  end.
Definition stages (env : cld_env) (q : upcall) (a : tracker) : list tracker := [a; opened env q a; acked env q a].

(** What a reply says. *)
Definition reply_ok (env : cld_env) (q : upcall) (a : tracker) (msgs : list (cstr * cstr)) : Prop :=
  match q with
  | Cld_Check id => is_Some (tr_reclaim (opened env q a) !! id)
  | Cld_GraceStart => msgs ≡ₚ msg_of <$> map_to_list (tr_reclaim (opened env q a))
  | _ => msgs = []
  end.

Definition on_path (L : list tracker) (T : tables) : Prop := exists b, b ∈ L /\ repr T b.

Definition stage_spec {A} (m : cM H A) (a a1 a2 : tracker) (Q : A -> Prop) : Prop :=
  forall s r s', live s a -> m s = (r, s') ->
  within (on_path [a; a1; a2]) s s' /\ match r with inl _ => exists b, b ∈ [a; a1; a2] /\ live s' b | inr x => live s' a2 /\ Q x end.

Lemma two_stages {A B} (m : cM H A) (k : A -> cM H B) a a1 a2 Q1 Q :
  op_spec m a a1 Q1 -> (forall x, Q1 x -> op_spec (k x) a1 a2 Q) -> stage_spec (x ← m; k x) a a1 a2 Q.
Proof.
  intros Hm Hk s r s' Hs. unfold mbind, cM_bind. destruct (m s) as [r1 s1] eqn:E. destruct (Hm s r1 s1 Hs E) as [Hw Hr].
  assert (within (on_path [a; a1; a2]) s s1) as Hw1.
  { eapply within_impl; [|exact Hw]. intros T [HT|HT]; [exists a|exists a1]; (split; [set_solver|done]). }
  destruct r1 as [c|x]; [intros [= <- <-]; split; [done|]; exists a; split; [set_solver|done]|]. destruct Hr as [Hs1 HQ]. intros E2.
  destruct (Hk x HQ s1 r s' Hs1 E2) as [Hw2 Hr2]. split.
  - eapply within_trans; [exact Hw1|]. eapply within_impl; [|exact Hw2]. intros T [HT|HT]; [exists a1|exists a2]; (split; [set_solver|done]).
  - destruct r; [exists a1; split; [set_solver|done]|done].
Qed.

Lemma opening_spec (b : bool) a : tr_cur a + 1 < 2 ^ 63 -> op_spec (if b then sqlite_grace_start else mret tt) a (if b then tr_start a else a) (fun _ => True).
Proof. intros Hlt. destruct b; [by apply grace_start_spec|by apply op_ret]. Qed.

Lemma grace_period_spec env q a : tr_cur a + 1 < 2 ^ 63 ->
  opens env q a = ce_old_kernel env && (tr_rec a =? 0) && bool_decide (ce_end_grace env = Some "N"%char) ->
  op_spec (cld_check_grace_period (ce_old_kernel env) (ce_end_grace env)) a (opened env q a) (fun _ => True).
Proof.
  intros Hlt Ho. unfold opened. rewrite Ho. apply op_get. intros s0 _ Hr _. rewrite Hr. destruct (ce_old_kernel env); [|by apply op_ret].
  destruct (tr_rec a =? 0); [|by apply op_ret]. cbn [negb orb andb]. destruct (ce_end_grace env) as [c|]; [|apply op_fail]. destruct (ceqb c "N") eqn:E.
  - apply ceqb_true in E as ->. rewrite bool_decide_true by done. by apply grace_start_spec.
  - apply ceqb_false in E. rewrite bool_decide_false by congruence. by apply op_ret.
Qed.

Lemma start_in_grace a : repr_range a -> tr_rec (tr_start a) <> 0.
Proof. intros [Hc Hr]. unfold tr_start. destruct (tr_rec a =? 0) eqn:E; cbn; [lia|]. by apply Z.eqb_neq in E. Qed.

Lemma opened_in_grace env q a : repr_range a -> opens env q a = (tr_rec a =? 0) -> tr_rec (opened env q a) <> 0.
Proof. intros Ha Ho. unfold opened. rewrite Ho. destruct (tr_rec a =? 0) eqn:E; [by apply start_in_grace|by apply Z.eqb_neq in E]. Qed.

(** After the upgrade nothing more than the transaction happens. *)
Lemma done_tail (rest : cld H -> cM H unit) a a' : op_spec sqlite_grace_done a a' (fun _ => True) ->
  op_spec (r ← catch sqlite_grace_done; s ← get; _ ← (if negb (first_time s =? 0) then rest s else mret tt); match r with inl c => fail c | inr _ => mret tt end)
    a a' (fun _ => True).
Proof.
  intros Hd s r s' Hs. unfold mbind, cM_bind, catch, get. destruct (sqlite_grace_done s) as [r1 s1] eqn:E. destruct (Hd s r1 s1 Hs E) as [Hw Hr].
  assert (first_time s1 = 0) as Hf by (destruct r1; [apply (lv_first _ _ Hr)|apply (lv_first _ _ (proj1 Hr))]). rewrite Hf. cbn [Z.eqb negb].
  destruct r1 as [c|x]; intros [= <- <-]; auto.
Qed.

Lemma bind_get {A} (k : cld H -> cM H A) s : (s0 ← get; k s0) s = k s s.
Proof. done. Qed.

Lemma create_spec vers id h a : op_spec (if 2 <=? vers then sqlite_insert_client_and_princhash id h else sqlite_insert_client id) a
  (tr_create id (if 2 <=? vers then hash_of h else None) a) (fun _ => True).
Proof. destruct (2 <=? vers); [apply insert_hash_spec|apply insert_spec]. Qed.

(** Every upcall goes through its stages, and no others, whatever fails. *)
Lemma upcall_stages env q s a st msgs s' :
  live s a -> tr_cur a + 1 < 2 ^ 63 -> serve_upcall env q s = (st, msgs, s') ->
  within (on_path (stages env q a)) s s' /\
  if st =? 0 then live s' (acked env q a) /\ reply_ok env q a msgs else exists b, b ∈ stages env q a /\ live s' b.
Proof.
  intros Hs Hlt. pose proof (rp_range _ _ (lv_repr _ _ Hs)) as Ha.
  assert (forall (m : cM H unit) code (Q : unit -> Prop), 0 < code -> stage_spec m a (opened env q a) (acked env q a) Q ->
    (forall x, Q x -> reply_ok env q a []) ->
    (let '(r, s1) := m s in (match r with inl _ => - code | inr _ => 0 end, [], s1)) = (st, msgs, s') ->
    within (on_path (stages env q a)) s s' /\ if st =? 0 then live s' (acked env q a) /\ reply_ok env q a msgs else exists b, b ∈ stages env q a /\ live s' b) as Hfin.
  { intros m code Q Hcode Hm HQ. destruct (m s) as [r s1] eqn:E. destruct (Hm s r s1 Hs E) as [Hw Hr]. intros [= <- <- <-]. split; [done|].
    destruct r as [c|x]; [by rewrite (proj2 (Z.eqb_neq _ _)) by lia|]. destruct Hr as [Hl Hq]. split; [done|]. by eapply HQ. }
  destruct q as [vers id h|id|id| | |]; cbn [serve_upcall].
  - apply (Hfin (cld_create env vers id h) _ (fun _ => True)); [done| |done]. eapply two_stages; [by apply grace_period_spec|]. intros _ _. apply create_spec.
  - apply (Hfin (cld_remove env id) _ (fun _ => True)); [done| |done]. eapply two_stages; [by apply grace_period_spec|]. intros _ _. apply remove_spec.
  - apply (Hfin (cld_check id) _ (fun _ => is_Some (tr_reclaim (opened env (Cld_Check id) a) !! id))); [done| |done].
    intros s1 r s2 Hs1. pose proof (lv_rec _ _ Hs1) as Hr. unfold cld_check. rewrite bind_get, Hr.
    apply (two_stages _ _ a (opened env (Cld_Check id) a) (acked env (Cld_Check id) a) (fun _ => True)); [by apply opening_spec| |done].
    intros _ _. apply check_spec. by apply opened_in_grace.
  - apply (Hfin (cld_gracedone env) _ (fun _ => True)); [done| |done]. intros s1 r s2 Hs1. pose proof (lv_rec _ _ Hs1) as Hr. unfold cld_gracedone. rewrite bind_get, Hr.
    apply (two_stages _ _ a (opened env Cld_GraceDone a) (acked env Cld_GraceDone a) (fun _ => True)); [by apply opening_spec| |done].
    intros _ _. apply (done_tail (fun s0 => _ ← (if 0 <? num_cltrack_records s0 then catch (sqlite_delete_cltrack_records (ce_cltrack env)) else mret (inr tt));
         _ ← (if 0 <? num_legacy_records s0 then legacy_clear_recdir (ce_rmdir env) else mret tt); _ ← catch sqlite_first_time_done; set_first_time 0)).
    apply grace_done_spec. by apply opened_in_grace.
  - pose proof (two_stages sqlite_grace_start (fun _ => sqlite_iterate_recovery) a (tr_start a) (tr_start a) (fun _ => True)
      (fun msgs => msgs ≡ₚ msg_of <$> map_to_list (tr_reclaim (tr_start a)))) as Hm.
    specialize (Hm ltac:(by apply grace_start_spec) ltac:(intros x _; apply iterate_spec; by apply start_in_grace)).
    destruct (cld_gracestart s) as [r s1] eqn:E. destruct (Hm s r s1 Hs E) as [Hw Hr]. destruct r as [c|ms]; intros [= <- <- <-]; (split; [exact Hw|]); [exact Hr|].
    destruct Hr as [Hl HQ]. split; [exact Hl|exact HQ].
  - intros [= <- <- <-]. split; [apply within_refl|]. by split.
Qed.

(** ** Starting again *)

(** Nothing is under way that is not on the disk. *)
Definition calm (D : tables) (s : cld H) : Prop := view (dbh s) = D /\ disk (dbh s) = D.

Definition harmless (st : stmt) (D : tables) : Prop := ordinary st -> forall T, effect st D = Some T -> T = D.

Definition calmly {A} (D : tables) (m : cM H A) (Q : cld H -> A -> cld H -> Prop) : Prop :=
  forall s r s', calm D s -> m s = (r, s') -> calm D s' /\ within (fun T => T = D) s s' /\ match r with inr x => Q s x s' | inl _ => True end.

Lemma stmt_kind st : {ordinary st} + {st = Begin \/ st = Commit \/ st = Rollback}.
Proof. unfold ordinary. destruct st; first [left; done | right; auto; done]. Qed.

Lemma exec_calm st D : harmless st D ->
  calmly D (exec st) (fun s rows s' => same_vars s s' /\ (ordinary st -> effect st D = Some D /\ answers st D rows) /\ (st = Commit -> in_tx (dbh s') = false)).
Proof.
  intros Hh s r s' [Hv Hd] E. pose proof (exec_vars st s) as [Hvars _]. pose proof (exec_disk st s (fun T => T = D)) as Hw. rewrite E in Hvars, Hw. cbn [snd] in Hvars, Hw.
  enough (calm D s' /\ match r with inr rows => (ordinary st -> effect st D = Some D /\ answers st D rows) /\ (st = Commit -> in_tx (dbh s') = false) | inl _ => True end) as [Hc Hr].
  { split; [done|]. split; [apply Hw, Hc|]. destruct r; [done|]. by destruct Hr. }
  unfold exec in E. destruct (sql st (dbh s)) as [[c|rows] h] eqn:Es; injection E as <- <-; unfold calm; cbn [set_dbh dbh].
  - apply sql_fail in Es as (_ & Hd' & [[_ Hv']|Hi]); (split; [|done]); (split; [|congruence]); [congruence|]. rewrite (idle_view _ Hi). congruence.
  - destruct (stmt_kind st) as [Ho|[->|[->| ->]]].
    + destruct Ho as (O1 & O2 & O3). apply sql_ok in Es as (He & Ha & Hi & Hd'); try done. rewrite Hv in He, Ha. pose proof (Hh (conj O1 (conj O2 O3)) _ He) as Ev.
      split; [split; [done|]; destruct (in_tx (dbh s)); congruence|]. split; [|done]. intros _. by rewrite <- Ev at 2.
    + apply sql_begin in Es as (_ & _ & Hv' & Hd'). split; [split; congruence|]. split; [by intros (? & _)|done].
    + apply sql_commit in Es as (_ & Hi & Hd'). split; [split; [rewrite (idle_view _ Hi)|]; congruence|]. split; [by intros (_ & ? & _)|done].
    + pose proof (sql_rollback (dbh s)) as Hr. rewrite Es in Hr. cbn in Hr. destruct Hr as [Hi Hd']. split; [split; [rewrite (idle_view _ Hi)|]; congruence|]. split; [by intros (_ & _ & ?)|done].
Qed.

Lemma calm_bind {A B} D (m : cM H A) (k : A -> cM H B) (Q1 : cld H -> A -> cld H -> Prop) (Q : cld H -> B -> cld H -> Prop) :
  calmly D m Q1 -> (forall x, calmly D (k x) (fun s1 y s' => forall s, Q1 s x s1 -> Q s y s')) -> calmly D (x ← m; k x) Q.
Proof.
  intros Hm Hk s r s' Hs. unfold mbind, cM_bind. destruct (m s) as [r1 s1] eqn:E. destruct (Hm s r1 s1 Hs E) as (Hc & Hw & Hr).
  destruct r1 as [c|x]; [by intros [= <- <-]|]. intros E2. destruct (Hk x s1 r s' Hc E2) as (Hc2 & Hw2 & Hr2). split_and!; [done|by eapply within_trans|].
  destruct r; [done|]. by apply Hr2.
Qed.

(** The same with a fact about the result. *)
Lemma calm_bind_fact {A B} D (m : cM H A) (k : A -> cM H B) (P : A -> Prop) (Q1 : cld H -> A -> cld H -> Prop) (Q : cld H -> B -> cld H -> Prop) :
  calmly D m Q1 -> (forall s x s1, Q1 s x s1 -> P x) -> (forall x, P x -> calmly D (k x) (fun s1 y s' => forall s, Q1 s x s1 -> Q s y s')) -> calmly D (x ← m; k x) Q.
Proof.
  intros Hm HP Hk s r s' Hs. unfold mbind, cM_bind. destruct (m s) as [r1 s1] eqn:E. destruct (Hm s r1 s1 Hs E) as (Hc & Hw & Hr).
  destruct r1 as [c|x]; [by intros [= <- <-]|]. intros E2. destruct (Hk x (HP _ _ _ Hr) s1 r s' Hc E2) as (Hc2 & Hw2 & Hr2). split_and!; [done|by eapply within_trans|].
  destruct r; [done|]. by apply Hr2.
Qed.

Lemma calm_impl {A} D (m : cM H A) (Q Q' : cld H -> A -> cld H -> Prop) : (forall s x s', Q s x s' -> Q' s x s') -> calmly D m Q -> calmly D m Q'.
Proof. intros HQ Hm s r s' Hs E. destruct (Hm s r s' Hs E) as (Hc & Hw & Hr). split_and!; [done|done|]. destruct r; [done|]. by apply HQ. Qed.

Lemma calm_catch {A} D (m : cM H A) (Q : cld H -> A -> cld H -> Prop) : calmly D m Q -> calmly D (catch m) (fun s r s' => match r with inr x => Q s x s' | inl _ => True end).
Proof. intros Hm s r s' Hs. unfold catch. destruct (m s) as [r1 s1] eqn:E. intros [= <- <-]. exact (Hm s r1 s1 Hs E). Qed.

Lemma calm_ret {A} D (x : A) : calmly D (mret x) (fun s y s' => s' = s /\ y = x).
Proof. intros s r s' Hs [= <- <-]. split_and!; try done. apply within_refl. Qed.

Lemma calm_fail {A} D c Q : calmly D (fail c : cM H A) Q.
Proof. intros s r s' Hs [= <- <-]. split_and!; try done. apply within_refl. Qed.

(** Without a change there is nothing to commit. *)
Lemma transaction_calm u body D (Q : cld H -> bool -> cld H -> Prop) :
  calmly D body Q -> calmly D (transaction u body) (fun s _ s' => exists s1 s2 b, same_vars s s1 /\ Q s1 b s2 /\ same_vars s2 s' /\ in_tx (dbh s') = false).
Proof.
  intros Hb s r s' Hs. assert (forall st, st = Begin \/ st = Commit \/ st = Rollback -> harmless st D) as Hh by (intros st [->|[->| ->]] (O1 & O2 & O3); done).
  pose proof (exec_calm Begin D (Hh _ (or_introl eq_refl))) as HB. pose proof (exec_calm Commit D (Hh _ (or_intror (or_introl eq_refl)))) as HC.
  assert (forall s1, calm D s1 -> calm D (exec Rollback s1).2 /\ within (fun T => T = D) s1 (exec Rollback s1).2) as HR.
  { intros s1 Hs1. destruct (exec Rollback s1) as [r1 s2] eqn:E. destruct (exec_calm Rollback D (Hh _ (or_intror (or_intror eq_refl))) s1 r1 s2 Hs1 E) as (? & ? & _). done. }
  unfold transaction. destruct (exec Begin s) as [r1 s1] eqn:E1. destruct (HB s r1 s1 Hs E1) as (Hc1 & Hw1 & Hr1).
  destruct r1 as [c|rows]; [intros [= <- <-]; destruct u; [|done]; destruct (HR s1 Hc1); split_and!; [done|by eapply within_trans|done]|].
  destruct (body s1) as [r2 s2] eqn:E2. destruct (Hb s1 r2 s2 Hc1 E2) as (Hc2 & Hw2 & Hr2). destruct (HR s2 Hc2) as [Hc3 Hw3]. destruct Hr1 as (Hv1 & _ & _).
  pose proof (within_trans _ _ _ _ Hw1 Hw2) as Hw12.
  destruct r2 as [c|[|]]; [intros [= <- <-]; split_and!; [done|by eapply within_trans|done]| |].
  - destruct (exec Commit s2) as [r3 s3] eqn:E3. destruct (HC s2 r3 s3 Hc2 E3) as (Hc4 & Hw4 & Hr4).
    pose proof (within_trans _ _ _ _ Hw12 Hw4) as Hw124. destruct r3 as [c|rows3]; intros [= <- <-].
    + destruct (HR s3 Hc4). split_and!; [done|by eapply within_trans|done].
    + destruct Hr4 as (Hv4 & _ & Hi4). split_and!; [done|done|]. exists s1, s2, true. auto.
  - intros [= <- <-]. split_and!; [done|by eapply within_trans|]. exists s1, s2, false. destruct (rollback_spec s2) as (Hv & Hi & _). auto.
Qed.

Lemma select_harmless st D : (st = SelectGrace \/ (exists k, st = SelectParam k) \/ exists u, st = RecNames u) -> harmless st D.
Proof. intros [->|[[k ->]|[u ->]]] _ T; cbn [effect]; [by destruct (t_grace D); [intros [= <-]|]|by destruct (t_params D); [intros [= <-]|]|by intros [= <-]]. Qed.

Lemma version_calm D a : repr D a -> calmly D sqlite_query_schema_version (fun _ v _ => v = 4 \/ v = 0).
Proof.
  intros HT. destruct (rp_params _ _ HT) as (p & Hp & Hv & _). unfold sqlite_query_schema_version.
  eapply calm_bind; [apply calm_catch, exec_calm, select_harmless; eauto|]. intros r. eapply calm_impl; [|apply calm_ret]. intros s1 v s2 (_ & ->) s Hr. cbv beta in Hr.
  destruct r as [c|rows]; [by right|]. destruct Hr as (_ & Ha & _). destruct (Ha ltac:(done)) as [_ (p' & Hp' & ->)]. rewrite Hp in Hp'. injection Hp' as <-. rewrite Hv. by left.
Qed.

Lemma init_calm D a : repr D a -> calmly D sqlite_maindb_init_v4 (fun _ _ _ => True).
Proof.
  intros HT. destruct (rp_params _ _ HT) as (p & Hp & _). eapply calm_impl; [|eapply (transaction_calm _ _ _ (fun _ _ _ => True))]; [done|].
  eapply calm_bind; [by eapply version_calm|]. intros v. destruct (v =? CLD_SQLITE_LATEST_SCHEMA_VERSION); [eapply calm_impl; [|apply calm_ret]; done|].
  destruct (negb (v =? 0)); [apply calm_fail|]. intros s r s' Hs. unfold mbind at 1, cM_bind at 1.
  assert (forall T, effect CreateParameters D <> Some T) as Hn by (intros T; cbn [effect]; by rewrite Hp).
  destruct (exec CreateParameters s) as [r1 s1] eqn:E. destruct (exec_calm CreateParameters D ltac:(intros _ T ET; by apply Hn in ET) s r1 s1 Hs E) as (Hc & Hw & Hr).
  destruct r1 as [c|rows]; [by intros [= <- <-]|]. destruct Hr as (_ & Ha & _). destruct (Ha ltac:(done)) as [Ea _]. by apply Hn in Ea.
Qed.

Lemma grace_calm D a : repr D a -> calmly D sqlite_startup_query_grace (fun _ _ s' => current_epoch s' = tr_cur a /\ recovery_epoch s' = tr_rec a).
Proof.
  intros HT. pose proof (rp_range _ _ HT) as [Hc Hr]. unfold sqlite_startup_query_grace. eapply calm_bind; [apply exec_calm, select_harmless; auto|]. intros rows.
  intros s r s' Hs E. assert (forall s0, same_vars s0 s /\ (ordinary SelectGrace -> effect SelectGrace D = Some D /\ answers SelectGrace D rows) /\ (SelectGrace = Commit -> in_tx (dbh s) = false) ->
    rows = [[SInt (tr_cur a); SInt (tr_rec a)]]) as Hrows.
  { intros s0 (_ & Ha & _). destruct (Ha ltac:(done)) as [_ (g & Hg & ->)]. rewrite (rp_grace _ _ HT) in Hg. by injection Hg as <-. }
  destruct rows as [|[|c [|r0 [|]]] rows]; try (injection E as <- <-; split_and!; [done|apply within_refl|done]).
  injection E as <- <-. split_and!; [done|by exists []|]. intros s0 H00. specialize (Hrows s0 H00). injection Hrows as -> -> ->. cbn. rewrite !u64_same by lia. done.
Qed.

Lemma first_time_calm D a : repr D a ->
  calmly D sqlite_query_first_time (fun s _ s' => current_epoch s' = current_epoch s /\ recovery_epoch s' = recovery_epoch s /\ first_time s' = 0).
Proof.
  intros HT. destruct (rp_params _ _ HT) as (p & Hp & _ & Hf). unfold sqlite_query_first_time. eapply calm_bind; [apply exec_calm, select_harmless; eauto|].
  intros rows s r s' Hs E. destruct rows as [|[|v [|]] rows]; try (injection E as <- <-; split_and!; [done|apply within_refl|done]).
  injection E as <- <-. split_and!; [done|by exists []|]. intros s0 ((V1 & V2 & _) & Ha & _). destruct (Ha ltac:(done)) as [_ (p' & Hp' & Er)].
  rewrite Hp in Hp'. injection Hp' as <-. rewrite Hf in Er. injection Er as -> ->. cbn. done.
Qed.

Lemma health_calm D a : repr D a -> calmly D sqlite_check_db_health (fun s _ s' => same_vars s s' /\ in_tx (dbh s') = false).
Proof.
  intros HT. pose proof (rp_range _ _ HT) as [Hc Hr]. eapply calm_impl; [|eapply (transaction_calm _ _ _ (fun s _ s' => same_vars s s'))].
  { intros s _ s' (s1 & s2 & b & V1 & V2 & V3 & Hi). split; [|done]. by eapply same_vars_trans; [|eapply same_vars_trans]. }
  unfold sqlite_check_table_names. eapply (calm_bind _ _ _ (fun s _ s' => same_vars s s')); [|intros x; eapply calm_impl; [|apply calm_ret]; by intros s1 y s2 (-> & _) s3].
  apply (calm_bind_fact _ _ _ (fun rows => rows = []) _ _ (exec_calm _ _ (select_harmless _ _ ltac:(eauto)))).
  - intros s rows s1 (_ & Ha & _). destruct (Ha ltac:(done)) as [_ Hp]. cbn [answers negb orb] in Hp. apply Permutation_nil_r. rewrite Hp.
    assert (List.filter (fun n => (length n <? 20)%nat) (map fst (map_to_list (t_recs D))) = []) as ->; [|done].
    destruct (List.filter _ _) as [|n l] eqn:El; [done|]. exfalso. assert (In n (n :: l)) as Hn by by left. rewrite <- El in Hn. apply filter_In in Hn as [Hn Hlt%Nat.ltb_lt].
    apply in_map_iff in Hn as ([n' t] & <- & Ht%list_elem_of_In%elem_of_map_to_list). cbn [fst] in Hlt. rewrite (rp_recs _ _ HT) in Ht. unfold recs_of in Ht.
    apply lookup_insert_Some in Ht as [[<- _]|[_ Ht]]; [rewrite rec_name_length in Hlt; lia|]. destruct (tr_rec a =? 0); [by rewrite lookup_empty in Ht|].
    apply lookup_singleton_Some in Ht as [<- _]. rewrite rec_name_length in Hlt; lia.
  - intros rows ->. eapply calm_impl; [|apply calm_ret]. intros s1 y s2 (-> & _) s0 (? & _). done.
Qed.

(** The daemon as it starts on a database. *)
Definition fresh_cld (h : H) (rd : option (list cstr)) : cld H := Cld h 0 0 0 0 0 rd [].

Lemma bind_inr {A B} (m : cM H A) (k : A -> cM H B) s y s' : (x ← m; k x) s = (inr y, s') -> exists x s1, m s = (inr x, s1) /\ k x s1 = (inr y, s').
Proof. unfold mbind, cM_bind. destruct (m s) as [[c|x] s1]; [done|]. eauto. Qed.

Lemma restart_spec h rd b a s' :
  in_tx h = false -> repr (disk h) a -> sqlite_prepare_dbh b (fresh_cld h rd) = (inr tt, s') -> live s' a /\ within (fun T => T = disk h) (fresh_cld h rd) s'.
Proof.
  intros Hi HT E. assert (calm (disk h) (fresh_cld h rd)) as Hs by (split; [by apply idle_view|done]). unfold sqlite_prepare_dbh in E.
  apply bind_inr in E as (v & s1 & E1 & E). destruct (version_calm _ _ HT _ _ _ Hs E1) as (C1 & W1 & Hv).
  apply bind_inr in E as ([] & s2 & E2 & E). assert (calm (disk h) s2 /\ within (fun T => T = disk h) s1 s2) as [C2 W2].
  { destruct Hv as [->| ->]; [by injection E2 as <-; split; [done|apply within_refl]|]. destruct (init_calm _ _ HT _ _ _ C1 E2) as (? & ? & _). done. }
  apply bind_inr in E as ([] & s3 & E3 & E). destruct (grace_calm _ _ HT _ _ _ C2 E3) as (C3 & W3 & G1 & G2).
  apply bind_inr in E as ([] & s4 & E4 & E). destruct (first_time_calm _ _ HT _ _ _ C3 E4) as (C4 & W4 & F1 & F2 & F3).
  apply bind_inr in E as ([] & s5 & E5 & E). destruct (health_calm _ _ HT _ _ _ C4 E5) as (C5 & W5 & (V1 & V2 & V3) & Hi5).
  rewrite bind_get in E. rewrite V3, F3 in E. injection E as <-. split; [|by do 4 (eapply within_trans; [eassumption|])].
  destruct C5 as [_ Hd]. split; [done|by rewrite Hd|congruence..].
Qed.

(** ** Runs with stops *)

Inductive cld_event := Served (env : cld_env) (q : upcall) (status : Z) (msgs : list (cstr * cstr)) | Stopped (env : cld_env) (q : upcall).

(** What a new connection finds after a stop. *)
Definition reopened (h h0 : H) : Prop := in_tx h0 = false /\ disk h0 = set_attached (disk h) false.

(** A stop comes after any of the statements of an upcall, or before the first; then the daemon starts again. *)
Inductive cld_run : cld H -> list cld_event -> cld H -> Prop :=
  | run_idle s : cld_run s [] s
  | run_served s env q st msgs s1 evs s' : serve_upcall env q s = (st, msgs, s1) -> cld_run s1 evs s' -> cld_run s (Served env q st msgs :: evs) s'
  | run_stopped s env q st msgs s1 hs h h0 rd b s2 evs s' :
      serve_upcall env q s = (st, msgs, s1) -> passed s1 = hs ++ passed s -> h ∈ hs ++ [dbh s] -> reopened h h0 ->
      sqlite_prepare_dbh b (fresh_cld h0 rd) = (inr tt, s2) -> cld_run s2 evs s' -> cld_run s (Stopped env q :: evs) s'.

(** The tracker: an acknowledged upcall has been done, another one partly. *)
Inductive tracker_run : tracker -> list cld_event -> tracker -> Prop :=
  | tr_idle a : tracker_run a [] a
  | tr_acked a env q msgs evs a' : reply_ok env q a msgs -> tracker_run (acked env q a) evs a' -> tracker_run a (Served env q 0 msgs :: evs) a'
  | tr_failed a env q st msgs b evs a' : st <> 0 -> b ∈ stages env q a -> tracker_run b evs a' -> tracker_run a (Served env q st msgs :: evs) a'
  | tr_stopped a env q b evs a' : b ∈ stages env q a -> tracker_run b evs a' -> tracker_run a (Stopped env q :: evs) a'.

Lemma repr_attached T a b : repr T a -> repr (set_attached T b) a.
Proof. by intros [R1 R2 R3 R4 R5]. Qed.

Lemma stage_cur env q a b : b ∈ stages env q a -> tr_cur b <= tr_cur a + 1.
Proof.
  assert (tr_cur (opened env q a) <= tr_cur a + 1) as Ho by (unfold opened, tr_start; destruct (opens env q a), (tr_rec a =? 0); cbn; lia).
  unfold stages. rewrite !elem_of_cons, elem_of_nil. intros [->|[->|[->|[]]]]; [lia|done|]. unfold acked. destruct q; exact Ho.
Qed.

Lemma run_tracker s a evs s' :
  live s a -> tr_cur a + Z.of_nat (length evs) < 2 ^ 63 - 1 -> cld_run s evs s' -> exists a', tracker_run a evs a' /\ live s' a'.
Proof.
  intros Hs Hlt Hr. revert a Hs Hlt. induction Hr as [s|s env q st msgs s1 evs s' E _ IH|s env q st msgs s1 hs h h0 rd b s2 evs s' E Ep Hh [Hi Hd] E2 _ IH]; intros a Hs Hlt.
  - exists a. split; [constructor|done].
  - cbn [length] in Hlt. destruct (upcall_stages env q s a st msgs s1 Hs ltac:(lia) E) as [_ Hres]. destruct (st =? 0) eqn:Est.
    + apply Z.eqb_eq in Est as ->. destruct Hres as [Hl Hok]. destruct (IH _ Hl) as (a' & Ht & Hl'); [pose proof (stage_cur env q a (acked env q a) ltac:(set_solver)); lia|].
      exists a'. split; [by apply tr_acked|done].
    + apply Z.eqb_neq in Est. destruct Hres as (b & Hb & Hl). destruct (IH _ Hl) as (a' & Ht & Hl'); [pose proof (stage_cur env q a b Hb); lia|].
      exists a'. split; [by eapply tr_failed|done].
  - cbn [length] in Hlt. destruct (upcall_stages env q s a st msgs s1 Hs ltac:(lia) E) as [(hs' & Ep' & F) _]. rewrite Ep in Ep'. apply app_inv_tail in Ep' as <-.
    assert (on_path (stages env q a) (disk h)) as (x & Hx & HT).
    { apply elem_of_app in Hh as [Hh| ->%list_elem_of_singleton]; [by apply (proj1 (Forall_forall _ _) F)|]. exists a. split; [set_solver|apply (lv_repr _ _ Hs)]. }
    destruct (restart_spec h0 rd b x s2 Hi) as [Hl _]; [rewrite Hd; by apply repr_attached|done|].
    destruct (IH _ Hl) as (a' & Ht & Hl'); [pose proof (stage_cur env q a x Hx); lia|]. exists a'. split; [by eapply tr_stopped|done].
Qed.
(** C7. Whatever statements fail and wherever the machine stops, the database is that of the tracker: every upcall that was acknowledged
    has been done, every other one not at all or a first part of it; a client is told it may reclaim only when it is recorded in the
    recovery epoch; and at the start of a grace period exactly the clients recorded there are sent to the kernel. *)
Theorem cld_refines s a evs s' :
  live s a -> tr_cur a + Z.of_nat (length evs) < 2 ^ 63 - 1 -> cld_run s evs s' -> exists a', tracker_run a evs a' /\ live s' a'.
Proof. apply run_tracker. Qed.

(** A client that the server owes a chance to reclaim: recorded in the current
    epoch, or, during a grace period, in the recovery epoch. *)
Definition entitled (id : cstr) (a : tracker) : Prop :=
  is_Some ((if tr_rec a =? 0 then tr_clients a else tr_reclaim a) !! id).

(** What the upcalls tell about a client: nothing; that a grace period is on; that
    the client is back in that grace period. *)
Inductive phase := Unknown | Grace | Back.

(** An upcall that may come without the client losing its claim: the client is not
    removed, and a grace period ends only when it is back.  [ok]: the upcall was
    acknowledged. *)
Definition follow (id : cstr) (ph : phase) (q : upcall) (ok : bool) : option phase :=
  let in_grace := match ph with Unknown => Grace | _ => ph end in
  match q with
  | Cld_Create _ id' _ => Some (if ok && bool_decide (id' = id) then match ph with Unknown => Unknown | _ => Back end else ph)
  | Cld_Remove id' => if bool_decide (id' = id) then None else Some ph
  | Cld_Check id' => Some (if ok then if bool_decide (id' = id) then Back else in_grace else ph)
  | Cld_GraceDone => match ph with Back => Some Unknown | _ => None end
  | Cld_GraceStart => Some (match ph with Unknown => if ok then Grace else Unknown | _ => Grace end)
  | Cld_GetVersion => Some ph
  end.

Fixpoint attends (id : cstr) (ph : phase) (evs : list cld_event) : bool :=
  match evs with
  | [] => true
  | ev :: evs =>
      let '(q, ok) := match ev with Served _ q st _ => (q, st =? 0) | Stopped _ q => (q, false) end in
      match follow id ph q ok with Some ph => attends id ph evs | None => false end
  end.

Definition in_phase (id : cstr) (ph : phase) (a : tracker) : Prop :=
  entitled id a /\ match ph with
                   | Unknown => True
                   | Grace => tr_rec a <> 0
                   | Back => tr_rec a <> 0 /\ is_Some (tr_clients a !! id)
                   end.

(** Opening a grace period keeps the claim. *)
Lemma start_entitled id a : repr_range a -> entitled id a -> tr_rec (tr_start a) <> 0 /\ entitled id (tr_start a).
Proof.
  intros Hr He. pose proof (start_in_grace a Hr) as Hs. split; [done|]. unfold entitled in *. rewrite (proj2 (Z.eqb_neq _ _) Hs).
  unfold tr_start. by destruct (tr_rec a =? 0) eqn:E.
Qed.

Lemma opened_phase env q id ph a : repr_range a -> in_phase id ph a -> q <> Cld_GraceStart -> q <> Cld_GraceDone -> in_phase id ph (opened env q a).
Proof.
  intros Hr [He Hp] Hns Hnd. unfold opened. destruct (opens env q a) eqn:Eo; [|done]. destruct (start_entitled id a Hr He) as [Hs He']. split; [done|].
  assert (tr_rec a = 0) as E0. { destruct q; cbn in Eo; try done; try (by apply Z.eqb_eq). all: apply andb_true_iff in Eo as [[_ ?%Z.eqb_eq]%andb_true_iff _]; done. }
  destruct ph; tauto.
Qed.

Lemma create_phase id id' h ph a : in_phase id ph a -> in_phase id ph (tr_create id' h a).
Proof.
  intros [He Hp]. unfold in_phase, entitled, tr_create in *. cbn [tr_rec tr_clients tr_reclaim] in *. split.
  - destruct (tr_rec a =? 0); [rewrite lookup_insert_is_Some'; by right|done].
  - destruct ph; [done|done|]. split; [apply Hp|]. rewrite lookup_insert_is_Some'. right. apply Hp.
Qed.

Lemma create_back id h ph a : in_phase id ph a -> tr_rec a <> 0 -> in_phase id Back (tr_create id h a).
Proof.
  intros Hp Hr. destruct (create_phase id id h ph a Hp) as [He _]. split; [done|]. split; [done|]. cbn. rewrite lookup_insert_eq. by eexists.
Qed.

(** The phases are right for an upcall that was acknowledged. *)
Lemma acked_phase env q id ph ph' a :
  repr_range a -> in_phase id ph a -> follow id ph q true = Some ph' -> in_phase id ph' (acked env q a).
Proof.
  intros Hr Hp. unfold acked. destruct q as [vers id' h|id'|id'| | |]; cbn [follow andb].
  - pose proof (opened_phase env (Cld_Create vers id' h) id ph a Hr Hp ltac:(done) ltac:(done)) as Ho. intros [= <-].
    case_bool_decide as Hi; [|by apply create_phase]. subst id'. destruct ph; [by apply create_phase| |]; (eapply create_back; [exact Ho|]; destruct Ho as [_ Ho]; tauto).
  - pose proof (opened_phase env (Cld_Remove id') id ph a Hr Hp ltac:(done) ltac:(done)) as [He Ho]. case_bool_decide as Hi; [done|]. intros [= <-].
    unfold in_phase, entitled, tr_remove in *. cbn [tr_rec tr_clients tr_reclaim]. rewrite lookup_delete_ne by done. split; [|done]. destruct (tr_rec (opened env (Cld_Remove id') a) =? 0); [|done]. by rewrite lookup_delete_ne.
  - pose proof (opened_phase env (Cld_Check id') id ph a Hr Hp ltac:(done) ltac:(done)) as Ho. intros [= <-].
    assert (tr_rec (opened env (Cld_Check id') a) <> 0) as Hg.
    { unfold opened. cbn [opens]. destruct (tr_rec a =? 0) eqn:E; [by apply start_in_grace|by apply Z.eqb_neq]. }
    case_bool_decide as Hi; [subst id'; by eapply create_back|]. apply create_phase. destruct ph; [|done..]. split; [apply Ho|done].
  - destruct ph; [done..|]. intros [= <-]. destruct Hp as (He & Hg & Hc). unfold opened. cbn [opens]. rewrite (proj2 (Z.eqb_neq _ _) Hg).
    unfold in_phase, entitled, tr_done. by cbn.
  - intros [= <-]. unfold opened. cbn [opens]. destruct (start_entitled id a Hr (proj1 Hp)) as [Hs He]. destruct ph; by split.
  - intros [= <-]. unfold opened. by cbn [opens].
Qed.

(** For one that failed, or was stopped, a phase that claims less is right. *)
Lemma stage_phase env q id ph ph' a b :
  repr_range a -> in_phase id ph a -> follow id ph q false = Some ph' -> b ∈ stages env q a -> in_phase id ph' b.
Proof.
  intros Hr Hp Hf. unfold stages. rewrite !elem_of_cons, elem_of_nil.
  destruct (follow id ph q true) as [ph2|] eqn:E2; [|exfalso; destruct q, ph; cbn [follow andb] in Hf, E2; repeat case_match; by simplify_eq].
  pose proof (acked_phase env q id ph ph2 a Hr Hp E2) as Ha.
  assert (ph' = ph /\ q <> Cld_GraceStart /\ q <> Cld_GraceDone \/ q = Cld_GraceStart \/ (q = Cld_GraceDone /\ ph = Back /\ ph' = Unknown)) as [(-> & Hns & Hnd)|[->|(-> & -> & ->)]].
  { destruct q; cbn [follow andb] in Hf; try (by left; repeat case_match; simplify_eq); [right; right; destruct ph; by simplify_eq|by right; left]. }
  - intros [->|[->|[->|[]]]]; [done|by apply opened_phase|]. split; [apply Ha|]. destruct ph; [done| |]; destruct Ha as [_ Ha];
      destruct q; cbn [follow andb] in E2; repeat case_match; simplify_eq; tauto.
  - cbn [follow] in Hf, E2. intros [->|[->|[->|[]]]]; [|unfold opened in *; cbn [opens] in *|].
    + destruct Hp as [He Hp]. split; [done|]. destruct ph; simplify_eq; tauto.
    + destruct (start_entitled id a Hr (proj1 Hp)) as [Hs He]. split; [done|]. destruct ph; by simplify_eq.
    + destruct (start_entitled id a Hr (proj1 Hp)) as [Hs He]. split; [done|]. destruct ph; by simplify_eq.
  - destruct Hp as (He & Hg & Hc). unfold opened. cbn [opens]. rewrite (proj2 (Z.eqb_neq _ _) Hg).
    intros [->|[->|[->|[]]]]; [done|done|]. cbn [follow] in E2. by injection E2 as <-.
Qed.

(** The tracker's epochs stay in range. *)
Lemma stage_range env q a b : repr_range a -> b ∈ stages env q a -> tr_cur a + 1 < 2 ^ 63 -> repr_range b.
Proof.
  intros Hr Hb Hlt. assert (repr_range (opened env q a)) as Ho.
  { unfold opened, tr_start. destruct (opens env q a); [|done]. unfold repr_range in *. destruct (tr_rec a =? 0) eqn:E; cbn; [|lia]. lia. }
  unfold stages in Hb. rewrite !elem_of_cons, elem_of_nil in Hb. destruct Hb as [->|[->|[->|[]]]]; [done|done|].
  unfold acked. destruct q; try exact Ho. unfold repr_range in *. cbn. lia.
Qed.

Lemma attends_run id evs rest ph a a' :
  repr_range a -> tr_cur a + Z.of_nat (length evs) + 1 < 2 ^ 63 -> in_phase id ph a -> attends id ph evs = true -> tracker_run a (evs ++ rest) a' ->
  exists b, repr_range b /\ entitled id b /\ tracker_run b rest a'.
Proof.
  revert ph a. induction evs as [|ev evs IH]; intros ph a Hr Hlt Hp; [intros _ Hrun; exists a; split; [done|]; split; [apply Hp|done]|].
  cbn [attends app length] in *. intros Hat Hrun.
  assert (exists env q ok b ph', (b = acked env q a \/ ok = false /\ b ∈ stages env q a) /\ follow id ph q ok = Some ph' /\
    attends id ph' evs = true /\ tracker_run b (evs ++ rest) a') as (env & q & ok & b & ph' & Hb & Hf & Hat' & Hrun').
  { inversion Hrun as [|? env q msgs ? ? Hok Hn|? env q st msgs b ? ? Hst Hb Hn|? env q b ? ? Hb Hn]; subst; exists env, q.
    - destruct (follow id ph q (0 =? 0)) as [ph'|] eqn:Ef; [|done]. exists true, (acked env q a), ph'. split_and!; [by left|done..].
    - rewrite (proj2 (Z.eqb_neq _ _) Hst) in Hat. destruct (follow id ph q false) as [ph'|] eqn:Ef; [|done].
      exists false, b, ph'. split_and!; [by right|done..].
    - destruct (follow id ph q false) as [ph'|] eqn:Ef; [|done]. exists false, b, ph'. split_and!; [by right|done..]. }
  assert (b ∈ stages env q a) as Hst by (destruct Hb as [->|[_ ?]]; [set_solver|done]).
  pose proof (stage_cur env q a b Hst). apply (IH ph' b); [eapply stage_range; [done|done|lia]|lia| |done|done].
  destruct Hb as [->|[-> _]]; [|by eapply stage_phase]. destruct ok; [by eapply acked_phase|eapply stage_phase; [done..|set_solver]].
Qed.

(** C34. No client is forgotten: a client that is recorded in the current epoch, or in
    the recovery epoch while a grace period is on, is among the records handed to
    the kernel's pipe at every acknowledged start of a grace period, over any
    sequence of upcalls of old and new kernels, acknowledged or failed, and of stops
    of the machine at any statement, grace periods that are interrupted and started
    again included; provided that the client is not removed and that no grace
    period is ended before the client, back since that period's start, has been
    acknowledged.  This is for a database after its one-time upgrade. *)
Theorem cld_reclaim s a id evs env msgs s' :
  live s a -> entitled id a -> attends id Unknown evs = true ->
  tr_cur a + Z.of_nat (length evs) + 2 < 2 ^ 63 ->
  cld_run s (evs ++ [Served env Cld_GraceStart 0 msgs]) s' ->
  exists hash, (take NFS4_OPAQUE_LIMIT id, hash) ∈ msgs.
Proof.
  intros Hs He Hat Hlt Hrun. apply (run_tracker s a) in Hrun as (a' & Ht & _); [|done|rewrite length_app; cbn [length]; lia].
  apply (attends_run id evs _ Unknown) in Ht as (b & Hr & Hb & Ht); [|apply (lv_repr _ _ Hs)|lia|done|done].
  inversion Ht as [|? ? ? ? ? ? Hm _|? ? ? ? ? ? ? ? Hst|]; subst; [|done]. cbn [reply_ok] in Hm. unfold opened in Hm. cbn [opens] in Hm.
  destruct (start_entitled id b Hr Hb) as [Hg [h Hh]]. rewrite (proj2 (Z.eqb_neq _ _) Hg) in Hh.
  exists (take SHA256_DIGEST_SIZE (default [] h)). rewrite Hm. apply list_elem_of_fmap. exists (id, h). split; [done|]. by apply elem_of_map_to_list.
Qed.
End safe.

(** ** A database in memory *)

(** The statements that fail, one after the other. *)
Record memdb := MemDb { mb_view : tables; mb_disk : tables; mb_tx : bool; mb_faults : list bool }.

Definition mem_read (h : memdb) : tables := if mb_tx h then mb_view h else mb_disk h.

Definition mem_answer (s : stmt) (T : tables) : list (list sqlval) :=
  match s with
  | SelectParam k => match t_params T with Some p => match p !! k with Some v => [[STxt v]] | None => [] end | None => [] end
  | SelectGrace => map (fun cr => [SInt (fst cr); SInt (snd cr)]) (default [] (t_grace T))
  | CountId name id => [[SInt (match t_recs T !! name with Some t => match rc_rows t !! id with Some _ => 1 | None => 0 end | None => 0 end)]]
  | SelectAll name => match t_recs T !! name with Some t => map row_of_client (map_to_list (rc_rows t)) | None => [] end
  | RecNames unpadded => map (fun n => [STxt n]) (List.filter (fun n => negb unpadded || (length n <? 20)%nat) (map fst (map_to_list (t_recs T))))
  | CopyAttached _ => [[SInt (Z.of_nat (length (default [] (t_cltrack T))))]]
  | _ => []
  end.

#[export] Instance mem_sqlite : Sqlite memdb := fun s h =>
  let failed h := (SFail 1, h) in
  match s, mb_faults h with
  | Rollback, fs => ((if mb_tx h then SOk [] else SFail 1), MemDb (mb_disk h) (mb_disk h) false fs)
  | _, true :: fs => failed (MemDb (mb_view h) (mb_disk h) (mb_tx h) fs)
  | Begin, fs => if mb_tx h then failed h else (SOk [], MemDb (mb_disk h) (mb_disk h) true (drop 1 fs))
  | Commit, fs => if mb_tx h then (SOk [], MemDb (mb_view h) (mb_view h) false (drop 1 fs)) else failed h
  | s, fs => match effect s (mem_read h) with
             | None => failed h
             | Some T => (SOk (mem_answer s (mem_read h)), MemDb T (if mb_tx h then mb_disk h else T) (mb_tx h) (drop 1 fs))
             end
  end.

Lemma mem_answers s T T' : effect s T = Some T' -> answers s T (mem_answer s T).
Proof.
  destruct s; cbn [effect answers mem_answer]; try done; intros E.
  - destruct (t_params T) as [p|]; [by exists p|done].
  - destruct (t_grace T) as [g|]; [by exists g|done].
  - destruct (t_recs T !! name) as [t|]; [by exists t|done].
  - destruct (t_recs T !! name) as [t|]; [by exists t|done].
Qed.

#[export] Instance mem_laws : SqliteLaws memdb.
Proof.
  refine (Build_SqliteLaws memdb _ mem_read mb_disk mb_tx _ _ _ _ _ _).
  - intros h Hh. unfold mem_read. by rewrite Hh.
  - intros s [V D tx fs] c h'. unfold sql, mem_sqlite. cbn [mb_faults mb_tx mb_view mb_disk].
    destruct s, fs as [|[|] fs]; cbn [mb_tx]; repeat case_match; intros E; simplify_eq; cbn; auto.
  - intros [V D tx fs] r h'. unfold sql, mem_sqlite. cbn. destruct fs as [|[|] fs], tx; intros E; simplify_eq; cbn; auto.
  - intros [V D tx fs] r h'. unfold sql, mem_sqlite. cbn. destruct fs as [|[|] fs], tx; intros E; simplify_eq; cbn; auto.
  - intros h. done.
  - intros s [V D tx fs] r h' O1 O2 O3. unfold sql, mem_sqlite. cbn [mb_faults mb_tx mb_view mb_disk].
    destruct (effect s (mem_read (MemDb V D tx fs))) as [T|] eqn:E.
    + pose proof (mem_answers _ _ _ E) as Ha. destruct s, fs as [|[|] fs]; try done; intros [= <- <-]; unfold mem_read in *; cbn in *; destruct tx; auto.
    + destruct s, fs as [|[|] fs]; try done; by rewrite ?E.
Defined.

Definition params_ex (version first : cstr) : gmap cstr cstr := <[$"version" := version]> {[$"first_time" := first]}.
Definition mem_of (T : tables) : memdb := MemDb T T false [].

Definition tracker_ex : tracker := Tracker 1 0 {[$"c1" := None]} ∅.
Definition tables_ex : tables := Tables (Some (params_ex $"4" $"0")) (Some [(1, 0)]) (recs_of tracker_ex) None None false.
Definition cld_ex : cld memdb := Cld (mem_of tables_ex) 1 0 0 0 0 None [].
Definition env_new : cld_env := CldEnv false None false (fun _ => true).

Definition cld_ex1 : cld memdb := (serve_upcall env_new Cld_GraceStart cld_ex).2.
(** A stop in the transaction that ends the grace period, after its first statement. *)
Definition cld_ex2 : cld memdb := (serve_upcall env_new Cld_GraceDone cld_ex1).2.
Definition stop_ex : list memdb := take 4 (passed cld_ex2).
Definition left_ex : memdb := mem_of (mb_disk (default (dbh cld_ex1) (stop_ex !! 2%nat))).
Definition cld_ex3 : cld memdb := (sqlite_prepare_dbh false (fresh_cld left_ex None)).2.
Definition events_ex : list cld_event := [Served env_new Cld_GraceStart 0 [($"c1", [])]; Stopped env_new Cld_GraceDone].

Lemma cld_ex_live : live cld_ex tracker_ex.
Proof. split; try done. split; [done|done|done|done|]. eexists. split_and!; [reflexivity|vm_compute; reflexivity|vm_compute; reflexivity]. Qed.

Lemma cld_ex_run : cld_run cld_ex events_ex cld_ex3.
Proof.
  eapply run_served; [vm_compute; reflexivity|]. change (cld_run cld_ex1 [Stopped env_new Cld_GraceDone] cld_ex3).
  assert (stop_ex !! 2%nat = Some (default (dbh cld_ex1) (stop_ex !! 2%nat))) as El by (vm_compute; reflexivity).
  apply (run_stopped cld_ex1 env_new Cld_GraceDone 0 [] cld_ex2 stop_ex (default (dbh cld_ex1) (stop_ex !! 2%nat)) left_ex None false cld_ex3).
  - vm_compute. reflexivity.
  - vm_compute. reflexivity.
  - apply elem_of_app. left. by eapply list_elem_of_lookup_2.
  - split; [reflexivity|]. vm_compute. reflexivity.
  - vm_compute. reflexivity.
  - constructor.
Qed.

Lemma cld_refines_witness :
  recovery_epoch cld_ex3 = 1 /\ exists a', tracker_run tracker_ex events_ex a' /\ live cld_ex3 a'.
Proof.
  split; [vm_compute; reflexivity|]. apply (cld_refines cld_ex tracker_ex events_ex cld_ex3); [exact cld_ex_live|cbn; lia|exact cld_ex_run].
Defined.

(** A client comes back in a grace period that was interrupted once and is over
    then; in the next one it is offered again. *)
Definition upcalls_ex : list upcall :=
  [Cld_GraceStart; Cld_Create 2 $"c1" $"h"; Cld_GraceStart; Cld_Create 2 $"c1" $"h"; Cld_GraceDone; Cld_Create 2 $"c2" $"h"].
Fixpoint served_ex (s : cld memdb) (qs : list upcall) : list cld_event * cld memdb :=
  match qs with
  | [] => ([], s)
  | q :: qs => let '(st, msgs, s) := serve_upcall env_new q s in let '(evs, s') := served_ex s qs in (Served env_new q st msgs :: evs, s')
  end.
Definition cld_ex4 : cld memdb := (served_ex cld_ex upcalls_ex).2.
Definition cld_ex5 : cld memdb := (serve_upcall env_new Cld_GraceStart cld_ex4).2.

Lemma served_ex_run qs s env q s' st msgs :
  serve_upcall env q (served_ex s qs).2 = (st, msgs, s') -> cld_run s ((served_ex s qs).1 ++ [Served env q st msgs]) s'.
Proof.
  revert s. induction qs as [|q0 qs IH]; intros s; cbn [served_ex fst snd app].
  - intros E. eapply run_served; [exact E|constructor].
  - destruct (serve_upcall env_new q0 s) as [[st0 msgs0] s0] eqn:E0. specialize (IH s0). destruct (served_ex s0 qs) as [evs s1]. cbn [fst snd app] in *.
    intros E. eapply run_served; [exact E0|]. by apply IH.
Qed.

Lemma cld_reclaim_witness :
  exists msgs, (serve_upcall env_new Cld_GraceStart cld_ex4).1 = (0, msgs) /\ exists hash, ($"c1", hash) ∈ msgs.
Proof.
  destruct (serve_upcall env_new Cld_GraceStart cld_ex4) as [[st msgs] s'] eqn:E.
  assert (st = 0) as -> by (assert ((serve_upcall env_new Cld_GraceStart cld_ex4).1.1 = 0) as H by (vm_compute; reflexivity); rewrite E in H; exact H).
  exists msgs. split; [reflexivity|].
  apply (cld_reclaim cld_ex tracker_ex $"c1" (served_ex cld_ex upcalls_ex).1 env_new msgs s' cld_ex_live).
  - vm_compute. eauto.
  - vm_compute. reflexivity.
  - vm_compute. reflexivity.
  - apply served_ex_run. exact E.
Defined.

(** ** The upgrades *)

(** Before the first grace period is over, a restart of the daemon replaces the clients of the current epoch by those of nfsdcltrack. *)
Lemma cld_upgrade_restart :
  let T := Tables (Some (params_ex $"4" $"1")) (Some [(2, 1)]) (recs_of (Tracker 2 1 {[$"new" := None]} {[$"old" := None]})) None (Some [$"old"]) false in
  (fun t => rc_rows t) <$> t_recs (mb_disk (dbh (sqlite_prepare_dbh true (fresh_cld (mem_of T) None)).2)) !! rec_name 2 = Some {[$"old" := None]}.
Proof. vm_compute. reflexivity. Qed.

(** A database of version 2 is given the new version without the tables of the epochs: this start fails, and every later one. *)
Lemma cld_upgrade_v2 :
  let T := Tables (Some {[$"version" := $"2"]}) None ∅ (Some [$"c1"]) None false in
  let s := (sqlite_prepare_dbh false (fresh_cld (mem_of T) None)).2 in
  (sqlite_prepare_dbh false (fresh_cld (mem_of T) None)).1 = inl 1 /\
  (p ← t_params (mb_disk (dbh s)); p !! $"version") = Some $"4" /\
  (sqlite_prepare_dbh false (fresh_cld (dbh s) None)).1 = inl 1.
Proof. vm_compute. done. Qed.
